(* ===== verification/_CoqProject ===== *)
-Q . S2P
Prelude.v
UserNamespace.v
UserCharge.v
CLib.v
GuestIdentity.v
FileAccess.v
PosixAcl.v
Landlock.v
PidNamespace.v
ResourceOrder.v
NetworkIp.v
NetworkFilter.v
FilterValidate.v
FilterEval.v
Bpf.v
Syscalls.v
FdFilter.v
FdSelector.v
PidFilter.v
Interception.v
SocketFilter.v
WatchQueue.v
ProcessLimits.v
MountTopology.v
BinfmtRule.v
BpfMap.v
ElfImage.v
OfdOrder.v
Arm64.v
SvcGate.v
SvcRecover.v
SvcThreads.v
SysvIpc.v
SysvOk.v
SysvSem.v
SysvMsg.v
SysvCall.v
SysvSpec.v
NetModel.v
NetRoute.v
NetControl.v
NetLink.v
NetOk.v
NetFabric.v
NetRequest.v
NetSpec.v
