(* ===== verification/Prelude.v ===== *)
(** * Verification of the guest runtime of MagicDesk (src/native/shroot/src)

    The runtime runs unmodified Linux programs without kernel privileges.  A
    supervisor intercepts the system calls of the guest and answers them from its
    own model of Linux: user and pid namespaces, credentials, capabilities, access
    control lists, Landlock, resource limits, network filters, inotify.  This
    library models the parts whose behaviour is decided in the runtime's own
    memory, as executable definitions that follow the C functions, and proves what
    the rest of the runtime relies on.

    ** The parts and their files

    Identity and permissions.
    - UserNamespace: the id maps, translation and capability reach of user
      namespaces (user_namespace.c).  Accepted map writes keep every map disjoint
      and covered by its parent; translation out and back is the identity;
      capability reach is that of Linux.
    - UserCharge: counts, limits, creation and destruction of user namespaces
      (user_namespace.c).  A refused charge leaves no trace, a released one
      restores every count.
    - GuestIdentity: credentials, capability sets, securebits and exec
      (guest_identity.c), over the namespaces of UserNamespace.  Capability sets
      stay ordered, no_new_privs and locked securebits confine.
    - FileAccess: mode checks, capability attributes, numeric users
      (file_permissions.h, file_capability.h, identity_call.h, guest_user.h).
    - PosixAcl: validation, mapping and decision of access control lists
      (posix_acl.c), equal to a reference algorithm.
    - Landlock: rulesets, layered policies and the check (landlock_policy.c,
      inode_lifetime.c).

    Processes.
    - PidNamespace: number tables, reservation, exit, reaping and exec
      renumbering (pid_namespace.c).  Numbers are unique, the scan for a free one
      is complete, a failed preparation changes nothing.
    - ProcessLimits: accounts per user and namespace, RLIMIT_NPROC and prlimit
      (process_limits.c), over UserNamespace and GuestIdentity.  No assertion can
      fail, counts and references are exact, nothing leaks.
    - ResourceOrder: turns on a shared kernel object (resource_order.c), refining a
      list specification.  OfdOrder: turns per open file description
      (ofd_order.c), over ResourceOrder; descriptors of one description share one
      queue.

    System call gate.
    - Arm64: the registers, memory and instructions that the gate uses.
    - SvcGate: the frame that replaces an SVC instruction and its guards, as
      svc_direct.c plans it from the assembly of svc_single.S (svc_frame.c,
      svc_frame.inc, svc_patch.c).
    - SvcRecover: a run of the gate, instruction by instruction, and the recovery of
      a thread that a signal interrupts in it (md_svc_direct_recover).  An
      undisturbed run restores every register and the stack pointer; a recovered
      thread is where it would be had the signal come before or after the call.
    - SvcThreads: threads that share the frames of a gate; no two ever own one.

    Interprocess communication.
    - SysvIpc: the database of System V objects as finite maps with its keys and
      cascades, sessions of statements that may fail, permissions
      (sysv_ipc_db.c, ipc_permissions.c, ipc_pid.h); rules to reason about
      sessions.  SysvOk: consistency of the tables.
    - SysvSem, SysvMsg: semaphores and message queues (sysv_sem.c, sysv_msg.c).
    - SysvCall: transactions, savepoints, waits, retries, the exit of processes and
      the recovery of dead supervisors (sysv_ipc.c, ipc_database.c).
    - SysvSpec: committed tables are consistent after every history, a failed
      attempt changes nothing, and semop, msgsnd, msgrcv and the adjustments at
      exit do what their sequential descriptions say.

    Mounts and programs.
    - MountTopology: the order of mounts, the hash index of what is mounted where
      and the allocation of slots and identities (mount_namespace.c,
      fs_mount_internal.h, inode_mount_boundary.h).  The order puts every parent
      before its children and fails exactly when there is none; the indexed lookup
      answers as a scan of all mounts would.
    - BinfmtRule: registrations of binary formats, what they match and their
      status text (binfmt_rule.c).  Parsed rules are well formed, a rule matches
      the programs its text describes, its status fits the buffer of its file, and
      the registration line of a rule reads back as the rule.
    - ElfImage: admission and mapping of a program image (elf.c).  The image has
      the bytes of its segments and zeros where they say, and no mapping leaves
      the reserved range.
    - BpfMap: the hash maps of guest programs and their registry (bpf_map.c),
      refining a finite map.

    Filters in the kernel.
    - Bpf: classic BPF and its execution; a small calculus of what a block of
      instructions decides.  Syscalls: the numbers that the programs name.
    - Interception: the base seccomp program of every guest (interception.c,
      md_interception_install).  It decides as a table of calls does, and lets
      nothing through that the supervisor has to see.
    - FdFilter, FdSelector: the programs for selected descriptors and the record of
      which were installed (fd_filter_program.c, fd_selector.c).
    - PidFilter: the program for calls that name processes (pid_filter_program.c).
    - SocketFilter: the translation of a guest's packet filter to a carrier with a
      prefix (socket_filter.c); it returns what the original returns.

    Network filters.
    - NetworkIp: addresses, prefixes, refusals (network_ip.c, network_reject.c).
    - NetworkFilter: tables, chains, rules and sets (network_filter.c, the match of
      network_ipset.c); the binary search of a set agrees with a scan.
    - FilterValidate, FilterEval: admission and interpretation of rulesets
      (network_filter_program.c).  Admitted rulesets jump without cycles and use
      each expression only in hooks that have it, so that the interpreter's depth
      bound is never met and evaluation ends.

    Network control plane.
    - NetModel: namespaces of a fabric, their links and addresses, route lookup
      and policy routing; adding, moving and removing links (network_model.c,
      network_internal.h, the lookup of network_policy.c).
    - NetControl: the requests that change rules, next hops and routes
      (network_policy.c, network_nexthop.c, network_route_ip.c,
      netlink_attributes.h).
    - NetLink: link requests, tunnels, the journal of a request with its commit or
      undo, new and released namespaces (network_route.c, network_vxlan.c,
      network_model.c).
    - NetRoute: a lookup returns the best of all candidates; a policy lookup is a
      walk over the rules.
    - NetOk, NetFabric, NetRequest: the invariants of a namespace and of a fabric, and
      that every operation keeps them.  NetSpec: in every reachable fabric routes
      go over existing links and agree with their next hops, tunnels have an
      underlay, indexes are unique and the ends of a cable name each other; a
      request that is not committed changes nothing, except that a removal which
      names another namespace can lose the far end of a cable; a released
      namespace leaves nothing behind.

    Notification.
    - WatchQueue: the queue of inotify records (watch_queue.c), refining a FIFO
      with overflow and leases; no record is lost, freed twice or leaked.

    CLib has the parts of the C library that several files use (qsort, bsearch).

    ** Conventions

    - An unsigned w-bit value is a [Z]; every place where the C arithmetic can
      leave the range is wrapped explicitly with [wrap32] or [wrap64].
    - An [int] result is a [Z], 0 for success and a negated errno on failure.
    - A mask test [x & m] used as a condition is [has_bits x m]; [x & ~m] is
      [Z.ldiff x m].
    - C pointers are locations of a heap, a record of finite maps; NULL is [None].
      Allocation takes a fresh location.  What the kernel, the allocator or another
      process answers is an argument of the definition that asks.
    - A failed assertion or an exhausted fuel is [None] where it can be observed,
      and a theorem shows that it is not reached.

    ** Fuel

    Recursion is structural wherever the C loop is bounded by data.  Walks along
    pointers have as fuel the depth limit of the namespaces
    (MD_USER_NAMESPACE_DEPTH, which the creation of a namespace enforces) or the
    size of the heap they walk, in which no location repeats.  The scan for a free
    process number has one step more than there are numbers in use; the
    propagation of hooks has ten rounds per chain and one more, since each round
    adds one of at most ten bits to some chain; the evaluation of a hook has a step
    per chain and one more.  The climb to an unplaced ancestor has one step more
    than there are mounts, since it marks each one it passes; a chain of the
    placement index has a step per mount.  Attributes of a netlink request have a
    step per byte, each takes four at least; the removal of a link has a step per
    link and one more, since nothing is over a tunnel ([remove_one_ok]); an
    automatic name has the 65535 tries of the code.  That the fuel suffices is part of the
    invariants, or of [pid_reserve_complete], [filter_hooks_confined],
    [hook_evaluation_total], [topology_order_correct] and [mount_lookup_exact].

    ** What is not modelled

    The event loop of the supervisor, the registration of gates and the dispatcher
    they enter, the filesystem engine and its providers, the inode store, System V
    shared memory, the packets and sockets of the routed network stack, netlink
    replies, FUSE, devices, image tools and the Android application.  They are driven by ptrace, sockets, files
    or machine memory; where a modelled function calls into them, their answer is
    an argument.  Of interception.c only the construction of the filter is
    modelled, of network_ipset.c only the match, of supervisor.c only the exec step
    of the credentials, of mount_namespace.c the order and the lookup, of bpf_map.c
    not the wrapping into control files, of network_route.c not the decoding of link
    attributes and the notifications, of network_route_ip.c not the requests on
    addresses, which end in autoconfiguration.  SQLite is its documented behaviour on the
    statements of the code: the answer of each statement is an argument, and a
    failed one changes nothing.  Descriptor duplication of exec images, the
    transfer of namespace pages between processes, the creation of database tables
    and the files of owner leases are left out.

    ** This file

    It holds the words, masks and errno values above, the order "every bit of [a]
    is a bit of [b]" on masks with its hint database, a bit-blasting tactic, the
    error monad, and the list lemmas that several components use. *)
From stdpp Require Export base list gmap numbers strings.
From Stdlib Require Export Btauto.

#[global] Open Scope Z_scope.

Definition UINT32_MAX : Z := 4294967295.
Definition UINT64_MAX : Z := 18446744073709551615.
Definition INT_MAX : Z := 2147483647.
Definition wrap32 (z : Z) : Z := z mod 4294967296.
Definition wrap64 (z : Z) : Z := z mod 18446744073709551616.

(** Errno values of the Linux ABI. *)
Definition EPERM : Z := 1.
Definition ENOENT : Z := 2.
Definition ESRCH : Z := 3.
Definition EIO : Z := 5.
Definition E2BIG : Z := 7.
Definition ENOEXEC : Z := 8.
Definition EBADF : Z := 9.
Definition EAGAIN : Z := 11.
Definition ENOMEM : Z := 12.
Definition EACCES : Z := 13.
Definition EFAULT : Z := 14.
Definition EBUSY : Z := 16.
Definition EEXIST : Z := 17.
Definition EINVAL : Z := 22.
Definition ENOSPC : Z := 28.
Definition ERANGE : Z := 34.
Definition ENAMETOOLONG : Z := 36.
Definition ELOOP : Z := 40.
Definition ENOMSG : Z := 42.
Definition EPROTO : Z := 71.
Definition EOVERFLOW : Z := 75.
Definition EMSGSIZE : Z := 90.
Definition EPROTONOSUPPORT : Z := 93.
Definition EOPNOTSUPP : Z := 95.
Definition EAFNOSUPPORT : Z := 97.
Definition ENETUNREACH : Z := 101.
Definition ESTALE : Z := 116.

(** [x & m] as a C condition. *)
Definition has_bits (x m : Z) : bool := negb (Z.land x m =? 0).

(** [1ULL << n]. *)
Definition bit (n : Z) : Z := Z.shiftl 1 n.

Declare Scope mask_scope.
Delimit Scope mask_scope with mask.
#[global] Open Scope mask_scope.

(** Mask inclusion: [a & ~b] is empty. *)
Definition bits_le (a b : Z) : Prop := Z.ldiff a b = 0.
Notation "a ⊑ᵇ b" := (bits_le a b) (at level 70) : mask_scope.

(** Fallible steps: a value, or the negated errno that the caller returns. *)
Definition ebind {A B} (r : A + Z) (f : A → B + Z) : B + Z := match r with inl x => f x | inr e => inr e end.
Notation "'let!' x := r 'in' k" := (ebind r (λ x, k)) (at level 200, x name, right associativity).
Lemma ebind_inl {A B} (r : A + Z) (f : A → B + Z) y : ebind r f = inl y → ∃ x, r = inl x ∧ f x = inl y.
Proof. destruct r as [x|]; [by exists x|done]. Qed.

(** Case analysis on the conditionals of a translated C function. *)
Ltac case_if :=
  match goal with
  | |- context [if ?b then _ else _] => let E := fresh "E" in destruct b eqn:E
  | H : context [if ?b then _ else _] |- _ => let E := fresh "E" in destruct b eqn:E
  end.
Ltac case_ifs := repeat case_if.

(** Boolean comparisons to propositions. *)
Ltac breflect :=
  repeat match goal with
  | H : (_ && _)%bool = true |- _ => apply andb_true_iff in H as [? ?]
  | H : (_ || _)%bool = false |- _ => apply orb_false_iff in H as [? ?]
  | H : negb _ = true |- _ => apply negb_true_iff in H
  | H : negb _ = false |- _ => apply negb_false_iff in H
  | H : (_ =? _) = true |- _ => apply Z.eqb_eq in H
  | H : (_ =? _) = false |- _ => apply Z.eqb_neq in H
  | H : (_ <=? _) = true |- _ => apply Z.leb_le in H
  | H : (_ <=? _) = false |- _ => apply Z.leb_gt in H
  | H : (_ <? _) = true |- _ => apply Z.ltb_lt in H
  | H : (_ <? _) = false |- _ => apply Z.ltb_ge in H
  end.

(** Linear arithmetic with division and modulo by constants. *)
Ltac divlia := Z.to_euclidean_division_equations; lia.

(** ** Words *)

Lemma wrap32_small x : 0 ≤ x ≤ UINT32_MAX → wrap32 x = x.
Proof. unfold wrap32, UINT32_MAX. intros. apply Z.mod_small. lia. Qed.
Lemma wrap64_small x : 0 ≤ x ≤ UINT64_MAX → wrap64 x = x.
Proof. unfold wrap64, UINT64_MAX. intros. apply Z.mod_small. lia. Qed.

(** ** Masks *)

Lemma bits_le_spec a b :
  a ⊑ᵇ b ↔ ∀ i, 0 ≤ i → Z.testbit a i = true → Z.testbit b i = true.
Proof.
  unfold bits_le; split.
  - intros H i Hi Ha. assert (Z.testbit (Z.ldiff a b) i = false) as Hd by (rewrite H; apply Z.bits_0).
    rewrite Z.ldiff_spec, Ha in Hd. by destruct (Z.testbit b i).
  - intros H. apply Z.bits_inj'. intros i Hi. rewrite Z.ldiff_spec, Z.bits_0.
    destruct (Z.testbit a i) eqn:E; [|done]. by rewrite (H i Hi E).
Qed.

Lemma bits_le_refl a : a ⊑ᵇ a.
Proof. apply bits_le_spec. auto. Qed.
Lemma bits_le_trans a b c : a ⊑ᵇ b → b ⊑ᵇ c → a ⊑ᵇ c.
Proof. rewrite !bits_le_spec. auto. Qed.
Lemma bits_le_0 a : 0 ⊑ᵇ a.
Proof. apply bits_le_spec. intros i _. by rewrite Z.bits_0. Qed.
Lemma bits_le_land_l a b : Z.land a b ⊑ᵇ a.
Proof. apply bits_le_spec. intros i _. rewrite Z.land_spec. by intros [? _]%andb_true_iff. Qed.
Lemma bits_le_land_r a b : Z.land a b ⊑ᵇ b.
Proof. apply bits_le_spec. intros i _. rewrite Z.land_spec. by intros [_ ?]%andb_true_iff. Qed.
Lemma bits_le_land a b c : a ⊑ᵇ b → a ⊑ᵇ c → a ⊑ᵇ Z.land b c.
Proof. rewrite !bits_le_spec. intros H1 H2 i Hi Ha. rewrite Z.land_spec, H1, H2; auto. Qed.
Lemma bits_le_lor a b c : a ⊑ᵇ c → b ⊑ᵇ c → Z.lor a b ⊑ᵇ c.
Proof.
  rewrite !bits_le_spec. intros H1 H2 i Hi. rewrite Z.lor_spec.
  intros [?|?]%orb_true_iff; auto.
Qed.
Lemma bits_le_lor_l a b c : a ⊑ᵇ b → a ⊑ᵇ Z.lor b c.
Proof. rewrite !bits_le_spec. intros H i Hi Ha. rewrite Z.lor_spec, H; auto. Qed.
Lemma bits_le_lor_r a b c : a ⊑ᵇ c → a ⊑ᵇ Z.lor b c.
Proof. rewrite !bits_le_spec. intros H i Hi Ha. rewrite Z.lor_spec, H, orb_true_r; auto. Qed.
Lemma bits_le_ldiff a b c : a ⊑ᵇ c → Z.ldiff a b ⊑ᵇ c.
Proof.
  rewrite !bits_le_spec. intros H i Hi. rewrite Z.ldiff_spec. intros [? _]%andb_true_iff; auto.
Qed.
Lemma bits_le_land_mono a b c d : a ⊑ᵇ c → b ⊑ᵇ d → Z.land a b ⊑ᵇ Z.land c d.
Proof.
  intros H1 H2. apply bits_le_land; eapply bits_le_trans;
    [apply bits_le_land_l|done|apply bits_le_land_r|done].
Qed.
Lemma bits_le_land_drop_l a b c : a ⊑ᵇ c → Z.land a b ⊑ᵇ c.
Proof. intros. eapply bits_le_trans; [apply bits_le_land_l|done]. Qed.
Lemma bits_le_land_drop_r a b c : b ⊑ᵇ c → Z.land a b ⊑ᵇ c.
Proof. intros. eapply bits_le_trans; [apply bits_le_land_r|done]. Qed.
Lemma bits_le_land_eq a b : a ⊑ᵇ b ↔ Z.land a b = a.
Proof.
  split.
  - intros H. apply Z.bits_inj'. intros i Hi. rewrite Z.land_spec.
    destruct (Z.testbit a i) eqn:E; [|done]. rewrite bits_le_spec in H. by rewrite H.
  - intros <-. apply bits_le_land_r.
Qed.

Lemma has_bits_bit x i : 0 ≤ i → has_bits x (bit i) = Z.testbit x i.
Proof.
  intros Hi. unfold has_bits, bit. rewrite Z.shiftl_1_l. destruct (Z.testbit x i) eqn:E.
  - apply negb_true_iff, Z.eqb_neq. intros H. apply (f_equal (λ z, Z.testbit z i)) in H.
    rewrite Z.land_spec, E, Z.pow2_bits_true, Z.bits_0 in H by done. done.
  - apply negb_false_iff, Z.eqb_eq. apply Z.bits_inj'. intros j Hj. rewrite Z.land_spec, Z.bits_0.
    destruct (decide (i = j)) as [<-|]; [by rewrite E|]. by rewrite Z.pow2_bits_false, andb_false_r.
Qed.
Lemma has_bits_le x i : has_bits x (bit i) = true → bit i ⊑ᵇ x.
Proof.
  destruct (decide (0 ≤ i)) as [Hi|Hi].
  - rewrite has_bits_bit by done. intros Hx. apply bits_le_spec. intros j Hj. unfold bit.
    rewrite Z.shiftl_1_l. destruct (decide (i = j)) as [<-|]; [done|]. by rewrite Z.pow2_bits_false.
  - unfold has_bits, bit. rewrite Z.shiftl_1_l, Z.pow_neg_r, Z.land_0_r by lia. done.
Qed.

(** Fields that do not overlap: [lo | hi << n] is a sum. *)
Lemma lor_shiftl_add lo hi n : 0 ≤ n → 0 ≤ lo < 2 ^ n → Z.lor lo (Z.shiftl hi n) = lo + hi * 2 ^ n.
Proof.
  intros Hn Hlo. rewrite <- Z.shiftl_mul_pow2 by done. rewrite <- (Z.add_lor_land lo).
  enough (Z.land lo (Z.shiftl hi n) = 0) as -> by lia.
  apply Z.bits_inj'. intros i Hi. rewrite Z.land_spec, Z.bits_0, Z.shiftl_spec by done.
  destruct (decide (i < n)) as [Hin|Hin].
  - by rewrite (Z.testbit_neg_r hi) by lia; apply andb_false_r.
  - rewrite <- (Z.mod_small lo (2 ^ n)) by done. by rewrite Z.mod_pow2_bits_high by lia.
Qed.

Create HintDb bits.
#[export] Hint Resolve bits_le_refl bits_le_0 bits_le_land_l bits_le_land_r bits_le_lor
  bits_le_lor_l bits_le_lor_r bits_le_ldiff bits_le_land bits_le_land_drop_l
  bits_le_land_drop_r : bits.

Create Rewrite HintDb testbits.
#[export] Hint Rewrite Z.land_spec Z.lor_spec Z.ldiff_spec Z.lxor_spec Z.bits_0 : testbits.

(** Equality of masks, bit by bit. *)
Ltac bitblast :=
  apply Z.bits_inj'; intros ?i ?Hi; autorewrite with testbits; btauto.

(** ** Lists *)

Lemma find_cons {A} (f : A → bool) x l :
  List.find f (x :: l) = if f x then Some x else List.find f l.
Proof. done. Qed.

Lemma find_ext {A} (f g : A → bool) l : (∀ x, f x = g x) → List.find f l = List.find g l.
Proof. intros Hfg. induction l as [|x l IH]; [done|]. cbn. by rewrite Hfg, IH. Qed.

Lemma find_some_split {A} (f : A → bool) l x :
  List.find f l = Some x →
  ∃ l1 l2, l = l1 ++ x :: l2 ∧ f x = true ∧ Forall (λ y, f y = false) l1.
Proof.
  induction l as [|y l IH]; simpl; [done|]. destruct (f y) eqn:E.
  - intros [= ->]. exists [], l. auto.
  - intros (l1 & l2 & -> & Hx & Hl)%IH. exists (y :: l1), l2. auto.
Qed.

Lemma filter_all {A} (P : A → Prop) `{∀ x, Decision (P x)} (l : list A) : (∀ x, x ∈ l → P x) → filter P l = l.
Proof.
  induction l as [|x l IH]; intros Hl; [done|]. rewrite filter_cons_True by (apply Hl; by left).
  f_equal. apply IH. intros y Hy. apply Hl. by right.
Qed.
Lemma filter_none {A} (P : A → Prop) `{∀ x, Decision (P x)} (l : list A) : (∀ x, x ∈ l → ¬ P x) → filter P l = [].
Proof.
  induction l as [|x l IH]; intros Hl; [done|]. rewrite filter_cons_False by (apply Hl; by left).
  apply IH. intros y Hy. apply Hl. by right.
Qed.

Lemma elem_of_concat {A} (x : A) ll : x ∈ concat ll ↔ ∃ l, x ∈ l ∧ l ∈ ll.
Proof.
  induction ll as [|l ll IH]; cbn; [split; [by intros ?%elem_of_nil|by intros (? & _ & ?%elem_of_nil)]|].
  rewrite elem_of_app, IH. setoid_rewrite elem_of_cons. naive_solver.
Qed.
Lemma insert_middle {A} (l1 l2 : list A) x y : <[length l1 := y]> (l1 ++ x :: l2) = l1 ++ y :: l2.
Proof. rewrite <- (Nat.add_0_r (length l1)), insert_app_r. done. Qed.

(** ** Records updated in place *)

Section alter.
Context {K A : Type} `{Countable K}.
Implicit Types (m : gmap K A) (f g : A → A).

Lemma alter_swap m f g i j :
  (i = j → ∀ x, f (g x) = g (f x)) → alter f i (alter g j m) = alter g j (alter f i m).
Proof.
  intros Hfg. apply map_eq. intros k. rewrite !lookup_alter.
  repeat case_decide; subst; try done. destruct (m !! k); cbn; [|done]. by rewrite Hfg.
Qed.

Lemma alter_noop m f i : (∀ x, m !! i = Some x → f x = x) → alter f i m = m.
Proof.
  intros Hf. apply map_eq. intros k. rewrite lookup_alter. case_decide; [subst|done].
  destruct (m !! k) eqn:E; cbn; [|done]. by rewrite Hf.
Qed.

Lemma alter_undo m f g i : (∀ x, m !! i = Some x → g (f x) = x) → alter g i (alter f i m) = m.
Proof.
  intros Hf. apply map_eq. intros k. destruct (decide (i = k)) as [<-|Hne].
  - rewrite !lookup_alter_eq. destruct (m !! i) eqn:E; cbn; [|done]. by rewrite Hf.
  - by rewrite !lookup_alter_ne.
Qed.
End alter.
