(* ===== verification/UserNamespace.v ===== *)
(** * Logical user namespaces (src/native/shroot/src/user_namespace.c).

    A namespace is an object [md_user_namespace] whose policy lives in a shared
    page [namespace_page] (a sealed memfd): two write-once ID maps, the setgroups
    switch and the resource limits.  [NULL] is the launch's initial namespace.
    The C pointers are locations of a [world]; the parent chain that the C loops
    walk ([for (; n; n = n->parent)]) is the list [view w n], and each C loop is
    a structural recursion on it. *)
From S2P Require Import Prelude.

(** ** Data *)

Definition MD_USER_OVERFLOW_ID : Z := 65534.
Definition MD_USER_MAP_EXTENTS : Z := 340.
Definition MD_USER_NAMESPACE_DEPTH : Z := 33.
Definition MAGIC : Z := 1296323918.
Definition VERSION : Z := 4.

Definition CAP_SETGID : Z := 6.
Definition CAP_SETUID : Z := 7.
Definition CAP_SYS_ADMIN : Z := 21.
Definition CAP_SETFCAP : Z := 31.

Abbreviation loc := positive (only parsing).

Record md_user_namespace_key := mk_key { k_device : Z; k_inode : Z; k_generation : Z }.

#[export] Instance md_user_namespace_key_eq_dec : EqDecision md_user_namespace_key.
Proof. solve_decision. Defined.

Record md_id_extent := mk_extent { x_inside : Z; x_outside : Z; x_count : Z }.

(** [struct id_map]: a published length and the array it bounds. *)
Record id_map := mk_id_map { m_count : Z; m_ranges : list md_id_extent }.

Record namespace_page := mk_page {
  p_magic : Z; p_version : Z; p_depth : Z; p_owner : Z; p_group : Z; p_creator_setfcap : Z;
  p_inode : Z;
  p_parent : md_user_namespace_key;
  p_groups_allowed : Z;
  p_limits : list Z;
  p_maps0 : id_map;
  p_maps1 : id_map }.

Record md_user_namespace := mk_ns {
  n_references : Z;
  n_parent : option loc;
  n_id : md_user_namespace_key;
  n_fd : Z;
  n_writer : bool;
  n_page : loc;
  n_accounts : list loc;
  n_charge : option loc }.

Record md_user_charge := mk_charge {
  c_space : option loc; c_uid : Z; c_count : list Z; c_references : Z }.

(** The process's namespaces and charge records, the pages they map, and the
    file-scope variables [initial_accounts] and [initial_limits]. *)
Record world := mk_world {
  w_spaces : gmap loc md_user_namespace;
  w_pages : gmap loc namespace_page;
  w_charges : gmap loc md_user_charge;
  w_initial_accounts : list loc;
  w_initial_limits : list Z }.

Record md_user_authority := mk_authority {
  a_namespace : option loc; a_uid : Z; a_gid : Z; a_caps : Z }.

(** One step of a parent chain: the object, where it is, and its page. *)
Record node := mk_node { nd_loc : loc; nd_ns : md_user_namespace; nd_page : namespace_page }.

(** The chain [n], [n->parent], ... up to NULL.  Depths are at most
    [MD_USER_NAMESPACE_DEPTH], which bounds the walk. *)
Fixpoint chain (fuel : nat) (w : world) (n : option loc) : list node :=
  match fuel, n with
  | S fuel, Some l =>
      match w_spaces w !! l with
      | Some s =>
          match w_pages w !! n_page s with
          | Some p => mk_node l s p :: chain fuel w (n_parent s)
          | None => []
          end
      | None => []
      end
  | _, _ => []
  end.
Definition view (w : world) (n : option loc) : list node :=
  chain (Z.to_nat MD_USER_NAMESPACE_DEPTH) w n.

(** ** Identity and comparison *)

(** A pointer as [same] sees it: its address and, unless NULL, the key. *)
Definition handle (v : list node) : option (loc * md_user_namespace_key) :=
  match v with [] => None | nd :: _ => Some (nd_loc nd, n_id (nd_ns nd)) end.

Definition same_id (a b : md_user_namespace_key) : bool :=
  (k_device a =? k_device b) && (k_inode a =? k_inode b) && (k_generation a =? k_generation b).

Definition same (a b : option (loc * md_user_namespace_key)) : bool :=
  match a, b with
  | None, None => true
  | Some (la, ka), Some (lb, kb) => bool_decide (la = lb) || same_id ka kb
  | _, _ => false
  end.

Definition md_user_namespace_same (w : world) (a b : option loc) : bool :=
  same (handle (view w a)) (handle (view w b)).

Definition zero_key : md_user_namespace_key := mk_key 0 0 0.

Definition md_user_namespace_key_of (v : list node) : md_user_namespace_key :=
  match v with [] => zero_key | nd :: _ => n_id (nd_ns nd) end.

(** ** ID translation *)

Definition map_count (m : id_map) : Z := m_count m.

(** The extents a reader sees: [ranges[0..count)]. *)
Definition extents (m : id_map) : list md_id_extent := take (Z.to_nat (map_count m)) (m_ranges m).

(** [n->page->maps[!!group]]. *)
Definition p_map (p : namespace_page) (group : bool) : id_map :=
  if group then p_maps1 p else p_maps0 p.

Fixpoint translate_loop (rs : list md_id_extent) (id : Z) (reverse : bool) : Z :=
  match rs with
  | [] => UINT32_MAX
  | r :: rs =>
      let start := if reverse then x_outside r else x_inside r in
      if (start <=? id) && (id - start <? x_count r)
      then wrap32 ((if reverse then x_inside r else x_outside r) + (id - start))
      else translate_loop rs id reverse
  end.
Definition translate (map : id_map) (id : Z) (reverse : bool) : Z :=
  if id =? UINT32_MAX then UINT32_MAX else translate_loop (extents map) id reverse.

Fixpoint into_view (v : list node) (group : bool) (id : Z) : Z :=
  match v with
  | [] => id
  | nd :: v =>
      if id =? UINT32_MAX then id
      else into_view v group (translate (p_map (nd_page nd) group) id false)
  end.
Definition md_user_namespace_into (w : world) (n : option loc) (group : bool) (id : Z) : Z :=
  into_view (view w n) group id.

Fixpoint from_view (v : list node) (group : bool) (id : Z) : Z :=
  match v with
  | [] => id
  | nd :: v =>
      if id =? UINT32_MAX then id
      else translate (p_map (nd_page nd) group) (from_view v group id) true
  end.
Definition md_user_namespace_from (w : world) (n : option loc) (group : bool) (id : Z) : Z :=
  from_view (view w n) group id.

Fixpoint contains_view (ancestor : option (loc * md_user_namespace_key)) (v : list node) : bool :=
  if same (handle v) ancestor then true
  else match v with [] => false | _ :: v => contains_view ancestor v end.
Definition md_user_namespace_contains (w : world) (ancestor n : option loc) : bool :=
  contains_view (handle (view w ancestor)) (view w n).

Fixpoint capable_view (actor : option (loc * md_user_namespace_key)) (uid caps : Z)
    (target : list node) (cap : Z) : bool :=
  if same actor (handle target) then has_bits caps (bit cap)
  else match target with
       | [] => false
       | nd :: parent =>
           if same (handle parent) actor && (p_owner (nd_page nd) =? uid) then true
           else capable_view actor uid caps parent cap
       end.
Definition md_user_namespace_capable (w : world) (actor : option loc) (uid caps : Z)
    (target : option loc) (cap : Z) : bool :=
  if 64 <=? cap then false
  else capable_view (handle (view w actor)) uid caps (view w target) cap.

(** ** Publishing an ID map *)

Definition overlap (a an b bn : Z) : bool := (b <? a + an) && (a <? b + bn).

Definition fits (start count : Z) (r : md_id_extent) : bool :=
  (x_inside r <=? start) && (start + count <=? x_inside r + x_count r).
Fixpoint covered (v : list node) (group : bool) (start count : Z) : bool :=
  match v with
  | [] => true
  | nd :: v =>
      match List.find (fits start count) (extents (p_map (nd_page nd) group)) with
      | Some r => covered v group (wrap32 (x_outside r + (start - x_inside r))) count
      | None => false
      end
  end.

(** Authorities are pointers in C; [None] is NULL. *)
Definition capable (w : world) (a : option md_user_authority) (n : option loc) (cap : Z) : bool :=
  match a with
  | None => false
  | Some a => md_user_namespace_capable w (a_namespace a) (a_uid a) (a_caps a) n cap
  end.

Definition md_user_namespace_map_admit (w : world) (n : option loc) (group : bool)
    (opener : option md_user_authority) : Z :=
  match view w n, opener with
  | [], _ | _, None => - EPERM
  | nd :: parent, Some a =>
      if negb (n_writer (nd_ns nd))
         || (negb (md_user_namespace_same w (a_namespace a) n)
             && negb (same (handle (view w (a_namespace a))) (handle parent))) then - EPERM
      else if negb (map_count (p_map (nd_page nd) group) =? 0) then - EPERM
      else if negb (capable w opener n CAP_SYS_ADMIN) then - EPERM
      else 0
  end.

(** An extent on its own: nonempty, and both sides end below [UINT32_MAX]. *)
Definition extent_valid (r : md_id_extent) : bool :=
  negb (x_count r =? 0) && (x_inside r + x_count r <=? UINT32_MAX)
  && (x_outside r + x_count r <=? UINT32_MAX).
Definition extent_clash (r s : md_id_extent) : bool :=
  overlap (x_inside r) (x_count r) (x_inside s) (x_count s)
  || overlap (x_outside r) (x_count r) (x_outside s) (x_count s).
(** The nested validation loops: [earlier] holds [ranges[0..i)]. *)
Fixpoint ranges_valid (earlier rs : list md_id_extent) : bool :=
  match rs with
  | [] => true
  | r :: rs =>
      extent_valid r && forallb (λ s, negb (extent_clash r s)) earlier
      && ranges_valid (earlier ++ [r]) rs
  end.

Definition md_user_namespace_groups_allowed (v : list node) : bool :=
  match v with [] => true | nd :: _ => negb (p_groups_allowed (nd_page nd) =? 0) end.

Definition set_map (p : namespace_page) (group : bool) (m : id_map) : namespace_page :=
  mk_page (p_magic p) (p_version p) (p_depth p) (p_owner p) (p_group p) (p_creator_setfcap p)
    (p_inode p) (p_parent p) (p_groups_allowed p) (p_limits p)
    (if group then p_maps0 p else m) (if group then m else p_maps1 p).
Definition set_page (w : world) (l : loc) (p : namespace_page) : world :=
  mk_world (w_spaces w) (<[l := p]> (w_pages w)) (w_charges w) (w_initial_accounts w)
    (w_initial_limits w).

(** The per-extent permission loop: mapping the parent's ID 0 needs SETFCAP, and
    every extent must lie inside one parent extent. *)
Fixpoint extents_admitted (setfcap : bool) (parent : list node) (group : bool)
    (rs : list md_id_extent) : bool :=
  match rs with
  | [] => true
  | r :: rs =>
      if negb group && (x_outside r =? 0) && negb setfcap then false
      else if negb (covered parent group (x_outside r) (x_count r)) then false
      else extents_admitted setfcap parent group rs
  end.

Definition md_user_namespace_map (w : world) (n : option loc) (group : bool)
    (opener writer : option md_user_authority) (ranges : list md_id_extent) : world * Z :=
  let error := md_user_namespace_map_admit w n group opener in
  match view w n, opener with
  | [], _ | _, None => (w, error)
  | nd :: parent, Some a =>
      let p := nd_page nd in
      let above := n_parent (nd_ns nd) in
      let count := Z.of_nat (length ranges) in
      if negb (error =? 0) then (w, error)
      else if (count =? 0) || (MD_USER_MAP_EXTENTS <? count) then (w, - EINVAL)
      else if negb (ranges_valid [] ranges) then (w, - EINVAL)
      else
        let cap := if group then CAP_SETGID else CAP_SETUID in
        let privileged := capable w opener above cap && capable w writer above cap in
        let one := default (mk_extent 0 0 0) (head ranges) in
        if negb privileged
           && (negb (count =? 1) || negb (x_count one =? 1) || negb (p_owner p =? a_uid a)
               || negb (into_view parent group (x_outside one)
                        =? (if group then a_gid a else a_uid a))
               || (group && md_user_namespace_groups_allowed (nd :: parent)))
        then (w, - EPERM)
        else
          let setfcap := if md_user_namespace_same w (a_namespace a) n
                         then negb (p_creator_setfcap p =? 0)
                         else capable w opener above CAP_SETFCAP in
          if negb (extents_admitted setfcap parent group ranges) then (w, - EPERM)
          else
            let m := p_map p group in
            let m' := mk_id_map count (ranges ++ drop (length ranges) (m_ranges m)) in
            (set_page w (n_page (nd_ns nd)) (set_map p group m'), 0)
  end.

Definition set_groups_allowed (p : namespace_page) (v : Z) : namespace_page :=
  mk_page (p_magic p) (p_version p) (p_depth p) (p_owner p) (p_group p) (p_creator_setfcap p)
    (p_inode p) (p_parent p) v (p_limits p) (p_maps0 p) (p_maps1 p).

Definition md_user_namespace_setgroups (w : world) (n : option loc) (allowed : bool) : world * Z :=
  match view w n with
  | [] => (w, - EPERM)
  | nd :: rest =>
      if negb (n_writer (nd_ns nd)) then (w, - EPERM)
      else if allowed then
        (w, if md_user_namespace_groups_allowed (nd :: rest) then 0 else - EPERM)
      else if negb (map_count (p_maps1 (nd_page nd)) =? 0) then (w, - EPERM)
      else (set_page w (n_page (nd_ns nd)) (set_groups_allowed (nd_page nd) 0), 0)
  end.

Definition md_user_namespace_may_setgroups (w : world) (n : option loc) : bool :=
  match view w n with
  | [] => true
  | nd :: rest =>
      md_user_namespace_groups_allowed (nd :: rest)
      && negb (map_count (p_maps1 (nd_page nd)) =? 0)
  end.

(** ** Inspection and import *)

Definition md_user_namespace_extents (w : world) (n : option loc) (group : bool)
    (capacity : Z) : list md_id_extent * Z :=
  match view w n with
  | [] => if capacity <? 1 then ([], - ERANGE) else ([mk_extent 0 0 UINT32_MAX], 1)
  | nd :: _ =>
      let m := p_map (nd_page nd) group in
      if capacity <? map_count m then ([], - ERANGE) else (extents m, map_count m)
  end.

Definition md_user_namespace_depth (v : list node) : Z :=
  match v with [] => 0 | nd :: _ => p_depth (nd_page nd) end.

(** The map part of [valid_page], for one of the two maps. *)
Definition valid_map (m : id_map) (parent : list node) (group : bool) : bool :=
  (map_count m <=? MD_USER_MAP_EXTENTS)
  && ranges_valid [] (extents m)
  && forallb (λ r, covered parent group (x_outside r) (x_count r)) (extents m).
Definition valid_page (p : namespace_page) (depth : Z) (parent : list node) : Z :=
  if negb (p_magic p =? MAGIC) || negb (p_version p =? VERSION) || negb (p_depth p =? depth)
     || (p_owner p =? UINT32_MAX) || (p_group p =? UINT32_MAX) || (1 <? p_creator_setfcap p)
     || (1 <? p_groups_allowed p)
     || negb (same_id (p_parent p) (md_user_namespace_key_of parent)) then - EPROTO
  else if negb (forallb (λ l, l <=? INT_MAX) (p_limits p)) then - EPROTO
  else if negb (valid_map (p_maps0 p) parent false && valid_map (p_maps1 p) parent true)
  then - EPROTO
  else 0.

(** ** Invariants *)

(** What publication establishes of one extent: 32-bit, nonempty, and no side
    reaches the reserved ID [UINT32_MAX]. *)
Definition extent_ok (r : md_id_extent) : Prop :=
  0 ≤ x_inside r ∧ 0 ≤ x_outside r ∧ 0 < x_count r
  ∧ x_inside r + x_count r ≤ UINT32_MAX ∧ x_outside r + x_count r ≤ UINT32_MAX.

(** A well-formed map: distinct extents overlap on neither side. *)
Record map_ok (rs : list md_id_extent) : Prop := {
  mo_extents : Forall extent_ok rs;
  mo_apart : ∀ r s, r ∈ rs → s ∈ rs → r = s ∨ extent_clash r s = false }.

Record page_ok (p : namespace_page) (parent : list node) : Prop := {
  po_maps : ∀ g, map_ok (extents (p_map p g));
  po_covered : ∀ g r, r ∈ extents (p_map p g) →
    covered parent g (x_outside r) (x_count r) = true }.

Fixpoint view_ok (v : list node) : Prop :=
  match v with [] => True | nd :: v => page_ok (nd_page nd) v ∧ view_ok v end.

Definition depth_of (w : world) (n : option loc) : Z :=
  match n with
  | None => 0
  | Some l => match w_spaces w !! l with
              | Some s => default 0 (p_depth <$> (w_pages w !! n_page s))
              | None => 0
              end
  end.

(** A consistent heap: pages are mapped, parents are live and one level up, and
    every map is well formed and covered by the parent chain. *)
Record space_ok (w : world) (s : md_user_namespace) (p : namespace_page) : Prop := {
  so_page : w_pages w !! n_page s = Some p;
  so_parent : ∀ l, n_parent s = Some l → is_Some (w_spaces w !! l);
  so_depth : p_depth p = 1 + depth_of w (n_parent s);
  so_bound : 1 ≤ p_depth p ≤ MD_USER_NAMESPACE_DEPTH;
  so_maps : page_ok p (view w (n_parent s)) }.

Record world_ok (w : world) : Prop := {
  wo_space : ∀ l s, w_spaces w !! l = Some s → ∃ p, space_ok w s p;
  wo_unshared : ∀ l1 l2 s1 s2, w_spaces w !! l1 = Some s1 → w_spaces w !! l2 = Some s2 →
    n_page s1 = n_page s2 → l1 = l2 }.

(** Arguments a C caller can pass: every field is a [uint32_t]. *)
Definition extent_u32 (r : md_id_extent) : Prop :=
  0 ≤ x_inside r ≤ UINT32_MAX ∧ 0 ≤ x_outside r ≤ UINT32_MAX ∧ 0 ≤ x_count r ≤ UINT32_MAX.

(** ** Extents and translation *)

Lemma extent_clash_sym r s : extent_clash r s = extent_clash s r.
Proof. unfold extent_clash, overlap. rewrite (andb_comm (_ <? _)), (andb_comm (x_outside s <? _)). done. Qed.

Lemma extent_valid_ok r : extent_u32 r → extent_valid r = true → extent_ok r.
Proof. unfold extent_valid, extent_ok, extent_u32. intros ??. breflect. lia. Qed.

Lemma ranges_valid_spec earlier rs :
  ranges_valid earlier rs = true →
  Forall (λ r, extent_valid r = true) rs
  ∧ ∀ r s, r ∈ rs → s ∈ earlier ++ rs → r = s ∨ extent_clash r s = false.
Proof.
  revert earlier; induction rs as [|x rs IH]; intros earlier; simpl.
  { intros _. split; [constructor|]. by intros r s ?%not_elem_of_nil. }
  intros H. breflect. destruct (IH _ H0) as [Hv Hc]. rewrite forallb_forall in H1.
  split; [by constructor|]. intros r s [->|Hr]%elem_of_cons Hs.
  - rewrite elem_of_app, elem_of_cons in Hs. destruct Hs as [Hs|[->|Hs]]; [| by left |].
    + right. apply list_elem_of_In, H1 in Hs. by breflect.
    + destruct (Hc s x) as [->|Hx]; [done|set_solver|by left|].
      right. by rewrite extent_clash_sym.
  - apply Hc; [done|]. set_solver.
Qed.

Lemma ranges_valid_ok rs : Forall extent_u32 rs → ranges_valid [] rs = true → map_ok rs.
Proof.
  intros Hu [Hv Hc]%ranges_valid_spec. split; [|done].
  rewrite !Forall_forall in *. eauto using extent_valid_ok.
Qed.

(** [id] lies in the selected side of [r]. *)
Definition in_extent (reverse : bool) (id : Z) (r : md_id_extent) : Prop :=
  let start := if reverse then x_outside r else x_inside r in start ≤ id < start + x_count r.

Lemma map_ok_unique rs reverse id r s :
  map_ok rs → r ∈ rs → s ∈ rs → in_extent reverse id r → in_extent reverse id s → r = s.
Proof.
  intros Hok Hr Hs H1 H2. destruct (mo_apart _ Hok r s Hr Hs) as [|Hc]; [done|].
  unfold extent_clash, overlap, in_extent in *. exfalso.
  apply orb_false_iff in Hc as [Ha Hb]. apply andb_false_iff in Ha, Hb.
  destruct reverse; [destruct Hb|destruct Ha]; breflect; lia.
Qed.

Lemma translate_loop_hit rs reverse id r :
  map_ok rs → r ∈ rs → in_extent reverse id r →
  translate_loop rs id reverse =
    (if reverse then x_inside r else x_outside r)
    + (id - (if reverse then x_outside r else x_inside r)).
Proof.
  intros Hok Hr Hin. pose proof (mo_extents _ Hok) as Hex. rewrite Forall_forall in Hex.
  assert (∀ l, (∀ s, s ∈ l → s ∈ rs) → r ∈ l → translate_loop l id reverse =
    (if reverse then x_inside r else x_outside r)
    + (id - (if reverse then x_outside r else x_inside r))) as H; [|by apply H].
  induction l as [|s l IH]; intros Hsub Hrl; [by apply not_elem_of_nil in Hrl|].
  cbn [translate_loop]. cbv zeta. case_if; breflect.
  - assert (s = r) as ->.
    { apply (map_ok_unique rs reverse id); [done|apply Hsub; set_solver|done| |done].
      unfold in_extent. cbv zeta. lia. }
    destruct (Hex r Hr) as (?&?&?&?&?). unfold wrap32, UINT32_MAX in *.
    apply Z.mod_small. unfold in_extent in Hin. destruct reverse; lia.
  - apply IH; [set_solver|]. apply elem_of_cons in Hrl as [->|]; [|done].
    unfold in_extent in Hin. exfalso. apply andb_false_iff in E as [E|E]; breflect; lia.
Qed.

Lemma translate_loop_inv rs reverse id x :
  translate_loop rs id reverse = x → x ≠ UINT32_MAX → ∃ r, r ∈ rs ∧ in_extent reverse id r.
Proof.
  induction rs as [|s rs IH]; cbn [translate_loop]; cbv zeta; [congruence|]. case_if; breflect.
  - intros _ _. exists s. split; [set_solver|]. unfold in_extent. cbv zeta. lia.
  - intros Ht Hx. destruct (IH Ht Hx) as (r&?&?). exists r. set_solver.
Qed.

Lemma translate_inverse m reverse id x :
  map_ok (extents m) → 0 ≤ id → translate m id reverse = x → x ≠ UINT32_MAX →
  0 ≤ x ∧ translate m x (negb reverse) = id.
Proof.
  intros Hok Hid Ht Hx. unfold translate in *. destruct (Z.eqb_spec id UINT32_MAX); [congruence|].
  destruct (translate_loop_inv _ _ _ _ Ht Hx) as (r&Hr&Hin).
  pose proof (mo_extents _ Hok) as Hex. rewrite Forall_forall in Hex.
  destruct (Hex r Hr) as (?&?&?&?&?).
  rewrite (translate_loop_hit _ _ _ r Hok Hr Hin) in Ht.
  assert (in_extent (negb reverse) x r) as Hin'.
  { unfold in_extent in *. destruct reverse; simpl; lia. }
  destruct (Z.eqb_spec x UINT32_MAX); [done|].
  rewrite (translate_loop_hit _ _ _ r Hok Hr Hin'). unfold in_extent in *.
  destruct reverse; simpl in *; lia.
Qed.

Lemma translate_max m reverse : translate m UINT32_MAX reverse = UINT32_MAX.
Proof. done. Qed.

Lemma into_view_max v g : into_view v g UINT32_MAX = UINT32_MAX.
Proof. by destruct v. Qed.
Lemma from_view_max v g : from_view v g UINT32_MAX = UINT32_MAX.
Proof. by destruct v. Qed.

(** ** Chains *)

Lemma into_from_view v g id :
  view_ok v → 0 ≤ id → into_view v g id ≠ UINT32_MAX →
  0 ≤ into_view v g id ∧ from_view v g (into_view v g id) = id.
Proof.
  revert id; induction v as [|nd v IH]; intros id; cbn [view_ok into_view from_view]; [done|].
  intros [Hp Hv] Hid. destruct (Z.eqb_spec id UINT32_MAX) as [->|Hne]; [done|].
  intros Hx. set (y := translate (p_map (nd_page nd) g) id false) in *.
  assert (y ≠ UINT32_MAX) as Hy by (intros E; apply Hx; by rewrite E, into_view_max).
  destruct (translate_inverse _ _ _ _ (po_maps _ _ Hp g) Hid eq_refl Hy) as [Hy0 Hinv].
  destruct (IH y Hv Hy0 Hx) as [Hx0 Hback]. split; [done|].
  destruct (Z.eqb_spec (into_view v g y) UINT32_MAX); [done|]. by rewrite Hback.
Qed.

Lemma from_into_view v g id :
  view_ok v → 0 ≤ id → from_view v g id ≠ UINT32_MAX →
  0 ≤ from_view v g id ∧ into_view v g (from_view v g id) = id.
Proof.
  revert id; induction v as [|nd v IH]; intros id; cbn [view_ok into_view from_view]; [done|].
  intros [Hp Hv] Hid. destruct (Z.eqb_spec id UINT32_MAX) as [->|Hne]; [done|].
  intros Hx. set (y := from_view v g id) in *.
  assert (y ≠ UINT32_MAX) as Hy by (intros E; apply Hx; by rewrite E, translate_max).
  destruct (IH id Hv Hid Hy) as [Hy0 Hback].
  destruct (translate_inverse _ true y _ (po_maps _ _ Hp g) Hy0 eq_refl Hx) as [Hx0 Hinv].
  split; [done|].
  destruct (Z.eqb_spec (translate (p_map (nd_page nd) g) y true) UINT32_MAX); [done|].
  unfold negb in Hinv. fold y in Hinv. by rewrite Hinv.
Qed.

Lemma translate_bound m id reverse : 0 ≤ translate m id reverse ≤ UINT32_MAX.
Proof.
  unfold translate. case_if; [done|]. induction (extents m) as [|r rs IH]; cbn [translate_loop]; [done|].
  case_if; [|done]. unfold wrap32, UINT32_MAX. case_if; divlia.
Qed.
Lemma into_view_bound v g id : 0 ≤ id ≤ UINT32_MAX → 0 ≤ into_view v g id ≤ UINT32_MAX.
Proof.
  revert id; induction v as [|nd v IH]; intros id Hid; cbn [into_view]; [done|]. case_if; [done|].
  apply IH, translate_bound.
Qed.

(** What a namespace promises to code that stores canonical IDs and shows guest
    ones: mapped IDs stay in range and translate back. *)
Class IdBijection (into from : bool → Z → Z) : Prop := {
  idb_range g id : 0 ≤ id < UINT32_MAX → 0 ≤ into g id ≤ UINT32_MAX;
  idb_back g id : 0 ≤ id < UINT32_MAX → into g id ≠ UINT32_MAX → from g (into g id) = id }.

(** A covered interval is carried rigidly to the initial namespace. *)
Lemma covered_into v g start n :
  view_ok v → 0 ≤ start → 0 < n → start + n ≤ UINT32_MAX → covered v g start n = true →
  ∃ base, 0 ≤ base ∧ base + n ≤ UINT32_MAX
    ∧ ∀ k, 0 ≤ k < n → into_view v g (start + k) = base + k.
Proof.
  revert start; induction v as [|nd v IH]; intros start; cbn [view_ok covered into_view].
  { intros _ ? ? ? _. exists start. auto with lia. }
  intros [Hp Hv] Hs Hn Hmax. destruct (List.find _ _) as [r|] eqn:Hf; [|done].
  apply find_some in Hf as [Hr%list_elem_of_In Hfit]. unfold fits in Hfit. breflect.
  pose proof (po_maps _ _ Hp g) as Hok. pose proof (mo_extents _ Hok) as Hex.
  rewrite Forall_forall in Hex. destruct (Hex r Hr) as (?&?&?&?&?).
  set (o := x_outside r + (start - x_inside r)).
  assert (wrap32 o = o) as -> by (apply Z.mod_small; unfold o, UINT32_MAX in *; lia).
  intros Hc. destruct (IH o Hv) as (base&?&?&Hb); [unfold o in *; lia..|done|].
  exists base. split_and!; [done..|]. intros k Hk.
  destruct (Z.eqb_spec (start + k) UINT32_MAX); [lia|].
  rewrite <- Hb by done. f_equal. unfold translate.
  destruct (Z.eqb_spec (start + k) UINT32_MAX); [lia|].
  rewrite (translate_loop_hit _ _ _ r Hok Hr); [unfold o; lia|]. unfold in_extent. lia.
Qed.

(** A covered interval needs a published map at every level above it. *)
Lemma covered_published v g start n :
  covered v g start n = true → Forall (λ nd, extents (p_map (nd_page nd) g) ≠ []) v.
Proof.
  revert start; induction v as [|nd v IH]; intros start; cbn [covered]; [constructor|].
  destruct (List.find _ _) as [r|] eqn:Hf; [|done]. intros Hc. constructor; [|by eapply IH].
  intros E. by rewrite E in Hf.
Qed.

Lemma chain_more w n f k :
  world_ok w → depth_of w n ≤ Z.of_nat f → chain (f + k) w n = chain f w n.
Proof.
  intros Hw. revert n. induction f as [|f IH]; intros n Hd.
  - destruct n as [l|]; [|by destruct k]. cbn [depth_of] in Hd.
    destruct k; [done|]. cbn [chain Nat.add].
    destruct (w_spaces w !! l) as [s|] eqn:Hl; [|done].
    destruct (wo_space _ Hw _ _ Hl) as [p Hp]. rewrite (so_page _ _ _ Hp) in Hd.
    pose proof (so_bound _ _ _ Hp). cbn in Hd. lia.
  - destruct n as [l|]; [|done]. cbn [chain Nat.add]. cbn [depth_of] in Hd.
    destruct (w_spaces w !! l) as [s|] eqn:Hl; [|done].
    destruct (wo_space _ Hw _ _ Hl) as [p Hp]. rewrite (so_page _ _ _ Hp) in Hd |- *.
    f_equal. apply IH. pose proof (so_depth _ _ _ Hp). cbn in Hd. lia.
Qed.

Lemma view_unfold w l s p :
  world_ok w → w_spaces w !! l = Some s → space_ok w s p →
  view w (Some l) = mk_node l s p :: view w (n_parent s).
Proof.
  intros Hw Hl Hp. unfold view, MD_USER_NAMESPACE_DEPTH.
  change (Z.to_nat 33) with (32 + 1)%nat at 2. rewrite chain_more; [|done|].
  - change (Z.to_nat 33) with (S 32). cbn [chain]. by rewrite Hl, (so_page _ _ _ Hp).
  - pose proof (so_depth _ _ _ Hp). pose proof (so_bound _ _ _ Hp).
    unfold MD_USER_NAMESPACE_DEPTH in *. lia.
Qed.

Lemma chain_nodes w f n :
  Forall (λ nd, w_spaces w !! nd_loc nd = Some (nd_ns nd)
    ∧ w_pages w !! n_page (nd_ns nd) = Some (nd_page nd)) (chain f w n).
Proof.
  revert n; induction f as [|f IH]; intros [l|]; cbn [chain]; try constructor.
  destruct (w_spaces w !! l) eqn:Hl; [|constructor].
  destruct (w_pages w !! _) eqn:Hp; constructor; auto.
Qed.

Lemma view_none w : view w None = [].
Proof. done. Qed.

Lemma view_dangling w l : w_spaces w !! l = None → view w (Some l) = [].
Proof.
  intros H. unfold view. change (Z.to_nat MD_USER_NAMESPACE_DEPTH) with (S 32). cbn [chain]. by rewrite H.
Qed.

Lemma depth_nonneg w n : world_ok w → 0 ≤ depth_of w n.
Proof.
  intros Hw. destruct n as [l|]; cbn; [|done].
  destruct (w_spaces w !! l) as [s|] eqn:Hl; [|done].
  destruct (wo_space _ Hw _ _ Hl) as [p Hp]. rewrite (so_page _ _ _ Hp).
  pose proof (so_bound _ _ _ Hp). cbn. lia.
Qed.

(** Induction along the parent chain of a consistent heap. *)
Lemma world_ind w (P : option loc → Prop) :
  world_ok w → P None → (∀ l, w_spaces w !! l = None → P (Some l)) →
  (∀ l s p, w_spaces w !! l = Some s → space_ok w s p → P (n_parent s) → P (Some l)) →
  ∀ n, P n.
Proof.
  intros Hw H0 Hd Hs.
  assert (∀ (k : nat) n, depth_of w n ≤ Z.of_nat k → P n) as H.
  { induction k as [|k IH]; intros [l|] Hk; try done.
    all: destruct (w_spaces w !! l) as [s|] eqn:Hl; [|by apply Hd].
    all: destruct (wo_space _ Hw _ _ Hl) as [p Hp]; apply (Hs l s p Hl Hp).
    all: cbn [depth_of] in Hk; rewrite Hl, (so_page _ _ _ Hp) in Hk; cbn in Hk.
    all: pose proof (so_depth _ _ _ Hp); pose proof (so_bound _ _ _ Hp).
    - lia.
    - apply IH. lia. }
  intros n. apply (H (Z.to_nat (depth_of w n))). pose proof (depth_nonneg w n Hw). lia.
Qed.

Lemma world_view_ok w n : world_ok w → view_ok (view w n).
Proof.
  intros Hw. revert n. apply (world_ind w); [done|done|intros; by rewrite view_dangling|].
  intros l s p Hl Hp IH. rewrite (view_unfold w l s p) by done. split; [apply Hp|done].
Qed.

Lemma world_ids w n :
  world_ok w → IdBijection (md_user_namespace_into w n) (md_user_namespace_from w n).
Proof.
  intros Hw. split; unfold md_user_namespace_into, md_user_namespace_from; intros g id Hid.
  - apply into_view_bound. lia.
  - intros Hne. apply into_from_view; [by apply world_view_ok|lia|done].
Qed.

Lemma view_nodes w n :
  Forall (λ nd, w_spaces w !! nd_loc nd = Some (nd_ns nd)
    ∧ w_pages w !! n_page (nd_ns nd) = Some (nd_page nd)) (view w n).
Proof. apply chain_nodes. Qed.

(** ** Updating a page *)

Definition repage (l : loc) (p : namespace_page) (nd : node) : node :=
  if bool_decide (n_page (nd_ns nd) = l) then mk_node (nd_loc nd) (nd_ns nd) p else nd.

Lemma view_set_page w l p n :
  is_Some (w_pages w !! l) → view (set_page w l p) n = repage l p <$> view w n.
Proof.
  intros [p0 Hp0]. unfold view. generalize (Z.to_nat MD_USER_NAMESPACE_DEPTH). intros f.
  revert n; induction f as [|f IH]; intros [k|]; cbn [chain]; try done.
  cbn [set_page w_spaces w_pages].
  destruct (w_spaces w !! k) as [s|]; [|done]. destruct (decide (n_page s = l)) as [<-|Hne].
  - rewrite lookup_insert_eq, Hp0. cbn [fmap list_fmap]. rewrite IH. f_equal.
    unfold repage. cbn. by rewrite bool_decide_true.
  - rewrite lookup_insert_ne by done. destruct (w_pages w !! n_page s); [|done].
    cbn [fmap list_fmap]. rewrite IH. f_equal. unfold repage. cbn. by rewrite bool_decide_false.
Qed.

Lemma depth_set_page w l p p0 n :
  w_pages w !! l = Some p0 → p_depth p = p_depth p0 →
  depth_of (set_page w l p) n = depth_of w n.
Proof.
  intros Hp0 Hd. destruct n as [k|]; cbn; [|done].
  destruct (w_spaces w !! k) as [s|]; [|done]. destruct (decide (n_page s = l)) as [<-|Hne].
  - rewrite lookup_insert_eq, Hp0. cbn. done.
  - by rewrite lookup_insert_ne.
Qed.

Lemma repage_covered l p p0 g v start n :
  p_map p g = p_map p0 g → Forall (λ nd, n_page (nd_ns nd) = l → nd_page nd = p0) v →
  covered (repage l p <$> v) g start n = covered v g start n.
Proof.
  intros Hmap Hv. revert start. induction Hv as [|nd v Hnd Hv IH]; intros start; [done|].
  cbn [fmap list_fmap covered].
  assert (p_map (nd_page (repage l p nd)) g = p_map (nd_page nd) g) as ->.
  { unfold repage. case_bool_decide; cbn; [|done]. rewrite Hnd by done. apply Hmap. }
  destruct (List.find _ _); [|done]. apply IH.
Qed.

Lemma repage_absent l p v :
  Forall (λ nd, n_page (nd_ns nd) ≠ l) v → repage l p <$> v = v.
Proof.
  induction 1 as [|nd v Hnd _ IH]; [done|]. cbn [fmap list_fmap]. rewrite IH. f_equal.
  unfold repage. by rewrite bool_decide_false.
Qed.

Lemma view_depths w n :
  world_ok w → Forall (λ nd, p_depth (nd_page nd) ≤ depth_of w n) (view w n).
Proof.
  intros Hw. revert n. apply (world_ind w); [done|constructor|intros; by rewrite view_dangling|].
  intros l s p Hl Hp IH. rewrite (view_unfold w l s p) by done.
  cbn [depth_of]. rewrite Hl, (so_page _ _ _ Hp). cbn. constructor; [done|].
  pose proof (so_depth _ _ _ Hp). eapply Forall_impl; [exact IH|]. cbn. intros nd Hnd. lia.
Qed.

(** A page change that leaves the depth alone and whose new maps are acceptable
    keeps the heap consistent, provided each replaced map was unpublished. *)
Lemma set_page_ok w l s p p' :
  world_ok w → w_spaces w !! l = Some s → space_ok w s p →
  p_depth p' = p_depth p → page_ok p' (view w (n_parent s)) →
  (∀ g, p_map p' g = p_map p g ∨ extents (p_map p g) = []) →
  world_ok (set_page w (n_page s) p').
Proof.
  intros Hw Hl Hp Hd Hnew Hkeep. pose proof (so_page _ _ _ Hp) as Hpg.
  assert (∀ v n, view w n = v → Forall (λ nd, n_page (nd_ns nd) = n_page s → nd_page nd = p) v) as Hpages.
  { intros v n <-. eapply Forall_impl; [apply view_nodes|]. cbn. intros nd [_ H] E. congruence. }
  assert (∀ n, view (set_page w (n_page s) p') n = repage (n_page s) p' <$> view w n) as Hview
    by (intros; apply view_set_page; eauto).
  split; [|apply (wo_unshared _ Hw)].
  intros k t Hk. cbn in Hk. destruct (wo_space _ Hw _ _ Hk) as [q Hq].
  destruct (decide (n_page t = n_page s)) as [E|Hne].
  - assert (k = l) as -> by eauto using wo_unshared. assert (t = s) as -> by congruence. clear E.
    exists p'. split; [by cbn; rewrite lookup_insert_eq|apply Hp|..].
    + rewrite (depth_set_page _ _ _ p), Hd; [apply Hp|done..].
    + rewrite Hd. apply Hp.
    + rewrite Hview, repage_absent; [done|].
      eapply Forall_impl; [eapply Forall_and; split; [apply view_depths, Hw|apply (Hpages _ _ eq_refl)]|].
      cbn. intros nd [Hdep Heq] E. rewrite (Heq E) in Hdep. pose proof (so_depth _ _ _ Hp). lia.
  - exists q. split; [by cbn; rewrite lookup_insert_ne; [apply Hq|]|apply Hq| |apply Hq|].
    + rewrite (depth_set_page _ _ _ p) by done. apply Hq.
    + rewrite Hview. split; [apply Hq|]. intros g r Hr.
      pose proof (po_covered _ _ (so_maps _ _ _ Hq) g r Hr) as Hc.
      destruct (Hkeep g) as [Hsame|Hempty].
      * by rewrite (repage_covered _ _ p) by eauto.
      * rewrite repage_absent; [done|]. apply covered_published in Hc.
        eapply Forall_impl; [eapply Forall_and; split; [exact Hc|apply (Hpages _ _ eq_refl)]|].
        cbn. intros nd [Hnz Heq] E. apply Hnz. by rewrite (Heq E).
Qed.

Lemma extents_admitted_covered setfcap parent g rs :
  extents_admitted setfcap parent g rs = true →
  Forall (λ r, covered parent g (x_outside r) (x_count r) = true) rs.
Proof.
  induction rs as [|r rs IH]; cbn; [constructor|]. intros H. case_ifs; try done. breflect.
  constructor; auto.
Qed.

(** The outcomes of [md_user_namespace_map_admit] and [md_user_namespace_map]. *)
Lemma map_admit_outcome w n g opener :
  md_user_namespace_map_admit w n g opener = - EPERM
  ∨ md_user_namespace_map_admit w n g opener = 0
    ∧ ∃ nd parent a, view w n = nd :: parent ∧ opener = Some a ∧ n_writer (nd_ns nd) = true
      ∧ map_count (p_map (nd_page nd) g) = 0.
Proof.
  unfold md_user_namespace_map_admit. destruct (view w n) as [|nd parent]; [by left|].
  destruct opener as [a|]; [|by left]. case_ifs; breflect; auto.
  right. split; [done|]. by exists nd, parent, a.
Qed.

Lemma map_outcome w n g opener writer rs :
  (∃ e, e < 0 ∧ md_user_namespace_map w n g opener writer rs = (w, e))
  ∨ ∃ nd parent, view w n = nd :: parent ∧ n_writer (nd_ns nd) = true
    ∧ map_count (p_map (nd_page nd) g) = 0 ∧ ranges_valid [] rs = true
    ∧ Forall (λ r, covered parent g (x_outside r) (x_count r) = true) rs
    ∧ md_user_namespace_map w n g opener writer rs =
      (set_page w (n_page (nd_ns nd)) (set_map (nd_page nd) g
        (mk_id_map (Z.of_nat (length rs)) (rs ++ drop (length rs) (m_ranges (p_map (nd_page nd) g))))), 0).
Proof.
  unfold md_user_namespace_map. cbv zeta.
  destruct (map_admit_outcome w n g opener) as [->|(-> & nd & parent & a & Hv & -> & Hw & Hm)].
  { left. exists (- EPERM). split; [done|]. by destruct (view w n), opener. }
  rewrite Hv. change (negb (0 =? 0)) with false. cbv iota.
  repeat (match goal with |- context [if ?b then (_, _) else _] => destruct b eqn:? end;
    [left; eexists; split; [|reflexivity]; done|]).
  right. exists nd, parent. breflect. split_and!; eauto using extents_admitted_covered.
Qed.

Lemma extents_published rs old :
  extents (mk_id_map (Z.of_nat (length rs)) (rs ++ old)) = rs.
Proof. unfold extents, map_count. cbn. by rewrite Nat2Z.id, take_app_length. Qed.

Lemma extents_unpublished m : map_count m = 0 → extents m = [].
Proof. unfold extents. intros ->. done. Qed.

Lemma into_published v g id :
  into_view v g id ≠ UINT32_MAX → Forall (λ nd, extents (p_map (nd_page nd) g) ≠ []) v.
Proof.
  revert id; induction v as [|nd v IH]; intros id; cbn [into_view]; [constructor|].
  destruct (Z.eqb_spec id UINT32_MAX) as [->|Hne]; [done|]. intros Hx. constructor; [|by eapply IH].
  intros E. apply Hx. unfold translate. rewrite E. cbn.
  destruct (id =? UINT32_MAX); apply into_view_max.
Qed.

Lemma repage_into l p p0 g v id :
  p_map p g = p_map p0 g → Forall (λ nd, n_page (nd_ns nd) = l → nd_page nd = p0) v →
  into_view (repage l p <$> v) g id = into_view v g id.
Proof.
  intros Hmap Hv. revert id. induction Hv as [|nd v Hnd Hv IH]; intros id; [done|].
  cbn [fmap list_fmap into_view].
  assert (p_map (nd_page (repage l p nd)) g = p_map (nd_page nd) g) as ->.
  { unfold repage. case_bool_decide; cbn; [|done]. rewrite Hnd by done. apply Hmap. }
  by rewrite IH.
Qed.

Lemma view_head_space w n nd parent :
  world_ok w → view w n = nd :: parent →
  n = Some (nd_loc nd) ∧ w_spaces w !! nd_loc nd = Some (nd_ns nd)
  ∧ space_ok w (nd_ns nd) (nd_page nd) ∧ parent = view w (n_parent (nd_ns nd)).
Proof.
  intros Hw Hv. destruct n as [l|]; [|done].
  destruct (w_spaces w !! l) as [s|] eqn:Hl; [|by rewrite view_dangling in Hv].
  destruct (wo_space _ Hw _ _ Hl) as [p Hp]. rewrite (view_unfold w l s p) in Hv by done.
  injection Hv as <- <-. by cbn.
Qed.

(** The namespace on the path from [target] up to [actor], just below [actor],
    is owned by [uid]. *)
Fixpoint owns_child (actor : option (loc * md_user_namespace_key)) (uid : Z) (v : list node) : bool :=
  match v with
  | [] => false
  | nd :: parent =>
      negb (same actor (handle v))
      && ((same (handle parent) actor && (p_owner (nd_page nd) =? uid)) || owns_child actor uid parent)
  end.

Lemma same_sym a b : same a b = same b a.
Proof.
  destruct a as [[la ka]|], b as [[lb kb]|]; cbn; try done.
  f_equal; [apply bool_decide_ext; intuition congruence|].
  unfold same_id. by rewrite (Z.eqb_sym (k_device ka)), (Z.eqb_sym (k_inode ka)), (Z.eqb_sym (k_generation ka)).
Qed.

Lemma capable_view_spec actor uid caps v cap :
  capable_view actor uid caps v cap
  = contains_view actor v && (has_bits caps (bit cap) || owns_child actor uid v).
Proof.
  induction v as [|nd v IH]; cbn [capable_view contains_view owns_child].
  { rewrite (same_sym actor). destruct (same _ actor); [|done]. by rewrite orb_false_r. }
  rewrite (same_sym actor (handle (nd :: v))). destruct (same (handle (nd :: v)) actor); cbn [negb andb].
  { by rewrite orb_false_r. }
  destruct (same (handle v) actor) eqn:E; cbn [andb].
  - destruct (p_owner (nd_page nd) =? uid); cbn [orb].
    + rewrite orb_true_r, andb_true_r. destruct v; cbn [contains_view]; by rewrite E.
    + rewrite IH. destruct v; cbn [contains_view]; by rewrite E.
  - cbn [orb]. by rewrite IH.
Qed.

(** ** Properties *)

(** C1: publishing an ID map, whatever the arguments and whether or not it is
    admitted, keeps the heap of user namespaces consistent: every map stays
    free of overlaps on both sides and covered, extent by extent, by the maps of
    all ancestors. *)
Theorem user_map_preserves_world w n g opener writer rs :
  world_ok w → Forall extent_u32 rs →
  world_ok (fst (md_user_namespace_map w n g opener writer rs)).
Proof.
  intros Hw Hu.
  destruct (map_outcome w n g opener writer rs)
    as [(e&_&->)|(nd&parent&Hv&_&Hm&Hr&Hc&->)]; [done|]. cbn.
  destruct (view_head_space _ _ _ _ Hw Hv) as (_&Hl&Hp&->).
  eapply set_page_ok; [done..| | |].
  - by destruct g.
  - pose proof (so_maps _ _ _ Hp) as Hold. rewrite Forall_forall in Hc.
    split; intros h; destruct (bool_decide_reflect (g = h)) as [<-|Hne].
    + replace (p_map (set_map _ g _) g) with (mk_id_map (Z.of_nat (length rs))
        (rs ++ drop (length rs) (m_ranges (p_map (nd_page nd) g)))) by by destruct g.
      rewrite extents_published. by apply ranges_valid_ok.
    + replace (p_map (set_map _ g _) h) with (p_map (nd_page nd) h) by by destruct g, h. apply Hold.
    + replace (p_map (set_map _ g _) g) with (mk_id_map (Z.of_nat (length rs))
        (rs ++ drop (length rs) (m_ranges (p_map (nd_page nd) g)))) by by destruct g.
      rewrite extents_published. eauto.
    + replace (p_map (set_map _ g _) h) with (p_map (nd_page nd) h) by by destruct g, h. apply Hold.
  - intros h. destruct (bool_decide_reflect (g = h)) as [<-|Hne].
    + right. by apply extents_unpublished.
    + left. by destruct g, h.
Qed.

(** C2: the conversions between guest and canonical IDs are inverse partial
    bijections: a guest ID maps to a canonical ID exactly when that canonical ID
    is shown as the guest ID, through any depth of nested namespaces. *)
Theorem user_id_roundtrip w n g id k :
  world_ok w → 0 ≤ id < UINT32_MAX → 0 ≤ k < UINT32_MAX →
  md_user_namespace_into w n g id = k ↔ md_user_namespace_from w n g k = id.
Proof.
  intros Hw Hid Hk. unfold md_user_namespace_into, md_user_namespace_from.
  pose proof (world_view_ok w n Hw) as Hv. split.
  - intros <-. apply into_from_view; [done|lia|lia].
  - intros <-. apply from_into_view; [done|lia|lia].
Qed.

(** Maps publish once: an ID that a reader could already translate is
    translated to the same value after any later publication, in every namespace. *)
Theorem user_map_stable w n g opener writer rs k h id :
  world_ok w → md_user_namespace_into w k h id ≠ UINT32_MAX →
  md_user_namespace_into (fst (md_user_namespace_map w n g opener writer rs)) k h id
  = md_user_namespace_into w k h id.
Proof.
  intros Hw Hid.
  destruct (map_outcome w n g opener writer rs)
    as [(e&_&->)|(nd&parent&Hv&_&Hm&_&_&->)]; [done|]. cbn [fst].
  destruct (view_head_space _ _ _ _ Hw Hv) as (_&Hl&Hp&->). pose proof (so_page _ _ _ Hp) as Hpg.
  unfold md_user_namespace_into in *. rewrite view_set_page by eauto.
  assert (Forall (λ x, n_page (nd_ns x) = n_page (nd_ns nd) → nd_page x = nd_page nd) (view w k)) as Hpages.
  { eapply Forall_impl; [apply view_nodes|]. cbn. intros x [_ H] E. congruence. }
  destruct (bool_decide_reflect (g = h)) as [<-|Hne].
  - rewrite repage_absent; [done|]. apply into_published in Hid.
    eapply Forall_impl; [eapply Forall_and; split; [exact Hid|exact Hpages]|].
    cbn. intros x [Hnz Heq] E. apply Hnz. rewrite (Heq E). by apply extents_unpublished.
  - apply (repage_into _ _ (nd_page nd)); [by destruct g, h|done].
Qed.

(** An extent published in a namespace is usable from end to end: all its
    guest IDs translate to consecutive canonical IDs below the reserved value. *)
Theorem user_extent_reaches_initial w n nd parent g r :
  world_ok w → view w n = nd :: parent → r ∈ extents (p_map (nd_page nd) g) →
  ∃ base, 0 ≤ base ∧ base + x_count r ≤ UINT32_MAX
    ∧ ∀ k, 0 ≤ k < x_count r → md_user_namespace_into w n g (x_inside r + k) = base + k.
Proof.
  intros Hw Hv Hr. unfold md_user_namespace_into. pose proof (world_view_ok w n Hw) as Hok.
  rewrite Hv in Hok |- *. destruct Hok as [Hp Hpar]. pose proof (po_maps _ _ Hp g) as Hm.
  pose proof (mo_extents _ Hm) as Hex. rewrite Forall_forall in Hex.
  destruct (Hex r Hr) as (?&?&?&?&?).
  destruct (covered_into parent g (x_outside r) (x_count r)) as (base&?&?&Hb); [done..|by eapply Hp|].
  exists base. split_and!; [done..|]. intros k Hk. cbn [into_view].
  destruct (Z.eqb_spec (x_inside r + k) UINT32_MAX); [lia|].
  rewrite <- Hb by done. f_equal. unfold translate.
  destruct (Z.eqb_spec (x_inside r + k) UINT32_MAX); [lia|].
  rewrite (translate_loop_hit _ _ _ r Hm Hr); [lia|]. unfold in_extent. lia.
Qed.

(** An actor has a capability over a namespace exactly when that namespace is
    the actor's own or a descendant of it and the actor either holds the bit or
    owns the namespace through which the path leaves its own. *)
Theorem user_capable_iff w actor uid caps target cap :
  md_user_namespace_capable w actor uid caps target cap
  = (cap <? 64) && md_user_namespace_contains w actor target
    && (has_bits caps (bit cap) || owns_child (handle (view w actor)) uid (view w target)).
Proof.
  unfold md_user_namespace_capable, md_user_namespace_contains. rewrite capable_view_spec.
  destruct (Z.leb_spec 64 cap), (Z.ltb_spec cap 64); (lia || done).
Qed.

(** A writer without CAP_SETUID/CAP_SETGID over the parent can only map one
    ID, its own, in a namespace it owns; for groups the namespace must already
    have given up setgroups. *)
Theorem user_map_unprivileged w n nd parent (g : bool) a writer rs w' :
  view w n = nd :: parent →
  capable w (Some a) (n_parent (nd_ns nd)) (if g then CAP_SETGID else CAP_SETUID)
    && capable w writer (n_parent (nd_ns nd)) (if g then CAP_SETGID else CAP_SETUID) = false →
  md_user_namespace_map w n g (Some a) writer rs = (w', 0) →
  ∃ r, rs = [r] ∧ x_count r = 1 ∧ p_owner (nd_page nd) = a_uid a
    ∧ into_view parent g (x_outside r) = (if g then a_gid a else a_uid a)
    ∧ (g = true → p_groups_allowed (nd_page nd) = 0).
Proof.
  intros Hv Hpriv Hmap. unfold md_user_namespace_map in Hmap. cbv zeta in Hmap.
  destruct (map_admit_outcome w n g (Some a)) as [E|[E _]]; rewrite E, Hv in Hmap;
    change (negb (0 =? 0)) with false in Hmap; cbv iota in Hmap; [by cbn in Hmap|].
  rewrite Hpriv in Hmap. cbn [negb andb] in Hmap.
  repeat (match goal with H : (if ?b then (_, _) else _) = _ |- _ => destruct b eqn:? end; [done|]).
  breflect. destruct rs as [|r [|r' rs]]; cbn in *; try lia.
  exists r. split_and!; auto. intros ->. cbn in *. by breflect.
Qed.

(** ** A concrete heap for the witnesses: one namespace created by user 1000 *)

Definition demo_page : namespace_page :=
  mk_page MAGIC VERSION 1 1000 1000 0 7 zero_key 0 [INT_MAX; INT_MAX; INT_MAX]
    (mk_id_map 0 []) (mk_id_map 0 []).
Definition demo_ns : md_user_namespace := mk_ns 1 None (mk_key 5 9 7) 3 true 1 [] None.
Definition demo_world : world :=
  mk_world {[1%positive := demo_ns]} {[1%positive := demo_page]} ∅ [] [INT_MAX; 128; 8192].
Definition demo_user : md_user_authority := mk_authority None 1000 1000 0.
Definition demo_mapped : world :=
  fst (md_user_namespace_map demo_world (Some 1%positive) false (Some demo_user)
    (Some demo_user) [mk_extent 0 1000 1]).

Lemma demo_world_ok : world_ok demo_world.
Proof.
  split.
  - intros l s Hl. cbn in Hl. apply lookup_singleton_Some in Hl as [<- <-].
    exists demo_page. split; [done|done|done|done|].
    split; intros [|]; cbn; [split; [constructor|set_solver]..|set_solver|set_solver].
  - intros l1 l2 s1 s2 H1 H2 _. cbn in *.
    apply lookup_singleton_Some in H1 as [<- _], H2 as [<- _]. done.
Qed.

Lemma demo_extent_u32 : Forall extent_u32 [mk_extent 0 1000 1].
Proof. repeat constructor; unfold UINT32_MAX; cbn; lia. Qed.

Lemma user_map_preserves_world_witness :
  snd (md_user_namespace_map demo_world (Some 1%positive) false (Some demo_user)
    (Some demo_user) [mk_extent 0 1000 1]) = 0 ∧ world_ok demo_mapped.
Proof.
  split; [vm_compute; reflexivity|].
  apply user_map_preserves_world; [apply demo_world_ok|apply demo_extent_u32].
Defined.

Lemma demo_mapped_ok : world_ok demo_mapped.
Proof.
  assert (w_spaces demo_mapped = {[1%positive := demo_ns]}) as Hs by (vm_compute; reflexivity).
  split; rewrite Hs; [|by intros l1 l2 s1 s2 [<- _]%lookup_singleton_Some [<- _]%lookup_singleton_Some].
  intros l s [<- <-]%lookup_singleton_Some.
  exists (set_map demo_page false (mk_id_map 1 [mk_extent 0 1000 1])).
  split; [vm_compute; reflexivity|done|done|vm_compute; split; discriminate|].
  split; intros [|]; cbn; try set_solver.
  - split; [constructor|set_solver].
  - split; [repeat constructor; unfold UINT32_MAX; cbn; lia|].
    intros r s ->%list_elem_of_singleton ->%list_elem_of_singleton. by left.
Qed.

Lemma user_id_roundtrip_witness :
  md_user_namespace_into demo_mapped (Some 1%positive) false 0 = 1000
  ∧ md_user_namespace_from demo_mapped (Some 1%positive) false 1000 = 0.
Proof.
  assert (md_user_namespace_into demo_mapped (Some 1%positive) false 0 = 1000) as H
    by (vm_compute; reflexivity).
  split; [exact H|].
  apply (user_id_roundtrip demo_mapped (Some 1%positive) false 0 1000);
    [apply demo_mapped_ok|unfold UINT32_MAX; lia..|exact H].
Defined.

Lemma user_map_stable_witness :
  md_user_namespace_into (fst (md_user_namespace_map demo_mapped (Some 1%positive) true
    (Some demo_user) (Some demo_user) [mk_extent 0 1000 1])) (Some 1%positive) false 0 = 1000.
Proof.
  rewrite user_map_stable; [vm_compute; reflexivity|apply demo_mapped_ok|vm_compute; discriminate].
Defined.

Lemma user_extent_reaches_initial_witness :
  ∃ base, 0 ≤ base ∧ base + 1 ≤ UINT32_MAX
    ∧ ∀ k, 0 ≤ k < 1 → md_user_namespace_into demo_mapped (Some 1%positive) false (0 + k) = base + k.
Proof.
  eapply (user_extent_reaches_initial demo_mapped (Some 1%positive) _ _ false (mk_extent 0 1000 1));
    [apply demo_mapped_ok|vm_compute; reflexivity|vm_compute; left].
Defined.

Lemma user_map_unprivileged_witness :
  ∃ r, [mk_extent 0 1000 1] = [r] ∧ x_count r = 1 ∧ p_owner demo_page = a_uid demo_user
    ∧ into_view [] true (x_outside r) = a_gid demo_user
    ∧ (true = true → p_groups_allowed demo_page = 0).
Proof.
  eapply (user_map_unprivileged demo_world (Some 1%positive) (mk_node 1 demo_ns demo_page) [] true
    demo_user None [mk_extent 0 1000 1]); vm_compute; reflexivity.
Defined.
