(* ===== verification/UserCharge.v ===== *)
(** * Resource charges and lifetime of user namespaces
    (src/native/shroot/src/user_namespace.c, the accounting half).

    Every user owns one charge record per namespace it uses resources in; a
    charge there is also charged to the namespace's creator one level up, and so
    on to the initial namespace.  [md_user_namespace_new] and
    [md_user_namespace_release] are built on the same records.  System calls and
    allocations enter as explicit outcomes ([new_env], [calloc]). *)
From S2P Require Import Prelude.
From S2P Require Import UserNamespace.

Definition MD_USER_NAMESPACES : Z := 0.
Definition MD_USER_INOTIFY_INSTANCES : Z := 1.
Definition MD_USER_INOTIFY_WATCHES : Z := 2.
Definition MD_USER_RESOURCE_COUNT : Z := 3.

Definition resource_valid (resource : Z) : bool :=
  (0 <=? resource) && (resource <? MD_USER_RESOURCE_COUNT).

(** ** Field updates *)

Definition upd_space (w : world) (l : loc) (f : md_user_namespace → md_user_namespace) : world :=
  mk_world (alter f l (w_spaces w)) (w_pages w) (w_charges w) (w_initial_accounts w) (w_initial_limits w).
Definition upd_charge (w : world) (p : loc) (f : md_user_charge → md_user_charge) : world :=
  mk_world (w_spaces w) (w_pages w) (alter f p (w_charges w)) (w_initial_accounts w) (w_initial_limits w).
Definition with_charges (w : world) (cs : gmap loc md_user_charge) : world :=
  mk_world (w_spaces w) (w_pages w) cs (w_initial_accounts w) (w_initial_limits w).
Definition with_spaces (w : world) (ss : gmap loc md_user_namespace) : world :=
  mk_world ss (w_pages w) (w_charges w) (w_initial_accounts w) (w_initial_limits w).

Definition add_references (d : Z) (s : md_user_namespace) : md_user_namespace :=
  mk_ns (wrap32 (n_references s + d)) (n_parent s) (n_id s) (n_fd s) (n_writer s) (n_page s)
    (n_accounts s) (n_charge s).
Definition add_holds (d : Z) (c : md_user_charge) : md_user_charge :=
  mk_charge (c_space c) (c_uid c) (c_count c) (wrap64 (c_references c + d)).
Definition add_count (resource d : Z) (c : md_user_charge) : md_user_charge :=
  mk_charge (c_space c) (c_uid c) (alter (λ x, wrap32 (x + d)) (Z.to_nat resource) (c_count c))
    (c_references c).

(** The account list a charge record hangs off. *)
Definition upd_accounts (w : world) (space : option loc) (f : list loc → list loc) : world :=
  match space with
  | None => mk_world (w_spaces w) (w_pages w) (w_charges w) (f (w_initial_accounts w)) (w_initial_limits w)
  | Some l => upd_space w l (λ s, mk_ns (n_references s) (n_parent s) (n_id s) (n_fd s) (n_writer s)
      (n_page s) (f (n_accounts s)) (n_charge s))
  end.
Definition accounts_of (w : world) (space : option loc) : list loc :=
  match space with
  | None => w_initial_accounts w
  | Some l => default [] (n_accounts <$> w_spaces w !! l)
  end.

(** ** Limits *)

Definition md_user_namespace_limit (w : world) (n : option loc) (resource : Z) : Z :=
  if negb (resource_valid resource) then 0
  else
    let limits := match n with
                  | None => w_initial_limits w
                  | Some l => default [] (s ← w_spaces w !! l; p_limits <$> w_pages w !! n_page s)
                  end in
    default 0 (limits !! Z.to_nat resource).

Definition set_limits (p : namespace_page) (ls : list Z) : namespace_page :=
  mk_page (p_magic p) (p_version p) (p_depth p) (p_owner p) (p_group p) (p_creator_setfcap p)
    (p_inode p) (p_parent p) (p_groups_allowed p) ls (p_maps0 p) (p_maps1 p).

Definition md_user_namespace_set_limit (w : world) (n : option loc) (resource limit : Z) : world * Z :=
  if negb (resource_valid resource) || (INT_MAX <? limit) then (w, - EINVAL)
  else match n with
       | None => (mk_world (w_spaces w) (w_pages w) (w_charges w) (w_initial_accounts w)
                    (<[Z.to_nat resource := limit]> (w_initial_limits w)), 0)
       | Some _ =>
           match view w n with
           | [] => (w, - EPERM)
           | nd :: _ =>
               if negb (n_writer (nd_ns nd)) then (w, - EPERM)
               else (set_page w (n_page (nd_ns nd))
                       (set_limits (nd_page nd) (<[Z.to_nat resource := limit]> (p_limits (nd_page nd)))), 0)
           end
       end.

(** ** Charges *)

Definition count_parent (w : world) (c : md_user_charge) : option loc :=
  l ← c_space c; s ← w_spaces w !! l; n_charge s.

(** [for (p = c; p; p = count_parent(p))]: one record per level, so at most one
    more than the depth bound. *)
Fixpoint charge_walk (fuel : nat) (w : world) (c : option loc) : list loc :=
  match fuel, c with
  | S fuel, Some p =>
      match w_charges w !! p with
      | Some r => p :: charge_walk fuel w (count_parent w r)
      | None => []
      end
  | _, _ => []
  end.
Definition charge_chain (w : world) (c : option loc) : list loc :=
  charge_walk (S (Z.to_nat MD_USER_NAMESPACE_DEPTH)) w c.

Definition count_of (w : world) (p : loc) (resource : Z) : Z :=
  default 0 (c ← w_charges w !! p; c_count c !! Z.to_nat resource).
Definition space_of (w : world) (p : loc) : option loc := c ← w_charges w !! p; c_space c.

(** The increment loop of [count_add]: the records incremented so far and
    whether some record was full ([bad]). *)
Fixpoint count_up (w : world) (todo : list loc) (resource : Z) : world * list loc * bool :=
  match todo with
  | [] => (w, [], false)
  | p :: todo =>
      if md_user_namespace_limit w (space_of w p) resource <=? count_of w p resource
      then (w, [], true)
      else let '(w', taken, bad) := count_up (upd_charge w p (add_count resource 1)) todo resource in
           (w', p :: taken, bad)
  end.
Definition count_down (w : world) (ps : list loc) (resource : Z) : world :=
  foldl (λ w p, upd_charge w p (add_count resource (-1))) w ps.

Definition md_user_namespace_retain (w : world) (n : option loc) : world :=
  match n with None => w | Some l => upd_space w l (add_references 1) end.

Definition count_add (w : world) (c : loc) (resource : Z) : world * Z :=
  let '(w1, taken, bad) := count_up w (charge_chain w (Some c)) resource in
  if bad then (count_down w1 taken resource, - ENOSPC)
  else (md_user_namespace_retain (upd_charge w1 c (add_holds 1)) (space_of w1 c), 0).

Fixpoint unlink (c : loc) (l : list loc) : list loc :=
  match l with [] => [] | x :: l => if bool_decide (x = c) then l else x :: unlink c l end.
Definition count_remove (w : world) (c : loc) : world :=
  let w1 := upd_accounts w (space_of w c) (unlink c) in
  with_charges w1 (delete c (w_charges w1)).

Definition space_writer (w : world) (space : option loc) : bool :=
  match space with None => true | Some l => default false (n_writer <$> w_spaces w !! l) end.

Definition fresh_charge (space : option loc) (uid : Z) : md_user_charge :=
  mk_charge space uid (replicate (Z.to_nat MD_USER_RESOURCE_COUNT) 0) 0.
(** A new record [c] pushed on the front of its account list. *)
Definition opened (w : world) (space : option loc) (uid : Z) (c : loc) : world :=
  let w1 := upd_accounts w space (cons c) in
  with_charges w1 (<[c := fresh_charge space uid]> (w_charges w1)).
Definition find_account (w : world) (space : option loc) (uid : Z) : option loc :=
  List.find (λ p, match w_charges w !! p with Some c => c_uid c =? uid | None => false end)
    (accounts_of w space).

(** [calloc] says whether the allocation of a new record succeeds. *)
Definition md_user_charge_acquire (w : world) (space : option loc) (uid resource : Z) (calloc : bool)
    : world * option loc * Z :=
  if negb (resource_valid resource) || (uid =? UINT32_MAX) then (w, None, - EINVAL)
  else if negb (space_writer w space) then (w, None, - EOPNOTSUPP)
  else
    let prepared :=
      match find_account w space uid with
      | Some c => Some (w, c)
      | None =>
          if negb calloc then None
          else let c := fresh (dom (w_charges w)) in Some (opened w space uid c, c)
      end in
    match prepared with
    | None => (w, None, - ENOMEM)
    | Some (w1, c) =>
        let '(w2, error) := count_add w1 c resource in
        if negb (error =? 0) then
          (if default 0 (c_references <$> w_charges w2 !! c) =? 0 then count_remove w2 c else w2,
           None, error)
        else (w2, Some c, 0)
    end.

Definition md_user_charge_add (w : world) (c : option loc) (resource : Z) : world * Z :=
  match c with
  | None => (w, - EINVAL)
  | Some c => if negb (resource_valid resource) then (w, - EINVAL) else count_add w c resource
  end.

(** ** Release: charges and namespaces free each other along the parent chain *)

Definition charge_release_with (release : world → option loc → world) (w : world) (c : option loc)
    (resource : Z) : world :=
  match c with
  | None => w
  | Some p =>
      let space := space_of w p in
      let w1 := count_down w (charge_chain w (Some p)) resource in
      let w2 := upd_charge w1 p (add_holds (-1)) in
      let w3 := if default 0 (c_references <$> w_charges w2 !! p) =? 0 then count_remove w2 p else w2 in
      release w3 space
  end.
Fixpoint namespace_release (fuel : nat) (w : world) (n : option loc) : world :=
  match fuel, n with
  | S fuel, Some l =>
      match w_spaces w !! l with
      | None => w
      | Some s =>
          let w1 := upd_space w l (add_references (-1)) in
          if negb (n_references s =? 1) then w1
          else
            let w2 := charge_release_with (namespace_release fuel) w1 (n_charge s) MD_USER_NAMESPACES in
            let w3 := namespace_release fuel w2 (n_parent s) in
            with_spaces w3 (delete l (w_spaces w3))
      end
  | _, _ => w
  end.
Definition md_user_namespace_release (w : world) (n : option loc) : world :=
  namespace_release (S (Z.to_nat MD_USER_NAMESPACE_DEPTH)) w n.
Definition md_user_charge_release (w : world) (c : option loc) (resource : Z) : world :=
  charge_release_with md_user_namespace_release w c resource.

(** ** Creation *)

(** What the system answers during [md_user_namespace_new]: each is the value of
    a successful call or the errno of the failed one. *)
Record new_env := mk_new_env {
  e_memfd : Z + Z;          (* memfd_create *)
  e_truncate : unit + Z;    (* ftruncate *)
  e_allocate : (Z * Z) + Z; (* allocate: st_dev and st_ino, or fstat/calloc/mmap failing *)
  e_identity : Z + Z;       (* md_namespace_identity_new *)
  e_seal : unit + Z;        (* fcntl(F_ADD_SEALS) *)
  e_calloc : bool }.        (* the charge record *)

Definition new_page (parent : list node) (owner group inode : Z) (setfcap : bool) : namespace_page :=
  mk_page MAGIC VERSION
    (match parent with [] => 1 | nd :: _ => p_depth (nd_page nd) + 1 end)
    owner group (if setfcap then 1 else 0) inode (md_user_namespace_key_of parent)
    (if md_user_namespace_groups_allowed parent then 1 else 0)
    (replicate (Z.to_nat MD_USER_RESOURCE_COUNT) INT_MAX) (mk_id_map 0 []) (mk_id_map 0 []).

Definition with_charge (c : option loc) (s : md_user_namespace) : md_user_namespace :=
  mk_ns (n_references s) (n_parent s) (n_id s) (n_fd s) (n_writer s) (n_page s) (n_accounts s) c.

Definition md_user_namespace_new (w : world) (parent : option loc) (owner group : Z) (setfcap : bool)
    (env : new_env) : world * (loc + Z) :=
  let above := view w parent in
  let deep := match above with [] => false | nd :: _ => MD_USER_NAMESPACE_DEPTH <=? p_depth (nd_page nd) end in
  if deep || (owner =? UINT32_MAX) || (group =? UINT32_MAX)
  then (w, inr (if deep then ENOSPC else EINVAL))
  else if (md_user_namespace_from w parent false owner =? UINT32_MAX)
          || (md_user_namespace_from w parent true group =? UINT32_MAX) then (w, inr EPERM)
  else
    match e_memfd env, e_truncate env, e_allocate env, e_identity env, e_seal env with
    | inr e, _, _, _, _ | inl _, inr e, _, _, _ | inl _, inl _, inr e, _, _
    | inl _, inl _, inl _, inr e, _ | inl _, inl _, inl _, inl _, inr e => (w, inr e)
    | inl fd, inl _, inl (dev, ino), inl inode, inl _ =>
        let n := fresh (dom (w_spaces w)) in
        let pg := fresh (dom (w_pages w)) in
        let s := mk_ns 1 parent (mk_key dev ino inode) fd true pg [] None in
        let w1 := mk_world (<[n := s]> (w_spaces w))
                    (<[pg := new_page above owner group inode setfcap]> (w_pages w))
                    (w_charges w) (w_initial_accounts w) (w_initial_limits w) in
        let w2 := md_user_namespace_retain w1 parent in
        let '(w3, charge, error) := md_user_charge_acquire w2 parent owner MD_USER_NAMESPACES (e_calloc env) in
        if negb (error =? 0) then (md_user_namespace_release w3 (Some n), inr (- error))
        else (upd_space w3 n (with_charge charge), inl n)
    end.

(** ** Invariants of the accounts *)

Definition u32 (x : Z) : Prop := 0 ≤ x < 4294967296.
Definition counts_u32 (w : world) : Prop :=
  ∀ p c, w_charges w !! p = Some c → Forall u32 (c_count c).

(** Charge records sit one level below the record their namespace is charged to. *)
Record charges_ok (w : world) : Prop := {
  co_world : world_ok w;
  co_counts : counts_u32 w;
  co_length : ∀ p c, w_charges w !! p = Some c → length (c_count c) = 3%nat;
  co_space : ∀ p c l, w_charges w !! p = Some c → c_space c = Some l → is_Some (w_spaces w !! l);
  co_parent : ∀ l s q, w_spaces w !! l = Some s → n_charge s = Some q →
    ∃ c, w_charges w !! q = Some c ∧ c_space c = n_parent s;
  co_refs : ∀ l s, w_spaces w !! l = Some s → 1 ≤ n_references s < UINT32_MAX;
  co_holds : ∀ p c, w_charges w !! p = Some c → 1 ≤ c_references c < UINT64_MAX;
  co_limits : ∀ n resource, md_user_namespace_limit w n resource ≤ INT_MAX }.

(** ** Counting up and back down *)

Lemma wrap_undo (x d : Z) : u32 x → wrap32 (wrap32 (x + d) + - d) = x.
Proof. unfold u32, wrap32. intros. rewrite Zplus_mod_idemp_l. replace (x + d + - d) with x by lia. by apply Z.mod_small. Qed.

Lemma add_count_swap r r' d d' c :
  add_count r d (add_count r' d' c) = add_count r' d' (add_count r d c).
Proof.
  unfold add_count. cbn. f_equal. destruct (decide (Z.to_nat r = Z.to_nat r')) as [->|Hne].
  - rewrite !list_alter_alter_eq. apply list_alter_ext; [|done]. intros x _. cbn. unfold wrap32.
    rewrite !Zplus_mod_idemp_l. f_equal. lia.
  - by apply list_alter_alter_ne.
Qed.

Lemma add_count_undo r d c : Forall u32 (c_count c) → add_count r (- d) (add_count r d c) = c.
Proof.
  intros Hu. destruct c as [s u l h]. unfold add_count. cbn in *. f_equal.
  rewrite list_alter_alter_eq. apply list_eq. intros i.
  destruct (decide (Z.to_nat r = i)) as [<-|Hne].
  - rewrite list_lookup_alter_eq. destruct (l !! Z.to_nat r) as [x|] eqn:E; [|done]. cbn.
    rewrite Forall_lookup in Hu. by rewrite wrap_undo; [|eapply Hu].
  - by rewrite list_lookup_alter_ne.
Qed.

Lemma upd_charge_swap w p q f g :
  (p = q → ∀ c, f (g c) = g (f c)) →
  upd_charge (upd_charge w q g) p f = upd_charge (upd_charge w p f) q g.
Proof. intros H. unfold upd_charge. cbn. f_equal. by apply alter_swap. Qed.

Lemma upd_charge_undo w p f g :
  (∀ c, w_charges w !! p = Some c → g (f c) = c) → upd_charge (upd_charge w p f) p g = w.
Proof. intros H. unfold upd_charge. destruct w. cbn in *. f_equal. by apply alter_undo. Qed.

Definition up (r : Z) (w : world) (ps : list loc) : world :=
  foldl (λ w p, upd_charge w p (add_count r 1)) w ps.

Lemma up_cons r w p ps : up r w (p :: ps) = up r (upd_charge w p (add_count r 1)) ps.
Proof. done. Qed.

Lemma up_swap r p d w ps :
  upd_charge (up r w ps) p (add_count r d) = up r (upd_charge w p (add_count r d)) ps.
Proof.
  revert w; induction ps as [|q ps IH]; intros w; [done|]. rewrite !up_cons, IH. f_equal.
  apply upd_charge_swap. intros _. apply add_count_swap.
Qed.

Lemma count_down_up r w ps : counts_u32 w → count_down (up r w ps) ps r = w.
Proof.
  revert w; induction ps as [|p ps IH]; intros w Hw; [done|].
  rewrite up_cons. cbn [count_down foldl]. rewrite up_swap, upd_charge_undo; [by apply IH|].
  intros c Hc. apply (add_count_undo r 1). by eapply Hw.
Qed.

Lemma count_up_spec w todo r w' taken bad :
  count_up w todo r = (w', taken, bad) →
  w' = up r w taken ∧ (bad = false → taken = todo).
Proof.
  revert w w' taken bad; induction todo as [|p todo IH]; intros w w' taken bad; cbn.
  { by intros [= <- <- <-]. }
  case_if. { by intros [= <- <- <-]. }
  destruct (count_up _ todo r) as [[w1 t1] b1] eqn:Ec. intros [= <- <- <-].
  destruct (IH _ _ _ _ Ec) as [-> Ht]. split; [done|]. intros Hb. by rewrite Ht.
Qed.

(** ** What the walk depends on *)

Lemma charge_walk_ext f w w' c :
  (∀ p, c_space <$> w_charges w !! p = c_space <$> w_charges w' !! p) →
  (∀ l, n_charge <$> w_spaces w !! l = n_charge <$> w_spaces w' !! l) →
  charge_walk f w c = charge_walk f w' c.
Proof.
  intros Hc Hs. revert c. induction f as [|f IH]; intros [p|]; try done. cbn [charge_walk].
  pose proof (Hc p) as Hp. destruct (w_charges w !! p) as [r|], (w_charges w' !! p) as [r'|]; try done.
  f_equal. rewrite IH. f_equal. unfold count_parent. injection Hp as ->.
  destruct (c_space r') as [l|]; [|done]. cbn. pose proof (Hs l) as Hl.
  destruct (w_spaces w !! l), (w_spaces w' !! l); try done. cbn in *. congruence.
Qed.

Lemma upd_charge_space w p f q :
  (∀ c, c_space (f c) = c_space c) →
  c_space <$> w_charges (upd_charge w p f) !! q = c_space <$> w_charges w !! q.
Proof.
  intros Hf. cbn. destruct (decide (p = q)) as [<-|Hne].
  - rewrite lookup_alter_eq. destruct (w_charges w !! p); cbn; [|done]. by rewrite Hf.
  - by rewrite lookup_alter_ne.
Qed.

Lemma up_spaces r w ps : w_spaces (up r w ps) = w_spaces w.
Proof. revert w; induction ps as [|p ps IH]; intros w; [done|]. by rewrite up_cons, IH. Qed.

Lemma up_space r w ps q : c_space <$> w_charges (up r w ps) !! q = c_space <$> w_charges w !! q.
Proof.
  revert w; induction ps as [|p ps IH]; intros w; [done|]. rewrite up_cons, IH.
  by apply upd_charge_space.
Qed.

Lemma up_holds r w ps q :
  c_references <$> w_charges (up r w ps) !! q = c_references <$> w_charges w !! q.
Proof.
  revert w; induction ps as [|p ps IH]; intros w; [done|]. rewrite up_cons, IH. cbn.
  destruct (decide (p = q)) as [<-|Hne]; [|by rewrite lookup_alter_ne].
  rewrite lookup_alter_eq. by destruct (w_charges w !! p).
Qed.

Lemma space_of_alt w q : space_of w q = mjoin (c_space <$> w_charges w !! q).
Proof. unfold space_of. by destruct (w_charges w !! q). Qed.

(** ** The world an account lookup works in *)

Lemma opened_charges w space uid c :
  w_charges (opened w space uid c) = <[c := fresh_charge space uid]> (w_charges w).
Proof. by destruct space. Qed.

Lemma unlink_head c l : unlink c (c :: l) = l.
Proof. cbn. by rewrite bool_decide_true. Qed.

Lemma opened_remove w space uid c :
  w_charges w !! c = None → count_remove (opened w space uid c) c = w.
Proof.
  intros Hc. unfold count_remove, space_of. rewrite opened_charges, lookup_insert_eq. cbn.
  unfold opened. destruct w as [ss ps cs ia il]; destruct space as [l|]; cbn in *;
    unfold with_charges, upd_space, upd_accounts; cbn; f_equal.
  - apply alter_undo. intros [] _. cbn. by rewrite bool_decide_true.
  - by rewrite delete_insert_id.
  - by rewrite delete_insert_id.
  - by rewrite bool_decide_true.
Qed.

Lemma opened_counts w space uid c : counts_u32 w → counts_u32 (opened w space uid c).
Proof.
  intros Hw p r. rewrite opened_charges, lookup_insert. case_decide.
  - intros [= <-]. repeat constructor; unfold u32; cbn; lia.
  - apply Hw.
Qed.

(** Adding and dropping one use of a record, counts aside. *)
Lemma holds_undo d c : 0 ≤ c_references c ≤ UINT64_MAX → add_holds (- d) (add_holds d c) = c.
Proof.
  destruct c as [s u l h]. unfold add_holds. cbn. intros Hh. f_equal. unfold wrap64, UINT64_MAX in *.
  rewrite Zplus_mod_idemp_l. replace (h + d + - d) with h by lia. apply Z.mod_small. lia.
Qed.
Lemma references_undo d s : 0 ≤ n_references s ≤ UINT32_MAX → add_references (- d) (add_references d s) = s.
Proof.
  destruct s as [h]. unfold add_references. cbn. intros Hh. f_equal. unfold wrap32, UINT32_MAX in *.
  rewrite Zplus_mod_idemp_l. replace (h + d + - d) with h by lia. apply Z.mod_small. lia.
Qed.

Lemma count_add_outcome w c r w' e :
  counts_u32 w → count_add w c r = (w', e) →
  (e = - ENOSPC ∧ w' = w)
  ∨ (e = 0 ∧ w' = md_user_namespace_retain
       (upd_charge (up r w (charge_chain w (Some c))) c (add_holds 1)) (space_of w c)).
Proof.
  intros Hw. unfold count_add. destruct (count_up w _ r) as [[w1 taken] bad] eqn:Ec.
  destruct (count_up_spec _ _ _ _ _ _ Ec) as [-> Ht]. destruct bad; intros [= <- <-].
  - left. split; [done|]. by apply count_down_up.
  - right. split; [done|]. rewrite Ht by done.
    by rewrite (space_of_alt (up _ _ _)), up_space, <- space_of_alt.
Qed.

Lemma count_down_cons w p ps r :
  count_down w (p :: ps) r = count_down (upd_charge w p (add_count r (-1))) ps r.
Proof. done. Qed.

Lemma count_down_holds w c d ps r :
  count_down (upd_charge w c (add_holds d)) ps r = upd_charge (count_down w ps r) c (add_holds d).
Proof.
  revert w; induction ps as [|p ps IH]; intros w; [done|].
  rewrite !count_down_cons, <- IH. f_equal. by apply upd_charge_swap.
Qed.

Lemma count_down_retain w n ps r :
  count_down (md_user_namespace_retain w n) ps r = md_user_namespace_retain (count_down w ps r) n.
Proof. revert w; induction ps as [|p ps IH]; intros w; [done|]. rewrite !count_down_cons, <- IH. by destruct n. Qed.

Lemma retain_charges w n : w_charges (md_user_namespace_retain w n) = w_charges w.
Proof. by destruct n. Qed.

Lemma release_retain w n :
  (∀ l s, w_spaces w !! l = Some s → 1 ≤ n_references s < UINT32_MAX) →
  md_user_namespace_release (md_user_namespace_retain w n) n = w.
Proof.
  intros Hrefs. destruct n as [l|]; [|done].
  unfold md_user_namespace_release, md_user_namespace_retain. cbn [namespace_release].
  assert (upd_space (upd_space w l (add_references 1)) l (add_references (-1)) = w) as Hundo.
  { unfold upd_space. destruct w. cbn in *. f_equal. apply alter_undo. intros s Hs.
    apply (references_undo 1). specialize (Hrefs l s Hs). lia. }
  cbn [upd_space w_spaces]. rewrite lookup_alter_eq.
  destruct (w_spaces w !! l) as [s|] eqn:Hl; cbn.
  - specialize (Hrefs l s Hl). unfold wrap32, UINT32_MAX in *. rewrite Z.mod_small by lia.
    destruct (Z.eqb_spec (n_references s + 1) 1); [lia|]. cbn. apply Hundo.
  - unfold upd_space. destruct w. cbn in *. f_equal. by apply alter_noop; congruence.
Qed.

Lemma chain_after_add w c r d n p :
  charge_chain (md_user_namespace_retain (upd_charge (up r w p) c (add_holds d)) n) (Some c)
  = charge_chain w (Some c).
Proof.
  apply charge_walk_ext.
  - intros q. rewrite retain_charges, upd_charge_space by done. apply up_space.
  - intros l. destruct n as [k|]; cbn; [|by rewrite up_spaces].
    destruct (decide (k = l)) as [<-|Hne]; [|by rewrite lookup_alter_ne, up_spaces].
    rewrite lookup_alter_eq, up_spaces. by destruct (w_spaces w !! k).
Qed.

(** Undoing a successful [count_add], up to the removal of an unused record. *)
Lemma release_after_add w c r ch :
  counts_u32 w → w_charges w !! c = Some ch → 0 ≤ c_references ch ≤ UINT64_MAX →
  md_user_charge_release (md_user_namespace_retain
    (upd_charge (up r w (charge_chain w (Some c))) c (add_holds 1)) (space_of w c)) (Some c) r
  = md_user_namespace_release
      (let w2 := md_user_namespace_retain w (space_of w c) in
       if c_references ch =? 0 then count_remove w2 c else w2) (space_of w c).
Proof.
  intros Hu Hc Hr. unfold md_user_charge_release, charge_release_with. rewrite chain_after_add.
  rewrite count_down_retain, count_down_holds, count_down_up by done.
  set (n := space_of w c).
  assert (space_of (md_user_namespace_retain (upd_charge (up r w (charge_chain w (Some c))) c (add_holds 1)) n) c = n) as ->.
  { rewrite space_of_alt, retain_charges, upd_charge_space, up_space, <- space_of_alt by done. done. }
  assert (upd_charge (md_user_namespace_retain (upd_charge w c (add_holds 1)) n) c (add_holds (-1))
          = md_user_namespace_retain w n) as ->.
  { replace (upd_charge (md_user_namespace_retain (upd_charge w c (add_holds 1)) n) c (add_holds (-1)))
      with (md_user_namespace_retain (upd_charge (upd_charge w c (add_holds 1)) c (add_holds (-1))) n)
      by by destruct n.
    f_equal. apply upd_charge_undo. intros ch' Hch'. apply (holds_undo 1). congruence. }
  rewrite retain_charges, Hc. done.
Qed.

Lemma find_account_live w space uid c :
  find_account w space uid = Some c → ∃ ch, w_charges w !! c = Some ch.
Proof.
  intros [_ H]%find_some. destruct (w_charges w !! c); [by eauto|done].
Qed.

(** The two ways [md_user_charge_acquire] reaches [count_add]. *)
Lemma acquire_outcome w space uid r calloc w' o e :
  charges_ok w → md_user_charge_acquire w space uid r calloc = (w', o, e) →
  (o = None ∧ e < 0 ∧ w' = w)
  ∨ (e = 0 ∧ ∃ w1 c ch, o = Some c ∧ counts_u32 w1 ∧ w_charges w1 !! c = Some ch
     ∧ ((w1 = w ∧ 1 ≤ c_references ch < UINT64_MAX)
        ∨ (c_references ch = 0 ∧ w_charges w !! c = None ∧ w1 = opened w space uid c))
     ∧ w' = md_user_namespace_retain
       (upd_charge (up r w1 (charge_chain w1 (Some c))) c (add_holds 1)) (space_of w1 c)).
Proof.
  intros Hw. unfold md_user_charge_acquire.
  case_if; [intros [= <- <- <-]; by left|]. case_if; [intros [= <- <- <-]; by left|].
  destruct (find_account w space uid) as [c|] eqn:Hf.
  - destruct (find_account_live _ _ _ _ Hf) as [ch Hch]. pose proof (co_holds _ Hw _ _ Hch) as Hh.
    destruct (count_add w c r) as [w2 err] eqn:Ha.
    destruct (count_add_outcome _ _ _ _ _ (co_counts _ Hw) Ha) as [[-> ->]|[-> ->]]; cbn [Z.eqb negb].
    + intros [= <- <- <-]. left. rewrite Hch. cbn. destruct (Z.eqb_spec (c_references ch) 0); [lia|done].
    + intros [= <- <- <-]. right. split; [done|]. exists w, c, ch. split_and!; auto using co_counts.
  - destruct calloc; cbn [negb]; [|intros [= <- <- <-]; by left].
    set (c := fresh (dom (w_charges w))).
    assert (w_charges w !! c = None) as Hc by (apply not_elem_of_dom, is_fresh).
    pose proof (opened_counts w space uid c (co_counts _ Hw)) as Hu.
    destruct (count_add _ c r) as [w2 err] eqn:Ha.
    destruct (count_add_outcome _ _ _ _ _ Hu Ha) as [[-> ->]|[-> ->]]; cbn [Z.eqb negb].
    + rewrite opened_charges, lookup_insert_eq, opened_remove by done.
      intros [= <- <- <-]. by left.
    + intros [= <- <- <-]. right. split; [done|].
      exists (opened w space uid c), c, (fresh_charge space uid).
      split_and!; auto. by rewrite opened_charges, lookup_insert_eq.
Qed.

(** ** Hierarchical limits *)

Lemma limit_up w r ps n k : md_user_namespace_limit (up r w ps) n k = md_user_namespace_limit w n k.
Proof.
  revert w; induction ps as [|p ps IH]; intros w; [done|]. rewrite up_cons, IH. done.
Qed.

Lemma count_of_other w p q f r : p ≠ q → count_of (upd_charge w p f) q r = count_of w q r.
Proof. intros. unfold count_of. cbn. by rewrite lookup_alter_ne. Qed.

Lemma space_of_upd w p f q :
  (∀ c, c_space (f c) = c_space c) → space_of (upd_charge w p f) q = space_of w q.
Proof. intros. by rewrite !space_of_alt, upd_charge_space. Qed.

Lemma count_up_below w todo r w' taken :
  NoDup todo → count_up w todo r = (w', taken, false) →
  ∀ p, p ∈ todo → count_of w p r < md_user_namespace_limit w (space_of w p) r.
Proof.
  revert w w' taken; induction todo as [|q todo IH]; intros w w' taken Hnd; cbn [count_up].
  { intros _ p []%not_elem_of_nil. }
  apply NoDup_cons in Hnd as [Hq Hnd]. case_if; [done|]. breflect.
  destruct (count_up _ todo r) as [[w1 t1] b1] eqn:Ec. intros [= <- <- ->].
  intros p [->|Hp]%elem_of_cons; [done|].
  specialize (IH _ _ _ Hnd Ec p Hp). rewrite count_of_other in IH by (by intros ->).
  by rewrite space_of_upd in IH.
Qed.

Lemma count_of_up w r ps p :
  NoDup ps → p ∈ ps → (∀ q, q ∈ ps → ∃ x, (c ← w_charges w !! q; c_count c !! Z.to_nat r) = Some x) →
  count_of (up r w ps) p r = wrap32 (count_of w p r + 1).
Proof.
  revert w; induction ps as [|q ps IH]; intros w Hnd Hp Hlive; [by apply not_elem_of_nil in Hp|].
  apply NoDup_cons in Hnd as [Hq Hnd]. rewrite up_cons.
  assert (∀ ps w', q ∉ ps → count_of (up r w' ps) q r = count_of w' q r) as Hkeep.
  { clear. induction ps as [|x ps IH]; intros w' Hx; [done|]. rewrite up_cons, IH by set_solver.
    apply count_of_other. set_solver. }
  apply elem_of_cons in Hp as [->|Hp].
  - rewrite Hkeep by done. destruct (Hlive q) as [x Hx]; [set_solver|]. unfold count_of in *. cbn.
    rewrite lookup_alter_eq. destruct (w_charges w !! q) as [c|]; [|done]. cbn in *.
    by rewrite list_lookup_alter_eq, Hx.
  - rewrite IH; [|done|done|].
    + by rewrite count_of_other by (by intros ->).
    + intros x Hx. destruct (Hlive x) as [y Hy]; [set_solver|]. exists y. cbn.
      rewrite lookup_alter_ne by (by intros ->). done.
Qed.

Lemma charge_walk_depth w f p :
  charges_ok w → Forall (λ q, depth_of w (space_of w q) ≤ depth_of w (space_of w p)) (charge_walk f w (Some p))
  ∧ NoDup (charge_walk f w (Some p)).
Proof.
  intros Hw. revert p. induction f as [|f IH]; intros p; [split; constructor|]. cbn [charge_walk].
  destruct (w_charges w !! p) as [c|] eqn:Hc; [|split; constructor].
  assert (space_of w p = c_space c) as Hsp by (unfold space_of; by rewrite Hc).
  destruct (count_parent w c) as [q|] eqn:Hq.
  2: { destruct f; cbn [charge_walk]; repeat split; repeat constructor; set_solver. }
  unfold count_parent in Hq. destruct (c_space c) as [l|] eqn:Hl; [|done]. cbn in Hq.
  destruct (w_spaces w !! l) as [s|] eqn:Hs; [|done]. cbn in Hq.
  destruct (co_parent _ Hw _ _ _ Hs Hq) as (cq&Hcq&Hspq).
  destruct (wo_space _ (co_world _ Hw) _ _ Hs) as [pg Hpg].
  assert (depth_of w (space_of w q) < depth_of w (space_of w p)) as Hlt.
  { rewrite Hsp. unfold space_of. rewrite Hcq. cbn [mbind option_bind]. rewrite Hspq.
    cbn [depth_of]. rewrite Hs, (so_page _ _ _ Hpg). cbn. pose proof (so_depth _ _ _ Hpg). lia. }
  destruct (IH q) as [Hd Hnd]. split.
  - constructor; [done|]. eapply Forall_impl; [exact Hd|]. cbn. intros x Hx. lia.
  - constructor; [|done]. intros Hin. rewrite Forall_forall in Hd. specialize (Hd p Hin). lia.
Qed.

Lemma charge_walk_live w f c p : p ∈ charge_walk f w c → is_Some (w_charges w !! p).
Proof.
  revert c; induction f as [|f IH]; intros [q|]; cbn [charge_walk]; try by intros ?%not_elem_of_nil.
  destruct (w_charges w !! q) eqn:E; [|by intros ?%not_elem_of_nil].
  intros [->|?]%elem_of_cons; eauto.
Qed.

(** ** Heaps with the same namespace tree

    Accounting changes reference counts, account lists and charge records only;
    [world_ok] does not see the difference. *)

Definition skel (s : md_user_namespace) : option loc * loc := (n_parent s, n_page s).
Definition same_tree (w w' : world) : Prop :=
  w_pages w = w_pages w' ∧ ∀ l, skel <$> w_spaces w !! l = skel <$> w_spaces w' !! l.

#[export] Instance same_tree_equivalence : Equivalence same_tree.
Proof.
  split.
  - by split.
  - intros w w' [? ?]. by split.
  - intros w1 w2 w3 [Hp H] [Hp' H']. split; [congruence|]. intros l. by rewrite H.
Qed.

Lemma same_tree_lookup w w' l s :
  same_tree w w' → w_spaces w !! l = Some s → ∃ s', w_spaces w' !! l = Some s' ∧ skel s' = skel s.
Proof.
  intros [_ H] Hl. specialize (H l). rewrite Hl in H. destruct (w_spaces w' !! l); [|done].
  injection H as H. eexists. split; [done|]. unfold skel. congruence.
Qed.

Lemma same_tree_pages w w' n : same_tree w w' → nd_page <$> view w n = nd_page <$> view w' n.
Proof.
  intros [Hp Hs]. unfold view. generalize (Z.to_nat MD_USER_NAMESPACE_DEPTH). intros f.
  revert n; induction f as [|f IH]; intros [l|]; cbn [chain]; try done. specialize (Hs l).
  destruct (w_spaces w !! l) as [s|], (w_spaces w' !! l) as [s'|]; try done. injection Hs as Hpar Hpg.
  rewrite Hp, Hpg. destruct (w_pages w' !! n_page s'); [|done]. cbn. by rewrite Hpar, IH.
Qed.

Lemma same_tree_depth w w' n : same_tree w w' → depth_of w n = depth_of w' n.
Proof.
  intros [Hp Hs]. destruct n as [l|]; cbn; [|done]. specialize (Hs l).
  destruct (w_spaces w !! l) as [s|], (w_spaces w' !! l) as [s'|]; try done. injection Hs as Hpar Hpg.
  by rewrite Hp, Hpg.
Qed.

Lemma covered_pages v v' g start n :
  nd_page <$> v = nd_page <$> v' → covered v g start n = covered v' g start n.
Proof.
  revert v' start; induction v as [|x v IH]; intros [|y v'] start H; try done. injection H as Hx Hv.
  cbn [covered]. rewrite Hx. destruct (List.find _ _); [|done]. by apply IH.
Qed.

Lemma page_ok_pages p v v' : nd_page <$> v = nd_page <$> v' → page_ok p v → page_ok p v'.
Proof.
  intros H [Hm Hc]. split; [done|]. intros g r Hr. rewrite <- (covered_pages v) by done. eauto.
Qed.

Lemma same_tree_world w w' : same_tree w w' → world_ok w → world_ok w'.
Proof.
  intros Ht Hw. assert (same_tree w' w) as Ht' by by symmetry. split.
  - intros l s' Hl. destruct (same_tree_lookup _ _ _ _ Ht' Hl) as (s&Hs&Hsk).
    injection Hsk as Hpar Hpg. destruct (wo_space _ Hw _ _ Hs) as [p Hp]. exists p. split.
    + destruct Ht as [<- _]. rewrite <- Hpg. apply Hp.
    + intros k Hk. rewrite <- Hpar in Hk. destruct (so_parent _ _ _ Hp k Hk) as [x Hx].
      destruct (same_tree_lookup _ _ _ _ Ht Hx) as (?&?&_). eauto.
    + rewrite <- Hpar, <- (same_tree_depth w) by done. apply Hp.
    + apply Hp.
    + rewrite <- Hpar. eapply page_ok_pages; [by apply same_tree_pages|]. apply Hp.
  - intros l1 l2 s1 s2 H1 H2 He.
    destruct (same_tree_lookup _ _ _ _ Ht' H1) as (t1&?&E1).
    destruct (same_tree_lookup _ _ _ _ Ht' H2) as (t2&?&E2).
    injection E1 as _ E1. injection E2 as _ E2. eapply (wo_unshared _ Hw); [done..|]. congruence.
Qed.

#[export] Instance world_ok_proper : Proper (same_tree ==> iff) world_ok.
Proof. intros w w' H. split; apply same_tree_world; [done|by symmetry]. Qed.

Lemma same_tree_upd_space w l f : (∀ s, skel (f s) = skel s) → same_tree (upd_space w l f) w.
Proof.
  intros Hf. split; [done|]. intros k. cbn. destruct (decide (l = k)) as [<-|Hne].
  - rewrite lookup_alter_eq. destruct (w_spaces w !! l); cbn; [|done]. by rewrite Hf.
  - by rewrite lookup_alter_ne.
Qed.
Lemma same_tree_upd_accounts w n f : same_tree (upd_accounts w n f) w.
Proof. destruct n; [by apply same_tree_upd_space|done]. Qed.
Lemma same_tree_retain w n : same_tree (md_user_namespace_retain w n) w.
Proof. destruct n; [by apply same_tree_upd_space|done]. Qed.
Lemma same_tree_count_up w todo r : same_tree (fst (fst (count_up w todo r))) w.
Proof.
  revert w; induction todo as [|p todo IH]; intros w; [done|]. cbn [count_up]. case_if; [done|].
  specialize (IH (upd_charge w p (add_count r 1))).
  destruct (count_up _ todo r) as [[w1 t1] b1]. cbn in *. by rewrite IH.
Qed.
Lemma same_tree_count_down w ps r : same_tree (count_down w ps r) w.
Proof.
  revert w; induction ps as [|p ps IH]; intros w; [done|].
  rewrite count_down_cons, IH. done.
Qed.

Lemma same_tree_count_add w c r : same_tree (fst (count_add w c r)) w.
Proof.
  unfold count_add. pose proof (same_tree_count_up w (charge_chain w (Some c)) r) as H.
  destruct (count_up _ _ _) as [[w1 t1] b1]. cbn in H. destruct b1; cbn [fst].
  - by rewrite same_tree_count_down.
  - rewrite same_tree_retain. done.
Qed.
Lemma same_tree_count_remove w c : same_tree (count_remove w c) w.
Proof. transitivity (upd_accounts w (space_of w c) (unlink c)); [done|apply same_tree_upd_accounts]. Qed.

Lemma same_tree_acquire w space uid r calloc :
  same_tree (fst (fst (md_user_charge_acquire w space uid r calloc))) w.
Proof.
  unfold md_user_charge_acquire. case_if; [done|]. case_if; [done|].
  assert (∀ w1 c, same_tree w1 w → same_tree (fst (fst (let '(w2, error) := count_add w1 c r in
    if negb (error =? 0) then
      (if default 0 (c_references <$> w_charges w2 !! c) =? 0 then count_remove w2 c else w2, None, error)
    else (w2, Some c, 0)))) w) as H.
  { intros w1 c Hw1. pose proof (same_tree_count_add w1 c r) as Ha. destruct (count_add w1 c r) as [w2 e].
    cbn in Ha. case_ifs; cbn [fst]; rewrite ?same_tree_count_remove, Ha; done. }
  destruct (find_account w space uid) as [c|]; [by apply H|]. destruct calloc; [|done]. apply H.
  transitivity (upd_accounts w space (cons (fresh (dom (w_charges w)))));
    [done|apply same_tree_upd_accounts].
Qed.

(** ** A new leaf in the tree *)

Definition grow (w : world) (n : loc) (s : md_user_namespace) (p : namespace_page) : world :=
  mk_world (<[n := s]> (w_spaces w)) (<[n_page s := p]> (w_pages w))
    (w_charges w) (w_initial_accounts w) (w_initial_limits w).

Section grow.
  Context (w : world) (n : loc) (s : md_user_namespace) (p : namespace_page).
  Context (Hw : world_ok w) (Hn : w_spaces w !! n = None) (Hpg : w_pages w !! n_page s = None).

Lemma grow_page l t : w_spaces w !! l = Some t →
    w_pages (grow w n s p) !! n_page t = w_pages w !! n_page t.
  Proof using Hw Hpg.
    intros Hl. destruct (wo_space _ Hw _ _ Hl) as [q Hq]. cbn. apply lookup_insert_ne.
    intros E. rewrite E, (so_page _ _ _ Hq) in Hpg. done.
  Qed.

Lemma grow_view k : k ≠ Some n → view (grow w n s p) k = view w k.
  Proof using Hw Hn Hpg.
    unfold view. generalize (Z.to_nat MD_USER_NAMESPACE_DEPTH). intros f.
    revert k; induction f as [|f IH]; intros [l|] Hk; cbn [chain]; try done.
    assert (w_spaces (grow w n s p) !! l = w_spaces w !! l) as ->
      by (cbn; apply lookup_insert_ne; congruence).
    destruct (w_spaces w !! l) as [t|] eqn:Hl; [|done]. rewrite (grow_page l t Hl).
    destruct (wo_space _ Hw _ _ Hl) as [q Hq]. rewrite (so_page _ _ _ Hq), IH; [done|].
    intros Hpar. destruct (so_parent _ _ _ Hq _ Hpar). congruence.
  Qed.

Lemma grow_depth k : k ≠ Some n → depth_of (grow w n s p) k = depth_of w k.
  Proof using Hw Hn Hpg.
    destruct k as [l|]; intros Hk; [|done]. unfold depth_of.
    assert (w_spaces (grow w n s p) !! l = w_spaces w !! l) as ->
      by (cbn; apply lookup_insert_ne; congruence).
    destruct (w_spaces w !! l) as [t|] eqn:Hl; [|done]. by rewrite (grow_page l t Hl).
  Qed.

Lemma grow_ok :
    (∀ l, n_parent s = Some l → is_Some (w_spaces w !! l)) →
    p_depth p = 1 + depth_of w (n_parent s) → p_depth p ≤ MD_USER_NAMESPACE_DEPTH →
    page_ok p (view w (n_parent s)) → world_ok (grow w n s p).
  Proof using Hw Hn Hpg.
    intros Hlive Hd Hb Hok.
    assert (∀ t, (∀ l, n_parent t = Some l → is_Some (w_spaces w !! l)) → n_parent t ≠ Some n) as Hne.
    { intros t Ht E. destruct (Ht _ E). congruence. }
    assert (∀ l, is_Some (w_spaces w !! l) → is_Some (w_spaces (grow w n s p) !! l)) as Hmore.
    { intros l Hl. cbn. rewrite lookup_insert. case_decide; eauto. }
    split.
    - intros l t Hl. cbn in Hl. apply lookup_insert_Some in Hl as [[<- <-]|[Hln Hl]].
      + exists p. split; rewrite ?grow_view, ?grow_depth by auto; try done.
        * cbn. apply lookup_insert_eq.
        * auto.
        * split; [|done]. pose proof (depth_nonneg w (n_parent s) Hw). lia.
      + destruct (wo_space _ Hw _ _ Hl) as [q Hq]. exists q.
        split; rewrite ?(grow_page l t Hl), ?grow_view, ?grow_depth by (apply Hne, Hq); try apply Hq.
        intros k Hk. apply Hmore. by apply Hq.
    - intros l1 l2 s1 s2 H1 H2 He. cbn in H1, H2.
      apply lookup_insert_Some in H1 as [[<- <-]|[? H1]], H2 as [[<- <-]|[? H2]]; try done.
      + destruct (wo_space _ Hw _ _ H2) as [q Hq]. rewrite He, (so_page _ _ _ Hq) in Hpg. done.
      + destruct (wo_space _ Hw _ _ H1) as [q Hq]. rewrite <- He, (so_page _ _ _ Hq) in Hpg. done.
      + by eapply (wo_unshared _ Hw).
  Qed.
End grow.

Lemma new_page_ok v owner group inode setfcap v' :
  page_ok (new_page v owner group inode setfcap) v'.
Proof. split; intros [|]; cbn; [split; [constructor|set_solver]..|set_solver|set_solver]. Qed.

Lemma view_depth_head w n :
  world_ok w → (match view w n with [] => 0 | nd :: _ => p_depth (nd_page nd) end) = depth_of w n.
Proof.
  intros Hw. destruct n as [l|]; [|done]. destruct (w_spaces w !! l) as [s|] eqn:Hl.
  - destruct (wo_space _ Hw _ _ Hl) as [p Hp]. rewrite (view_unfold w l s p) by done. cbn.
    by rewrite Hl, (so_page _ _ _ Hp).
  - rewrite view_dangling by done. cbn. by rewrite Hl.
Qed.

(** A successful creation adds one leaf; everything else it changes is accounting. *)
Lemma new_outcome w parent owner group setfcap env w' n :
  md_user_namespace_new w parent owner group setfcap env = (w', inl n) →
  match view w parent with [] => True | nd :: _ => p_depth (nd_page nd) < MD_USER_NAMESPACE_DEPTH end
  ∧ w_spaces w !! n = None
  ∧ ∃ s inode, n_parent s = parent ∧ w_pages w !! n_page s = None
    ∧ same_tree w' (grow w n s (new_page (view w parent) owner group inode setfcap)).
Proof.
  unfold md_user_namespace_new. cbv zeta.
  destruct (_ || (owner =? UINT32_MAX) || (group =? UINT32_MAX)) eqn:Hg; [done|].
  destruct (_ || (md_user_namespace_from w parent true group =? UINT32_MAX)); [done|].
  destruct (e_memfd env) as [fd|], (e_truncate env), (e_allocate env) as [[dev ino]|],
    (e_identity env) as [inode|], (e_seal env); try done.
  set (l := fresh (dom (w_spaces w))). set (pg := fresh (dom (w_pages w))).
  set (s := mk_ns 1 parent _ _ _ _ _ _). set (p := new_page _ _ _ _ _).
  set (w1 := md_user_namespace_retain _ parent).
  pose proof (same_tree_acquire w1 parent owner MD_USER_NAMESPACES (e_calloc env)) as Ht.
  destruct (md_user_charge_acquire _ _ _ _ _) as [[w3 charge] error]. cbn [fst] in Ht.
  case_if; [done|]. intros [= <- <-]. split_and!.
  - destruct (view w parent); [done|]. cbn in Hg. apply orb_false_iff in Hg as [Hg _].
    apply orb_false_iff in Hg as [Hg _]. lia.
  - apply not_elem_of_dom, is_fresh.
  - exists s, inode. split_and!; [done|apply not_elem_of_dom, is_fresh|].
    rewrite same_tree_upd_space by done. rewrite Ht. apply same_tree_retain.
Qed.

(** ** Properties *)

(** A failed [md_user_charge_acquire] (bad argument, missing writer, no memory,
    or a full account anywhere up the chain) returns no record and leaves every
    count, reference and account list exactly as it was. *)
Theorem charge_acquire_failure w space uid r calloc w' o e :
  charges_ok w → md_user_charge_acquire w space uid r calloc = (w', o, e) → e ≠ 0 →
  o = None ∧ w' = w.
Proof.
  intros Hw Ha He. destruct (acquire_outcome _ _ _ _ _ _ _ _ Hw Ha) as [(->&_&->)|[-> _]]; done.
Qed.

Lemma remove_retained w space uid c :
  w_charges w !! c = None →
  count_remove (md_user_namespace_retain (opened w space uid c) space) c = md_user_namespace_retain w space.
Proof.
  intros Hc. destruct space as [l|]; [|by apply opened_remove].
  rewrite <- (opened_remove w (Some l) uid c Hc) at 2.
  unfold count_remove, space_of. rewrite retain_charges, opened_charges, lookup_insert_eq. cbn.
  unfold upd_space, with_charges. cbn. f_equal. apply alter_swap. done.
Qed.

(** C38: releasing a charge that was just acquired undoes the acquisition exactly:
    counts on every level, the record's own uses, the namespace reference, and a
    record opened for it. *)
Theorem charge_acquire_release w space uid r calloc w' c :
  charges_ok w → md_user_charge_acquire w space uid r calloc = (w', Some c, 0) →
  md_user_charge_release w' (Some c) r = w.
Proof.
  intros Hw Ha. destruct (acquire_outcome _ _ _ _ _ _ _ _ Hw Ha) as [(?&_)|(_&w1&c'&ch&Ho&Hu&Hc&H&->)]; [done|].
  injection Ho as <-. destruct H as [[-> Hr]|(Hr&Hn&->)]; rewrite (release_after_add _ _ _ ch)
    by (done || (unfold UINT64_MAX in *; lia)).
  - cbv zeta. destruct (Z.eqb_spec (c_references ch) 0); [lia|]. apply release_retain, Hw.
  - cbv zeta. rewrite Hr. cbn [Z.eqb].
    assert (space_of (opened w space uid c) c = space) as ->
      by (unfold space_of; by rewrite opened_charges, lookup_insert_eq).
    rewrite remove_retained by done. apply release_retain, Hw.
Qed.

(** A successful charge counts one more use at every level from the record to
    the initial namespace, and no level exceeds the limit of its namespace. *)
Theorem charge_add_within_limits w c r w' :
  charges_ok w → md_user_charge_add w (Some c) r = (w', 0) →
  ∀ p, p ∈ charge_chain w (Some c) →
    count_of w' p r = count_of w p r + 1 ∧ count_of w' p r ≤ md_user_namespace_limit w (space_of w p) r.
Proof.
  intros Hw. unfold md_user_charge_add. case_if; [done|]. unfold count_add.
  destruct (count_up w _ r) as [[w1 taken] bad] eqn:Ec. destruct bad; intros [= <-]; intros p Hp.
  destruct (count_up_spec _ _ _ _ _ _ Ec) as [-> Ht]. rewrite Ht in * by done.
  destruct (charge_walk_depth w (S (Z.to_nat MD_USER_NAMESPACE_DEPTH)) c Hw) as [_ Hnd].
  pose proof (count_up_below _ _ _ _ _ Hnd Ec p Hp) as Hlt.
  pose proof (co_limits _ Hw (space_of w p) r) as Hmax.
  assert (count_of (md_user_namespace_retain (upd_charge (up r w (charge_chain w (Some c))) c (add_holds 1))
    (space_of (up r w (charge_chain w (Some c))) c)) p r = count_of (up r w (charge_chain w (Some c))) p r) as ->.
  { unfold count_of. rewrite retain_charges. cbn. destruct (decide (c = p)) as [<-|]; [|by rewrite lookup_alter_ne].
    rewrite lookup_alter_eq. by destruct (w_charges _ !! c). }
  assert (∀ q, q ∈ charge_chain w (Some c) →
    ∃ x, (ch ← w_charges w !! q; c_count ch !! Z.to_nat r) = Some x ∧ 0 ≤ x) as Hlive.
  { intros q Hq. destruct (charge_walk_live _ _ _ _ Hq) as [ch Hch]. rewrite Hch. cbn.
    destruct (c_count ch !! Z.to_nat r) as [x|] eqn:Hx.
    - exists x. split; [done|]. pose proof (co_counts _ Hw _ _ Hch) as Hf. rewrite Forall_lookup in Hf.
      apply (Hf _ _ Hx).
    - apply lookup_ge_None in Hx. rewrite (co_length _ Hw _ _ Hch) in Hx.
      unfold resource_valid, MD_USER_RESOURCE_COUNT in *. breflect. lia. }
  rewrite count_of_up; [|done|done|intros q Hq; destruct (Hlive q Hq) as (x&?&_); eauto].
  destruct (Hlive p Hp) as (x&Hx&H0). unfold count_of in *. rewrite Hx in *. cbn in *.
  unfold wrap32, INT_MAX in *. rewrite Z.mod_small; lia.
Qed.

(** Creating a namespace keeps the tree consistent; the new object is a fresh
    leaf one level below its parent, never deeper than the bound, and nothing is
    mapped in it yet. *)
Theorem user_new_preserves_world w parent owner group setfcap env w' n :
  world_ok w → (∀ l, parent = Some l → is_Some (w_spaces w !! l)) →
  md_user_namespace_new w parent owner group setfcap env = (w', inl n) →
  world_ok w' ∧ w_spaces w !! n = None
  ∧ depth_of w' (Some n) = 1 + depth_of w parent ∧ depth_of w' (Some n) ≤ MD_USER_NAMESPACE_DEPTH
  ∧ (∀ k, k ≠ Some n → nd_page <$> view w' k = nd_page <$> view w k)
  ∧ (∀ g id, md_user_namespace_into w' (Some n) g id = UINT32_MAX).
Proof.
  intros Hw Hlive Hnew. destruct (new_outcome _ _ _ _ _ _ _ _ Hnew) as (Hd&Hn&s&inode&Hpar&Hpg&Ht).
  set (p := new_page (view w parent) owner group inode setfcap) in *.
  assert (p_depth p = 1 + depth_of w parent) as Hpd.
  { rewrite <- view_depth_head by done. unfold p. cbn. destruct (view w parent); lia. }
  assert (p_depth p ≤ MD_USER_NAMESPACE_DEPTH) as Hpb.
  { unfold p, MD_USER_NAMESPACE_DEPTH in *. cbn. destruct (view w parent); lia. }
  assert (world_ok (grow w n s p)) as Hg.
  { apply grow_ok; rewrite ?Hpar; try done. apply new_page_ok. }
  assert (depth_of (grow w n s p) (Some n) = p_depth p) as Hdn.
  { unfold depth_of. cbn. rewrite !lookup_insert_eq. done. }
  split_and!; [by rewrite Ht|done|rewrite (same_tree_depth _ _ _ Ht); lia
    |rewrite (same_tree_depth _ _ _ Ht); lia| |].
  - intros k Hk. rewrite (same_tree_pages _ _ _ Ht). by rewrite grow_view.
  - intros g id. unfold md_user_namespace_into. pose proof (same_tree_pages _ _ (Some n) Ht) as Hv.
    assert (w_spaces (grow w n s p) !! n = Some s) as Hs by (cbn; apply lookup_insert_eq).
    destruct (wo_space _ Hg _ _ Hs) as [q Hq].
    assert (q = p) as ->.
    { pose proof (so_page _ _ _ Hq) as E. cbn in E. rewrite lookup_insert_eq in E. congruence. }
    rewrite (view_unfold _ _ _ _ Hg Hs Hq) in Hv. destruct (view w' (Some n)) as [|nd v']; [done|].
    injection Hv as Hv _. cbn [into_view]. rewrite Hv. unfold p, translate.
    destruct (Z.eqb_spec id UINT32_MAX) as [->|]; [done|]. destruct g; apply into_view_max.
Qed.

(** ** Witnesses: a namespace created by user 1000, charged to the initial namespace *)

Definition demo_env : new_env := mk_new_env (inl 4) (inl ()) (inl (5, 10)) (inl 8) (inl ()) true.
Definition demo_charged : world :=
  fst (fst (md_user_charge_acquire demo_world (Some 1%positive) 0 MD_USER_INOTIFY_WATCHES true)).

Lemma demo_limits w n resource :
  w_pages w = {[1%positive := demo_page]} → w_initial_limits w = [INT_MAX; 128; 8192] →
  md_user_namespace_limit w n resource ≤ INT_MAX.
Proof.
  intros Hp Hi. unfold md_user_namespace_limit. case_if; [done|]. destruct n as [l|].
  - destruct (w_spaces w !! l) as [s|]; [|done]. cbn. rewrite Hp, lookup_singleton. case_decide; [|done].
    cbn. destruct (Z.to_nat resource) as [|[|[|]]]; done.
  - rewrite Hi. cbn. destruct (Z.to_nat resource) as [|[|[|]]]; done.
Qed.

Lemma demo_charges_ok : charges_ok demo_world.
Proof.
  split; try done; [apply demo_world_ok|cbn..|intros n r; by apply demo_limits].
  - by intros l s q [<- <-]%lookup_singleton_Some.
  - by intros l s [<- <-]%lookup_singleton_Some.
Qed.

Lemma charge_acquire_failure_witness :
  ∃ w' o, md_user_charge_acquire demo_world (Some 1%positive) 0 7 true = (w', o, - EINVAL)
    ∧ o = None ∧ w' = demo_world.
Proof.
  eexists _, _. split; [reflexivity|].
  apply (charge_acquire_failure demo_world (Some 1%positive) 0 7 true _ _ (- EINVAL));
    [apply demo_charges_ok|reflexivity|done].
Defined.

Lemma charge_acquire_release_witness :
  md_user_charge_release demo_charged (Some 1%positive) MD_USER_INOTIFY_WATCHES = demo_world.
Proof.
  apply (charge_acquire_release demo_world (Some 1%positive) 0 MD_USER_INOTIFY_WATCHES true);
    [apply demo_charges_ok|vm_compute; reflexivity].
Defined.

Definition demo_account : md_user_charge := mk_charge (Some 1%positive) 0 [0; 0; 1] 1.
Lemma demo_charged_ok : charges_ok demo_charged.
Proof.
  assert (w_spaces demo_charged = {[1%positive := mk_ns 2 None (mk_key 5 9 7) 3 true 1 [1%positive] None]})
    as Hs by (vm_compute; reflexivity).
  assert (w_charges demo_charged = {[1%positive := demo_account]}) as Hc by (vm_compute; reflexivity).
  split; unfold counts_u32; rewrite ?Hs, ?Hc.
  - unfold demo_charged. rewrite same_tree_acquire. apply demo_world_ok.
  - intros p c [<- <-]%lookup_singleton_Some. repeat constructor; cbn; lia.
  - by intros p c [<- <-]%lookup_singleton_Some.
  - intros p c l [<- <-]%lookup_singleton_Some [= <-]. rewrite lookup_singleton_eq. eauto.
  - by intros l s q [<- <-]%lookup_singleton_Some.
  - by intros l s [<- <-]%lookup_singleton_Some.
  - by intros p c [<- <-]%lookup_singleton_Some.
  - intros n r. apply demo_limits; vm_compute; reflexivity.
Qed.

Lemma charge_add_within_limits_witness :
  ∃ w', md_user_charge_add demo_charged (Some 1%positive) MD_USER_INOTIFY_WATCHES = (w', 0)
    ∧ count_of w' 1 MD_USER_INOTIFY_WATCHES = count_of demo_charged 1 MD_USER_INOTIFY_WATCHES + 1
    ∧ count_of w' 1 MD_USER_INOTIFY_WATCHES ≤ md_user_namespace_limit demo_charged (Some 1%positive) 2.
Proof.
  eexists. split; [vm_compute; reflexivity|].
  apply (charge_add_within_limits demo_charged 1%positive MD_USER_INOTIFY_WATCHES _);
    [apply demo_charged_ok|vm_compute; reflexivity|].
  apply (bool_decide_unpack _). vm_compute. exact I.
Defined.

Lemma user_new_preserves_world_witness :
  ∃ w' n, md_user_namespace_new demo_mapped (Some 1%positive) 0 65534 false demo_env = (w', inr EPERM)
    ∧ md_user_namespace_new demo_world None 1000 1000 false demo_env = (n, inl 2%positive)
    ∧ world_ok n ∧ w' = demo_mapped.
Proof.
  eexists _, _. split; [vm_compute; reflexivity|]. split; [vm_compute; reflexivity|].
  split; [|vm_compute; reflexivity].
  apply (user_new_preserves_world demo_world None 1000 1000 false demo_env _ 2%positive);
    [apply demo_world_ok|done|vm_compute; reflexivity].
Defined.
