(* ===== verification/CLib.v ===== *)
(** * The parts of the C library the sources rely on.

    [qsort] and [bsearch] as the C standard specifies them, on lists.  [qsort] is
    only ever used here with a total order on the whole key, so the result is
    unique; [bsearch] is the halving search, with its correctness on any array
    the comparison is monotone on.  [c_string] is the text in a byte array, [unlink] the removal of
    a node from a linked list. *)
From stdpp Require Import sorting.
From S2P Require Import Prelude.

(** ** qsort on unsigned integers *)

Definition qsort_Z (l : list Z) : list Z := merge_sort Z.le l.

Lemma qsort_Z_sorted l : StronglySorted Z.le (qsort_Z l).
Proof. apply (StronglySorted_merge_sort Z.le). Qed.
Lemma qsort_Z_perm l : qsort_Z l ≡ₚ l.
Proof. apply merge_sort_Permutation. Qed.

Lemma sorted_lookup {A} (R : relation A) l i j x y :
  StronglySorted R l → l !! i = Some x → l !! j = Some y → (i < j)%nat → R x y.
Proof.
  intros Hs. revert i j; induction Hs as [|z l Hs IH Hf]; intros i j Hx Hy Hij; [done|].
  destruct j as [|j]; [lia|]. destruct i as [|i]; cbn in *; simplify_eq.
  - rewrite Forall_lookup in Hf. eauto.
  - apply (IH i j); auto with lia.
Qed.

(** ** bsearch *)

Section bsearch.
Context {A : Type} (l : list A) (cmp : A → Z).

(** [cmp x] is the sign of the key compared with [x]. *)
Fixpoint bsearch_loop (fuel lo n : nat) : option nat :=
  match fuel with
  | O => None
  | S fuel =>
      if Nat.eqb n 0 then None
      else
        let half := (n / 2)%nat in
        match l !! (lo + half)%nat with
        | None => None
        | Some x =>
            if cmp x =? 0 then Some (lo + half)%nat
            else if cmp x <? 0 then bsearch_loop fuel lo half
            else bsearch_loop fuel (lo + half + 1) (n - half - 1)
        end
  end.
Definition bsearch : option nat := bsearch_loop (S (length l)) 0 (length l).

Lemma bsearch_loop_found fuel lo n i :
  bsearch_loop fuel lo n = Some i → ∃ x, l !! i = Some x ∧ cmp x = 0.
Proof.
  revert lo n; induction fuel as [|fuel IH]; intros lo n; cbn [bsearch_loop]; [done|].
  case_if; [done|]. destruct (l !! (lo + n / 2)%nat) as [x|] eqn:Hx; [|done]. case_if.
  - intros [= <-]. breflect. eauto.
  - case_if; apply IH.
Qed.

Context (Hmono : ∀ i j x y, (i ≤ j)%nat → l !! i = Some x → l !! j = Some y →
  (cmp x < 0 → cmp y < 0) ∧ (0 < cmp y → 0 < cmp x)).

Lemma bsearch_loop_complete fuel lo n i x :
  (n < fuel)%nat → (lo + n ≤ length l)%nat → (lo ≤ i < lo + n)%nat →
  l !! i = Some x → cmp x = 0 → bsearch_loop fuel lo n ≠ None.
Proof using Hmono.
  revert lo n; induction fuel as [|fuel IH]; intros lo n Hf Hlen Hi Hx Hc; [lia|]. cbn [bsearch_loop].
  destruct (Nat.eqb_spec n 0); [lia|].
  assert (n / 2 < n)%nat as Hh by (apply Nat.div_lt; lia).
  assert ((lo + n / 2 < length l)%nat) as Hm by lia.
  apply lookup_lt_is_Some in Hm as [y Hy]. rewrite Hy. case_if; [done|]. breflect. case_if; breflect.
  - apply IH; try lia; try done. split; [lia|].
    destruct (decide (i < lo + n / 2)%nat) as [|Hge]; [done|]. exfalso.
    destruct (Hmono (lo + n / 2) i y x) as [H1 _]; [lia|done..|]. lia.
  - apply IH; try lia; try done. split; [|lia].
    destruct (decide (lo + n / 2 + 1 ≤ i)%nat) as [|Hge]; [done|]. exfalso.
    destruct (Hmono i (lo + n / 2) x y) as [_ H1]; [lia|done..|]. lia.
Qed.

Lemma bsearch_spec : (is_Some bsearch) ↔ ∃ x, x ∈ l ∧ cmp x = 0.
Proof using Hmono.
  unfold bsearch. split.
  - intros [i Hi]. apply bsearch_loop_found in Hi as (x&Hx&Hc). exists x. split; [|done].
    by eapply list_elem_of_lookup_2.
  - intros (x&Hx&Hc). apply list_elem_of_lookup in Hx as [i Hi]. apply not_eq_None_Some.
    pose proof (lookup_lt_Some _ _ _ Hi). eapply bsearch_loop_complete; eauto; lia.
Qed.
End bsearch.

(** The comparison of [compare_gid]: [(x > y) - (x < y)]. *)
Definition compare_u32 (x y : Z) : Z := (if y <? x then 1 else 0) - (if x <? y then 1 else 0).

Lemma compare_u32_spec x y :
  (compare_u32 x y = 0 ↔ x = y) ∧ (compare_u32 x y < 0 ↔ x < y) ∧ (0 < compare_u32 x y ↔ y < x).
Proof. unfold compare_u32. destruct (Z.ltb_spec y x), (Z.ltb_spec x y); lia. Qed.

Lemma bsearch_sorted_Z l key :
  StronglySorted Z.le l → is_Some (bsearch l (compare_u32 key)) ↔ key ∈ l.
Proof.
  intros Hs. rewrite bsearch_spec.
  - split; [|intros; exists key; split; [done|by apply compare_u32_spec]].
    intros (x&Hx&Hc). apply compare_u32_spec in Hc as ->. done.
  - intros i j x y Hij Hx Hy. assert (x ≤ y) as Hle.
    { destruct (decide (i = j)) as [->|]; [simplify_eq; lia|].
      eapply sorted_lookup; [exact Hs|exact Hx|exact Hy|lia]. }
    destruct (compare_u32_spec key x) as (_&?&?), (compare_u32_spec key y) as (_&?&?). lia.
Qed.

(** ** Strings in arrays *)

(** The string in an array: up to the first NUL. *)
Fixpoint c_string (l : list Z) : list Z :=
  match l with [] => [] | c :: l => if c =? 0 then [] else c :: c_string l end.

(** ** Singly linked lists

    The nodes of a list in order.  [unlink] is the walk of a pointer to a link,
    [while ( *at!=m) at=&( *at)->next; *at=m->next], which follows a null pointer if
    the node is not in the list. *)
Fixpoint unlink (m : positive) (l : list positive) : option (list positive) :=
  match l with
  | [] => None
  | x :: l => if bool_decide (x = m) then Some l else l ← unlink m l; Some (x :: l)
  end.
Lemma unlink_spec m l : m ∈ l → ∃ l', unlink m l = Some l' ∧ l ≡ₚ m :: l'.
Proof.
  induction l as [|x l IH]; [by intros ?%elem_of_nil|]. cbn [unlink]. case_bool_decide as E; [subst; intros _; by exists l|].
  intros [?|Hm]%elem_of_cons; [congruence|]. destruct (IH Hm) as (l' & -> & Hp). exists (x :: l'). split; [done|]. rewrite Hp. constructor.
Qed.

(** ** Sums *)

Definition total (l : list Z) : Z := foldr Z.add 0 l.
#[export] Instance total_perm : Proper ((≡ₚ) ==> eq) total.
Proof. unfold total. induction 1; cbn; lia. Qed.
Lemma total_nonneg l : Forall (λ x, 0 ≤ x) l → 0 ≤ total l.
Proof. unfold total. induction 1; cbn; lia. Qed.
