(* ===== verification/GuestIdentity.v ===== *)
(** * Guest credentials
    (src/native/shroot/src/guest_identity.c and guest_identity.h).

    User and group IDs, capability sets, securebits and supplementary groups of a
    guest task, every operation that changes them, and the credentials of a new
    program image.  IDs are canonical; the caller's user namespace translates
    them.  Group sets are shared, reference-counted objects, so they live in a
    heap beside the namespaces. *)
From S2P Require Import Prelude.
From S2P Require Import CLib.
From S2P Require Import UserNamespace.
From S2P Require Import UserCharge.

Definition MD_IDENTITY_GROUPS_MAX : Z := 65536.
Definition CAP_CHOWN : Z := 0.
Definition CAP_DAC_OVERRIDE : Z := 1.
Definition CAP_DAC_READ_SEARCH : Z := 2.
Definition CAP_FOWNER : Z := 3.
Definition CAP_FSETID : Z := 4.
Definition CAP_SETPCAP : Z := 8.
Definition CAP_SYS_CHROOT : Z := 18.
Definition CAP_SYS_PTRACE : Z := 19.
Definition CAP_CHECKPOINT_RESTORE : Z := 40.
Definition MD_CAP_LAST : Z := CAP_CHECKPOINT_RESTORE.
Definition MD_CAP_VALID : Z := bit (MD_CAP_LAST + 1) - 1.

Definition SECBIT_NOROOT : Z := bit 0.
Definition SECBIT_NOROOT_LOCKED : Z := bit 1.
Definition SECBIT_NO_SETUID_FIXUP : Z := bit 2.
Definition SECBIT_NO_SETUID_FIXUP_LOCKED : Z := bit 3.
Definition SECBIT_KEEP_CAPS : Z := bit 4.
Definition SECBIT_KEEP_CAPS_LOCKED : Z := bit 5.
Definition SECBIT_NO_CAP_AMBIENT_RAISE : Z := bit 6.
Definition SECBIT_NO_CAP_AMBIENT_RAISE_LOCKED : Z := bit 7.

Definition PR_GET_KEEPCAPS : Z := 7.
Definition PR_SET_KEEPCAPS : Z := 8.
Definition PR_CAPBSET_READ : Z := 23.
Definition PR_CAPBSET_DROP : Z := 24.
Definition PR_GET_SECUREBITS : Z := 27.
Definition PR_SET_SECUREBITS : Z := 28.
Definition PR_CAP_AMBIENT : Z := 47.
Definition PR_CAP_AMBIENT_IS_SET : Z := 1.
Definition PR_CAP_AMBIENT_RAISE : Z := 2.
Definition PR_CAP_AMBIENT_LOWER : Z := 3.
Definition PR_CAP_AMBIENT_CLEAR_ALL : Z := 4.

Definition S_IFMT : Z := 61440.
Definition S_IFDIR : Z := 16384.
Definition S_IFREG : Z := 32768.
Definition S_ISUID : Z := 2048.
Definition S_ISGID : Z := 1024.
Definition S_IXUSR : Z := 64.
Definition S_IXGRP : Z := 8.
Definition S_IXOTH : Z := 1.
Definition S_ISREG (mode : Z) : bool := Z.land mode S_IFMT =? S_IFREG.
Definition S_ISDIR (mode : Z) : bool := Z.land mode S_IFMT =? S_IFDIR.

(** ** Data *)

Record md_identity_ids := mk_ids { id_real : Z; id_effective : Z; id_saved : Z; id_fs : Z }.
Record md_capabilities := mk_caps {
  cap_permitted : Z; cap_effective : Z; cap_inheritable : Z; cap_bounding : Z; cap_ambient : Z;
  cap_securebits : Z }.
Record md_identity := mk_identity {
  i_uid : md_identity_ids; i_gid : md_identity_ids; i_caps : md_capabilities;
  i_no_new_privs : bool; i_groups : option loc; i_user_namespace : option loc }.

Record md_identity_groups := mk_groups { g_references : Z; g_ids : list Z }.
Record cred_heap := mk_heap { h_world : world; h_groups : gmap loc md_identity_groups }.

Record md_file_capabilities := mk_file_caps {
  f_permitted : Z; f_inheritable : Z; f_rootid : Z; f_present : bool; f_effective : bool }.
Record md_exec_image := mk_image {
  x_fd : Z; x_uid : Z; x_gid : Z; x_mode : Z; x_capabilities : md_file_capabilities }.

Definition set_uid (v : md_identity) (u : md_identity_ids) : md_identity :=
  mk_identity u (i_gid v) (i_caps v) (i_no_new_privs v) (i_groups v) (i_user_namespace v).
Definition set_gid (v : md_identity) (g : md_identity_ids) : md_identity :=
  mk_identity (i_uid v) g (i_caps v) (i_no_new_privs v) (i_groups v) (i_user_namespace v).
Definition set_caps (v : md_identity) (c : md_capabilities) : md_identity :=
  mk_identity (i_uid v) (i_gid v) c (i_no_new_privs v) (i_groups v) (i_user_namespace v).
Definition set_groups (v : md_identity) (g : option loc) : md_identity :=
  mk_identity (i_uid v) (i_gid v) (i_caps v) (i_no_new_privs v) g (i_user_namespace v).
Definition set_namespace (v : md_identity) (n : option loc) : md_identity :=
  mk_identity (i_uid v) (i_gid v) (i_caps v) (i_no_new_privs v) (i_groups v) n.
Definition with_effective (c : md_capabilities) (e : Z) : md_capabilities :=
  mk_caps (cap_permitted c) e (cap_inheritable c) (cap_bounding c) (cap_ambient c) (cap_securebits c).
Definition with_ambient (c : md_capabilities) (a : Z) : md_capabilities :=
  mk_caps (cap_permitted c) (cap_effective c) (cap_inheritable c) (cap_bounding c) a (cap_securebits c).
Definition with_securebits (c : md_capabilities) (s : Z) : md_capabilities :=
  mk_caps (cap_permitted c) (cap_effective c) (cap_inheritable c) (cap_bounding c) (cap_ambient c) s.
Definition with_bounding (c : md_capabilities) (b : Z) : md_capabilities :=
  mk_caps (cap_permitted c) (cap_effective c) (cap_inheritable c) b (cap_ambient c) (cap_securebits c).
Definition on_world (h : cred_heap) (f : world → world) : cred_heap := mk_heap (f (h_world h)) (h_groups h).

(** ** Group sets and lifetime *)

Definition add_group_references (d : Z) (g : md_identity_groups) : md_identity_groups :=
  mk_groups (wrap32 (g_references g + d)) (g_ids g).

Definition md_identity_copy (h : cred_heap) (v : md_identity) : cred_heap * md_identity :=
  let h1 := match i_groups v with
            | Some g => mk_heap (h_world h) (alter (add_group_references 1) g (h_groups h))
            | None => h
            end in
  (on_world h1 (λ w, md_user_namespace_retain w (i_user_namespace v)), v).

Definition release_groups (h : cred_heap) (v : md_identity) : cred_heap * md_identity :=
  let h1 := match i_groups v with
            | Some g =>
                match h_groups h !! g with
                | Some s => if g_references s =? 1 then mk_heap (h_world h) (delete g (h_groups h))
                            else mk_heap (h_world h) (alter (add_group_references (-1)) g (h_groups h))
                | None => h
                end
            | None => h
            end in
  (h1, set_groups v None).

Definition md_identity_release (h : cred_heap) (v : md_identity) : cred_heap * md_identity :=
  let '(h1, v1) := release_groups h v in
  (on_world h1 (λ w, md_user_namespace_release w (i_user_namespace v)), set_namespace v1 None).

(** [malloc] says whether the allocation of the set succeeds. *)
Definition md_identity_groups_set (h : cred_heap) (v : md_identity) (ids : list Z) (malloc : bool)
    : cred_heap * md_identity * Z :=
  let count := Z.of_nat (length ids) in
  if MD_IDENTITY_GROUPS_MAX <? count then (h, v, - EINVAL)
  else if existsb (λ i, i =? UINT32_MAX) ids then (h, v, - EINVAL)
  else if count =? 0 then let '(h1, v1) := release_groups h v in (h1, v1, 0)
  else if negb malloc then (h, v, - ENOMEM)
  else
    let g := fresh (dom (h_groups h)) in
    let '(h1, v1) := release_groups (mk_heap (h_world h) (<[g := mk_groups 1 (qsort_Z ids)]> (h_groups h))) v in
    (h1, set_groups v1 (Some g), 0).

Definition group_ids (h : cred_heap) (v : md_identity) : list Z :=
  default [] (g ← i_groups v; g_ids <$> h_groups h !! g).
Definition md_identity_group_count (h : cred_heap) (v : md_identity) : Z := Z.of_nat (length (group_ids h v)).
Definition md_identity_group_data (h : cred_heap) (v : md_identity) : option (list Z) :=
  g ← i_groups v; g_ids <$> h_groups h !! g.

Definition md_identity_in_group (h : cred_heap) (v : md_identity) (gid : Z) : bool :=
  (id_fs (i_gid v) =? gid)
  || bool_decide (is_Some (bsearch (group_ids h v) (compare_u32 gid))).

(** ** Capabilities *)

Definition md_identity_new (uid gid : Z) : md_identity :=
  mk_identity (mk_ids uid uid uid uid) (mk_ids gid gid gid gid)
    (mk_caps (if uid =? 0 then MD_CAP_VALID else 0) (if uid =? 0 then MD_CAP_VALID else 0) 0 MD_CAP_VALID 0 0)
    false None None.

Definition md_identity_capable (v : md_identity) (cap : Z) : bool :=
  (cap <? 64) && has_bits (cap_effective (i_caps v)) (bit cap).
Definition md_identity_capable_in (h : cred_heap) (v : md_identity) (target : option loc) (cap : Z) : bool :=
  md_user_namespace_capable (h_world h) (i_user_namespace v) (id_effective (i_uid v))
    (cap_effective (i_caps v)) target cap.

Definition md_identity_may_inspect (h : cred_heap) (from to : md_identity) (filesystem : bool) : bool :=
  if md_identity_capable_in h from (i_user_namespace to) CAP_SYS_PTRACE then true
  else
    let uid := if filesystem then id_fs (i_uid from) else id_real (i_uid from) in
    let gid := if filesystem then id_fs (i_gid from) else id_real (i_gid from) in
    let caps := if filesystem then cap_effective (i_caps from) else cap_permitted (i_caps from) in
    (uid =? id_real (i_uid to)) && (uid =? id_effective (i_uid to)) && (uid =? id_saved (i_uid to))
    && (gid =? id_real (i_gid to)) && (gid =? id_effective (i_gid to)) && (gid =? id_saved (i_gid to))
    && bool_decide (i_user_namespace from = i_user_namespace to)
    && (Z.ldiff (cap_permitted (i_caps to)) caps =? 0).

(** The translation loop stores into the caller's array and stops at the first
    unmapped ID. *)
Fixpoint map_groups (w : world) (n : option loc) (ids : list Z) : list Z * bool :=
  match ids with
  | [] => ([], true)
  | i :: ids =>
      let m := md_user_namespace_into w n true i in
      if m =? UINT32_MAX then (m :: ids, false)
      else let '(ms, ok) := map_groups w n ids in (m :: ms, ok)
  end.
Definition md_identity_setgroups (h : cred_heap) (v : md_identity) (ids : list Z) (malloc : bool)
    : cred_heap * md_identity * Z :=
  if negb (md_identity_capable v CAP_SETGID)
     || negb (md_user_namespace_may_setgroups (h_world h) (i_user_namespace v)) then (h, v, - EPERM)
  else if MD_IDENTITY_GROUPS_MAX <? Z.of_nat (length ids) then (h, v, - EINVAL)
  else
    let '(mapped, ok) := map_groups (h_world h) (i_user_namespace v) ids in
    if negb ok then (h, v, - EINVAL) else md_identity_groups_set h v mapped malloc.

Definition md_identity_visible_id (w : world) (v : md_identity) (group : bool) (id : Z) : Z :=
  let mapped := md_user_namespace_from w (i_user_namespace v) group id in
  if mapped =? UINT32_MAX then MD_USER_OVERFLOW_ID else mapped.
Definition md_identity_root (w : world) (v : md_identity) : Z :=
  md_user_namespace_into w (i_user_namespace v) false 0.

(** ** User namespaces *)

Definition md_identity_enter_user_namespace (h : cred_heap) (v : md_identity) (env : new_env)
    : cred_heap * md_identity * Z :=
  let '(w1, r) := md_user_namespace_new (h_world h) (i_user_namespace v) (id_effective (i_uid v))
                    (id_effective (i_gid v)) (md_identity_capable v CAP_SETFCAP) env in
  match r with
  | inr e => (mk_heap w1 (h_groups h), v, - e)
  | inl n => (mk_heap (md_user_namespace_release w1 (i_user_namespace v)) (h_groups h),
              set_caps (set_namespace v (Some n)) (i_caps (md_identity_new 0 0)), 0)
  end.

Definition md_identity_join_user_namespace (h : cred_heap) (v : md_identity) (target : option loc)
    : cred_heap * md_identity * Z :=
  if md_user_namespace_same (h_world h) (i_user_namespace v) target then (h, v, - EINVAL)
  else if negb (md_identity_capable_in h v target CAP_SYS_ADMIN) then (h, v, - EPERM)
  else
    (on_world h (λ w, md_user_namespace_release (md_user_namespace_retain w target) (i_user_namespace v)),
     set_caps (set_namespace v target) (i_caps (md_identity_new 0 0)), 0).

(** ** Changing user IDs *)

Definition fs_caps : Z :=
  Z.lor (Z.lor (Z.lor (bit CAP_CHOWN) (bit CAP_DAC_OVERRIDE)) (bit CAP_FOWNER)) (bit CAP_FSETID).

(** The capability fixup after the user IDs changed from [old]; [root] is the
    canonical ID of the namespace's user 0. *)
Definition fixup_left_root (root : Z) (old new : md_identity_ids) (c : md_capabilities) : md_capabilities :=
  if ((id_real old =? root) || (id_effective old =? root) || (id_saved old =? root))
     && negb (id_real new =? root) && negb (id_effective new =? root) && negb (id_saved new =? root)
  then mk_caps (if negb (has_bits (cap_securebits c) SECBIT_KEEP_CAPS) then 0 else cap_permitted c)
         0 (cap_inheritable c) (cap_bounding c) 0 (cap_securebits c)
  else c.
Definition fixup_effective (root : Z) (old new : md_identity_ids) (c : md_capabilities) : md_capabilities :=
  let c1 := if (id_effective old =? root) && negb (id_effective new =? root)
            then with_effective c 0 else c in
  if negb (id_effective old =? root) && (id_effective new =? root)
  then with_effective c1 (cap_permitted c1) else c1.
Definition fixup_fs (root : Z) (old new : md_identity_ids) (c : md_capabilities) : md_capabilities :=
  let c1 := if (id_fs old =? root) && negb (id_fs new =? root)
            then with_effective c (Z.ldiff (cap_effective c) fs_caps) else c in
  if negb (id_fs old =? root) && (id_fs new =? root)
  then with_effective c1 (Z.lor (cap_effective c1) (Z.land (cap_permitted c1) fs_caps)) else c1.
Definition uid_changed (w : world) (v : md_identity) (old : md_identity_ids) : md_identity :=
  if has_bits (cap_securebits (i_caps v)) SECBIT_NO_SETUID_FIXUP then v
  else
    let root := md_identity_root w v in
    set_caps v (fixup_fs root old (i_uid v) (fixup_effective root old (i_uid v)
      (fixup_left_root root old (i_uid v) (i_caps v)))).

Definition existing (ids : md_identity_ids) (id : Z) : bool :=
  (id =? UINT32_MAX) || (id =? id_real ids) || (id =? id_effective ids) || (id =? id_saved ids).

(** The translated ID, or [None] for [-EINVAL]; [UINT32_MAX] means unchanged. *)
Definition map_optional (w : world) (v : md_identity) (group : bool) (id : Z) : option Z :=
  if id =? UINT32_MAX then Some id
  else let m := md_user_namespace_into w (i_user_namespace v) group id in
       if m =? UINT32_MAX then None else Some m.

Definition setres (ids : md_identity_ids) (privileged : bool) (r e s : Z) : md_identity_ids * Z :=
  if negb privileged && (negb (existing ids r) || negb (existing ids e) || negb (existing ids s))
  then (ids, - EPERM)
  else
    let real := if r =? UINT32_MAX then id_real ids else r in
    let effective := if e =? UINT32_MAX then id_effective ids else e in
    let saved := if s =? UINT32_MAX then id_saved ids else s in
    (mk_ids real effective saved effective, 0).
Definition md_identity_setresuid (w : world) (v : md_identity) (r e s : Z) : md_identity * Z :=
  match map_optional w v false r, map_optional w v false e, map_optional w v false s with
  | Some r, Some e, Some s =>
      let '(u, result) := setres (i_uid v) (md_identity_capable v CAP_SETUID) r e s in
      (if result =? 0 then uid_changed w (set_uid v u) (i_uid v) else set_uid v u, result)
  | _, _, _ => (v, - EINVAL)
  end.
Definition md_identity_setresgid (w : world) (v : md_identity) (r e s : Z) : md_identity * Z :=
  match map_optional w v true r, map_optional w v true e, map_optional w v true s with
  | Some r, Some e, Some s =>
      let '(g, result) := setres (i_gid v) (md_identity_capable v CAP_SETGID) r e s in
      (set_gid v g, result)
  | _, _, _ => (v, - EINVAL)
  end.

Definition setid (ids : md_identity_ids) (root : bool) (id : Z) : md_identity_ids * Z :=
  if id =? UINT32_MAX then (ids, - EINVAL)
  else if root then (mk_ids id id id id, 0)
  else if (id =? id_real ids) || (id =? id_saved ids)
  then (mk_ids (id_real ids) id (id_saved ids) id, 0)
  else (ids, - EPERM).
Definition md_identity_setuid (w : world) (v : md_identity) (id : Z) : md_identity * Z :=
  let id := md_user_namespace_into w (i_user_namespace v) false id in
  let '(u, r) := setid (i_uid v) (md_identity_capable v CAP_SETUID) id in
  (if r =? 0 then uid_changed w (set_uid v u) (i_uid v) else set_uid v u, r).
Definition md_identity_setgid (w : world) (v : md_identity) (id : Z) : md_identity * Z :=
  let '(g, r) := setid (i_gid v) (md_identity_capable v CAP_SETGID)
                   (md_user_namespace_into w (i_user_namespace v) true id) in
  (set_gid v g, r).

Definition setre (ids : md_identity_ids) (root : bool) (r e : Z) : md_identity_ids * Z :=
  if negb root && ((negb (r =? UINT32_MAX) && negb (r =? id_real ids) && negb (r =? id_effective ids))
                   || negb (existing ids e)) then (ids, - EPERM)
  else
    let old_real := id_real ids in
    let real := if r =? UINT32_MAX then id_real ids else r in
    let effective := if e =? UINT32_MAX then id_effective ids else e in
    let saved := if negb (r =? UINT32_MAX) || (negb (e =? UINT32_MAX) && negb (e =? old_real))
                 then effective else id_saved ids in
    (mk_ids real effective saved effective, 0).
Definition md_identity_setreuid (w : world) (v : md_identity) (r e : Z) : md_identity * Z :=
  match map_optional w v false r, map_optional w v false e with
  | Some r, Some e =>
      let '(u, result) := setre (i_uid v) (md_identity_capable v CAP_SETUID) r e in
      (if result =? 0 then uid_changed w (set_uid v u) (i_uid v) else set_uid v u, result)
  | _, _ => (v, - EINVAL)
  end.
Definition md_identity_setregid (w : world) (v : md_identity) (r e : Z) : md_identity * Z :=
  match map_optional w v true r, map_optional w v true e with
  | Some r, Some e =>
      let '(g, result) := setre (i_gid v) (md_identity_capable v CAP_SETGID) r e in (set_gid v g, result)
  | _, _ => (v, - EINVAL)
  end.

Definition setfs (ids : md_identity_ids) (root : bool) (id : Z) : md_identity_ids * Z :=
  (if negb (id =? UINT32_MAX) && (root || existing ids id || (id =? id_fs ids))
   then mk_ids (id_real ids) (id_effective ids) (id_saved ids) id else ids, id_fs ids).
Definition md_identity_setfsuid (w : world) (v : md_identity) (id : Z) : md_identity * Z :=
  let '(u, result) := setfs (i_uid v) (md_identity_capable v CAP_SETUID)
                        (md_user_namespace_into w (i_user_namespace v) false id) in
  let v1 := uid_changed w (set_uid v u) (i_uid v) in
  (v1, md_identity_visible_id w v1 false result).
Definition md_identity_setfsgid (w : world) (v : md_identity) (id : Z) : md_identity * Z :=
  let '(g, result) := setfs (i_gid v) (md_identity_capable v CAP_SETGID)
                        (md_user_namespace_into w (i_user_namespace v) true id) in
  (set_gid v g, md_identity_visible_id w (set_gid v g) true result).

Definition md_identity_no_new_privs (v : md_identity) (enable : Z) : md_identity * Z :=
  if negb (enable =? 1) then (v, - EINVAL)
  else (mk_identity (i_uid v) (i_gid v) (i_caps v) true (i_groups v) (i_user_namespace v), 0).
Definition md_identity_may_chroot (v : md_identity) : bool := md_identity_capable v CAP_SYS_CHROOT.

(** ** Capability system calls *)

Definition md_identity_capset (v : md_identity) (permitted effective inheritable : Z) : md_identity * Z :=
  let c := i_caps v in
  let allowed := Z.lor (cap_inheritable c) (cap_permitted c) in
  let allowed := if md_identity_capable v CAP_SETPCAP then Z.lor allowed (cap_bounding c) else allowed in
  if negb (Z.ldiff permitted (cap_permitted c) =? 0) || negb (Z.ldiff effective permitted =? 0)
     || negb (Z.ldiff inheritable allowed =? 0)
     || negb (Z.ldiff inheritable (Z.lor (cap_inheritable c) (cap_bounding c)) =? 0)
  then (v, - EPERM)
  else
    (set_caps v (mk_caps permitted effective inheritable (cap_bounding c)
       (Z.land (cap_ambient c) (Z.land permitted inheritable)) (cap_securebits c)), 0).

Definition secure_locks : Z :=
  Z.lor (Z.lor (Z.lor SECBIT_NOROOT_LOCKED SECBIT_NO_SETUID_FIXUP_LOCKED) SECBIT_KEEP_CAPS_LOCKED)
    SECBIT_NO_CAP_AMBIENT_RAISE_LOCKED.
Definition flag (b : bool) : Z := if b then 1 else 0.
Definition update_caps (v : md_identity) (c : md_capabilities) : md_identity * Z := (set_caps v c, 0).

(** [a0] .. [a3] are the words of the argument array. *)
Definition md_identity_cap_prctl (v : md_identity) (op a0 a1 a2 a3 : Z) : md_identity * Z :=
  let c := i_caps v in
  let sb := cap_securebits c in
  if op =? PR_GET_KEEPCAPS then (v, flag (has_bits sb SECBIT_KEEP_CAPS))
  else if op =? PR_SET_KEEPCAPS then
    if 1 <? a0 then (v, - EINVAL)
    else if has_bits sb SECBIT_KEEP_CAPS_LOCKED then (v, - EPERM)
    else update_caps v (with_securebits c
           (Z.lor (Z.ldiff sb SECBIT_KEEP_CAPS) (if a0 =? 0 then 0 else SECBIT_KEEP_CAPS)))
  else if op =? PR_GET_SECUREBITS then (v, sb)
  else if op =? PR_SET_SECUREBITS then
    if negb (Z.ldiff a0 (Z.lor secure_locks (Z.shiftr secure_locks 1)) =? 0) then (v, - EINVAL)
    else if negb (md_identity_capable v CAP_SETPCAP)
            || negb (Z.ldiff (Z.land sb secure_locks) a0 =? 0)
            || negb (Z.land (Z.land (wrap64 (Z.shiftl (Z.lxor sb a0) 1)) sb) secure_locks =? 0)
    then (v, - EPERM)
    else update_caps v (with_securebits c a0)
  else if (op =? PR_CAPBSET_READ) || (op =? PR_CAPBSET_DROP) then
    if MD_CAP_LAST <? a0 then (v, - EINVAL)
    else if op =? PR_CAPBSET_READ then (v, flag (has_bits (cap_bounding c) (bit a0)))
    else if negb (md_identity_capable v CAP_SETPCAP) then (v, - EPERM)
    else update_caps v (with_bounding c (Z.ldiff (cap_bounding c) (bit a0)))
  else if op =? PR_CAP_AMBIENT then
    if negb (a2 =? 0) || negb (a3 =? 0) then (v, - EINVAL)
    else if a0 =? PR_CAP_AMBIENT_CLEAR_ALL then
      if negb (a1 =? 0) then (v, - EINVAL) else update_caps v (with_ambient c 0)
    else if MD_CAP_LAST <? a1 then (v, - EINVAL)
    else if a0 =? PR_CAP_AMBIENT_IS_SET then (v, flag (has_bits (cap_ambient c) (bit a1)))
    else if a0 =? PR_CAP_AMBIENT_LOWER then update_caps v (with_ambient c (Z.ldiff (cap_ambient c) (bit a1)))
    else if negb (a0 =? PR_CAP_AMBIENT_RAISE) then (v, - EINVAL)
    else if negb (has_bits (Z.land (cap_permitted c) (cap_inheritable c)) (bit a1))
            || has_bits sb SECBIT_NO_CAP_AMBIENT_RAISE then (v, - EPERM)
    else update_caps v (with_ambient c (Z.lor (cap_ambient c) (bit a1)))
  else (v, - EOPNOTSUPP).

(** ** Program images *)

(** The walk tests each namespace and finally NULL, the initial one. *)
Fixpoint file_caps_walk (v : list node) (rootid : Z) : bool :=
  if from_view v false rootid =? 0 then true
  else match v with [] => false | _ :: v => file_caps_walk v rootid end.
Definition file_capabilities_apply (w : world) (v : md_identity) (file : option md_file_capabilities) : bool :=
  match file with
  | None => false
  | Some f =>
      if negb (f_present f) || (f_rootid f =? UINT32_MAX) then false
      else file_caps_walk (view w (i_user_namespace v)) (f_rootid f)
  end.

(** The result carries the updated credentials and the [secure] flag. *)
Definition exec_capabilities (w : world) (old next : md_identity) (file : option md_file_capabilities)
    : (md_identity * bool) + Z :=
  let c := i_caps next in
  let has_file := file_capabilities_apply w next file in
  let f_eff := match file with Some f => f_effective f | None => false end in
  let f_perm := match file with Some f => f_permitted f | None => 0 end in
  let f_inh := match file with Some f => f_inheritable f | None => 0 end in
  let effective := has_file && f_eff in
  let permitted := if has_file then Z.lor (Z.land (cap_bounding c) f_perm) (Z.land (cap_inheritable c) f_inh)
                   else 0 in
  let permitted := Z.land permitted MD_CAP_VALID in
  if effective && negb (Z.ldiff (Z.land f_perm MD_CAP_VALID) permitted =? 0) then inr (- EPERM)
  else
    let privileged := negb (id_effective (i_uid old) =? id_effective (i_uid next))
                      || negb (id_effective (i_gid old) =? id_effective (i_gid next)) in
    let root := md_identity_root w next in
    let is_root x := x =? root in
    let rooted := negb (has_bits (cap_securebits c) SECBIT_NOROOT)
                  && negb (has_file && negb (is_root (id_real (i_uid next))) && is_root (id_effective (i_uid next))) in
    let permitted := if rooted && (is_root (id_real (i_uid next)) || is_root (id_effective (i_uid next)))
                     then Z.lor (cap_bounding c) (cap_inheritable c) else permitted in
    let effective := if rooted && is_root (id_effective (i_uid next)) then true else effective in
    let permitted := if i_no_new_privs old then Z.land permitted (cap_permitted (i_caps old)) else permitted in
    let ambient := if privileged || has_file then 0 else cap_ambient c in
    let permitted := Z.lor permitted ambient in
    let c' := mk_caps permitted (if effective then permitted else ambient) (cap_inheritable c) (cap_bounding c)
                ambient (Z.ldiff (cap_securebits c) SECBIT_KEEP_CAPS) in
    let secure := negb (id_real (i_uid next) =? id_effective (i_uid next))
                  || negb (id_real (i_gid next) =? id_effective (i_gid next))
                  || (negb (is_root (id_real (i_uid next)))
                      && (effective || negb (Z.ldiff permitted ambient =? 0))) in
    inl (set_caps next c', secure).

(** With no file capabilities [exec_capabilities] cannot fail. *)
Definition md_identity_exec (w : world) (old next : md_identity) : md_identity :=
  match exec_capabilities w old next None with inl (v, _) => v | inr _ => next end.

Definition md_identity_file_capable (w : world) (v : md_identity) (uid gid cap : Z) : bool :=
  md_identity_capable v cap
  && negb (md_user_namespace_from w (i_user_namespace v) false uid =? UINT32_MAX)
  && ((cap =? CAP_FOWNER) || negb (md_user_namespace_from w (i_user_namespace v) true gid =? UINT32_MAX)).

Definition md_identity_prepare_exec (h : cred_heap) (current : md_identity) (image : option md_exec_image)
    (nosuid : bool) : (md_identity * bool) + Z :=
  match image with
  | None => inr (- EACCES)
  | Some im =>
      let w := h_world h in
      let permission := if id_fs (i_uid current) =? x_uid im then S_IXUSR
                        else if md_identity_in_group h current (x_gid im) then S_IXGRP else S_IXOTH in
      let permission := if md_identity_file_capable w current (x_uid im) (x_gid im) CAP_DAC_OVERRIDE
                        then Z.lor (Z.lor S_IXUSR S_IXGRP) S_IXOTH else permission in
      if negb (has_bits (x_mode im) permission) then inr (- EACCES)
      else
        let setids := negb (i_no_new_privs current) && negb nosuid
          && negb (md_user_namespace_from w (i_user_namespace current) false (x_uid im) =? UINT32_MAX)
          && negb (md_user_namespace_from w (i_user_namespace current) true (x_gid im) =? UINT32_MAX) in
        let euid := if setids && has_bits (x_mode im) S_ISUID then x_uid im else id_effective (i_uid current) in
        let egid := if setids && (Z.land (x_mode im) (Z.lor S_ISGID S_IXGRP) =? Z.lor S_ISGID S_IXGRP)
                    then x_gid im else id_effective (i_gid current) in
        let next := set_gid (set_uid current (mk_ids (id_real (i_uid current)) euid euid euid))
                      (mk_ids (id_real (i_gid current)) egid egid egid) in
        exec_capabilities w current next (if nosuid then None else Some (x_capabilities im))
  end.

(** Credentials for access(2): borrowed, not an owning copy. *)
Definition md_identity_access (w : world) (v : md_identity) (effective : bool) : md_identity :=
  if effective then v
  else
    let u := i_uid v in let g := i_gid v in
    set_caps (set_gid (set_uid v (mk_ids (id_real u) (id_effective u) (id_saved u) (id_real u)))
                (mk_ids (id_real g) (id_effective g) (id_saved g) (id_real g)))
      (with_effective (i_caps v) (if id_real u =? md_identity_root w v then cap_permitted (i_caps v) else 0)).

(** *** Admission of a sealed image *)

(** What the system answers during [image_admit]: the retained descriptor, the
    file's mode, its seals ([None] when F_GET_SEALS fails), the first bytes. *)
Record image_env := mk_image_env {
  ie_dup : Z + Z; ie_stat : Z + Z; ie_seals : option Z; ie_pread : list Z; ie_malloc : bool }.

Definition F_SEAL_SHRINK : Z := 2.
Definition F_SEAL_GROW : Z := 4.
Definition F_SEAL_WRITE : Z := 8.
Definition byte_at (l : list Z) (i : nat) : Z := default 0 (l !! i).
Definition half_at (l : list Z) (i : nat) : Z := byte_at l i + 256 * byte_at l (i + 1).
Definition word_at (l : list Z) (i : nat) : Z := half_at l i + 65536 * half_at l (i + 2).
(** The fields of [Elf64_Ehdr] at their offsets; 64 bytes, little-endian. *)
Definition native_header (b : list Z) : bool :=
  (Z.of_nat (length b) =? 64) && (byte_at b 0 =? 127) && (byte_at b 1 =? 69) && (byte_at b 2 =? 76)
  && (byte_at b 3 =? 70) && (byte_at b 4 =? 2) && (byte_at b 5 =? 1) && (half_at b 18 =? 183)
  && (byte_at b 6 =? 1) && (word_at b 20 =? 1) && (half_at b 52 =? 64)
  && ((half_at b 16 =? 2) || (half_at b 16 =? 3)).

(** [if (!error && bad) error = code]. *)
Definition fail_if (error : Z) (bad : bool) (code : Z) : Z := if (error =? 0) && bad then code else error.

(** [fds] is the set of open descriptors: the retained one stays open exactly
    when the image is admitted. *)
Definition image_admit (fds : gset Z) (env : image_env) (uid gid mode : Z)
    (capabilities : option md_file_capabilities) (native_elf : bool) : gset Z * (md_exec_image + Z) :=
  if (uid =? UINT32_MAX) || (gid =? UINT32_MAX) || negb (S_ISREG mode)
     || negb (Z.ldiff mode (Z.lor S_IFREG 4095) =? 0) then (fds, inr (- EINVAL))
  else
    match ie_dup env with
    | inr e => (fds, inr (- e))
    | inl retained =>
        let opened := {[retained]} ∪ fds in
        let error := match ie_stat env with inr e => - e | inl m => if S_ISREG m then 0 else - EACCES end in
        let required := Z.lor (Z.lor F_SEAL_WRITE F_SEAL_SHRINK) F_SEAL_GROW in
        let sealed := match ie_seals env with Some s => Z.land s required =? required | None => false end in
        let error := fail_if error (negb sealed) (- EPERM) in
        let error := fail_if error (native_elf && negb (native_header (ie_pread env))) (- ENOEXEC) in
        let error := fail_if error (negb (ie_malloc env)) (- ENOMEM) in
        if negb (error =? 0) then (opened ∖ {[retained]}, inr error)
        else (opened, inl (mk_image retained uid gid mode
                             (default (mk_file_caps 0 0 0 false false) capabilities)))
    end.
Definition md_exec_image_admit (fds : gset Z) (env : image_env) (uid gid mode : Z)
    (caps : option md_file_capabilities) : gset Z * (md_exec_image + Z) :=
  image_admit fds env uid gid mode caps true.
Definition md_exec_image_admit_interpreted (fds : gset Z) (env : image_env) (uid gid mode : Z)
    (caps : option md_file_capabilities) : gset Z * (md_exec_image + Z) :=
  image_admit fds env uid gid mode caps false.
Definition md_exec_image_release (fds : gset Z) (image : option md_exec_image) : gset Z :=
  match image with Some im => fds ∖ {[x_fd im]} | None => fds end.

(** ** Everything a running guest can do to its credentials *)

(** An execution whose file carries no set-ID metadata
    (supervisor.c, [image_identity_prepare]). *)
Definition plain_exec (w : world) (v : md_identity) : md_identity :=
  let u := i_uid v in let g := i_gid v in
  md_identity_exec w v
    (set_gid (set_uid v (mk_ids (id_real u) (id_effective u) (id_effective u) (id_effective u)))
       (mk_ids (id_real g) (id_effective g) (id_effective g) (id_effective g))).

Inductive cred_op :=
  | OpSetuid (id : Z) | OpSetgid (id : Z)
  | OpSetreuid (r e : Z) | OpSetregid (r e : Z)
  | OpSetresuid (r e s : Z) | OpSetresgid (r e s : Z)
  | OpSetfsuid (id : Z) | OpSetfsgid (id : Z)
  | OpSetgroups (ids : list Z) (malloc : bool)
  | OpCapset (p e i : Z) | OpPrctl (op a0 a1 a2 a3 : Z) | OpNoNewPrivs (enable : Z)
  | OpExec | OpPrepareExec (image : option md_exec_image) (nosuid : bool)
  | OpEnter (env : new_env) | OpJoin (target : option loc).

Definition cred_run (hv : cred_heap * md_identity) (op : cred_op) : cred_heap * md_identity :=
  let '(h, v) := hv in
  let w := h_world h in
  match op with
  | OpSetuid id => (h, fst (md_identity_setuid w v id))
  | OpSetgid id => (h, fst (md_identity_setgid w v id))
  | OpSetreuid r e => (h, fst (md_identity_setreuid w v r e))
  | OpSetregid r e => (h, fst (md_identity_setregid w v r e))
  | OpSetresuid r e s => (h, fst (md_identity_setresuid w v r e s))
  | OpSetresgid r e s => (h, fst (md_identity_setresgid w v r e s))
  | OpSetfsuid id => (h, fst (md_identity_setfsuid w v id))
  | OpSetfsgid id => (h, fst (md_identity_setfsgid w v id))
  | OpSetgroups ids malloc => fst (md_identity_setgroups h v ids malloc)
  | OpCapset p e i => (h, fst (md_identity_capset v p e i))
  | OpPrctl op a0 a1 a2 a3 => (h, fst (md_identity_cap_prctl v op a0 a1 a2 a3))
  | OpNoNewPrivs n => (h, fst (md_identity_no_new_privs v n))
  | OpExec => (h, plain_exec w v)
  | OpPrepareExec im nosuid =>
      (h, match md_identity_prepare_exec h v im nosuid with inl (v', _) => v' | inr _ => v end)
  | OpEnter env => fst (md_identity_enter_user_namespace h v env)
  | OpJoin target => fst (md_identity_join_user_namespace h v target)
  end.
Definition cred_runs (hv : cred_heap * md_identity) (ops : list cred_op) : cred_heap * md_identity :=
  foldl cred_run hv ops.

(** Operations that stay in the current user namespace. *)
Definition same_namespace_op (op : cred_op) : bool :=
  match op with OpEnter _ | OpJoin _ => false | _ => true end.

(** ** Invariant of the capability sets *)

Record caps_ok (c : md_capabilities) : Prop := {
  ck_effective : cap_effective c ⊑ᵇ cap_permitted c;
  ck_ambient_permitted : cap_ambient c ⊑ᵇ cap_permitted c;
  ck_ambient_inheritable : cap_ambient c ⊑ᵇ cap_inheritable c;
  ck_permitted : cap_permitted c ⊑ᵇ MD_CAP_VALID;
  ck_inheritable : cap_inheritable c ⊑ᵇ MD_CAP_VALID;
  ck_bounding : cap_bounding c ⊑ᵇ MD_CAP_VALID }.
#[export] Hint Resolve ck_effective ck_ambient_permitted ck_ambient_inheritable ck_permitted
  ck_inheritable ck_bounding : bits.

(** What no operation outside exec and namespace changes ever adds to. *)
Definition caps_shrink (c c' : md_capabilities) : Prop :=
  cap_permitted c' ⊑ᵇ cap_permitted c ∧ cap_bounding c' ⊑ᵇ cap_bounding c.

(** ** Change of user IDs *)

Lemma new_caps_ok uid gid : caps_ok (i_caps (md_identity_new uid gid)).
Proof. unfold md_identity_new. split; cbn; case_ifs; auto with bits. Qed.

Lemma left_root_ok root old new c : caps_ok c → caps_ok (fixup_left_root root old new c).
Proof. intros H. unfold fixup_left_root. case_if; [|done]. case_if; split; cbn; auto with bits. Qed.
Lemma with_effective_ok c e : caps_ok c → e ⊑ᵇ cap_permitted c → caps_ok (with_effective c e).
Proof. intros [] ?. split; cbn; auto with bits. Qed.
#[local] Hint Resolve with_effective_ok : bits.
Lemma fixup_effective_ok root old new c : caps_ok c → caps_ok (fixup_effective root old new c).
Proof. intros H. unfold fixup_effective. case_ifs; auto with bits. Qed.
Lemma fixup_fs_ok root old new c : caps_ok c → caps_ok (fixup_fs root old new c).
Proof.
  intros H. unfold fixup_fs.
  set (c1 := if (_ : bool) then with_effective c _ else c). assert (caps_ok c1) as H1.
  { unfold c1. case_if; [|exact H]. apply with_effective_ok; [exact H|].
    apply bits_le_ldiff, ck_effective, H. }
  case_if; [|exact H1]. apply with_effective_ok; [exact H1|].
  apply bits_le_lor; [apply ck_effective, H1|apply bits_le_land_l].
Qed.

Lemma uid_changed_ok w v old : caps_ok (i_caps v) → caps_ok (i_caps (uid_changed w v old)).
Proof.
  intros H. unfold uid_changed. case_if; [done|]. cbn.
  by apply fixup_fs_ok, fixup_effective_ok, left_root_ok.
Qed.

(** What the fixup leaves alone, and what it only takes away. *)
Definition fixup_le (c c' : md_capabilities) : Prop :=
  cap_securebits c' = cap_securebits c ∧ cap_inheritable c' = cap_inheritable c ∧ caps_shrink c c'.
#[export] Instance fixup_le_preorder : PreOrder fixup_le.
Proof.
  unfold fixup_le, caps_shrink. split.
  - intros c. split_and!; auto with bits.
  - intros a b c (?&?&?&?) (?&?&?&?). split_and!; try congruence; by eapply bits_le_trans.
Qed.
Lemma with_effective_le c e : fixup_le c (with_effective c e).
Proof. repeat split; auto with bits. Qed.
Lemma left_root_le root old new c : fixup_le c (fixup_left_root root old new c).
Proof.
  unfold fixup_left_root, fixup_le, caps_shrink. case_if; [|split_and!; auto with bits].
  cbn. split_and!; try done; case_ifs; auto with bits.
Qed.
Lemma fixup_effective_le root old new c : fixup_le c (fixup_effective root old new c).
Proof.
  unfold fixup_effective. case_if; case_if; rewrite <- ?with_effective_le; done.
Qed.
Lemma fixup_fs_le root old new c : fixup_le c (fixup_fs root old new c).
Proof.
  unfold fixup_fs. case_if; case_if; rewrite <- ?with_effective_le; done.
Qed.

Lemma uid_changed_shape w v old :
  i_uid (uid_changed w v old) = i_uid v ∧ i_gid (uid_changed w v old) = i_gid v
  ∧ i_no_new_privs (uid_changed w v old) = i_no_new_privs v
  ∧ i_user_namespace (uid_changed w v old) = i_user_namespace v
  ∧ i_groups (uid_changed w v old) = i_groups v
  ∧ fixup_le (i_caps v) (i_caps (uid_changed w v old)).
Proof.
  unfold uid_changed. case_if; [done|]. cbn. split_and!; try done.
  by rewrite <- fixup_fs_le, <- fixup_effective_le, <- left_root_le.
Qed.

(** The IDs a task holds; without privilege no operation introduces another. *)
Definition ids_set (ids : md_identity_ids) : gset Z :=
  {[id_real ids; id_effective ids; id_saved ids; id_fs ids]}.

Lemma ids_set_sub ids (S : gset Z) :
  id_real ids ∈ S → id_effective ids ∈ S → id_saved ids ∈ S → id_fs ids ∈ S → ids_set ids ⊆ S.
Proof. unfold ids_set. set_solver. Qed.
Lemma ids_set_members ids :
  id_real ids ∈ ids_set ids ∧ id_effective ids ∈ ids_set ids ∧ id_saved ids ∈ ids_set ids
  ∧ id_fs ids ∈ ids_set ids.
Proof. unfold ids_set. set_solver. Qed.
Lemma existing_member ids id : existing ids id = true → id = UINT32_MAX ∨ id ∈ ids_set ids.
Proof.
  destruct (ids_set_members ids) as (?&?&?&?). unfold existing. intros H'.
  repeat apply orb_true_iff in H' as [H'|H']; breflect; subst; auto.
Qed.
Lemma pick_member ids id d :
  existing ids id = true → d ∈ ids_set ids → (if id =? UINT32_MAX then d else id) ∈ ids_set ids.
Proof. intros [->|?]%existing_member ?; [done|]. by case_if. Qed.

Lemma setres_confined ids (p : bool) r e s ids' x :
  setres ids p r e s = (ids', x) →
  (x = 0 ∨ ids' = ids) ∧ (p = false → ids_set ids' ⊆ ids_set ids).
Proof.
  unfold setres. case_if; [intros [= <- <-]; auto|]. intros [= <- <-]. split; [by left|]. intros ->.
  cbn in E. breflect. destruct (ids_set_members ids) as (?&?&?&?).
  apply ids_set_sub; cbn; by apply pick_member.
Qed.
Lemma setre_confined ids (p : bool) r e ids' x :
  setre ids p r e = (ids', x) →
  (x = 0 ∨ ids' = ids) ∧ (p = false → ids_set ids' ⊆ ids_set ids).
Proof.
  unfold setre. case_if; [intros [= <- <-]; auto|]. intros [= <- <-]. split; [by left|]. intros ->.
  cbn [negb andb] in E. apply orb_false_iff in E as [Er Ee]. apply negb_false_iff in Ee.
  assert (existing ids r = true) as Er'.
  { unfold existing. by destruct (r =? UINT32_MAX), (r =? id_real ids), (r =? id_effective ids). }
  destruct (ids_set_members ids) as (?&?&?&?).
  apply ids_set_sub; cbn; repeat match goal with |- (if ?b then _ else _) ∈ _ =>
    lazymatch b with (_ =? UINT32_MAX) => by apply pick_member | _ => destruct b end end; done.
Qed.
Lemma setid_confined ids (p : bool) id ids' x :
  setid ids p id = (ids', x) →
  (x = 0 ∨ ids' = ids) ∧ (p = false → ids_set ids' ⊆ ids_set ids).
Proof.
  unfold setid. case_if; [intros [= <- <-]; auto|]. destruct p; [intros [= <- <-]; split; [by left|done]|].
  case_if; intros [= <- <-]; split; auto. intros _. unfold ids_set. cbn.
  apply orb_true_iff in E0 as [H|H]; breflect; set_solver.
Qed.
Lemma setfs_confined ids (p : bool) id :
  p = false → ids_set (fst (setfs ids p id)) ⊆ ids_set ids.
Proof.
  intros ->. unfold setfs. cbn. case_if; [|done]. breflect. cbn in *.
  apply orb_true_iff in H0 as [H0|H0]; breflect; [apply existing_member in H0|];
    unfold ids_set in *; cbn; set_solver.
Qed.

(** ** The kinds of change *)

(** Lock bits stay set, and a locked securebit keeps its value; KEEP_CAPS alone
    may still be cleared, by an exec. *)
Definition secure_keep (sb sb' : Z) : Prop :=
  ∀ i, i ∈ [0; 2; 4; 6] → Z.testbit sb (i + 1) = true →
    Z.testbit sb' (i + 1) = true
    ∧ (Z.testbit sb' i = Z.testbit sb i ∨ (i = 4 ∧ Z.testbit sb' i = false)).
#[export] Instance secure_keep_preorder : PreOrder secure_keep.
Proof.
  split.
  - intros sb i _ Hi. auto.
  - intros a b c Hab Hbc i Hi Ha. destruct (Hab i Hi Ha) as [Hb Eb].
    destruct (Hbc i Hi Hb) as [Hc Ec]. split; [done|].
    destruct Ec as [Ec|]; [|by right]. rewrite Ec. destruct Eb as [->|[-> ->]]; auto.
Qed.

Record prctl_change (c c' : md_capabilities) : Prop := {
  pc_permitted : cap_permitted c' = cap_permitted c;
  pc_effective : cap_effective c' = cap_effective c;
  pc_inheritable : cap_inheritable c' = cap_inheritable c;
  pc_bounding : cap_bounding c' ⊑ᵇ cap_bounding c;
  pc_ambient : cap_ambient c' ⊑ᵇ Z.lor (cap_ambient c) (Z.land (cap_permitted c) (cap_inheritable c));
  pc_securebits : secure_keep (cap_securebits c) (cap_securebits c') }.

Inductive cred_change (w : world) (v : md_identity) : md_identity → Prop :=
  | ch_same : cred_change w v v
  | ch_uid u : (md_identity_capable v CAP_SETUID = false → ids_set u ⊆ ids_set (i_uid v)) →
      cred_change w v (uid_changed w (set_uid v u) (i_uid v))
  | ch_gid g : (md_identity_capable v CAP_SETGID = false → ids_set g ⊆ ids_set (i_gid v)) →
      cred_change w v (set_gid v g)
  | ch_groups g : md_identity_capable v CAP_SETGID = true → cred_change w v (set_groups v g)
  | ch_capset p e i : snd (md_identity_capset v p e i) = 0 →
      cred_change w v (fst (md_identity_capset v p e i))
  | ch_prctl c : prctl_change (i_caps v) c → cred_change w v (set_caps v c)
  | ch_locked : cred_change w v (fst (md_identity_no_new_privs v 1))
  | ch_exec next file v' s :
      exec_capabilities w v next file = inl (v', s) →
      i_caps next = i_caps v → i_no_new_privs next = i_no_new_privs v →
      i_user_namespace next = i_user_namespace v →
      (i_no_new_privs v = true → ids_set (i_uid next) ⊆ ids_set (i_uid v)
         ∧ ids_set (i_gid next) ⊆ ids_set (i_gid v) ∧ i_groups next = i_groups v) →
      cred_change w v v'.

Lemma set_uid_same v : set_uid v (i_uid v) = v.
Proof. by destruct v. Qed.
Lemma set_gid_same v : set_gid v (i_gid v) = v.
Proof. by destruct v. Qed.

Lemma uid_result w v u (r : Z) :
  (r = 0 ∨ u = i_uid v) ∧ (md_identity_capable v CAP_SETUID = false → ids_set u ⊆ ids_set (i_uid v)) →
  cred_change w v (if r =? 0 then uid_changed w (set_uid v u) (i_uid v) else set_uid v u).
Proof.
  intros [Hr Hc]. destruct (Z.eqb_spec r 0); [by constructor|]. destruct Hr as [| ->]; [done|].
  rewrite set_uid_same. constructor.
Qed.

Lemma setuid_change w v id : cred_change w v (fst (md_identity_setuid w v id)).
Proof.
  unfold md_identity_setuid. cbv zeta. destruct (setid _ _ _) as [u r] eqn:Hs.
  apply uid_result. eapply setid_confined, Hs.
Qed.
Lemma setreuid_change w v r e : cred_change w v (fst (md_identity_setreuid w v r e)).
Proof.
  unfold md_identity_setreuid. destruct (map_optional w v false r), (map_optional w v false e); try constructor.
  destruct (setre _ _ _ _) as [u x] eqn:Hs. apply uid_result. eapply setre_confined, Hs.
Qed.
Lemma setresuid_change w v r e s : cred_change w v (fst (md_identity_setresuid w v r e s)).
Proof.
  unfold md_identity_setresuid.
  destruct (map_optional w v false r), (map_optional w v false e), (map_optional w v false s); try constructor.
  destruct (setres _ _ _ _ _) as [u x] eqn:Hs. apply uid_result. eapply setres_confined, Hs.
Qed.
Lemma setfsuid_change w v id : cred_change w v (fst (md_identity_setfsuid w v id)).
Proof.
  unfold md_identity_setfsuid. destruct (setfs _ _ _) as [u x] eqn:Hs. constructor. intros Hc.
  rewrite Hc in Hs. change u with (fst (u, x)). rewrite <- Hs. by apply setfs_confined.
Qed.
Lemma setgid_change w v id : cred_change w v (fst (md_identity_setgid w v id)).
Proof.
  unfold md_identity_setgid. destruct (setid _ _ _) as [g r] eqn:Hs. constructor.
  eapply setid_confined, Hs.
Qed.
Lemma setregid_change w v r e : cred_change w v (fst (md_identity_setregid w v r e)).
Proof.
  unfold md_identity_setregid. destruct (map_optional w v true r), (map_optional w v true e); try constructor.
  destruct (setre _ _ _ _) as [u x] eqn:Hs. constructor. eapply setre_confined, Hs.
Qed.
Lemma setresgid_change w v r e s : cred_change w v (fst (md_identity_setresgid w v r e s)).
Proof.
  unfold md_identity_setresgid.
  destruct (map_optional w v true r), (map_optional w v true e), (map_optional w v true s); try constructor.
  destruct (setres _ _ _ _ _) as [u x] eqn:Hs. constructor. eapply setres_confined, Hs.
Qed.
Lemma setfsgid_change w v id : cred_change w v (fst (md_identity_setfsgid w v id)).
Proof.
  unfold md_identity_setfsgid. destruct (setfs _ _ _) as [u x] eqn:Hs. constructor. intros Hc.
  rewrite Hc in Hs. change u with (fst (u, x)). rewrite <- Hs. by apply setfs_confined.
Qed.

Lemma release_groups_world h v : h_world (fst (release_groups h v)) = h_world h.
Proof. unfold release_groups. destruct (i_groups v) as [g|]; [|done]. destruct (_ !! g); [|done]. by case_if. Qed.
Lemma set_groups_same v : set_groups v (i_groups v) = v.
Proof. by destruct v. Qed.

Lemma groups_set_shape h v ids malloc :
  h_world (fst (fst (md_identity_groups_set h v ids malloc))) = h_world h
  ∧ ∃ g, snd (fst (md_identity_groups_set h v ids malloc)) = set_groups v g.
Proof.
  unfold md_identity_groups_set. pose proof (set_groups_same v) as Hs.
  destruct (_ <? _); [by eauto|]. destruct (existsb _ _); [by eauto|]. destruct (_ =? 0).
  { pose proof (release_groups_world h v). unfold release_groups in *. cbn in *. eauto. }
  destruct malloc; cbn [negb]; [|by eauto].
  set (h1 := mk_heap _ _). pose proof (release_groups_world h1 v). unfold release_groups in *. cbn in *. eauto.
Qed.

Lemma setgroups_change h v ids malloc :
  h_world (fst (fst (md_identity_setgroups h v ids malloc))) = h_world h
  ∧ cred_change (h_world h) v (snd (fst (md_identity_setgroups h v ids malloc))).
Proof.
  unfold md_identity_setgroups.
  destruct (md_identity_capable v CAP_SETGID) eqn:Hc; cbn [negb orb]; [|by repeat constructor].
  case_if; [by repeat constructor|]. case_if; [by repeat constructor|].
  destruct (map_groups _ _ _) as [mapped ok]. destruct ok; cbn [negb]; [|by repeat constructor].
  destruct (groups_set_shape h v mapped malloc) as [Hw [g Hg]]; split; [done|]. rewrite Hg. by constructor.
Qed.

Lemma set_caps_same v : set_caps v (i_caps v) = v.
Proof. by destruct v. Qed.
Lemma prctl_change_refl c : prctl_change c c.
Proof. split; auto with bits. reflexivity. Qed.

(** A mask that is zero is zero at every position. *)
Lemma mask_zero x j : (x =? 0) = true → Z.testbit x j = false.
Proof. intros ->%Z.eqb_eq. apply Z.bits_0. Qed.

Ltac ground_bits :=
  repeat match goal with
  | |- context [Z.testbit ?c ?i] =>
      let b := eval vm_compute in (Z.testbit c i) in
      lazymatch b with
      | true => change (Z.testbit c i) with true
      | false => change (Z.testbit c i) with false
      end
  end.

Lemma set_keepcaps_secure sb x :
  has_bits sb SECBIT_KEEP_CAPS_LOCKED = false →
  secure_keep sb (Z.lor (Z.ldiff sb SECBIT_KEEP_CAPS) (if x =? 0 then 0 else SECBIT_KEEP_CAPS)).
Proof.
  unfold SECBIT_KEEP_CAPS_LOCKED. rewrite has_bits_bit by done. intros Hl i Hi Hs.
  repeat rewrite elem_of_cons in Hi. destruct Hi as [->|[->|[->|[->|[]%elem_of_nil]]]];
    try (change (4 + 1) with 5 in Hs; congruence); case_if; autorewrite with testbits; ground_bits;
    cbn [negb]; rewrite ?andb_true_r, ?orb_false_r; auto.
Qed.

Lemma set_securebits_secure sb a0 :
  (Z.ldiff (Z.land sb secure_locks) a0 =? 0) = true →
  (Z.land (Z.land (wrap64 (Z.shiftl (Z.lxor sb a0) 1)) sb) secure_locks =? 0) = true →
  secure_keep sb a0.
Proof.
  intros Hk Hl i Hi Hs.
  pose proof (mask_zero _ (i + 1) Hk) as Hk'. pose proof (mask_zero _ (i + 1) Hl) as Hl'.
  autorewrite with testbits in Hk', Hl'. unfold wrap64 in Hl'.
  change 18446744073709551616 with (2 ^ 64) in Hl'.
  assert (Z.testbit secure_locks (i + 1) = true ∧ 0 ≤ i < 63) as [Hlock Hr].
  { repeat rewrite elem_of_cons in Hi. destruct Hi as [->|[->|[->|[->|[]%elem_of_nil]]]]; split; done || lia. }
  rewrite Z.mod_pow2_bits_low, Z.shiftl_spec, Hlock, Hs in Hl' by lia.
  replace (i + 1 - 1) with i in Hl' by lia. rewrite Hs, Hlock in Hk'. rewrite Z.lxor_spec in Hl'.
  cbn in Hk'. apply negb_false_iff in Hk'. split; [done|]. left.
  by destruct (Z.testbit sb i), (Z.testbit a0 i).
Qed.

Lemma prctl_caps v op a0 a1 a2 a3 :
  ∃ c, fst (md_identity_cap_prctl v op a0 a1 a2 a3) = set_caps v c ∧ prctl_change (i_caps v) c.
Proof.
  assert (∃ c, v = set_caps v c ∧ prctl_change (i_caps v) c) as Hsame.
  { exists (i_caps v). split; [by rewrite set_caps_same|apply prctl_change_refl]. }
  unfold md_identity_cap_prctl, update_caps. cbv zeta.
  repeat match goal with |- context [if ?b then (_, _) else _] => destruct b eqn:?; [exact Hsame|] end.
  case_if.
  { case_if; [exact Hsame|]. case_if; [exact Hsame|]. eexists. split; [done|].
    split; cbn; auto with bits. by apply set_keepcaps_secure. }
  case_if; [exact Hsame|]. case_if.
  { case_if; [exact Hsame|]. case_if; [exact Hsame|]. eexists. split; [done|]. breflect.
    split; cbn; auto with bits. apply set_securebits_secure; by apply Z.eqb_eq. }
  case_if.
  { repeat (case_if; [exact Hsame|]). eexists. split; [done|]. split; cbn; auto with bits. reflexivity. }
  case_if; [|exact Hsame]. case_if; [exact Hsame|]. case_if.
  { case_if; [exact Hsame|]. eexists. split; [done|]. split; cbn; auto with bits. reflexivity. }
  case_if; [exact Hsame|]. case_if; [exact Hsame|]. case_if.
  { eexists. split; [done|]. split; cbn; auto with bits. reflexivity. }
  case_if; [exact Hsame|]. case_if; [exact Hsame|]. breflect.
  eexists. split; [done|]. split; cbn; auto with bits; [|reflexivity].
  apply bits_le_lor; auto with bits. apply bits_le_lor_r. by apply has_bits_le.
Qed.

(** ** Exec *)

Record exec_change (old next : md_identity) (c : md_capabilities) : Prop := {
  ec_inheritable : cap_inheritable c = cap_inheritable (i_caps next);
  ec_bounding : cap_bounding c = cap_bounding (i_caps next);
  ec_ambient : cap_ambient c ⊑ᵇ cap_ambient (i_caps next);
  ec_ambient_permitted : cap_ambient c ⊑ᵇ cap_permitted c;
  ec_effective : cap_effective c ⊑ᵇ cap_permitted c;
  ec_permitted : cap_permitted c ⊑ᵇ Z.lor (Z.lor (cap_bounding c) (cap_inheritable c)) (cap_ambient c);
  ec_no_new_privs : i_no_new_privs old = true →
    cap_permitted c ⊑ᵇ Z.lor (cap_permitted (i_caps old)) (cap_ambient c);
  ec_securebits : cap_securebits c = Z.ldiff (cap_securebits (i_caps next)) SECBIT_KEEP_CAPS }.

Lemma file_permitted_le (b : bool) bnd fp inh fi valid :
  Z.land (if b then Z.lor (Z.land bnd fp) (Z.land inh fi) else 0) valid ⊑ᵇ Z.lor bnd inh.
Proof.
  apply bits_le_land_drop_l. destruct b; [|apply bits_le_0].
  apply bits_le_lor; [apply bits_le_lor_l|apply bits_le_lor_r]; apply bits_le_land_l.
Qed.

Lemma exec_outcome w old next file v s :
  exec_capabilities w old next file = inl (v, s) → ∃ c, v = set_caps next c ∧ exec_change old next c.
Proof.
  unfold exec_capabilities. cbv zeta.
  match goal with |- context [Z.land (if ?b then Z.lor (Z.land ?x ?fp) (Z.land ?y ?fi) else 0) MD_CAP_VALID] =>
    pose proof (file_permitted_le b x fp y fi MD_CAP_VALID) as Hp;
    set (perm := Z.land (if b then Z.lor (Z.land x fp) (Z.land y fi) else 0) MD_CAP_VALID) in * end.
  case_if; [done|].
  match goal with |- context [if ?r && ?q then Z.lor ?x ?y else perm] =>
    set (perm1 := if r && q then Z.lor x y else perm);
    assert (perm1 ⊑ᵇ Z.lor x y) as Hp1 by (unfold perm1; destruct (r && q); [apply bits_le_refl|exact Hp]) end.
  match goal with |- context [if i_no_new_privs old then ?a else perm1] =>
    set (perm2 := if i_no_new_privs old then a else perm1) end.
  match goal with |- context [if ?p then 0 else cap_ambient ?c] =>
    set (amb := if p then 0 else cap_ambient c);
    assert (amb ⊑ᵇ cap_ambient c) as Ha by (unfold amb; destruct p; auto with bits) end.
  intros [= <- _]. eexists. split; [reflexivity|].
  assert (perm2 ⊑ᵇ perm1) as Hp2 by (unfold perm2; destruct (i_no_new_privs old); auto with bits).
  split; cbn; auto with bits.
  - match goal with |- (if ?b then _ else _) ⊑ᵇ _ => destruct b end; auto with bits.
  - apply bits_le_lor; [|auto with bits]. apply bits_le_lor_l. by do 2 (eapply bits_le_trans; [eassumption|]); auto with bits.
  - intros Hn. unfold perm2. rewrite Hn. apply bits_le_lor; auto with bits.
Qed.

(** Without file capabilities there is nothing that can fail. *)
Lemma exec_no_file w old next : ∃ v s, exec_capabilities w old next None = inl (v, s).
Proof. unfold exec_capabilities. cbn. eauto. Qed.

Lemma plain_exec_change w v : cred_change w v (plain_exec w v).
Proof.
  unfold plain_exec, md_identity_exec.
  match goal with |- context [exec_capabilities w v ?n None] => set (next := n) end.
  destruct (exec_no_file w v next) as (v'&s&He). rewrite He.
  eapply ch_exec; [exact He|done..|]. intros _. split_and!; [| |done].
  all: apply ids_set_sub; cbn; apply ids_set_members.
Qed.

Lemma prepare_exec_change h v im nosuid v' s :
  md_identity_prepare_exec h v im nosuid = inl (v', s) → cred_change (h_world h) v v'.
Proof.
  unfold md_identity_prepare_exec. destruct im as [im|]; [|done]. cbv zeta.
  match goal with |- context [if ?b then inr _ else _] => destruct b; [done|] end.
  intros He. eapply ch_exec; [exact He|done..|].
  intros Hn. rewrite Hn. cbn [negb andb]. split_and!; [| |done].
  all: apply ids_set_sub; cbn; apply ids_set_members.
Qed.

(** Every operation that stays in the namespace is one of the changes. *)
Lemma run_change h v op :
  same_namespace_op op = true →
  h_world (fst (cred_run (h, v) op)) = h_world h
  ∧ cred_change (h_world h) v (snd (cred_run (h, v) op)).
Proof.
  destruct op; cbn [same_namespace_op]; intros Hop; try done; cbn [cred_run]; cbv zeta; cbn [fst snd].
  - split; [done|apply setuid_change].
  - split; [done|apply setgid_change].
  - split; [done|apply setreuid_change].
  - split; [done|apply setregid_change].
  - split; [done|apply setresuid_change].
  - split; [done|apply setresgid_change].
  - split; [done|apply setfsuid_change].
  - split; [done|apply setfsgid_change].
  - apply setgroups_change.
  - split; [done|]. destruct (md_identity_capset v p e i) as [v' x] eqn:Hc.
    destruct (Z.eqb_spec x 0) as [->|Hx].
    + replace v' with (fst (md_identity_capset v p e i)) by by rewrite Hc. constructor. by rewrite Hc.
    + revert Hc. unfold md_identity_capset. cbv zeta.
      match goal with |- context [if ?b then (v, _) else _] => destruct b end;
        intros [= <- <-]; [constructor|done].
  - split; [done|]. destruct (prctl_caps v op a0 a1 a2 a3) as (c&->&Hc). by constructor.
  - split; [done|]. unfold md_identity_no_new_privs. destruct (Z.eqb_spec enable 1) as [->|]; [|constructor].
    apply ch_locked.
  - split; [done|apply plain_exec_change].
  - split; [done|]. destruct (md_identity_prepare_exec h v image nosuid) as [[v' s]|e] eqn:He; [|constructor].
    eapply prepare_exec_change, He.
Qed.

(** ** What each change preserves *)

Lemma capset_spec v p e i :
  snd (md_identity_capset v p e i) = 0 →
  p ⊑ᵇ cap_permitted (i_caps v) ∧ e ⊑ᵇ p
  ∧ i ⊑ᵇ Z.lor (cap_inheritable (i_caps v)) (cap_bounding (i_caps v))
  ∧ fst (md_identity_capset v p e i) = set_caps v (mk_caps p e i (cap_bounding (i_caps v))
      (Z.land (cap_ambient (i_caps v)) (Z.land p i)) (cap_securebits (i_caps v))).
Proof.
  unfold md_identity_capset. cbv zeta.
  match goal with |- context [if ?b then (v, _) else _] => destruct b eqn:E end; [done|]. cbn. intros _.
  breflect. unfold bits_le. auto.
Qed.

Lemma change_caps_ok w v v' : cred_change w v v' → caps_ok (i_caps v) → caps_ok (i_caps v').
Proof.
  intros Hc Hok. destruct Hc as [|u _|g _|g _|p e i Hs|c Hc| |next file v' s He Hcaps _ _ _]; try done.
  - by apply uid_changed_ok.
  - destruct (capset_spec _ _ _ _ Hs) as (Hp&He&Hi&->). split; cbn; auto with bits.
    + eapply bits_le_trans; [exact Hp|]. apply Hok.
    + eapply bits_le_trans; [exact Hi|]. apply bits_le_lor; apply Hok.
  - destruct Hc as [Hp He Hi Hb Ha _]. cbn. split; rewrite ?Hp, ?He, ?Hi; auto with bits.
    + eapply bits_le_trans; [exact Ha|]. apply bits_le_lor; [apply Hok|apply bits_le_land_l].
    + eapply bits_le_trans; [exact Ha|]. apply bits_le_lor; [apply Hok|apply bits_le_land_r].
    + eapply bits_le_trans; [exact Hb|]. apply Hok.
  - destruct (exec_outcome _ _ _ _ _ _ He) as (c&->&[Hi Hb Ha Hap Hef Hp _ _]). cbn.
    rewrite Hcaps in *. split; rewrite ?Hi, ?Hb; auto with bits.
    + eapply bits_le_trans; [exact Ha|]. apply Hok.
    + eapply bits_le_trans; [exact Hp|]. rewrite Hi, Hb. repeat apply bits_le_lor; try apply Hok.
      eapply bits_le_trans; [exact Ha|]. eapply bits_le_trans; apply Hok.
Qed.

Lemma not_capable v cap :
  caps_ok (i_caps v) → 0 ≤ cap → Z.testbit (cap_permitted (i_caps v)) cap = false →
  md_identity_capable v cap = false.
Proof.
  intros Hok Hc Hp. unfold md_identity_capable. rewrite has_bits_bit by done.
  destruct (Z.testbit (cap_effective (i_caps v)) cap) eqn:E; [|apply andb_false_r].
  pose proof (ck_effective _ Hok) as He. rewrite bits_le_spec in He. rewrite He in Hp; done.
Qed.

(** Confinement of one task that has given up new privileges. *)
Record confined (v v' : md_identity) : Prop := {
  cf_no_new_privs : i_no_new_privs v' = true;
  cf_permitted : cap_permitted (i_caps v') ⊑ᵇ cap_permitted (i_caps v);
  cf_bounding : cap_bounding (i_caps v') ⊑ᵇ cap_bounding (i_caps v);
  cf_uid : Z.testbit (cap_permitted (i_caps v)) CAP_SETUID = false → ids_set (i_uid v') ⊆ ids_set (i_uid v);
  cf_gid : Z.testbit (cap_permitted (i_caps v)) CAP_SETGID = false →
    ids_set (i_gid v') ⊆ ids_set (i_gid v) ∧ i_groups v' = i_groups v }.

Lemma confined_refl v : i_no_new_privs v = true → confined v v.
Proof. split; auto with bits. Qed.
Lemma confined_trans v1 v2 v3 : confined v1 v2 → confined v2 v3 → confined v1 v3.
Proof.
  intros [? Hp Hb Hu Hg] [? Hp' Hb' Hu' Hg'].
  assert (∀ cap, 0 ≤ cap → Z.testbit (cap_permitted (i_caps v1)) cap = false →
    Z.testbit (cap_permitted (i_caps v2)) cap = false) as Hdrop.
  { intros cap Hc H1. destruct (Z.testbit (cap_permitted (i_caps v2)) cap) eqn:E; [|done].
    rewrite bits_le_spec in Hp. by rewrite Hp in H1. }
  split; [done|by eapply bits_le_trans..| |].
  - intros H1. etrans; [apply Hu'|by apply Hu]. by apply Hdrop.
  - intros H1. destruct (Hg H1) as [? ?]. destruct Hg' as [? ?]; [by apply Hdrop|].
    split; [by etrans|congruence].
Qed.

Lemma change_confined w v v' :
  cred_change w v v' → caps_ok (i_caps v) → i_no_new_privs v = true → confined v v'.
Proof.
  intros Hc Hok Hn.
  destruct Hc as [|u Hu|g Hg|g Hg|p e i Hs|c Hc| |next file v' s He Hcaps Hnn _ Hids].
  - by apply confined_refl.
  - destruct (uid_changed_shape w (set_uid v u) (i_uid v)) as (Eu&Eg&En&_&Egr&_&_&Hp&Hb).
    split; rewrite ?Eu, ?Eg, ?En, ?Egr; auto. intros H. apply Hu. by apply not_capable.
  - split; cbn; auto with bits. intros H. split; [|done]. apply Hg. by apply not_capable.
  - split; cbn; auto with bits. intros H. rewrite not_capable in Hg; done.
  - destruct (capset_spec _ _ _ _ Hs) as (Hp&_&_&->). split; cbn; auto with bits.
  - destruct Hc as [Hp _ _ Hb _ _]. split; cbn; rewrite ?Hp; auto with bits.
  - split; cbn; auto with bits.
  - destruct (exec_outcome _ _ _ _ _ _ He) as (c&->&[_ Hb Ha _ _ _ Hnp _]).
    destruct (Hids Hn) as (Hu&Hg&Hgr). rewrite Hcaps in *. split; cbn; auto; [congruence| |rewrite Hb; auto with bits].
    eapply bits_le_trans; [exact (Hnp Hn)|]. apply bits_le_lor; [apply bits_le_refl|].
    eapply bits_le_trans; [exact Ha|]. apply Hok.
Qed.

Lemma change_secure w v v' :
  cred_change w v v' → secure_keep (cap_securebits (i_caps v)) (cap_securebits (i_caps v')).
Proof.
  intros Hc. destruct Hc as [|u Hu|g Hg|g Hg|p e i Hs|c Hc| |next file v' s He Hcaps _ _ _]; try reflexivity.
  - destruct (uid_changed_shape w (set_uid v u) (i_uid v)) as (_&_&_&_&_&Es&_). rewrite Es. reflexivity.
  - destruct (capset_spec _ _ _ _ Hs) as (_&_&_&->). reflexivity.
  - apply Hc.
  - destruct (exec_outcome _ _ _ _ _ _ He) as (c&->&Hch). cbn. rewrite (ec_securebits _ _ _ Hch), Hcaps.
    intros i Hi Hs. autorewrite with testbits. rewrite Hs.
    repeat rewrite elem_of_cons in Hi. destruct Hi as [->|[->|[->|[->|[]%elem_of_nil]]]]; ground_bits;
      rewrite ?andb_true_r, ?andb_false_r; auto.
Qed.

(** ** Properties *)

(** C6: whatever sequence of ID changes, capset and prctl calls, executions and
    namespace changes a task performs, the effective set stays inside the
    permitted one, the ambient set inside permitted and inheritable, and no
    unknown capability appears in any set. *)
Theorem identity_caps_invariant h v ops :
  caps_ok (i_caps v) → caps_ok (i_caps (snd (cred_runs (h, v) ops))).
Proof.
  revert h v; induction ops as [|op ops IH]; intros h v Hok; [done|].
  unfold cred_runs. cbn [foldl]. destruct (cred_run (h, v) op) as [h' v'] eqn:Hr.
  apply IH. replace v' with (snd (cred_run (h, v) op)) by by rewrite Hr.
  destruct (same_namespace_op op) eqn:Hs.
  - eapply change_caps_ok; [apply run_change, Hs|done].
  - destruct op; try done; cbn [cred_run].
    + unfold md_identity_enter_user_namespace. destruct (md_user_namespace_new _ _ _ _ _ _) as [w1 [n|e]]; [|done].
      apply (new_caps_ok 0 0).
    + unfold md_identity_join_user_namespace. case_if; [done|]. case_if; [done|]. apply (new_caps_ok 0 0).
Qed.

(** C29: once a task has set no_new_privs, nothing it does inside its user namespace
    -- executing set-ID or capability-bearing files included -- enlarges its
    permitted or bounding set, clears the flag, or (without CAP_SETUID and
    CAP_SETGID) brings in an ID or group it did not hold. *)
Theorem no_new_privs_confines h v ops :
  caps_ok (i_caps v) → i_no_new_privs v = true → forallb same_namespace_op ops = true →
  confined v (snd (cred_runs (h, v) ops)).
Proof.
  revert h v; induction ops as [|op ops IH]; intros h v Hok Hn Hops; [by apply confined_refl|].
  cbn in Hops. apply andb_true_iff in Hops as [Hop Hops].
  unfold cred_runs. cbn [foldl]. destruct (run_change h v op Hop) as [_ Hc].
  destruct (cred_run (h, v) op) as [h' v']. cbn [snd] in Hc.
  pose proof (change_confined _ _ _ Hc Hok Hn) as Hf. eapply confined_trans; [exact Hf|].
  apply IH; [by eapply change_caps_ok|apply Hf|done].
Qed.

(** A locked securebit keeps its value and its lock through every sequence of
    operations inside the user namespace; only a locked KEEP_CAPS can still be
    cleared, by an exec. *)
Theorem securebits_locked h v ops :
  forallb same_namespace_op ops = true →
  secure_keep (cap_securebits (i_caps v)) (cap_securebits (i_caps (snd (cred_runs (h, v) ops)))).
Proof.
  revert h v; induction ops as [|op ops IH]; intros h v Hops; [reflexivity|].
  cbn in Hops. apply andb_true_iff in Hops as [Hop Hops].
  unfold cred_runs. cbn [foldl]. destruct (run_change h v op Hop) as [_ Hc].
  destruct (cred_run (h, v) op) as [h' v']. cbn [snd] in Hc.
  etrans; [by eapply change_secure|]. by apply IH.
Qed.

(** An execution never yields a capability outside the bounding and inheritable
    sets, never touches either, and never yields an ID other than the caller's
    own or the image's. *)
Theorem prepare_exec_bounded h v im nosuid v' s :
  caps_ok (i_caps v) → md_identity_prepare_exec h v (Some im) nosuid = inl (v', s) →
  cap_permitted (i_caps v') ⊑ᵇ Z.lor (cap_bounding (i_caps v)) (cap_inheritable (i_caps v))
  ∧ cap_bounding (i_caps v') = cap_bounding (i_caps v)
  ∧ cap_inheritable (i_caps v') = cap_inheritable (i_caps v)
  ∧ id_real (i_uid v') = id_real (i_uid v)
  ∧ id_effective (i_uid v') ∈ [id_effective (i_uid v); x_uid im]
  ∧ id_effective (i_gid v') ∈ [id_effective (i_gid v); x_gid im].
Proof.
  intros Hok. unfold md_identity_prepare_exec. cbv zeta.
  match goal with |- context [if ?b then inr _ else _] => destruct b; [done|] end.
  intros He. destruct (exec_outcome _ _ _ _ _ _ He) as (c&->&[Hi Hb Ha _ _ Hp _ _]). cbn in *.
  rewrite Hi, Hb in *. split_and!; try done.
  - eapply bits_le_trans; [exact Hp|]. apply bits_le_lor; [apply bits_le_refl|].
    eapply bits_le_trans; [exact Ha|]. apply bits_le_lor_r, Hok.
  - case_if; set_solver.
  - case_if; set_solver.
Qed.

(** After the supplementary groups were set, a group check succeeds exactly for
    the filesystem GID and the listed groups: the binary search over the sorted
    copy finds each of them and nothing else. *)
Theorem groups_membership h v ids malloc h' v' gid :
  (∀ g, i_groups v = Some g → is_Some (h_groups h !! g)) →
  md_identity_groups_set h v ids malloc = (h', v', 0) →
  md_identity_in_group h' v' gid = true ↔ gid = id_fs (i_gid v) ∨ gid ∈ ids.
Proof.
  intros Hlive Hset. unfold md_identity_in_group.
  assert (id_fs (i_gid v') = id_fs (i_gid v) ∧ group_ids h' v' = qsort_Z ids) as [-> ->].
  { revert Hset. unfold md_identity_groups_set. destruct (_ <? _); [done|]. destruct (existsb _ _); [done|].
    destruct (Z.eqb_spec (Z.of_nat (length ids)) 0) as [H0|_].
    { destruct ids; [|done]. unfold release_groups. by intros [= <- <-]. }
    destruct malloc; [|done]. cbn [negb]. set (g := fresh (dom (h_groups h))).
    assert (h_groups h !! g = None) as Hg by (apply not_elem_of_dom, is_fresh).
    assert (∀ h1, h_groups h1 !! g = Some (mk_groups 1 (qsort_Z ids)) →
      group_ids h1 (set_groups v (Some g)) = qsort_Z ids) as Hids.
    { intros h1 H1. unfold group_ids. cbn. by rewrite H1. }
    unfold release_groups. cbn [h_groups h_world]. destruct (i_groups v) as [o|] eqn:Ho.
    - destruct (Hlive o eq_refl) as [x Hx]. assert (o ≠ g) by congruence.
      rewrite lookup_insert_ne, Hx by done. intros [= <- <-]. split; [done|]. apply Hids.
      case_if; cbn; rewrite ?lookup_delete_ne, ?lookup_alter_ne, lookup_insert_eq by done; done.
    - intros [= <- <-]. split; [done|]. apply Hids. cbn. by rewrite lookup_insert_eq. }
  rewrite orb_true_iff, bool_decide_eq_true, bsearch_sorted_Z by apply qsort_Z_sorted.
  rewrite qsort_Z_perm, Z.eqb_eq. intuition.
Qed.

Lemma fail_if_0 error bad code : code ≠ 0 → fail_if error bad code = 0 → error = 0 ∧ bad = false.
Proof. unfold fail_if. intros Hc. case_if; [done|]. intros ->. by destruct bad. Qed.

(** Admission retains the image's descriptor exactly when it succeeds, and only
    for a regular file sealed against write, shrink and growth whose header is
    the native one; every failure closes it again. *)
Theorem image_admit_descriptor fds env uid gid mode caps native fds' r :
  image_admit fds env uid gid mode caps native = (fds', r) →
  (∀ fd, ie_dup env = inl fd → fd ∉ fds) → (∀ e, ie_stat env = inr e → 0 < e) →
  match r with
  | inl im => fds' = {[x_fd im]} ∪ fds ∧ ie_dup env = inl (x_fd im)
      ∧ (∃ m, ie_stat env = inl m ∧ S_ISREG m = true)
      ∧ (∃ seals, ie_seals env = Some seals ∧ Z.lor (Z.lor F_SEAL_WRITE F_SEAL_SHRINK) F_SEAL_GROW ⊑ᵇ seals)
      ∧ (native = true → native_header (ie_pread env) = true)
      ∧ md_exec_image_release fds' (Some im) = fds
  | inr _ => fds' = fds
  end.
Proof.
  unfold image_admit. case_if; [by intros [= <- <-]|]. destruct (ie_dup env) as [fd|e]; [|by intros [= <- <-]].
  cbv zeta. intros Hr Hfresh Herrno. specialize (Hfresh fd eq_refl).
  assert ((({[fd]} ∪ fds) ∖ {[fd]}) = fds) as Hback by set_solver.
  revert Hr. match goal with |- context [if negb (?e =? 0) then _ else _] => destruct (Z.eqb_spec e 0) as [He|] end;
    cbn [negb]; intros [= <- <-]; [|done].
  apply fail_if_0 in He as [He _]; [|done]. apply fail_if_0 in He as [He Hn]; [|done].
  apply fail_if_0 in He as [He Hs]; [|done]. apply negb_false_iff in Hs.
  cbn. split_and!; try done.
  - destruct (ie_stat env) as [m|e]; [|specialize (Herrno e eq_refl); lia]. exists m. split; [done|].
    by destruct (S_ISREG m).
  - destruct (ie_seals env) as [seals|]; [|done]. exists seals. split; [done|].
    apply Z.eqb_eq in Hs. rewrite <- Hs. apply bits_le_land_l.
  - intros ->. cbn in Hn. by apply negb_false_iff.
Qed.

(** ** Witnesses: a root task and an unprivileged one, and a set-user-ID image *)

Definition demo_heap : cred_heap := mk_heap demo_world ∅.
Definition demo_root : md_identity := md_identity_new 0 0.
Definition demo_locked : md_identity :=
  fst (md_identity_no_new_privs (md_identity_new 1000 1000) 1).
Definition demo_image : md_exec_image := mk_image 5 0 0 35309 (mk_file_caps 0 0 0 false false).

Lemma identity_caps_invariant_witness :
  let v := snd (cred_runs (demo_heap, demo_root)
    [OpPrctl PR_SET_KEEPCAPS 1 0 0 0; OpSetuid 1000; OpPrepareExec (Some demo_image) false]) in
  caps_ok (i_caps v) ∧ id_effective (i_uid v) = 0 ∧ cap_permitted (i_caps v) = MD_CAP_VALID.
Proof.
  intros v. split; [|vm_compute; done].
  apply (identity_caps_invariant demo_heap demo_root). apply (new_caps_ok 0 0).
Defined.

Lemma no_new_privs_confines_witness :
  confined demo_locked (snd (cred_runs (demo_heap, demo_locked) [OpPrepareExec (Some demo_image) false; OpSetuid 0]))
  ∧ is_Some (match md_identity_prepare_exec demo_heap demo_locked (Some demo_image) false with
             | inl p => Some p | inr _ => None end).
Proof.
  split; [|vm_compute; eauto].
  apply (no_new_privs_confines demo_heap demo_locked); [apply (new_caps_ok 1000 1000)|done|done].
Defined.

Lemma securebits_locked_witness :
  let v := fst (md_identity_cap_prctl demo_root PR_SET_SECUREBITS 3 0 0 0) in
  Z.testbit (cap_securebits (i_caps (snd (cred_runs (demo_heap, v) [OpPrctl PR_SET_SECUREBITS 0 0 0 0; OpExec])))) 0
  = true.
Proof.
  intros v. destruct (securebits_locked demo_heap v [OpPrctl PR_SET_SECUREBITS 0 0 0 0; OpExec] eq_refl 0)
    as [_ [->|[? _]]]; [set_solver|vm_compute; done..].
Defined.

Lemma prepare_exec_bounded_witness :
  ∃ v s, md_identity_prepare_exec demo_heap (md_identity_new 1000 1000) (Some demo_image) false = inl (v, s)
    ∧ s = true ∧ cap_permitted (i_caps v) ⊑ᵇ Z.lor MD_CAP_VALID 0.
Proof.
  eexists _, _. split; [vm_compute; reflexivity|]. split; [done|].
  apply (prepare_exec_bounded demo_heap (md_identity_new 1000 1000) demo_image false _ true);
    [apply (new_caps_ok 1000 1000)|vm_compute; reflexivity].
Defined.

Lemma groups_membership_witness :
  ∃ h v, md_identity_groups_set demo_heap demo_root [30; 10; 20] true = (h, v, 0)
    ∧ md_identity_in_group h v 20 = true ∧ md_identity_in_group h v 25 = false.
Proof.
  eexists _, _. split; [reflexivity|]. split; [|vm_compute; reflexivity].
  apply (groups_membership demo_heap demo_root [30; 10; 20] true); [done|reflexivity|set_solver].
Defined.

Definition demo_header : list Z :=
  [127; 69; 76; 70; 2; 1; 1; 0; 0; 0; 0; 0; 0; 0; 0; 0; 3; 0; 183; 0; 1; 0; 0; 0]
  ++ replicate 28 0 ++ [64; 0] ++ replicate 10 0.
Definition demo_image_env : image_env := mk_image_env (inl 9) (inl 33261) (Some 15) demo_header true.
Lemma image_admit_descriptor_witness :
  ∃ im, image_admit {[3]} demo_image_env 0 0 35309 None true = ({[9]} ∪ {[3]}, inl im)
    ∧ md_exec_image_release ({[9]} ∪ {[3]}) (Some im) = {[3]}.
Proof.
  eexists. split; [vm_compute; reflexivity|].
  apply (image_admit_descriptor {[3]} demo_image_env 0 0 35309 None true _ (inl _));
    [vm_compute; reflexivity|intros fd [= <-]; set_solver|done].
Defined.
