(* ===== verification/FileAccess.v ===== *)
(** * File permissions, file capabilities and numeric users
    (src/native/shroot/src/file_permissions.h, file_capability.h, identity_call.h,
    guest_user.h).

    The access decision on a file's mode, the decoder of the security.capability
    attribute (Linux VFS revisions 1 to 3), the scalar credential reads, and the
    parser of a numeric launch identity "uid:gid". *)
From S2P Require Import Prelude.
From S2P Require Import CLib.
From S2P Require Import UserNamespace.
From S2P Require Import GuestIdentity.

(** ** Mode checks *)

Definition R_OK : Z := 4.
Definition W_OK : Z := 2.
Definition X_OK : Z := 1.
Record stat := mk_stat { st_uid : Z; st_gid : Z; st_mode : Z }.

Definition md_file_mode_allows (h : cred_heap) (st : stat) (mode : Z) (id : md_identity) : bool :=
  let shift := if id_fs (i_uid id) =? st_uid st then 6
               else if md_identity_in_group h id (st_gid st) then 3 else 0 in
  Z.land (Z.shiftr (st_mode st) shift) mode =? mode.

Definition md_file_dac_override (w : world) (st : stat) (mode : Z) (id : md_identity) : bool :=
  if (negb (has_bits mode X_OK) || S_ISDIR (st_mode st) || has_bits (st_mode st) 73)
     && md_identity_file_capable w id (st_uid st) (st_gid st) CAP_DAC_OVERRIDE then true
  else negb (has_bits mode W_OK) && (negb (has_bits mode X_OK) || S_ISDIR (st_mode st))
       && md_identity_file_capable w id (st_uid st) (st_gid st) CAP_DAC_READ_SEARCH.

Definition md_file_permissions (h : cred_heap) (st : stat) (mode : Z) (id : option md_identity) : Z :=
  match id with
  | None => - EINVAL
  | Some id =>
      if negb (Z.ldiff mode 7 =? 0) then - EINVAL
      else if md_file_mode_allows h st mode id || md_file_dac_override (h_world h) st mode id then 0
      else - EACCES
  end.

Definition md_file_noatime (w : world) (st : stat) (id : md_identity) : Z :=
  if (st_uid st =? id_fs (i_uid id)) || md_identity_file_capable w id (st_uid st) (st_gid st) CAP_FOWNER
  then 0 else - EPERM.

(** ** The security.capability attribute *)

Definition md_file_capability_word (p : list Z) (o : nat) : Z :=
  Z.lor (Z.lor (Z.lor (byte_at p o) (Z.shiftl (byte_at p (o + 1)) 8)) (Z.shiftl (byte_at p (o + 2)) 16))
    (Z.shiftl (byte_at p (o + 3)) 24).

(** [value] is [None] for a null pointer. *)
Definition md_file_capability_valid (value : option (list Z)) : bool :=
  match value with
  | None => false
  | Some p =>
      let size := Z.of_nat (length p) in
      if size <? 4 then false
      else
        let magic := md_file_capability_word p 0 in
        let revision := Z.shiftr magic 24 in
        negb (has_bits magic 16777214)
        && (((revision =? 1) && (size =? 12)) || ((revision =? 2) && (size =? 20))
            || ((revision =? 3) && (size =? 24)))
  end.

Definition md_file_capability_decode (value : option (list Z)) : md_file_capabilities * bool :=
  if negb (md_file_capability_valid value) then (mk_file_caps 0 0 0 false false, false)
  else
    let p := default [] value in
    let size := Z.of_nat (length p) in
    let permitted := md_file_capability_word p 4 in
    let inheritable := md_file_capability_word p 8 in
    let wide := 20 <=? size in
    let permitted := if wide then Z.lor permitted (Z.shiftl (md_file_capability_word p 12) 32) else permitted in
    let inheritable := if wide then Z.lor inheritable (Z.shiftl (md_file_capability_word p 16) 32) else inheritable in
    let rootid := if size =? 24 then md_file_capability_word p 20 else 0 in
    (mk_file_caps permitted inheritable rootid true (has_bits (byte_at p 0) 1), negb (rootid =? UINT32_MAX)).

(** ** Scalar credential reads *)

Definition SYS_getuid : Z := 174.
Definition SYS_geteuid : Z := 175.
Definition SYS_getgid : Z := 176.
Definition SYS_getegid : Z := 177.
Definition md_identity_scalar_call (number : Z) : bool :=
  (number =? SYS_getuid) || (number =? SYS_geteuid) || (number =? SYS_getgid) || (number =? SYS_getegid).
Definition md_identity_scalar_result (w : world) (id : md_identity) (number : Z) : Z :=
  if number =? SYS_getuid then md_identity_visible_id w id false (id_real (i_uid id))
  else if number =? SYS_geteuid then md_identity_visible_id w id false (id_effective (i_uid id))
  else if number =? SYS_getgid then md_identity_visible_id w id true (id_real (i_gid id))
  else if number =? SYS_getegid then md_identity_visible_id w id true (id_effective (i_gid id))
  else - EOPNOTSUPP.

(** ** Numeric users *)

Definition is_digit (c : Z) : bool := (48 <=? c) && (c <=? 57).

(** The digits after the first one: the value and the rest of the string. *)
Fixpoint scan_digits (value : Z) (s : list Z) : option (Z * list Z) :=
  match s with
  | c :: t =>
      if is_digit c then
        let value := wrap64 (value * 10 + (c - 48)) in
        if UINT32_MAX <=? value then None else scan_digits value t
      else Some (value, s)
  | [] => Some (value, [])
  end.
Definition scan_number (s : list Z) : option (Z * list Z) :=
  match s with
  | c :: _ => if is_digit c then scan_digits 0 s else None
  | [] => None
  end.
(** A C string is the list of its bytes before the terminator. *)
Definition md_guest_user_parse (s : list Z) : option (Z * Z) :=
  match scan_number s with
  | Some (uid, c :: t) =>
      if negb (c =? 58) then None
      else match scan_number t with
           | Some (gid, []) => Some (uid, gid)
           | _ => None
           end
  | _ => None
  end.

(** ** Digits *)

Definition decimal (ds : list Z) : Z := foldl (λ v c, v * 10 + (c - 48)) 0 ds.
Definition is_number (ds : list Z) : Prop := ds ≠ [] ∧ Forall (λ c, is_digit c = true) ds.
Definition stops (rest : list Z) : Prop := match rest with [] => True | c :: _ => is_digit c = false end.

Lemma digits_grow v ds : 0 ≤ v → Forall (λ c, is_digit c = true) ds → v ≤ foldl (λ v c, v * 10 + (c - 48)) v ds.
Proof.
  intros Hv Hd. revert v Hv; induction Hd as [|c ds Hc _ IH]; intros v Hv; cbn [foldl]; [done|].
  unfold is_digit in Hc. breflect. etrans; [|apply IH]; lia.
Qed.

Lemma scan_digits_spec v s n rest :
  0 ≤ v < UINT32_MAX →
  scan_digits v s = Some (n, rest) ↔
  ∃ ds, s = ds ++ rest ∧ Forall (λ c, is_digit c = true) ds ∧ stops rest
    ∧ n = foldl (λ v c, v * 10 + (c - 48)) v ds ∧ n < UINT32_MAX.
Proof.
  revert v; induction s as [|c s IH]; intros v Hv; cbn [scan_digits].
  { split.
    - intros [= <- <-]. exists []. split_and!; [done|constructor|done|done|cbn; lia].
    - intros (ds&Hs&_&_&->&_). by apply eq_sym, app_nil in Hs as [-> ->]. }
  destruct (is_digit c) eqn:Hc.
  - assert (0 ≤ v * 10 + (c - 48)) as H0 by (unfold is_digit in Hc; breflect; lia).
    assert (wrap64 (v * 10 + (c - 48)) = v * 10 + (c - 48)) as ->.
    { unfold wrap64, UINT32_MAX, is_digit in *. breflect. apply Z.mod_small. lia. }
    destruct (Z.leb_spec UINT32_MAX (v * 10 + (c - 48))) as [Hge|Hlt].
    + split; [done|]. intros (ds&Hs&Hd&Hst&->&Hn). destruct ds as [|d ds]; cbn in Hs.
      { rewrite <- Hs in Hst. cbn in Hst. congruence. }
      injection Hs as <- ->. cbn [foldl] in Hn. apply Forall_cons in Hd as [_ Hd].
      pose proof (digits_grow _ _ H0 Hd). lia.
    + rewrite IH by lia. split.
      * intros (ds&->&Hd&Hst&Hn&Hb). exists (c :: ds). split_and!; try done. by constructor.
      * intros (ds&Hs&Hd&Hst&Hn&Hb). destruct ds as [|d ds]; cbn in Hs.
        { rewrite <- Hs in Hst. cbn in Hst. congruence. }
        injection Hs as <- ->. exists ds. apply Forall_cons in Hd as [_ Hd]. done.
  - split.
    + intros [= <- <-]. exists []. split_and!; [done|constructor|done|done|cbn; lia].
    + intros (ds&Hs&Hd&Hst&->&_). destruct ds as [|d ds]; cbn in Hs; [by subst|].
      injection Hs as <- ->. apply Forall_cons in Hd as [Hd _]. congruence.
Qed.

Lemma scan_number_spec s n rest :
  scan_number s = Some (n, rest) ↔
  ∃ ds, s = ds ++ rest ∧ is_number ds ∧ stops rest ∧ n = decimal ds ∧ n < UINT32_MAX.
Proof.
  assert (0 ≤ 0 < UINT32_MAX) as H0 by done. unfold scan_number, is_number. destruct s as [|c s].
  - split; [done|]. intros (ds&Hs&[Hne _]&_). by apply eq_sym, app_nil in Hs as [-> _].
  - destruct (is_digit c) eqn:Hc.
    + rewrite (scan_digits_spec 0 _ _ _ H0). split.
      * intros (ds&Hs&Hd&Hst&Hn&Hb). exists ds. split_and!; try done. intros ->. cbn in Hs. subst.
        cbn in Hst. congruence.
      * intros (ds&Hs&[_ Hd]&Hst&Hn&Hb). exists ds. done.
    + split; [done|]. intros (ds&Hs&[Hne Hd]&_). destruct ds as [|d ds]; [done|].
      injection Hs as <- _. apply Forall_cons in Hd as [Hd _]. congruence.
Qed.

(** ** Little-endian words *)

Definition le32 (x : Z) : list Z :=
  [x mod 256; x / 256 mod 256; x / 65536 mod 256; x / 16777216 mod 256].

Lemma byte_at_app l1 l2 i : byte_at (l1 ++ l2) (length l1 + i) = byte_at l2 i.
Proof. unfold byte_at. by rewrite lookup_app_r, Nat.add_comm, Nat.add_sub by lia. Qed.

Lemma word_bytes a b c d : 0 ≤ a < 256 → 0 ≤ b < 256 → 0 ≤ c < 256 →
  Z.lor (Z.lor (Z.lor a (Z.shiftl b 8)) (Z.shiftl c 16)) (Z.shiftl d 24)
  = a + b * 256 + c * 65536 + d * 16777216.
Proof.
  intros. rewrite (lor_shiftl_add a b 8) by (change (2 ^ 8) with 256; lia). change (2 ^ 8) with 256.
  rewrite (lor_shiftl_add (a + b * 256) c 16) by (change (2 ^ 16) with 65536; lia).
  change (2 ^ 16) with 65536. rewrite lor_shiftl_add by (change (2 ^ 24) with 16777216; lia). done.
Qed.

Lemma word_le32 l1 x l2 :
  0 ≤ x < 4294967296 → md_file_capability_word (l1 ++ le32 x ++ l2) (length l1) = x.
Proof.
  intros Hx. unfold md_file_capability_word.
  replace (length l1) with (length l1 + 0)%nat at 1 by lia. rewrite !byte_at_app. cbn.
  rewrite word_bytes by (apply Z.mod_pos_bound; lia). divlia.
Qed.

(** The attribute as setcap(8) writes it: a magic word with the revision and the
    effective flag, then the sets, low words first, then the root ID. *)
Definition vfs_encode (revision permitted inheritable rootid : Z) (effective : bool) : list Z :=
  le32 (revision * 16777216 + (if effective then 1 else 0))
  ++ le32 (permitted mod 4294967296) ++ le32 (inheritable mod 4294967296)
  ++ (if revision =? 1 then [] else le32 (permitted / 4294967296) ++ le32 (inheritable / 4294967296))
  ++ (if revision =? 3 then le32 rootid else []).

Section vfs_fields.
Context (revision permitted inheritable rootid : Z) (effective : bool).
Notation attribute := (vfs_encode revision permitted inheritable rootid effective).

Lemma vfs_field l1 x l2 o :
  attribute = l1 ++ le32 x ++ l2 → o = length l1 → 0 ≤ x < 4294967296 →
  md_file_capability_word attribute o = x.
Proof. intros -> ->. apply word_le32. Qed.

Notation magic := (revision * 16777216 + (if effective then 1 else 0)).
Notation head := (le32 magic ++ le32 (permitted mod 4294967296)).
Lemma vfs_magic : 0 ≤ revision < 128 → md_file_capability_word attribute 0 = magic.
Proof. intros Hr. eapply (vfs_field []); [reflexivity|done|]. destruct effective; lia. Qed.
Lemma vfs_permitted : md_file_capability_word attribute 4 = permitted mod 4294967296.
Proof. eapply (vfs_field (le32 magic)); [reflexivity|done|]. apply Z.mod_pos_bound. lia. Qed.
Lemma vfs_inheritable : md_file_capability_word attribute 8 = inheritable mod 4294967296.
Proof. eapply (vfs_field head); [reflexivity|done|]. apply Z.mod_pos_bound. lia. Qed.
Lemma vfs_permitted_high : revision ≠ 1 → 0 ≤ permitted < 18446744073709551616 →
  md_file_capability_word attribute 12 = permitted / 4294967296.
Proof.
  intros Hr Hp. eapply (vfs_field (head ++ le32 (inheritable mod 4294967296))); [|done|divlia].
  unfold vfs_encode. apply Z.eqb_neq in Hr as ->. reflexivity.
Qed.
Lemma vfs_inheritable_high : revision ≠ 1 → 0 ≤ inheritable < 18446744073709551616 →
  md_file_capability_word attribute 16 = inheritable / 4294967296.
Proof.
  intros Hr Hp.
  eapply (vfs_field (head ++ le32 (inheritable mod 4294967296) ++ le32 (permitted / 4294967296))); [|done|divlia].
  unfold vfs_encode. apply Z.eqb_neq in Hr as ->. reflexivity.
Qed.
Lemma vfs_rootid : revision = 3 → 0 ≤ rootid < UINT32_MAX → md_file_capability_word attribute 20 = rootid.
Proof.
  unfold UINT32_MAX. intros Hr Hp.
  eapply (vfs_field (head ++ le32 (inheritable mod 4294967296) ++ le32 (permitted / 4294967296)
    ++ le32 (inheritable / 4294967296)) _ []); [|done|lia].
  unfold vfs_encode. rewrite Hr, app_nil_r. reflexivity.
Qed.
End vfs_fields.

Lemma halves_join x : 0 ≤ x → Z.lor (x mod 4294967296) (Z.shiftl (x / 4294967296) 32) = x.
Proof.
  intros Hx. rewrite lor_shiftl_add; [|lia|apply Z.mod_pos_bound; lia].
  change (2 ^ 32) with 4294967296. divlia.
Qed.

(** ** Properties *)

(** Decoding the attribute of any of the three revisions yields the sets, root ID
    and effective flag it was written with. *)
Theorem file_capability_roundtrip revision permitted inheritable rootid effective :
  revision ∈ [1; 2; 3] →
  0 ≤ permitted < (if revision =? 1 then 4294967296 else 18446744073709551616) →
  0 ≤ inheritable < (if revision =? 1 then 4294967296 else 18446744073709551616) →
  0 ≤ rootid < UINT32_MAX → (revision ≠ 3 → rootid = 0) →
  md_file_capability_decode (Some (vfs_encode revision permitted inheritable rootid effective))
  = (mk_file_caps permitted inheritable rootid true effective, true).
Proof.
  intros Hrev Hp Hi Hroot Hzero.
  assert (has_bits (byte_at (vfs_encode revision permitted inheritable rootid effective) 0) 1 = effective
    ∧ md_file_capability_valid (Some (vfs_encode revision permitted inheritable rootid effective)) = true)
    as [He Hv].
  { unfold md_file_capability_valid. rewrite vfs_magic by
      (repeat rewrite elem_of_cons in Hrev; rewrite elem_of_nil in Hrev; lia).
    repeat rewrite elem_of_cons in Hrev. destruct Hrev as [->|[->|[->|[]%elem_of_nil]]];
      destruct effective; vm_compute; done. }
  unfold md_file_capability_decode. rewrite Hv. cbv zeta. cbn [negb default from_option id]. rewrite He.
  rewrite vfs_permitted, vfs_inheritable.
  repeat rewrite elem_of_cons in Hrev. destruct Hrev as [->|[->|[->|[]%elem_of_nil]]]; cbn [Z.eqb Pos.eqb] in *.
  - rewrite Hzero by done. rewrite !Z.mod_small by done. done.
  - rewrite Hzero, vfs_permitted_high, vfs_inheritable_high by done. rewrite !halves_join by lia. done.
  - rewrite vfs_permitted_high, vfs_inheritable_high, vfs_rootid, !halves_join by (done || lia).
    cbn [Z.of_nat]. change (20 <=? _) with true. change (_ =? 24) with true. cbn [negb].
    destruct (Z.eqb_spec rootid UINT32_MAX); [lia|done].
Qed.

(** The parser of a launch identity accepts exactly two nonempty decimal numbers
    below 2^32-1 separated by a colon, and returns their values. *)
Theorem guest_user_parse_iff s uid gid :
  md_guest_user_parse s = Some (uid, gid) ↔
  ∃ a b, s = a ++ 58 :: b ∧ is_number a ∧ is_number b
    ∧ uid = decimal a ∧ gid = decimal b ∧ uid < UINT32_MAX ∧ gid < UINT32_MAX.
Proof.
  unfold md_guest_user_parse. split.
  - destruct (scan_number s) as [[n [|c t]]|] eqn:Hs; try done.
    apply scan_number_spec in Hs as (a&->&Ha&Hst&->&Hn).
    destruct (Z.eqb_spec c 58) as [->|]; [|done]. cbn [negb].
    destruct (scan_number t) as [[m [|]]|] eqn:Ht; try done. intros [= <- <-].
    apply scan_number_spec in Ht as (b&->&Hb&_&->&Hm). exists a, b. rewrite app_nil_r. done.
  - intros (a&b&->&Ha&Hb&->&->&Hn&Hm).
    assert (scan_number (a ++ 58 :: b) = Some (decimal a, 58 :: b)) as ->.
    { apply scan_number_spec. exists a. done. }
    cbn [Z.eqb Pos.eqb negb]. assert (scan_number b = Some (decimal b, [])) as ->; [|done].
    apply scan_number_spec. exists b. rewrite app_nil_r. done.
Qed.

Lemma file_capable_cap w id uid gid cap :
  md_identity_file_capable w id uid gid cap = true → md_identity_capable id cap = true.
Proof. unfold md_identity_file_capable. intros H. by breflect. Qed.

Lemma has_bits_mono a b m : a ⊑ᵇ b → has_bits b m = false → has_bits a m = false.
Proof.
  unfold has_bits. intros Hab Hb. breflect. apply negb_false_iff, Z.eqb_eq.
  apply (f_equal (λ z, Z.land z a)) in Hb. rewrite Z.land_0_l in Hb. rewrite <- Hb.
  apply bits_le_land_eq in Hab. rewrite <- Hab at 1. bitblast.
Qed.

(** Whoever may access a file in some way may access it in every weaker way. *)
Theorem file_permissions_monotone h st mode mode' id :
  mode' ⊑ᵇ mode → md_file_permissions h st mode id = 0 → md_file_permissions h st mode' id = 0.
Proof.
  intros Hle. unfold md_file_permissions. destruct id as [id|]; [|done].
  destruct (Z.eqb_spec (Z.ldiff mode 7) 0) as [H7|]; [|done]. cbn [negb].
  assert (Z.ldiff mode' 7 = 0) as -> by (eapply bits_le_trans; [exact Hle|exact H7]). cbn [Z.eqb negb].
  destruct (md_file_mode_allows h st mode id) eqn:Ha.
  { intros _. enough (md_file_mode_allows h st mode' id = true) as -> by done.
    unfold md_file_mode_allows in *. apply Z.eqb_eq in Ha. apply Z.eqb_eq.
    apply bits_le_land_eq in Hle. rewrite <- Hle, <- Ha at 1. rewrite <- Hle at 2. rewrite <- Ha at 2. bitblast. }
  cbn [orb]. destruct (md_file_dac_override (h_world h) st mode id) eqn:Ho; [|done]. intros _.
  enough (md_file_dac_override (h_world h) st mode' id = true) as -> by by rewrite orb_true_r.
  unfold md_file_dac_override in *.
  assert (has_bits mode X_OK = false → has_bits mode' X_OK = false) as HX by by apply has_bits_mono.
  assert (has_bits mode W_OK = false → has_bits mode' W_OK = false) as HW by by apply has_bits_mono.
  revert Ho. generalize (md_identity_file_capable (h_world h) id (st_uid st) (st_gid st)). intros cap.
  destruct (has_bits mode X_OK), (has_bits mode' X_OK); try (by specialize (HX eq_refl));
    destruct (has_bits mode W_OK), (has_bits mode' W_OK); try (by specialize (HW eq_refl));
    destruct (S_ISDIR (st_mode st)), (has_bits (st_mode st) 73), (cap CAP_DAC_OVERRIDE),
      (cap CAP_DAC_READ_SEARCH); done.
Qed.

Lemma file_capability_roundtrip_witness :
  md_file_capability_decode (Some (vfs_encode 3 8589934596 0 1000 true))
  = (mk_file_caps 8589934596 0 1000 true true, true).
Proof. apply file_capability_roundtrip; [set_solver|vm_compute; intuition congruence..|done]. Defined.

Lemma file_permissions_monotone_witness :
  md_file_permissions demo_heap (mk_stat 0 0 33188) 6 (Some demo_root) = 0
  ∧ md_file_permissions demo_heap (mk_stat 0 0 33188) 4 (Some demo_root) = 0.
Proof.
  assert (md_file_permissions demo_heap (mk_stat 0 0 33188) 6 (Some demo_root) = 0) as H by (vm_compute; reflexivity).
  split; [exact H|]. apply (file_permissions_monotone demo_heap (mk_stat 0 0 33188) 6); [done|exact H].
Defined.
