(* ===== verification/PosixAcl.v ===== *)
(** * POSIX access control lists
    (src/native/shroot/src/posix_acl.c and posix_acl.h).

    Validation of the system.posix_acl_* attribute, translation of its IDs
    through a user namespace, the correspondence with the file mode, and the
    access decision.  [md_acl_map] sorts with qsort; the model takes the sort as
    a parameter that meets [EntrySort], because the C library does not fix how
    entries with equal keys are ordered. *)
From stdpp Require Import sorting.
From S2P Require Import Prelude.
From S2P Require Import CLib.
From S2P Require Import UserNamespace.
From S2P Require Import GuestIdentity.

Definition MD_ACL_MAX : Z := 65532.
Definition MD_ACL_USER_OBJ : Z := 1.
Definition MD_ACL_USER : Z := 2.
Definition MD_ACL_GROUP_OBJ : Z := 4.
Definition MD_ACL_GROUP : Z := 8.
Definition MD_ACL_MASK : Z := 16.
Definition MD_ACL_OTHER : Z := 32.

Record md_acl_entry := mk_entry { e_tag : Z; e_permissions : Z; e_id : Z }.
Definition set_permissions (e : md_acl_entry) (p : Z) : md_acl_entry := mk_entry (e_tag e) p (e_id e).
Definition set_id (e : md_acl_entry) (i : Z) : md_acl_entry := mk_entry (e_tag e) (e_permissions e) i.

(** ** The attribute's bytes: a version word and 8-byte entries, little-endian *)

Definition count (size : nat) : nat := (size - 4) / 8.
Definition entry_at (p : list Z) (i : nat) : md_acl_entry :=
  mk_entry (half_at p (4 + 8 * i)) (half_at p (6 + 8 * i)) (word_at p (8 + 8 * i)).
Definition acl_entries (p : list Z) : list md_acl_entry := entry_at p <$> seq 0 (count (length p)).

(** ** Validation *)

Record phase_state := mk_phase { ph_phase : Z; ph_named : bool; ph_mask : bool; ph_previous : Z }.
Definition named_tag (tag : Z) : bool := (tag =? MD_ACL_USER) || (tag =? MD_ACL_GROUP).

(** One turn of the validation loop; [None] is [return 0]. *)
Definition valid_step (s : phase_state) (e : md_acl_entry) : option phase_state :=
  let '(mk_phase phase named mask previous) := s in
  if 7 <? e_permissions e then None
  else if negb (named_tag (e_tag e)) && negb (e_id e =? UINT32_MAX) then None
  else if e_tag e =? MD_ACL_USER_OBJ then
    if negb (phase =? 0) then None else Some (mk_phase 1 named mask previous)
  else if e_tag e =? MD_ACL_USER then
    if (negb (phase =? 1) && negb (phase =? 2)) || (e_id e =? UINT32_MAX)
       || ((phase =? 2) && (e_id e <=? previous)) then None
    else Some (mk_phase 2 true mask (e_id e))
  else if e_tag e =? MD_ACL_GROUP_OBJ then
    if negb (phase =? 1) && negb (phase =? 2) then None else Some (mk_phase 3 named mask previous)
  else if e_tag e =? MD_ACL_GROUP then
    if (negb (phase =? 3) && negb (phase =? 4)) || (e_id e =? UINT32_MAX)
       || ((phase =? 4) && (e_id e <=? previous)) then None
    else Some (mk_phase 4 true mask (e_id e))
  else if e_tag e =? MD_ACL_MASK then
    if negb (phase =? 3) && negb (phase =? 4) then None else Some (mk_phase 5 named true previous)
  else if e_tag e =? MD_ACL_OTHER then
    if (phase <? 3) || (5 <? phase) || (named && negb mask) then None
    else Some (mk_phase 6 named mask previous)
  else None.
Fixpoint valid_loop (s : phase_state) (es : list md_acl_entry) : bool :=
  match es with
  | [] => ph_phase s =? 6
  | e :: es => match valid_step s e with Some s => valid_loop s es | None => false end
  end.
Definition entries_valid (es : list md_acl_entry) : bool := valid_loop (mk_phase 0 false false 0) es.

Definition md_acl_valid (data : option (list Z)) : bool :=
  match data with
  | None => false
  | Some p =>
      let size := Z.of_nat (length p) in
      if (size <? 4) || (MD_ACL_MAX <? size) || negb ((size - 4) mod 8 =? 0) then false
      else if negb (word_at p 0 =? 2) then false
      else if size =? 4 then true
      else entries_valid (acl_entries p)
  end.

(** ** Translation *)

Definition entry_order (a b : md_acl_entry) : Z :=
  if negb (e_tag a =? e_tag b) then (if e_tag b <? e_tag a then 1 else -1)
  else compare_u32 (e_id a) (e_id b).
Definition entry_le (a b : md_acl_entry) : Prop := entry_order a b ≤ 0.
#[export] Instance entry_le_dec : RelDecision entry_le.
Proof. intros a b. apply Z.le_dec. Defined.

(** What qsort promises of an array and this comparison. *)
Class EntrySort (qsort : list md_acl_entry → list md_acl_entry) := {
  entry_sort_perm es : qsort es ≡ₚ es;
  entry_sort_sorted es : StronglySorted entry_le (qsort es) }.

Definition map_entry (w : world) (id : md_identity) (into : bool) (e : md_acl_entry) : md_acl_entry :=
  if negb (named_tag (e_tag e)) then e
  else set_id e (if into then md_user_namespace_into w (i_user_namespace id) (e_tag e =? MD_ACL_GROUP) (e_id e)
                 else md_identity_visible_id w id (e_tag e =? MD_ACL_GROUP) (e_id e)).
Definition md_acl_map (qsort : list md_acl_entry → list md_acl_entry) (w : world)
    (es : list md_acl_entry) (id : option md_identity) (into : bool) : list md_acl_entry * Z :=
  match id with
  | None => (es, 0)
  | Some v =>
      match i_user_namespace v with
      | None => (es, 0)
      | Some _ =>
          if into && existsb (λ e, named_tag (e_tag e)
               && (md_user_namespace_into w (i_user_namespace v) (e_tag e =? MD_ACL_GROUP) (e_id e) =? UINT32_MAX)) es
          then (es, - EINVAL)
          else (qsort (map_entry w v into <$> es), 0)
      end
  end.

(** ** File modes *)

Definition mode_step (mode : Z) (e : md_acl_entry) : Z :=
  if e_tag e =? MD_ACL_USER_OBJ then Z.lor mode (Z.shiftl (e_permissions e) 6)
  else if e_tag e =? MD_ACL_GROUP_OBJ then Z.lor mode (Z.shiftl (e_permissions e) 3)
  else if e_tag e =? MD_ACL_MASK then Z.lor (Z.ldiff mode 56) (Z.shiftl (e_permissions e) 3)
  else if e_tag e =? MD_ACL_OTHER then Z.lor mode (e_permissions e)
  else mode.
Definition md_acl_mode (es : list md_acl_entry) (mode : Z) : Z := foldl mode_step (Z.ldiff mode 511) es.

Definition chmod_entry (mask : bool) (mode : Z) (inherit : bool) (e : md_acl_entry) : md_acl_entry :=
  let put bits := set_permissions e (if inherit then Z.land (e_permissions e) bits else bits) in
  if e_tag e =? MD_ACL_USER_OBJ then put (Z.land (Z.shiftr mode 6) 7)
  else if (e_tag e =? MD_ACL_MASK) || ((e_tag e =? MD_ACL_GROUP_OBJ) && negb mask)
  then put (Z.land (Z.shiftr mode 3) 7)
  else if e_tag e =? MD_ACL_OTHER then put (Z.land mode 7)
  else e.
Definition has_tag (tag : Z) (es : list md_acl_entry) : bool := existsb (λ e, e_tag e =? tag) es.
Definition md_acl_chmod (es : list md_acl_entry) (mode : Z) (inherit : bool) : list md_acl_entry :=
  chmod_entry (has_tag MD_ACL_MASK es) mode inherit <$> es.

(** ** The access decision *)

Definition grants (permissions requested : Z) : bool := Z.land permissions requested =? requested.
Definition verdict (b : bool) : Z := if b then 0 else - EACCES.

(** The last MASK entry wins; without one everything passes. *)
Definition acl_mask (es : list md_acl_entry) : Z :=
  foldl (λ m e, if e_tag e =? MD_ACL_MASK then e_permissions e else m) 7 es.

Fixpoint permission_loop (h : cred_heap) (ids : md_identity) (owner group requested mask : Z)
    (es : list md_acl_entry) (group_seen group_allowed : bool) (other : Z) : Z :=
  match es with
  | [] => if group_seen then verdict group_allowed else verdict (grants other requested)
  | e :: es =>
      if (e_tag e =? MD_ACL_USER_OBJ) && (id_fs (i_uid ids) =? owner) then verdict (grants (e_permissions e) requested)
      else if (e_tag e =? MD_ACL_USER) && (id_fs (i_uid ids) =? e_id e)
      then verdict (grants (Z.land (e_permissions e) mask) requested)
      else
        let hit := ((e_tag e =? MD_ACL_GROUP_OBJ) && md_identity_in_group h ids group)
                   || ((e_tag e =? MD_ACL_GROUP) && md_identity_in_group h ids (e_id e)) in
        permission_loop h ids owner group requested mask es (group_seen || hit)
          (group_allowed || (hit && grants (Z.land (e_permissions e) mask) requested))
          (if e_tag e =? MD_ACL_OTHER then e_permissions e else other)
  end.
Definition md_acl_permission (h : cred_heap) (es : list md_acl_entry) (ids : md_identity)
    (owner group requested : Z) : Z :=
  permission_loop h ids owner group requested (acl_mask es) es false false 0.

(** ** What a valid list is *)

Definition acl_tags : list Z :=
  [MD_ACL_USER_OBJ; MD_ACL_USER; MD_ACL_GROUP_OBJ; MD_ACL_GROUP; MD_ACL_MASK; MD_ACL_OTHER].

(** The fields as the attribute stores them: two 16-bit ones and a 32-bit one. *)
Definition entry_wide (e : md_acl_entry) : Prop :=
  0 ≤ e_tag e < 65536 ∧ 0 ≤ e_permissions e < 65536 ∧ 0 ≤ e_id e ≤ UINT32_MAX.

Record entry_ok (e : md_acl_entry) : Prop := {
  eo_tag : e_tag e ∈ acl_tags;
  eo_permissions : 0 ≤ e_permissions e ≤ 7;
  eo_id : if named_tag (e_tag e) then 0 ≤ e_id e < UINT32_MAX else e_id e = UINT32_MAX }.

(** The sort key: tag, then ID. *)
Definition key (e : md_acl_entry) : Z := e_tag e * 4294967296 + e_id e.
Definition key_lt (a b : md_acl_entry) : Prop := key a < key b.

(** Reference: strictly increasing keys (so each of the unnamed kinds occurs at
    most once and no user or group twice), the three mandatory entries, and a
    mask as soon as a user or group is named. *)
Record acl_ok (es : list md_acl_entry) : Prop := {
  ao_sorted : StronglySorted key_lt es;
  ao_entries : Forall entry_ok es;
  ao_user : has_tag MD_ACL_USER_OBJ es = true;
  ao_group : has_tag MD_ACL_GROUP_OBJ es = true;
  ao_other : has_tag MD_ACL_OTHER es = true;
  ao_mask : existsb (λ e, named_tag (e_tag e)) es = true → has_tag MD_ACL_MASK es = true }.

(** The key of the last entry accepted in a state of the loop. *)
Definition last_key (s : phase_state) : Z :=
  if ph_phase s =? 0 then 0
  else if ph_phase s =? 1 then MD_ACL_USER_OBJ * 4294967296 + UINT32_MAX
  else if ph_phase s =? 2 then MD_ACL_USER * 4294967296 + ph_previous s
  else if ph_phase s =? 3 then MD_ACL_GROUP_OBJ * 4294967296 + UINT32_MAX
  else if ph_phase s =? 4 then MD_ACL_GROUP * 4294967296 + ph_previous s
  else if ph_phase s =? 5 then MD_ACL_MASK * 4294967296 + UINT32_MAX
  else MD_ACL_OTHER * 4294967296 + UINT32_MAX.
Definition state_ok (s : phase_state) : Prop :=
  0 ≤ ph_phase s ≤ 6 ∧ 0 ≤ ph_previous s < UINT32_MAX.

Ltac acl_lia :=
  unfold last_key, key, state_ok, entry_wide, named_tag, MD_ACL_USER_OBJ, MD_ACL_USER, MD_ACL_GROUP_OBJ,
    MD_ACL_GROUP, MD_ACL_MASK, MD_ACL_OTHER, UINT32_MAX in *; cbn in *; lia.

Lemma entry_ok_cases e :
  entry_ok e → e_tag e = 1 ∨ e_tag e = 2 ∨ e_tag e = 4 ∨ e_tag e = 8 ∨ e_tag e = 16 ∨ e_tag e = 32.
Proof. intros [H _ _]. unfold acl_tags in H. repeat rewrite elem_of_cons in H. rewrite elem_of_nil in H. acl_lia. Qed.

Lemma entry_ok_key e : entry_ok e → e_tag e * 4294967296 ≤ key e ≤ e_tag e * 4294967296 + UINT32_MAX ∧ 0 < key e.
Proof.
  intros H. destruct (entry_ok_cases e H) as [E|[E|[E|[E|[E|E]]]]]; destruct H as [_ _ Hi]; rewrite E in Hi;
    cbn in Hi; unfold key; rewrite E; acl_lia.
Qed.

(** One accepted entry: what the loop checked and what it remembers. *)
Record step_ok (s : phase_state) (e : md_acl_entry) (s' : phase_state) : Prop := {
  sk_entry : entry_ok e;
  sk_above : last_key s < key e;
  sk_last : last_key s' = key e;
  sk_state : state_ok s';
  sk_open : ph_phase s < 6 ∧ 1 ≤ ph_phase s';
  sk_first : ph_phase s < 1 → e_tag e = MD_ACL_USER_OBJ;
  sk_group : ph_phase s < 3 → ph_phase s' < 3 ∨ e_tag e = MD_ACL_GROUP_OBJ;
  sk_group_done : 3 ≤ ph_phase s ∨ e_tag e = MD_ACL_GROUP_OBJ → 3 ≤ ph_phase s';
  sk_other : e_tag e = MD_ACL_OTHER ↔ ph_phase s' = 6;
  sk_named : ph_named s' = ph_named s || named_tag (e_tag e);
  sk_mask : ph_mask s' = ph_mask s || (e_tag e =? MD_ACL_MASK);
  sk_masked : e_tag e = MD_ACL_OTHER → ph_named s = true → ph_mask s = true }.

Lemma phase_cases (phase : Z) : 0 ≤ phase ≤ 6 →
  phase = 0 ∨ phase = 1 ∨ phase = 2 ∨ phase = 3 ∨ phase = 4 ∨ phase = 5 ∨ phase = 6.
Proof. lia. Qed.

Ltac step_done :=
  split; cbn; rewrite ?orb_true_r, ?orb_false_r; try done; try acl_lia;
  split; cbn; first [acl_lia | unfold acl_tags; set_solver].

Lemma valid_step_sound s e s' :
  entry_wide e → state_ok s → valid_step s e = Some s' → step_ok s e s'.
Proof.
  destruct s as [phase named mask previous], e as [tag perm id]. intros (Ht&Hp&Hi) [Hph Hprev].
  unfold valid_step. cbn [e_tag e_permissions e_id ph_phase ph_previous] in *.
  destruct (Z.ltb_spec 7 perm) as [|Hp7]; [done|].
  destruct (negb (named_tag tag) && negb (id =? UINT32_MAX)) eqn:Hid; [done|].
  assert (id = UINT32_MAX ∨ named_tag tag = true) as Hid'.
  { destruct (named_tag tag); [by right|]. left. cbn in Hid. by breflect. }
  clear Hid. apply phase_cases in Hph. intros H.
  destruct (Z.eqb_spec tag MD_ACL_USER_OBJ) as [->|_].
  { destruct Hid' as [->|]; [|done].
    destruct Hph as [->|[->|[->|[->|[->|[->| ->]]]]]]; try done; injection H as <-; step_done. }
  destruct (Z.eqb_spec tag MD_ACL_USER) as [->|_].
  { destruct (Z.eqb_spec id UINT32_MAX) as [->|Hne]; [by rewrite orb_true_r in H|].
    destruct (Z.leb_spec id previous); destruct Hph as [->|[->|[->|[->|[->|[->| ->]]]]]]; try done;
      injection H as <-; step_done. }
  destruct (Z.eqb_spec tag MD_ACL_GROUP_OBJ) as [->|_].
  { destruct Hid' as [->|]; [|done].
    destruct Hph as [->|[->|[->|[->|[->|[->| ->]]]]]]; try done; injection H as <-; step_done. }
  destruct (Z.eqb_spec tag MD_ACL_GROUP) as [->|_].
  { destruct (Z.eqb_spec id UINT32_MAX) as [->|Hne]; [by rewrite orb_true_r in H|].
    destruct (Z.leb_spec id previous); destruct Hph as [->|[->|[->|[->|[->|[->| ->]]]]]]; try done;
      injection H as <-; step_done. }
  destruct (Z.eqb_spec tag MD_ACL_MASK) as [->|_].
  { destruct Hid' as [->|]; [|done].
    destruct Hph as [->|[->|[->|[->|[->|[->| ->]]]]]]; try done; injection H as <-; step_done. }
  destruct (Z.eqb_spec tag MD_ACL_OTHER) as [->|_]; [|done].
  destruct Hid' as [->|]; [|done].
  destruct Hph as [->|[->|[->|[->|[->|[->| ->]]]]]]; try done; destruct named, mask; try done;
    injection H as <-; step_done.
Qed.

(** Conversely an entry that fits the reference is accepted. *)
Lemma valid_step_complete s e :
  state_ok s → entry_ok e → last_key s < key e →
  (ph_phase s < 1 → e_tag e ≤ MD_ACL_USER_OBJ) → (ph_phase s < 3 → e_tag e ≤ MD_ACL_GROUP_OBJ) →
  (e_tag e = MD_ACL_OTHER → ph_named s = true → ph_mask s = true) →
  is_Some (valid_step s e).
Proof.
  intros [Hph Hprev] He Hlast H1 H3 Hm. pose proof (entry_ok_cases e He) as Ht. pose proof (entry_ok_key e He) as Hk.
  destruct He as [_ Hp Hi]. destruct s as [phase named mask previous], e as [tag perm id].
  unfold valid_step. cbn [e_tag e_permissions e_id ph_phase ph_previous ph_named ph_mask] in *.
  apply phase_cases in Hph. destruct (Z.ltb_spec 7 perm); [lia|].
  unfold named_tag in *.
  destruct Ht as [->|[->|[->|[->|[->| ->]]]]]; cbn in Hi;
    destruct Hph as [->|[->|[->|[->|[->|[->| ->]]]]]]; try acl_lia; cbn;
    destruct (Z.eqb_spec id UINT32_MAX) as [Eid|Eid]; try (exfalso; lia); cbn; try (by eauto).
  1, 2: destruct (Z.leb_spec id previous); [acl_lia|by eauto].
  all: destruct named, mask; try (by eauto); by specialize (Hm eq_refl eq_refl).
Qed.

(** ** The loop accepts exactly the reference lists *)

Lemma has_tag_cons t e es : has_tag t (e :: es) = (e_tag e =? t) || has_tag t es.
Proof. done. Qed.
Lemma has_tag_above t e es :
  entry_ok e → Forall entry_ok es → Forall (key_lt e) es → has_tag t es = true → e_tag e ≤ t.
Proof.
  intros He Hes Hlt (x&Hx&Ht)%existsb_exists. apply Z.eqb_eq in Ht as <-.
  rewrite Forall_forall in Hes, Hlt. rewrite <- list_elem_of_In in Hx.
  specialize (Hes x Hx). specialize (Hlt x Hx). unfold key_lt in Hlt.
  destruct (entry_ok_key e He), (entry_ok_key x Hes). unfold UINT32_MAX in *. lia.
Qed.

(** What the rest of the list must look like in a state of the loop. *)
Record rest_ok (s : phase_state) (es : list md_acl_entry) : Prop := {
  ro_sorted : StronglySorted key_lt es;
  ro_entries : Forall entry_ok es;
  ro_above : Forall (λ e, last_key s < key e) es;
  ro_user : ph_phase s < 1 → has_tag MD_ACL_USER_OBJ es = true;
  ro_group : ph_phase s < 3 → has_tag MD_ACL_GROUP_OBJ es = true;
  ro_other : ph_phase s < 6 → has_tag MD_ACL_OTHER es = true;
  ro_mask : ph_phase s < 6 → ph_named s || existsb (λ e, named_tag (e_tag e)) es = true →
    ph_mask s || has_tag MD_ACL_MASK es = true }.

Lemma rest_ok_cons s e s' es :
  step_ok s e s' → rest_ok s' es → rest_ok s (e :: es).
Proof.
  intros [He Ha Hl Hs [Ho Ho'] Hf Hg Hgd Hot Hn Hm Hmm] [Rs Re Ra Ru Rg Ro Rm].
  assert (Forall (key_lt e) es) as Hlt.
  { eapply Forall_impl; [exact Ra|]. intros x. cbn. by rewrite Hl. }
  split.
  - by constructor.
  - by constructor.
  - constructor; [done|]. eapply Forall_impl; [exact Hlt|]. unfold key_lt. cbn. lia.
  - intros H. rewrite has_tag_cons, Hf by done. done.
  - intros H. rewrite has_tag_cons. destruct (Hg H) as [H'|H']; [rewrite Rg by done; apply orb_true_r|by rewrite H'].
  - intros _. rewrite has_tag_cons. destruct (Z.eqb_spec (e_tag e) MD_ACL_OTHER) as [|Hne]; [done|].
    apply Ro. destruct Hs as [Hs _]. assert (ph_phase s' ≠ 6) by (by intros ?%Hot). lia.
  - intros _. cbn [existsb]. rewrite has_tag_cons, orb_assoc, <- Hn, orb_assoc, <- Hm. intros Hx.
    destruct (decide (ph_phase s' < 6)) as [H6|H6]; [by apply Rm|].
    assert (ph_phase s' = 6) as H6' by (destruct Hs; lia). apply Hot in H6' as Hother.
    rewrite Hm. destruct es as [|x es].
    + cbn in Hx. rewrite orb_false_r, Hn, Hother in Hx. cbn in Hx. rewrite orb_false_r in Hx.
      by rewrite (Hmm Hother Hx).
    + apply Forall_cons in Hlt as [Hx' _], Re as [Ex _]. unfold key_lt in Hx'.
      assert (key e = 32 * 4294967296 + UINT32_MAX) by (rewrite <- Hl; unfold last_key; by rewrite H6').
      pose proof (entry_ok_cases x Ex). destruct (entry_ok_key x Ex). lia.
Qed.

Lemma rest_ok_uncons s e es :
  state_ok s → rest_ok s (e :: es) → ∃ s', valid_step s e = Some s' ∧ (step_ok s e s' → rest_ok s' es).
Proof.
  intros Hs [Rs Re Ra Ru Rg Ro Rm]. apply Forall_cons in Re as [He Hes], Ra as [Hae Hae'].
  inversion Rs as [|? ? Rs' Hlt]; subst.
  assert (∀ t, has_tag t (e :: es) = true → e_tag e ≤ t) as Hmin.
  { intros t. rewrite has_tag_cons. intros [H%Z.eqb_eq|H]%orb_true_iff; [lia|]. by eapply has_tag_above. }
  destruct (valid_step_complete s e) as [s' Hstep]; auto.
  { intros Hot Hn. assert (ph_phase s < 6) as H6.
    { pose proof (entry_ok_key e He). destruct s as [ph ? ? ?]. destruct Hs as [Hs _]. cbn in *.
      apply phase_cases in Hs. destruct Hs as [->|[->|[->|[->|[->|[->| ->]]]]]]; acl_lia. }
    specialize (Rm H6). rewrite Hn in Rm. specialize (Rm eq_refl).
    apply orb_true_iff in Rm as [|Hmk]; [done|]. apply Hmin in Hmk. acl_lia. }
  exists s'. split; [done|]. intros [_ _ Hl Hs' [Ho Ho'] Hf Hg Hgd Hot Hn Hm Hmm]. split; try done.
  - by rewrite Hl.
  - intros. lia.
  - intros H3. destruct (decide (ph_phase s < 3)) as [H|H]; [|specialize (Hgd ltac:(left; lia)); lia].
    specialize (Rg H). rewrite has_tag_cons in Rg. apply orb_true_iff in Rg as [Ht%Z.eqb_eq|]; [|done].
    specialize (Hgd (or_intror Ht)). lia.
  - intros H6. specialize (Ro Ho). rewrite has_tag_cons in Ro.
    apply orb_true_iff in Ro as [Ht%Z.eqb_eq|]; [|done]. apply Hot in Ht. lia.
  - intros H6. rewrite Hn, <- orb_assoc. intros H. specialize (Rm Ho H).
    rewrite has_tag_cons, orb_assoc, <- Hm in Rm. done.
Qed.

Lemma valid_loop_iff s es :
  state_ok s → Forall entry_wide es → valid_loop s es = true ↔ rest_ok s es.
Proof.
  intros Hs Hw. revert s Hs; induction Hw as [|e es He Hw IH]; intros s Hs; cbn [valid_loop].
  - rewrite Z.eqb_eq. split.
    + intros H. split; try constructor; intros; lia.
    + intros [_ _ _ _ _ Ho _]. destruct Hs as [Hs _].
      destruct (decide (ph_phase s < 6)) as [H|]; [by specialize (Ho H)|lia].
  - split.
    + destruct (valid_step s e) as [s'|] eqn:Hst; [|done].
      pose proof (valid_step_sound _ _ _ He Hs Hst) as Hok. rewrite IH by apply Hok. by apply rest_ok_cons.
    + intros Hr. destruct (rest_ok_uncons _ _ _ Hs Hr) as (s'&Hst&Hr'). rewrite Hst.
      pose proof (valid_step_sound _ _ _ He Hs Hst) as Hok. apply IH; [apply Hok|by apply Hr'].
Qed.

Lemma entries_valid_iff es : Forall entry_wide es → entries_valid es = true ↔ acl_ok es.
Proof.
  intros Hw. unfold entries_valid. rewrite valid_loop_iff; [|done|done]. split.
  - intros [Rs Re _ Ru Rg Ro Rm]. cbn in *. split; auto with lia.
  - intros [As Ae Au Ag Ao Am]. split; auto.
    eapply Forall_impl; [exact Ae|]. intros e He. destruct (entry_ok_key e He). cbn. lia.
Qed.

(** ** The shape of a valid list *)

Definition tagged (t : Z) (e : md_acl_entry) : Prop := e_tag e = t.

Record acl_shape (es : list md_acl_entry) (uo : md_acl_entry) (us : list md_acl_entry)
    (go : md_acl_entry) (gs mk : list md_acl_entry) (ot : md_acl_entry) : Prop := {
  as_list : es = uo :: us ++ go :: gs ++ mk ++ [ot];
  as_user_obj : tagged MD_ACL_USER_OBJ uo;
  as_users : Forall (tagged MD_ACL_USER) us;
  as_group_obj : tagged MD_ACL_GROUP_OBJ go;
  as_groups : Forall (tagged MD_ACL_GROUP) gs;
  as_mask : Forall (tagged MD_ACL_MASK) mk ∧ (length mk ≤ 1)%nat;
  as_other : tagged MD_ACL_OTHER ot }.

Lemma valid_step_next s e s' : valid_step s e = Some s' →
  (ph_phase s = 0 ∧ e_tag e = MD_ACL_USER_OBJ ∧ ph_phase s' = 1)
  ∨ (1 ≤ ph_phase s ≤ 2 ∧ e_tag e = MD_ACL_USER ∧ ph_phase s' = 2)
  ∨ (1 ≤ ph_phase s ≤ 2 ∧ e_tag e = MD_ACL_GROUP_OBJ ∧ ph_phase s' = 3)
  ∨ (3 ≤ ph_phase s ≤ 4 ∧ e_tag e = MD_ACL_GROUP ∧ ph_phase s' = 4)
  ∨ (3 ≤ ph_phase s ≤ 4 ∧ e_tag e = MD_ACL_MASK ∧ ph_phase s' = 5)
  ∨ (3 ≤ ph_phase s ≤ 5 ∧ e_tag e = MD_ACL_OTHER ∧ ph_phase s' = 6).
Proof.
  destruct s as [phase named mask previous]. unfold valid_step. case_if; [done|]. case_if; [done|].
  destruct (Z.eqb_spec (e_tag e) MD_ACL_USER_OBJ) as [->|_].
  { destruct (Z.eqb_spec phase 0); [|done]. intros [= <-]. cbn. by left. }
  destruct (Z.eqb_spec (e_tag e) MD_ACL_USER) as [->|_].
  { destruct (Z.eqb_spec phase 1), (Z.eqb_spec phase 2); try done; cbn; case_if; try done; intros [= <-]; cbn; lia. }
  destruct (Z.eqb_spec (e_tag e) MD_ACL_GROUP_OBJ) as [->|_].
  { destruct (Z.eqb_spec phase 1), (Z.eqb_spec phase 2); try done; intros [= <-]; cbn; lia. }
  destruct (Z.eqb_spec (e_tag e) MD_ACL_GROUP) as [->|_].
  { destruct (Z.eqb_spec phase 3), (Z.eqb_spec phase 4); try done; cbn; case_if; try done; intros [= <-]; cbn; lia. }
  destruct (Z.eqb_spec (e_tag e) MD_ACL_MASK) as [->|_].
  { destruct (Z.eqb_spec phase 3), (Z.eqb_spec phase 4); try done; intros [= <-]; cbn; lia. }
  destruct (Z.eqb_spec (e_tag e) MD_ACL_OTHER) as [->|_]; [|done].
  case_if; [done|]. breflect. intros [= <-]. cbn. lia.
Qed.

Lemma phase_6_empty s es : ph_phase s = 6 → valid_loop s es = true → es = [].
Proof.
  intros Hs. destruct es as [|e es]; [done|]. cbn. destruct (valid_step s e) as [s'|] eqn:Hst; [|done].
  apply valid_step_next in Hst. lia.
Qed.
Lemma phase_5_other s es : ph_phase s = 5 → valid_loop s es = true → ∃ ot, es = [ot] ∧ tagged MD_ACL_OTHER ot.
Proof.
  intros Hs. destruct es as [|e es]; cbn; [rewrite Hs; done|].
  destruct (valid_step s e) as [s'|] eqn:Hst; [|done]. apply valid_step_next in Hst. intros Hl.
  exists e. rewrite (phase_6_empty s' es); [|lia|done]. split; [done|]. unfold tagged. lia.
Qed.
Lemma phase_3_groups s es :
  3 ≤ ph_phase s ≤ 4 → valid_loop s es = true →
  ∃ gs mk ot, es = gs ++ mk ++ [ot] ∧ Forall (tagged MD_ACL_GROUP) gs
    ∧ (Forall (tagged MD_ACL_MASK) mk ∧ (length mk ≤ 1)%nat) ∧ tagged MD_ACL_OTHER ot.
Proof.
  revert s; induction es as [|e es IH]; intros s Hs; cbn; [rewrite Z.eqb_eq; lia|].
  destruct (valid_step s e) as [s'|] eqn:Hst; [|done]. apply valid_step_next in Hst. intros Hl.
  destruct Hst as [|[|[|[(_&Ht&Hp)|[(_&Ht&Hp)|(_&Ht&Hp)]]]]]; try lia.
  - destruct (IH s') as (gs&mk&ot&->&Hgs&Hmk&Hot); [lia|done|]. exists (e :: gs), mk, ot.
    split_and!; try done; try apply Hmk. by constructor.
  - destruct (phase_5_other s' es) as (ot&->&Hot); [lia|done|]. exists [], [e], ot.
    split_and!; try done. by repeat constructor.
  - rewrite (phase_6_empty s' es) by (lia || done). exists [], [], e.
    split_and!; done || (cbn; lia).
Qed.
Lemma phase_1_users s es :
  1 ≤ ph_phase s ≤ 2 → valid_loop s es = true →
  ∃ us go rest s', es = us ++ go :: rest ∧ Forall (tagged MD_ACL_USER) us ∧ tagged MD_ACL_GROUP_OBJ go
    ∧ ph_phase s' = 3 ∧ valid_loop s' rest = true.
Proof.
  revert s; induction es as [|e es IH]; intros s Hs; cbn; [rewrite Z.eqb_eq; lia|].
  destruct (valid_step s e) as [s'|] eqn:Hst; [|done]. apply valid_step_next in Hst. intros Hl.
  destruct Hst as [|[(_&Ht&Hp)|[(_&Ht&Hp)|]]]; try lia.
  - destruct (IH s') as (us&go&rest&s2&->&Hus&?&?&?); [lia|done|]. exists (e :: us), go, rest, s2.
    split_and!; try done. by constructor.
  - exists [], e, es, s'. split_and!; done.
Qed.

Lemma acl_ok_shape es : acl_ok es → ∃ uo us go gs mk ot, acl_shape es uo us go gs mk ot.
Proof.
  intros Hok. assert (Forall entry_wide es) as Hw.
  { eapply Forall_impl; [apply Hok|]. intros e He. pose proof (entry_ok_cases e He). destruct He as [_ Hp Hi].
    unfold entry_wide. destruct (named_tag _); acl_lia. }
  apply entries_valid_iff in Hok; [|done]. unfold entries_valid in Hok.
  destruct es as [|uo es]; [done|]. cbn [valid_loop] in Hok.
  destruct (valid_step _ uo) as [s1|] eqn:Hst; [|done]. apply valid_step_next in Hst. cbn in Hst.
  destruct Hst as [(_&Ht&Hp)|Hst]; [|lia].
  destruct (phase_1_users s1 es) as (us&go&rest&s2&->&Hus&Hgo&Hp2&Hl2); [lia|done|].
  destruct (phase_3_groups s2 rest) as (gs&mk&ot&->&Hgs&Hmk&Hot); [lia|done|].
  exists uo, us, go, gs, mk, ot. by split.
Qed.

(** ** Keys and sorting *)

Lemma entry_le_key a b : entry_ok a → entry_ok b → entry_le a b ↔ key a ≤ key b.
Proof.
  intros Ha Hb. destruct (entry_ok_key a Ha), (entry_ok_key b Hb). unfold entry_le, entry_order.
  destruct (Z.eqb_spec (e_tag a) (e_tag b)) as [E|E]; cbn [negb].
  - destruct (compare_u32_spec (e_id a) (e_id b)) as (_&H3&H4). unfold key in *. rewrite E in *.
    split; intros H5; [destruct (decide (e_id b < e_id a)); [|lia]|destruct (decide (0 < compare_u32 (e_id a) (e_id b)))]; lia.
  - unfold UINT32_MAX in *. destruct (Z.ltb_spec (e_tag b) (e_tag a)); lia.
Qed.

Lemma key_fields a b : entry_ok a → entry_ok b → key a = key b → e_tag a = e_tag b ∧ e_id a = e_id b.
Proof.
  intros Ha Hb. destruct (entry_ok_key a Ha), (entry_ok_key b Hb). unfold key, UINT32_MAX in *. lia.
Qed.

Lemma key_injective es a b :
  StronglySorted key_lt es → a ∈ es → b ∈ es → key a = key b → a = b.
Proof.
  intros Hs Ha Hb Hk. apply list_elem_of_lookup in Ha as [i Hi], Hb as [j Hj].
  destruct (decide (i = j)) as [->|Hij]; [congruence|]. exfalso.
  destruct (decide (i < j)%nat).
  - pose proof (sorted_lookup _ _ _ _ _ _ Hs Hi Hj) as H. unfold key_lt in H. lia.
  - pose proof (sorted_lookup _ _ _ _ _ _ Hs Hj Hi) as H. unfold key_lt in H. lia.
Qed.

Lemma sorted_strict es :
  StronglySorted entry_le es → Forall entry_ok es → NoDup (key <$> es) → StronglySorted key_lt es.
Proof.
  intros Hs. induction Hs as [|e es Hs IH Hf]; intros Hok Hnd; [constructor|].
  apply Forall_cons in Hok as [He Hok]. cbn in Hnd. apply NoDup_cons in Hnd as [Hn Hnd].
  constructor; [by apply IH|]. rewrite Forall_forall in *. intros x Hx. unfold key_lt.
  pose proof (Hf x Hx) as H. apply entry_le_key in H; [|done|by apply Hok].
  enough (key e ≠ key x) by lia. intros Hk. apply Hn. rewrite Hk. by apply list_elem_of_fmap_2.
Qed.

Lemma sorted_key_nodup es : StronglySorted key_lt es → NoDup (key <$> es).
Proof.
  induction 1 as [|e es Hs IH Hf]; cbn; [constructor|]. constructor; [|done].
  rewrite list_elem_of_fmap. intros (x&Hk&Hx). rewrite Forall_forall in Hf. specialize (Hf x Hx).
  unfold key_lt in Hf. lia.
Qed.

Lemma sort_unique l es :
  StronglySorted entry_le l → StronglySorted key_lt es → Forall entry_ok es → l ≡ₚ es → l = es.
Proof.
  intros Hl Hes Hok Hp. rewrite Forall_forall in Hok. apply (StronglySorted_unique_strong entry_le); try done.
  - intros x y Hx Hy Hxy Hyx. rewrite Hp in Hx. apply entry_le_key in Hxy, Hyx; auto.
    eapply key_injective; [exact Hes|done|done|lia].
  - assert (Forall entry_ok es) as Hok' by by apply Forall_forall. clear Hl Hp Hok l.
    induction Hes as [|e es Hs IH Hf]; constructor; apply Forall_cons in Hok' as [He Hok']; auto.
    rewrite Forall_forall in *. intros x Hx. apply entry_le_key; auto. specialize (Hf x Hx). unfold key_lt in Hf. lia.
Qed.

Lemma entry_le_lex a b : entry_le a b ↔ e_tag a < e_tag b ∨ (e_tag a = e_tag b ∧ e_id a ≤ e_id b).
Proof.
  unfold entry_le, entry_order. destruct (Z.eqb_spec (e_tag a) (e_tag b)) as [E|E]; cbn [negb].
  - destruct (compare_u32_spec (e_id a) (e_id b)) as (_&_&H).
    destruct (decide (e_id b < e_id a)) as [Hlt|]; [apply H in Hlt; lia|].
    destruct (decide (0 < compare_u32 (e_id a) (e_id b))) as [Hc|]; [apply H in Hc|]; lia.
  - destruct (Z.ltb_spec (e_tag b) (e_tag a)); lia.
Qed.
#[export] Instance entry_le_trans : Transitive entry_le.
Proof. intros a b c. rewrite !entry_le_lex. lia. Qed.
#[export] Instance entry_le_total : Total entry_le.
Proof. intros a b. rewrite !entry_le_lex. lia. Qed.
#[export] Instance merge_entries : EntrySort (merge_sort entry_le).
Proof.
  split; intros es; [apply merge_sort_Permutation|]. apply (StronglySorted_merge_sort entry_le).
Qed.

(** ** Translated lists *)

Section translated.
Context (w : world) (v : md_identity) (es : list md_acl_entry).
Context {Hids : IdBijection (md_user_namespace_into w (i_user_namespace v))
                  (md_user_namespace_from w (i_user_namespace v))}.
Context (Hok : acl_ok es).
Context (Hmapped : ∀ e, e ∈ es → named_tag (e_tag e) = true →
  md_user_namespace_into w (i_user_namespace v) (e_tag e =? MD_ACL_GROUP) (e_id e) ≠ UINT32_MAX).

Lemma map_entry_tag into e : e_tag (map_entry w v into e) = e_tag e.
Proof. unfold map_entry. by case_if. Qed.

Lemma map_entry_ok e : e ∈ es → entry_ok (map_entry w v true e).
Proof using Hids Hok Hmapped.
  intros He. pose proof (ao_entries _ Hok) as Hall. rewrite Forall_forall in Hall.
  pose proof (Hall e He) as [Ht Hp Hi]. unfold map_entry. destruct (named_tag (e_tag e)) eqn:Hn; cbn [negb].
  - split; cbn; try done. rewrite Hn. pose proof (Hmapped e He Hn).
    pose proof (idb_range (e_tag e =? MD_ACL_GROUP) (e_id e) Hi). lia.
  - split; try done. by rewrite Hn.
Qed.

Lemma map_entry_back e : e ∈ es → map_entry w v false (map_entry w v true e) = e.
Proof using Hids Hok Hmapped.
  intros He. pose proof (ao_entries _ Hok) as Hall. rewrite Forall_forall in Hall.
  pose proof (Hall e He) as [_ _ Hi]. unfold map_entry at 1. rewrite map_entry_tag. unfold map_entry.
  destruct (named_tag (e_tag e)) eqn:Hn; cbn [negb]; [|done].
  destruct e as [tag perm id]. cbn in *. unfold set_id, md_identity_visible_id. cbn.
  rewrite (idb_back _ id Hi) by (by apply (Hmapped (mk_entry tag perm id))).
  destruct (Z.eqb_spec id UINT32_MAX); [lia|done].
Qed.

Lemma map_entry_key a b : a ∈ es → b ∈ es → key (map_entry w v true a) = key (map_entry w v true b) → a = b.
Proof using Hids Hok Hmapped.
  intros Ha Hb Hk. rewrite <- (map_entry_back a Ha), <- (map_entry_back b Hb).
  apply key_fields in Hk as [Ht Hi]; [|by apply map_entry_ok..]. rewrite !map_entry_tag in Ht.
  eapply (key_injective (map_entry w v false <$> (map_entry w v true <$> es))).
  - rewrite <- list_fmap_compose. replace (compose _ _ <$> es) with es; [apply Hok|].
    symmetry. rewrite <- (list_fmap_id es) at 2. apply list_fmap_ext. intros i x Hx.
    apply map_entry_back. by eapply list_elem_of_lookup_2.
  - by do 2 apply list_elem_of_fmap_2.
  - by do 2 apply list_elem_of_fmap_2.
  - unfold key. rewrite !map_entry_tag, Ht. f_equal. unfold map_entry at 1 3. rewrite !map_entry_tag, Ht.
    destruct (named_tag (e_tag b)); cbn [negb]; [cbn; by rewrite Hi|done].
Qed.

Lemma map_entries_ok (qsort : list md_acl_entry → list md_acl_entry) `{!EntrySort qsort} :
  acl_ok (qsort (map_entry w v true <$> es)).
Proof using Hids Hok Hmapped.
  assert (∀ (f : Z → bool), existsb (λ e, f (e_tag e)) (qsort (map_entry w v true <$> es))
    = existsb (λ e, f (e_tag e)) es) as Htags.
  { intros f. transitivity (existsb (λ e, f (e_tag e)) (map_entry w v true <$> es)).
    - apply eq_true_iff_eq. rewrite !existsb_exists. setoid_rewrite <- list_elem_of_In.
      by setoid_rewrite (entry_sort_perm (map_entry w v true <$> es)).
    - clear Hok Hmapped. induction es as [|e es' IH]; cbn; [done|]. by rewrite map_entry_tag, IH. }
  assert (Forall entry_ok (qsort (map_entry w v true <$> es))) as Hall.
  { rewrite entry_sort_perm. apply Forall_fmap, Forall_forall. intros e He. by apply map_entry_ok. }
  pose proof (λ t, Htags (λ x, x =? t)) as Htag. pose proof (Htags named_tag) as Hnamed. cbn beta in Htag.
  destruct Hok as [Hs He Hu Hg Ho Hm]. split; unfold has_tag in *; rewrite ?Htag, ?Hnamed; try done.
  apply sorted_strict; [apply entry_sort_sorted|done|]. rewrite entry_sort_perm.
  rewrite <- list_fmap_compose. apply NoDup_fmap_2_strong; [|by eapply NoDup_fmap_1, sorted_key_nodup].
  intros a b Ha Hb. cbn. by apply map_entry_key.
Qed.
End translated.

(** ** Properties *)

Definition is_byte (b : Z) : Prop := 0 ≤ b < 256.

Lemma half_wide p i : Forall is_byte p → 0 ≤ half_at p i < 65536.
Proof.
  intros Hp. assert (∀ j, 0 ≤ byte_at p j < 256) as Hb.
  { intros j. unfold byte_at. destruct (p !! j) eqn:E; [|done]. rewrite Forall_lookup in Hp. by apply (Hp j). }
  unfold half_at. pose proof (Hb i). pose proof (Hb (i + 1)%nat). lia.
Qed.
Lemma acl_entries_wide p : Forall is_byte p → Forall entry_wide (acl_entries p).
Proof.
  intros Hp. unfold acl_entries. apply Forall_fmap, Forall_forall. intros i _. unfold entry_wide, entry_at. cbn.
  pose proof (half_wide p) as H. unfold word_at, UINT32_MAX.
  pose proof (H (4 + 8 * i)%nat Hp). pose proof (H (6 + 8 * i)%nat Hp).
  pose proof (H (8 + 8 * i)%nat Hp). pose proof (H (8 + 8 * i + 2)%nat Hp). cbn in *. lia.
Qed.

(** The single-pass validator accepts an attribute exactly when it has version 2,
    a whole number of entries, and is empty or a well-formed list: strictly
    ordered by tag and ID, permissions within rwx, the owner, group and other
    entries present once, and a mask whenever a user or group is named. *)
Theorem acl_valid_iff p :
  Forall is_byte p →
  md_acl_valid (Some p) = true ↔
  (4 ≤ Z.of_nat (length p) ≤ MD_ACL_MAX ∧ (Z.of_nat (length p) - 4) mod 8 = 0 ∧ word_at p 0 = 2
   ∧ (length p = 4%nat ∨ acl_ok (acl_entries p))).
Proof.
  intros Hp. unfold md_acl_valid. pose proof (entries_valid_iff _ (acl_entries_wide p Hp)) as Hv.
  destruct (Z.ltb_spec (Z.of_nat (length p)) 4); [cbn; split; [done|lia]|].
  destruct (Z.ltb_spec MD_ACL_MAX (Z.of_nat (length p))); [cbn; split; [done|lia]|]. cbn [orb].
  destruct (Z.eqb_spec ((Z.of_nat (length p) - 4) mod 8) 0); cbn [negb]; [|split; [done|lia]].
  destruct (Z.eqb_spec (word_at p 0) 2); cbn [negb]; [|split; [done|lia]].
  destruct (Z.eqb_spec (Z.of_nat (length p)) 4).
  - split; [|done]. intros _. split_and!; auto with lia.
  - rewrite Hv. split; [intros; split_and!; auto|]. intros (_&_&_&[|]); [lia|done].
Qed.

(** Translating a valid list into canonical IDs yields a valid list again, however
    the map reorders the IDs, and translating it back for the same task gives the
    original list entry for entry. *)
Theorem acl_map_roundtrip (qsort : list md_acl_entry → list md_acl_entry) `{!EntrySort qsort} w es v es' :
  world_ok w → acl_ok es → md_acl_map qsort w es (Some v) true = (es', 0) →
  acl_ok es' ∧ md_acl_map qsort w es' (Some v) false = (es, 0).
Proof.
  intros Hw Hok. unfold md_acl_map. destruct (i_user_namespace v) as [n|] eqn:Hn.
  2: { intros [= <-]. done. }
  rewrite <- Hn. cbn [andb]. destruct (existsb _ es) eqn:Hex; [done|]. intros [= <-].
  assert (∀ e, e ∈ es → named_tag (e_tag e) = true →
    md_user_namespace_into w (i_user_namespace v) (e_tag e =? MD_ACL_GROUP) (e_id e) ≠ UINT32_MAX) as Hmapped.
  { intros e He Hnm Hmax. apply not_true_iff_false in Hex. apply Hex, existsb_exists. exists e.
    rewrite <- list_elem_of_In. split; [done|]. by rewrite Hnm, Hmax. }
  pose proof (world_ids w (i_user_namespace v) Hw) as Hids.
  split; [by apply map_entries_ok|]. f_equal. apply sort_unique; try apply Hok; [apply entry_sort_sorted|].
  rewrite !entry_sort_perm, <- list_fmap_compose.
  replace (compose (map_entry w v false) (map_entry w v true) <$> es) with es; [done|].
  rewrite <- (list_fmap_id es) at 1. apply list_fmap_ext. intros i x Hx. symmetry.
  eapply map_entry_back; [done|exact Hok|done|]. by eapply list_elem_of_lookup_2.
Qed.

(** ** Modes *)

Lemma mode_skip t (es : list md_acl_entry) m :
  Forall (tagged t) es → named_tag t = true → foldl mode_step m es = m.
Proof.
  intros Hf Ht. induction Hf as [|e es He _ IH]; [done|]. cbn [foldl].
  replace (mode_step m e) with m; [done|]. unfold mode_step, named_tag, tagged in *.
  apply orb_true_iff in Ht as [Ht%Z.eqb_eq|Ht%Z.eqb_eq]; by rewrite He, Ht.
Qed.
Lemma chmod_skip mask mode inherit t (es : list md_acl_entry) :
  Forall (tagged t) es → named_tag t = true → chmod_entry mask mode inherit <$> es = es.
Proof.
  intros Hf Ht. rewrite <- (list_fmap_id es) at 2. apply list_fmap_ext. intros i x Hx.
  rewrite Forall_lookup in Hf. specialize (Hf i x Hx). unfold tagged, chmod_entry, named_tag in *.
  apply orb_true_iff in Ht as [Ht%Z.eqb_eq|Ht%Z.eqb_eq]; by rewrite Hf, Ht.
Qed.

Lemma testbit_low x n i : 0 ≤ x < 2 ^ n → 0 ≤ n ≤ i → Z.testbit x i = false.
Proof. intros Hx Hi. rewrite <- (Z.mod_small x (2 ^ n)) by done. apply Z.mod_pow2_bits_high. lia. Qed.

(** The permission bits of a mode, assembled from its three classes; [g] is the
    owning group's entry hidden behind a mask. *)
Lemma mode_join m mode g :
  0 ≤ g ≤ 7 →
  Z.lor (Z.lor (Z.ldiff (Z.lor (Z.lor (Z.ldiff m 511) (Z.shiftl (Z.land (Z.shiftr mode 6) 7) 6)) (Z.shiftl g 3)) 56)
    (Z.shiftl (Z.land (Z.shiftr mode 3) 7) 3)) (Z.land mode 7)
  = Z.lor (Z.ldiff m 511) (Z.land mode 511).
Proof.
  intros Hg. apply Z.bits_inj'. intros i Hi. autorewrite with testbits.
  rewrite !Z.shiftl_spec by done. autorewrite with testbits.
  destruct (decide (9 ≤ i)) as [H9|H9].
  - rewrite (testbit_low 511 9), (testbit_low 56 6), (testbit_low 7 3 (i - 6)), (testbit_low 7 3 (i - 3)),
      (testbit_low 7 3 i), (testbit_low g 3) by lia.
    by destruct (Z.testbit m i), (Z.testbit mode i), (Z.testbit (Z.shiftr mode 6) (i - 6)),
      (Z.testbit (Z.shiftr mode 3) (i - 3)).
  - assert (i = 0 ∨ i = 1 ∨ i = 2 ∨ i = 3 ∨ i = 4 ∨ i = 5 ∨ i = 6 ∨ i = 7 ∨ i = 8) as Hc by lia.
    assert (∀ k, 0 ≤ k → Z.testbit (Z.shiftr mode 6) k = Z.testbit mode (k + 6)) as H6
      by (intros; by apply Z.shiftr_spec).
    assert (∀ k, 0 ≤ k → Z.testbit (Z.shiftr mode 3) k = Z.testbit mode (k + 3)) as H3
      by (intros; by apply Z.shiftr_spec).
    destruct Hc as [->|[->|[->|[->|[->|[->|[->|[->| ->]]]]]]]];
      repeat match goal with |- context [Z.testbit ?x (?a - ?b)] =>
        let k := eval vm_compute in (a - b) in change (a - b) with k end;
      rewrite ?H6, ?H3, ?(Z.testbit_neg_r g) by lia; rewrite ?(testbit_low g 3) by lia;
      repeat match goal with |- context [Z.testbit ?x (?a + ?b)] =>
        let k := eval vm_compute in (a + b) in change (a + b) with k end;
      ground_bits; btauto.
Qed.

Lemma mode_step_cases m e :
  (tagged MD_ACL_USER_OBJ e → mode_step m e = Z.lor m (Z.shiftl (e_permissions e) 6))
  ∧ (tagged MD_ACL_GROUP_OBJ e → mode_step m e = Z.lor m (Z.shiftl (e_permissions e) 3))
  ∧ (tagged MD_ACL_MASK e → mode_step m e = Z.lor (Z.ldiff m 56) (Z.shiftl (e_permissions e) 3))
  ∧ (tagged MD_ACL_OTHER e → mode_step m e = Z.lor m (e_permissions e)).
Proof. destruct e as [t p i]. unfold tagged, mode_step. cbn. split_and!; by intros ->. Qed.

(** The mode of a list of known shape. *)
Lemma shape_mode es uo us go gs mk ot m :
  acl_shape es uo us go gs mk ot →
  md_acl_mode es m
  = Z.lor (foldl mode_step (Z.lor (Z.lor (Z.ldiff m 511) (Z.shiftl (e_permissions uo) 6))
      (Z.shiftl (e_permissions go) 3)) mk) (e_permissions ot).
Proof.
  intros [-> Huo Hus Hgo Hgs Hmk Hot]. unfold md_acl_mode. cbn [foldl].
  rewrite (proj1 (mode_step_cases _ uo)) by done. rewrite foldl_app, (mode_skip _ us) by done. cbn [foldl].
  rewrite (proj1 (proj2 (mode_step_cases _ go))) by done. rewrite !foldl_app, (mode_skip _ gs) by done. cbn [foldl].
  by rewrite (proj2 (proj2 (proj2 (mode_step_cases _ ot)))).
Qed.

Lemma shape_mask es uo us go gs mk ot :
  acl_shape es uo us go gs mk ot → has_tag MD_ACL_MASK es = negb (bool_decide (mk = [])).
Proof.
  intros [-> Huo Hus Hgo Hgs [Hmk _] Hot]. unfold tagged in Huo, Hgo, Hot.
  assert (∀ t l, Forall (tagged t) l → t ≠ MD_ACL_MASK → has_tag MD_ACL_MASK l = false) as Hno.
  { intros t l Hl Ht. apply not_true_iff_false. unfold has_tag. rewrite existsb_exists. intros (x&Hx&He).
    rewrite <- list_elem_of_In in Hx. rewrite Forall_forall in Hl. specialize (Hl x Hx). unfold tagged in Hl.
    breflect. congruence. }
  assert (∀ l1 l2, has_tag MD_ACL_MASK (l1 ++ l2) = has_tag MD_ACL_MASK l1 || has_tag MD_ACL_MASK l2) as Happ
    by (intros; apply existsb_app).
  rewrite has_tag_cons, Happ, has_tag_cons, !Happ, (has_tag_cons _ ot), Huo, Hgo, Hot.
  rewrite (Hno _ us), (Hno _ gs) by done. cbn. rewrite orb_false_r.
  destruct mk as [|k mk]; [done|]. apply Forall_cons in Hmk as [Hk _]. unfold tagged in Hk. cbn. by rewrite Hk.
Qed.

Lemma chmod_entry_cases mask mode e :
  (tagged MD_ACL_USER_OBJ e → chmod_entry mask mode false e = set_permissions e (Z.land (Z.shiftr mode 6) 7))
  ∧ (tagged MD_ACL_GROUP_OBJ e → chmod_entry mask mode false e
      = if mask then e else set_permissions e (Z.land (Z.shiftr mode 3) 7))
  ∧ (tagged MD_ACL_MASK e → chmod_entry mask mode false e = set_permissions e (Z.land (Z.shiftr mode 3) 7))
  ∧ (tagged MD_ACL_OTHER e → chmod_entry mask mode false e = set_permissions e (Z.land mode 7)).
Proof. destruct e as [t p i]. unfold tagged, chmod_entry. cbn. split_and!; intros ->; try done. by destruct mask. Qed.

Lemma shape_chmod es uo us go gs mk ot mode :
  acl_shape es uo us go gs mk ot →
  acl_shape (md_acl_chmod es mode false) (set_permissions uo (Z.land (Z.shiftr mode 6) 7)) us
    (if bool_decide (mk = []) then set_permissions go (Z.land (Z.shiftr mode 3) 7) else go) gs
    ((λ k, set_permissions k (Z.land (Z.shiftr mode 3) 7)) <$> mk) (set_permissions ot (Z.land mode 7)).
Proof.
  intros Hs. pose proof (shape_mask _ _ _ _ _ _ _ Hs) as Hm. destruct Hs as [-> Huo Hus Hgo Hgs [Hmk Hlen] Hot].
  split; try done.
  - unfold md_acl_chmod. rewrite Hm, fmap_cons, !fmap_app, fmap_cons, !fmap_app.
    rewrite (chmod_skip _ _ _ _ us), (chmod_skip _ _ _ _ gs) by done.
    rewrite (proj1 (chmod_entry_cases _ _ uo)), (proj1 (proj2 (chmod_entry_cases _ _ go))) by done.
    f_equal. f_equal. f_equal; [by destruct (bool_decide _)|]. f_equal. f_equal.
    + apply list_fmap_ext. intros i k Hk. rewrite Forall_lookup in Hmk. by apply chmod_entry_cases, (Hmk i).
    + unfold fmap, list_fmap. by rewrite (proj2 (proj2 (proj2 (chmod_entry_cases _ _ ot)))).
  - by destruct (bool_decide _).
  - split; [|by rewrite length_fmap]. apply Forall_fmap. exact Hmk.
Qed.

(** Chmod on a file with a valid access list and reading the mode back agree: the
    nine permission bits are exactly the new ones and the other mode bits stay. *)
Theorem acl_chmod_mode es mode m :
  acl_ok es → md_acl_mode (md_acl_chmod es mode false) m = Z.lor (Z.ldiff m 511) (Z.land mode 511).
Proof.
  intros Hok. destruct (acl_ok_shape es Hok) as (uo&us&go&gs&mk&ot&Hs).
  assert (Hgo : 0 ≤ e_permissions go ≤ 7).
  { pose proof (ao_entries _ Hok) as Hall. rewrite (as_list _ _ _ _ _ _ _ Hs), Forall_forall in Hall.
    apply Hall. set_solver. }
  rewrite (shape_mode _ _ _ _ _ _ _ m (shape_chmod _ _ _ _ _ _ _ mode Hs)).
  destruct (as_mask _ _ _ _ _ _ _ Hs) as [Hmk Hlen].
  destruct mk as [|k [|]]; [| |cbn in Hlen; lia].
  - rewrite bool_decide_true by done. cbn. rewrite <- (mode_join m mode 0) by lia. f_equal.
    apply Z.bits_inj'. intros i Hi. autorewrite with testbits.
    rewrite !Z.shiftl_spec by done. autorewrite with testbits.
    destruct (decide (3 ≤ i < 6)) as [H|H].
    + assert (i = 3 ∨ i = 4 ∨ i = 5) as [->|[->| ->]] by lia; cbn [Z.sub];
        rewrite ?(Z.testbit_neg_r _ (_ - 6)) by lia; ground_bits; btauto.
    + assert (Z.testbit 56 i = false) as ->.
      { destruct (decide (i < 3)); [assert (i = 0 ∨ i = 1 ∨ i = 2) as [->|[->| ->]] by lia; done|].
        apply (testbit_low 56 6); lia. }
      btauto.
  - apply Forall_cons in Hmk as [Hk _]. rewrite bool_decide_false by done. cbn [fmap list_fmap foldl].
    rewrite (proj1 (proj2 (proj2 (mode_step_cases _ (set_permissions k _))))) by done.
    by apply mode_join.
Qed.

(** ** The access check of POSIX 1003.1e *)

Definition mask_of (mk : list md_acl_entry) : Z := match mk with k :: _ => e_permissions k | [] => 7 end.

(** First the owner, then a named user, then every group entry that applies (one
    of them has to grant everything), and others only when none applies. *)
Definition acl_reference (h : cred_heap) (ids : md_identity) (owner group requested : Z)
    (uo : md_acl_entry) (us : list md_acl_entry) (go : md_acl_entry) (gs mk : list md_acl_entry)
    (ot : md_acl_entry) : bool :=
  let masked e := grants (Z.land (e_permissions e) (mask_of mk)) requested in
  if id_fs (i_uid ids) =? owner then grants (e_permissions uo) requested
  else match List.find (λ e, id_fs (i_uid ids) =? e_id e) us with
       | Some u => masked u
       | None =>
           let hits := (if md_identity_in_group h ids group then [go] else [])
                       ++ List.filter (λ e, md_identity_in_group h ids (e_id e)) gs in
           match hits with
           | [] => grants (e_permissions ot) requested
           | _ => existsb masked hits
           end
       end.

Section permission.
Context (h : cred_heap) (ids : md_identity) (owner group requested mask : Z).
Context (Howner : id_fs (i_uid ids) ≠ owner).
Notation loop := (permission_loop h ids owner group requested mask).

Lemma loop_users us rest seen allowed other :
  Forall (tagged MD_ACL_USER) us →
  loop (us ++ rest) seen allowed other
  = match List.find (λ e, id_fs (i_uid ids) =? e_id e) us with
    | Some u => verdict (grants (Z.land (e_permissions u) mask) requested)
    | None => loop rest seen allowed other
    end.
Proof.
  clear Howner. intros Hus. induction Hus as [|u us Hu _ IH]; [done|]. unfold tagged in Hu.
  cbn [app permission_loop List.find]. rewrite Hu. cbn [Z.eqb]. destruct (id_fs (i_uid ids) =? e_id u); [done|].
  cbn. by rewrite !orb_false_r, IH.
Qed.

Lemma loop_group g rest seen allowed other hit :
  (tagged MD_ACL_GROUP_OBJ g ∧ hit = md_identity_in_group h ids group)
  ∨ (tagged MD_ACL_GROUP g ∧ hit = md_identity_in_group h ids (e_id g)) →
  loop (g :: rest) seen allowed other
  = loop rest (seen || hit) (allowed || (hit && grants (Z.land (e_permissions g) mask) requested)) other.
Proof.
  clear Howner. unfold tagged. cbn [permission_loop]. intros [[Hg ->]|[Hg ->]]; rewrite Hg; cbn; done || by rewrite orb_false_r.
Qed.

Lemma loop_groups gs rest seen allowed other :
  Forall (tagged MD_ACL_GROUP) gs →
  let hits := List.filter (λ e, md_identity_in_group h ids (e_id e)) gs in
  loop (gs ++ rest) seen allowed other
  = loop rest (seen || negb (bool_decide (hits = [])))
      (allowed || existsb (λ e, grants (Z.land (e_permissions e) mask) requested) hits) other.
Proof.
  clear Howner. intros Hgs. cbv zeta. revert seen allowed.
  induction Hgs as [|g gs Hg _ IH]; intros seen allowed; cbn [List.filter app].
  - cbn. by rewrite !orb_false_r.
  - rewrite (loop_group g _ _ _ _ (md_identity_in_group h ids (e_id g))) by auto. rewrite IH.
    destruct (md_identity_in_group h ids (e_id g)); cbn.
    + by rewrite !orb_true_r, orb_assoc.
    + by rewrite !orb_false_r.
Qed.

Lemma loop_mask mk ot seen allowed other :
  Forall (tagged MD_ACL_MASK) mk → tagged MD_ACL_OTHER ot →
  loop (mk ++ [ot]) seen allowed other
  = if seen then verdict allowed else verdict (grants (e_permissions ot) requested).
Proof.
  clear Howner. unfold tagged. intros Hmk Hot. revert seen allowed other.
  induction Hmk as [|k mk Hk _ IH]; intros seen allowed other; cbn [app permission_loop].
  - rewrite Hot. cbn. by rewrite !orb_false_r.
  - rewrite Hk. cbn. by rewrite !orb_false_r, IH.
Qed.
End permission.

Lemma shape_acl_mask es uo us go gs mk ot : acl_shape es uo us go gs mk ot → acl_mask es = mask_of mk.
Proof.
  intros [-> Huo Hus Hgo Hgs [Hmk Hlen] Hot]. unfold tagged in Huo, Hgo, Hot. unfold acl_mask.
  assert (∀ t l m, Forall (tagged t) l → t ≠ MD_ACL_MASK →
    foldl (λ m e, if e_tag e =? MD_ACL_MASK then e_permissions e else m) m l = m) as Hskip.
  { intros t l m Hl Ht. induction Hl as [|e l He _ IH]; [done|]. cbn. rewrite He.
    apply Z.eqb_neq in Ht. by rewrite Ht. }
  cbn [foldl]. rewrite Huo, foldl_app. cbn [foldl Z.eqb]. rewrite Hgo, !foldl_app. cbn [foldl]. rewrite Hot. cbn.
  rewrite (Hskip _ us), (Hskip _ gs) by done.
  destruct mk as [|k [|]]; [done| |cbn in Hlen; lia]. apply Forall_cons in Hmk as [Hk _].
  unfold tagged in Hk. cbn. by rewrite Hk.
Qed.

(** C27: the one-pass access check decides every valid list as the POSIX algorithm
    does: owner, else the named user under the mask, else any applicable group
    under the mask, else others. *)
Theorem acl_permission_reference h es uo us go gs mk ot ids owner group requested :
  acl_shape es uo us go gs mk ot →
  md_acl_permission h es ids owner group requested
  = verdict (acl_reference h ids owner group requested uo us go gs mk ot).
Proof.
  intros Hs. unfold md_acl_permission, acl_reference. rewrite (shape_acl_mask _ _ _ _ _ _ _ Hs).
  destruct Hs as [-> Huo Hus Hgo Hgs [Hmk _] Hot]. cbn [permission_loop].
  unfold tagged in Huo. rewrite Huo. cbn [Z.eqb Pos.eqb andb MD_ACL_USER_OBJ].
  destruct (Z.eqb_spec (id_fs (i_uid ids)) owner) as [|Hne]; [done|]. cbn.
  rewrite loop_users by done. destruct (List.find _ us); [done|].
  rewrite (loop_group _ _ _ _ _ _ _ _ _ _ _ (md_identity_in_group h ids group)) by auto.
  rewrite loop_groups by done. cbv zeta. rewrite loop_mask by done. cbn [orb].
  destruct (md_identity_in_group h ids group); cbn; [done|].
  destruct (List.filter _ gs) eqn:E; [done|]. done.
Qed.

(** ** Witnesses *)

Definition demo_acl : list md_acl_entry :=
  [mk_entry 1 6 UINT32_MAX; mk_entry 2 4 0; mk_entry 4 4 UINT32_MAX; mk_entry 16 4 UINT32_MAX;
   mk_entry 32 0 UINT32_MAX].
Definition demo_acl_bytes : list Z :=
  [2; 0; 0; 0] ++ [1; 0; 6; 0; 255; 255; 255; 255] ++ [2; 0; 4; 0; 0; 0; 0; 0]
  ++ [4; 0; 4; 0; 255; 255; 255; 255] ++ [16; 0; 4; 0; 255; 255; 255; 255] ++ [32; 0; 0; 0; 255; 255; 255; 255].
Lemma demo_acl_ok : acl_ok demo_acl.
Proof.
  apply entries_valid_iff; [|vm_compute; reflexivity].
  unfold demo_acl. repeat constructor; cbn; unfold UINT32_MAX; lia.
Qed.

Lemma acl_valid_iff_witness : md_acl_valid (Some demo_acl_bytes) = true ∧ acl_ok (acl_entries demo_acl_bytes).
Proof.
  assert (md_acl_valid (Some demo_acl_bytes) = true) as H by (vm_compute; reflexivity). split; [exact H|].
  apply (acl_valid_iff demo_acl_bytes) in H as (_&_&_&[H|H]); [vm_compute in H; done|exact H|].
  unfold demo_acl_bytes, is_byte. repeat constructor; lia.
Defined.

Definition demo_member : md_identity :=
  mk_identity (mk_ids 1000 1000 1000 1000) (mk_ids 1000 1000 1000 1000)
    (i_caps (md_identity_new 1000 1000)) false None (Some 1%positive).
Lemma acl_map_roundtrip_witness :
  ∃ es, md_acl_map (merge_sort entry_le) demo_mapped demo_acl (Some demo_member) true = (es, 0)
    ∧ acl_ok es ∧ md_acl_map (merge_sort entry_le) demo_mapped es (Some demo_member) false = (demo_acl, 0).
Proof.
  eexists. split; [vm_compute; reflexivity|].
  apply (acl_map_roundtrip (merge_sort entry_le) demo_mapped demo_acl demo_member);
    [apply demo_mapped_ok|apply demo_acl_ok|vm_compute; reflexivity].
Defined.

Lemma acl_chmod_mode_witness : md_acl_mode (md_acl_chmod demo_acl 493 false) 33188 = 33261.
Proof. rewrite acl_chmod_mode; [reflexivity|apply demo_acl_ok]. Defined.

Lemma acl_permission_reference_witness :
  md_acl_permission demo_heap demo_acl demo_root 1000 1000 6 = - EACCES.
Proof.
  rewrite (acl_permission_reference demo_heap demo_acl (mk_entry 1 6 UINT32_MAX) [mk_entry 2 4 0]
    (mk_entry 4 4 UINT32_MAX) [] [mk_entry 16 4 UINT32_MAX] (mk_entry 32 0 UINT32_MAX)); [reflexivity|].
  split; try done; repeat constructor.
Defined.
