(* ===== verification/Landlock.v ===== *)
(** * Landlock policies
    (src/native/shroot/src/landlock_policy.c and landlock_policy.h).

    Rulesets under construction, the immutable layers a task stacks with
    landlock_restrict_self, and the check of an access against all of them.
    Rulesets, policies, the descriptors pinned by rules and the store lifetimes
    named by rule keys are reference-counted heap objects; allocation and dup
    results are explicit arguments.  A store's own teardown belongs to the inode
    store; here only its count and its identity matter. *)
From S2P Require Import Prelude.

Definition MD_LANDLOCK_LAYERS : Z := 16.
Definition MD_LL_EXECUTE : Z := bit 0.
Definition MD_LL_WRITE_FILE : Z := bit 1.
Definition MD_LL_READ_FILE : Z := bit 2.
Definition MD_LL_READ_DIR : Z := bit 3.
Definition MD_LL_MAKE_CHAR : Z := bit 6.
Definition MD_LL_MAKE_DIR : Z := bit 7.
Definition MD_LL_MAKE_REG : Z := bit 8.
Definition MD_LL_MAKE_SOCK : Z := bit 9.
Definition MD_LL_MAKE_FIFO : Z := bit 10.
Definition MD_LL_MAKE_BLOCK : Z := bit 11.
Definition MD_LL_MAKE_SYM : Z := bit 12.
Definition MD_LL_ALL : Z := bit 13 - 1.

Abbreviation loc := positive (only parsing).

(** ** Data *)

Record md_inode_lifetime := mk_lifetime { lt_refs : Z; lt_device : Z; lt_inode : Z; lt_scope : string }.
Record md_landlock_key := mk_key { k_store : option loc; k_object : string }.
Record inode_pin := mk_pin { pin_refs : Z; pin_fd : Z }.
Record rule := mk_rule { r_key : md_landlock_key; r_allowed : Z; r_pin : option loc }.
Record md_landlock_ruleset := mk_ruleset { rs_refs : Z; rs_handled : Z; rs_rules : list rule }.
Record md_landlock_policy := mk_policy {
  p_refs : Z; p_depth : Z; p_parent : option loc; p_rules : loc }.
Record ll_heap := mk_ll {
  ll_stores : gmap loc md_inode_lifetime;
  ll_pins : gmap loc inode_pin;
  ll_sets : gmap loc md_landlock_ruleset;
  ll_policies : gmap loc md_landlock_policy;
  ll_fds : gset Z }.

Definition with_stores (h : ll_heap) (m : gmap loc md_inode_lifetime) : ll_heap :=
  mk_ll m (ll_pins h) (ll_sets h) (ll_policies h) (ll_fds h).
Definition with_pins (h : ll_heap) (m : gmap loc inode_pin) : ll_heap :=
  mk_ll (ll_stores h) m (ll_sets h) (ll_policies h) (ll_fds h).
Definition with_sets (h : ll_heap) (m : gmap loc md_landlock_ruleset) : ll_heap :=
  mk_ll (ll_stores h) (ll_pins h) m (ll_policies h) (ll_fds h).
Definition with_policies (h : ll_heap) (m : gmap loc md_landlock_policy) : ll_heap :=
  mk_ll (ll_stores h) (ll_pins h) (ll_sets h) m (ll_fds h).
Definition with_fds (h : ll_heap) (s : gset Z) : ll_heap :=
  mk_ll (ll_stores h) (ll_pins h) (ll_sets h) (ll_policies h) s.

(** ** Store lifetimes and pins *)

Definition add_store_refs (d : Z) (s : md_inode_lifetime) : md_inode_lifetime :=
  mk_lifetime (wrap32 (lt_refs s + d)) (lt_device s) (lt_inode s) (lt_scope s).
Definition md_inode_lifetime_retain (h : ll_heap) (p : option loc) : ll_heap :=
  match p with Some l => with_stores h (alter (add_store_refs 1) l (ll_stores h)) | None => h end.
Definition md_inode_lifetime_release (h : ll_heap) (p : option loc) : ll_heap :=
  match p with
  | None => h
  | Some l => match ll_stores h !! l with
              | None => h
              | Some s => if lt_refs s =? 1 then with_stores h (delete l (ll_stores h))
                          else with_stores h (alter (add_store_refs (-1)) l (ll_stores h))
              end
  end.
Definition md_inode_lifetime_same (h : ll_heap) (a b : option loc) : bool :=
  bool_decide (a = b)
  || match a, b with
     | Some a, Some b =>
         match ll_stores h !! a, ll_stores h !! b with
         | Some x, Some y => (lt_device x =? lt_device y) && (lt_inode x =? lt_inode y)
                             && bool_decide (lt_scope x = lt_scope y)
         | _, _ => false
         end
     | _, _ => false
     end.

Definition add_pin_refs (d : Z) (p : inode_pin) : inode_pin := mk_pin (wrap32 (pin_refs p + d)) (pin_fd p).
Definition pin_release (h : ll_heap) (p : option loc) : ll_heap :=
  match p with
  | None => h
  | Some l => match ll_pins h !! l with
              | None => h
              | Some x => if pin_refs x =? 1
                          then with_fds (with_pins h (delete l (ll_pins h))) (ll_fds h ∖ {[pin_fd x]})
                          else with_pins h (alter (add_pin_refs (-1)) l (ll_pins h))
              end
  end.

(** ** Rulesets *)

(** The new object or the errno; [calloc] is the allocation's outcome. *)
Definition md_landlock_ruleset_new (h : ll_heap) (handled : Z) (calloc : bool) : ll_heap * (loc + Z) :=
  if (handled =? 0) || negb (Z.ldiff handled MD_LL_ALL =? 0)
  then (h, inr (if handled =? 0 then ENOMSG else EINVAL))
  else if negb calloc then (h, inr ENOMEM)
  else let l := fresh (dom (ll_sets h)) in
       (with_sets h (<[l := mk_ruleset 1 handled []]> (ll_sets h)), inl l).

Definition add_set_refs (d : Z) (r : md_landlock_ruleset) : md_landlock_ruleset :=
  mk_ruleset (wrap32 (rs_refs r + d)) (rs_handled r) (rs_rules r).
Definition md_landlock_ruleset_retain (h : ll_heap) (r : option loc) : ll_heap :=
  match r with Some l => with_sets h (alter (add_set_refs 1) l (ll_sets h)) | None => h end.
Definition md_landlock_ruleset_release (h : ll_heap) (r : option loc) : ll_heap :=
  match r with
  | None => h
  | Some l =>
      match ll_sets h !! l with
      | None => h
      | Some s =>
          let h1 := with_sets h (alter (add_set_refs (-1)) l (ll_sets h)) in
          if negb (rs_refs s =? 1) then h1
          else
            let h2 := foldl (λ h x, pin_release (md_inode_lifetime_release h (k_store (r_key x))) (r_pin x))
                        h1 (rs_rules s) in
            with_sets h2 (delete l (ll_sets h2))
      end
  end.

(** The system's answers during [md_landlock_rule_add]. *)
Record add_env := mk_add_env { ae_pin : bool; ae_dup : Z + Z; ae_realloc : bool }.

Definition same_key (h : ll_heap) (a b : md_landlock_key) : bool :=
  md_inode_lifetime_same h (k_store a) (k_store b) && bool_decide (k_object a = k_object b).

(** The search loop: the rules with the first equal key widened, if there is one. *)
Fixpoint merge_rule (h : ll_heap) (key : md_landlock_key) (allowed : Z) (rs : list rule) : option (list rule) :=
  match rs with
  | [] => None
  | x :: rs =>
      if same_key h (r_key x) key then Some (mk_rule (r_key x) (Z.lor (r_allowed x) allowed) (r_pin x) :: rs)
      else match merge_rule h key allowed rs with Some rs' => Some (x :: rs') | None => None end
  end.

(** [SIZE_MAX / sizeof(struct rule) - 1]; a rule takes 64 bytes. *)
Definition MAX_RULES : Z := 18446744073709551615 / 64 - 1.

Definition set_rules (r : md_landlock_ruleset) (rs : list rule) : md_landlock_ruleset :=
  mk_ruleset (rs_refs r) (rs_handled r) rs.

(** [l] is a live ruleset of the caller; the first branch is never taken in the C. *)
Definition md_landlock_rule_add (h : ll_heap) (l : loc) (key : md_landlock_key) (allowed native_fd : Z)
    (env : add_env) : ll_heap * Z :=
  match ll_sets h !! l with
  | None => (h, - EFAULT)
  | Some r =>
      if allowed =? 0 then (h, - ENOMSG)
      else if negb (Z.ldiff allowed (rs_handled r) =? 0) then (h, - EINVAL)
      else match merge_rule h key allowed (rs_rules r) with
      | Some rs => (with_sets h (<[l := set_rules r rs]> (ll_sets h)), 0)
      | None =>
          if MAX_RULES <=? Z.of_nat (length (rs_rules r)) then (h, - ENOMEM)
          else if (0 <=? native_fd) && negb (ae_pin env) then (h, - ENOMEM)
          else match (if 0 <=? native_fd then ae_dup env else inl (-1)) with
          | inr e => (h, - e)
          | inl fd =>
              let p := fresh (dom (ll_pins h)) in
              let pin := if 0 <=? native_fd then Some p else None in
              let h1 := if 0 <=? native_fd
                        then with_fds (with_pins h (<[p := mk_pin 1 fd]> (ll_pins h))) ({[fd]} ∪ ll_fds h)
                        else h in
              if negb (ae_realloc env) then (pin_release h1 pin, - ENOMEM)
              else
                let h2 := with_sets h1 (<[l := set_rules r (rs_rules r ++ [mk_rule key allowed pin])]> (ll_sets h1)) in
                (md_inode_lifetime_retain h2 (k_store key), 0)
          end
      end
  end.

(** ** Policies *)

Definition add_policy_refs (d : Z) (p : md_landlock_policy) : md_landlock_policy :=
  mk_policy (wrap32 (p_refs p + d)) (p_depth p) (p_parent p) (p_rules p).
Definition md_landlock_retain (h : ll_heap) (p : option loc) : ll_heap :=
  match p with Some l => with_policies h (alter (add_policy_refs 1) l (ll_policies h)) | None => h end.

(** The release loop climbs while each policy dies; there are at most
    [MD_LANDLOCK_LAYERS] of them. *)
Fixpoint release_loop (fuel : nat) (h : ll_heap) (p : option loc) : ll_heap :=
  match fuel, p with
  | S fuel, Some l =>
      match ll_policies h !! l with
      | None => h
      | Some x =>
          let h1 := with_policies h (alter (add_policy_refs (-1)) l (ll_policies h)) in
          if negb (p_refs x =? 1) then h1
          else
            let h2 := md_landlock_ruleset_release h1 (Some (p_rules x)) in
            release_loop fuel (with_policies h2 (delete l (ll_policies h2))) (p_parent x)
      end
  | _, _ => h
  end.
Definition md_landlock_release (h : ll_heap) (p : option loc) : ll_heap :=
  release_loop (Z.to_nat MD_LANDLOCK_LAYERS) h p.

(** The allocations of [md_landlock_restrict], in order: the policy, its ruleset,
    its rules. *)
Record restrict_env := mk_restrict_env { re_policy : bool; re_ruleset : bool; re_rules : bool }.

Definition retain_rule (h : ll_heap) (x : rule) : ll_heap :=
  let h1 := md_inode_lifetime_retain h (k_store (r_key x)) in
  match r_pin x with Some l => with_pins h1 (alter (add_pin_refs 1) l (ll_pins h1)) | None => h1 end.

Definition md_landlock_restrict (h : ll_heap) (parent : option loc) (r : md_landlock_ruleset)
    (env : restrict_env) : ll_heap * (loc + Z) :=
  let above := parent ≫= λ l, ll_policies h !! l in
  if match above with Some x => MD_LANDLOCK_LAYERS <=? p_depth x | None => false end then (h, inr E2BIG)
  else if negb (re_policy env) then (h, inr ENOMEM)
  else
    match md_landlock_ruleset_new h (rs_handled r) (re_ruleset env) with
    | (h1, inr e) => (h1, inr e)
    | (h1, inl s) =>
        let p := fresh (dom (ll_policies h1)) in
        let put h parent depth := with_policies h (<[p := mk_policy 1 depth parent s]> (ll_policies h)) in
        if negb (bool_decide (rs_rules r = [])) && negb (re_rules env)
        then (md_landlock_release (put h1 None 0) (Some p), inr ENOMEM)
        else
          let h2 := with_sets (foldl retain_rule h1 (rs_rules r))
                      (<[s := mk_ruleset 1 (rs_handled r) (rs_rules r)]> (ll_sets h1)) in
          let h3 := md_landlock_retain h2 parent in
          (put h3 parent (match above with Some x => p_depth x + 1 | None => 1 end), inl p)
    end.

(** ** The check *)

(** The rules of one layer: the rights still missing, or the lookup's failure. *)
Fixpoint check_rules (matches : md_landlock_key → Z) (rs : list rule) (missing : Z) : Z + Z :=
  match rs with
  | [] => inl missing
  | x :: rs =>
      if missing =? 0 then inl missing
      else if negb (has_bits missing (r_allowed x)) then check_rules matches rs missing
      else
        let m := matches (r_key x) in
        if m <? 0 then inr m
        else check_rules matches rs (if m =? 0 then missing else Z.ldiff missing (r_allowed x))
  end.

(** The rulesets of a policy and its ancestors, innermost first. *)
Fixpoint layers_loop (fuel : nat) (h : ll_heap) (p : option loc) : list md_landlock_ruleset :=
  match fuel, p with
  | S fuel, Some l =>
      match ll_policies h !! l with
      | Some x => match ll_sets h !! p_rules x with
                  | Some r => r :: layers_loop fuel h (p_parent x)
                  | None => []
                  end
      | None => []
      end
  | _, _ => []
  end.
Definition layers (h : ll_heap) (p : option loc) : list md_landlock_ruleset :=
  layers_loop (Z.to_nat MD_LANDLOCK_LAYERS) h p.

Fixpoint check_layers (matches : md_landlock_key → Z) (ls : list md_landlock_ruleset) (access : Z) : Z :=
  match ls with
  | [] => 0
  | r :: ls =>
      match check_rules matches (rs_rules r) (Z.land access (rs_handled r)) with
      | inr e => e
      | inl missing => if negb (missing =? 0) then - EACCES else check_layers matches ls access
      end
  end.
Definition md_landlock_check (h : ll_heap) (p : option loc) (access : Z) (matches : md_landlock_key → Z) : Z :=
  check_layers matches (layers h p) access.

(** ** Access classes *)

Definition O_ACCMODE : Z := 3.
Definition O_RDONLY : Z := 0.
Definition O_WRONLY : Z := 1.
Definition O_PATH : Z := 2097152.
Definition LL_IFMT : Z := 61440.
Definition md_landlock_open_access (flags kind : Z) : Z :=
  if has_bits flags O_PATH then 0
  else if Z.land kind LL_IFMT =? 16384 then MD_LL_READ_DIR
  else Z.lor (if Z.land flags O_ACCMODE =? O_WRONLY then 0 else MD_LL_READ_FILE)
             (if Z.land flags O_ACCMODE =? O_RDONLY then 0 else MD_LL_WRITE_FILE).
Definition md_landlock_make_access (kind : Z) : Z :=
  let k := Z.land kind LL_IFMT in
  if k =? 32768 then MD_LL_MAKE_REG
  else if k =? 16384 then MD_LL_MAKE_DIR
  else if k =? 40960 then MD_LL_MAKE_SYM
  else if k =? 49152 then MD_LL_MAKE_SOCK
  else if k =? 4096 then MD_LL_MAKE_FIFO
  else if k =? 8192 then MD_LL_MAKE_CHAR
  else if k =? 24576 then MD_LL_MAKE_BLOCK
  else 0.

(** ** Specification *)

(** The rights the matching rules of a layer grant. *)
Definition granted (matches : md_landlock_key → Z) (rs : list rule) : Z :=
  foldr (λ x g, if matches (r_key x) =? 0 then g else Z.lor (r_allowed x) g) 0 rs.

(** A layer permits an access when every requested right it handles is granted. *)
Definition permits (matches : md_landlock_key → Z) (access : Z) (r : md_landlock_ruleset) : Prop :=
  Z.land access (rs_handled r) ⊑ᵇ granted matches (rs_rules r).

Lemma granted_bit matches rs i :
  Z.testbit (granted matches rs) i = true ↔
  ∃ x, x ∈ rs ∧ matches (r_key x) ≠ 0 ∧ Z.testbit (r_allowed x) i = true.
Proof.
  induction rs as [|x rs IH]; cbn [granted foldr].
  - rewrite Z.bits_0. split; [done|]. intros (x&Hx&_). by apply elem_of_nil in Hx.
  - fold (granted matches rs). destruct (Z.eqb_spec (matches (r_key x)) 0) as [H|H].
    + rewrite IH. split; intros (y&Hy&Hm&Hb); exists y; [set_solver|].
      apply elem_of_cons in Hy as [->|]; done.
    + rewrite Z.lor_spec, orb_true_iff, IH. split.
      * intros [Hb|(y&?&?&?)]; [exists x|exists y]; set_solver.
      * intros (y&Hy&Hm&Hb). apply elem_of_cons in Hy as [->|Hy]; [by left|right; eauto].
Qed.

Lemma has_bits_false x m : has_bits x m = false → Z.ldiff x m = x.
Proof.
  unfold has_bits. intros H. apply negb_false_iff, Z.eqb_eq in H. apply Z.bits_inj'. intros i Hi.
  apply (f_equal (λ z, Z.testbit z i)) in H. rewrite Z.land_spec, Z.bits_0 in H. rewrite Z.ldiff_spec.
  by destruct (Z.testbit x i), (Z.testbit m i).
Qed.

Lemma check_rules_spec matches rs missing :
  (∀ x, x ∈ rs → 0 ≤ matches (r_key x)) →
  check_rules matches rs missing = inl (Z.ldiff missing (granted matches rs)).
Proof.
  revert missing; induction rs as [|x rs IH]; intros missing Hm; cbn [check_rules granted foldr].
  { by rewrite Z.ldiff_0_r. }
  fold (granted matches rs). assert (∀ y, y ∈ rs → 0 ≤ matches (r_key y)) as Hm' by set_solver.
  destruct (Z.eqb_spec missing 0) as [->|_]; [by rewrite Z.ldiff_0_l|].
  assert (∀ a b c, Z.ldiff a (Z.lor b c) = Z.ldiff (Z.ldiff a b) c) as Hl by (intros; bitblast).
  destruct (has_bits missing (r_allowed x)) eqn:Hb; cbn [negb].
  - pose proof (Hm x ltac:(set_solver)). destruct (Z.ltb_spec (matches (r_key x)) 0); [lia|].
    rewrite IH by done. destruct (matches (r_key x) =? 0); [done|]. by rewrite Hl.
  - rewrite IH by done. apply has_bits_false in Hb. destruct (matches (r_key x) =? 0); [done|]. by rewrite Hl, Hb.
Qed.

Lemma check_layers_spec matches ls access :
  (∀ k, 0 ≤ matches k) →
  check_layers matches ls access = 0 ↔ Forall (permits matches access) ls.
Proof.
  intros Hm. induction ls as [|r ls IH]; cbn [check_layers]; [by split|].
  rewrite check_rules_spec by auto. rewrite Forall_cons, <- IH. unfold permits, bits_le.
  destruct (Z.eqb_spec (Z.ldiff (Z.land access (rs_handled r)) (granted matches (rs_rules r))) 0) as [H|H];
    cbn [negb]; [tauto|]. split; [done|]. by intros [? _].
Qed.

(** ** Invariant *)

Record ruleset_ok (r : md_landlock_ruleset) : Prop := {
  rk_handled : rs_handled r ≠ 0 ∧ rs_handled r ⊑ᵇ MD_LL_ALL;
  rk_rules : Forall (λ x, r_allowed x ≠ 0 ∧ r_allowed x ⊑ᵇ rs_handled r) (rs_rules r) }.

Definition policy_depth (h : ll_heap) (p : option loc) : Z :=
  match p with None => 0 | Some l => default 0 (p_depth <$> ll_policies h !! l) end.

Record ll_ok (h : ll_heap) : Prop := {
  lo_sets : ∀ l r, ll_sets h !! l = Some r → ruleset_ok r;
  lo_rules : ∀ l p, ll_policies h !! l = Some p → is_Some (ll_sets h !! p_rules p);
  lo_parent : ∀ l p q, ll_policies h !! l = Some p → p_parent p = Some q → is_Some (ll_policies h !! q);
  lo_depth : ∀ l p, ll_policies h !! l = Some p → p_depth p = 1 + policy_depth h (p_parent p);
  lo_bound : ∀ l p, ll_policies h !! l = Some p → 1 ≤ p_depth p ≤ MD_LANDLOCK_LAYERS }.

(** The layers depend on the policies' links and the rulesets they own only. *)
Definition policy_links (p : md_landlock_policy) : option loc * loc := (p_parent p, p_rules p).
Lemma layers_ext fuel h h' p :
  (∀ l, policy_links <$> ll_policies h !! l = policy_links <$> ll_policies h' !! l) →
  (∀ l x, ll_policies h !! l = Some x → ll_sets h !! p_rules x = ll_sets h' !! p_rules x) →
  layers_loop fuel h p = layers_loop fuel h' p.
Proof.
  intros Hp Hs. revert p; induction fuel as [|fuel IH]; intros [l|]; cbn [layers_loop]; try done.
  pose proof (Hp l) as Hl. destruct (ll_policies h !! l) as [x|] eqn:Hx, (ll_policies h' !! l) as [y|]; try done.
  injection Hl as Hpar Hr. rewrite (Hs l x Hx), Hr, Hpar.
  destruct (ll_sets h' !! p_rules y); [by rewrite IH|done].
Qed.

Lemma layers_more h p fuel k :
  ll_ok h → policy_depth h p ≤ Z.of_nat fuel → layers_loop (fuel + k) h p = layers_loop fuel h p.
Proof.
  intros Hok. revert p; induction fuel as [|fuel IH]; intros [l|] Hd; cbn [layers_loop Nat.add]; try done.
  - destruct k as [|k]; [done|]. cbn [layers_loop]. cbn in Hd. destruct (ll_policies h !! l) as [x|] eqn:Hx; [|done].
    pose proof (lo_bound _ Hok _ _ Hx). cbn in Hd. lia.
  - by destruct k.
  - cbn in Hd. destruct (ll_policies h !! l) as [x|] eqn:Hx; [|done]. cbn in Hd.
    rewrite IH; [done|]. pose proof (lo_depth _ Hok _ _ Hx). lia.
Qed.

(** ** Heap updates that leave rulesets and policies alone *)

Definition same_policy (h h' : ll_heap) : Prop := ll_sets h' = ll_sets h ∧ ll_policies h' = ll_policies h.
#[export] Instance same_policy_equivalence : Equivalence same_policy.
Proof. unfold same_policy. split; [by split|intros ? ? [-> ->]; done|intros ??? [<- <-] [-> ->]; done]. Qed.

Lemma lifetime_retain_same h p : same_policy h (md_inode_lifetime_retain h p).
Proof. by destruct p. Qed.
Lemma retain_rule_same h x : same_policy h (retain_rule h x).
Proof.
  unfold retain_rule. pose proof (lifetime_retain_same h (k_store (r_key x))) as H. by destruct (r_pin x).
Qed.
Lemma retain_rules_same h rs : same_policy h (foldl retain_rule h rs).
Proof.
  revert h; induction rs as [|x rs IH]; intros h; [done|]. cbn [foldl].
  etrans; [apply retain_rule_same|apply IH].
Qed.

(** ** Rule addition *)

Lemma merge_rule_ok h key allowed rs rs' handled :
  merge_rule h key allowed rs = Some rs' → allowed ⊑ᵇ handled →
  Forall (λ x, r_allowed x ≠ 0 ∧ r_allowed x ⊑ᵇ handled) rs →
  Forall (λ x, r_allowed x ≠ 0 ∧ r_allowed x ⊑ᵇ handled) rs'.
Proof.
  intros Hm Ha. revert rs' Hm; induction rs as [|x rs IH]; intros rs' Hm Hall; cbn in Hm; [done|].
  apply Forall_cons in Hall as [[H0 Hx] Hall]. destruct (same_key h (r_key x) key).
  - injection Hm as <-. constructor; [|done]. cbn. split; [|by apply bits_le_lor].
    intros H. by apply Z.lor_eq_0_iff in H as [? _].
  - destruct (merge_rule h key allowed rs) as [rs1|]; [|done]. injection Hm as <-. constructor; auto.
Qed.

(** What one call of [md_landlock_rule_add] can do to the rulesets. *)
Lemma rule_add_outcome h l key allowed fd env h' e :
  (∀ x, ae_dup env = inl x → x ∉ ll_fds h) →
  md_landlock_rule_add h l key allowed fd env = (h', e) →
  (h' = h ∧ (e ≠ 0 ∨ ∃ z, ae_dup env = inr z))
  ∨ (e = 0 ∧ ∃ r rs, ll_sets h !! l = Some r ∧ ll_sets h' = <[l := set_rules r rs]> (ll_sets h)
      ∧ ll_policies h' = ll_policies h ∧ allowed ≠ 0 ∧ allowed ⊑ᵇ rs_handled r
      ∧ (merge_rule h key allowed (rs_rules r) = Some rs ∨ ∃ pin, rs = rs_rules r ++ [mk_rule key allowed pin])).
Proof.
  intros Hfresh. unfold md_landlock_rule_add. destruct (ll_sets h !! l) as [r|] eqn:Hl; [|intros [= <- <-]; by auto].
  destruct (Z.eqb_spec allowed 0); [intros [= <- <-]; by auto|].
  destruct (Z.eqb_spec (Z.ldiff allowed (rs_handled r)) 0); cbn [negb]; [|intros [= <- <-]; by auto].
  destruct (merge_rule h key allowed (rs_rules r)) as [rs|] eqn:Hm.
  { intros [= <- <-]. right. split; [done|]. exists r, rs. split_and!; auto. }
  case_if; [intros [= <- <-]; by auto|]. case_if; [intros [= <- <-]; by auto|].
  destruct (Z.leb_spec 0 fd).
  - destruct (ae_dup env) as [x|z]; [|intros [= <- <-]; left; eauto].
    set (p := fresh (dom (ll_pins h))). assert (ll_pins h !! p = None) as Hp by (apply not_elem_of_dom, is_fresh).
    destruct (ae_realloc env); cbn [negb].
    + intros [= <- <-]. right. split; [done|]. exists r, (rs_rules r ++ [mk_rule key allowed (Some p)]).
      split_and!; try done; [..|by eauto]; by destruct (k_store key).
    + intros [= <- <-]. left. split; [|by left]. unfold pin_release. cbn. rewrite lookup_insert_eq. cbn.
      unfold with_fds, with_pins. cbn. rewrite delete_insert_id by done.
      destruct h as [a b c d f]. cbn in *. f_equal. specialize (Hfresh x eq_refl). set_solver.
  - destruct (ae_realloc env); cbn [negb]; intros [= <- <-]; [|by auto].
    right. split; [done|]. exists r, (rs_rules r ++ [mk_rule key allowed None]).
    split_and!; try done; [..|by eauto]; by destruct (k_store key).
Qed.

(** ** Restriction *)

Lemma delete_alter_insert {A} (m : gmap loc A) i x f :
  m !! i = None → delete i (alter f i (<[i := x]> m)) = m.
Proof.
  intros Hi. apply map_eq. intros k. destruct (decide (i = k)) as [<-|Hne].
  - by rewrite lookup_delete_eq.
  - by rewrite lookup_delete_ne, lookup_alter_ne, lookup_insert_ne.
Qed.

Lemma restrict_outcome h parent r env h' o :
  md_landlock_restrict h parent r env = (h', o) →
  match o with
  | inr _ => h' = h
  | inl p => ∃ s, ll_sets h !! s = None ∧ ll_policies h !! p = None
      ∧ policy_depth h parent < MD_LANDLOCK_LAYERS ∧ rs_handled r ≠ 0 ∧ rs_handled r ⊑ᵇ MD_LL_ALL
      ∧ ll_sets h' = <[s := mk_ruleset 1 (rs_handled r) (rs_rules r)]> (ll_sets h)
      ∧ ll_policies h' = <[p := mk_policy 1 (1 + policy_depth h parent) parent s]>
          (ll_policies (md_landlock_retain h parent))
  end.
Proof.
  unfold md_landlock_restrict.
  assert (policy_depth h parent
    = match parent ≫= λ l, ll_policies h !! l with Some x => p_depth x | None => 0 end) as Hd.
  { destruct parent as [l|]; [|done]. cbn. by destruct (ll_policies h !! l). }
  rewrite Hd. set (above := parent ≫= λ l, ll_policies h !! l).
  match goal with |- context [if ?b then (h, inr E2BIG) else _] => destruct b eqn:Hdeep end; [by intros [= <- <-]|].
  destruct (re_policy env); cbn [negb]; [|by intros [= <- <-]].
  unfold md_landlock_ruleset_new. destruct (Z.eqb_spec (rs_handled r) 0); cbn [orb]; [by intros [= <- <-]|].
  destruct (Z.eqb_spec (Z.ldiff (rs_handled r) MD_LL_ALL) 0); cbn [negb]; [|by intros [= <- <-]].
  destruct (re_ruleset env); cbn [negb]; [|by intros [= <- <-]].
  cbn [ll_policies with_sets].
  set (s := fresh (dom (ll_sets h))). set (p := fresh (dom (ll_policies h))).
  assert (ll_sets h !! s = None) as Hs by (apply not_elem_of_dom, is_fresh).
  assert (ll_policies h !! p = None) as Hp by (apply not_elem_of_dom, is_fresh).
  case_if.
  - intros [= <- <-]. unfold md_landlock_release. change (Z.to_nat MD_LANDLOCK_LAYERS) with (S 15).
    generalize 15%nat. intros f. cbn. rewrite lookup_insert_eq. cbn. rewrite lookup_insert_eq. cbn.
    unfold with_policies, with_sets. cbn. rewrite !delete_alter_insert by done. destruct h. by destruct f.
  - intros [= <- <-]. exists s.
    pose proof (retain_rules_same (with_sets h (<[s:=mk_ruleset 1 (rs_handled r) []]> (ll_sets h))) (rs_rules r)) as [_ Hpol].
    split_and!; try done.
    + destruct above; [lia|done].
    + destruct parent; cbn; by rewrite insert_insert_eq.
    + destruct parent as [l|]; cbn in *; rewrite Hpol; subst above; cbn; f_equal; f_equal;
        destruct (ll_policies h !! l); lia.
Qed.

Lemma retain_depth h p q : policy_depth (md_landlock_retain h p) q = policy_depth h q.
Proof.
  destruct p as [l|], q as [k|]; cbn; try done. destruct (decide (l = k)) as [<-|].
  - rewrite lookup_alter_eq. by destruct (ll_policies h !! l).
  - by rewrite lookup_alter_ne.
Qed.
Lemma retain_links h p l :
  policy_links <$> ll_policies (md_landlock_retain h p) !! l = policy_links <$> ll_policies h !! l.
Proof.
  destruct p as [k|]; cbn; [|done]. destruct (decide (k = l)) as [<-|].
  - rewrite lookup_alter_eq. by destruct (ll_policies h !! k).
  - by rewrite lookup_alter_ne.
Qed.
Lemma retain_lookup h p l x :
  ll_policies (md_landlock_retain h p) !! l = Some x →
  ∃ y, ll_policies h !! l = Some y ∧ policy_links y = policy_links x ∧ p_depth y = p_depth x.
Proof.
  destruct p as [k|]; cbn; [|by eauto]. rewrite lookup_alter. case_decide; [subst|by eauto].
  destruct (ll_policies h !! l) as [y|]; [|done]. cbn. intros [= <-]. eauto.
Qed.

Lemma rule_add_ok h l key allowed fd env :
  ll_ok h → (∀ x, ae_dup env = inl x → x ∉ ll_fds h) →
  ll_ok (fst (md_landlock_rule_add h l key allowed fd env)).
Proof.
  intros Hok Hfd. destruct (md_landlock_rule_add _ _ _ _ _ _) as [h' e] eqn:Ha.
  destruct (rule_add_outcome _ _ _ _ _ _ _ _ Hfd Ha) as [[-> _]|(_&r&rs&Hl&Hsets&Hpol&H0&Hle&Hrs)]; [done|].
  cbn. destruct Hok as [Ks Kr Kp Kd Kb]. pose proof (Ks _ _ Hl) as [Hh Hall].
  split; unfold policy_depth in *; rewrite ?Hsets, ?Hpol; try done.
  + intros l' r'. rewrite lookup_insert. case_decide; [|eauto]. intros [= <-]. split; [done|]. cbn.
    destruct Hrs as [Hm|[pin ->]]; [by eapply merge_rule_ok|]. apply Forall_app. split; [done|]. by repeat constructor.
  + intros l' p Hp. rewrite lookup_insert. case_decide; eauto.
Qed.

Lemma restrict_ok h parent r env :
  ll_ok h → ruleset_ok r → (∀ l, parent = Some l → is_Some (ll_policies h !! l)) →
  ll_ok (fst (md_landlock_restrict h parent r env)).
Proof.
  intros Hok [_ Hall] Hlive. destruct (md_landlock_restrict _ _ _ _) as [h' [p|e]] eqn:Hr;
    apply restrict_outcome in Hr; [|cbn; by subst].
  destruct Hr as (s&Hs&Hp&Hdep&H0&Hle&Hsets&Hpol). cbn. destruct Hok as [Ks Kr Kp Kd Kb].
  assert (∀ q, (∀ l, q = Some l → is_Some (ll_policies h !! l)) → policy_depth h' q = policy_depth h q) as Hdepth.
  { intros [q|] Hq; [|done]. cbn. rewrite Hpol, lookup_insert_ne by (intros ->; destruct (Hq q eq_refl); congruence).
    apply (retain_depth h parent (Some q)). }
  assert (∀ l, is_Some (ll_policies h !! l) → is_Some (ll_policies h' !! l)) as Hmore.
  { intros l Hl. rewrite Hpol, lookup_insert. case_decide; [by eauto|].
    pose proof (retain_links h parent l) as E. destruct Hl as [y Hy]. rewrite Hy in E.
    destruct (ll_policies (md_landlock_retain h parent) !! l); [by eauto|done]. }
  assert (∀ l x, ll_policies h' !! l = Some x →
    (l = p ∧ x = mk_policy 1 (1 + policy_depth h parent) parent s)
    ∨ ∃ y, ll_policies h !! l = Some y ∧ policy_links y = policy_links x ∧ p_depth y = p_depth x) as Hcases.
  { intros l x. rewrite Hpol, lookup_insert_Some. intros [[<- <-]|[_ Hx]]; [by left|right].
    by eapply retain_lookup. }
  split.
  + intros l x. rewrite Hsets, lookup_insert_Some. intros [[_ <-]|[_ Hx]]; [|eauto]. by split.
  + intros l x [[_ ->]|(y&Hy&[= _ <-]&_)]%Hcases; rewrite Hsets; cbn; [rewrite lookup_insert_eq; eauto|].
    destruct (Kr _ _ Hy) as [z Hz]. rewrite lookup_insert. case_decide; eauto.
  + intros l x q [[_ ->]|(y&Hy&[= <- _]&_)]%Hcases; cbn; eauto.
  + intros l x [[_ ->]|(y&Hy&[= <- _]&<-)]%Hcases; cbn; rewrite Hdepth; eauto.
  + intros l x [[_ ->]|(y&Hy&_&<-)]%Hcases; cbn; [|eauto].
    assert (0 ≤ policy_depth h parent); [|unfold MD_LANDLOCK_LAYERS in *; lia].
    destruct parent as [q|]; [|done]. cbn. destruct (Hlive q eq_refl) as [y Hy]. rewrite Hy. cbn.
    pose proof (Kb _ _ Hy). lia.
Qed.

(** ** Properties *)


(** Restricting a task puts a snapshot of the ruleset on top of the layers it
    already had, so everything the new policy permits the old one permitted, and
    no other policy changes. *)
Theorem landlock_restrict_tightens h parent r env h' p access matches :
  ll_ok h → (∀ l, parent = Some l → is_Some (ll_policies h !! l)) →
  md_landlock_restrict h parent r env = (h', inl p) → (∀ k, 0 ≤ matches k) →
  layers h' (Some p) = mk_ruleset 1 (rs_handled r) (rs_rules r) :: layers h parent
  ∧ (md_landlock_check h' (Some p) access matches = 0 → md_landlock_check h parent access matches = 0)
  ∧ (∀ q, q ≠ Some p → layers h' q = layers h q).
Proof.
  intros Hok Hlive Hr Hm. apply restrict_outcome in Hr as (s&Hs&Hp&Hdep&_&_&Hsets&Hpol).
  assert (∀ fuel q, q ≠ Some p → layers_loop fuel h' q = layers_loop fuel h q) as Hother.
  { induction fuel as [|fuel IH]; intros [l|] Hq; cbn [layers_loop]; try done.
    rewrite Hpol, lookup_insert_ne by congruence. pose proof (retain_links h parent l) as Hl.
    destruct (ll_policies (md_landlock_retain h parent) !! l) as [x|] eqn:Hx, (ll_policies h !! l) as [y|] eqn:Hy; try done.
    injection Hl as Hpar Hrs. rewrite Hpar, Hrs.
    destruct (lo_rules _ Hok _ _ Hy) as [z Hz]. rewrite Hsets, lookup_insert_ne, Hz by congruence. f_equal.
    apply IH. intros E. destruct (lo_parent _ Hok _ _ _ Hy E). congruence. }
  assert (layers h' (Some p) = mk_ruleset 1 (rs_handled r) (rs_rules r) :: layers h parent) as Htop.
  { unfold layers. change (Z.to_nat MD_LANDLOCK_LAYERS) with (15 + 1)%nat at 2.
    rewrite layers_more by (done || (unfold MD_LANDLOCK_LAYERS in *; lia)).
    change (Z.to_nat MD_LANDLOCK_LAYERS) with (S 15). generalize 15%nat. intros f. cbn [layers_loop].
    rewrite Hpol, lookup_insert_eq. cbn [p_rules p_parent]. rewrite Hsets, lookup_insert_eq. f_equal.
    apply Hother. intros E. destruct (Hlive p E). congruence. }
  split_and!; [done| |intros q Hq; by apply Hother].
  unfold md_landlock_check. rewrite Htop, !check_layers_spec by done. by intros [_ ?]%Forall_cons.
Qed.

(** The well-formedness of rulesets and policies -- rights within the handled
    ones, live parents one layer up, at most sixteen layers -- survives rule
    additions and restrictions, successful or not. *)
Theorem landlock_invariant h :
  ll_ok h →
  (∀ l key allowed fd env, (∀ x, ae_dup env = inl x → x ∉ ll_fds h) →
     ll_ok (fst (md_landlock_rule_add h l key allowed fd env)))
  ∧ (∀ parent r env, ruleset_ok r → (∀ l, parent = Some l → is_Some (ll_policies h !! l)) →
     ll_ok (fst (md_landlock_restrict h parent r env))).
Proof. intros Hok. split; intros; [by apply rule_add_ok|by apply restrict_ok]. Qed.

(** A policy is a snapshot: adding rules to any ruleset that is not a policy's own
    copy changes no layer of any policy, so it cannot widen a running sandbox. *)
Theorem landlock_policy_immutable h l key allowed fd env q :
  (∀ x, ae_dup env = inl x → x ∉ ll_fds h) →
  (∀ k p, ll_policies h !! k = Some p → p_rules p ≠ l) →
  layers (fst (md_landlock_rule_add h l key allowed fd env)) q = layers h q.
Proof.
  intros Hfd Hown. destruct (md_landlock_rule_add _ _ _ _ _ _) as [h' e] eqn:Ha. cbn.
  destruct (rule_add_outcome _ _ _ _ _ _ _ _ Hfd Ha) as [[-> _]|(_&r&rs&Hl&Hsets&Hpol&_)]; [done|].
  symmetry. apply layers_ext; [by intros k; rewrite Hpol|]. intros k p Hp.
  rewrite Hsets, lookup_insert_ne; [done|]. symmetry. by eapply Hown.
Qed.

(** ** Witnesses: a ruleset allowing reads below one directory, and a policy made of it *)

Definition demo_dir : md_landlock_key := mk_key (Some 1%positive) "dir".
Definition demo_ll : ll_heap :=
  mk_ll {[1%positive := mk_lifetime 1 8 2 "root"]} ∅
    {[1%positive := mk_ruleset 1 (Z.lor MD_LL_READ_FILE MD_LL_WRITE_FILE) [mk_rule demo_dir MD_LL_READ_FILE None]]} ∅ ∅.
Definition demo_rules : md_landlock_ruleset :=
  mk_ruleset 1 (Z.lor MD_LL_READ_FILE MD_LL_WRITE_FILE) [mk_rule demo_dir MD_LL_READ_FILE None].
Definition demo_below (k : md_landlock_key) : Z := if bool_decide (k_object k = "dir") then 1 else 0.
Definition demo_restrict_env : restrict_env := mk_restrict_env true true true.
Definition demo_sandbox : ll_heap := fst (md_landlock_restrict demo_ll None demo_rules demo_restrict_env).
Definition demo_add_env : add_env := mk_add_env true (inl 7) true.

Lemma demo_rules_ok : ruleset_ok demo_rules.
Proof. split; [done|]. repeat constructor. done. Qed.
Lemma demo_ll_ok : ll_ok demo_ll.
Proof.
  split; cbn; try done. intros l r [<- <-]%lookup_singleton_Some. apply demo_rules_ok.
Qed.

Lemma demo_below_ok k : 0 ≤ demo_below k.
Proof. unfold demo_below. by case_if. Qed.


Lemma landlock_restrict_tightens_witness :
  layers demo_sandbox (Some 1%positive) = [demo_rules]
  ∧ md_landlock_check demo_sandbox (Some 1%positive) MD_LL_WRITE_FILE demo_below = - EACCES.
Proof.
  split; [|vm_compute; reflexivity].
  apply (landlock_restrict_tightens demo_ll None demo_rules demo_restrict_env demo_sandbox 1%positive 0 demo_below);
    [apply demo_ll_ok|done|vm_compute; reflexivity|apply demo_below_ok].
Defined.

Lemma landlock_invariant_witness : ll_ok demo_sandbox.
Proof. apply (landlock_invariant demo_ll demo_ll_ok); [apply demo_rules_ok|done]. Defined.

Lemma landlock_policy_immutable_witness :
  layers (fst (md_landlock_rule_add demo_sandbox 1%positive demo_dir MD_LL_WRITE_FILE (-1) demo_add_env))
    (Some 1%positive) = [demo_rules].
Proof.
  rewrite (landlock_policy_immutable demo_sandbox); [vm_compute; reflexivity|intros x [= <-]; set_solver|].
  intros k p. assert (ll_policies demo_sandbox = {[1%positive := mk_policy 1 1 None 2%positive]}) as ->
    by (vm_compute; reflexivity). by intros [<- <-]%lookup_singleton_Some.
Defined.
