(* ===== verification/PidNamespace.v ===== *)
(** * PID namespaces
    (src/native/shroot/src/pid_namespace.c and pid_namespace.h).

    Nested PID namespaces with their number tables, the identities of guest
    tasks (one number per level), reservation before clone, publication, lookup,
    exit of PID 1 and reaping.  Namespaces and identities are heap objects; a
    [pid_number] embedded in an identity is named by the identity and its index.
    The per-namespace mutex makes each operation atomic, so each is one step
    here. *)
From S2P Require Import Prelude.
From S2P Require Import UserNamespace.
From S2P Require Import UserCharge.
From S2P Require Import GuestIdentity.

Definition MD_PID_LEVELS : Z := 32.
Definition MD_PID_MAX : Z := 4194304.
Definition PID_BUCKETS : Z := 127.
Definition CAP_SYS_BOOT : Z := 22.
Definition LINUX_REBOOT_MAGIC1 : Z := 4276215469.
Definition LINUX_REBOOT_MAGIC2 : Z := 672274793.
Definition LINUX_REBOOT_MAGIC2A : Z := 85072278.
Definition LINUX_REBOOT_MAGIC2B : Z := 369367448.
Definition LINUX_REBOOT_MAGIC2C : Z := 537993216.
Definition LINUX_REBOOT_CMD_RESTART : Z := 19088743.
Definition LINUX_REBOOT_CMD_RESTART2 : Z := 2712847316.
Definition LINUX_REBOOT_CMD_HALT : Z := 3454992675.
Definition LINUX_REBOOT_CMD_POWER_OFF : Z := 1126301404.
Definition SIGHUP : Z := 1.
Definition SIGINT : Z := 2.

(** ** Data *)

(** An entry of a number table: which identity's which number, and the number. *)
Record pid_number := mk_number { pn_identity : loc; pn_index : nat; pn_number : Z }.
Record md_pid_namespace := mk_pidns {
  ns_references : Z; ns_parent : option loc; ns_owner : option loc; ns_inode : Z; ns_depth : Z;
  ns_next : Z; ns_dead : bool; ns_reboot_signal : Z; ns_initialized : bool;
  ns_numbers : gmap Z (list pid_number) }.
Record md_pid_identity := mk_pid {
  pi_references : Z; pi_space : loc; pi_native : Z; pi_group : Z; pi_live : bool; pi_subreaper : bool;
  pi_reaped : bool; pi_numbers : list (loc * Z) }.
Record pid_state := mk_pids {
  ps_spaces : gmap loc md_pid_namespace; ps_ids : gmap loc md_pid_identity;
  ps_registry : list loc; ps_users : world }.

Definition upd_ns (s : pid_state) (n : loc) (f : md_pid_namespace → md_pid_namespace) : pid_state :=
  mk_pids (alter f n (ps_spaces s)) (ps_ids s) (ps_registry s) (ps_users s).
Definition upd_pid (s : pid_state) (p : loc) (f : md_pid_identity → md_pid_identity) : pid_state :=
  mk_pids (ps_spaces s) (alter f p (ps_ids s)) (ps_registry s) (ps_users s).

Definition ns_set_numbers (t : gmap Z (list pid_number)) (n : md_pid_namespace) : md_pid_namespace :=
  mk_pidns (ns_references n) (ns_parent n) (ns_owner n) (ns_inode n) (ns_depth n) (ns_next n) (ns_dead n)
    (ns_reboot_signal n) (ns_initialized n) t.
Definition ns_set_next (x : Z) (n : md_pid_namespace) : md_pid_namespace :=
  mk_pidns (ns_references n) (ns_parent n) (ns_owner n) (ns_inode n) (ns_depth n) x (ns_dead n)
    (ns_reboot_signal n) (ns_initialized n) (ns_numbers n).
Definition ns_add_references (d : Z) (n : md_pid_namespace) : md_pid_namespace :=
  mk_pidns (wrap32 (ns_references n + d)) (ns_parent n) (ns_owner n) (ns_inode n) (ns_depth n) (ns_next n)
    (ns_dead n) (ns_reboot_signal n) (ns_initialized n) (ns_numbers n).
Definition ns_set_dead (n : md_pid_namespace) : md_pid_namespace :=
  mk_pidns (ns_references n) (ns_parent n) (ns_owner n) (ns_inode n) (ns_depth n) (ns_next n) true
    (ns_reboot_signal n) (ns_initialized n) (ns_numbers n).
Definition ns_set_reboot (x : Z) (n : md_pid_namespace) : md_pid_namespace :=
  mk_pidns (ns_references n) (ns_parent n) (ns_owner n) (ns_inode n) (ns_depth n) (ns_next n) (ns_dead n)
    x (ns_initialized n) (ns_numbers n).
Definition ns_set_initialized (n : md_pid_namespace) : md_pid_namespace :=
  mk_pidns (ns_references n) (ns_parent n) (ns_owner n) (ns_inode n) (ns_depth n) (ns_next n) (ns_dead n)
    (ns_reboot_signal n) true (ns_numbers n).
Definition pi_add_references (d : Z) (p : md_pid_identity) : md_pid_identity :=
  mk_pid (wrap32 (pi_references p + d)) (pi_space p) (pi_native p) (pi_group p) (pi_live p) (pi_subreaper p)
    (pi_reaped p) (pi_numbers p).
Definition pi_set_numbers (l : list (loc * Z)) (p : md_pid_identity) : md_pid_identity :=
  mk_pid (pi_references p) (pi_space p) (pi_native p) (pi_group p) (pi_live p) (pi_subreaper p) (pi_reaped p) l.
Definition pi_set_live (b : bool) (p : md_pid_identity) : md_pid_identity :=
  mk_pid (pi_references p) (pi_space p) (pi_native p) (pi_group p) b (pi_subreaper p) (pi_reaped p) (pi_numbers p).
Definition pi_set_reaped (b : bool) (p : md_pid_identity) : md_pid_identity :=
  mk_pid (pi_references p) (pi_space p) (pi_native p) (pi_group p) (pi_live p) (pi_subreaper p) b (pi_numbers p).

(** ** Accessors; a NULL namespace is the native one *)

Definition ns_at (s : pid_state) (n : option loc) : option md_pid_namespace := n ≫= λ l, ps_spaces s !! l.
Definition pid_at (s : pid_state) (p : option loc) : option md_pid_identity := p ≫= λ l, ps_ids s !! l.
Definition md_pid_namespace_parent (s : pid_state) (n : option loc) : option loc := ns_at s n ≫= ns_parent.
Definition md_pid_namespace_owner (s : pid_state) (n : option loc) : option loc := ns_at s n ≫= ns_owner.
Definition md_pid_namespace_inode (s : pid_state) (n : option loc) : Z :=
  match ns_at s n with Some x => ns_inode x | None => 4026531836 end.
Definition md_pid_namespace_depth (s : pid_state) (n : option loc) : Z :=
  match ns_at s n with Some x => ns_depth x | None => 0 end.
Definition md_pid_namespace_dead (s : pid_state) (n : option loc) : bool :=
  match ns_at s n with Some x => ns_dead x | None => false end.
Definition md_pid_namespace_initialized (s : pid_state) (n : option loc) : bool :=
  match ns_at s n with Some x => ns_initialized x | None => true end.
Definition md_pid_identity_namespace (s : pid_state) (p : option loc) : option loc := pi_space <$> pid_at s p.
Definition md_pid_identity_native (s : pid_state) (p : option loc) : Z := default 0 (pi_native <$> pid_at s p).
Definition md_pid_identity_group (s : pid_state) (p : option loc) : Z := default 0 (pi_group <$> pid_at s p).
Definition md_pid_identity_live (s : pid_state) (p : option loc) : bool := default false (pi_live <$> pid_at s p).
Definition md_pid_identity_subreaper (s : pid_state) (p : option loc) : bool :=
  default false (pi_subreaper <$> pid_at s p).
Definition md_pid_identity_set_subreaper (s : pid_state) (p : option loc) (value : Z) : pid_state :=
  match p with
  | None => s
  | Some l => upd_pid s l (λ p, mk_pid (pi_references p) (pi_space p) (pi_native p) (pi_group p) (pi_live p)
                (negb (value =? 0)) (pi_reaped p) (pi_numbers p))
  end.
Definition md_pid_identity_number (s : pid_state) (p n : option loc) : Z :=
  match pid_at s p with
  | None => 0
  | Some x =>
      match n with
      | None => pi_native x
      | Some l => default 0 (snd <$> List.find (λ e, bool_decide (fst e = l)) (pi_numbers x))
      end
  end.

(** ** Number tables: buckets of chains *)

Definition bucket (number : Z) : Z := number mod PID_BUCKETS.
Definition chain_of (t : gmap Z (list pid_number)) (b : Z) : list pid_number := default [] (t !! b).
Definition slot (t : gmap Z (list pid_number)) (number : Z) : option pid_number :=
  List.find (λ e, pn_number e =? number) (chain_of t (bucket number)).
(** [*slot(n,next) = number]: the link found is the chain's end. *)
Definition table_add (t : gmap Z (list pid_number)) (e : pid_number) : gmap Z (list pid_number) :=
  <[bucket (pn_number e) := chain_of t (bucket (pn_number e)) ++ [e]]> t.
(** Unlink the entry of this number when it is this very [pid_number]. *)
Fixpoint chain_remove (p : loc) (i : nat) (number : Z) (l : list pid_number) : list pid_number :=
  match l with
  | [] => []
  | e :: l =>
      if pn_number e =? number then
        if bool_decide (pn_identity e = p) && Nat.eqb (pn_index e) i then l else e :: l
      else e :: chain_remove p i number l
  end.
Definition table_remove (t : gmap Z (list pid_number)) (p : loc) (i : nat) (number : Z) : gmap Z (list pid_number) :=
  <[bucket number := chain_remove p i number (chain_of t (bucket number))]> t.
Definition table_entries (t : gmap Z (list pid_number)) : list pid_number :=
  flat_map (chain_of t) (Z.of_nat <$> seq 0 (Z.to_nat PID_BUCKETS)).

(** ** Reservation *)

Definition pid_succ (x : Z) : Z := if x =? MD_PID_MAX - 1 then 2 else x + 1.

(** The search loop: it stops at a free number or back at [start].  A table of
    [m] entries is left after at most [m + 1] turns, see [scan_enough]. *)
Fixpoint scan (fuel : nat) (t : gmap Z (list pid_number)) (start next : Z) : Z :=
  match fuel with
  | O => next
  | S fuel =>
      match slot t next with
      | None => next
      | Some _ => let next := pid_succ next in
                  if next =? start then next else scan fuel t start next
      end
  end.
Definition scan_fuel (t : gmap Z (list pid_number)) : nat := S (length (table_entries t)).

Definition reserve_start (n : md_pid_namespace) (selected : Z) : Z :=
  if negb (selected =? 0) then selected
  else if negb (ns_initialized n) && bool_decide (slot (ns_numbers n) 1 = None) then 1
  else if ns_next n <? 2 then 2 else ns_next n.

(** The number taken and the namespace after it, or the error. *)
Definition reserve_in (n : md_pid_namespace) (p : loc) (i : nat) (selected : Z) : (md_pid_namespace * Z) + Z :=
  let t := ns_numbers n in
  if ns_dead n then inr (- ENOMEM)
  else if negb (selected =? 0) && negb (selected =? 1) && negb (ns_initialized n) then inr (- EINVAL)
  else if negb (selected =? 0) && negb (bool_decide (slot t selected = None)) then inr (- EEXIST)
  else
    let start := reserve_start n selected in
    let next := scan (scan_fuel t) t start start in
    if negb (bool_decide (slot t next = None)) then inr (- EAGAIN)
    else
      let n1 := ns_set_numbers (table_add t (mk_number p i next)) n in
      inl (if selected =? 0 then ns_set_next (pid_succ next) n1 else n1, next).

Definition reserve (s : pid_state) (n p : loc) (i : nat) (selected : Z) : pid_state * (Z + Z) :=
  match ps_spaces s !! n with
  | None => (s, inr (- EFAULT))
  | Some x =>
      match reserve_in x p i selected with
      | inr e => (s, inr e)
      | inl (x', number) =>
          (mk_pids (<[n := x']> (ps_spaces s)) (ps_ids s) (ps_registry s) (ps_users s), inl number)
      end
  end.

(** ** Lifetime *)

Definition md_pid_namespace_retain (s : pid_state) (n : option loc) : pid_state :=
  match n with Some l => upd_ns s l (ns_add_references 1) | None => s end.

(** The recursion follows the parents, at most [MD_PID_LEVELS] of them. *)
Fixpoint pid_namespace_release (fuel : nat) (s : pid_state) (n : option loc) : pid_state :=
  match fuel, n with
  | S fuel, Some l =>
      match ps_spaces s !! l with
      | None => s
      | Some x =>
          let s1 := upd_ns s l (ns_add_references (-1)) in
          if negb (ns_references x =? 1) then s1
          else
            let s2 := mk_pids (ps_spaces s1) (ps_ids s1) (unlink l (ps_registry s1))
                        (ps_users s1) in
            let s3 := pid_namespace_release fuel s2 (ns_parent x) in
            mk_pids (delete l (ps_spaces s3)) (ps_ids s3) (ps_registry s3)
              (md_user_namespace_release (ps_users s3) (ns_owner x))
      end
  | _, _ => s
  end.
Definition md_pid_namespace_release (s : pid_state) (n : option loc) : pid_state :=
  pid_namespace_release (S (Z.to_nat MD_PID_LEVELS)) s n.

Definition md_pid_identity_retain (s : pid_state) (p : option loc) : pid_state :=
  match p with Some l => upd_pid s l (pi_add_references 1) | None => s end.
(** The compare-and-exchange loop succeeds unless the count is 0 or saturated. *)
Definition try_retain (s : pid_state) (p : loc) : pid_state * option loc :=
  match ps_ids s !! p with
  | Some x => if negb (pi_references x =? 0) && (pi_references x <? UINT32_MAX)
              then (upd_pid s p (pi_add_references 1), Some p) else (s, None)
  | None => (s, None)
  end.

Fixpoint unreserve_loop (s : pid_state) (p : loc) (i : nat) (numbers : list (loc * Z)) : pid_state :=
  match numbers with
  | [] => s
  | (n, number) :: numbers =>
      unreserve_loop (upd_ns s n (λ x, ns_set_numbers (table_remove (ns_numbers x) p i number) x)) p (S i) numbers
  end.
Definition unreserve (s : pid_state) (p : loc) : pid_state :=
  match ps_ids s !! p with Some x => unreserve_loop s p 0 (pi_numbers x) | None => s end.

Definition md_pid_identity_release (s : pid_state) (p : option loc) : pid_state :=
  match p with
  | None => s
  | Some l =>
      match ps_ids s !! l with
      | None => s
      | Some x =>
          let s1 := upd_pid s l (pi_add_references (-1)) in
          if negb (pi_references x =? 1) then s1
          else
            let s2 := md_pid_namespace_release (unreserve s1 l) (Some (pi_space x)) in
            mk_pids (ps_spaces s2) (delete l (ps_ids s2)) (ps_registry s2) (ps_users s2)
      end
  end.

(** What the system answers during [md_pid_namespace_new]. *)
Record pidns_env := mk_pidns_env { pe_calloc : bool; pe_mutex : Z; pe_identity : Z + Z }.
Definition md_pid_namespace_new (s : pid_state) (parent owner : option loc) (env : pidns_env) : pid_state * (loc + Z) :=
  if MD_PID_LEVELS <=? md_pid_namespace_depth s parent then (s, inr ENOSPC)
  else if match ns_at s parent with
          | Some x => negb (md_user_namespace_contains (ps_users s) (ns_owner x) owner)
          | None => false
          end then (s, inr EINVAL)
  else if negb (pe_calloc env) then (s, inr ENOMEM)
  else if negb (pe_mutex env =? 0) then (s, inr (pe_mutex env))
  else match pe_identity env with
  | inr e => (s, inr e)
  | inl inode =>
      let l := fresh (dom (ps_spaces s)) in
      let s1 := md_pid_namespace_retain s parent in
      let x := mk_pidns 1 parent owner inode (md_pid_namespace_depth s parent + 1) 1 false 0 false ∅ in
      (mk_pids (<[l := x]> (ps_spaces s1)) (ps_ids s1) (l :: ps_registry s1)
         (md_user_namespace_retain (ps_users s1) owner), inl l)
  end.

Definition md_pid_namespace_by_inode (s : pid_state) (inode : Z) : pid_state * option loc :=
  match List.find (λ l, match ps_spaces s !! l with Some x => ns_inode x =? inode | None => false end)
          (ps_registry s) with
  | None => (s, None)
  | Some l =>
      match ps_spaces s !! l with
      | Some x => if negb (ns_references x =? 0) && (ns_references x <? UINT32_MAX)
                  then (upd_ns s l (ns_add_references 1), Some l) else (s, None)
      | None => (s, None)
      end
  end.

(** ** Preparation, publication and retirement *)

(** The namespaces from [n] outwards, without the native one. *)
Fixpoint pid_chain (fuel : nat) (s : pid_state) (n : option loc) : list loc :=
  match fuel, n with
  | S fuel, Some l =>
      match ps_spaces s !! l with Some x => l :: pid_chain fuel s (ns_parent x) | None => [] end
  | _, _ => []
  end.
Definition pid_spaces (s : pid_state) (n : option loc) : list loc := pid_chain (Z.to_nat MD_PID_LEVELS) s n.

Definition md_pid_namespace_contains (s : pid_state) (parent child : option loc) : bool :=
  match parent with
  | None => true
  | Some l => existsb (λ k, bool_decide (k = l)) (pid_spaces s child)
  end.

(** The checks on a number the caller selected for this level. *)
Definition selected_error (s : pid_state) (id : option md_identity) (n : loc) (requested : Z) : Z :=
  if (requested <? 1) || (MD_PID_MAX <=? requested) then - EINVAL
  else match id with
       | Some v =>
           let h := mk_heap (ps_users s) ∅ in
           let owner := md_pid_namespace_owner s (Some n) in
           if negb (md_identity_capable_in h v owner CAP_CHECKPOINT_RESTORE)
              && negb (md_identity_capable_in h v owner CAP_SYS_ADMIN) then - EPERM else 0
       | None => 0
       end.

(** The loop over the levels; [count] is how many numbers [p] has so far. *)
Fixpoint prepare_loop (s : pid_state) (p : loc) (id : option md_identity) (selected : list Z)
    (spaces : list loc) (count : nat) : pid_state * Z :=
  match spaces with
  | [] => (s, 0)
  | n :: spaces =>
      let requested := default 0 (selected !! count) in
      let error := if bool_decide (is_Some (selected !! count)) then selected_error s id n requested else 0 in
      if negb (error =? 0) then (md_pid_identity_release s (Some p), error)
      else match reserve s n p count requested with
           | (s1, inr e) => (md_pid_identity_release s1 (Some p), e)
           | (s1, inl number) =>
               prepare_loop (upd_pid s1 p (λ x, pi_set_numbers (pi_numbers x ++ [(n, number)]) x))
                 p id selected spaces (S count)
           end
  end.
Definition md_pid_identity_prepare_selected (s : pid_state) (space : option loc) (id : option md_identity)
    (selected : list Z) (calloc : bool) : pid_state * option loc * Z :=
  let count := Z.of_nat (length selected) in
  if (md_pid_namespace_depth s space <? count)
     || (negb (count =? 0) && negb (bool_decide (is_Some id))) then (s, None, - EINVAL)
  else match space with
  | None => (s, None, 0)
  | Some l =>
      if negb calloc then (s, None, - ENOMEM)
      else
        let p := fresh (dom (ps_ids s)) in
        let s1 := md_pid_namespace_retain s space in
        let s2 := mk_pids (ps_spaces s1) (<[p := mk_pid 1 l 0 0 false false false []]> (ps_ids s1))
                    (ps_registry s1) (ps_users s1) in
        let '(s3, error) := prepare_loop s2 p id selected (pid_spaces s space) 0 in
        if negb (error =? 0) then (s3, None, error) else (s3, Some p, 0)
  end.
Definition md_pid_identity_prepare (s : pid_state) (space : option loc) (calloc : bool) : pid_state * option loc * Z :=
  md_pid_identity_prepare_selected s space None [] calloc.

Definition md_pid_identity_publish (s : pid_state) (p : option loc) (native group : Z) : pid_state * Z :=
  match p with
  | None => (s, 0)
  | Some l =>
      match ps_ids s !! l with
      | None => (s, - EFAULT)
      | Some x =>
          if (native <=? 0) || (group <=? 0) || negb (pi_native x =? 0) then (s, - EINVAL)
          else
            let s1 := foldl (λ s e, if snd e =? 1 then upd_ns s (fst e) ns_set_initialized else s) s (pi_numbers x) in
            (upd_pid s1 l (λ p, mk_pid (pi_references p) (pi_space p) native group true (pi_subreaper p)
               (pi_reaped p) (pi_numbers p)), 0)
      end
  end.

Definition md_pid_identity_exit (s : pid_state) (p : option loc) : pid_state * bool :=
  match p with
  | None => (s, false)
  | Some l =>
      match ps_ids s !! l with
      | None => (s, false)
      | Some x =>
          let s1 := upd_pid s l (pi_set_live false) in
          if negb (pi_live x) then (s1, false)
          else match ps_spaces s1 !! pi_space x with
          | None => (s1, false)
          | Some n =>
              let group := pi_group x in
              let same q := md_pid_identity_group s1 (Some q) =? group in
              let init := match slot (ns_numbers n) 1 with Some e => same (pn_identity e) | None => false end in
              let last := init && negb (existsb (λ e, md_pid_identity_live s1 (Some (pn_identity e))
                                                     && same (pn_identity e)) (table_entries (ns_numbers n))) in
              (if last then upd_ns s1 (pi_space x) ns_set_dead else s1, last)
          end
      end
  end.

Definition md_pid_identity_reap (s : pid_state) (p : option loc) : pid_state :=
  match p with
  | None => s
  | Some l => if md_pid_identity_live s p then s else unreserve (upd_pid s l (pi_set_reaped true)) l
  end.

Definition md_pid_identity_exec (s : pid_state) (thread group : option loc) : pid_state :=
  match thread, group with
  | Some t, Some g =>
      if bool_decide (t = g) then s
      else upd_pid (upd_pid (upd_pid s g (pi_set_reaped false)) g (pi_set_live true)) t (pi_set_live false)
  | _, _ => s
  end.

(** ** Lookup *)

Definition published (s : pid_state) (p : loc) : bool :=
  negb (md_pid_identity_native s (Some p) =? 0) && negb (default false (pi_reaped <$> pid_at s (Some p))).

Definition md_pid_namespace_lookup (s : pid_state) (n : option loc) (visible : Z) : pid_state * option loc :=
  match n with
  | None => (s, None)
  | Some l =>
      if visible <=? 0 then (s, None)
      else match ps_spaces s !! l with
      | None => (s, None)
      | Some x =>
          match slot (ns_numbers x) visible with
          | Some e => if published s (pn_identity e) then try_retain s (pn_identity e) else (s, None)
          | None => (s, None)
          end
      end
  end.

(** The scan stops at the first identity of that native number, whether or not it
    could be retained. *)
Fixpoint find_chain (s : pid_state) (native : Z) (es : list pid_number) : option (pid_state * option loc) :=
  match es with
  | [] => None
  | e :: es =>
      if (md_pid_identity_native s (Some (pn_identity e)) =? native)
         && negb (default false (pi_reaped <$> pid_at s (Some (pn_identity e))))
      then Some (try_retain s (pn_identity e)) else find_chain s native es
  end.
Fixpoint find_buckets (s : pid_state) (native : Z) (t : gmap Z (list pid_number)) (bs : list Z)
    : pid_state * option loc :=
  match bs with
  | [] => (s, None)
  | b :: bs =>
      match find_chain s native (chain_of t b) with
      | Some (s1, Some p) => (s1, Some p)
      | Some (s1, None) => find_buckets s1 native t bs
      | None => find_buckets s native t bs
      end
  end.
Definition md_pid_namespace_find (s : pid_state) (n : option loc) (native : Z) : pid_state * option loc :=
  match n with
  | None => (s, None)
  | Some l =>
      if native <=? 0 then (s, None)
      else match ps_spaces s !! l with
      | None => (s, None)
      | Some x => find_buckets s native (ns_numbers x) (Z.of_nat <$> seq 0 (Z.to_nat PID_BUCKETS))
      end
  end.

(** ** Exported numbers and reboot *)

Record md_pid_number_value := mk_value { v_namespace : Z; v_number : Z; v_reserved : Z }.
Definition md_pid_identity_export (s : pid_state) (p : option loc) : list md_pid_number_value :=
  match pid_at s p with
  | None => []
  | Some x => (λ e, mk_value (md_pid_namespace_inode s (Some (fst e))) (snd e) 0) <$> pi_numbers x
  end.

Fixpoint visible_loop (inode : Z) (vs : list md_pid_number_value) : Z :=
  match vs with
  | [] => 0
  | v :: vs =>
      if negb (v_reserved v =? 0) || (v_number v <=? 0) then - EPROTO
      else if v_namespace v =? inode then v_number v
      else visible_loop inode vs
  end.
(** [data] is the decoded array; its size is a multiple of the record size iff
    [whole]. *)
Definition md_pid_numbers_visible (s : pid_state) (data : list md_pid_number_value) (whole : bool)
    (space : option loc) (native : Z) : Z :=
  if negb whole || (MD_PID_LEVELS <? Z.of_nat (length data)) then - EPROTO
  else match space with
  | None => native
  | Some _ => if native <=? 0 then native else visible_loop (md_pid_namespace_inode s space) data
  end.

Definition md_pid_namespace_reboot (s : pid_state) (n : option loc) (id : md_identity)
    (magic magic2 command : Z) : Z :=
  match ns_at s n with
  | None => - EPERM
  | Some x =>
      if negb (md_identity_capable_in (mk_heap (ps_users s) ∅) id (ns_owner x) CAP_SYS_BOOT) then - EPERM
      else if negb (magic =? LINUX_REBOOT_MAGIC1)
              || (negb (magic2 =? LINUX_REBOOT_MAGIC2) && negb (magic2 =? LINUX_REBOOT_MAGIC2A)
                  && negb (magic2 =? LINUX_REBOOT_MAGIC2B) && negb (magic2 =? LINUX_REBOOT_MAGIC2C)) then - EINVAL
      else
        let signal := if (command =? LINUX_REBOOT_CMD_RESTART) || (command =? LINUX_REBOOT_CMD_RESTART2)
                      then Some SIGHUP
                      else if (command =? LINUX_REBOOT_CMD_HALT) || (command =? LINUX_REBOOT_CMD_POWER_OFF)
                      then Some SIGINT else None in
        match signal with
        | None => - EINVAL
        | Some signal => if ns_dead x then - ESRCH else signal
        end
  end.
Definition md_pid_namespace_reboot_started (s : pid_state) (n : loc) (signal : Z) : pid_state :=
  upd_ns s n (ns_set_reboot signal).
Definition md_pid_identity_reboot_signal (s : pid_state) (p : option loc) : Z :=
  match pid_at s p with
  | None => 0
  | Some x => if md_pid_identity_number s p (Some (pi_space x)) =? 1
              then default 0 (ns_reboot_signal <$> ps_spaces s !! pi_space x) else 0
  end.

(** ** Tables as finite maps *)

Record table_ok (t : gmap Z (list pid_number)) : Prop := {
  to_bucket : ∀ b e, e ∈ chain_of t b → bucket (pn_number e) = b;
  to_unique : ∀ b, NoDup (pn_number <$> chain_of t b) }.

Lemma bucket_range k : 0 ≤ bucket k < PID_BUCKETS.
Proof. apply Z.mod_pos_bound. done. Qed.

Lemma slot_Some t k e : slot t k = Some e → e ∈ chain_of t (bucket k) ∧ pn_number e = k.
Proof. unfold slot. intros [He Hk]%find_some. rewrite list_elem_of_In. split; [done|]. by apply Z.eqb_eq. Qed.
Lemma slot_None t k e : slot t k = None → e ∈ chain_of t (bucket k) → pn_number e ≠ k.
Proof.
  unfold slot. intros H He E. rewrite list_elem_of_In in He. pose proof (find_none _ _ H e He) as Hn.
  cbn in Hn. breflect. done.
Qed.

Lemma slot_elem t e : table_ok t → e ∈ table_entries t → slot t (pn_number e) = Some e.
Proof.
  intros [Hb Hu] He. unfold table_entries in He. rewrite list_elem_of_In, in_flat_map in He.
  destruct He as (b&_&Hin). rewrite <- list_elem_of_In in Hin. pose proof (Hb b e Hin) as Eb. subst b.
  destruct (slot t (pn_number e)) as [e'|] eqn:Hs.
  - apply slot_Some in Hs as [Hin' E]. f_equal. specialize (Hu (bucket (pn_number e))).
    apply list_elem_of_lookup in Hin as [i Hi], Hin' as [j Hj].
    assert (i = j) as <-; [|congruence]. eapply NoDup_lookup; [exact Hu| |].
    + rewrite list_lookup_fmap, Hi. reflexivity.
    + rewrite list_lookup_fmap, Hj. cbn. by rewrite E.
  - exfalso. by eapply slot_None.
Qed.
Lemma slot_entry t k e : slot t k = Some e → e ∈ table_entries t.
Proof.
  intros [Hin Hk]%slot_Some. unfold table_entries. rewrite list_elem_of_In, in_flat_map. exists (bucket k).
  rewrite <- list_elem_of_In. split; [|by rewrite <- list_elem_of_In].
  apply list_elem_of_fmap. exists (Z.to_nat (bucket k)). pose proof (bucket_range k).
  split; [lia|]. rewrite list_elem_of_In, in_seq. unfold PID_BUCKETS in *. lia.
Qed.

Lemma chain_add t e b :
  chain_of (table_add t e) b
  = if bool_decide (b = bucket (pn_number e)) then chain_of t b ++ [e] else chain_of t b.
Proof.
  unfold chain_of, table_add. destruct (decide (b = bucket (pn_number e))) as [->|Hne].
  - by rewrite bool_decide_true, lookup_insert_eq.
  - by rewrite bool_decide_false, lookup_insert_ne.
Qed.

Lemma find_snoc {A} (f : A → bool) l x :
  List.find f (l ++ [x]) = match List.find f l with Some y => Some y | None => if f x then Some x else None end.
Proof. induction l as [|y l IH]; cbn; [done|]. by destruct (f y). Qed.

Lemma slot_add t e k :
  slot t (pn_number e) = None →
  slot (table_add t e) k = if bool_decide (k = pn_number e) then Some e else slot t k.
Proof.
  intros Hn. unfold slot. rewrite chain_add. destruct (decide (k = pn_number e)) as [->|Hk].
  - rewrite !bool_decide_true by done. rewrite find_snoc. unfold slot in Hn. by rewrite Hn, Z.eqb_refl.
  - rewrite (bool_decide_false (k = _)) by done. case_bool_decide; [|done]. rewrite find_snoc.
    destruct (List.find _ _); [done|]. by apply Z.eqb_neq in Hk; rewrite Z.eqb_sym, Hk.
Qed.

Lemma table_add_ok t e : table_ok t → slot t (pn_number e) = None → table_ok (table_add t e).
Proof.
  intros [Hb Hu] Hn. split.
  - intros b x. rewrite chain_add. case_bool_decide; [|apply Hb]. rewrite elem_of_app, list_elem_of_singleton.
    intros [Hx| ->]; [by apply Hb|done].
  - intros b. rewrite chain_add. case_bool_decide as E; [|done]. rewrite fmap_app. cbn. apply NoDup_app. split_and!; auto.
    + intros k (x&->&Hx)%list_elem_of_fmap. rewrite list_elem_of_singleton. subst b. by eapply slot_None.
    + apply NoDup_singleton.
Qed.

Lemma chain_remove_sub p i k l : chain_remove p i k l `sublist_of` l.
Proof.
  induction l as [|e l IH]; cbn; [done|]. case_if; [case_if|]; [by apply sublist_cons|reflexivity|by apply sublist_skip].
Qed.

Lemma chain_remove_find p i k l k' :
  NoDup (pn_number <$> l) →
  List.find (λ e, pn_number e =? k') (chain_remove p i k l)
  = match List.find (λ e, pn_number e =? k') l with
    | Some e => if (k' =? k) && bool_decide (pn_identity e = p) && Nat.eqb (pn_index e) i then None else Some e
    | None => None
    end.
Proof.
  induction l as [|e l IH]; cbn [chain_remove List.find fmap list_fmap]; [done|]. intros [Hn Hnd]%NoDup_cons.
  assert (List.find (λ x, pn_number x =? pn_number e) l = None) as Hnone.
  { destruct (List.find (λ x, pn_number x =? pn_number e) l) as [x|] eqn:Hf; [|done].
    apply find_some in Hf as [Hx Hk]. breflect. exfalso. apply Hn. rewrite <- Hk. apply list_elem_of_fmap_2. by rewrite list_elem_of_In. }
  destruct (Z.eqb_spec (pn_number e) k) as [<-|Hk].
  - destruct (bool_decide (pn_identity e = p) && Nat.eqb (pn_index e) i) eqn:Hs.
    + destruct (Z.eqb_spec (pn_number e) k') as [<-|Hk'].
      * rewrite Z.eqb_refl, Hnone. cbn. by rewrite Hs.
      * apply not_eq_sym, Z.eqb_neq in Hk'. rewrite Hk'. cbn. by destruct (List.find _ l).
    + cbn [List.find]. destruct (Z.eqb_spec (pn_number e) k') as [<-|Hk'].
      * rewrite Z.eqb_refl. cbn. by rewrite Hs.
      * apply not_eq_sym, Z.eqb_neq in Hk'. rewrite Hk'. cbn. by destruct (List.find _ l).
  - cbn [List.find]. destruct (Z.eqb_spec (pn_number e) k') as [<-|Hk']; [|by apply IH].
    apply Z.eqb_neq in Hk. by rewrite Hk.
Qed.

Lemma slot_remove t p i k k' :
  table_ok t →
  slot (table_remove t p i k) k'
  = match slot t k' with
    | Some e => if (k' =? k) && bool_decide (pn_identity e = p) && Nat.eqb (pn_index e) i then None else Some e
    | None => None
    end.
Proof.
  intros [_ Hu]. unfold slot, table_remove. unfold chain_of at 1.
  destruct (decide (bucket k = bucket k')) as [E|E].
  - rewrite E, lookup_insert_eq. cbn. by apply chain_remove_find.
  - rewrite lookup_insert_ne by done. fold (chain_of t (bucket k')). destruct (List.find _ _); [|done].
    destruct (Z.eqb_spec k' k) as [->|]; done.
Qed.

Lemma table_remove_ok t p i k : table_ok t → table_ok (table_remove t p i k).
Proof.
  intros [Hb Hu]. assert (∀ b, chain_of (table_remove t p i k) b `sublist_of` chain_of t b) as Hsub.
  { intros b. unfold table_remove, chain_of at 1. rewrite lookup_insert. case_decide; [subst|done].
    cbn. apply chain_remove_sub. }
  split.
  - intros b e He. apply Hb. eapply elem_of_submseteq; [exact He|]. by apply sublist_submseteq.
  - intros b. eapply sublist_NoDup; [apply (Hu b)|apply fmap_sublist, Hsub].
Qed.

Lemma table_empty_ok : table_ok ∅.
Proof.
  split; intros b; unfold chain_of; rewrite lookup_empty; cbn; [by intros e ?%elem_of_nil|constructor].
Qed.

(** ** The scan finds a free number whenever there is one *)

Definition pid_iter (j : nat) (x : Z) : Z := Nat.iter j pid_succ x.
Definition PID_CYCLE : Z := MD_PID_MAX - 2.

Lemma pid_iter_closed j x :
  2 ≤ x < MD_PID_MAX → pid_iter j x = 2 + (x - 2 + Z.of_nat j) mod PID_CYCLE.
Proof.
  intros Hx. unfold PID_CYCLE, MD_PID_MAX in *. induction j as [|j IH].
  - cbn. rewrite Z.add_0_r, Z.mod_small; lia.
  - unfold pid_iter in *. rewrite Nat.iter_succ, IH. unfold pid_succ, MD_PID_MAX.
    destruct (Z.eqb_spec (2 + (x - 2 + Z.of_nat j) mod (4194304 - 2)) (4194304 - 1)); divlia.
Qed.
Lemma pid_iter_range j x : 2 ≤ x < MD_PID_MAX → 2 ≤ pid_iter j x < MD_PID_MAX.
Proof. intros Hx. rewrite pid_iter_closed by done. unfold PID_CYCLE, MD_PID_MAX in *. divlia. Qed.
Lemma pid_iter_inj i j x :
  2 ≤ x < MD_PID_MAX → Z.of_nat i < PID_CYCLE → Z.of_nat j < PID_CYCLE → pid_iter i x = pid_iter j x → i = j.
Proof. intros Hx. rewrite !pid_iter_closed by done. unfold PID_CYCLE, MD_PID_MAX in *. divlia. Qed.
Lemma pid_iter_back j x :
  2 ≤ x < MD_PID_MAX → (0 < j)%nat → pid_iter j x = x → PID_CYCLE ≤ Z.of_nat j.
Proof. intros Hx. rewrite pid_iter_closed by done. unfold PID_CYCLE, MD_PID_MAX in *. divlia. Qed.
Lemma pid_iter_covers x k :
  2 ≤ x < MD_PID_MAX → 2 ≤ k < MD_PID_MAX → ∃ j, Z.of_nat j < PID_CYCLE ∧ pid_iter j x = k.
Proof.
  intros Hx Hk. exists (Z.to_nat ((k - x) mod PID_CYCLE)). rewrite pid_iter_closed by done.
  unfold PID_CYCLE, MD_PID_MAX in *. divlia.
Qed.

(** Everything the scan stepped over was taken, and it stopped for a reason. *)
Lemma scan_trace f t start next :
  ∃ m, (m ≤ f)%nat ∧ scan f t start next = pid_iter m next
    ∧ (∀ j, (j < m)%nat → slot t (pid_iter j next) ≠ None)
    ∧ (slot t (pid_iter m next) = None ∨ m = f ∨ ((0 < m)%nat ∧ pid_iter m next = start)).
Proof.
  revert next; induction f as [|f IH]; intros next; cbn [scan].
  - exists 0%nat. split_and!; auto. lia.
  - destruct (slot t next) as [e|] eqn:Hs.
    2: { exists 0%nat. split_and!; [lia|done|lia|by left]. }
    destruct (Z.eqb_spec (pid_succ next) start) as [E|E].
    + exists 1%nat. split_and!; [lia|done| |right; right; split; [lia|done]].
      intros j Hj. assert (j = 0)%nat as -> by lia. cbn. congruence.
    + destruct (IH (pid_succ next)) as (m&Hm&Hr&Hused&Hstop). exists (S m).
      assert (∀ j, pid_iter (S j) next = pid_iter j (pid_succ next)) as Hs'.
      { intros j. unfold pid_iter. by rewrite Nat.iter_succ_r. }
      rewrite Hs'. split_and!; [lia|done| |].
      * intros [|j] Hj; [cbn; congruence|]. rewrite Hs'. apply Hused. lia.
      * destruct Hstop as [|[->|[? ?]]]; [by left|by right; left|right; right; split; [lia|done]].
Qed.

Lemma used_bound t x m :
  table_ok t → 2 ≤ x < MD_PID_MAX → Z.of_nat m ≤ PID_CYCLE →
  (∀ j, (j < m)%nat → slot t (pid_iter j x) ≠ None) → (m ≤ length (table_entries t))%nat.
Proof.
  intros Ht Hx Hm Hused. set (l := (λ j, pid_iter j x) <$> seq 0 m).
  assert (length l = m) as Hl by (unfold l; by rewrite length_fmap, length_seq).
  rewrite <- Hl, <- (length_fmap pn_number). apply submseteq_length, NoDup_submseteq.
  - unfold l. apply NoDup_fmap_2_strong; [|apply NoDup_seq]. intros i j Hi Hj E.
    rewrite elem_of_seq in Hi, Hj. eapply pid_iter_inj; [exact Hx|lia|lia|done].
  - intros k (j&->&Hj)%list_elem_of_fmap. rewrite elem_of_seq in Hj.
    destruct (slot t (pid_iter j x)) as [e|] eqn:Hs; [|exfalso; apply (Hused j); [lia|done]].
    apply list_elem_of_fmap. exists e. split; [by apply slot_Some in Hs as [_ ->]|by eapply slot_entry].
Qed.

Lemma scan_enough t start :
  table_ok t → 2 ≤ start < MD_PID_MAX →
  slot t (scan (scan_fuel t) t start start) = None
  ∨ (∀ k, 2 ≤ k < MD_PID_MAX → slot t k ≠ None).
Proof.
  intros Ht Hs. destruct (scan_trace (scan_fuel t) t start start) as (m&Hm&->&Hused&Hstop).
  destruct Hstop as [|Hstop]; [by left|]. right.
  assert (PID_CYCLE ≤ Z.of_nat m) as Hcyc.
  { destruct (decide (Z.of_nat m ≤ PID_CYCLE)) as [Hle|]; [|lia].
    pose proof (used_bound t start m Ht Hs Hle Hused).
    destruct Hstop as [->|[H0 E]]; [unfold scan_fuel in *; lia|]. by apply pid_iter_back in E. }
  intros k Hk. destruct (pid_iter_covers start k Hs Hk) as (j&Hj&<-). apply Hused. lia.
Qed.

(** ** One reservation *)

Lemma scan_free t s : slot t s = None → scan (scan_fuel t) t s s = s.
Proof. intros H. unfold scan_fuel. cbn [scan]. by rewrite H. Qed.

Lemma scan_range t start next f :
  2 ≤ start < MD_PID_MAX → 2 ≤ next < MD_PID_MAX → 2 ≤ scan f t start next < MD_PID_MAX.
Proof.
  intros Hs Hn. destruct (scan_trace f t start next) as (m&_&->&_). by apply pid_iter_range.
Qed.

Record reserved (n : md_pid_namespace) (p : loc) (i : nat) (selected : Z) (n' : md_pid_namespace) (k : Z) : Prop := {
  rv_free : slot (ns_numbers n) k = None;
  rv_range : 1 ≤ k < MD_PID_MAX;
  rv_selected : selected ≠ 0 → k = selected;
  rv_first : k = 1 → selected = 1 ∨ ns_initialized n = false;
  rv_numbers : ns_numbers n' = table_add (ns_numbers n) (mk_number p i k);
  rv_next : 1 ≤ ns_next n' < MD_PID_MAX;
  rv_tree : ns_parent n' = ns_parent n ∧ ns_depth n' = ns_depth n ∧ ns_references n' = ns_references n
    ∧ ns_initialized n' = ns_initialized n ∧ ns_dead n' = ns_dead n }.

Lemma pid_succ_range k : 1 ≤ k < MD_PID_MAX → 1 ≤ pid_succ k < MD_PID_MAX.
Proof. unfold pid_succ, MD_PID_MAX. case_if; lia. Qed.

Lemma reserve_in_spec n p i selected :
  table_ok (ns_numbers n) → 1 ≤ ns_next n < MD_PID_MAX → 0 ≤ selected < MD_PID_MAX →
  match reserve_in n p i selected with
  | inl (n', k) => reserved n p i selected n' k ∧ ns_dead n = false
  | inr e => e < 0 ∧ (ns_dead n = true ∨ selected ≠ 0
               ∨ (e = - EAGAIN ∧ ∀ k, 2 ≤ k < MD_PID_MAX → slot (ns_numbers n) k ≠ None))
  end.
Proof.
  intros Ht Hn Hsel. unfold reserve_in. destruct (ns_dead n) eqn:Hd; [split; [done|by left]|].
  destruct (Z.eqb_spec selected 0) as [->|Hne]; cbn [negb andb].
  - assert (∀ k, slot (ns_numbers n) k = None → 1 ≤ k < MD_PID_MAX → (k = 1 → ns_initialized n = false) →
      reserved n p i 0 (ns_set_next (pid_succ k) (ns_set_numbers (table_add (ns_numbers n) (mk_number p i k)) n)) k) as Hok.
    { intros k Hk Hr H1. split; try done; [by intros; right; apply H1|]. cbn. by apply pid_succ_range. }
    unfold reserve_start. cbn [Z.eqb negb].
    destruct (negb (ns_initialized n) && bool_decide (slot (ns_numbers n) 1 = None)) eqn:Hinit.
    + apply andb_true_iff in Hinit as [Hi H1%bool_decide_eq_true]. apply negb_true_iff in Hi.
      rewrite scan_free, bool_decide_true by done. cbn [negb]. split; [|done]. apply Hok; done.
    + set (start := if ns_next n <? 2 then 2 else ns_next n).
      assert (2 ≤ start < MD_PID_MAX) as Hs.
      { unfold start. destruct (Z.ltb_spec (ns_next n) 2); unfold MD_PID_MAX in *; lia. }
      pose proof (scan_range (ns_numbers n) start start (scan_fuel (ns_numbers n)) Hs Hs) as Hr.
      destruct (scan_enough _ start Ht Hs) as [Hfree|Hfull].
      * rewrite bool_decide_true by done. cbn [negb]. split; [|done]. apply Hok; [done|lia|lia].
      * rewrite bool_decide_false by (apply Hfull, Hr). split; [done|]. auto.
  - case_if; [split; [done|auto]|]. destruct (slot (ns_numbers n) selected) eqn:Hslot.
    { rewrite bool_decide_false by done. cbn. split; [done|auto]. }
    rewrite (bool_decide_true (None = None)) by done. cbn [negb]. unfold reserve_start.
    apply Z.eqb_neq in Hne as Hne'. rewrite Hne'. cbn [negb]. rewrite scan_free, Hslot, bool_decide_true by done.
    cbn [negb]. split; [|done]. split; try done; lia || auto.
Qed.

(** ** Invariant of the whole state *)

(** Every number in a table belongs to the identity it names, at that level; an
    identity has one number per namespace; parents are live and shallower. *)
Record pids_ok (s : pid_state) : Prop := {
  po_table : ∀ n x, ps_spaces s !! n = Some x → table_ok (ns_numbers x) ∧ 1 ≤ ns_next x < MD_PID_MAX;
  po_entry : ∀ n x k e, ps_spaces s !! n = Some x → slot (ns_numbers x) k = Some e →
    ∃ y, ps_ids s !! pn_identity e = Some y ∧ pi_numbers y !! pn_index e = Some (n, k);
  po_numbers : ∀ p y, ps_ids s !! p = Some y → NoDup (fst <$> pi_numbers y);
  po_parent : ∀ n x m, ps_spaces s !! n = Some x → ns_parent x = Some m →
    ∃ y, ps_spaces s !! m = Some y ∧ ns_depth y < ns_depth x;
  po_owned : ∀ n x, ps_spaces s !! n = Some x → 1 ≤ ns_references x ≤ UINT32_MAX }.

(** States that differ in flags and counts only. *)
Definition ns_skel (x : md_pid_namespace) : option loc * Z * Z * gmap Z (list pid_number) :=
  (ns_parent x, ns_depth x, ns_next x, ns_numbers x).
Definition same_numbers (s s' : pid_state) : Prop :=
  (∀ n, ns_skel <$> ps_spaces s !! n = ns_skel <$> ps_spaces s' !! n)
  ∧ (∀ p, pi_numbers <$> ps_ids s !! p = pi_numbers <$> ps_ids s' !! p)
  ∧ (∀ n x, ps_spaces s' !! n = Some x → 1 ≤ ns_references x ≤ UINT32_MAX).

Lemma same_numbers_ok s s' : same_numbers s s' → pids_ok s → pids_ok s'.
Proof.
  intros (Hs&Hi&Hr) [Ht He Hn Hp _].
  assert (∀ n x', ps_spaces s' !! n = Some x' → ∃ x, ps_spaces s !! n = Some x ∧ ns_skel x = ns_skel x') as Hs'.
  { intros n x' Hx. specialize (Hs n). rewrite Hx in Hs. destruct (ps_spaces s !! n) as [x|]; [|done].
    injection Hs as E1 E2 E3 E4. exists x. unfold ns_skel. split; [done|congruence]. }
  split; [| | | |done].
  - intros n x' (x&Hx&[= _ _ <- <-])%Hs'. by apply (Ht n).
  - intros n x' k e (x&Hx&[= _ _ _ <-])%Hs' Hsl. destruct (He _ _ _ _ Hx Hsl) as (y&Hy&Hl).
    specialize (Hi (pn_identity e)). rewrite Hy in Hi. destruct (ps_ids s' !! pn_identity e) as [y'|]; [|done].
    injection Hi as E. exists y'. rewrite <- E. done.
  - intros p y' Hy'. specialize (Hi p). rewrite Hy' in Hi. destruct (ps_ids s !! p) as [y|] eqn:Hy; [|done].
    injection Hi as <-. by eapply Hn.
  - intros n x' m (x&Hx&[= <- <- _ _])%Hs' Hpar. destruct (Hp _ _ _ Hx Hpar) as (y&Hy&Hd).
    specialize (Hs m). rewrite Hy in Hs. destruct (ps_spaces s' !! m) as [y'|]; [|done].
    injection Hs as _ E _ _. exists y'. split; [done|lia].
Qed.

Lemma upd_pid_ok s p f :
  (∀ y, pi_numbers (f y) = pi_numbers y) → pids_ok s → pids_ok (upd_pid s p f).
Proof.
  intros Hf Hok. eapply same_numbers_ok; [|exact Hok]. split_and!; [done| |apply Hok].
  intros q. cbn. rewrite lookup_alter. case_decide; [subst|done].
  destruct (ps_ids s !! q); cbn; [by rewrite Hf|done].
Qed.
Lemma upd_ns_ok s n f :
  (∀ x, ns_skel (f x) = ns_skel x) →
  (∀ x, ps_spaces s !! n = Some x → 1 ≤ ns_references (f x) ≤ UINT32_MAX) →
  pids_ok s → pids_ok (upd_ns s n f).
Proof.
  intros Hf Hr Hok. eapply same_numbers_ok; [|exact Hok]. split_and!; [|done|].
  - intros m. cbn. rewrite lookup_alter. case_decide; [subst|done].
    destruct (ps_spaces s !! m); cbn; [by rewrite Hf|done].
  - intros m x. cbn. rewrite lookup_alter. case_decide; [subst|apply Hok].
    destruct (ps_spaces s !! m) eqn:Hm; cbn; [|done]. intros [= <-]. by apply Hr.
Qed.

(** ** What is visible of the tables *)

Definition vslot (s : pid_state) (n : loc) (k : Z) : option pid_number :=
  ps_spaces s !! n ≫= λ x, slot (ns_numbers x) k.
Definition without (p : loc) (o : option pid_number) : option pid_number :=
  o ≫= λ e, if bool_decide (pn_identity e = p) then None else Some e.

Definition drop_number (p : loc) (i : nat) (k : Z) (x : md_pid_namespace) : md_pid_namespace :=
  ns_set_numbers (table_remove (ns_numbers x) p i k) x.

Lemma drop_vslot s n p i k m j :
  pids_ok s →
  vslot (upd_ns s n (drop_number p i k)) m j
  = match vslot s m j with
    | Some e => if bool_decide (m = n ∧ j = k ∧ pn_identity e = p ∧ pn_index e = i) then None else Some e
    | None => None
    end.
Proof.
  intros Hok. unfold vslot. cbn. rewrite lookup_alter. case_decide as Hm.
  - subst m. destruct (ps_spaces s !! n) as [x|] eqn:Hx; cbn; [|done].
    rewrite slot_remove by apply (po_table _ Hok _ _ Hx). destruct (slot (ns_numbers x) j) as [e|]; [|done].
    destruct (Z.eqb_spec j k) as [->|]; cbn; [|by rewrite bool_decide_false by naive_solver].
    destruct (Nat.eqb_spec (pn_index e) i) as [->|].
    + rewrite andb_true_r. by repeat case_bool_decide; naive_solver.
    + rewrite andb_false_r. by rewrite bool_decide_false by naive_solver.
  - destruct (ps_spaces s !! m ≫= _); [|done]. by rewrite bool_decide_false by naive_solver.
Qed.

Lemma drop_ok s n p i k : pids_ok s → pids_ok (upd_ns s n (drop_number p i k)).
Proof.
  intros Hok. pose proof (drop_vslot s n p i k) as Hv.
  assert (∀ m x', ps_spaces (upd_ns s n (drop_number p i k)) !! m = Some x' →
    ∃ x, ps_spaces s !! m = Some x ∧ (x' = x ∨ x' = drop_number p i k x)) as Hs.
  { intros m x'. cbn. rewrite lookup_alter. case_decide; [subst|by eauto].
    destruct (ps_spaces s !! m) as [x|]; cbn; [|done]. intros [= <-]. eauto. }
  split.
  - intros m x' (x&Hx&[->| ->])%Hs; [by apply (po_table _ Hok m)|]. destruct (po_table _ Hok m x Hx) as [Ht Hn].
    split; [by apply table_remove_ok|done].
  - intros m x' j e Hx' Hsl. specialize (Hv m j Hok). unfold vslot in Hv at 1. rewrite Hx' in Hv. cbn in Hv.
    rewrite Hsl in Hv. unfold vslot in Hv. destruct (ps_spaces s !! m) as [x|] eqn:Hx; [|done]. cbn in Hv.
    destruct (slot (ns_numbers x) j) as [e0|] eqn:Hsl0; [|done]. case_bool_decide; [done|]. injection Hv as <-.
    by apply (po_entry _ Hok m x j).
  - apply (po_numbers _ Hok).
  - intros m x' q (x&Hx&Hor)%Hs Hpar. assert (ns_parent x = Some q ∧ ns_depth x' = ns_depth x) as [Hp Hd]
      by by destruct Hor as [->| ->].
    destruct (po_parent _ Hok _ _ _ Hx Hp) as (y&Hy&Hlt). cbn. rewrite lookup_alter.
    case_decide; [subst|by rewrite Hd; eauto]. rewrite Hy. cbn. eexists. split; [done|]. cbn. lia.
  - intros m x' (x&Hx&Hor)%Hs. pose proof (po_owned _ Hok _ _ Hx). by destruct Hor as [->| ->].
Qed.

Lemma unreserve_loop_ok s p i l : pids_ok s → pids_ok (unreserve_loop s p i l).
Proof.
  revert s i; induction l as [|[n k] l IH]; intros s i Hok; cbn [unreserve_loop]; [done|].
  apply IH. by apply (drop_ok s n p i k).
Qed.

(** An entry survives unless it is one of the listed numbers of [p]. *)
Lemma unreserve_loop_vslot s p i l m j :
  pids_ok s →
  vslot (unreserve_loop s p i l) m j
  = match vslot s m j with
    | Some e => if bool_decide (pn_identity e = p ∧ (i ≤ pn_index e)%nat ∧ l !! (pn_index e - i)%nat = Some (m, j))
                then None else Some e
    | None => None
    end.
Proof.
  revert s i; induction l as [|[n k] l IH]; intros s i Hok; cbn [unreserve_loop].
  { destruct (vslot s m j); [|done]. rewrite bool_decide_false; [done|]. intros (_&_&H). done. }
  fold (drop_number p i k). rewrite IH by by apply drop_ok. rewrite drop_vslot by done.
  destruct (vslot s m j) as [e|]; [|done]. case_bool_decide as H1.
  - rewrite bool_decide_true; [done|]. destruct H1 as (->&->&->&->). rewrite Nat.sub_diag. auto.
  - match goal with |- (if ?a then _ else _) = (if ?b then _ else _) => enough (a = b) as -> by done end.
    apply bool_decide_ext. split.
    + intros (Hp&Hi&Hl). split_and!; [done|lia|]. replace (pn_index e - i)%nat with (S (pn_index e - S i)) by lia. done.
    + intros (Hp&Hi&Hl). destruct (decide (pn_index e = i)) as [E|E].
      * rewrite E, Nat.sub_diag in Hl. cbn in Hl. injection Hl as <- <-. naive_solver.
      * replace (pn_index e - i)%nat with (S (pn_index e - S i)) in Hl by lia. split_and!; [done|lia|done].
Qed.

Lemma unreserve_ok s p : pids_ok s → pids_ok (unreserve s p).
Proof. intros Hok. unfold unreserve. destruct (ps_ids s !! p); [by apply unreserve_loop_ok|done]. Qed.

Lemma unreserve_vslot s p m j : pids_ok s → vslot (unreserve s p) m j = without p (vslot s m j).
Proof.
  intros Hok. unfold unreserve. unfold vslot at 2.
  destruct (ps_ids s !! p) as [y|] eqn:Hy.
  - rewrite unreserve_loop_vslot by done. unfold vslot. destruct (ps_spaces s !! m) as [x|] eqn:Hx; cbn; [|done].
    destruct (slot (ns_numbers x) j) as [e|] eqn:Hs; cbn; [|done].
    destruct (po_entry _ Hok _ _ _ _ Hx Hs) as (y'&Hy'&Hl).
    match goal with |- (if ?a then _ else _) = (if ?b then _ else _) => enough (a = b) as -> by done end.
    apply bool_decide_ext. split; [by intros [? _]|]. intros E. split_and!; [done|lia|]. rewrite Nat.sub_0_r. congruence.
  - unfold vslot. destruct (ps_spaces s !! m) as [x|] eqn:Hx; cbn; [|done].
    destruct (slot (ns_numbers x) j) as [e|] eqn:Hs; cbn; [|done].
    destruct (po_entry _ Hok _ _ _ _ Hx Hs) as (y'&Hy'&Hl). rewrite bool_decide_false; [done|]. intros E. congruence.
Qed.
Lemma unreserve_loop_ids s p i l : ps_ids (unreserve_loop s p i l) = ps_ids s.
Proof. revert s i; induction l as [|[n k] l IH]; intros s i; cbn [unreserve_loop]; [done|]. by rewrite IH. Qed.
Lemma unreserve_ids s p : ps_ids (unreserve s p) = ps_ids s.
Proof. unfold unreserve. destruct (ps_ids s !! p); [apply unreserve_loop_ids|done]. Qed.
Lemma unreserve_loop_refs s p i l n :
  ns_references <$> ps_spaces (unreserve_loop s p i l) !! n = ns_references <$> ps_spaces s !! n.
Proof.
  revert s i; induction l as [|[m k] l IH]; intros s i; cbn [unreserve_loop]; [done|]. rewrite IH. cbn.
  rewrite lookup_alter. case_decide; [subst|done]. by destruct (ps_spaces s !! n).
Qed.
Lemma unreserve_refs s p n :
  ns_references <$> ps_spaces (unreserve s p) !! n = ns_references <$> ps_spaces s !! n.
Proof. unfold unreserve. destruct (ps_ids s !! p); [apply unreserve_loop_refs|done]. Qed.

Definition drop_id (s : pid_state) (p : loc) : pid_state :=
  mk_pids (ps_spaces s) (delete p (ps_ids s)) (ps_registry s) (ps_users s).
Lemma drop_id_ok s p : pids_ok s → (∀ n k, without p (vslot s n k) = vslot s n k) → pids_ok (drop_id s p).
Proof.
  intros [Ht He Hn Hp Ho] Hw. split; cbn; auto.
  - intros n x k e Hx Hs. destruct (He _ _ _ _ Hx Hs) as (y&Hy&Hl). exists y. split; [|done].
    rewrite lookup_delete_ne; [done|]. intros E. specialize (Hw n k). unfold vslot in Hw. rewrite Hx in Hw. cbn in Hw.
    rewrite Hs in Hw. cbn in Hw. by rewrite bool_decide_true in Hw.
  - intros q y. rewrite lookup_delete_Some. intros [_ Hq]. eauto.
Qed.

(** A namespace with other holders only loses a reference. *)
Lemma ns_release_shared s n x :
  ps_spaces s !! n = Some x → ns_references x ≠ 1 →
  md_pid_namespace_release s (Some n) = upd_ns s n (ns_add_references (-1)).
Proof.
  intros Hx Hr. unfold md_pid_namespace_release. generalize (Z.to_nat MD_PID_LEVELS). intros f.
  cbn [pid_namespace_release]. rewrite Hx. apply Z.eqb_neq in Hr. by rewrite Hr.
Qed.

Lemma ns_skel_vslot s n f m k : (∀ x, ns_skel (f x) = ns_skel x) → vslot (upd_ns s n f) m k = vslot s m k.
Proof.
  intros Hf. unfold vslot. cbn. rewrite lookup_alter. case_decide; [subst|done].
  destruct (ps_spaces s !! m) as [x|]; cbn; [|done]. specialize (Hf x). by injection Hf as _ _ _ ->.
Qed.

(** Dropping the last hold on an identity whose namespace stays. *)
Lemma identity_release_last s p y x :
  pids_ok s → ps_ids s !! p = Some y → pi_references y = 1 →
  ps_spaces s !! pi_space y = Some x → 2 ≤ ns_references x →
  pids_ok (md_pid_identity_release s (Some p))
  ∧ (∀ n k, vslot (md_pid_identity_release s (Some p)) n k = without p (vslot s n k))
  ∧ ps_ids (md_pid_identity_release s (Some p)) = delete p (alter (pi_add_references (-1)) p (ps_ids s)).
Proof.
  intros Hok Hp H1 Hx Hr. unfold md_pid_identity_release. rewrite Hp, H1. cbn [Z.eqb Pos.eqb negb].
  set (s1 := upd_pid s p (pi_add_references (-1))).
  assert (pids_ok s1) as Hok1 by by apply upd_pid_ok.
  pose proof (unreserve_ok s1 p Hok1) as Hok2. set (s2 := unreserve s1 p) in *.
  assert (∃ x2, ps_spaces s2 !! pi_space y = Some x2 ∧ ns_references x2 = ns_references x) as (x2&Hx2&Hr2).
  { pose proof (unreserve_refs s1 p (pi_space y)) as H. fold s2 in H. cbn in H. rewrite Hx in H.
    destruct (ps_spaces s2 !! pi_space y) as [x2|]; [|done]. injection H as H. eauto. }
  rewrite (ns_release_shared s2 _ x2) by (done || lia).
  set (s3 := upd_ns s2 (pi_space y) (ns_add_references (-1))).
  assert (pids_ok s3) as Hok3.
  { apply upd_ns_ok; [done| |done]. intros x3 Hx3. cbn. rewrite Hx2 in Hx3. injection Hx3 as <-.
    pose proof (po_owned _ Hok2 _ _ Hx2). rewrite wrap32_small; lia. }
  assert (∀ n k, vslot s3 n k = without p (vslot s n k)) as Hv.
  { intros n k. unfold s3. rewrite ns_skel_vslot by done. unfold s2. by rewrite unreserve_vslot. }
  change (mk_pids _ _ _ _) with (drop_id s3 p). split_and!.
  - apply drop_id_ok; [done|]. intros n k. rewrite Hv. destruct (vslot s n k) as [e|]; [|done]. cbn.
    case_bool_decide; [done|]. cbn. by rewrite bool_decide_false.
  - intros n k. apply Hv.
  - cbn. unfold s2. by rewrite unreserve_ids.
Qed.

(** ** Preparation *)

Definition push_number (n : loc) (k : Z) (x : md_pid_identity) : md_pid_identity :=
  pi_set_numbers (pi_numbers x ++ [(n, k)]) x.

Record step_reserved (s : pid_state) (n p : loc) (i : nat) (k : Z) (s' : pid_state) : Prop := {
  sr_ok : pids_ok s';
  sr_others : ∀ m j, without p (vslot s' m j) = without p (vslot s m j);
  sr_free : vslot s n k = None;
  sr_taken : vslot s' n k = Some (mk_number p i k);
  sr_refs : ∀ m, ns_references <$> ps_spaces s' !! m = ns_references <$> ps_spaces s !! m;
  sr_ids : ps_ids s' = alter (push_number n k) p (ps_ids s);
  sr_range : 1 ≤ k < MD_PID_MAX }.

Lemma reserve_step s n p i req s1 k y :
  pids_ok s → ps_ids s !! p = Some y → length (pi_numbers y) = i → n ∉ fst <$> pi_numbers y →
  0 ≤ req < MD_PID_MAX → reserve s n p i req = (s1, inl k) →
  step_reserved s n p i k (upd_pid s1 p (push_number n k)).
Proof.
  intros Hok Hy Hi Hn Hreq. unfold reserve. destruct (ps_spaces s !! n) as [x|] eqn:Hx; [|done].
  destruct (po_table _ Hok _ _ Hx) as [Ht Hnx]. pose proof (reserve_in_spec x p i req Ht Hnx Hreq) as Hr.
  destruct (reserve_in x p i req) as [[x' k']|]; [|done]. intros [= <- ->].
  destruct Hr as [[Hfree Hrange _ _ Hnum Hnext (Hpar&Hdep&Href&_)] _].
  assert (∀ j, slot (ns_numbers x') j = if bool_decide (j = k) then Some (mk_number p i k) else slot (ns_numbers x) j)
    as Hslot by (intros j; rewrite Hnum; by apply (slot_add _ (mk_number p i k))).
  set (s' := upd_pid _ p (push_number n k)).
  assert (∀ m j, vslot s' m j = if bool_decide (m = n ∧ j = k) then Some (mk_number p i k) else vslot s m j) as Hv.
  { intros m j. unfold vslot, s'. cbn. rewrite lookup_insert. case_decide as E.
    - subst m. cbn. rewrite Hx, Hslot. cbn. by repeat case_bool_decide; naive_solver.
    - by rewrite bool_decide_false by naive_solver. }
  assert (∀ m z, ps_spaces s' !! m = Some z → ∃ w, ps_spaces s !! m = Some w ∧ ns_parent z = ns_parent w
    ∧ ns_depth z = ns_depth w ∧ ns_references z = ns_references w
    ∧ table_ok (ns_numbers z) ∧ 1 ≤ ns_next z < MD_PID_MAX) as Hsp.
  { intros m z. unfold s'. cbn. rewrite lookup_insert. case_decide; [subst|].
    - intros [= <-]. exists x. rewrite Hnum. split_and!; try done; [by apply table_add_ok|lia..].
    - intros Hz. exists z. split_and!; try done; by apply (po_table _ Hok m). }
  split; try done.
  - split.
    + intros m z Hz. destruct (Hsp m z Hz) as (w&_&_&_&_&?&?). done.
    + intros m z j e Hz Hs. assert (vslot s' m j = Some e) as He by (unfold vslot; rewrite Hz; done).
      rewrite Hv in He. unfold s'. cbn. rewrite lookup_alter. case_bool_decide as Hmj.
      * injection He as <-. destruct Hmj as [-> ->]. cbn. rewrite decide_True, Hy by done. cbn.
        eexists. split; [done|]. cbn. rewrite lookup_app_r by lia. by rewrite Hi, Nat.sub_diag.
      * unfold vslot in He. destruct (ps_spaces s !! m) as [w|] eqn:Hw; [|done]. cbn in He.
        destruct (po_entry _ Hok _ _ _ _ Hw He) as (y'&Hy'&Hl). case_decide; [subst|by eauto].
        rewrite Hy'. cbn. eexists. split; [done|]. cbn. by apply lookup_app_l_Some.
    + intros q z. unfold s'. cbn. rewrite lookup_alter. case_decide; [subst|by apply (po_numbers _ Hok)].
      rewrite Hy. cbn. intros [= <-]. cbn. rewrite fmap_app. apply NoDup_app.
      split_and!; [by eapply (po_numbers _ Hok)|set_solver|apply NoDup_singleton].
    + intros m z q Hz Hq. destruct (Hsp m z Hz) as (w&Hw&Ep&Ed&_). rewrite Ep in Hq.
      destruct (po_parent _ Hok _ _ _ Hw Hq) as (u&Hu&Hlt). unfold s'. cbn. rewrite lookup_insert.
      case_decide; [subst|by rewrite Ed; eauto]. eexists. split; [done|]. rewrite Hdep. simplify_eq. lia.
    + intros m z Hz. destruct (Hsp m z Hz) as (w&Hw&_&_&Er&_). rewrite Er. by apply (po_owned _ Hok m).
  - intros m j. rewrite Hv. case_bool_decide as E; [|done]. destruct E as [-> ->]. cbn.
    rewrite bool_decide_true by done. unfold vslot. rewrite Hx. cbn. by rewrite Hfree.
  - unfold vslot. rewrite Hx. done.
  - rewrite Hv, bool_decide_true; done.
  - intros m. unfold s'. cbn. rewrite lookup_insert. case_decide; [subst|done]. rewrite Hx. cbn. by rewrite Href.
Qed.

Lemma pid_chain_spec s f n :
  pids_ok s →
  NoDup (pid_chain f s n)
  ∧ Forall (λ m, ∃ x, ps_spaces s !! m = Some x ∧ ns_depth x ≤ md_pid_namespace_depth s n) (pid_chain f s n).
Proof.
  intros Hok. revert n; induction f as [|f IH]; intros [l|]; cbn [pid_chain]; try (split; constructor).
  - destruct (ps_spaces s !! l) as [x|] eqn:Hx; [|split; constructor].
    assert (md_pid_namespace_depth s (Some l) = ns_depth x) as Hd
      by (unfold md_pid_namespace_depth, ns_at; cbn; by rewrite Hx).
    destruct (IH (ns_parent x)) as [Hnd Hall].
    assert (Forall (λ m, ∃ z, ps_spaces s !! m = Some z ∧ ns_depth z < ns_depth x) (pid_chain f s (ns_parent x))) as Hlt.
    { destruct (ns_parent x) as [m|] eqn:Hm; [|by destruct f; constructor].
      destruct (po_parent _ Hok _ _ _ Hx Hm) as (y&Hy&Hdy). eapply Forall_impl; [exact Hall|].
      intros z (w&Hw&Hdw). exists w. split; [done|]. unfold md_pid_namespace_depth, ns_at in Hdw. cbn in Hdw.
      rewrite Hy in Hdw. lia. }
    split.
    + constructor; [|done]. intros Hin. rewrite Forall_forall in Hlt. destruct (Hlt l Hin) as (z&Hz&?).
      simplify_eq. lia.
    + constructor; [exists x; rewrite Hd; split; [done|lia]|]. eapply Forall_impl; [exact Hlt|].
      intros z (w&Hw&?). exists w. rewrite Hd. split; [done|lia].
Qed.

Lemma reserve_error s n p i req s1 e :
  pids_ok s → 0 ≤ req < MD_PID_MAX → reserve s n p i req = (s1, inr e) → s1 = s ∧ e < 0.
Proof.
  intros Hok Hreq. unfold reserve. destruct (ps_spaces s !! n) as [x|] eqn:Hx; [|by intros [= <- <-]].
  destruct (po_table _ Hok _ _ Hx) as [Ht Hnx]. pose proof (reserve_in_spec x p i req Ht Hnx Hreq) as Hr.
  destruct (reserve_in x p i req) as [[x' k]|e']; [done|]. intros [= <- <-]. by destruct Hr as [? _].
Qed.

(** A new identity under construction: one number per namespace passed so far. *)
Record preparing (s : pid_state) (p : loc) (y : md_pid_identity) (spaces : list loc) : Prop := {
  pr_ok : pids_ok s;
  pr_id : ps_ids s !! p = Some y;
  pr_refs : pi_references y = 1;
  pr_space : ∃ x, ps_spaces s !! pi_space y = Some x ∧ 2 ≤ ns_references x;
  pr_nodup : NoDup ((fst <$> pi_numbers y) ++ spaces) }.

Lemma prepare_abort s p y spaces :
  preparing s p y spaces →
  pids_ok (md_pid_identity_release s (Some p))
  ∧ ∀ n k, vslot (md_pid_identity_release s (Some p)) n k = without p (vslot s n k).
Proof.
  intros [Hok Hid Hr (x&Hx&H2) _]. destruct (identity_release_last s p y x) as (?&?&_); auto.
Qed.

Lemma prepare_advance s p y n spaces req s1 k :
  preparing s p y (n :: spaces) → 0 ≤ req < MD_PID_MAX →
  reserve s n p (length (pi_numbers y)) req = (s1, inl k) →
  step_reserved s n p (length (pi_numbers y)) k (upd_pid s1 p (push_number n k))
  ∧ preparing (upd_pid s1 p (push_number n k)) p (push_number n k y) spaces.
Proof.
  intros [Hok Hid Hr (x&Hx&H2) Hnd] Hreq Hres.
  assert (n ∉ fst <$> pi_numbers y) as Hn by (apply NoDup_app in Hnd as (_&H&_); set_solver).
  pose proof (reserve_step _ _ _ _ _ _ _ _ Hok Hid eq_refl Hn Hreq Hres) as Hst. split; [done|].
  destruct Hst as [Hok' _ _ _ Href Hids _]. split; try done.
  - by rewrite Hids, lookup_alter_eq, Hid.
  - pose proof (Href (pi_space y)) as E. rewrite Hx in E. cbn.
    destruct (ps_spaces (upd_pid s1 p (push_number n k)) !! pi_space y) as [x'|] eqn:Ex; cbn in Ex; rewrite Ex in *; [|done].
    injection E as E. exists x'. split; [done|lia].
  - cbn. by rewrite fmap_app, <- app_assoc.
Qed.

Lemma without_chain p (s1 s2 s3 : pid_state) :
  (∀ n k, without p (vslot s1 n k) = without p (vslot s2 n k)) →
  (∀ n k, without p (vslot s2 n k) = without p (vslot s3 n k)) →
  ∀ n k, without p (vslot s1 n k) = without p (vslot s3 n k).
Proof. intros H1 H2 n k. by rewrite H1. Qed.
Lemma without_idem p o : without p (without p o) = without p o.
Proof. destruct o as [e|]; cbn; [|done]. case_bool_decide; [done|]. cbn. by rewrite bool_decide_false. Qed.

Record prepared (s : pid_state) (p : loc) (y : md_pid_identity) (spaces : list loc) (s' : pid_state) (e : Z) : Prop := {
  pp_ok : pids_ok s';
  pp_others : ∀ n k, without p (vslot s' n k) = without p (vslot s n k);
  pp_failed : e ≠ 0 → ∀ n k, vslot s' n k = without p (vslot s n k);
  pp_done : e = 0 → ∃ y', ps_ids s' !! p = Some y'
    ∧ fst <$> pi_numbers y' = (fst <$> pi_numbers y) ++ spaces
    ∧ pi_native y' = pi_native y ∧ pi_space y' = pi_space y }.

Lemma prepare_failed s p y spaces e :
  preparing s p y spaces → e ≠ 0 → prepared s p y spaces (md_pid_identity_release s (Some p)) e.
Proof.
  intros Hpr He. destruct (prepare_abort _ _ _ _ Hpr) as [Hok Hv]. split; try done.
  intros n k. by rewrite Hv, without_idem.
Qed.

Lemma prepare_loop_spec s p id selected spaces y s' e :
  preparing s p y spaces → prepare_loop s p id selected spaces (length (pi_numbers y)) = (s', e) →
  prepared s p y spaces s' e.
Proof.
  revert s y; induction spaces as [|n spaces IH]; intros s y Hpr; cbn [prepare_loop].
  { intros [= <- <-]. split; [apply Hpr|done|done|]. intros _. exists y. rewrite app_nil_r. by split; [apply Hpr|]. }
  set (req := default 0 (selected !! length (pi_numbers y))).
  match goal with |- context [if negb (?err =? 0) then _ else _] => destruct (Z.eqb_spec err 0) as [Hsel|Hsel] end;
    cbn [negb]; [|intros [= <- <-]; by apply prepare_failed].
  assert (0 ≤ req < MD_PID_MAX) as Hreq.
  { unfold req. destruct (selected !! length (pi_numbers y)) as [r|] eqn:Hr; [|done]. cbn.
    rewrite bool_decide_true in Hsel by eauto. unfold selected_error, req in Hsel. cbn in Hsel.
    destruct (Z.ltb_spec r 1); [done|]. destruct (Z.leb_spec MD_PID_MAX r); [done|]. lia. }
  destruct (reserve s n p (length (pi_numbers y)) req) as [s1 [k|e1]] eqn:Hres.
  - destruct (prepare_advance _ _ _ _ _ _ _ _ Hpr Hreq Hres) as [Hst Hpr'].
    change (λ x, pi_set_numbers (pi_numbers x ++ [(n, k)]) x) with (push_number n k).
    replace (S (length (pi_numbers y))) with (length (pi_numbers (push_number n k y)))
      by (cbn; rewrite length_app; cbn; lia).
    intros Hl. destruct (IH _ _ Hpr' Hl) as [Hok Hw He H0]. pose proof (sr_others _ _ _ _ _ _ Hst) as Ho.
    split; [done|by eapply without_chain| |].
    + intros Hne m j. by rewrite He, Ho.
    + intros E. destruct (H0 E) as (y'&Hy'&Hf&?&?). exists y'. split_and!; try done.
      rewrite Hf. cbn. by rewrite fmap_app, <- app_assoc.
  - destruct (reserve_error _ _ _ _ _ _ _ (pr_ok _ _ _ _ Hpr) Hreq Hres) as [-> Hneg].
    intros [= <- <-]. apply prepare_failed; [done|lia].
Qed.

(** The whole call: a fresh identity, filled level by level. *)
Lemma prepare_selected_spec s space id selected calloc s' o e :
  pids_ok s → (∀ n x, ps_spaces s !! n = Some x → ns_references x < UINT32_MAX) →
  (∀ l, space = Some l → is_Some (ps_spaces s !! l)) →
  md_pid_identity_prepare_selected s space id selected calloc = (s', o, e) →
  pids_ok s'
  ∧ match o with
    | None => ∀ n k, vslot s' n k = vslot s n k
    | Some p => ps_ids s !! p = None ∧ (∀ n k, without p (vslot s' n k) = vslot s n k)
        ∧ ∃ y, ps_ids s' !! p = Some y ∧ fst <$> pi_numbers y = pid_spaces s space ∧ pi_native y = 0
            ∧ space = Some (pi_space y)
    end.
Proof.
  intros Hok Hsat Hlive. unfold md_pid_identity_prepare_selected. case_if; [intros [= <- <- <-]; done|].
  destruct space as [l|]; [|intros [= <- <- <-]; done]. destruct calloc; cbn [negb]; [|intros [= <- <- <-]; done].
  destruct (Hlive l eq_refl) as [x Hx]. pose proof (po_owned _ Hok _ _ Hx). pose proof (Hsat _ _ Hx).
  set (p := fresh (dom (ps_ids s))). assert (ps_ids s !! p = None) as Hp by (apply not_elem_of_dom, is_fresh).
  set (y := mk_pid 1 l 0 0 false false false []). set (s1 := md_pid_namespace_retain s (Some l)).
  assert (pids_ok s1) as Hok1.
  { apply upd_ns_ok; [done| |done]. intros x' Hx'. simplify_eq. cbn. rewrite wrap32_small; lia. }
  assert (∀ n k, vslot s1 n k = vslot s n k) as Hv1 by (intros n k; by apply ns_skel_vslot).
  set (s2 := mk_pids (ps_spaces s1) (<[p := y]> (ps_ids s1)) (ps_registry s1) (ps_users s1)).
  assert (∀ n k, without p (vslot s2 n k) = vslot s n k) as Hv2.
  { intros n k. change (vslot s2 n k) with (vslot s1 n k). rewrite Hv1. destruct (vslot s n k) as [e0|] eqn:He0; [|done].
    cbn. rewrite bool_decide_false; [done|]. unfold vslot in He0. destruct (ps_spaces s !! n) as [z|] eqn:Hz; [|done].
    destruct (po_entry _ Hok _ _ _ _ Hz He0) as (w&Hw&_). congruence. }
  assert (pids_ok s2) as Hok2.
  { destruct Hok1 as [Ht He Hn Hpa Ho]. split; auto.
    - intros n z k e0 Hz Hs. destruct (He _ _ _ _ Hz Hs) as (w&Hw&Hl). exists w. split; [|done]. cbn in *.
      rewrite lookup_insert_ne; [done|]. congruence.
    - intros q z. cbn. rewrite lookup_insert. case_decide; [|apply Hn]. intros [= <-]. constructor. }
  destruct (pid_chain_spec s (Z.to_nat MD_PID_LEVELS) (Some l) Hok) as [Hnd _].
  assert (preparing s2 p y (pid_spaces s (Some l))) as Hpr.
  { split; [done|by cbn; rewrite lookup_insert_eq|done| |done]. cbn. rewrite lookup_alter_eq, Hx. cbn.
    eexists. split; [done|]. cbn. rewrite wrap32_small; lia. }
  destruct (prepare_loop s2 p id selected (pid_spaces s (Some l)) 0) as [s3 err] eqn:Hloop.
  destruct (prepare_loop_spec _ _ _ _ _ _ _ _ Hpr Hloop) as [Hok3 Hoth Hfail Hdone].
  destruct (Z.eqb_spec err 0) as [->|Hne]; cbn [negb]; intros [= <- <- <-]; (split; [done|]).
  - destruct (Hdone eq_refl) as (y'&Hy'&Hf&Hnat&Hsp). split; [done|]. split; [intros n k; by rewrite Hoth|].
    exists y'. split_and!; try done. by rewrite Hsp.
  - intros n k. by rewrite Hfail.
Qed.

(** ** Steps of the system *)

Lemma publish_ok s p native group : pids_ok s → pids_ok (fst (md_pid_identity_publish s p native group)).
Proof.
  intros Hok. unfold md_pid_identity_publish. destruct p as [l|]; [|done]. destruct (ps_ids s !! l) as [y|]; [|done].
  case_if; [done|]. cbn [fst]. apply upd_pid_ok; [done|]. generalize (pi_numbers y). intros es. revert s Hok.
  induction es as [|e es IH]; intros s Hok; [done|]. cbn [foldl]. apply IH. case_if; [|done].
  apply upd_ns_ok; [done| |done]. intros x Hx. exact (po_owned _ Hok _ _ Hx).
Qed.
Lemma exit_ok s p : pids_ok s → pids_ok (fst (md_pid_identity_exit s p)).
Proof.
  intros Hok. unfold md_pid_identity_exit. destruct p as [l|]; [|done]. destruct (ps_ids s !! l) as [y|]; [|done].
  cbv zeta. assert (pids_ok (upd_pid s l (pi_set_live false))) as Hok1 by by apply upd_pid_ok.
  set (s1 := upd_pid s l (pi_set_live false)) in *. case_if; [done|].
  destruct (ps_spaces s1 !! pi_space y) as [x|] eqn:Hx; [|done]. cbn [fst].
  match goal with |- context [if ?b then _ else s1] => destruct b end; [|done].
  apply upd_ns_ok; [done| |done]. intros x' Hx'. exact (po_owned _ Hok1 _ _ Hx').
Qed.
Lemma reap_ok s p : pids_ok s → pids_ok (md_pid_identity_reap s p).
Proof.
  intros Hok. unfold md_pid_identity_reap. destruct p as [l|]; [|done]. case_if; [done|].
  by apply unreserve_ok, upd_pid_ok.
Qed.
Lemma exec_ok s t g : pids_ok s → pids_ok (md_pid_identity_exec s t g).
Proof.
  intros Hok. unfold md_pid_identity_exec. destruct t, g; try done. case_if; [done|]. by repeat apply upd_pid_ok.
Qed.
Lemma try_retain_ok s p : pids_ok s → pids_ok (fst (try_retain s p)).
Proof.
  intros Hok. unfold try_retain. destruct (ps_ids s !! p); [|done]. case_if; [|done]. by apply upd_pid_ok.
Qed.
Lemma lookup_ok s n k : pids_ok s → pids_ok (fst (md_pid_namespace_lookup s n k)).
Proof.
  intros Hok. unfold md_pid_namespace_lookup. destruct n as [l|]; [|done]. case_if; [done|].
  destruct (ps_spaces s !! l) as [x|]; [|done]. destruct (slot _ k) as [e|]; [|done]. case_if; [|done].
  by apply try_retain_ok.
Qed.
Lemma find_chain_state s native es r :
  find_chain s native es = Some r → ∃ p, r = try_retain s p.
Proof. induction es as [|e es IH]; cbn [find_chain]; [done|]. case_if; [intros [= <-]; eauto|done]. Qed.
Lemma find_ok s n k : pids_ok s → pids_ok (fst (md_pid_namespace_find s n k)).
Proof.
  intros Hok. unfold md_pid_namespace_find. destruct n as [l|]; [|done]. case_if; [done|].
  destruct (ps_spaces s !! l) as [x|]; [|done]. generalize (Z.of_nat <$> seq 0 (Z.to_nat PID_BUCKETS)). intros bs.
  revert s Hok; induction bs as [|b bs IH]; intros s Hok; cbn [find_buckets]; [done|].
  destruct (find_chain s k (chain_of (ns_numbers x) b)) as [r|] eqn:Hf; [|by apply IH].
  destruct (find_chain_state _ _ _ _ Hf) as [p Hp]. pose proof (try_retain_ok s p Hok) as Hok'. rewrite <- Hp in Hok'.
  destruct r as [s1 [q|]]; [done|by apply IH].
Qed.
Lemma new_ok s parent owner env s' r :
  pids_ok s → (∀ l, parent = Some l → ∃ x, ps_spaces s !! l = Some x ∧ ns_references x < UINT32_MAX) →
  md_pid_namespace_new s parent owner env = (s', r) → pids_ok s'.
Proof.
  intros Hok Hlive. unfold md_pid_namespace_new. repeat (case_if; [by intros [= <- <-]|]).
  destruct (pe_identity env) as [inode|]; [|by intros [= <- <-]]. intros [= <- <-].
  assert (pids_ok (md_pid_namespace_retain s parent)) as Hok1.
  { destruct parent as [l|]; [|done]. destruct (Hlive l eq_refl) as (x&Hx&Hr). apply upd_ns_ok; [done| |done].
    intros x' Hx'. simplify_eq. pose proof (po_owned _ Hok _ _ Hx). cbn. rewrite wrap32_small; lia. }
  set (s1 := md_pid_namespace_retain s parent) in *. set (l := fresh (dom (ps_spaces s))).
  assert (ps_spaces s1 !! l = None) as Hl.
  { assert (ps_spaces s !! l = None) as H by (apply not_elem_of_dom, is_fresh). unfold s1. destruct parent; cbn; [|done].
    rewrite lookup_alter. case_decide; [by subst; rewrite H|done]. }
  set (x := mk_pidns 1 parent owner inode _ 1 false 0 false ∅). destruct Hok1 as [Ht He Hn Hp Ho]. split; cbn.
  - intros n z. rewrite lookup_insert. case_decide; [|apply Ht]. intros [= <-]. split; [apply table_empty_ok|done].
  - intros n z k e. rewrite lookup_insert. case_decide; [|apply He]. intros [= <-]. done.
  - apply Hn.
  - intros n z m. rewrite lookup_insert. case_decide as Enl.
    + intros [= <-] Hm. cbn in Hm. destruct (Hlive m Hm) as (w&Hw&_).
      assert (∃ w', ps_spaces s1 !! m = Some w' ∧ ns_depth w' = ns_depth w) as (w'&Hw'&Hd).
      { unfold s1. rewrite Hm. cbn. rewrite lookup_alter_eq, Hw. eexists. split; [done|]. done. }
      exists w'. rewrite lookup_insert_ne by congruence. split; [done|]. cbn. unfold md_pid_namespace_depth, ns_at.
      rewrite Hm. cbn. rewrite Hw. lia.
    + intros Hz Hm. destruct (Hp _ _ _ Hz Hm) as (w&Hw&Hd). exists w. rewrite lookup_insert_ne by congruence. done.
  - intros n z. rewrite lookup_insert. case_decide; [intros [= <-]; done|apply Ho].
Qed.
Lemma release_ok s p :
  pids_ok s →
  (∀ l y, p = Some l → ps_ids s !! l = Some y → pi_references y = 1 →
     ∃ x, ps_spaces s !! pi_space y = Some x ∧ 2 ≤ ns_references x) →
  pids_ok (md_pid_identity_release s p).
Proof.
  intros Hok Hsh. destruct p as [l|]; [|done]. destruct (ps_ids s !! l) as [y|] eqn:Hy.
  - destruct (decide (pi_references y = 1)) as [E|E].
    + destruct (Hsh l y eq_refl Hy E) as (x&Hx&Hr). by eapply identity_release_last.
    + unfold md_pid_identity_release. rewrite Hy. apply Z.eqb_neq in E. rewrite E. by apply upd_pid_ok.
  - unfold md_pid_identity_release. by rewrite Hy.
Qed.

(** One call on the shared state.  Reference counts are not saturated, and a
    release here leaves its namespace with other holders. *)
Inductive pid_step (s : pid_state) : pid_state → Prop :=
  | st_new parent owner env s' r :
      (∀ l, parent = Some l → ∃ x, ps_spaces s !! l = Some x ∧ ns_references x < UINT32_MAX) →
      md_pid_namespace_new s parent owner env = (s', r) → pid_step s s'
  | st_prepare space id selected calloc s' o e :
      (∀ n x, ps_spaces s !! n = Some x → ns_references x < UINT32_MAX) →
      (∀ l, space = Some l → is_Some (ps_spaces s !! l)) →
      md_pid_identity_prepare_selected s space id selected calloc = (s', o, e) → pid_step s s'
  | st_publish p native group : pid_step s (fst (md_pid_identity_publish s p native group))
  | st_exit p : pid_step s (fst (md_pid_identity_exit s p))
  | st_reap p : pid_step s (md_pid_identity_reap s p)
  | st_exec t g : pid_step s (md_pid_identity_exec s t g)
  | st_lookup n k : pid_step s (fst (md_pid_namespace_lookup s n k))
  | st_find n k : pid_step s (fst (md_pid_namespace_find s n k))
  | st_retain p : pid_step s (md_pid_identity_retain s p)
  | st_subreaper p v : pid_step s (md_pid_identity_set_subreaper s p v)
  | st_reboot n signal : pid_step s (md_pid_namespace_reboot_started s n signal)
  | st_release p :
      (∀ l y, p = Some l → ps_ids s !! l = Some y → pi_references y = 1 →
         ∃ x, ps_spaces s !! pi_space y = Some x ∧ 2 ≤ ns_references x) →
      pid_step s (md_pid_identity_release s p).

Lemma pid_step_ok s s' : pid_step s s' → pids_ok s → pids_ok s'.
Proof.
  intros Hst Hok. destruct Hst; eauto using publish_ok, exit_ok, reap_ok, exec_ok, lookup_ok, find_ok, new_ok, release_ok.
  - by eapply prepare_selected_spec.
  - destruct p; [by apply upd_pid_ok|done].
  - destruct p; [by apply upd_pid_ok|done].
  - apply upd_ns_ok; [done| |done]. intros x Hx. exact (po_owned _ Hok _ _ Hx).
Qed.

(** ** Properties *)

(** A reservation in a live namespace takes a number nobody holds, within 1 and
    2^22-1 and 1 only for the first task; it fails only when every number from 2
    up is taken (the bounded search misses none). *)
Theorem pid_reserve_complete n p i :
  table_ok (ns_numbers n) → 1 ≤ ns_next n < MD_PID_MAX → ns_dead n = false →
  match reserve_in n p i 0 with
  | inl (n', k) => slot (ns_numbers n) k = None ∧ 1 ≤ k < MD_PID_MAX ∧ (k = 1 → ns_initialized n = false)
      ∧ (∀ j, slot (ns_numbers n') j = if bool_decide (j = k) then Some (mk_number p i k) else slot (ns_numbers n) j)
  | inr e => e = - EAGAIN ∧ ∀ k, 2 ≤ k < MD_PID_MAX → slot (ns_numbers n) k ≠ None
  end.
Proof.
  intros Ht Hn Hd. pose proof (reserve_in_spec n p i 0 Ht Hn ltac:(done)) as Hr.
  destruct (reserve_in n p i 0) as [[n' k]|e].
  - destruct Hr as [[Hf Hr _ H1 Hnum _ _] _]. split_and!; try done; [lia|lia| |].
    + intros E. by destruct (H1 E).
    + intros j. rewrite Hnum. by apply (slot_add _ (mk_number p i k)).
  - destruct Hr as [_ [H|[H|H]]]; [congruence|done|done].
Qed.


(** Preparing an identity is all or nothing: on failure every table is as before,
    on success the new identity has one number in each namespace from the task's
    own outwards and no other entry changed. *)
Theorem pid_prepare_atomic s space id selected calloc s' o e :
  pids_ok s → (∀ n x, ps_spaces s !! n = Some x → ns_references x < UINT32_MAX) →
  (∀ l, space = Some l → is_Some (ps_spaces s !! l)) →
  md_pid_identity_prepare_selected s space id selected calloc = (s', o, e) →
  match o with
  | None => ∀ n k, vslot s' n k = vslot s n k
  | Some p => ps_ids s !! p = None ∧ (∀ n k, without p (vslot s' n k) = vslot s n k)
      ∧ ∃ y, ps_ids s' !! p = Some y ∧ fst <$> pi_numbers y = pid_spaces s space ∧ pi_native y = 0
          ∧ space = Some (pi_space y)
  end.
Proof. intros Hok Hs Hl Hp. by eapply prepare_selected_spec. Qed.

Lemma try_retain_result s p s' q : try_retain s p = (s', Some q) → q = p ∧ s' = upd_pid s p (pi_add_references 1).
Proof. unfold try_retain. destruct (ps_ids s !! p); [|done]. case_if; [|done]. by intros [= <- <-]. Qed.

(** What a lookup by number returns is a published, unreaped identity whose own
    number in that namespace is the one asked for. *)
Theorem pid_lookup_number s n k s' p :
  pids_ok s → md_pid_namespace_lookup s (Some n) k = (s', Some p) →
  md_pid_identity_number s' (Some p) (Some n) = k ∧ md_pid_identity_native s' (Some p) ≠ 0
  ∧ default true (pi_reaped <$> ps_ids s' !! p) = false.
Proof.
  intros Hok. unfold md_pid_namespace_lookup. destruct (Z.leb_spec k 0); [done|].
  destruct (ps_spaces s !! n) as [x|] eqn:Hx; [|done]. destruct (slot (ns_numbers x) k) as [e|] eqn:Hs; [|done].
  destruct (published s (pn_identity e)) eqn:Hpub; [|done]. intros Hret.
  apply try_retain_result in Hret as [-> ->]. destruct (po_entry _ Hok _ _ _ _ Hx Hs) as (y&Hy&Hl).
  unfold published, md_pid_identity_native, pid_at in Hpub. cbn in Hpub. rewrite Hy in Hpub. cbn in Hpub. breflect.
  unfold md_pid_identity_number, md_pid_identity_native, pid_at. cbn. rewrite lookup_alter_eq, Hy. cbn.
  split_and!; [|done|done]. pose proof (po_numbers _ Hok _ _ Hy) as Hnd.
  destruct (List.find (λ e, bool_decide (e.1 = n)) (pi_numbers y)) as [[m j]|] eqn:Hf.
  - apply find_some in Hf as [Hin Hm%bool_decide_eq_true]. cbn in *. subst m.
    rewrite <- list_elem_of_In in Hin. apply list_elem_of_lookup in Hin as [i Hi].
    assert (i = pn_index e) as ->; [|congruence]. eapply NoDup_lookup; [exact Hnd| |].
    + rewrite list_lookup_fmap, Hi. reflexivity.
    + rewrite list_lookup_fmap, Hl. reflexivity.
  - pose proof (find_none _ _ Hf (n, k)) as Hno. cbn in Hno. rewrite bool_decide_true in Hno by done.
    exfalso. apply list_elem_of_lookup_2 in Hl. rewrite list_elem_of_In in Hl. by specialize (Hno Hl).
Qed.

Lemma prepare_dead s l x :
  ps_spaces s !! l = Some x → ns_dead x = true →
  ∃ s' e, md_pid_identity_prepare s (Some l) true = (s', None, e) ∧ e < 0.
Proof.
  intros Hx Hd. unfold md_pid_identity_prepare, md_pid_identity_prepare_selected. cbn [length].
  match goal with |- context [if ?b || _ then _ else _] => destruct b end; [by eexists _, _|]. cbn [orb andb negb Z.eqb Z.of_nat].
  assert (∃ rest, pid_spaces s (Some l) = l :: rest) as [rest ->].
  { unfold pid_spaces. change (Z.to_nat MD_PID_LEVELS) with (S 31). generalize 31%nat. intros f. cbn. rewrite Hx. eauto. }
  cbn [prepare_loop lookup list_lookup]. rewrite (bool_decide_false (is_Some None)) by (by intros [? ?]).
  cbn [Z.eqb negb default]. unfold reserve. cbn [ps_spaces md_pid_namespace_retain upd_ns].
  rewrite lookup_alter_eq, Hx. cbn [fmap option_fmap option_map]. unfold reserve_in. cbn [ns_dead ns_add_references].
  rewrite Hd. by eexists _, _.
Qed.

(** When the last live thread of PID 1 exits, the namespace is dead: no further
    task can be prepared in it. *)
Theorem pid_init_exit s p s' y :
  ps_ids s !! p = Some y → md_pid_identity_exit s (Some p) = (s', true) →
  md_pid_namespace_dead s' (Some (pi_space y)) = true
  ∧ ∃ s2 e, md_pid_identity_prepare s' (Some (pi_space y)) true = (s2, None, e) ∧ e < 0.
Proof.
  intros Hy. unfold md_pid_identity_exit. rewrite Hy. cbv zeta.
  set (s1 := upd_pid s p (pi_set_live false)). destruct (negb (pi_live y)); [done|].
  destruct (ps_spaces s1 !! pi_space y) as [x|] eqn:Hx; [|done].
  match goal with |- context [(_, ?b) = (s', true)] => destruct b end; [|done]. intros [= <-].
  set (s2 := upd_ns s1 (pi_space y) ns_set_dead).
  assert (ps_spaces s2 !! pi_space y = Some (ns_set_dead x)) as Hd.
  { unfold s2. cbn. rewrite lookup_alter_eq. cbn in Hx. by rewrite Hx. }
  split; [unfold md_pid_namespace_dead, ns_at; cbn; cbn in Hd; by rewrite Hd|]. by eapply prepare_dead.
Qed.

(** ** Witnesses: a namespace with its first task *)

Definition demo_pids : pid_state :=
  fst (md_pid_namespace_new (mk_pids ∅ ∅ [] demo_world) None None (mk_pidns_env true 0 (inl 77))).
Definition demo_prepared : pid_state := fst (fst (md_pid_identity_prepare demo_pids (Some 1%positive) true)).
Definition demo_running : pid_state := fst (md_pid_identity_publish demo_prepared (Some 1%positive) 500 500).

Lemma demo_empty_ok : pids_ok (mk_pids ∅ ∅ [] demo_world).
Proof. split; cbn; intros *; try done; rewrite lookup_empty; done. Qed.
Lemma demo_pids_ok : pids_ok demo_pids.
Proof. eapply (new_ok (mk_pids ∅ ∅ [] demo_world) None None (mk_pidns_env true 0 (inl 77)));
    [apply demo_empty_ok|done|unfold demo_pids; apply surjective_pairing]. Qed.
Lemma demo_pids_spaces n x : ps_spaces demo_pids !! n = Some x → ns_references x < UINT32_MAX.
Proof.
  assert (ps_spaces demo_pids = {[1%positive := mk_pidns 1 None None 77 1 1 false 0 false ∅]}) as ->
    by (vm_compute; reflexivity). by intros [<- <-]%lookup_singleton_Some.
Qed.
Lemma demo_pids_live l : Some 1%positive = Some l → is_Some (ps_spaces demo_pids !! l).
Proof. intros [= <-]. eexists. vm_compute. reflexivity. Qed.

Lemma pid_reserve_complete_witness :
  ∃ n k, reserve_in (mk_pidns 1 None None 77 1 1 false 0 true ∅) 1 0 0 = inl (n, k) ∧ k = 2
    ∧ slot (ns_numbers n) 2 = Some (mk_number 1 0 2).
Proof.
  pose proof (pid_reserve_complete (mk_pidns 1 None None 77 1 1 false 0 true ∅) 1 0 table_empty_ok
    ltac:(done) eq_refl) as H.
  destruct (reserve_in (mk_pidns 1 None None 77 1 1 false 0 true ∅) 1 0 0) as [[n k]|e] eqn:Hr; [|vm_compute in Hr; done].
  exists n, k. assert (k = 2) as -> by (vm_compute in Hr; congruence).
  split; [done|]. split; [done|]. destruct H as (_&_&_&H). by rewrite H.
Defined.


Lemma pid_prepare_atomic_witness :
  ∃ y, ps_ids demo_prepared !! 1%positive = Some y ∧ fst <$> pi_numbers y = [1%positive].
Proof.
  destruct (pid_prepare_atomic demo_pids (Some 1%positive) None [] true demo_prepared (Some 1%positive) 0)
    as (_&_&y&Hy&Hf&_); [apply demo_pids_ok|apply demo_pids_spaces|apply demo_pids_live|vm_compute; reflexivity|].
  exists y. split; [exact Hy|]. rewrite Hf. vm_compute. reflexivity.
Defined.

Lemma demo_running_ok : pids_ok demo_running.
Proof.
  apply publish_ok. eapply (prepare_selected_spec demo_pids (Some 1%positive) None [] true);
    [apply demo_pids_ok|apply demo_pids_spaces|apply demo_pids_live|vm_compute; reflexivity].
Qed.
Lemma pid_lookup_number_witness :
  ∃ s, md_pid_namespace_lookup demo_running (Some 1%positive) 1 = (s, Some 1%positive)
    ∧ md_pid_identity_number s (Some 1%positive) (Some 1%positive) = 1.
Proof.
  eexists. split; [vm_compute; reflexivity|].
  apply (pid_lookup_number demo_running 1%positive 1 _ 1%positive); [apply demo_running_ok|vm_compute; reflexivity].
Defined.

Lemma pid_init_exit_witness :
  ∃ s, md_pid_identity_exit demo_running (Some 1%positive) = (s, true)
    ∧ md_pid_namespace_dead s (Some 1%positive) = true.
Proof.
  eexists. split; [vm_compute; reflexivity|].
  apply (pid_init_exit demo_running 1%positive _ (mk_pid 1 1 500 500 true false false [(1%positive, 1)]));
    vm_compute; reflexivity.
Defined.
