(* ===== verification/ResourceOrder.v ===== *)
(** * Turns on a shared resource (resource_order.c, event_signal.h)

    Operations on a shared kernel object take turns.  Caller-owned records are
    linked into the queue of the resource by [previous]/[next] pointers; the
    head holds the turn, and its retirement hands the turn to the next record
    and signals that record's event loop.

    The heap is explicit: queues, records and wakeup tokens by address, the open
    descriptors, and the trace of signalled tokens.  Each function runs under
    the lock of its queue, so a heap transformer per call is the granularity of
    interleaving.  The specification is a transition system on lists,
    [fifo_step]; [order_refines] is the simulation. *)
From S2P Require Import Prelude.

Abbreviation loc := positive (only parsing).

Inductive md_resource_order_state :=
  | MD_RESOURCE_ORDER_IDLE | MD_RESOURCE_ORDER_QUEUED | MD_RESOURCE_ORDER_READY
  | MD_RESOURCE_ORDER_RUNNING | MD_RESOURCE_ORDER_CANCELLING.
#[export] Instance order_state_eq : EqDecision md_resource_order_state.
Proof. solve_decision. Defined.

Record md_resource_queue := mk_queue { q_first : option loc; q_last : option loc }.
Record md_resource_order := mk_order {
  o_queue : option loc; o_previous : option loc; o_next : option loc;
  o_state : md_resource_order_state; o_wakeup : option loc }.
Record md_resource_wakeup := mk_wakeup { wk_refs : Z; wk_fd : Z; wk_reader : Z }.

Record ro_heap := mk_ro {
  ro_queues : gmap loc md_resource_queue;
  ro_orders : gmap loc md_resource_order;
  ro_wakeups : gmap loc md_resource_wakeup;
  ro_fds : gset Z;
  ro_signals : list loc }.

(** Zero-initialised storage. *)
Definition idle_order : md_resource_order := mk_order None None None MD_RESOURCE_ORDER_IDLE None.

Definition with_queues (h : ro_heap) x := mk_ro x (ro_orders h) (ro_wakeups h) (ro_fds h) (ro_signals h).
Definition with_orders (h : ro_heap) x := mk_ro (ro_queues h) x (ro_wakeups h) (ro_fds h) (ro_signals h).
Definition with_wakeups (h : ro_heap) x := mk_ro (ro_queues h) (ro_orders h) x (ro_fds h) (ro_signals h).
Definition with_ro_fds (h : ro_heap) x := mk_ro (ro_queues h) (ro_orders h) (ro_wakeups h) x (ro_signals h).
Definition upd_queue (h : ro_heap) (q : loc) (f : md_resource_queue → md_resource_queue) : ro_heap :=
  with_queues h (alter f q (ro_queues h)).
Definition upd_order (h : ro_heap) (p : loc) (f : md_resource_order → md_resource_order) : ro_heap :=
  with_orders h (alter f p (ro_orders h)).
Definition q_set_first (x : option loc) (q : md_resource_queue) := mk_queue x (q_last q).
Definition q_set_last (x : option loc) (q : md_resource_queue) := mk_queue (q_first q) x.
Definition o_set_previous (x : option loc) (o : md_resource_order) :=
  mk_order (o_queue o) x (o_next o) (o_state o) (o_wakeup o).
Definition o_set_next (x : option loc) (o : md_resource_order) :=
  mk_order (o_queue o) (o_previous o) x (o_state o) (o_wakeup o).
Definition o_set_state (x : md_resource_order_state) (o : md_resource_order) :=
  mk_order (o_queue o) (o_previous o) (o_next o) x (o_wakeup o).

(** ** Wakeup tokens *)

(** The write that ends the EINTR loop: a byte count or an errno. *)
Definition md_event_signal (write : Z + Z) : Z :=
  match write with
  | inl n => if n =? 8 then 0 else - EIO
  | inr e => if e =? EAGAIN then 0 else - e
  end.

Definition O_NONBLOCK : Z := 2048.
(** Outcomes of the system calls of [create_wakeup]. *)
Record wakeup_env := mk_wakeup_env {
  we_getfl : Z + Z; we_malloc : bool; we_dup : Z + Z; we_dup_reader : Z + Z }.
Definition create_wakeup (h : ro_heap) (reader : Z) (env : wakeup_env) : ro_heap * (loc + Z) :=
  match we_getfl env with
  | inr e => (h, inr (- e))
  | inl flags =>
      if negb (has_bits flags O_NONBLOCK) then (h, inr (- EINVAL))
      else if negb (we_malloc env) then (h, inr (- ENOMEM))
      else match we_dup env with
      | inr e => (h, inr (- e))
      | inl fd =>
          let w := fresh (dom (ro_wakeups h)) in
          if 0 <=? reader then
            match we_dup_reader env with
            | inr e => (h, inr (- e))
            | inl r => (with_ro_fds (with_wakeups h (<[w := mk_wakeup 1 fd r]> (ro_wakeups h)))
                          ({[fd; r]} ∪ ro_fds h), inl w)
            end
          else (with_ro_fds (with_wakeups h (<[w := mk_wakeup 1 fd (-1)]> (ro_wakeups h)))
                  ({[fd]} ∪ ro_fds h), inl w)
      end
  end.
Definition md_resource_wakeup_create (h : ro_heap) (env : wakeup_env) : ro_heap * (loc + Z) :=
  create_wakeup h (-1) env.
Definition md_resource_wakeup_create_pipe (h : ro_heap) (reader : Z) (env : wakeup_env) : ro_heap * (loc + Z) :=
  if reader <? 0 then (h, inr (- EINVAL)) else create_wakeup h reader env.

Definition add_wakeup_refs (d : Z) (w : md_resource_wakeup) : md_resource_wakeup :=
  mk_wakeup (wrap32 (wk_refs w + d)) (wk_fd w) (wk_reader w).
Definition md_resource_wakeup_retain (h : ro_heap) (w : option loc) : ro_heap :=
  match w with Some l => with_wakeups h (alter (add_wakeup_refs 1) l (ro_wakeups h)) | None => h end.
Definition md_resource_wakeup_release (h : ro_heap) (w : option loc) : ro_heap :=
  match w with
  | None => h
  | Some l =>
      match ro_wakeups h !! l with
      | None => h
      | Some x =>
          if wk_refs x =? 1
          then with_ro_fds (with_wakeups h (delete l (ro_wakeups h)))
                 (if 0 <=? wk_reader x then ro_fds h ∖ {[wk_fd x; wk_reader x]} else ro_fds h ∖ {[wk_fd x]})
          else with_wakeups h (alter (add_wakeup_refs (-1)) l (ro_wakeups h))
      end
  end.
(** [write fd] is the outcome of writing to the token's descriptor. *)
Definition md_resource_wakeup_signal (h : ro_heap) (w : option loc) (write : Z → Z + Z) : ro_heap * Z :=
  match w with
  | None => (h, 0)
  | Some l =>
      (mk_ro (ro_queues h) (ro_orders h) (ro_wakeups h) (ro_fds h) (ro_signals h ++ [l]),
       match ro_wakeups h !! l with Some x => md_event_signal (write (wk_fd x)) | None => 0 end)
  end.

(** ** Turns *)

(** [mutex] is the result of pthread_mutex_init. *)
Definition md_resource_queue_init (h : ro_heap) (q : loc) (mutex : Z) : ro_heap * Z :=
  (with_queues h (<[q := mk_queue None None]> (ro_queues h)), - mutex).
Definition md_resource_queue_destroy (h : ro_heap) (q : loc) : ro_heap :=
  with_queues h (delete q (ro_queues h)).

Definition order_at (h : ro_heap) (p : loc) : md_resource_order := default idle_order (ro_orders h !! p).
Definition queue_at (h : ro_heap) (q : loc) : md_resource_queue := default (mk_queue None None) (ro_queues h !! q).
Definition state_of (h : ro_heap) (op : option loc) : md_resource_order_state :=
  match op with Some p => o_state (order_at h p) | None => MD_RESOURCE_ORDER_IDLE end.

Definition md_resource_order_begin (h : ro_heap) (q op wake : option loc) : ro_heap * Z :=
  match q, op with
  | Some q, Some p =>
      let o := order_at h p in
      if negb (bool_decide (state_of h op = MD_RESOURCE_ORDER_IDLE)) || bool_decide (is_Some (o_queue o))
         || bool_decide (is_Some (o_previous o)) || bool_decide (is_Some (o_next o))
      then (h, - EBUSY)
      else
        let h1 := md_resource_wakeup_retain h wake in
        let last := q_last (queue_at h q) in
        let h2 := with_orders h1 (<[p := mk_order (Some q) last (o_next o) (o_state o) wake]> (ro_orders h1)) in
        let h3 := match last with
                  | Some l => upd_order h2 l (o_set_next (Some p))
                  | None => upd_queue h2 q (q_set_first (Some p))
                  end in
        let h4 := upd_queue h3 q (q_set_last (Some p)) in
        let ready := bool_decide (q_first (queue_at h4 q) = Some p) in
        (upd_order h4 p (o_set_state (if ready then MD_RESOURCE_ORDER_READY else MD_RESOURCE_ORDER_QUEUED)),
         if ready then 1 else 0)
  | _, _ => (h, - EINVAL)
  end.

Definition md_resource_order_start (h : ro_heap) (op : option loc) : ro_heap * Z :=
  match op with
  | None => (h, - EINVAL)
  | Some p =>
      if bool_decide (o_queue (order_at h p) = None) then (h, - EINVAL)
      else if bool_decide (state_of h op = MD_RESOURCE_ORDER_READY)
      then (upd_order h p (o_set_state MD_RESOURCE_ORDER_RUNNING), 0)
      else (h, - EINVAL)
  end.

(** The unlinking half of [retire], under the lock: the new heap and the token
    of the next owner, retained. *)
Definition retire_unlink (h : ro_heap) (p q : loc) : ro_heap * option loc :=
  let o := order_at h p in
  let first := bool_decide (q_first (queue_at h q) = Some p) in
  let h1 := match o_previous o with
            | Some b => upd_order h b (o_set_next (o_next o))
            | None => upd_queue h q (q_set_first (o_next o))
            end in
  let h2 := match o_next o with
            | Some n => upd_order h1 n (o_set_previous (o_previous o))
            | None => upd_queue h1 q (q_set_last (o_previous o))
            end in
  let h3 := with_orders h2 (<[p := idle_order]> (ro_orders h2)) in
  match first, q_first (queue_at h3 q) with
  | true, Some n =>
      let next := o_wakeup (order_at h3 n) in
      (md_resource_wakeup_retain (upd_order h3 n (o_set_state MD_RESOURCE_ORDER_READY)) next, next)
  | _, _ => (h3, None)
  end.
Definition retire (h : ro_heap) (p q : loc) (write : Z → Z + Z) : ro_heap * Z :=
  let owner := o_wakeup (order_at h p) in
  let '(h1, next) := retire_unlink h p q in
  let '(h2, error) := md_resource_wakeup_signal h1 next write in
  (md_resource_wakeup_release (md_resource_wakeup_release h2 next) owner, error).

Definition md_resource_order_move (h : ro_heap) (from to : option loc) : ro_heap * Z :=
  match from, to with
  | Some a, Some b =>
      match o_queue (order_at h a) with
      | None => (h, - EINVAL)
      | Some q =>
          let t := order_at h b in
          if bool_decide (a = b) then (h, - EINVAL)
          else if bool_decide (is_Some (o_queue t)) || negb (bool_decide (o_state t = MD_RESOURCE_ORDER_IDLE))
                  || bool_decide (is_Some (o_wakeup t)) || bool_decide (is_Some (o_previous t))
                  || bool_decide (is_Some (o_next t))
          then (h, - EBUSY)
          else
            let o := order_at h a in
            let h1 := with_orders h (<[b := o]> (ro_orders h)) in
            let h2 := match o_previous o with
                      | Some x => upd_order h1 x (o_set_next (Some b))
                      | None => upd_queue h1 q (q_set_first (Some b))
                      end in
            let h3 := match o_next o with
                      | Some x => upd_order h2 x (o_set_previous (Some b))
                      | None => upd_queue h2 q (q_set_last (Some b))
                      end in
            (with_orders h3 (<[a := idle_order]> (ro_orders h3)), 0)
      end
  | _, _ => (h, - EINVAL)
  end.

Definition turn_held (s : md_resource_order_state) : bool :=
  bool_decide (s = MD_RESOURCE_ORDER_RUNNING) || bool_decide (s = MD_RESOURCE_ORDER_CANCELLING).
Definition waiting (s : md_resource_order_state) : bool :=
  bool_decide (s = MD_RESOURCE_ORDER_QUEUED) || bool_decide (s = MD_RESOURCE_ORDER_READY).

Definition md_resource_order_cancel (h : ro_heap) (op : option loc) (write : Z → Z + Z) : ro_heap * Z :=
  match op with
  | None => (h, - EINVAL)
  | Some p =>
      match o_queue (order_at h p) with
      | None => (h, - EINVAL)
      | Some q =>
          let state := state_of h op in
          if turn_held state then (upd_order h p (o_set_state MD_RESOURCE_ORDER_CANCELLING), 1)
          else if negb (waiting state) then (h, - EINVAL)
          else retire h p q write
      end
  end.
Definition md_resource_order_complete (h : ro_heap) (op : option loc) (write : Z → Z + Z) : ro_heap * Z :=
  match op with
  | None => (h, - EINVAL)
  | Some p =>
      match o_queue (order_at h p) with
      | None => (h, - EINVAL)
      | Some q => if negb (turn_held (state_of h op)) then (h, - EINVAL) else retire h p q write
      end
  end.

(** ** Specification: a queue is a list, its head holds the turn *)

Record entry := mk_entry { en_op : loc; en_state : md_resource_order_state; en_wakeup : option loc }.
Definition ops (l : list entry) : list loc := en_op <$> l.
Definition turn (s : md_resource_order_state) : Prop :=
  s ≠ MD_RESOURCE_ORDER_IDLE ∧ s ≠ MD_RESOURCE_ORDER_QUEUED.
Definition phases (l : list entry) : Prop :=
  match l with
  | [] => True
  | e :: l => turn (en_state e) ∧ Forall (λ x, en_state x = MD_RESOURCE_ORDER_QUEUED) l
  end.
Definition make_ready (l : list entry) : list entry :=
  match l with [] => [] | e :: l => mk_entry (en_op e) MD_RESOURCE_ORDER_READY (en_wakeup e) :: l end.
(** The queue and the token to signal once the record between [l1] and [l2] is gone. *)
Definition handover (l1 l2 : list entry) : list entry :=
  match l1 with [] => make_ready l2 | _ => l1 ++ l2 end.
Definition woken (l1 l2 : list entry) : option loc :=
  match l1, l2 with [], e :: _ => en_wakeup e | _, _ => None end.

Inductive ro_op :=
  | Begin (q p : loc) (w : option loc) | Start (p : loc) | Move (a b : loc)
  | Cancel (p : loc) | Complete (p : loc).
Definition ro_run (h : ro_heap) (op : ro_op) (write : Z → Z + Z) : ro_heap * Z :=
  match op with
  | Begin q p w => md_resource_order_begin h (Some q) (Some p) w
  | Start p => md_resource_order_start h (Some p)
  | Move a b => md_resource_order_move h (Some a) (Some b)
  | Cancel p => md_resource_order_cancel h (Some p) write
  | Complete p => md_resource_order_complete h (Some p) write
  end.

Definition queued (A : gmap loc (list entry)) (p : loc) : Prop := ∃ q l, A !! q = Some l ∧ p ∈ ops l.

(** [fifo_step A op r w A']: the operation returns [r] and signals the token [w]. *)
Inductive fifo_step (A : gmap loc (list entry)) : ro_op → Z → option loc → gmap loc (list entry) → Prop :=
  | fifo_begin q l p w :
      A !! q = Some l → ¬ queued A p →
      fifo_step A (Begin q p w) (match l with [] => 1 | _ => 0 end) None
        (<[q := l ++ [mk_entry p (match l with [] => MD_RESOURCE_ORDER_READY | _ => MD_RESOURCE_ORDER_QUEUED end) w]]> A)
  | fifo_begin_busy q p w : queued A p → fifo_step A (Begin q p w) (- EBUSY) None A
  | fifo_start q p w l :
      A !! q = Some (mk_entry p MD_RESOURCE_ORDER_READY w :: l) →
      fifo_step A (Start p) 0 None (<[q := mk_entry p MD_RESOURCE_ORDER_RUNNING w :: l]> A)
  | fifo_start_early q l p s w :
      A !! q = Some l → mk_entry p s w ∈ l → s ≠ MD_RESOURCE_ORDER_READY →
      fifo_step A (Start p) (- EINVAL) None A
  | fifo_idle op p :
      op ∈ [Start p; Cancel p; Complete p] → ¬ queued A p → fifo_step A op (- EINVAL) None A
  | fifo_move q l1 a s w l2 b :
      A !! q = Some (l1 ++ mk_entry a s w :: l2) → ¬ queued A b → a ≠ b →
      fifo_step A (Move a b) 0 None (<[q := l1 ++ mk_entry b s w :: l2]> A)
  | fifo_move_bad a b : ¬ queued A a ∨ a = b → fifo_step A (Move a b) (- EINVAL) None A
  | fifo_move_busy a b : queued A a → a ≠ b → queued A b → fifo_step A (Move a b) (- EBUSY) None A
  | fifo_cancel_running q p s w l :
      A !! q = Some (mk_entry p s w :: l) → turn_held s = true →
      fifo_step A (Cancel p) 1 None (<[q := mk_entry p MD_RESOURCE_ORDER_CANCELLING w :: l]> A)
  | fifo_cancel q l1 p s w l2 r :
      A !! q = Some (l1 ++ mk_entry p s w :: l2) → waiting s = true →
      fifo_step A (Cancel p) r (woken l1 l2) (<[q := handover l1 l2]> A)
  | fifo_complete q p s w l r :
      A !! q = Some (mk_entry p s w :: l) → turn_held s = true →
      fifo_step A (Complete p) r (woken [] l) (<[q := make_ready l]> A)
  | fifo_complete_early q l p s w :
      A !! q = Some l → mk_entry p s w ∈ l → waiting s = true →
      fifo_step A (Complete p) (- EINVAL) None A.

(** ** Representation: the doubly linked records of a list *)

Definition first_of (l : list entry) (next : option loc) : option loc :=
  match l with [] => next | e :: _ => Some (en_op e) end.
Fixpoint last_of (prev : option loc) (l : list entry) : option loc :=
  match l with [] => prev | e :: l => last_of (Some (en_op e)) l end.
Fixpoint seg (m : gmap loc md_resource_order) (q : loc) (prev : option loc) (l : list entry)
    (next : option loc) : Prop :=
  match l with
  | [] => True
  | e :: l => m !! en_op e = Some (mk_order (Some q) prev (first_of l next) (en_state e) (en_wakeup e))
              ∧ seg m q (Some (en_op e)) l next
  end.
Record queue_rep (h : ro_heap) (q : loc) (l : list entry) : Prop := mk_queue_rep {
  qr_ends : ro_queues h !! q = Some (mk_queue (first_of l None) (last_of None l));
  qr_seg : seg (ro_orders h) q None l None;
  qr_nodup : NoDup (ops l);
  qr_phases : phases l }.
Record ro_rep (h : ro_heap) (A : gmap loc (list entry)) : Prop := mk_ro_rep {
  rep_queue : ∀ q l, A !! q = Some l → queue_rep h q l;
  rep_busy : ∀ p o q, ro_orders h !! p = Some o → o_queue o = Some q → ∃ l, A !! q = Some l ∧ p ∈ ops l;
  rep_idle : ∀ p o, ro_orders h !! p = Some o → o_queue o = None → o = idle_order }.

Lemma ops_app l1 l2 : ops (l1 ++ l2) = ops l1 ++ ops l2.
Proof. apply fmap_app. Qed.
Lemma first_of_app l1 l2 next : first_of (l1 ++ l2) next = first_of l1 (first_of l2 next).
Proof. by destruct l1. Qed.
Lemma last_of_app prev l1 l2 : last_of prev (l1 ++ l2) = last_of (last_of prev l1) l2.
Proof. revert prev. induction l1; cbn; auto. Qed.
Lemma last_of_snoc prev l e : last_of prev (l ++ [e]) = Some (en_op e).
Proof. by rewrite last_of_app. Qed.
Lemma seg_app m q prev l1 l2 next :
  seg m q prev (l1 ++ l2) next ↔ seg m q prev l1 (first_of l2 next) ∧ seg m q (last_of prev l1) l2 next.
Proof. revert prev. induction l1 as [|e l1 IH]; intros prev; cbn; [tauto|]. rewrite IH, first_of_app. tauto. Qed.
Lemma seg_frame m m' q prev l next :
  (∀ p, p ∈ ops l → m' !! p = m !! p) → seg m q prev l next → seg m' q prev l next.
Proof.
  revert prev. induction l as [|e l IH]; intros prev Hm; cbn; [done|]. intros [He Hl].
  split; [rewrite Hm; [done|by left]|]. apply IH; [|done]. intros p Hp. apply Hm. by right.
Qed.
Lemma seg_lookup m q prev l next p : seg m q prev l next → p ∈ ops l → ∃ o, m !! p = Some o ∧ o_queue o = Some q.
Proof.
  revert prev. induction l as [|e l IH]; intros prev; cbn; [by intros _ ?%elem_of_nil|].
  intros [He Hl] [->|Hp]%elem_of_cons; [by eexists|by eapply IH].
Qed.
Definition relink_next (b : option loc) (x : option loc) (m : gmap loc md_resource_order) :=
  match b with Some b => alter (o_set_next x) b m | None => m end.
Definition relink_previous (n : option loc) (x : option loc) (m : gmap loc md_resource_order) :=
  match n with Some n => alter (o_set_previous x) n m | None => m end.

Lemma seg_relink_next m q prev l next x :
  NoDup (ops l) → seg m q prev l next → seg (relink_next (last_of None l) x m) q prev l x.
Proof.
  intros Hnd Hs. destruct l as [|e l _] using rev_ind; [done|]. rewrite last_of_snoc. cbn.
  rewrite ops_app in Hnd. apply NoDup_app in Hnd as (_ & Hdis & _).
  apply seg_app in Hs as [Hl [He _]]. apply seg_app. split.
  - eapply seg_frame; [|exact Hl]. intros p Hp. apply lookup_alter_ne. intros <-. by apply (Hdis _ Hp); left.
  - cbn. by rewrite lookup_alter_eq, He.
Qed.
Lemma seg_relink_previous m q prev l next x :
  NoDup (ops l) → seg m q prev l next → seg (relink_previous (first_of l None) x m) q x l next.
Proof.
  intros Hnd Hs. destruct l as [|e l]; [done|]. cbn in *. apply NoDup_cons in Hnd as [Hne _].
  destruct Hs as [He Hl]. rewrite lookup_alter_eq, He. split; [done|].
  eapply seg_frame; [|exact Hl]. intros p Hp. apply lookup_alter_ne. by intros <-.
Qed.
Lemma relink_next_other b x m p : b ≠ Some p → relink_next b x m !! p = m !! p.
Proof. destruct b; [|done]. intros Hb. apply lookup_alter_ne. congruence. Qed.
Lemma relink_previous_other n x m p : n ≠ Some p → relink_previous n x m !! p = m !! p.
Proof. destruct n; [|done]. intros Hb. apply lookup_alter_ne. congruence. Qed.
Lemma last_of_elem l p : last_of None l = Some p → p ∈ ops l.
Proof.
  destruct l as [|e l _] using rev_ind; [done|]. rewrite last_of_snoc, ops_app. intros [= <-].
  apply elem_of_app. right. by left.
Qed.
Lemma first_of_elem l p : first_of l None = Some p → p ∈ ops l.
Proof. destruct l; [done|]. intros [= <-]. by left. Qed.
Lemma last_of_none prev l : last_of prev l = match l with [] => prev | _ => last_of None l end.
Proof. by destruct l. Qed.

Lemma last_of_cons prev e l : ∃ b, last_of prev (e :: l) = Some b.
Proof. cbn. generalize (en_op e). induction l; cbn; eauto. Qed.

(** Replacing one queue's list. *)
Lemma rep_update h h' A q l l' :
  ro_rep h A → A !! q = Some l →
  queue_rep h' q l' → (∀ q', q' ≠ q → ro_queues h' !! q' = ro_queues h !! q') →
  (∀ p, p ∉ ops l → p ∉ ops l' → ro_orders h' !! p = ro_orders h !! p) →
  (∀ p, p ∈ ops l → p ∉ ops l' → ro_orders h' !! p = Some idle_order) →
  (∀ p, p ∈ ops l' → p ∉ ops l → order_at h p = idle_order) →
  ro_rep h' (<[q := l']> A).
Proof.
  intros Hr Hl Hq' Hqs Hout Hgone Hnew.
  assert (∀ p o q2, ro_orders h !! p = Some o → o_queue o = Some q2 → q2 ≠ q → ro_orders h' !! p = Some o) as Hkeep.
  { intros p o q2 Hp Ho Hne. assert (p ∉ ops l) as Hnl.
    { intros Hin. destruct (seg_lookup _ _ _ _ _ _ (qr_seg _ _ _ (rep_queue _ _ Hr _ _ Hl)) Hin) as (o2 & ? & ?).
      congruence. }
    rewrite Hout; [done|done|]. intros Hin. specialize (Hnew p Hin Hnl). unfold order_at in Hnew.
    rewrite Hp in Hnew. cbn in Hnew. by subst. }
  split.
  - intros q2 l2. destruct (decide (q2 = q)) as [->|Hne].
    + rewrite lookup_insert_eq. by intros [= <-].
    + rewrite lookup_insert_ne by done. intros H2. destruct (rep_queue _ _ Hr _ _ H2) as [He Hs Hn Hp].
      split; [by rewrite Hqs|  |done|done]. eapply seg_frame; [|exact Hs]. intros p Hin.
      destruct (seg_lookup _ _ _ _ _ _ Hs Hin) as (o & Ho & Hoq). rewrite Ho. by eapply Hkeep.
  - intros p o q2 Hp Ho. destruct (decide (p ∈ ops l')) as [Hin|Hin].
    + destruct (seg_lookup _ _ _ _ _ _ (qr_seg _ _ _ Hq') Hin) as (o2 & ? & ?).
      assert (q2 = q) as -> by congruence. exists l'. by rewrite lookup_insert_eq.
    + destruct (decide (p ∈ ops l)) as [Hinl|Hinl]; [rewrite Hgone in Hp by done; by injection Hp as <-|].
      rewrite Hout in Hp by done. destruct (rep_busy _ _ Hr _ _ _ Hp Ho) as (l2 & H2 & Hp2).
      exists l2. rewrite lookup_insert_ne; [done|]. intros ->. congruence.
  - intros p o Hp Ho. destruct (decide (p ∈ ops l')) as [Hin|Hin].
    + destruct (seg_lookup _ _ _ _ _ _ (qr_seg _ _ _ Hq') Hin) as (o2 & ? & ?). congruence.
    + destruct (decide (p ∈ ops l)) as [Hinl|Hinl]; [rewrite Hgone in Hp by done; congruence|].
      rewrite Hout in Hp by done. by eapply rep_idle.
Qed.

(** Changes that leave queues and records alone. *)
Lemma rep_same h h' A :
  ro_queues h' = ro_queues h → ro_orders h' = ro_orders h → ro_rep h A → ro_rep h' A.
Proof.
  intros Hq Ho [Hr Hb Hi]. split; [|by rewrite Ho|by rewrite Ho].
  intros q l Hl. destruct (Hr q l Hl). by split; rewrite ?Hq, ?Ho.
Qed.

(** Reading a record: queued ones are linked, the others are idle. *)
Lemma rep_entry h A p q :
  ro_rep h A → o_queue (order_at h p) = Some q →
  ∃ l1 s w l2, A !! q = Some (l1 ++ mk_entry p s w :: l2)
    ∧ ro_orders h !! p = Some (mk_order (Some q) (last_of None l1) (first_of l2 None) s w).
Proof.
  intros Hr. unfold order_at. destruct (ro_orders h !! p) as [o|] eqn:Hp; [cbn|done]. intros Ho.
  destruct (rep_busy _ _ Hr _ _ _ Hp Ho) as (l & Hl & Hin).
  apply list_elem_of_fmap in Hin as ([p' s w] & Heq & Hin). cbn in Heq. subst p'.
  apply list_elem_of_split in Hin as (l1 & l2 & ->). exists l1, s, w, l2. split; [done|].
  destruct (rep_queue _ _ Hr _ _ Hl) as [_ Hs _ _]. apply seg_app in Hs as [_ [Hs _]]. cbn in Hs. congruence.
Qed.
Lemma rep_order_idle h A p : ro_rep h A → o_queue (order_at h p) = None → order_at h p = idle_order ∧ ¬ queued A p.
Proof.
  intros Hr Ho. assert (order_at h p = idle_order) as Hi.
  { unfold order_at in *. destruct (ro_orders h !! p) as [o|] eqn:Hp; [|done]. by eapply rep_idle. }
  split; [done|]. intros (q & l & Hl & Hin).
  destruct (seg_lookup _ _ _ _ _ _ (qr_seg _ _ _ (rep_queue _ _ Hr _ _ Hl)) Hin) as (o & Hp & Hq).
  unfold order_at in Ho. rewrite Hp in Ho. cbn in Ho. congruence.
Qed.
Lemma rep_queued h A p : ro_rep h A → queued A p → is_Some (o_queue (order_at h p)).
Proof.
  intros Hr (q & l & Hl & Hin).
  destruct (seg_lookup _ _ _ _ _ _ (qr_seg _ _ _ (rep_queue _ _ Hr _ _ Hl)) Hin) as (o & Hp & Hq).
  unfold order_at. rewrite Hp. by exists q.
Qed.

(** Queues come and go empty, and idle records may be cleared. *)
Lemma rep_new_queue h A q mutex : ro_rep h A → A !! q = None → ro_rep (md_resource_queue_init h q mutex).1 (<[q := []]> A).
Proof.
  intros Hr Hq. split; cbn.
  - intros q2 l. rewrite lookup_insert_Some. intros [[<- <-]|[Hne Hl]]; [split; cbn; [by rewrite lookup_insert_eq|done|by apply NoDup_nil_2|done]|].
    destruct (rep_queue _ _ Hr _ _ Hl). split; cbn; [by rewrite lookup_insert_ne|done..].
  - intros p o q2 Hp Ho. destruct (rep_busy _ _ Hr _ _ _ Hp Ho) as (l & Hl & Hin). exists l. split; [|done]. rewrite lookup_insert_ne; [done|]. intros <-. congruence.
  - apply (rep_idle _ _ Hr).
Qed.
Lemma rep_drop_queue h A q : ro_rep h A → A !! q = Some [] → ro_rep (md_resource_queue_destroy h q) (delete q A).
Proof.
  intros Hr Hq. split; cbn.
  - intros q2 l. rewrite lookup_delete_Some. intros [Hne Hl]. destruct (rep_queue _ _ Hr _ _ Hl). split; cbn; [by rewrite lookup_delete_ne|done..].
  - intros p o q2 Hp Ho. destruct (rep_busy _ _ Hr _ _ _ Hp Ho) as (l & Hl & Hin). exists l. split; [|done]. rewrite lookup_delete_ne; [done|].
    intros <-. assert (l = []) as -> by congruence. by apply elem_of_nil in Hin.
  - apply (rep_idle _ _ Hr).
Qed.
Lemma rep_clear h A p : ro_rep h A → o_queue (order_at h p) = None → ro_rep (with_orders h (<[p := idle_order]> (ro_orders h))) A.
Proof.
  intros Hr Hp. destruct (rep_order_idle _ _ _ Hr Hp) as [_ Hnq]. split; cbn.
  - intros q l Hl. destruct (rep_queue _ _ Hr _ _ Hl) as [? Hs ? ?]. split; [done| |done|done]. cbn. eapply seg_frame; [|exact Hs].
    intros x Hx. rewrite lookup_insert_ne; [done|]. intros <-. apply Hnq. by exists q, l.
  - intros x o q. rewrite lookup_insert_Some. intros [[<- <-]|[? ?]]; [done|]. by eapply (rep_busy _ _ Hr).
  - intros x o. rewrite lookup_insert_Some. intros [[<- <-]|[? ?]]; [done|]. by eapply (rep_idle _ _ Hr).
Qed.

(** ** Simulation, operation by operation *)

Definition begin_state (l : list entry) : md_resource_order_state :=
  match l with [] => MD_RESOURCE_ORDER_READY | _ => MD_RESOURCE_ORDER_QUEUED end.
Lemma retain_heap h w :
  ro_queues (md_resource_wakeup_retain h w) = ro_queues h
  ∧ ro_orders (md_resource_wakeup_retain h w) = ro_orders h
  ∧ ro_signals (md_resource_wakeup_retain h w) = ro_signals h.
Proof. by destruct w. Qed.
Lemma release_heap h w :
  ro_queues (md_resource_wakeup_release h w) = ro_queues h
  ∧ ro_orders (md_resource_wakeup_release h w) = ro_orders h
  ∧ ro_signals (md_resource_wakeup_release h w) = ro_signals h.
Proof.
  destruct w as [l|]; cbn; [|done]. destruct (ro_wakeups h !! l); [|done].
  by destruct (wk_refs _ =? 1).
Qed.

Lemma begin_heap h A q l p w :
  ro_rep h A → A !! q = Some l → order_at h p = idle_order → p ∉ ops l →
  let '(h', r) := md_resource_order_begin h (Some q) (Some p) w in
  ro_orders h' = alter (o_set_state (begin_state l)) p (relink_next (last_of None l) (Some p)
    (<[p := mk_order (Some q) (last_of None l) None MD_RESOURCE_ORDER_IDLE w]> (ro_orders h)))
  ∧ ro_queues h' !! q = Some (mk_queue (first_of l (Some p)) (Some p))
  ∧ (∀ q', q' ≠ q → ro_queues h' !! q' = ro_queues h !! q')
  ∧ r = (match l with [] => 1 | _ => 0 end) ∧ ro_signals h' = ro_signals h.
Proof.
  intros Hr Hl Hp Hin. destruct (rep_queue _ _ Hr _ _ Hl) as [He _ _ _].
  unfold md_resource_order_begin, state_of. rewrite Hp. cbn [o_state o_queue o_previous o_next idle_order].
  rewrite !bool_decide_eq_true_2 by done. rewrite !bool_decide_eq_false_2 by (by intros [? ?]). cbn [negb orb].
  destruct (retain_heap h w) as (Eq & Eo & Es). set (h1 := md_resource_wakeup_retain h w) in *.
  assert (queue_at h q = mk_queue (first_of l None) (last_of None l)) as -> by (by unfold queue_at; rewrite He).
  destruct l as [|e l].
  - cbn [last_of q_last].
    match goal with |- context [bool_decide (q_first (queue_at ?x q) = Some p)] =>
      assert (q_first (queue_at x q) = Some p) as E1
        by (unfold queue_at; cbn; by rewrite Eq, !lookup_alter_eq, He) end.
    rewrite (bool_decide_eq_true_2 _ E1). cbn. rewrite Eo. repeat split; try done.
    + cbn. rewrite Eq, !lookup_alter_eq, He. done.
    + intros q' Hne. cbn. rewrite Eq. by rewrite !lookup_alter_ne by done.
  - assert (∃ b, last_of None (e :: l) = Some b) as [b Hb].
    { apply last_of_cons. }
    cbn [q_last]. rewrite Hb.
    match goal with |- context [bool_decide (q_first (queue_at ?x q) = Some p)] =>
      assert (q_first (queue_at x q) ≠ Some p) as E1
        by (unfold queue_at; cbn; rewrite Eq, lookup_alter_eq, He; intros [= Hx]; apply Hin; rewrite <- Hx; by left) end.
    rewrite (bool_decide_eq_false_2 _ E1). cbn -[last_of]. rewrite Eo. repeat split; try done.
    + cbn -[last_of]. rewrite Eq, lookup_alter_eq, He. done.
    + intros q' Hne. cbn. rewrite Eq. by rewrite !lookup_alter_ne by done.
Qed.

Lemma begin_sim h A q l p w :
  ro_rep h A → A !! q = Some l → o_queue (order_at h p) = None →
  let '(h', r) := md_resource_order_begin h (Some q) (Some p) w in
  r = (match l with [] => 1 | _ => 0 end) ∧ ro_signals h' = ro_signals h
  ∧ ro_rep h' (<[q := l ++ [mk_entry p (begin_state l) w]]> A).
Proof.
  intros Hr Hl Ho. destruct (rep_order_idle _ _ _ Hr Ho) as [Hp Hnq].
  assert (p ∉ ops l) as Hin by (intros ?; apply Hnq; by exists q, l).
  pose proof (begin_heap h A q l p w Hr Hl Hp Hin) as Hh.
  destruct (md_resource_order_begin h (Some q) (Some p) w) as [h' r].
  destruct Hh as (Eo & Eq & Eqs & -> & Es). split; [done|]. split; [done|].
  destruct (rep_queue _ _ Hr _ _ Hl) as [_ Hs Hnd Hph].
  assert (last_of None l ≠ Some p) as Hlp by (by intros ?%last_of_elem).
  assert (ro_orders h' !! p = Some (mk_order (Some q) (last_of None l) None (begin_state l) w)) as Ep.
  { rewrite Eo, lookup_alter_eq, relink_next_other, lookup_insert_eq by done. done. }
  eapply rep_update; [exact Hr|exact Hl| |exact Eqs| | | ].
  - split.
    + rewrite Eq, first_of_app, last_of_snoc. done.
    + apply seg_app. split; [|by cbn].
      rewrite Eo. cbn [first_of]. eapply seg_frame; [|eapply (seg_relink_next (ro_orders h)); [done|exact Hs]].
      intros x Hx. rewrite lookup_alter_ne by (by intros <-).
      destruct (decide (last_of None l = Some x)) as [->|Hne].
      * cbn. rewrite !lookup_alter_eq, lookup_insert_ne by (by intros <-). done.
      * rewrite !relink_next_other, lookup_insert_ne by (done || by intros <-). done.
    + rewrite ops_app. apply NoDup_app. split; [done|]. split; [|apply NoDup_singleton].
      intros x Hx ->%list_elem_of_singleton. done.
    + destruct l as [|e l]; cbn; [by split|]. destruct Hph as [? ?]. split; [done|].
      apply Forall_app. by repeat constructor.
  - intros x Hx1 Hx2. rewrite ops_app, not_elem_of_app in Hx2. destruct Hx2 as [_ Hx2].
    assert (x ≠ p) by (intros ->; apply Hx2; by left).
    rewrite Eo, lookup_alter_ne, relink_next_other, lookup_insert_ne; try done. by intros ?%last_of_elem.
  - intros x Hx Hn. exfalso. apply Hn. rewrite ops_app. apply elem_of_app. by left.
  - intros x Hx Hn. rewrite ops_app in Hx. apply elem_of_app in Hx as [?|Hx]; [done|].
    apply list_elem_of_singleton in Hx. by subst x.
Qed.

Lemma ops_split l1 e l2 :
  NoDup (ops (l1 ++ e :: l2)) →
  NoDup (ops l1) ∧ NoDup (ops l2) ∧ en_op e ∉ ops l1 ∧ en_op e ∉ ops l2 ∧ (∀ p, p ∈ ops l1 → p ∉ ops l2).
Proof.
  rewrite ops_app. cbn. intros (H1 & Hd & [He H2]%NoDup_cons)%NoDup_app. repeat split; try done.
  - intros Hin. apply (Hd _ Hin). by left.
  - intros p Hp Hin. apply (Hd _ Hp). by right.
Qed.
Lemma ops_mid l1 e l2 p : p ∈ ops (l1 ++ e :: l2) ↔ p ∈ ops l1 ∨ p = en_op e ∨ p ∈ ops l2.
Proof. rewrite ops_app, elem_of_app. cbn. by rewrite elem_of_cons. Qed.

Lemma set_state_sim h A q l1 p s s' w l2 :
  ro_rep h A → A !! q = Some (l1 ++ mk_entry p s w :: l2) → phases (l1 ++ mk_entry p s' w :: l2) →
  ro_rep (upd_order h p (o_set_state s')) (<[q := l1 ++ mk_entry p s' w :: l2]> A).
Proof.
  intros Hr Hl Hph. destruct (rep_queue _ _ Hr _ _ Hl) as [He Hs Hnd _].
  destruct (ops_split _ _ _ Hnd) as (H1 & H2 & Hp1 & Hp2 & Hd). cbn in Hp1, Hp2.
  apply seg_app in Hs as [Hs1 [Hsp Hs2]]. cbn in Hsp, Hs1, Hs2.
  eapply rep_update; [exact Hr|exact Hl| |done| | |].
  - split; [|  | |done].
    + cbn. rewrite He, !first_of_app, !last_of_app. done.
    + apply seg_app. cbn. rewrite lookup_alter_eq, Hsp. cbn.
      repeat split; (eapply seg_frame; [|eassumption]); intros x Hx; apply lookup_alter_ne; by intros <-.
    + rewrite ops_app in *. done.
  - intros x Hx _. cbn. apply lookup_alter_ne. intros <-. apply Hx, ops_mid. auto.
  - intros x Hx Hn. exfalso. apply Hn, ops_mid. apply ops_mid in Hx. done.
  - intros x Hx Hn. exfalso. apply Hn, ops_mid. apply ops_mid in Hx. done.
Qed.

Lemma retire_unlink_heap h A q l1 p s w l2 :
  ro_rep h A → A !! q = Some (l1 ++ mk_entry p s w :: l2) →
  let '(h', next) := retire_unlink h p q in
  next = woken l1 l2 ∧ ro_signals h' = ro_signals h
  ∧ ro_orders h' = (match l1, l2 with [], e :: _ => alter (o_set_state MD_RESOURCE_ORDER_READY) (en_op e) | _, _ => id end)
      (<[p := idle_order]> (relink_previous (first_of l2 None) (last_of None l1)
         (relink_next (last_of None l1) (first_of l2 None) (ro_orders h))))
  ∧ ro_queues h' !! q = Some (mk_queue (first_of (l1 ++ l2) None) (last_of None (l1 ++ l2)))
  ∧ (∀ q', q' ≠ q → ro_queues h' !! q' = ro_queues h !! q').
Proof.
  intros Hr Hl. destruct (rep_queue _ _ Hr _ _ Hl) as [He Hs Hnd _].
  destruct (ops_split _ _ _ Hnd) as (_ & _ & Hp1 & Hp2 & _). cbn in Hp1, Hp2.
  apply seg_app in Hs as [_ [Hsp Hs2]]. cbn in Hsp, Hs2.
  assert (order_at h p = mk_order (Some q) (last_of None l1) (first_of l2 None) s w) as Eo
    by (by unfold order_at; rewrite Hsp).
  assert (queue_at h q = mk_queue (first_of l1 (Some p)) (last_of (Some p) l2)) as Eq.
  { unfold queue_at. by rewrite He, first_of_app, last_of_app. }
  rewrite first_of_app, last_of_app in He. cbn in He.
  unfold retire_unlink. rewrite Eo, Eq. cbn [o_previous o_next q_first].
  destruct l1 as [|e1 l1].
  - cbn [last_of first_of]. rewrite (bool_decide_eq_true_2 (Some p = Some p)) by done. destruct l2 as [|e l2].
    + cbn. unfold queue_at. cbn. rewrite !lookup_alter_eq, He. cbn. repeat split; try done.
      * rewrite !lookup_alter_eq, He. done.
      * intros q' Hne. by rewrite !lookup_alter_ne by done.
    + cbn [first_of upd_queue upd_order queue_at]. unfold queue_at at 1. cbn.
      rewrite lookup_alter_eq, He. cbn.
      destruct Hs2 as [Hse _]. cbn in Hse.
      assert (en_op e ≠ p) by (intros <-; apply Hp2; by left).
      unfold order_at. cbn. rewrite lookup_insert_ne, lookup_alter_eq, Hse by done. cbn.
      match goal with |- context [md_resource_wakeup_retain ?x ?y] => destruct (retain_heap x y) as (-> & -> & ->) end.
      cbn. rewrite lookup_alter_eq, He. repeat split; try done.
      intros q' Hne. by rewrite !lookup_alter_ne by done.
  - rewrite bool_decide_eq_false_2 by (intros [= Hx]; apply Hp1; rewrite <- Hx; by left).
    destruct (last_of_cons None e1 l1) as [b Hb]. rewrite last_of_app, Hb.
    destruct l2 as [|e l2]; cbn; repeat split; try done.
    + rewrite lookup_alter_eq, He. done.
    + intros q' Hne. by rewrite !lookup_alter_ne by done.
Qed.

Lemma seg_unlink m q l1 e l2 :
  NoDup (ops (l1 ++ e :: l2)) → seg m q None (l1 ++ e :: l2) None →
  seg (<[en_op e := idle_order]> (relink_previous (first_of l2 None) (last_of None l1)
         (relink_next (last_of None l1) (first_of l2 None) m))) q None (l1 ++ l2) None.
Proof.
  intros Hnd Hs. destruct (ops_split _ _ _ Hnd) as (H1 & H2 & Hp1 & Hp2 & Hd).
  apply seg_app in Hs as [Hs1 [_ Hs2]]. apply seg_app. split.
  - eapply seg_frame; [|eapply seg_relink_next; [done|exact Hs1]]. intros x Hx.
    rewrite lookup_insert_ne by (by intros <-). apply relink_previous_other.
    intros ?%first_of_elem. by apply (Hd x).
  - eapply seg_frame; [|eapply seg_relink_previous; [done|]].
    + intros x Hx. by rewrite lookup_insert_ne by (by intros <-).
    + eapply seg_frame; [|exact Hs2]. intros x Hx. apply relink_next_other.
      intros ?%last_of_elem. by apply (Hd x).
Qed.
Lemma seg_make_ready m q e l next :
  en_op e ∉ ops l → seg m q None (e :: l) next →
  seg (alter (o_set_state MD_RESOURCE_ORDER_READY) (en_op e) m) q None (make_ready (e :: l)) next.
Proof.
  intros Hne [He Hl]. cbn. rewrite lookup_alter_eq, He. split; [done|].
  eapply seg_frame; [|exact Hl]. intros x Hx. apply lookup_alter_ne. by intros <-.
Qed.
Lemma make_ready_ops l : ops (make_ready l) = ops l.
Proof. by destruct l. Qed.
Lemma handover_ops l1 l2 : ops (handover l1 l2) = ops l1 ++ ops l2.
Proof. destruct l1; cbn; [apply make_ready_ops|by rewrite ops_app]. Qed.
Lemma handover_phases l1 e l2 : phases (l1 ++ e :: l2) → phases (handover l1 l2).
Proof.
  destruct l1 as [|e1 l1]; cbn.
  - intros [_ Hl]. destruct l2 as [|e2 l2]; [done|]. apply Forall_cons in Hl as [_ Hl]. by split.
  - intros [He Hl]. split; [done|]. apply Forall_app in Hl as [? Hl]. apply Forall_cons in Hl as [_ ?].
    apply Forall_app. done.
Qed.

Lemma retire_unlink_sim h A q l1 p s w l2 :
  ro_rep h A → A !! q = Some (l1 ++ mk_entry p s w :: l2) →
  let '(h', next) := retire_unlink h p q in
  next = woken l1 l2 ∧ ro_signals h' = ro_signals h ∧ ro_rep h' (<[q := handover l1 l2]> A).
Proof.
  intros Hr Hl. pose proof (retire_unlink_heap h A q l1 p s w l2 Hr Hl) as Hh.
  destruct (retire_unlink h p q) as [h' next]. destruct Hh as (-> & Hsig & Eo & Eq & Eqs).
  split; [done|]. split; [done|]. destruct (rep_queue _ _ Hr _ _ Hl) as [He Hs Hnd Hph].
  pose proof (seg_unlink _ _ _ _ _ Hnd Hs) as Hsu. cbn in Hsu.
  destruct (ops_split _ _ _ Hnd) as (H1 & H2 & Hp1 & Hp2 & Hd). cbn in Hp1, Hp2.
  assert (∀ x, x ∉ ops (handover l1 l2) → x ≠ p → ro_orders h' !! x = ro_orders h !! x) as Hout.
  { intros x Hx Hxp. rewrite handover_ops, not_elem_of_app in Hx. destruct Hx as [Hx1 Hx2].
    set (m := <[p := _]> _) in *.
    assert (m !! x = ro_orders h !! x) as <-.
    { unfold m. rewrite lookup_insert_ne, relink_previous_other, relink_next_other by
        (done || by intros ?%last_of_elem || by intros ?%first_of_elem). done. }
    rewrite Eo. destruct l1; [|done]. destruct l2; [done|]. apply lookup_alter_ne. intros <-. apply Hx2. by left. }
  eapply rep_update; [exact Hr|exact Hl| |exact Eqs| | |].
  - split.
    + rewrite Eq. destruct l1, l2; done.
    + rewrite Eo. destruct l1; [|done]. destruct l2; [done|]. apply seg_make_ready; [|done].
      by apply NoDup_cons in H2 as [? _].
    + rewrite handover_ops. apply NoDup_app. done.
    + by eapply handover_phases.
  - intros x Hx Hn. apply Hout; [done|]. intros ->. apply Hx, ops_mid. auto.
  - intros x Hx Hn. rewrite handover_ops, not_elem_of_app in Hn. destruct Hn as [Hn1 Hn2].
    apply ops_mid in Hx as [?|[->|?]]; [done| |done]. rewrite Eo. unfold id. cbn.
    destruct l1; [|by rewrite lookup_insert_eq]. destruct l2; cbn; [by rewrite lookup_insert_eq|].
    rewrite lookup_alter_ne by (intros <-; apply Hp2; by left). by rewrite lookup_insert_eq.
  - intros x Hx Hn. exfalso. apply Hn, ops_mid. rewrite handover_ops, elem_of_app in Hx. tauto.
Qed.

Lemma retire_sim h A q l1 p s w l2 write :
  ro_rep h A → A !! q = Some (l1 ++ mk_entry p s w :: l2) →
  let '(h', r) := retire h p q write in
  ro_signals h' = ro_signals h ++ option_list (woken l1 l2) ∧ ro_rep h' (<[q := handover l1 l2]> A).
Proof.
  intros Hr Hl. unfold retire. pose proof (retire_unlink_sim h A q l1 p s w l2 Hr Hl) as Hu.
  destruct (retire_unlink h p q) as [h1 next]. destruct Hu as (-> & Hsig & Hr').
  destruct (md_resource_wakeup_signal h1 (woken l1 l2) write) as [h2 r] eqn:Esig.
  assert (ro_queues h2 = ro_queues h1 ∧ ro_orders h2 = ro_orders h1
    ∧ ro_signals h2 = ro_signals h1 ++ option_list (woken l1 l2)) as (E1 & E2 & E3).
  { revert Esig. unfold md_resource_wakeup_signal. destruct (woken l1 l2); intros [= <- _]; cbn; [done|].
    by rewrite app_nil_r. }
  destruct (release_heap h2 (woken l1 l2)) as (F1 & F2 & F3).
  destruct (release_heap (md_resource_wakeup_release h2 (woken l1 l2)) (o_wakeup (order_at h p))) as (G1 & G2 & G3).
  split; [congruence|]. eapply rep_same; [| |exact Hr']; congruence.
Qed.

Lemma move_heap h A q l1 a s w l2 b :
  ro_rep h A → A !! q = Some (l1 ++ mk_entry a s w :: l2) → order_at h b = idle_order → a ≠ b →
  let '(h', r) := md_resource_order_move h (Some a) (Some b) in
  r = 0 ∧ ro_signals h' = ro_signals h
  ∧ ro_orders h' = <[a := idle_order]> (relink_previous (first_of l2 None) (Some b)
      (relink_next (last_of None l1) (Some b)
         (<[b := mk_order (Some q) (last_of None l1) (first_of l2 None) s w]> (ro_orders h))))
  ∧ ro_queues h' !! q = Some (mk_queue (first_of l1 (Some b)) (last_of (Some b) l2))
  ∧ (∀ q', q' ≠ q → ro_queues h' !! q' = ro_queues h !! q').
Proof.
  intros Hr Hl Hb Hab. destruct (rep_queue _ _ Hr _ _ Hl) as [He Hs _ _].
  apply seg_app in Hs as [_ [Hsp _]]. cbn in Hsp.
  assert (order_at h a = mk_order (Some q) (last_of None l1) (first_of l2 None) s w) as Eo
    by (by unfold order_at; rewrite Hsp).
  rewrite first_of_app, last_of_app in He. cbn in He.
  unfold md_resource_order_move. rewrite Eo, Hb. cbn [o_queue idle_order o_state o_wakeup o_previous o_next].
  rewrite (bool_decide_eq_false_2 (a = b)) by done. rewrite (bool_decide_eq_false_2 (is_Some None)) by (by intros [? ?]).
  rewrite bool_decide_eq_true_2 by done. cbn [negb orb].
  destruct l1 as [|e1 l1]; [|destruct (last_of_cons None e1 l1) as [x Hx]; rewrite Hx];
    destruct l2 as [|e2 l2]; cbn; repeat split; try done;
    rewrite ?lookup_alter_eq, ?He; try done; intros q' Hne; by rewrite ?lookup_alter_ne by done.
Qed.

Lemma seg_replace m q l1 a s w l2 b :
  NoDup (ops (l1 ++ mk_entry a s w :: l2)) → b ∉ ops (l1 ++ mk_entry a s w :: l2) →
  seg m q None (l1 ++ mk_entry a s w :: l2) None →
  seg (<[a := idle_order]> (relink_previous (first_of l2 None) (Some b)
      (relink_next (last_of None l1) (Some b)
         (<[b := mk_order (Some q) (last_of None l1) (first_of l2 None) s w]> m)))) q None
    (l1 ++ mk_entry b s w :: l2) None.
Proof.
  intros Hnd Hbl Hs. destruct (ops_split _ _ _ Hnd) as (H1 & H2 & Hp1 & Hp2 & Hd). cbn in Hp1, Hp2.
  rewrite ops_mid in Hbl. cbn in Hbl. apply seg_app in Hs as [Hs1 [_ Hs2]].
  apply seg_app. cbn. split; [|split].
  - eapply seg_frame; [|eapply (seg_relink_next m); [done|exact Hs1]]. intros x Hx.
    rewrite lookup_insert_ne, relink_previous_other by (intros ->; tauto) || (intros ?%first_of_elem; by apply (Hd x)).
    destruct (decide (last_of None l1 = Some x)) as [->|Hne].
    + cbn. rewrite !lookup_alter_eq, lookup_insert_ne by (intros ->; tauto). done.
    + rewrite !relink_next_other, lookup_insert_ne by (done || (intros ->; tauto)). done.
  - rewrite lookup_insert_ne, relink_previous_other, relink_next_other, lookup_insert_eq; try done;
      try (intros ?%last_of_elem; tauto); try (intros ?%first_of_elem; tauto). intros ->. tauto.
  - eapply seg_frame; [|eapply (seg_relink_previous m); [done|exact Hs2]]. intros x Hx.
    rewrite lookup_insert_ne by (intros ->; tauto).
    assert (relink_next (last_of None l1) (Some b) (<[b:=mk_order (Some q) (last_of None l1) (first_of l2 None) s w]> m)
      !! x = m !! x) as Ex.
    { rewrite relink_next_other, lookup_insert_ne; [done|intros ->; tauto|].
      intros ?%last_of_elem. by apply (Hd x). }
    set (m' := relink_next _ _ _) in *. destruct (decide (first_of l2 None = Some x)) as [->|Hne].
    + cbn. by rewrite !lookup_alter_eq, Ex.
    + by rewrite !relink_previous_other by done.
Qed.
Lemma move_sim h A q l1 a s w l2 b :
  ro_rep h A → A !! q = Some (l1 ++ mk_entry a s w :: l2) → o_queue (order_at h b) = None → a ≠ b →
  let '(h', r) := md_resource_order_move h (Some a) (Some b) in
  r = 0 ∧ ro_signals h' = ro_signals h ∧ ro_rep h' (<[q := l1 ++ mk_entry b s w :: l2]> A).
Proof.
  intros Hr Hl Hbq Hab. destruct (rep_order_idle _ _ _ Hr Hbq) as [Hb Hnq].
  pose proof (move_heap h A q l1 a s w l2 b Hr Hl Hb Hab) as Hh.
  destruct (md_resource_order_move h (Some a) (Some b)) as [h' r]. destruct Hh as (-> & Hsig & Eo & Eq & Eqs).
  split; [done|]. split; [done|]. destruct (rep_queue _ _ Hr _ _ Hl) as [He Hs Hnd Hph].
  destruct (ops_split _ _ _ Hnd) as (H1 & H2 & Hp1 & Hp2 & Hd). cbn in Hp1, Hp2.
  assert (b ∉ ops (l1 ++ mk_entry a s w :: l2)) as Hbl by (intros ?; apply Hnq; by eexists _, _).
  pose proof Hbl as Hbn. rewrite ops_mid in Hbn. cbn in Hbn.
  eapply rep_update; [exact Hr|exact Hl| |exact Eqs| | |].
  - split.
    + by rewrite Eq, first_of_app, last_of_app.
    + rewrite Eo. by apply seg_replace.
    + rewrite ops_app in *. cbn in *. apply NoDup_app. split; [done|]. split; [|by apply NoDup_cons; split; [tauto|]].
      intros x Hx [->|?]%elem_of_cons; [tauto|by apply (Hd x)].
    + revert Hph. destruct l1; cbn; [done|]. rewrite !Forall_app, !Forall_cons. done.
  - intros x Hx1 Hx2. rewrite ops_mid in Hx1, Hx2. cbn in Hx1, Hx2. rewrite Eo.
    rewrite lookup_insert_ne, relink_previous_other, relink_next_other, lookup_insert_ne; try done;
      try (intros ->; tauto); (intros ?%last_of_elem; tauto) || (intros ?%first_of_elem; tauto).
  - intros x Hx Hn. rewrite ops_mid in Hx, Hn. cbn in Hx, Hn. assert (x = a) as -> by tauto.
    rewrite Eo. by rewrite lookup_insert_eq.
  - intros x Hx Hn. rewrite ops_mid in Hx, Hn. cbn in Hx, Hn. assert (x = b) as -> by tauto. done.
Qed.

Lemma phases_head l1 p s w l2 :
  phases (l1 ++ mk_entry p s w :: l2) → s ≠ MD_RESOURCE_ORDER_IDLE ∧ (s ≠ MD_RESOURCE_ORDER_QUEUED → l1 = []).
Proof.
  destruct l1 as [|e l1]; cbn; [by intros [[? ?] _]|]. intros [_ Hl].
  apply Forall_app in Hl as [_ Hl]. apply Forall_cons in Hl as [Hs _]. cbn in Hs. by rewrite Hs.
Qed.
Lemma turn_held_true s : turn_held s = true → s = MD_RESOURCE_ORDER_RUNNING ∨ s = MD_RESOURCE_ORDER_CANCELLING.
Proof. by destruct s; auto. Qed.
Lemma waiting_true s : s ≠ MD_RESOURCE_ORDER_IDLE → waiting s = negb (turn_held s).
Proof. by destruct s. Qed.

Lemma begin_step h A q l p w h' r :
  ro_rep h A → A !! q = Some l → md_resource_order_begin h (Some q) (Some p) w = (h', r) →
  ∃ A', fifo_step A (Begin q p w) r None A' ∧ ro_rep h' A' ∧ ro_signals h' = ro_signals h.
Proof.
  intros Hr Hl. destruct (o_queue (order_at h p)) as [q0|] eqn:Hq.
  - unfold md_resource_order_begin. rewrite Hq, (bool_decide_eq_true_2 (is_Some (Some q0))) by done.
    rewrite orb_true_r. cbn [orb]. intros [= <- <-]. exists A. split; [|done]. constructor.
    destruct (rep_entry _ _ _ _ Hr Hq) as (l1 & s & w' & l2 & HA & _). eexists _, _. split; [exact HA|].
    apply ops_mid. auto.
  - intros Hb. pose proof (begin_sim h A q l p w Hr Hl Hq) as Hs. rewrite Hb in Hs.
    destruct Hs as (-> & Hsig & Hr'). eexists. split; [|done].
    destruct (rep_order_idle _ _ _ Hr Hq). by apply fifo_begin.
Qed.
Lemma start_step h A p h' r :
  ro_rep h A → md_resource_order_start h (Some p) = (h', r) →
  ∃ A', fifo_step A (Start p) r None A' ∧ ro_rep h' A' ∧ ro_signals h' = ro_signals h.
Proof.
  intros Hr. unfold md_resource_order_start. destruct (o_queue (order_at h p)) as [q|] eqn:Hq.
  - rewrite bool_decide_eq_false_2 by done.
    destruct (rep_entry _ _ _ _ Hr Hq) as (l1 & s & w & l2 & HA & Ho). unfold state_of, order_at. rewrite Ho. cbn.
    pose proof (qr_phases _ _ _ (rep_queue _ _ Hr _ _ HA)) as Hph.
    case_bool_decide as Hs; intros [= <- <-].
    + subst s. assert (l1 = []) as -> by (by apply (phases_head _ _ _ _ _ Hph)). eexists. split; [by eapply fifo_start|].
      split; [|done]. apply (set_state_sim h A q [] p MD_RESOURCE_ORDER_READY _ w l2 Hr HA). by destruct Hph.
    + exists A. split; [|done]. eapply fifo_start_early; [exact HA| |exact Hs]. apply elem_of_app. right. by left.
  - rewrite bool_decide_eq_true_2 by done. intros [= <- <-]. exists A. split; [|done].
    destruct (rep_order_idle _ _ _ Hr Hq). eapply fifo_idle; [|done]. by left.
Qed.
Lemma move_step h A a b h' r :
  ro_rep h A → md_resource_order_move h (Some a) (Some b) = (h', r) →
  ∃ A', fifo_step A (Move a b) r None A' ∧ ro_rep h' A' ∧ ro_signals h' = ro_signals h.
Proof.
  intros Hr Hm. destruct (o_queue (order_at h a)) as [q|] eqn:Hq.
  - destruct (rep_entry _ _ _ _ Hr Hq) as (l1 & s & w & l2 & HA & Ho).
    destruct (decide (a = b)) as [<-|Hab].
    + unfold md_resource_order_move in Hm. rewrite Hq, bool_decide_eq_true_2 in Hm by done. injection Hm as <- <-.
      exists A. split; [|done]. apply fifo_move_bad. auto.
    + destruct (o_queue (order_at h b)) as [q2|] eqn:Hq2.
      * unfold md_resource_order_move in Hm. rewrite Hq, Hq2, bool_decide_eq_false_2 in Hm by done.
        rewrite bool_decide_eq_true_2 in Hm by done. injection Hm as <- <-. exists A. split; [|done].
        destruct (rep_entry _ _ _ _ Hr Hq2) as (m1 & s2 & w2 & m2 & HA2 & _).
        apply fifo_move_busy; [exists q|done|exists q2]; eexists; (split; [eassumption|]); apply ops_mid; auto.
      * pose proof (move_sim h A q l1 a s w l2 b Hr HA Hq2 Hab) as Hs. rewrite Hm in Hs.
        destruct Hs as (-> & ? & ?). eexists. split; [|done]. destruct (rep_order_idle _ _ _ Hr Hq2).
        by apply fifo_move.
  - unfold md_resource_order_move in Hm. rewrite Hq in Hm. injection Hm as <- <-. exists A. split; [|done].
    apply fifo_move_bad. left. by destruct (rep_order_idle _ _ _ Hr Hq).
Qed.

Lemma cancel_step h A p write h' r :
  ro_rep h A → md_resource_order_cancel h (Some p) write = (h', r) →
  ∃ A' w, fifo_step A (Cancel p) r w A' ∧ ro_rep h' A' ∧ ro_signals h' = ro_signals h ++ option_list w.
Proof.
  intros Hr. unfold md_resource_order_cancel. destruct (o_queue (order_at h p)) as [q|] eqn:Hq.
  - destruct (rep_entry _ _ _ _ Hr Hq) as (l1 & s & w & l2 & HA & Ho). unfold state_of, order_at. rewrite Ho. cbn.
    pose proof (qr_phases _ _ _ (rep_queue _ _ Hr _ _ HA)) as Hph.
    destruct (phases_head _ _ _ _ _ Hph) as [Hni Hhead]. rewrite waiting_true by done.
    destruct (turn_held s) eqn:Hs; cbn; intros Hc.
    + injection Hc as <- <-.
      assert (l1 = []) as -> by (apply Hhead; by destruct (turn_held_true _ Hs); subst).
      eexists _, None. split; [by eapply fifo_cancel_running|]. split; [|by rewrite app_nil_r].
      apply (set_state_sim h A q [] p s _ w l2 Hr HA). by destruct Hph.
    + pose proof (retire_sim h A q l1 p s w l2 write Hr HA) as Hs'. rewrite Hc in Hs'. destruct Hs' as [Hsig Hr'].
      eexists _, _. split; [|by split]. eapply fifo_cancel; [exact HA|]. by rewrite waiting_true, Hs.
  - intros [= <- <-]. exists A, None. rewrite app_nil_r. split; [|done].
    destruct (rep_order_idle _ _ _ Hr Hq). eapply fifo_idle; [|done]. right. by left.
Qed.
Lemma complete_step h A p write h' r :
  ro_rep h A → md_resource_order_complete h (Some p) write = (h', r) →
  ∃ A' w, fifo_step A (Complete p) r w A' ∧ ro_rep h' A' ∧ ro_signals h' = ro_signals h ++ option_list w.
Proof.
  intros Hr. unfold md_resource_order_complete. destruct (o_queue (order_at h p)) as [q|] eqn:Hq.
  - destruct (rep_entry _ _ _ _ Hr Hq) as (l1 & s & w & l2 & HA & Ho). unfold state_of, order_at. rewrite Ho. cbn.
    destruct (phases_head _ _ _ _ _ (qr_phases _ _ _ (rep_queue _ _ Hr _ _ HA))) as [Hni Hhead].
    destruct (turn_held s) eqn:Hs; cbn; intros Hc.
    + assert (l1 = []) as -> by (apply Hhead; by destruct (turn_held_true _ Hs); subst).
      pose proof (retire_sim h A q [] p s w l2 write Hr HA) as Hs'. rewrite Hc in Hs'. destruct Hs' as [Hsig Hr'].
      eexists _, _. split; [by eapply fifo_complete|]. by split.
    + injection Hc as <- <-. exists A, None. rewrite app_nil_r. split; [|done].
      eapply fifo_complete_early; [exact HA|apply elem_of_app; right; by left|]. by rewrite waiting_true, Hs.
  - intros [= <- <-]. exists A, None. rewrite app_nil_r. split; [|done].
    destruct (rep_order_idle _ _ _ Hr Hq). eapply fifo_idle; [|done]. do 2 right. by left.
Qed.

(** [Begin] names a live queue. *)
Definition op_live (A : gmap loc (list entry)) (op : ro_op) : Prop :=
  match op with Begin q _ _ => is_Some (A !! q) | _ => True end.
Lemma ro_step h A op write h' r :
  ro_rep h A → op_live A op → ro_run h op write = (h', r) →
  ∃ A' w, fifo_step A op r w A' ∧ ro_rep h' A' ∧ ro_signals h' = ro_signals h ++ option_list w.
Proof.
  intros Hr Hlive Hrun.
  assert ((∃ A', fifo_step A op r None A' ∧ ro_rep h' A' ∧ ro_signals h' = ro_signals h) →
    ∃ A' w, fifo_step A op r w A' ∧ ro_rep h' A' ∧ ro_signals h' = ro_signals h ++ option_list w) as Hquiet.
  { intros (A' & ? & ? & Hs). exists A', None. cbn. by rewrite app_nil_r. }
  destruct op; cbn in Hrun.
  - destruct Hlive as [l Hl]. apply Hquiet. by eapply begin_step.
  - apply Hquiet. by eapply start_step.
  - apply Hquiet. by eapply move_step.
  - by eapply cancel_step.
  - by eapply complete_step.
Qed.
Lemma fifo_step_dom A op r w A' : fifo_step A op r w A' → dom A' = dom A.
Proof. destruct 1; try done; apply dom_insert_lookup_L; eauto. Qed.

(** ** Sequences of calls *)

(** One call per pair, with the outcome of its signalling write. *)
Fixpoint ro_runs (h : ro_heap) (calls : list (ro_op * (Z → Z + Z))) : ro_heap :=
  match calls with [] => h | (op, write) :: calls => ro_runs (fst (ro_run h op write)) calls end.
Lemma ro_runs_rep h A calls :
  ro_rep h A → Forall (λ c, op_live A c.1) calls → ∃ A', ro_rep (ro_runs h calls) A' ∧ dom A' = dom A.
Proof.
  revert h A. induction calls as [|[op write] calls IH]; intros h A Hr Hlive; [by exists A|].
  apply Forall_cons in Hlive as [Hop Hlive]. cbn in Hop |- *.
  destruct (ro_run h op write) as [h' r] eqn:Hrun.
  destruct (ro_step _ _ _ _ _ _ Hr Hop Hrun) as (A' & w & Hstep & Hr' & _).
  pose proof (fifo_step_dom _ _ _ _ _ Hstep) as Hd.
  destruct (IH h' A' Hr') as (A'' & ? & ?); [|exists A''; cbn; split; [done|congruence]].
  eapply Forall_impl; [exact Hlive|]. intros [[] ?]; cbn; try done. rewrite <- !elem_of_dom, Hd. done.
Qed.

(** Freshly initialised queues and no records. *)
Definition ro_initial (qs : gset loc) (wakeups : gmap loc md_resource_wakeup) : ro_heap :=
  mk_ro (gset_to_gmap (mk_queue None None) qs) ∅ wakeups ∅ [].
Lemma ro_initial_rep qs ws : ro_rep (ro_initial qs ws) (gset_to_gmap [] qs).
Proof.
  split; cbn; [|done|done]. intros q l [Hq <-]%lookup_gset_to_gmap_Some.
  split; cbn; [|done|constructor|done]. apply lookup_gset_to_gmap_Some. done.
Qed.

(** ** Properties *)


(** After any sequence of calls, a queue with any record has exactly one record
    that is past waiting -- offered the turn, running or being cancelled -- and
    that record is the head, so turns are exclusive and the turn is never lost. *)
Theorem order_turn_exclusive qs ws calls q p :
  Forall (λ c, op_live (gset_to_gmap [] qs) c.1) calls →
  let h := ro_runs (ro_initial qs ws) calls in
  o_queue (order_at h p) = Some q →
  ∃ owner, q_first (queue_at h q) = Some owner
    ∧ ∀ x, o_queue (order_at h x) = Some q →
        (o_state (order_at h x) ≠ MD_RESOURCE_ORDER_QUEUED ↔ x = owner).
Proof.
  intros Hlive h Hp. destruct (ro_runs_rep _ _ _ (ro_initial_rep qs ws) Hlive) as (A & Hr & _).
  fold h in Hr. destruct (rep_entry _ _ _ _ Hr Hp) as (l1 & s & w & l2 & HA & _).
  destruct (rep_queue _ _ Hr _ _ HA) as [He Hs Hnd Hph]. destruct (l1 ++ mk_entry p s w :: l2) as [|e l] eqn:El;
    [by destruct l1|]. clear El. exists (en_op e). unfold queue_at. rewrite He. split; [done|].
  intros x Hx. destruct (rep_entry _ _ _ _ Hr Hx) as (m1 & s2 & w2 & m2 & HA2 & Hox).
  assert (e :: l = m1 ++ mk_entry x s2 w2 :: m2) as El by congruence.
  unfold order_at. rewrite Hox. cbn. rewrite El in Hph, Hnd.
  destruct (phases_head _ _ _ _ _ Hph) as [_ Hhead]. split.
  - intros Hne. rewrite (Hhead Hne) in El. by injection El as -> _.
  - intros ->. destruct m1 as [|e1 m1]; [cbn in *; by destruct Hph as [[? ?] _]|].
    injection El as -> _. apply ops_split in Hnd as (_ & _ & Hn & _). exfalso. apply Hn. by left.
Qed.

(** ** Witnesses *)

Definition demo_wakeups : gmap loc md_resource_wakeup := {[5%positive := mk_wakeup 1 10 (-1)]}.
Definition demo_write (fd : Z) : Z + Z := inl 8.
(** Two records take turns: the second holds the turn at the end. *)
Definition demo_calls : list (ro_op * (Z → Z + Z)) :=
  [(Begin 1 2 None, demo_write); (Begin 1 3 (Some 5%positive), demo_write);
   (Start 2, demo_write); (Complete 2, demo_write)].


Lemma order_turn_exclusive_witness :
  let h := ro_runs (ro_initial {[1%positive]} demo_wakeups) demo_calls in
  ro_signals h = [5%positive] ∧ o_state (order_at h 3) = MD_RESOURCE_ORDER_READY
  ∧ ∃ owner, q_first (queue_at h 1) = Some owner
    ∧ ∀ x, o_queue (order_at h x) = Some 1%positive →
        (o_state (order_at h x) ≠ MD_RESOURCE_ORDER_QUEUED ↔ x = owner).
Proof.
  split; [vm_compute; reflexivity|]. split; [vm_compute; reflexivity|].
  apply (order_turn_exclusive {[1%positive]} demo_wakeups demo_calls 1 3).
  - repeat constructor; by exists [].
  - vm_compute. reflexivity.
Defined.
