(* ===== verification/NetworkIp.v ===== *)
(** * Logical network addresses and refusals (network_ip.h, network_ip.c, network_reject.c)

    An address is its family and the sixteen bytes of the union, in network
    order; the IPv4 word is the first four of them.  A port is the two bytes of
    its network-order field.  Socket addresses are the byte layouts of
    sockaddr_in and sockaddr_in6. *)
From S2P Require Import Prelude.

Definition AF_INET : Z := 2.
Definition AF_INET6 : Z := 10.
Definition ECONNREFUSED : Z := 111.
Definition EHOSTUNREACH : Z := 113.
Definition ENOPROTOOPT : Z := 92.

Definition zeros (n : nat) : list Z := replicate n 0.
Definition byte (b : list Z) (i : nat) : Z := default 0 (b !! i).
(** memcpy of [src] over [dst] at [i]; every caller stays inside [dst]. *)
Definition copy_at (dst : list Z) (i : nat) (src : list Z) : list Z :=
  take i dst ++ src ++ drop (i + length src) dst.
(** A 16-bit field in network order. *)
Definition ntohs (b : list Z) : Z := byte b 0 * 256 + byte b 1.
Definition htons (v : Z) : list Z := [Z.land (Z.shiftr v 8) 255; Z.land v 255].
(** A 16/32-bit value in the host's little-endian memory. *)
Definition le16 (v : Z) : list Z := [Z.land v 255; Z.land (Z.shiftr v 8) 255].
Definition u16_of (b : list Z) : Z := byte b 0 + byte b 1 * 256.
Definition u32_bytes (v : Z) : list Z :=
  [Z.land v 255; Z.land (Z.shiftr v 8) 255; Z.land (Z.shiftr v 16) 255; Z.land (Z.shiftr v 24) 255].
Definition u32_of (b : list Z) : Z :=
  byte b 0 + byte b 1 * 256 + byte b 2 * 65536 + byte b 3 * 16777216.

Record md_ip_address := mk_ip { ip_family : Z; ip_bytes : list Z }.
Record md_inet_address := mk_inet { in_ip : md_ip_address; in_scope : Z; in_port : list Z }.

Definition md_ip_any (family : Z) : md_ip_address := mk_ip family (zeros 16).
Definition md_ip_v4 (address : list Z) : md_ip_address := mk_ip AF_INET (take 4 address ++ zeros 12).
Definition md_ip_in6 (a : md_ip_address) : list Z :=
  if ip_family a =? AF_INET6 then ip_bytes a else zeros 10 ++ [255; 255] ++ take 4 (ip_bytes a).
Definition md_ip_size (a : md_ip_address) : nat := if ip_family a =? AF_INET6 then 16 else 4.
Definition md_ip_load (family : Z) (bytes : list Z) : md_ip_address :=
  let a := md_ip_any family in mk_ip family (copy_at (ip_bytes a) 0 (take (md_ip_size a) bytes)).
Definition md_ip_equal (a b : md_ip_address) : bool :=
  (ip_family a =? ip_family b)
  && (if ip_family a =? AF_INET then bool_decide (take 4 (ip_bytes a) = take 4 (ip_bytes b))
      else bool_decide (ip_bytes a = ip_bytes b)).
Definition md_ip_unspecified (a : md_ip_address) : bool :=
  if ip_family a =? AF_INET then bool_decide (take 4 (ip_bytes a) = zeros 4) else bool_decide (ip_bytes a = zeros 16).
Definition md_ip_is_loopback (a : md_ip_address) : bool :=
  if ip_family a =? AF_INET then byte (ip_bytes a) 0 =? 127 else bool_decide (ip_bytes a = zeros 15 ++ [1]).
Definition md_ip_multicast (a : md_ip_address) : bool :=
  if ip_family a =? AF_INET then Z.shiftr (byte (ip_bytes a) 0) 4 =? 14 else byte (ip_bytes a) 0 =? 255.
Definition md_ip_linklocal (a : md_ip_address) : bool :=
  (ip_family a =? AF_INET6) && (byte (ip_bytes a) 0 =? 254) && (Z.land (byte (ip_bytes a) 1) 192 =? 128).
Definition md_ip_loopback (family : Z) : md_ip_address :=
  let a := md_ip_any family in
  if family =? AF_INET then mk_ip family (copy_at (ip_bytes a) 0 [127; 0; 0; 1])
  else mk_ip family (<[15%nat := 1]> (ip_bytes a)).

(** Clearing the host part: the partial byte keeps its leading bits. *)
Definition md_ip_network (a : md_ip_address) (prefix : Z) : md_ip_address :=
  let size := md_ip_size a in
  if Z.of_nat size * 8 <? prefix then md_ip_any (ip_family a)
  else
    let bytes := Z.to_nat (prefix / 8) in
    let bits := prefix mod 8 in
    let b := if bits =? 0 then ip_bytes a
             else <[bytes := Z.land (byte (ip_bytes a) bytes) (Z.land (Z.shiftl 255 (8 - bits)) 255)]> (ip_bytes a) in
    let bytes := if bits =? 0 then bytes else S bytes in
    mk_ip (ip_family a) (copy_at b bytes (zeros (size - bytes))).
Definition md_ip_prefix (a b : md_ip_address) (prefix : Z) : bool :=
  (prefix <=? Z.of_nat (md_ip_size a) * 8) && md_ip_equal (md_ip_network a prefix) (md_ip_network b prefix).
Definition md_inet_equal (a b : md_inet_address) : bool :=
  bool_decide (in_port a = in_port b) && md_ip_equal (in_ip a) (in_ip b)
  && (negb (md_ip_linklocal (in_ip a)) || (in_scope a =? in_scope b)).

(** ** Socket addresses *)

(** [address] holds the [length] bytes of the sockaddr. *)
Definition md_inet_decode (address : list Z) : md_inet_address + Z :=
  let n := length address in
  if bool_decide (n < 2)%nat then inr (- EINVAL)
  else
    let family := u16_of address in
    if family =? AF_INET then
      if bool_decide (n < 16)%nat then inr (- EINVAL)
      else inl (mk_inet (mk_ip AF_INET (copy_at (zeros 16) 0 (take 4 (drop 4 address)))) 0 (take 2 (drop 2 address)))
    else if family =? AF_INET6 then
      if bool_decide (n < 28)%nat then inr (- EINVAL)
      else
        let v6 := take 16 (drop 8 address) in
        let port := take 2 (drop 2 address) in
        let scope := u32_of (take 4 (drop 24 address)) in
        if bool_decide (take 12 v6 = zeros 10 ++ [255; 255])
        then inl (mk_inet (md_ip_load AF_INET (drop 12 v6)) 0 port)
        else inl (mk_inet (mk_ip AF_INET6 v6) scope port)
    else inr (- EAFNOSUPPORT).
Definition md_inet_encode (a : md_inet_address) (family : Z) : list Z + Z :=
  let family := if family =? 0 then ip_family (in_ip a) else family in
  if family =? AF_INET then
    if negb (ip_family (in_ip a) =? AF_INET) then inr (- EAFNOSUPPORT)
    else inl (le16 AF_INET ++ in_port a ++ take 4 (ip_bytes (in_ip a)) ++ zeros 8)
  else if family =? AF_INET6 then
    if ip_family (in_ip a) =? AF_INET6 then
      inl (le16 AF_INET6 ++ in_port a ++ zeros 4 ++ ip_bytes (in_ip a) ++ u32_bytes (in_scope a))
    else if ip_family (in_ip a) =? AF_INET then
      inl (le16 AF_INET6 ++ in_port a ++ zeros 4 ++ (zeros 10 ++ [255; 255] ++ take 4 (ip_bytes (in_ip a)))
           ++ u32_bytes (in_scope a))
    else inr (- EAFNOSUPPORT)
  else inr (- EAFNOSUPPORT).

(** ** Refusals *)

Definition MD_REJECT_NONE : Z := 0.
Definition MD_REJECT_TCP : Z := 1.
Definition MD_REJECT_ICMP4 : Z := 2.
Definition MD_REJECT_ICMP6 : Z := 3.
Definition MD_REJECT_ICMPX : Z := 4.
Record md_network_rejection := mk_rejection { rj_type : Z; rj_code : Z }.
Definition md_network_reject_valid (type code : Z) : bool :=
  if type =? MD_REJECT_TCP then code =? 0
  else if type =? MD_REJECT_ICMP4 then (code <=? 3) || (code =? 9) || (code =? 10) || (code =? 13)
  else if type =? MD_REJECT_ICMP6 then code <=? 6
  else if type =? MD_REJECT_ICMPX then code <=? 3
  else false.
Definition md_network_reject_resolve (type code family : Z) : md_network_rejection :=
  if (type =? MD_REJECT_ICMPX) && (3 <? code) then mk_rejection 0 0
  else
    let '(type, code) :=
      if type =? MD_REJECT_ICMPX then
        (if family =? AF_INET6 then MD_REJECT_ICMP6 else MD_REJECT_ICMP4,
         byte (if family =? AF_INET6 then [0; 4; 3; 1] else [0; 3; 1; 13]) (Z.to_nat code))
      else (type, code) in
    if negb (md_network_reject_valid type code)
       || ((type =? MD_REJECT_ICMP4) && negb (family =? AF_INET))
       || ((type =? MD_REJECT_ICMP6) && negb (family =? AF_INET6))
    then mk_rejection 0 0
    else mk_rejection type code.
Definition md_network_reject_error (r : md_network_rejection) : Z :=
  if rj_type r =? MD_REJECT_TCP then - ECONNREFUSED
  else if rj_type r =? MD_REJECT_ICMP4 then
    if rj_code r =? 0 then - ENETUNREACH
    else if rj_code r =? 1 then - EHOSTUNREACH
    else if rj_code r =? 2 then - ENOPROTOOPT
    else if rj_code r =? 3 then - ECONNREFUSED
    else if rj_code r =? 9 then - ENETUNREACH
    else if rj_code r =? 10 then - EHOSTUNREACH
    else if rj_code r =? 13 then - EACCES
    else - EOPNOTSUPP
  else if rj_type r =? MD_REJECT_ICMP6 then
    if rj_code r =? 0 then - ENETUNREACH
    else if (rj_code r =? 1) || (rj_code r =? 5) then - EACCES
    else if (rj_code r =? 2) || (rj_code r =? 3) then - EHOSTUNREACH
    else if rj_code r =? 4 then - ECONNREFUSED
    else if rj_code r =? 6 then - EACCES
    else - EOPNOTSUPP
  else - EOPNOTSUPP.

(** ** Well-formed addresses *)

Definition is_octet (b : Z) : Prop := 0 ≤ b < 256.
Record ip_ok (a : md_ip_address) : Prop := mk_ip_ok {
  io_length : length (ip_bytes a) = 16%nat;
  io_octets : Forall is_octet (ip_bytes a);
  io_family : ip_family a = AF_INET ∨ ip_family a = AF_INET6 }.

(** Bit [i] of an address, the most significant bit of its first byte first. *)
Definition ip_bit (a : md_ip_address) (i : Z) : bool :=
  Z.testbit (byte (ip_bytes a) (Z.to_nat (i / 8))) (7 - i mod 8).

Lemma byte_octet b i : Forall is_octet b → is_octet (byte b i).
Proof.
  intros Hb. unfold byte. destruct (b !! i) eqn:E; cbn; [|unfold is_octet; lia].
  rewrite Forall_lookup in Hb. eauto.
Qed.
Lemma byte_ext a b : length a = length b → (∀ i, (i < length a)%nat → byte a i = byte b i) → a = b.
Proof.
  intros Hl Hi. apply list_eq_same_length with (length a); [done|done|].
  intros i x y Hlt Ha Hb. specialize (Hi i Hlt). unfold byte in Hi. rewrite Ha, Hb in Hi. done.
Qed.
Lemma length_copy_at dst i src : (i + length src ≤ length dst)%nat → length (copy_at dst i src) = length dst.
Proof. intros. unfold copy_at. rewrite !length_app, length_take, length_drop. lia. Qed.
Lemma byte_copy_at dst i src j :
  (i + length src ≤ length dst)%nat →
  byte (copy_at dst i src) j = if decide (i ≤ j < i + length src)%nat then byte src (j - i) else byte dst j.
Proof.
  intros Hl. unfold copy_at, byte. case_decide as Hj.
  - rewrite lookup_app_r by (rewrite length_take; lia). rewrite length_take.
    rewrite lookup_app_l by lia. do 2 f_equal. lia.
  - destruct (decide (j < i)%nat).
    + by rewrite lookup_app_l, lookup_take_lt by (rewrite ?length_take; lia).
    + rewrite !lookup_app_r, lookup_drop, length_take by (rewrite ?length_take; lia). do 2 f_equal. lia.
Qed.
Lemma byte_zeros n i : byte (zeros n) i = 0.
Proof. unfold byte, zeros. destruct (replicate n 0 !! i) eqn:E; [|done]. by apply lookup_replicate in E as [-> _]. Qed.
Lemma length_zeros n : length (zeros n) = n.
Proof. apply length_replicate. Qed.
Lemma octet_high b i : is_octet b → 8 ≤ i → Z.testbit b i = false.
Proof.
  intros Hb Hi. destruct (decide (b = 0)) as [->|]; [apply Z.bits_0|]. apply Z.bits_above_log2; [unfold is_octet in *; lia|].
  assert (Z.log2 b < 8); [|lia]. apply Z.log2_lt_pow2; unfold is_octet in *; [lia|]. change (2 ^ 8) with 256. lia.
Qed.
Lemma octet_eq a b :
  is_octet a → is_octet b → a = b ↔ ∀ i, 0 ≤ i < 8 → Z.testbit a i = Z.testbit b i.
Proof.
  intros Ha Hb. split; [by intros ->|]. intros H. apply Z.bits_inj'. intros i Hi.
  destruct (decide (i < 8)); [apply H; lia|]. by rewrite !octet_high by (done || lia).
Qed.

(** The mask [md_ip_network] applies to byte [j]. *)
Definition prefix_mask (prefix : Z) (j : Z) : Z :=
  if 8 * j + 8 <=? prefix then 255
  else if prefix <=? 8 * j then 0
  else Z.land (Z.shiftl 255 (8 - prefix mod 8)) 255.
Lemma prefix_mask_bit prefix j k :
  0 ≤ j → 0 ≤ prefix → 0 ≤ k < 8 → Z.testbit (prefix_mask prefix j) k = (8 * j + (7 - k) <? prefix).
Proof.
  intros Hj Hp Hk. unfold prefix_mask. repeat case_if; breflect.
  - change 255 with (Z.ones 8). rewrite Z.ones_spec_low by lia. symmetry. apply Z.ltb_lt. lia.
  - rewrite Z.bits_0. symmetry. apply Z.ltb_ge. lia.
  - rewrite Z.land_spec. change 255 with (Z.ones 8). rewrite (Z.ones_spec_low 8 k), andb_true_r by lia.
    rewrite Z.shiftl_spec by lia.
    assert (prefix = 8 * j + prefix mod 8 ∧ 0 < prefix mod 8 < 8) as [Heq Hm] by divlia.
    set (m := prefix mod 8) in *. destruct (decide (8 - m ≤ k)).
    + rewrite Z.ones_spec_low by lia. symmetry. apply Z.ltb_lt. lia.
    + rewrite Z.testbit_neg_r by lia. symmetry. apply Z.ltb_ge. lia.
Qed.
Lemma network_length a prefix :
  length (ip_bytes a) = 16%nat → 0 ≤ prefix → length (ip_bytes (md_ip_network a prefix)) = 16%nat.
Proof.
  intros Hl Hp. unfold md_ip_network. case_if; [apply length_zeros|]. breflect. cbn.
  assert (md_ip_size a ≤ 16)%nat by (unfold md_ip_size; case_if; lia).
  rewrite length_copy_at; [case_if; [done|by rewrite length_insert]|].
  rewrite length_zeros. destruct (prefix mod 8 =? 0) eqn:E0; breflect; rewrite ?length_insert; divlia.
Qed.
Lemma network_byte a prefix j :
  length (ip_bytes a) = 16%nat → Forall is_octet (ip_bytes a) →
  0 ≤ prefix ≤ Z.of_nat (md_ip_size a) * 8 → (j < md_ip_size a)%nat →
  byte (ip_bytes (md_ip_network a prefix)) j = Z.land (byte (ip_bytes a) j) (prefix_mask prefix (Z.of_nat j)).
Proof.
  intros Hl Ho Hp Hj. pose proof (byte_octet _ j Ho) as Hoj.
  assert (md_ip_size a ≤ 16)%nat as Hs by (unfold md_ip_size; case_if; lia).
  unfold md_ip_network, prefix_mask. case_if; breflect; [lia|]. cbn.
  set (b := if prefix mod 8 =? 0 then _ else _).
  assert (length b = 16%nat) as Hb by (unfold b; case_if; [done|by rewrite length_insert]).
  rewrite byte_copy_at, length_zeros by (rewrite length_zeros, Hb; case_if; breflect; divlia).
  assert (Z.land (byte (ip_bytes a) j) 255 = byte (ip_bytes a) j) as H255.
  { change 255 with (Z.ones 8). rewrite Z.land_ones by lia. apply Z.mod_small. done. }
  assert (Z.to_nat (prefix / 8) = j ↔ prefix / 8 = Z.of_nat j) as Hdiv by (split; [divlia|intros ->; lia]).
  unfold b. destruct (prefix mod 8 =? 0) eqn:E0; breflect.
  - case_decide as Hd.
    + rewrite byte_zeros. repeat case_if; breflect; [divlia|by rewrite Z.land_0_r|divlia].
    + repeat case_if; breflect; [by rewrite H255|divlia|divlia].
  - case_decide as Hd.
    + rewrite byte_zeros. repeat case_if; breflect; [divlia|by rewrite Z.land_0_r|divlia].
    + destruct (decide (Z.to_nat (prefix / 8) = j)) as [Hq|Hq].
      * repeat case_if; breflect; [divlia|divlia|]. unfold byte at 1. subst j. rewrite list_lookup_insert_eq by lia. done.
      * unfold byte at 1. rewrite list_lookup_insert_ne by done. repeat case_if; breflect; [by rewrite H255|divlia|divlia].
Qed.

Lemma and_iff_compat_l_weak (P Q R : Prop) : (P → Q ↔ R) → P ∧ Q ↔ P ∧ R.
Proof. tauto. Qed.
Lemma network_family a prefix : ip_family (md_ip_network a prefix) = ip_family a.
Proof. unfold md_ip_network. by case_if. Qed.
(** Equality looks at the bytes of the family. *)
Lemma equal_bytes a b :
  length (ip_bytes a) = 16%nat → length (ip_bytes b) = 16%nat →
  ip_family a = AF_INET ∨ ip_family a = AF_INET6 →
  md_ip_equal a b = true ↔
    ip_family a = ip_family b ∧ ∀ j, (j < md_ip_size a)%nat → byte (ip_bytes a) j = byte (ip_bytes b) j.
Proof.
  intros Ha Hb Hf. unfold md_ip_equal, md_ip_size. rewrite andb_true_iff, Z.eqb_eq.
  destruct Hf as [-> | ->]; cbn; apply and_iff_compat_l; rewrite bool_decide_eq_true.
  - split.
    + intros He j Hj. unfold byte. rewrite <- (lookup_take_lt _ 4 j), He, lookup_take_lt by done. done.
    + intros Hj. apply byte_ext; rewrite !length_take, Ha, ?Hb; [done|]. intros i Hi.
      unfold byte. rewrite !lookup_take_lt by lia. apply Hj. lia.
  - split; [by intros ->|]. intros Hj. apply byte_ext; [congruence|]. rewrite Ha. done.
Qed.
Lemma masked_eq m x y :
  is_octet x → is_octet y →
  Z.land x m = Z.land y m ↔ ∀ k, 0 ≤ k < 8 → Z.testbit m k = true → Z.testbit x k = Z.testbit y k.
Proof.
  intros Hx Hy. split.
  - intros He k Hk Hm. apply (f_equal (λ z, Z.testbit z k)) in He. rewrite !Z.land_spec, Hm, !andb_true_r in He. done.
  - intros Hk. apply Z.bits_inj'. intros i Hi. rewrite !Z.land_spec.
    destruct (decide (i < 8)); [|by rewrite (octet_high x), (octet_high y) by (done || lia)].
    destruct (Z.testbit m i) eqn:Em; [|by rewrite !andb_false_r]. rewrite Hk by (done || lia). done.
Qed.

(** What [md_inet_decode] produces: IPv4-mapped addresses are normalised away. *)
Record inet_ok (a : md_inet_address) : Prop := mk_inet_ok {
  no_ip : ip_ok (in_ip a);
  no_port : length (in_port a) = 2%nat;
  no_scope : 0 ≤ in_scope a < 4294967296;
  no_v4 : ip_family (in_ip a) = AF_INET → in_scope a = 0 ∧ drop 4 (ip_bytes (in_ip a)) = zeros 12;
  no_v6 : ip_family (in_ip a) = AF_INET6 → take 12 (ip_bytes (in_ip a)) ≠ zeros 10 ++ [255; 255] }.

Lemma u32_roundtrip v : 0 ≤ v < 4294967296 → u32_of (u32_bytes v) = v.
Proof.
  intros Hv. unfold u32_of, u32_bytes, byte. cbn -[Z.land Z.shiftr].
  change 255 with (Z.ones 8). rewrite !Z.land_ones, !Z.shiftr_div_pow2 by lia.
  change (2 ^ 8) with 256. change (2 ^ 16) with 65536. change (2 ^ 24) with 16777216. divlia.
Qed.
Lemma length_16 (l : list Z) :
  length l = 16%nat → ∃ l4 l12, l = l4 ++ l12 ∧ length l4 = 4%nat ∧ length l12 = 12%nat.
Proof. intros H. exists (take 4 l), (drop 4 l). by rewrite take_drop, length_take, length_drop, H. Qed.

(** ** Properties *)

(** Two addresses match on a prefix exactly when it fits the family, the
    families agree and the leading [prefix] bits agree -- for prefixes ending
    inside a byte as well. *)
Theorem ip_prefix_iff a b prefix :
  ip_ok a → ip_ok b → 0 ≤ prefix →
  md_ip_prefix a b prefix = true ↔
    prefix ≤ Z.of_nat (md_ip_size a) * 8 ∧ ip_family a = ip_family b
    ∧ ∀ i, 0 ≤ i < prefix → ip_bit a i = ip_bit b i.
Proof.
  intros [Hla Hoa Hfa] [Hlb Hob Hfb] Hp. unfold md_ip_prefix. rewrite andb_true_iff, Z.leb_le.
  apply and_iff_compat_l_weak. intros Hs.
  rewrite equal_bytes by (rewrite ?network_family; auto using network_length). rewrite !network_family.
  apply and_iff_compat_l_weak. intros Hf.
  assert (md_ip_size (md_ip_network a prefix) = md_ip_size a) as ->
    by (unfold md_ip_size; by rewrite network_family).
  assert (md_ip_size a = md_ip_size b) as Hsz by (unfold md_ip_size; by rewrite Hf).
  assert (∀ j, (j < md_ip_size a)%nat →
    byte (ip_bytes (md_ip_network a prefix)) j = byte (ip_bytes (md_ip_network b prefix)) j ↔
    ∀ k, 0 ≤ k < 8 → 8 * Z.of_nat j + (7 - k) < prefix →
      Z.testbit (byte (ip_bytes a) j) k = Z.testbit (byte (ip_bytes b) j) k) as Hbyte.
  { intros j Hj. rewrite !network_byte by (auto || lia). rewrite masked_eq by auto using byte_octet.
    split; intros H k Hk Hm; apply H; try done; rewrite ?prefix_mask_bit, ?Z.ltb_lt in * by lia; done. }
  split.
  - intros H i Hi. unfold ip_bit. apply Hbyte; [divlia|apply H; divlia|divlia|divlia].
  - intros H j Hj. apply Hbyte; [done|]. intros k Hk Hlt. specialize (H (8 * Z.of_nat j + (7 - k)) ltac:(lia)).
    unfold ip_bit in H. replace ((8 * Z.of_nat j + (7 - k)) / 8) with (Z.of_nat j) in H by divlia.
    rewrite Nat2Z.id in H. by replace (7 - (8 * Z.of_nat j + (7 - k)) mod 8) with k in H by divlia.
Qed.

(** An address encoded for a socket, in its own family or as an IPv4-mapped
    address on an IPv6 socket, decodes to itself. *)
Theorem inet_roundtrip a family bytes :
  inet_ok a → md_inet_encode a family = inl bytes → md_inet_decode bytes = inl a.
Proof.
  destruct a as [[f b] scope port]. intros [[Hl _ Hf] Hp Hs H4 H6] He. cbn in *.
  assert (∃ p0 p1, port = [p0; p1]) as (p0 & p1 & ->).
  { destruct port as [|p0 [|p1 [|? ?]]]; try discriminate. eauto. }
  unfold md_inet_encode in He. cbn [in_ip in_scope in_port ip_family ip_bytes] in He.
  destruct Hf as [-> | ->]; cbn -[u32_bytes take zeros] in *.
  - destruct (H4 eq_refl) as [-> Hz]. destruct (length_16 _ Hl) as (l4 & l12 & -> & E4 & E12).
    rewrite drop_app_length' in Hz by done. rewrite take_app_length' in He by done. subst l12.
    destruct l4 as [|a0 [|a1 [|a2 [|a3 [|? ?]]]]]; try discriminate.
    repeat case_if; inversion He; subst; vm_compute; reflexivity.
  - assert (bytes = le16 AF_INET6 ++ [p0; p1] ++ zeros 4 ++ b ++ u32_bytes scope) as ->
      by (repeat case_if; breflect; subst; by inversion He).
    assert (length (le16 AF_INET6 ++ [p0; p1] ++ zeros 4 ++ b ++ u32_bytes scope) = 28%nat) as Hlen
      by (rewrite !length_app, length_zeros, Hl; done).
    unfold md_inet_decode. rewrite Hlen. rewrite !bool_decide_eq_false_2 by lia.
    change (u16_of _) with AF_INET6. cbn [Z.eqb AF_INET6 AF_INET].
    change (drop 8 _) with (b ++ u32_bytes scope). change (drop 24 _) with (drop 16 (b ++ u32_bytes scope)).
    rewrite (take_app_length' b _ 16), (drop_app_length' b _ 16) by (by rewrite Hl).
    change (take 2 (drop 2 _)) with [p0; p1].
    rewrite bool_decide_eq_false_2 by (by apply H6). change (take 4 (u32_bytes scope)) with (u32_bytes scope).
    by rewrite u32_roundtrip.
Qed.

(** ** Witnesses *)

Definition demo_v4 (a b c d : Z) : md_ip_address := md_ip_v4 [a; b; c; d].
Lemma demo_v4_ok a b c d :
  is_octet a → is_octet b → is_octet c → is_octet d → ip_ok (demo_v4 a b c d).
Proof. intros. split; [done| |by left]. repeat (constructor; [done|]). repeat constructor; unfold is_octet; lia. Qed.

Lemma ip_prefix_iff_witness :
  md_ip_prefix (demo_v4 10 1 2 3) (demo_v4 10 1 250 9) 17 = false
  ∧ (md_ip_prefix (demo_v4 10 1 2 3) (demo_v4 10 1 250 9) 16 = true ↔
      16 ≤ Z.of_nat (md_ip_size (demo_v4 10 1 2 3)) * 8 ∧ ip_family (demo_v4 10 1 2 3) = ip_family (demo_v4 10 1 250 9)
      ∧ ∀ i, 0 ≤ i < 16 → ip_bit (demo_v4 10 1 2 3) i = ip_bit (demo_v4 10 1 250 9) i).
Proof.
  split; [vm_compute; reflexivity|].
  apply (ip_prefix_iff (demo_v4 10 1 2 3) (demo_v4 10 1 250 9) 16); [..|lia]; apply demo_v4_ok; unfold is_octet; lia.
Defined.

Lemma inet_roundtrip_witness :
  md_inet_decode (le16 AF_INET6 ++ [31; 144] ++ zeros 4 ++ (zeros 10 ++ [255; 255] ++ [10; 1; 2; 3]) ++ zeros 4)
  = inl (mk_inet (demo_v4 10 1 2 3) 0 [31; 144]).
Proof.
  apply (inet_roundtrip (mk_inet (demo_v4 10 1 2 3) 0 [31; 144]) AF_INET6); [|vm_compute; reflexivity].
  split; cbn; try done. apply demo_v4_ok; unfold is_octet; lia.
Defined.
