(* ===== verification/NetworkFilter.v ===== *)
(** * Network filter catalogue (network_filter.h, network_filter.c, network_ipset.c)

    A ruleset is four tables -- nft tables, chains, rules and sets -- that refer
    to each other by handle.  The arrays of the C structure are lists, their
    reserved capacities separate fields; fixed character arrays are strings and
    byte arrays are lists of octets.  A union of the C structure becomes one
    field per member, each of which is read only under its own opcode.

    The main results are the correctness of the two-sided binary search over
    interval sets against a linear scan, and that deletion removes exactly the
    objects of the deleted tables. *)
From S2P Require Import Prelude NetworkIp.

Definition NFT_SET_INTERVAL : Z := 4.
Definition NFT_CONTINUE : Z := -1.
Definition NFT_BREAK : Z := -2.
Definition NFT_JUMP : Z := -3.
Definition NFT_GOTO : Z := -4.
Definition NFT_RETURN : Z := -5.
Definition NF_DROP : Z := 0.
Definition NF_ACCEPT : Z := 1.
(** [(int)x] of an unsigned x. *)
Definition to_int (z : Z) : Z := if z <? 2147483648 then z else z - 4294967296.

Record md_network_filter_table := mk_table {
  t_handle : Z; t_family : Z; t_name : string; t_userdata : list Z }.
Inductive md_filter_opcode :=
  | MD_FILTER_IMMEDIATE | MD_FILTER_VERDICT | MD_FILTER_META | MD_FILTER_META_SET
  | MD_FILTER_PAYLOAD | MD_FILTER_COMPARE | MD_FILTER_RANGE | MD_FILTER_BITWISE
  | MD_FILTER_CT | MD_FILTER_CT_SET | MD_FILTER_FIB | MD_FILTER_LOOKUP
  | MD_FILTER_NAT | MD_FILTER_MASQUERADE | MD_FILTER_VERDICT_MAP | MD_FILTER_DATA_MAP | MD_FILTER_COUNTER
  | MD_FILTER_TRANSPORT | MD_FILTER_STATE_MATCH | MD_FILTER_MARK_MATCH | MD_FILTER_CONNMARK_MATCH
  | MD_FILTER_ADDRESS_TYPE | MD_FILTER_PACKET_TYPE | MD_FILTER_REVERSE_PATH | MD_FILTER_ICMP_MATCH
  | MD_FILTER_REJECT | MD_FILTER_IPSET | MD_FILTER_MULTIPORT | MD_FILTER_LIMIT | MD_FILTER_LOG | MD_FILTER_PHYSDEV.
#[export] Instance md_filter_opcode_eq : EqDecision md_filter_opcode.
Proof. solve_decision. Defined.

Record md_filter_counter := mk_counter { ctr_packets : Z; ctr_bytes : Z }.
Record md_filter_limit := mk_limit { lm_cost : Z; lm_capacity : Z; lm_credit : Z; lm_previous : Z }.
Record md_filter_log := mk_log { lg_group : Z; lg_prefix : string }.
Record md_filter_physdev := mk_physdev {
  pd_names : list (list Z); pd_masks : list (list Z); pd_flags : Z; pd_invert : Z }.
Record md_filter_transport := mk_transport {
  tr_source : Z * Z; tr_destination : Z * Z; tr_protocol : Z; tr_inversion : Z }.
Record md_filter_multiport := mk_multiport {
  mp_ports : list Z; mp_ranges : Z; mp_count : nat; mp_direction : Z; mp_invert : Z }.
Record md_filter_expression := mk_expression {
  e_code : md_filter_opcode;
  e_src : nat; e_dst : nat; e_size : nat; e_key : Z; e_operation : Z; e_aux : Z;
  e_constant : Z; e_family : Z;
  e_port_range : Z; e_port_max : Z;
  e_nat_flags : Z;
  e_target : Z;
  e_value : list Z; e_mask : list Z;
  e_transport : md_filter_transport;
  e_multiport : md_filter_multiport;
  e_log : md_filter_log;
  e_physdev : md_filter_physdev;
  e_nat_port : list Z }.
Record md_filter_chain := mk_chain {
  c_table : Z; c_handle : Z; c_id : Z; c_name : string;
  c_hook : Z; c_priority : Z; c_nat : bool; c_reroute : bool;
  c_policy : Z; c_counters : bool; c_userdata : list Z }.
Record md_filter_rule := mk_rule {
  r_chain : Z; r_handle : Z; r_id : Z; r_expressions : list md_filter_expression;
  r_wire : list Z; r_userdata : list Z }.
Record md_filter_verdict := mk_verdict { v_operation : Z; v_target : Z }.
Record md_filter_element := mk_element {
  el_key : list Z; el_end : Z; el_verdict : md_filter_verdict; el_data : list Z }.
Record md_filter_set := mk_set {
  s_table : Z; s_handle : Z; s_id : Z; s_flags : Z; s_key_size : nat; s_data_size : nat;
  s_name : string; s_elements : list md_filter_element; s_capacity : Z;
  s_ipset_kind : Z; s_ipset_family : Z; s_prefixes : list Z }.
Record md_network_filter := mk_filter {
  f_generation : Z; f_next_handle : Z;
  f_tables : list md_network_filter_table; f_capacity : Z;
  f_chains : list md_filter_chain; f_chain_capacity : Z;
  f_rules : list md_filter_rule; f_rule_capacity : Z;
  f_sets : list md_filter_set; f_set_capacity : Z }.

Definition with_tables (f : md_network_filter) x := mk_filter (f_generation f) (f_next_handle f) x (f_capacity f)
  (f_chains f) (f_chain_capacity f) (f_rules f) (f_rule_capacity f) (f_sets f) (f_set_capacity f).
Definition with_chains (f : md_network_filter) x := mk_filter (f_generation f) (f_next_handle f) (f_tables f) (f_capacity f)
  x (f_chain_capacity f) (f_rules f) (f_rule_capacity f) (f_sets f) (f_set_capacity f).
Definition with_rules (f : md_network_filter) x := mk_filter (f_generation f) (f_next_handle f) (f_tables f) (f_capacity f)
  (f_chains f) (f_chain_capacity f) x (f_rule_capacity f) (f_sets f) (f_set_capacity f).
Definition with_sets (f : md_network_filter) x := mk_filter (f_generation f) (f_next_handle f) (f_tables f) (f_capacity f)
  (f_chains f) (f_chain_capacity f) (f_rules f) (f_rule_capacity f) x (f_set_capacity f).

(** ** Ports *)

Fixpoint multiport_loop (fuel : nat) (m : md_filter_multiport) (port : Z) (i : nat) : bool :=
  match fuel with
  | O => false
  | S fuel =>
      if bool_decide (i < mp_count m)%nat then
        let first := byte (mp_ports m) i in
        let ranged := has_bits (mp_ranges m) (bit (Z.of_nat i)) in
        let last := if ranged then byte (mp_ports m) (S i) else first in
        if (first <=? port) && (port <=? last) then true
        else multiport_loop fuel m port (if ranged then S (S i) else S i)
      else false
  end.
Definition md_filter_multiport_contains (m : md_filter_multiport) (port : Z) : bool :=
  multiport_loop (mp_count m) m port 0.
Definition md_filter_port_matches (port : Z) (bounds : Z * Z) (invert : bool) : bool :=
  xorb ((fst bounds <=? port) && (port <=? snd bounds)) invert.
Definition md_filter_set_expression (e : md_filter_expression) : bool :=
  bool_decide (e_code e = MD_FILTER_LOOKUP) || bool_decide (e_code e = MD_FILTER_VERDICT_MAP)
  || bool_decide (e_code e = MD_FILTER_DATA_MAP).

(** ** Snapshots and storage *)

Definition md_network_filter_generation (f : option md_network_filter) : Z :=
  match f with Some f => f_generation f | None => 1 end.
Definition md_network_filter_next_generation (f : option md_network_filter) : Z :=
  let next := wrap32 (md_network_filter_generation f + 1) in if next =? 0 then 1 else next.

(** The capacity after reserving room for [count] objects; [ok] is realloc's outcome. *)
Definition md_filter_reserve (capacity count limit : Z) (ok : bool) : Z + Z :=
  if limit <? count then inr (- ENOSPC)
  else if count <=? capacity then inl capacity
  else
    let next := if capacity =? 0 then 4 else capacity * 2 in
    let next := if next <? count then count else next in
    let next := if limit <? next then limit else next in
    if ok then inl next else inr (- ENOMEM).
Definition copy_set (s : md_filter_set) : option md_filter_set :=
  match md_filter_reserve 0 (Z.of_nat (length (s_elements s))) 1024 true with
  | inl capacity => Some (mk_set (s_table s) (s_handle s) (s_id s) (s_flags s) (s_key_size s) (s_data_size s)
                       (s_name s) (s_elements s) capacity (s_ipset_kind s) (s_ipset_family s) (s_prefixes s))
  | inr _ => None
  end.
(** [ok]: every allocation succeeded; otherwise the partial copy is freed. *)
Definition md_network_filter_copy (from : option md_network_filter) (ok : bool) : option md_network_filter :=
  if negb ok then None
  else match from with
  | None => Some (mk_filter 1 1 [] 0 [] 0 [] 0 [] 0)
  | Some f =>
      match md_filter_reserve 0 (Z.of_nat (length (f_chains f))) 256 true,
            md_filter_reserve 0 (Z.of_nat (length (f_rules f))) 1024 true,
            md_filter_reserve 0 (Z.of_nat (length (f_sets f))) 256 true, mapM copy_set (f_sets f) with
      | inl cc, inl rc, inl sc, Some sets =>
          Some (mk_filter (f_generation f) (f_next_handle f) (f_tables f) (Z.of_nat (length (f_tables f)))
                  (f_chains f) cc (f_rules f) rc sets sc)
      | _, _, _, _ => None
      end
  end.

(** ** Tables *)

(** A NULL name is [None]. *)
Definition table_matches (family : Z) (name : option string) (handle : Z) (t : md_network_filter_table) : bool :=
  (t_family t =? family)
  && match name with Some n => bool_decide (n = t_name t) | None => t_handle t =? handle end.
Definition md_network_filter_find (f : option md_network_filter) (family : Z) (name : option string) (handle : Z)
    : option md_network_filter_table :=
  f ← f; List.find (table_matches family name handle) (f_tables f).
Definition md_network_filter_add (f : md_network_filter) (family : Z) (name : option string) (userdata : list Z)
    (realloc : bool) : md_network_filter * Z :=
  match name with
  | None => (f, - EINVAL)
  | Some n =>
      if (String.length n =? 0)%nat || (256 <=? String.length n)%nat || (256 <? length userdata)%nat
      then (f, - EINVAL)
      else if bool_decide (is_Some (md_network_filter_find (Some f) family name 0)) then (f, - EEXIST)
      else
        let count := Z.of_nat (length (f_tables f)) in
        if (count =? 256) || (f_next_handle f =? UINT64_MAX) then (f, - ENOSPC)
        else
          let grow := if f_capacity f =? 0 then 4 else f_capacity f * 2 in
          let grow := if 256 <? grow then 256 else grow in
          if (count =? f_capacity f) && negb realloc then (f, - ENOMEM)
          else
            (mk_filter (f_generation f) (f_next_handle f + 1)
               (f_tables f ++ [mk_table (f_next_handle f) family n userdata])
               (if count =? f_capacity f then grow else f_capacity f)
               (f_chains f) (f_chain_capacity f) (f_rules f) (f_rule_capacity f) (f_sets f) (f_set_capacity f), 0)
  end.

(** ** Chains, rules and sets *)

Definition named (name : option string) (n : string) (handle h id i : Z) : bool :=
  match name with
  | Some x => bool_decide (x = n)
  | None => if handle =? 0 then negb (id =? 0) && (id =? i) else handle =? h
  end.
Definition md_filter_chain_find (f : option md_network_filter) (table : Z) (name : option string) (handle id : Z)
    : option md_filter_chain :=
  f ← f; List.find (λ c, ((table =? 0) || (c_table c =? table)) && named name (c_name c) handle (c_handle c) id (c_id c))
           (f_chains f).
Definition md_filter_set_find (f : option md_network_filter) (table : Z) (name : option string) (handle id : Z)
    : option md_filter_set :=
  f ← f; List.find (λ s, ((table =? 0) || (s_table s =? table)) && named name (s_name s) handle (s_handle s) id (s_id s))
           (f_sets f).

(** memmove over the deleted slot. *)
Definition remove_at {A} (i : nat) (l : list A) : list A := take i l ++ drop (S i) l.
Definition md_filter_rule_delete (f : md_network_filter) (index : nat) : md_network_filter :=
  with_rules f (remove_at index (f_rules f)).
Fixpoint delete_rules (fuel : nat) (f : md_network_filter) (handle : Z) (i : nat) : md_network_filter :=
  match fuel with
  | O => f
  | S fuel =>
      match f_rules f !! i with
      | None => f
      | Some r => if r_chain r =? handle then delete_rules fuel (md_filter_rule_delete f i) handle i
                  else delete_rules fuel f handle (S i)
      end
  end.
Definition md_filter_chain_delete (f : md_network_filter) (index : nat) : md_network_filter :=
  match f_chains f !! index with
  | None => f
  | Some c => let f1 := delete_rules (length (f_rules f)) f (c_handle c) 0 in
              with_chains f1 (remove_at index (f_chains f1))
  end.
Definition md_filter_set_delete (f : md_network_filter) (index : nat) : md_network_filter :=
  with_sets f (remove_at index (f_sets f)).

Fixpoint delete_chains (fuel : nat) (f : md_network_filter) (table : Z) (j : nat) : md_network_filter :=
  match fuel with
  | O => f
  | S fuel =>
      match f_chains f !! j with
      | None => f
      | Some c => if c_table c =? table then delete_chains fuel (md_filter_chain_delete f j) table j
                  else delete_chains fuel f table (S j)
      end
  end.
Fixpoint delete_sets (fuel : nat) (f : md_network_filter) (table : Z) (j : nat) : md_network_filter :=
  match fuel with
  | O => f
  | S fuel =>
      match f_sets f !! j with
      | None => f
      | Some s => if s_table s =? table then delete_sets fuel (md_filter_set_delete f j) table j
                  else delete_sets fuel f table (S j)
      end
  end.
Definition deleted_table (family : Z) (name : option string) (handle : Z) (t : md_network_filter_table) : bool :=
  ((family =? 0) || (t_family t =? family))
  && match name with Some n => bool_decide (t_name t = n) | None => true end
  && ((handle =? 0) || (t_handle t =? handle)).
Fixpoint delete_tables (fuel : nat) (f : md_network_filter) (family : Z) (name : option string) (handle : Z) (i : nat)
    : md_network_filter :=
  match fuel with
  | O => f
  | S fuel =>
      match f_tables f !! i with
      | None => f
      | Some t =>
          if deleted_table family name handle t then
            let f1 := delete_chains (length (f_chains f)) f (t_handle t) 0 in
            let f2 := delete_sets (length (f_sets f1)) f1 (t_handle t) 0 in
            delete_tables fuel (with_tables f2 (remove_at i (f_tables f2))) family name handle i
          else delete_tables fuel f family name handle (S i)
      end
  end.
Definition md_network_filter_delete (f : option md_network_filter) (family : Z) (name : option string) (handle : Z)
    : option md_network_filter :=
  match f with None => None | Some f => Some (delete_tables (length (f_tables f)) f family name handle 0) end.

(** ** Set lookup *)

Fixpoint memcmp (n : nat) (a b : list Z) : comparison :=
  match n with
  | O => Eq
  | S n => match Z.compare (byte a 0) (byte b 0) with Eq => memcmp n (tail a) (tail b) | c => c end
  end.
(** [order<0 || (!order && end>end')]: the element lies before the position asked for. *)
Definition element_before (s : md_filter_set) (x : md_filter_element) (key : list Z) (end_ : Z) : bool :=
  match memcmp (s_key_size s) (el_key x) key with Lt => true | Eq => end_ <? el_end x | Gt => false end.
Fixpoint position_loop (fuel : nat) (s : md_filter_set) (key : list Z) (end_ : Z) (low high : nat) : nat :=
  match fuel with
  | O => low
  | S fuel =>
      if bool_decide (low < high)%nat then
        let mid := (low + (high - low) / 2)%nat in
        match s_elements s !! mid with
        | Some x => if element_before s x key end_ then position_loop fuel s key end_ (S mid) high
                    else position_loop fuel s key end_ low mid
        | None => low
        end
      else low
  end.
Definition md_filter_set_position (s : md_filter_set) (key : list Z) (end_ : Z) : nat :=
  position_loop (S (length (s_elements s))) s key end_ 0 (length (s_elements s)).
Definition key_eq (s : md_filter_set) (a b : list Z) : bool := bool_decide (memcmp (s_key_size s) a b = Eq).
(** The element below a position, if it opens an interval. *)
Definition interval_below (s : md_filter_set) (at_ : nat) : option md_filter_element :=
  if has_bits (s_flags s) NFT_SET_INTERVAL then
    match at_ with
    | O => None
    | S below => x ← s_elements s !! below; if el_end x =? 0 then Some x else None
    end
  else None.
Definition md_filter_set_lookup (s : md_filter_set) (key : list Z) : option md_filter_element :=
  let at_ := md_filter_set_position s key 0 in
  match s_elements s !! at_ with
  | Some x => if (el_end x =? 0) && key_eq s (el_key x) key then Some x else interval_below s at_
  | None => interval_below s at_
  end.

Definition SET_IP : Z := 1.
Definition SET_NET : Z := 2.
(** Prefix lengths of one word of the installed mask, highest bit first. *)
Fixpoint ipset_bits (n : nat) (s : md_filter_set) (ip : md_ip_address) (word bits : Z) : option bool :=
  match n with
  | O => None
  | S n =>
      if Z.testbit bits (Z.of_nat n) then
        let prefix := word * 64 + Z.of_nat n in
        let masked := md_ip_network ip prefix in
        let key := <[(s_key_size s - 1)%nat := Z.land prefix 255]>
                     (copy_at (zeros 20) 0 (take (md_ip_size ip) (ip_bytes masked))) in
        match md_filter_set_lookup s key with
        | Some e => Some (byte (el_data e) 0 =? 0)
        | None => ipset_bits n s ip word bits
        end
      else ipset_bits n s ip word bits
  end.
Definition md_ipset_matches (s : option md_filter_set) (ip : md_ip_address) : bool :=
  match s with
  | None => false
  | Some s =>
      if negb (s_ipset_family s =? ip_family ip) then false
      else if s_ipset_kind s =? SET_IP then bool_decide (is_Some (md_filter_set_lookup s (ip_bytes ip)))
      else
        let word w := ipset_bits 64 s ip w (default 0 (s_prefixes s !! Z.to_nat w)) in
        match word 2 with
        | Some r => r
        | None => match word 1 with Some r => r | None => match word 0 with Some r => r | None => false end end
        end
  end.

(** ** Verdicts an expression can give *)

Definition md_filter_verdict_count (f : md_network_filter) (e : md_filter_expression) : nat :=
  if bool_decide (e_code e = MD_FILTER_VERDICT) then 1
  else if bool_decide (e_code e = MD_FILTER_VERDICT_MAP) then
    match List.find (λ s, s_handle s =? e_target e) (f_sets f) with
    | Some s => length (s_elements s)
    | None => 0
    end
  else 0.
Definition md_filter_verdict_at (f : md_network_filter) (e : md_filter_expression) (at_ : nat) : md_filter_verdict :=
  if bool_decide (e_code e = MD_FILTER_VERDICT) then mk_verdict (e_operation e) (e_target e)
  else match List.find (λ s, s_handle s =? e_target e) (f_sets f) with
  | Some s =>
      match s_elements s !! at_ with
      | Some x => if negb (el_end x =? 0) then mk_verdict (wrap32 NFT_CONTINUE) 0 else el_verdict x
      | None => mk_verdict 0 0
      end
  | None => mk_verdict 0 0
  end.

(** ** Keys are ordered lexicographically *)

Lemma memcmp_refl n a : memcmp n a a = Eq.
Proof. revert a. induction n as [|n IH]; intros a; cbn; [done|]. by rewrite Z.compare_refl. Qed.
Lemma memcmp_opp n a b : memcmp n b a = CompOpp (memcmp n a b).
Proof.
  revert a b. induction n as [|n IH]; intros a b; cbn; [done|].
  rewrite Z.compare_antisym. destruct (byte a 0 ?= byte b 0); cbn; auto.
Qed.
Lemma memcmp_eq_l n a b c : memcmp n a b = Eq → memcmp n a c = memcmp n b c.
Proof.
  revert a b c. induction n as [|n IH]; intros a b c; cbn; [done|].
  destruct (byte a 0 ?= byte b 0) eqn:E; try done. apply Z.compare_eq in E. rewrite E.
  intros H. destruct (byte b 0 ?= byte c 0); auto.
Qed.
Lemma memcmp_eq_r n a b c : memcmp n b c = Eq → memcmp n a b = memcmp n a c.
Proof. intros H. rewrite (memcmp_opp n b a), (memcmp_opp n c a). f_equal. by apply memcmp_eq_l. Qed.
Lemma memcmp_lt_trans n a b c : memcmp n a b = Lt → memcmp n b c = Lt → memcmp n a c = Lt.
Proof.
  revert a b c. induction n as [|n IH]; intros a b c; cbn; [done|].
  destruct (Z.compare_spec (byte a 0) (byte b 0)) as [E1|E1|E1]; try done;
    destruct (Z.compare_spec (byte b 0) (byte c 0)) as [E2|E2|E2]; try done; intros H1 H2.
  - rewrite E1, E2, Z.compare_refl. eauto.
  - by replace (byte a 0 ?= byte c 0) with Lt by (symmetry; apply Z.compare_lt_iff; lia).
  - by replace (byte a 0 ?= byte c 0) with Lt by (symmetry; apply Z.compare_lt_iff; lia).
  - by replace (byte a 0 ?= byte c 0) with Lt by (symmetry; apply Z.compare_lt_iff; lia).
Qed.

(** ** Sorted sets *)

(** The order of the elements: by key, and at one key the end of the old
    interval before the start of the new one. *)
Definition element_lt (s : md_filter_set) (x y : md_filter_element) : bool :=
  element_before s x (el_key y) (el_end y).
Definition elements_sorted (s : md_filter_set) : Prop :=
  ∀ i x y, s_elements s !! i = Some x → s_elements s !! S i = Some y → element_lt s x y = true.

Lemma element_before_trans s x y key end_ :
  element_lt s x y = true → element_before s y key end_ = true → element_before s x key end_ = true.
Proof.
  unfold element_lt, element_before. intros Hxy Hy.
  destruct (memcmp _ (el_key x) (el_key y)) eqn:E1; try done.
  - rewrite (memcmp_eq_l _ _ _ key E1). destruct (memcmp _ (el_key y) key); try done. breflect. apply Z.ltb_lt. lia.
  - destruct (memcmp _ (el_key y) key) eqn:E2; try done.
    + by rewrite <- (memcmp_eq_r _ _ _ _ E2), E1.
    + by rewrite (memcmp_lt_trans _ _ _ _ E1 E2).
Qed.
Lemma sorted_lt s i j x y :
  elements_sorted s → s_elements s !! i = Some x → s_elements s !! j = Some y → (i < j)%nat → element_lt s x y = true.
Proof.
  intros Hs Hx. revert y. induction j as [|j IH]; intros y Hy Hij; [lia|].
  destruct (decide (i = j)) as [->|]; [by eapply Hs|].
  destruct (lookup_lt_is_Some_2 (s_elements s) j) as [z Hz]; [apply lookup_lt_Some in Hy; lia|].
  eapply element_before_trans; [eapply IH; [done|lia]|by eapply Hs].
Qed.

(** The boundary the search finds. *)
Definition boundary (s : md_filter_set) (key : list Z) (end_ : Z) (n : nat) : Prop :=
  (n ≤ length (s_elements s))%nat
  ∧ ∀ i x, s_elements s !! i = Some x → element_before s x key end_ = bool_decide (i < n)%nat.
Lemma position_loop_spec fuel s key end_ low high :
  elements_sorted s → (high - low < fuel)%nat → (low ≤ high ≤ length (s_elements s))%nat →
  (∀ i x, s_elements s !! i = Some x → (i < low)%nat → element_before s x key end_ = true) →
  (∀ i x, s_elements s !! i = Some x → (high ≤ i)%nat → element_before s x key end_ = false) →
  boundary s key end_ (position_loop fuel s key end_ low high).
Proof.
  intros Hs. revert low high. induction fuel as [|fuel IH]; intros low high Hf Hr Hlow Hhigh; [lia|].
  cbn [position_loop]. case_bool_decide as Hlt.
  - set (mid := (low + (high - low) / 2)%nat).
    assert (low ≤ mid < high)%nat as Hm.
    { unfold mid. assert ((high - low) / 2 < high - low)%nat by (apply Nat.div_lt; lia). lia. }
    destruct (lookup_lt_is_Some_2 (s_elements s) mid) as [x Hx]; [lia|]. rewrite Hx.
    destruct (element_before s x key end_) eqn:Eb; apply IH; try lia; try done.
    + intros i y Hy Hi. destruct (decide (i = mid)) as [->|]; [congruence|].
      eapply element_before_trans; [eapply (sorted_lt s i mid); eauto; lia|done].
    + intros i y Hy Hi. destruct (decide (i = mid)) as [->|]; [congruence|].
      destruct (element_before s y key end_) eqn:E; [|done]. exfalso.
      assert (element_before s x key end_ = true); [|congruence].
      eapply element_before_trans; [eapply (sorted_lt s mid i); eauto; lia|done].
  - assert (low = high) as -> by lia. split; [lia|]. intros i x Hx. case_bool_decide; [by eapply Hlow|].
    eapply Hhigh; [done|lia].
Qed.
Lemma position_spec s key end_ : elements_sorted s → boundary s key end_ (md_filter_set_position s key end_).
Proof.
  intros Hs. apply position_loop_spec; try done; try lia. intros i x Hx Hi. apply lookup_lt_Some in Hx. lia.
Qed.

(** Linear reference: the last element at or before the start of [key]. *)
Definition at_or_before (s : md_filter_set) (key : list Z) (x : md_filter_element) : bool :=
  match memcmp (s_key_size s) (el_key x) key with Lt => true | Eq => 0 <=? el_end x | Gt => false end.
Definition set_scan (s : md_filter_set) (key : list Z) : option md_filter_element :=
  x ← last (filter (λ x, at_or_before s key x = true) (s_elements s));
  if (el_end x =? 0) && (key_eq s (el_key x) key || has_bits (s_flags s) NFT_SET_INTERVAL) then Some x else None.

(** The last element that satisfies a predicate true on a prefix. *)
Lemma last_filter_prefix {A} (P : A → bool) (l : list A) n :
  (n ≤ length l)%nat → (∀ i x, l !! i = Some x → P x = bool_decide (i < n)%nat) →
  last (filter (λ x, P x = true) l) = match n with O => None | S k => l !! k end.
Proof.
  intros Hn HP. assert (filter (λ x, P x = true) l = take n l) as ->.
  { rewrite <- (take_drop n l) at 1. rewrite filter_app.
    rewrite (filter_all _ (take n l)), (filter_none _ (drop n l)); [apply app_nil_r| |].
    - intros x [i Hi]%list_elem_of_lookup. rewrite lookup_drop in Hi. rewrite (HP _ _ Hi).
      rewrite bool_decide_eq_false_2; [done|lia].
    - intros x [i Hi]%list_elem_of_lookup. apply lookup_take_Some in Hi as [Hi ?]. rewrite (HP _ _ Hi).
      by apply bool_decide_eq_true_2. }
  rewrite last_lookup, length_take, Nat.min_l by done. destruct n as [|k]; [done|]. cbn. apply lookup_take_lt. lia.
Qed.

(** What the boundary says about the linear scan. *)
Lemma before_at s key x : element_before s x key 0 = true → at_or_before s key x = true.
Proof. unfold element_before, at_or_before. destruct (memcmp _ _ _); try done. intros ?; breflect. apply Z.leb_le. lia. Qed.
Lemma at_not_before s key x :
  0 ≤ el_end x → element_before s x key 0 = false → at_or_before s key x = true →
  el_end x = 0 ∧ key_eq s (el_key x) key = true.
Proof.
  unfold element_before, at_or_before, key_eq. intros Hx. destruct (memcmp _ _ _); try done.
  intros. breflect. split; [lia|]. by apply bool_decide_eq_true_2.
Qed.
Lemma exact_at s key x : el_end x = 0 → key_eq s (el_key x) key = true →
  element_before s x key 0 = false ∧ at_or_before s key x = true.
Proof. unfold element_before, at_or_before, key_eq. intros -> ->%bool_decide_eq_true. done. Qed.
(** An element that starts at the key sits at the boundary. *)
Lemma exact_boundary s key n i x :
  elements_sorted s → boundary s key 0 n → s_elements s !! i = Some x →
  el_end x = 0 → key_eq s (el_key x) key = true → i = n.
Proof.
  intros Hs [Hn Hb] Hx Ex Kx. destruct (exact_at s key x Ex Kx) as [Hnb _].
  rewrite (Hb _ _ Hx) in Hnb. apply bool_decide_eq_false_1 in Hnb.
  destruct (decide (i = n)) as [|Hne]; [done|]. exfalso.
  destruct (lookup_lt_is_Some_2 (s_elements s) n) as [y Hy]; [apply lookup_lt_Some in Hx; lia|].
  pose proof (Hb n y Hy) as Hbn. rewrite bool_decide_eq_false_2 in Hbn by lia.
  pose proof (sorted_lt s n i y x Hs Hy Hx ltac:(lia)) as Hlt. apply bool_decide_eq_true_1 in Kx.
  unfold element_lt, element_before in *. rewrite (memcmp_eq_r _ _ _ _ Kx), Ex in Hlt. congruence.
Qed.
(** The scan when an element starts at the key, and when none does. *)
Lemma scan_hit s key n x :
  elements_sorted s → Forall (λ x, 0 ≤ el_end x) (s_elements s) → boundary s key 0 n →
  s_elements s !! n = Some x → el_end x = 0 → key_eq s (el_key x) key = true → set_scan s key = Some x.
Proof.
  intros Hs Hend Hbd Hx Ex Kx. rewrite Forall_lookup in Hend. unfold set_scan.
  rewrite (last_filter_prefix (at_or_before s key) _ (S n)).
  - rewrite Hx. cbn. by rewrite Ex, Kx.
  - apply lookup_lt_Some in Hx. lia.
  - intros i y Hy. destruct Hbd as [Hn Hb]. pose proof (Hb i y Hy) as Hby. destruct (bool_decide_reflect (i < S n)%nat) as [Hi|Hi].
    + destruct (decide (i = n)) as [->|]; [|apply before_at; rewrite Hby; apply bool_decide_eq_true_2; lia].
      assert (y = x) as -> by congruence. by apply exact_at.
    + destruct (at_or_before s key y) eqn:Ey; [|done]. rewrite bool_decide_eq_false_2 in Hby by lia.
      destruct (at_not_before s key y (Hend _ _ Hy) Hby Ey) as [Ey0 Ky].
      pose proof (exact_boundary s key n i y Hs (conj Hn Hb) Hy Ey0 Ky). lia.
Qed.
Lemma scan_miss s key n :
  elements_sorted s → Forall (λ x, 0 ≤ el_end x) (s_elements s) → boundary s key 0 n →
  (∀ x, s_elements s !! n = Some x → (el_end x =? 0) && key_eq s (el_key x) key = false) →
  set_scan s key = interval_below s n.
Proof.
  intros Hs Hend [Hn Hb] Hno. rewrite Forall_lookup in Hend. unfold set_scan, interval_below.
  rewrite (last_filter_prefix (at_or_before s key) _ n Hn).
  - destruct n as [|k]; [by case_if|]. destruct (s_elements s !! k) as [y|] eqn:Hy; cbn; [|by case_if].
    assert (element_before s y key 0 = true) as Hby by (rewrite (Hb _ _ Hy); apply bool_decide_eq_true_2; lia).
    destruct (el_end y =? 0) eqn:Ey; cbn; [|by case_if]. breflect.
    destruct (key_eq s (el_key y) key) eqn:Ky; [|cbn; by case_if].
    destruct (exact_at s key y Ey Ky) as [? _]. congruence.
  - intros i y Hy. pose proof (Hb i y Hy) as Hby.
    destruct (bool_decide_reflect (i < n)%nat) as [Hi|Hi]; [by apply before_at|].
    destruct (at_or_before s key y) eqn:Ey; [|done]. exfalso.
    destruct (at_not_before s key y (Hend _ _ Hy) Hby Ey) as [Ey0 Ky].
    pose proof (exact_boundary s key n i y Hs (conj Hn Hb) Hy Ey0 Ky) as ->.
    specialize (Hno y Hy). rewrite Ey0, Ky in Hno. done.
Qed.

(** ** Deletion loops are filters *)

Lemma drop_remove_at {A} i (l : list A) : drop i (remove_at i l) = drop (S i) l.
Proof.
  unfold remove_at. destruct (decide (i ≤ length l)%nat).
  - rewrite drop_app_length'; [done|]. rewrite length_take. lia.
  - rewrite (drop_ge l (S i)), app_nil_r, take_ge, drop_ge by lia. done.
Qed.
Lemma take_remove_at {A} i (l : list A) : take i (remove_at i l) = take i l.
Proof.
  unfold remove_at. destruct (decide (i ≤ length l)%nat).
  - rewrite take_app_length'; [done|]. rewrite length_take. lia.
  - rewrite (drop_ge l (S i)), app_nil_r by lia. by rewrite take_take, Nat.min_id.
Qed.
Lemma length_remove_at {A} i (l : list A) : (i < length l)%nat → length (remove_at i l) = (length l - 1)%nat.
Proof. intros. unfold remove_at. rewrite length_app, length_take, length_drop. lia. Qed.

(** One step of [for (i<count;) if (P) delete i; else ++i;]. *)
Definition kept {A} (P : A → bool) (i : nat) (l : list A) : list A := take i l ++ filter (λ x, P x = false) (drop i l).
Lemma kept_end {A} (P : A → bool) i (l : list A) : l !! i = None → kept P i l = l.
Proof. intros H%lookup_ge_None. unfold kept. by rewrite drop_ge, take_ge, app_nil_r by lia. Qed.
Lemma kept_skip {A} (P : A → bool) i (l : list A) x : l !! i = Some x → P x = false → kept P i l = kept P (S i) l.
Proof.
  intros Hx HP. unfold kept. rewrite (drop_S l x i Hx), filter_cons_True by done.
  rewrite (take_S_r l i x Hx), <- app_assoc. done.
Qed.
Lemma kept_remove {A} (P : A → bool) i (l : list A) x :
  l !! i = Some x → P x = true → kept P i l = kept P i (remove_at i l).
Proof.
  intros Hx HP. unfold kept. rewrite take_remove_at, drop_remove_at.
  rewrite (drop_S l x i Hx), filter_cons_False by congruence. done.
Qed.
Lemma kept_0 {A} (P : A → bool) (l : list A) : kept P 0 l = filter (λ x, P x = false) l.
Proof. done. Qed.

Lemma delete_rules_spec fuel f handle i :
  (length (f_rules f) - i ≤ fuel)%nat →
  delete_rules fuel f handle i = with_rules f (kept (λ r, r_chain r =? handle) i (f_rules f)).
Proof.
  revert f i. induction fuel as [|fuel IH]; intros f i Hf; cbn.
  - rewrite kept_end by (apply lookup_ge_None; lia). by destruct f.
  - destruct (f_rules f !! i) as [r|] eqn:Hr; [|rewrite kept_end by done; by destruct f].
    pose proof (lookup_lt_Some _ _ _ Hr). destruct (r_chain r =? handle) eqn:E.
    + rewrite IH; cbn; [|rewrite length_remove_at; lia]. by rewrite (kept_remove _ i (f_rules f) r Hr E).
    + rewrite IH by lia. by rewrite (kept_skip _ i (f_rules f) r Hr E).
Qed.
Lemma delete_sets_spec fuel f table i :
  (length (f_sets f) - i ≤ fuel)%nat →
  delete_sets fuel f table i = with_sets f (kept (λ s, s_table s =? table) i (f_sets f)).
Proof.
  revert f i. induction fuel as [|fuel IH]; intros f i Hf; cbn.
  - rewrite kept_end by (apply lookup_ge_None; lia). by destruct f.
  - destruct (f_sets f !! i) as [r|] eqn:Hr; [|rewrite kept_end by done; by destruct f].
    pose proof (lookup_lt_Some _ _ _ Hr). destruct (s_table r =? table) eqn:E.
    + rewrite IH; cbn; [|rewrite length_remove_at; lia]. by rewrite (kept_remove _ i (f_sets f) r Hr E).
    + rewrite IH by lia. by rewrite (kept_skip _ i (f_sets f) r Hr E).
Qed.

(** The rules of the chains in [cs]. *)
Definition rule_of (cs : list md_filter_chain) (r : md_filter_rule) : bool :=
  bool_decide (r_chain r ∈ c_handle <$> cs).
Lemma filter_rules_nil (rs : list md_filter_rule) : filter (λ r, rule_of [] r = false) rs = rs.
Proof. apply filter_all. intros r _. apply bool_decide_eq_false_2. by intros ?%elem_of_nil. Qed.
Lemma filter_rules_cons c cs (rs : list md_filter_rule) :
  filter (λ r, rule_of cs r = false) (filter (λ r, (r_chain r =? c_handle c) = false) rs)
  = filter (λ r, rule_of (c :: cs) r = false) rs.
Proof.
  induction rs as [|r rs IH]; [done|]. unfold rule_of in *. rewrite !filter_cons. cbn [fmap list_fmap].
  destruct (r_chain r =? c_handle c) eqn:E; breflect.
  - rewrite decide_False by done. rewrite decide_False; [done|]. rewrite bool_decide_eq_true_2; [done|]. rewrite E. by left.
  - rewrite (decide_True (P := false = false)) by done. rewrite filter_cons.
    assert (bool_decide (r_chain r ∈ c_handle c :: (c_handle <$> cs)) = bool_decide (r_chain r ∈ c_handle <$> cs)) as ->.
    { apply bool_decide_ext. rewrite elem_of_cons. naive_solver. }
    by rewrite IH.
Qed.
Lemma delete_chains_spec fuel f table i :
  (length (f_chains f) - i ≤ fuel)%nat →
  delete_chains fuel f table i =
    with_rules (with_chains f (kept (λ c, c_table c =? table) i (f_chains f)))
      (filter (λ r, rule_of (filter (λ c, (c_table c =? table) = true) (drop i (f_chains f))) r = false) (f_rules f)).
Proof.
  revert f i. induction fuel as [|fuel IH]; intros f i Hf; cbn.
  - rewrite kept_end by (apply lookup_ge_None; lia). rewrite (drop_ge (f_chains f)) by lia.
    rewrite filter_rules_nil. by destruct f.
  - destruct (f_chains f !! i) as [c|] eqn:Hc.
    2:{ rewrite kept_end by done. apply lookup_ge_None in Hc. rewrite (drop_ge (f_chains f)), filter_rules_nil by lia. by destruct f. }
    pose proof (lookup_lt_Some _ _ _ Hc). rewrite (drop_S _ _ _ Hc). destruct (c_table c =? table) eqn:E.
    + rewrite filter_cons_True by done. unfold md_filter_chain_delete. rewrite Hc, delete_rules_spec by lia.
      rewrite IH; cbn [f_chains f_rules with_chains with_rules]; [|rewrite length_remove_at; lia].
      rewrite kept_0, drop_remove_at, (filter_rules_cons c).
      by rewrite (kept_remove _ i (f_chains f) c Hc E).
    + rewrite IH by lia. rewrite filter_cons_False by congruence.
      by rewrite (kept_skip _ i (f_chains f) c Hc E).
Qed.

(** A ruleset without the tables in [gone] and everything that belongs to them. *)
Definition chain_of (gone : list md_network_filter_table) (c : md_filter_chain) : bool :=
  bool_decide (c_table c ∈ t_handle <$> gone).
Definition set_of (gone : list md_network_filter_table) (s : md_filter_set) : bool :=
  bool_decide (s_table s ∈ t_handle <$> gone).
Definition without_tables (f : md_network_filter) (gone tables : list md_network_filter_table) : md_network_filter :=
  mk_filter (f_generation f) (f_next_handle f) tables (f_capacity f)
    (filter (λ c, chain_of gone c = false) (f_chains f)) (f_chain_capacity f)
    (filter (λ r, rule_of (filter (λ c, chain_of gone c = true) (f_chains f)) r = false) (f_rules f)) (f_rule_capacity f)
    (filter (λ s, set_of gone s = false) (f_sets f)) (f_set_capacity f).

Lemma without_none f : without_tables f [] (f_tables f) = f.
Proof.
  unfold without_tables. rewrite (filter_none (λ c, chain_of [] c = true)), filter_rules_nil, !filter_all; [by destruct f|..];
    intros x _; try apply not_true_iff_false; unfold set_of, chain_of; rewrite bool_decide_eq_false || idtac;
    try rewrite bool_decide_eq_true; by intros ?%elem_of_nil.
Qed.
Lemma without_cons f t gone tables :
  without_tables (with_tables (with_sets (with_rules (with_chains f
      (filter (λ c, (c_table c =? t_handle t) = false) (f_chains f)))
      (filter (λ r, rule_of (filter (λ c, (c_table c =? t_handle t) = true) (f_chains f)) r = false) (f_rules f)))
      (filter (λ s, (s_table s =? t_handle t) = false) (f_sets f))) tables) gone tables
  = without_tables f (t :: gone) tables.
Proof.
  unfold without_tables. cbn. rewrite !list_filter_filter. f_equal; apply list_filter_iff.
  - intros c. unfold chain_of. cbn. rewrite !bool_decide_eq_false, elem_of_cons, Z.eqb_neq. tauto.
  - intros r. unfold rule_of, chain_of. rewrite !bool_decide_eq_false, !list_elem_of_fmap. cbn.
    setoid_rewrite list_elem_of_filter. setoid_rewrite bool_decide_eq_true. setoid_rewrite elem_of_cons.
    setoid_rewrite Z.eqb_eq. setoid_rewrite Z.eqb_neq. split.
    + intros [H1 H2] (c & Hr & [Hc|Hc] & Hin); [apply H2; eauto|].
      destruct (decide (c_table c = t_handle t)); [apply H2; eauto|apply H1; eauto 6].
    + intros H. split; intros (c & Hr & Hc & Hin); apply H; exists c; tauto.
  - intros s. unfold set_of. cbn. rewrite !bool_decide_eq_false, elem_of_cons, Z.eqb_neq. tauto.
Qed.
Lemma delete_tables_spec fuel f family name handle i :
  (length (f_tables f) - i ≤ fuel)%nat →
  delete_tables fuel f family name handle i =
    without_tables f (filter (λ t, deleted_table family name handle t = true) (drop i (f_tables f)))
      (kept (deleted_table family name handle) i (f_tables f)).
Proof.
  revert f i. induction fuel as [|fuel IH]; intros f i Hf; cbn [delete_tables].
  - rewrite kept_end by (apply lookup_ge_None; lia). rewrite (drop_ge (f_tables f)) by lia. by rewrite without_none.
  - destruct (f_tables f !! i) as [t|] eqn:Ht.
    2:{ rewrite kept_end by done. apply lookup_ge_None in Ht. rewrite (drop_ge (f_tables f)) by lia. by rewrite without_none. }
    pose proof (lookup_lt_Some _ _ _ Ht). rewrite (drop_S _ _ _ Ht).
    destruct (deleted_table family name handle t) eqn:E.
    + rewrite filter_cons_True by done. rewrite delete_chains_spec, kept_0, drop_0 by lia.
      rewrite delete_sets_spec, kept_0 by (cbn; lia). rewrite IH; [|cbn; rewrite length_remove_at; lia].
      rewrite (kept_remove _ i (f_tables f) t Ht E).
      rewrite <- without_cons. cbn [f_tables with_tables with_sets with_rules with_chains f_sets].
      by rewrite drop_remove_at.
    + rewrite IH by lia. rewrite filter_cons_False by congruence. by rewrite (kept_skip _ i (f_tables f) t Ht E).
Qed.

(** ** Properties *)

(** On a set that validation accepts, the binary search answers as a scan of
    the elements does: the element starting at the key, or in an interval set
    the nearest start below it with no interval end in between. *)
Theorem set_lookup_scan s key :
  elements_sorted s → Forall (λ x, 0 ≤ el_end x) (s_elements s) →
  md_filter_set_lookup s key = set_scan s key.
Proof.
  intros Hs Hend. unfold md_filter_set_lookup. pose proof (position_spec s key 0 Hs) as Hb.
  set (n := md_filter_set_position s key 0) in *. destruct (s_elements s !! n) as [x|] eqn:Hx.
  - destruct ((el_end x =? 0) && key_eq s (el_key x) key) eqn:E; breflect; [by erewrite scan_hit|].
    symmetry. apply scan_miss; try done. intros y Hy. congruence.
  - symmetry. apply scan_miss; try done. intros y Hy. congruence.
Qed.

(** Deleting tables removes exactly the tables that match, their chains, the
    rules of those chains and their sets; every other object stays, in order. *)
Theorem filter_delete_exact f family name handle :
  md_network_filter_delete (Some f) family name handle =
    Some (without_tables f (filter (λ t, deleted_table family name handle t = true) (f_tables f))
            (filter (λ t, deleted_table family name handle t = false) (f_tables f))).
Proof. unfold md_network_filter_delete. by rewrite delete_tables_spec by lia. Qed.
(** An interval set on one-byte keys: [10, 20) and [30, 40). *)
Definition sample_set : md_filter_set :=
  mk_set 1 5 0 NFT_SET_INTERVAL 1 0 "ports"
    [mk_element [10] 0 (mk_verdict 1 0) []; mk_element [20] 1 (mk_verdict 0 0) [];
     mk_element [30] 0 (mk_verdict 0 0) []; mk_element [40] 1 (mk_verdict 0 0) []] 4 0 0 [].
Lemma set_lookup_scan_witness :
  md_filter_set_lookup sample_set [15] = set_scan sample_set [15]
  ∧ set_scan sample_set [15] = head (s_elements sample_set) ∧ set_scan sample_set [25] = None.
Proof.
  split; [|by split; vm_compute].
  apply set_lookup_scan; [|repeat constructor; cbn; lia].
  intros [|[|[|[|i]]]] x y Hx Hy; cbn in Hx, Hy; try done; injection Hx as <-; injection Hy as <-; reflexivity.
Defined.
