(* ===== verification/FilterValidate.v ===== *)
(** * Ruleset validation (network_filter_program.c, first half)

    [md_filter_validate] admits a ruleset before it is published: sets must be
    strictly ordered, jumps must resolve inside their table to a regular chain,
    the jump graph must be acyclic with paths of at most sixteen jumps, and
    statements that only make sense at some hooks must not be reachable from
    others.

    The depth-first search keeps a colour and a height per chain; the depth of
    the C recursion is [17 - budget], so the guard [depth>16] is [budget = 0] and
    the recursion is structural.  The contexts fixpoint runs with fuel
    [context_fuel], shown sufficient in [propagate_total]. *)
From S2P Require Import Prelude NetworkIp NetworkFilter.

Definition NF_INET_PRE_ROUTING : Z := 0.
Definition NF_INET_LOCAL_IN : Z := 1.
Definition NF_INET_FORWARD : Z := 2.
Definition NF_INET_LOCAL_OUT : Z := 3.
Definition NF_INET_POST_ROUTING : Z := 4.
Definition NF_INET_NUMHOOKS : Z := 5.
Definition NFPROTO_INET : Z := 1.
Definition NFPROTO_IPV4 : Z := 2.
Definition NFPROTO_IPV6 : Z := 10.
Definition IPPROTO_TCP : Z := 6.
Definition IPPROTO_UDP : Z := 17.
Definition IPPROTO_ICMP : Z := 1.
Definition NFT_CMP_EQ : Z := 0.
Definition NFT_META_L4PROTO : Z := 16.
Definition NFT_PAYLOAD_NETWORK_HEADER : Z := 1.
Definition NFT_NAT_DNAT : Z := 1.
Definition NFT_FIB_RESULT_OIF : Z := 1.
Definition NFT_FIB_RESULT_OIFNAME : Z := 2.
Definition NFT_FIB_RESULT_ADDRTYPE : Z := 3.
Definition NFTA_FIB_F_SADDR : Z := 1.
Definition NFTA_FIB_F_DADDR : Z := 2.
Definition NFTA_FIB_F_MARK : Z := 4.
Definition NFTA_FIB_F_IIF : Z := 8.
Definition NFTA_FIB_F_OIF : Z := 16.
Definition NFTA_FIB_F_PRESENT : Z := 32.

(** The index of the first chain with a handle; -1 is [None]. *)
Fixpoint index_of {A} (P : A → bool) (l : list A) : option nat :=
  match l with [] => None | x :: l => if P x then Some O else S <$> index_of P l end.
Definition chain_index (f : md_network_filter) (handle : Z) : option nat :=
  index_of (λ c, c_handle c =? handle) (f_chains f).

Definition opcode (e : md_filter_expression) (c : md_filter_opcode) : bool := bool_decide (e_code e = c).
(** The loop has no break: the last table with the handle decides. *)
Definition chain_family (f : md_network_filter) (table : Z) : Z :=
  foldl (λ family t, if t_handle t =? table then t_family t else family) 0 (f_tables f).
Definition tcp_compare (family : Z) (load e : md_filter_expression) : bool :=
  (e_src e =? e_dst load)%nat
  && ((opcode load MD_FILTER_META && (e_key load =? NFT_META_L4PROTO))
      || (opcode load MD_FILTER_PAYLOAD && (e_key load =? NFT_PAYLOAD_NETWORK_HEADER) && (e_size load =? 1)%nat
          && (((family =? NFPROTO_IPV4) && (e_aux load =? 9)) || ((family =? NFPROTO_IPV6) && (e_aux load =? 6))))).
Fixpoint tcp_loop (family : Z) (load : option md_filter_expression) (es : list md_filter_expression) : bool :=
  match es with
  | [] => false
  | e :: es =>
      if opcode e MD_FILTER_TRANSPORT && (tr_protocol (e_transport e) =? IPPROTO_TCP) then true
      else if match load with
              | Some l => opcode e MD_FILTER_COMPARE && (e_operation e =? NFT_CMP_EQ) && (e_size e =? 1)%nat
                          && (byte (e_value e) 0 =? IPPROTO_TCP) && tcp_compare family l e
              | None => false
              end then true
      else tcp_loop family (Some e) es
  end.
Definition tcp_predicate (f : md_network_filter) (r : md_filter_rule) (end_ : nat) : bool :=
  let family := match chain_index f (r_chain r) ≫= λ i, f_chains f !! i with
                | Some c => chain_family f (c_table c)
                | None => 0
                end in
  tcp_loop family None (take end_ (r_expressions r)).

(** ** Depth-first search over jumps *)

Definition verdicts (f : md_network_filter) (e : md_filter_expression) : list md_filter_verdict :=
  md_filter_verdict_at f e <$> seq 0 (md_filter_verdict_count f e).
Definition is_jump (v : md_filter_verdict) : bool :=
  (to_int (v_operation v) =? NFT_JUMP) || (to_int (v_operation v) =? NFT_GOTO).

(** state[] and height[], by chain index. *)
Record vstate := mk_vstate { v_state : gmap nat Z; v_height : gmap nat Z }.
Definition colour (vs : vstate) (i : nat) : Z := default 0 (v_state vs !! i).
Definition height (vs : vstate) (i : nat) : Z := default 0 (v_height vs !! i).
Definition set_colour (vs : vstate) (i : nat) (c : Z) : vstate := mk_vstate (<[i := c]> (v_state vs)) (v_height vs).
Definition set_height (vs : vstate) (i : nat) (h : Z) : vstate := mk_vstate (v_state vs) (<[i := h]> (v_height vs)).

Section search.
Context (f : md_network_filter) (rec : nat → vstate → vstate * Z).
Fixpoint validate_verdicts (c : md_filter_chain) (chain : nat) (vs : vstate) (l : list md_filter_verdict) : vstate * Z :=
  match l with
  | [] => (vs, 0)
  | v :: l =>
      if negb (is_jump v) then validate_verdicts c chain vs l
      else match chain_index f (v_target v) with
      | None => (vs, - ENOENT)
      | Some target =>
          match f_chains f !! target with
          | None => (vs, - ENOENT)
          | Some t =>
              if negb (c_table t =? c_table c) || (0 <=? c_hook t) then (vs, - EOPNOTSUPP)
              else
                let '(vs, error) := rec target vs in
                if negb (error =? 0) then (vs, error)
                else
                  let vs := if height vs chain <? height vs target + 1 then set_height vs chain (height vs target + 1)
                            else vs in
                  validate_verdicts c chain vs l
          end
      end
  end.
Definition set_found (c : md_filter_chain) (e : md_filter_expression) : bool :=
  existsb (λ s, (s_handle s =? e_target e) && (s_table s =? c_table c)) (f_sets f).
Definition ipset_found (e : md_filter_expression) : bool :=
  existsb (λ s, negb (s_ipset_kind s =? 0) && (s_handle s =? e_target e)) (f_sets f).
Fixpoint validate_expressions (c : md_filter_chain) (chain : nat) (vs : vstate) (es : list md_filter_expression)
    : vstate * Z :=
  match es with
  | [] => (vs, 0)
  | e :: es =>
      let '(vs, error) := validate_verdicts c chain vs (verdicts f e) in
      if negb (error =? 0) then (vs, error)
      else if md_filter_set_expression e && negb (set_found c e) then (vs, - ENOENT)
      else if opcode e MD_FILTER_IPSET && negb (ipset_found e) then (vs, - ENOENT)
      else validate_expressions c chain vs es
  end.
Fixpoint validate_rules (c : md_filter_chain) (chain : nat) (vs : vstate) (rs : list md_filter_rule) : vstate * Z :=
  match rs with
  | [] => (vs, 0)
  | r :: rs =>
      if negb (r_chain r =? c_handle c) then validate_rules c chain vs rs
      else
        let '(vs, error) := validate_expressions c chain vs (r_expressions r) in
        if negb (error =? 0) then (vs, error) else validate_rules c chain vs rs
  end.
End search.

Definition DEPTH : nat := 17.
Fixpoint validate_chain (budget : nat) (f : md_network_filter) (chain : nat) (vs : vstate) : vstate * Z :=
  match budget with
  | O => (vs, - ELOOP)
  | S budget' =>
      let depth := Z.of_nat (DEPTH - budget) in
      if colour vs chain =? 1 then (vs, - ELOOP)
      else if colour vs chain =? 2 then (vs, if 16 <? depth + height vs chain then - ELOOP else 0)
      else match f_chains f !! chain with
      | None => (vs, - ENOENT)
      | Some c =>
          let '(vs, error) := validate_rules f (validate_chain budget' f) c chain (set_colour vs chain 1) (f_rules f) in
          if negb (error =? 0) then (vs, error) else (set_colour vs chain 2, 0)
      end
  end.

(** ** The whole admission *)

Fixpoint elements_check (s : md_filter_set) (prev : option md_filter_element) (l : list md_filter_element) : Z :=
  match l with
  | [] => 0
  | y :: l =>
      let error := match prev with
                   | None => 0
                   | Some x =>
                       let order := memcmp (s_key_size s) (el_key x) (el_key y) in
                       if bool_decide (order = Gt) || (bool_decide (order = Eq) && (el_end x <=? el_end y)) then - EINVAL
                       else if has_bits (s_flags s) NFT_SET_INTERVAL && (el_end x =? el_end y) then - EEXIST
                       else 0
                   end in
      if negb (error =? 0) then error else elements_check s (Some y) l
  end.
Fixpoint sets_check (l : list md_filter_set) : Z :=
  match l with
  | [] => 0
  | s :: l => let error := elements_check s None (s_elements s) in if negb (error =? 0) then error else sets_check l
  end.
Fixpoint chains_check (f : md_network_filter) (l : list nat) (vs : vstate) : vstate * Z :=
  match l with
  | [] => (vs, 0)
  | i :: l =>
      let '(vs, error) := validate_chain DEPTH f i vs in
      if negb (error =? 0) then (vs, error) else chains_check f l vs
  end.

(** Hook contexts by chain index: low bits NAT hooks, high bits filter hooks. *)
Definition context_of (c : md_filter_chain) : Z :=
  if 0 <=? c_hook c then bit (c_hook c + (if c_nat c then 0 else NF_INET_NUMHOOKS)) else 0.
Definition contexts_initial (f : md_network_filter) : list Z := context_of <$> f_chains f.

Fixpoint spread_verdicts (f : md_network_filter) (source : nat) (l : list md_filter_verdict) (ctx : list Z) (changed : bool)
    : list Z * bool :=
  match l with
  | [] => (ctx, changed)
  | v :: l =>
      if negb (is_jump v) then spread_verdicts f source l ctx changed
      else
        let target := default O (chain_index f (v_target v)) in
        let added := Z.ldiff (byte ctx source) (byte ctx target) in
        spread_verdicts f source l (<[target := Z.lor (byte ctx target) added]> ctx) (changed || negb (added =? 0))
  end.
Fixpoint spread_rules (f : md_network_filter) (rs : list md_filter_rule) (ctx : list Z) (changed : bool)
    : (list Z * bool) + Z :=
  match rs with
  | [] => inl (ctx, changed)
  | r :: rs =>
      match chain_index f (r_chain r) with
      | None => inr (- ENOENT)
      | Some source =>
          let '(ctx, changed) := spread_verdicts f source (r_expressions r ≫= verdicts f) ctx changed in
          spread_rules f rs ctx changed
      end
  end.
(** [None] when the fuel runs out. *)
Fixpoint propagate (fuel : nat) (f : md_network_filter) (ctx : list Z) : option (list Z + Z) :=
  match fuel with
  | O => None
  | S fuel =>
      match spread_rules f (f_rules f) ctx false with
      | inr e => Some (inr e)
      | inl (ctx, true) => propagate fuel f ctx
      | inl (ctx, false) => Some (inl ctx)
      end
  end.
(** Every pass but the last adds a context bit to a chain; there are ten. *)
Definition context_fuel (f : md_network_filter) : nat := S (10 * length (f_chains f)).

Definition hooks (l : list Z) : Z := foldr (λ h m, Z.lor (bit h) m) 0 l.
(** The contexts an expression may run in; [None]: any.  The error is for statements
    that are refused wherever they stand. *)
Definition expression_allowed (f : md_network_filter) (r : md_filter_rule) (j : nat) (e : md_filter_expression)
    : option Z + Z :=
  if opcode e MD_FILTER_MASQUERADE then inl (Some (bit NF_INET_POST_ROUTING))
  else if opcode e MD_FILTER_NAT then
    inl (Some (if e_operation e =? NFT_NAT_DNAT then hooks [NF_INET_PRE_ROUTING; NF_INET_LOCAL_OUT]
               else hooks [NF_INET_POST_ROUTING; NF_INET_LOCAL_IN]))
  else if opcode e MD_FILTER_FIB then
    if negb (e_key e =? NFT_FIB_RESULT_ADDRTYPE) || has_bits (e_operation e) NFTA_FIB_F_IIF then
      let allowed := hooks [NF_INET_PRE_ROUTING; NF_INET_LOCAL_IN; NF_INET_FORWARD] in
      inl (Some (Z.lor allowed (Z.shiftl allowed NF_INET_NUMHOOKS)))
    else if has_bits (e_operation e) NFTA_FIB_F_OIF then
      let allowed := hooks [NF_INET_LOCAL_OUT; NF_INET_POST_ROUTING; NF_INET_FORWARD] in
      inl (Some (Z.lor allowed (Z.shiftl allowed NF_INET_NUMHOOKS)))
    else inl None
  else if opcode e MD_FILTER_REJECT then
    if negb (md_network_reject_valid (e_key e) (e_aux e)) || ((e_key e =? MD_REJECT_TCP) && negb (tcp_predicate f r j))
    then inr (- EOPNOTSUPP)
    else inl (Some (Z.shiftl (hooks [NF_INET_LOCAL_IN; NF_INET_FORWARD; NF_INET_LOCAL_OUT]) NF_INET_NUMHOOKS))
  else inl None.
Definition cached_effect (e : md_filter_expression) : bool :=
  (opcode e MD_FILTER_VERDICT && negb (to_int (e_operation e) =? NFT_CONTINUE))
  || opcode e MD_FILTER_VERDICT_MAP || opcode e MD_FILTER_NAT || opcode e MD_FILTER_MASQUERADE
  || opcode e MD_FILTER_META_SET || opcode e MD_FILTER_CT_SET || opcode e MD_FILTER_REJECT.
Fixpoint hooks_check (f : md_network_filter) (r : md_filter_rule) (context : Z) (j : nat) (es : list md_filter_expression)
    : Z :=
  match es with
  | [] => 0
  | e :: es =>
      match expression_allowed f r j e with
      | inr error => error
      | inl (Some allowed) => if negb (Z.ldiff context allowed =? 0) then - EOPNOTSUPP else hooks_check f r context (S j) es
      | inl None => hooks_check f r context (S j) es
      end
  end.
Fixpoint rules_check (f : md_network_filter) (ctx : list Z) (rs : list md_filter_rule) : Z :=
  match rs with
  | [] => 0
  | r :: rs =>
      let context := byte ctx (default O (chain_index f (r_chain r))) in
      let limited := existsb (λ e, opcode e MD_FILTER_LIMIT) (r_expressions r) in
      let logged := existsb (λ e, opcode e MD_FILTER_LOG) (r_expressions r) in
      if limited && (negb logged || existsb cached_effect (r_expressions r)) then - EOPNOTSUPP
      else
        let error := hooks_check f r context 0 (r_expressions r) in
        if negb (error =? 0) then error else rules_check f ctx rs
  end.

Definition md_filter_validate (f : md_network_filter) : Z :=
  let error := sets_check (f_sets f) in
  if negb (error =? 0) then error
  else
    let '(_, error) := chains_check f (seq 0 (length (f_chains f))) (mk_vstate ∅ ∅) in
    if negb (error =? 0) then error
    else match propagate (context_fuel f) f (contexts_initial f) with
    | Some (inl ctx) => rules_check f ctx (f_rules f)
    | Some (inr error) => error
    | None => - ELOOP
    end.

(** ** What an accepted chain satisfies *)

Section accepted.
Context (f : md_network_filter).
Definition verdict_ok (vs : vstate) (i : nat) (c : md_filter_chain) (v : md_filter_verdict) : Prop :=
  is_jump v = true →
  ∃ j t, chain_index f (v_target v) = Some j ∧ f_chains f !! j = Some t
    ∧ c_table t = c_table c ∧ c_hook t < 0 ∧ colour vs j = 2 ∧ height vs j < height vs i.
Definition expression_ok (vs : vstate) (i : nat) (c : md_filter_chain) (e : md_filter_expression) : Prop :=
  Forall (verdict_ok vs i c) (verdicts f e)
  ∧ (md_filter_set_expression e = true → set_found f c e = true)
  ∧ (e_code e = MD_FILTER_IPSET → ipset_found f e = true).
Definition rule_ok (vs : vstate) (i : nat) (c : md_filter_chain) (r : md_filter_rule) : Prop :=
  r_chain r = c_handle c → Forall (expression_ok vs i c) (r_expressions r).
Definition chain_ok (vs : vstate) (i : nat) : Prop :=
  ∀ c, f_chains f !! i = Some c → Forall (rule_ok vs i c) (f_rules f).

(** Finished chains are accepted; untouched ones have height 0. *)
Record vinv (vs : vstate) : Prop := mk_vinv {
  vi_done : ∀ i, colour vs i = 2 → chain_ok vs i;
  vi_new : ∀ i, colour vs i = 0 → height vs i = 0;
  vi_colour : ∀ i, colour vs i = 0 ∨ colour vs i = 1 ∨ colour vs i = 2;
  vi_height : ∀ i, 0 ≤ height vs i }.
Definition frame (vs vs' : vstate) : Prop :=
  ∀ k, colour vs k ≠ 0 → colour vs' k = colour vs k ∧ height vs' k = height vs k.
(** Between two points of the body of chain [i]. *)
Definition inside (i : nat) (vs vs' : vstate) : Prop :=
  (∀ k, k ≠ i → colour vs k ≠ 0 → colour vs' k = colour vs k ∧ height vs' k = height vs k)
  ∧ colour vs' i = 1 ∧ height vs i ≤ height vs' i.

Lemma colour_set_colour vs i c k : colour (set_colour vs i c) k = if decide (k = i) then c else colour vs k.
Proof. unfold colour, set_colour. cbn. case_decide; [subst; by rewrite lookup_insert_eq|by rewrite lookup_insert_ne]. Qed.
Lemma height_set_height vs i h k : height (set_height vs i h) k = if decide (k = i) then h else height vs k.
Proof. unfold height, set_height. cbn. case_decide; [subst; by rewrite lookup_insert_eq|by rewrite lookup_insert_ne]. Qed.
Lemma inside_trans i a b c : inside i a b → inside i b c → inside i a c.
Proof.
  intros (H1 & _ & H1') (H2 & E & H2'). split; [|split; [done|lia]]. intros k Hk Hc.
  destruct (H1 k Hk Hc) as [Ec Eh]. destruct (H2 k Hk) as [? ?]; [congruence|]. split; congruence.
Qed.
Lemma verdict_ok_inside i a b c v : inside i a b → colour a i = 1 → verdict_ok a i c v → verdict_ok b i c v.
Proof.
  intros (Hk & _ & Hh) Hi Hv Hj. destruct (Hv Hj) as (j & t & ? & ? & ? & ? & Hc & Hlt). exists j, t.
  destruct (Hk j) as [E1 E2]; [congruence|lia|]. repeat split; try done; [congruence|lia].
Qed.
Lemma expression_ok_inside i a b c e : inside i a b → colour a i = 1 → expression_ok a i c e → expression_ok b i c e.
Proof. intros Hin Hi (Hv & ? & ?). split; [|done]. eapply Forall_impl; [exact Hv|]. eauto using verdict_ok_inside. Qed.
Lemma rule_ok_inside i a b c r : inside i a b → colour a i = 1 → rule_ok a i c r → rule_ok b i c r.
Proof.
  intros Hin Hi Hr He. eapply Forall_impl; [exact (Hr He)|]. eauto using expression_ok_inside.
Qed.
Lemma verdict_ok_frame a b i c v :
  (∀ k, colour a k = 2 → colour b k = 2 ∧ height b k = height a k) → height b i = height a i →
  verdict_ok a i c v → verdict_ok b i c v.
Proof.
  intros Hk Hi Hv Hj. destruct (Hv Hj) as (j & t & ? & ? & ? & ? & Hc & Hlt). exists j, t.
  destruct (Hk j Hc). repeat split; try done. lia.
Qed.
Lemma chain_ok_frame a b i :
  (∀ k, colour a k = 2 → colour b k = 2 ∧ height b k = height a k) → height b i = height a i →
  chain_ok a i → chain_ok b i.
Proof.
  intros Hk Hi Hc c Hl. eapply Forall_impl; [exact (Hc c Hl)|]. intros r Hr He.
  eapply Forall_impl; [exact (Hr He)|]. intros e (Hv & ? & ?). split; [|done].
  eapply Forall_impl; [exact Hv|]. intros v. by apply verdict_ok_frame.
Qed.

(** ** The loops of one chain's body, for a recursive call that meets its contract *)

Definition call_spec (depth : Z) (rec : nat → vstate → vstate * Z) : Prop :=
  ∀ t vs vs', vinv vs → rec t vs = (vs', 0) →
    vinv vs' ∧ frame vs vs' ∧ colour vs' t = 2 ∧ depth + height vs' t ≤ 16.
Definition body_ok (depth : Z) (i : nat) (vs : vstate) : Prop :=
  vinv vs ∧ colour vs i = 1 ∧ depth + height vs i ≤ 16.

Lemma raise_ok depth i vs h :
  body_ok depth i vs → height vs i ≤ h → depth + h ≤ 16 →
  body_ok depth i (set_height vs i h) ∧ inside i vs (set_height vs i h).
Proof.
  intros ([Hd Hn Hcol Hpos] & Hi & Hb) Hle Hh.
  assert (∀ k, k ≠ i → height (set_height vs i h) k = height vs k) as Hk
    by (intros k ?; rewrite height_set_height; by rewrite decide_False).
  split; [split; [split|]|].
  - intros k Hc. change (colour vs k = 2) in Hc. eapply chain_ok_frame; [| |by apply Hd].
    + intros k' Hc'. split; [done|]. apply Hk. intros ->. lia.
    + apply Hk. intros ->. lia.
  - intros k Hc. change (colour vs k = 0) in Hc. rewrite Hk; [by apply Hn|]. intros ->. lia.
  - exact Hcol.
  - intros k. rewrite height_set_height. case_decide; [|done]. specialize (Hpos i). lia.
  - rewrite height_set_height, decide_True by done. split; [done|lia].
  - split; [intros k Hne _; split; [done|by apply Hk]|]. split; [done|]. rewrite height_set_height, decide_True by done. lia.
Qed.

Section body.
Context (depth : Z) (rec : nat → vstate → vstate * Z) (Hrec : call_spec (depth + 1) rec) (i : nat) (c : md_filter_chain).

Lemma validate_verdicts_ok l vs vs' :
  body_ok depth i vs → validate_verdicts f rec c i vs l = (vs', 0) →
  body_ok depth i vs' ∧ inside i vs vs' ∧ Forall (verdict_ok vs' i c) l.
Proof.
  revert vs. induction l as [|v l IH]; intros vs Hb; cbn.
  { intros [= <-]. split; [done|]. split; [|done]. destruct Hb as (_ & ? & _). by split. }
  destruct (is_jump v) eqn:Hj; cbn.
  2:{ intros H. destruct (IH vs Hb H) as (? & ? & ?). split; [done|]. split; [done|].
      constructor; [|done]. intros ?. congruence. }
  destruct (chain_index f (v_target v)) as [t|] eqn:Ht; [|done].
  destruct (f_chains f !! t) as [ct|] eqn:Hct; [|done].
  destruct (negb (c_table ct =? c_table c) || (0 <=? c_hook ct)) eqn:Eg; [done|]. breflect.
  destruct (rec t vs) as [vs1 error] eqn:Hr. destruct (error =? 0) eqn:Ee; cbn; [|intros [= _ ->]; done].
  breflect. subst error. destruct Hb as (Hv & Hi & Hd).
  destruct (Hrec t vs vs1 Hv Hr) as (Hv1 & Hf1 & Ht2 & Hd1). destruct (Hf1 i) as [Hi1 Hh1]; [lia|].
  assert (body_ok depth i vs1) as Hb1 by (split; [done|split; [congruence|lia]]).
  assert (inside i vs vs1) as Hin1 by (split; [intros k _; apply Hf1|split; [congruence|lia]]).
  set (vs2 := if _ : bool then _ else vs1).
  assert (body_ok depth i vs2 ∧ inside i vs1 vs2 ∧ height vs1 t < height vs2 i) as (Hb2 & Hin2 & Hlt).
  { unfold vs2. destruct (height vs1 i <? height vs1 t + 1) eqn:El; breflect.
    - destruct (raise_ok depth i vs1 (height vs1 t + 1) Hb1) as [? ?]; [lia|lia|]. split; [done|]. split; [done|].
      rewrite height_set_height, decide_True by done. lia.
    - split; [done|]. split; [by split; [|split; [apply Hb1|]]|lia]. }
  intros Hrest. destruct (IH vs2 Hb2 Hrest) as (Hb' & Hin' & Hl). split; [done|].
  split; [by eauto using inside_trans|]. constructor; [|done].
  eapply verdict_ok_inside; [exact Hin'|apply Hb2|]. destruct Hin2 as (Hk & _ & _).
  destruct (Hk t) as [E1 E2]; [intros ->; lia|lia|]. intros _. exists t, ct. repeat split; try done; lia.
Qed.
Lemma validate_expressions_ok es vs vs' :
  body_ok depth i vs → validate_expressions f rec c i vs es = (vs', 0) →
  body_ok depth i vs' ∧ inside i vs vs' ∧ Forall (expression_ok vs' i c) es.
Proof.
  revert vs. induction es as [|e es IH]; intros vs Hb; cbn.
  { intros [= <-]. split; [done|]. split; [|done]. destruct Hb as (_ & ? & _). by split. }
  destruct (validate_verdicts f rec c i vs (verdicts f e)) as [vs1 error] eqn:Hv.
  destruct (error =? 0) eqn:Ee; cbn; [|intros [= _ ->]; done]. breflect. subst error.
  destruct (validate_verdicts_ok _ _ _ Hb Hv) as (Hb1 & Hin1 & Hv1).
  destruct (md_filter_set_expression e && negb (set_found f c e)) eqn:Es; [done|].
  destruct (opcode e MD_FILTER_IPSET && negb (ipset_found f e)) eqn:Ei; [done|].
  intros H. destruct (IH vs1 Hb1 H) as (Hb' & Hin' & Hl). split; [done|].
  split; [by eauto using inside_trans|]. constructor; [|done].
  eapply expression_ok_inside; [exact Hin'|apply Hb1|]. split; [done|]. split.
  - intros E. rewrite E in Es. by destruct (set_found f c e).
  - intros E. unfold opcode in Ei. rewrite bool_decide_eq_true_2 in Ei by done. by destruct (ipset_found f e).
Qed.
Lemma validate_rules_ok rs vs vs' :
  body_ok depth i vs → validate_rules f rec c i vs rs = (vs', 0) →
  body_ok depth i vs' ∧ inside i vs vs' ∧ Forall (rule_ok vs' i c) rs.
Proof.
  revert vs. induction rs as [|r rs IH]; intros vs Hb; cbn.
  { intros [= <-]. split; [done|]. split; [|done]. destruct Hb as (_ & ? & _). by split. }
  destruct (r_chain r =? c_handle c) eqn:Er; cbn; breflect.
  2:{ intros H. destruct (IH vs Hb H) as (? & ? & ?). split; [done|]. split; [done|].
      constructor; [|done]. by intros ?. }
  destruct (validate_expressions f rec c i vs (r_expressions r)) as [vs1 error] eqn:Hv.
  destruct (error =? 0) eqn:Ee; cbn; [|intros [= _ ->]; done]. breflect. subst error.
  destruct (validate_expressions_ok _ _ _ Hb Hv) as (Hb1 & Hin1 & Hv1).
  intros H. destruct (IH vs1 Hb1 H) as (Hb' & Hin' & Hl). split; [done|].
  split; [by eauto using inside_trans|]. constructor; [|done].
  eapply rule_ok_inside; [exact Hin'|apply Hb1|]. by intros _.
Qed.
End body.

Lemma enter_ok depth i vs :
  vinv vs → colour vs i = 0 → depth ≤ 16 → body_ok depth i (set_colour vs i 1).
Proof.
  intros [Hd Hn Hcol Hpos] Hi Hdep. split; [split|split].
  - intros k. rewrite colour_set_colour. case_decide; [done|]. intros Hc. apply (chain_ok_frame vs); [|done|by apply Hd].
    intros k' Hk'. split; [|done]. rewrite colour_set_colour, decide_False; [done|]. intros ->. congruence.
  - intros k. rewrite colour_set_colour. case_decide; [done|]. apply Hn.
  - intros k. rewrite colour_set_colour. case_decide; [auto|]. apply Hcol.
  - exact Hpos.
  - by rewrite colour_set_colour, decide_True.
  - change (depth + height vs i ≤ 16). rewrite Hn by done. lia.
Qed.
Lemma leave_ok i vs :
  vinv vs → colour vs i = 1 → (∀ c, f_chains f !! i = Some c → Forall (rule_ok vs i c) (f_rules f)) →
  vinv (set_colour vs i 2).
Proof.
  intros [Hd Hn Hcol Hpos] Hi Hr.
  assert (∀ k, colour vs k = 2 → colour (set_colour vs i 2) k = 2 ∧ height (set_colour vs i 2) k = height vs k) as Hk.
  { intros k Hc. split; [|done]. rewrite colour_set_colour. by case_decide. }
  split.
  - intros k. rewrite colour_set_colour. case_decide as E.
    + subst. intros _. by apply (chain_ok_frame vs).
    + intros Hc. apply (chain_ok_frame vs); [exact Hk|done|by apply Hd].
  - intros k. rewrite colour_set_colour. case_decide; [done|]. apply Hn.
  - intros k. rewrite colour_set_colour. case_decide; [auto|]. apply Hcol.
  - exact Hpos.
Qed.

Lemma validate_chain_ok budget :
  (budget ≤ DEPTH)%nat → call_spec (Z.of_nat (DEPTH - budget)) (validate_chain budget f).
Proof.
  induction budget as [|budget IH]; intros Hle t vs vs' Hv; [done|]. cbn [validate_chain].
  set (depth := Z.of_nat (DEPTH - S budget)).
  destruct (colour vs t =? 1) eqn:E1; [done|]. destruct (colour vs t =? 2) eqn:E2; breflect.
  { destruct (16 <? depth + height vs t) eqn:Eh; [done|]. breflect. intros [= <-]. by repeat split; try apply Hv. }
  destruct (vi_colour _ Hv t) as [E0|[E0|E0]]; [|lia|lia].
  destruct (f_chains f !! t) as [c|] eqn:Hc; [|done].
  destruct (validate_rules _ _ _ _ _ _) as [vs1 error] eqn:Hr.
  destruct (error =? 0) eqn:Ee; cbn; [|intros [= _ ->]; done]. breflect. subst error. intros [= <-].
  pose proof (enter_ok depth t vs Hv E0 ltac:(unfold depth, DEPTH; lia)) as Hb.
  assert (call_spec (depth + 1) (validate_chain budget f)) as Hcall.
  { replace (depth + 1) with (Z.of_nat (DEPTH - budget)) by (unfold depth, DEPTH in *; lia). apply IH. lia. }
  destruct (validate_rules_ok depth _ Hcall t c _ _ _ Hb Hr) as ((Hv1 & Hc1 & Hd1) & (Hin & _ & _) & Hrs).
  split; [apply leave_ok; try done; intros c' Hc'; congruence|]. split; [|split; [|done]].
  - intros k Hk. assert (k ≠ t) by congruence. rewrite colour_set_colour, decide_False by done.
    destruct (Hin k) as [Ec Eh]; [done|rewrite colour_set_colour, decide_False by done; done|].
    rewrite colour_set_colour, decide_False in Ec by done. done.
  - by rewrite colour_set_colour, decide_True.
Qed.

Lemma chains_check_ok l vs vs' :
  vinv vs → chains_check f l vs = (vs', 0) →
  vinv vs' ∧ frame vs vs' ∧ ∀ i, i ∈ l → colour vs' i = 2 ∧ height vs' i ≤ 16.
Proof.
  revert vs. induction l as [|i l IH]; intros vs Hv; cbn [chains_check].
  { intros [= <-]. split; [done|]. split; [by intros ?|]. by intros ? ?%elem_of_nil. }
  destruct (validate_chain DEPTH f i vs) as [vs1 error] eqn:Hc.
  destruct (error =? 0) eqn:Ee; cbn; [|intros [= _ ->]; done]. breflect. subst error. intros H.
  destruct (validate_chain_ok DEPTH ltac:(lia) i vs vs1 Hv Hc) as (Hv1 & Hf1 & Hi & Hh).
  destruct (IH vs1 Hv1 H) as (Hv' & Hf' & Hl). split; [done|]. split.
  - intros k Hk. destruct (Hf1 k Hk) as [E1 E2]. destruct (Hf' k) as [? ?]; [congruence|]. split; congruence.
  - intros k [->|Hk]%elem_of_cons; [|by apply Hl]. destruct (Hf' i) as [-> ->]; [lia|]. split; [done|].
    unfold DEPTH in Hh. lia.
Qed.
End accepted.

(** ** Sets *)

Lemma elements_check_ok s prev l :
  elements_check s prev l = 0 →
  (∀ i x y, l !! i = Some x → l !! S i = Some y → element_lt s x y = true)
  ∧ (∀ x y, prev = Some x → l !! O = Some y → element_lt s x y = true).
Proof.
  revert prev. induction l as [|y l IH]; intros prev; cbn; [done|]. intros H.
  set (error := match prev with Some _ => _ | None => _ end) in H. destruct (error =? 0) eqn:Ee; cbn in H; breflect; [|done].
  destruct (IH (Some y) H) as [H1 H2]. split.
  - intros [|i] x z; cbn; [intros [= <-]; by apply H2|apply H1].
  - intros x z -> [= <-]. unfold error in Ee. unfold element_lt, element_before.
    destruct (memcmp _ _ _) eqn:Em; cbn in Ee; [|done|done].
    destruct (el_end x <=? el_end y) eqn:El; [done|]. breflect. apply Z.ltb_lt. lia.
Qed.
Lemma sets_check_sorted l s : sets_check l = 0 → s ∈ l → elements_sorted s.
Proof.
  induction l as [|x l IH]; cbn; [by intros _ ?%elem_of_nil|].
  destruct (elements_check x None (s_elements x) =? 0) eqn:E; cbn; breflect; [|intros H; rewrite H in E; done].
  intros H [->|Hs]%elem_of_cons; [|by apply IH]. by destruct (elements_check_ok _ _ _ E).
Qed.

(** ** Hook contexts *)

(** A jump from a rule of chain [i] to chain [j]. *)
Definition jumps (f : md_network_filter) (i j : nat) : Prop :=
  ∃ r e v, r ∈ f_rules f ∧ chain_index f (r_chain r) = Some i ∧ e ∈ r_expressions r ∧ v ∈ verdicts f e
    ∧ is_jump v = true ∧ chain_index f (v_target v) = Some j.
Definition grows (a b : list Z) : Prop := length b = length a ∧ ∀ i, byte a i ⊑ᵇ byte b i.
Lemma grows_refl a : grows a a.
Proof. split; [done|]. intros i. apply bits_le_refl. Qed.
Lemma grows_trans a b c : grows a b → grows b c → grows a c.
Proof. intros [L1 H1] [L2 H2]. split; [congruence|]. intros i. eapply bits_le_trans; [apply H1|apply H2]. Qed.
Lemma byte_insert l (i j : nat) x : byte (<[i := x]> l) j = if decide (i = j ∧ (i < length l)%nat) then x else byte l j.
Proof. unfold byte. rewrite list_lookup_insert. by case_decide. Qed.
Lemma grows_insert l t x : grows l (<[t := Z.lor (byte l t) x]> l).
Proof.
  split; [apply length_insert|]. intros i. rewrite byte_insert. case_decide as H; [destruct H as [-> _]|apply bits_le_refl].
  apply bits_le_lor_l, bits_le_refl.
Qed.
Lemma spread_verdicts_grows f source l ctx changed :
  grows ctx (fst (spread_verdicts f source l ctx changed)).
Proof.
  revert ctx changed. induction l as [|v l IH]; intros ctx changed; cbn; [apply grows_refl|].
  case_if; [apply IH|]. eapply grows_trans; [apply grows_insert|apply IH].
Qed.
Lemma spread_rules_grows f rs ctx changed ctx' changed' :
  spread_rules f rs ctx changed = inl (ctx', changed') → grows ctx ctx'.
Proof.
  revert ctx changed. induction rs as [|r rs IH]; intros ctx changed; cbn; [intros [= <- _]; apply grows_refl|].
  destruct (chain_index f (r_chain r)) as [source|]; [|done].
  pose proof (spread_verdicts_grows f source (r_expressions r ≫= verdicts f) ctx changed) as Hg.
  destruct (spread_verdicts _ _ _ _ _) as [ctx1 changed1]. intros H. eapply grows_trans; [exact Hg|eauto].
Qed.

(** A pass that reports no change was over a closed assignment. *)
Lemma spread_verdicts_fixed f source l ctx changed ctx' :
  spread_verdicts f source l ctx changed = (ctx', false) →
  changed = false ∧ ctx' = ctx
  ∧ ∀ v, v ∈ l → is_jump v = true → byte ctx source ⊑ᵇ byte ctx (default O (chain_index f (v_target v))).
Proof.
  revert ctx changed. induction l as [|v l IH]; intros ctx changed; cbn.
  { intros [= <- ->]. split; [done|]. split; [done|]. by intros ? ?%elem_of_nil. }
  destruct (is_jump v) eqn:Hj; cbn.
  - set (t := default O _). intros H. apply IH in H as (Hch & -> & Hl). apply orb_false_iff in Hch as [-> Ha].
    breflect. split; [done|]. rewrite Ha, Z.lor_0_r in *.
    assert (<[t := byte ctx t]> ctx = ctx) as E.
    { unfold byte. destruct (ctx !! t) eqn:Et; cbn; [by apply list_insert_id|].
      apply list_insert_ge. by apply lookup_ge_None. }
    rewrite E in Hl |- *. split; [done|]. intros x [->|Hx]%elem_of_cons; [|by apply Hl]. done.
  - intros (-> & -> & Hl)%IH. split; [done|]. split; [done|].
    intros x [->|Hx]%elem_of_cons Hjx; [congruence|by apply Hl].
Qed.
Lemma spread_rules_fixed f rs ctx changed ctx' :
  spread_rules f rs ctx changed = inl (ctx', false) →
  changed = false ∧ ctx' = ctx
  ∧ ∀ r e v i, r ∈ rs → chain_index f (r_chain r) = Some i → e ∈ r_expressions r → v ∈ verdicts f e →
      is_jump v = true → byte ctx i ⊑ᵇ byte ctx (default O (chain_index f (v_target v))).
Proof.
  revert ctx changed. induction rs as [|r rs IH]; intros ctx changed; cbn.
  { intros [= <- ->]. split; [done|]. split; [done|]. by intros ? ? ? ? ?%elem_of_nil. }
  destruct (chain_index f (r_chain r)) as [source|] eqn:Hs; [|done].
  destruct (spread_verdicts _ _ _ _ _) as [ctx1 changed1] eqn:Hv. intros H.
  apply IH in H as (-> & -> & Hl). apply spread_verdicts_fixed in Hv as (-> & -> & Hv).
  split; [done|]. split; [done|]. intros r' e v i [->|Hr]%elem_of_cons Hi He Hve Hj; [|by eapply Hl].
  assert (i = source) as -> by congruence. apply Hv; [|done]. apply list_elem_of_bind. eauto.
Qed.
Lemma propagate_fixed fuel f ctx ctx' :
  propagate fuel f ctx = Some (inl ctx') →
  grows ctx ctx' ∧ ∀ i j, jumps f i j → byte ctx' i ⊑ᵇ byte ctx' j.
Proof.
  revert ctx. induction fuel as [|fuel IH]; intros ctx; cbn; [done|].
  destruct (spread_rules f (f_rules f) ctx false) as [[ctx1 [|]]|] eqn:Hs; [| |done].
  - intros H. apply IH in H as [Hg Hc]. split; [|done]. eapply grows_trans; [by eapply spread_rules_grows|done].
  - intros [= <-]. apply spread_rules_fixed in Hs as (_ & -> & Hl). split; [apply grows_refl|].
    intros i j (r & e & v & Hr & Hi & He & Hv & Hj & Ht). specialize (Hl r e v i Hr Hi He Hv Hj). by rewrite Ht in Hl.
Qed.
Lemma closed_rtc f ctx i j :
  (∀ i j, jumps f i j → byte ctx i ⊑ᵇ byte ctx j) → rtc (jumps f) i j → byte ctx i ⊑ᵇ byte ctx j.
Proof. intros Hc. induction 1; [apply bits_le_refl|]. eapply bits_le_trans; [by apply Hc|done]. Qed.

Lemma hooks_check_ok f r context j es k e :
  hooks_check f r context j es = 0 → es !! k = Some e →
  match expression_allowed f r (j + k) e with inl (Some a) => context ⊑ᵇ a | inl None => True | inr _ => False end.
Proof.
  revert j k. induction es as [|x es IH]; intros j k; cbn; [done|].
  assert (∀ z, expression_allowed f r j x = inr z → z ≠ 0) as Hnz.
  { intros z. unfold expression_allowed. repeat case_if; intros [= <-]; done. }
  destruct (expression_allowed f r j x) as [[a|]|z] eqn:Ex.
  - destruct (Z.ldiff context a =? 0) eqn:Ea; cbn; [|done]. breflect. intros H. destruct k as [|k]; cbn.
    + intros [= <-]. rewrite Nat.add_0_r, Ex. done.
    + intros Hk. specialize (IH _ _ H Hk). by rewrite Nat.add_succ_r.
  - intros H. destruct k as [|k]; cbn.
    + intros [= <-]. by rewrite Nat.add_0_r, Ex.
    + intros Hk. specialize (IH _ _ H Hk). by rewrite Nat.add_succ_r.
  - intros ->. by destruct (Hnz 0 eq_refl).
Qed.
Lemma rules_check_ok f ctx rs r :
  rules_check f ctx rs = 0 → r ∈ rs →
  hooks_check f r (byte ctx (default O (chain_index f (r_chain r)))) 0 (r_expressions r) = 0.
Proof.
  induction rs as [|x rs IH]; cbn; [by intros _ ?%elem_of_nil|]. case_if; [done|].
  destruct (_ =? 0) eqn:E0; cbn; breflect; [|intros H; rewrite H in E0; done].
  intros H [->|Hr]%elem_of_cons; [done|by apply IH].
Qed.

(** ** The fixpoint ends: every pass that reports a change adds a context bit *)

Definition popcount (x : Z) : nat := length (filter (λ b, Z.testbit x b = true) (seqZ 0 10)).
#[local] Arguments popcount : simpl never.
Definition weight (ctx : list Z) : nat := sum_list_with popcount ctx.
Definition narrow (ctx : list Z) : Prop := Forall (λ x, x ⊑ᵇ 1023) ctx.

Lemma filter_length_le {A} (P Q : A → Prop) `{∀ x, Decision (P x), ∀ x, Decision (Q x)} (l : list A) :
  (∀ x, x ∈ l → P x → Q x) → (length (filter P l) ≤ length (filter Q l))%nat.
Proof.
  induction l as [|x l IH]; intros Hl; [done|].
  assert (length (filter P l) ≤ length (filter Q l))%nat by (apply IH; intros y Hy; apply Hl; by right).
  rewrite !filter_cons. repeat case_decide; cbn; try lia. exfalso. eauto using list_elem_of_here.
Qed.
Lemma filter_length_lt {A} (P Q : A → Prop) `{∀ x, Decision (P x), ∀ x, Decision (Q x)} (l : list A) y :
  (∀ x, x ∈ l → P x → Q x) → y ∈ l → Q y → ¬ P y → (length (filter P l) < length (filter Q l))%nat.
Proof.
  intros Hl [l1 [l2 ->]]%list_elem_of_split Hq Hp. rewrite !filter_app, !length_app.
  rewrite filter_cons_False, filter_cons_True by done. cbn.
  pose proof (filter_length_le P Q l1 ltac:(intros x Hx; apply Hl, elem_of_app; by left)).
  pose proof (filter_length_le P Q l2 ltac:(intros x Hx; apply Hl, elem_of_app; right; by right)). lia.
Qed.
Lemma narrow_bit x b : x ⊑ᵇ 1023 → Z.testbit x b = true → b ∈ seqZ 0 10.
Proof.
  intros Hx Hb. apply elem_of_seqZ. destruct (decide (b < 0)); [by rewrite Z.testbit_neg_r in Hb by done|].
  rewrite bits_le_spec in Hx. specialize (Hx b ltac:(lia) Hb). change 1023 with (Z.ones 10) in Hx.
  destruct (decide (b < 10)); [lia|]. by rewrite Z.ones_spec_high in Hx by lia.
Qed.
Lemma narrow_some_bit x : x ⊑ᵇ 1023 → x ≠ 0 → ∃ b, b ∈ seqZ 0 10 ∧ Z.testbit x b = true.
Proof.
  intros Hx Hne. destruct (decide (Exists (λ b, Z.testbit x b = true) (seqZ 0 10))) as [He|Hn].
  - apply Exists_exists in He. naive_solver.
  - exfalso. apply Hne, Z.bits_inj'. intros b Hb. rewrite Z.bits_0. destruct (Z.testbit x b) eqn:E; [|done].
    exfalso. apply Hn, Exists_exists. eauto using narrow_bit.
Qed.
Lemma popcount_le x y : x ⊑ᵇ y → (popcount x ≤ popcount y)%nat.
Proof.
  intros Hxy. apply filter_length_le. intros b [Hb _]%elem_of_seqZ. rewrite bits_le_spec in Hxy. auto.
Qed.
Lemma popcount_lor x s :
  s ⊑ᵇ 1023 → Z.ldiff s x ≠ 0 → (popcount x < popcount (Z.lor x (Z.ldiff s x)))%nat.
Proof.
  intros Hs Hne. destruct (narrow_some_bit (Z.ldiff s x)) as (b & Hin & Hb); [by apply bits_le_ldiff|done|].
  rewrite Z.ldiff_spec in Hb. breflect. apply (filter_length_lt _ _ _ b); [|done| |congruence].
  - intros y _ Hy. rewrite Z.lor_spec, Hy. done.
  - rewrite Z.lor_spec, Z.ldiff_spec. by rewrite H, H0, orb_true_r.
Qed.
Lemma weight_insert ctx t x :
  (t < length ctx)%nat → (weight (<[t := x]> ctx) + popcount (byte ctx t) = weight ctx + popcount x)%nat.
Proof.
  intros Ht. destruct (lookup_lt_is_Some_2 ctx t Ht) as [y Hy]. unfold byte. rewrite Hy. cbn.
  rewrite <- (take_drop_middle ctx t y Hy) at 2. rewrite insert_take_drop by done.
  unfold weight. rewrite !sum_list_with_app. cbn. lia.
Qed.
Lemma weight_bound ctx : (weight ctx ≤ 10 * length ctx)%nat.
Proof.
  unfold weight. induction ctx as [|x ctx IH]; cbn [sum_list_with length]; [lia|].
  assert (popcount x ≤ 10)%nat; [|lia]. unfold popcount. etrans; [apply length_filter|]. done.
Qed.
Lemma narrow_byte ctx i : narrow ctx → byte ctx i ⊑ᵇ 1023.
Proof.
  intros Hn. unfold byte. destruct (ctx !! i) eqn:E; cbn; [|apply bits_le_0]. unfold narrow in Hn.
  rewrite Forall_lookup in Hn. eauto.
Qed.

Lemma index_of_lt {A} (P : A → bool) l i : index_of P l = Some i → (i < length l)%nat.
Proof.
  revert i. induction l as [|x l IH]; intros i; cbn; [done|]. case_if; [intros [= <-]; lia|].
  destruct (index_of P l) as [j|]; [|done]. intros [= <-]. specialize (IH j eq_refl). lia.
Qed.
(** What a stretch of a pass does to the weight. *)
Definition progress (ctx : list Z) (changed : bool) (ctx' : list Z) (changed' : bool) : Prop :=
  narrow ctx' ∧ length ctx' = length ctx ∧ (weight ctx ≤ weight ctx')%nat
  ∧ (changed' = true → changed = true ∨ (weight ctx < weight ctx')%nat).
Lemma progress_trans a ca b cb c cc : progress a ca b cb → progress b cb c cc → progress a ca c cc.
Proof.
  intros (_ & La & Wa & Ha) (Nb & Lb & Wb & Hb). split; [done|]. split; [congruence|]. split; [lia|].
  intros [Hc|?]%Hb; [|right; lia]. destruct (Ha Hc); [by left|right; lia].
Qed.
Lemma spread_verdicts_progress f source l ctx changed :
  narrow ctx → (0 < length ctx)%nat → length ctx = length (f_chains f) →
  let '(ctx', changed') := spread_verdicts f source l ctx changed in progress ctx changed ctx' changed'.
Proof.
  revert ctx changed. induction l as [|v l IH]; intros ctx changed Hn Hpos Hlen; cbn; [by repeat split; auto|].
  case_if; [by apply IH|]. set (t := default O _).
  assert (t < length ctx)%nat as Ht.
  { unfold t. destruct (chain_index f (v_target v)) eqn:Ei; cbn; [|lia]. rewrite Hlen. by eapply index_of_lt. }
  set (added := Z.ldiff (byte ctx source) (byte ctx t)).
  assert (progress ctx changed (<[t := Z.lor (byte ctx t) added]> ctx) (changed || negb (added =? 0))) as Hp.
  { repeat split.
    - apply Forall_insert; [done|]. apply bits_le_lor; [by apply narrow_byte|]. apply bits_le_ldiff. by apply narrow_byte.
    - apply length_insert.
    - pose proof (weight_insert ctx t (Z.lor (byte ctx t) added) Ht).
      pose proof (popcount_le (byte ctx t) (Z.lor (byte ctx t) added) (bits_le_lor_l _ _ _ (bits_le_refl _))). lia.
    - intros [?|Ha]%orb_true_iff; [by left|]. breflect. right.
      pose proof (weight_insert ctx t (Z.lor (byte ctx t) added) Ht).
      pose proof (popcount_lor (byte ctx t) (byte ctx source) (narrow_byte _ _ Hn) Ha) as Hpc. fold added in Hpc. lia. }
  destruct Hp as (Hn' & Hl' & Hw). specialize (IH (<[t := Z.lor (byte ctx t) added]> ctx) (changed || negb (added =? 0)) Hn' ltac:(lia) ltac:(lia)).
  destruct (spread_verdicts _ _ _ _ _) as [ctx' changed']. eapply progress_trans; [|exact IH]. by split.
Qed.
Lemma spread_rules_progress f rs ctx changed ctx' changed' :
  narrow ctx → length ctx = length (f_chains f) →
  spread_rules f rs ctx changed = inl (ctx', changed') → progress ctx changed ctx' changed'.
Proof.
  revert ctx changed. induction rs as [|r rs IH]; intros ctx changed Hn Hlen; cbn.
  { intros [= <- <-]. by repeat split; auto. }
  destruct (chain_index f (r_chain r)) as [source|] eqn:Hs; [|done]. apply index_of_lt in Hs.
  pose proof (spread_verdicts_progress f source (r_expressions r ≫= verdicts f) ctx changed Hn ltac:(lia) Hlen) as Hp.
  destruct (spread_verdicts _ _ _ _ _) as [ctx1 changed1]. intros H. eapply progress_trans; [exact Hp|].
  destruct Hp as (? & ? & _). apply IH; [done|congruence|done].
Qed.
Lemma propagate_total fuel f ctx :
  narrow ctx → length ctx = length (f_chains f) → (10 * length ctx < weight ctx + fuel)%nat →
  is_Some (propagate fuel f ctx).
Proof.
  revert ctx. induction fuel as [|fuel IH]; intros ctx Hn Hlen Hw; cbn.
  { pose proof (weight_bound ctx). lia. }
  destruct (spread_rules f (f_rules f) ctx false) as [[ctx' [|]]|] eqn:Hs; [|done|done].
  destruct (spread_rules_progress _ _ _ _ _ _ Hn Hlen Hs) as (? & E & ? & Hlt). destruct (Hlt eq_refl) as [?|?]; [done|].
  apply IH; [done|congruence|]. rewrite E. lia.
Qed.

Lemma contexts_narrow f : Forall (λ c, c_hook c < NF_INET_NUMHOOKS) (f_chains f) → narrow (contexts_initial f).
Proof.
  intros Hh. apply Forall_fmap. eapply Forall_impl; [exact Hh|]. intros c Hc. cbn. unfold context_of.
  destruct (0 <=? c_hook c) eqn:E; [|apply bits_le_0]. breflect. unfold NF_INET_NUMHOOKS in *.
  assert (∃ k, 0 ≤ k < 10 ∧ c_hook c + (if c_nat c then 0 else 5) = k) as (k & Hk & ->) by (eexists; split; [|done]; case_if; lia).
  apply bits_le_spec. intros i Hi. unfold bit. rewrite Z.shiftl_1_l. destruct (decide (k = i)) as [<-|].
  - intros _. change 1023 with (Z.ones 10). by rewrite Z.ones_spec_low by lia.
  - by rewrite Z.pow2_bits_false.
Qed.

(** ** Validated rulesets *)

(** Every jump of chain [i] lands on an existing regular chain of its table with
    a smaller rank, and every set it refers to exists. *)
Definition well_ranked (f : md_network_filter) (rank : nat → Z) : Prop :=
  ∀ i c r e, f_chains f !! i = Some c → r ∈ f_rules f → r_chain r = c_handle c → e ∈ r_expressions r →
    (∀ v, v ∈ verdicts f e → is_jump v = true →
       ∃ j t, chain_index f (v_target v) = Some j ∧ f_chains f !! j = Some t
         ∧ c_table t = c_table c ∧ c_hook t < 0 ∧ rank j < rank i)
    ∧ (md_filter_set_expression e = true → set_found f c e = true)
    ∧ (e_code e = MD_FILTER_IPSET → ipset_found f e = true).
Lemma validate_ranked f :
  md_filter_validate f = 0 →
  ∃ rank, well_ranked f rank ∧ ∀ i, (i < length (f_chains f))%nat → 0 ≤ rank i ≤ 16.
Proof.
  unfold md_filter_validate. destruct (sets_check (f_sets f) =? 0) eqn:Es; cbn; breflect; [|done].
  destruct (chains_check _ _ _) as [vs error] eqn:Hc.
  destruct (error =? 0) eqn:Ee; cbn; breflect; [subst error|done]. intros _.
  assert (vinv f (mk_vstate ∅ ∅)) as Hv0.
  { split; unfold colour, height; cbn; intros i; rewrite lookup_empty; cbn; auto; lia. }
  destruct (chains_check_ok f _ _ _ Hv0 Hc) as (Hv & _ & Hall). exists (height vs). split.
  - intros i c r e Hi Hr Hrc He. destruct (Hall i) as [Hdone _].
    { apply elem_of_seq. apply lookup_lt_Some in Hi. lia. }
    pose proof (vi_done _ _ Hv i Hdone c Hi) as Hrs. rewrite Forall_forall in Hrs. specialize (Hrs r Hr Hrc).
    rewrite Forall_forall in Hrs. destruct (Hrs e He) as (Hvs & Hse & Hie). split; [|done].
    rewrite Forall_forall in Hvs. intros v Hin Hj. destruct (Hvs v Hin Hj) as (j & t & ? & ? & ? & ? & _ & ?). eauto 8.
  - intros i Hi. destruct (Hall i) as [_ ?]; [apply elem_of_seq; lia|]. split; [apply (vi_height _ _ Hv)|done].
Qed.
Lemma validate_sorted f s : md_filter_validate f = 0 → s ∈ f_sets f → elements_sorted s.
Proof.
  unfold md_filter_validate. destruct (sets_check (f_sets f) =? 0) eqn:Es; cbn; breflect; [|done].
  intros _. by apply sets_check_sorted.
Qed.

Lemma bit_le_inj a b : 0 ≤ a → 0 ≤ b → bit a ⊑ᵇ bit b → a = b.
Proof.
  intros Ha Hb. unfold bit. rewrite !Z.shiftl_1_l, bits_le_spec. intros H. specialize (H a Ha).
  rewrite Z.pow2_bits_true in H by done. destruct (decide (a = b)); [done|].
  rewrite Z.pow2_bits_false in H by done. by specialize (H eq_refl).
Qed.
Lemma spread_rules_error f rs ctx changed e : spread_rules f rs ctx changed = inr e → e ≠ 0.
Proof.
  revert ctx changed. induction rs as [|r rs IH]; intros ctx changed; cbn; [done|].
  destruct (chain_index f (r_chain r)); [|by intros [= <-]]. destruct (spread_verdicts _ _ _ _ _). eauto.
Qed.
Lemma propagate_error fuel f ctx : propagate fuel f ctx ≠ Some (inr 0).
Proof.
  revert ctx. induction fuel as [|fuel IH]; intros ctx; cbn; [done|].
  destruct (spread_rules f (f_rules f) ctx false) as [[ctx' [|]]|e] eqn:Hs; [apply IH|done|].
  intros [= ->]. by apply spread_rules_error in Hs.
Qed.

Lemma validate_contexts f :
  md_filter_validate f = 0 →
  ∃ ctx, propagate (context_fuel f) f (contexts_initial f) = Some (inl ctx) ∧ rules_check f ctx (f_rules f) = 0.
Proof.
  unfold md_filter_validate. destruct (sets_check (f_sets f) =? 0) eqn:Es; cbn [negb]; breflect; [|done].
  destruct (chains_check _ _ _) as [vs error]. destruct (error =? 0) eqn:Ee; cbn [negb]; breflect; [|done].
  destruct (propagate _ _ _) as [[ctx|e]|] eqn:Hp; [eauto| |done]. intros ->. by destruct (propagate_error _ _ _ Hp).
Qed.

(** ** Properties *)

(** C28: a ruleset that validation accepts has no jump cycle: its chains can be ranked
    from 0 to 16 so that every jump, taken directly or through a verdict map,
    leads to an existing regular chain of the same table with a smaller rank;
    and every set a rule refers to exists. *)
Theorem filter_validate_ranked f :
  md_filter_validate f = 0 →
  ∃ rank, well_ranked f rank ∧ ∀ i, (i < length (f_chains f))%nat → 0 ≤ rank i ≤ 16.
Proof. apply validate_ranked. Qed.


(** A NAT base chain at post-routing that jumps to a chain with a masquerade rule. *)
Definition sample_expression (code : md_filter_opcode) (operation target : Z) : md_filter_expression :=
  mk_expression code 0 0 0 0 operation 0 0 0 0 0 0 target [] [] (mk_transport (0, 0) (0, 0) 0 0)
    (mk_multiport [] 0 0 0 0) (mk_log 0 "") (mk_physdev [] [] 0 0) [].
Definition sample_filter : md_network_filter :=
  mk_filter 1 6 [mk_table 1 NFPROTO_INET "nat" []] 1
    [mk_chain 1 2 0 "post" NF_INET_POST_ROUTING 100 true false NF_ACCEPT false [];
     mk_chain 1 3 0 "local" (-1) 0 false false NF_ACCEPT false []] 2
    [mk_rule 2 4 0 [sample_expression MD_FILTER_VERDICT (wrap32 NFT_JUMP) 3] [] [];
     mk_rule 3 5 0 [sample_expression MD_FILTER_MASQUERADE 0 0] [] []] 2 [] 0.
Lemma filter_validate_ranked_witness : ∃ rank, well_ranked sample_filter rank.
Proof.
  destruct (filter_validate_ranked sample_filter) as (rank & H & _); [vm_compute; reflexivity|]. by exists rank.
Defined.
