(* ===== verification/FilterEval.v ===== *)
(** * Ruleset evaluation (network_filter_program.c, second half)

    [evaluate_chain] interprets the rules of a chain over a packet description;
    [md_filter_evaluate_transition] runs the base chains of a hook in priority
    order around the retained address translation of the connection.

    The fields of the packet that a rule or the hook can rewrite are grouped:
    [packet_flow] is also the payload of [md_filter_rewrite].  What the C code
    asks of its surroundings -- route lookup, source port allocation, the clock,
    the random generator, memory -- is the record [filter_env].  The mutable
    union members of expressions ([limit], [counter]) are cells addressed by rule
    and expression index; collected counters are such addresses.  The depth of
    the C recursion is [17 - budget], as in validation. *)
From S2P Require Import Prelude NetworkIp NetworkFilter FilterValidate.

Definition NFT_META_MARK : Z := 3.
Definition NFT_META_IIF : Z := 4.
Definition NFT_META_OIF : Z := 5.
Definition NFT_META_IIFNAME : Z := 6.
Definition NFT_META_OIFNAME : Z := 7.
Definition NFT_META_NFPROTO : Z := 15.
Definition NFT_META_PKTTYPE : Z := 19.
Definition NFT_CT_STATE : Z := 0.
Definition NFT_CT_MARK : Z := 3.
Definition NFT_RANGE_EQ : Z := 0.
Definition XT_PHYSDEV_OP_IN : Z := 1.
Definition XT_PHYSDEV_OP_OUT : Z := 2.
Definition XT_PHYSDEV_OP_BRIDGED : Z := 4.
Definition XT_PHYSDEV_OP_ISIN : Z := 8.
Definition XT_PHYSDEV_OP_ISOUT : Z := 16.
Definition XT_RPFILTER_LOOSE : Z := 1.
Definition XT_RPFILTER_VALID_MARK : Z := 2.
Definition XT_RPFILTER_ACCEPT_LOCAL : Z := 4.
Definition XT_RPFILTER_INVERT : Z := 8.
Definition RTN_UNICAST : Z := 1.
Definition RTN_LOCAL : Z := 2.
Definition PACKET_BROADCAST : Z := 1.
Definition PACKET_MULTICAST : Z := 2.
Definition MD_FILTER_INVERT_SOURCE : Z := 1.
Definition MD_FILTER_INVERT_DESTINATION : Z := 2.

Record packet_flow := mk_flow {
  fl_source : md_ip_address; fl_destination : md_ip_address;
  fl_fib_type : Z; fl_source_fib_type : Z;
  fl_source_port : list Z; fl_destination_port : list Z }.
Record packet_marks := mk_marks {
  pm_mark : Z; pm_ctmark : Z; pm_status : Z;
  pm_snat : bool; pm_dnat : bool; pm_masquerade : bool;
  pm_rejection : md_network_rejection; pm_output : Z; pm_output_name : list Z; pm_hook : Z }.
Record packet_info := mk_info {
  pi_protocol : Z; pi_state : Z; pi_input : Z; pi_packet_type : Z;
  pi_transport : list Z; pi_transport_size : nat; pi_input_name : list Z;
  pi_physical : Z * Z; pi_bridged : bool; pi_physical_name : list (list Z);
  pi_masquerade_address : md_ip_address; pi_unmediated : bool }.
Record md_filter_packet := mk_packet { p_flow : packet_flow; p_marks : packet_marks; p_info : packet_info }.
Record md_filter_route_result := mk_route { rt_type : Z; rt_interface : Z; rt_name : list Z }.
Record md_filter_rewrite := mk_rewrite { rw_flow : packet_flow; rw_priority : Z }.

Record filter_env := mk_env {
  fe_route : option (md_filter_packet → Z → md_filter_route_result);
  fe_source_nat : option (md_filter_packet → Z → Z → md_filter_packet * Z);
  fe_log : bool;
  fe_clock : nat → Z;
  fe_random : nat → Z → Z;
  fe_realloc : nat → bool }.

(** The counter of an expression or of a base chain. *)
Inductive cell := RuleCell (rule expression : nat) | ChainCell (chain : nat).
#[export] Instance cell_eq : EqDecision cell.
Proof. solve_decision. Defined.
#[export] Instance cell_countable : Countable cell.
Proof.
  apply (inj_countable' (λ c, match c with RuleCell r e => inl (r, e) | ChainCell i => inr i end)
    (λ x, match x with inl (r, e) => RuleCell r e | inr i => ChainCell i end)). by intros [].
Qed.
(** [None]: no accounting requested. *)
Record md_filter_accounting := mk_accounting { ac_cells : list cell; ac_capacity : Z }.
Record eval_state := mk_eval {
  es_packet : md_filter_packet;
  es_limits : gmap (nat * nat) md_filter_limit;
  es_accounting : option md_filter_accounting;
  es_logged : list (md_filter_packet * md_filter_log);
  es_clocks : nat; es_draws : nat; es_allocations : nat }.

Definition with_packet (st : eval_state) (p : md_filter_packet) : eval_state :=
  mk_eval p (es_limits st) (es_accounting st) (es_logged st) (es_clocks st) (es_draws st) (es_allocations st).
Definition with_flow (p : md_filter_packet) (x : packet_flow) : md_filter_packet := mk_packet x (p_marks p) (p_info p).
Definition with_marks (p : md_filter_packet) (x : packet_marks) : md_filter_packet := mk_packet (p_flow p) x (p_info p).
Definition set_source (p : md_filter_packet) (a : md_ip_address) : md_filter_packet :=
  let x := p_flow p in with_flow p (mk_flow a (fl_destination x) (fl_fib_type x) (fl_source_fib_type x)
    (fl_source_port x) (fl_destination_port x)).
Definition set_destination (p : md_filter_packet) (a : md_ip_address) : md_filter_packet :=
  let x := p_flow p in with_flow p (mk_flow (fl_source x) a (fl_fib_type x) (fl_source_fib_type x)
    (fl_source_port x) (fl_destination_port x)).
Definition set_source_port (p : md_filter_packet) (b : list Z) : md_filter_packet :=
  let x := p_flow p in with_flow p (mk_flow (fl_source x) (fl_destination x) (fl_fib_type x) (fl_source_fib_type x)
    b (fl_destination_port x)).
Definition set_destination_port (p : md_filter_packet) (b : list Z) : md_filter_packet :=
  let x := p_flow p in with_flow p (mk_flow (fl_source x) (fl_destination x) (fl_fib_type x) (fl_source_fib_type x)
    (fl_source_port x) b).
Definition set_mark (p : md_filter_packet) (v : Z) : md_filter_packet :=
  let x := p_marks p in with_marks p (mk_marks v (pm_ctmark x) (pm_status x) (pm_snat x) (pm_dnat x) (pm_masquerade x)
    (pm_rejection x) (pm_output x) (pm_output_name x) (pm_hook x)).
Definition set_ctmark (p : md_filter_packet) (v : Z) : md_filter_packet :=
  let x := p_marks p in with_marks p (mk_marks (pm_mark x) v (pm_status x) (pm_snat x) (pm_dnat x) (pm_masquerade x)
    (pm_rejection x) (pm_output x) (pm_output_name x) (pm_hook x)).
Definition set_rejection (p : md_filter_packet) (v : md_network_rejection) : md_filter_packet :=
  let x := p_marks p in with_marks p (mk_marks (pm_mark x) (pm_ctmark x) (pm_status x) (pm_snat x) (pm_dnat x)
    (pm_masquerade x) v (pm_output x) (pm_output_name x) (pm_hook x)).
Definition set_nat (p : md_filter_packet) (snat dnat masquerade : bool) (status : Z) : md_filter_packet :=
  let x := p_marks p in with_marks p (mk_marks (pm_mark x) (pm_ctmark x) (Z.lor (pm_status x) status)
    (pm_snat x || snat) (pm_dnat x || dnat) (pm_masquerade x || masquerade)
    (pm_rejection x) (pm_output x) (pm_output_name x) (pm_hook x)).
Definition set_output (p : md_filter_packet) (output : Z) (name : list Z) : md_filter_packet :=
  let x := p_marks p in with_marks p (mk_marks (pm_mark x) (pm_ctmark x) (pm_status x) (pm_snat x) (pm_dnat x)
    (pm_masquerade x) (pm_rejection x) output name (pm_hook x)).
Definition enter_hook (p : md_filter_packet) (hook : Z) : md_filter_packet :=
  let x := p_marks p in with_marks p (mk_marks (pm_mark x) (pm_ctmark x) (pm_status x) (pm_snat x) (pm_dnat x)
    (pm_masquerade x) (mk_rejection 0 0) (pm_output x) (pm_output_name x) hook).

(** ** Counters *)

Definition account_counter (env : filter_env) (st : eval_state) (c : cell) : eval_state * Z :=
  if pi_unmediated (p_info (es_packet st)) then (st, 0)
  else match es_accounting st with
  | None => (st, 0)
  | Some a =>
      let n := es_allocations st in
      match md_filter_reserve (ac_capacity a) (Z.of_nat (length (ac_cells a)) + 1) 1024 (fe_realloc env n) with
      | inr e => (mk_eval (es_packet st) (es_limits st) (es_accounting st) (es_logged st) (es_clocks st)
                    (es_draws st) (S n), e)
      | inl capacity => (mk_eval (es_packet st) (es_limits st) (Some (mk_accounting (ac_cells a ++ [c]) capacity))
                           (es_logged st) (es_clocks st) (es_draws st) (S n), 0)
      end
  end.
Definition count (bytes : Z) (x : md_filter_counter) : md_filter_counter :=
  mk_counter (wrap64 (ctr_packets x + 1)) (wrap64 (ctr_bytes x + bytes)).
Definition md_filter_account (counters : gmap cell md_filter_counter) (a : md_filter_accounting) (bytes : Z)
    : gmap cell md_filter_counter :=
  foldl (λ m c, alter (count bytes) c m) counters (ac_cells a).

(** ** Matches *)

Definition reverse_path (env : filter_env) (p : md_filter_packet) (flags : Z) : bool :=
  let input := pi_input (p_info p) in
  let source := fl_source (p_flow p) in
  let type := pi_packet_type (p_info p) in
  if input =? 0 then false
  else if input =? 1 then true
  else if md_ip_unspecified source
          && ((ip_family source =? AF_INET6) || (type =? PACKET_BROADCAST) || (type =? PACKET_MULTICAST)) then true
  else match fe_route env with
  | None => false
  | Some route =>
      let query := NFTA_FIB_F_SADDR in
      let query := if negb (has_bits flags XT_RPFILTER_LOOSE) || md_ip_linklocal source
                   then Z.lor query NFTA_FIB_F_IIF else query in
      let query := if has_bits flags XT_RPFILTER_VALID_MARK then Z.lor query NFTA_FIB_F_MARK else query in
      let r := route p query in
      if negb (rt_type r =? RTN_UNICAST)
         && negb ((rt_type r =? RTN_LOCAL) && has_bits flags XT_RPFILTER_ACCEPT_LOCAL) then false
      else negb (rt_interface r =? 0)
  end.
Fixpoint masked_same (n : nat) (name rule mask : list Z) : bool :=
  match n with
  | O => true
  | S n => (Z.land (Z.lxor (byte name 0) (byte rule 0)) (byte mask 0) =? 0) && masked_same n (tail name) (tail rule) (tail mask)
  end.
Definition match_physdev (p : md_filter_packet) (v : md_filter_physdev) : bool :=
  let i := p_info p in
  let nth l := default [] (l : option (list Z)) in
  let same (k : nat) (physical : Z) :=
    negb (physical =? 0) && masked_same 16 (nth (pi_physical_name i !! k)) (nth (pd_names v !! k)) (nth (pd_masks v !! k)) in
  let observed :=
    Z.lor (Z.lor (if fst (pi_physical i) =? 0 then 0 else XT_PHYSDEV_OP_ISIN)
                 (if snd (pi_physical i) =? 0 then 0 else XT_PHYSDEV_OP_ISOUT))
          (if pi_bridged i then XT_PHYSDEV_OP_BRIDGED else 0) in
  let observed := if same 0%nat (fst (pi_physical i)) then Z.lor observed XT_PHYSDEV_OP_IN else observed in
  let observed := if same 1%nat (snd (pi_physical i)) then Z.lor observed XT_PHYSDEV_OP_OUT else observed in
  Z.land (Z.lxor observed (pd_invert v)) (pd_flags v) =? pd_flags v.
Definition match_limit (l : md_filter_limit) (now : Z) : md_filter_limit * bool :=
  let elapsed := if lm_previous l <=? now then now - lm_previous l else 0 in
  let credit := if wrap64 (lm_capacity l - lm_credit l) <=? elapsed then lm_capacity l
                else wrap64 (lm_credit l + elapsed) in
  if lm_cost l <=? credit then (mk_limit (lm_cost l) (lm_capacity l) (credit - lm_cost l) now, true)
  else (mk_limit (lm_cost l) (lm_capacity l) credit now, false).
Definition match_icmp (p : md_filter_packet) (e : md_filter_expression) : bool :=
  let t := pi_transport (p_info p) in
  let v := e_value e in
  let matches := ((e_key e =? IPPROTO_ICMP) && (byte v 0 =? 255))
    || ((byte t 0 =? byte v 0) && (byte v 1 <=? byte t 1) && (byte t 1 <=? byte v 2)) in
  (pi_protocol (p_info p) =? e_key e) && (2 <=? pi_transport_size (p_info p))%nat
  && negb (eqb matches (negb (byte v 3 =? 0))).
Definition match_transport (p : md_filter_packet) (t : md_filter_transport) : bool :=
  (pi_protocol (p_info p) =? tr_protocol t)
  && md_filter_port_matches (ntohs (fl_source_port (p_flow p))) (tr_source t)
       (has_bits (tr_inversion t) MD_FILTER_INVERT_SOURCE)
  && md_filter_port_matches (ntohs (fl_destination_port (p_flow p))) (tr_destination t)
       (has_bits (tr_inversion t) MD_FILTER_INVERT_DESTINATION).
Definition match_multiport (p : md_filter_packet) (m : md_filter_multiport) : bool :=
  let found := (negb (mp_direction m =? 1) && md_filter_multiport_contains m (ntohs (fl_source_port (p_flow p))))
    || (negb (mp_direction m =? 0) && md_filter_multiport_contains m (ntohs (fl_destination_port (p_flow p)))) in
  ((pi_protocol (p_info p) =? IPPROTO_TCP) || (pi_protocol (p_info p) =? IPPROTO_UDP))
  && negb (eqb found (negb (mp_invert m =? 0))).
Definition match_address_type (p : md_filter_packet) (e : md_filter_expression) : bool :=
  ((e_key e =? 0) || negb (eqb (has_bits (e_key e) (bit (fl_source_fib_type (p_flow p))))
                             (has_bits (e_operation e) MD_FILTER_INVERT_SOURCE)))
  && ((e_aux e =? 0) || negb (eqb (has_bits (e_aux e) (bit (fl_fib_type (p_flow p))))
                                (has_bits (e_operation e) MD_FILTER_INVERT_DESTINATION))).

(** ** Registers *)

Definition round4 (n : nat) : nat := ((n + 3) / 4 * 4)%nat.
(** memset of the padded size, then memcpy. *)
Definition store (regs : list Z) (dst : nat) (b : list Z) : list Z :=
  copy_at (copy_at regs dst (zeros (round4 (length b)))) dst b.
Definition load (regs : list Z) (src n : nat) : list Z := take n (drop src regs).

(** The header bytes an nft payload expression sees; [None]: outside the packet. *)
Definition payload_header (p : md_filter_packet) (e : md_filter_expression) : option (list Z) :=
  let flow := p_flow p in
  let protocol := pi_protocol (p_info p) in
  if e_key e =? NFT_PAYLOAD_NETWORK_HEADER then
    Some (if ip_family (fl_destination flow) =? AF_INET6 then
            copy_at (copy_at (<[6%nat := Z.land protocol 255]> (<[0%nat := 96]> (zeros 40)))
              8 (take 16 (ip_bytes (fl_source flow)))) 24 (take 16 (ip_bytes (fl_destination flow)))
          else
            copy_at (copy_at (<[9%nat := Z.land protocol 255]> (<[0%nat := 69]> (zeros 40)))
              12 (take 4 (ip_bytes (fl_source flow)))) 16 (take 4 (ip_bytes (fl_destination flow))))
  else if (protocol =? IPPROTO_TCP) || (protocol =? IPPROTO_UDP) then
    Some (copy_at (copy_at (zeros 40) 0 (fl_source_port flow)) 2 (fl_destination_port flow))
  else if Z.of_nat (pi_transport_size (p_info p)) <? wrap32 (e_aux e + Z.of_nat (e_size e)) then None
  else Some (copy_at (zeros 40) 0 (take (pi_transport_size (p_info p)) (pi_transport (p_info p)))).
Definition payload_limit (p : md_filter_packet) (e : md_filter_expression) : Z :=
  if e_key e =? NFT_PAYLOAD_NETWORK_HEADER then (if ip_family (fl_destination (p_flow p)) =? AF_INET6 then 40 else 20)
  else 4.
Definition load_payload (p : md_filter_packet) (e : md_filter_expression) (regs : list Z) : option (list Z) :=
  header ← payload_header p e;
  if payload_limit p e <? wrap32 (e_aux e + Z.of_nat (e_size e)) then None
  else Some (store regs (e_dst e) (load header (Z.to_nat (e_aux e)) (e_size e))).

Definition meta_value (p : md_filter_packet) (key : Z) : Z :=
  if key =? NFT_META_NFPROTO then (if ip_family (fl_destination (p_flow p)) =? AF_INET6 then NFPROTO_IPV6 else NFPROTO_IPV4)
  else if key =? NFT_META_L4PROTO then pi_protocol (p_info p)
  else if key =? NFT_META_PKTTYPE then pi_packet_type (p_info p)
  else if key =? NFT_META_MARK then pm_mark (p_marks p)
  else if key =? NFT_META_IIF then pi_input (p_info p)
  else if key =? NFT_META_OIF then pm_output (p_marks p)
  else 0.
Definition load_meta (p : md_filter_packet) (e : md_filter_expression) (regs : list Z) : list Z :=
  let regs := if e_key e =? NFT_META_IIFNAME then copy_at regs (e_dst e) (pi_input_name (p_info p))
              else if e_key e =? NFT_META_OIFNAME then copy_at regs (e_dst e) (pm_output_name (p_marks p))
              else regs in
  if (e_size e <=? 4)%nat then copy_at regs (e_dst e) (u32_bytes (meta_value p (e_key e))) else regs.
(** MD_FILTER_META_SET and MD_FILTER_CT_SET. *)
Definition store_mark (p : md_filter_packet) (e : md_filter_expression) (regs : list Z) : md_filter_packet :=
  let meta := opcode e MD_FILTER_META_SET in
  let own := if meta then pm_mark (p_marks p) else pm_ctmark (p_marks p) in
  let other := if meta then pm_ctmark (p_marks p) else pm_mark (p_marks p) in
  let value :=
    if e_constant e =? 0 then u32_of (load regs (e_src e) 4)
    else
      let v := if e_constant e =? 2 then Z.land other (e_aux e) else u32_of (e_value e) in
      Z.lxor (Z.ldiff own (u32_of (e_mask e))) v in
  if meta then set_mark p value else set_ctmark p value.
Definition load_fib (env : filter_env) (p : md_filter_packet) (e : md_filter_expression) (regs : list Z) : list Z :=
  let route := match fe_route env with
               | Some route => route p (e_operation e)
               | None => mk_route (if has_bits (e_operation e) NFTA_FIB_F_SADDR then fl_source_fib_type (p_flow p)
                                   else fl_fib_type (p_flow p)) 0 (zeros 16)
               end in
  let regs := copy_at regs (e_dst e) (zeros (e_size e)) in
  if e_key e =? NFT_FIB_RESULT_ADDRTYPE then copy_at regs (e_dst e) (u32_bytes (rt_type route))
  else if has_bits (e_operation e) NFTA_FIB_F_PRESENT
  then copy_at regs (e_dst e) (u32_bytes (if rt_interface route =? 0 then 0 else 1))
  else if e_key e =? NFT_FIB_RESULT_OIFNAME then copy_at regs (e_dst e) (rt_name route)
  else copy_at regs (e_dst e) (u32_bytes (rt_interface route)).
Fixpoint bitwise (n : nat) (src mask value : list Z) : list Z :=
  match n with
  | O => []
  | S n => Z.lxor (Z.land (byte src 0) (byte mask 0)) (byte value 0) :: bitwise n (tail src) (tail mask) (tail value)
  end.

(** ** Address translation *)

Definition source_nat (env : filter_env) (e : md_filter_expression) (regs : list Z) (st : eval_state) : eval_state * Z :=
  let p := es_packet st in
  let protocol := pi_protocol (p_info p) in
  if negb (protocol =? IPPROTO_TCP) && negb (protocol =? IPPROTO_UDP)
  then (st, if negb (e_aux e =? 0) || negb (e_nat_flags e =? 0) then - EOPNOTSUPP else 0)
  else
    let port := ntohs (fl_source_port (p_flow p)) in
    let '(low, high) :=
      if negb (e_aux e =? 0) then
        let first := if e_constant e =? 0 then load regs (e_src e) 2 else e_nat_port e in
        let last := if e_port_range e =? 0 then first
                    else if e_constant e =? 0 then load regs (Z.to_nat (e_port_max e)) 2
                    else le16 (e_port_max e) in
        (ntohs first, ntohs last)
      else (if port <? 512 then 1 else if port <? 1024 then 600 else 1024,
            if port <? 512 then 511 else if port <? 1024 then 1023 else 65535) in
    if negb (e_aux e =? 0) && (high <? low) then (st, - EINVAL)
    else
      let '(st, port) :=
        if negb (e_nat_flags e =? 0) then
          let port := low + fe_random env (es_draws st) (high - low + 1) in
          (mk_eval (set_source_port p (htons port)) (es_limits st) (es_accounting st) (es_logged st) (es_clocks st)
             (S (es_draws st)) (es_allocations st), port)
        else (st, port) in
      match fe_source_nat env with
      | Some allocate => let '(p', r) := allocate (es_packet st) low high in (with_packet st p', r)
      | None => if (port <? low) || (high <? port)
                then (with_packet st (set_source_port (es_packet st) (htons low)), 0) else (st, 0)
      end.
Definition nat_address (a : md_ip_address) (e : md_filter_expression) (regs : list Z) : md_ip_address :=
  if e_key e =? 0 then a
  else mk_ip (ip_family a)
    (copy_at (ip_bytes a) 0 (take (md_ip_size a) (if e_constant e =? 0 then drop (e_dst e) regs else e_value e))).

(** ** One expression *)

Inductive outcome :=
  | Continue (regs : list Z) (matched : bool)
  | Verdict (verdict : Z).

(** MD_FILTER_NAT; the family guard is the caller's. *)
Definition do_nat (env : filter_env) (e : md_filter_expression) (regs : list Z) (st : eval_state) : eval_state * outcome :=
  let p := es_packet st in
  if e_operation e =? NFT_NAT_DNAT then
    let p := set_destination p (nat_address (fl_destination (p_flow p)) e regs) in
    let p := if e_aux e =? 0 then p
             else set_destination_port p (if e_constant e =? 0 then load regs (e_src e) 2 else e_nat_port e) in
    (with_packet st (set_nat p false true false (bit 5)), Verdict NF_ACCEPT)
  else
    let st := with_packet st (set_source p (nat_address (fl_source (p_flow p)) e regs)) in
    let '(st, error) := source_nat env e regs st in
    if negb (error =? 0) then (st, Verdict error)
    else (with_packet st (set_nat (es_packet st) true false false (bit 4)), Verdict NF_ACCEPT).
Definition do_masquerade (env : filter_env) (e : md_filter_expression) (regs : list Z) (st : eval_state)
    : eval_state * outcome :=
  let st := with_packet st (set_source (es_packet st) (pi_masquerade_address (p_info (es_packet st)))) in
  let '(st, error) := source_nat env e regs st in
  if negb (error =? 0) then (st, Verdict error)
  else (with_packet st (set_nat (es_packet st) true false true (bit 4)), Verdict NF_ACCEPT).
Definition do_limit (env : filter_env) (at_ : nat * nat) (regs : list Z) (st : eval_state) : eval_state * outcome :=
  if pi_unmediated (p_info (es_packet st)) then (st, Verdict (- EBUSY))
  else
    let '(l, matched) := match_limit (default (mk_limit 0 0 0 0) (es_limits st !! at_)) (fe_clock env (es_clocks st)) in
    (mk_eval (es_packet st) (<[at_ := l]> (es_limits st)) (es_accounting st) (es_logged st) (S (es_clocks st))
       (es_draws st) (es_allocations st), Continue regs matched).
Definition do_log (env : filter_env) (e : md_filter_expression) (regs : list Z) (st : eval_state) : eval_state * outcome :=
  if pi_unmediated (p_info (es_packet st)) then (st, Verdict (- EBUSY))
  else (mk_eval (es_packet st) (es_limits st) (es_accounting st)
          (if fe_log env then es_logged st ++ [(es_packet st, e_log e)] else es_logged st)
          (es_clocks st) (es_draws st) (es_allocations st), Continue regs true).
(** A verdict, given directly or found in a map. *)
Definition do_verdict (f : md_network_filter) (jump : md_filter_chain → eval_state → eval_state * Z) (c : md_filter_chain)
    (v : md_filter_verdict) (regs : list Z) (st : eval_state) : eval_state * outcome :=
  let operation := to_int (v_operation v) in
  if (operation =? NFT_JUMP) || (operation =? NFT_GOTO) then
    match md_filter_chain_find (Some f) (c_table c) None (v_target v) 0 with
    | None => (st, Verdict (- ENOENT))
    | Some target =>
        let '(st, verdict) := jump target st in
        if negb (verdict =? NFT_RETURN) || (operation =? NFT_GOTO) then (st, Verdict verdict)
        else (st, Continue regs true)
    end
  else if operation =? NFT_BREAK then (st, Continue regs false)
  else if operation =? NFT_CONTINUE then (st, Continue regs true)
  else (st, Verdict operation).

Definition differs (b : bool) (flag : Z) : bool := negb (eqb b (negb (flag =? 0))).
Definition eval_expression (f : md_network_filter) (env : filter_env)
    (jump : md_filter_chain → eval_state → eval_state * Z) (c : md_filter_chain) (at_ : nat * nat)
    (e : md_filter_expression) (regs : list Z) (st : eval_state) : eval_state * outcome :=
  let p := es_packet st in
  let test b := (st, Continue regs b) in
  let put r := (st, Continue r true) in
  let set_of := md_filter_set_find (Some f) (c_table c) None (e_target e) 0 in
  let src := drop (e_src e) regs in
  match e_code e with
  | MD_FILTER_PHYSDEV => test (match_physdev p (e_physdev e))
  | MD_FILTER_LIMIT => do_limit env at_ regs st
  | MD_FILTER_LOG => do_log env e regs st
  | MD_FILTER_IPSET =>
      match md_filter_set_find (Some f) 0 None (e_target e) 0 with
      | None => (st, Verdict (- ENOENT))
      | Some s => test (differs (md_ipset_matches (Some s) (if e_key e =? 0 then fl_destination (p_flow p)
                                                            else fl_source (p_flow p))) (e_operation e))
      end
  | MD_FILTER_REJECT =>
      if (e_key e =? MD_REJECT_TCP) && negb (pi_protocol (p_info p) =? IPPROTO_TCP) then (st, Verdict (- EOPNOTSUPP))
      else
        let r := md_network_reject_resolve (e_key e) (e_aux e) (ip_family (fl_destination (p_flow p))) in
        (with_packet st (set_rejection p r), Verdict (md_network_reject_error r))
  | MD_FILTER_ICMP_MATCH => test (match_icmp p e)
  | MD_FILTER_TRANSPORT => test (match_transport p (e_transport e))
  | MD_FILTER_MULTIPORT => test (match_multiport p (e_multiport e))
  | MD_FILTER_COUNTER =>
      let '(st, error) := account_counter env st (RuleCell (fst at_) (snd at_)) in
      if negb (error =? 0) then (st, Verdict error) else (st, Continue regs true)
  | MD_FILTER_IMMEDIATE => put (store regs (e_dst e) (take (e_size e) (e_value e)))
  | MD_FILTER_COMPARE =>
      let same := bool_decide (memcmp (e_size e) src (e_value e) = Eq) in
      test (if e_operation e =? NFT_CMP_EQ then same else negb same)
  | MD_FILTER_RANGE =>
      let inside := negb (bool_decide (memcmp (e_size e) src (e_value e) = Lt))
                    && negb (bool_decide (memcmp (e_size e) src (e_mask e) = Gt)) in
      test (if e_operation e =? NFT_RANGE_EQ then inside else negb inside)
  | MD_FILTER_BITWISE => put (store regs (e_dst e) (bitwise (e_size e) src (e_mask e) (e_value e)))
  | MD_FILTER_PAYLOAD => match load_payload p e regs with Some r => put r | None => test false end
  | MD_FILTER_META => put (load_meta p e regs)
  | MD_FILTER_META_SET | MD_FILTER_CT_SET => (with_packet st (store_mark p e regs), Continue regs true)
  | MD_FILTER_CT =>
      put (copy_at regs (e_dst e) (u32_bytes (if e_key e =? NFT_CT_STATE then pi_state (p_info p)
        else if e_key e =? NFT_CT_MARK then pm_ctmark (p_marks p) else pm_status (p_marks p))))
  | MD_FILTER_STATE_MATCH =>
      test (differs (has_bits (pi_state (p_info p)) (e_key e) || has_bits (pm_status (p_marks p)) (e_aux e)) (e_operation e))
  | MD_FILTER_MARK_MATCH => test (differs (Z.land (pm_mark (p_marks p)) (e_aux e) =? e_key e) (e_operation e))
  | MD_FILTER_CONNMARK_MATCH => test (differs (Z.land (pm_ctmark (p_marks p)) (e_aux e) =? e_key e) (e_operation e))
  | MD_FILTER_PACKET_TYPE => test (differs (pi_packet_type (p_info p) =? e_key e) (e_operation e))
  | MD_FILTER_REVERSE_PATH =>
      test (negb (eqb (reverse_path env p (e_key e)) (has_bits (e_key e) XT_RPFILTER_INVERT)))
  | MD_FILTER_ADDRESS_TYPE => test (match_address_type p e)
  | MD_FILTER_FIB => put (load_fib env p e regs)
  | MD_FILTER_LOOKUP =>
      match set_of with
      | None => (st, Verdict (- ENOENT))
      | Some s => let found := bool_decide (is_Some (md_filter_set_lookup s src)) in
                  test (if e_operation e =? 0 then found else negb found)
      end
  | MD_FILTER_DATA_MAP =>
      match set_of with
      | None => (st, Verdict (- ENOENT))
      | Some s => match md_filter_set_lookup s src with
                  | None => test false
                  | Some x => put (store regs (e_dst e) (take (s_data_size s) (el_data x)))
                  end
      end
  | MD_FILTER_NAT =>
      if negb (e_family e =? 0) && negb (e_family e =? ip_family (fl_destination (p_flow p))) then test false
      else do_nat env e regs st
  | MD_FILTER_MASQUERADE => do_masquerade env e regs st
  | MD_FILTER_VERDICT => do_verdict f jump c (mk_verdict (e_operation e) (e_target e)) regs st
  | MD_FILTER_VERDICT_MAP =>
      match set_of with
      | None => (st, Verdict (- ENOENT))
      | Some s => match md_filter_set_lookup s src with
                  | None => test false
                  | Some x => do_verdict f jump c (el_verdict x) regs st
                  end
      end
  end.

(** ** Rules, chains and hooks *)

Fixpoint eval_expressions (f : md_network_filter) (env : filter_env) (jump : md_filter_chain → eval_state → eval_state * Z)
    (c : md_filter_chain) (rule j : nat) (es : list md_filter_expression) (regs : list Z) (st : eval_state)
    : eval_state * option Z :=
  match es with
  | [] => (st, None)
  | e :: es =>
      match eval_expression f env jump c (rule, j) e regs st with
      | (st, Verdict v) => (st, Some v)
      | (st, Continue regs true) => eval_expressions f env jump c rule (S j) es regs st
      | (st, Continue _ false) => (st, None)
      end
  end.
Fixpoint eval_rules (f : md_network_filter) (env : filter_env) (jump : md_filter_chain → eval_state → eval_state * Z)
    (c : md_filter_chain) (i : nat) (rs : list md_filter_rule) (st : eval_state) : eval_state * Z :=
  match rs with
  | [] => (st, NFT_RETURN)
  | r :: rs =>
      if negb (r_chain r =? c_handle c) then eval_rules f env jump c (S i) rs st
      else match eval_expressions f env jump c i 0 (r_expressions r) (zeros 64) st with
           | (st, Some v) => (st, v)
           | (st, None) => eval_rules f env jump c (S i) rs st
           end
  end.
Fixpoint evaluate_chain (budget : nat) (f : md_network_filter) (env : filter_env) (c : md_filter_chain) (st : eval_state)
    : eval_state * Z :=
  match budget with
  | O => (st, - ELOOP)
  | S budget => eval_rules f env (evaluate_chain budget f env) c 0 (f_rules f) st
  end.

Definition md_filter_chain_applies (f : md_network_filter) (c : md_filter_chain) (family : Z) : bool :=
  let protocol := if family =? AF_INET6 then NFPROTO_IPV6 else NFPROTO_IPV4 in
  match List.find (λ t, t_handle t =? c_table c) (f_tables f) with
  | Some t => (t_family t =? NFPROTO_INET) || (t_family t =? protocol)
  | None => false
  end.
(** The scan for the next base chain after [previous] = (priority, index). *)
Definition after (previous : option (Z * nat)) (priority : Z) (i : nat) : bool :=
  match previous with
  | None => true
  | Some (pp, pi) => negb ((priority <? pp) || ((priority =? pp) && (i <=? pi)%nat))
  end.
Fixpoint select_chain (f : md_network_filter) (hook family : Z) (previous : option (Z * nat)) (i : nat)
    (cs : list md_filter_chain) (selected : option (nat * md_filter_chain)) : option (nat * md_filter_chain) :=
  match cs with
  | [] => selected
  | c :: cs =>
      let better := md_filter_chain_applies f c family && (c_hook c =? hook) && after previous (c_priority c) i
        && match selected with None => true | Some (_, s) => c_priority c <? c_priority s end in
      select_chain f hook family previous (S i) cs (if better then Some (i, c) else selected)
  end.
Definition next_chain (f : md_network_filter) (hook family : Z) (previous : option (Z * nat)) : option (nat * md_filter_chain) :=
  select_chain f hook family previous 0 (f_chains f) None.

(** One selected base chain: an error, or the state to go on with. *)
Definition hook_stage (f : md_network_filter) (env : filter_env) (hook : Z) (retained : bool) (i : nat) (c : md_filter_chain)
    (st : eval_state) (nat_priority : option Z) : eval_state * option Z * Z :=
  let p := es_packet st in
  let mapped := if (hook =? NF_INET_PRE_ROUTING) || (hook =? NF_INET_LOCAL_OUT)
                then pm_dnat (p_marks p) else pm_snat (p_marks p) in
  let '(st, verdict) := if c_nat c && (retained || negb (pi_state (p_info p) =? 8) || mapped) then (st, NF_ACCEPT)
                        else evaluate_chain DEPTH f env c st in
  let q := p_marks (es_packet st) in
  let nat_priority := if c_nat c && negb mapped && (pm_dnat q || pm_snat q) then Some (c_priority c) else nat_priority in
  let '(st, error, verdict) :=
    if verdict =? NFT_RETURN then
      let '(st, error) := if c_counters c then account_counter env st (ChainCell i) else (st, 0) in
      (st, error, to_int (c_policy c))
    else (st, 0, verdict) in
  if negb (error =? 0) then (st, nat_priority, error)
  else if negb (verdict =? NF_ACCEPT)
  then (st, nat_priority, if verdict =? NF_DROP then - EACCES else if verdict <? 0 then verdict else - EOPNOTSUPP)
  else
    let q := es_packet st in
    if c_reroute c && (negb (pm_mark (p_marks q) =? pm_mark (p_marks p))
                       || negb (md_ip_equal (fl_source (p_flow q)) (fl_source (p_flow p)))
                       || negb (md_ip_equal (fl_destination (p_flow q)) (fl_destination (p_flow p)))) then
      match fe_route env with
      | None => (st, nat_priority, - EOPNOTSUPP)
      | Some route =>
          let r := route q (Z.lor NFTA_FIB_F_DADDR NFTA_FIB_F_MARK) in
          if rt_interface r =? 0 then (st, nat_priority, - ENETUNREACH)
          else (with_packet st (set_output q (rt_interface r) (rt_name r)), nat_priority, 0)
      end
    else (st, nat_priority, 0).

Definition apply_rewrite (rewrite : option md_filter_rewrite) (selected : option (nat * md_filter_chain)) (st : eval_state)
    : option md_filter_rewrite * eval_state :=
  match rewrite with
  | Some r =>
      if match selected with None => true | Some (_, c) => rw_priority r <=? c_priority c end
      then (None, with_packet st (with_flow (es_packet st) (rw_flow r)))
      else (rewrite, st)
  | None => (None, st)
  end.
(** [None]: out of fuel. *)
Fixpoint hook_loop (fuel : nat) (f : md_network_filter) (env : filter_env) (hook : Z) (retained : bool)
    (rewrite : option md_filter_rewrite) (previous : option (Z * nat)) (st : eval_state) (nat_priority : option Z)
    : option (eval_state * option Z * Z) :=
  match fuel with
  | O => None
  | S fuel =>
      let selected := next_chain f hook (ip_family (fl_destination (p_flow (es_packet st)))) previous in
      let '(rewrite, st) := apply_rewrite rewrite selected st in
      match selected with
      | None => Some (st, nat_priority, 0)
      | Some (i, c) =>
          let '(st, nat_priority, error) := hook_stage f env hook retained i c st nat_priority in
          if negb (error =? 0) then Some (st, nat_priority, error)
          else hook_loop fuel f env hook retained rewrite (Some (c_priority c, i)) st nat_priority
      end
  end.
(** A NULL ruleset has no chains. *)
Definition md_filter_evaluate_transition (f : option md_network_filter) (env : filter_env) (hook : Z)
    (rewrite : option md_filter_rewrite) (st : eval_state) (nat_priority : option Z)
    : option (eval_state * option Z * Z) :=
  let st := with_packet st (enter_hook (es_packet st) hook) in
  match f with
  | None => let '(_, st) := apply_rewrite rewrite None st in Some (st, nat_priority, 0)
  | Some f => hook_loop (S (length (f_chains f))) f env hook (bool_decide (is_Some rewrite)) rewrite None st nat_priority
  end.
Definition md_filter_evaluate (f : option md_network_filter) (env : filter_env) (hook : Z) (st : eval_state)
    : option (eval_state * option Z * Z) :=
  md_filter_evaluate_transition f env hook None st None.

(** ** The depth limit is never met *)

(** Handles as [next_handle] gives them out: set handles are distinct, no chain has 0. *)
Record handles_ok (f : md_network_filter) : Prop := mk_handles_ok {
  ho_sets : NoDup (s_handle <$> f_sets f);
  ho_chains : Forall (λ c, c_handle c ≠ 0) (f_chains f) }.

Lemma index_of_find {A} (P : A → bool) l i x :
  index_of P l = Some i → l !! i = Some x → List.find P l = Some x.
Proof.
  revert i. induction l as [|y l IH]; intros i; cbn; [done|]. destruct (P y) eqn:E; [intros [= <-]; by cbn|].
  destruct (index_of P l) as [j|]; [|done]. intros [= <-]. cbn. by apply IH.
Qed.
Lemma find_and {A} (P Q : A → bool) l x : List.find P l = Some x → Q x = true → List.find (λ y, Q y && P y) l = Some x.
Proof.
  induction l as [|y l IH]; cbn; [done|]. destruct (P y) eqn:E.
  - intros [= ->] ->. done.
  - intros. rewrite andb_false_r. by apply IH.
Qed.
Lemma chain_find_index f table handle j t :
  handle ≠ 0 → chain_index f handle = Some j → f_chains f !! j = Some t → c_table t = table →
  md_filter_chain_find (Some f) table None handle 0 = Some t.
Proof.
  intros Hh Hi Ht <-. unfold md_filter_chain_find, chain_index in *. cbn.
  rewrite (proj2 (Z.eqb_neq handle 0) Hh). pose proof (index_of_find _ _ _ _ Hi Ht) as Hf.
  erewrite (find_ext _ _ (f_chains f)); [|intros c; by rewrite (Z.eqb_sym handle)].
  apply (find_and _ (λ c, (c_table t =? 0) || (c_table c =? c_table t))); [done|].
  by rewrite Z.eqb_refl, orb_true_r.
Qed.
Lemma set_lookup_start s key x : md_filter_set_lookup s key = Some x → x ∈ s_elements s ∧ el_end x = 0.
Proof.
  unfold md_filter_set_lookup, interval_below.
  set (n := md_filter_set_position s key 0). intros H.
  assert (∃ k, s_elements s !! k = Some x ∧ el_end x = 0) as (k & Hk & ?); [|split; [by eapply list_elem_of_lookup_2|done]].
  assert (∀ y, (if has_bits (s_flags s) NFT_SET_INTERVAL then match n with O => None | S below =>
    z ← s_elements s !! below; if el_end z =? 0 then Some z else None end else None) = Some y →
    ∃ k, s_elements s !! k = Some y ∧ el_end y = 0) as Hbelow.
  { intros y. case_if; [|done]. destruct n as [|m]; [done|]. destruct (s_elements s !! m) as [z|] eqn:Hz; [|done]. cbn.
    destruct (el_end z =? 0) eqn:Ez; [|done]. intros [= <-]. breflect. eauto. }
  destruct (s_elements s !! n) as [y|] eqn:Hy; [|by apply Hbelow].
  destruct ((el_end y =? 0) && key_eq s (el_key y) key) eqn:E; [|by apply Hbelow].
  breflect. injection H as <-. eauto.
Qed.
Lemma find_unique {A} (P : A → bool) (g : A → Z) l x :
  NoDup (g <$> l) → x ∈ l → (∀ y, P y = true → g y = g x) → P x = true → List.find P l = Some x.
Proof.
  intros Hnd Hx HP HPx. destruct (List.find P l) as [y|] eqn:E.
  - apply List.find_some in E as [Hy HPy]. apply list_elem_of_In in Hy. f_equal.
    apply list_elem_of_lookup in Hx as [i Hi]. apply list_elem_of_lookup in Hy as [j Hj].
    assert (i = j) as <-; [|congruence]. eapply NoDup_lookup; [exact Hnd|..]; rewrite list_lookup_fmap.
    + by rewrite Hi.
    + rewrite Hj. cbn. by rewrite (HP y HPy).
  - exfalso. eapply List.find_none in E; [|by apply list_elem_of_In]. congruence.
Qed.

(** The verdicts evaluation can follow are those validation looked at. *)
Lemma verdict_direct f e : e_code e = MD_FILTER_VERDICT → mk_verdict (e_operation e) (e_target e) ∈ verdicts f e.
Proof.
  intros He. unfold verdicts, md_filter_verdict_count, md_filter_verdict_at. rewrite bool_decide_eq_true_2 by done. by left.
Qed.
Lemma verdict_mapped f e c s key x :
  handles_ok f → e_code e = MD_FILTER_VERDICT_MAP →
  md_filter_set_find (Some f) (c_table c) None (e_target e) 0 = Some s → md_filter_set_lookup s key = Some x →
  el_verdict x ∈ verdicts f e.
Proof.
  intros [Hnd _] He Hs Hx. apply set_lookup_start in Hx as [Hin Hend]. cbn in Hs.
  apply List.find_some in Hs as [Hsin Hs]. apply list_elem_of_In in Hsin. apply andb_true_iff in Hs as [_ Hs].
  destruct (e_target e =? 0) eqn:E0; [done|]. breflect.
  apply list_elem_of_lookup in Hin as [k Hk].
  assert (List.find (λ s, s_handle s =? e_target e) (f_sets f) = Some s) as Hf.
  { apply (find_unique _ s_handle); try done; [intros y Hy; breflect; congruence|by apply Z.eqb_eq]. }
  unfold verdicts. apply list_elem_of_fmap. exists k. unfold md_filter_verdict_at, md_filter_verdict_count. rewrite He, Hf.
  rewrite bool_decide_eq_false_2, bool_decide_eq_true_2 by done. rewrite Hk, Hend. cbn. split; [done|].
  apply elem_of_seq. apply lookup_lt_Some in Hk. lia.
Qed.

Section budget.
Context (f : md_network_filter) (env : filter_env) (Hh : handles_ok f).
Implicit Types (c t : md_filter_chain) (st : eval_state).

(** Two interpretations of jumps that agree on the targets of [v]. *)
Definition agree (j1 j2 : md_filter_chain → eval_state → eval_state * Z) c (v : md_filter_verdict) : Prop :=
  ∀ t st, is_jump v = true → md_filter_chain_find (Some f) (c_table c) None (v_target v) 0 = Some t → j1 t st = j2 t st.
Lemma do_verdict_ext j1 j2 c v regs st : agree j1 j2 c v → do_verdict f j1 c v regs st = do_verdict f j2 c v regs st.
Proof.
  unfold agree, is_jump, do_verdict. intros Ha.
  destruct ((to_int (v_operation v) =? NFT_JUMP) || (to_int (v_operation v) =? NFT_GOTO)); [|done].
  destruct (md_filter_chain_find _ _ _ _ _) as [t|] eqn:Ht; [|done]. by rewrite (Ha t st eq_refl eq_refl).
Qed.
Lemma eval_expression_ext j1 j2 c at_ e regs st :
  (∀ v, v ∈ verdicts f e → agree j1 j2 c v) →
  eval_expression f env j1 c at_ e regs st = eval_expression f env j2 c at_ e regs st.
Proof.
  intros Ha. unfold eval_expression. destruct (e_code e) eqn:Ec; try done.
  - apply do_verdict_ext, Ha. by apply verdict_direct.
  - destruct (md_filter_set_find _ _ _ _ _) as [s|] eqn:Hs; [|done].
    destruct (md_filter_set_lookup s _) as [x|] eqn:Hx; [|done]. apply do_verdict_ext, Ha. by eapply verdict_mapped.
Qed.
Lemma eval_expressions_ext j1 j2 c rule j es regs st :
  (∀ e v, e ∈ es → v ∈ verdicts f e → agree j1 j2 c v) →
  eval_expressions f env j1 c rule j es regs st = eval_expressions f env j2 c rule j es regs st.
Proof.
  revert j regs st. induction es as [|e es IH]; intros j regs st Ha; cbn; [done|].
  rewrite (eval_expression_ext j1 j2) by (intros v; apply Ha; by left).
  destruct (eval_expression f env j2 c (rule, j) e regs st) as [st1 [regs1 [|]|v]]; [|done|done].
  apply IH. intros e' v ?. apply Ha. by right.
Qed.
Lemma eval_rules_ext j1 j2 c i rs st :
  (∀ r e v, r ∈ rs → r_chain r = c_handle c → e ∈ r_expressions r → v ∈ verdicts f e → agree j1 j2 c v) →
  eval_rules f env j1 c i rs st = eval_rules f env j2 c i rs st.
Proof.
  revert i st. induction rs as [|r rs IH]; intros i st Ha; cbn [eval_rules]; [done|].
  assert (∀ i st, eval_rules f env j1 c i rs st = eval_rules f env j2 c i rs st) as IH'.
  { intros. apply IH. intros r' e v ?. apply Ha. by right. }
  destruct (r_chain r =? c_handle c) eqn:E; cbn [negb]; [|done]. breflect.
  rewrite (eval_expressions_ext j1 j2) by (intros e v; apply Ha; [by left|done]).
  by destruct (eval_expressions f env j2 c i 0 (r_expressions r) (zeros 64) st) as [st1 [v|]].
Qed.

Lemma index_of_sat {A} (P : A → bool) l i x : index_of P l = Some i → l !! i = Some x → P x = true.
Proof. intros H1 H2. pose proof (index_of_find _ _ _ _ H1 H2) as H. by apply List.find_some in H as [_ ?]. Qed.
Lemma evaluate_budget rank n m i c st :
  well_ranked f rank → (∀ i, (i < length (f_chains f))%nat → 0 ≤ rank i) → f_chains f !! i = Some c →
  rank i < Z.of_nat n → rank i < Z.of_nat m → evaluate_chain n f env c st = evaluate_chain m f env c st.
Proof.
  intros Hw Hpos. revert m i c st. induction n as [|n IH]; intros m i c st Hc Hn Hm.
  { pose proof (Hpos i (lookup_lt_Some _ _ _ Hc)). lia. }
  destruct m as [|m]; [pose proof (Hpos i (lookup_lt_Some _ _ _ Hc)); lia|]. cbn.
  apply eval_rules_ext. intros r e v Hr Hrc He Hv t st' Hj Ht.
  destruct (Hw i c r e Hc Hr Hrc He) as (Hvs & _ & _). destruct (Hvs v Hv Hj) as (k & t' & Hk & Ht' & Htab & _ & Hlt).
  pose proof (index_of_sat _ _ _ _ Hk Ht') as Hh'. cbn in Hh'. breflect.
  assert (v_target v ≠ 0) as Hnz.
  { rewrite <- Hh'. pose proof (ho_chains _ Hh) as Hnz. rewrite Forall_lookup in Hnz. eauto. }
  rewrite (chain_find_index f _ _ k t' Hnz Hk Ht' Htab) in Ht. injection Ht as <-.
  apply (IH m k t' st' Ht'); lia.
Qed.
End budget.

(** ** The order of the base chains at a hook *)

Section hooks.
Context (f : md_network_filter) (hook family : Z) (previous : option (Z * nat)).
Implicit Types (c : md_filter_chain) (i j k : nat).

(** Base chain [c], the [i]-th of the catalogue, may run after [previous]. *)
Definition eligible i c : bool :=
  md_filter_chain_applies f c family && (c_hook c =? hook) && after previous (c_priority c) i.
Lemma select_chain_least i cs sel :
  (∀ s, sel = Some s → (s.1 < i)%nat) →
  match select_chain f hook family previous i cs sel with
  | None => sel = None ∧ ∀ j c, cs !! j = Some c → eligible (i + j) c = false
  | Some (k, c) =>
      (sel = Some (k, c) ∨ ∃ j, k = (i + j)%nat ∧ cs !! j = Some c ∧ eligible k c = true)
      ∧ (∀ s, sel = Some s → c_priority c < c_priority s.2 ∨ s = (k, c))
      ∧ ∀ j c', cs !! j = Some c' → eligible (i + j) c' = true →
          c_priority c < c_priority c' ∨ (c_priority c = c_priority c' ∧ (k <= i + j)%nat)
  end.
Proof.
  revert i sel. induction cs as [|x cs IH]; intros i sel Hsel; cbn [select_chain].
  { destruct sel as [[k c]|]; [|by split; intros]. split_and!; [by left|intros s [= <-]; by right|done]. }
  fold (eligible i x). set (better := eligible i x && _). specialize (IH (S i) (if better then Some (i, x) else sel)).
  destruct (select_chain f hook family previous (S i) cs (if better then Some (i, x) else sel)) as [[k c]|].
  - destruct IH as (Hin & Hs & Hmin).
    { destruct better; [intros s [= <-]; cbn; lia|]. intros s Hss. apply Hsel in Hss. lia. }
    split_and!.
    + destruct Hin as [Hin|(j & -> & Hj & He)]; [|right; exists (S j); by rewrite Nat.add_succ_r].
      destruct better eqn:Eb; [|by left]. right. injection Hin as <- <-. exists 0%nat. rewrite Nat.add_0_r.
      by apply andb_true_iff in Eb as [-> _].
    + intros s Hss. destruct better eqn:Eb; [|by apply Hs]. apply andb_true_iff in Eb as [_ Eb]. rewrite Hss in Eb.
      destruct s as [k' s]. cbn. breflect. destruct (Hs _ eq_refl) as [?|[= -> ->]]; cbn in *; [left; lia|by left].
    + intros [|j] c' Hj He; [|rewrite Nat.add_succ_r in *; by apply Hmin]. injection Hj as ->.
      rewrite Nat.add_0_r in *. unfold better in Hs. rewrite He in Hs. cbn in Hs. destruct sel as [[k' s]|].
      * destruct (c_priority c' <? c_priority s) eqn:El; breflect; destruct (Hs _ eq_refl) as [?|[= <- <-]]; cbn in *; try lia.
        specialize (Hsel _ eq_refl). cbn in Hsel. lia.
      * destruct (Hs _ eq_refl) as [?|[= <- <-]]; cbn in *; lia.
  - destruct IH as [Hn Hnone].
    { destruct better; [intros s [= <-]; cbn; lia|]. intros s Hss. apply Hsel in Hss. lia. }
    destruct better eqn:Eb; [done|]. subst sel. split; [done|]. unfold better in Eb. rewrite andb_true_r in Eb.
    intros [|j] c Hj; [injection Hj as ->; by rewrite Nat.add_0_r|]. rewrite Nat.add_succ_r. by apply Hnone.
Qed.
(** [next_chain] returns the least eligible chain in (priority, position) order. *)
Definition least_eligible i c : Prop :=
  f_chains f !! i = Some c ∧ eligible i c = true
  ∧ ∀ j c', f_chains f !! j = Some c' → eligible j c' = true →
      c_priority c < c_priority c' ∨ (c_priority c = c_priority c' ∧ (i <= j)%nat).
Lemma next_chain_spec i c : next_chain f hook family previous = Some (i, c) ↔ least_eligible i c.
Proof.
  pose proof (select_chain_least 0 (f_chains f) None ltac:(done)) as H. fold (next_chain f hook family previous) in H. cbn in H.
  destruct (next_chain f hook family previous) as [[k x]|].
  - destruct H as ([?|(j & -> & Hj & He)] & _ & Hmin); [done|]. split; [intros [= <- <-]; done|].
    intros (Hi & Hei & Hm). specialize (Hm j x Hj He). specialize (Hmin i c Hi Hei). assert (i = j) as -> by lia. congruence.
  - destruct H as [_ Hnone]. split; [done|]. intros (Hi & He & _). by rewrite (Hnone i c Hi) in He.
Qed.
End hooks.

(** The chains still ahead of [previous]; the loop's measure. *)
Definition ahead (f : md_network_filter) (previous : option (Z * nat)) : list (nat * md_filter_chain) :=
  filter (λ x : nat * md_filter_chain, after previous (c_priority x.2) x.1 = true) (imap pair (f_chains f)).
Lemma ahead_step f hook family previous i c :
  next_chain f hook family previous = Some (i, c) →
  (length (ahead f (Some (c_priority c, i))) < length (ahead f previous))%nat.
Proof.
  intros (Hi & He & _)%next_chain_spec. unfold eligible in He. apply andb_true_iff in He as [_ He].
  assert (ahead f (Some (c_priority c, i))
    = filter (λ x : nat * md_filter_chain, after (Some (c_priority c, i)) (c_priority x.2) x.1 = true) (ahead f previous)) as ->.
  { unfold ahead. rewrite list_filter_filter. apply list_filter_iff. intros [j x]. cbn.
    destruct previous as [[pp pi]|]; cbn in *; [|tauto]. split; [|tauto]. intros Hx. split; [done|].
    rewrite negb_true_iff, orb_false_iff, andb_false_iff in *. rewrite Z.ltb_ge, Z.eqb_neq, Nat.leb_gt in *. lia. }
  apply (length_filter_lt _ _ (i, c)).
  - apply list_elem_of_filter. split; [done|]. apply elem_of_lookup_imap. by exists i, c.
  - cbn. rewrite Z.eqb_refl, Nat.leb_refl. cbn. by rewrite orb_true_r.
Qed.
Lemma hook_loop_total fuel f env hook retained rewrite previous st np :
  (length (ahead f previous) < fuel)%nat → is_Some (hook_loop fuel f env hook retained rewrite previous st np).
Proof.
  revert rewrite previous st np. induction fuel as [|fuel IH]; intros rewrite previous st np Hl; [lia|]. cbn [hook_loop].
  destruct (next_chain f hook _ previous) as [[i c]|] eqn:Hn; cbn;
    destruct (apply_rewrite rewrite _ st) as [rw st1]; [|by eexists].
  destruct (hook_stage f env hook retained i c st1 np) as [[st2 np2] error]. destruct (error =? 0); cbn; [|by eexists].
  apply IH. apply ahead_step in Hn. lia.
Qed.

(** ** Properties *)

(** Evaluating a validated ruleset never meets the depth guard: with any larger
    limit on nested jumps every chain gives the same verdict and effects. *)
Theorem filter_depth_unreached f env i c st k :
  md_filter_validate f = 0 → handles_ok f → f_chains f !! i = Some c →
  evaluate_chain (DEPTH + k) f env c st = evaluate_chain DEPTH f env c st.
Proof.
  intros (rank & Hw & Hr)%validate_ranked Hh Hc. pose proof (Hr i (lookup_lt_Some _ _ _ Hc)).
  eapply evaluate_budget; try done; unfold DEPTH; try lia. intros j Hj. by apply Hr.
Qed.

(** At a hook the next base chain is the eligible one with the least priority,
    the earliest of equal priority: of the right hook, of a table that covers the
    packet's family, and strictly after the chain that ran before it. *)
Theorem hook_chain_order f hook family previous i c :
  next_chain f hook family previous = Some (i, c) ↔ least_eligible f hook family previous i c.
Proof. apply next_chain_spec. Qed.

(** Evaluation at a hook always terminates, whatever the rules, rewrites and
    callbacks do to the packet: every base chain runs at most once. *)
Theorem hook_evaluation_total f env hook rewrite st np :
  is_Some (md_filter_evaluate_transition f env hook rewrite st np).
Proof.
  unfold md_filter_evaluate_transition. destruct f as [f|].
  - apply hook_loop_total, Nat.lt_succ_r. unfold ahead. etrans; [apply length_filter|]. by rewrite length_imap.
  - destruct (apply_rewrite rewrite None _). by eexists.
Qed.

Definition sample_env : filter_env := mk_env None None false (λ _, 0) (λ _ _, 0) (λ _, false).
Definition sample_state : eval_state :=
  let a := mk_ip AF_INET [10; 0; 0; 1; 0; 0; 0; 0; 0; 0; 0; 0; 0; 0; 0; 0] in
  mk_eval (mk_packet (mk_flow a a 0 0 [0; 0] [0; 0])
             (mk_marks 0 0 0 false false false (mk_rejection 0 0) 0 [] NF_INET_POST_ROUTING)
             (mk_info 6 8 0 0 [] 0 [] (0, 0) false [] a false)) ∅ None [] 0 0 0.
Lemma filter_depth_unreached_witness :
  let c := mk_chain 1 2 0 "post" NF_INET_POST_ROUTING 100 true false NF_ACCEPT false [] in
  evaluate_chain (DEPTH + 5) sample_filter sample_env c sample_state = evaluate_chain DEPTH sample_filter sample_env c sample_state.
Proof.
  intros c. apply (filter_depth_unreached sample_filter sample_env 0 c sample_state 5).
  - vm_compute. reflexivity.
  - split; [constructor|]. repeat constructor; done.
  - reflexivity.
Defined.
