(* ===== verification/Bpf.v ===== *)
(** * Classic BPF, the language of the filters that the runtime generates.

    [sock_filter] and its opcodes are those of <linux/filter.h>; [exec] is the
    documented meaning of a program on an environment that answers its packet
    loads.  All jumps are forward and relative, so execution is a structural
    recursion on the program: a jump skips that many of the instructions that
    follow.  Seccomp programs run on [seccomp_env], whose packet is the
    [seccomp_data] of a system call on little-endian AArch64.

    The second half is a small calculus for decision code: [decides] says that a
    block returns a verdict or falls through with the accumulator restored, and
    blocks compose by [decides_app]. *)
From S2P Require Import Prelude.

Record sock_filter := mk_insn { f_code : Z; f_jt : Z; f_jf : Z; f_k : Z }.
Definition BPF_STMT (code k : Z) : sock_filter := mk_insn code 0 0 k.
Definition BPF_JUMP (code k jt jf : Z) : sock_filter := mk_insn code jt jf k.

Definition BPF_LD : Z := 0.
Definition BPF_LDX : Z := 1.
Definition BPF_ST : Z := 2.
Definition BPF_STX : Z := 3.
Definition BPF_ALU : Z := 4.
Definition BPF_JMP : Z := 5.
Definition BPF_RET : Z := 6.
Definition BPF_MISC : Z := 7.
Definition BPF_W : Z := 0.
Definition BPF_H : Z := 8.
Definition BPF_B : Z := 16.
Definition BPF_IMM : Z := 0.
Definition BPF_ABS : Z := 32.
Definition BPF_IND : Z := 64.
Definition BPF_MEM : Z := 96.
Definition BPF_LEN : Z := 128.
Definition BPF_MSH : Z := 160.
Definition BPF_ADD : Z := 0.
Definition BPF_SUB : Z := 16.
Definition BPF_MUL : Z := 32.
Definition BPF_DIV : Z := 48.
Definition BPF_OR : Z := 64.
Definition BPF_AND : Z := 80.
Definition BPF_LSH : Z := 96.
Definition BPF_RSH : Z := 112.
Definition BPF_NEG : Z := 128.
Definition BPF_MOD : Z := 144.
Definition BPF_XOR : Z := 160.
Definition BPF_JA : Z := 0.
Definition BPF_JEQ : Z := 16.
Definition BPF_JGT : Z := 32.
Definition BPF_JGE : Z := 48.
Definition BPF_JSET : Z := 64.
Definition BPF_K : Z := 0.
Definition BPF_X : Z := 8.
Definition BPF_A : Z := 16.
Definition BPF_TAX : Z := 0.
Definition BPF_TXA : Z := 128.
Definition BPF_MEMWORDS : Z := 16.
Definition BPF_MAXINSNS : Z := 4096.

Definition BPF_CLASS (code : Z) : Z := Z.land code 7.
Definition BPF_SIZE (code : Z) : Z := Z.land code 24.
Definition BPF_MODE (code : Z) : Z := Z.land code 224.
Definition BPF_OP (code : Z) : Z := Z.land code 240.
Definition BPF_SRC (code : Z) : Z := Z.land code 8.
Definition BPF_RVAL (code : Z) : Z := Z.land code 24.
Definition BPF_MISCOP (code : Z) : Z := Z.land code 248.

(** ** Meaning *)

(** Packet loads: [None] when the bytes are not there, which ends the program
    with 0.  Indirect loads get the index register and the offset apart. *)
Record bpf_env := mk_bpf_env {
  e_load : Z → Z → option Z;
  e_indirect : Z → Z → Z → option Z;
  e_len : Z }.
Record bpf_state := mk_bpf { s_a : Z; s_x : Z; s_m : list Z }.
Definition bpf_start : bpf_state := mk_bpf 0 0 (replicate (Z.to_nat BPF_MEMWORDS) 0).
Definition set_a (st : bpf_state) (a : Z) : bpf_state := mk_bpf a (s_x st) (s_m st).
Definition set_x (st : bpf_state) (x : Z) : bpf_state := mk_bpf (s_a st) x (s_m st).
Definition set_m (st : bpf_state) (k v : Z) : bpf_state := mk_bpf (s_a st) (s_x st) (<[Z.to_nat k := v]> (s_m st)).

(** One instruction: go on after skipping some, return, or an invalid opcode. *)
Inductive outcome := Go (skip : nat) (st : bpf_state) | Return (v : Z) | Invalid.
Definition loaded (v : option Z) (next : Z → bpf_state) : outcome :=
  match v with Some v => Go 0 (next v) | None => Return 0 end.

Definition alu (op a v : Z) : option Z :=
  if op =? BPF_ADD then Some (wrap32 (a + v)) else if op =? BPF_SUB then Some (wrap32 (a - v))
  else if op =? BPF_MUL then Some (wrap32 (a * v))
  else if op =? BPF_DIV then (if v =? 0 then None else Some (a / v))
  else if op =? BPF_MOD then (if v =? 0 then None else Some (a mod v))
  else if op =? BPF_OR then Some (Z.lor a v) else if op =? BPF_AND then Some (Z.land a v)
  else if op =? BPF_XOR then Some (Z.lxor a v)
  else if op =? BPF_LSH then Some (wrap32 (Z.shiftl a v)) else if op =? BPF_RSH then Some (Z.shiftr a v)
  else Some (wrap32 (- a)).
Definition condition (op a v : Z) : bool :=
  if op =? BPF_JEQ then a =? v else if op =? BPF_JGT then v <? a
  else if op =? BPF_JGE then v <=? a else has_bits a v.

Definition step (e : bpf_env) (i : sock_filter) (st : bpf_state) : outcome :=
  let code := f_code i in
  let k := f_k i in
  let kind := BPF_CLASS code in
  let mode := BPF_MODE code in
  if kind =? BPF_LD then
    if mode =? BPF_IMM then Go 0 (set_a st k)
    else if mode =? BPF_ABS then loaded (e_load e (BPF_SIZE code) k) (set_a st)
    else if mode =? BPF_IND then loaded (e_indirect e (BPF_SIZE code) (s_x st) k) (set_a st)
    else if mode =? BPF_MEM then Go 0 (set_a st (s_m st !!! Z.to_nat k))
    else if mode =? BPF_LEN then Go 0 (set_a st (e_len e))
    else Invalid
  else if kind =? BPF_LDX then
    if mode =? BPF_IMM then Go 0 (set_x st k)
    else if mode =? BPF_MEM then Go 0 (set_x st (s_m st !!! Z.to_nat k))
    else if mode =? BPF_LEN then Go 0 (set_x st (e_len e))
    else if mode =? BPF_MSH then loaded (e_load e BPF_B k) (λ v, set_x st (4 * Z.land v 15))
    else Invalid
  else if kind =? BPF_ST then Go 0 (set_m st k (s_a st))
  else if kind =? BPF_STX then Go 0 (set_m st k (s_x st))
  else if kind =? BPF_ALU then
    loaded (alu (BPF_OP code) (s_a st) (if BPF_SRC code =? BPF_X then s_x st else k)) (set_a st)
  else if kind =? BPF_JMP then
    if BPF_OP code =? BPF_JA then Go (Z.to_nat k) st
    else Go (Z.to_nat (if condition (BPF_OP code) (s_a st) (if BPF_SRC code =? BPF_X then s_x st else k)
                       then f_jt i else f_jf i)) st
  else if kind =? BPF_RET then Return (if BPF_RVAL code =? BPF_A then s_a st else k)
  else if BPF_MISCOP code =? BPF_TXA then Go 0 (set_a st (s_x st)) else Go 0 (set_x st (s_a st)).

(** [None]: an invalid opcode, or control left the program. *)
Fixpoint exec (e : bpf_env) (prog : list sock_filter) (skip : nat) (st : bpf_state) : option Z :=
  match prog with
  | [] => None
  | i :: rest =>
      match skip with
      | S skip => exec e rest skip st
      | O => match step e i st with
             | Go n st => exec e rest n st
             | Return v => Some v
             | Invalid => None
             end
      end
  end.

Lemma exec_drop e prog n st : exec e prog n st = exec e (drop n prog) 0 st.
Proof.
  revert n. induction prog as [|i prog IH]; intros [|n]; cbn; done || apply IH.
Qed.
Lemma exec_at e prog p i st :
  prog !! p = Some i →
  exec e (drop p prog) 0 st
  = match step e i st with
    | Go n st => exec e (drop (p + 1 + n) prog) 0 st
    | Return v => Some v
    | Invalid => None
    end.
Proof.
  intros Hp. rewrite (drop_S _ _ _ Hp). cbn. destruct (step e i st) as [n st'| |]; try done.
  rewrite exec_drop, drop_drop. f_equal. f_equal. lia.
Qed.

(** Only [RET|K] returns. *)
Definition RET_K : Z := Z.lor BPF_RET BPF_K.
Definition plain (i : sock_filter) : bool := negb (BPF_CLASS (f_code i) =? BPF_RET) || (f_code i =? RET_K).
Lemma step_return e i st v :
  plain i = true → step e i st = Return v → v = 0 ∨ (f_code i = RET_K ∧ v = f_k i).
Proof.
  unfold plain, step, loaded. intros Hp Hs. repeat case_match; simplify_eq; breflect; try (by left); try done.
  all: right; apply orb_true_iff in Hp as [Hp|Hp]; breflect; try done; by rewrite Hp in *.
Qed.
Lemma step_ret e i st : f_code i = RET_K → step e i st = Return (f_k i).
Proof. intros H. unfold step. rewrite H. reflexivity. Qed.

(** A program whose selected returns are replaced by jumps to tails. *)
Section redirect.
Context (e : bpf_env) (P C : list sock_filter) (sel : sock_filter → bool) (f : Z → Z).
Hypothesis Hselected : ∀ j p, P !! j = Some p → sel p = true →
  f_code p = RET_K ∧ ∃ t, (j < t)%nat ∧ C !! j = Some (BPF_STMT BPF_JMP (Z.of_nat t - Z.of_nat j - 1))
    ∧ ∀ st, exec e (drop t C) 0 st = Some (f (f_k p)).
Hypothesis Hkept : ∀ j p, P !! j = Some p → sel p = false →
  C !! j = Some p ∧ ∀ st v, step e p st = Return v → f v = v.
Lemma redirect_sim p st v : exec e (drop p P) 0 st = Some v → exec e (drop p C) 0 st = Some (f v).
Proof.
  remember (length P - p)%nat as m eqn:Em. revert p st Em.
  induction (lt_wf m) as [m _ IH]. intros p st ->.
  destruct (P !! p) as [i|] eqn:Hi; [|apply lookup_ge_None in Hi; by rewrite drop_ge].
  pose proof (lookup_lt_Some _ _ _ Hi) as Hlt. rewrite (exec_at _ _ _ _ _ Hi). destruct (sel i) eqn:Hs.
  - destruct (Hselected p i Hi Hs) as (Hk & t & Ht & Hc & Htail). rewrite step_ret by done. intros [= <-].
    rewrite (exec_at _ _ _ _ _ Hc).
    change (step e (BPF_STMT BPF_JMP (Z.of_nat t - Z.of_nat p - 1)) st) with (Go (Z.to_nat (Z.of_nat t - Z.of_nat p - 1)) st).
    cbv match. replace (p + 1 + Z.to_nat (Z.of_nat t - Z.of_nat p - 1))%nat with t by lia. apply Htail.
  - destruct (Hkept p i Hi Hs) as [Hc Hf]. rewrite (exec_at _ _ _ _ _ Hc).
    destruct (step e i st) as [n st'|w|] eqn:Hst; [|intros [= <-]; by rewrite (Hf _ _ Hst)|done].
    intros Hv. apply (IH (length P - (p + 1 + n))%nat); [lia|done|done].
Qed.
End redirect.

(** ** Seccomp *)

Record seccomp_data := mk_data { d_nr : Z; d_arch : Z; d_ip : Z; d_args : list Z }.
Definition low (v : Z) : Z := Z.land v UINT32_MAX.
Definition high (v : Z) : Z := Z.land (Z.shiftr v 32) UINT32_MAX.
Definition arg (d : seccomp_data) (n : nat) : Z := d_args d !!! n.

Definition NR : Z := 0.
Definition ARCH : Z := 4.
Definition IP : Z := 8.
Definition ARG (n : nat) : Z := 16 + 8 * Z.of_nat n.
Definition seccomp_load (d : seccomp_data) (o : Z) : option Z :=
  if o =? NR then Some (d_nr d) else if o =? ARCH then Some (d_arch d)
  else if o =? IP then Some (low (d_ip d)) else if o =? IP + 4 then Some (high (d_ip d))
  else if o =? ARG 0 then Some (low (arg d 0)) else if o =? ARG 0 + 4 then Some (high (arg d 0))
  else if o =? ARG 1 then Some (low (arg d 1)) else if o =? ARG 1 + 4 then Some (high (arg d 1))
  else if o =? ARG 2 then Some (low (arg d 2)) else if o =? ARG 2 + 4 then Some (high (arg d 2))
  else if o =? ARG 3 then Some (low (arg d 3)) else if o =? ARG 3 + 4 then Some (high (arg d 3))
  else if o =? ARG 4 then Some (low (arg d 4)) else if o =? ARG 4 + 4 then Some (high (arg d 4))
  else if o =? ARG 5 then Some (low (arg d 5)) else if o =? ARG 5 + 4 then Some (high (arg d 5))
  else None.
Definition seccomp_env (d : seccomp_data) : bpf_env :=
  mk_bpf_env (λ size o, if size =? BPF_W then seccomp_load d o else None) (λ _ _ _, None) 64.
Definition run_filter (prog : list sock_filter) (d : seccomp_data) : option Z := exec (seccomp_env d) prog 0 bpf_start.

Definition SECCOMP_RET_KILL_PROCESS : Z := 2147483648.
Definition SECCOMP_RET_KILL_THREAD : Z := 0.
Definition SECCOMP_RET_ERRNO : Z := 327680.
Definition SECCOMP_RET_USER_NOTIF : Z := 2143289344.
Definition SECCOMP_RET_TRACE : Z := 2146435072.
Definition SECCOMP_RET_ALLOW : Z := 2147418112.
Definition SECCOMP_RET_ACTION_FULL : Z := 4294901760.
Definition trace (kind : Z) : Z := Z.lor SECCOMP_RET_TRACE kind.

(** The instructions the filters are made of. *)
Definition ld (o : Z) : sock_filter := BPF_STMT (Z.lor (Z.lor BPF_LD BPF_W) BPF_ABS) o.
Definition jeq (k jt jf : Z) : sock_filter := BPF_JUMP (Z.lor (Z.lor BPF_JMP BPF_JEQ) BPF_K) k jt jf.
Definition jgt (k jt jf : Z) : sock_filter := BPF_JUMP (Z.lor (Z.lor BPF_JMP BPF_JGT) BPF_K) k jt jf.
Definition jset (k jt jf : Z) : sock_filter := BPF_JUMP (Z.lor (Z.lor BPF_JMP BPF_JSET) BPF_K) k jt jf.
Definition ja (k : Z) : sock_filter := BPF_STMT (Z.lor BPF_JMP BPF_JA) k.
Definition alu_and (k : Z) : sock_filter := BPF_STMT (Z.lor (Z.lor BPF_ALU BPF_AND) BPF_K) k.
Definition alu_or (k : Z) : sock_filter := BPF_STMT (Z.lor (Z.lor BPF_ALU BPF_OR) BPF_K) k.
Definition ret (v : Z) : sock_filter := BPF_STMT (Z.lor BPF_RET BPF_K) v.
Definition ret_a : sock_filter := BPF_STMT (Z.lor BPF_RET BPF_A) 0.

(** ** Decision blocks *)

Section blocks.
Context (d : seccomp_data).
Implicit Types (rest blk : list sock_filter) (st : bpf_state).

Lemma exec_skip e i rest n st : exec e (i :: rest) (S n) st = exec e rest n st.
Proof. done. Qed.
Lemma exec_skip_app e blk rest n st : exec e (blk ++ rest) (length blk + n) st = exec e rest n st.
Proof. by induction blk. Qed.
Lemma exec_ld o v rest st :
  seccomp_load d o = Some v → exec (seccomp_env d) (ld o :: rest) 0 st = exec (seccomp_env d) rest 0 (set_a st v).
Proof.
  intros H. cbn [exec]. change (step (seccomp_env d) (ld o) st) with (loaded (seccomp_load d o) (set_a st)). by rewrite H.
Qed.
Lemma seccomp_load_arg (a : nat) : (a < 6)%nat → seccomp_load d (ARG a) = Some (low (arg d a)).
Proof. intros Ha. destruct a as [|[|[|[|[|[|a]]]]]]; [reflexivity..|lia]. Qed.
Lemma seccomp_load_high (a : nat) : (a < 6)%nat → seccomp_load d (ARG a + 4) = Some (high (arg d a)).
Proof. intros Ha. destruct a as [|[|[|[|[|[|a]]]]]]; [reflexivity..|lia]. Qed.
Lemma exec_jeq e k t f rest st :
  exec e (jeq k t f :: rest) 0 st = if s_a st =? k then exec e rest (Z.to_nat t) st else exec e rest (Z.to_nat f) st.
Proof.
  cbn [exec]. change (step e (jeq k t f) st) with (Go (Z.to_nat (if s_a st =? k then t else f)) st). by destruct (s_a st =? k).
Qed.
Lemma exec_jgt e k t f rest st :
  exec e (jgt k t f :: rest) 0 st = if k <? s_a st then exec e rest (Z.to_nat t) st else exec e rest (Z.to_nat f) st.
Proof.
  cbn [exec]. change (step e (jgt k t f) st) with (Go (Z.to_nat (if k <? s_a st then t else f)) st). by destruct (k <? s_a st).
Qed.
Lemma exec_jset e k t f rest st :
  exec e (jset k t f :: rest) 0 st
  = if has_bits (s_a st) k then exec e rest (Z.to_nat t) st else exec e rest (Z.to_nat f) st.
Proof.
  cbn [exec]. change (step e (jset k t f) st) with (Go (Z.to_nat (if has_bits (s_a st) k then t else f)) st). by destruct (has_bits (s_a st) k).
Qed.
Lemma exec_ja e k rest st : exec e (ja k :: rest) 0 st = exec e rest (Z.to_nat k) st.
Proof. done. Qed.
Lemma exec_and e k rest st : exec e (alu_and k :: rest) 0 st = exec e rest 0 (set_a st (Z.land (s_a st) k)).
Proof. done. Qed.
Lemma exec_or e k rest st : exec e (alu_or k :: rest) 0 st = exec e rest 0 (set_a st (Z.lor (s_a st) k)).
Proof. done. Qed.
Lemma exec_ret e v rest st : exec e (ret v :: rest) 0 st = Some v.
Proof. done. Qed.
Lemma exec_ret_a e rest st : exec e (ret_a :: rest) 0 st = Some (s_a st).
Proof. done. Qed.
Lemma set_a_set_a st a b : set_a (set_a st a) b = set_a st b.
Proof. done. Qed.
Lemma set_a_id st a : s_a st = a → set_a st a = st.
Proof. intros <-. by destruct st. Qed.

(** [blk] returns a verdict or falls through, with the call number in A. *)
Definition decides blk (verdict : option Z) : Prop :=
  ∀ rest st, s_a st = d_nr d →
    exec (seccomp_env d) (blk ++ rest) 0 st
    = match verdict with Some v => Some v | None => exec (seccomp_env d) rest 0 st end.
Definition first (v w : option Z) : option Z := match v with Some _ => v | None => w end.
Lemma decides_app b1 b2 v w : decides b1 v → decides b2 w → decides (b1 ++ b2) (first v w).
Proof.
  intros H1 H2 rest st Hst. rewrite <- app_assoc, H1 by done. destruct v; [done|]. by rewrite H2.
Qed.
Lemma decides_nil : decides [] None.
Proof. by intros rest st _. Qed.
Lemma decides_eq blk v w : decides blk v → v = w → decides blk w.
Proof. by intros ? <-. Qed.
Lemma decides_run prog v st : s_a st = d_nr d → decides prog (Some v) → exec (seccomp_env d) prog 0 st = Some v.
Proof. intros Hst H. specialize (H [] st Hst). by rewrite app_nil_r in H. Qed.

(** [n] decided by [v]: the two-instruction entries of every table. *)
Definition call_entry (v n : Z) : list sock_filter := [jeq n 0 1; ret v].
Definition call_table (v : Z) (l : list Z) : list sock_filter := l ≫= call_entry v.
Definition is_call (l : list Z) : bool := existsb (λ n, d_nr d =? n) l.
Lemma exec_table e v l rest st :
  exec e (call_table v l ++ rest) 0 st = if existsb (λ n, s_a st =? n) l then Some v else exec e rest 0 st.
Proof.
  induction l as [|n l IH]; [done|]. unfold call_table in *. cbn [existsb mbind list_bind call_entry app].
  rewrite exec_jeq. destruct (s_a st =? n); [done|]. cbn [orb]. change (Z.to_nat 1) with 1%nat. by rewrite exec_skip.
Qed.
Lemma call_table_decides v l : decides (call_table v l) (if is_call l then Some v else None).
Proof. intros rest st Hst. rewrite exec_table, Hst. unfold is_call. by destruct (existsb _ l). Qed.
Lemma length_call_table v l : length (call_table v l) = (2 * length l)%nat.
Proof. induction l as [|n l IH]; [done|]. cbn. unfold call_table in IH. rewrite IH. lia. Qed.
End blocks.

(** Symbolic execution of a block with literal jump distances. *)
Ltac to_nats :=
  repeat match goal with |- context [Z.to_nat ?k] => let n := eval compute in (Z.to_nat k) in change (Z.to_nat k) with n end.
Ltac bpf_step :=
  first
  [ rewrite exec_ret | rewrite exec_ret_a
  | erewrite exec_ld by reflexivity; rewrite ?set_a_set_a
  | rewrite exec_and; cbn [s_a set_a]; rewrite ?set_a_set_a
  | rewrite exec_or; cbn [s_a set_a]; rewrite ?set_a_set_a
  | rewrite exec_ja; to_nats | rewrite exec_skip
  | rewrite exec_jeq; cbn [s_a set_a]; to_nats
  | rewrite exec_jgt; cbn [s_a set_a]; to_nats
  | rewrite exec_jset; cbn [s_a set_a]; to_nats ].
Ltac bpf_run := repeat bpf_step.
