(* ===== verification/Syscalls.v ===== *)
(** * System call numbers and argument constants of the AArch64 Linux ABI that the
    generated filters name (asm-generic/unistd.h and the uapi headers), and the
    runtime's own marker values (interception.h). *)
From S2P Require Import Prelude.

Definition SYS_setxattr : Z := 5.
Definition SYS_lsetxattr : Z := 6.
Definition SYS_fsetxattr : Z := 7.
Definition SYS_getxattr : Z := 8.
Definition SYS_lgetxattr : Z := 9.
Definition SYS_fgetxattr : Z := 10.
Definition SYS_listxattr : Z := 11.
Definition SYS_llistxattr : Z := 12.
Definition SYS_flistxattr : Z := 13.
Definition SYS_removexattr : Z := 14.
Definition SYS_lremovexattr : Z := 15.
Definition SYS_fremovexattr : Z := 16.
Definition SYS_getcwd : Z := 17.
Definition SYS_eventfd2 : Z := 19.
Definition SYS_epoll_create1 : Z := 20.
Definition SYS_epoll_ctl : Z := 21.
Definition SYS_epoll_pwait : Z := 22.
Definition SYS_dup : Z := 23.
Definition SYS_dup3 : Z := 24.
Definition SYS_fcntl : Z := 25.
Definition SYS_inotify_init1 : Z := 26.
Definition SYS_inotify_add_watch : Z := 27.
Definition SYS_inotify_rm_watch : Z := 28.
Definition SYS_ioctl : Z := 29.
Definition SYS_ioprio_set : Z := 30.
Definition SYS_ioprio_get : Z := 31.
Definition SYS_mknodat : Z := 33.
Definition SYS_mkdirat : Z := 34.
Definition SYS_unlinkat : Z := 35.
Definition SYS_symlinkat : Z := 36.
Definition SYS_linkat : Z := 37.
Definition SYS_renameat : Z := 38.
Definition SYS_umount2 : Z := 39.
Definition SYS_mount : Z := 40.
Definition SYS_pivot_root : Z := 41.
Definition SYS_statfs : Z := 43.
Definition SYS_fstatfs : Z := 44.
Definition SYS_truncate : Z := 45.
Definition SYS_ftruncate : Z := 46.
Definition SYS_faccessat : Z := 48.
Definition SYS_chdir : Z := 49.
Definition SYS_fchdir : Z := 50.
Definition SYS_chroot : Z := 51.
Definition SYS_fchmod : Z := 52.
Definition SYS_fchmodat : Z := 53.
Definition SYS_fchownat : Z := 54.
Definition SYS_fchown : Z := 55.
Definition SYS_openat : Z := 56.
Definition SYS_close : Z := 57.
Definition SYS_pipe2 : Z := 59.
Definition SYS_getdents64 : Z := 61.
Definition SYS_lseek : Z := 62.
Definition SYS_read : Z := 63.
Definition SYS_write : Z := 64.
Definition SYS_readv : Z := 65.
Definition SYS_writev : Z := 66.
Definition SYS_pread64 : Z := 67.
Definition SYS_pwrite64 : Z := 68.
Definition SYS_preadv : Z := 69.
Definition SYS_pwritev : Z := 70.
Definition SYS_sendfile : Z := 71.
Definition SYS_pselect6 : Z := 72.
Definition SYS_ppoll : Z := 73.
Definition SYS_splice : Z := 76.
Definition SYS_tee : Z := 77.
Definition SYS_readlinkat : Z := 78.
Definition SYS_newfstatat : Z := 79.
Definition SYS_fstat : Z := 80.
Definition SYS_fsync : Z := 82.
Definition SYS_fdatasync : Z := 83.
Definition SYS_timerfd_create : Z := 85.
Definition SYS_timerfd_settime : Z := 86.
Definition SYS_timerfd_gettime : Z := 87.
Definition SYS_utimensat : Z := 88.
Definition SYS_capget : Z := 90.
Definition SYS_capset : Z := 91.
Definition SYS_exit : Z := 93.
Definition SYS_exit_group : Z := 94.
Definition SYS_waitid : Z := 95.
Definition SYS_set_tid_address : Z := 96.
Definition SYS_unshare : Z := 97.
Definition SYS_futex : Z := 98.
Definition SYS_set_robust_list : Z := 99.
Definition SYS_get_robust_list : Z := 100.
Definition SYS_nanosleep : Z := 101.
Definition SYS_clock_gettime : Z := 113.
Definition SYS_clock_nanosleep : Z := 115.
Definition SYS_sched_setparam : Z := 118.
Definition SYS_sched_setscheduler : Z := 119.
Definition SYS_sched_getscheduler : Z := 120.
Definition SYS_sched_getparam : Z := 121.
Definition SYS_sched_setaffinity : Z := 122.
Definition SYS_sched_getaffinity : Z := 123.
Definition SYS_sched_yield : Z := 124.
Definition SYS_sched_rr_get_interval : Z := 127.
Definition SYS_kill : Z := 129.
Definition SYS_tkill : Z := 130.
Definition SYS_tgkill : Z := 131.
Definition SYS_sigaltstack : Z := 132.
Definition SYS_rt_sigaction : Z := 134.
Definition SYS_rt_sigprocmask : Z := 135.
Definition SYS_rt_sigtimedwait : Z := 137.
Definition SYS_rt_sigqueueinfo : Z := 138.
Definition SYS_rt_sigreturn : Z := 139.
Definition SYS_reboot : Z := 142.
Definition SYS_setregid : Z := 143.
Definition SYS_setgid : Z := 144.
Definition SYS_setreuid : Z := 145.
Definition SYS_setuid : Z := 146.
Definition SYS_setresuid : Z := 147.
Definition SYS_getresuid : Z := 148.
Definition SYS_setresgid : Z := 149.
Definition SYS_getresgid : Z := 150.
Definition SYS_setfsuid : Z := 151.
Definition SYS_setfsgid : Z := 152.
Definition SYS_setpgid : Z := 154.
Definition SYS_getpgid : Z := 155.
Definition SYS_getsid : Z := 156.
Definition SYS_setsid : Z := 157.
Definition SYS_getgroups : Z := 158.
Definition SYS_setgroups : Z := 159.
Definition SYS_uname : Z := 160.
Definition SYS_sethostname : Z := 161.
Definition SYS_setdomainname : Z := 162.
Definition SYS_getrlimit : Z := 163.
Definition SYS_setrlimit : Z := 164.
Definition SYS_getrusage : Z := 165.
Definition SYS_prctl : Z := 167.
Definition SYS_gettimeofday : Z := 169.
Definition SYS_getpid : Z := 172.
Definition SYS_getppid : Z := 173.
Definition SYS_getuid : Z := 174.
Definition SYS_geteuid : Z := 175.
Definition SYS_getgid : Z := 176.
Definition SYS_getegid : Z := 177.
Definition SYS_gettid : Z := 178.
Definition SYS_sysinfo : Z := 179.
Definition SYS_mq_open : Z := 180.
Definition SYS_mq_unlink : Z := 181.
Definition SYS_mq_timedsend : Z := 182.
Definition SYS_mq_timedreceive : Z := 183.
Definition SYS_mq_notify : Z := 184.
Definition SYS_mq_getsetattr : Z := 185.
Definition SYS_msgget : Z := 186.
Definition SYS_msgctl : Z := 187.
Definition SYS_msgrcv : Z := 188.
Definition SYS_msgsnd : Z := 189.
Definition SYS_semget : Z := 190.
Definition SYS_semctl : Z := 191.
Definition SYS_semtimedop : Z := 192.
Definition SYS_semop : Z := 193.
Definition SYS_shmget : Z := 194.
Definition SYS_shmctl : Z := 195.
Definition SYS_shmat : Z := 196.
Definition SYS_shmdt : Z := 197.
Definition SYS_socket : Z := 198.
Definition SYS_socketpair : Z := 199.
Definition SYS_bind : Z := 200.
Definition SYS_listen : Z := 201.
Definition SYS_accept : Z := 202.
Definition SYS_connect : Z := 203.
Definition SYS_getsockname : Z := 204.
Definition SYS_getpeername : Z := 205.
Definition SYS_sendto : Z := 206.
Definition SYS_recvfrom : Z := 207.
Definition SYS_getsockopt : Z := 209.
Definition SYS_shutdown : Z := 210.
Definition SYS_sendmsg : Z := 211.
Definition SYS_recvmsg : Z := 212.
Definition SYS_brk : Z := 214.
Definition SYS_munmap : Z := 215.
Definition SYS_mremap : Z := 216.
Definition SYS_add_key : Z := 217.
Definition SYS_request_key : Z := 218.
Definition SYS_keyctl : Z := 219.
Definition SYS_clone : Z := 220.
Definition SYS_execve : Z := 221.
Definition SYS_mmap : Z := 222.
Definition SYS_mprotect : Z := 226.
Definition SYS_madvise : Z := 233.
Definition SYS_rt_tgsigqueueinfo : Z := 240.
Definition SYS_accept4 : Z := 242.
Definition SYS_recvmmsg : Z := 243.
Definition SYS_wait4 : Z := 260.
Definition SYS_prlimit64 : Z := 261.
Definition SYS_syncfs : Z := 267.
Definition SYS_setns : Z := 268.
Definition SYS_sendmmsg : Z := 269.
Definition SYS_process_vm_readv : Z := 270.
Definition SYS_process_vm_writev : Z := 271.
Definition SYS_kcmp : Z := 272.
Definition SYS_sched_setattr : Z := 274.
Definition SYS_sched_getattr : Z := 275.
Definition SYS_renameat2 : Z := 276.
Definition SYS_seccomp : Z := 277.
Definition SYS_getrandom : Z := 278.
Definition SYS_bpf : Z := 280.
Definition SYS_execveat : Z := 281.
Definition SYS_copy_file_range : Z := 285.
Definition SYS_preadv2 : Z := 286.
Definition SYS_pwritev2 : Z := 287.
Definition SYS_statx : Z := 291.
Definition SYS_pidfd_send_signal : Z := 424.
Definition SYS_open_tree : Z := 428.
Definition SYS_move_mount : Z := 429.
Definition SYS_fsopen : Z := 430.
Definition SYS_fsconfig : Z := 431.
Definition SYS_fsmount : Z := 432.
Definition SYS_fspick : Z := 433.
Definition SYS_pidfd_open : Z := 434.
Definition SYS_clone3 : Z := 435.
Definition SYS_close_range : Z := 436.
Definition SYS_openat2 : Z := 437.
Definition SYS_faccessat2 : Z := 439.
Definition SYS_epoll_pwait2 : Z := 441.
Definition SYS_mount_setattr : Z := 442.
Definition SYS_landlock_create_ruleset : Z := 444.
Definition SYS_landlock_add_rule : Z := 445.
Definition SYS_landlock_restrict_self : Z := 446.
Definition SYS_fchmodat2 : Z := 452.

Definition F_DUPFD : Z := 0.
Definition F_GETFD : Z := 1.
Definition F_SETFD : Z := 2.
Definition F_GETFL : Z := 3.
Definition F_SETFL : Z := 4.
Definition F_DUPFD_CLOEXEC : Z := 1030.
Definition F_ADD_SEALS : Z := 1033.
Definition F_GET_SEALS : Z := 1034.
Definition FIONREAD : Z := 21531.
Definition FIONCLEX : Z := 21584.
Definition FIOCLEX : Z := 21585.
Definition TIOCGPGRP : Z := 21519.
Definition TIOCSPGRP : Z := 21520.
Definition TIOCGSID : Z := 21545.
Definition PROT_WRITE : Z := 2.
Definition PROT_EXEC : Z := 4.
Definition MAP_FIXED : Z := 16.
Definition MAP_ANONYMOUS : Z := 32.
Definition RLIMIT_NPROC : Z := 6.
Definition RLIMIT_NOFILE : Z := 7.
Definition PR_GET_DUMPABLE : Z := 3.
Definition PR_SET_DUMPABLE : Z := 4.
Definition PR_SET_NAME : Z := 15.
Definition PR_GET_NAME : Z := 16.
Definition PR_GET_SECCOMP : Z := 21.
Definition PR_SET_SECCOMP : Z := 22.
Definition PR_SET_CHILD_SUBREAPER : Z := 36.
Definition PR_GET_CHILD_SUBREAPER : Z := 37.
Definition FUTEX_LOCK_PI : Z := 6.
Definition FUTEX_UNLOCK_PI : Z := 7.
Definition FUTEX_TRYLOCK_PI : Z := 8.
Definition FUTEX_WAIT_REQUEUE_PI : Z := 11.
Definition FUTEX_CMP_REQUEUE_PI : Z := 12.
Definition FUTEX_LOCK_PI2 : Z := 13.
Definition FUTEX_CMD_MASK : Z := 4294966911.
Definition AUDIT_ARCH_AARCH64 : Z := 3221225655.
Definition ENOSYS : Z := 38.

Definition MD_INTERCEPT_DISPATCH : Z := 41.
Definition MD_INTERCEPT_EXEC : Z := 42.
Definition MD_INTERCEPT_OBSERVE : Z := 43.
Definition MD_INTERCEPT_NATIVE : Z := 44.
Definition MD_INTERCEPT_IDENTITY : Z := 45.
Definition MD_INTERCEPT_WATCH : Z := 46.
Definition MD_INTERCEPT_MEMORY : Z := 47.
Definition MD_INTERCEPT_FD : Z := 48.
Definition MD_INTERCEPT_CWD : Z := 49.
Definition MD_INTERCEPT_CAPTURE : Z := 50.
Definition MD_INTERCEPT_TASK : Z := 51.
Definition MD_INTERCEPT_PROC : Z := 52.
Definition MD_INTERCEPT_PROCESS : Z := 53.
Definition MD_INTERCEPT_READINESS : Z := 54.
Definition MD_INTERCEPT_CHECKPOINT : Z := 55.
Definition MD_INTERCEPT_CLOSE : Z := 32768.
Definition MD_INTERCEPT_CLOSE_MAX : Z := 32767.
Definition MD_GUEST_MAP_IMAGE : Z := 1296302337.
Definition MD_GUEST_SHM : Z := 1296302340.
Definition MD_GUEST_PROC_IMAGE : Z := 1296302342.
Definition MD_GUEST_IPC : Z := 1296302343.
Definition MD_GUEST_BUFFER : Z := 1296302344.
Definition MD_GUEST_FD_CHANNEL : Z := 1296302345.
Definition MD_GUEST_PROC_FILE : Z := 1296302347.
