(* ===== verification/FdFilter.v ===== *)
(** * Descriptor selectors and their filters
    (src/native/shroot/src/fd_filter_program.c, fd_selector.c).

    When a guest task gets a descriptor whose calls need mediation the runtime
    installs one more seccomp program, built by [md_fd_filter_build] for a class
    of descriptors and a descriptor number (modulo 512).  [finish] redirects
    every TRACE decision of the program to a tail that first lets the runtime's
    own gates through.  [md_fd_selector] records what is installed.

    The programs are lists of instructions; a policy [fd_policy] says in terms of
    the call's number and arguments what each should decide, and
    [fd_filter_decides] relates the two.  A sum is an [int] result: [inl] the
    program built, [inr] the error. *)
From S2P Require Import Prelude.
From S2P Require Import Bpf.
From S2P Require Import Syscalls.

Definition MD_FD_SELECTOR_MASK : Z := 511.
Definition MD_FD_SELECTOR_WATCH : Z := 0.
Definition MD_FD_SELECTOR_PROC : Z := 1.
Definition MD_FD_SELECTOR_EPOLL_TARGET : Z := 2.
Definition MD_FD_SELECTOR_EPOLL : Z := 3.
Definition MD_FD_SELECTOR_POLL : Z := 4.
Definition MD_FD_SELECTOR_KINDS : Z := 5.
Definition MD_FD_FILTER_INSTRUCTIONS : Z := 264.

Record md_fd_filter_gates := mk_gates { g_raw : Z; g_watch : Z; g_task : Z; g_native : Z }.
Definition gate_addresses (g : md_fd_filter_gates) : list Z := [g_raw g; g_watch g; g_task g; g_native g].

(** ** Gate exemptions *)

(** The low words of the addresses from number [j] on that share [hi]. *)
Fixpoint collect (hi : Z) (j : nat) (addresses lows : list Z) (seen : Z) : list Z * Z :=
  match addresses with
  | [] => (lows, seen)
  | a :: addresses =>
      if negb (a =? 0) && (high a =? hi) then
        collect hi (S j) addresses (if existsb (λ l, low a =? l) lows then lows else lows ++ [low a])
          (Z.lor seen (bit (Z.of_nat j)))
      else collect hi (S j) addresses lows seen
  end.
Definition exemption_group (hi : Z) (lows : list Z) : list sock_filter :=
  [ld (IP + 4); jeq hi 0 (1 + 2 * Z.of_nat (length lows)); ld IP] ++ call_table SECCOMP_RET_ALLOW lows.
Fixpoint exemptions_loop (i : nat) (addresses : list Z) (seen : Z) : list sock_filter :=
  match addresses with
  | [] => []
  | a :: rest =>
      if (a =? 0) || has_bits seen (bit (Z.of_nat i)) then exemptions_loop (S i) rest seen
      else let '(lows, seen) := collect (high a) i addresses [] seen in
           exemption_group (high a) lows ++ exemptions_loop (S i) rest seen
  end.
Definition exemptions (g : md_fd_filter_gates) : list sock_filter := exemptions_loop 0 (gate_addresses g) 0.

Definition traced (i : sock_filter) : bool :=
  (f_code i =? RET_K) && (Z.land (f_k i) SECCOMP_RET_ACTION_FULL =? SECCOMP_RET_TRACE).
(** [used]: the actions met so far and where their tails start. *)
Fixpoint finish_loop (g : md_fd_filter_gates) (idx : list nat) (code : list sock_filter) (used : list (Z * nat))
    : list sock_filter + Z :=
  match idx with
  | [] => inl code
  | i :: idx =>
      match code !! i with
      | Some insn =>
          if negb (traced insn) then finish_loop g idx code used
          else
            match List.find (λ u, u.1 =? f_k insn) used with
            | Some (_, target) =>
                finish_loop g idx (<[i := ja (Z.of_nat target - Z.of_nat i - 1)]> code) used
            | None =>
                if (3 =? Z.of_nat (length used)) || (MD_FD_FILTER_INSTRUCTIONS <? Z.of_nat (length code) + 21)
                then inr (- E2BIG)
                else
                  let target := length code in
                  let code := code ++ exemptions g ++ [ret (f_k insn)] in
                  finish_loop g idx (<[i := ja (Z.of_nat target - Z.of_nat i - 1)]> code) (used ++ [(f_k insn, target)])
            end
      | None => finish_loop g idx code used
      end
  end.
Definition finish (g : md_fd_filter_gates) (code : list sock_filter) : list sock_filter + Z :=
  finish_loop g (seq 0 (length code)) code [].

(** ** The programs *)

Definition DUPLICATES : list sock_filter :=
  call_table (trace MD_INTERCEPT_DISPATCH) [SYS_dup; SYS_dup3] ++
  [jeq SYS_fcntl 0 4;
   ld (ARG 1);
   jeq F_DUPFD 1 0;
   jeq F_DUPFD_CLOEXEC 0 1;
   ret (trace MD_INTERCEPT_DISPATCH);
   ret SECCOMP_RET_ALLOW].
Definition CONTROL (mask fd : Z) (n : Z) (argument : nat) (cookie : Z) : list sock_filter :=
  [jeq n 0 5;
   ld (ARG argument);
   alu_and mask;
   jeq (Z.land (wrap32 fd) mask) 0 1;
   ret (trace cookie);
   ld NR].
(** [PROC(n,argument)] for each entry of a list. *)
Definition PROCS (mask fd : Z) (l : list (Z * nat)) : list sock_filter :=
  l ≫= λ c, CONTROL mask fd c.1 c.2 MD_INTERCEPT_PROC.

Definition watch_program (mask fd : Z) : list sock_filter :=
  [jeq SYS_ioctl 0 4;
   ld (ARG 1);
   jeq FIONREAD 1 0;
   ret SECCOMP_RET_ALLOW;
   ld NR;
   jeq SYS_read 5 0;
   jeq SYS_readv 4 0;
   jeq SYS_ioctl 3 0;
   jeq SYS_splice 2 0;
   jeq SYS_tee 1 0;
   jeq SYS_sendfile 2 7;
   ld (ARG 0);
   ja 1;
   ld (ARG 1);
   alu_and mask;
   jeq (Z.land (wrap32 fd) mask) 0 1;
   ret (trace MD_INTERCEPT_WATCH);
   ret SECCOMP_RET_ALLOW].
Definition proc_control : list sock_filter :=
  [jeq SYS_ioctl 0 5;
   ld (ARG 1);
   jeq FIOCLEX 1 0;
   jeq FIONCLEX 0 1;
   ret SECCOMP_RET_ALLOW;
   ld NR;
   jeq SYS_mprotect 0 4;
   ld (ARG 2);
   jset PROT_WRITE 0 1;
   ret (trace MD_INTERCEPT_MEMORY);
   ret SECCOMP_RET_ALLOW].
Definition proc_data_calls : list (Z * nat) :=
  (λ n, (n, 0%nat)) <$> [SYS_read; SYS_write; SYS_readv; SYS_writev; SYS_pread64; SYS_pwrite64;
    SYS_preadv; SYS_pwritev; SYS_preadv2; SYS_pwritev2; SYS_lseek; SYS_ioctl].
Definition proc_mmap : list sock_filter :=
  [jeq SYS_mmap 0 4;
   ld (ARG 3);
   jset MAP_ANONYMOUS 0 1;
   ret SECCOMP_RET_ALLOW;
   ld NR].
Definition proc_file_calls : list (Z * nat) := [(SYS_mmap, 4%nat); (SYS_getdents64, 0%nat); (SYS_fstatfs, 0%nat)].
Definition proc_fcntl (mask fd : Z) : list sock_filter :=
  [jeq SYS_fcntl 0 10;
   ld (ARG 1);
   jeq F_GETFL 3 0;
   jeq F_SETFL 2 0;
   jeq F_GET_SEALS 1 0;
   jeq F_ADD_SEALS 0 5;
   ld (ARG 0);
   alu_and mask;
   jeq (Z.land (wrap32 fd) mask) 0 1;
   ret (trace MD_INTERCEPT_PROC);
   ret SECCOMP_RET_ALLOW;
   ld NR].
Definition proc_copy_calls : list (Z * nat) :=
  [(SYS_ftruncate, 0%nat); (SYS_fsync, 0%nat); (SYS_fdatasync, 0%nat);
   (SYS_sendfile, 0%nat); (SYS_sendfile, 1%nat); (SYS_splice, 0%nat); (SYS_splice, 2%nat);
   (SYS_tee, 0%nat); (SYS_tee, 1%nat); (SYS_copy_file_range, 0%nat); (SYS_copy_file_range, 2%nat)].

Definition md_fd_filter_code (kind fd : Z) : list sock_filter :=
  let mask := if fd =? -1 then 0 else MD_FD_SELECTOR_MASK in
  ld NR ::
  (if kind =? MD_FD_SELECTOR_WATCH then watch_program mask fd ++ DUPLICATES
   else if kind =? MD_FD_SELECTOR_PROC then
     proc_control ++ PROCS mask fd proc_data_calls ++ proc_mmap ++ PROCS mask fd proc_file_calls
     ++ proc_fcntl mask fd ++ PROCS mask fd proc_copy_calls ++ DUPLICATES
   else if kind =? MD_FD_SELECTOR_EPOLL_TARGET then
     CONTROL mask fd SYS_epoll_ctl 2 MD_INTERCEPT_READINESS ++ DUPLICATES
   else if kind =? MD_FD_SELECTOR_EPOLL then
     CONTROL mask fd SYS_epoll_ctl 0 MD_INTERCEPT_READINESS
     ++ CONTROL mask fd SYS_epoll_pwait 0 MD_INTERCEPT_READINESS
     ++ CONTROL mask fd SYS_epoll_pwait2 0 MD_INTERCEPT_READINESS ++ DUPLICATES
   else call_table (trace MD_INTERCEPT_DISPATCH) [SYS_ppoll; SYS_pselect6] ++ [ret SECCOMP_RET_ALLOW]).
Definition md_fd_filter_build (kind fd : Z) (gates : option md_fd_filter_gates) : list sock_filter + Z :=
  match gates with
  | None => inr (- EINVAL)
  | Some g =>
      if (fd <? -1) || (kind <? 0) || (MD_FD_SELECTOR_KINDS <=? kind) then inr (- EINVAL)
      else finish g (md_fd_filter_code kind fd)
  end.

(** ** Specification *)

(** The call comes from one of the runtime's gates. *)
Definition from_gate (g : md_fd_filter_gates) (d : seccomp_data) : bool :=
  existsb (λ a, negb (a =? 0) && (d_ip d =? a)) (gate_addresses g).
Definition through_gate (g : md_fd_filter_gates) (d : seccomp_data) (v : Z) : Z :=
  if (Z.land v SECCOMP_RET_ACTION_FULL =? SECCOMP_RET_TRACE) && from_gate g d then SECCOMP_RET_ALLOW else v.

Section policy.
Context (fd : Z) (d : seccomp_data).
(** Argument [a] names a descriptor of the selected class; -1 selects all. *)
Definition selected (a : nat) : bool :=
  (fd =? -1) || (Z.land (low (arg d a)) MD_FD_SELECTOR_MASK =? Z.land (wrap32 fd) MD_FD_SELECTOR_MASK).
Definition is_nr (n : Z) : bool := d_nr d =? n.
Definition argument_in (a : nat) (l : list Z) : bool := existsb (λ v, low (arg d a) =? v) l.
Definition selected_call (l : list (Z * nat)) : bool := existsb (λ c, is_nr c.1 && selected c.2) l.

Definition duplicates_policy : Z :=
  if is_call d [SYS_dup; SYS_dup3] || (is_nr SYS_fcntl && argument_in 1 [F_DUPFD; F_DUPFD_CLOEXEC])
  then trace MD_INTERCEPT_DISPATCH else SECCOMP_RET_ALLOW.
Definition watch_policy : Z :=
  if is_nr SYS_ioctl && negb (argument_in 1 [FIONREAD]) then SECCOMP_RET_ALLOW
  else if is_call d [SYS_read; SYS_readv; SYS_ioctl; SYS_splice; SYS_tee]
  then (if selected 0 then trace MD_INTERCEPT_WATCH else SECCOMP_RET_ALLOW)
  else if is_nr SYS_sendfile then (if selected 1 then trace MD_INTERCEPT_WATCH else SECCOMP_RET_ALLOW)
  else duplicates_policy.
Definition proc_policy : Z :=
  if is_nr SYS_ioctl && argument_in 1 [FIOCLEX; FIONCLEX] then SECCOMP_RET_ALLOW
  else if is_nr SYS_mprotect
  then (if has_bits (low (arg d 2)) PROT_WRITE then trace MD_INTERCEPT_MEMORY else SECCOMP_RET_ALLOW)
  else if selected_call proc_data_calls then trace MD_INTERCEPT_PROC
  else if is_nr SYS_mmap && has_bits (low (arg d 3)) MAP_ANONYMOUS then SECCOMP_RET_ALLOW
  else if selected_call proc_file_calls then trace MD_INTERCEPT_PROC
  else if is_nr SYS_fcntl && argument_in 1 [F_GETFL; F_SETFL; F_GET_SEALS; F_ADD_SEALS]
  then (if selected 0 then trace MD_INTERCEPT_PROC else SECCOMP_RET_ALLOW)
  else if selected_call proc_copy_calls then trace MD_INTERCEPT_PROC
  else duplicates_policy.
Definition fd_policy (kind : Z) : Z :=
  if kind =? MD_FD_SELECTOR_WATCH then watch_policy
  else if kind =? MD_FD_SELECTOR_PROC then proc_policy
  else if kind =? MD_FD_SELECTOR_EPOLL_TARGET then
    (if selected_call [(SYS_epoll_ctl, 2%nat)] then trace MD_INTERCEPT_READINESS else duplicates_policy)
  else if kind =? MD_FD_SELECTOR_EPOLL then
    (if selected_call [(SYS_epoll_ctl, 0%nat); (SYS_epoll_pwait, 0%nat); (SYS_epoll_pwait2, 0%nat)]
     then trace MD_INTERCEPT_READINESS else duplicates_policy)
  else if is_call d [SYS_ppoll; SYS_pselect6] then trace MD_INTERCEPT_DISPATCH else SECCOMP_RET_ALLOW.
End policy.

(** ** The blocks decide the policy *)

Section decisions.
Context (fd : Z) (d : seccomp_data).
Let mask := if fd =? -1 then 0 else MD_FD_SELECTOR_MASK.
Lemma selected_mask a : (Z.land (low (arg d a)) mask =? Z.land (wrap32 fd) mask) = selected fd d a.
Proof. unfold selected, mask. destruct (fd =? -1); cbn [orb]; [by rewrite !Z.land_0_r|done]. Qed.

Lemma control_decides n a cookie :
  (a < 6)%nat →
  decides d (CONTROL mask fd n a cookie) (if is_nr d n && selected fd d a then Some (trace cookie) else None).
Proof.
  intros Ha rest st Hst. unfold CONTROL, is_nr. cbn [app]. bpf_step. rewrite Hst.
  destruct (d_nr d =? n) eqn:En; cbn [andb]; [|by repeat bpf_step].
  rewrite (exec_ld d _ (low (arg d a))) by (by apply seccomp_load_arg).
  do 2 bpf_step. rewrite selected_mask. destruct (selected fd d a); repeat bpf_step; [done|].
  by rewrite set_a_id.
Qed.
Lemma procs_decides l :
  Forall (λ c, (c.2 < 6)%nat) l →
  decides d (PROCS mask fd l) (if selected_call fd d l then Some (trace MD_INTERCEPT_PROC) else None).
Proof.
  unfold PROCS, selected_call. induction 1 as [|c l Hc Hl IH]; [apply decides_nil|]. intros rest st Hst.
  etrans; [exact (decides_app d _ _ _ _ (control_decides c.1 c.2 MD_INTERCEPT_PROC Hc) IH rest st Hst)|].
  cbn [existsb]. by destruct (is_nr d c.1 && selected fd d c.2).
Qed.
Ltac bpf_select := bpf_run; rewrite ?selected_mask.
Lemma duplicates_decides : decides d DUPLICATES (Some (duplicates_policy d)).
Proof.
  intros rest st Hst. unfold DUPLICATES. rewrite <- app_assoc, call_table_decides by done. unfold duplicates_policy.
  destruct (is_call d _); cbn [orb]; [done|]. unfold is_nr, argument_in. cbn [app existsb]. bpf_select. rewrite Hst.
  destruct (d_nr d =? SYS_fcntl); cbn [andb]; [|done].
  by destruct (low (arg d 1) =? F_DUPFD), (low (arg d 1) =? F_DUPFD_CLOEXEC).
Qed.
Lemma watch_decides : decides d (watch_program mask fd ++ DUPLICATES) (Some (watch_policy fd d)).
Proof.
  intros rest st Hst. unfold watch_program, watch_policy, is_call, argument_in, is_nr. rewrite <- app_assoc. cbn [app existsb].
  bpf_select. rewrite !Hst. rewrite ?(set_a_id st) by done. rewrite !duplicates_decides by done.
  destruct (d_nr d =? SYS_ioctl), (low (arg d 1) =? FIONREAD), (d_nr d =? SYS_read), (d_nr d =? SYS_readv); cbn [andb orb negb];
    by destruct (d_nr d =? SYS_splice), (d_nr d =? SYS_tee), (d_nr d =? SYS_sendfile), (selected fd d 0), (selected fd d 1).
Qed.
Lemma proc_control_decides :
  decides d proc_control
    (if is_nr d SYS_ioctl && argument_in d 1 [FIOCLEX; FIONCLEX] then Some SECCOMP_RET_ALLOW
     else if is_nr d SYS_mprotect
     then Some (if has_bits (low (arg d 2)) PROT_WRITE then trace MD_INTERCEPT_MEMORY else SECCOMP_RET_ALLOW)
     else None).
Proof.
  intros rest st Hst. unfold proc_control, argument_in, is_nr. cbn [app existsb]. bpf_select. rewrite !Hst.
  rewrite ?(set_a_id st) by done.
  by destruct (d_nr d =? SYS_ioctl), (low (arg d 1) =? FIOCLEX), (low (arg d 1) =? FIONCLEX), (d_nr d =? SYS_mprotect),
    (has_bits (low (arg d 2)) PROT_WRITE).
Qed.
Lemma proc_mmap_decides :
  decides d proc_mmap
    (if is_nr d SYS_mmap && has_bits (low (arg d 3)) MAP_ANONYMOUS then Some SECCOMP_RET_ALLOW else None).
Proof.
  intros rest st Hst. unfold proc_mmap, is_nr. cbn [app]. bpf_select. rewrite !Hst. rewrite ?(set_a_id st) by done.
  by destruct (d_nr d =? SYS_mmap), (has_bits (low (arg d 3)) MAP_ANONYMOUS).
Qed.
Lemma proc_fcntl_decides :
  decides d (proc_fcntl mask fd)
    (if is_nr d SYS_fcntl && argument_in d 1 [F_GETFL; F_SETFL; F_GET_SEALS; F_ADD_SEALS]
     then Some (if selected fd d 0 then trace MD_INTERCEPT_PROC else SECCOMP_RET_ALLOW) else None).
Proof.
  intros rest st Hst. unfold proc_fcntl, is_nr, argument_in. cbn [app existsb]. bpf_select. rewrite !Hst.
  rewrite ?(set_a_id st) by done.
  destruct (d_nr d =? SYS_fcntl), (low (arg d 1) =? F_GETFL), (low (arg d 1) =? F_SETFL), (low (arg d 1) =? F_GET_SEALS),
    (low (arg d 1) =? F_ADD_SEALS); cbn [andb orb]; by destruct (selected fd d 0).
Qed.
Lemma fd_code_decides kind st :
  exec (seccomp_env d) (md_fd_filter_code kind fd) 0 st = Some (fd_policy fd d kind).
Proof.
  unfold md_fd_filter_code, fd_policy. fold mask. bpf_step.
  destruct (kind =? MD_FD_SELECTOR_WATCH); [by apply decides_run, watch_decides|].
  destruct (kind =? MD_FD_SELECTOR_PROC).
  { apply decides_run; [done|]. unfold proc_policy.
    assert (∀ l, l ∈ [proc_data_calls; proc_file_calls; proc_copy_calls] → Forall (λ c : Z * nat, (c.2 < 6)%nat) l) as Hl.
    { intros l Hl. repeat (apply elem_of_cons in Hl as [->|Hl]; [by repeat constructor; cbn; lia|]). by apply elem_of_nil in Hl. }
    eapply (decides_eq d); [repeat (eapply decides_app; [first [apply proc_control_decides|apply proc_mmap_decides
      |apply proc_fcntl_decides|apply procs_decides, Hl; set_solver]|]); apply duplicates_decides|].
    unfold first. by repeat case_match. }
  destruct (kind =? MD_FD_SELECTOR_EPOLL_TARGET).
  { apply decides_run; [done|]. eapply (decides_eq d); [eapply decides_app; [apply control_decides; lia|apply duplicates_decides]|].
    unfold selected_call. cbn. rewrite orb_false_r. by destruct (_ && _). }
  destruct (kind =? MD_FD_SELECTOR_EPOLL); apply decides_run; try done.
  - eapply (decides_eq d); [repeat (eapply decides_app; [apply control_decides; lia|]); apply duplicates_decides|].
    unfold selected_call. cbn [existsb fst snd]. rewrite orb_false_r. unfold first. by repeat case_match.
  - eapply (decides_eq d); [eapply decides_app; [apply call_table_decides|]|].
    { instantiate (1 := Some SECCOMP_RET_ALLOW). by intros rest st' _. }
    by destruct (is_call d _).
Qed.
End decisions.

(** ** Gate exemptions *)

Definition is_u64 (v : Z) : Prop := 0 ≤ v ≤ UINT64_MAX.
Lemma halves_inj a b : is_u64 a → is_u64 b → high a = high b → low a = low b → a = b.
Proof.
  intros Ha Hb Hh Hl. apply Z.bits_inj'. intros i Hi.
  assert (∀ v, is_u64 v → 64 ≤ i → Z.testbit v i = false) as Hbig.
  { intros v [Hv1 Hv2] H64. destruct (decide (v = 0)) as [->|]; [apply Z.bits_0|]. apply Z.bits_above_log2; [done|].
    apply Z.log2_lt_pow2; [lia|]. apply Z.lt_le_trans with (2 ^ 64); [unfold UINT64_MAX in *; lia|]. by apply Z.pow_le_mono_r. }
  assert (∀ j, 0 ≤ j < 32 → Z.testbit UINT32_MAX j = true) as Hones.
  { intros j Hj. change UINT32_MAX with (Z.ones 32). apply Z.ones_spec_low. lia. }
  destruct (decide (i < 32)) as [H32|H32].
  - apply (f_equal (λ v, Z.testbit v i)) in Hl. unfold low in Hl. rewrite !Z.land_spec, Hones, !andb_true_r in Hl by lia. done.
  - destruct (decide (i < 64)) as [H64|H64]; [|by rewrite !Hbig by (done || lia)].
    apply (f_equal (λ v, Z.testbit v (i - 32))) in Hh. unfold high in Hh.
    rewrite !Z.land_spec, !Z.shiftr_spec, Hones, !andb_true_r in Hh by lia. by replace (i - 32 + 32) with i in Hh by lia.
Qed.

(** Number [j] is marked in [seen]. *)
Definition marked (seen : Z) (j : nat) : bool := has_bits seen (bit (Z.of_nat j)).
Lemma marked_set seen j k : marked (Z.lor seen (bit (Z.of_nat j))) k = marked seen k || bool_decide (j = k).
Proof.
  unfold marked. rewrite !has_bits_bit by lia. unfold bit. rewrite Z.lor_spec, Z.shiftl_1_l. f_equal.
  destruct (decide (j = k)) as [->|Hne].
  - by rewrite bool_decide_eq_true_2, Z.pow2_bits_true by (done || lia).
  - rewrite bool_decide_eq_false_2, Z.pow2_bits_false by (done || lia). done.
Qed.
Lemma marked_0 j : marked 0 j = false.
Proof. unfold marked. by rewrite has_bits_bit, Z.bits_0 by lia. Qed.

Definition shares (hi a : Z) : bool := negb (a =? 0) && (high a =? hi).
Lemma collect_spec hi j l lows seen lows' seen' :
  collect hi j l lows seen = (lows', seen') →
  (∀ x, x ∈ lows' ↔ x ∈ lows ∨ ∃ a, a ∈ l ∧ shares hi a = true ∧ x = low a)
  ∧ (∀ k, marked seen' k = marked seen k || (bool_decide (j ≤ k)%nat && existsb (shares hi) (option_list (l !! (k - j)%nat))))
  ∧ (length lows' ≤ length lows + length (filter (λ a, shares hi a = true) l))%nat.
Proof.
  revert j lows seen. induction l as [|a l IH]; intros j lows seen; cbn [collect].
  { intros [= <- <-]. split_and!; [set_solver|intros k; by rewrite lookup_nil, andb_false_r, orb_false_r|cbn; lia]. }
  change (negb (a =? 0) && (high a =? hi)) with (shares hi a). intros Hc.
  assert (∀ k, bool_decide (S j ≤ k)%nat && existsb (shares hi) (option_list (l !! (k - S j)%nat))
     = bool_decide (j ≤ k)%nat && negb (bool_decide (j = k)) && existsb (shares hi) (option_list ((a :: l) !! (k - j)%nat))) as Hk.
  { intros k. destruct (decide (j = k)) as [->|].
    { rewrite (bool_decide_eq_false_2 (S k ≤ k)%nat), (bool_decide_eq_true_2 (k = k)) by lia. by rewrite andb_false_r. }
    rewrite (bool_decide_eq_false_2 (j = k)) by done. cbn. rewrite andb_true_r. destruct (decide (j < k)%nat).
    - rewrite !bool_decide_eq_true_2 by lia. by replace (k - j)%nat with (S (k - S j)) by lia.
    - by rewrite !bool_decide_eq_false_2 by lia. }
  destruct (shares hi a) eqn:Es.
  - apply IH in Hc as (Hin & Hm & Hlen). rewrite (filter_cons_True (λ a, shares hi a = true)) by done. split_and!.
    + intros x. rewrite Hin. clear -Es. destruct (existsb (λ l0, low a =? l0) lows) eqn:Ee.
      * apply existsb_exists in Ee as (y & Hy & Ey). breflect. apply list_elem_of_In in Hy. subst y. split; [|set_solver].
        intros [?|?]; [set_solver|set_solver].
      * set_solver.
    + intros k. rewrite Hm, marked_set, Hk. destruct (decide (j = k)) as [->|].
      * rewrite bool_decide_eq_true_2, (bool_decide_eq_true_2 (k ≤ k)%nat), Nat.sub_diag by lia. cbn. by rewrite Es, !orb_true_r.
      * rewrite (bool_decide_eq_false_2 (j = k)) by done. cbn. by rewrite orb_false_r, andb_true_r.
    + cbn [length]. destruct (existsb _ lows); [lia|]. rewrite length_app in Hlen. cbn in Hlen. lia.
  - apply IH in Hc as (Hin & Hm & Hlen). rewrite (filter_cons_False (λ a, shares hi a = true)) by (by rewrite Es). split_and!.
    + intros x. rewrite Hin. clear -Es. split; [set_solver|]. intros [?|(b & [->|Hb]%elem_of_cons & Hs & ->)]; [by left|congruence|set_solver].
    + intros k. rewrite Hm, Hk. destruct (decide (j = k)) as [->|].
      * rewrite (bool_decide_eq_true_2 (k ≤ k)%nat), Nat.sub_diag, (bool_decide_eq_true_2 (k = k)) by lia. cbn. by rewrite Es.
      * rewrite (bool_decide_eq_false_2 (j = k)) by done. cbn. by rewrite andb_true_r.
    + done.
Qed.

Lemma exec_group d hi lows rest st :
  exec (seccomp_env d) (exemption_group hi lows ++ rest) 0 st
  = if high (d_ip d) =? hi then
      if existsb (λ n, low (d_ip d) =? n) lows then Some SECCOMP_RET_ALLOW
      else exec (seccomp_env d) rest 0 (set_a st (low (d_ip d)))
    else exec (seccomp_env d) rest 0 (set_a st (high (d_ip d))).
Proof.
  unfold exemption_group. rewrite <- app_assoc. cbn [app]. bpf_step. rewrite exec_jeq. cbn [s_a set_a].
  destruct (high (d_ip d) =? hi).
  - change (Z.to_nat 0) with 0%nat. bpf_step. by rewrite exec_table.
  - replace (Z.to_nat (1 + 2 * Z.of_nat (length lows))) with (S (length (call_table SECCOMP_RET_ALLOW lows) + 0))
      by (rewrite length_call_table; lia).
    rewrite exec_skip. apply exec_skip_app.
Qed.
Lemma exemptions_loop_exec d k r i l seen st :
  Forall is_u64 l → is_u64 (d_ip d) →
  let result := exec (seccomp_env d) (exemptions_loop i l seen ++ ret k :: r) 0 st in
  ((∃ j, l !! j = Some (d_ip d) ∧ d_ip d ≠ 0 ∧ marked seen (i + j) = false) → result = Some SECCOMP_RET_ALLOW)
  ∧ ((∀ a, a ∈ l → a ≠ 0 → d_ip d ≠ a) → result = Some k).
Proof.
  intros Hl Hip. revert i seen st. induction Hl as [|a l Ha Hl IH]; intros i seen st; cbn [exemptions_loop].
  { split; [intros (j & Hj & _); by rewrite lookup_nil in Hj|done]. }
  fold (marked seen i). destruct ((a =? 0) || marked seen i) eqn:Eskip.
  { specialize (IH (S i) seen st) as [IHa IHk]. split; [|intros Hno; apply IHk; set_solver].
    intros ([|j] & Hj & Hnz & Hm); [|apply IHa; exists j; by rewrite Nat.add_succ_r in Hm].
    injection Hj as ->. rewrite Nat.add_0_r in Hm. apply Z.eqb_neq in Hnz. by rewrite Hnz, Hm in Eskip. }
  apply orb_false_iff in Eskip as [Enz Em]. destruct (collect (high a) i (a :: l) [] seen) as [lows seen'] eqn:Hc.
  apply collect_spec in Hc as (Hin & Hm & _). rewrite <- app_assoc. cbv zeta. rewrite exec_group.
  assert (existsb (λ n, low (d_ip d) =? n) lows = true ↔ ∃ b, b ∈ a :: l ∧ shares (high a) b = true ∧ low (d_ip d) = low b) as Hex.
  { rewrite existsb_exists. setoid_rewrite <- list_elem_of_In. split.
    - intros (x & Hx & E). breflect. apply Hin in Hx as [Hx|(b & ? & ? & ->)]; [by apply elem_of_nil in Hx|eauto].
    - intros (b & Hb & Hs & Hlow). exists (low b). rewrite Hin, Hlow. split; [right; eauto|apply Z.eqb_refl]. }
  assert (∀ b, b ∈ a :: l → shares (high a) b = true → high (d_ip d) = high a → low (d_ip d) = low b → d_ip d = b ∧ b ≠ 0) as Hsame.
  { intros b Hb Hs Hh Hlo. unfold shares in Hs. breflect. split; [|done]. apply halves_inj; try done; [|congruence].
    apply elem_of_cons in Hb as [->|Hb]; [done|]. rewrite Forall_forall in Hl. by apply Hl. }
  destruct (high (d_ip d) =? high a) eqn:Eh; breflect.
  - destruct (existsb (λ n, low (d_ip d) =? n) lows) eqn:Ee.
    + split; [done|]. intros Hno. destruct (proj1 Hex eq_refl) as (b & Hb & Hs & Hlo).
      destruct (Hsame b Hb Hs Eh Hlo) as [Heq Hnz]. by destruct (Hno b Hb Hnz).
    + specialize (IH (S i) seen' (set_a st (low (d_ip d)))) as [IHa IHk].
      split; [|intros Hno; apply IHk; set_solver]. intros (j & Hj & Hnz & Hmj).
      assert (false = true) as []%diff_false_true. apply Hex. exists (d_ip d). unfold shares. rewrite Eh, Z.eqb_refl.
      apply Z.eqb_neq in Hnz. rewrite Hnz. split; [by eapply list_elem_of_lookup_2|done].
  - specialize (IH (S i) seen' (set_a st (high (d_ip d)))) as [IHa IHk]. split; [|intros Hno; apply IHk; set_solver].
    intros ([|j] & Hj & Hnz & Hmj); [injection Hj as ->; congruence|]. apply IHa. exists j. split_and!; try done.
    rewrite Nat.add_succ_r in Hmj. cbn [Nat.add]. rewrite Hm, Hmj. cbn [orb].
    replace (S (i + j) - i)%nat with (S j) by lia. cbn [lookup list_lookup] in *. rewrite Hj. cbn.
    unfold shares. apply Z.eqb_neq in Eh. by rewrite Eh, !andb_false_r.
Qed.
Lemma exemptions_exec g d k r st :
  Forall is_u64 (gate_addresses g) → is_u64 (d_ip d) →
  exec (seccomp_env d) (exemptions g ++ ret k :: r) 0 st = Some (if from_gate g d then SECCOMP_RET_ALLOW else k).
Proof.
  intros Hg Hip. destruct (exemptions_loop_exec d k r 0 (gate_addresses g) 0 st Hg Hip) as [Ha Hk].
  unfold exemptions. destruct (from_gate g d) eqn:Ef.
  - apply Ha. unfold from_gate in Ef. apply existsb_exists in Ef as (a & Hin & E). breflect. subst a.
    apply list_elem_of_In, list_elem_of_lookup in Hin as [j Hj]. exists j. by rewrite marked_0.
  - apply Hk. intros a Hin Hnz Heq. apply not_true_iff_false in Ef. apply Ef, existsb_exists. exists a.
    split; [by apply list_elem_of_In|]. apply Z.eqb_neq in Hnz. by rewrite Hnz, Heq, Z.eqb_refl.
Qed.

(** At most five instructions per address. *)
Fixpoint pending (i : nat) (l : list Z) (seen : Z) : nat :=
  match l with
  | [] => 0
  | a :: l => (if (a =? 0) || marked seen i then 0 else 1) + pending (S i) l seen
  end.
(** Addresses with the same high word are marked together. *)
Definition coherent (i : nat) (l : list Z) (seen : Z) : Prop :=
  ∀ j k a b, l !! j = Some a → l !! k = Some b → a ≠ 0 → b ≠ 0 → high a = high b → marked seen (i + j) = marked seen (i + k).
Lemma coherent_cons i a l seen : coherent i (a :: l) seen → coherent (S i) l seen.
Proof. intros Hc j k x y Hj Hk. specialize (Hc (S j) (S k) x y Hj Hk). by rewrite !Nat.add_succ_r in Hc. Qed.
Lemma pending_collect hi i l seen seen' :
  (∀ j, marked seen' (i + j) = marked seen (i + j) || existsb (shares hi) (option_list (l !! j))) →
  (∀ j a, l !! j = Some a → shares hi a = true → marked seen (i + j) = false) →
  (pending i l seen' + length (filter (λ a, shares hi a = true) l) = pending i l seen)%nat.
Proof.
  revert i. induction l as [|a l IH]; intros i Hm Hs; [done|]. cbn [pending].
  assert (pending (S i) l seen' + length (filter (λ a, shares hi a = true) l) = pending (S i) l seen)%nat as IH'.
  { apply IH; intros j; [specialize (Hm (S j))|intros b Hb; specialize (Hs (S j) b Hb)]; by rewrite Nat.add_succ_r in *. }
  specialize (Hm 0%nat). rewrite Nat.add_0_r in Hm. cbn in Hm. rewrite orb_false_r in Hm. rewrite Hm.
  destruct (shares hi a) eqn:Ea.
  - rewrite (filter_cons_True (λ a, shares hi a = true)) by done. cbn [length]. specialize (Hs 0%nat a eq_refl Ea).
    rewrite Nat.add_0_r in Hs. rewrite Hs, !orb_true_r. unfold shares in Ea. breflect. apply Z.eqb_neq in H as ->. cbn. lia.
  - rewrite (filter_cons_False (λ a, shares hi a = true)) by (by rewrite Ea). rewrite orb_false_r. lia.
Qed.
Lemma exemptions_loop_length i l seen :
  coherent i l seen → (length (exemptions_loop i l seen) ≤ 5 * pending i l seen)%nat.
Proof.
  revert i seen. induction l as [|a l IH]; intros i seen Hc; cbn [exemptions_loop pending]; [done|]. fold (marked seen i).
  destruct ((a =? 0) || marked seen i) eqn:Eskip; [by apply IH, (coherent_cons i a)|].
  apply orb_false_iff in Eskip as [Enz Em]. assert (a ≠ 0) by (by apply Z.eqb_neq). destruct (collect (high a) i (a :: l) [] seen) as [lows seen'] eqn:Hcol.
  apply collect_spec in Hcol as (_ & Hm & Hlen). unfold exemption_group. rewrite !length_app, length_call_table. cbn [length] in *.
  assert (∀ j, marked seen' (i + j) = marked seen (i + j) || existsb (shares (high a)) (option_list ((a :: l) !! j))) as Hm'.
  { intros j. rewrite Hm, bool_decide_eq_true_2 by lia. by replace (i + j - i)%nat with j by lia. }
  assert (∀ j b, (a :: l) !! j = Some b → shares (high a) b = true → marked seen (i + j) = false) as Hfree.
  { intros j b Hb Hs. unfold shares in Hs. breflect. rewrite (Hc j 0%nat b a) by (reflexivity || done). by rewrite Nat.add_0_r. }
  pose proof (pending_collect (high a) i (a :: l) seen seen' Hm' Hfree) as Hp. cbn [pending] in Hp.
  assert (shares (high a) a = true) as Ha.
  { unfold shares. by rewrite Enz, Z.eqb_refl. }
  rewrite (filter_cons_True (λ a0, shares (high a) a0 = true)) in Hp, Hlen by done. cbn [length] in Hp, Hlen.
  rewrite Em, Enz in Hp. cbn [orb] in Hp.
  specialize (Hm' 0%nat) as Hm0. rewrite Nat.add_0_r, Em in Hm0. cbn in Hm0. rewrite Ha in Hm0. rewrite Hm0 in Hp. cbn in Hp.
  assert (coherent (S i) l seen') as Hc'.
  { intros j k x y Hj Hk Hx Hy Hh. pose proof (Hc (S j) (S k) x y Hj Hk Hx Hy Hh) as Hjk.
    pose proof (Hm' (S j)) as Hj'. pose proof (Hm' (S k)) as Hk'. rewrite !Nat.add_succ_r in *. cbn [Nat.add].
    rewrite Hj', Hk', Hjk. change ((a :: l) !! S j) with (l !! j). change ((a :: l) !! S k) with (l !! k).
    rewrite Hj, Hk. cbn. unfold shares. apply Z.eqb_neq in Hx, Hy. by rewrite Hx, Hy, Hh. }
  specialize (IH (S i) seen' Hc'). lia.
Qed.
Lemma exemptions_length g : (length (exemptions g) ≤ 20)%nat.
Proof.
  unfold exemptions. etrans; [apply exemptions_loop_length; by intros ?; intros; rewrite !marked_0|].
  unfold gate_addresses. cbn [pending]. repeat case_match; lia.
Qed.

(** ** Redirection of the TRACE decisions *)

Section finish.
Context (g : md_fd_filter_gates) (P : list sock_filter) (actions : list Z).
Implicit Types (code : list sock_filter) (used : list (Z * nat)).

(** A tail for action [a] starts at [t]. *)
Definition tail_at code (a : Z) (t : nat) : Prop :=
  (length P ≤ t)%nat ∧ ∃ r, drop t code = exemptions g ++ ret a :: r.
Record finish_inv (i : nat) code used : Prop := mk_finish_inv {
  fi_length : (length P ≤ length code ≤ length P + 21 * length used)%nat;
  fi_done : ∀ j p, P !! j = Some p → traced p = true → (j < i)%nat →
    ∃ t, tail_at code (f_k p) t ∧ code !! j = Some (ja (Z.of_nat t - Z.of_nat j - 1));
  fi_rest : ∀ j p, P !! j = Some p → traced p = false ∨ (i ≤ j)%nat → code !! j = Some p;
  fi_used : ∀ a t, (a, t) ∈ used → tail_at code a t;
  fi_actions : NoDup used.*1 ∧ used.*1 ⊆ actions }.

Lemma tail_insert code a t j x : (j < length P)%nat → tail_at code a t → tail_at (<[j := x]> code) a t.
Proof. intros Hj [Ht [r Hr]]. split; [done|]. exists r. by rewrite drop_insert_lt by lia. Qed.
Lemma tail_app code a t more : tail_at code a t → tail_at (code ++ more) a t.
Proof.
  intros [Ht [r Hr]]. split; [done|]. exists (r ++ more). rewrite drop_app_le, Hr, <- app_assoc; [done|].
  destruct (decide (t ≤ length code)%nat); [done|]. rewrite drop_ge in Hr by lia. by destruct (exemptions g).
Qed.
(** Instruction [i] redirected to a tail of [code]. *)
Lemma finish_redirect i p code used t :
  finish_inv i code used → P !! i = Some p → traced p = true → tail_at code (f_k p) t →
  finish_inv (S i) (<[i := ja (Z.of_nat t - Z.of_nat i - 1)]> code) used.
Proof.
  intros [Hlen Hdone Hrest Hused Hact] Hp Htr Ht. pose proof (lookup_lt_Some _ _ _ Hp) as Hi. split; try done.
  - by rewrite length_insert.
  - intros j q Hq Htq Hj. destruct (decide (j = i)) as [->|].
    + assert (q = p) as -> by congruence. exists t. split; [by apply tail_insert|]. apply list_lookup_insert_eq. lia.
    + destruct (Hdone j q Hq Htq) as (t' & Ht' & Hc); [lia|]. exists t'. split; [by apply tail_insert|].
      by rewrite list_lookup_insert_ne.
  - intros j q Hq Hor. rewrite list_lookup_insert_ne; [apply Hrest; naive_solver lia|]. intros ->.
    destruct Hor as [Hf|?]; [congruence|lia].
  - intros a t' Hin. apply tail_insert; [done|]. by apply Hused.
Qed.
Lemma finish_append i p code used :
  finish_inv i code used → P !! i = Some p → f_k p ∉ used.*1 → f_k p ∈ actions →
  finish_inv i (code ++ exemptions g ++ [ret (f_k p)]) (used ++ [(f_k p, length code)]).
Proof.
  intros [Hlen Hdone Hrest Hused [Hnd Hsub]] Hp Hnew Hact. split.
  - rewrite !length_app. pose proof (exemptions_length g). cbn [length]. lia.
  - intros j q Hq Htq Hj. destruct (Hdone j q Hq Htq Hj) as (t & Ht & Hc). exists t. split; [by apply tail_app|].
    rewrite lookup_app_l; [done|]. apply lookup_lt_Some in Hq. lia.
  - intros j q Hq Hor. rewrite lookup_app_l; [by apply Hrest|]. apply lookup_lt_Some in Hq. lia.
  - intros a t [Hin|Hin]%elem_of_app; [by apply tail_app, Hused|]. apply list_elem_of_singleton in Hin as [= -> ->].
    split; [lia|]. exists []. by rewrite drop_app_length.
  - rewrite fmap_app. cbn. split; [|set_solver]. apply NoDup_app. split_and!; [done|set_solver|apply NoDup_singleton].
Qed.
Hypothesis Hactions : ∀ p, p ∈ P → traced p = true → f_k p ∈ actions.
Hypothesis Hthree : (length actions ≤ 3)%nat.
Hypothesis Hsize : (length P ≤ 201)%nat.
Lemma finish_loop_inv n i code used :
  finish_inv i code used → (i + n = length P)%nat →
  ∃ code' used', finish_loop g (seq i n) code used = inl code' ∧ finish_inv (length P) code' used'.
Proof.
  revert i code used. induction n as [|n IH]; intros i code used Hinv Hn; cbn [seq finish_loop].
  { replace i with (length P) in Hinv by lia. eauto. }
  destruct (lookup_lt_is_Some_2 P i) as [p Hp]; [lia|]. rewrite (fi_rest _ _ _ Hinv i p Hp) by lia.
  destruct (traced p) eqn:Htr; cbn [negb].
  - assert (f_k p ∈ actions) as Ha by (eapply Hactions; [by eapply list_elem_of_lookup_2|done]).
    destruct (List.find (λ u, u.1 =? f_k p) used) as [[a t]|] eqn:Hf.
    + apply List.find_some in Hf as [Hin Ea]. cbn in Ea. breflect. subst a. apply list_elem_of_In in Hin.
      apply IH; [|lia]. eapply finish_redirect; [done..|]. by apply (fi_used _ _ _ Hinv).
    + assert (f_k p ∉ used.*1) as Hnew.
      { intros ([a t] & Hk & Hin)%list_elem_of_fmap. cbn in Hk. subst a. apply list_elem_of_In in Hin.
        pose proof (List.find_none _ _ Hf _ Hin) as Hne. cbn in Hne. by rewrite Z.eqb_refl in Hne. }
      destruct Hinv as [Hlen ? ? ? [Hnd Hsub]] eqn:Hi.
      assert (length used < 3)%nat as Hlt.
      { assert (length (f_k p :: used.*1) ≤ length actions)%nat as Hle.
        { apply submseteq_length, NoDup_submseteq; [by constructor|set_solver]. }
        cbn in Hle. rewrite length_fmap in Hle. lia. }
      destruct ((3 =? Z.of_nat (length used)) || (MD_FD_FILTER_INSTRUCTIONS <? Z.of_nat (length code) + 21)) eqn:Efull.
      { apply orb_true_iff in Efull as [E|E]; breflect; unfold MD_FD_FILTER_INSTRUCTIONS in *; lia. }
      apply IH; [|lia]. eapply finish_redirect; [by apply finish_append|done..|].
      split; [lia|]. exists []. by rewrite drop_app_length.
  - apply IH; [|lia]. destruct Hinv as [? Hdone Hrest ? ?]. split; try done.
    + intros j q Hq Htq Hj. apply Hdone; try done. destruct (decide (j = i)) as [->|]; [congruence|lia].
    + intros j q Hq [?|?]; apply Hrest; auto with lia.
Qed.
Lemma finish_ok :
  ∃ code used, finish g P = inl code ∧ finish_inv (length P) code used ∧ (length code ≤ 264)%nat.
Proof.
  destruct (finish_loop_inv (length P) 0 P []) as (code & used & Hf & Hinv); [|done|].
  { split; cbn; try done; [lia|intros; lia|intros ? ? []%elem_of_nil|split; [constructor|set_solver]]. }
  exists code, used. split_and!; try done. destruct Hinv as [Hlen _ _ _ [Hnd Hsub]].
  assert (length used.*1 ≤ length actions)%nat as Hle by (by apply submseteq_length, NoDup_submseteq).
  rewrite length_fmap in Hle. lia.
Qed.

Hypothesis Hplain : Forall (λ i, plain i = true) P.
Lemma finish_sim d code used p v st :
  finish_inv (length P) code used → Forall is_u64 (gate_addresses g) → is_u64 (d_ip d) →
  exec (seccomp_env d) (drop p P) 0 st = Some v → exec (seccomp_env d) (drop p code) 0 st = Some (through_gate g d v).
Proof using Hplain.
  clear Hactions Hthree Hsize. intros Hinv Hg Hip. apply redirect_sim with (sel := traced).
  - intros j q Hq Htr. pose proof (lookup_lt_Some _ _ _ Hq) as Hlt.
    destruct (fi_done _ _ _ Hinv j q Hq Htr Hlt) as (t & (Hge & r & Hr) & Hc). unfold traced in Htr. breflect.
    split; [done|]. exists t. split_and!; [lia|done|]. intros st'. rewrite Hr, exemptions_exec by done.
    unfold through_gate. apply Z.eqb_eq in H0. by rewrite H0.
  - intros j q Hq Htr. split; [by apply (fi_rest _ _ _ Hinv); auto|]. intros st' w Hs.
    assert (plain q = true) as Hpl by (rewrite Forall_forall in Hplain; by eapply Hplain, list_elem_of_lookup_2).
    unfold through_gate. destruct (step_return _ _ _ _ Hpl Hs) as [->|[Hk ->]]; [done|].
    unfold traced in Htr. rewrite Hk, Z.eqb_refl in Htr. cbn [andb] in Htr. by rewrite Htr.
Qed.
End finish.

Definition fd_actions (kind : Z) : list Z :=
  trace MD_INTERCEPT_DISPATCH ::
  (if kind =? MD_FD_SELECTOR_WATCH then [trace MD_INTERCEPT_WATCH]
   else if kind =? MD_FD_SELECTOR_PROC then [trace MD_INTERCEPT_MEMORY; trace MD_INTERCEPT_PROC]
   else [trace MD_INTERCEPT_READINESS]).
Definition selector_kind (kind : Z) : Prop := 0 ≤ kind < MD_FD_SELECTOR_KINDS.
Lemma fd_code_shape kind fd :
  selector_kind kind →
  (length (md_fd_filter_code kind fd) ≤ 201)%nat
  ∧ forallb plain (md_fd_filter_code kind fd) = true
  ∧ forallb (λ p, negb (traced p) || bool_decide (f_k p ∈ fd_actions kind)) (md_fd_filter_code kind fd) = true.
Proof.
  intros [H1 H2]. unfold MD_FD_SELECTOR_KINDS in H2.
  assert (kind = 0 ∨ kind = 1 ∨ kind = 2 ∨ kind = 3 ∨ kind = 4) as [->|[->|[->|[->| ->]]]] by lia;
    (split_and!; [vm_compute; lia|vm_compute; reflexivity|vm_compute; reflexivity]).
Qed.


(** ** Properties *)

(** C7: for every class of descriptors and every descriptor number
    [md_fd_filter_build] produces a program that fits its buffer, and the program
    decides every system call as the class's policy says, except that calls from
    the runtime's own gates are never traced. *)
Theorem fd_filter_decides kind fd g :
  selector_kind kind → -1 ≤ fd → Forall is_u64 (gate_addresses g) →
  ∃ prog, md_fd_filter_build kind fd (Some g) = inl prog
    ∧ Z.of_nat (length prog) ≤ MD_FD_FILTER_INSTRUCTIONS
    ∧ ∀ d, is_u64 (d_ip d) → run_filter prog d = Some (through_gate g d (fd_policy fd d kind)).
Proof.
  intros Hk Hfd Hg. destruct (fd_code_shape kind fd Hk) as (Hlen & Hplain & Hact).
  rewrite forallb_forall in Hplain, Hact. set (code := md_fd_filter_code kind fd) in *.
  destruct (finish_ok g code (fd_actions kind)) as (prog & used & Hf & Hinv & Hsize); [|..].
  - intros p Hp Htr. apply list_elem_of_In in Hp. specialize (Hact p Hp). rewrite Htr in Hact. by apply bool_decide_eq_true in Hact.
  - unfold fd_actions. repeat case_match; cbn; lia.
  - done.
  - exists prog. split_and!.
    + unfold md_fd_filter_build. unfold selector_kind in Hk.
      replace ((fd <? -1) || (kind <? 0) || (MD_FD_SELECTOR_KINDS <=? kind)) with false; [done|].
      symmetry. rewrite !orb_false_iff, !Z.ltb_ge, Z.leb_gt. lia.
    + unfold MD_FD_FILTER_INSTRUCTIONS. lia.
    + intros d Hip. apply (finish_sim g code (fd_actions kind)) with (p := 0%nat) (used := used); try done.
      * apply Forall_forall. intros i Hi. apply Hplain. by apply list_elem_of_In.
      * apply fd_code_decides.
Qed.
Lemma fd_filter_decides_witness :
  ∃ prog, md_fd_filter_build MD_FD_SELECTOR_EPOLL 7 (Some (mk_gates 4294967296 0 4294967300 8589934592)) = inl prog
    ∧ run_filter prog (mk_data SYS_epoll_ctl AUDIT_ARCH_AARCH64 12345 [519; 0; 0; 0; 0; 0]) = Some (trace MD_INTERCEPT_READINESS).
Proof.
  destruct (fd_filter_decides MD_FD_SELECTOR_EPOLL 7 (mk_gates 4294967296 0 4294967300 8589934592)) as (prog & Hb & _ & Hd).
  - unfold selector_kind, MD_FD_SELECTOR_EPOLL, MD_FD_SELECTOR_KINDS. lia.
  - lia.
  - unfold gate_addresses, is_u64, UINT64_MAX. repeat constructor; cbn; lia.
  - exists prog. split; [done|]. rewrite Hd; [vm_compute; reflexivity|]. unfold is_u64, UINT64_MAX. cbn. lia.
Defined.
