(* ===== verification/FdSelector.v ===== *)
(** * Record of installed descriptor selectors (src/native/shroot/src/fd_selector.c).

    Seccomp filters cannot be removed, so a thread group remembers which selector
    classes it has installed: a flag per kind for "every descriptor" and a lazily
    allocated bitmap of the 512 descriptor classes.  Selector objects live in a
    heap because threads share them; [calloc] and [malloc] outcomes are
    arguments. *)
From S2P Require Import Prelude.
From S2P Require Import NetworkIp.
From S2P Require Import FdFilter.

Abbreviation loc := positive (only parsing).

Definition BYTES : Z := (MD_FD_SELECTOR_MASK + 1) / 8.
Definition MD_FD_SELECTOR_BUDGET : Z := 16384.
(** [sl_bits]: [NULL] or [BYTES] octets for each kind. *)
Record md_fd_selector := mk_selector {
  sl_references : Z; sl_all : Z; sl_instructions : Z; sl_bits : list (option (list Z)) }.
Definition selectors := gmap loc md_fd_selector.

Definition empty_selector : md_fd_selector := mk_selector 1 0 0 (replicate (Z.to_nat MD_FD_SELECTOR_KINDS) None).
Definition md_fd_selector_new (h : selectors) (calloc : bool) : selectors * option loc :=
  if negb calloc then (h, None)
  else let l := fresh (dom h) in (<[l := empty_selector]> h, Some l).
Definition md_fd_selector_release (h : selectors) (a : option loc) : selectors :=
  match a with
  | None => h
  | Some l =>
      match h !! l with
      | Some s =>
          let references := wrap32 (sl_references s - 1) in
          if negb (references =? 0)
          then <[l := mk_selector references (sl_all s) (sl_instructions s) (sl_bits s)]> h
          else delete l h
      | None => h
      end
  end.
(** The bitmaps copied so far, [None] when an allocation failed. *)
Fixpoint copy_bits (malloc : nat → bool) (i : nat) (bits : list (option (list Z))) : option (list (option (list Z))) :=
  match bits with
  | [] => Some []
  | None :: bits => cons None <$> copy_bits malloc (S i) bits
  | Some b :: bits => if malloc i then cons (Some b) <$> copy_bits malloc (S i) bits else None
  end.
Definition md_fd_selector_fork (h : selectors) (a : loc) (shared calloc : bool) (malloc : nat → bool)
    : selectors * option loc :=
  match h !! a with
  | None => (h, None)
  | Some s =>
      if shared
      then (<[a := mk_selector (wrap32 (sl_references s + 1)) (sl_all s) (sl_instructions s) (sl_bits s)]> h, Some a)
      else
        let '(h1, copy) := md_fd_selector_new h calloc in
        match copy with
        | None => (h1, None)
        | Some c =>
            match copy_bits malloc 0 (sl_bits s) with
            | None => (md_fd_selector_release h1 (Some c), None)
            | Some bits => (<[c := mk_selector 1 (sl_all s) (sl_instructions s) bits]> h1, Some c)
            end
        end
  end.

Definition set_bits (s : md_fd_selector) (kind : Z) (b : list Z) : md_fd_selector :=
  mk_selector (sl_references s) (sl_all s) (sl_instructions s) (<[Z.to_nat kind := Some b]> (sl_bits s)).
Definition kind_bits (s : md_fd_selector) (kind : Z) : option (list Z) := sl_bits s !!! Z.to_nat kind.
Definition bit_set (b : list Z) (fd : Z) : bool := has_bits (byte b (Z.to_nat (fd / 8))) (bit (fd mod 8)).
Definition md_fd_selector_has (s : option md_fd_selector) (kind fd : Z) (calloc : bool) : option md_fd_selector * Z :=
  match s with
  | None => (s, - EINVAL)
  | Some a =>
      if (MD_FD_SELECTOR_KINDS <=? kind) || (fd <? -1) then (s, - EINVAL)
      else
        let fd := if kind =? MD_FD_SELECTOR_POLL then -1 else fd in
        if has_bits (sl_all a) (bit kind) then (s, 1)
        else if fd =? -1 then (s, 0)
        else
          let fd := Z.land fd MD_FD_SELECTOR_MASK in
          match kind_bits a kind with
          | Some b => (s, if bit_set b fd then 1 else 0)
          | None =>
              if negb calloc then (s, - ENOMEM)
              else let b := zeros (Z.to_nat BYTES) in (Some (set_bits a kind b), if bit_set b fd then 1 else 0)
          end
  end.
Fixpoint has_mask_loop (kinds : list Z) (s : option md_fd_selector) (mask fd : Z) (calloc : Z → bool)
    : option md_fd_selector * Z :=
  match kinds with
  | [] => (s, 1)
  | kind :: kinds =>
      if has_bits mask (bit kind) then
        let '(s, result) := md_fd_selector_has s kind fd (calloc kind) in
        if result <=? 0 then (s, result) else has_mask_loop kinds s mask fd calloc
      else has_mask_loop kinds s mask fd calloc
  end.
Definition md_fd_selector_has_mask (s : option md_fd_selector) (mask fd : Z) (calloc : Z → bool)
    : option md_fd_selector * Z :=
  if bool_decide (s = None) || (fd <? -1) || negb (Z.ldiff mask (bit MD_FD_SELECTOR_KINDS - 1) =? 0) then (s, - EINVAL)
  else has_mask_loop (seqZ 0 MD_FD_SELECTOR_KINDS) s mask fd calloc.
Definition md_fd_selector_mark (s : option md_fd_selector) (kind fd : Z) : option md_fd_selector * Z :=
  match s with
  | None => (s, - EINVAL)
  | Some a =>
      if (MD_FD_SELECTOR_KINDS <=? kind) || (fd <? -1) then (s, - EINVAL)
      else
        let fd := if kind =? MD_FD_SELECTOR_POLL then -1 else fd in
        if fd =? -1 then
          let all := Z.lor (sl_all a) (bit kind) in
          let all := if kind =? MD_FD_SELECTOR_PROC then Z.lor all (bit MD_FD_SELECTOR_WATCH) else all in
          (Some (mk_selector (sl_references a) all (sl_instructions a) (sl_bits a)), 0)
        else
          let fd := Z.land fd MD_FD_SELECTOR_MASK in
          match kind_bits a kind with
          | None => (s, - EINVAL)
          | Some b =>
              let at_ := Z.to_nat (fd / 8) in
              (Some (set_bits a kind (<[at_ := Z.lor (byte b at_) (bit (fd mod 8))]> b)), 0)
          end
  end.
Definition md_fd_selector_target (s : option md_fd_selector) (fd instructions : Z) : Z :=
  match s with
  | None => - EINVAL
  | Some a =>
      if (fd <? -1) || (instructions =? 0) || (4096 <? instructions) then - EINVAL
      else if MD_FD_SELECTOR_BUDGET <? wrap32 (sl_instructions a + instructions + 4) then -1 else fd
  end.
Definition md_fd_selector_installed (s : option md_fd_selector) (kind fd instructions : Z) : option md_fd_selector * Z :=
  if (instructions =? 0) || (4096 <? instructions) then (s, - EINVAL)
  else
    let '(s, error) := md_fd_selector_mark s kind fd in
    if error =? 0 then
      (match s with
       | Some a => Some (mk_selector (sl_references a) (sl_all a) (wrap32 (sl_instructions a + (instructions + 4))) (sl_bits a))
       | None => None
       end, error)
    else (s, error).

(** ** Specification: the set of covered (kind, descriptor) pairs *)

(** A call of the kind on the descriptor is mediated by an installed filter. *)
Definition covered_by (a : md_fd_selector) (kind fd : Z) : bool :=
  has_bits (sl_all a) (bit kind)
  || match kind_bits a kind with Some b => bit_set b (Z.land fd MD_FD_SELECTOR_MASK) | None => false end.
(** What marking (kind, fd) adds. *)
Definition marks (kind fd k f : Z) : bool :=
  if (fd =? -1) || (kind =? MD_FD_SELECTOR_POLL)
  then (k =? kind) || ((kind =? MD_FD_SELECTOR_PROC) && (k =? MD_FD_SELECTOR_WATCH))
  else (k =? kind) && (Z.land f MD_FD_SELECTOR_MASK =? Z.land fd MD_FD_SELECTOR_MASK).
Record selector_ok (a : md_fd_selector) : Prop := mk_selector_ok {
  so_kinds : length (sl_bits a) = Z.to_nat MD_FD_SELECTOR_KINDS;
  so_bytes : ∀ k b, sl_bits a !! k = Some (Some b) → length b = Z.to_nat BYTES }.

Lemma class_range fd : 0 ≤ Z.land fd MD_FD_SELECTOR_MASK < 512.
Proof.
  change MD_FD_SELECTOR_MASK with (Z.ones 9). rewrite Z.land_ones by lia. apply Z.mod_pos_bound. lia.
Qed.
Lemma bit_set_insert b i j :
  0 ≤ i < 512 → 0 ≤ j < 512 → length b = Z.to_nat BYTES →
  bit_set (<[Z.to_nat (i / 8) := Z.lor (byte b (Z.to_nat (i / 8))) (bit (i mod 8))]> b) j = bit_set b j || (j =? i).
Proof.
  intros Hi Hj Hb. unfold bit_set. rewrite !has_bits_bit by divlia. unfold byte.
  assert (Z.to_nat BYTES = 64)%nat as HB by reflexivity.
  destruct (decide (j / 8 = i / 8)) as [E|E].
  - rewrite E, list_lookup_insert_eq by (rewrite Hb, HB; divlia). cbn. rewrite Z.lor_spec. f_equal.
    unfold bit. rewrite Z.shiftl_1_l. destruct (Z.eqb_spec j i) as [->|Hne]; [apply Z.pow2_bits_true; divlia|].
    apply Z.pow2_bits_false. divlia.
  - rewrite list_lookup_insert_ne by divlia. destruct (Z.eqb_spec j i); [divlia|]. by rewrite orb_false_r.
Qed.
Lemma kind_bits_insert a kind b k :
  selector_ok a → 0 ≤ kind < MD_FD_SELECTOR_KINDS → 0 ≤ k < MD_FD_SELECTOR_KINDS →
  kind_bits (set_bits a kind b) k = if k =? kind then Some b else kind_bits a k.
Proof.
  intros Ha Hk Hk'. unfold kind_bits, set_bits. cbn [sl_bits]. destruct (Z.eqb_spec k kind) as [->|Hne].
  - rewrite list_lookup_total_insert_eq; [done|]. rewrite (so_kinds _ Ha). unfold MD_FD_SELECTOR_KINDS in *. lia.
  - rewrite list_lookup_total_insert_ne; [done|]. lia.
Qed.
Lemma set_bits_ok a kind b :
  selector_ok a → length b = Z.to_nat BYTES → selector_ok (set_bits a kind b).
Proof.
  intros [Hk Hb] Hlen. split; cbn; [by rewrite length_insert|]. intros k c Hc.
  apply list_lookup_insert_Some in Hc as [(_ & [= <-] & _)|[_ Hc]]; [done|by eapply Hb].
Qed.
Lemma bit_set_zeros i : bit_set (zeros (Z.to_nat BYTES)) i = false.
Proof.
  unfold bit_set, byte, zeros. destruct (replicate _ 0 !! _) as [x|] eqn:E; [|done].
  apply lookup_replicate in E as [-> _]. cbn. unfold has_bits. by rewrite Z.land_0_l.
Qed.
Lemma kind_bits_bytes a kind b :
  selector_ok a → 0 ≤ kind < MD_FD_SELECTOR_KINDS → kind_bits a kind = Some b → length b = Z.to_nat BYTES.
Proof.
  intros Ha Hk Hb. apply (so_bytes _ Ha (Z.to_nat kind)). rewrite <- Hb. unfold kind_bits. apply list_lookup_lookup_total_lt.
  rewrite (so_kinds _ Ha). unfold MD_FD_SELECTOR_KINDS in *. lia.
Qed.
Lemma all_bit a kind k : 0 ≤ kind → 0 ≤ k → has_bits (Z.lor a (bit kind)) (bit k) = has_bits a (bit k) || (k =? kind).
Proof.
  intros Hk Hk'. rewrite !has_bits_bit by done. unfold bit. rewrite Z.lor_spec, Z.shiftl_1_l. f_equal.
  destruct (Z.eqb_spec k kind) as [->|]; [by apply Z.pow2_bits_true|]. by apply Z.pow2_bits_false.
Qed.
Lemma mark_covers a kind fd a' :
  selector_ok a → 0 ≤ kind < MD_FD_SELECTOR_KINDS → md_fd_selector_mark (Some a) kind fd = (Some a', 0) →
  selector_ok a' ∧ ∀ k f, 0 ≤ k < MD_FD_SELECTOR_KINDS → covered_by a' k f = covered_by a k f || marks kind fd k f.
Proof.
  intros Ha Hk. unfold md_fd_selector_mark. destruct ((MD_FD_SELECTOR_KINDS <=? kind) || (fd <? -1)); [done|].
  assert (((if kind =? MD_FD_SELECTOR_POLL then -1 else fd) =? -1) = (fd =? -1) || (kind =? MD_FD_SELECTOR_POLL)) as ->.
  { destruct (kind =? MD_FD_SELECTOR_POLL); [by rewrite orb_true_r|by rewrite orb_false_r]. }
  destruct ((fd =? -1) || (kind =? MD_FD_SELECTOR_POLL)) eqn:Eall.
  - intros [= <-]. split; [by destruct Ha|]. intros k f Hk'. unfold covered_by, marks. rewrite Eall. cbn [sl_all sl_bits kind_bits].
    assert (has_bits (if kind =? MD_FD_SELECTOR_PROC then Z.lor (Z.lor (sl_all a) (bit kind)) (bit MD_FD_SELECTOR_WATCH)
      else Z.lor (sl_all a) (bit kind)) (bit k)
      = has_bits (sl_all a) (bit k) || ((k =? kind) || ((kind =? MD_FD_SELECTOR_PROC) && (k =? MD_FD_SELECTOR_WATCH)))) as ->.
    { destruct (kind =? MD_FD_SELECTOR_PROC); cbn [andb]; rewrite !all_bit by (unfold MD_FD_SELECTOR_WATCH; lia); btauto. }
    unfold kind_bits. cbn [sl_bits]. btauto.
  - apply orb_false_iff in Eall as [Efd Epoll]. rewrite Epoll. destruct (kind_bits a kind) as [b|] eqn:Hb; [|done].
    intros [= <-]. pose proof (kind_bits_bytes _ _ _ Ha Hk Hb) as Hlen.
    split; [apply set_bits_ok; by rewrite ?length_insert|]. intros k f Hk'. unfold covered_by, marks. rewrite Efd, Epoll. cbn [orb].
    rewrite kind_bits_insert by done. destruct (Z.eqb_spec k kind) as [->|]; cbn [andb]; [|by rewrite orb_false_r].
    rewrite bit_set_insert by (done || apply class_range). rewrite Hb. cbn [sl_all set_bits]. btauto.
Qed.
Lemma has_answers a kind fd calloc a' r :
  selector_ok a → 0 ≤ kind < MD_FD_SELECTOR_KINDS → -1 ≤ fd → md_fd_selector_has (Some a) kind fd calloc = (Some a', r) →
  selector_ok a' ∧ (∀ k f, 0 ≤ k < MD_FD_SELECTOR_KINDS → covered_by a' k f = covered_by a k f)
  ∧ (r = - ENOMEM ∨ r = if covered_by a kind fd && negb ((fd =? -1) && negb (has_bits (sl_all a) (bit kind)))
                          && negb ((kind =? MD_FD_SELECTOR_POLL) && negb (has_bits (sl_all a) (bit kind))) then 1 else 0).
Proof.
  intros Ha Hk Hfd. unfold md_fd_selector_has, covered_by.
  replace ((MD_FD_SELECTOR_KINDS <=? kind) || (fd <? -1)) with false by (symmetry; apply orb_false_iff; split; [apply Z.leb_gt|apply Z.ltb_ge]; lia).
  destruct (has_bits (sl_all a) (bit kind)) eqn:Eall; [intros [= <- <-]; cbn; rewrite !andb_false_r; auto|].
  destruct (kind =? MD_FD_SELECTOR_POLL); [intros [= <- <-]; cbn; rewrite !andb_false_r; auto|].
  destruct (fd =? -1); [intros [= <- <-]; cbn; rewrite !andb_false_r; auto|]. cbn [andb orb negb]. rewrite !andb_true_r.
  destruct (kind_bits a kind) as [b|] eqn:Hb; [intros [= <- <-]; auto|].
  destruct calloc; cbn [negb]; intros [= <- <-]; [|auto]. rewrite bit_set_zeros.
  split_and!; [apply set_bits_ok; [done|apply length_replicate]| |by right].
  intros k f Hk'. rewrite kind_bits_insert by done. destruct (Z.eqb_spec k kind) as [->|]; [|done].
  by rewrite Hb, bit_set_zeros.
Qed.

(** ** Properties *)

(** The record of installed selectors is exact: marking adds precisely the
    pairs that the filter built for it mediates, queries answer membership
    without changing it, and a selector of every descriptor covers its kind. *)
Theorem selector_tracks a kind fd a' calloc b r :
  selector_ok a → 0 ≤ kind < MD_FD_SELECTOR_KINDS → -1 ≤ fd →
  md_fd_selector_mark (Some a) kind fd = (Some a', 0) → md_fd_selector_has (Some a') kind fd calloc = (Some b, r) →
  r = 1 ∧ selector_ok b
  ∧ ∀ k f, 0 ≤ k < MD_FD_SELECTOR_KINDS → covered_by b k f = covered_by a k f || marks kind fd k f.
Proof.
  intros Ha Hk Hfd Hm Hh. destruct (mark_covers _ _ _ _ Ha Hk Hm) as [Ha' Hcov].
  assert (covered_by a' kind fd = true) as Hself.
  { rewrite Hcov by done. unfold marks. rewrite Z.eqb_refl. destruct ((fd =? -1) || (kind =? MD_FD_SELECTOR_POLL)); cbn;
      rewrite ?Z.eqb_refl; apply orb_true_r. }
  destruct (has_answers _ _ _ _ _ _ Ha' Hk Hfd Hh) as (Hb & Hsame & Hr). split_and!; [|done|intros k f Hk'; by rewrite Hsame, Hcov].
  rewrite Hself in Hr. cbn [andb] in Hr.
  assert ((fd =? -1) || (kind =? MD_FD_SELECTOR_POLL) = true → has_bits (sl_all a') (bit kind) = true) as Hall.
  { intros E. unfold md_fd_selector_mark in Hm. destruct ((MD_FD_SELECTOR_KINDS <=? kind) || (fd <? -1)); [done|].
    replace ((if kind =? MD_FD_SELECTOR_POLL then -1 else fd) =? -1) with true in Hm
      by (destruct (kind =? MD_FD_SELECTOR_POLL); [done|by rewrite orb_false_r in E]).
    injection Hm as <-. cbn [sl_all]. destruct (kind =? MD_FD_SELECTOR_PROC); rewrite !all_bit by (unfold MD_FD_SELECTOR_WATCH; lia);
      rewrite Z.eqb_refl; btauto. }
  destruct Hr as [->|Hr].
  - exfalso. unfold md_fd_selector_has in Hh. unfold md_fd_selector_mark in Hm.
    destruct ((MD_FD_SELECTOR_KINDS <=? kind) || (fd <? -1)); [done|]. revert Hh.
    destruct (has_bits (sl_all a') (bit kind)) eqn:E; [done|].
    destruct ((fd =? -1) || (kind =? MD_FD_SELECTOR_POLL)) eqn:E2; [by specialize (Hall eq_refl)|].
    apply orb_false_iff in E2 as [E2 E3]. rewrite E3, E2 in *. destruct (kind_bits a kind) as [x|] eqn:Hx; [|done].
    injection Hm as <-. rewrite kind_bits_insert, Z.eqb_refl by done. by case_match.
  - rewrite Hr. destruct (has_bits (sl_all a') (bit kind)); cbn [negb]; [by rewrite !andb_false_r|].
    destruct (fd =? -1), (kind =? MD_FD_SELECTOR_POLL); [by specialize (Hall eq_refl)..|done].
Qed.
Definition sample_selector : md_fd_selector := set_bits empty_selector MD_FD_SELECTOR_WATCH (zeros 64).
Lemma selector_tracks_witness :
  ∃ b, md_fd_selector_has (fst (md_fd_selector_mark (Some sample_selector) MD_FD_SELECTOR_WATCH 515)) MD_FD_SELECTOR_WATCH 515 false = (Some b, 1)
    ∧ covered_by b MD_FD_SELECTOR_WATCH 3 = true ∧ covered_by b MD_FD_SELECTOR_WATCH 4 = false.
Proof.
  destruct (selector_tracks sample_selector MD_FD_SELECTOR_WATCH 515
    (set_bits sample_selector MD_FD_SELECTOR_WATCH (8 :: zeros 63)) false
    (set_bits sample_selector MD_FD_SELECTOR_WATCH (8 :: zeros 63)) 1) as (_ & _ & Hc).
  - split; [reflexivity|]. intros [|[|[|[|[|k]]]]] b Hb; try done. by injection Hb as <-.
  - unfold MD_FD_SELECTOR_WATCH, MD_FD_SELECTOR_KINDS. lia.
  - lia.
  - reflexivity.
  - reflexivity.
  - eexists. split; [reflexivity|]. rewrite !Hc by (unfold MD_FD_SELECTOR_WATCH, MD_FD_SELECTOR_KINDS; lia). by split.
Defined.
