(* ===== verification/PidFilter.v ===== *)
(** * The filter of pid namespaces (src/native/shroot/src/pid_filter_program.c).

    A launch that uses a pid namespace installs one program that sends every
    call carrying process numbers to the supervisor, except those the runtime
    itself issues from its gate. *)
From S2P Require Import Prelude.
From S2P Require Import Bpf.
From S2P Require Import Syscalls.
From S2P Require Import FdFilter.

Definition MD_PID_FILTER_INSTRUCTIONS : Z := 128.
Definition PROCESS : Z := trace MD_INTERCEPT_PROCESS.

Definition pid_futex : list sock_filter :=
  [jeq SYS_futex 0 10;
   ld (ARG 1);
   alu_and FUTEX_CMD_MASK;
   jeq FUTEX_LOCK_PI 6 0;
   jeq FUTEX_UNLOCK_PI 5 0;
   jeq FUTEX_TRYLOCK_PI 4 0;
   jeq FUTEX_WAIT_REQUEUE_PI 3 0;
   jeq FUTEX_CMP_REQUEUE_PI 2 0;
   jeq FUTEX_LOCK_PI2 1 0;
   ret SECCOMP_RET_ALLOW;
   ret PROCESS;
   ld NR].
Definition process_calls : list Z :=
  [SYS_getpid; SYS_gettid; SYS_getppid; SYS_set_tid_address;
   SYS_kill; SYS_tkill; SYS_tgkill; SYS_wait4; SYS_waitid;
   SYS_getpgid; SYS_getsid; SYS_setpgid; SYS_setsid;
   SYS_pidfd_open; SYS_pidfd_send_signal; SYS_rt_sigqueueinfo; SYS_rt_tgsigqueueinfo; SYS_rt_sigtimedwait;
   SYS_sched_getaffinity; SYS_sched_setaffinity; SYS_sched_getparam; SYS_sched_setparam;
   SYS_sched_getscheduler; SYS_sched_setscheduler; SYS_sched_getattr; SYS_sched_setattr;
   SYS_sched_rr_get_interval; SYS_get_robust_list; SYS_prlimit64;
   SYS_ioprio_get; SYS_ioprio_set;
   SYS_process_vm_readv; SYS_process_vm_writev; SYS_kcmp].
Definition pid_ioctl : list sock_filter :=
  [jeq SYS_ioctl 0 6;
   ld (ARG 1);
   jeq TIOCGPGRP 2 0;
   jeq TIOCSPGRP 1 0;
   jeq TIOCGSID 0 1;
   ret PROCESS;
   ld NR].
Definition pid_prctl : list sock_filter :=
  [jeq SYS_prctl 0 4;
   ld (ARG 0);
   jeq PR_SET_CHILD_SUBREAPER 1 0;
   jeq PR_GET_CHILD_SUBREAPER 0 1;
   ret PROCESS;
   ret SECCOMP_RET_ALLOW].
Definition pid_tail (gate : Z) : list sock_filter :=
  [ld (IP + 4);
   jeq (high gate) 0 3;
   ld IP;
   jeq (low gate) 0 1;
   ret SECCOMP_RET_ALLOW;
   ret PROCESS].
Definition pid_body : list sock_filter :=
  ld NR :: pid_futex ++ call_table PROCESS process_calls ++ pid_ioctl ++ pid_prctl.
(** The copy loop: PROCESS decisions before the tail become jumps to it. *)
Definition md_pid_filter_build (gate : Z) : list sock_filter :=
  let code := pid_body ++ pid_tail gate in
  let tail := (length code - 6)%nat in
  imap (λ i insn,
          if (i <? tail)%nat && (f_code insn =? RET_K) && (f_k insn =? PROCESS)
          then ja (Z.of_nat tail - Z.of_nat i - 1) else insn) code.

(** ** Specification *)

Section policy.
Context (d : seccomp_data).
(** Calls whose arguments or results are process numbers. *)
Definition names_process : bool :=
  (is_nr d SYS_futex
   && existsb (λ v, Z.land (low (arg d 1)) FUTEX_CMD_MASK =? v)
        [FUTEX_LOCK_PI; FUTEX_UNLOCK_PI; FUTEX_TRYLOCK_PI; FUTEX_WAIT_REQUEUE_PI; FUTEX_CMP_REQUEUE_PI; FUTEX_LOCK_PI2])
  || is_call d process_calls
  || (is_nr d SYS_ioctl && argument_in d 1 [TIOCGPGRP; TIOCSPGRP; TIOCGSID])
  || (is_nr d SYS_prctl && argument_in d 0 [PR_SET_CHILD_SUBREAPER; PR_GET_CHILD_SUBREAPER]).
Definition pid_policy (gate : Z) : Z :=
  if names_process && negb (d_ip d =? gate) then PROCESS else SECCOMP_RET_ALLOW.

Lemma pid_futex_decides :
  decides d pid_futex
    (if is_nr d SYS_futex then
       Some (if existsb (λ v, Z.land (low (arg d 1)) FUTEX_CMD_MASK =? v)
                  [FUTEX_LOCK_PI; FUTEX_UNLOCK_PI; FUTEX_TRYLOCK_PI; FUTEX_WAIT_REQUEUE_PI; FUTEX_CMP_REQUEUE_PI; FUTEX_LOCK_PI2]
             then PROCESS else SECCOMP_RET_ALLOW)
     else None).
Proof.
  intros rest st Hst. unfold pid_futex, is_nr. cbn [app existsb]. bpf_run. rewrite !Hst, ?(set_a_id st) by done.
  destruct (d_nr d =? SYS_futex); [|done]. set (v := Z.land (low (arg d 1)) FUTEX_CMD_MASK).
  by destruct (v =? FUTEX_LOCK_PI), (v =? FUTEX_UNLOCK_PI), (v =? FUTEX_TRYLOCK_PI), (v =? FUTEX_WAIT_REQUEUE_PI),
    (v =? FUTEX_CMP_REQUEUE_PI), (v =? FUTEX_LOCK_PI2).
Qed.
Lemma pid_ioctl_decides :
  decides d pid_ioctl (if is_nr d SYS_ioctl && argument_in d 1 [TIOCGPGRP; TIOCSPGRP; TIOCGSID] then Some PROCESS else None).
Proof.
  intros rest st Hst. unfold pid_ioctl, is_nr, argument_in. cbn [app existsb]. bpf_run. rewrite !Hst, ?(set_a_id st) by done.
  by destruct (d_nr d =? SYS_ioctl), (low (arg d 1) =? TIOCGPGRP), (low (arg d 1) =? TIOCSPGRP), (low (arg d 1) =? TIOCGSID).
Qed.
Lemma pid_prctl_decides :
  decides d pid_prctl
    (Some (if is_nr d SYS_prctl && argument_in d 0 [PR_SET_CHILD_SUBREAPER; PR_GET_CHILD_SUBREAPER]
           then PROCESS else SECCOMP_RET_ALLOW)).
Proof.
  intros rest st Hst. unfold pid_prctl, is_nr, argument_in. cbn [app existsb]. bpf_run. rewrite !Hst.
  by destruct (d_nr d =? SYS_prctl), (low (arg d 0) =? PR_SET_CHILD_SUBREAPER), (low (arg d 0) =? PR_GET_CHILD_SUBREAPER).
Qed.
Lemma pid_body_decides rest st :
  exec (seccomp_env d) (pid_body ++ rest) 0 st = Some (if names_process then PROCESS else SECCOMP_RET_ALLOW).
Proof.
  unfold pid_body. cbn [app]. bpf_step.
  rewrite (decides_app d _ _ _ _ pid_futex_decides
    (decides_app d _ _ _ _ (call_table_decides d _ _) (decides_app d _ _ _ _ pid_ioctl_decides pid_prctl_decides))) by done.
  unfold names_process. destruct (is_nr d SYS_futex) eqn:Ef; cbn [first andb orb].
  - apply Z.eqb_eq in Ef. unfold is_call, is_nr. rewrite Ef. cbn. by rewrite !orb_false_r.
  - destruct (is_call d process_calls); cbn [orb]; [done|].
    destruct (is_nr d SYS_ioctl && argument_in d 1 [TIOCGPGRP; TIOCSPGRP; TIOCGSID]); done.
Qed.
Lemma pid_tail_decides gate st :
  is_u64 gate → is_u64 (d_ip d) →
  exec (seccomp_env d) (pid_tail gate) 0 st = Some (if d_ip d =? gate then SECCOMP_RET_ALLOW else PROCESS).
Proof.
  intros Hg Hip. unfold pid_tail. bpf_run. destruct (Z.eqb_spec (d_ip d) gate) as [->|Hne].
  - by rewrite !Z.eqb_refl.
  - destruct (Z.eqb_spec (high (d_ip d)) (high gate)) as [Eh|]; [|done].
    destruct (Z.eqb_spec (low (d_ip d)) (low gate)) as [El|]; [|done]. by destruct Hne; apply halves_inj.
Qed.
End policy.

(** ** Properties *)

(** The pid filter traces a system call exactly when the call names processes
    and does not come from the runtime's gate, and it fits its buffer. *)
Theorem pid_filter_decides gate d :
  is_u64 gate → is_u64 (d_ip d) →
  run_filter (md_pid_filter_build gate) d = Some (pid_policy d gate)
  ∧ Z.of_nat (length (md_pid_filter_build gate)) ≤ MD_PID_FILTER_INSTRUCTIONS.
Proof.
  intros Hg Hip. split; [|vm_compute; done].
  set (f := λ v, if (v =? PROCESS) && (d_ip d =? gate) then SECCOMP_RET_ALLOW else v).
  replace (pid_policy d gate) with (f (if names_process d then PROCESS else SECCOMP_RET_ALLOW))
    by (unfold f, pid_policy; destruct (names_process d); cbn; by destruct (d_ip d =? gate)).
  apply (redirect_sim (seccomp_env d) pid_body (md_pid_filter_build gate)
    (λ p, (f_code p =? RET_K) && (f_k p =? PROCESS)) f) with (p := 0%nat).
  - intros j p Hp Hs. breflect. split; [done|]. pose proof (lookup_lt_Some _ _ _ Hp) as Hj. exists (length pid_body).
    split_and!; [done| |].
    + unfold md_pid_filter_build. rewrite list_lookup_imap, lookup_app_l, Hp by done. cbn [fmap option_fmap option_map].
      rewrite length_app. cbn [length pid_tail]. rewrite Nat.add_sub.
      replace (j <? length pid_body)%nat with true by (symmetry; by apply Nat.ltb_lt).
      rewrite H, H0, !Z.eqb_refl. done.
    + intros st. replace (drop (length pid_body) (md_pid_filter_build gate)) with (pid_tail gate) by reflexivity.
      rewrite pid_tail_decides by done. unfold f. rewrite H0, Z.eqb_refl. by destruct (d_ip d =? gate).
  - intros j p Hp Hs. pose proof (lookup_lt_Some _ _ _ Hp) as Hj. split.
    + unfold md_pid_filter_build. rewrite list_lookup_imap, lookup_app_l, Hp by done. cbn [fmap option_fmap option_map].
      by rewrite <- andb_assoc, Hs, andb_false_r.
    + intros st v Hv. assert (plain p = true) as Hpl.
      { assert (forallb plain pid_body = true) as Hall by reflexivity. rewrite forallb_forall in Hall.
        apply Hall, list_elem_of_In. by eapply list_elem_of_lookup_2. }
      destruct (step_return _ _ _ _ Hpl Hv) as [->|[Hk ->]]; [done|]. unfold f.
      rewrite Hk, Z.eqb_refl in Hs. cbn [andb] in Hs. by rewrite Hs.
  - pose proof (pid_body_decides d [] bpf_start) as H. by rewrite app_nil_r in H.
Qed.
Lemma pid_filter_decides_witness :
  run_filter (md_pid_filter_build 4294967304) (mk_data SYS_kill AUDIT_ARCH_AARCH64 77 [1; 9; 0; 0; 0; 0]) = Some PROCESS
  ∧ run_filter (md_pid_filter_build 4294967304) (mk_data SYS_kill AUDIT_ARCH_AARCH64 4294967304 [1; 9; 0; 0; 0; 0])
    = Some SECCOMP_RET_ALLOW.
Proof.
  split.
  - apply (pid_filter_decides 4294967304 (mk_data SYS_kill AUDIT_ARCH_AARCH64 77 [1; 9; 0; 0; 0; 0]));
      unfold is_u64, UINT64_MAX; cbn; lia.
  - apply (pid_filter_decides 4294967304 (mk_data SYS_kill AUDIT_ARCH_AARCH64 4294967304 [1; 9; 0; 0; 0; 0]));
      unfold is_u64, UINT64_MAX; cbn; lia.
Defined.
