(* ===== verification/Interception.v ===== *)
(** * The base filter of every guest (src/native/shroot/src/interception.c,
    md_interception_install).

    Each guest process runs under one seccomp program that decides, for every
    system call, between the native kernel, the supervisor (TRACE with a cookie
    or USER_NOTIF), an error and termination.  The program is a table of blocks,
    here one definition each, that test the call number, arguments and the
    address the call comes from; the runtime's own entry points are told apart
    by that address.  [base_policy] states the decisions in terms of the call,
    and [base_filter_decides] that the program, with every jump distance as in
    the source, takes them. *)
From S2P Require Import Prelude.
From S2P Require Import Bpf.
From S2P Require Import Syscalls.
From S2P Require Import FdFilter.

(** Addresses in the bootstrap image; the checkpoints are [symbol + 4]. *)
Record sites := mk_sites {
  st_gate : Z; st_watch : Z; st_capture : Z; st_task : Z; st_abort : Z; st_admit : Z; st_native : Z;
  st_ready : Z; st_checkpoints : list Z }.
(** The checkpoints of [MD_CHECKPOINT_SITES]. *)
Definition CHECKPOINTS : nat := 17.
Definition site_list (s : sites) : list Z :=
  [st_native s; st_admit s; st_abort s; st_task s; st_watch s; st_capture s] ++ st_checkpoints s.

(** ** The tables (guest_domain.h, syscall_catalog.h) *)

Definition MD_GATE_TRANSPORT_CALLS : list Z := [SYS_sendmsg; SYS_recvmsg; SYS_uname].
Definition MD_DOMAIN_FD_CALLS : list Z := [SYS_close; SYS_dup; SYS_dup3; SYS_close_range; SYS_epoll_create1].
Definition MD_DOMAIN_FD_ARGUMENTS : list (Z * nat * Z) :=
  [(SYS_fcntl, 1%nat, F_SETFD); (SYS_fcntl, 1%nat, F_DUPFD); (SYS_fcntl, 1%nat, F_DUPFD_CLOEXEC);
   (SYS_ioctl, 1%nat, FIOCLEX); (SYS_ioctl, 1%nat, FIONCLEX)].
Definition MD_DOMAIN_WAIT_CALLS : list Z := [SYS_ppoll; SYS_pselect6; SYS_epoll_ctl].
Definition MD_DOMAIN_EXECUTION_CALLS : list Z :=
  [SYS_futex; SYS_set_robust_list; SYS_get_robust_list; SYS_madvise; SYS_brk;
   SYS_rt_sigaction; SYS_rt_sigprocmask; SYS_rt_sigreturn; SYS_sigaltstack;
   SYS_getrandom; SYS_clock_gettime; SYS_clock_nanosleep; SYS_nanosleep].
Definition MD_DOMAIN_KERNEL_CONTROL_CALLS : list Z :=
  [SYS_shutdown; SYS_waitid; SYS_sysinfo; SYS_sched_yield; SYS_sched_getaffinity;
   SYS_getrusage; SYS_getrlimit; SYS_gettimeofday].
Definition MD_DOMAIN_KERNEL_ARGUMENTS : list (Z * nat * Z) :=
  [(SYS_fcntl, 1%nat, F_GETFD); (SYS_fcntl, 1%nat, F_GETFL); (SYS_fcntl, 1%nat, F_SETFL);
   (SYS_prlimit64, 0%nat, 0);
   (SYS_prctl, 0%nat, PR_GET_DUMPABLE); (SYS_prctl, 0%nat, PR_SET_NAME);
   (SYS_prctl, 0%nat, PR_GET_NAME); (SYS_prctl, 0%nat, PR_GET_SECCOMP)].
Definition MD_ENTRY_NATIVE_CALLS : list Z := [SYS_openat; SYS_close; SYS_fcntl; SYS_dup; SYS_dup3; SYS_lseek].
Definition MD_FS_METADATA_CALLS : list Z :=
  [SYS_newfstatat; SYS_fstat; SYS_statx; SYS_readlinkat; SYS_faccessat; SYS_faccessat2;
   SYS_statfs; SYS_fstatfs; SYS_getxattr; SYS_lgetxattr; SYS_fgetxattr;
   SYS_listxattr; SYS_llistxattr; SYS_flistxattr].
Definition MD_FS_NOTIFICATION_CALLS : list Z := MD_FS_METADATA_CALLS ++ [SYS_openat; SYS_fsopen; SYS_getdents64].
Definition MD_FILE_TASK_CALLS : list Z :=
  [SYS_pipe2; SYS_openat2; SYS_lseek; SYS_fsync; SYS_fdatasync; SYS_syncfs;
   SYS_mkdirat; SYS_unlinkat; SYS_symlinkat; SYS_renameat; SYS_renameat2; SYS_linkat;
   SYS_chdir; SYS_fchdir; SYS_getcwd; SYS_fchmodat; SYS_fchmodat2; SYS_fchownat; SYS_utimensat;
   SYS_truncate; SYS_mknodat; SYS_inotify_add_watch; SYS_mount; SYS_umount2; SYS_pivot_root;
   SYS_fsconfig; SYS_fsmount; SYS_fspick; SYS_open_tree; SYS_move_mount; SYS_mount_setattr; SYS_bpf;
   SYS_landlock_create_ruleset; SYS_landlock_add_rule; SYS_landlock_restrict_self;
   SYS_setxattr; SYS_lsetxattr; SYS_removexattr; SYS_lremovexattr;
   SYS_fsetxattr; SYS_fremovexattr; SYS_fchmod; SYS_fchown].
Definition MD_SOCKET_CALLS : list Z :=
  [SYS_bind; SYS_connect; SYS_sendto; SYS_sendmsg; SYS_sendmmsg;
   SYS_getsockname; SYS_getpeername; SYS_accept; SYS_accept4; SYS_recvfrom; SYS_recvmsg;
   SYS_listen; SYS_socketpair; SYS_getsockopt].

(** ** The blocks *)

Definition NATIVE : list Z → list sock_filter := call_table SECCOMP_RET_ALLOW.
Definition TRACE : list Z → list sock_filter := call_table (trace MD_INTERCEPT_DISPATCH).
Definition OBSERVE : list Z → list sock_filter := call_table (trace MD_INTERCEPT_OBSERVE).
Definition DESCRIPTOR : list Z → list sock_filter := call_table (trace MD_INTERCEPT_FD).
Definition IDENTITY : list Z → list sock_filter := call_table (trace MD_INTERCEPT_IDENTITY).
Definition UNAVAILABLE : list Z → list sock_filter := call_table (Z.lor SECCOMP_RET_ERRNO ENOSYS).
Definition NOTIFY : list Z → list sock_filter := call_table SECCOMP_RET_USER_NOTIF.
Definition transport_instructions : Z := 2 * (1 + Z.of_nat (length MD_GATE_TRANSPORT_CALLS)).
Definition native_instructions : Z := 2 * Z.of_nat (length MD_ENTRY_NATIVE_CALLS).

Definition arch_block : list sock_filter :=
  [ld ARCH; jeq AUDIT_ARCH_AARCH64 1 0; ret SECCOMP_RET_KILL_PROCESS; ld NR].
Definition epoll_block (s : sites) : list sock_filter :=
  [jeq SYS_epoll_pwait2 1 0;
   jeq SYS_epoll_pwait 0 14;
   ld (IP + 4);
   jeq (high (st_gate s)) 0 6;
   ld IP;
   jeq (low (st_admit s)) 0 1;
   ret SECCOMP_RET_USER_NOTIF;
   jeq (low (st_task s)) 1 0;
   jeq (low (st_gate s)) 0 1;
   ret SECCOMP_RET_ALLOW;
   ld NR;
   jeq SYS_epoll_pwait2 3 0;
   ld (ARG 3);
   jeq 0 0 1;
   ret SECCOMP_RET_ALLOW;
   ret (trace MD_INTERCEPT_READINESS);
   ld NR].
(** The sites after the native journal. *)
Definition site_tail (s : sites) : list sock_filter :=
  [ld IP;
   jeq (low (st_admit s)) 0 3;
   ld NR;
   jeq SYS_gettid 0 1;
   ret SECCOMP_RET_USER_NOTIF;
   ld IP;
   jeq (low (st_abort s)) 0 1;
   ret SECCOMP_RET_KILL_THREAD;
   ld IP;
   jeq (low (st_task s)) 0 4;
   ld NR;
   jeq SYS_gettid 0 1;
   ret SECCOMP_RET_USER_NOTIF;
   ret (trace MD_INTERCEPT_TASK);
   ld IP;
   jeq (low (st_watch s)) 0 1;
   ret SECCOMP_RET_USER_NOTIF;
   ld IP;
   jeq (low (st_capture s)) 0 3;
   ld NR;
   jeq SYS_openat 0 1;
   ret (trace MD_INTERCEPT_CAPTURE)].
Definition site_checks (s : sites) : list sock_filter :=
  [ld IP] ++ call_table (trace MD_INTERCEPT_CHECKPOINT) (low <$> st_checkpoints s) ++
  [jeq (low (st_native s)) 0 (1 + native_instructions);
   ld NR] ++ NATIVE MD_ENTRY_NATIVE_CALLS ++ site_tail s.
Definition sites_block (s : sites) : list sock_filter :=
  [ld (IP + 4);
   jeq (high (st_ready s)) 0 (25 + native_instructions + 2 * Z.of_nat (length (st_checkpoints s)))] ++
  site_checks s ++ [ld NR].
Definition marker_block : list sock_filter :=
  [jeq SYS_prctl 0 10;
   ld (ARG 0);
   jeq MD_GUEST_FD_CHANNEL 6 0;
   jeq MD_GUEST_BUFFER 5 0;
   jeq MD_GUEST_PROC_IMAGE 4 0;
   jeq MD_GUEST_PROC_FILE 3 0;
   jeq MD_GUEST_SHM 2 0;
   jeq MD_GUEST_IPC 1 0;
   jeq MD_GUEST_MAP_IMAGE 0 1;
   ret SECCOMP_RET_USER_NOTIF;
   ld NR].
Definition MD_FD_CLOSE_FILTER : list sock_filter :=
  [jeq SYS_close 0 5;
   ld (ARG 0);
   jgt MD_INTERCEPT_CLOSE_MAX 2 0;
   alu_or (trace MD_INTERCEPT_CLOSE);
   ret_a;
   ret (trace MD_INTERCEPT_FD)].
Definition FD_ARGUMENT (c : Z * nat * Z) : list sock_filter :=
  [jeq c.1.1 0 4; ld (ARG c.1.2); jeq c.2 0 1; ret (trace MD_INTERCEPT_FD); ld NR].
Definition gate_memory_calls : list Z := [SYS_mmap; SYS_munmap; SYS_mremap; SYS_mprotect; SYS_prlimit64; SYS_lseek].
Definition gate_memory_block (s : sites) : list sock_filter :=
  [ld (IP + 4);
   jeq (high (st_gate s)) 0 15;
   ld IP;
   jeq (low (st_gate s)) 0 13;
   ld NR] ++ NATIVE gate_memory_calls ++ [ld NR].
Definition memory_block : list sock_filter :=
  [jeq SYS_mmap 0 6;
   ld (ARG 3);
   jset MAP_FIXED 2 0;
   jset MAP_ANONYMOUS 0 1;
   ret SECCOMP_RET_ALLOW;
   ret (trace MD_INTERCEPT_MEMORY);
   ld NR;
   jeq SYS_munmap 0 1;
   ret (trace MD_INTERCEPT_MEMORY);
   jeq SYS_mremap 0 1;
   ret (trace MD_INTERCEPT_MEMORY);
   jeq SYS_mprotect 0 4;
   ld (ARG 2);
   jset PROT_EXEC 0 1;
   ret (trace MD_INTERCEPT_MEMORY);
   ret SECCOMP_RET_ALLOW].
Definition LIMIT (c : Z * nat) : list sock_filter :=
  [jeq c.1 0 5; ld (ARG c.2); jeq RLIMIT_NPROC 1 0; jeq RLIMIT_NOFILE 0 1; ret (trace MD_INTERCEPT_IDENTITY); ld NR].
Definition NATIVE_ARGUMENT (c : Z * nat * Z) : list sock_filter :=
  [jeq c.1.1 0 6; ld (ARG c.1.2 + 4); jeq 0 0 3; ld (ARG c.1.2); jeq c.2 0 1; ret SECCOMP_RET_ALLOW; ld NR].
Definition gate_native_calls : list Z :=
  MD_GATE_TRANSPORT_CALLS ++ [SYS_fstat; SYS_readlinkat; SYS_getuid; SYS_geteuid; SYS_getgid; SYS_getegid].
Definition gate_block (s : sites) : list sock_filter :=
  [ld (IP + 4);
   jeq (high (st_gate s)) 0 (22 + transport_instructions);
   ld IP;
   jeq (low (st_gate s)) 0 (20 + transport_instructions);
   ld NR] ++ NATIVE gate_native_calls ++
  call_table (trace MD_INTERCEPT_CWD) [SYS_chdir; SYS_fchdir] ++
  call_table (trace MD_INTERCEPT_EXEC) [SYS_execve; SYS_execveat] ++
  [ret (trace MD_INTERCEPT_NATIVE); ld NR].
Definition prctl_block : list sock_filter :=
  [jeq SYS_prctl 0 5; ld (ARG 0); jeq PR_SET_SECCOMP 1 0; jeq PR_SET_DUMPABLE 0 1; ret (trace MD_INTERCEPT_OBSERVE); ld NR].

Definition io_calls : list Z := [SYS_read; SYS_write; SYS_readv; SYS_writev; SYS_pread64; SYS_pwrite64].
Definition task_native_calls : list Z :=
  [SYS_getpid; SYS_getppid; SYS_gettid; SYS_eventfd2; SYS_timerfd_create; SYS_timerfd_settime; SYS_timerfd_gettime;
   SYS_exit; SYS_exit_group; SYS_set_tid_address].
Definition limit_calls : list (Z * nat) := [(SYS_getrlimit, 0%nat); (SYS_setrlimit, 0%nat); (SYS_prlimit64, 1%nat)].
Definition unavailable_calls : list Z :=
  [SYS_add_key; SYS_request_key; SYS_keyctl; SYS_mq_open; SYS_mq_unlink; SYS_mq_timedsend;
   SYS_mq_timedreceive; SYS_mq_notify; SYS_mq_getsetattr].
Definition uts_calls : list Z := [SYS_uname; SYS_sethostname; SYS_setdomainname; SYS_reboot].
Definition identity_calls : list Z :=
  [SYS_getuid; SYS_geteuid; SYS_getgid; SYS_getegid; SYS_getresuid; SYS_getresgid; SYS_setresuid; SYS_setresgid;
   SYS_setuid; SYS_setgid; SYS_setreuid; SYS_setregid; SYS_setfsuid; SYS_setfsgid; SYS_setgroups; SYS_getgroups;
   SYS_capget; SYS_capset].
Definition sysv_calls : list Z :=
  [SYS_shmget; SYS_shmat; SYS_shmdt; SYS_shmctl; SYS_semget; SYS_semctl; SYS_semop; SYS_semtimedop;
   SYS_msgget; SYS_msgctl; SYS_msgsnd; SYS_msgrcv].
Definition dispatch_calls : list Z :=
  MD_FILE_TASK_CALLS ++ [SYS_inotify_init1; SYS_inotify_rm_watch; SYS_recvmmsg] ++ MD_SOCKET_CALLS ++ [SYS_execve; SYS_execveat].
(** [filter] of md_interception_install. *)
Definition base_filter (s : sites) : list sock_filter :=
  arch_block ++ NATIVE MD_DOMAIN_WAIT_CALLS ++ epoll_block s ++ NATIVE MD_DOMAIN_EXECUTION_CALLS ++ sites_block s
  ++ marker_block ++ DESCRIPTOR [SYS_clone; SYS_clone3] ++ OBSERVE [SYS_chroot] ++ MD_FD_CLOSE_FILTER
  ++ DESCRIPTOR MD_DOMAIN_FD_CALLS ++ (MD_DOMAIN_FD_ARGUMENTS ≫= FD_ARGUMENT) ++ NATIVE io_calls
  ++ gate_memory_block s ++ memory_block ++ NATIVE task_native_calls ++ (limit_calls ≫= LIMIT)
  ++ NATIVE MD_DOMAIN_KERNEL_CONTROL_CALLS ++ (MD_DOMAIN_KERNEL_ARGUMENTS ≫= NATIVE_ARGUMENT)
  ++ UNAVAILABLE unavailable_calls ++ gate_block s ++ TRACE uts_calls ++ IDENTITY identity_calls ++ TRACE sysv_calls
  ++ OBSERVE [SYS_unshare; SYS_setns; SYS_seccomp] ++ NOTIFY MD_FS_NOTIFICATION_CALLS ++ prctl_block
  ++ TRACE dispatch_calls ++ [ret (trace MD_INTERCEPT_NATIVE)].
(** The filter that is installed when the bootstrap image is suitably placed. *)
Definition md_interception_filter (s : sites) : list sock_filter + Z :=
  if existsb (λ a, negb (Z.shiftr a 32 =? Z.shiftr (st_ready s) 32)) (site_list s) then inr (- EINVAL)
  else inl (base_filter s).

(** ** Specification *)

Section policy.
Context (s : sites) (d : seccomp_data).
Definition at_site (a : Z) : bool := d_ip d =? a.
Definition rule (b : bool) (v : Z) : option Z := if b then Some v else None.
Definition argument_is (c : Z * nat * Z) : bool := is_nr d c.1.1 && (low (arg d c.1.2) =? c.2).
Definition whole_argument_is (c : Z * nat * Z) : bool :=
  is_nr d c.1.1 && ((high (arg d c.1.2) =? 0) && (low (arg d c.1.2) =? c.2)).

(** A wait may block: its owner is admitted before, unless it only probes. *)
Definition epoll_policy : option Z :=
  rule (is_nr d SYS_epoll_pwait2 || is_nr d SYS_epoll_pwait)
    (if at_site (st_admit s) then SECCOMP_RET_USER_NOTIF
     else if at_site (st_task s) || at_site (st_gate s) then SECCOMP_RET_ALLOW
     else if negb (is_nr d SYS_epoll_pwait2) && argument_in d 3 [0] then SECCOMP_RET_ALLOW
     else trace MD_INTERCEPT_READINESS).
(** The runtime's own entry points. *)
Definition sites_policy : option Z :=
  if existsb at_site (st_checkpoints s) then Some (trace MD_INTERCEPT_CHECKPOINT)
  else if at_site (st_native s) && is_call d MD_ENTRY_NATIVE_CALLS then Some SECCOMP_RET_ALLOW
  else if at_site (st_admit s) && is_nr d SYS_gettid then Some SECCOMP_RET_USER_NOTIF
  else if at_site (st_abort s) then Some SECCOMP_RET_KILL_THREAD
  else if at_site (st_task s)
  then Some (if is_nr d SYS_gettid then SECCOMP_RET_USER_NOTIF else trace MD_INTERCEPT_TASK)
  else if at_site (st_watch s) then Some SECCOMP_RET_USER_NOTIF
  else rule (at_site (st_capture s) && is_nr d SYS_openat) (trace MD_INTERCEPT_CAPTURE).
Definition markers : list Z :=
  [MD_GUEST_FD_CHANNEL; MD_GUEST_BUFFER; MD_GUEST_PROC_IMAGE; MD_GUEST_PROC_FILE; MD_GUEST_SHM; MD_GUEST_IPC; MD_GUEST_MAP_IMAGE].
Definition close_policy : option Z :=
  rule (is_nr d SYS_close)
    (if MD_INTERCEPT_CLOSE_MAX <? low (arg d 0) then trace MD_INTERCEPT_FD
     else Z.lor (low (arg d 0)) (trace MD_INTERCEPT_CLOSE)).
(** Only anonymous mappings that replace nothing and non-executable protection stay native. *)
Definition memory_policy : option Z :=
  if is_nr d SYS_mmap
  then Some (if negb (has_bits (low (arg d 3)) MAP_FIXED) && has_bits (low (arg d 3)) MAP_ANONYMOUS
             then SECCOMP_RET_ALLOW else trace MD_INTERCEPT_MEMORY)
  else if is_nr d SYS_munmap || is_nr d SYS_mremap then Some (trace MD_INTERCEPT_MEMORY)
  else rule (is_nr d SYS_mprotect)
         (if has_bits (low (arg d 2)) PROT_EXEC then trace MD_INTERCEPT_MEMORY else SECCOMP_RET_ALLOW).
Definition gate_policy : option Z :=
  rule (at_site (st_gate s))
    (if is_call d gate_native_calls then SECCOMP_RET_ALLOW
     else if is_call d [SYS_chdir; SYS_fchdir] then trace MD_INTERCEPT_CWD
     else if is_call d [SYS_execve; SYS_execveat] then trace MD_INTERCEPT_EXEC
     else trace MD_INTERCEPT_NATIVE).
Definition limit_policy : option Z :=
  rule (existsb (λ c, is_nr d c.1 && argument_in d c.2 [RLIMIT_NPROC; RLIMIT_NOFILE]) limit_calls) (trace MD_INTERCEPT_IDENTITY).
Definition base_rules : list (option Z) :=
  [rule (is_call d MD_DOMAIN_WAIT_CALLS) SECCOMP_RET_ALLOW;
   epoll_policy;
   rule (is_call d MD_DOMAIN_EXECUTION_CALLS) SECCOMP_RET_ALLOW;
   sites_policy;
   rule (is_nr d SYS_prctl && argument_in d 0 markers) SECCOMP_RET_USER_NOTIF;
   rule (is_call d [SYS_clone; SYS_clone3]) (trace MD_INTERCEPT_FD);
   rule (is_call d [SYS_chroot]) (trace MD_INTERCEPT_OBSERVE);
   close_policy;
   rule (is_call d MD_DOMAIN_FD_CALLS) (trace MD_INTERCEPT_FD);
   rule (existsb argument_is MD_DOMAIN_FD_ARGUMENTS) (trace MD_INTERCEPT_FD);
   rule (is_call d io_calls) SECCOMP_RET_ALLOW;
   rule (at_site (st_gate s) && is_call d gate_memory_calls) SECCOMP_RET_ALLOW;
   memory_policy;
   rule (is_call d task_native_calls) SECCOMP_RET_ALLOW;
   limit_policy;
   rule (is_call d MD_DOMAIN_KERNEL_CONTROL_CALLS) SECCOMP_RET_ALLOW;
   rule (existsb whole_argument_is MD_DOMAIN_KERNEL_ARGUMENTS) SECCOMP_RET_ALLOW;
   rule (is_call d unavailable_calls) (Z.lor SECCOMP_RET_ERRNO ENOSYS);
   gate_policy;
   rule (is_call d uts_calls) (trace MD_INTERCEPT_DISPATCH);
   rule (is_call d identity_calls) (trace MD_INTERCEPT_IDENTITY);
   rule (is_call d sysv_calls) (trace MD_INTERCEPT_DISPATCH);
   rule (is_call d [SYS_unshare; SYS_setns; SYS_seccomp]) (trace MD_INTERCEPT_OBSERVE);
   rule (is_call d MD_FS_NOTIFICATION_CALLS) SECCOMP_RET_USER_NOTIF;
   rule (is_nr d SYS_prctl && argument_in d 0 [PR_SET_SECCOMP; PR_SET_DUMPABLE]) (trace MD_INTERCEPT_OBSERVE);
   rule (is_call d dispatch_calls) (trace MD_INTERCEPT_DISPATCH)].
Definition base_policy : Z :=
  if negb (d_arch d =? AUDIT_ARCH_AARCH64) then SECCOMP_RET_KILL_PROCESS
  else default (trace MD_INTERCEPT_NATIVE) (foldr first None base_rules).
End policy.

(** ** The blocks decide their rules *)

(** The image lies in one 4 GiB region: the check of the source, and the gate with it. *)
Record image_ok (s : sites) : Prop := mk_image_ok {
  im_words : Forall is_u64 (st_gate s :: st_ready s :: site_list s);
  im_region : ∀ a, a ∈ st_gate s :: site_list s → high a = high (st_ready s);
  im_checkpoints : length (st_checkpoints s) = CHECKPOINTS }.

Section entries.
Context (d : seccomp_data).
Lemma argument_decides c :
  (c.1.2 < 6)%nat → decides d (FD_ARGUMENT c) (rule (argument_is d c) (trace MD_INTERCEPT_FD)).
Proof.
  intros Hc rest st Hst. unfold FD_ARGUMENT, argument_is, is_nr, rule. cbn [app]. rewrite exec_jeq, Hst. to_nats.
  destruct (d_nr d =? c.1.1); cbn [andb]; [|by bpf_run].
  rewrite (exec_ld d _ (low (arg d c.1.2))) by (by apply seccomp_load_arg). bpf_run. rewrite (set_a_id st) by done.
  by destruct (low (arg d c.1.2) =? c.2).
Qed.
Lemma whole_argument_decides c :
  (c.1.2 < 6)%nat → decides d (NATIVE_ARGUMENT c) (rule (whole_argument_is d c) SECCOMP_RET_ALLOW).
Proof.
  intros Hc rest st Hst. unfold NATIVE_ARGUMENT, whole_argument_is, is_nr, rule. cbn [app]. rewrite exec_jeq, Hst. to_nats.
  destruct (d_nr d =? c.1.1); cbn [andb]; [|by bpf_run].
  rewrite (exec_ld d _ (high (arg d c.1.2))) by (by apply seccomp_load_high). rewrite exec_jeq. to_nats. cbn [s_a set_a].
  destruct (high (arg d c.1.2) =? 0); cbn [andb]; [|bpf_run; by rewrite set_a_id].
  rewrite (exec_ld d _ (low (arg d c.1.2))) by (by apply seccomp_load_arg). bpf_run. rewrite (set_a_id st) by done.
  by destruct (low (arg d c.1.2) =? c.2).
Qed.
Lemma limit_decides c :
  (c.2 < 6)%nat → decides d (LIMIT c) (rule (is_nr d c.1 && argument_in d c.2 [RLIMIT_NPROC; RLIMIT_NOFILE]) (trace MD_INTERCEPT_IDENTITY)).
Proof.
  intros Hc rest st Hst. unfold LIMIT, is_nr, argument_in, rule. cbn [app existsb]. rewrite exec_jeq, Hst. to_nats.
  destruct (d_nr d =? c.1); cbn [andb]; [|by bpf_run].
  rewrite (exec_ld d _ (low (arg d c.2))) by (by apply seccomp_load_arg). bpf_run. rewrite (set_a_id st) by done.
  by destruct (low (arg d c.2) =? RLIMIT_NPROC), (low (arg d c.2) =? RLIMIT_NOFILE).
Qed.
(** A table of entries of one kind. *)
Lemma bind_decides {A} (f : A → list sock_filter) (p : A → bool) v l :
  (∀ x, x ∈ l → decides d (f x) (rule (p x) v)) → decides d (l ≫= f) (rule (existsb p l) v).
Proof.
  induction l as [|x l IH]; intros Hl; [apply decides_nil|]. cbn [existsb].
  eapply (decides_eq d); [apply (decides_app d); [apply Hl; by left|apply IH; intros y Hy; apply Hl; by right]|].
  unfold rule. by destruct (p x).
Qed.
End entries.

Section decisions.
Context (s : sites) (d : seccomp_data) (Hs : image_ok s) (Hip : is_u64 (d_ip d)).
Lemma site_low a :
  a ∈ st_gate s :: site_list s → high (d_ip d) = high (st_ready s) → (low (d_ip d) =? low a) = at_site d a.
Proof using Hs Hip.
  intros Ha Hh. unfold at_site. destruct (Z.eqb_spec (d_ip d) a) as [->|Hne]; [by rewrite Z.eqb_refl|].
  apply Z.eqb_neq. intros Hl. apply Hne, halves_inj; try done; [|rewrite Hh; symmetry; by apply (im_region _ Hs)].
  pose proof (im_words _ Hs) as Hw. rewrite Forall_forall in Hw. apply Hw. set_solver.
Qed.
Lemma site_high a :
  a ∈ st_gate s :: site_list s → high (d_ip d) ≠ high (st_ready s) → at_site d a = false.
Proof using Hs. intros Ha Hh. unfold at_site. apply Z.eqb_neq. intros Heq. by apply Hh; rewrite Heq; apply (im_region _ Hs). Qed.
Lemma gate_high : high (st_gate s) = high (st_ready s).
Proof using Hs. apply (im_region _ Hs). by left. Qed.
Lemma epoll_decides : decides d (epoll_block s) (epoll_policy s d).
Proof using Hs Hip.
  intros rest st Hst. unfold epoll_block, epoll_policy, argument_in, is_nr, rule. cbn [app existsb]. bpf_run.
  rewrite !Hst, gate_high, ?(set_a_id st) by done. destruct (Z.eqb_spec (high (d_ip d)) (high (st_ready s))) as [Eh|Eh].
  - rewrite !site_low by (done || set_solver).
    destruct (d_nr d =? SYS_epoll_pwait2), (d_nr d =? SYS_epoll_pwait), (at_site d (st_admit s)), (at_site d (st_task s));
      cbn [andb orb negb]; try done; by destruct (at_site d (st_gate s)), (low (arg d 3) =? 0).
  - rewrite !site_high by (done || set_solver).
    by destruct (d_nr d =? SYS_epoll_pwait2), (d_nr d =? SYS_epoll_pwait), (low (arg d 3) =? 0).
Qed.
Lemma site_tail_exec rest st :
  high (d_ip d) = high (st_ready s) →
  exec (seccomp_env d) (site_tail s ++ ld NR :: rest) 0 st
  = match (if at_site d (st_admit s) && is_nr d SYS_gettid then Some SECCOMP_RET_USER_NOTIF
           else if at_site d (st_abort s) then Some SECCOMP_RET_KILL_THREAD
           else if at_site d (st_task s)
           then Some (if is_nr d SYS_gettid then SECCOMP_RET_USER_NOTIF else trace MD_INTERCEPT_TASK)
           else if at_site d (st_watch s) then Some SECCOMP_RET_USER_NOTIF
           else rule (at_site d (st_capture s) && is_nr d SYS_openat) (trace MD_INTERCEPT_CAPTURE)) with
    | Some v => Some v
    | None => exec (seccomp_env d) rest 0 (set_a st (d_nr d))
    end.
Proof using Hs Hip.
  intros Eh. unfold site_tail, is_nr, rule. cbn [app]. bpf_run. rewrite !site_low by (done || set_solver).
  destruct (at_site d (st_admit s)), (d_nr d =? SYS_gettid), (at_site d (st_abort s)), (at_site d (st_task s)); cbn [andb]; try done;
    by destruct (at_site d (st_watch s)), (at_site d (st_capture s)), (d_nr d =? SYS_openat).
Qed.
Lemma checkpoints_low :
  high (d_ip d) = high (st_ready s) →
  existsb (λ n, low (d_ip d) =? n) (low <$> st_checkpoints s) = existsb (at_site d) (st_checkpoints s).
Proof using Hs Hip.
  intros Eh. assert (∀ a, a ∈ st_checkpoints s → (low (d_ip d) =? low a) = at_site d a) as Hc.
  { intros a Ha. apply site_low; [|done]. unfold site_list. set_solver. }
  revert Hc. generalize (st_checkpoints s). intros l. induction l as [|a l IH]; intros Hl; [done|]. cbn.
  rewrite Hl by (by left). f_equal. apply IH. intros b Hb. apply Hl. by right.
Qed.
Lemma sites_decides : decides d (sites_block s) (sites_policy s d).
Proof using Hs Hip.
  intros rest st Hst. unfold sites_block. rewrite <- !app_assoc. cbn [app]. bpf_step. rewrite exec_jeq. cbn [s_a set_a].
  destruct (Z.eqb_spec (high (d_ip d)) (high (st_ready s))) as [Eh|Eh].
  - unfold site_checks. rewrite <- !app_assoc. cbn [app]. to_nats. bpf_step. rewrite exec_table. cbn [s_a set_a].
    rewrite checkpoints_low by done. unfold sites_policy. destruct (existsb (at_site d) (st_checkpoints s)); [done|].
    rewrite exec_jeq. cbn [s_a set_a]. rewrite site_low by (done || set_solver).
    destruct (at_site d (st_native s)); cbn [andb]; to_nats.
    + bpf_step. unfold NATIVE. rewrite exec_table. cbn [s_a set_a]. fold (is_call d MD_ENTRY_NATIVE_CALLS).
      destruct (is_call d MD_ENTRY_NATIVE_CALLS); [done|]. rewrite site_tail_exec, set_a_set_a, (set_a_id st) by done. done.
    + rewrite exec_skip. change 12%nat with (length (NATIVE MD_ENTRY_NATIVE_CALLS) + 0)%nat. rewrite exec_skip_app.
      rewrite site_tail_exec, set_a_set_a, (set_a_id st) by done. done.
  - replace (Z.to_nat _) with (length (site_checks s) + 0)%nat.
    2:{ unfold site_checks, NATIVE. rewrite !length_app, !length_call_table, length_fmap. pose proof (im_checkpoints _ Hs) as Hc.
        unfold CHECKPOINTS in Hc. rewrite Hc. reflexivity. }
    rewrite exec_skip_app. bpf_step. rewrite (set_a_id st) by done.
    assert (∀ a, a ∈ st_gate s :: site_list s → at_site d a = false) as Hno by (intros; by apply site_high).
    unfold sites_policy. replace (existsb (at_site d) (st_checkpoints s)) with false.
    2:{ symmetry. apply not_true_iff_false. intros (a & Ha & E)%existsb_exists. rewrite Hno in E; [done|].
        apply list_elem_of_In in Ha. unfold site_list. set_solver. }
    unfold site_list in Hno. by rewrite !Hno by set_solver.
Qed.
Lemma gate_memory_decides :
  decides d (gate_memory_block s) (rule (at_site d (st_gate s) && is_call d gate_memory_calls) SECCOMP_RET_ALLOW).
Proof using Hs Hip.
  intros rest st Hst. unfold gate_memory_block. rewrite <- !app_assoc. cbn [app]. bpf_step. rewrite exec_jeq. to_nats.
  cbn [s_a set_a]. rewrite gate_high. unfold rule.
  destruct (Z.eqb_spec (high (d_ip d)) (high (st_ready s))) as [Eh|Eh].
  - bpf_step. rewrite exec_jeq. cbn [s_a set_a]. to_nats. rewrite site_low by (done || set_solver).
    destruct (at_site d (st_gate s)); cbn [andb].
    + bpf_step. rewrite (set_a_id st) by done. unfold NATIVE. rewrite exec_table, Hst. fold (is_call d gate_memory_calls).
      destruct (is_call d gate_memory_calls); [done|]. bpf_step. by rewrite (set_a_id st).
    + rewrite exec_skip. change 12%nat with (length (NATIVE gate_memory_calls) + 0)%nat. rewrite exec_skip_app. bpf_step.
      by rewrite (set_a_id st).
  - rewrite site_high by (done || set_solver). cbn [andb]. rewrite !exec_skip.
    change 12%nat with (length (NATIVE gate_memory_calls) + 0)%nat. rewrite exec_skip_app. bpf_step. by rewrite (set_a_id st).
Qed.
Lemma gate_block_decides : decides d (gate_block s) (gate_policy s d).
Proof using Hs Hip.
  intros rest st Hst. unfold gate_block, gate_policy, rule. rewrite <- !app_assoc. cbn [app].
  set (tables := NATIVE gate_native_calls ++ call_table (trace MD_INTERCEPT_CWD) [SYS_chdir; SYS_fchdir]
    ++ call_table (trace MD_INTERCEPT_EXEC) [SYS_execve; SYS_execveat] ++ [ret (trace MD_INTERCEPT_NATIVE)]).
  replace (NATIVE gate_native_calls ++ call_table (trace MD_INTERCEPT_CWD) [SYS_chdir; SYS_fchdir]
    ++ call_table (trace MD_INTERCEPT_EXEC) [SYS_execve; SYS_execveat] ++ ret (trace MD_INTERCEPT_NATIVE) :: ld NR :: rest)
    with (tables ++ ld NR :: rest) by (unfold tables; by rewrite <- !app_assoc).
  assert (length tables = 27%nat) as Hlen by reflexivity.
  assert (exec (seccomp_env d) (tables ++ ld NR :: rest) 27 st = exec (seccomp_env d) rest 0 st) as Hskip.
  { rewrite <- Hlen. replace (length tables) with (length tables + 0)%nat by lia. rewrite exec_skip_app. bpf_step. by rewrite (set_a_id st). }
  assert (∀ a, exec (seccomp_env d) (tables ++ ld NR :: rest) 27 (set_a st a) = exec (seccomp_env d) rest 0 st) as Hskip'.
  { intros a. rewrite <- Hlen. replace (length tables) with (length tables + 0)%nat by lia. rewrite exec_skip_app. bpf_step. by rewrite (set_a_id st). }
  bpf_step. rewrite exec_jeq. cbn [s_a set_a]. to_nats. rewrite gate_high.
  destruct (Z.eqb_spec (high (d_ip d)) (high (st_ready s))) as [Eh|Eh].
  - bpf_step. rewrite exec_jeq. cbn [s_a set_a]. to_nats. rewrite site_low by (done || set_solver).
    destruct (at_site d (st_gate s)); [|rewrite exec_skip; apply Hskip'].
    bpf_step. rewrite (set_a_id st) by done. unfold tables, NATIVE. rewrite <- !app_assoc, !exec_table, Hst.
    fold (is_call d gate_native_calls) (is_call d [SYS_chdir; SYS_fchdir]) (is_call d [SYS_execve; SYS_execveat]).
    by destruct (is_call d gate_native_calls), (is_call d [SYS_chdir; SYS_fchdir]), (is_call d [SYS_execve; SYS_execveat]).
  - rewrite site_high by (done || set_solver). rewrite !exec_skip. apply Hskip'.
Qed.
End decisions.

Section plain_blocks.
Context (d : seccomp_data).
Lemma marker_decides : decides d marker_block (rule (is_nr d SYS_prctl && argument_in d 0 markers) SECCOMP_RET_USER_NOTIF).
Proof.
  intros rest st Hst. unfold marker_block, rule, is_nr, argument_in, markers. cbn [app existsb]. bpf_run. rewrite Hst, ?(set_a_id st) by done.
  destruct (d_nr d =? SYS_prctl); [|done]. set (v := low (arg d 0)).
  by destruct (v =? MD_GUEST_FD_CHANNEL), (v =? MD_GUEST_BUFFER), (v =? MD_GUEST_PROC_IMAGE), (v =? MD_GUEST_PROC_FILE),
    (v =? MD_GUEST_SHM), (v =? MD_GUEST_IPC), (v =? MD_GUEST_MAP_IMAGE).
Qed.
Lemma close_decides : decides d MD_FD_CLOSE_FILTER (close_policy d).
Proof.
  intros rest st Hst. unfold MD_FD_CLOSE_FILTER, close_policy, rule, is_nr. cbn [app]. bpf_run. rewrite Hst.
  destruct (d_nr d =? SYS_close); [|done]. by destruct (MD_INTERCEPT_CLOSE_MAX <? low (arg d 0)).
Qed.
Lemma memory_decides : decides d memory_block (memory_policy d).
Proof.
  intros rest st Hst. unfold memory_block, memory_policy, rule, is_nr. cbn [app]. bpf_run. rewrite !Hst, ?(set_a_id st) by done.
  destruct (d_nr d =? SYS_mmap), (d_nr d =? SYS_munmap), (d_nr d =? SYS_mremap), (d_nr d =? SYS_mprotect); cbn [orb];
    by destruct (has_bits (low (arg d 3)) MAP_FIXED), (has_bits (low (arg d 3)) MAP_ANONYMOUS), (has_bits (low (arg d 2)) PROT_EXEC).
Qed.
Lemma prctl_decides :
  decides d prctl_block (rule (is_nr d SYS_prctl && argument_in d 0 [PR_SET_SECCOMP; PR_SET_DUMPABLE]) (trace MD_INTERCEPT_OBSERVE)).
Proof.
  intros rest st Hst. unfold prctl_block, rule, is_nr, argument_in. cbn [app existsb]. bpf_run. rewrite Hst, ?(set_a_id st) by done.
  by destruct (d_nr d =? SYS_prctl), (low (arg d 0) =? PR_SET_SECCOMP), (low (arg d 0) =? PR_SET_DUMPABLE).
Qed.
Lemma table_decides v l : decides d (call_table v l) (rule (is_call d l) v).
Proof. apply call_table_decides. Qed.
Lemma fd_arguments_decide :
  decides d (MD_DOMAIN_FD_ARGUMENTS ≫= FD_ARGUMENT) (rule (existsb (argument_is d) MD_DOMAIN_FD_ARGUMENTS) (trace MD_INTERCEPT_FD)).
Proof.
  apply bind_decides. intros c Hc. apply argument_decides. revert c Hc. apply Forall_forall. repeat constructor; cbn; lia.
Qed.
Lemma kernel_arguments_decide :
  decides d (MD_DOMAIN_KERNEL_ARGUMENTS ≫= NATIVE_ARGUMENT)
    (rule (existsb (whole_argument_is d) MD_DOMAIN_KERNEL_ARGUMENTS) SECCOMP_RET_ALLOW).
Proof.
  apply bind_decides. intros c Hc. apply whole_argument_decides. revert c Hc. apply Forall_forall. repeat constructor; cbn; lia.
Qed.
Lemma limits_decide : decides d (limit_calls ≫= LIMIT) (limit_policy d).
Proof. apply bind_decides. intros c Hc. apply limit_decides. revert c Hc. apply Forall_forall. repeat constructor; cbn; lia. Qed.
End plain_blocks.

(** ** Properties *)

Definition guest_site (s : sites) (d : seccomp_data) : Prop :=
  ∀ a, a ∈ st_gate s :: site_list s → d_ip d ≠ a.
(** The jump distances are bytes of the instruction. *)
Definition encodable (i : sock_filter) : bool := (0 <=? f_jt i) && (f_jt i <? 256) && (0 <=? f_jf i) && (f_jf i <? 256).
Lemma encodable_table v l : forallb encodable (call_table v l) = true.
Proof. induction l as [|n l IH]; [done|]. cbn. apply IH. Qed.
Lemma rules_default d v (l : list (option Z)) prog :
  decides d prog (first (foldr first None l) (Some v)) → decides d prog (Some (default v (foldr first None l))).
Proof. by destruct (foldr first None l). Qed.
Ltac block H := eapply decides_app; [solve [apply H; assumption]|].
Lemma base_tail_decides s d :
  image_ok s → is_u64 (d_ip d) →
  ∃ tail, base_filter s = arch_block ++ tail
    ∧ decides d tail (Some (default (trace MD_INTERCEPT_NATIVE) (foldr first None (base_rules s d)))).
Proof.
  intros Hs Hip. eexists. split; [reflexivity|]. apply rules_default. unfold base_rules. cbn [foldr].
  eapply (decides_eq d).
  { block table_decides. block epoll_decides. block table_decides. block sites_decides. block marker_decides.
    do 2 block table_decides. block close_decides. block table_decides. block fd_arguments_decide. block table_decides.
    block gate_memory_decides. block memory_decides. block table_decides. block limits_decide. block table_decides.
    block kernel_arguments_decide. block table_decides. block gate_block_decides. do 5 block table_decides.
    block prctl_decides. block table_decides.
    instantiate (1 := Some (trace MD_INTERCEPT_NATIVE)). by intros rest st _. }
  repeat match goal with |- context [first ?x _] => destruct x; [reflexivity|cbn [first]] end.
  reflexivity.
Qed.

Lemma base_run s d : image_ok s → is_u64 (d_ip d) → run_filter (base_filter s) d = Some (base_policy s d).
Proof.
  intros Hs Hip. destruct (base_tail_decides s d Hs Hip) as (tail & -> & Hd). unfold run_filter, base_policy, arch_block. cbn [app].
  bpf_step. rewrite exec_jeq. cbn [s_a set_a]. to_nats. destruct (d_arch d =? AUDIT_ARCH_AARCH64); cbn [negb]; [|done].
  bpf_run. by apply decides_run.
Qed.

(** C3: the base filter installed in every guest decides each system call as the
    interception policy says, for every call number, argument and calling
    address, and its jump distances and length are within what an instruction
    and the kernel allow. *)
Theorem base_filter_decides s d :
  image_ok s → is_u64 (d_ip d) →
  run_filter (base_filter s) d = Some (base_policy s d)
  ∧ forallb encodable (base_filter s) = true ∧ Z.of_nat (length (base_filter s)) ≤ BPF_MAXINSNS.
Proof.
  intros Hs Hip. split_and!.
  - by apply base_run.
  - pose proof (im_checkpoints _ Hs) as Hc. unfold base_filter, sites_block, site_checks, NATIVE. rewrite !forallb_app, !encodable_table.
    rewrite Hc. vm_compute. reflexivity.
  - pose proof (im_checkpoints _ Hs) as Hc. unfold base_filter, sites_block, site_checks, NATIVE.
    rewrite !length_app, !length_call_table, length_fmap, Hc. vm_compute. done.
Qed.

(** What guest code may do without mediation. *)
Definition guest_native (d : seccomp_data) : bool :=
  is_call d MD_DOMAIN_WAIT_CALLS || is_call d MD_DOMAIN_EXECUTION_CALLS || is_call d io_calls || is_call d task_native_calls
  || is_call d MD_DOMAIN_KERNEL_CONTROL_CALLS || existsb (whole_argument_is d) MD_DOMAIN_KERNEL_ARGUMENTS
  || (is_nr d SYS_epoll_pwait && argument_in d 3 [0])
  || (is_nr d SYS_mmap && negb (has_bits (low (arg d 3)) MAP_FIXED) && has_bits (low (arg d 3)) MAP_ANONYMOUS)
  || (is_nr d SYS_mprotect && negb (has_bits (low (arg d 2)) PROT_EXEC)).
Lemma rule_some b v w : Some v = rule b w → b = true ∧ v = w.
Proof. unfold rule. destruct b; [intros [= ->]; done|done]. Qed.
Lemma first_elem l v : foldr first None l = Some v → Some v ∈ l.
Proof.
  induction l as [|x l IH]; cbn; [done|]. destruct x as [y|]; cbn; [intros [= ->]; by left|]. intros H. right. by apply IH.
Qed.
Lemma close_not_allowed a : Z.lor a (trace MD_INTERCEPT_CLOSE) ≠ SECCOMP_RET_ALLOW.
Proof.
  intros H. apply (f_equal (λ z, Z.testbit z 15)) in H. rewrite Z.lor_spec in H.
  change (Z.testbit (trace MD_INTERCEPT_CLOSE) 15) with true in H. rewrite orb_true_r in H. done.
Qed.

Ltac other_verdict :=
  try (match goal with Ev : Some SECCOMP_RET_ALLOW = rule _ _ |- _ => apply rule_some in Ev as [Eb Ev] end);
  match goal with
  | Ev : SECCOMP_RET_ALLOW = trace _ |- _ => by vm_compute in Ev
  | Ev : SECCOMP_RET_ALLOW = SECCOMP_RET_USER_NOTIF |- _ => by vm_compute in Ev
  | Ev : SECCOMP_RET_ALLOW = Z.lor SECCOMP_RET_ERRNO _ |- _ => by vm_compute in Ev
  | _ => idtac
  end.

Definition sample_sites : sites := mk_sites 65536 65540 65544 65548 65552 65556 65560 65564 (seqZ 70000 17).
Lemma base_filter_decides_witness :
  run_filter (base_filter sample_sites) (mk_data SYS_setuid AUDIT_ARCH_AARCH64 4294967296 [0; 0; 0; 0; 0; 0])
  = Some (trace MD_INTERCEPT_IDENTITY).
Proof.
  apply (base_filter_decides sample_sites (mk_data SYS_setuid AUDIT_ARCH_AARCH64 4294967296 [0; 0; 0; 0; 0; 0])).
  - split; [..|reflexivity].
    + apply Forall_forall. intros a Ha. vm_compute in Ha. unfold is_u64, UINT64_MAX. set_unfold in Ha. lia.
    + intros a Ha. vm_compute in Ha. set_unfold in Ha. destruct_or?; subst; reflexivity.
  - unfold is_u64, UINT64_MAX. cbn. lia.
Defined.
