(* ===== verification/SocketFilter.v ===== *)
(** * Socket filters behind a carrier prefix (socket_filter.c).

    A guest netlink socket is carried by a host socket whose datagrams begin with
    a prefix that the guest must not see.  A filter that the guest attaches is
    translated: loads move past the prefix, the length shrinks by it and the
    number of bytes to keep grows by it.  Translated loads take several
    instructions, so every jump is rewritten through a table of offsets.

    The kernel's own check of the original program ([SO_ATTACH_FILTER] on a
    throw-away socket) and the calls that change a socket are outcomes of an
    [attach_env].  [valid_filter] states what the translation relies on of that
    check: known opcodes, scratch words below [BPF_MEMWORDS], jumps that stay
    inside, a return at the end.  [socket_env] is the documented meaning of packet loads on a socket,
    with 32-bit wrap-around of an indexed offset; what the kernel answers at a
    negative offset is the parameter [ancillary]. *)
From S2P Require Import Prelude.
From S2P Require Import Bpf.

(** ** Translation *)

Definition with_k (i : sock_filter) (k : Z) : sock_filter := mk_insn (f_code i) (f_jt i) (f_jf i) k.
Definition emit (out : list sock_filter) (i : sock_filter) : list sock_filter + Z :=
  if Z.of_nat (length out) =? BPF_MAXINSNS then inr (- E2BIG) else inl (out ++ [i]).
Definition EMIT (out : list sock_filter) (code k : Z) : list sock_filter + Z := emit out (BPF_STMT code k).
Definition JUMP (out : list sock_filter) (code k t f : Z) : list sock_filter + Z := emit out (BPF_JUMP code k t f).

Definition is_load (kind : Z) : bool := (kind =? BPF_LD) || (kind =? BPF_LDX).
Definition packet_mode (mode : Z) : bool := (mode =? BPF_ABS) || (mode =? BPF_IND) || (mode =? BPF_MSH).

(** The prefix length [h] and the scratch word [temporary] that is free. *)
Definition instruction (h temporary : Z) (out : list sock_filter) (i : sock_filter) : list sock_filter + Z :=
  let code := f_code i in
  let kind := BPF_CLASS code in
  let mode := BPF_MODE code in
  if is_load kind && packet_mode mode then
    if wrap32 (INT_MAX - h) <? f_k i then inr (- EOPNOTSUPP)
    else
      let! out :=
        if mode =? BPF_IND then
          if temporary =? BPF_MEMWORDS then inr (- EOPNOTSUPP)
          else
            let! out := EMIT out BPF_ST temporary in
            let! out := EMIT out (Z.lor BPF_LD BPF_IMM) (wrap32 (INT_MAX - h - f_k i)) in
            let! out := JUMP out (Z.lor (Z.lor BPF_JMP BPF_JGE) BPF_X) 0 1 0 in
            let! out := EMIT out (Z.lor BPF_RET BPF_K) 0 in
            EMIT out (Z.lor BPF_LD BPF_MEM) temporary
        else inl out in
      emit out (with_k i (wrap32 (f_k i + h)))
  else if is_load kind && (mode =? BPF_LEN) then
    let! out :=
      if kind =? BPF_LDX then
        if temporary =? BPF_MEMWORDS then inr (- EOPNOTSUPP) else EMIT out BPF_ST temporary
      else inl out in
    let! out := EMIT out (Z.lor (Z.lor BPF_LD BPF_W) BPF_LEN) 0 in
    let! out := EMIT out (Z.lor (Z.lor BPF_ALU BPF_SUB) BPF_K) h in
    if kind =? BPF_LDX then
      let! out := EMIT out (Z.lor BPF_MISC BPF_TAX) 0 in
      EMIT out (Z.lor BPF_LD BPF_MEM) temporary
    else inl out
  else if kind =? BPF_RET then
    if BPF_RVAL code =? BPF_K then
      emit out (with_k i (if f_k i =? 0 then f_k i
                          else if UINT32_MAX - h <? f_k i then UINT32_MAX else wrap32 (f_k i + h)))
    else
      let! out := JUMP out (Z.lor (Z.lor BPF_JMP BPF_JEQ) BPF_K) 0 3 0 in
      let! out := JUMP out (Z.lor (Z.lor BPF_JMP BPF_JGT) BPF_K) (UINT32_MAX - h) 0 1 in
      let! out := EMIT out (Z.lor BPF_RET BPF_K) UINT32_MAX in
      let! out := EMIT out (Z.lor (Z.lor BPF_ALU BPF_ADD) BPF_K) h in
      EMIT out (Z.lor BPF_RET BPF_A) 0
  else if (kind =? BPF_JMP) && negb (BPF_OP code =? BPF_JA) then
    let! out := emit out (mk_insn code 0 1 (f_k i)) in
    let! out := EMIT out (Z.lor BPF_JMP BPF_JA) 0 in
    EMIT out (Z.lor BPF_JMP BPF_JA) 0
  else emit out i.

(** The scratch words a program mentions, and the first free one. *)
Definition names_word (i : sock_filter) : bool :=
  let kind := BPF_CLASS (f_code i) in
  (kind =? BPF_ST) || (kind =? BPF_STX) || (is_load kind && (BPF_MODE (f_code i) =? BPF_MEM)).
Definition used_words (code : list sock_filter) : Z :=
  foldl (λ used i, if names_word i then Z.lor used (bit (f_k i)) else used) 0 code.
Fixpoint free_word (used : Z) (n : nat) (i : Z) : Z :=
  match n with
  | O => BPF_MEMWORDS
  | S n => if negb (has_bits used (bit i)) then i else free_word used n (i + 1)
  end.

Fixpoint expand_loop (h temporary : Z) (code out : list sock_filter) (offsets : list nat)
  : (list sock_filter * list nat) + Z :=
  match code with
  | [] => inl (out, offsets ++ [length out])
  | i :: code =>
      let! next := instruction h temporary out i in
      expand_loop h temporary code next (offsets ++ [length out])
  end.
Definition set_k (out : list sock_filter) (at_ : nat) (k : Z) : list sock_filter := alter (λ i, with_k i k) at_ out.
(** The distance of a jump at [from] to the translation of instruction [target]. *)
Definition distance (offsets : list nat) (target from : nat) : Z :=
  wrap32 (Z.of_nat (offsets !!! target) - Z.of_nat from - 1).
Definition patch (offsets : list nat) (out : list sock_filter) (i : nat) (ins : sock_filter) : list sock_filter :=
  if negb (BPF_CLASS (f_code ins) =? BPF_JMP) then out
  else
    let at_ := offsets !!! i in
    if BPF_OP (f_code ins) =? BPF_JA
    then set_k out at_ (distance offsets (i + 1 + Z.to_nat (f_k ins)) at_)
    else set_k (set_k out (at_ + 1) (distance offsets (i + 1 + Z.to_nat (f_jt ins)) (at_ + 1)))
           (at_ + 2) (distance offsets (i + 1 + Z.to_nat (f_jf ins)) (at_ + 2)).
Fixpoint patch_loop (offsets : list nat) (code : list sock_filter) (i : nat) (out : list sock_filter) : list sock_filter :=
  match code with
  | [] => out
  | ins :: code => patch_loop offsets code (S i) (patch offsets out i ins)
  end.
(** [memory]: both tables were allocated. *)
Definition translate (memory : bool) (code : list sock_filter) (prefix : Z) : list sock_filter + Z :=
  let temporary := free_word (used_words code) (Z.to_nat BPF_MEMWORDS) 0 in
  if negb memory then inr (- ENOMEM)
  else
    let! t := expand_loop prefix temporary code [] [] in
    inl (patch_loop t.2 code 0 t.1).

(** ** Attaching *)

Record md_socket_filter := mk_socket_filter { sf_code : option (list sock_filter); sf_count : Z }.
Definition md_socket_filter_clear (f : md_socket_filter) : md_socket_filter := mk_socket_filter None 0.
(** What the kernel and the allocator answer; [ae_socket] is a descriptor or a
    negated errno, the others are 0 or a negated errno. *)
Record attach_env := mk_attach_env {
  ae_copy : bool; ae_socket : Z; ae_validate : list sock_filter → Z; ae_tables : bool; ae_attach : list sock_filter → Z }.
(** The filter record and the program the kernel runs on the carrier socket. *)
Record socket_state := mk_socket { so_filter : md_socket_filter; so_attached : option (list sock_filter) }.
Definition SOCK_FILTER_SIZE : Z := 8.
Definition md_socket_filter_attach (e : attach_env) (s : socket_state) (data : list sock_filter) (size prefix : Z)
  : socket_state * Z :=
  if (size =? 0) || negb (size mod SOCK_FILTER_SIZE =? 0) || (BPF_MAXINSNS <? size / SOCK_FILTER_SIZE)
     || (INT_MAX <? prefix)
  then (s, - EINVAL)
  else if negb (ae_copy e) then (s, - ENOMEM)
  else
    let original := take (Z.to_nat (size / SOCK_FILTER_SIZE)) data in
    let error := if ae_socket e <? 0 then ae_socket e else ae_validate e original in
    if negb (error =? 0) then (s, error)
    else
      match translate (ae_tables e) original prefix with
      | inr error => (s, error)
      | inl translated =>
          let error := ae_attach e translated in
          if negb (error =? 0) then (s, error)
          else (mk_socket (mk_socket_filter (Some original) (size / SOCK_FILTER_SIZE)) (Some translated), 0)
      end.
Definition md_socket_filter_detach (detached : Z) (s : socket_state) : socket_state * Z :=
  if negb (detached =? 0) then (s, detached) else (mk_socket (md_socket_filter_clear (so_filter s)) None, 0).

(** ** Meaning of filters on a socket *)

Definition packet_load (p : list Z) (size o : Z) : option Z :=
  let n := if size =? BPF_W then 4 else if size =? BPF_H then 2 else 1 in
  if (0 <=? o) && (o + n <=? Z.of_nat (length p))
  then Some (foldl (λ v b, 256 * v + b) 0 (take (Z.to_nat n) (drop (Z.to_nat o) p))) else None.
Definition socket_load (ancillary : Z → Z → option Z) (p : list Z) (size o : Z) : option Z :=
  if INT_MAX <? o then ancillary size o else packet_load p size o.
Definition socket_env (ancillary : Z → Z → option Z) (p : list Z) : bpf_env :=
  mk_bpf_env (socket_load ancillary p) (λ size x k, socket_load ancillary p size (wrap32 (x + k))) (Z.of_nat (length p)).
(** The packet as the guest's program is to see it: loads stay inside what can
    follow a prefix of [h] bytes. *)
Definition logical_env (h : Z) (p : list Z) : bpf_env :=
  mk_bpf_env (packet_load p) (λ size x k, if INT_MAX - h <? x + k then None else packet_load p size (x + k))
    (Z.of_nat (length p)).
(** The number of bytes to keep, the prefix included; 0 drops the packet. *)
Definition keep (h v : Z) : Z :=
  if v =? 0 then 0 else if UINT32_MAX - h <? v then UINT32_MAX else wrap32 (v + h).

Definition valid_insn (count i : nat) (ins : sock_filter) : bool :=
  let code := f_code ins in
  let kind := BPF_CLASS code in
  let mode := BPF_MODE code in
  let word := (0 <=? f_k ins) && (f_k ins <? BPF_MEMWORDS) in
  let inside (k : Z) := (0 <=? k) && (Z.of_nat i + 1 + k <? Z.of_nat count) in
  (0 <=? f_k ins) && (f_k ins <=? UINT32_MAX) &&
  (if kind =? BPF_LD then
     (mode =? BPF_IMM) || (mode =? BPF_ABS) || (mode =? BPF_IND) || ((mode =? BPF_MEM) && word) || (mode =? BPF_LEN)
   else if kind =? BPF_LDX then (mode =? BPF_IMM) || ((mode =? BPF_MEM) && word) || (mode =? BPF_LEN) || (mode =? BPF_MSH)
   else if (kind =? BPF_ST) || (kind =? BPF_STX) then word
   else if kind =? BPF_JMP then
     if BPF_OP code =? BPF_JA then inside (f_k ins) else inside (f_jt ins) && inside (f_jf ins)
   else if kind =? BPF_RET then (BPF_RVAL code =? BPF_K) || (BPF_RVAL code =? BPF_A)
   else true).
Definition ends_in_return (code : list sock_filter) : bool :=
  match last code with Some i => BPF_CLASS (f_code i) =? BPF_RET | None => false end.
Definition valid_filter (code : list sock_filter) : bool :=
  ends_in_return code && forallb id (imap (valid_insn (length code)) code).

(** ** What the first pass emits *)

(** The instructions for one of the original program, jumps not yet patched. *)
Definition expansion (h t : Z) (i : sock_filter) : list sock_filter :=
  let code := f_code i in
  let kind := BPF_CLASS code in
  let mode := BPF_MODE code in
  if is_load kind && packet_mode mode then
    (if mode =? BPF_IND
     then [BPF_STMT BPF_ST t; BPF_STMT (Z.lor BPF_LD BPF_IMM) (wrap32 (INT_MAX - h - f_k i));
           BPF_JUMP (Z.lor (Z.lor BPF_JMP BPF_JGE) BPF_X) 0 1 0; BPF_STMT (Z.lor BPF_RET BPF_K) 0;
           BPF_STMT (Z.lor BPF_LD BPF_MEM) t]
     else []) ++ [with_k i (wrap32 (f_k i + h))]
  else if is_load kind && (mode =? BPF_LEN) then
    let len := [BPF_STMT (Z.lor (Z.lor BPF_LD BPF_W) BPF_LEN) 0; BPF_STMT (Z.lor (Z.lor BPF_ALU BPF_SUB) BPF_K) h] in
    if kind =? BPF_LDX
    then [BPF_STMT BPF_ST t] ++ len ++ [BPF_STMT (Z.lor BPF_MISC BPF_TAX) 0; BPF_STMT (Z.lor BPF_LD BPF_MEM) t]
    else len
  else if kind =? BPF_RET then
    if BPF_RVAL code =? BPF_K then [with_k i (keep h (f_k i))]
    else [jeq 0 3 0; jgt (UINT32_MAX - h) 0 1; ret UINT32_MAX;
          BPF_STMT (Z.lor (Z.lor BPF_ALU BPF_ADD) BPF_K) h; ret_a]
  else if (kind =? BPF_JMP) && negb (BPF_OP code =? BPF_JA) then [mk_insn code 0 1 (f_k i); ja 0; ja 0]
  else [i].
(** What the first pass has checked of an instruction. *)
Definition admitted (h t : Z) (i : sock_filter) : Prop :=
  let kind := BPF_CLASS (f_code i) in
  let mode := BPF_MODE (f_code i) in
  (is_load kind = true → packet_mode mode = true → f_k i ≤ wrap32 (INT_MAX - h))
  ∧ (is_load kind = true → mode = BPF_IND ∨ (kind = BPF_LDX ∧ mode = BPF_LEN) → t ≠ BPF_MEMWORDS).

Lemma emit_inl out i out' :
  emit out i = inl out' → Z.of_nat (length out) ≤ BPF_MAXINSNS →
  out' = out ++ [i] ∧ Z.of_nat (length out') ≤ BPF_MAXINSNS.
Proof.
  unfold emit. destruct (_ =? _) eqn:E; [done|]. intros [= <-] H. breflect. rewrite length_app. cbn. split; [done|lia].
Qed.
Ltac emitted :=
  repeat match goal with
  | H : ebind _ _ = inl _ |- _ => apply ebind_inl in H as (? & ? & H)
  | H : EMIT _ _ _ = inl _ |- _ => unfold EMIT in H
  | H : JUMP _ _ _ _ _ = inl _ |- _ => unfold JUMP in H
  | H : emit _ _ = inl _ |- _ => apply emit_inl in H as [-> ?]; [|assumption]
  | H : (if ?b then _ else _) = inl _ |- _ => destruct b eqn:?; try discriminate
  | H : inl _ = inl _ |- _ => injection H as <-
  end.
Lemma instruction_inl h t out i out' :
  instruction h t out i = inl out' → Z.of_nat (length out) ≤ BPF_MAXINSNS →
  out' = out ++ expansion h t i ∧ admitted h t i ∧ Z.of_nat (length out') ≤ BPF_MAXINSNS.
Proof.
  unfold instruction, expansion, admitted. cbv zeta.
  intros H Hout. emitted; repeat match goal with E : ?b = _ |- context [if ?b then _ else _] => rewrite E end.
  all: split_and!; [rewrite <- ?app_assoc; try done|..|assumption].
  all: try (intros Hl Hm; rewrite Hl, Hm in *; breflect; first [done|lia]).
  all: try (intros Hl [Hm|[Hk Hm]]; rewrite Hl, ?Hk, ?Hm in *; breflect; done).
  do 3 f_equal. unfold keep. destruct (f_k i =? 0) eqn:E; [breflect; congruence|done].
Qed.

(** ** The layout of the translated program *)

Section layout.
Context (h t : Z).
(** Where the translation of instruction [j] starts. *)
Definition start (code : list sock_filter) (j : nat) : nat := length (take j code ≫= expansion h t).
Lemma start_0 code : start code 0 = 0%nat.
Proof. by destruct code. Qed.
Lemma start_cons i code j : start (i :: code) (S j) = (length (expansion h t i) + start code j)%nat.
Proof. unfold start. cbn. by rewrite length_app. Qed.
Lemma start_S code j i : code !! j = Some i → start code (S j) = (start code j + length (expansion h t i))%nat.
Proof.
  intros H. unfold start. rewrite (take_S_r _ _ _ H), bind_app, length_app. cbn. by rewrite app_nil_r.
Qed.
Lemma start_drop code j n : (j ≤ length code)%nat → start code (j + n) = (start code j + start (drop j code) n)%nat.
Proof.
  intros H. unfold start. rewrite <- length_app, <- bind_app, take_take_drop. done.
Qed.
Lemma start_le code j : (start code j ≤ start code (length code))%nat.
Proof.
  unfold start. rewrite (firstn_all code). rewrite <- (take_drop j code) at 2. rewrite bind_app, length_app. lia.
Qed.

Fixpoint starts (code : list sock_filter) (base : nat) : list nat :=
  match code with
  | [] => [base]
  | i :: code => base :: starts code (base + length (expansion h t i))
  end.
Lemma starts_lookup code base j : (j ≤ length code)%nat → starts code base !!! j = (base + start code j)%nat.
Proof.
  revert base j. induction code as [|i code IH]; intros base [|j] Hj; cbn in *; rewrite ?start_0; try lia.
  change (starts code (base + length (expansion h t i)) !!! j = (base + start (i :: code) (S j))%nat).
  rewrite IH, start_cons by lia. lia.
Qed.
Lemma expand_loop_inl code out offsets r :
  expand_loop h t code out offsets = inl r → Z.of_nat (length out) ≤ BPF_MAXINSNS →
  r.1 = out ++ (code ≫= expansion h t) ∧ r.2 = offsets ++ starts code (length out)
  ∧ Forall (admitted h t) code ∧ Z.of_nat (length r.1) ≤ BPF_MAXINSNS.
Proof.
  revert out offsets. induction code as [|i code IH]; cbn; intros out offsets H Hout.
  - injection H as <-. cbn. rewrite app_nil_r. split_and!; try done.
  - apply ebind_inl in H as (next & Hi & H). apply instruction_inl in Hi as (-> & Ha & Hn); [|done].
    apply IH in H as (H1 & -> & ? & ?); [|done]. rewrite length_app. split_and!; [|by rewrite <- app_assoc|by constructor|done].
    by rewrite H1, <- app_assoc.
Qed.
End layout.

(** The translation of instruction [i] once its jumps are patched. *)
Definition block (h t : Z) (offsets : list nat) (i : nat) (ins : sock_filter) : list sock_filter :=
  let at_ := offsets !!! i in
  if BPF_CLASS (f_code ins) =? BPF_JMP then
    if BPF_OP (f_code ins) =? BPF_JA then [with_k ins (distance offsets (i + 1 + Z.to_nat (f_k ins)) at_)]
    else [mk_insn (f_code ins) 0 1 (f_k ins); ja (distance offsets (i + 1 + Z.to_nat (f_jt ins)) (at_ + 1));
          ja (distance offsets (i + 1 + Z.to_nat (f_jf ins)) (at_ + 2))]
  else expansion h t ins.
Fixpoint blocks (h t : Z) (offsets : list nat) (code : list sock_filter) (i : nat) : list sock_filter :=
  match code with
  | [] => []
  | ins :: code => block h t offsets i ins ++ blocks h t offsets code (S i)
  end.
Lemma expansion_jump h t ins :
  BPF_CLASS (f_code ins) = BPF_JMP →
  expansion h t ins
  = if BPF_OP (f_code ins) =? BPF_JA then [ins] else [mk_insn (f_code ins) 0 1 (f_k ins); ja 0; ja 0].
Proof. intros H. unfold expansion. rewrite H. cbn [is_load andb orb Z.eqb]. by destruct (BPF_OP (f_code ins) =? BPF_JA). Qed.
Lemma length_block h t offsets i ins : length (block h t offsets i ins) = length (expansion h t ins).
Proof.
  unfold block. destruct (BPF_CLASS (f_code ins) =? BPF_JMP) eqn:E; [|done]. breflect. rewrite expansion_jump by done.
  by destruct (BPF_OP (f_code ins) =? BPF_JA).
Qed.
Lemma patch_block h t offsets pre ins rest i :
  offsets !!! i = length pre →
  patch offsets (pre ++ expansion h t ins ++ rest) i ins = pre ++ block h t offsets i ins ++ rest.
Proof.
  intros Hat. unfold patch, block, set_k. rewrite Hat. destruct (BPF_CLASS (f_code ins) =? BPF_JMP) eqn:E; [|done].
  cbn [negb]. breflect. rewrite expansion_jump by done.
  destruct (BPF_OP (f_code ins) =? BPF_JA).
  - rewrite <- (Nat.add_0_r (length pre)) at 1. by rewrite alter_app_r.
  - by rewrite !alter_app_r.
Qed.
Lemma patch_loop_blocks h t offsets code pre i :
  (∀ j, (j < length code)%nat → offsets !!! (i + j)%nat = (length pre + start h t code j)%nat) →
  patch_loop offsets code i (pre ++ (code ≫= expansion h t)) = pre ++ blocks h t offsets code i.
Proof.
  revert pre i. induction code as [|ins code IH]; intros pre i Ho; cbn; [done|].
  pose proof (Ho 0%nat ltac:(cbn; lia)) as H0. rewrite start_0, !Nat.add_0_r in H0.
  rewrite patch_block by done. rewrite app_assoc. rewrite IH; [by rewrite <- app_assoc|].
  intros j Hj. rewrite length_app, length_block. replace (S i + j)%nat with (i + S j)%nat by lia.
  rewrite Ho by (cbn; lia). rewrite start_cons. lia.
Qed.
Lemma drop_blocks h t offsets code i n :
  drop (start h t code n) (blocks h t offsets code i) = blocks h t offsets (drop n code) (i + n).
Proof.
  revert i n. induction code as [|ins code IH]; intros i [|n]; rewrite ?start_0, ?Nat.add_0_r, ?drop_0; try done.
  rewrite start_cons. cbn [blocks]. rewrite <- (length_block h t offsets i ins), drop_app_add.
  rewrite IH. cbn [drop]. f_equal. lia.
Qed.

Lemma valid_at code : valid_filter code = true → ∀ i ins, code !! i = Some ins → valid_insn (length code) i ins = true.
Proof.
  intros [_ Hv]%andb_true_iff i ins Hi. rewrite forallb_forall in Hv. apply (Hv (valid_insn (length code) i ins)).
  apply list_elem_of_In, list_elem_of_lookup. exists i. by rewrite list_lookup_imap, Hi.
Qed.
Lemma valid_step e count i ins st :
  valid_insn count i ins = true →
  match step e ins st with
  | Go n _ => n = 0%nat ∧ BPF_CLASS (f_code ins) ≠ BPF_RET ∨ (S i + n < count)%nat
  | Return _ => True
  | Invalid => False
  end.
Proof.
  unfold valid_insn, step, loaded. cbv zeta. intros [_ Hv]%andb_true_iff.
  repeat case_match; simplify_eq; breflect; try done; try (right; lia).
  all: left; split; [done|]; intros Hr; rewrite Hr in *; done.
Qed.
Lemma valid_returns e code : valid_filter code = true → ∀ st, ∃ v, exec e code 0 st = Some v.
Proof.
  intros Hv. assert (∀ p st, (p < length code)%nat → ∃ v, exec e (drop p code) 0 st = Some v) as Hrun.
  { intros p. remember (length code - p)%nat as m eqn:Em. revert p Em. induction (lt_wf m) as [m _ IH]. intros p -> st Hp.
    destruct (lookup_lt_is_Some_2 code p Hp) as [ins Hi]. rewrite (exec_at _ _ _ _ _ Hi).
    pose proof (valid_step e _ _ ins st (valid_at _ Hv _ _ Hi)) as Hs. destruct (step e ins st) as [n st'|v|]; [|by exists v|done].
    assert (p + 1 + n < length code)%nat; [|apply (IH (length code - (p + 1 + n))%nat); [lia|done|done]].
    destruct Hs as [[-> Hr]|Hs]; [|lia]. destruct (decide (p + 1 = length code)%nat) as [El|]; [|lia].
    apply andb_true_iff in Hv as [Hl _]. unfold ends_in_return in Hl. rewrite last_lookup in Hl.
    replace (pred (length code)) with p in Hl by lia. rewrite Hi in Hl. by breflect. }
  intros st. apply (Hrun 0%nat). destruct code; [done|]. cbn. lia.
Qed.

(** ** The free scratch word *)

Lemma used_words_bit code k :
  0 ≤ k → (∃ i, i ∈ code ∧ names_word i = true ∧ f_k i = k) → Z.testbit (used_words code) k = true.
Proof.
  intros Hk. unfold used_words. generalize 0 at 1. induction code as [|j code IH]; intros u (i & Hi & Hn & E); cbn.
  { by apply elem_of_nil in Hi. }
  apply elem_of_cons in Hi as [->|Hi]; [|apply IH; by exists i].
  rewrite Hn, E. clear IH. assert (Z.testbit (Z.lor u (bit k)) k = true) as Hb.
  { rewrite Z.lor_spec. unfold bit. rewrite Z.shiftl_1_l, Z.pow2_bits_true by done. apply orb_true_r. }
  revert Hb. generalize (Z.lor u (bit k)). clear u. induction code as [|l code IH]; cbn; [done|]. intros v Hv.
  apply IH. destruct (names_word l); [by rewrite Z.lor_spec, Hv|done].
Qed.
Lemma free_word_spec used n i :
  0 ≤ i → i + Z.of_nat n = BPF_MEMWORDS →
  let t := free_word used n i in i ≤ t ≤ BPF_MEMWORDS ∧ (t < BPF_MEMWORDS → Z.testbit used t = false).
Proof.
  revert i. induction n as [|n IH]; intros i Hi Hn; cbn [free_word]; [lia|].
  destruct (has_bits used (bit i)) eqn:E; cbn [negb].
  - destruct (IH (i + 1)) as [? ?]; [lia..|]. cbv zeta in *. split; [lia|done].
  - split; [lia|]. intros _. by rewrite has_bits_bit in E.
Qed.
Definition scratch (code : list sock_filter) : Z := free_word (used_words code) (Z.to_nat BPF_MEMWORDS) 0.
Lemma scratch_unnamed code i :
  i ∈ code → names_word i = true → 0 ≤ f_k i < BPF_MEMWORDS → f_k i ≠ scratch code.
Proof.
  intros Hi Hn Hk E. destruct (free_word_spec (used_words code) (Z.to_nat BPF_MEMWORDS) 0) as [_ Hf]; [done..|].
  cbv zeta in Hf. fold (scratch code) in Hf. rewrite <- E, used_words_bit in Hf; [|lia|by exists i]. by specialize (Hf (proj2 Hk)).
Qed.

(** ** Simulation *)

Ltac known b :=
  let r := eval compute in b in match r with true => change b with true | false => change b with false end.
Ltac ops :=
  repeat match goal with
  | |- context [?a =? ?b] => known (a =? b)
  | |- context [is_load ?k] => known (is_load k)
  | |- context [packet_mode ?m] => known (packet_mode m)
  end; cbn [andb orb negb app].
(** Unfold one instruction whose class and mode are known. *)
Ltac insn Hk Hm := cbn [app exec]; unfold step; cbn [with_k f_code f_k]; rewrite ?Hk, ?Hm; ops.
Lemma alu_unsigned op a v w : 0 ≤ a → 0 ≤ v → alu op a v = Some w → 0 ≤ w.
Proof.
  intros Ha Hv. unfold alu. repeat case_if; intros H; simplify_eq; breflect; unfold wrap32;
    rewrite ?Z.lor_nonneg, ?Z.land_nonneg, ?Z.lxor_nonneg, ?Z.shiftr_nonneg; try tauto; try (apply Z.mod_pos_bound; lia).
  apply Z.div_pos; lia.
Qed.

Section run.
Context (h t : Z) (head pkt : list Z) (ancillary : Z → Z → option Z).
Hypothesis (Hh : 0 ≤ h ≤ INT_MAX) (Hhead : Z.of_nat (length head) = h).
Hypothesis (Hlen : h + Z.of_nat (length pkt) ≤ UINT32_MAX) (Hbytes : Forall (λ b, 0 ≤ b) pkt).
Hypothesis (Ht : 0 ≤ t ≤ BPF_MEMWORDS).
Let E : bpf_env := logical_env h pkt.
Let E' : bpf_env := socket_env ancillary (head ++ pkt).

(** The registers agree, and the scratch memory but for the word [t]; they hold
    unsigned values. *)
Record sim (st st' : bpf_state) : Prop := mk_sim {
  sim_a : s_a st' = s_a st;
  sim_x : s_x st' = s_x st;
  sim_words : length (s_m st') = Z.to_nat BPF_MEMWORDS;
  sim_length : length (s_m st) = Z.to_nat BPF_MEMWORDS;
  sim_m : ∀ k : nat, k ≠ Z.to_nat t → s_m st' !!! k = s_m st !!! k;
  sim_unsigned : 0 ≤ s_a st ∧ 0 ≤ s_x st ∧ ∀ k : nat, 0 ≤ s_m st !!! k }.

Lemma packet_shift size o : 0 ≤ o → o ≤ INT_MAX - h → socket_load ancillary (head ++ pkt) size (o + h) = packet_load pkt size o.
Proof using Hh Hhead.
  clear Hlen Ht. intros Ho Hk. unfold socket_load, packet_load. replace (INT_MAX <? o + h) with false by (symmetry; apply Z.ltb_ge; lia).
  rewrite length_app, Nat2Z.inj_add, Hhead. set (n := if size =? BPF_W then 4 else _).
  replace (0 <=? o + h) with true by (symmetry; apply Z.leb_le; lia). replace (0 <=? o) with true by (symmetry; apply Z.leb_le; lia).
  replace (o + h + n <=? h + Z.of_nat (length pkt)) with (o + n <=? Z.of_nat (length pkt))
    by (apply eq_true_iff_eq; rewrite !Z.leb_le; lia).
  replace (Z.to_nat (o + h)) with (length head + Z.to_nat o)%nat by lia. by rewrite drop_app_add.
Qed.
Lemma packet_load_unsigned size o v : packet_load pkt size o = Some v → 0 ≤ v.
Proof using Hbytes.
  clear - Hbytes. unfold packet_load. case_if; [|done]. intros [= <-].
  assert (∀ l u, Forall (λ b, 0 ≤ b) l → 0 ≤ u → 0 ≤ foldl (λ v b, 256 * v + b) u l) as Hf.
  { induction l as [|b l IH]; intros u Hl Hu; cbn; [done|]. apply Forall_cons in Hl as [Hb Hl]. apply IH; [done|lia]. }
  apply Hf; [|done]. by apply Forall_take, Forall_drop.
Qed.
Lemma sim_set_a st st' v : 0 ≤ v → sim st st' → sim (set_a st v) (set_a st' v).
Proof. intros Hv [? ? ? ? ? (? & ? & ?)]. by split. Qed.
Lemma sim_set_x st st' v : 0 ≤ v → sim st st' → sim (set_x st v) (set_x st' v).
Proof. intros Hv [? ? ? ? ? (? & ? & ?)]. by split. Qed.
Lemma sim_set_m st st' k v : 0 ≤ v → sim st st' → sim (set_m st k v) (set_m st' k v).
Proof.
  intros Hv [? ? H1 H2 Hm (? & ? & Hp)].
  assert (∀ (m : list Z) j, length m = Z.to_nat BPF_MEMWORDS →
    <[Z.to_nat k := v]> m !!! j = if decide (j = Z.to_nat k ∧ (j < Z.to_nat BPF_MEMWORDS)%nat) then v else m !!! j) as Hi.
  { intros m j Hl. destruct (decide _) as [[-> Hj]|Hn]; [apply list_lookup_total_insert_eq; lia|].
    destruct (decide (j = Z.to_nat k)) as [->|Hne]; [rewrite list_insert_ge; [done|lia]|].
    by apply list_lookup_total_insert_ne. }
  split; cbn; try done; rewrite ?length_insert; try done.
  - intros j Hj. rewrite !Hi by done. destruct (decide _); [done|by apply Hm].
  - split_and!; try done. intros j. rewrite Hi by done. by destruct (decide _).
Qed.
(** Saving the accumulator in the free word. *)
Lemma sim_save st st' v : sim st st' → sim st (set_m st' t v).
Proof.
  intros [? ? H1 H2 Hm Hp]. split; cbn; try done; rewrite ?length_insert; try done. intros j Hj.
  rewrite list_lookup_total_insert_ne by done. by apply Hm.
Qed.
Lemma saved st' v : t ≠ BPF_MEMWORDS → length (s_m st') = Z.to_nat BPF_MEMWORDS → s_m (set_m st' t v) !!! Z.to_nat t = v.
Proof using Ht.
  clear Hlen Hhead. intros Hn Hl. cbn. apply list_lookup_total_insert_eq. unfold BPF_MEMWORDS in *. lia.
Qed.

(** The outcome of one instruction on both sides. *)
Context (rest rest' : list sock_filter).
Hypothesis Hrest : ∀ st st', sim st st' → exec E' rest' 0 st' = keep h <$> exec E rest 0 st.
Lemma loaded_sim v (f f' : Z → bpf_state) :
  (∀ w, v = Some w → sim (f w) (f' w)) →
  match loaded v f' with Go n st => exec E' rest' n st | Return v => Some v | Invalid => None end
  = keep h <$> match loaded v f with Go n st => exec E rest n st | Return v => Some v | Invalid => None end.
Proof using Hrest. clear - Hrest. intros Hf. destruct v as [v|]; cbn; [by apply Hrest, Hf|done]. Qed.

Lemma packet_offset ins :
  is_load (BPF_CLASS (f_code ins)) = true → packet_mode (BPF_MODE (f_code ins)) = true →
  0 ≤ f_k ins → admitted h t ins →
  f_k ins ≤ INT_MAX - h ∧ wrap32 (f_k ins + h) = f_k ins + h ∧ wrap32 (INT_MAX - h - f_k ins) = INT_MAX - h - f_k ins.
Proof using Hh.
  clear - Hh. intros Hl Hm Hk [Ha _]. specialize (Ha Hl Hm). unfold INT_MAX in *.
  rewrite wrap32_small in Ha by (unfold UINT32_MAX; lia). rewrite !wrap32_small by (unfold UINT32_MAX; lia). lia.
Qed.
(** Straight-line instructions: loads of packet bytes and of the length. *)
Lemma absolute_block ins st st' :
  (BPF_CLASS (f_code ins) = BPF_LD ∧ BPF_MODE (f_code ins) = BPF_ABS)
  ∨ (BPF_CLASS (f_code ins) = BPF_LDX ∧ BPF_MODE (f_code ins) = BPF_MSH) →
  0 ≤ f_k ins → admitted h t ins → sim st st' →
  exec E' (expansion h t ins ++ rest') 0 st' = keep h <$> exec E (ins :: rest) 0 st.
Proof using Hrest Hh Hhead Hbytes.
  clear Hlen Ht. intros Hc Hr Ha Hs. 
  destruct (packet_offset ins) as (Ho & Hw & _); [by destruct Hc as [[Hk Hm]|[Hk Hm]]; rewrite ?Hk, ?Hm..|done|done|].
  unfold expansion. rewrite Hw. destruct Hc as [[Hk Hm]|[Hk Hm]]; rewrite Hk, Hm; ops; insn Hk Hm; cbn [e_load E E' socket_env logical_env].
  all: rewrite packet_shift by lia; apply loaded_sim; intros v Hv%packet_load_unsigned.
  - by apply sim_set_a.
  - apply sim_set_x; [|done]. assert (0 ≤ Z.land v 15) by (apply Z.land_nonneg; lia). lia.
Qed.
Lemma indirect_block ins st st' :
  BPF_CLASS (f_code ins) = BPF_LD → BPF_MODE (f_code ins) = BPF_IND →
  0 ≤ f_k ins → admitted h t ins → sim st st' →
  exec E' (expansion h t ins ++ rest') 0 st' = keep h <$> exec E (ins :: rest) 0 st.
Proof using Hrest Hh Hhead Hbytes Ht.
  clear Hlen. intros Hk Hm Hr Ha Hs.
  destruct (packet_offset ins) as (Ho & Hw & Hw'); [by rewrite Hk|by rewrite Hm|done|done|].
  unfold expansion. rewrite Hw, Hw', Hk, Hm. ops. insn Hk Hm.
  match goal with |- context [condition ?o ?a ?b] => change (condition o a b) with (s_x st' <=? INT_MAX - h - f_k ins) end.
  rewrite (sim_x _ _ Hs). pose proof (sim_unsigned _ _ Hs) as (_ & Hx & _).
  cbn [f_jt f_jf f_k BPF_JUMP BPF_STMT e_indirect E logical_env]. destruct (s_x st <=? _) eqn:Ec; breflect; to_nats; cbv match.
  - replace (INT_MAX - h <? s_x st + f_k ins) with false by (symmetry; apply Z.ltb_ge; lia).
    cbn [s_x set_a set_m e_indirect E' socket_env]. rewrite (sim_x _ _ Hs).
    replace (s_x st + (f_k ins + h)) with (s_x st + f_k ins + h) by lia.
    rewrite wrap32_small by (unfold INT_MAX, UINT32_MAX in *; lia). rewrite packet_shift by lia.
    apply loaded_sim. intros v Hv%packet_load_unsigned.
    apply (sim_set_a st (set_m st' t (s_a st')) v); [done|by apply sim_save].
  - replace (INT_MAX - h <? s_x st + f_k ins) with true by (symmetry; apply Z.ltb_lt; lia). done.
Qed.
Lemma length_block_sim ins st st' :
  is_load (BPF_CLASS (f_code ins)) = true → BPF_MODE (f_code ins) = BPF_LEN → admitted h t ins → sim st st' →
  exec E' (expansion h t ins ++ rest') 0 st' = keep h <$> exec E (ins :: rest) 0 st.
Proof using Hrest Hh Hhead Hlen Ht.
  intros Hl Hm [_ Ha] Hs.
  assert (wrap32 (Z.of_nat (length (head ++ pkt)) - h) = Z.of_nat (length pkt)) as Hw.
  { rewrite length_app, Nat2Z.inj_add, Hhead, wrap32_small; lia. }
  pose proof (Nat2Z.is_nonneg (length pkt)) as Hp.
  assert (BPF_CLASS (f_code ins) = BPF_LD ∨ BPF_CLASS (f_code ins) = BPF_LDX) as [Hk|Hk].
  { unfold is_load in Hl. apply orb_true_iff in Hl as [?|?]; breflect; auto. }
  - unfold expansion. rewrite Hk, Hm. ops. insn Hk Hm. unfold alu. ops. cbn [loaded]. apply Hrest.
    change (sim (set_a st (Z.of_nat (length pkt))) (set_a st' (wrap32 (Z.of_nat (length (head ++ pkt)) - h)))).
    rewrite Hw. by apply sim_set_a.
  - specialize (Ha Hl (or_intror (conj Hk Hm))). unfold expansion. rewrite Hk, Hm. ops. insn Hk Hm. unfold alu. ops.
    cbn [loaded]. apply Hrest.
    change (sim (set_x st (Z.of_nat (length pkt)))
      (set_a (set_x (set_m st' t (s_a st')) (wrap32 (Z.of_nat (length (head ++ pkt)) - h)))
         (s_m (set_m st' t (s_a st')) !!! Z.to_nat t))).
    rewrite Hw, saved by (done || apply Hs). apply (sim_set_x st (set_m st' t (s_a st'))); [done|by apply sim_save].
Qed.
Lemma return_block ins st st' :
  BPF_CLASS (f_code ins) = BPF_RET → BPF_RVAL (f_code ins) = BPF_K ∨ BPF_RVAL (f_code ins) = BPF_A → sim st st' →
  exec E' (expansion h t ins ++ rest') 0 st' = keep h <$> exec E (ins :: rest) 0 st.
Proof.
  intros Hk Hv Hs. unfold expansion. rewrite Hk. ops. destruct Hv as [Hv|Hv]; rewrite Hv; ops.
  - cbn [app exec]. unfold step. cbn [with_k f_code f_k]. rewrite Hk, Hv. by ops.
  - change (exec E (ins :: rest) 0 st) with (match step E ins st with Go n s => exec E rest n s | Return v => Some v | Invalid => None end).
    unfold step. rewrite Hk, Hv. ops. cbn [fmap option_fmap option_map]. rewrite <- (sim_a _ _ Hs), exec_jeq. unfold keep.
    destruct (s_a st' =? 0) eqn:E0; to_nats; [rewrite !exec_skip, exec_ret_a; breflect; by rewrite E0|].
    rewrite exec_jgt. destruct (UINT32_MAX - h <? s_a st'); to_nats; [by rewrite exec_ret|]. rewrite exec_skip. reflexivity.
Qed.
Lemma load_block ins st st' count i :
  is_load (BPF_CLASS (f_code ins)) = true → valid_insn count i ins = true → admitted h t ins →
  (names_word ins = true → f_k ins ≠ t) → sim st st' →
  exec E' (expansion h t ins ++ rest') 0 st' = keep h <$> exec E (ins :: rest) 0 st.
Proof using Hrest Hh Hhead Hbytes Hlen Ht.
  intros Hl Hv Ha Hn Hs. unfold valid_insn in Hv. cbv zeta in Hv.
  apply andb_true_iff in Hv as [[Hk0 _]%andb_true_iff Hv]. apply Z.leb_le in Hk0.
  pose proof (sim_unsigned _ _ Hs) as (Hpa & Hpx & Hpm).
  destruct (BPF_CLASS (f_code ins) =? BPF_LD) eqn:E1.
  { breflect. rewrite !orb_true_iff in Hv. destruct Hv as [[[[Hm|Hm]|Hm]|[Hm Hw]%andb_true_iff]|Hm]; apply Z.eqb_eq in Hm.
    - unfold expansion. rewrite E1, Hm. ops. insn E1 Hm. by apply Hrest, sim_set_a.
    - apply absolute_block; auto.
    - by apply indirect_block.
    - unfold names_word in Hn. rewrite E1, Hm in Hn. specialize (Hn eq_refl). breflect.
      unfold expansion. rewrite E1, Hm. ops. insn E1 Hm. rewrite (sim_m _ _ Hs) by lia. by apply Hrest, sim_set_a.
    - apply length_block_sim; by rewrite ?E1. }
  destruct (BPF_CLASS (f_code ins) =? BPF_LDX) eqn:E2.
  2: { unfold is_load in Hl. by rewrite E1, E2 in Hl. }
  { breflect. rewrite !orb_true_iff in Hv. destruct Hv as [[[Hm|[Hm Hw]%andb_true_iff]|Hm]|Hm]; apply Z.eqb_eq in Hm.
    - unfold expansion. rewrite E2, Hm. ops. insn E2 Hm. by apply Hrest, sim_set_x.
    - unfold names_word in Hn. rewrite E2, Hm in Hn. specialize (Hn eq_refl). breflect.
      unfold expansion. rewrite E2, Hm. ops. insn E2 Hm. rewrite (sim_m _ _ Hs) by lia. by apply Hrest, sim_set_x.
    - apply length_block_sim; by rewrite ?E2.
    - apply absolute_block; auto. }
Qed.
Lemma plain_block ins st st' count i :
  BPF_CLASS (f_code ins) ≠ BPF_JMP → valid_insn count i ins = true → admitted h t ins →
  (names_word ins = true → f_k ins ≠ t) → sim st st' →
  exec E' (expansion h t ins ++ rest') 0 st' = keep h <$> exec E (ins :: rest) 0 st.
Proof using Hrest Hh Hhead Hbytes Hlen Ht.
  intros Hj Hv Ha Hn Hs. destruct (is_load (BPF_CLASS (f_code ins))) eqn:El; [by eapply load_block|].
  pose proof (sim_unsigned _ _ Hs) as (Hpa & Hpx & Hpm).
  destruct (BPF_CLASS (f_code ins) =? BPF_RET) eqn:E3.
  { apply return_block; [by breflect| |done]. unfold valid_insn in Hv. apply Z.eqb_eq in E3. cbv zeta in Hv. rewrite E3 in Hv.
    apply andb_true_iff in Hv as [_ Hv]. cbn in Hv. apply orb_true_iff in Hv as [?|?]; breflect; auto. }
  assert (expansion h t ins = [ins]) as ->.
  { unfold expansion. rewrite El, E3. apply Z.eqb_neq in Hj. by rewrite Hj. }
  assert (0 ≤ f_k ins) as Hk0 by (unfold valid_insn in Hv; cbv zeta in Hv; breflect; done).
  unfold is_load in El. apply orb_false_iff in El as [E1 E2]. apply Z.eqb_neq in Hj.
  cbn [app exec]. unfold step. rewrite E1, E2, E3, Hj, (sim_a _ _ Hs), (sim_x _ _ Hs).
  destruct (BPF_CLASS (f_code ins) =? BPF_ST); [by apply Hrest, sim_set_m|].
  destruct (BPF_CLASS (f_code ins) =? BPF_STX); [by apply Hrest, sim_set_m|].
  destruct (BPF_CLASS (f_code ins) =? BPF_ALU).
  - apply loaded_sim. intros w Hw. apply sim_set_a; [|done]. eapply alu_unsigned; [..|exact Hw]; [done|].
    by destruct (BPF_SRC (f_code ins) =? BPF_X).
  - destruct (BPF_MISCOP (f_code ins) =? BPF_TXA); [by apply Hrest, sim_set_a|by apply Hrest, sim_set_x].
Qed.
End run.

Section program.
Context (h : Z) (head pkt : list Z) (ancillary : Z → Z → option Z) (code : list sock_filter).
Hypothesis (Hh : 0 ≤ h ≤ INT_MAX) (Hhead : Z.of_nat (length head) = h).
Hypothesis (Hlen : h + Z.of_nat (length pkt) ≤ UINT32_MAX) (Hbytes : Forall (λ b, 0 ≤ b) pkt).
Hypothesis (Hvalid : valid_filter code = true) (Hadmitted : Forall (admitted h (scratch code)) code).
Hypothesis Hsize : Z.of_nat (start h (scratch code) code (length code)) ≤ BPF_MAXINSNS.
Let t : Z := scratch code.
Let offsets : list nat := starts h t code 0.
Let E : bpf_env := logical_env h pkt.
Let E' : bpf_env := socket_env ancillary (head ++ pkt).

Lemma scratch_range : 0 ≤ t ≤ BPF_MEMWORDS.
Proof. clear. by destruct (free_word_spec (used_words code) (Z.to_nat BPF_MEMWORDS) 0). Qed.
Lemma scratch_free i ins : code !! i = Some ins → names_word ins = true → f_k ins ≠ t.
Proof using Hvalid.
  intros Hi Hn. apply scratch_unnamed; [by eapply list_elem_of_lookup_2|done|]. apply valid_at in Hi; [|done]. clear - Hi Hn.
  unfold names_word, is_load, valid_insn in *. cbv zeta in *. rewrite !orb_true_iff in Hn. apply andb_true_iff in Hi as [_ Hi].
  destruct Hn as [[Hk|Hk]|[[Hk|Hk]%orb_true_iff Hm]%andb_true_iff]; apply Z.eqb_eq in Hk; rewrite Hk in Hi; cbn in Hi.
  3,4: apply Z.eqb_eq in Hm; rewrite Hm in Hi; cbn in Hi.
  all: rewrite ?orb_false_r in Hi; breflect; unfold BPF_MEMWORDS in *; lia.
Qed.
(** A jump from the block of instruction [i], over [extra] of its instructions. *)
Lemma jump_lands i n from extra :
  (i < length code)%nat → (S i + n ≤ length code)%nat → (from + 1 + extra = start h t code (S i))%nat →
  Z.to_nat (distance offsets (i + 1 + n) from) = (extra + start h t (drop (S i) code) n)%nat.
Proof using Hsize.
  clear - Hsize. intros Hi Hn Hf. unfold distance, offsets.
  replace (i + 1 + n)%nat with (S i + n)%nat by lia. rewrite starts_lookup by lia.
  pose proof (start_le h t code (S i + n)) as Hle. fold t in Hsize.
  rewrite start_drop in Hle |- * by lia. unfold BPF_MAXINSNS in Hsize. rewrite wrap32_small by (unfold UINT32_MAX; lia). lia.
Qed.
Lemma jump_block i ins st st' :
  code !! i = Some ins → BPF_CLASS (f_code ins) = BPF_JMP → sim t st st' →
  (∀ n, (S i + n ≤ length code)%nat →
    exec E' (blocks h t offsets (drop (S i) code) (S i)) (start h t (drop (S i) code) n) st'
    = keep h <$> exec E (drop (S i) code) n st) →
  exec E' (block h t offsets i ins ++ blocks h t offsets (drop (S i) code) (S i)) 0 st'
  = keep h <$> exec E (ins :: drop (S i) code) 0 st.
Proof using Hvalid Hsize.
  clear Hh Hhead Hlen Hbytes Hadmitted. intros Hi Hk Hs Hjump. pose proof (lookup_lt_Some _ _ _ Hi) as Hlt.
  pose proof (valid_at _ Hvalid _ _ Hi) as Hv. unfold valid_insn in Hv. cbv zeta in Hv. rewrite Hk in Hv.
  apply andb_true_iff in Hv as [_ Hv]. cbn in Hv. pose proof (start_S h t code i ins Hi) as HS.
  rewrite expansion_jump in HS by done.
  assert (offsets !!! i = start h t code i) as Hat by (apply starts_lookup; lia).
  unfold block. rewrite Hk, Hat. change (BPF_JMP =? BPF_JMP) with true. cbv iota.
  destruct (BPF_OP (f_code ins) =? BPF_JA) eqn:Ej; cbn [length] in HS; cbn [app]; cbn [exec]; unfold step; cbn [with_k f_code f_k f_jt f_jf];
    rewrite Hk, Ej; ops; cbn [ja BPF_STMT f_k f_code].
  - breflect. rewrite (jump_lands i (Z.to_nat (f_k ins)) _ 0) by lia. apply (Hjump (Z.to_nat (f_k ins))). lia.
  - breflect. rewrite (sim_a _ _ _ Hs), (sim_x _ _ _ Hs).
    rewrite (jump_lands i (Z.to_nat (f_jt ins)) _ 1), (jump_lands i (Z.to_nat (f_jf ins)) _ 0) by lia.
    destruct (condition _ _ _).
    + change (Z.to_nat 0) with 0%nat. apply (Hjump (Z.to_nat (f_jt ins))). lia.
    + change (Z.to_nat 1) with 1%nat. apply (Hjump (Z.to_nat (f_jf ins))). lia.
Qed.
Lemma program_sim i st st' :
  sim t st st' → exec E' (blocks h t offsets (drop i code) i) 0 st' = keep h <$> exec E (drop i code) 0 st.
Proof using Hh Hhead Hlen Hbytes Hvalid Hadmitted Hsize.
  remember (length code - i)%nat as m eqn:Em. revert i st st' Em. induction (lt_wf m) as [m _ IH]. intros i st st' -> Hs.
  destruct (code !! i) as [ins|] eqn:Hi; [|apply lookup_ge_None in Hi; by rewrite drop_ge].
  pose proof (lookup_lt_Some _ _ _ Hi) as Hlt. rewrite (drop_S _ _ _ Hi). cbn [blocks].
  destruct (decide (BPF_CLASS (f_code ins) = BPF_JMP)) as [Hk|Hk].
  2: { unfold block. rewrite (proj2 (Z.eqb_neq _ _) Hk).
    refine (plain_block h t head pkt ancillary Hh Hhead Hlen Hbytes scratch_range _ _ _ ins st st' (length code) i Hk
      (valid_at _ Hvalid _ _ Hi) (Forall_lookup_1 _ _ _ _ Hadmitted Hi) (scratch_free _ _ Hi) Hs).
    intros st1 st1' Hs1. eapply IH; [|reflexivity|done]. lia. }
  apply jump_block; try done. intros n Hn. rewrite exec_drop, drop_blocks, (exec_drop E), drop_drop.
  eapply IH; [|reflexivity|done]. lia.
Qed.
End program.

Lemma translate_error memory code h e : translate memory code h = inr e → e ≠ 0.
Proof.
  assert (∀ out i e, emit out i = inr e → e ≠ 0) as Hemit by (unfold emit; intros out i e'; case_if; [by intros [= <-]|done]).
  assert (∀ t out i e, instruction h t out i = inr e → e ≠ 0) as Hins.
  { intros t out i e'. unfold instruction, EMIT, JUMP, ebind. cbv zeta.
    repeat case_match; intros; simplify_eq; eauto; done. }
  assert (∀ t c offsets out e, expand_loop h t c out offsets = inr e → e ≠ 0) as Hl.
  { intros t. induction c as [|i c IH]; intros offsets out e' He; cbn in He; [done|].
    destruct (instruction h t out i) eqn:Ei; cbn in He; [by eapply IH|]. injection He as <-. by eapply Hins. }
  unfold translate. destruct memory; cbn [negb]; [|by intros [= <-]].
  destruct (expand_loop _ _ _ _ _) eqn:El; cbn; [done|]. intros [= <-]. by eapply Hl.
Qed.
(** What [translate] returns decides behind the prefix as the original does on
    the packet alone. *)
Lemma translate_sound memory code h prog ancillary head pkt :
  valid_filter code = true → translate memory code h = inl prog → 0 ≤ h ≤ INT_MAX → Z.of_nat (length head) = h →
  h + Z.of_nat (length pkt) ≤ UINT32_MAX → Forall (λ b, 0 ≤ b) pkt →
  exec (socket_env ancillary (head ++ pkt)) prog 0 bpf_start = keep h <$> exec (logical_env h pkt) code 0 bpf_start.
Proof.
  intros Hv Ht Hh Hhead Hlen Hb. unfold translate in Ht. fold (scratch code) in Ht. destruct memory; [|done]. cbn [negb] in Ht.
  apply ebind_inl in Ht as ([out offsets] & He & Ht). apply (inj inl) in Ht as <-.
  apply expand_loop_inl in He as (Ho & Hs & Ha & Hmax); [|done]. cbn [fst snd app length] in *. subst out offsets.
  pose proof (patch_loop_blocks h (scratch code) (starts h (scratch code) code 0) code [] 0) as Hp. cbn [app length] in Hp.
  rewrite Hp by (intros j Hj; apply starts_lookup; lia).
  assert (start h (scratch code) code (length code) = length (code ≫= expansion h (scratch code))) as Hl.
  { unfold start. by rewrite firstn_all. }
  apply (program_sim h head pkt ancillary code Hh Hhead Hlen Hb Hv Ha ltac:(by rewrite Hl) 0). clear.
  split; cbn; try done. split_and!; try done. intros k. rewrite list_lookup_total_alt. by do 16 (destruct k; [done|]).
Qed.

Definition sample_program : list sock_filter :=
  [BPF_STMT (Z.lor (Z.lor BPF_LD BPF_H) BPF_ABS) 4; jeq 16 0 2; BPF_STMT (Z.lor BPF_LDX BPF_IMM) 2;
   BPF_STMT (Z.lor (Z.lor BPF_LD BPF_B) BPF_IND) 1; ret_a].
Definition sample_kernel : attach_env :=
  mk_attach_env true 3 (λ code, if valid_filter code then 0 else - EINVAL) true (λ _, 0).
Definition sample_socket : socket_state * Z :=
  md_socket_filter_attach sample_kernel (mk_socket (mk_socket_filter None 0) None) sample_program 40 4.

(** Keeping the prefix keeps exactly the bytes that the original asked for. *)
Lemma keep_trim h v n :
  0 ≤ h → 0 < v ≤ UINT32_MAX → h + n ≤ UINT32_MAX → 0 ≤ n → Z.min (keep h v) (h + n) = h + Z.min v n.
Proof.
  intros Hh Hv Hn H0. unfold keep. replace (v =? 0) with false by (symmetry; apply Z.eqb_neq; lia).
  destruct (UINT32_MAX - h <? v) eqn:E; breflect; [lia|]. rewrite wrap32_small by lia. lia.
Qed.
(** On indices that do not wrap the logical packet is the kernel's. *)
Lemma logical_indirect h p size x k :
  0 ≤ h → 0 ≤ x → 0 ≤ k → x + k ≤ UINT32_MAX → Z.of_nat (length p) ≤ INT_MAX - h →
  e_indirect (socket_env (λ _ _, None) p) size x k = e_indirect (logical_env h p) size x k.
Proof.
  intros Hh Hx Hk Hw Hp. cbn. unfold socket_load. rewrite wrap32_small by lia.
  destruct (INT_MAX - h <? x + k) eqn:E1, (INT_MAX <? x + k) eqn:E2; breflect; try done; try lia.
  unfold packet_load. destruct (_ && _) eqn:E; [|done]. apply andb_true_iff in E as [_ E]. breflect. revert E. repeat case_if; lia.
Qed.
(** An index that wraps around 32 bits reaches the packet in the original
    program; the translated program drops the packet instead. *)
Lemma wrapped_index_dropped :
  let code := [BPF_STMT (Z.lor BPF_LDX BPF_IMM) 4294967292; BPF_STMT (Z.lor (Z.lor BPF_LD BPF_W) BPF_IND) 4; ret_a] in
  valid_filter code = true
  ∧ exec (socket_env (λ _ _, None) [0; 0; 0; 5]) code 0 bpf_start = Some 5
  ∧ ∃ prog, translate true code 4 = inl prog
    ∧ exec (socket_env (λ _ _, None) ([9; 9; 9; 9] ++ [0; 0; 0; 5])) prog 0 bpf_start = Some 0.
Proof. cbv zeta. split_and!; [reflexivity..|]. eexists. split; [vm_compute; reflexivity|]. vm_compute. reflexivity. Qed.
