(* ===== verification/WatchQueue.v ===== *)
(** * The inotify record queue (watch_queue.c).

    Events of a guest inotify instance are records linked from the head of a
    queue; consumed records go to a free list, and one record inside the queue
    itself reports overflow.  A stream socket carries one marker byte while there
    is something to read, so that the guest can poll; a reader takes a lease on a
    prefix of the queue and completes or abandons it.

    The heap of records is explicit, the embedded overflow record being the one
    at address [OVERFLOW]; [q_markers] are the bytes in the socket.  What the
    kernel and the allocator answer are arguments: [written] and [received] are
    the results of the send and recv that end the EINTR loops (a byte count or a
    negated errno), [memory] whether malloc succeeds.

    The specification is a queue of items with a lease, [spec_emit],
    [spec_reserve] and [spec_complete]; [watch_step] is the simulation and
    [watch_queue_fifo] its consequence for whole histories. *)
From S2P Require Import Prelude.

Abbreviation loc := positive (only parsing).

Definition NAME_MAX : Z := 255.
Definition INOTIFY_HEADER : Z := 16.
Definition RECORD_BYTES : Z := INOTIFY_HEADER + NAME_MAX + 1.
Definition IN_NONBLOCK : Z := 2048.
Definition IN_CLOEXEC : Z := 524288.
Definition IN_Q_OVERFLOW : Z := 16384.

Record record := mk_record { r_next : option loc; r_size : Z; r_bytes : list Z }.
Record md_watch_queue := mk_watch {
  q_writer : Z; q_error : Z; q_limit : Z; q_count : Z; q_bytes : Z;
  q_head : option loc; q_tail : option loc; q_free : option loc;
  q_overflow_queued : bool; q_reserved : Z; q_reserved_bytes : Z;
  q_records : gmap loc record; q_markers : nat }.
Definition OVERFLOW : loc := 1%positive.

(** Field updates. *)
Definition with_error (q : md_watch_queue) (e : Z) : md_watch_queue :=
  mk_watch (q_writer q) e (q_limit q) (q_count q) (q_bytes q) (q_head q) (q_tail q) (q_free q) (q_overflow_queued q)
    (q_reserved q) (q_reserved_bytes q) (q_records q) (q_markers q).
Definition with_markers (q : md_watch_queue) (n : nat) : md_watch_queue :=
  mk_watch (q_writer q) (q_error q) (q_limit q) (q_count q) (q_bytes q) (q_head q) (q_tail q) (q_free q) (q_overflow_queued q)
    (q_reserved q) (q_reserved_bytes q) (q_records q) n.
Definition with_records (q : md_watch_queue) (h : gmap loc record) : md_watch_queue :=
  mk_watch (q_writer q) (q_error q) (q_limit q) (q_count q) (q_bytes q) (q_head q) (q_tail q) (q_free q) (q_overflow_queued q)
    (q_reserved q) (q_reserved_bytes q) h (q_markers q).
Definition with_links (q : md_watch_queue) (head tail : option loc) (count bytes : Z) : md_watch_queue :=
  mk_watch (q_writer q) (q_error q) (q_limit q) count bytes head tail (q_free q) (q_overflow_queued q)
    (q_reserved q) (q_reserved_bytes q) (q_records q) (q_markers q).
Definition with_free (q : md_watch_queue) (free : option loc) : md_watch_queue :=
  mk_watch (q_writer q) (q_error q) (q_limit q) (q_count q) (q_bytes q) (q_head q) (q_tail q) free (q_overflow_queued q)
    (q_reserved q) (q_reserved_bytes q) (q_records q) (q_markers q).
Definition with_overflow_queued (q : md_watch_queue) (b : bool) : md_watch_queue :=
  mk_watch (q_writer q) (q_error q) (q_limit q) (q_count q) (q_bytes q) (q_head q) (q_tail q) (q_free q) b
    (q_reserved q) (q_reserved_bytes q) (q_records q) (q_markers q).
Definition with_lease (q : md_watch_queue) (n bytes : Z) : md_watch_queue :=
  mk_watch (q_writer q) (q_error q) (q_limit q) (q_count q) (q_bytes q) (q_head q) (q_tail q) (q_free q) (q_overflow_queued q)
    n bytes (q_records q) (q_markers q).
Definition set_next (next : option loc) (r : record) : record := mk_record next (r_size r) (r_bytes r).
Definition record_at (q : md_watch_queue) (l : loc) : record := default (mk_record None 0 []) (q_records q !! l).

(** ** Records *)

(** A 32-bit word in memory. *)
Definition word (v : Z) : list Z := [v mod 256; v / 256 mod 256; v / 65536 mod 256; v / 16777216 mod 256].
Definition inotify_event (wd mask cookie len : Z) : list Z :=
  word (wrap32 wd) ++ word mask ++ word cookie ++ word len.
Definition overflow_bytes : list Z := inotify_event (-1) IN_Q_OVERFLOW 0 0.
(** The bytes of one event; [name] without its terminator. *)
Definition padded (name : option (list Z)) : Z :=
  match name with None => 0 | Some n => Z.ldiff (Z.of_nat (length n) + 1 + 15) 15 end.
Definition event_bytes (wd mask cookie : Z) (name : option (list Z)) : list Z :=
  let n := default [] name in
  inotify_event wd mask cookie (padded name) ++ n ++ replicate (Z.to_nat (padded name) - length n) 0.
(** Names are non-empty, at most [NAME_MAX] bytes and without a slash. *)
Definition name_error (name : option (list Z)) : Z :=
  match name with
  | None => 0
  | Some n =>
      if NAME_MAX <? Z.of_nat (length n) then - ENAMETOOLONG
      else if (Z.of_nat (length n) =? 0) || existsb (Z.eqb 47) n then - EINVAL else 0
  end.

(** ** Operations *)

Record create_env := mk_create_env { ce_memory : bool; ce_pair : (Z * Z) + Z; ce_setfl : Z; ce_setfd : Z }.
(** The queue and the reader's descriptor. *)
Definition md_watch_queue_create (e : create_env) (limit flags : Z) : (md_watch_queue * Z) + Z :=
  if (INT_MAX <? limit) || negb (Z.ldiff flags (Z.lor IN_NONBLOCK IN_CLOEXEC) =? 0) then inr (- EINVAL)
  else if negb (ce_memory e) then inr (- ENOMEM)
  else match ce_pair e with
       | inr error => inr error
       | inl (reader, writer) =>
           let r := if has_bits flags IN_NONBLOCK then 0 else ce_setfl e in
           let r := if (r =? 0) && negb (has_bits flags IN_CLOEXEC) then ce_setfd e else r in
           if negb (r =? 0) then inr r
           else inl (mk_watch writer 0 limit 0 0 None None None false 0 0
                       {[OVERFLOW := mk_record None INOTIFY_HEADER overflow_bytes]} 0, reader)
       end.

Definition signal_ready (q : md_watch_queue) (written : Z) : md_watch_queue * Z :=
  let q := if written =? 1 then with_markers q (S (q_markers q))
           else with_error q (if written <? 0 then written else - EIO) in
  (q, q_error q).
Definition append (q : md_watch_queue) (written : Z) (r : loc) : md_watch_queue * Z :=
  let '(q, e) := if q_head q then (q, 0) else signal_ready q written in
  if negb (e =? 0) then (q, e)
  else
    let h := alter (set_next None) r (q_records q) in
    let h := match q_tail q with Some t => alter (set_next (Some r)) t h | None => h end in
    let head := match q_tail q with Some _ => q_head q | None => Some r end in
    (with_links (with_records q h) head (Some r) (wrap32 (q_count q + 1)) (wrap64 (q_bytes q + r_size (record_at q r))), 0).
Definition overflow (q : md_watch_queue) (written : Z) : md_watch_queue * Z :=
  if q_overflow_queued q then (q, 0)
  else
    let '(q, r) := append q written OVERFLOW in
    if r =? 0 then (with_overflow_queued q true, r) else (q, r).
Definition drain_marker (q : md_watch_queue) (received : Z) : md_watch_queue * Z :=
  match q_markers q with
  | S n => if received =? 1 then (with_markers q n, 0) else (q, - EIO)
  | O => (q, - EIO)
  end.

(** The event repeats the last record that is not leased. *)
Definition repeats (q : md_watch_queue) (bytes : list Z) : bool :=
  match q_tail q with
  | Some t => negb (q_reserved q =? q_count q) && (r_size (record_at q t) =? Z.of_nat (length bytes))
              && bool_decide (r_bytes (record_at q t) = bytes)
  | None => false
  end.
Definition md_watch_queue_emit (q : md_watch_queue) (written : Z) (memory : bool)
    (wd mask cookie : Z) (name : option (list Z)) : md_watch_queue * Z :=
  if negb (q_error q =? 0) then (q, q_error q)
  else if negb (name_error name =? 0) then (q, name_error name)
  else
    let bytes := event_bytes wd mask cookie name in
    if repeats q bytes then (q, 0)
    else if q_limit q <=? q_count q then overflow q written
    else
      let fresh_record := fresh (dom (q_records q)) in
      let taken := match q_free q with
                   | Some r => Some (with_free q (r_next (record_at q r)), r)
                   | None => if memory then Some (q, fresh_record) else None
                   end in
      match taken with
      | None => overflow q written
      | Some (q, r) =>
          let next := r_next (record_at q r) in
          let q := with_records q (<[r := mk_record next (Z.of_nat (length bytes)) bytes]> (q_records q)) in
          let '(q, result) := append q written r in
          if negb (result =? 0)
          then (with_free (with_records q (alter (set_next (q_free q)) r (q_records q))) (Some r), result)
          else (q, result)
      end.

(** The records that fit: their bytes, total size and number. *)
Fixpoint fitting (fuel : nat) (q : md_watch_queue) (r : option loc) (capacity used count : Z) (buffer : list Z)
  : Z * Z * list Z :=
  match fuel, r with
  | S fuel, Some l =>
      let x := record_at q l in
      if r_size x <=? capacity - used
      then fitting fuel q (r_next x) capacity (used + r_size x) (count + 1) (buffer ++ r_bytes x)
      else (used, count, buffer)
  | _, _ => (used, count, buffer)
  end.
Definition head_size (q : md_watch_queue) : Z := match q_head q with Some l => r_size (record_at q l) | None => 0 end.
(** [Some bytes] was copied to the buffer; the result is its size. *)
Definition md_watch_queue_reserve (q : md_watch_queue) (received : Z) (buffer : bool) (capacity : Z)
  : md_watch_queue * Z * option (list Z) :=
  if negb (q_error q =? 0) then (q, q_error q, None)
  else if negb (q_reserved q =? 0) then (q, - EAGAIN, None)
  else if negb (bool_decide (is_Some (q_head q))) then (q, - EAGAIN, None)
  else if capacity <? head_size q then (q, - EINVAL, None)
  else if negb buffer then (q, - EFAULT, None)
  else
    let '(used, count, bytes) := fitting (Z.to_nat (q_count q)) q (q_head q) capacity 0 0 [] in
    let '(q, error) := drain_marker q received in
    if negb (error =? 0) then (with_error q error, error, Some bytes)
    else (with_lease q count used, used, Some bytes).

Fixpoint consume (n : nat) (q : md_watch_queue) : md_watch_queue :=
  match n, q_head q with
  | S n, Some done =>
      let q := with_links q (r_next (record_at q done)) (q_tail q) (q_count q) (q_bytes q) in
      consume n (if bool_decide (done = OVERFLOW) then with_overflow_queued q false
                 else with_free (with_records q (alter (set_next (q_free q)) done (q_records q))) (Some done))
  | _, _ => q
  end.
Definition md_watch_queue_complete (q : md_watch_queue) (written : Z) (delivered : bool) : md_watch_queue * Z :=
  let count := q_reserved q in
  let used := q_reserved_bytes q in
  let q := with_lease q 0 0 in
  if count =? 0 then (q, 0)
  else if negb delivered then signal_ready q written
  else
    let q := consume (Z.to_nat count) q in
    let q := with_links q (q_head q) (if q_head q then q_tail q else None)
               (wrap32 (q_count q - count)) (wrap64 (q_bytes q - used)) in
    if q_head q then signal_ready q written else (q, 0).
(** [deliver]: what the callback answers for the bytes, 0 when there is none. *)
Definition md_watch_queue_read (q : md_watch_queue) (received written : Z) (buffer : bool) (capacity : Z)
    (deliver : list Z → Z) : md_watch_queue * Z :=
  let '(q, used, bytes) := md_watch_queue_reserve q received buffer capacity in
  if used <? 0 then (q, used)
  else
    let r := deliver (default [] bytes) in
    let '(q, completed) := md_watch_queue_complete q written (r =? 0) in
    (q, if negb (r =? 0) then r else if negb (completed =? 0) then completed else used).

(** The records of a list, but for the embedded one, returned to the allocator. *)
Fixpoint free_records (fuel : nat) (h : gmap loc record) (r : option loc) : gmap loc record :=
  match fuel, r with
  | S fuel, Some l =>
      let next := r_next (default (mk_record None 0 []) (h !! l)) in
      free_records fuel (if bool_decide (l = OVERFLOW) then h else delete l h) next
  | _, _ => h
  end.
Definition md_watch_queue_destroy (q : md_watch_queue) : gmap loc record :=
  let fuel := size (q_records q) in
  free_records fuel (free_records fuel (q_records q) (q_head q)) (q_free q).
Definition md_watch_queue_lifetime (q : md_watch_queue) : Z := q_writer q.
Definition md_watch_queue_bytes (q : md_watch_queue) : Z := q_bytes q.

(** ** Specification: items in order, a lease on a prefix *)

Inductive item := Event (bytes : list Z) | Lost.
#[export] Instance item_eq : EqDecision item.
Proof. solve_decision. Defined.
Definition item_bytes (i : item) : list Z := match i with Event b => b | Lost => overflow_bytes end.
Definition item_size (i : item) : Z := Z.of_nat (length (item_bytes i)).

Record queue_spec := mk_spec { a_items : list item; a_leased : nat; a_error : Z }.
Definition failure (written : Z) : Z := if written <? 0 then written else - EIO.
Definition spec_signal (s : queue_spec) (written : Z) : queue_spec * Z :=
  if written =? 1 then (s, 0) else (mk_spec (a_items s) (a_leased s) (failure written), failure written).
Definition spec_push (s : queue_spec) (written : Z) (i : item) : queue_spec * Z :=
  if bool_decide (a_items s = []) && negb (written =? 1) then spec_signal s written
  else (mk_spec (a_items s ++ [i]) (a_leased s) (a_error s), 0).
Definition spec_overflow (s : queue_spec) (written : Z) : queue_spec * Z :=
  if bool_decide (Lost ∈ a_items s) then (s, 0) else spec_push s written Lost.
Definition spec_repeats (s : queue_spec) (bytes : list Z) : bool :=
  match last (a_items s) with
  | Some i => negb (bool_decide (a_leased s = length (a_items s))) && bool_decide (item_bytes i = bytes)
  | None => false
  end.
(** [spare]: a record can be had. *)
Definition spec_emit (limit : Z) (s : queue_spec) (written : Z) (spare : bool) (error : Z) (bytes : list Z)
  : queue_spec * Z :=
  if negb (a_error s =? 0) then (s, a_error s)
  else if negb (error =? 0) then (s, error)
  else if spec_repeats s bytes then (s, 0)
  else if (limit <=? Z.of_nat (length (a_items s))) || negb spare then spec_overflow s written
  else spec_push s written (Event bytes).
(** How many items fit. *)
Fixpoint fit (capacity : Z) (l : list item) : nat :=
  match l with
  | i :: l => if item_size i <=? capacity then S (fit (capacity - item_size i) l) else O
  | [] => O
  end.
Definition total (l : list item) : Z := foldr (λ i n, item_size i + n) 0 l.
Definition spec_reserve (s : queue_spec) (received : Z) (buffer : bool) (capacity : Z)
  : queue_spec * Z * option (list Z) :=
  if negb (a_error s =? 0) then (s, a_error s, None)
  else match a_items s with
       | [] => (s, - EAGAIN, None)
       | i :: _ =>
           if negb (bool_decide (a_leased s = 0%nat)) then (s, - EAGAIN, None)
           else if capacity <? item_size i then (s, - EINVAL, None)
           else if negb buffer then (s, - EFAULT, None)
           else
             let n := fit capacity (a_items s) in
             let taken := take n (a_items s) in
             if received =? 1
             then (mk_spec (a_items s) n (a_error s), total taken, Some (taken ≫= item_bytes))
             else (mk_spec (a_items s) (a_leased s) (- EIO), - EIO, Some (taken ≫= item_bytes))
       end.
Definition spec_complete (s : queue_spec) (written : Z) (delivered : bool) : queue_spec * Z :=
  let s0 := mk_spec (if delivered then drop (a_leased s) (a_items s) else a_items s) 0 (a_error s) in
  if bool_decide (a_leased s = 0%nat) then (mk_spec (a_items s) 0 (a_error s), 0)
  else if bool_decide (a_items s0 = []) then (s0, 0) else spec_signal s0 written.

(** ** Representation *)

(** The successor of a record. *)
Definition nx (h : gmap loc record) (l : loc) : option loc := h !! l ≫= r_next.
Fixpoint linked (h : gmap loc record) (p : option loc) (ls : list loc) : Prop :=
  match ls with [] => p = None | l :: ls => p = Some l ∧ linked h (nx h l) ls end.
Lemma linked_ext h h' p ls : (∀ l, l ∈ ls → nx h' l = nx h l) → linked h p ls → linked h' p ls.
Proof.
  revert p. induction ls as [|l ls IH]; intros p He; cbn; [done|]. intros [-> Hl]. split; [done|].
  rewrite He by (by left). apply IH; [|done]. intros x Hx. apply He. by right.
Qed.
Lemma nx_alter_eq h l n : is_Some (h !! l) → nx (alter (set_next n) l h) l = n.
Proof. intros [r Hr]. unfold nx. by rewrite lookup_alter_eq, Hr. Qed.
Lemma nx_alter_ne h f l l' : l' ≠ l → nx (alter f l h) l' = nx h l'.
Proof. intros Hn. unfold nx. by rewrite lookup_alter_ne. Qed.
(** Linking a record behind the last one. *)
Lemma linked_snoc h p ls r :
  linked h p ls → NoDup ls → r ∉ ls → is_Some (h !! r) → (∀ l, l ∈ ls → is_Some (h !! l)) →
  linked (match last ls with Some t => alter (set_next (Some r)) t (alter (set_next None) r h) | None => alter (set_next None) r h end)
    (if last ls then p else Some r) (ls ++ [r]).
Proof.
  revert p. induction ls as [|l ls IH]; intros p Hl Hnd Hr Hs Hd; cbn.
  - split; [done|]. by apply nx_alter_eq.
  - destruct Hl as [-> Hl]. apply NoDup_cons in Hnd as [Hn Hnd]. apply not_elem_of_cons in Hr as [Hrl Hr].
    specialize (IH _ Hl Hnd Hr Hs (λ x Hx, Hd x (list_elem_of_further _ _ _ Hx))).
    rewrite last_cons. destruct (last ls) as [t|] eqn:El; cbn; (split; [done|]).
    + assert (t ∈ ls) as Ht by (apply last_Some_elem_of; done). rewrite !nx_alter_ne by (done || (intros ->; done)). done.
    + apply last_None in El as ->. cbn in Hl |- *. rewrite nx_alter_eq by (rewrite lookup_alter_ne by done; by apply Hd; left).
      split; [done|]. rewrite nx_alter_ne by done. by apply nx_alter_eq.
Qed.

Definition content (q : md_watch_queue) (l : loc) : list Z := r_bytes (record_at q l).
Definition item_of (q : md_watch_queue) (l : loc) : item := if bool_decide (l = OVERFLOW) then Lost else Event (content q l).

(** The records: queued, free and set apart. *)
Record shape (q : md_watch_queue) (ls fs xs : list loc) : Prop := mk_shape {
  sh_queue : linked (q_records q) (q_head q) ls;
  sh_free : linked (q_records q) (q_free q) fs;
  sh_nodup : NoDup (ls ++ fs ++ xs);
  sh_dom : ∀ l, l ∈ ls ++ fs ++ xs ↔ is_Some (q_records q !! l);
  sh_records : ∀ l r, q_records q !! l = Some r →
    r_size r = Z.of_nat (length (r_bytes r)) ∧ Z.of_nat (length (r_bytes r)) ≤ RECORD_BYTES;
  sh_overflow : content q OVERFLOW = overflow_bytes;
  sh_kept : OVERFLOW ∉ fs }.
(** The counters. *)
Record tally (q : md_watch_queue) (ls : list loc) : Prop := mk_tally {
  ta_tail : q_tail q = last ls;
  ta_count : q_count q = Z.of_nat (length ls);
  ta_bytes : q_bytes q = total (item_of q <$> ls) }.
Definition status (q : md_watch_queue) : Z * Z * Z * bool * Z * Z :=
  (q_writer q, q_error q, q_limit q, q_overflow_queued q, q_reserved q, q_reserved_bytes q).

Lemma record_alter n l (h : gmap loc record) x :
  (r_size <$> alter (set_next n) l h !! x) = (r_size <$> h !! x)
  ∧ (r_bytes <$> alter (set_next n) l h !! x) = (r_bytes <$> h !! x).
Proof.
  destruct (decide (x = l)) as [->|Hn]; [|by rewrite lookup_alter_ne by done]. rewrite lookup_alter_eq. by destruct (h !! l).
Qed.
(** Relinking changes no payload. *)
Definition same_payload (h h' : gmap loc record) : Prop :=
  ∀ x, (r_size <$> h' !! x) = (r_size <$> h !! x) ∧ (r_bytes <$> h' !! x) = (r_bytes <$> h !! x).
Lemma same_payload_refl h : same_payload h h.
Proof. done. Qed.
Lemma same_payload_alter h h' n l : same_payload h h' → same_payload h (alter (set_next n) l h').
Proof. intros H x. destruct (record_alter n l h' x) as [-> ->]. apply H. Qed.
#[local] Hint Resolve same_payload_refl same_payload_alter : watch.
Lemma payload_dom h h' x : same_payload h h' → is_Some (h' !! x) ↔ is_Some (h !! x).
Proof. intros H. destruct (H x) as [H1 _]. rewrite <- !(fmap_is_Some r_size). by rewrite H1. Qed.
Lemma payload_content q q' x : same_payload (q_records q) (q_records q') → content q' x = content q x.
Proof.
  intros H. destruct (H x) as [_ H2]. unfold content, record_at. by destruct (q_records q' !! x), (q_records q !! x); simplify_eq/=.
Qed.
Lemma payload_records h h' :
  same_payload h h' →
  (∀ l r, h !! l = Some r → r_size r = Z.of_nat (length (r_bytes r)) ∧ Z.of_nat (length (r_bytes r)) ≤ RECORD_BYTES) →
  ∀ l r, h' !! l = Some r → r_size r = Z.of_nat (length (r_bytes r)) ∧ Z.of_nat (length (r_bytes r)) ≤ RECORD_BYTES.
Proof.
  intros H Hr l r Hl. destruct (H l) as [H1 H2]. rewrite Hl in H1, H2. destruct (h !! l) as [x|] eqn:Hx; [|done].
  apply Hr in Hx. cbn in H1, H2. apply (inj Some) in H1, H2. by rewrite H1, H2.
Qed.
Lemma shape_relink q q' ls fs xs ls' fs' xs' :
  shape q ls fs xs → same_payload (q_records q) (q_records q') →
  linked (q_records q') (q_head q') ls' → linked (q_records q') (q_free q') fs' →
  ls' ++ fs' ++ xs' ≡ₚ ls ++ fs ++ xs → OVERFLOW ∉ fs' → shape q' ls' fs' xs'.
Proof.
  intros [_ _ Hn Hd Hr Ho _] Hp Hl Hf Hperm Hk. split; try done.
  - by rewrite Hperm.
  - intros l. rewrite Hperm, Hd. symmetry. by apply payload_dom.
  - by eapply payload_records.
  - by rewrite <- Ho; apply payload_content.
Qed.
Lemma item_of_content q q' l : content q' l = content q l → item_of q' l = item_of q l.
Proof. unfold item_of. by intros ->. Qed.
Lemma items_content q q' (ls : list loc) : (∀ l, content q' l = content q l) → item_of q' <$> ls = item_of q <$> ls.
Proof. intros H. apply list_fmap_ext. intros ? l _. by apply item_of_content. Qed.
Lemma item_of_bytes q ls fs xs l : shape q ls fs xs → item_bytes (item_of q l) = content q l.
Proof. intros Hs. unfold item_of. case_bool_decide as E; [|done]. rewrite E. by rewrite (sh_overflow _ _ _ _ Hs). Qed.
Lemma record_size q ls fs xs l :
  shape q ls fs xs → l ∈ ls ++ fs ++ xs → r_size (record_at q l) = item_size (item_of q l) ∧ item_size (item_of q l) ≤ RECORD_BYTES.
Proof.
  intros Hs Hl. unfold item_size. rewrite (item_of_bytes _ _ _ _ _ Hs). apply (sh_dom _ _ _ _ Hs) in Hl as [r Hr].
  unfold content, record_at. rewrite Hr. by apply (sh_records _ _ _ _ Hs) in Hr.
Qed.
Lemma total_app l1 l2 : total (l1 ++ l2) = total l1 + total l2.
Proof. induction l1 as [|i l1 IH]; cbn; [done|]. unfold total in *. lia. Qed.
Lemma total_bound q ls fs xs : shape q ls fs xs → 0 ≤ total (item_of q <$> ls) ≤ RECORD_BYTES * Z.of_nat (length ls).
Proof.
  intros Hs. assert (∀ l, l ∈ ls → 0 ≤ item_size (item_of q l) ≤ RECORD_BYTES) as Hb.
  { intros l Hl. split; [unfold item_size; lia|]. eapply record_size; [done|]. set_solver. }
  clear Hs. induction ls as [|l ls IH]; [by cbn|]. cbn [fmap list_fmap total foldr length].
  pose proof (Hb l ltac:(by left)). unfold total in IH. specialize (IH (λ x Hx, Hb x (list_elem_of_further _ _ _ Hx))). lia.
Qed.

Lemma failure_nonzero written : failure written ≠ 0.
Proof. unfold failure, EIO. case_if; breflect; lia. Qed.
Lemma append_ok q written r ls fs xs q' e :
  shape q ls fs (r :: xs) → tally q ls → q_error q = 0 → Z.of_nat (length ls) < UINT32_MAX →
  append q written r = (q', e) →
  (ls = [] ∧ written ≠ 1 ∧ q' = with_error q (failure written) ∧ e = failure written)
  ∨ ((ls = [] → written = 1) ∧ e = 0 ∧ shape q' (ls ++ [r]) fs xs ∧ tally q' (ls ++ [r]) ∧ status q' = status q
     ∧ (∀ l, content q' l = content q l)
     ∧ q_markers q' = (q_markers q + if decide (ls = []) then 1 else 0)%nat).
Proof.
  intros Hs [Ht Hc Hb] He Hlen Happ. unfold append in Happ. pose proof (sh_queue _ _ _ _ Hs) as Hq.
  set (k := (if decide (ls = []) then 1 else 0)%nat).
  assert ((ls = [] ∧ written ≠ 1 ∧ (if q_head q then (q, 0) else signal_ready q written) = (with_error q (failure written), failure written))
    ∨ ((ls = [] → written = 1) ∧ (if q_head q then (q, 0) else signal_ready q written) = (with_markers q (q_markers q + k), 0)))
    as [(-> & Hw & Hsig)|[Hw Hsig]].
  { unfold k. destruct ls as [|l ls]; cbn in Hq.
    - rewrite Hq. unfold signal_ready. destruct (written =? 1) eqn:Ew; breflect; [right|left]; cbn; rewrite ?He, ?Nat.add_1_r; done.
    - destruct Hq as [-> _]. right. rewrite Nat.add_0_r. by destruct q. }
  - left. rewrite Hsig, (proj2 (Z.eqb_neq _ _) (failure_nonzero written)) in Happ. by injection Happ as <- <-.
  - right. rewrite Hsig in Happ. cbv beta iota zeta in Happ. cbn [Z.eqb negb with_markers q_records q_tail q_head q_count q_bytes] in Happ.
    injection Happ as <- <-.
    change (record_at (with_markers q (q_markers q + k)) r) with (record_at q r).
    rewrite Ht, Hc, Hb. set (h := match last ls with Some _ => _ | None => _ end).
    assert (same_payload (q_records q) h) as Hp by (unfold h; destruct (last ls); auto with watch).
    assert (r ∈ ls ++ fs ++ r :: xs) as Hr by set_solver. destruct (record_size _ _ _ _ _ Hs Hr) as [Hsize Hmax].
    pose proof (total_bound _ _ _ _ Hs) as Htot.
    pose proof (sh_nodup _ _ _ _ Hs) as Hnd. apply NoDup_app in Hnd as (Hnl & Hdis & Hnf).
    assert (∀ n t c b, same_payload (q_records q) (q_records (with_links (with_records (with_markers q (q_markers q + k)) h) n t c b))) as Hp'
      by (intros; exact Hp).
    split_and!; try done.
    + eapply shape_relink; [exact Hs|apply Hp'|..].
      * assert (r ∉ ls) as Hrl by (intros Hin; apply (Hdis r Hin); set_solver).
        pose proof (linked_snoc (q_records q) (q_head q) ls r Hq Hnl Hrl) as Hl. fold h in Hl. apply Hl.
        { by apply (sh_dom _ _ _ _ Hs). }
        intros l Hl'. apply (sh_dom _ _ _ _ Hs). set_solver.
      * cbn. eapply linked_ext; [|apply Hs]. intros l Hl. assert (l ∉ ls) as Hn by (intros Hin; apply (Hdis l Hin); set_solver).
        assert (l ≠ r) as Hne by (intros ->; apply NoDup_app in Hnf as (_ & Hd & _); apply (Hd r Hl); set_solver).
        unfold h. destruct (last ls) as [t|] eqn:El; rewrite ?nx_alter_ne; try done.
        intros ->. by apply Hn, last_Some_elem_of.
      * rewrite <- app_assoc. apply Permutation_app_head. cbn. apply Permutation_middle.
      * apply Hs.
    + split; cbn [with_links q_tail q_count q_bytes].
      * by rewrite last_snoc.
      * rewrite length_app. cbn. unfold UINT32_MAX in *. rewrite wrap32_small by (unfold UINT32_MAX; lia). lia.
      * match goal with |- _ = total (item_of ?q' <$> _) => rewrite (items_content q q') by (intros; by apply payload_content) end.
        rewrite fmap_app, total_app, Hsize. cbn [fmap list_fmap total foldr].
        unfold wrap64. rewrite Z.mod_small; [lia|]. unfold item_size in *. unfold RECORD_BYTES, INOTIFY_HEADER, NAME_MAX, UINT32_MAX in *. lia.
    + intros l. by apply payload_content.
Qed.

(** What a queue with records [ls], [fs] and [xs] represents. *)
Record core (q : md_watch_queue) (s : queue_spec) (ls fs xs : list loc) : Prop := mk_core {
  co_shape : shape q ls fs xs;
  co_tally : tally q ls;
  co_items : a_items s = item_of q <$> ls;
  co_error : a_error s = q_error q;
  co_reserved : q_reserved q = Z.of_nat (a_leased s);
  co_lease : (a_leased s ≤ length ls)%nat;
  co_reserved_bytes : q_reserved_bytes q = total (take (a_leased s) (a_items s));
  co_markers : q_error q = 0 → q_markers q = if decide (ls = [] ∨ a_leased s ≠ 0%nat) then 0%nat else 1%nat;
  co_leased : a_leased s ≠ 0%nat → q_error q = 0;
  co_limit : 0 ≤ q_limit q ≤ INT_MAX }.
Definition apart (q : md_watch_queue) : list loc := if q_overflow_queued q then [] else [OVERFLOW].
(** One more item than the limit, when one reports the loss of others. *)
Definition bounded (q : md_watch_queue) (ls : list loc) : Prop :=
  Z.of_nat (length ls) ≤ q_limit q + (if q_overflow_queued q then 1 else 0).
Definition rep (limit : Z) (q : md_watch_queue) (s : queue_spec) : Prop :=
  ∃ ls fs, core q s ls fs (apart q) ∧ bounded q ls ∧ q_limit q = limit.

Lemma core_length q s ls fs xs : core q s ls fs xs → length (a_items s) = length ls.
Proof. intros [_ _ -> _ _ _ _ _ _ _]. by rewrite length_fmap. Qed.
Lemma overflow_present q ls fs xs : shape q ls fs xs → OVERFLOW ∈ ls ++ xs.
Proof.
  intros [_ _ _ Hd _ Ho Hk]. assert (is_Some (q_records q !! OVERFLOW)) as H%Hd; [|set_solver].
  unfold content, record_at in Ho. destruct (q_records q !! OVERFLOW); [by eexists|]. by vm_compute in Ho.
Qed.
Lemma lost_queued q ls fs xs : shape q ls fs xs → Lost ∈ item_of q <$> ls ↔ OVERFLOW ∈ ls.
Proof.
  intros _. rewrite list_elem_of_fmap. split.
  - intros (l & Hl & ?). unfold item_of in Hl. by case_bool_decide; simplify_eq.
  - intros H. exists OVERFLOW. split; [|done]. unfold item_of. by rewrite bool_decide_true.
Qed.
Lemma flag_lost q s ls fs : core q s ls fs (apart q) → q_overflow_queued q = bool_decide (Lost ∈ a_items s).
Proof.
  intros H. rewrite (co_items _ _ _ _ _ H). pose proof (co_shape _ _ _ _ _ H) as Hs. unfold apart in Hs.
  pose proof (overflow_present _ _ _ _ Hs) as Ho. pose proof (sh_nodup _ _ _ _ Hs) as Hn.
  symmetry. destruct (q_overflow_queued q).
  - apply bool_decide_true, (lost_queued _ _ _ _ Hs). set_solver.
  - apply bool_decide_false. rewrite (lost_queued _ _ _ _ Hs). intros Hin. apply NoDup_app in Hn as (_ & Hd & _). apply (Hd _ Hin). set_solver.
Qed.

Lemma status_fields q q' : status q' = status q →
  q_error q' = q_error q ∧ q_limit q' = q_limit q ∧ q_overflow_queued q' = q_overflow_queued q
  ∧ q_reserved q' = q_reserved q ∧ q_reserved_bytes q' = q_reserved_bytes q.
Proof. unfold status. by intros [= _ -> -> -> -> ->]. Qed.
Lemma core_error q s ls fs xs e :
  core q s ls fs xs → e ≠ 0 → a_leased s = 0%nat →
  core (with_error q e) (mk_spec (a_items s) (a_leased s) e) ls fs xs.
Proof. intros [[] [] ? ? ? ? ? ? ? ?] He Hl. by split. Qed.
Lemma push_core q s ls fs xs r written q' e :
  core q s ls fs (r :: xs) → q_error q = 0 → Z.of_nat (length ls) < UINT32_MAX → append q written r = (q', e) →
  ∃ s', spec_push s written (item_of q r) = (s', e) ∧
    ((e ≠ 0 ∧ q' = with_error q e ∧ core q' s' ls fs (r :: xs))
     ∨ (e = 0 ∧ status q' = status q ∧ core q' s' (ls ++ [r]) fs xs)).
Proof.
  intros Hc He Hlen Happ. pose proof Hc as [Hs Ht Hi Ha Hr Hl Hrb Hm Hle Hlim].
  apply (append_ok _ _ _ _ _ _ _ _ Hs Ht He Hlen) in Happ as [(-> & Hw & -> & ->)|(Hw & -> & Hs' & Ht' & Hst & Hcont & Hmk)].
  - exists (mk_spec (a_items s) (a_leased s) (failure written)). unfold spec_push, spec_signal. rewrite Hi. cbn.
    rewrite (proj2 (Z.eqb_neq _ _) Hw). split; [done|]. left. split; [apply failure_nonzero|]. split; [done|].
    rewrite <- Hi at 1. apply core_error; [done|apply failure_nonzero|]. cbn in Hl. lia.
  - exists (mk_spec (a_items s ++ [item_of q r]) (a_leased s) (a_error s)). split.
    + unfold spec_push. rewrite Hi. destruct ls as [|l ls]; cbn; [|done]. by rewrite Hw.
    + right. split; [done|]. split; [done|]. destruct (status_fields _ _ Hst) as (E1 & E2 & E3 & E4 & E5).
      split; rewrite ?E1, ?E2, ?E3, ?E4, ?E5; try done; cbn [a_items a_leased a_error].
      * rewrite Hi, (items_content q q') by done. by rewrite fmap_app.
      * rewrite length_app. lia.
      * rewrite take_app_le; [done|]. rewrite Hi, length_fmap. lia.
      * intros _. rewrite Hmk, Hm by done. destruct ls as [|l ls]; cbn.
        -- cbn in Hl. rewrite decide_True by (by left). rewrite (decide_True (P := [] = [])) by done.
           rewrite decide_False; [done|]. intros [?|?]; [done|lia].
        -- rewrite Nat.add_0_r. apply decide_ext. split; intros [?|?]; try done; by right.
Qed.

Lemma bounded_small q ls : 0 ≤ q_limit q ≤ INT_MAX → bounded q ls → Z.of_nat (length ls) < UINT32_MAX.
Proof. unfold bounded, INT_MAX, UINT32_MAX. destruct (q_overflow_queued q); lia. Qed.
(** The error flag alone. *)
Lemma overflow_rep q s ls fs written :
  core q s ls fs (apart q) → bounded q ls → q_error q = 0 →
  ∃ q' s' e, overflow q written = (q', e) ∧ spec_overflow s written = (s', e) ∧ rep (q_limit q) q' s'.
Proof.
  intros Hc Hb He. unfold overflow, spec_overflow. rewrite <- (flag_lost _ _ _ _ Hc). destruct (q_overflow_queued q) eqn:Ef.
  { exists q, s, 0. split_and!; try done. by exists ls, fs. }
  destruct (append q written OVERFLOW) as [q' e] eqn:Ha. unfold apart in Hc. rewrite Ef in Hc.
  pose proof (bounded_small _ _ (co_limit _ _ _ _ _ Hc) Hb) as Hlen.
  destruct (push_core _ _ _ _ _ _ _ _ _ Hc He Hlen Ha) as (s' & Hpush & Hres).
  unfold item_of in Hpush. rewrite bool_decide_true in Hpush by done.
  destruct Hres as [(Hne & -> & Hc')|(-> & Hst & Hc')].
  - rewrite (proj2 (Z.eqb_neq _ _) Hne). exists (with_error q e), s', e. split_and!; [done|done|].
    exists ls, fs. unfold apart, bounded in *. cbn. rewrite Ef in Hb |- *. done.
  - cbn [Z.eqb]. exists (with_overflow_queued q' true), s', 0. split_and!; [done|done|]. exists (ls ++ [OVERFLOW]), fs.
    split; [by destruct Hc' as [[] [] ? ? ? ? ? ? ? ?]|]. destruct (status_fields _ _ Hst) as (_ & E2 & _).
    unfold bounded in *. cbn. rewrite E2, length_app. rewrite Ef in Hb. cbn. split; [lia|done].
Qed.

(** A record taken from the free list or the allocator and filled. *)
Lemma fill_core q s ls fs xs q1 r fs1 bytes :
  core q s ls fs xs → r ∉ ls ++ fs1 ++ xs → (∀ l, l ∈ ls ++ fs1 ++ r :: xs ↔ l ∈ ls ++ fs ++ xs ∨ l = r) →
  NoDup (ls ++ fs1 ++ r :: xs) → OVERFLOW ∈ ls ++ xs → linked (q_records q) (q_free q1) fs1 →
  q1 = with_free q (q_free q1) → Z.of_nat (length bytes) ≤ RECORD_BYTES →
  let q2 := with_records q1 (<[r := mk_record (r_next (record_at q1 r)) (Z.of_nat (length bytes)) bytes]> (q_records q1)) in
  core q2 s ls fs1 (r :: xs) ∧ item_of q2 r = Event bytes.
Proof.
  intros [[Hq Hf Hn Hd Hr Ho Hk] [Ht Hcn Hby] Hi Ha Hres Hl Hrb Hm Hle Hlim] Hfresh Hd1 Hn1 Hov Hfree -> Hlen q2.
  assert (∀ l, l ∈ ls ++ fs1 → l ≠ r) as Hne by (intros l Hin ->; apply Hfresh; set_solver).
  assert (r ≠ OVERFLOW) as Hro by (intros ->; apply Hfresh; set_solver).
  assert (∀ l, l ≠ r → content q2 l = content q l) as Hcont.
  { intros l Hl'. unfold content, record_at. cbn. by rewrite lookup_insert_ne by done. }
  assert (∀ l, l ≠ r → nx (q_records q2) l = nx (q_records q) l) as Hnx.
  { intros l Hl'. unfold nx. cbn. by rewrite lookup_insert_ne by done. }
  assert (item_of q2 <$> ls = item_of q <$> ls) as Hitems.
  { apply list_fmap_ext. intros i l Hil. apply item_of_content, Hcont, Hne. apply elem_of_app. left. by eapply list_elem_of_lookup_2. }
  split.
  - split; try done; [split; try done|split; try done|by rewrite Hitems].
    + eapply linked_ext; [|exact Hq]. intros l Hl'. apply Hnx, Hne. set_solver.
    + eapply linked_ext; [|exact Hfree]. intros l Hl'. apply Hnx, Hne. set_solver.
    + intros l. rewrite Hd1, Hd. cbn. rewrite lookup_insert_is_Some. destruct (decide (r = l)); naive_solver.
    + intros l x. cbn. rewrite lookup_insert_Some. intros [[<- <-]|[? Hx]]; [done|by eapply Hr].
    + rewrite Hcont by done. done.
    + intros Hin. apply NoDup_app in Hn1 as (Hn2 & Hn3 & Hn4). apply elem_of_app in Hov as [Ho1|Ho1].
      * apply (Hn3 _ Ho1). set_solver.
      * apply NoDup_app in Hn4 as (_ & Hn4 & _). apply (Hn4 _ Hin). by right.
    + cbn. by rewrite Hitems.
  - unfold item_of. rewrite bool_decide_false by done. unfold content, record_at. cbn. by rewrite lookup_insert_eq.
Qed.

Lemma padded_bounds (n : list Z) :
  Z.of_nat (length n) ≤ NAME_MAX → Z.of_nat (length n) < padded (Some n) ≤ NAME_MAX + 1.
Proof.
  unfold padded, NAME_MAX. intros Hn.
  assert (∀ x, 0 ≤ x → Z.ldiff x 15 = x - x mod 16) as Hd.
  { intros x Hx. change 15 with (Z.ones 4). rewrite Z.ldiff_ones_r by done. rewrite Z.shiftl_mul_pow2, Z.shiftr_div_pow2 by done.
    change (2 ^ 4) with 16. divlia. }
  rewrite Hd by lia. divlia.
Qed.
Lemma event_length wd mask cookie name :
  name_error name = 0 → Z.of_nat (length (event_bytes wd mask cookie name)) ≤ RECORD_BYTES.
Proof.
  unfold event_bytes, name_error. intros Hn. rewrite !length_app, length_replicate. cbn [inotify_event word app length].
  destruct name as [n|]; cbn [default from_option id length]; [|cbn; unfold RECORD_BYTES, INOTIFY_HEADER, NAME_MAX; lia].
  destruct (NAME_MAX <? Z.of_nat (length n)) eqn:E; breflect; [done|].
  pose proof (padded_bounds n E). unfold RECORD_BYTES, INOTIFY_HEADER. cbn [length inotify_event word app]. lia.
Qed.
Lemma repeats_spec q s ls fs xs bytes : core q s ls fs xs → repeats q bytes = spec_repeats s bytes.
Proof.
  intros Hc. pose proof Hc as [Hs [Ht Hn _] Hi _ Hr _ _ _ _ _]. unfold repeats, spec_repeats.
  rewrite Ht, Hr, Hn, Hi, fmap_last, length_fmap. destruct (last ls) as [t|] eqn:El; cbn; [|done].
  rewrite (item_of_bytes _ _ _ _ _ Hs).
  assert (t ∈ ls ++ fs ++ xs) as Hin by (apply last_Some_elem_of in El; set_solver).
  destruct (record_size _ _ _ _ _ Hs Hin) as [-> _]. unfold item_size. rewrite (item_of_bytes _ _ _ _ _ Hs). fold (content q t).
  replace (Z.of_nat (a_leased s) =? Z.of_nat (length ls)) with (bool_decide (a_leased s = length ls))
    by (case_bool_decide; symmetry; [apply Z.eqb_eq|apply Z.eqb_neq]; lia).
  destruct (bool_decide (content q t = bytes)) eqn:Eb; [|by rewrite !andb_false_r].
  apply bool_decide_eq_true in Eb as ->. by rewrite Z.eqb_refl, !andb_true_r.
Qed.

Lemma rep_same_limit q s ls fs : core q s ls fs (apart q) → bounded q ls → rep (q_limit q) q s.
Proof. intros Hc Hb. by exists ls, fs. Qed.
(** Storing an event in the record [r] that was set apart and filled. *)
Lemma store_rep q q2 s ls fs r bytes written :
  core q2 s ls fs (r :: apart q) → item_of q2 r = Event bytes → q_error q2 = 0 →
  q_overflow_queued q2 = q_overflow_queued q → q_limit q2 = q_limit q → Z.of_nat (length ls) < q_limit q →
  let '(q3, e) := append q2 written r in
  ∃ s', spec_push s written (Event bytes) = (s', e) ∧
    rep (q_limit q) (if negb (e =? 0)
                     then with_free (with_records q3 (alter (set_next (q_free q3)) r (q_records q3))) (Some r) else q3) s'.
Proof.
  intros Hc Hi He Hf Hlim Hlt. destruct (append q2 written r) as [q3 e] eqn:Ha.
  pose proof (co_limit _ _ _ _ _ Hc) as Hl.
  assert (Z.of_nat (length ls) < UINT32_MAX) as Hlen by (unfold INT_MAX, UINT32_MAX in *; lia).
  destruct (push_core _ _ _ _ _ _ _ _ _ Hc He Hlen Ha) as (s' & Hpush & Hres). rewrite Hi in Hpush. exists s'. split; [done|].
  assert (bounded q ls) as Hb by (unfold bounded; case_if; lia).
  destruct Hres as [(Hne & -> & Hc')|(-> & Hst & Hc')].
  - rewrite (proj2 (Z.eqb_neq _ _) Hne). cbn [negb]. exists ls, (r :: fs). unfold bounded, apart. cbn. rewrite Hf, Hlim.
    split_and!; [|by unfold bounded in Hb|done]. destruct Hc' as [Hs Ht ? ? ? ? ? ? ? ?].
    pose proof (sh_nodup _ _ _ _ Hs) as Hnd. apply NoDup_app in Hnd as (_ & Hd1 & Hd2). apply NoDup_app in Hd2 as (_ & Hd2 & Hd3).
    set (q4 := with_free _ _). assert (same_payload (q_records (with_error q2 e)) (q_records q4)) as Hp by (cbn; auto with watch).
    assert (∀ l, content q4 l = content (with_error q2 e) l) as Hcont by (intros; by apply payload_content).
    assert (linked (q_records q4) (q_head q4) ls) as Hq4.
    { cbn. eapply linked_ext; [|apply Hs]. intros l Hin. apply nx_alter_ne. intros ->. apply (Hd1 _ Hin). set_solver. }
    assert (shape q4 ls (r :: fs) (apart q)) as Hs4.
    { eapply shape_relink; [exact Hs|done|done|..].
      - cbn. split; [done|]. rewrite nx_alter_eq by (apply (sh_dom _ _ _ _ Hs); set_solver).
        eapply linked_ext; [|apply Hs]. intros l Hin. apply nx_alter_ne. intros ->. apply (Hd2 _ Hin). by left.
      - apply Permutation_app_head. cbn. apply Permutation_middle.
      - apply not_elem_of_cons. split; [|apply Hs]. intros <-. unfold item_of in Hi. by rewrite bool_decide_true in Hi. }
    unfold apart in Hs4. split; try done.
    + destruct Ht. split; try done. cbn. rewrite (items_content (with_error q2 e) q4) by done. done.
    + by rewrite (items_content (with_error q2 e) q4) by done.
  - cbn [Z.eqb negb]. destruct (status_fields _ _ Hst) as (_ & E2 & E3 & _). exists (ls ++ [r]), fs.
    unfold bounded, apart. rewrite E2, E3, Hf, Hlim, length_app. cbn. split_and!; [done| |done]. destruct (q_overflow_queued q); lia.
Qed.
Lemma emit_rep limit q s written memory wd mask cookie name q' e :
  rep limit q s → md_watch_queue_emit q written memory wd mask cookie name = (q', e) →
  ∃ s' spare, spec_emit limit s written spare (name_error name) (event_bytes wd mask cookie name) = (s', e) ∧ rep limit q' s'.
Proof.
  intros (ls & fs & Hc & Hb & <-) Hemit. pose proof (rep_same_limit _ _ _ _ Hc Hb) as Hrep.
  pose proof (co_tally _ _ _ _ _ Hc) as [_ Hcount _]. unfold md_watch_queue_emit in Hemit. unfold spec_emit. rewrite (co_error _ _ _ _ _ Hc).
  destruct (q_error q =? 0) eqn:Ee; cbn [negb] in *; [|simplify_eq; by exists s, true].
  destruct (name_error name =? 0) eqn:En; cbn [negb] in *; [|simplify_eq; by exists s, true].
  rewrite (repeats_spec _ _ _ _ _ _ Hc) in Hemit. set (bytes := event_bytes wd mask cookie name) in *.
  destruct (spec_repeats s bytes); [simplify_eq; by exists s, true|].
  rewrite Hcount in Hemit. rewrite (core_length _ _ _ _ _ Hc). apply Z.eqb_eq in Ee, En.
  destruct (overflow_rep q s ls fs written Hc Hb Ee) as (qo & so & eo & Ho1 & Ho2 & Ho3).
  destruct (q_limit q <=? Z.of_nat (length ls)) eqn:El; cbn [orb].
  { rewrite Ho1 in Hemit. simplify_eq. by exists so, true. }
  breflect. pose proof (co_shape _ _ _ _ _ Hc) as Hs. pose proof (sh_nodup _ _ _ _ Hs) as Hn.
  pose proof (overflow_present _ _ _ _ Hs) as Hov. pose proof (event_length wd mask cookie name En) as Hlen. fold bytes in Hlen.
  pose proof (sh_free _ _ _ _ Hs) as Hfl. destruct (q_free q) as [r|] eqn:Ef; [|destruct memory].
  - destruct fs as [|r' fs1]; [done|]. destruct Hfl as [[= <-] Hfl].
    destruct (fill_core q s ls (r :: fs1) (apart q) (with_free q (r_next (record_at q r))) r fs1 bytes) as [Hc2 Hi2]; try done.
    + apply NoDup_app in Hn as (_ & Hd & Hn). apply NoDup_cons in Hn as [Hr _]. rewrite !not_elem_of_app in *.
      split; [|done]. intros Hin. apply (Hd _ Hin). set_solver.
    + set_solver.
    + eapply NoDup_Permutation_proper; [|exact Hn]. apply Permutation_app_head. symmetry. apply Permutation_middle.
    + cbn. unfold nx in Hfl. unfold record_at. by destruct (q_records q !! r).
    + pose proof (store_rep q _ s ls fs1 r bytes written Hc2 Hi2 Ee eq_refl eq_refl El) as Hst.
      destruct (append _ written r) as [q3 e3]. destruct Hst as (s' & Hp & Hr). exists s', true.
      destruct (e3 =? 0); cbn [negb] in *; by injection Hemit as <- <-.
  - set (r := fresh (dom (q_records q))) in *. assert (r ∉ ls ++ fs ++ apart q) as Hr.
    { rewrite (sh_dom _ _ _ _ Hs), <- elem_of_dom. apply is_fresh. }
    destruct (fill_core q s ls fs (apart q) q r fs bytes) as [Hc2 Hi2]; try done; [set_solver|..].
    + rewrite app_assoc. eapply NoDup_Permutation_proper; [symmetry; apply Permutation_middle|]. rewrite <- app_assoc.
      by apply NoDup_cons.
    + by rewrite Ef.
    + rewrite Ef. by destruct q; cbn in Ef; subst.
    + pose proof (store_rep q _ s ls fs r bytes written Hc2 Hi2 Ee eq_refl eq_refl El) as Hst.
      destruct (append _ written r) as [q3 e3]. destruct Hst as (s' & Hp & Hr'). exists s', true.
      destruct (e3 =? 0); cbn [negb] in *; by injection Hemit as <- <-.
  - rewrite Ho1 in Hemit. simplify_eq. by exists so, false.
Qed.

Lemma fitting_spec q ls fs xs fuel p ls' capacity used count buffer :
  shape q ls fs xs → (∀ l, l ∈ ls' → l ∈ ls) → linked (q_records q) p ls' → (length ls' ≤ fuel)%nat →
  let items := item_of q <$> ls' in
  let n := fit (capacity - used) items in
  fitting fuel q p capacity used count buffer
  = (used + total (take n items), count + Z.of_nat n, buffer ++ (take n items ≫= item_bytes)).
Proof.
  intros Hs. revert p ls' used count buffer. induction fuel as [|fuel IH]; intros p ls' used count buffer Hin Hl Hf; cbv zeta.
  - destruct ls' as [|l ls']; [|by cbn in Hf; lia]. cbn. rewrite app_nil_r. refine (f_equal2 pair (f_equal2 pair _ _) _); lia || done.
  - destruct ls' as [|l ls']; cbn in Hl; [subst p; cbn; rewrite app_nil_r; refine (f_equal2 pair (f_equal2 pair _ _) _); lia || done|].
    destruct Hl as [-> Hl]. cbn [fitting fmap list_fmap fit].
    assert (l ∈ ls ++ fs ++ xs) as Hl' by (pose proof (Hin l ltac:(by left)); set_solver).
    destruct (record_size _ _ _ _ _ Hs Hl') as [-> _]. destruct (item_size (item_of q l) <=? capacity - used).
    + assert (r_next (record_at q l) = nx (q_records q) l) as ->.
      { apply (sh_dom _ _ _ _ Hs) in Hl' as [r Hr]. unfold record_at, nx. by rewrite Hr. }
      rewrite (IH _ ls'); [|intros; apply Hin; by right|done|by cbn in Hf; lia]. cbv zeta.
      replace (capacity - (used + item_size (item_of q l))) with (capacity - used - item_size (item_of q l)) by lia.
      change (r_bytes (record_at q l)) with (content q l). rewrite <- (item_of_bytes _ _ _ _ l Hs).
      set (n := fit _ _). cbn [take total foldr mbind list_bind]. rewrite <- app_assoc. unfold total. refine (f_equal2 pair (f_equal2 pair _ _) _); lia || done.
    + cbn. rewrite app_nil_r. refine (f_equal2 pair (f_equal2 pair _ _) _); lia || done.
Qed.
Lemma fit_length capacity l : (fit capacity l ≤ length l)%nat.
Proof. revert capacity. induction l as [|i l IH]; intros c; cbn; [lia|]. case_if; [|lia]. specialize (IH (c - item_size i)). lia. Qed.
Lemma reserve_rep limit q s received buffer capacity q' used out :
  rep limit q s → md_watch_queue_reserve q received buffer capacity = (q', used, out) →
  ∃ s', spec_reserve s received buffer capacity = (s', used, out) ∧ rep limit q' s'.
Proof.
  intros (ls & fs & Hc & Hb & <-). pose proof (rep_same_limit _ _ _ _ Hc Hb) as Hrep.
  pose proof Hc as [Hs Ht Hi Ha Hr Hl Hrb Hm Hle Hlim]. unfold md_watch_queue_reserve, spec_reserve. rewrite Ha.
  destruct (q_error q =? 0) eqn:Ee; cbn [negb]; [|intros [= <- <- <-]; by exists s].
  pose proof (sh_queue _ _ _ _ Hs) as Hq. rewrite Hi. destruct ls as [|l ls].
  { rewrite Hr. cbn in Hl, Hq. rewrite Hq. replace (a_leased s) with 0%nat by lia. cbn. intros [= <- <- <-]. by exists s. }
  set (lq := l :: ls) in *. destruct Hq as [Hh Hq]. rewrite Hh, (bool_decide_true (is_Some (Some l))) by done. rewrite Hr.
  cbn [fmap list_fmap lq]. fold lq. destruct (decide (a_leased s = 0%nat)) as [E0|E0].
  2: { rewrite bool_decide_false by done. rewrite (proj2 (Z.eqb_neq _ _)) by lia. cbn. intros [= <- <- <-]. by exists s. }
  rewrite bool_decide_true, E0 by done. cbn [Z.of_nat Z.eqb negb].
  assert (l ∈ lq ++ fs ++ apart q) as Hin by (unfold lq; set_solver). destruct (record_size _ _ _ _ _ Hs Hin) as [Hsz _].
  unfold head_size. rewrite Hh, Hsz. destruct (capacity <? item_size (item_of q l)) eqn:Ecap; [intros [= <- <- <-]; by exists s|].
  destruct buffer; cbn [negb]; [|intros [= <- <- <-]; by exists s].
  pose proof (ta_count _ _ Ht) as Hcn.
  rewrite (fitting_spec q lq fs (apart q) _ _ lq); [|done|done|by split|lia]. cbv zeta. rewrite Z.sub_0_r, !Z.add_0_l.
  change (item_of q l :: (item_of q <$> ls)) with (item_of q <$> lq). set (n := fit capacity (item_of q <$> lq)).
  breflect. unfold drain_marker. rewrite Hm by done.
  rewrite decide_False by (intros [?|?]; [done|lia]). destruct (received =? 1); cbn [Z.eqb negb].
  - intros [= <- <- <-]. eexists. split; [done|]. exists lq, fs. split_and!; [|done|done].
    pose proof (fit_length capacity (item_of q <$> lq)) as Hfl. rewrite length_fmap in Hfl. fold n in Hfl.
    assert (n ≠ 0%nat) as Hn0.
    { unfold n, lq. cbn. destruct (item_size (item_of q l) <=? capacity) eqn:E; [done|]. breflect. lia. }
    split; try done; cbn; [by destruct Hs|by destruct Ht|]. intros _. by rewrite decide_True by (by right).
  - intros [= <- <- <-]. eexists. split; [done|]. exists lq, fs. split_and!; [|done|done].
    rewrite <- E0. rewrite <- Hi. apply (core_error q); [done|done|done].
Qed.

(** Consuming the head: its record becomes free, the embedded one is set apart. *)
Definition counters (q : md_watch_queue) : Z * Z * Z * Z * Z * option loc * Z * Z * nat :=
  (q_writer q, q_error q, q_limit q, q_count q, q_bytes q, q_tail q, q_reserved q, q_reserved_bytes q, q_markers q).
Lemma consume_head q l ls fs :
  shape q (l :: ls) fs (apart q) →
  let q0 := with_links q (r_next (record_at q l)) (q_tail q) (q_count q) (q_bytes q) in
  let q1 := if bool_decide (l = OVERFLOW) then with_overflow_queued q0 false
            else with_free (with_records q0 (alter (set_next (q_free q0)) l (q_records q0))) (Some l) in
  ∃ fs', shape q1 ls fs' (apart q1) ∧ (∀ x, content q1 x = content q x) ∧ counters q1 = counters q
    ∧ q_overflow_queued q1 = q_overflow_queued q && negb (bool_decide (l = OVERFLOW)).
Proof.
  intros Hs q0 q1. pose proof Hs as [[Hh Hq] Hf Hn Hd _ _ Hk].
  assert (is_Some (q_records q !! l)) as Hl by (apply Hd; set_solver).
  assert (r_next (record_at q l) = nx (q_records q) l) as Hnext.
  { unfold record_at, nx. destruct Hl as [r Hr]. by rewrite Hr. }
  cbn in Hn. apply NoDup_cons in Hn as [Hln Hn]. unfold q1. case_bool_decide as E.
  - subst l. exists fs. assert (q_overflow_queued q = true) as Ef.
    { destruct (q_overflow_queued q) eqn:Ef; [done|]. exfalso. apply Hln. unfold apart. rewrite Ef. set_solver. }
    split_and!; try done; [|by rewrite Ef]. eapply shape_relink; [exact Hs|done|..]; cbn; try done.
    + by rewrite Hnext.
    + unfold apart. rewrite Ef. cbn. by rewrite app_nil_r, app_assoc, Permutation_app_comm.
  - exists (l :: fs). assert (same_payload (q_records q) (q_records q1)) as Hp.
    { cbn. auto with watch. }
    split_and!; try done.
    + assert (∀ x, x ∈ ls ++ fs → x ≠ l) as Hne by (intros x Hx ->; apply Hln; set_solver).
      eapply shape_relink; [exact Hs|done|..]; cbn.
      * rewrite Hnext. eapply linked_ext; [|exact Hq]. intros x Hx. apply nx_alter_ne, Hne. set_solver.
      * split; [done|]. rewrite nx_alter_eq by done. eapply linked_ext; [|exact Hf]. intros x Hx. apply nx_alter_ne, Hne. set_solver.
      * change (apart (with_free _ _)) with (apart q). by rewrite <- Permutation_middle.
      * set_solver.
    + intros x. by apply payload_content.
    + cbn. by rewrite andb_true_r.
Qed.
Lemma consume_ok ls1 q ls2 fs :
  shape q (ls1 ++ ls2) fs (apart q) →
  let q' := consume (length ls1) q in
  ∃ fs', shape q' ls2 fs' (apart q') ∧ (∀ x, content q' x = content q x) ∧ counters q' = counters q
    ∧ q_overflow_queued q' = q_overflow_queued q && negb (bool_decide (OVERFLOW ∈ ls1)).
Proof.
  revert q fs. induction ls1 as [|l ls1 IH]; intros q fs Hs; cbv zeta.
  { exists fs. cbn. split_and!; try done. by rewrite andb_true_r. }
  pose proof (sh_queue _ _ _ _ Hs) as [Hh _]. destruct (consume_head q l (ls1 ++ ls2) fs Hs) as (fs1 & Hs1 & Hc1 & Hk1 & Hf1).
  cbn [length consume]. rewrite Hh. cbv zeta. set (q1 := if bool_decide (l = OVERFLOW) then _ else _) in *.
  destruct (IH q1 fs1 Hs1) as (fs' & Hs' & Hc' & Hk' & Hf'). exists fs'. split_and!; [done|..].
  - intros x. by rewrite Hc', Hc1.
  - by rewrite Hk', Hk1.
  - rewrite Hf', Hf1, <- andb_assoc. f_equal. rewrite <- negb_orb. f_equal. rewrite <- bool_decide_or. apply bool_decide_ext.
    rewrite elem_of_cons. naive_solver.
Qed.
Lemma total_take_drop n l : total (take n l) + total (drop n l) = total l.
Proof. rewrite <- total_app. by rewrite take_drop. Qed.
Lemma queue_total_nonneg l : 0 ≤ total l.
Proof. unfold total. induction l as [|i l IH]; cbn; [done|]. assert (0 ≤ item_size i) by (unfold item_size; lia). lia. Qed.

(** Announcing that there is something to read, in a queue that is otherwise as
    the specification has it. *)
Lemma signal_rep limit q items ls fs written q' e :
  shape q ls fs (apart q) → tally q ls → items = item_of q <$> ls → bounded q ls → 0 ≤ q_limit q ≤ INT_MAX → q_limit q = limit →
  q_error q = 0 → q_reserved q = 0 → q_reserved_bytes q = 0 → q_markers q = 0%nat → ls ≠ [] →
  signal_ready q written = (q', e) →
  ∃ s', spec_signal (mk_spec items 0 0) written = (s', e) ∧ rep limit q' s'.
Proof.
  intros Hs Ht -> Hb Hlim Hl He Hr Hrb Hm Hne. unfold signal_ready, spec_signal. cbn [a_items a_leased].
  destruct (written =? 1) eqn:Ew; cbn; fold (failure written); intros [= <- <-].
  - eexists. rewrite He. split; [done|]. exists ls, fs. split_and!; [|done|done].
    split; try done; cbn; [by destruct Hs|by destruct Ht|lia|].
    intros _. rewrite Hm, decide_False; [done|]. by intros [?|?].
  - eexists. split; [done|]. exists ls, fs. split_and!; [|done|done].
    split; try done; cbn; [by destruct Hs|by destruct Ht|lia|]. intros Hf. by apply failure_nonzero in Hf.
Qed.
Lemma last_drop {A} (l : list A) n : (n < length l)%nat → last (drop n l) = last l.
Proof.
  intros Hn. rewrite <- (take_drop n l) at 2. destruct (drop n l) as [|x r] eqn:E; [|by rewrite last_app_cons].
  apply (f_equal length) in E. rewrite length_drop in E. cbn in E. lia.
Qed.
(** The records after a completed delivery. *)
Lemma delivered_shape q s ls fs :
  core q s ls fs (apart q) → bounded q ls →
  let q1 := consume (a_leased s) (with_lease q 0 0) in
  let q2 := with_links q1 (q_head q1) (if q_head q1 then q_tail q1 else None)
              (wrap32 (q_count q1 - Z.of_nat (a_leased s))) (wrap64 (q_bytes q1 - q_reserved_bytes q)) in
  ∃ fs', shape q2 (drop (a_leased s) ls) fs' (apart q2) ∧ tally q2 (drop (a_leased s) ls)
    ∧ drop (a_leased s) (a_items s) = item_of q2 <$> drop (a_leased s) ls ∧ bounded q2 (drop (a_leased s) ls)
    ∧ q_error q2 = q_error q ∧ q_limit q2 = q_limit q ∧ q_reserved q2 = 0 ∧ q_reserved_bytes q2 = 0 ∧ q_markers q2 = q_markers q.
Proof.
  intros [Hs [Ht1 Ht2 Ht3] Hi Ha Hr Hl Hrb Hm Hle Hlim] Hb q1 q2. set (q0 := with_lease q 0 0) in *.
  assert (shape q0 ls fs (apart q0)) as Hs0 by (by destruct Hs).
  rewrite <- (take_drop (a_leased s) ls) in Hs0. destruct (consume_ok _ _ _ _ Hs0) as (fs' & Hs1 & Hc1 & Hk1 & Hf1).
  rewrite length_take_le in Hs1, Hc1, Hk1, Hf1 by done. fold q1 in Hs1, Hc1, Hk1, Hf1.
  injection Hk1 as K1 K2 K3 K4 K5 K6 K7 K8 K9.
  assert (drop (a_leased s) (a_items s) = item_of q2 <$> drop (a_leased s) ls) as Hitems.
  { rewrite Hi, <- fmap_drop. symmetry. apply items_content. exact Hc1. }
  exists fs'. split_and!; try done.
  - by destruct Hs1.
  - split; unfold q2; cbn [with_links q_tail q_count q_bytes].
    + rewrite K6. cbn. rewrite Ht1. pose proof (sh_queue _ _ _ _ Hs1) as Hq. destruct (drop (a_leased s) ls) as [|l lr] eqn:El.
      * cbn in Hq. by rewrite Hq.
      * destruct Hq as [-> _]. rewrite <- El, last_drop; [done|]. apply (f_equal length) in El. rewrite length_drop in El. cbn in El. lia.
    + rewrite K4. cbn. rewrite Ht2, length_drop. pose proof (bounded_small _ _ Hlim Hb). rewrite wrap32_small by lia. lia.
    + fold q2. rewrite <- Hitems, K5. cbn. rewrite Ht3, Hrb, <- Hi. rewrite <- (total_take_drop (a_leased s) (a_items s)) at 1.
      replace (_ + _ - _) with (total (drop (a_leased s) (a_items s))) by lia. unfold wrap64. apply Z.mod_small.
      pose proof (queue_total_nonneg (drop (a_leased s) (a_items s))). pose proof (queue_total_nonneg (take (a_leased s) (a_items s))).
      pose proof (total_take_drop (a_leased s) (a_items s)). pose proof (total_bound _ _ _ _ Hs) as Htb. rewrite <- Hi in Htb.
      pose proof (bounded_small _ _ Hlim Hb). unfold RECORD_BYTES, INOTIFY_HEADER, NAME_MAX, UINT32_MAX in *. lia.
  - unfold bounded in *. change (q_limit q2) with (q_limit q1). change (q_overflow_queued q2) with (q_overflow_queued q1).
    rewrite K3, Hf1, length_drop. cbn. destruct (q_overflow_queued q); cbn; [|lia]. case_bool_decide as Hin; cbn; [|lia].
    destruct (a_leased s); [by rewrite take_0 in Hin; apply elem_of_nil in Hin|lia].
Qed.
Lemma complete_rep limit q s written delivered q' e :
  rep limit q s → md_watch_queue_complete q written delivered = (q', e) →
  ∃ s', spec_complete s written delivered = (s', e) ∧ rep limit q' s'.
Proof.
  intros (ls & fs & Hc & Hb & <-). pose proof Hc as [Hs Ht Hi Ha Hr Hl Hrb Hm Hle Hlim].
  unfold md_watch_queue_complete, spec_complete. rewrite Hr. destruct (decide (a_leased s = 0%nat)) as [E0|E0].
  { rewrite bool_decide_true, E0 by done. cbn. intros [= <- <-]. eexists. split; [done|]. exists ls, fs. split_and!; [|done|done].
    rewrite E0 in Hm. split; try done; [by destruct Hs|by destruct Ht|cbn; lia]. }
  rewrite bool_decide_false by done. rewrite (proj2 (Z.eqb_neq _ _)) by lia. specialize (Hle E0). specialize (Hm Hle).
  rewrite decide_True in Hm by (by right). assert (ls ≠ []) as Hne by (intros ->; cbn in Hl; lia). rewrite Ha, Hle.
  destruct delivered; cbn [negb].
  2: { intros Hsig. rewrite bool_decide_false; [|cbn; rewrite Hi; by destruct ls].
    eapply (signal_rep _ (with_lease q 0 0)); [..|exact Hsig]; try done; [by destruct Hs|by destruct Ht]. }
  rewrite Nat2Z.id. cbv zeta. set (q1 := consume (a_leased s) (with_lease q 0 0)).
  set (q2 := with_links q1 (q_head q1) _ _ _).
  destruct (delivered_shape q s ls fs Hc Hb) as (fs' & Hs2 & Ht2 & Hi2 & Hb2 & K2 & K3 & K7 & K8 & K9). fold q1 q2 in Hs2, Ht2, Hi2, Hb2, K2, K3, K7, K8, K9.
  intros Hcomp. cbn [a_items]. rewrite Hi2. pose proof (sh_queue _ _ _ _ Hs2) as Hq2. destruct (drop (a_leased s) ls) as [|l lr] eqn:El.
  - cbn in Hq2. change (q_head q2) with (q_head q1) in Hcomp, Hq2. rewrite Hq2 in Hcomp. injection Hcomp as <- <-.
    eexists. split; [done|]. exists [], fs'. split_and!; [|done|by rewrite K3].
    split; try done; rewrite ?K2, ?K3, ?K7, ?K8, ?K9; try done.
  - destruct Hq2 as [Hh _]. change (q_head q2) with (q_head q1) in Hcomp, Hh. rewrite Hh in Hcomp. rewrite bool_decide_false by done.
    eapply (signal_rep _ q2); [exact Hs2|exact Ht2|done|exact Hb2|..]; rewrite ?K3; congruence || done.
Qed.

(** ** Creation and destruction *)

Lemma create_rep e limit flags q reader :
  0 ≤ limit → md_watch_queue_create e limit flags = inl (q, reader) → rep limit q (mk_spec [] 0 0).
Proof.
  intros H0. unfold md_watch_queue_create. destruct (_ || _) eqn:Eg; [done|]. destruct (negb (ce_memory e)); [done|].
  destruct (ce_pair e) as [[rd wr]|]; [|done]. cbv zeta.
  match goal with |- context [if negb (?r =? 0) then inr _ else _] => destruct (negb (r =? 0)) end; [done|]. intros [= <- <-].
  apply orb_false_iff in Eg as [Eg _]. breflect. exists [], []. split_and!; [|unfold bounded; cbn; lia|done].
  split; try done. split; try done; cbn [q_records apart q_overflow_queued app].
  - apply NoDup_singleton.
  - intros l. rewrite lookup_singleton_is_Some. set_solver.
  - intros l r [<- <-]%lookup_singleton_Some. split; [reflexivity|by vm_compute].
  - apply not_elem_of_nil.
Qed.
Lemma free_records_spec fuel h p ls :
  linked h p ls → NoDup ls → (length ls ≤ fuel)%nat →
  ∀ x, free_records fuel h p !! x = if decide (x ∈ ls ∧ x ≠ OVERFLOW) then None else h !! x.
Proof.
  revert h p ls. induction fuel as [|fuel IH]; intros h p ls Hl Hn Hf x.
  { destruct ls; [|cbn in Hf; lia]. rewrite decide_False; [done|]. intros [H _]. by apply elem_of_nil in H. }
  destruct ls as [|l ls]; cbn in Hl.
  { subst p. rewrite decide_False; [done|]. intros [H _]. by apply elem_of_nil in H. }
  destruct Hl as [-> Hl]. cbn [free_records]. apply NoDup_cons in Hn as [Hln Hn]. cbn in Hf.
  assert (r_next (default (mk_record None 0 []) (h !! l)) = nx h l) as -> by (unfold nx; by destruct (h !! l)).
  assert (linked (if bool_decide (l = OVERFLOW) then h else delete l h) (nx h l) ls) as Hl'.
  { case_bool_decide; [done|]. eapply linked_ext; [|exact Hl]. intros y Hy. unfold nx. rewrite lookup_delete_ne; [done|]. by intros ->. }
  rewrite (IH _ _ _ Hl' Hn) by lia. case_bool_decide as E.
  - subst l. apply decide_ext. rewrite elem_of_cons. naive_solver.
  - destruct (decide (x = l)) as [->|Hx].
    + rewrite lookup_delete_eq. rewrite (decide_True (P := l ∈ l :: ls ∧ _)) by (split; [by left|done]). by case_decide.
    + rewrite lookup_delete_ne by done. apply decide_ext. rewrite elem_of_cons. naive_solver.
Qed.
(** Destruction returns every record to the allocator but the embedded one. *)
Lemma destroy_frees limit q s : rep limit q s → ∀ x, is_Some (md_watch_queue_destroy q !! x) ↔ x = OVERFLOW.
Proof.
  intros (ls & fs & Hc & _ & _) x. pose proof (co_shape _ _ _ _ _ Hc) as Hs. pose proof (overflow_present _ _ _ _ Hs) as Hov.
  destruct Hs as [Hq Hf Hn Hd _ _ Hk]. pose proof Hn as Hn0. apply NoDup_app in Hn as (Hnl & Hdis & Hnf). apply NoDup_app in Hnf as (Hnf & _ & _).
  assert (length (ls ++ fs ++ apart q) ≤ size (q_records q))%nat as Hsize.
  { rewrite <- size_dom, <- (size_list_to_set (C := gset loc)) by done. apply subseteq_size. intros y Hy.
    apply elem_of_list_to_set, Hd in Hy. by apply elem_of_dom. }
  rewrite !length_app in Hsize. unfold md_watch_queue_destroy.
  set (h1 := free_records _ (q_records q) (q_head q)).
  assert (∀ y, h1 !! y = if decide (y ∈ ls ∧ y ≠ OVERFLOW) then None else q_records q !! y) as H1
    by (intros y; apply free_records_spec; [done|done|lia]).
  assert (linked h1 (q_free q) fs) as Hf1.
  { eapply linked_ext; [|exact Hf]. intros y Hy. unfold nx. rewrite H1, decide_False; [done|]. intros [Hyl _]. apply (Hdis _ Hyl). set_solver. }
  rewrite (free_records_spec _ _ _ fs Hf1 Hnf) by lia. split.
  - intros Hsome. case_decide as E1; [by destruct Hsome|]. rewrite H1 in Hsome. case_decide as E2; [by destruct Hsome|].
    apply Hd in Hsome. destruct (decide (x = OVERFLOW)); [done|]. unfold apart in Hsome. destruct (q_overflow_queued q); set_solver.
  - intros ->. rewrite decide_False by naive_solver. rewrite H1, decide_False by naive_solver. apply Hd. set_solver.
Qed.

(** ** Histories *)

Inductive watch_op :=
  | Emit (written : Z) (memory : bool) (wd mask cookie : Z) (name : option (list Z))
  | Reserve (received : Z) (buffer : bool) (capacity : Z)
  | Complete (written : Z) (delivered : bool).
Definition watch_run (q : md_watch_queue) (op : watch_op) : md_watch_queue * Z * option (list Z) :=
  match op with
  | Emit written memory wd mask cookie name => (md_watch_queue_emit q written memory wd mask cookie name, None)
  | Reserve received buffer capacity => md_watch_queue_reserve q received buffer capacity
  | Complete written delivered => (md_watch_queue_complete q written delivered, None)
  end.
Definition spec_run (limit : Z) (s : queue_spec) (spare : bool) (op : watch_op) : queue_spec * Z * option (list Z) :=
  match op with
  | Emit written _ wd mask cookie name =>
      (spec_emit limit s written spare (name_error name) (event_bytes wd mask cookie name), None)
  | Reserve received buffer capacity => spec_reserve s received buffer capacity
  | Complete written delivered => (spec_complete s written delivered, None)
  end.
Lemma watch_step limit q s op q' r out :
  rep limit q s → watch_run q op = (q', r, out) → ∃ s' spare, spec_run limit s spare op = (s', r, out) ∧ rep limit q' s'.
Proof.
  intros Hr. destruct op as [w m wd mask cookie name|received buffer capacity|w d]; cbn [watch_run spec_run].
  - intros [= He <-]. destruct (emit_rep _ _ _ _ _ _ _ _ _ _ _ Hr He) as (s' & spare & Hs & Hr'). exists s', spare. by rewrite Hs.
  - intros H. destruct (reserve_rep _ _ _ _ _ _ _ _ _ Hr H) as (s' & Hs & Hr'). by exists s', true.
  - intros [= He <-]. destruct (complete_rep _ _ _ _ _ _ _ Hr He) as (s' & Hs & Hr'). exists s', true. by rewrite Hs.
Qed.
(** The read of the code is a reservation and its completion. *)
Lemma read_steps q received written buffer capacity deliver :
  md_watch_queue_read q received written buffer capacity deliver
  = let '(q1, used, bytes) := watch_run q (Reserve received buffer capacity) in
    if used <? 0 then (q1, used)
    else
      let r := deliver (default [] bytes) in
      let '(q2, completed, _) := watch_run q1 (Complete written (r =? 0)) in
      (q2, if negb (r =? 0) then r else if negb (completed =? 0) then completed else used).
Proof.
  unfold md_watch_queue_read. cbn. destruct (md_watch_queue_reserve q received buffer capacity) as [[q1 used] bytes].
  destruct (used <? 0); [done|]. by destruct (md_watch_queue_complete q1 written _).
Qed.

(** A session: the bytes of the current lease, the bytes delivered, the events
    emitted. *)
Record session := mk_session {
  ss_queue : md_watch_queue; ss_lease : list Z; ss_delivered : list Z; ss_emitted : list (list Z) }.
Definition session_step (ss : session) (op : watch_op) : session :=
  let '(q, r, out) := watch_run (ss_queue ss) op in
  match op with
  | Emit _ _ wd mask cookie name =>
      mk_session q (ss_lease ss) (ss_delivered ss) (ss_emitted ss ++ [event_bytes wd mask cookie name])
  | Reserve _ _ _ => mk_session q (if r <? 0 then ss_lease ss else default [] out) (ss_delivered ss) (ss_emitted ss)
  | Complete _ delivered =>
      mk_session q [] (if delivered then ss_delivered ss ++ ss_lease ss else ss_delivered ss) (ss_emitted ss)
  end.
Definition events (l : list item) : list (list Z) := omap (λ i, match i with Event b => Some b | Lost => None end) l.
(** The items accepted so far: those delivered, then those queued. *)
Record history (limit : Z) (ss : session) (s : queue_spec) (past : list item) : Prop := mk_history {
  hi_rep : rep limit (ss_queue ss) s;
  hi_lease : ss_lease ss = take (a_leased s) (a_items s) ≫= item_bytes;
  hi_delivered : ss_delivered ss = past ≫= item_bytes;
  hi_emitted : events (past ++ a_items s) `sublist_of` ss_emitted ss;
  hi_error : a_error s ≤ 0 }.

(** Items are only appended, at most the event that is emitted. *)
Lemma spec_emit_items limit s written spare error bytes :
  let s' := (spec_emit limit s written spare error bytes).1 in
  a_leased s' = a_leased s
  ∧ ∃ l, a_items s' = a_items s ++ l ∧ (l = [] ∨ l = [Lost] ∨ l = [Event bytes]).
Proof.
  assert (∀ i, a_leased (spec_push s written i).1 = a_leased s
    ∧ ∃ l, a_items (spec_push s written i).1 = a_items s ++ l ∧ (l = [] ∨ l = [i])) as Hpush.
  { intros i. unfold spec_push, spec_signal. repeat case_if; cbn; split; try done.
    all: first [exists []; rewrite app_nil_r; by auto|exists [i]; by auto]. }
  unfold spec_emit, spec_overflow. cbv zeta.
  repeat case_if; cbn [fst]; try (split; [done|]; exists []; rewrite app_nil_r; by auto).
  - destruct (Hpush Lost) as (-> & l & -> & Hl). split; [done|]. exists l. naive_solver.
  - destruct (Hpush (Event bytes)) as (-> & l & -> & Hl). split; [done|]. exists l. naive_solver.
Qed.
Lemma spec_run_error limit s spare op : a_error s ≤ 0 → a_error (spec_run limit s spare op).1.1 ≤ 0.
Proof.
  intros He. assert (∀ w, failure w ≤ 0) as Hf by (intros w; unfold failure, EIO; case_if; breflect; lia).
  destruct op; cbn [spec_run fst]; unfold spec_emit, spec_overflow, spec_push, spec_reserve, spec_complete, spec_signal;
    repeat case_match; cbn; try done; apply Hf.
Qed.
(** A reservation leaves the items; it succeeds when it takes a lease. *)
Lemma spec_reserve_lease s received buffer capacity s' r out :
  a_error s ≤ 0 → spec_reserve s received buffer capacity = (s', r, out) →
  a_items s' = a_items s
  ∧ (r < 0 ∧ a_leased s' = a_leased s ∨ 0 ≤ r ∧ default [] out = take (a_leased s') (a_items s) ≫= item_bytes).
Proof.
  intros He. unfold spec_reserve. destruct (a_error s =? 0) eqn:E0; cbn [negb]; breflect.
  2: { intros [= <- <- <-]. split; [done|]. left. split; [lia|done]. }
  destruct (a_items s) as [|i l] eqn:Ei; [intros [= <- <- <-]; split; [done|by left]|].
  repeat case_if; intros [= <- <- <-]; cbn; split; try done; try (by left).
  right. split; [apply queue_total_nonneg|done].
Qed.
Lemma session_history limit ss s past op :
  history limit ss s past → ∃ s' past', history limit (session_step ss op) s' past'.
Proof.
  intros [Hr Hl Hd He Hneg]. unfold session_step. destruct (watch_run (ss_queue ss) op) as [[q r] out] eqn:Erun.
  destruct (watch_step _ _ _ _ _ _ _ Hr Erun) as (s' & spare & Hs & Hr').
  pose proof (spec_run_error limit s spare op Hneg) as Hneg'. rewrite Hs in Hneg'. cbn in Hneg'.
  destruct op as [w m wd mask cookie name|received buffer capacity|w d]; cbn [spec_run] in Hs.
  - injection Hs as Hs <-. set (bytes := event_bytes wd mask cookie name) in *.
    pose proof (spec_emit_items limit s w spare (name_error name) bytes) as Hi. rewrite Hs in Hi. destruct Hi as (Hle & l & Hit & Hc).
    exists s', past. cbn [fst] in Hle, Hit. split; cbn; try done.
    + rewrite Hl, Hle, Hit. destruct Hr as (ls & fs & Hco & _). pose proof (co_lease _ _ _ _ _ Hco).
      rewrite take_app_le by (rewrite (core_length _ _ _ _ _ Hco); lia). done.
    + rewrite Hit, app_assoc. unfold events. rewrite omap_app. fold (events (past ++ a_items s)).
      destruct Hc as [->|[->| ->]]; cbn.
      * rewrite app_nil_r. by apply sublist_inserts_r.
      * rewrite app_nil_r. by apply sublist_inserts_r.
      * by apply sublist_app.
  - exists s', past. destruct (spec_reserve_lease _ _ _ _ _ _ _ Hneg Hs) as [Hit Hc].
    split; cbn; try done; rewrite ?Hit; try done. destruct Hc as [[Hlt ->]|[Hge ->]].
    + by rewrite (proj2 (Z.ltb_lt _ _) Hlt).
    + by rewrite (proj2 (Z.ltb_ge _ _) Hge).
  - injection Hs as Hs <-. unfold spec_complete in Hs. assert (s' = s' ∧ a_leased s' = 0%nat ∧
      a_items s' = if d then drop (a_leased s) (a_items s) else a_items s) as (_ & Hz & Hit).
    { revert Hs. unfold spec_signal. repeat case_if; intros [= <- <-]; cbn; try done.
      case_bool_decide as Hb; [|done]. rewrite Hb. by destruct d. }
    exists s', (if d then past ++ take (a_leased s) (a_items s) else past). destruct d; split; cbn; rewrite ?Hz, ?Hit; try done.
    + by rewrite bind_app, Hd, Hl.
    + by rewrite <- app_assoc, take_drop.
Qed.

(** The items in a queue, read from its links. *)
Fixpoint walk (fuel : nat) (h : gmap loc record) (p : option loc) : list loc :=
  match fuel, p with S fuel, Some l => l :: walk fuel h (nx h l) | _, _ => [] end.
Definition queued (q : md_watch_queue) : list item := item_of q <$> walk (Z.to_nat (q_count q)) (q_records q) (q_head q).
Lemma walk_linked h p ls : linked h p ls → walk (length ls) h p = ls.
Proof. revert p. induction ls as [|l ls IH]; intros p; cbn; [done|]. intros [-> Hl]. f_equal. by apply IH. Qed.
Lemma queued_items limit q s : rep limit q s → queued q = a_items s.
Proof.
  intros (ls & fs & [Hs [_ Hc _] Hi _ _ _ _ _ _ _] & _). unfold queued. rewrite Hc, Nat2Z.id, Hi. f_equal.
  apply walk_linked, Hs.
Qed.
Definition opened_session (q : md_watch_queue) : session := mk_session q [] [] [].
Lemma sessions_history e limit flags q reader ops :
  0 ≤ limit → md_watch_queue_create e limit flags = inl (q, reader) →
  ∃ s past, history limit (foldl session_step (opened_session q) ops) s past.
Proof.
  intros H0 Hc. assert (∃ s past, history limit (opened_session q) s past) as Hh.
  { exists (mk_spec [] 0 0), []. split; cbn; try done. by eapply create_rep. }
  revert Hh. generalize (opened_session q). induction ops as [|op ops IH]; intros ss (s & past & Hh); cbn; [by exists s, past|].
  apply IH. by eapply session_history.
Qed.

(** ** Properties *)

(** C9: Whatever the sequence of emissions, reservations and completions on a new
    queue, and whatever the kernel and the allocator answer, the bytes delivered
    so far followed by the bytes of the queued records are the encodings of a
    subsequence of the emitted events in order of emission, with overflow records
    among them: nothing is reordered, repeated, altered or made up. *)
Theorem watch_queue_fifo e limit flags q reader ops :
  0 ≤ limit → md_watch_queue_create e limit flags = inl (q, reader) →
  let ss := foldl session_step (opened_session q) ops in
  ∃ accepted, ss_delivered ss ++ (queued (ss_queue ss) ≫= item_bytes) = accepted ≫= item_bytes
    ∧ events accepted `sublist_of` ss_emitted ss.
Proof.
  intros H0 Hc ss. destruct (sessions_history _ _ _ _ _ ops H0 Hc) as (s & past & [Hr Hl Hd He _]). fold ss in Hr, Hl, Hd, He.
  exists (past ++ a_items s). by rewrite (queued_items _ _ _ Hr), Hd, bind_app.
Qed.

(** C32: In the same sessions the queue stays within its limit plus the one record
    that reports a loss, its counters count its records and bytes, the socket
    holds one marker exactly while there is an unleased record to read, and
    destruction returns every record to the allocator but the embedded one. *)
Theorem watch_queue_safe e limit flags q reader ops :
  0 ≤ limit → md_watch_queue_create e limit flags = inl (q, reader) →
  let q' := ss_queue (foldl session_step (opened_session q) ops) in
  q_count q' = Z.of_nat (length (queued q')) ∧ q_count q' ≤ limit + 1 ∧ q_bytes q' = total (queued q')
  ∧ (q_error q' = 0 → q_markers q' = if decide (queued q' = [] ∨ q_reserved q' ≠ 0) then 0%nat else 1%nat)
  ∧ ∀ x, is_Some (md_watch_queue_destroy q' !! x) ↔ x = OVERFLOW.
Proof.
  intros H0 Hc q'. destruct (sessions_history _ _ _ _ _ ops H0 Hc) as (s & past & [Hr _ _ _ _]). fold q' in Hr.
  rewrite (queued_items _ _ _ Hr). pose proof Hr as (ls & fs & Hco & Hb & Hlim). rewrite (core_length _ _ _ _ _ Hco).
  destruct Hco as [Hs [Ht1 Ht2 Ht3] Hi _ Hres _ _ Hm _ _]. split_and!; [done|..].
  - rewrite Ht2. unfold bounded in Hb. rewrite Hlim in Hb. destruct (q_overflow_queued q'); lia.
  - by rewrite Ht3, Hi.
  - intros He. rewrite (Hm He). apply decide_ext. rewrite Hi, Hres. split; intros [E|E]; [left; by rewrite E|right; lia| |right; lia].
    left. by destruct ls.
  - intros x. by eapply destroy_frees.
Qed.

(** ** Witnesses *)

Definition sample_create : create_env := mk_create_env true (inl (4, 5)) 0 0.
Definition sample_queue : md_watch_queue :=
  match md_watch_queue_create sample_create 2 0 with inl (q, _) => q | inr _ => mk_watch 0 0 0 0 0 None None None false 0 0 ∅ 0 end.
(** Three files appear, the third is lost; two records are read. *)
Definition sample_ops : list watch_op :=
  [Emit 1 true 1 256 0 (Some [97]); Emit 1 true 1 256 0 (Some [98]); Emit 1 true 1 256 0 (Some [99]);
   Reserve 1 true 64; Complete 1 true].
Lemma watch_queue_fifo_witness :
  let ss := foldl session_step (opened_session sample_queue) sample_ops in
  queued (ss_queue ss) = [Lost] ∧ length (ss_delivered ss) = 64%nat
  ∧ ∃ accepted, ss_delivered ss ++ (queued (ss_queue ss) ≫= item_bytes) = accepted ≫= item_bytes
    ∧ events accepted `sublist_of` ss_emitted ss.
Proof.
  cbv zeta. split; [vm_compute; reflexivity|]. split; [vm_compute; reflexivity|].
  apply (watch_queue_fifo sample_create 2 0 sample_queue 4 sample_ops); [done|]. vm_compute. reflexivity.
Defined.
Lemma watch_queue_safe_witness :
  let q' := ss_queue (foldl session_step (opened_session sample_queue) sample_ops) in
  q_count q' = Z.of_nat (length (queued q')) ∧ q_count q' ≤ 2 + 1 ∧ q_bytes q' = total (queued q')
  ∧ (q_error q' = 0 → q_markers q' = if decide (queued q' = [] ∨ q_reserved q' ≠ 0) then 0%nat else 1%nat)
  ∧ ∀ x, is_Some (md_watch_queue_destroy q' !! x) ↔ x = OVERFLOW.
Proof. apply (watch_queue_safe sample_create 2 0 sample_queue 4 sample_ops); [done|]. vm_compute. reflexivity. Defined.
