(* ===== verification/ProcessLimits.v ===== *)
(** * Process accounts and resource limits (process_limits.c).

    Every guest task is a member; members of one launch share an accounting
    owner.  A member charges the account of its real user in its user namespace,
    and with it the account of each namespace's creator, up to the initial
    namespace; accounts and the scopes that hold the namespaces' ceilings are
    cached per owner until the last member goes.  RLIMIT_NPROC is checked against
    that chain on fork, and on exec after a change of user.

    The heap of members, owners, accounts, scopes and limit records is explicit.
    [malloc n] says whether the [n]-th allocation succeeds.  [None] is a failed
    assertion; [process_accounts_exact] shows that none fails, that every account
    counts exactly the members below it, and that the references are right.
    [fork_within_limits] is the check of RLIMIT_NPROC, [limit_unprivileged] that of
    the hard limits.  The
    user namespaces and credentials are those of UserNamespace.v and
    GuestIdentity.v; the answers of getrlimit, prlimit and of the native task query
    are arguments. *)
From S2P Require Import Prelude.
From S2P Require Import UserNamespace.
From S2P Require Import GuestIdentity.

Definition BUCKETS : Z := 127.
Definition RLIMIT_NPROC : Z := 6.
Definition RLIMIT_NOFILE : Z := 7.
Definition RLIM_NLIMITS : Z := 16.
Definition CAP_SYS_RESOURCE : Z := 24.
Definition CLONE_THREAD : Z := 65536.
Definition MD_PROCESS_NOFILE_MAX : Z := 1024 * 1024.

Record rlimit := mk_rlimit { rlim_cur : Z; rlim_max : Z }.
Record md_process_limits := mk_limits { pl_nproc : rlimit; pl_nofile : rlimit }.
Record scope := mk_scope { sc_key : md_user_namespace_key; sc_ceiling : Z }.
Record account := mk_account { ac_parent : option loc; ac_scope : loc; ac_uid : Z; ac_count : Z }.
(** The linked lists, from their heads. *)
Record accounting := mk_accounting { ow_members : Z; ow_scopes : list loc; ow_accounts : list (list loc) }.
Record limits := mk_limit_record { li_references : Z; li_value : md_process_limits; li_native_nofile_max : Z }.
Record md_process_member := mk_member {
  pm_references : Z; pm_owner : option loc; pm_account : option loc; pm_limits : option loc; pm_exec_check : bool }.
Record pl_heap := mk_pl {
  pl_scopes : gmap loc scope; pl_accounts : gmap loc account; pl_owners : gmap loc accounting;
  pl_limits : gmap loc limits; pl_members : gmap loc md_process_member; pl_allocs : nat }.

Definition with_scopes (h : pl_heap) x := mk_pl x (pl_accounts h) (pl_owners h) (pl_limits h) (pl_members h) (pl_allocs h).
Definition with_accounts (h : pl_heap) x := mk_pl (pl_scopes h) x (pl_owners h) (pl_limits h) (pl_members h) (pl_allocs h).
Definition with_owners (h : pl_heap) x := mk_pl (pl_scopes h) (pl_accounts h) x (pl_limits h) (pl_members h) (pl_allocs h).
Definition with_limits (h : pl_heap) x := mk_pl (pl_scopes h) (pl_accounts h) (pl_owners h) x (pl_members h) (pl_allocs h).
Definition with_members (h : pl_heap) x := mk_pl (pl_scopes h) (pl_accounts h) (pl_owners h) (pl_limits h) x (pl_allocs h).
Definition allocated (h : pl_heap) := mk_pl (pl_scopes h) (pl_accounts h) (pl_owners h) (pl_limits h) (pl_members h) (S (pl_allocs h)).
Definition set_account (a : option loc) (check : bool) (m : md_process_member) : md_process_member :=
  mk_member (pm_references m) (pm_owner m) a (pm_limits m) check.
Definition set_member_references (d : Z) (m : md_process_member) : md_process_member :=
  mk_member (wrap32 (pm_references m + d)) (pm_owner m) (pm_account m) (pm_limits m) (pm_exec_check m).
Definition add_members (d : Z) (o : accounting) : accounting := mk_accounting (wrap32 (ow_members o + d)) (ow_scopes o) (ow_accounts o).
Definition add_limit_references (d : Z) (l : limits) : limits :=
  mk_limit_record (wrap32 (li_references l + d)) (li_value l) (li_native_nofile_max l).
Definition add_charge (d : Z) (a : account) : account := mk_account (ac_parent a) (ac_scope a) (ac_uid a) (wrap64 (ac_count a + d)).

Section process_limits.
Context (malloc : nat → bool).

(** ** Scopes and accounts *)

Fixpoint find_scope (h : pl_heap) (key : md_user_namespace_key) (l : list loc) : option loc :=
  match l with
  | [] => None
  | s :: l => match pl_scopes h !! s with
              | Some x => if same_id (sc_key x) key then Some s else find_scope h key l
              | None => find_scope h key l
              end
  end.
Definition scope_get (h : pl_heap) (owner : loc) (space : list node) (ceiling : Z) : pl_heap * option loc :=
  let key := md_user_namespace_key_of space in
  match pl_owners h !! owner with
  | None => (h, None)
  | Some o =>
      match find_scope h key (ow_scopes o) with
      | Some s => (h, Some s)
      | None =>
          if negb (malloc (pl_allocs h)) then (allocated h, None)
          else
            let s := fresh (dom (pl_scopes h)) in
            let h := with_scopes (allocated h) (<[s := mk_scope key (match space with [] => UINT64_MAX | _ :: _ => ceiling end)]> (pl_scopes h)) in
            (with_owners h (<[owner := mk_accounting (ow_members o) (s :: ow_scopes o) (ow_accounts o)]> (pl_owners h)), Some s)
      end
  end.
Definition account_key (h : pl_heap) (a : account) : md_user_namespace_key :=
  default zero_key (sc_key <$> pl_scopes h !! ac_scope a).
Fixpoint find_account (h : pl_heap) (uid : Z) (key : md_user_namespace_key) (l : list loc) : option loc :=
  match l with
  | [] => None
  | a :: l => match pl_accounts h !! a with
              | Some x => if (ac_uid x =? uid) && same_id (account_key h x) key then Some a else find_account h uid key l
              | None => find_account h uid key l
              end
  end.
Definition space_inode (space : list node) : Z := match space with [] => 1 | nd :: _ => p_inode (nd_page nd) end.
Definition bucket_of (space : list node) (uid : Z) : nat := Z.to_nat (Z.lxor uid (space_inode space) mod BUCKETS).
Definition account_new (h : pl_heap) (owner : loc) (bucket : nat) (parent : option loc) (s : loc) (uid : Z)
  : pl_heap * option loc :=
  if negb (malloc (pl_allocs h)) then (allocated h, None)
  else
    let a := fresh (dom (pl_accounts h)) in
    let h := with_accounts (allocated h) (<[a := mk_account parent s uid 0]> (pl_accounts h)) in
    (with_owners h (alter (λ o, mk_accounting (ow_members o) (ow_scopes o) (alter (cons a) bucket (ow_accounts o)))
                      owner (pl_owners h)), Some a).
(** [space]: the namespace and its ancestors, innermost first. *)
Fixpoint account_get (h : pl_heap) (owner : loc) (space : list node) (uid ceiling : Z) : pl_heap * option loc :=
  let bucket := bucket_of space uid in
  let key := md_user_namespace_key_of space in
  match pl_owners h !! owner with
  | None => (h, None)
  | Some o =>
      match find_account h uid key (ow_accounts o !!! bucket) with
      | Some a => (h, Some a)
      | None =>
          match scope_get h owner space ceiling with
          | (h, None) => (h, None)
          | (h, Some s) =>
              let '(h, parent) :=
                match space with
                | [] => (h, Some None)
                | nd :: up =>
                    match account_get h owner up (p_owner (nd_page nd)) ceiling with
                    | (h, Some p) => (h, Some (Some p))
                    | (h, None) => (h, None)
                    end
                end in
              match parent with
              | None => (h, None)
              | Some parent => account_new h owner bucket parent s uid
              end
          end
      end
  end.

(** ** Charges *)

(** [for (; a; a = a->parent)]: parents are older than their children, so the walk
    meets each account at most once. *)
Fixpoint charge_loop (fuel : nat) (h : pl_heap) (a : option loc) (delta : Z) : option pl_heap :=
  match a, fuel with
  | None, _ => Some h
  | Some l, S fuel =>
      x ← pl_accounts h !! l;
      if negb ((0 <? delta) || negb (ac_count x =? 0)) then None
      else charge_loop fuel (with_accounts h (<[l := add_charge delta x]> (pl_accounts h))) (ac_parent x) delta
  | Some _, O => None
  end.
Definition charge (h : pl_heap) (a : option loc) (delta : Z) : option pl_heap :=
  charge_loop (size (pl_accounts h)) h a delta.
Definition ceiling_of (h : pl_heap) (a : account) : Z := default 0 (sc_ceiling <$> pl_scopes h !! ac_scope a).
Fixpoint overlimit_loop (fuel : nat) (h : pl_heap) (a : option loc) (limit adding : Z) : bool :=
  match a, fuel with
  | Some l, S fuel =>
      match pl_accounts h !! l with
      | Some x =>
          if (limit <? ac_count x) || (limit - ac_count x <? adding) then true
          else overlimit_loop fuel h (ac_parent x) (ceiling_of h x) adding
      | None => false
      end
  | _, _ => false
  end.
Definition overlimit (h : pl_heap) (a : option loc) (limit adding : Z) : bool :=
  overlimit_loop (size (pl_accounts h)) h a limit adding.

(** ** Members *)

Definition accounting_release (h : pl_heap) (owner : option loc) : option pl_heap :=
  match owner with
  | None => Some h
  | Some o =>
      x ← pl_owners h !! o;
      let x := add_members (-1) x in
      if negb (ow_members x =? 0) then Some (with_owners h (<[o := x]> (pl_owners h)))
      else
        let accounts := mjoin (ow_accounts x) in
        if forallb (λ a, match pl_accounts h !! a with Some y => ac_count y =? 0 | None => true end) accounts
        then Some (mk_pl (foldr delete (pl_scopes h) (ow_scopes x)) (foldr delete (pl_accounts h) accounts)
                     (delete o (pl_owners h)) (pl_limits h) (pl_members h) (pl_allocs h))
        else None
  end.
Definition limits_release (h : pl_heap) (l : option loc) : option pl_heap :=
  match l with
  | None => Some h
  | Some l =>
      x ← pl_limits h !! l;
      let x := add_limit_references (-1) x in
      Some (with_limits h (if li_references x =? 0 then delete l (pl_limits h) else <[l := x]> (pl_limits h)))
  end.
Definition md_process_member_release (h : pl_heap) (m : option loc) : option pl_heap :=
  match m with
  | None => Some h
  | Some m =>
      x ← pl_members h !! m;
      let x := set_member_references (-1) x in
      if negb (pm_references x =? 0) then Some (with_members h (<[m := x]> (pl_members h)))
      else
        h ← charge h (pm_account x) (-1);
        h ← limits_release h (pm_limits x);
        h ← accounting_release h (pm_owner x);
        Some (with_members h (delete m (pl_members h)))
  end.
Definition md_process_member_retain (h : pl_heap) (m : option loc) : pl_heap :=
  match m with None => h | Some m => with_members h (alter (set_member_references 1) m (pl_members h)) end.

Definition limits_at (h : pl_heap) (m : md_process_member) : limits :=
  default (mk_limit_record 0 (mk_limits (mk_rlimit 0 0) (mk_rlimit 0 0)) 0) (l ← pm_limits m; pl_limits h !! l).
Definition nproc_of (h : pl_heap) (m : md_process_member) : Z := rlim_cur (pl_nproc (li_value (limits_at h m))).
(** The account is already that of the user in the namespace. *)
Definition charged_to (h : pl_heap) (m : md_process_member) (uid : Z) (key : md_user_namespace_key) : bool :=
  match a ← pm_account m; pl_accounts h !! a with
  | Some x => (ac_uid x =? uid) && same_id (account_key h x) key
  | None => false
  end.
Definition user_changed (h : pl_heap) (m : md_process_member) (uid : Z) : bool :=
  match a ← pm_account m; pl_accounts h !! a with Some x => negb (ac_uid x =? uid) | None => false end.
Definition md_process_member_identity (h : pl_heap) (w : world) (m : option loc) (identity : md_identity) : option (pl_heap * Z) :=
  match m with
  | None => Some (h, 0)
  | Some l =>
      x ← pl_members h !! l;
      let space := view w (i_user_namespace identity) in
      let uid := id_real (i_uid identity) in
      if charged_to h x uid (md_user_namespace_key_of space) then Some (h, 0)
      else
        o ← pm_owner x;
        match account_get h o space uid (nproc_of h x) with
        | (h, None) => Some (h, - ENOMEM)
        | (h, Some next) =>
            let changed := user_changed h x uid in
            h ← charge h (Some next) 1;
            h ← charge h (pm_account x) (-1);
            let check := if changed then negb (uid =? 0) && overlimit h (Some next) (nproc_of h x) 0
                         else pm_exec_check x in
            Some (with_members h (<[l := set_account (Some next) check x]> (pl_members h)), 0)
        end
  end.
Definition md_process_member_new (h : pl_heap) (w : world) (identity : md_identity) (limit : md_process_limits)
  : option (pl_heap * option loc) :=
  if negb (malloc (pl_allocs h)) then Some (allocated h, None)
  else
    let m := fresh (dom (pl_members h)) in
    let h := allocated h in
    let have_owner := malloc (pl_allocs h) in
    let o := fresh (dom (pl_owners h)) in
    let h := if have_owner
             then with_owners (allocated h) (<[o := mk_accounting 1 [] (replicate (Z.to_nat BUCKETS) [])]> (pl_owners h))
             else allocated h in
    let have_limits := malloc (pl_allocs h) in
    let l := fresh (dom (pl_limits h)) in
    let h := if have_limits
             then with_limits (allocated h) (<[l := mk_limit_record 1 limit (rlim_max (pl_nofile limit))]> (pl_limits h))
             else allocated h in
    let x := mk_member 1 (if have_owner then Some o else None) None (if have_limits then Some l else None) false in
    let h := with_members h (<[m := x]> (pl_members h)) in
    if negb have_owner || negb have_limits
    then h ← md_process_member_release h (Some m); Some (h, None)
    else
      '(h, r) ← md_process_member_identity h w (Some m) identity;
      if negb (r =? 0) then h ← md_process_member_release h (Some m); Some (h, None)
      else Some (h, Some m).

(** [cred]: the credential heap that the capability checks consult. *)
Definition md_process_member_fork (h : pl_heap) (cred : cred_heap) (parent : option loc) (identity : md_identity) (flags : Z)
  : option (pl_heap * Z * option loc) :=
  match parent with
  | None => Some (h, - EINVAL, None)
  | Some p =>
      x ← pl_members h !! p;
      if overlimit h (pm_account x) (nproc_of h x) 1
         && negb (id_real (i_uid identity) =? 0) && negb (md_identity_capable_in cred identity None CAP_SYS_RESOURCE)
         && negb (md_identity_capable_in cred identity None CAP_SYS_ADMIN)
      then Some (h, - EAGAIN, None)
      else if negb (malloc (pl_allocs h)) then Some (allocated h, - ENOMEM, None)
      else
        let m := fresh (dom (pl_members h)) in
        let h := allocated h in
        o ← pm_owner x;
        let h := with_owners h (alter (add_members 1) o (pl_owners h)) in
        let thread := has_bits flags CLONE_THREAD in
        let have := malloc (pl_allocs h) in
        let l := fresh (dom (pl_limits h)) in
        let h := if thread
                 then with_limits h (match pm_limits x with Some l => alter (add_limit_references 1) l (pl_limits h) | None => pl_limits h end)
                 else if have
                 then with_limits (allocated h)
                        (<[l := mk_limit_record 1 (li_value (limits_at h x)) (li_native_nofile_max (limits_at h x))]> (pl_limits h))
                 else allocated h in
        let limit := if thread then pm_limits x else if have then Some l else None in
        let h := with_members h (<[m := mk_member 1 (Some o) None limit false]> (pl_members h)) in
        match limit with
        | None => h ← md_process_member_release h (Some m); Some (h, - ENOMEM, None)
        | Some _ =>
            h ← charge h (pm_account x) 1;
            Some (with_members h (alter (set_account (pm_account x) false) m (pl_members h)), 0, Some m)
        end
  end.
Definition md_process_member_forked (h : pl_heap) (m : option loc) : pl_heap :=
  match m with
  | None => h
  | Some l => with_members h (alter (λ x, set_account (pm_account x) false x) l (pl_members h))
  end.
Definition md_process_member_exec (h : pl_heap) (m : option loc) : option (pl_heap * Z) :=
  match m with
  | None => Some (h, 0)
  | Some l =>
      x ← pl_members h !! l;
      if negb (pm_exec_check x) then Some (h, 0)
      else if overlimit h (pm_account x) (nproc_of h x) 0 then Some (h, - EAGAIN)
      else Some (md_process_member_forked h (Some l), 0)
  end.

(** ** Limits *)

(** What getrlimit answers: the limit or a negated errno. *)
Definition md_process_limits_read (nproc nofile : rlimit + Z) : md_process_limits + Z :=
  match nproc, nofile with
  | inl p, inl f => inl (mk_limits p f)
  | inr e, _ => inr e
  | _, inr e => inr e
  end.
Definition md_process_limits_value (h : pl_heap) (m : md_process_member) : md_process_limits := li_value (limits_at h m).
Definition md_process_native_nofile (h : pl_heap) (m : md_process_member) : Z :=
  let soft := rlim_cur (pl_nofile (li_value (limits_at h m))) in
  let ceiling := li_native_nofile_max (limits_at h m) in
  if soft <? ceiling then soft else ceiling.
Definition resource_value (v : md_process_limits) (resource : Z) : option rlimit :=
  if resource =? RLIMIT_NPROC then Some (pl_nproc v) else if resource =? RLIMIT_NOFILE then Some (pl_nofile v) else None.
Definition set_resource (v : md_process_limits) (resource : Z) (x : rlimit) : md_process_limits :=
  if resource =? RLIMIT_NPROC then mk_limits x (pl_nofile v) else mk_limits (pl_nproc v) x.
(** All three ids of the target are the actor's real ones. *)
Definition same_ids (actor target : md_identity) : bool :=
  let u := id_real (i_uid actor) in
  let g := id_real (i_gid actor) in
  (u =? id_real (i_uid target)) && (u =? id_effective (i_uid target)) && (u =? id_saved (i_uid target))
  && (g =? id_real (i_gid target)) && (g =? id_effective (i_gid target)) && (g =? id_saved (i_gid target)).
(** [native]: the task's own limit for a resource the guest does not own;
    [prlimit]: the answer to the native descriptor limit that is asked for.  The
    third component is what [old] receives. *)
Definition md_process_limit (h : pl_heap) (cred : cred_heap) (native : rlimit + Z) (prlimit : rlimit → Z)
    (m : option loc) (actor target : md_identity) (same_group : bool) (resource : Z) (next : option rlimit)
  : option (pl_heap * Z * option rlimit) :=
  match m with
  | None => Some (h, - ESRCH, None)
  | Some m =>
      x ← pl_members h !! m;
      l ← pm_limits x;
      let v := li_value (limits_at h x) in
      let value := resource_value v resource in
      let setting := bool_decide (is_Some next) in
      if (RLIM_NLIMITS <=? resource) || (bool_decide (value = None) && setting) then Some (h, - EINVAL, None)
      else if match next with Some n => rlim_max n <? rlim_cur n | None => false end then Some (h, - EINVAL, None)
      else if negb same_group && negb (md_identity_capable_in cred actor (i_user_namespace target) CAP_SYS_RESOURCE)
              && negb (same_ids actor target)
      then Some (h, - EPERM, None)
      else
        match value with
        | None => Some (match native with inl n => (h, 0, Some n) | inr e => (h, e, None) end)
        | Some value =>
            match next with
            | None => Some (h, 0, Some value)
            | Some n =>
                if (resource =? RLIMIT_NOFILE) && (MD_PROCESS_NOFILE_MAX <? rlim_max n) then Some (h, - EPERM, None)
                else if (rlim_max value <? rlim_max n) && negb (md_identity_capable_in cred actor None CAP_SYS_RESOURCE)
                then Some (h, - EPERM, None)
                else
                  let ceiling := li_native_nofile_max (limits_at h x) in
                  let wanted := mk_rlimit (if rlim_cur n <? ceiling then rlim_cur n else ceiling) ceiling in
                  let error := if resource =? RLIMIT_NOFILE then prlimit wanted else 0 in
                  if negb (error =? 0) then Some (h, error, None)
                  else
                    Some (with_limits h (alter (λ r, mk_limit_record (li_references r) (set_resource v resource n) (li_native_nofile_max r))
                                           l (pl_limits h)), 0, Some value)
            end
        end
  end.
End process_limits.

(** ** Counting members *)

Definition count_if (P : md_process_member → bool) (M : gmap loc md_process_member) : nat :=
  size (filter (λ p : loc * md_process_member, P p.2 = true) M).
Lemma count_fresh P M m x : M !! m = None → count_if P (<[m := x]> M) = (count_if P M + Nat.b2n (P x))%nat.
Proof.
  intros Hm. unfold count_if. destruct (P x) eqn:E.
  - rewrite map_filter_insert_True by done. rewrite map_size_insert_None; [cbn; lia|]. by apply map_lookup_filter_None; left.
  - rewrite map_filter_insert_False by (cbn; congruence). rewrite delete_id by done. cbn. lia.
Qed.
Lemma count_delete P M m x : M !! m = Some x → (count_if P (delete m M) + Nat.b2n (P x) = count_if P M)%nat.
Proof.
  intros Hm. rewrite <- (insert_delete_id M m x Hm) at 2. rewrite count_fresh by apply lookup_delete_eq. done.
Qed.
Lemma count_update P M m x y :
  M !! m = Some x → (count_if P (<[m := y]> M) + Nat.b2n (P x) = count_if P M + Nat.b2n (P y))%nat.
Proof.
  intros Hm. rewrite <- insert_delete_eq, count_fresh by apply lookup_delete_eq. pose proof (count_delete P M m x Hm). lia.
Qed.
Lemma count_ext P Q M : (∀ m x, M !! m = Some x → P x = Q x) → count_if P M = count_if Q M.
Proof.
  intros H. unfold count_if. f_equal. apply map_filter_ext. intros i x Hx. cbn. by rewrite (H i x Hx).
Qed.
Lemma count_zero P M m x : count_if P M = 0%nat → M !! m = Some x → P x = false.
Proof. intros H0 Hm. pose proof (count_delete P M m x Hm). by destruct (P x); cbn in *; [lia|]. Qed.
Lemma count_none P M : (∀ m x, M !! m = Some x → P x = false) → count_if P M = 0%nat.
Proof.
  intros H. unfold count_if. apply map_size_empty_iff, map_empty. intros i. apply map_lookup_filter_None. right.
  intros x Hx. cbn. by rewrite (H i x Hx).
Qed.
Lemma count_le P M : (count_if P M ≤ size M)%nat.
Proof. unfold count_if. apply map_subseteq_size. apply map_filter_subseteq. Qed.

(** ** Lineage *)

Fixpoint lineage (A : gmap loc account) (a : option loc) (l : list loc) : Prop :=
  match l with
  | [] => a = None
  | x :: l => a = Some x ∧ ∃ y, A !! x = Some y ∧ lineage A (ac_parent y) l
  end.
Lemma lineage_unique A a l l' : lineage A a l → lineage A a l' → l = l'.
Proof.
  revert a l'. induction l as [|x l IH]; intros a [|x' l'] H1 H2; cbn in H1, H2; [done|by destruct H2; simplify_eq|by destruct H1; simplify_eq|].
  destruct H1 as [-> (y & Hy & Hl)], H2 as [[= <-] (y' & Hy' & Hl')]. f_equal. rewrite Hy in Hy'. injection Hy' as <-. by eapply IH.
Qed.
Lemma lineage_suffix A a l1 x l2 : lineage A a (l1 ++ x :: l2) → lineage A (Some x) (x :: l2).
Proof.
  revert a. induction l1 as [|z l1 IH]; intros a; cbn.
  - intros [-> H]. done.
  - intros [_ (y & _ & H)]. by eapply IH.
Qed.
Lemma lineage_nodup A a l : lineage A a l → NoDup l.
Proof.
  revert a. induction l as [|x l IH]; intros a H; [constructor|]. pose proof H as [-> (y & Hy & Hl)]. constructor; [|by eapply IH].
  intros (l1 & l2 & ->)%list_elem_of_split. pose proof (lineage_suffix _ _ (x :: l1) _ _ H) as H2.
  pose proof (lineage_unique _ _ _ _ H H2) as E. apply (f_equal length) in E. cbn in E. rewrite length_app in E. cbn in E. lia.
Qed.
Lemma lineage_dom A a l x : lineage A a l → x ∈ l → is_Some (A !! x).
Proof.
  revert a. induction l as [|z l IH]; intros a H Hx; [by apply elem_of_nil in Hx|]. destruct H as [_ (y & Hy & Hl)].
  apply elem_of_cons in Hx as [->|Hx]; [by exists y|by eapply IH].
Qed.
Lemma lineage_size A a l : lineage A a l → (length l ≤ size A)%nat.
Proof.
  intros H. rewrite <- size_dom, <- (size_list_to_set (C := gset loc)) by (by eapply lineage_nodup).
  apply subseteq_size. intros x Hx%elem_of_list_to_set. apply elem_of_dom. by eapply lineage_dom.
Qed.
(** Accounts with the same parents, perhaps among more. *)
Definition parents_kept (A A' : gmap loc account) : Prop :=
  ∀ x y, A !! x = Some y → ∃ y', A' !! x = Some y' ∧ ac_parent y' = ac_parent y.
Lemma lineage_kept A A' a l : parents_kept A A' → lineage A a l → lineage A' a l.
Proof.
  intros H. revert a. induction l as [|x l IH]; intros a; cbn; [done|]. intros [-> (y & Hy & Hl)]. split; [done|].
  destruct (H x y Hy) as (y' & Hy' & E). exists y'. rewrite E. auto.
Qed.
(** The accounts a member charges. *)
Fixpoint up (fuel : nat) (A : gmap loc account) (a : option loc) : list loc :=
  match fuel, a with
  | S fuel, Some l => match A !! l with Some y => l :: up fuel A (ac_parent y) | None => [] end
  | _, _ => []
  end.
Definition charges (A : gmap loc account) (a : option loc) : list loc := up (size A) A a.
Lemma up_lineage fuel A a l : lineage A a l → (length l ≤ fuel)%nat → up fuel A a = l.
Proof.
  revert fuel a. induction l as [|x l IH]; intros fuel a; cbn; [intros ->; by destruct fuel|].
  intros [-> (y & Hy & Hl)] Hf. destruct fuel as [|fuel]; [lia|]. cbn. rewrite Hy. f_equal. apply IH; [done|lia].
Qed.
Lemma charges_none A : charges A None = [].
Proof. unfold charges. by destruct (size A). Qed.
Lemma charges_lineage A a l : lineage A a l → charges A a = l.
Proof. intros H. apply up_lineage; [done|by eapply lineage_size]. Qed.

(** ** Charging *)

(** [A'] is [A] with the counts of [l] changed by [d]. *)
Definition bumped (A A' : gmap loc account) (l : list loc) (d : Z) : Prop :=
  ∀ x, A' !! x = (if decide (x ∈ l) then add_charge d <$> A !! x else A !! x).
Lemma bumped_kept A A' l d : bumped A A' l d → parents_kept A A'.
Proof.
  intros H x y Hy. rewrite H, Hy. case_decide; [|by exists y]. eexists. split; [done|]. done.
Qed.
Lemma charge_loop_ok fuel h a l d :
  lineage (pl_accounts h) a l → (length l ≤ fuel)%nat →
  (d = 1 ∨ ∀ x y, x ∈ l → pl_accounts h !! x = Some y → ac_count y ≠ 0) →
  ∃ A', charge_loop fuel h a d = Some (with_accounts h A') ∧ bumped (pl_accounts h) A' l d.
Proof.
  revert fuel h a. induction l as [|x l IH]; intros fuel h a Hl Hf Hpos; pose proof Hl as Hl0; cbn in Hl.
  { subst a. exists (pl_accounts h). split; [by destruct fuel, h|]. intros x. by rewrite decide_False by apply not_elem_of_nil. }
  destruct Hl as [-> (y & Hy & Hl)]. destruct fuel as [|fuel]; [cbn in Hf; lia|]. cbn. rewrite Hy. cbn.
  apply lineage_nodup in Hl0. apply NoDup_cons in Hl0 as [Hx Hnd].
  replace (negb ((0 <? d) || negb (ac_count y =? 0))) with false.
  2: { symmetry. apply negb_false_iff, orb_true_iff. destruct Hpos as [->|Hpos]; [by left|right].
    apply negb_true_iff, Z.eqb_neq. eapply Hpos; [by left|done]. }
  set (h1 := with_accounts h _). assert (parents_kept (pl_accounts h) (pl_accounts h1)) as Hk.
  { intros z w Hz. cbn. destruct (decide (z = x)) as [->|Hne]; [rewrite lookup_insert_eq|rewrite lookup_insert_ne by done; by exists w].
    rewrite Hy in Hz. injection Hz as <-. eexists. split; done. }
  destruct (IH fuel h1 (ac_parent y)) as (A' & HA & Hb); [by eapply lineage_kept|cbn in Hf; lia| |].
  { destruct Hpos as [->|Hpos]; [by left|right]. intros z w Hz. cbn. rewrite lookup_insert_ne by (intros ->; done).
    apply Hpos. by right. }
  exists A'. split; [by rewrite HA|]. intros z. rewrite Hb. cbn. destruct (decide (z = x)) as [->|Hne].
  - rewrite decide_False by done. rewrite lookup_insert_eq. rewrite (decide_True (P := x ∈ x :: l)) by (by left). by rewrite Hy.
  - rewrite lookup_insert_ne by done. apply decide_ext. rewrite elem_of_cons. naive_solver.
Qed.
Lemma charge_ok h a l d :
  lineage (pl_accounts h) a l → (d = 1 ∨ ∀ x y, x ∈ l → pl_accounts h !! x = Some y → ac_count y ≠ 0) →
  ∃ A', charge h a d = Some (with_accounts h A') ∧ bumped (pl_accounts h) A' l d.
Proof. intros Hl. apply charge_loop_ok; [done|by eapply lineage_size]. Qed.

(** ** Well-formed owners *)

Definition owns (O : gmap loc accounting) (o a : loc) : Prop := ∃ x, O !! o = Some x ∧ a ∈ mjoin (ow_accounts x).
Definition holds (O : gmap loc accounting) (o s : loc) : Prop := ∃ x, O !! o = Some x ∧ s ∈ ow_scopes x.
Record graph (S : gmap loc scope) (A : gmap loc account) (O : gmap loc accounting) : Prop := mk_graph {
  gr_lineage : ∀ a, is_Some (A !! a) → ∃ l, lineage A (Some a) l;
  gr_owned : ∀ a, is_Some (A !! a) ↔ ∃ o, owns O o a;
  gr_apart : ∀ o o' a, owns O o a → owns O o' a → o = o';
  gr_family : ∀ o a y p, owns O o a → A !! a = Some y → ac_parent y = Some p → owns O o p;
  gr_scope : ∀ o a y, owns O o a → A !! a = Some y → holds O o (ac_scope y);
  gr_scopes : ∀ s, is_Some (S !! s) ↔ ∃ o, holds O o s;
  gr_scope_apart : ∀ o o' s, holds O o s → holds O o' s → o = o';
  gr_buckets : ∀ o x, O !! o = Some x → length (ow_accounts x) = Z.to_nat BUCKETS }.
Definition heap_graph (h : pl_heap) : Prop := graph (pl_scopes h) (pl_accounts h) (pl_owners h).

(** The caches only grow: new accounts are empty, nothing else changes. *)
Record grows (h h' : pl_heap) : Prop := mk_grows {
  gw_members : pl_members h' = pl_members h;
  gw_limits : pl_limits h' = pl_limits h;
  gw_accounts : ∀ a y, pl_accounts h !! a = Some y → pl_accounts h' !! a = Some y;
  gw_new : ∀ a y, pl_accounts h' !! a = Some y → pl_accounts h !! a = None → ac_count y = 0;
  gw_owners : ∀ o, ow_members <$> pl_owners h' !! o = ow_members <$> pl_owners h !! o;
  gw_owns : ∀ o a, owns (pl_owners h) o a → owns (pl_owners h') o a;
  gw_holds : ∀ o s, holds (pl_owners h) o s → holds (pl_owners h') o s }.
Lemma heap_grows_refl h h' :
  pl_members h' = pl_members h → pl_limits h' = pl_limits h → pl_accounts h' = pl_accounts h → pl_owners h' = pl_owners h → grows h h'.
Proof. intros ? ? Ha Ho. split; try done; rewrite ?Ha, ?Ho; try done. intros a y H1 H2. congruence. Qed.
Lemma heap_grows_trans h1 h2 h3 : grows h1 h2 → grows h2 h3 → grows h1 h3.
Proof.
  intros [A1 A2 A3 A4 A5 A6 A7] [B1 B2 B3 B4 B5 B6 B7]. split; try congruence; auto.
  intros a y H3 H1. destruct (pl_accounts h2 !! a) as [z|] eqn:E; [|by eapply B4].
  pose proof (B3 a z E). simplify_eq. by eapply A4.
Qed.
Lemma grows_owner h h' o : grows h h' → is_Some (pl_owners h' !! o) ↔ is_Some (pl_owners h !! o).
Proof. intros H. rewrite <- !(fmap_is_Some ow_members). by rewrite (gw_owners _ _ H). Qed.

Lemma find_scope_elem h key l s : find_scope h key l = Some s → s ∈ l.
Proof.
  induction l as [|x l IH]; cbn; [done|]. destruct (pl_scopes h !! x); [case_if|]; intros; simplify_eq; [by left|right..]; auto.
Qed.
Lemma find_account_elem h uid key l a : find_account h uid key l = Some a → a ∈ l.
Proof.
  induction l as [|x l IH]; cbn; [done|]. destruct (pl_accounts h !! x); [case_if|]; intros; simplify_eq; [by left|right..]; auto.
Qed.
Lemma bucket_mjoin (b : list (list loc)) n a : a ∈ b !!! n → a ∈ mjoin b.
Proof.
  intros Ha. rewrite list_lookup_total_alt in Ha. destruct (b !! n) as [l|] eqn:E; cbn in Ha; [|by apply elem_of_nil in Ha].
  apply list_elem_of_join. exists l. split; [done|]. by eapply list_elem_of_lookup_2.
Qed.
Lemma alter_cons_mjoin (b : list (list loc)) n a x :
  (n < length b)%nat → x ∈ mjoin (alter (cons a) n b) ↔ x = a ∨ x ∈ mjoin b.
Proof.
  revert n. induction b as [|l b IH]; intros n Hn; cbn in Hn; [lia|]. destruct n as [|n]; cbn.
  - set_solver.
  - change (mjoin (l :: alter (cons a) n b)) with (l ++ mjoin (alter (cons a) n b)). change (mjoin (l :: b)) with (l ++ mjoin b).
    rewrite !elem_of_app, IH by lia. naive_solver.
Qed.

Lemma owns_insert O o x x' o' a :
  O !! o = Some x → owns (<[o := x']> O) o' a ↔ if decide (o' = o) then a ∈ mjoin (ow_accounts x') else owns O o' a.
Proof.
  intros Hx. unfold owns. case_decide as E; [subst; rewrite lookup_insert_eq|rewrite lookup_insert_ne by done]; naive_solver.
Qed.
Lemma holds_insert O o x x' o' s :
  O !! o = Some x → holds (<[o := x']> O) o' s ↔ if decide (o' = o) then s ∈ ow_scopes x' else holds O o' s.
Proof.
  intros Hx. unfold holds. case_decide as E; [subst; rewrite lookup_insert_eq|rewrite lookup_insert_ne by done]; naive_solver.
Qed.
Lemma owns_at O o x a : O !! o = Some x → owns O o a ↔ a ∈ mjoin (ow_accounts x).
Proof. unfold owns. naive_solver. Qed.
Lemma holds_at O o x s : O !! o = Some x → holds O o s ↔ s ∈ ow_scopes x.
Proof. unfold holds. naive_solver. Qed.

(** Owners with the same caches. *)
Definition caches_kept (O O' : gmap loc accounting) : Prop :=
  ∀ o, ow_accounts <$> O' !! o = ow_accounts <$> O !! o ∧ ow_scopes <$> O' !! o = ow_scopes <$> O !! o.
Lemma caches_owns O O' o a : caches_kept O O' → owns O' o a ↔ owns O o a.
Proof.
  intros H. destruct (H o) as [E _]. unfold owns. destruct (O' !! o) as [x'|], (O !! o) as [x|]; cbn in E; try done.
  injection E as E. split; intros (y & [= <-] & Hin); eexists; (split; [done|]); congruence.
Qed.
Lemma caches_holds O O' o s : caches_kept O O' → holds O' o s ↔ holds O o s.
Proof.
  intros H. destruct (H o) as [_ E]. unfold holds. destruct (O' !! o) as [x'|], (O !! o) as [x|]; cbn in E; try done.
  injection E as E. split; intros (y & [= <-] & Hin); eexists; (split; [done|]); congruence.
Qed.
(** Counts and membership do not matter for the graph. *)
Lemma graph_kept S A A' O O' :
  graph S A O → (∀ x, (λ y, (ac_parent y, ac_scope y)) <$> A' !! x = (λ y, (ac_parent y, ac_scope y)) <$> A !! x) →
  caches_kept O O' → graph S A' O'.
Proof.
  intros [Hl Ho Ha Hf Hs Hss Hsa Hb] HA HO.
  assert (∀ x, is_Some (A' !! x) ↔ is_Some (A !! x)) as Hd.
  { intros x. rewrite <- !(fmap_is_Some (λ y, (ac_parent y, ac_scope y))). by rewrite HA. }
  assert (∀ x y', A' !! x = Some y' → ∃ y, A !! x = Some y ∧ ac_parent y = ac_parent y' ∧ ac_scope y = ac_scope y') as Hy.
  { intros x y' Hx. specialize (HA x). rewrite Hx in HA. cbn in HA. destruct (A !! x) as [y|]; [|done]. exists y. by injection HA. }
  assert (parents_kept A A') as Hk.
  { intros x y Hx. specialize (HA x). rewrite Hx in HA. destruct (A' !! x) as [y'|]; [|done]. exists y'. by injection HA. }
  split; intros; rewrite ?(caches_owns _ _ _ _ HO), ?(caches_holds _ _ _ _ HO), ?Hd in *; eauto.
  - destruct (Hl a) as [l Hl']; [done|]. exists l. by eapply lineage_kept.
  - rewrite Ho. by setoid_rewrite (caches_owns _ _ _ _ HO).
  - destruct (Hy _ _ H0) as (y0 & ? & Ep & _). rewrite H1 in Ep. by eapply Hf.
  - destruct (Hy _ _ H0) as (y0 & ? & _ & <-). by eapply Hs.
  - rewrite Hss. by setoid_rewrite (caches_holds _ _ _ _ HO).
  - destruct (HO o) as [E _]. rewrite H in E. destruct (O !! o) as [x0|] eqn:E0; [|done]. injection E as ->. by eapply Hb.
Qed.
Lemma graph_scope S A O o x s v :
  graph S A O → O !! o = Some x → S !! s = None →
  graph (<[s := v]> S) A (<[o := mk_accounting (ow_members x) (s :: ow_scopes x) (ow_accounts x)]> O).
Proof.
  intros [Hl Ho Ha Hf Hs Hss Hsa Hb] Hx Hn. set (O' := <[o := _]> O).
  assert (∀ o' a, owns O' o' a ↔ owns O o' a) as HO.
  { intros o' a. unfold O'. rewrite (owns_insert _ _ _ _ _ _ Hx). case_decide; [subst; by rewrite (owns_at _ _ _ _ Hx)|done]. }
  assert (∀ o' t, holds O' o' t ↔ holds O o' t ∨ (o' = o ∧ t = s)) as HH.
  { intros o' t. unfold O'. rewrite (holds_insert _ _ _ _ _ _ Hx). case_decide; [subst; rewrite (holds_at _ _ _ _ Hx); set_solver|naive_solver]. }
  assert (∀ o', ¬ holds O o' s) as Hfresh.
  { intros o' H. assert (is_Some (S !! s)) as [? ?] by (apply Hss; by exists o'). congruence. }
  split; intros; rewrite ?HO in *; eauto.
  - rewrite Ho. by setoid_rewrite HO.
  - rewrite HH. left. by eapply Hs.
  - rewrite lookup_insert_is_Some'. setoid_rewrite HH. rewrite Hss. naive_solver.
  - rewrite HH in *. naive_solver.
  - destruct (decide (o0 = o)) as [->|Hne]; unfold O' in H; [rewrite lookup_insert_eq in H|rewrite lookup_insert_ne in H by done]; simplify_eq/=; eauto.
Qed.
Lemma graph_account S A O o x a y n :
  graph S A O → O !! o = Some x → A !! a = None → holds O o (ac_scope y) →
  (∀ p, ac_parent y = Some p → owns O o p) → (n < Z.to_nat BUCKETS)%nat →
  graph S (<[a := y]> A) (<[o := mk_accounting (ow_members x) (ow_scopes x) (alter (cons a) n (ow_accounts x))]> O).
Proof.
  intros [Hl Ho Ha Hf Hs Hss Hsa Hb] Hx Hn Hsc Hp Hbk. set (O' := <[o := _]> O).
  assert (∀ o' b, owns O' o' b ↔ owns O o' b ∨ (o' = o ∧ b = a)) as HO.
  { intros o' b. unfold O'. rewrite (owns_insert _ _ _ _ _ _ Hx). cbn [ow_accounts]. case_decide; [subst|naive_solver].
    rewrite alter_cons_mjoin by (rewrite (Hb o x Hx); done). rewrite (owns_at _ _ _ _ Hx). naive_solver. }
  assert (∀ o' t, holds O' o' t ↔ holds O o' t) as HH.
  { intros o' t. unfold O'. rewrite (holds_insert _ _ _ _ _ _ Hx). case_decide; [subst; by rewrite (holds_at _ _ _ _ Hx)|done]. }
  assert (∀ o', ¬ owns O o' a) as Hfresh.
  { intros o' H. assert (is_Some (A !! a)) as [? ?] by (apply Ho; by exists o'). congruence. }
  assert (parents_kept A (<[a := y]> A)) as Hk.
  { intros z w Hz. rewrite lookup_insert_ne by congruence. by exists w. }
  assert (∀ b, b ≠ a → is_Some (A !! b) → ∃ l, lineage (<[a := y]> A) (Some b) l) as Hl'.
  { intros b _ Hb'. destruct (Hl b Hb') as [l Hll]. exists l. by eapply lineage_kept. }
  split; intros; rewrite ?HH in *; eauto.
  - destruct (decide (a0 = a)) as [->|Hne].
    + destruct (ac_parent y) as [p|] eqn:Ep; [|exists [a]; split; [done|]; exists y; rewrite lookup_insert_eq; done].
      specialize (Hp p eq_refl). assert (is_Some (A !! p)) as Hap by (apply Ho; by exists o).
      destruct (Hl' p) as [l Hll]; [intros ->; destruct Hap; congruence|done|]. exists (a :: l). split; [done|].
      exists y. rewrite lookup_insert_eq, Ep. done.
    + apply Hl'; [done|]. by rewrite lookup_insert_ne in H by done.
  - rewrite lookup_insert_is_Some'. setoid_rewrite HO. rewrite Ho. naive_solver.
  - rewrite HO in *. naive_solver.
  - rewrite HO in *. destruct (decide (a0 = a)) as [->|Hne]; [rewrite lookup_insert_eq in H0|rewrite lookup_insert_ne in H0 by done].
    + injection H0 as <-. destruct H as [?|[-> _]]; [exfalso; by eapply Hfresh|]. left. by apply Hp.
    + left. destruct H as [?|[_ ?]]; [by eapply Hf|done].
  - rewrite HO in H. destruct (decide (a0 = a)) as [->|Hne]; [rewrite lookup_insert_eq in H0|rewrite lookup_insert_ne in H0 by done].
    + injection H0 as <-. destruct H as [?|[-> _]]; [exfalso; by eapply Hfresh|done].
    + destruct H as [?|[_ ?]]; [by eapply Hs|done].
  - rewrite Hss. by setoid_rewrite HH.
  - destruct (decide (o0 = o)) as [->|Hne]; unfold O' in H; [rewrite lookup_insert_eq in H|rewrite lookup_insert_ne in H by done];
      simplify_eq/=; eauto. rewrite length_alter. eauto.
Qed.

Lemma scope_get_ok malloc h o space c h' r :
  heap_graph h → is_Some (pl_owners h !! o) → scope_get malloc h o space c = (h', r) →
  heap_graph h' ∧ grows h h' ∧ (∀ s, r = Some s → holds (pl_owners h') o s).
Proof.
  intros Hg [x Hx]. unfold scope_get. rewrite Hx. destruct (find_scope h _ (ow_scopes x)) as [s|] eqn:Ef.
  { intros [= <- <-]. split_and!; [done|by apply heap_grows_refl|]. intros s' [= <-]. exists x. split; [done|]. by eapply find_scope_elem. }
  destruct (malloc (pl_allocs h)); cbn [negb].
  2: { intros [= <- <-]. split_and!; [done|by apply heap_grows_refl|done]. }
  set (s := fresh (dom (pl_scopes h))). assert (pl_scopes h !! s = None) as Hs by (apply not_elem_of_dom, is_fresh).
  intros [= <- <-]. split_and!.
  - by apply graph_scope.
  - split; cbn; try done; [congruence|..].
    + intros o'. destruct (decide (o' = o)) as [->|]; [by rewrite lookup_insert_eq, Hx|by rewrite lookup_insert_ne].
    + intros o' a. rewrite (owns_insert _ _ _ _ _ _ Hx). case_decide; [subst; by rewrite (owns_at _ _ _ _ Hx)|done].
    + intros o' t. rewrite (holds_insert _ _ _ _ _ _ Hx). case_decide; [subst; rewrite (holds_at _ _ _ _ Hx); by right|done].
  - intros s' [= <-]. eexists. cbn. rewrite lookup_insert_eq. split; [done|]. by left.
Qed.
Lemma account_bucket_range space uid : (bucket_of space uid < Z.to_nat BUCKETS)%nat.
Proof. unfold bucket_of, BUCKETS. divlia. Qed.
Lemma alter_insert_eq' {B} (f : B → B) (M : gmap loc B) i x : M !! i = Some x → alter f i M = <[i := f x]> M.
Proof.
  intros H. apply map_eq. intros j. destruct (decide (j = i)) as [->|Hne]; [by rewrite lookup_alter_eq, lookup_insert_eq, H|].
  by rewrite lookup_alter_ne, lookup_insert_ne.
Qed.
Lemma account_new_ok malloc h o n parent s uid h' r :
  heap_graph h → holds (pl_owners h) o s → (∀ p, parent = Some p → owns (pl_owners h) o p) → (n < Z.to_nat BUCKETS)%nat →
  account_new malloc h o n parent s uid = (h', r) →
  heap_graph h' ∧ grows h h' ∧ (∀ a, r = Some a → owns (pl_owners h') o a).
Proof.
  intros Hg Hs Hp Hn. pose proof Hs as (x & Hx & _). unfold account_new. destruct (malloc (pl_allocs h)); cbn [negb].
  2: { intros [= <- <-]. split_and!; [done|by apply heap_grows_refl|done]. }
  set (a := fresh (dom (pl_accounts h))). assert (pl_accounts h !! a = None) as Ha by (apply not_elem_of_dom, is_fresh).
  intros [= <- <-]. unfold heap_graph. cbn. rewrite (alter_insert_eq' _ _ _ _ Hx).
  assert (length (ow_accounts x) = Z.to_nat BUCKETS) as Hb by (by eapply gr_buckets).
  split_and!.
  - by apply graph_account.
  - split; cbn; try done.
    + intros b y Hb'. rewrite lookup_insert_ne; [done|]. congruence.
    + intros b y Hb' Hnone. destruct (decide (b = a)) as [->|Hne]; [rewrite lookup_insert_eq in Hb'; by injection Hb' as <-|].
      rewrite lookup_insert_ne in Hb' by done. congruence.
    + intros o'. destruct (decide (o' = o)) as [->|]; [by rewrite lookup_insert_eq, Hx|by rewrite lookup_insert_ne].
    + intros o' b. rewrite (owns_insert _ _ _ _ _ _ Hx). case_decide; [subst|done].
      cbn. rewrite (owns_at _ _ _ _ Hx), alter_cons_mjoin by lia. by right.
    + intros o' t. rewrite (holds_insert _ _ _ _ _ _ Hx). case_decide; [subst; by rewrite (holds_at _ _ _ _ Hx)|done].
  - intros b [= <-]. eexists. cbn. rewrite lookup_insert_eq. split; [done|]. cbn. rewrite alter_cons_mjoin by lia. by left.
Qed.
Lemma account_get_ok malloc h o space uid c h' r :
  heap_graph h → is_Some (pl_owners h !! o) → account_get malloc h o space uid c = (h', r) →
  heap_graph h' ∧ grows h h' ∧ (∀ a, r = Some a → owns (pl_owners h') o a).
Proof.
  revert h uid h' r. induction space as [|nd space IH]; intros h uid h' r Hg Ho.
  all: cbn [account_get]; destruct Ho as [x Hx]; rewrite Hx; destruct (find_account h uid _ _) as [a|] eqn:Ef.
  1,3: intros [= <- <-]; split_and!; [done|by apply heap_grows_refl|]; intros a' [= <-];
    (exists x); split; [done|]; by eapply bucket_mjoin, find_account_elem.
  all: destruct (scope_get malloc h o _ c) as [h1 s] eqn:Es; apply scope_get_ok in Es as (Hg1 & Hw1 & Hs1); [|done|by exists x];
    destruct s as [s|]; [|intros [= <- <-]; done]; specialize (Hs1 s eq_refl).
  - intros Hn. eapply account_new_ok in Hn as (Hg2 & Hw2 & Ha2); [|done|done|done|apply account_bucket_range].
    split_and!; [done|by eapply heap_grows_trans|done].
  - destruct (account_get malloc h1 o space _ c) as [h2 p] eqn:Ep.
    apply IH in Ep as (Hg2 & Hw2 & Hp2); [|done|apply (grows_owner _ _ _ Hw1); by exists x].
    destruct p as [p|]; [|intros [= <- <-]; split_and!; [done|by eapply heap_grows_trans|done]].
    intros Hn. eapply account_new_ok in Hn as (Hg3 & Hw3 & Ha3); [|done|..|apply account_bucket_range].
    + split_and!; [done|by eapply heap_grows_trans, heap_grows_trans|done].
    + by apply Hw2.
    + intros p' [= <-]. by apply Hp2.
Qed.

(** ** The invariant *)

Definition charging (A : gmap loc account) (a : loc) (x : md_process_member) : bool := bool_decide (a ∈ charges A (pm_account x)).
Definition in_owner (o : loc) (x : md_process_member) : bool := bool_decide (pm_owner x = Some o).
Definition in_limits (l : loc) (x : md_process_member) : bool := bool_decide (pm_limits x = Some l).
Record member_ok (O : gmap loc accounting) (L : gmap loc limits) (x : md_process_member) : Prop := mk_member_ok {
  mo_references : 1 ≤ pm_references x ≤ UINT32_MAX;
  mo_owner : ∀ o, pm_owner x = Some o → is_Some (O !! o);
  mo_limits : ∀ l, pm_limits x = Some l → is_Some (L !! l);
  mo_account : ∀ a, pm_account x = Some a → ∃ o, pm_owner x = Some o ∧ owns O o a }.
(** Owners and limit records go with their last reference. *)
Definition used (O : gmap loc accounting) (L : gmap loc limits) : Prop :=
  (∀ o x, O !! o = Some x → 1 ≤ ow_members x) ∧ ∀ l x, L !! l = Some x → 1 ≤ li_references x.
(** Between two charges the counts are off by [off]. *)
Record balanced (h : pl_heap) (off : loc → Z) : Prop := mk_balanced {
  ba_graph : heap_graph h;
  ba_members : ∀ m x, pl_members h !! m = Some x → member_ok (pl_owners h) (pl_limits h) x;
  ba_charges : ∀ a y, pl_accounts h !! a = Some y → ac_count y = Z.of_nat (count_if (charging (pl_accounts h) a) (pl_members h)) + off a;
  ba_owners : ∀ o x, pl_owners h !! o = Some x → ow_members x = Z.of_nat (count_if (in_owner o) (pl_members h));
  ba_limits : ∀ l x, pl_limits h !! l = Some x → li_references x = Z.of_nat (count_if (in_limits l) (pl_members h));
  ba_size : Z.of_nat (size (pl_members h)) ≤ UINT32_MAX;
  ba_used : used (pl_owners h) (pl_limits h) }.

Lemma account_lineage h x : heap_graph h → member_ok (pl_owners h) (pl_limits h) x → ∃ l, lineage (pl_accounts h) (pm_account x) l.
Proof.
  intros Hg [_ _ _ Ha]. destruct (pm_account x) as [a|]; [|by exists []]. destruct (Ha a eq_refl) as (o & _ & Ho).
  apply (gr_lineage _ _ _ Hg). apply (gr_owned _ _ _ Hg). by exists o.
Qed.
Lemma charging_kept A A' a x l : lineage A (pm_account x) l → parents_kept A A' → charging A' a x = charging A a x.
Proof.
  intros Hl Hk. unfold charging. rewrite (charges_lineage _ _ _ Hl).
  by rewrite (charges_lineage _ _ _ (lineage_kept _ _ _ _ Hk Hl)).
Qed.
Lemma balanced_grows h h' : balanced h (λ _, 0) → heap_graph h' → grows h h' → balanced h' (λ _, 0).
Proof.
  intros [Hg Hm Hc Ho Hl Hs Hu] Hg' Hw. pose proof Hw as [W1 W2 W3 W4 W5 W6 W7].
  assert (parents_kept (pl_accounts h) (pl_accounts h')) as Hk by (intros a y Hy; exists y; split; [by apply W3|done]).
  split; rewrite ?W1, ?W2; try done.
  - intros m x Hx. destruct (Hm m x Hx) as [H1 H2 H3 H4]. split; try done.
    + intros o Hxo. apply (grows_owner _ _ _ Hw). by apply H2.
    + intros a Ha. destruct (H4 a Ha) as (o & ? & ?). exists o. split; [done|by apply W6].
  - intros a y Hy. rewrite (count_ext _ (charging (pl_accounts h) a)).
    2: { intros m x Hx. destruct (account_lineage _ _ Hg (Hm m x Hx)) as [l Hll]. by eapply charging_kept. }
    destruct (pl_accounts h !! a) as [y0|] eqn:E; [pose proof (W3 a y0 E); simplify_eq; by apply Hc|].
    rewrite (W4 a y Hy E), count_none; [done|]. intros m x Hx. apply bool_decide_false. intros Hin.
    destruct (account_lineage _ _ Hg (Hm m x Hx)) as [l Hll]. rewrite (charges_lineage _ _ _ Hll) in Hin.
    destruct (lineage_dom _ _ _ _ Hll Hin). congruence.
  - intros o x Hx. specialize (W5 o). rewrite Hx in W5. destruct (pl_owners h !! o) as [x0|] eqn:E; [|done]. injection W5 as ->. by apply Ho.
  - split; [|apply Hu]. intros o x Hx. specialize (W5 o). rewrite Hx in W5. destruct (pl_owners h !! o) as [x0|] eqn:E; [|done]. injection W5 as ->.
    by eapply Hu.
Qed.
Lemma bumped_shape A A' l d x :
  bumped A A' l d → (λ y, (ac_parent y, ac_scope y)) <$> A' !! x = (λ y, (ac_parent y, ac_scope y)) <$> A !! x.
Proof. intros H. rewrite H. case_decide; [|done]. by destruct (A !! x). Qed.
Lemma balanced_bump h off l d A' :
  balanced h off → bumped (pl_accounts h) A' l d →
  (∀ a y, a ∈ l → pl_accounts h !! a = Some y → 0 ≤ ac_count y + d ≤ UINT64_MAX) →
  balanced (with_accounts h A') (λ a, off a + if decide (a ∈ l) then d else 0).
Proof.
  intros [Hg Hm Hc Ho Hl Hs Hu] Hb Hr. split; try done.
  - eapply graph_kept; [exact Hg|intros x; by eapply bumped_shape|done].
  - intros a y Hy. cbn in *. rewrite (count_ext _ (charging (pl_accounts h) a)).
    2: { intros m x Hx. destruct (account_lineage _ _ Hg (Hm m x Hx)) as [l' Hll]. eapply charging_kept; [exact Hll|by eapply bumped_kept]. }
    rewrite Hb in Hy. case_decide as E; [|rewrite (Hc a y Hy); lia].
    destruct (pl_accounts h !! a) as [y0|] eqn:Ey; [|done]. injection Hy as <-. cbn. specialize (Hr a y0 E Ey).
    unfold wrap64. rewrite Z.mod_small by (unfold UINT64_MAX in Hr; lia). rewrite (Hc a y0 Ey). lia.
Qed.
Lemma balanced_ext h off off' : (∀ a, off a = off' a) → balanced h off → balanced h off'.
Proof. intros E [Hg Hm Hc Ho Hl Hs]. split; try done. intros a y Hy. rewrite <- E. by apply Hc. Qed.
(** A member changes account. *)
Lemma balanced_move h off m x y :
  balanced h off → pl_members h !! m = Some x → member_ok (pl_owners h) (pl_limits h) y →
  pm_owner y = pm_owner x → pm_limits y = pm_limits x →
  balanced (with_members h (<[m := y]> (pl_members h)))
    (λ a, off a + Z.b2z (charging (pl_accounts h) a x) - Z.b2z (charging (pl_accounts h) a y)).
Proof.
  intros [Hg Hm Hc Ho Hl Hs Hu] Hx Hy Eo El. split; try done; cbn.
  - intros m' z Hz. destruct (decide (m' = m)) as [->|Hne]; [rewrite lookup_insert_eq in Hz; by injection Hz as <-|].
    rewrite lookup_insert_ne in Hz by done. by eapply Hm.
  - intros a z Hz. rewrite (Hc a z Hz). pose proof (count_update (charging (pl_accounts h) a) (pl_members h) m x y Hx).
    destruct (charging _ a x), (charging _ a y); cbn in *; lia.
  - intros o z Hz. rewrite (Ho o z Hz). pose proof (count_update (in_owner o) (pl_members h) m x y Hx) as Hcu.
    unfold in_owner in *. rewrite Eo in Hcu. lia.
  - intros l z Hz. rewrite (Hl l z Hz). pose proof (count_update (in_limits l) (pl_members h) m x y Hx) as Hcu.
    unfold in_limits in *. rewrite El in Hcu. lia.
  - rewrite map_size_insert_Some; [done|by rewrite Hx].
Qed.
Lemma count_bound h off a y :
  balanced h off → pl_accounts h !! a = Some y → off a ≤ ac_count y ≤ UINT32_MAX + off a.
Proof.
  intros Hb Hy. rewrite (ba_charges _ _ Hb a y Hy). pose proof (count_le (charging (pl_accounts h) a) (pl_members h)).
  pose proof (ba_size _ _ Hb). lia.
Qed.
Lemma charge_up h a ln :
  balanced h (λ _, 0) → lineage (pl_accounts h) a ln →
  ∃ A', charge h a 1 = Some (with_accounts h A') ∧ bumped (pl_accounts h) A' ln 1
    ∧ balanced (with_accounts h A') (λ a, if decide (a ∈ ln) then 1 else 0).
Proof.
  intros Hb Hl. destruct (charge_ok h a ln 1 Hl) as (A' & HA & HB); [by left|]. exists A'. split_and!; [done|done|].
  eapply balanced_ext; [|eapply balanced_bump; [exact Hb|exact HB|]]; [done|].
  intros b y _ Hy. pose proof (count_bound _ _ _ _ Hb Hy). cbn in *. unfold UINT32_MAX, UINT64_MAX in *. lia.
Qed.
(** A member's own charge can be taken back. *)
Lemma charge_down h off m x lo :
  balanced h off → pl_members h !! m = Some x → lineage (pl_accounts h) (pm_account x) lo →
  (∀ a, 0 ≤ off a ≤ 1) →
  ∃ A', charge h (pm_account x) (-1) = Some (with_accounts h A') ∧ bumped (pl_accounts h) A' lo (-1)
    ∧ balanced (with_accounts h A') (λ a, off a + if decide (a ∈ lo) then -1 else 0).
Proof.
  intros Hb Hx Hl Hoff. assert (∀ a y, a ∈ lo → pl_accounts h !! a = Some y → 1 ≤ ac_count y) as Hpos.
  { intros a y Ha Hy. rewrite (ba_charges _ _ Hb a y Hy). pose proof (count_delete (charging (pl_accounts h) a) _ m x Hx) as Hd.
    assert (charging (pl_accounts h) a x = true) as E.
    { apply bool_decide_true. by rewrite (charges_lineage _ _ _ Hl). }
    rewrite E in Hd. cbn in Hd. specialize (Hoff a). lia. }
  destruct (charge_ok h (pm_account x) lo (-1) Hl) as (A' & HA & HB).
  { right. intros a y Ha Hy. specialize (Hpos a y Ha Hy). lia. }
  exists A'. split_and!; [done|done|]. eapply balanced_bump; [exact Hb|exact HB|].
  intros b y Hin Hy. pose proof (count_bound _ _ _ _ Hb Hy). specialize (Hpos b y Hin Hy). specialize (Hoff b).
  cbn in *. unfold UINT32_MAX, UINT64_MAX in *. lia.
Qed.
Lemma identity_ok malloc h w m x o identity :
  balanced h (λ _, 0) → pl_members h !! m = Some x → pm_owner x = Some o →
  ∃ h' r, md_process_member_identity malloc h w (Some m) identity = Some (h', r) ∧ balanced h' (λ _, 0)
    ∧ pl_limits h' = pl_limits h
    ∧ ((r = - ENOMEM ∧ pl_members h' = pl_members h)
       ∨ (r = 0 ∧ ∃ a c, pl_members h' = <[m := set_account (Some a) c x]> (pl_members h))).
Proof.
  intros Hb Hx Ho. cbn. rewrite Hx. cbn. set (space := view w _). set (uid := id_real _).
  destruct (charged_to h x uid _) eqn:Ec.
  { exists h, 0. split_and!; try done. right. split; [done|]. unfold charged_to in Ec.
    destruct (pm_account x) as [a|] eqn:Ea; [|done]. exists a, (pm_exec_check x). rewrite insert_id; [done|]. rewrite Hx.
    destruct x; cbn in *. by subst. }
  rewrite Ho. cbn. destruct (account_get malloc h o space uid _) as [h1 r] eqn:Eg.
  assert (is_Some (pl_owners h !! o)) as Hoo by (eapply mo_owner; [by eapply ba_members|done]).
  apply account_get_ok in Eg as (Hg1 & Hw1 & Hr1); [|apply Hb|done]. pose proof (balanced_grows _ _ Hb Hg1 Hw1) as Hb1.
  destruct r as [next|].
  2: { exists h1, (- ENOMEM). split_and!; try done; [apply Hw1|]. left. split; [done|apply Hw1]. }
  specialize (Hr1 next eq_refl). assert (pl_members h1 !! m = Some x) as Hx1 by (by rewrite (gw_members _ _ Hw1)).
  destruct (gr_lineage _ _ _ Hg1 next) as [ln Hln]; [apply (gr_owned _ _ _ Hg1); by exists o|].
  destruct (charge_up _ _ _ Hb1 Hln) as (A2 & -> & HB2 & Hb2). cbn [mbind option_bind]. set (h2 := with_accounts h1 A2) in *.
  destruct (account_lineage h1 x Hg1 (ba_members _ _ Hb1 _ _ Hx1)) as [lo Hlo].
  assert (lineage (pl_accounts h2) (pm_account x) lo) as Hlo2 by (eapply lineage_kept; [by eapply bumped_kept|done]).
  destruct (charge_down h2 _ m x lo Hb2 Hx1 Hlo2) as (A3 & -> & HB3 & Hb3); [intros; case_decide; lia|].
  cbn [mbind option_bind]. set (h3 := with_accounts h2 A3) in *. set (check := if user_changed h1 x uid then _ else _).
  eexists _, 0. split; [done|]. split_and!; [|by rewrite <- (gw_limits _ _ Hw1)|right; split; [done|]; exists next, check; by rewrite <- (gw_members _ _ Hw1)].
  eapply balanced_ext; [|eapply (balanced_move h3 _ m x (set_account (Some next) check x)); [exact Hb3|done|..]]; try done.
  - intros a. cbn beta. unfold charging. cbn [set_account pm_account].
    assert (lineage (pl_accounts h3) (pm_account x) lo) as Hlo3 by (eapply lineage_kept; [by eapply bumped_kept|done]).
    assert (lineage (pl_accounts h3) (Some next) ln) as Hln3.
    { eapply lineage_kept; [by eapply bumped_kept|]. eapply lineage_kept; [by eapply bumped_kept|done]. }
    rewrite (charges_lineage _ _ _ Hlo3), (charges_lineage _ _ _ Hln3).
    repeat case_decide; repeat case_bool_decide; cbn; done.
  - destruct (ba_members _ _ Hb3 m x Hx1) as [? ? ? ?]. split; try done. cbn. intros a [= <-]. exists o. split; [done|].
    by apply Hr1.
Qed.

(** ** A member leaves *)

Lemma lookup_foldr_delete {B} (M : gmap loc B) (l : list loc) i : foldr delete M l !! i = if decide (i ∈ l) then None else M !! i.
Proof.
  induction l as [|x l IH]; cbn; [by rewrite decide_False by apply not_elem_of_nil|].
  destruct (decide (i = x)) as [->|Hne]; [by rewrite lookup_delete_eq, decide_True by (by left)|].
  rewrite lookup_delete_ne, IH by done. apply decide_ext. rewrite elem_of_cons. naive_solver.
Qed.
Lemma lineage_ext A A' a l : (∀ x, x ∈ l → A' !! x = A !! x) → lineage A a l → lineage A' a l.
Proof.
  revert a. induction l as [|x l IH]; intros a He; cbn; [done|]. intros [-> (y & Hy & Hl)]. split; [done|]. exists y.
  rewrite He by (by left). split; [done|]. apply IH; [|done]. intros z Hz. apply He. by right.
Qed.
Lemma lineage_family S A O o a l x : graph S A O → owns O o a → lineage A (Some a) l → x ∈ l → owns O o x.
Proof.
  intros Hg. revert a. induction l as [|z l IH]; intros a Ho Hl Hx; [by apply elem_of_nil in Hx|].
  destruct Hl as [[= ->] (y & Hy & Hl)]. apply elem_of_cons in Hx as [->|Hx]; [done|].
  destruct (ac_parent y) as [p|] eqn:Ep; [|by destruct l; [apply elem_of_nil in Hx|destruct Hl]].
  eapply IH; [|exact Hl|done]. by eapply gr_family.
Qed.
(** The last member of an owner takes its caches along. *)
Section delete_owner.
Context (S : gmap loc scope) (A : gmap loc account) (O : gmap loc accounting) (o : loc) (x : accounting).
Hypothesis (Hg : graph S A O) (Hx : O !! o = Some x).
Let A' : gmap loc account := foldr delete A (mjoin (ow_accounts x)).
Lemma kept_account o' a : owns O o' a → o' ≠ o → A' !! a = A !! a.
Proof using Hg Hx.
  intros Ho Hne. unfold A'. rewrite lookup_foldr_delete, decide_False; [done|]. intros Hin. apply Hne.
  eapply (gr_apart _ _ _ Hg); [exact Ho|]. by exists x.
Qed.
Lemma kept_lineage o' a l : owns O o' a → o' ≠ o → lineage A (Some a) l → lineage A' (Some a) l.
Proof using Hg Hx.
  intros Ho Hne Hl. eapply lineage_ext; [|exact Hl]. intros z Hz. eapply kept_account; [|done]. by eapply lineage_family.
Qed.
Lemma owns_delete o' a : owns (delete o O) o' a ↔ owns O o' a ∧ o' ≠ o.
Proof using. clear. unfold owns. setoid_rewrite lookup_delete_Some. naive_solver. Qed.
Lemma holds_delete o' s : holds (delete o O) o' s ↔ holds O o' s ∧ o' ≠ o.
Proof using. clear. unfold holds. setoid_rewrite lookup_delete_Some. naive_solver. Qed.
Lemma graph_delete : graph (foldr delete S (ow_scopes x)) A' (delete o O).
Proof using Hg Hx.
  pose proof Hg as [Hl Ho Ha Hf Hs Hss Hsa Hb]. assert (∀ a y, A' !! a = Some y → A !! a = Some y ∧ ∃ o', owns O o' a ∧ o' ≠ o) as Hd.
  { intros a y. unfold A'. rewrite lookup_foldr_delete. case_decide as E; [done|]. intros Hy. split; [done|].
    destruct (proj1 (Ho a)) as [o' Ho']; [by exists y|]. exists o'. split; [done|]. intros ->. apply E. by apply (owns_at _ _ _ _ Hx). }
  split; intros; rewrite ?owns_delete, ?holds_delete in *.
  - destruct H as [y Hy]. destruct (Hd a y Hy) as (Hy' & o' & Ho' & Hne). destruct (Hl a) as [l Hll]; [by exists y|]. exists l. by eapply kept_lineage.
  - setoid_rewrite owns_delete. split.
    + intros [y Hy]. destruct (Hd a y Hy) as (_ & o' & ? & ?). by exists o'.
    + intros (o' & Ho' & Hne). rewrite (kept_account _ _ Ho' Hne). apply Ho. by exists o'.
  - destruct H, H0. by eapply Ha.
  - destruct H as [H Hne]. destruct (Hd _ _ H0) as [? _]. split; [by eapply Hf|done].
  - destruct H as [H Hne]. destruct (Hd _ _ H0) as [? _]. split; [by eapply Hs|done].
  - setoid_rewrite holds_delete. rewrite lookup_foldr_delete. case_decide as E.
    + split; [by intros [? ?]|]. intros (o' & Ho' & Hne). exfalso. apply Hne. eapply Hsa; [exact Ho'|]. by exists x.
    + rewrite Hss. split; intros (o' & Ho'); [|exists o'; naive_solver]. exists o'. split; [done|]. intros ->. apply E. by apply (holds_at _ _ _ _ Hx).
  - destruct H, H0. by eapply Hsa.
  - rewrite lookup_delete_Some in H. destruct H. by eapply Hb.
Qed.
End delete_owner.

(** The member [x] is gone, its references to an owner and a limit record remain. *)
Record leaving (h : pl_heap) (xo xl : option loc) : Prop := mk_leaving {
  lv_graph : heap_graph h;
  lv_members : ∀ m x, pl_members h !! m = Some x → member_ok (pl_owners h) (pl_limits h) x;
  lv_charges : ∀ a y, pl_accounts h !! a = Some y → ac_count y = Z.of_nat (count_if (charging (pl_accounts h) a) (pl_members h));
  lv_owners : ∀ o x, pl_owners h !! o = Some x →
    ow_members x = Z.of_nat (count_if (in_owner o) (pl_members h)) + if decide (xo = Some o) then 1 else 0;
  lv_limits : ∀ l x, pl_limits h !! l = Some x →
    li_references x = Z.of_nat (count_if (in_limits l) (pl_members h)) + if decide (xl = Some l) then 1 else 0;
  lv_size : Z.of_nat (size (pl_members h)) < UINT32_MAX;
  lv_owner : ∀ o, xo = Some o → is_Some (pl_owners h !! o);
  lv_limit : ∀ l, xl = Some l → is_Some (pl_limits h !! l);
  lv_used : used (pl_owners h) (pl_limits h) }.
Lemma leave_members h off m x :
  balanced h off → pl_members h !! m = Some x → (∀ a, off a + Z.b2z (charging (pl_accounts h) a x) = 0) →
  leaving (with_members h (delete m (pl_members h))) (pm_owner x) (pm_limits x).
Proof.
  intros [Hg Hm Hc Ho Hl Hs Hu] Hx Hoff. destruct (Hm m x Hx) as [_ Hmo Hml _]. split; try done; cbn.
  - intros m' y [_ Hy]%lookup_delete_Some. by eapply Hm.
  - intros a y Hy. rewrite (Hc a y Hy). pose proof (count_delete (charging (pl_accounts h) a) _ m x Hx) as Hd. specialize (Hoff a).
    destruct (charging _ a x); cbn in *; lia.
  - intros o y Hy. rewrite (Ho o y Hy). pose proof (count_delete (in_owner o) _ m x Hx) as Hd. case_decide as E;
      [assert (in_owner o x = true) as Ei by (by apply bool_decide_true)|assert (in_owner o x = false) as Ei by (by apply bool_decide_false)];
      rewrite Ei in Hd; cbn [Nat.b2n] in Hd; lia.
  - intros o y Hy. rewrite (Hl o y Hy). pose proof (count_delete (in_limits o) _ m x Hx) as Hd. case_decide as E;
      [assert (in_limits o x = true) as Ei by (by apply bool_decide_true)|assert (in_limits o x = false) as Ei by (by apply bool_decide_false)];
      rewrite Ei in Hd; cbn [Nat.b2n] in Hd; lia.
  - rewrite map_size_delete_Some by (by exists x). assert (size (pl_members h) ≠ 0)%nat.
    { apply map_size_ne_0_lookup. exists m. by exists x. } lia.
Qed.
Lemma limits_release_ok h xo xl :
  leaving h xo xl → ∃ L, limits_release h xl = Some (with_limits h L) ∧ leaving (with_limits h L) xo None.
Proof.
  intros [Hg Hm Hc Ho Hl Hs Hxo Hxl Hu]. destruct xl as [l|]; cbn.
  2: { exists (pl_limits h). split; [by destruct h|]. split; try done. }
  destruct (Hxl l eq_refl) as [x Hx]. rewrite Hx. cbn. eexists. split; [done|]. pose proof (Hl l x Hx) as Hn.
  rewrite decide_True in Hn by done. pose proof (count_le (in_limits l) (pl_members h)) as Hle.
  rewrite wrap32_small by lia. replace (li_references x + -1) with (Z.of_nat (count_if (in_limits l) (pl_members h))) by lia.
  destruct (Z.of_nat _ =? 0) eqn:E0; breflect.
  - split; try done; cbn.
    + intros m y Hy. destruct (Hm m y Hy) as [? ? H3 ?]. split; try done. intros l' Hl'. rewrite lookup_delete_ne; [by apply H3|].
      intros ->. pose proof (count_zero (in_limits l') (pl_members h) m y ltac:(lia) Hy) as Hz. unfold in_limits in Hz.
      rewrite bool_decide_true in Hz by done. done.
    + intros l' y [Hne Hy]%lookup_delete_Some. rewrite (Hl l' y Hy), !decide_False by congruence. lia.
    + split; [apply Hu|]. intros l' y [Hne Hy]%lookup_delete_Some. by eapply Hu.
  - split; try done; cbn.
    + intros m y Hy. destruct (Hm m y Hy) as [? ? H3 ?]. split; try done. intros l' Hl'. apply lookup_insert_is_Some'. right. by apply H3.
    + intros l' y. destruct (decide (l' = l)) as [->|Hne]; [rewrite lookup_insert_eq; intros [= <-]; cbn|rewrite lookup_insert_ne by done].
      * rewrite decide_False by done. rewrite wrap32_small by lia. lia.
      * intros Hy. rewrite (Hl l' y Hy), !decide_False by congruence. lia.
    + split; [apply Hu|]. intros l' y. destruct (decide (l' = l)) as [->|Hne]; [|rewrite lookup_insert_ne by done; apply Hu].
      rewrite lookup_insert_eq. intros [= <-]. cbn. rewrite wrap32_small by lia. lia.
Qed.
(** A member's accounts belong to its owner. *)
Lemma charges_owned h x o' a :
  heap_graph h → member_ok (pl_owners h) (pl_limits h) x → a ∈ charges (pl_accounts h) (pm_account x) →
  pm_owner x = Some o' → owns (pl_owners h) o' a.
Proof.
  intros Hg Hx Ha Ho. destruct (account_lineage _ _ Hg Hx) as [l Hl]. rewrite (charges_lineage _ _ _ Hl) in Ha.
  destruct (pm_account x) as [b|] eqn:Eb; [|by cbn in Hl; destruct l; [apply elem_of_nil in Ha|destruct Hl]].
  destruct (mo_account _ _ _ Hx b Eb) as (o & E & Hob). simplify_eq. by eapply lineage_family.
Qed.
Lemma members_kept O O' L x :
  (∀ o, pm_owner x = Some o → is_Some (O !! o) → is_Some (O' !! o)) →
  (∀ o a, pm_owner x = Some o → owns O o a → owns O' o a) → member_ok O L x → member_ok O' L x.
Proof. intros H1 H2 [? ? ? Ha]. split; eauto. intros a E. destruct (Ha a E) as (o & ? & ?). eauto. Qed.
Lemma owner_kept h o x :
  leaving h (Some o) None → pl_owners h !! o = Some x → count_if (in_owner o) (pl_members h) ≠ 0%nat →
  balanced (with_owners h (<[o := add_members (-1) x]> (pl_owners h))) (λ _, 0).
Proof.
  intros [Hg Hm Hc Ho Hl Hs _ _ Hu] Hx Hn. set (O' := <[o := _]> (pl_owners h)).
  assert (caches_kept (pl_owners h) O') as Hk.
  { intros o'. unfold O'. destruct (decide (o' = o)) as [->|]; [by rewrite lookup_insert_eq, Hx|by rewrite lookup_insert_ne]. }
  split; try done; cbn.
  - by eapply graph_kept.
  - intros m y Hy. apply (members_kept (pl_owners h)); [|intros; by apply (caches_owns _ _ _ _ Hk)|by eapply Hm].
    intros o' _ Ho'. unfold O'. apply lookup_insert_is_Some'. by right.
  - intros a y Hy. rewrite (Hc a y Hy). lia.
  - intros o' y. unfold O'. destruct (decide (o' = o)) as [->|Hne].
    + rewrite lookup_insert_eq. intros [= <-]. cbn. pose proof (Ho o x Hx) as E. rewrite decide_True in E by done.
      pose proof (count_le (in_owner o) (pl_members h)). rewrite wrap32_small by lia. lia.
    + rewrite lookup_insert_ne by done. intros Hy. rewrite (Ho o' y Hy), decide_False by congruence. lia.
  - intros l y Hy. rewrite (Hl l y Hy), decide_False by done. lia.
  - lia.
  - split; [|apply Hu]. intros o' y. unfold O'. destruct (decide (o' = o)) as [->|Hne]; [|rewrite lookup_insert_ne by done; apply Hu].
    rewrite lookup_insert_eq. intros [= <-]. cbn. pose proof (Ho o x Hx) as E. rewrite decide_True in E by done.
    pose proof (count_le (in_owner o) (pl_members h)). rewrite wrap32_small by lia. lia.
Qed.
Lemma owner_deleted h o x :
  leaving h (Some o) None → pl_owners h !! o = Some x → count_if (in_owner o) (pl_members h) = 0%nat →
  (∀ a y, a ∈ mjoin (ow_accounts x) → pl_accounts h !! a = Some y → ac_count y = 0)
  ∧ balanced (mk_pl (foldr delete (pl_scopes h) (ow_scopes x)) (foldr delete (pl_accounts h) (mjoin (ow_accounts x)))
                (delete o (pl_owners h)) (pl_limits h) (pl_members h) (pl_allocs h)) (λ _, 0).
Proof.
  intros [Hg Hm Hc Ho Hl Hs _ _ Hu] Hx Hn.
  assert (∀ m z, pl_members h !! m = Some z → pm_owner z ≠ Some o) as Hother.
  { intros m z Hz E. pose proof (count_zero _ _ m z Hn Hz) as H. unfold in_owner in H. by rewrite bool_decide_true in H. }
  split.
  { intros a y Ha Hy. rewrite (Hc a y Hy), count_none; [done|]. intros m z Hz. apply bool_decide_false. intros Hin.
    destruct (pm_account z) as [b|] eqn:Eb; [|rewrite charges_none in Hin; by apply elem_of_nil in Hin].
    destruct (mo_account _ _ _ (Hm m z Hz) b Eb) as (o' & Eo & _). apply (Hother m z Hz). rewrite Eo. f_equal.
    eapply (gr_apart _ _ _ Hg); [|by exists x]. rewrite <- Eb in Hin. eapply charges_owned; [done|by eapply Hm|exact Hin|done]. }
  split; try done; cbn.
  - by apply graph_delete.
  - intros m z Hz. apply (members_kept (pl_owners h)); [..|by eapply Hm].
    + intros o' Eo. rewrite lookup_delete_ne; [done|]. intros ->. by apply (Hother m z Hz).
    + intros o' a Eo Ha. apply owns_delete. split; [done|]. intros ->. by apply (Hother m z Hz).
  - intros a y Hy. rewrite lookup_foldr_delete in Hy. case_decide as Ea; [done|]. rewrite (Hc a y Hy), Z.add_0_r. f_equal.
    apply count_ext. intros m z Hz. unfold charging. destruct (account_lineage _ _ Hg (Hm m z Hz)) as [l Hll].
    rewrite (charges_lineage _ _ _ Hll), (charges_lineage _ _ l); [done|].
    destruct (pm_account z) as [b|] eqn:Eb; [|by destruct l; [|destruct Hll]]. destruct (mo_account _ _ _ (Hm m z Hz) b Eb) as (o' & Eo & Hob).
    eapply kept_lineage; [exact Hg|exact Hx|exact Hob| |exact Hll]. intros ->. by apply (Hother m z Hz).
  - intros o' y [Hne Hy]%lookup_delete_Some. rewrite (Ho o' y Hy), decide_False by congruence. lia.
  - intros l y Hy. rewrite (Hl l y Hy), decide_False by done. lia.
  - lia.
  - split; [|apply Hu]. intros o' y [Hne Hy]%lookup_delete_Some. by eapply Hu.
Qed.
Lemma accounting_release_ok h xo :
  leaving h xo None →
  ∃ S A O, accounting_release h xo = Some (mk_pl S A O (pl_limits h) (pl_members h) (pl_allocs h))
    ∧ balanced (mk_pl S A O (pl_limits h) (pl_members h) (pl_allocs h)) (λ _, 0).
Proof.
  intros Hlv. destruct xo as [o|]; cbn.
  2: { exists (pl_scopes h), (pl_accounts h), (pl_owners h). split; [by destruct h|]. destruct Hlv as [Hg Hm Hc Ho Hl Hs _ _ Hu].
    split; try done; cbn; [|..|lia]; intros a y Hy; [rewrite (Hc a y Hy)|rewrite (Ho a y Hy), decide_False by done|rewrite (Hl a y Hy), decide_False by done]; lia. }
  destruct (lv_owner _ _ _ Hlv o eq_refl) as [x Hx]. rewrite Hx. cbn. pose proof (lv_owners _ _ _ Hlv o x Hx) as Hn.
  rewrite decide_True in Hn by done. pose proof (count_le (in_owner o) (pl_members h)) as Hle. pose proof (lv_size _ _ _ Hlv) as Hs.
  rewrite wrap32_small by lia. replace (ow_members x + -1) with (Z.of_nat (count_if (in_owner o) (pl_members h))) by lia.
  destruct (Z.of_nat _ =? 0) eqn:E0; breflect; cbn [negb].
  - destruct (owner_deleted h o x Hlv Hx ltac:(lia)) as [Hz Hb].
    replace (forallb _ _) with true; [eexists _, _, _; split; [done|exact Hb]|].
    symmetry. apply forallb_forall. intros a Ha. apply list_elem_of_In in Ha. destruct (pl_accounts h !! a) as [y|] eqn:Hy; [|done].
    by rewrite (Hz a y Ha Hy).
  - eexists _, _, _. split; [unfold with_owners; done|]. apply (owner_kept h o x Hlv Hx). lia.
Qed.
(** Releasing the records does not look at the members. *)
Lemma limits_release_members h N L xl :
  limits_release (with_members h N) xl = Some (with_limits (with_members h N) L) → limits_release h xl = Some (with_limits h L).
Proof.
  destruct h, xl as [l|]; cbn; [|intros [= ->]; done]. destruct (_ !! l); cbn; [|done]. by intros [= ->].
Qed.
Lemma accounting_release_members h N S A O xo :
  accounting_release (with_members h N) xo = Some (mk_pl S A O (pl_limits h) N (pl_allocs h)) →
  accounting_release h xo = Some (mk_pl S A O (pl_limits h) (pl_members h) (pl_allocs h)).
Proof.
  destruct h, xo as [o|]; cbn; [|intros [= -> -> ->]; done]. destruct (_ !! o); cbn; [|done].
  repeat case_if; try done; unfold with_owners; cbn; intros [= <- <- <-]; done.
Qed.
Lemma release_last h m x :
  balanced h (λ _, 0) → pl_members h !! m = Some x → pm_references x = 1 →
  ∃ h', md_process_member_release h (Some m) = Some h' ∧ balanced h' (λ _, 0) ∧ pl_members h' = delete m (pl_members h).
Proof.
  intros Hb Hx Hr. cbn. rewrite Hx. cbn. rewrite Hr. change (wrap32 (1 + -1)) with 0. cbn [Z.eqb negb pm_account].
  destruct (account_lineage h x (ba_graph _ _ Hb) (ba_members _ _ Hb _ _ Hx)) as [lo Hlo].
  destruct (charge_down h _ m x lo Hb Hx Hlo) as (A1 & -> & HB1 & Hb1); [done|]. cbn [mbind option_bind].
  set (h1 := with_accounts h A1) in *. set (N := delete m (pl_members h)).
  assert (leaving (with_members h1 N) (pm_owner x) (pm_limits x)) as Hlv.
  { eapply (leave_members h1 _ m x Hb1 Hx). intros a. cbn beta. unfold charging.
    rewrite (charges_lineage _ _ lo) by (eapply lineage_kept; [by eapply bumped_kept|done]).
    case_decide; case_bool_decide; done. }
  destruct (limits_release_ok _ _ _ Hlv) as (L & HL & Hlv2). apply limits_release_members in HL. rewrite HL. cbn [mbind option_bind].
  destruct (accounting_release_ok _ _ Hlv2) as (S & A & O & HA & Hb3).
  apply (accounting_release_members (with_limits h1 L) N) in HA. rewrite HA. cbn [mbind option_bind].
  eexists. split; [done|]. split; [exact Hb3|done].
Qed.
Lemma member_release_ok h m x :
  balanced h (λ _, 0) → pl_members h !! m = Some x →
  ∃ h', md_process_member_release h (Some m) = Some h' ∧ balanced h' (λ _, 0)
    ∧ pl_members h' = if decide (pm_references x = 1) then delete m (pl_members h)
                      else <[m := set_member_references (-1) x]> (pl_members h).
Proof.
  intros Hb Hx. case_decide as E; [by apply (release_last h m x)|]. pose proof (ba_members _ _ Hb m x Hx) as [Hr ? ? ?].
  cbn. rewrite Hx. cbn. rewrite wrap32_small by lia. rewrite (proj2 (Z.eqb_neq _ _)) by lia. cbn [negb].
  eexists. split; [done|]. split; [|done].
  eapply balanced_ext; [|eapply (balanced_move h _ m x (set_member_references (-1) x)); try done].
  - intros a. cbn beta. unfold charging. cbn. lia.
  - split; try done. cbn. rewrite wrap32_small by lia. lia.
Qed.
(** A member appears, without an account yet. *)
Lemma balanced_add h n m xo xl O' L' :
  balanced h (λ _, 0) → pl_members h !! m = None → Z.of_nat (size (pl_members h)) < UINT32_MAX →
  graph (pl_scopes h) (pl_accounts h) O' → (∀ o a, owns (pl_owners h) o a → owns O' o a) →
  (∀ o, is_Some (O' !! o) ↔ is_Some (pl_owners h !! o) ∨ xo = Some o) →
  (∀ l, is_Some (L' !! l) ↔ is_Some (pl_limits h !! l) ∨ xl = Some l) →
  (∀ o y, O' !! o = Some y → ow_members y = Z.of_nat (count_if (in_owner o) (pl_members h)) + if decide (xo = Some o) then 1 else 0) →
  (∀ l y, L' !! l = Some y → li_references y = Z.of_nat (count_if (in_limits l) (pl_members h)) + if decide (xl = Some l) then 1 else 0) →
  balanced (mk_pl (pl_scopes h) (pl_accounts h) O' L' (<[m := mk_member 1 xo None xl false]> (pl_members h)) n) (λ _, 0).
Proof.
  intros [Hg Hm Hc Ho Hl Hs Hu] Hn Hsz Hg' HO1 HO2 HL1 HO3 HL3. set (x := mk_member _ _ _ _ _). split; cbn.
  - done.
  - intros m' y. destruct (decide (m' = m)) as [->|Hne]; [rewrite lookup_insert_eq; intros [= <-]|rewrite lookup_insert_ne by done; intros Hy].
    + split; try done; cbn; intros; [apply HO2|apply HL1]; eauto.
    + destruct (Hm m' y Hy) as [? ? ? H4]. split; [done|intros; apply HO2; eauto|intros; apply HL1; eauto|]. intros a Ha. destruct (H4 a Ha) as (o & ? & ?). eauto.
  - intros a y Hy. rewrite (Hc a y Hy), count_fresh by done. unfold charging at 3. cbn. rewrite charges_none, bool_decide_false by apply not_elem_of_nil. cbn. lia.
  - intros o y Hy. rewrite count_fresh by done. change (in_owner o x) with (bool_decide (xo = Some o)).
    rewrite (HO3 o y Hy), bool_decide_decide. destruct (decide (xo = Some o)); cbn; lia.
  - intros l y Hy. rewrite count_fresh by done. change (in_limits l x) with (bool_decide (xl = Some l)).
    rewrite (HL3 l y Hy), bool_decide_decide. destruct (decide (xl = Some l)); cbn; lia.
  - rewrite map_size_insert_None by done. lia.
  - destruct Hu as [Hu1 Hu2]. split.
    + intros o y Hy. rewrite (HO3 o y Hy). case_decide; [lia|]. destruct (proj1 (HO2 o)) as [[z Hz]|]; [by eexists| |done].
      pose proof (Hu1 o z Hz). rewrite (Ho o z Hz) in *. lia.
    + intros l y Hy. rewrite (HL3 l y Hy). case_decide; [lia|]. destruct (proj1 (HL1 l)) as [[z Hz]|]; [by eexists| |done].
      pose proof (Hu2 l z Hz). rewrite (Hl l z Hz) in *. lia.
Qed.
Lemma count_dangling h (l : loc) : balanced h (λ _, 0) → pl_limits h !! l = None → count_if (in_limits l) (pl_members h) = 0%nat.
Proof.
  intros Hb Hl. apply count_none. intros m x Hx. apply bool_decide_false. intros E.
  destruct (mo_limits _ _ _ (ba_members _ _ Hb m x Hx) l E). congruence.
Qed.
Lemma count_ownerless h (o : loc) : balanced h (λ _, 0) → pl_owners h !! o = None → count_if (in_owner o) (pl_members h) = 0%nat.
Proof.
  intros Hb Ho. apply count_none. intros m x Hx. apply bool_decide_false. intros E.
  destruct (mo_owner _ _ _ (ba_members _ _ Hb m x Hx) o E). congruence.
Qed.
(** Limit records with one more reference, or with a new one. *)
Lemma limits_shared h l r :
  balanced h (λ _, 0) → pl_limits h !! l = Some r → Z.of_nat (size (pl_members h)) < UINT32_MAX →
  ∀ l' y, alter (add_limit_references 1) l (pl_limits h) !! l' = Some y →
    li_references y = Z.of_nat (count_if (in_limits l') (pl_members h)) + if decide (Some l = Some l') then 1 else 0.
Proof.
  intros Hb Hl Hs l' y. rewrite (alter_insert_eq' _ _ _ _ Hl). destruct (decide (l' = l)) as [->|Hne].
  - rewrite lookup_insert_eq. intros [= <-]. cbn. rewrite decide_True by done. pose proof (ba_limits _ _ Hb l r Hl) as E.
    pose proof (count_le (in_limits l) (pl_members h)). rewrite wrap32_small by lia. lia.
  - rewrite lookup_insert_ne by done. intros Hy. rewrite (ba_limits _ _ Hb l' y Hy), decide_False by congruence. lia.
Qed.
Lemma limits_added h l v n :
  balanced h (λ _, 0) → pl_limits h !! l = None →
  ∀ l' y, (<[l := mk_limit_record 1 v n]> (pl_limits h)) !! l' = Some y →
    li_references y = Z.of_nat (count_if (in_limits l') (pl_members h)) + if decide (Some l = Some l') then 1 else 0.
Proof.
  intros Hb Hl l' y. destruct (decide (l' = l)) as [->|Hne].
  - rewrite lookup_insert_eq. intros [= <-]. cbn. by rewrite decide_True, count_dangling by done.
  - rewrite lookup_insert_ne by done. intros Hy. rewrite (ba_limits _ _ Hb l' y Hy), decide_False by congruence. lia.
Qed.
(** An owner with one more member, or a new one. *)
Lemma owners_joined h o x :
  balanced h (λ _, 0) → pl_owners h !! o = Some x → Z.of_nat (size (pl_members h)) < UINT32_MAX →
  let O' := alter (add_members 1) o (pl_owners h) in
  graph (pl_scopes h) (pl_accounts h) O' ∧ (∀ o' a, owns (pl_owners h) o' a → owns O' o' a)
  ∧ (∀ o', is_Some (O' !! o') ↔ is_Some (pl_owners h !! o') ∨ Some o = Some o')
  ∧ ∀ o' y, O' !! o' = Some y → ow_members y = Z.of_nat (count_if (in_owner o') (pl_members h)) + if decide (Some o = Some o') then 1 else 0.
Proof.
  intros Hb Hx Hs O'. assert (O' = <[o := add_members 1 x]> (pl_owners h)) as -> by (by apply alter_insert_eq').
  set (O2 := <[o := _]> (pl_owners h)). assert (caches_kept (pl_owners h) O2) as Hk.
  { intros o'. unfold O2. destruct (decide (o' = o)) as [->|]; [by rewrite lookup_insert_eq, Hx|by rewrite lookup_insert_ne]. }
  split_and!.
  - eapply graph_kept; [apply Hb|done|done].
  - intros o' a. by apply (caches_owns _ _ _ _ Hk).
  - intros o'. unfold O2. rewrite lookup_insert_is_Some'. naive_solver.
  - intros o' y. unfold O2. destruct (decide (o' = o)) as [->|Hne].
    + rewrite lookup_insert_eq. intros [= <-]. cbn. rewrite decide_True by done. pose proof (ba_owners _ _ Hb o x Hx) as E.
      pose proof (count_le (in_owner o) (pl_members h)). rewrite wrap32_small by lia. lia.
    + rewrite lookup_insert_ne by done. intros Hy. rewrite (ba_owners _ _ Hb o' y Hy), decide_False by congruence. lia.
Qed.
Lemma owners_added h o :
  balanced h (λ _, 0) → pl_owners h !! o = None →
  let O' := <[o := mk_accounting 1 [] (replicate (Z.to_nat BUCKETS) [])]> (pl_owners h) in
  graph (pl_scopes h) (pl_accounts h) O' ∧ (∀ o' a, owns (pl_owners h) o' a → owns O' o' a)
  ∧ (∀ o', is_Some (O' !! o') ↔ is_Some (pl_owners h !! o') ∨ Some o = Some o')
  ∧ ∀ o' y, O' !! o' = Some y → ow_members y = Z.of_nat (count_if (in_owner o') (pl_members h)) + if decide (Some o = Some o') then 1 else 0.
Proof.
  intros Hb Hn O'. pose proof (ba_graph _ _ Hb) as [Hl Ho Ha Hf Hs Hss Hsa Hbk].
  assert (∀ o' a, owns O' o' a ↔ owns (pl_owners h) o' a) as HO.
  { intros o' a. unfold owns, O'. destruct (decide (o' = o)) as [->|]; [rewrite lookup_insert_eq, Hn|by rewrite lookup_insert_ne].
    split; [|naive_solver]. intros (y & [= <-] & Hin). exfalso. revert Hin. cbn [ow_accounts]. by vm_compute (mjoin _); intros ?%elem_of_nil. }
  assert (∀ o' a, holds O' o' a ↔ holds (pl_owners h) o' a) as HH.
  { intros o' a. unfold holds, O'. destruct (decide (o' = o)) as [->|]; [rewrite lookup_insert_eq, Hn|by rewrite lookup_insert_ne].
    split; [|naive_solver]. intros (y & [= <-] & Hin). by apply elem_of_nil in Hin. }
  split_and!.
  - split; intros; rewrite ?HO, ?HH in *; eauto; [rewrite Ho; by setoid_rewrite HO|rewrite Hss; by setoid_rewrite HH|].
    unfold O' in H. destruct (decide (o0 = o)) as [->|Hne]; [rewrite lookup_insert_eq in H; by injection H as <-|].
    rewrite lookup_insert_ne in H by done. by eapply Hbk.
  - intros o' a. by rewrite HO.
  - intros o'. unfold O'. rewrite lookup_insert_is_Some'. naive_solver.
  - intros o' y. unfold O'. destruct (decide (o' = o)) as [->|Hne].
    + rewrite lookup_insert_eq. intros [= <-]. cbn. by rewrite decide_True, count_ownerless by done.
    + rewrite lookup_insert_ne by done. intros Hy. rewrite (ba_owners _ _ Hb o' y Hy), decide_False by congruence. lia.
Qed.

(** ** The operations *)

(** Every member has an owner, limits and an account. *)
Definition complete (x : md_process_member) : Prop := is_Some (pm_owner x) ∧ is_Some (pm_limits x) ∧ is_Some (pm_account x).
Record process_ok (h : pl_heap) : Prop := mk_process_ok {
  po_balanced : balanced h (λ _, 0);
  po_complete : ∀ m x, pl_members h !! m = Some x → complete x }.
Lemma complete_insert (M : gmap loc md_process_member) m y :
  (∀ m x, M !! m = Some x → complete x) → complete y → ∀ m' x, <[m := y]> M !! m' = Some x → complete x.
Proof.
  intros HM Hy m' x. destruct (decide (m' = m)) as [->|Hne]; [rewrite lookup_insert_eq; by intros [= <-]|].
  rewrite lookup_insert_ne by done. apply HM.
Qed.
Lemma balanced_allocs h n off : balanced h off → balanced (mk_pl (pl_scopes h) (pl_accounts h) (pl_owners h) (pl_limits h) (pl_members h) n) off.
Proof. intros []. by split. Qed.

Lemma identity_process malloc h w m x identity :
  process_ok h → pl_members h !! m = Some x →
  ∃ h' r, md_process_member_identity malloc h w (Some m) identity = Some (h', r) ∧ process_ok h'
    ∧ size (pl_members h') = size (pl_members h).
Proof.
  intros [Hb Hc] Hx. destruct (Hc m x Hx) as ([o Ho] & Hl & Ha).
  destruct (identity_ok malloc h w m x o identity Hb Hx Ho) as (h' & r & Hrun & Hb' & _ & Hcase). exists h', r.
  destruct Hcase as [[_ Hm]|[_ (a & c & Hm)]]; (split; [done|]); (split; [split; [done|]|]); rewrite Hm; try done.
  - apply complete_insert; [done|]. split_and!; cbn; try done; by eexists.
  - by rewrite map_size_insert_Some by (by rewrite Hx).
Qed.
(** After joining, the charge of the parent's account completes a fork. *)
Lemma fork_charge h m x0 a l :
  balanced h (λ _, 0) → pl_members h !! m = Some x0 → pm_account x0 = None → lineage (pl_accounts h) (Some a) l →
  (∃ o, pm_owner x0 = Some o ∧ owns (pl_owners h) o a) →
  ∃ A', charge h (Some a) 1 = Some (with_accounts h A')
    ∧ balanced (with_members (with_accounts h A') (alter (set_account (Some a) false) m (pl_members h))) (λ _, 0).
Proof.
  intros Hb Hx Hnone Hl Hown. destruct (charge_up h (Some a) l Hb Hl) as (A' & HA & HB & Hb').
  exists A'. split; [done|]. rewrite (alter_insert_eq' _ _ _ _ Hx).
  eapply balanced_ext; [|eapply (balanced_move (with_accounts h A') _ m x0 (set_account (Some a) false x0)); [exact Hb'|done|..]]; try done.
  - intros b. cbn beta. unfold charging. cbn [set_account pm_account with_accounts pl_accounts]. rewrite Hnone, charges_none.
    rewrite (charges_lineage _ _ l) by (eapply lineage_kept; [by eapply bumped_kept|done]).
    rewrite (bool_decide_false (b ∈ [])) by apply not_elem_of_nil. case_decide; case_bool_decide; done.
  - destruct (ba_members _ _ Hb m x0 Hx) as [? ? ? ?]. split; try done. by intros b [= <-].
Qed.
(** The end of a fork: the new member [m], joined to its parent's owner, is charged
    or, without limits, released again. *)
Lemma fork_joined h m o xl a la n O' L' :
  process_ok h → pl_members h !! m = None → lineage (pl_accounts h) (Some a) la → owns O' o a →
  let h' := mk_pl (pl_scopes h) (pl_accounts h) O' L' (<[m := mk_member 1 (Some o) None xl false]> (pl_members h)) n in
  balanced h' (λ _, 0) →
  ∃ h2 r out, match xl with
    | None => h3 ← md_process_member_release h' (Some m); Some (h3, - ENOMEM, None)
    | Some _ => h3 ← charge h' (Some a) 1;
        Some (with_members h3 (alter (set_account (Some a) false) m (pl_members h3)), 0, Some m)
    end = Some (h2, r, out) ∧ process_ok h2 ∧ (size (pl_members h2) ≤ S (size (pl_members h)))%nat.
Proof.
  intros [Hb Hc] Hm Hla Hown h' Hb'. set (x := mk_member 1 (Some o) None xl false) in *.
  assert (pl_members h' !! m = Some x) as Hx by apply lookup_insert_eq. destruct xl as [l|].
  - destruct (fork_charge h' m x a la Hb' Hx) as (A' & -> & Hb2); [done|done|by exists o|]. cbn [mbind option_bind].
    eexists _, _, _. split; [done|]. cbn [pl_members with_members with_accounts]. rewrite (alter_insert_eq' _ _ _ _ Hx) in Hb2 |- *.
    subst h'. cbn [pl_members] in *. rewrite insert_insert_eq in Hb2 |- *.
    split; [split; [done|]|cbn; by rewrite map_size_insert_None].
    apply complete_insert; [done|by split_and!; eexists].
  - destruct (release_last h' m x Hb' Hx eq_refl) as (h2 & -> & Hb2 & Hm2). eexists _, _, _. split; [done|].
    assert (pl_members h2 = pl_members h) as E by (rewrite Hm2; by apply delete_insert_id).
    split; [split; [done|by rewrite E]|]. rewrite E. lia.
Qed.
Lemma fork_process malloc h cred p x identity flags :
  process_ok h → pl_members h !! p = Some x → Z.of_nat (size (pl_members h)) < UINT32_MAX →
  ∃ h' r out, md_process_member_fork malloc h cred (Some p) identity flags = Some (h', r, out) ∧ process_ok h'
    ∧ (size (pl_members h') ≤ S (size (pl_members h)))%nat.
Proof.
  intros Hok Hx Hs. pose proof Hok as [Hb Hc]. pose proof (Hc p x Hx) as ([o Ho] & [l Hl] & [a Ha]).
  unfold md_process_member_fork. rewrite Hx. cbn [mbind option_bind].
  destruct (_ && _); [exists h, (- EAGAIN), None; split_and!; [done|done|lia]|].
  destruct (malloc (pl_allocs h)); cbn [negb].
  2: { eexists _, _, _. split; [done|]. split; [split; [by apply balanced_allocs|done]|cbn; lia]. }
  rewrite Ho, Ha. cbn [mbind option_bind]. set (m := fresh (dom (pl_members h))).
  assert (pl_members h !! m = None) as Hm by (apply not_elem_of_dom, is_fresh).
  destruct (ba_members _ _ Hb p x Hx) as [_ Hmo Hml Hma]. destruct (Hmo o Ho) as [ox Hox]. destruct (Hml l Hl) as [lx Hlx].
  destruct (Hma a Ha) as (o' & Eo & Hown). rewrite Ho in Eo. injection Eo as <-.
  destruct (owners_joined h o ox Hb Hox Hs) as (G1 & G2 & G3 & G4).
  destruct (gr_lineage _ _ _ (ba_graph _ _ Hb) a) as [la Hla]; [apply (gr_owned _ _ _ (ba_graph _ _ Hb)); by exists o|].
  cbn [allocated with_owners pl_allocs pl_limits pl_owners pl_members].
  destruct (has_bits flags CLONE_THREAD); [rewrite Hl|destruct (malloc (S (pl_allocs h)))].
  - eapply (fork_joined h m o (Some l) a la _ _ _); [done|done|done|by apply G2|]. apply balanced_add; try done; [|by eapply limits_shared].
    intros l'. rewrite (alter_insert_eq' _ _ _ _ Hlx). etrans; [apply lookup_insert_is_Some'|naive_solver].
  - eapply (fork_joined h m o (Some (fresh (dom (pl_limits h)))) a la _ _ _); [done|done|done|by apply G2|]. apply balanced_add; try done.
    + intros l'. etrans; [apply lookup_insert_is_Some'|naive_solver].
    + apply limits_added; [done|]. apply not_elem_of_dom, is_fresh.
  - eapply (fork_joined h m o None a la _ _ _); [done|done|done|by apply G2|]. apply balanced_add; try done; [naive_solver|].
    intros l' y Hy. rewrite (ba_limits _ _ Hb _ _ Hy), decide_False by done. lia.
Qed.
(** A new member that does not get its owner, limits or account goes again. *)
Lemma new_released h0 h m x n :
  balanced h (λ _, 0) → (∀ m x, pl_members h0 !! m = Some x → complete x) → pl_members h0 !! m = None →
  pl_members h = <[m := x]> (pl_members h0) → pm_references x = 1 →
  ∃ h2 out, (h3 ← md_process_member_release h (Some m); Some (h3, None : option loc)) = Some (h2, out) ∧ process_ok h2
    ∧ (size (pl_members h2) ≤ n + size (pl_members h0))%nat.
Proof.
  intros Hb Hc Hm HM Hr. destruct (release_last h m x Hb) as (h2 & -> & Hb2 & Hm2); [rewrite HM; apply lookup_insert_eq|done|].
  eexists _, (None : option loc). split; [done|].
  assert (pl_members h2 = pl_members h0) as E by (rewrite Hm2, HM; by apply delete_insert_id).
  split; [split; [done|by rewrite E]|]. rewrite E. lia.
Qed.
Lemma new_process malloc h w identity limit :
  process_ok h → Z.of_nat (size (pl_members h)) < UINT32_MAX →
  ∃ h' out, md_process_member_new malloc h w identity limit = Some (h', out) ∧ process_ok h'
    ∧ (size (pl_members h') ≤ 1 + size (pl_members h))%nat.
Proof.
  intros [Hb Hc] Hs. unfold md_process_member_new. destruct (malloc (pl_allocs h)); cbn [negb].
  2: { eexists _, _. split; [done|]. split; [split; [by apply balanced_allocs|done]|cbn; lia]. }
  set (m := fresh (dom (pl_members h))). assert (pl_members h !! m = None) as Hm by (apply not_elem_of_dom, is_fresh).
  set (o := fresh (dom (pl_owners h))). assert (pl_owners h !! o = None) as Ho by (apply not_elem_of_dom, is_fresh).
  set (l := fresh (dom (pl_limits h))). assert (pl_limits h !! l = None) as Hl by (apply not_elem_of_dom, is_fresh).
  destruct (owners_added h o Hb Ho) as (G1 & G2 & G3 & G4).
  set (L := λ b : bool, if b then <[l := mk_limit_record 1 limit (rlim_max (pl_nofile limit))]> (pl_limits h) else pl_limits h).
  assert (∀ (b : bool) l', is_Some (L b !! l') ↔ is_Some (pl_limits h !! l') ∨ (if b then Some l else None) = Some l') as L1.
  { intros [] l'; cbn; [rewrite lookup_insert_is_Some'|]; naive_solver. }
  assert (∀ (b : bool) l' y, L b !! l' = Some y →
    li_references y = Z.of_nat (count_if (in_limits l') (pl_members h)) + if decide ((if b then Some l else None) = Some l') then 1 else 0) as L2.
  { intros [] l' y Hy; [by eapply limits_added|]. rewrite (ba_limits _ _ Hb _ _ Hy), decide_False by done. lia. }
  set (O' := <[o := _]> (pl_owners h)) in *.
  cbn [allocated with_owners pl_allocs pl_limits pl_owners pl_members].
  assert (∀ n (b : bool), balanced (mk_pl (pl_scopes h) (pl_accounts h) (pl_owners h) (L b)
    (<[m := mk_member 1 None None (if b then Some l else None) false]> (pl_members h)) n) (λ _, 0)) as B1.
  { intros n b. apply (balanced_add h n m None _ (pl_owners h) _ Hb Hm Hs (ba_graph _ _ Hb)); [done|naive_solver|apply L1| |apply L2].
    intros o' y Hy. rewrite (ba_owners _ _ Hb _ _ Hy), decide_False by done. lia. }
  assert (∀ n (b : bool), balanced (mk_pl (pl_scopes h) (pl_accounts h) O' (L b)
    (<[m := mk_member 1 (Some o) None (if b then Some l else None) false]> (pl_members h)) n) (λ _, 0)) as B2.
  { intros n b. exact (balanced_add h n m (Some o) _ O' (L b) Hb Hm Hs G1 G2 G3 (L1 b) G4 (L2 b)). }
  destruct (malloc (S (pl_allocs h))); cbn [pl_allocs allocated with_owners];
    destruct (malloc (S (S (pl_allocs h)))); cbn [negb orb].
  2: by eapply new_released; [apply (B2 _ false)|..].
  2: by eapply new_released; [apply (B1 _ true)|..].
  2: by eapply new_released; [apply (B1 _ false)|..].
  set (x := mk_member 1 (Some o) None (Some l) false). set (h1 := with_members _ _).
  assert (pl_members h1 = <[m := x]> (pl_members h)) as E1 by done.
  destruct (identity_ok malloc h1 w m x o identity (B2 _ true)) as (h2 & r & -> & Hb2 & _ & [[-> Hm2]|[-> (a & c & Hm2)]]);
    [rewrite E1; apply lookup_insert_eq|done|..]; cbn [mbind option_bind].
  - rewrite E1 in Hm2. by eapply new_released.
  - rewrite E1, insert_insert_eq in Hm2. eexists _, _. split; [done|]. rewrite Hm2, map_size_insert_None by done.
    split; [split; [done|]|done]. rewrite Hm2. apply complete_insert; [done|by split_and!; eexists].
Qed.
(** A member whose charge stays where it is. *)
Lemma changed_process h m x y :
  process_ok h → pl_members h !! m = Some x → pm_owner y = pm_owner x → pm_limits y = pm_limits x → pm_account y = pm_account x →
  1 ≤ pm_references y ≤ UINT32_MAX → process_ok (with_members h (<[m := y]> (pl_members h))).
Proof.
  intros [Hb Hc] Hx Eo El Ea Hr. destruct (ba_members _ _ Hb m x Hx) as [? ? ? ?]. split.
  - eapply balanced_ext; [|eapply (balanced_move h _ m x y); try done].
    + intros a. cbn beta. unfold charging. rewrite Ea. lia.
    + split; [done|by rewrite Eo|by rewrite El|]. intros a. rewrite Ea, Eo. auto.
  - apply complete_insert; [done|]. unfold complete. rewrite Eo, El, Ea. by eapply Hc.
Qed.
(** A limit record whose value changes. *)
Lemma limited_process h l f :
  process_ok h → (∀ r, li_references (f r) = li_references r) → process_ok (with_limits h (alter f l (pl_limits h))).
Proof.
  intros [[Hg Hm Hc Ho Hl Hs Hu] Hcm] Hf. split; [|done]. split; try done; cbn.
  - intros m x Hx. destruct (Hm m x Hx) as [? ? Hk ?]. split; try done. intros l' Hl'. apply lookup_alter_is_Some. auto.
  - intros l' y. destruct (decide (l' = l)) as [->|Hne]; [|rewrite lookup_alter_ne by done; apply Hl].
    rewrite lookup_alter_eq. intros (z & Hz & ->)%fmap_Some. rewrite Hf. by apply Hl.
  - split; [apply Hu|]. intros l' y. destruct (decide (l' = l)) as [->|Hne]; [|rewrite lookup_alter_ne by done; apply Hu].
    rewrite lookup_alter_eq. intros (z & Hz & ->)%fmap_Some. rewrite Hf. by eapply Hu.
Qed.
Lemma release_process h m x :
  process_ok h → pl_members h !! m = Some x →
  ∃ h', md_process_member_release h (Some m) = Some h' ∧ process_ok h' ∧ (size (pl_members h') ≤ size (pl_members h))%nat.
Proof.
  intros Hok Hx. pose proof Hok as [Hb Hc]. destruct (member_release_ok h m x Hb Hx) as (h' & Hr & Hb' & Hm). exists h'. split; [done|].
  case_decide; rewrite Hm.
  - split; [|rewrite map_size_delete_Some by (by eexists); lia]. split; [done|]. rewrite Hm.
    intros m' y Hy%lookup_delete_Some. by eapply Hc, Hy.
  - split; [|by rewrite map_size_insert_Some by (by eexists)]. split; [done|]. rewrite Hm. apply complete_insert; [done|].
    by destruct (Hc m x Hx).
Qed.
Lemma limit_process h cred native prlimit m x actor target g resource next :
  process_ok h → pl_members h !! m = Some x →
  ∃ h' r out, md_process_limit h cred native prlimit (Some m) actor target g resource next = Some (h', r, out) ∧ process_ok h'
    ∧ pl_members h' = pl_members h.
Proof.
  intros Hok Hx. destruct (po_complete _ Hok m x Hx) as (_ & [l Hl] & _). unfold md_process_limit. rewrite Hx. cbn [mbind option_bind].
  rewrite Hl. cbn [mbind option_bind].
  repeat first [ by eexists _, _, _ | case_match ]; eexists _, _, _; (split; [done|]); (split; [|done]); by apply limited_process.
Qed.

(** ** Runs *)

(** One call, on a member or on the null pointer. *)
Inductive process_call :=
  | c_new (w : world) (identity : md_identity) (limit : md_process_limits)
  | c_fork (cred : cred_heap) (parent : option loc) (identity : md_identity) (flags : Z)
  | c_identity (w : world) (m : option loc) (identity : md_identity)
  | c_retain (m : option loc)
  | c_release (m : option loc)
  | c_forked (m : option loc)
  | c_exec (m : option loc)
  | c_limit (cred : cred_heap) (native : rlimit + Z) (prlimit : rlimit → Z) (m : option loc) (actor target : md_identity)
      (same_group : bool) (resource : Z) (next : option rlimit).
Definition process_step (malloc : nat → bool) (h : pl_heap) (c : process_call) : option pl_heap :=
  match c with
  | c_new w identity limit => fst <$> md_process_member_new malloc h w identity limit
  | c_fork cred parent identity flags => (λ r, fst (fst r)) <$> md_process_member_fork malloc h cred parent identity flags
  | c_identity w m identity => fst <$> md_process_member_identity malloc h w m identity
  | c_retain m => Some (md_process_member_retain h m)
  | c_release m => md_process_member_release h m
  | c_forked m => Some (md_process_member_forked h m)
  | c_exec m => fst <$> md_process_member_exec h m
  | c_limit cred native prlimit m actor target g resource next =>
      (λ r, fst (fst r)) <$> md_process_limit h cred native prlimit m actor target g resource next
  end.
(** The member of a call is live, and neither the members nor the references to
    one outgrow their 32-bit counters. *)
Definition live (h : pl_heap) (m : option loc) : Prop := match m with None => True | Some m => is_Some (pl_members h !! m) end.
Definition room (h : pl_heap) : Prop := Z.of_nat (size (pl_members h)) < UINT32_MAX.
Definition permitted (h : pl_heap) (c : process_call) : Prop :=
  match c with
  | c_new _ _ _ => room h
  | c_fork _ m _ _ => live h m ∧ room h
  | c_retain m => match m with None => True | Some m => ∃ x, pl_members h !! m = Some x ∧ pm_references x < UINT32_MAX end
  | c_identity _ m _ | c_release m | c_forked m | c_exec m | c_limit _ _ _ m _ _ _ _ _ => live h m
  end.
Definition empty_heap : pl_heap := mk_pl ∅ ∅ ∅ ∅ ∅ 0.
Inductive reached (malloc : nat → bool) : pl_heap → Prop :=
  | reached_empty : reached malloc empty_heap
  | reached_call h c h' : reached malloc h → permitted h c → process_step malloc h c = Some h' → reached malloc h'.

Lemma empty_process : process_ok empty_heap.
Proof.
  split; [|done]. split; try done. split; try done; cbn.
  - intros a [? Ha]. done.
  - intros a. split; [by intros []|]. by intros (o & x & ? & _).
  - by intros o o' a (x & ? & _).
  - intros s. split; [by intros []|]. by intros (o & x & ? & _).
  - by intros o o' s (x & ? & _).
Qed.
Lemma step_process malloc h c :
  process_ok h → permitted h c → ∃ h', process_step malloc h c = Some h' ∧ process_ok h'.
Proof.
  intros Hok Hp. destruct c as [w identity limit|cred m identity flags|w m identity|m|m|m|m|cred native prlimit m actor target g resource next]; cbn [process_step permitted live] in *.
  1: { destruct (new_process malloc h w identity limit Hok Hp) as (h' & out & -> & Hok' & _). by exists h'. }
  1: destruct Hp as [Hp Hr].
  all: destruct m as [m|]; [destruct Hp as [x Hx]|by exists h].
  - destruct (fork_process malloc h cred m x identity flags Hok Hx Hr) as (h' & r & out & H & Hok' & _). exists h'. by rewrite H.
  - destruct (identity_process malloc h w m x identity Hok Hx) as (h' & r & H & Hok' & _). exists h'. by rewrite H.
  - destruct Hx as [Hx Hr]. eexists. split; [done|]. cbn [md_process_member_retain md_process_member_forked fst]. rewrite (alter_insert_eq' _ _ _ _ Hx). eapply changed_process; try done.
    pose proof (mo_references _ _ _ (ba_members _ _ (po_balanced _ Hok) m x Hx)). cbn. rewrite wrap32_small by lia. lia.
  - destruct (release_process h m x Hok Hx) as (h' & H & Hok' & _). by exists h'.
  - eexists. split; [done|]. cbn [md_process_member_retain md_process_member_forked fst]. rewrite (alter_insert_eq' _ _ _ _ Hx). eapply changed_process; try done.
    by apply (mo_references _ _ _ (ba_members _ _ (po_balanced _ Hok) m x Hx)).
  - cbn. rewrite Hx. cbn. repeat case_match; try by eexists. eexists. split; [done|]. cbn [md_process_member_retain md_process_member_forked fst]. rewrite (alter_insert_eq' _ _ _ _ Hx). eapply changed_process; try done.
    by apply (mo_references _ _ _ (ba_members _ _ (po_balanced _ Hok) m x Hx)).
  - destruct (limit_process h cred native prlimit m x actor target g resource next Hok Hx) as (h' & r & out & H & Hok' & _).
    exists h'. by rewrite H.
Qed.
Lemma reached_process malloc h : reached malloc h → process_ok h.
Proof.
  induction 1 as [|h c h' _ IH Hp Hs]; [apply empty_process|]. destruct (step_process malloc h c IH Hp) as (h2 & E & Hok). congruence.
Qed.
(** Without members, nothing is left. *)
Lemma nothing_left h : process_ok h → pl_members h = ∅ → pl_scopes h = ∅ ∧ pl_accounts h = ∅ ∧ pl_owners h = ∅ ∧ pl_limits h = ∅.
Proof.
  intros [[Hg Hm Hc Ho Hl Hs [Hu1 Hu2]] _] HM. rewrite HM in *.
  assert (∀ P, count_if P ∅ = 0%nat) as H0 by (intros P; by apply count_none).
  assert (pl_owners h = ∅) as HO.
  { apply map_empty. intros o. destruct (pl_owners h !! o) as [x|] eqn:Hx; [|done]. pose proof (Hu1 o x Hx). rewrite (Ho o x Hx), H0 in *. lia. }
  destruct Hg as [_ Hown _ _ _ Hheld _ _]. rewrite HO in *. split_and!; [| |done|].
  - apply map_empty. intros s. apply eq_None_not_Some. rewrite Hheld. by intros (o & x & ? & _).
  - apply map_empty. intros a. apply eq_None_not_Some. rewrite Hown. by intros (o & x & ? & _).
  - apply map_empty. intros l. destruct (pl_limits h !! l) as [x|] eqn:Hx; [|done]. pose proof (Hu2 l x Hx). rewrite (Hl l x Hx), H0 in *. lia.
Qed.

(** C5: Whatever sequence of calls on live members leads to a heap, and whichever
    allocations failed on the way, no assertion fails in the next call: no account
    is ever discharged below zero and no owner goes while it is charged.  Every
    account counts exactly the members whose account is at or below it, every owner
    and limit record counts exactly its members, and once the last member is gone
    no record of any kind is left. *)
Theorem process_accounts_exact malloc h :
  reached malloc h →
  (∀ c, permitted h c → is_Some (process_step malloc h c))
  ∧ (∀ a y, pl_accounts h !! a = Some y → ac_count y = Z.of_nat (count_if (λ x, bool_decide (a ∈ charges (pl_accounts h) (pm_account x))) (pl_members h)))
  ∧ (∀ o y, pl_owners h !! o = Some y → ow_members y = Z.of_nat (count_if (λ x, bool_decide (pm_owner x = Some o)) (pl_members h)))
  ∧ (∀ l y, pl_limits h !! l = Some y → li_references y = Z.of_nat (count_if (λ x, bool_decide (pm_limits x = Some l)) (pl_members h)))
  ∧ (pl_members h = ∅ → pl_scopes h = ∅ ∧ pl_accounts h = ∅ ∧ pl_owners h = ∅ ∧ pl_limits h = ∅).
Proof.
  intros Hok%reached_process. pose proof (po_balanced _ Hok) as Hb. split_and!.
  - intros c Hc. destruct (step_process malloc h c Hok Hc) as (h' & -> & _). by eexists.
  - intros a y Hy. rewrite (ba_charges _ _ Hb a y Hy). apply Z.add_0_r.
  - apply (ba_owners _ _ Hb).
  - apply (ba_limits _ _ Hb).
  - by apply nothing_left.
Qed.

(** ** Staying within the limits *)

(** Each account on the way up leaves room for [adding] more: the first below
    [limit], every other one below the ceiling of the scope of the one before. *)
Inductive within (h : pl_heap) (adding : Z) : option loc → Z → Prop :=
  | within_top limit : within h adding None limit
  | within_account l x limit : pl_accounts h !! l = Some x → ac_count x + adding ≤ limit →
      within h adding (ac_parent x) (ceiling_of h x) → within h adding (Some l) limit.
Lemma overlimit_within h a l limit adding :
  lineage (pl_accounts h) a l → 0 ≤ adding → overlimit h a limit adding = false ↔ within h adding a limit.
Proof.
  intros Hl Hadd. unfold overlimit. pose proof (lineage_size _ _ _ Hl) as Hs. revert Hs. generalize (size (pl_accounts h)) as fuel.
  revert a limit Hl. induction l as [|x l IH]; intros a limit Hl fuel Hf.
  - cbn in Hl. subst. split; [constructor|by destruct fuel].
  - destruct Hl as [-> (y & Hy & Hl)], fuel as [|fuel]; [cbn in Hf; lia|]. cbn. rewrite Hy. cbn in Hf.
    specialize (IH (ac_parent y) (ceiling_of h y) Hl fuel ltac:(lia)).
    destruct ((limit <? ac_count y) || (limit - ac_count y <? adding)) eqn:E.
    + split; [done|]. inversion 1; simplify_eq. apply orb_true_iff in E as [E%Z.ltb_lt|E%Z.ltb_lt]; lia.
    + apply orb_false_iff in E as [E1%Z.ltb_ge E2%Z.ltb_ge]. rewrite IH. split; [|by inversion 1; simplify_eq].
      intros Hw. econstructor; [done|lia|done].
Qed.
(** Charging one to each account takes the room that was checked. *)
Lemma within_charged h h' A' a l l' limit :
  lineage (pl_accounts h) a l → (∀ x, x ∈ l → x ∈ l') → bumped (pl_accounts h) A' l' 1 → pl_accounts h' = A' → pl_scopes h' = pl_scopes h →
  (∀ x y, pl_accounts h !! x = Some y → 0 ≤ ac_count y < UINT64_MAX) → within h 1 a limit → within h' 0 a limit.
Proof.
  intros Hl Hin HB HA HS Hc Hw. revert l Hl Hin. induction Hw as [limit|x y limit Hy Hroom Hw IH]; intros l Hl Hin; [constructor|].
  destruct l as [|z l]; [done|]. destruct Hl as [[= <-] (y' & Hy' & Hl)]. simplify_eq. specialize (Hc x y Hy).
  apply (within_account _ _ x (add_charge 1 y)).
  - rewrite HB, decide_True by (apply Hin; by left). by rewrite Hy.
  - cbn. unfold wrap64. rewrite Z.mod_small by (unfold UINT64_MAX in Hc; lia). lia.
  - unfold ceiling_of. cbn. rewrite HS. eapply IH; [done|]. intros z Hz. apply Hin. by right.
Qed.
Definition over (h : pl_heap) (cred : cred_heap) (x : md_process_member) (identity : md_identity) : bool :=
  overlimit h (pm_account x) (nproc_of h x) 1 && negb (id_real (i_uid identity) =? 0)
  && negb (md_identity_capable_in cred identity None CAP_SYS_RESOURCE) && negb (md_identity_capable_in cred identity None CAP_SYS_ADMIN).
Lemma fork_outcome malloc h cred p x identity flags h' r out :
  pl_members h !! p = Some x → md_process_member_fork malloc h cred (Some p) identity flags = Some (h', r, out) →
  (over h cred x identity = true ∧ h' = h ∧ r = - EAGAIN ∧ out = None)
  ∨ (over h cred x identity = false ∧ r = - ENOMEM ∧ out = None)
  ∨ (over h cred x identity = false ∧ r = 0 ∧ ∃ m h1 h2 y, out = Some m ∧ pl_members h !! m = None
     ∧ pl_accounts h1 = pl_accounts h ∧ pl_scopes h1 = pl_scopes h ∧ pl_members h1 = <[m := y]> (pl_members h)
     ∧ charge h1 (pm_account x) 1 = Some h2
     ∧ h' = with_members h2 (alter (set_account (pm_account x) false) m (pl_members h2))).
Proof.
  intros Hx. unfold md_process_member_fork. rewrite Hx. cbn [mbind option_bind]. fold (over h cred x identity).
  destruct (over h cred x identity); [intros [= <- <- <-]; by left|]. intros Hrun. right. revert Hrun.
  destruct (malloc (pl_allocs h)); cbn [negb]; [|intros [= <- <- <-]; by left].
  assert (pl_members h !! fresh (dom (pl_members h)) = None) as Hm by (apply not_elem_of_dom, is_fresh).
  destruct (pm_owner x) as [o|]; cbn [mbind option_bind]; [|done]. cbn [allocated with_owners pl_allocs pl_limits pl_owners pl_members].
  assert (∀ h1 limit, pl_accounts h1 = pl_accounts h → pl_scopes h1 = pl_scopes h → pl_members h1 = pl_members h →
    let m := fresh (dom (pl_members h)) in let h2 := with_members h1 (<[m := mk_member 1 (Some o) None limit false]> (pl_members h1)) in
    charge h2 (pm_account x) 1 ≫= (λ h3, Some (with_members h3 (alter (set_account (pm_account x) false) m (pl_members h3)), 0, Some m))
      = Some (h', r, out) → r = 0 ∧ ∃ m h1 h2 y, out = Some m ∧ pl_members h !! m = None
     ∧ pl_accounts h1 = pl_accounts h ∧ pl_scopes h1 = pl_scopes h ∧ pl_members h1 = <[m := y]> (pl_members h)
     ∧ charge h1 (pm_account x) 1 = Some h2
     ∧ h' = with_members h2 (alter (set_account (pm_account x) false) m (pl_members h2))) as Hend.
  { intros h1 limit Ea Es Em m h2. destruct (charge h2 _ 1) as [h3|] eqn:Hc; cbn [mbind option_bind]; [|done]. intros [= <- <- <-].
    split; [done|]. eexists m, h2, h3, _. split_and!; try done. cbn. by rewrite Em. }
  destruct (has_bits flags CLONE_THREAD); [destruct (pm_limits x) as [l|]|destruct (malloc (S (pl_allocs h)))].
  1,3: intros H; right; (split; [done|]); by eapply Hend in H.
  all: destruct (md_process_member_release _ _); cbn [mbind option_bind]; [|done]; intros [= <- <- <-]; by left.
Qed.

(** C31: A fork by a caller that is not root and holds neither CAP_SYS_RESOURCE nor
    CAP_SYS_ADMIN fails with EAGAIN, changing nothing, exactly when the account of
    the parent or one above it has no room for another process below its limit:
    the soft RLIMIT_NPROC for the first, the ceiling of the namespace below for the
    others.  When it succeeds, a new member is charged to the parent's account, and
    afterwards every account on the way up is still within its limit. *)
Theorem fork_within_limits malloc h cred p x identity flags h' r out :
  reached malloc h → pl_members h !! p = Some x →
  id_real (i_uid identity) ≠ 0 → md_identity_capable_in cred identity None CAP_SYS_RESOURCE = false →
  md_identity_capable_in cred identity None CAP_SYS_ADMIN = false →
  md_process_member_fork malloc h cred (Some p) identity flags = Some (h', r, out) →
  (r = - EAGAIN ↔ ¬ within h 1 (pm_account x) (nproc_of h x))
  ∧ (r = - EAGAIN → h' = h ∧ out = None)
  ∧ (r = 0 → within h' 0 (pm_account x) (nproc_of h x)
      ∧ ∃ m y, out = Some m ∧ pl_members h !! m = None ∧ pl_members h' !! m = Some y ∧ pm_account y = pm_account x).
Proof.
  intros Hok%reached_process Hx Hu Hc1 Hc2 Hrun. pose proof (po_balanced _ Hok) as Hb.
  destruct (account_lineage h x (ba_graph _ _ Hb) (ba_members _ _ Hb _ _ Hx)) as [l Hl].
  assert (over h cred x identity = overlimit h (pm_account x) (nproc_of h x) 1) as Eo.
  { unfold over. rewrite Hc1, Hc2, (proj2 (Z.eqb_neq _ _) Hu). cbn. by rewrite !andb_true_r. }
  pose proof (overlimit_within h (pm_account x) l (nproc_of h x) 1 Hl ltac:(done)) as Hw. rewrite <- Eo in Hw.
  apply (fork_outcome _ _ _ _ _ _ _ _ _ _ Hx) in Hrun as [(Hov & -> & -> & ->)|[(Hov & -> & ->)|(Hov & -> & m & h1 & h2 & y & -> & Hm & Ea & Es & Em & Hch & ->)]].
  - rewrite Hov in Hw. split_and!; [|done|done]. split; [|done]. intros _ H. apply Hw in H. done.
  - apply Hw in Hov. split_and!; [|done|done]. split; [done|]. intros H. by destruct H.
  - apply Hw in Hov. split_and!; [|done|]; [split; [done|]; intros H; by destruct H|]. intros _. rewrite <- Ea in Hl.
    destruct (charge_ok h1 (pm_account x) l 1 Hl) as (A' & E & HB); [by left|]. rewrite E in Hch. injection Hch as <-. rewrite Ea in Hl, HB. split.
    + eapply (within_charged h _ A' _ l l); try done. intros z w Hz. pose proof (count_bound _ _ _ _ Hb Hz) as Hcb. cbn in Hcb.
      rewrite (ba_charges _ _ Hb z w Hz) in *. unfold UINT32_MAX, UINT64_MAX in *. lia.
    + eexists m, _. split_and!; [done|done| |]; cbn; [rewrite Em, lookup_alter_eq, lookup_insert_eq; done|done].
Qed.

(** Soft limits below the hard ones. *)
Definition ordered (v : md_process_limits) : Prop :=
  rlim_cur (pl_nproc v) ≤ rlim_max (pl_nproc v) ∧ rlim_cur (pl_nofile v) ≤ rlim_max (pl_nofile v).
(** Setting a limit never raises a hard limit of any limit record unless the
    caller holds CAP_SYS_RESOURCE in the initial namespace.  It keeps every
    record's soft limits at or below its hard ones and leaves the native ceiling
    on descriptors alone. *)
Theorem limit_unprivileged h cred native prlimit m actor target g resource next h' r out :
  md_process_limit h cred native prlimit (Some m) actor target g resource next = Some (h', r, out) →
  ∀ l y', pl_limits h' !! l = Some y' → ∃ y, pl_limits h !! l = Some y
    ∧ li_native_nofile_max y' = li_native_nofile_max y ∧ (ordered (li_value y) → ordered (li_value y'))
    ∧ (md_identity_capable_in cred actor None CAP_SYS_RESOURCE = false →
        rlim_max (pl_nproc (li_value y')) ≤ rlim_max (pl_nproc (li_value y))
        ∧ rlim_max (pl_nofile (li_value y')) ≤ rlim_max (pl_nofile (li_value y))).
Proof.
  unfold md_process_limit. destruct (pl_members h !! m) as [x|]; cbn [mbind option_bind]; [|done].
  destruct (pm_limits x) as [l0|] eqn:El; cbn [mbind option_bind]; [|done]. intros Hrun l y' Hy'.
  assert (pl_limits h' = pl_limits h ∨ ∃ v n, next = Some n ∧ rlim_cur n ≤ rlim_max n ∧ resource_value (li_value (limits_at h x)) resource = Some v
    ∧ (md_identity_capable_in cred actor None CAP_SYS_RESOURCE = false → rlim_max n ≤ rlim_max v)
    ∧ pl_limits h' = alter (λ r, mk_limit_record (li_references r) (set_resource (li_value (limits_at h x)) resource n) (li_native_nofile_max r)) l0 (pl_limits h))
    as [E|(v & n & -> & Hn & Hv & Hcap & E)].
  { revert Hrun. destruct (_ || _); [intros [= <- _ _]; by left|]. destruct next as [n|]; [|repeat case_match; intros [= <- _ _]; by left].
    destruct (rlim_max n <? rlim_cur n) eqn:En; [intros [= <- _ _]; by left|]. destruct (_ && negb (same_ids _ _)); [intros [= <- _ _]; by left|].
    destruct (resource_value _ resource) as [v|] eqn:Ev; [|case_match; intros [= <- _ _]; by left]. destruct (_ && _); [intros [= <- _ _]; by left|].
    destruct ((rlim_max v <? rlim_max n) && _) eqn:Ec; [intros [= <- _ _]; by left|]. destruct (negb (_ =? 0)); intros [= <- _ _]; [by left|right].
    exists v, n. split_and!; [done|by apply Z.ltb_ge|done| |done]. intros Hc. rewrite Hc in Ec. cbn in Ec. rewrite andb_true_r in Ec. by apply Z.ltb_ge. }
  - rewrite E in Hy'. exists y'. auto with lia.
  - rewrite E in Hy'. destruct (decide (l = l0)) as [->|Hne]; [|rewrite lookup_alter_ne in Hy' by done; exists y'; auto with lia].
    rewrite lookup_alter_eq in Hy'. apply fmap_Some in Hy' as (y & Hy & ->). exists y. split; [done|].
    assert (limits_at h x = y) as Ey by (unfold limits_at; rewrite El; cbn; by rewrite Hy). rewrite Ey in Hv |- *. cbn.
    unfold resource_value in Hv. unfold set_resource, ordered. repeat case_match; simplify_eq; cbn; auto with lia.
Qed.

(** ** Witnesses *)

Definition demo_identity : md_identity := set_namespace (md_identity_new 1000 1000) (Some 1%positive).
Definition demo_limits : md_process_limits := mk_limits (mk_rlimit 2 8) (mk_rlimit 1024 4096).
Definition demo_first : pl_heap := default empty_heap (process_step (λ _, true) empty_heap (c_new demo_world demo_identity demo_limits)).
Definition demo_second : pl_heap :=
  default empty_heap (process_step (λ _, true) demo_first (c_fork demo_heap (Some 1%positive) demo_identity 0)).
Lemma demo_first_reached : reached (λ _, true) demo_first.
Proof. eapply (reached_call _ _ (c_new demo_world demo_identity demo_limits)); [constructor|vm_compute; reflexivity|vm_compute; reflexivity]. Qed.
Lemma demo_second_reached : reached (λ _, true) demo_second.
Proof.
  eapply (reached_call _ _ (c_fork demo_heap (Some 1%positive) demo_identity 0)); [apply demo_first_reached| |vm_compute; reflexivity].
  split; vm_compute; [by eexists|reflexivity].
Qed.
(** Two members charge the account of user 1000 in the namespace and that of its
    creator above. *)
Lemma process_accounts_exact_witness :
  map_to_list (ac_count <$> pl_accounts demo_second) = [(2%positive, 2); (1%positive, 2)]
  ∧ is_Some (process_step (λ _, true) demo_second (c_release (Some 2%positive))).
Proof.
  split; [vm_compute; reflexivity|].
  apply (proj1 (process_accounts_exact (λ _, true) demo_second demo_second_reached)). vm_compute. by eexists.
Defined.
(** The third process is one too many. *)
Lemma fork_within_limits_witness : ¬ within demo_second 1 (Some 2%positive) 2.
Proof.
  assert (∃ x, pl_members demo_second !! 1%positive = Some x ∧ pm_account x = Some 2%positive ∧ nproc_of demo_second x = 2) as (x & Hx & Ea & En).
  { eexists. split; [vm_compute; reflexivity|]. split; vm_compute; reflexivity. }
  rewrite <- Ea, <- En.
  eapply (fork_within_limits (λ _, true) demo_second demo_heap 1%positive x demo_identity 0 demo_second (- EAGAIN) None demo_second_reached);
    [exact Hx|vm_compute; discriminate|vm_compute; reflexivity..|reflexivity].
Defined.
Lemma limit_unprivileged_witness :
  ∃ h', md_process_limit demo_first demo_heap (inr (- ESRCH)) (λ _, 0) (Some 1%positive) demo_identity demo_identity true RLIMIT_NPROC
      (Some (mk_rlimit 4 4)) = Some (h', 0, Some (mk_rlimit 2 8))
    ∧ ∀ y', pl_limits h' !! 1%positive = Some y' → rlim_max (pl_nproc (li_value y')) ≤ 8.
Proof.
  eexists. split; [vm_compute; reflexivity|]. intros y' Hy'.
  edestruct (limit_unprivileged demo_first demo_heap (inr (- ESRCH)) (λ _, 0) 1%positive demo_identity demo_identity true RLIMIT_NPROC
    (Some (mk_rlimit 4 4))) as (y & Hy & _ & _ & Hmax); [vm_compute; reflexivity|exact Hy'|].
  destruct Hmax as [Hmax _]; [vm_compute; reflexivity|]. etrans; [exact Hmax|].
  assert (rlim_max ∘ pl_nproc ∘ li_value <$> pl_limits demo_first !! 1%positive = Some 8) as H8 by (vm_compute; reflexivity).
  rewrite Hy in H8. injection H8 as <-. done.
Defined.
