(* ===== verification/MountTopology.v ===== *)
(** * Order and lookup of mounts (mount_namespace.c, fs_mount_internal.h).

    A mount namespace is a base mount and an array of slots; each mount names its
    parent by a pointer to another slot, to the base, or NULL.
    [md_mount_topology_order] lists the mounts of a forest with parents before
    children, in the order in which repeated ascending scans would emit them, and
    detects cycles.  [md_view_mount_lookup] finds the mount on a directory of a
    parent, in larger namespaces through a hash index that is rebuilt on demand.

    An array is a list; [None] is an access outside it (or a walk that does not
    end), which the theorems exclude.  A pointer to a mount is [Some 0] for the
    base and [Some (S i)] for slot [i]; the numeric address that the hash mixes in is
    a parameter. *)
From S2P Require Import Prelude.

Definition MD_FS_MOUNTS_MAX : Z := 4096.

(** ** Topological order *)

(** The first inner loop: from [next] towards the root, marking; the chain is a
    stack. *)
Fixpoint climb (fuel : nat) (parents : list Z) (next : nat) (pass : list Z) (chain : list nat) : option (list Z * list nat) :=
  match fuel with
  | O => None
  | S fuel =>
      v ← pass !! next;
      if negb (v =? UINT32_MAX) then Some (pass, chain)
      else
        let pass := <[next := UINT32_MAX - 1]> pass in
        p ← parents !! next;
        if p =? 0 then Some (pass, next :: chain) else climb fuel parents (Z.to_nat (p - 1)) pass (next :: chain)
  end.
(** The second: back down, numbering. *)
Fixpoint unwind (parents : list Z) (chain : list nat) (pass offsets : list Z) : option (list Z * list Z + Z) :=
  match chain with
  | [] => Some (inl (pass, offsets))
  | node :: chain =>
      p ← parents !! node;
      above ← (if p =? 0 then Some 0 else pass !! Z.to_nat (p - 1));
      if negb (p =? 0) && (above =? UINT32_MAX - 1) then Some (inr (- ELOOP))
      else
        let v := if p =? 0 then 0 else wrap32 (above + Z.b2z (Z.of_nat node <? p - 1)) in
        let pass := <[node := v]> pass in
        o ← offsets !! Z.to_nat (v + 1);
        unwind parents chain pass (<[Z.to_nat (v + 1) := wrap32 (o + 1)]> offsets)
  end.
(** Over the nodes [i], [i + 1], ... *)
Fixpoint visit (n : nat) (parents : list Z) (i : nat) (pass offsets : list Z) : option (list Z * list Z + Z) :=
  match n with
  | O => Some (inl (pass, offsets))
  | S n =>
      v ← pass !! i;
      if negb (v =? UINT32_MAX) then visit n parents (S i) pass offsets
      else
        '(pass, chain) ← climb (S (length pass)) parents i pass [];
        r ← unwind parents chain pass offsets;
        match r with
        | inr e => Some (inr e)
        | inl (pass, offsets) => visit n parents (S i) pass offsets
        end
  end.
(** [for (i=1;i<count;++i) offsets[i]+=offsets[i-1]] *)
Fixpoint sum_offsets (n i : nat) (offsets : list Z) : option (list Z) :=
  match n with
  | O => Some offsets
  | S n =>
      o ← offsets !! i;
      o' ← offsets !! (i - 1)%nat;
      sum_offsets n (S i) (<[i := wrap32 (o + o')]> offsets)
  end.
(** [for (i=0;i<count;++i) order[offsets[pass[i]]++]=i] *)
Fixpoint place (n i : nat) (pass offsets order : list Z) : option (list Z) :=
  match n with
  | O => Some order
  | S n =>
      v ← pass !! i;
      o ← offsets !! Z.to_nat v;
      _ ← order !! Z.to_nat o;
      place n (S i) pass (<[Z.to_nat v := wrap32 (o + 1)]> offsets) (<[Z.to_nat o := Z.of_nat i]> order)
  end.
Definition parents_valid (count : nat) (parents : list Z) : bool :=
  forallb (λ ip : nat * Z, negb ((Z.of_nat count <? ip.2) || (ip.2 =? Z.of_nat ip.1 + 1))) (imap pair parents).
(** [parents] and [order]: arrays of [count] elements, or NULL; the result is what
    [order] holds afterwards, or the error. *)
Definition md_mount_topology_order (count : nat) (parents order : option (list Z)) : option (list Z + Z) :=
  if (MD_FS_MOUNTS_MAX + 1 <? Z.of_nat count)
     || negb (Nat.eqb count 0) && (bool_decide (parents = None) || bool_decide (order = None))
  then Some (inr (- EINVAL))
  else
    let parents := default [] parents in
    if negb (parents_valid count parents) then Some (inr (- EINVAL))
    else
      r ← visit count parents 0 (replicate count UINT32_MAX) (replicate (S count) 0);
      match r with
      | inr e => Some (inr e)
      | inl (pass, offsets) =>
          offsets ← sum_offsets (count - 1) 1 offsets;
          order ← place count 0 pass offsets (default [] order);
          Some (inl order)
      end.

(** ** Paths to the root *)

Section order.
Context (parents : list Z).
Local Notation count := (length parents).

Definition parent (i : nat) : option nat :=
  p ← parents !! i; if p =? 0 then None else Some (Z.to_nat (p - 1)).
Fixpoint path (i : nat) (l : list nat) : Prop :=
  match l with
  | [] => False
  | x :: l => x = i ∧ match parent i with None => l = [] | Some p => path p l end
  end.
(** Steps from a node to a parent with a greater number. *)
Fixpoint ascents (l : list nat) : Z :=
  match l with
  | i :: (p :: _) as l' => ascents l' + Z.b2z (Z.of_nat i <? Z.of_nat p)
  | _ => 0
  end.
Definition rank (i : nat) (v : Z) : Prop := ∃ l, path i l ∧ v = ascents l.

Lemma path_unique i l l' : path i l → path i l' → l = l'.
Proof using.
  revert i l'. induction l as [|x l IH]; intros i [|x' l'] H1 H2; try done. destruct H1 as [-> H1], H2 as [-> H2]. f_equal.
  destruct (parent i); [by eapply IH|]. by subst.
Qed.
Lemma path_suffix i l1 x l2 : path i (l1 ++ x :: l2) → path x (x :: l2).
Proof using.
  revert i. induction l1 as [|z l1 IH]; intros i H.
  - by destruct H as [-> H].
  - destruct H as [-> H]. destruct (parent i); [by eapply IH|]. by destruct l1.
Qed.
Lemma path_nodup i l : path i l → NoDup l.
Proof using.
  revert i. induction l as [|x l IH]; intros i H; [done|]. pose proof H as [-> H']. constructor.
  - intros (l1 & l2 & ->)%list_elem_of_split. pose proof (path_suffix i (i :: l1) i l2 H) as H2.
    pose proof (path_unique _ _ _ H H2) as E. apply (f_equal length) in E. cbn in E. rewrite length_app in E. cbn in E. lia.
  - destruct (parent i); [by eapply IH|]. subst. constructor.
Qed.
Lemma ascents_bound l : 0 ≤ ascents l ≤ Z.of_nat (length l) - 1 ∨ l = [].
Proof using.
  induction l as [|i l IH]; [by right|left]. destruct l as [|p l]; [done|]. destruct IH as [IH|]; [|done].
  change (ascents (i :: p :: l)) with (ascents (p :: l) + Z.b2z (Z.of_nat i <? Z.of_nat p)).
  change (length (i :: p :: l)) with (S (length (p :: l))). destruct (_ <? _); cbn [Z.b2z]; lia.
Qed.
Hypothesis (Hvalid : parents_valid count parents = true) (Hpos : Forall (λ p, 0 ≤ p) parents).
Lemma parent_bound i p : parent i = Some p → (i < count)%nat ∧ (p < count)%nat ∧ parents !! i = Some (Z.of_nat p + 1).
Proof using Hvalid Hpos.
  unfold parent. intros (q & Hq & E)%bind_Some. destruct (q =? 0) eqn:E0; [done|]. injection E as <-.
  pose proof (lookup_lt_Some _ _ _ Hq). unfold parents_valid in Hvalid. rewrite forallb_forall in Hvalid.
  specialize (Hvalid (i, q)). cbn in Hvalid.
  assert (In (i, q) (imap pair parents)) as Hin.
  { apply list_elem_of_In, list_elem_of_lookup. exists i. by rewrite list_lookup_imap, Hq. }
  specialize (Hvalid Hin). pose proof (Forall_lookup_1 _ _ _ _ Hpos Hq) as Hq0. cbn in Hq0. breflect.
  replace (Z.of_nat (Z.to_nat (q - 1)) + 1) with q by lia. split_and!; [done|lia|done].
Qed.
Lemma path_below i l x : (i < count)%nat → path i l → x ∈ l → (x < count)%nat.
Proof using Hvalid Hpos.
  revert i. induction l as [|z l IH]; intros i Hi H Hx; [by apply elem_of_nil in Hx|]. destruct H as [-> H].
  apply elem_of_cons in Hx as [->|Hx]; [done|]. destruct (parent i) as [p|] eqn:Ep; [|subst; by apply elem_of_nil in Hx].
  apply parent_bound in Ep as (_ & ? & _). by eapply IH.
Qed.
Lemma path_length i l : (i < count)%nat → path i l → (length l ≤ count)%nat.
Proof using Hvalid Hpos.
  intros Hi H. rewrite <- (length_seq count 0). apply submseteq_length, NoDup_submseteq; [by eapply path_nodup|].
  intros x Hx. apply elem_of_seq. split; [lia|]. by eapply path_below.
Qed.
Lemma rank_bound i v : (i < count)%nat → rank i v → 0 ≤ v < Z.of_nat count.
Proof using Hvalid Hpos.
  intros Hi (l & Hl & ->). pose proof (path_length i l Hi Hl). destruct (ascents_bound l) as [Hb | ->]; [lia|done].
Qed.
Lemma rank_unique i v v' : rank i v → rank i v' → v = v'.
Proof using. clear Hvalid Hpos. intros (l & Hl & ->) (l' & Hl' & ->). by rewrite (path_unique i l l'). Qed.
Lemma rank_root i : parent i = None → rank i 0.
Proof using. intros E. exists [i]. cbn. by rewrite E. Qed.
Lemma rank_step i p v : parent i = Some p → rank p v → rank i (v + Z.b2z (Z.of_nat i <? Z.of_nat p)).
Proof using.
  intros E (l & Hl & ->). exists (i :: l). split; [cbn; by rewrite E|]. destruct l as [|x l]; [done|]. by destruct Hl as [-> _].
Qed.
Lemma rank_inv i v : rank i v →
  match parent i with None => v = 0 | Some p => ∃ u, rank p u ∧ v = u + Z.b2z (Z.of_nat i <? Z.of_nat p) end.
Proof using.
  intros (l & Hl & ->). destruct l as [|x l]; [done|]. destruct Hl as [-> Hl]. destruct (parent i) as [p|]; [|by subst].
  destruct l as [|y l]; [done|]. exists (ascents (y :: l)). pose proof Hl as [-> _]. split; [by exists (p :: l)|done].
Qed.

(** ** The passes *)

Hypothesis (Hcount : Z.of_nat count ≤ MD_FS_MOUNTS_MAX + 1).
Definition tally (k : Z) (P : list Z) : nat := length (filter (λ v, v = k) P).
(** Each node has its rank or is unvisited. *)
Definition settled (P : list Z) : Prop :=
  length P = count ∧ ∀ i v, P !! i = Some v → v = UINT32_MAX ∨ rank i v.
Definition tallied (P offsets : list Z) : Prop :=
  length offsets = S count ∧ ∀ k o, offsets !! k = Some o → o = Z.of_nat (tally (Z.of_nat k - 1) P).
Definition marked (chain : list nat) (P : list Z) : list Z := foldr (λ n, <[n := UINT32_MAX - 1]>) P chain.
(** The nodes of the chain are unvisited; each is the child of the one before. *)
Definition unvisited (chain : list nat) (P : list Z) : Prop := NoDup chain ∧ ∀ n, n ∈ chain → P !! n = Some UINT32_MAX.
Fixpoint linked (chain : list nat) (next : option nat) : Prop :=
  match chain with [] => True | c :: chain => parent c = next ∧ linked chain (Some c) end.

Lemma length_marked chain P : length (marked chain P) = length P.
Proof using. clear. induction chain as [|c chain IH]; [done|]. change (marked (c :: chain) P) with (<[c := UINT32_MAX - 1]> (marked chain P)). by rewrite length_insert. Qed.
Lemma lookup_marked chain P n : (n < length P)%nat → marked chain P !! n = if decide (n ∈ chain) then Some (UINT32_MAX - 1) else P !! n.
Proof using.
  clear Hvalid Hpos Hcount. intros Hn. induction chain as [|c chain IH]; [done|].
  change (marked (c :: chain) P) with (<[c := UINT32_MAX - 1]> (marked chain P)). destruct (decide (n = c)) as [->|Hne].
  - rewrite list_lookup_insert_eq by (by rewrite length_marked). by rewrite decide_True by left.
  - rewrite list_lookup_insert_ne by done. rewrite IH. apply decide_ext. rewrite elem_of_cons. naive_solver.
Qed.
Lemma tally_insert k P n a b :
  P !! n = Some a → (tally k (<[n := b]> P) + (if decide (a = k) then 1 else 0) = tally k P + (if decide (b = k) then 1 else 0))%nat.
Proof using.
  clear. intros Ha. unfold tally. rewrite <- (take_drop_middle P n a Ha) at 1 2.
  rewrite insert_app_r_alt by (rewrite length_take; lia). rewrite length_take_le by (apply lookup_lt_Some in Ha; lia).
  rewrite Nat.sub_diag. cbn [insert list_insert]. rewrite !filter_app, !filter_cons, !length_app. repeat case_decide; cbn; lia.
Qed.
Lemma settled_rank P i v : settled P → P !! i = Some v → v ≠ UINT32_MAX → rank i v ∧ 0 ≤ v < Z.of_nat count.
Proof using Hvalid Hpos.
  intros [Hl HP] Hv Hne. destruct (HP i v Hv) as [|Hr]; [done|]. split; [done|].
  apply (rank_bound i); [|done]. rewrite <- Hl. by eapply lookup_lt_Some.
Qed.
Lemma unvisited_length chain P : settled P → unvisited chain P → (length chain ≤ count)%nat.
Proof using.
  clear Hvalid Hpos Hcount. intros [Hl _] [Hn Hc]. rewrite <- (length_seq count 0). apply submseteq_length, NoDup_submseteq; [done|].
  intros x Hx. apply elem_of_seq. rewrite <- Hl. apply Hc, lookup_lt_Some in Hx. lia.
Qed.
Definition ends (P : list Z) (chain : list nat) (next : option nat) : Prop :=
  match next with None => True | Some p => p ∈ chain ∨ ∃ v, P !! p = Some v ∧ v ≠ UINT32_MAX end.
Lemma climb_ok fuel P chain next :
  settled P → unvisited chain P → linked chain (Some next) → (next < count)%nat → (count < fuel + length chain)%nat →
  ∃ chain' next', climb fuel parents next (marked chain P) chain = Some (marked chain' P, chain') ∧ unvisited chain' P
    ∧ linked chain' next' ∧ ends P chain' next' ∧ (P !! next = Some UINT32_MAX → next ∈ chain') ∧ (∀ n, n ∈ chain → n ∈ chain').
Proof using Hvalid Hpos Hcount.
  intros Hs. revert chain next. induction fuel as [|fuel IH]; intros chain next Hu Hl Hn Hf.
  { pose proof (unvisited_length chain P Hs Hu). cbn in Hf. lia. }
  pose proof Hs as [HP _]. cbn [climb]. rewrite lookup_marked by lia. case_decide as Hc; cbn [mbind option_bind].
  { exists chain, (Some next). split_and!; try done. by left. }
  destruct (lookup_lt_is_Some_2 P next ltac:(lia)) as [v Hv]. rewrite Hv. cbn [mbind option_bind].
  destruct (v =? UINT32_MAX) eqn:E; cbn [negb]; breflect.
  2: { exists chain, (Some next). split_and!; try done; [right; by exists v|]. intros [= ->]. done. }
  subst v. assert (unvisited (next :: chain) P) as Hu'.
  { destruct Hu as [H1 H2]. split; [by constructor|]. intros n [->|?]%elem_of_cons; auto. }
  destruct (lookup_lt_is_Some_2 parents next Hn) as [p Hp]. rewrite Hp. cbn [mbind option_bind].
  destruct (p =? 0) eqn:E0.
  - exists (next :: chain), None. split_and!; try done; [|by left|by right]. split; [|done]. unfold parent. rewrite Hp. cbn. by rewrite E0.
  - assert (parent next = Some (Z.to_nat (p - 1))) as Epar by (unfold parent; rewrite Hp; cbn; by rewrite E0).
    destruct (IH (next :: chain) (Z.to_nat (p - 1))) as (chain' & next' & H1 & H2 & H3 & H4 & _ & H5); [done|done|by eapply parent_bound|cbn; lia|].
    exists chain', next'. split_and!; try done; [intros _; apply H5; by left|]. intros n Hin. apply H5. by right.
Qed.
Lemma marked_settle chain P n v : n ∉ chain → <[n := v]> (marked (n :: chain) P) = marked chain (<[n := v]> P).
Proof using.
  clear. change (marked (n :: chain) P) with (<[n := UINT32_MAX - 1]> (marked chain P)). rewrite list_insert_insert_eq.
  intros Hn. induction chain as [|c chain IH]; [done|]. apply not_elem_of_cons in Hn as [Hne Hn].
  change (marked (c :: chain) ?Q) with (<[c := UINT32_MAX - 1]> (marked chain Q)).
  rewrite list_insert_insert_ne by done. by rewrite IH.
Qed.
Lemma settled_insert P n v : settled P → rank n v → settled (<[n := v]> P).
Proof using.
  clear Hvalid Hpos Hcount. intros [Hl HP] Hr. split; [by rewrite length_insert|]. intros i w.
  rewrite list_lookup_insert. case_decide as E; [|apply HP]. destruct E as [-> _]. intros [= <-]. by right.
Qed.
Lemma tallied_insert P offsets n v o :
  tallied P offsets → settled P → P !! n = Some UINT32_MAX → 0 ≤ v < Z.of_nat count → offsets !! Z.to_nat (v + 1) = Some o →
  tallied (<[n := v]> P) (<[Z.to_nat (v + 1) := wrap32 (o + 1)]> offsets).
Proof using Hcount.
  intros [Hl Ht] [HlP _] Hn Hv Ho. split; [by rewrite length_insert|]. intros k o' Hk.
  pose proof (lookup_lt_Some _ _ _ Hk) as Hk'. rewrite length_insert, Hl in Hk'.
  pose proof (tally_insert (Z.of_nat k - 1) P n UINT32_MAX v Hn) as Hi. unfold MD_FS_MOUNTS_MAX in Hcount.
  rewrite (decide_False (P := UINT32_MAX = _)) in Hi by (unfold UINT32_MAX; lia).
  rewrite list_lookup_insert in Hk. destruct (decide (Z.to_nat (v + 1) = k ∧ _)) as [[E _]|E].
  - injection Hk as <-. subst k. rewrite (Ht _ _ Ho). rewrite decide_True in Hi by lia.
    assert (tally (Z.of_nat (Z.to_nat (v + 1)) - 1) P ≤ count)%nat by (unfold tally; rewrite <- HlP; apply length_filter).
    rewrite wrap32_small by (unfold UINT32_MAX; lia). lia.
  - rewrite (Ht _ _ Hk). rewrite decide_False in Hi; [lia|]. intros ->. apply E. split; lia.
Qed.
(** Going down a chain whose end is settled settles the chain. *)
Lemma unwind_ok chain P next offsets :
  settled P → unvisited chain P → linked chain next → match next with None => True | Some p => ∃ v, P !! p = Some v ∧ v ≠ UINT32_MAX end →
  tallied P offsets →
  ∃ P' offsets', unwind parents chain (marked chain P) offsets = Some (inl (P', offsets')) ∧ settled P' ∧ tallied P' offsets'
    ∧ (∀ n, n ∈ chain → P' !! n ≠ Some UINT32_MAX) ∧ (∀ n, P !! n ≠ Some UINT32_MAX → P' !! n ≠ Some UINT32_MAX).
Proof using Hvalid Hpos Hcount.
  revert P next offsets. induction chain as [|n chain IH]; intros P next offsets Hs [Hnd Hu] Hl He Ht.
  { exists P, offsets. split_and!; try done. by intros n ?%elem_of_nil. }
  apply NoDup_cons in Hnd as [Hn Hnd]. destruct Hl as [Hpar Hl]. pose proof (Hu n ltac:(by left)) as HPn.
  assert (n < count)%nat as Hlt by (destruct Hs as [<- _]; by eapply lookup_lt_Some).
  destruct (lookup_lt_is_Some_2 parents n Hlt) as [p Hp]. cbn [unwind]. rewrite Hp. cbn [mbind option_bind].
  assert (∃ above v, (if p =? 0 then Some 0 else marked (n :: chain) P !! Z.to_nat (p - 1)) = Some above
    ∧ negb (p =? 0) && (above =? UINT32_MAX - 1) = false
    ∧ (if p =? 0 then 0 else wrap32 (above + Z.b2z (Z.of_nat n <? p - 1))) = v ∧ rank n v) as (above & v & -> & E2 & E3 & Hr).
  { unfold parent in Hpar. rewrite Hp in Hpar. cbn in Hpar. destruct (p =? 0) eqn:E0.
    - exists 0, 0. split_and!; try done. apply rank_root. unfold parent. rewrite Hp. cbn. by rewrite E0.
    - subst next. destruct He as (v & Hv & Hne). exists v, (v + Z.b2z (Z.of_nat n <? p - 1)).
      destruct (settled_rank P _ v Hs Hv Hne) as [Hr Hb]. unfold MD_FS_MOUNTS_MAX in Hcount.
      assert (parent n = Some (Z.to_nat (p - 1))) as Epar by (unfold parent; rewrite Hp; cbn; by rewrite E0).
      pose proof (parent_bound _ _ Epar) as (_ & Hlt2 & Hp2). rewrite Hp in Hp2. injection Hp2 as Hp2. split_and!.
      + rewrite lookup_marked by (destruct Hs as [-> _]; lia). rewrite decide_False; [done|]. intros Hin. apply Hu in Hin. congruence.
      + cbn [negb andb]. apply Z.eqb_neq. unfold UINT32_MAX. lia.
      + apply wrap32_small. unfold UINT32_MAX. destruct (_ <? _); cbn; lia.
      + pose proof (rank_step n _ v Epar Hr) as Hst. by replace (p - 1) with (Z.of_nat (Z.to_nat (p - 1))) by lia. }
  cbn [mbind option_bind]. rewrite E2, E3. rewrite marked_settle by done. pose proof (rank_bound n v Hlt Hr) as Hb.
  destruct (lookup_lt_is_Some_2 offsets (Z.to_nat (v + 1))) as [o Ho]; [destruct Ht as [-> _]; lia|]. rewrite Ho. cbn [mbind option_bind].
  assert (∀ m, m ≠ n → <[n := v]> P !! m = P !! m) as Hother by (intros; by rewrite list_lookup_insert_ne by done).
  assert (<[n := v]> P !! n = Some v) as Hself by (apply list_lookup_insert_eq; by destruct Hs as [-> _]).
  unfold MD_FS_MOUNTS_MAX in Hcount. assert (v ≠ UINT32_MAX) as Hvm by (unfold UINT32_MAX; lia).
  destruct (IH (<[n := v]> P) (Some n) (<[Z.to_nat (v + 1) := wrap32 (o + 1)]> offsets)) as (P' & offsets' & H1 & H2 & H3 & H4 & H5).
  - by apply settled_insert.
  - split; [done|]. intros m Hm. rewrite Hother by (intros ->; done). apply Hu. by right.
  - done.
  - by exists v.
  - by apply tallied_insert.
  - exists P', offsets'. split_and!; try done.
    + intros m [->|Hm]%elem_of_cons; [apply H5; rewrite Hself; congruence|by apply H4].
    + intros m Hm. apply H5. destruct (decide (m = n)) as [->|]; [rewrite Hself; congruence|by rewrite Hother].
Qed.
(** A node above itself has no path to a root. *)
Lemma linked_path pre p post q l : linked (pre ++ p :: post) (Some q) → path q l → ∃ l', path p l' ∧ (length l < length l')%nat.
Proof using.
  clear Hvalid Hpos Hcount. revert q l. induction pre as [|c pre IH]; intros q l [Hc Hl] Hq.
  - exists (p :: l). split; [cbn; by rewrite Hc|cbn; lia].
  - destruct (IH c (c :: l) Hl) as (l' & Hp & Hlen); [cbn; by rewrite Hc|]. exists l'. split; [done|]. cbn in Hlen. lia.
Qed.
Lemma linked_cycle chain p l : linked chain (Some p) → p ∈ chain → ¬ path p l.
Proof using.
  clear Hvalid Hpos Hcount. intros Hl (pre & post & ->)%list_elem_of_split Hp.
  destruct (linked_path _ _ _ _ _ Hl Hp) as (l' & Hp' & Hlen). rewrite (path_unique _ _ _ Hp Hp') in Hlen. lia.
Qed.
Definition cyclic : Prop := ∃ i, (i < count)%nat ∧ ∀ l, ¬ path i l.
Lemma unwind_loop chain P p offsets :
  settled P → unvisited chain P → linked chain (Some p) → p ∈ chain →
  unwind parents chain (marked chain P) offsets = Some (inr (- ELOOP)) ∧ cyclic.
Proof using Hvalid Hpos.
  intros Hs Hu Hl Hin. assert (p < length P)%nat as Hlt by (destruct Hu as [_ Hu]; by eapply lookup_lt_Some, Hu).
  split. 2: { exists p. split; [by destruct Hs as [<- _]|]. intros l. by eapply linked_cycle. }
  destruct chain as [|n chain]; [by apply elem_of_nil in Hin|]. destruct Hl as [Hpar _]. cbn [unwind].
  pose proof (parent_bound _ _ Hpar) as (_ & _ & ->). cbn [mbind option_bind]. rewrite (proj2 (Z.eqb_neq _ _)) by lia.
  replace (Z.to_nat (Z.of_nat p + 1 - 1)) with p by lia. rewrite lookup_marked, decide_True by done. done.
Qed.
Lemma visit_ok n i P offsets :
  (i + n = count)%nat → settled P → tallied P offsets → (∀ j, (j < i)%nat → P !! j ≠ Some UINT32_MAX) →
  (∃ P' offsets', visit n parents i P offsets = Some (inl (P', offsets')) ∧ settled P' ∧ tallied P' offsets'
    ∧ ∀ j, (j < count)%nat → P' !! j ≠ Some UINT32_MAX)
  ∨ (visit n parents i P offsets = Some (inr (- ELOOP)) ∧ cyclic).
Proof using Hvalid Hpos Hcount.
  revert i P offsets. induction n as [|n IH]; intros i P offsets Hi Hs Ht Hd.
  { left. exists P, offsets. split_and!; try done. intros j Hj. apply Hd. lia. }
  pose proof Hs as [Hl _]. cbn [visit]. destruct (lookup_lt_is_Some_2 P i ltac:(lia)) as [v Hv]. rewrite Hv. cbn [mbind option_bind].
  destruct (v =? UINT32_MAX) eqn:E; cbn [negb]; breflect.
  2: { apply IH; try done; [lia|]. intros j Hj. destruct (decide (j = i)) as [->|]; [rewrite Hv; congruence|apply Hd; lia]. }
  subst v. destruct (climb_ok (S (length P)) P [] i) as (chain & next & Hc & Hu & Hlk & He & Hin & _);
    [done|split; [constructor|by intros ? ?%elem_of_nil]|done|lia|cbn; lia|]. specialize (Hin Hv).
  change (marked [] P) with P in Hc. rewrite Hc. cbn [mbind option_bind].
  assert ((∃ p, next = Some p ∧ p ∈ chain) ∨ match next with None => True | Some p => ∃ v, P !! p = Some v ∧ v ≠ UINT32_MAX end) as [(p & -> & Hp)|He'].
  { destruct next as [p|]; [|by right]. destruct He as [?|?]; [left; eauto|by right]. }
  - destruct (unwind_loop chain P p offsets Hs Hu Hlk Hp) as [-> ?]. by right.
  - destruct (unwind_ok chain P next offsets Hs Hu Hlk He' Ht) as (P' & offsets' & -> & Hs' & Ht' & H4 & H5). cbn [mbind option_bind].
    apply IH; try done; [lia|]. intros j Hj. destruct (decide (j = i)) as [->|]; [by apply H4|apply H5, Hd; lia].
Qed.
Lemma start_settled : settled (replicate count UINT32_MAX).
Proof using. clear. split; [apply length_replicate|]. intros i v [-> _]%lookup_replicate. by left. Qed.
Lemma start_tallied : tallied (replicate count UINT32_MAX) (replicate (S count) 0).
Proof using Hcount.
  split; [apply length_replicate|]. intros k o [-> Hk]%lookup_replicate. unfold tally. rewrite filter_none; [done|].
  intros x [-> _]%elem_of_replicate. unfold MD_FS_MOUNTS_MAX in Hcount. unfold UINT32_MAX. lia.
Qed.

(** ** Counting sort by pass *)

Definition below (k : Z) (P : list Z) : nat := length (filter (λ v, v < k) P).
Lemma below_succ k P : below (k + 1) P = (below k P + tally k P)%nat.
Proof using.
  clear. unfold below, tally. induction P as [|v P IH]; [done|]. rewrite !filter_cons. repeat case_decide; cbn; lia.
Qed.
Lemma below_mono k k' P : k ≤ k' → (below k P ≤ below k' P)%nat.
Proof using.
  clear. intros H. unfold below. induction P as [|v P IH]; [done|]. rewrite !filter_cons. repeat case_decide; cbn; lia.
Qed.
Lemma below_le k P : (below k P ≤ length P)%nat.
Proof using. clear. apply length_filter. Qed.
Lemma tally_take_S k P j v : P !! j = Some v → tally k (take (S j) P) = (tally k (take j P) + if decide (v = k) then 1 else 0)%nat.
Proof using.
  clear. intros Hj. unfold tally. rewrite (take_S_r _ _ _ Hj), filter_app, length_app. f_equal. rewrite filter_cons. by case_decide.
Qed.
Lemma tally_take_mono k P i j : (i ≤ j)%nat → (tally k (take i P) ≤ tally k (take j P))%nat.
Proof using.
  clear. intros H. unfold tally. assert (take i P = take i (take j P)) as -> by (rewrite take_take; f_equal; lia).
  rewrite <- (take_drop i (take j P)) at 2. rewrite filter_app, length_app. lia.
Qed.
Context (P : list Z).
Hypothesis (HlP : length P = count) (HP : ∀ i v, P !! i = Some v → rank i v).
Lemma value_bound i v : P !! i = Some v → 0 ≤ v < Z.of_nat count.
Proof using Hvalid Hpos HlP HP. intros Hv. apply (rank_bound i); [rewrite <- HlP; by eapply lookup_lt_Some|by apply HP]. Qed.
Lemma below_0 : below 0 P = 0%nat.
Proof using Hvalid Hpos HlP HP.
  unfold below. rewrite filter_none; [done|]. intros v [i Hv]%list_elem_of_lookup. apply value_bound in Hv. lia.
Qed.
Lemma sum_offsets_ok n i offsets :
  (1 ≤ i)%nat → (i + n ≤ S count)%nat → length offsets = S count →
  (∀ k, (k < i)%nat → (k < S count)%nat → offsets !! k = Some (Z.of_nat (below (Z.of_nat k) P))) →
  (∀ k, (i ≤ k < S count)%nat → offsets !! k = Some (Z.of_nat (tally (Z.of_nat k - 1) P))) →
  ∃ offsets', sum_offsets n i offsets = Some offsets' ∧ length offsets' = S count
    ∧ ∀ k, (k < i + n)%nat → (k < S count)%nat → offsets' !! k = Some (Z.of_nat (below (Z.of_nat k) P)).
Proof using HlP Hcount.
  revert i offsets. induction n as [|n IH]; intros i offsets Hi Hin Hl Hlow Hhigh.
  { exists offsets. split_and!; try done. intros k Hk. apply Hlow. lia. }
  cbn [sum_offsets]. rewrite (Hhigh i), (Hlow (i - 1)%nat) by lia. cbn [mbind option_bind].
  assert (wrap32 (Z.of_nat (tally (Z.of_nat i - 1) P) + Z.of_nat (below (Z.of_nat (i - 1)) P)) = Z.of_nat (below (Z.of_nat i) P)) as ->.
  { pose proof (below_succ (Z.of_nat i - 1) P) as Hb. replace (Z.of_nat i - 1 + 1) with (Z.of_nat i) in Hb by lia.
    replace (Z.of_nat (i - 1)) with (Z.of_nat i - 1) by lia. pose proof (below_le (Z.of_nat i) P). unfold MD_FS_MOUNTS_MAX in Hcount.
    rewrite wrap32_small by (unfold UINT32_MAX; lia). lia. }
  destruct (IH (S i) (<[i := Z.of_nat (below (Z.of_nat i) P)]> offsets)) as (offsets' & H1 & H2 & H3).
  - lia.
  - lia.
  - by rewrite length_insert.
  - intros k Hk Hk'. destruct (decide (k = i)) as [->|]; [apply list_lookup_insert_eq; lia|].
    rewrite list_lookup_insert_ne by done. apply Hlow; lia.
  - intros k Hk. rewrite list_lookup_insert_ne by lia. apply Hhigh. lia.
  - exists offsets'. split_and!; try done. intros k Hk. apply H3. lia.
Qed.
Definition position (j : nat) (v : Z) : nat := (below v P + tally v (take j P))%nat.
Lemma position_below j v : P !! j = Some v → (position j v < below (v + 1) P)%nat.
Proof using.
  clear. intros Hv. unfold position. rewrite below_succ. pose proof (tally_take_mono v P (S j) (length P)) as Hm.
  rewrite (take_ge P (length P)) in Hm by done. rewrite (tally_take_S _ _ _ _ Hv), decide_True in Hm by done.
  apply lookup_lt_Some in Hv. specialize (Hm ltac:(lia)). lia.
Qed.
Lemma position_inj i j v w : P !! i = Some v → P !! j = Some w → position i v = position j w → i = j.
Proof using.
  clear. intros Hi Hj E. pose proof (position_below i v Hi). pose proof (position_below j w Hj).
  destruct (Z.lt_trichotomy v w) as [Hl|[->|Hl]].
  - pose proof (below_mono (v + 1) w P ltac:(lia)). unfold position in *. lia.
  - destruct (Nat.lt_trichotomy i j) as [Hl|[->|Hl]]; [|done|].
    + pose proof (tally_take_mono w P (S i) j ltac:(lia)) as Hm. rewrite (tally_take_S _ _ _ _ Hi), decide_True in Hm by done. unfold position in *. lia.
    + pose proof (tally_take_mono w P (S j) i ltac:(lia)) as Hm. rewrite (tally_take_S _ _ _ _ Hj), decide_True in Hm by done. unfold position in *. lia.
  - pose proof (below_mono (w + 1) v P ltac:(lia)). unfold position in *. lia.
Qed.
Lemma place_ok n i offsets order :
  (i + n = count)%nat → length offsets = S count → length order = count →
  (∀ k, (k < count)%nat → offsets !! k = Some (Z.of_nat (position i (Z.of_nat k)))) →
  (∀ j v, (j < i)%nat → P !! j = Some v → order !! position j v = Some (Z.of_nat j)) →
  ∃ order', place n i P offsets order = Some order' ∧ length order' = count
    ∧ ∀ j v, (j < count)%nat → P !! j = Some v → order' !! position j v = Some (Z.of_nat j).
Proof using Hvalid Hpos HlP HP Hcount.
  revert i offsets order. induction n as [|n IH]; intros i offsets order Hi Hlo Hl Hoff Hord.
  { exists order. split_and!; try done. intros j v Hj. apply Hord. lia. }
  cbn [place]. destruct (lookup_lt_is_Some_2 P i ltac:(lia)) as [v Hv]. rewrite Hv. cbn [mbind option_bind].
  pose proof (value_bound i v Hv) as Hb. rewrite (Hoff (Z.to_nat v)) by lia. cbn [mbind option_bind].
  rewrite Z2Nat.id by lia. rewrite Nat2Z.id. pose proof (position_below i v Hv) as Hpb. pose proof (below_le (v + 1) P).
  destruct (lookup_lt_is_Some_2 order (position i v) ltac:(lia)) as [o Ho]. rewrite Ho. cbn [mbind option_bind].
  unfold MD_FS_MOUNTS_MAX in Hcount. rewrite wrap32_small by (unfold UINT32_MAX; lia). apply IH.
  - lia.
  - by rewrite length_insert.
  - by rewrite length_insert.
  - intros k Hk. assert (position (S i) (Z.of_nat k) = position i (Z.of_nat k) + if decide (v = Z.of_nat k) then 1 else 0)%nat as ->.
    { unfold position. rewrite (tally_take_S _ _ _ _ Hv). lia. }
    destruct (decide (v = Z.of_nat k)) as [->|Hne].
    + rewrite Nat2Z.id, list_lookup_insert_eq by lia. f_equal. lia.
    + rewrite list_lookup_insert_ne by lia. rewrite Hoff by done. f_equal. lia.
  - intros j w Hj Hw. destruct (decide (j = i)) as [->|Hne].
    + rewrite Hv in Hw. injection Hw as <-. apply list_lookup_insert_eq. lia.
    + rewrite list_lookup_insert_ne; [apply Hord; [lia|done]|]. intros E. apply Hne. by eapply position_inj.
Qed.

(** ** The reference order: repeated ascending scans *)

Definition scan_pass (emitted : list nat) : list nat :=
  foldl (λ em i, if bool_decide (i ∈ em) then em
                 else match parent i with
                      | None => em ++ [i]
                      | Some p => if bool_decide (p ∈ em) then em ++ [i] else em
                      end) emitted (seq 0 count).
Definition scans (n : nat) : list nat := Nat.iter n scan_pass [].

Definition class (k n : nat) : list nat := filter (λ i, P !! i = Some (Z.of_nat k)) (seq 0 n).
Definition classes (n : nat) : list nat := mjoin ((λ k, class k count) <$> seq 0 n).
Lemma class_S k n : class k (S n) = class k n ++ (if decide (P !! n = Some (Z.of_nat k)) then [n] else []).
Proof using. clear. unfold class. by rewrite seq_S, filter_app. Qed.
Lemma class_length k n : (n ≤ length P)%nat → length (class k n) = tally (Z.of_nat k) (take n P).
Proof using.
  clear. induction n as [|n IH]; intros Hn; [by rewrite take_0|]. destruct (lookup_lt_is_Some_2 P n ltac:(lia)) as [v Hv].
  rewrite class_S, length_app, IH, (tally_take_S _ _ _ _ Hv), Hv by lia. f_equal. repeat case_decide; simplify_eq; done.
Qed.
Lemma class_app k n m : (n ≤ m)%nat → ∃ l, class k m = class k n ++ l.
Proof using.
  clear. induction 1 as [|m Hm [l IH]]; [exists []; by rewrite app_nil_r|]. rewrite class_S, IH. eexists. by rewrite <- (assoc_L (++)).
Qed.
Lemma class_lookup k j : (j < count)%nat → P !! j = Some (Z.of_nat k) → class k count !! tally (Z.of_nat k) (take j P) = Some j.
Proof using HlP.
  intros Hj Hk. destruct (class_app k (S j) count Hj) as [l ->]. rewrite class_S, decide_True by done.
  rewrite <- class_length by lia. rewrite <- (assoc_L (++)). rewrite lookup_app_r by lia. by rewrite Nat.sub_diag.
Qed.
Lemma classes_S n : classes (S n) = classes n ++ class n count.
Proof using. clear. unfold classes. rewrite seq_S, fmap_app, join_app. cbn. by rewrite app_nil_r. Qed.
Lemma classes_length n : length (classes n) = below (Z.of_nat n) P.
Proof using Hvalid Hpos HlP HP.
  induction n as [|n IH]; [change (Z.of_nat 0) with 0; by rewrite below_0|]. rewrite classes_S, length_app, IH, class_length by lia.
  rewrite (take_ge P count) by lia. pose proof (below_succ (Z.of_nat n) P). replace (Z.of_nat (S n)) with (Z.of_nat n + 1) by lia. lia.
Qed.
Lemma classes_app n m : (n ≤ m)%nat → ∃ l, classes m = classes n ++ l.
Proof using.
  clear. induction 1 as [|m Hm [l IH]]; [exists []; by rewrite app_nil_r|]. rewrite classes_S, IH. eexists. by rewrite <- (assoc_L (++)).
Qed.
Lemma classes_lookup j v : P !! j = Some v → classes count !! position j v = Some j.
Proof using Hvalid Hpos HlP HP.
  intros Hv. pose proof (value_bound j v Hv) as Hb. pose proof (lookup_lt_Some _ _ _ Hv).
  destruct (classes_app (S (Z.to_nat v)) count ltac:(lia)) as [l ->]. rewrite classes_S, <- (assoc_L (++)). unfold position.
  rewrite lookup_app_r; rewrite classes_length, Z2Nat.id by lia; [|lia].
  replace (below v P + tally v (take j P) - below v P)%nat with (tally v (take j P)) by lia.
  pose proof (class_lookup (Z.to_nat v) j ltac:(lia)) as Hc. rewrite Z2Nat.id in Hc by lia. specialize (Hc Hv).
  by rewrite lookup_app_l by (by eapply lookup_lt_Some).
Qed.
Lemma node_value i : (i < count)%nat → ∃ v, P !! i = Some v ∧ rank i v.
Proof using HlP HP. intros Hi. destruct (lookup_lt_is_Some_2 P i ltac:(lia)) as [v Hv]. eauto. Qed.
Lemma parent_irrefl i v : rank i v → parent i ≠ Some i.
Proof using.
  clear. intros (l & Hl & _) E. destruct l as [|x l]; [done|]. pose proof Hl as [-> Hl']. rewrite E in Hl'.
  pose proof (path_unique _ _ _ Hl Hl') as El. apply (f_equal length) in El. cbn in El. lia.
Qed.
Lemma classes_perm : classes count ≡ₚ seq 0 count.
Proof using Hvalid Hpos HlP HP.
  symmetry. apply submseteq_length_Permutation.
  - apply NoDup_submseteq; [apply NoDup_seq|]. intros j Hj. apply elem_of_seq in Hj. destruct (node_value j ltac:(lia)) as (v & Hv & _).
    eapply list_elem_of_lookup_2, classes_lookup, Hv.
  - rewrite classes_length, length_seq. pose proof (below_le (Z.of_nat count) P). lia.
Qed.
Lemma order_classes order :
  length order = count → (∀ j v, (j < count)%nat → P !! j = Some v → order !! position j v = Some (Z.of_nat j)) →
  order = Z.of_nat <$> classes count.
Proof using Hvalid Hpos HlP HP.
  intros Hl Ho. pose proof (Permutation_length classes_perm) as Hlc. rewrite length_seq in Hlc.
  apply list_eq. intros x. rewrite list_lookup_fmap. destruct (classes count !! x) as [j|] eqn:Ej.
  - assert (j ∈ seq 0 count) as Hj by (rewrite <- classes_perm; by eapply list_elem_of_lookup_2).
    apply elem_of_seq in Hj. destruct (node_value j ltac:(lia)) as (v & Hv & _).
    assert (NoDup (classes count)) as Hnd by (rewrite classes_perm; apply NoDup_seq).
    rewrite (NoDup_lookup _ _ _ _ Hnd Ej (classes_lookup _ _ Hv)). apply Ho; [lia|done].
  - apply lookup_ge_None in Ej. apply lookup_ge_None. lia.
Qed.
Lemma elem_of_class k n i : i ∈ class k n ↔ (i < n)%nat ∧ P !! i = Some (Z.of_nat k).
Proof using. clear. unfold class. rewrite list_elem_of_filter, elem_of_seq. naive_solver lia. Qed.
Lemma elem_of_classes n i v : (i < count)%nat → P !! i = Some v → i ∈ classes n ↔ v < Z.of_nat n.
Proof using Hvalid Hpos HlP HP.
  intros Hi Hv. induction n as [|n IH]; [|rewrite classes_S, elem_of_app, IH, elem_of_class, Hv].
  - pose proof (value_bound i v Hv). split; [by intros ?%elem_of_nil|lia].
  - split; [intros [?|[_ [= ->]]]; lia|]. intros Hlt. destruct (decide (v = Z.of_nat n)) as [->|]; [by right|left; lia].
Qed.
Lemma scan_step k : scan_pass (classes k) = classes (S k).
Proof using Hvalid Hpos HlP HP.
  unfold scan_pass. rewrite classes_S.
  assert (∀ n, (n ≤ count)%nat → foldl (λ em i, if bool_decide (i ∈ em) then em
    else match parent i with None => em ++ [i] | Some p => if bool_decide (p ∈ em) then em ++ [i] else em end) (classes k) (seq 0 n)
    = classes k ++ class k n) as H; [|by apply H].
  induction n as [|n IH]; intros Hn; [cbn; by rewrite app_nil_r|]. rewrite seq_S, foldl_snoc, IH by lia. cbn [Nat.add].
  destruct (node_value n ltac:(lia)) as (v & Hv & Hr). rewrite class_S, Hv. pose proof (rank_inv n v Hr) as Hinv.
  assert (n ∈ classes k ++ class k n ↔ v < Z.of_nat k) as Hin.
  { rewrite elem_of_app, (elem_of_classes k n v), elem_of_class by (done || lia). naive_solver lia. }
  pose proof (value_bound n v Hv). destruct (Z.lt_trichotomy v (Z.of_nat k)) as [Hlt|[->|Hlt]].
  - rewrite bool_decide_true by (by apply Hin). rewrite decide_False by (intros [= E]; lia). by rewrite app_nil_r.
  - rewrite bool_decide_false by (rewrite Hin; lia). rewrite decide_True by done. rewrite (assoc_L (++)).
    destruct (parent n) as [p|] eqn:Ep; [|done]. destruct Hinv as (u & Hu & E). pose proof (parent_bound _ _ Ep) as (_ & Hpc & _).
    destruct (node_value p Hpc) as (u' & Hu' & Hru). rewrite (rank_unique _ _ _ Hru Hu) in Hu'.
    rewrite bool_decide_true; [done|]. rewrite elem_of_app, (elem_of_classes k p u), elem_of_class by done.
    assert (p ≠ n) by (intros ->; by eapply parent_irrefl). destruct (Z.of_nat n <? Z.of_nat p) eqn:El; cbn in E; breflect; [left; lia|right].
    split; [lia|]. rewrite Hu'. f_equal. lia.
  - rewrite bool_decide_false by (rewrite Hin; lia). rewrite decide_False by (intros [= E]; lia). rewrite app_nil_r.
    destruct (parent n) as [p|] eqn:Ep; [|lia]. destruct Hinv as (u & Hu & E). pose proof (parent_bound _ _ Ep) as (_ & Hpc & _).
    destruct (node_value p Hpc) as (u' & Hu' & Hru). rewrite (rank_unique _ _ _ Hru Hu) in Hu'.
    rewrite bool_decide_false; [done|]. rewrite elem_of_app, (elem_of_classes k p u), elem_of_class, Hu' by done.
    destruct (Z.of_nat n <? Z.of_nat p) eqn:El; cbn in E; breflect; intros [?|[? [= ->]]]; lia.
Qed.
Lemma scans_classes n : scans n = classes n.
Proof using Hvalid Hpos HlP HP. induction n as [|n IH]; [done|]. change (scans (S n)) with (scan_pass (scans n)). by rewrite IH, scan_step. Qed.
Lemma parent_first i p : parent i = Some p → ∃ x y, classes count !! x = Some p ∧ classes count !! y = Some i ∧ (x < y)%nat.
Proof using Hvalid Hpos HlP HP.
  intros Ep. pose proof (parent_bound _ _ Ep) as (Hi & Hp & _). destruct (node_value i Hi) as (v & Hv & Hr).
  destruct (node_value p Hp) as (u & Hu & Hru). exists (position p u), (position i v). split_and!; [by apply classes_lookup..|].
  pose proof (rank_inv i v Hr) as Hinv. rewrite Ep in Hinv. destruct Hinv as (u' & Hu' & E). rewrite (rank_unique _ _ _ Hu' Hru) in E.
  pose proof (position_below p u Hu) as Hpb. assert (p ≠ i) by (intros ->; by eapply parent_irrefl).
  destruct (Z.of_nat i <? Z.of_nat p) eqn:El; cbn in E; breflect.
  - subst v. unfold position in *. lia.
  - replace v with u in * by lia. pose proof (tally_take_mono u P (S p) i ltac:(lia)) as Hm.
    rewrite (tally_take_S _ _ _ _ Hu), decide_True in Hm by done. unfold position. lia.
Qed.
End order.

(** The ranks that [visit] computes, summed and sorted, give the order of the scans. *)
Lemma topology_sorted parents order P offsets :
  parents_valid (length parents) parents = true → Forall (λ p, 0 ≤ p) parents → Z.of_nat (length parents) ≤ MD_FS_MOUNTS_MAX + 1 →
  settled parents P → tallied parents P offsets → (∀ j, (j < length parents)%nat → P !! j ≠ Some UINT32_MAX) → length order = length parents →
  ∃ offsets' order', sum_offsets (length parents - 1) 1 offsets = Some offsets' ∧ place (length parents) 0 P offsets' order = Some order'
    ∧ order' = Z.of_nat <$> scans parents (length parents) ∧ scans parents (length parents) ≡ₚ seq 0 (length parents)
    ∧ ∀ i p, parent parents i = Some p →
        ∃ x y, scans parents (length parents) !! x = Some p ∧ scans parents (length parents) !! y = Some i ∧ (x < y)%nat.
Proof.
  intros Hv Hp Hc [HlP Hs] [Hlo Ht] Hd Hl.
  assert (∀ i v, P !! i = Some v → rank parents i v) as HP.
  { intros i v Hiv. destruct (Hs i v Hiv) as [->|]; [|done]. exfalso. eapply Hd, Hiv. rewrite <- HlP. by eapply lookup_lt_Some. }
  destruct (sum_offsets_ok parents Hc P HlP (length parents - 1) 1 offsets) as (offsets' & H1 & H2 & H3); [done|lia|done| |..].
  { intros k Hk _. replace k with 0%nat by lia. destruct (lookup_lt_is_Some_2 offsets 0 ltac:(lia)) as [o Ho]. rewrite Ho. f_equal.
    rewrite (Ht _ _ Ho). f_equal. change (Z.of_nat 0) with 0. rewrite (below_0 parents Hv Hp P HlP HP). unfold tally.
    rewrite filter_none; [done|]. intros v [i Hi]%list_elem_of_lookup. pose proof (value_bound parents Hv Hp P HlP HP i v Hi). lia. }
  { intros k Hk. destruct (lookup_lt_is_Some_2 offsets k ltac:(lia)) as [o Ho]. rewrite Ho. f_equal. by apply Ht. }
  destruct (place_ok parents Hv Hp Hc P HlP HP (length parents) 0 offsets' order) as (order' & H4 & H5 & H6); [done|done|done| |intros; lia|].
  { intros k Hk. rewrite H3 by lia. unfold position. rewrite take_0. unfold tally. cbn. by rewrite Nat.add_0_r. }
  exists offsets', order'. rewrite (scans_classes parents Hv Hp P HlP HP). split_and!; [done|done| | |].
  - by apply (order_classes parents Hv Hp P HlP HP).
  - by apply (classes_perm parents Hv Hp P HlP HP).
  - apply (parent_first parents Hv Hp P HlP HP).
Qed.

Lemma topology_order_ok parents order :
  Forall (λ p, 0 ≤ p) parents → length order = length parents →
  let count := length parents in
  let result := md_mount_topology_order count (Some parents) (Some order) in
  (result = Some (inr (- EINVAL)) ∧ (MD_FS_MOUNTS_MAX + 1 < Z.of_nat count ∨ parents_valid count parents = false))
  ∨ (result = Some (inr (- ELOOP)) ∧ ∃ i, (i < count)%nat ∧ ∀ l, ¬ path parents i l)
  ∨ (∃ l, result = Some (inl (Z.of_nat <$> l)) ∧ l = scans parents count ∧ l ≡ₚ seq 0 count
       ∧ (∀ i, (i < count)%nat → ∃ l', path parents i l')
       ∧ ∀ i p, parent parents i = Some p → ∃ x y, l !! x = Some p ∧ l !! y = Some i ∧ (x < y)%nat).
Proof.
  intros Hp Hl count result. unfold result, md_mount_topology_order, count. clear result count.
  rewrite (bool_decide_false (Some parents = None)), (bool_decide_false (Some order = None)) by done. rewrite andb_false_r, orb_false_r.
  destruct (MD_FS_MOUNTS_MAX + 1 <? Z.of_nat (length parents)) eqn:Ec; breflect; [left; auto|]. cbn [default from_option id].
  destruct (parents_valid (length parents) parents) eqn:Ev; cbn [negb]; [|left; auto]. right.
  destruct (visit_ok parents Ev Hp Ec (length parents) 0 (replicate (length parents) UINT32_MAX) (replicate (S (length parents)) 0)) as [(P & offsets & -> & Hs & Ht & Hd)|[-> Hcy]];
    [done|apply start_settled|by apply start_tallied|intros; lia| |by left].
  right. cbn [mbind option_bind]. destruct (topology_sorted parents order P offsets) as (offsets' & order' & -> & H2 & -> & H4 & H5); [done..|].
  cbn [mbind option_bind]. unfold default, from_option, id. rewrite H2. eexists. split_and!; [done|done|done| |done].
  intros i Hi. destruct Hs as [HlP Hs]. destruct (lookup_lt_is_Some_2 P i ltac:(lia)) as [v Hv].
  destruct (Hs i v Hv) as [->|(l' & Hl' & _)]; [|by exists l']. exfalso. by apply (Hd i).
Qed.


(** ** Mounts of a namespace *)

Record md_view_mount := mk_mount {
  m_source : Z; m_detached : bool; m_parent : option nat; m_device : Z; m_inode : Z; m_id : Z; m_generation : Z }.
(** The hash index of placements; links are node numbers plus one. *)
Record placement := mk_placement {
  l_count : nat; l_valid : bool; l_buckets : list Z; l_next : list Z; l_children : list Z }.
Record md_fs_mounts := mk_tree { t_count : nat; t_mounts : list md_view_mount; t_lookup : placement }.
Record md_mount_namespace := mk_view { n_base : md_view_mount; n_root : option nat; n_tree : option md_fs_mounts }.
Definition with_lookup (t : md_fs_mounts) (l : placement) : md_fs_mounts := mk_tree (t_count t) (t_mounts t) l.
Definition with_tree (view : md_mount_namespace) (t : md_fs_mounts) : md_mount_namespace := mk_view (n_base view) (n_root view) (Some t).

Definition md_view_mount_node (view : md_mount_namespace) (node : nat) : option md_view_mount :=
  match node with O => Some (n_base view) | S i => t ← n_tree view; t_mounts t !! i end.
(** No check that the tree has the slot: [count] may include reserved ones. *)
Definition md_view_mount_slot (view : md_mount_namespace) (m : option nat) (count : nat) : Z :=
  match m with
  | None | Some O => 0
  | Some (S i) =>
      if bool_decide (n_tree view = None) || (MD_FS_MOUNTS_MAX <? Z.of_nat count) then - ESTALE
      else if (count <=? i)%nat then - ESTALE else Z.of_nat i + 1
  end.
Definition md_view_mount_lookup_changed (view : md_mount_namespace) : md_mount_namespace :=
  match n_tree view with
  | None => view
  | Some t =>
      let l := t_lookup t in
      with_tree view (with_lookup t (mk_placement (l_count l) false (l_buckets l) (l_next l) (l_children l)))
  end.
Definition md_inode_mount_bit (device inode : Z) : Z :=
  let hash := Z.lxor inode (wrap64 (device * 0x9e3779b97f4a7c15)) in
  let hash := Z.lxor hash (Z.shiftr hash 33) in
  bit (Z.land hash 63).
Definition md_view_same (device inode : Z) (m : md_view_mount) : bool := (device =? m_device m) && (inode =? m_inode m).

Section lookup.
(** The address of a mount, as a number. *)
Context (address : option nat → Z).

Definition placement_hash (parent : option nat) (device inode : Z) : Z :=
  let key := Z.lxor (Z.lxor inode (wrap64 (device * 0x9e3779b97f4a7c15))) (address parent) in
  let key := Z.lxor key (Z.shiftr key 33) in
  let key := wrap64 (key * 0xff51afd7ed558ccd) in
  let key := Z.lxor key (Z.shiftr key 33) in
  Z.land (wrap32 key) 1023.
(** [for (unsigned end=tree->count+1;end;--end)], at [end = n]. *)
Fixpoint index_loop (n : nat) (view : md_mount_namespace) (count : nat) (l : placement) : option placement :=
  match n with
  | O => Some l
  | S i =>
      m ← md_view_mount_node view i;
      if (m_source m <? 0) || m_detached m then index_loop i view count l
      else
        let hash := Z.to_nat (placement_hash (m_parent m) (m_device m) (m_inode m)) in
        b ← l_buckets l !! hash;
        _ ← l_next l !! i;
        let next := <[i := b]> (l_next l) in
        let buckets := <[hash := Z.of_nat (S i) mod 65536]> (l_buckets l) in
        let parent := md_view_mount_slot view (m_parent m) count in
        children ← (if 0 <=? parent
                    then c ← l_children l !! Z.to_nat parent;
                         Some (<[Z.to_nat parent := Z.lor c (md_inode_mount_bit (m_device m) (m_inode m))]> (l_children l))
                    else Some (l_children l));
        index_loop i view count (mk_placement (l_count l) (l_valid l) buckets next children)
  end.
Definition placement_index (view : md_mount_namespace) (t : md_fs_mounts) : option md_fs_mounts :=
  let l := t_lookup t in
  if l_valid l && Nat.eqb (l_count l) (t_count t) then Some t
  else
    let cleared := mk_placement (l_count l) (l_valid l) (replicate 1024 0) (l_next l)
                     (replicate (S (t_count t)) 0 ++ drop (S (t_count t)) (l_children l)) in
    l ← index_loop (S (t_count t)) view (t_count t) cleared;
    Some (with_lookup t (mk_placement (t_count t) true (l_buckets l) (l_next l) (l_children l))).
Definition md_view_mount_children (view : md_mount_namespace) (parent : option nat) : option (md_mount_namespace * Z) :=
  match n_tree view with
  | None => Some (view, 0)
  | Some t =>
      let slot := md_view_mount_slot view parent (t_count t) in
      if slot <? 0 then Some (view, UINT64_MAX)
      else
        t ← placement_index view t;
        c ← l_children (t_lookup t) !! Z.to_nat slot;
        Some (with_tree view t, c)
  end.
Definition placed_on (parent : option nat) (device inode : Z) (m : md_view_mount) : bool :=
  bool_decide (m_parent m = parent) && md_view_same device inode m.
(** The scan of a small tree, from node [i]. *)
Fixpoint scan_nodes (n i : nat) (view : md_mount_namespace) (parent : option nat) (device inode : Z) : option (option nat) :=
  match n with
  | O => Some None
  | S n =>
      m ← md_view_mount_node view i;
      if (0 <=? m_source m) && negb (m_detached m) && placed_on parent device inode m then Some (Some i)
      else scan_nodes n (S i) view parent device inode
  end.
Fixpoint follow (fuel : nat) (link : Z) (view : md_mount_namespace) (next : list Z) (parent : option nat) (device inode : Z)
  : option (option nat) :=
  if link =? 0 then Some None
  else
    match fuel with
    | O => None
    | S fuel =>
        let node := Z.to_nat (link - 1) in
        m ← md_view_mount_node view node;
        if placed_on parent device inode m then Some (Some node)
        else link ← next !! node; follow fuel link view next parent device inode
    end.
Definition md_view_mount_lookup (view : md_mount_namespace) (parent : option nat) (device inode : Z)
  : option (md_mount_namespace * option nat) :=
  match n_tree view with
  | None => Some (view, None)
  | Some t =>
      if (t_count t <=? 8)%nat then r ← scan_nodes (S (t_count t)) 0 view parent device inode; Some (view, r)
      else
        t ← placement_index view t;
        link ← l_buckets (t_lookup t) !! Z.to_nat (placement_hash parent device inode);
        r ← follow (S (t_count t)) link view (l_next (t_lookup t)) parent device inode;
        Some (with_tree view t, r)
  end.
End lookup.

(** ** The index *)

Section index.
Context (address : option nat → Z).

Definition live_mount (m : md_view_mount) : bool := negb ((m_source m <? 0) || m_detached m).
Definition node_hash (m : md_view_mount) : Z := placement_hash address (m_parent m) (m_device m) (m_inode m).
Definition in_bucket (view : md_mount_namespace) (h : nat) (i : nat) : Prop :=
  match md_view_mount_node view i with Some m => live_mount m = true ∧ Z.to_nat (node_hash m) = h | None => False end.
#[global] Instance in_bucket_dec view h i : Decision (in_bucket view h i).
Proof. unfold in_bucket. destruct (md_view_mount_node view i); apply _. Defined.
(** The nodes [n .. count] of a bucket. *)
Definition bucket_nodes (view : md_mount_namespace) (count h n : nat) : list nat := filter (in_bucket view h) (seq n (S count - n)).
Fixpoint links (next : list Z) (link : Z) (nodes : list nat) : Prop :=
  match nodes with
  | [] => link = 0
  | j :: nodes => link = Z.of_nat (S j) ∧ ∃ k, next !! j = Some k ∧ links next k nodes
  end.
Record indexed (view : md_mount_namespace) (count n : nat) (l : placement) : Prop := mk_indexed {
  ix_buckets : ∀ h, (h < 1024)%nat → ∃ link, l_buckets l !! h = Some link ∧ links (l_next l) link (bucket_nodes view count h n);
  ix_children : ∀ slot, (slot ≤ count)%nat → ∃ c, l_children l !! slot = Some c
    ∧ ∀ i m, (n ≤ i ≤ count)%nat → md_view_mount_node view i = Some m → live_mount m = true →
        md_view_mount_slot view (m_parent m) count = Z.of_nat slot → has_bits c (md_inode_mount_bit (m_device m) (m_inode m)) = true }.
Record sized (l : placement) : Prop := mk_sized {
  sz_buckets : length (l_buckets l) = 1024%nat;
  sz_next : length (l_next l) = S (Z.to_nat MD_FS_MOUNTS_MAX);
  sz_children : length (l_children l) = S (Z.to_nat MD_FS_MOUNTS_MAX) }.

Lemma placement_hash_bound p d i : 0 ≤ placement_hash address p d i < 1024.
Proof.
  unfold placement_hash. cbv zeta. set (x := wrap32 _). change 1023 with (Z.ones 10). rewrite Z.land_ones by done.
  change 1024 with (2 ^ 10). by apply Z.mod_pos_bound.
Qed.
Lemma bucket_nodes_S view count h n :
  (n ≤ count)%nat → bucket_nodes view count h n = (if decide (in_bucket view h n) then [n] else []) ++ bucket_nodes view count h (S n).
Proof.
  intros Hn. unfold bucket_nodes. replace (S count - n)%nat with (S (S count - S n)) by lia. cbn [seq]. rewrite filter_cons.
  by case_decide.
Qed.
Lemma bucket_nodes_above view count h n i : i ∈ bucket_nodes view count h n → (n ≤ i ≤ count)%nat.
Proof. unfold bucket_nodes. rewrite list_elem_of_filter, elem_of_seq. lia. Qed.
Lemma links_insert next link nodes i b : i ∉ nodes → links next link nodes → links (<[i := b]> next) link nodes.
Proof.
  revert link. induction nodes as [|j nodes IH]; intros link Hi; [done|]. apply not_elem_of_cons in Hi as [Hne Hi].
  intros [-> (k & Hk & Hl)]. split; [done|]. exists k. rewrite list_lookup_insert_ne by done. auto.
Qed.
Lemma has_bits_lor a b c : has_bits a c = true → has_bits (Z.lor a b) c = true.
Proof.
  unfold has_bits. rewrite !negb_true_iff, !Z.eqb_neq. intros H E. apply H. rewrite Z.land_lor_distr_l in E.
  by apply Z.lor_eq_0_iff in E as [? _].
Qed.
Lemma mount_bit_nonzero d i : md_inode_mount_bit d i ≠ 0.
Proof.
  unfold md_inode_mount_bit, bit. cbv zeta. set (x := Z.land _ 63). assert (0 ≤ x) by (unfold x; change 63 with (Z.ones 6); rewrite Z.land_ones by done; by apply Z.mod_pos_bound).
  rewrite Z.shiftl_1_l. apply Z.pow_nonzero; lia.
Qed.
Lemma has_bits_self a b : b ≠ 0 → has_bits (Z.lor a b) b = true.
Proof.
  intros Hb. unfold has_bits. rewrite negb_true_iff, Z.eqb_neq. rewrite Z.land_lor_distr_l, Z.land_diag. intros E.
  by apply Z.lor_eq_0_iff in E as [_ ?].
Qed.
Lemma slot_range view m count : (md_view_mount_slot view m count < 0) ∨ ∃ s, md_view_mount_slot view m count = Z.of_nat s ∧ (s ≤ count)%nat.
Proof.
  destruct m as [[|i]|]; cbn; [right; exists 0%nat; lia| |right; exists 0%nat; lia]. destruct (_ || _); [by left|].
  destruct (count <=? i)%nat eqn:E; [by left|]. apply Nat.leb_gt in E. right. exists (S i). lia.
Qed.
Lemma indexed_skip view count i l m :
  md_view_mount_node view i = Some m → live_mount m = false → (i ≤ count)%nat → indexed view count (S i) l → indexed view count i l.
Proof.
  intros Hm Hd Hi [Hb Hc]. split.
  - intros h Hh. rewrite bucket_nodes_S, decide_False by (done || unfold in_bucket; rewrite Hm; intros [? _]; congruence). by apply Hb.
  - intros slot Hs. destruct (Hc slot Hs) as (c & Hlc & Hbits). exists c. split; [done|]. intros j mj Hj Hmj Hlj.
    intros Hsl. destruct (decide (j = i)) as [->|]; [congruence|]. by apply (Hbits j mj); [lia|..].
Qed.
Lemma indexed_add view count i l m b c :
  md_view_mount_node view i = Some m → live_mount m = true → (i ≤ count)%nat → Z.of_nat count ≤ MD_FS_MOUNTS_MAX → sized l →
  indexed view count (S i) l →
  let hash := Z.to_nat (node_hash m) in
  l_buckets l !! hash = Some b →
  (md_view_mount_slot view (m_parent m) count < 0 ∧ c = l_children l
   ∨ ∃ s c0, md_view_mount_slot view (m_parent m) count = Z.of_nat s ∧ l_children l !! s = Some c0
       ∧ c = <[s := Z.lor c0 (md_inode_mount_bit (m_device m) (m_inode m))]> (l_children l)) →
  indexed view count i (mk_placement (l_count l) (l_valid l) (<[hash := Z.of_nat (S i)]> (l_buckets l)) (<[i := b]> (l_next l)) c).
Proof.
  intros Hm Hlive Hi Hcount [Hz1 Hz2 _] [Hb Hc] hash Hbk Hch. split; cbn.
  - intros h Hh. rewrite bucket_nodes_S by done. destruct (Hb h Hh) as (link & Hlink & Hlinks).
    assert (i ∉ bucket_nodes view count h (S i)) as Hni by (intros ?%bucket_nodes_above; lia).
    destruct (decide (h = hash)) as [->|Hne].
    + rewrite decide_True by (unfold in_bucket; rewrite Hm; done). rewrite Hbk in Hlink. injection Hlink as <-.
      exists (Z.of_nat (S i)). rewrite list_lookup_insert_eq by lia. split; [done|]. split; [done|]. exists b.
      rewrite list_lookup_insert_eq by lia. split; [done|]. by apply links_insert.
    + rewrite decide_False by (unfold in_bucket; rewrite Hm; intros [_ E]; by apply Hne). exists link.
      rewrite list_lookup_insert_ne by done. split; [done|]. by apply links_insert.
  - intros slot Hs. destruct (Hc slot Hs) as (c1 & Hc1 & Hbits).
    destruct Hch as [[Hneg ->]|(s & c0 & Hsl & Hc0 & ->)].
    + exists c1. split; [done|]. intros j mj Hj Hmj Hlj Hslot. destruct (decide (j = i)) as [->|]; [|by apply (Hbits j mj); [lia|..]].
      rewrite Hm in Hmj. injection Hmj as <-. lia.
    + destruct (decide (s = slot)) as [->|Hne].
      * rewrite Hc1 in Hc0. injection Hc0 as <-. eexists. rewrite list_lookup_insert_eq by (by eapply lookup_lt_Some). split; [done|].
        intros j mj Hj Hmj Hlj Hslot. destruct (decide (j = i)) as [->|]; [|by apply has_bits_lor, (Hbits j mj); [lia|..]].
        rewrite Hm in Hmj. injection Hmj as <-. apply has_bits_self, mount_bit_nonzero.
      * exists c1. rewrite list_lookup_insert_ne by done. split; [done|]. intros j mj Hj Hmj Hlj Hslot.
        destruct (decide (j = i)) as [->|]; [|by apply (Hbits j mj); [lia|..]]. rewrite Hm in Hmj. injection Hmj as <-. lia.
Qed.
Lemma index_loop_ok view count n l :
  Z.of_nat count ≤ MD_FS_MOUNTS_MAX → (n ≤ S count)%nat → (∀ i, (i < n)%nat → is_Some (md_view_mount_node view i)) →
  sized l → indexed view count n l →
  ∃ l', index_loop address n view count l = Some l' ∧ sized l' ∧ indexed view count 0 l'.
Proof.
  intros Hcount. revert l. induction n as [|i IH]; intros l Hn Hnodes Hz Hix; [by exists l|]. cbn [index_loop].
  destruct (Hnodes i ltac:(lia)) as [m Hm]. rewrite Hm. cbn [mbind option_bind].
  destruct ((m_source m <? 0) || m_detached m) eqn:El.
  { apply IH; [lia|intros; apply Hnodes; lia|done|]. apply (indexed_skip view count i l m); try done; [unfold live_mount; by rewrite El|lia]. }
  pose proof Hz as [Hz1 Hz2 Hz3]. change (placement_hash address (m_parent m) (m_device m) (m_inode m)) with (node_hash m).
  pose proof (placement_hash_bound (m_parent m) (m_device m) (m_inode m)) as Hh. fold (node_hash m) in Hh. unfold MD_FS_MOUNTS_MAX in *.
  destruct (lookup_lt_is_Some_2 (l_buckets l) (Z.to_nat (node_hash m)) ltac:(lia)) as [b Hb]. rewrite Hb. cbn [mbind option_bind].
  destruct (lookup_lt_is_Some_2 (l_next l) i ltac:(lia)) as [x Hx]. rewrite Hx. cbn [mbind option_bind].
  rewrite (Z.mod_small (Z.of_nat (S i))) by lia.
  assert (live_mount m = true) as Hlive by (unfold live_mount; by rewrite El).
  destruct (slot_range view (m_parent m) count) as [Hneg|(s & Hs & Hle)].
  - rewrite (proj2 (Z.leb_gt _ _)) by lia. cbn [mbind option_bind]. apply IH; [lia|intros; apply Hnodes; lia|by split; cbn; rewrite ?length_insert|].
    apply (indexed_add view count i l m b (l_children l)); try done; [lia|by left].
  - rewrite Hs. rewrite (proj2 (Z.leb_le _ _)) by lia. rewrite Nat2Z.id.
    destruct (lookup_lt_is_Some_2 (l_children l) s ltac:(lia)) as [c0 Hc0]. rewrite Hc0. cbn [mbind option_bind].
    apply IH; [lia|intros; apply Hnodes; lia|by split; cbn; rewrite ?length_insert|].
    apply (indexed_add view count i l m b); try done; [lia|]. right. by exists s, c0.
Qed.
(** ** Lookup *)

(** The nodes are the same, only the index may differ. *)
Definition same_nodes (view view' : md_mount_namespace) : Prop :=
  (∀ i, md_view_mount_node view' i = md_view_mount_node view i) ∧ (n_tree view' = None ↔ n_tree view = None).
Lemma same_slot view view' m count : same_nodes view view' → md_view_mount_slot view' m count = md_view_mount_slot view m count.
Proof. intros [_ H]. unfold md_view_mount_slot. destruct m as [[|i]|]; [done| |done]. by rewrite (bool_decide_ext _ _ H). Qed.
Lemma indexed_same view view' count n l : same_nodes view view' → indexed view count n l → indexed view' count n l.
Proof.
  intros Hn [Hb Hc]. pose proof Hn as [Hnode _]. split.
  - intros h Hh. destruct (Hb h Hh) as (link & ? & Hl). exists link. split; [done|].
    assert (bucket_nodes view' count h n = bucket_nodes view count h n) as ->; [|done].
    unfold bucket_nodes. apply list_filter_iff. intros i. unfold in_bucket. by rewrite Hnode.
  - intros slot Hs. destruct (Hc slot Hs) as (c & Hlc & Hbits). exists c. split; [done|]. intros i m Hi. rewrite Hnode, (same_slot view) by done. by apply Hbits.
Qed.
Definition current (l : placement) (count : nat) : bool := l_valid l && Nat.eqb (l_count l) count.
Record tree_ok (view : md_mount_namespace) (t : md_fs_mounts) : Prop := mk_tree_ok {
  to_tree : n_tree view = Some t;
  to_count : Z.of_nat (t_count t) ≤ MD_FS_MOUNTS_MAX;
  to_mounts : length (t_mounts t) = Z.to_nat MD_FS_MOUNTS_MAX;
  to_sized : sized (t_lookup t);
  to_index : current (t_lookup t) (t_count t) = true → indexed view (t_count t) 0 (t_lookup t) }.
Lemma tree_node view t i : tree_ok view t → (i ≤ t_count t)%nat → is_Some (md_view_mount_node view i).
Proof.
  intros [Ht Hc Hm _ _] Hi. destruct i as [|i]; cbn; [by eexists|]. rewrite Ht. cbn. apply lookup_lt_is_Some_2. unfold MD_FS_MOUNTS_MAX in *. lia.
Qed.
Lemma same_with_lookup view t l : n_tree view = Some t → same_nodes view (with_tree view (with_lookup t l)).
Proof. intros Ht. split; [|rewrite Ht; done]. intros [|i]; cbn; [done|]. by rewrite Ht. Qed.
Lemma links_none next h view count : links next 0 (bucket_nodes view count h (S count)).
Proof. unfold bucket_nodes. by rewrite Nat.sub_diag. Qed.
Lemma placement_index_ok view t :
  tree_ok view t → ∃ t', placement_index address view t = Some t' ∧ tree_ok (with_tree view t') t' ∧ same_nodes view (with_tree view t')
    ∧ t_count t' = t_count t ∧ indexed view (t_count t) 0 (t_lookup t').
Proof.
  intros Hok. pose proof Hok as [Ht Hc Hm Hz Hix]. unfold placement_index. fold (current (t_lookup t) (t_count t)).
  destruct (current (t_lookup t) (t_count t)) eqn:Ecur.
  { exists t. assert (with_tree view t = view) as -> by (destruct view; unfold with_tree; cbn in *; congruence).
    split_and!; try done. by apply Hix. }
  destruct Hz as [Hz1 Hz2 Hz3]. set (cleared := mk_placement _ _ _ _ _).
  assert (sized cleared) as Hzc.
  { split; cbn -[replicate]; [by rewrite length_replicate|done|]. rewrite length_app, length_replicate, length_drop. unfold MD_FS_MOUNTS_MAX in *. lia. }
  destruct (index_loop_ok view (t_count t) (S (t_count t)) cleared) as (l & -> & Hzl & Hl); [done|done| |done| |].
  { intros i Hi. apply (tree_node view t); [done|lia]. }
  { split.
    - intros h Hh. exists 0. split; [by apply lookup_replicate|apply links_none].
    - intros slot Hs. exists 0. split; [|intros; lia]. unfold cleared. cbn [l_children]. rewrite lookup_app_l by (rewrite length_replicate; lia).
      apply lookup_replicate. lia. }
  cbn [mbind option_bind]. eexists. split; [done|]. pose proof (same_with_lookup view t (mk_placement (t_count t) true (l_buckets l) (l_next l) (l_children l)) Ht) as Hsame.
  assert (indexed view (t_count t) 0 (mk_placement (t_count t) true (l_buckets l) (l_next l) (l_children l))) as Hi by (by destruct Hl).
  split_and!; try done. split; try done; [by destruct Hzl|]. intros _. by eapply indexed_same.
Qed.
(** The first node that is mounted there, by a scan of all. *)
Definition mounted (view : md_mount_namespace) (parent : option nat) (device inode : Z) (i : nat) : bool :=
  match md_view_mount_node view i with Some m => live_mount m && placed_on parent device inode m | None => false end.
Definition first_mounted (view : md_mount_namespace) (count : nat) (parent : option nat) (device inode : Z) : option nat :=
  List.find (mounted view parent device inode) (seq 0 (S count)).
Lemma scan_nodes_ok view parent device inode n i :
  (∀ j, (i ≤ j < i + n)%nat → is_Some (md_view_mount_node view j)) →
  scan_nodes n i view parent device inode = Some (List.find (mounted view parent device inode) (seq i n)).
Proof.
  revert i. induction n as [|n IH]; intros i Hn; [done|]. cbn. unfold mounted at 1. destruct (Hn i ltac:(lia)) as [m ->]. cbn.
  unfold live_mount. rewrite negb_orb, <- Z.leb_antisym. destruct (_ && _); [done|]. apply IH. intros j Hj. apply Hn. lia.
Qed.
Lemma follow_ok view next parent device inode fuel link nodes :
  links next link nodes → (∀ j, j ∈ nodes → is_Some (md_view_mount_node view j)) → (length nodes ≤ fuel)%nat →
  follow fuel link view next parent device inode
  = Some (List.find (λ i, match md_view_mount_node view i with Some m => placed_on parent device inode m | None => false end) nodes).
Proof.
  revert fuel link. induction nodes as [|j nodes IH]; intros fuel link Hl Hn Hf.
  { cbn in Hl. subst. by destruct fuel. }
  destruct Hl as [-> (k & Hk & Hl)], fuel as [|fuel]; [cbn in Hf; lia|]. cbn [follow]. rewrite (proj2 (Z.eqb_neq _ _)) by lia.
  replace (Z.to_nat (Z.of_nat (S j) - 1)) with j by lia. cbn [List.find]. destruct (Hn j ltac:(by left)) as [m Hm]. rewrite Hm. cbn [mbind option_bind].
  destruct (placed_on _ _ _ m); [done|]. rewrite Hk. cbn [mbind option_bind]. apply IH; [done| |cbn in Hf; lia].
  intros i Hi. apply Hn. by right.
Qed.
Lemma find_filter {A} (f : A → bool) (P : A → Prop) `{∀ x, Decision (P x)} (l : list A) :
  List.find f (filter P l) = List.find (λ x, f x && bool_decide (P x)) l.
Proof.
  induction l as [|x l IH]; [done|]. rewrite filter_cons. case_decide as E; cbn.
  - rewrite bool_decide_true, andb_true_r by done. by rewrite IH.
  - rewrite bool_decide_false, andb_false_r by done. done.
Qed.
Lemma bucket_find view count parent device inode :
  List.find (λ i, match md_view_mount_node view i with Some m => placed_on parent device inode m | None => false end)
    (bucket_nodes view count (Z.to_nat (placement_hash address parent device inode)) 0)
  = first_mounted view count parent device inode.
Proof.
  unfold bucket_nodes, first_mounted. rewrite find_filter, Nat.sub_0_r. apply find_ext. intros i. unfold mounted.
  destruct (md_view_mount_node view i) as [m|] eqn:Em; [|done]. rewrite (andb_comm (live_mount m)).
  destruct (placed_on parent device inode m) eqn:Ep; [|done]. cbn [andb].
  apply andb_true_iff in Ep as [Ep1 [Ed Ei]%andb_true_iff]. apply bool_decide_eq_true in Ep1. apply Z.eqb_eq in Ed, Ei.
  assert (in_bucket view (Z.to_nat (placement_hash address parent device inode)) i ↔ live_mount m = true) as Hin.
  { unfold in_bucket, node_hash. rewrite Em, Ep1, <- Ed, <- Ei. naive_solver. }
  rewrite (bool_decide_ext _ _ Hin). by destruct (live_mount m).
Qed.
Lemma mount_lookup_ok view t parent device inode :
  tree_ok view t →
  ∃ view' t', md_view_mount_lookup address view parent device inode = Some (view', first_mounted view (t_count t) parent device inode)
    ∧ tree_ok view' t' ∧ same_nodes view view' ∧ t_count t' = t_count t.
Proof.
  intros Hok. pose proof (to_tree _ _ Hok) as Ht. unfold md_view_mount_lookup. rewrite Ht. destruct (t_count t <=? 8)%nat eqn:Es.
  { rewrite scan_nodes_ok by (intros j Hj; apply (tree_node view t); [done|lia]). cbn [mbind option_bind]. by exists view, t. }
  destruct (placement_index_ok view t Hok) as (t' & -> & Hok' & Hsame & Hcount & Hix). cbn [mbind option_bind].
  pose proof (placement_hash_bound parent device inode) as Hh.
  destruct (ix_buckets _ _ _ _ Hix (Z.to_nat (placement_hash address parent device inode)) ltac:(lia)) as (link & -> & Hlinks). cbn [mbind option_bind].
  rewrite (follow_ok view _ parent device inode _ _ _ Hlinks).
  - cbn [mbind option_bind]. rewrite bucket_find. by exists (with_tree view t'), t'.
  - intros j Hj%bucket_nodes_above. apply (tree_node view t); [done|lia].
  - unfold bucket_nodes. rewrite Hcount. etrans; [apply length_filter|]. rewrite length_seq. lia.
Qed.
Lemma children_ok view t parent :
  tree_ok view t →
  ∃ view' t' c, md_view_mount_children address view parent = Some (view', c) ∧ tree_ok view' t' ∧ same_nodes view view' ∧ t_count t' = t_count t
    ∧ (md_view_mount_slot view parent (t_count t) < 0 → c = UINT64_MAX)
    ∧ ∀ i m, (i ≤ t_count t)%nat → md_view_mount_node view i = Some m → live_mount m = true →
        0 ≤ md_view_mount_slot view parent (t_count t) → md_view_mount_slot view (m_parent m) (t_count t) = md_view_mount_slot view parent (t_count t) →
        has_bits c (md_inode_mount_bit (m_device m) (m_inode m)) = true.
Proof.
  intros Hok. pose proof (to_tree _ _ Hok) as Ht. unfold md_view_mount_children. rewrite Ht.
  destruct (slot_range view parent (t_count t)) as [Hneg|(s & Hs & Hle)].
  { rewrite (proj2 (Z.ltb_lt _ _)) by done. exists view, t, UINT64_MAX. split_and!; try done. intros i m _ _ _ Hge. lia. }
  rewrite Hs, (proj2 (Z.ltb_ge _ _)), Nat2Z.id by lia. destruct (placement_index_ok view t Hok) as (t' & -> & Hok' & Hsame & Hcount & Hix).
  cbn [mbind option_bind]. destruct (ix_children _ _ _ _ Hix s Hle) as (c & -> & Hbits). cbn [mbind option_bind].
  exists (with_tree view t'), t', c. split_and!; try done; [lia|]. intros i m Hi Hm Hlive _ E. by apply (Hbits i m); [lia|..].
Qed.

(** A view in use: its tree starts empty and unindexed, its mounts are replaced under
    [md_view_mount_lookup_changed], and lookups go on in between. *)
Inductive served : md_mount_namespace → Prop :=
  | served_new base root mounts l :
      length mounts = Z.to_nat MD_FS_MOUNTS_MAX → sized l → l_valid l = false → served (mk_view base root (Some (mk_tree 0 mounts l)))
  | served_changed view t base root count mounts :
      served view → n_tree view = Some t → Z.of_nat count ≤ MD_FS_MOUNTS_MAX → length mounts = Z.to_nat MD_FS_MOUNTS_MAX →
      served (md_view_mount_lookup_changed (mk_view base root (Some (mk_tree count mounts (t_lookup t)))))
  | served_lookup view parent device inode view' r :
      served view → md_view_mount_lookup address view parent device inode = Some (view', r) → served view'
  | served_children view parent view' c :
      served view → md_view_mount_children address view parent = Some (view', c) → served view'.
Lemma served_ok view : served view → ∃ t, tree_ok view t.
Proof.
  induction 1 as [base root mounts l Hl Hz Hv|view t base root count mounts _ [t0 IH] Ht Hc Hl|view parent device inode view' r _ [t IH] Hr|view parent view' c _ [t IH] Hr].
  - eexists. split; [done..|]. cbn. unfold current. by rewrite Hv.
  - rewrite (to_tree _ _ IH) in Ht. injection Ht as <-. eexists. split; cbn; try done. by destruct (to_sized _ _ IH).
  - destruct (mount_lookup_ok view t parent device inode IH) as (v & t' & E & Hok & _). rewrite Hr in E. injection E as -> _. by exists t'.
  - destruct (children_ok view t parent IH) as (v & t' & c' & E & Hok & _). rewrite Hr in E. injection E as -> _. by exists t'.
Qed.
End index.

(** C39: In a view that is served by lookups while its mounts are replaced and the
    index invalidated, whatever the addresses of the mounts, a lookup stays inside
    its arrays, follows finitely many links, and finds the mount with the lowest
    number that is attached to the given directory of the given parent: the answer
    of a scan over all mounts, although larger trees are searched through the hash
    index.  Neither the lookup nor the index changes a mount.  The filter of a parent's
    children has the bit of every directory of that parent that is covered. *)
Theorem mount_lookup_exact address view t parent device inode :
  served address view → n_tree view = Some t →
  (∃ view', md_view_mount_lookup address view parent device inode = Some (view', first_mounted view (t_count t) parent device inode)
     ∧ ∀ i, md_view_mount_node view' i = md_view_mount_node view i)
  ∧ ∃ view' c, md_view_mount_children address view parent = Some (view', c) ∧ (∀ i, md_view_mount_node view' i = md_view_mount_node view i)
      ∧ ∀ i m, (i ≤ t_count t)%nat → md_view_mount_node view i = Some m → live_mount m = true →
          0 ≤ md_view_mount_slot view parent (t_count t) → md_view_mount_slot view (m_parent m) (t_count t) = md_view_mount_slot view parent (t_count t) →
          has_bits c (md_inode_mount_bit (m_device m) (m_inode m)) = true.
Proof.
  intros Hs Ht. destruct (served_ok address view Hs) as [t0 Hok]. pose proof (to_tree _ _ _ Hok) as E. rewrite Ht in E. injection E as <-. split.
  - destruct (mount_lookup_ok address view t parent device inode Hok) as (view' & t' & H1 & _ & [H2 _] & _). by exists view'.
  - destruct (children_ok address view t parent Hok) as (view' & t' & c & H1 & _ & [H2 _] & _ & _ & H3). by exists view', c.
Qed.

(** ** Slots, identities and the order of a view *)

Definition blank_mount : md_view_mount := mk_mount (-1) false None 0 0 0 0.
(** The first slot that no mount holds and whose generation is not used up. *)
Fixpoint vacant_slot (n i : nat) (entries : list md_view_mount) : option nat :=
  match n with
  | O => None
  | S n => match entries !! i with
           | Some m => if (m_id m =? 0) && (m_generation m <? UINT64_MAX) then Some i else vacant_slot n (S i) entries
           | None => vacant_slot n (S i) entries
           end
  end.
Definition md_view_mount_vacant (entries : list md_view_mount) (count : nat) : list md_view_mount * nat * Z :=
  match vacant_slot count 0 entries with
  | Some i => (entries, count, Z.of_nat i)
  | None =>
      if MD_FS_MOUNTS_MAX <=? Z.of_nat count then (entries, count, - ENOSPC)
      else (<[count := blank_mount]> entries, S count, Z.of_nat count)
  end.
(** [next]: the counter; the identity, or an error. *)
Definition md_mount_id_allocate (next : Z) : Z * (Z + Z) :=
  if next =? UINT32_MAX then (next, inr (- EOVERFLOW)) else (next + 1, inl next).
(** What the loop does with one mount. *)
Definition view_parent (view : md_mount_namespace) (count i : nat) (m : md_view_mount) : option (Z + Z) :=
  if m_id m =? 0 then Some (inl 0)
  else
    match m_parent m with
    | None => Some (if negb (bool_decide (n_root view = Some i)) && negb (m_detached m) then inr (- EINVAL) else inl 0)
    | Some q =>
        if bool_decide (n_root view = Some i) then Some (inr (- EINVAL))
        else if Nat.eqb q 0 then Some (inl 1)
        else
          let slot := md_view_mount_slot view (Some q) count in
          if slot <=? 0 then Some (inr (- EINVAL))
          else
            above ← md_view_mount_node view (Z.to_nat slot);
            Some (if m_id above =? 0 then inr (- EINVAL) else inl (slot + 1))
    end.
(** The parent numbers of the nodes from [i]. *)
Fixpoint view_parents (n i : nat) (view : md_mount_namespace) (count : nat) : option (list Z + Z) :=
  match n with
  | O => Some (inl [])
  | S n =>
      m ← md_view_mount_node view i;
      p ← view_parent view count i m;
      match p with
      | inr e => Some (inr e)
      | inl p => rest ← view_parents n (S i) view count; Some (let! rest := rest in inl (p :: rest))
      end
  end.
Definition md_view_topology_order (view : option md_mount_namespace) (order : option (list Z)) : option (list Z + Z) :=
  match view, order with
  | Some view, Some order =>
      let count := match n_tree view with Some t => t_count t | None => O end in
      if MD_FS_MOUNTS_MAX <? Z.of_nat count then Some (inr (- EINVAL))
      else
        parents ← view_parents (S count) 0 view count;
        match parents with
        | inr e => Some (inr e)
        | inl parents => md_mount_topology_order (S count) (Some parents) (Some order)
        end
  | _, _ => Some (inr (- EINVAL))
  end.

Lemma slot_value view q count s : md_view_mount_slot view (Some q) count = Z.of_nat s → s = q.
Proof. unfold md_view_mount_slot, ESTALE. destruct q as [|q]; [lia|]. destruct (_ || _); [lia|]. destruct (_ <=? _)%nat; lia. Qed.
Lemma view_parent_ok view count i m :
  (∀ j, (j ≤ count)%nat → is_Some (md_view_mount_node view j)) →
  ∃ r, view_parent view count i m = Some r ∧
    match r with inr e => e = - EINVAL | inl p => 0 ≤ p ∧ ∀ q, m_id m ≠ 0 → m_parent m = Some q → p = Z.of_nat q + 1 end.
Proof.
  intros Hnodes. unfold view_parent. destruct (m_id m =? 0) eqn:Eid; breflect; [by eexists|].
  destruct (m_parent m) as [q|]; [|destruct (_ && _); by eexists]. case_bool_decide; [by eexists|].
  destruct (Nat.eqb q 0) eqn:Eq; [apply Nat.eqb_eq in Eq as ->; eexists; split; [done|]; split; [done|]; by intros q _ [= <-]|]. cbv zeta.
  destruct (slot_range view (Some q) count) as [Hneg|(s & Hs & Hle)]; [rewrite (proj2 (Z.leb_le _ _)) by lia; by eexists|].
  rewrite Hs. destruct (Z.of_nat s <=? 0) eqn:E0; [by eexists|]. rewrite Nat2Z.id. destruct (Hnodes s Hle) as [above ->]. cbn [mbind option_bind].
  apply slot_value in Hs as ->. destruct (m_id above =? 0); [by eexists|]. eexists. split; [done|]. split; [lia|]. by intros q' _ [= ->].
Qed.
Lemma view_parents_ok view count n i :
  (∀ j, (j ≤ count)%nat → is_Some (md_view_mount_node view j)) → (i + n = S count)%nat →
  ∃ r, view_parents n i view count = Some r ∧
    match r with
    | inr e => e = - EINVAL
    | inl l => length l = n ∧ Forall (λ p, 0 ≤ p) l
        ∧ ∀ k m q, (k < n)%nat → md_view_mount_node view (i + k) = Some m → m_id m ≠ 0 → m_parent m = Some q → l !! k = Some (Z.of_nat q + 1)
    end.
Proof.
  intros Hnodes. revert i. induction n as [|n IH]; intros i Hi; [eexists; split; [done|]; split_and!; [done|constructor|lia]|].
  cbn [view_parents]. destruct (Hnodes i ltac:(lia)) as [m Hm]. rewrite Hm. cbn [mbind option_bind].
  destruct (view_parent_ok view count i m Hnodes) as ([p|e] & -> & Hp); cbn [mbind option_bind]; [|by eexists].
  destruct (IH (S i) ltac:(lia)) as ([l|e] & -> & Hl); cbn [mbind option_bind ebind]; [|by eexists]. destruct Hp as [Hp0 Hp], Hl as (Hlen & Hpos & Hl).
  eexists. split; [done|]. split_and!; [cbn; lia|by constructor|]. intros [|k] m' q Hk Hm' Hid Hq.
  - rewrite Nat.add_0_r in Hm'. rewrite Hm in Hm'. injection Hm' as <-. cbn. f_equal. by apply Hp.
  - cbn. apply (Hl k m' q); try done; [lia|]. by replace (S i + k)%nat with (i + S k)%nat by lia.
Qed.
(** Attached mounts come after the mounts they are attached to. *)
Lemma view_order_parents_first address view t order :
  served address view → n_tree view = Some t → length order = S (t_count t) →
  ∃ r, md_view_topology_order (Some view) (Some order) = Some r ∧
    match r with
    | inr e => e = - EINVAL ∨ e = - ELOOP
    | inl l => ∃ nodes, l = Z.of_nat <$> nodes ∧ nodes ≡ₚ seq 0 (S (t_count t))
        ∧ ∀ i m q, (i ≤ t_count t)%nat → md_view_mount_node view i = Some m → m_id m ≠ 0 → m_parent m = Some q →
            ∃ x y, nodes !! x = Some q ∧ nodes !! y = Some i ∧ (x < y)%nat
    end.
Proof.
  intros Hs Ht Hl. destruct (served_ok address view Hs) as [t0 Hok]. pose proof (to_tree _ _ _ Hok) as E. rewrite Ht in E. injection E as <-.
  unfold md_view_topology_order. rewrite Ht. rewrite (proj2 (Z.ltb_ge _ _)) by apply (to_count _ _ _ Hok).
  destruct (view_parents_ok view (t_count t) (S (t_count t)) 0) as ([parents|e] & -> & Hp); [intros; by eapply tree_node|done| |eexists; split; [done|]; by left].
  cbn [mbind option_bind]. destruct Hp as (Hlen & Hpos & Hpar). rewrite <- Hlen in Hl |- *.
  pose proof (topology_order_ok parents order Hpos Hl) as Hord. cbv zeta in Hord. destruct Hord as [[-> _]|[[-> _]|(l & -> & _ & Hperm & _ & Hfirst)]]; [eexists; split; [done|]; by left|eexists; split; [done|]; by right|].
  eexists. split; [done|]. exists l. split_and!; [done|done|]. intros i m q Hi Hm Hid Hq. apply Hfirst. unfold parent.
  rewrite (Hpar i m q) by (done || lia). cbn. rewrite (proj2 (Z.eqb_neq _ _)) by lia. f_equal. lia.
Qed.
(** A slot that was handed out is free, and no other changes. *)
Lemma vacant_fresh entries count entries' count' i :
  length entries = Z.to_nat MD_FS_MOUNTS_MAX → (count ≤ length entries)%nat → md_view_mount_vacant entries count = (entries', count', Z.of_nat i) →
  (i < count' ≤ length entries)%nat ∧ (∃ m, entries' !! i = Some m ∧ m_id m = 0) ∧ ∀ j, j ≠ i → entries' !! j = entries !! j.
Proof.
  intros Hlen Hc. unfold md_view_mount_vacant. destruct (vacant_slot count 0 entries) as [k|] eqn:Ev.
  - intros [= <- <- E]. apply Nat2Z.inj in E as ->.
    assert (∀ n j, vacant_slot n j entries = Some i → (j ≤ i < j + n)%nat ∧ ∃ m, entries !! i = Some m ∧ m_id m = 0) as Hs.
    { clear. induction n as [|n IH]; intros j; cbn; [done|]. destruct (entries !! j) as [m|] eqn:Em.
      - destruct (_ && _) eqn:E; [intros [= ->]; breflect; split; [lia|by exists m]|]. intros [? ?]%IH. split; [lia|done].
      - intros [? ?]%IH. split; [lia|done]. }
    apply Hs in Ev as [? ?]. split_and!; try done; lia.
  - destruct (MD_FS_MOUNTS_MAX <=? Z.of_nat count) eqn:E; [intros [= <- <- H]; unfold ENOSPC in H; lia|]. breflect. intros [= <- <- H].
    apply Nat2Z.inj in H as ->. split_and!; [lia|lia| |intros j Hj; by rewrite list_lookup_insert_ne].
    exists blank_mount. by rewrite list_lookup_insert_eq by lia.
Qed.

(** ** Witnesses *)

(** Twelve mounts on directories of the base; the fourth and the sixth on the same. *)
Definition sample_mounts : list md_view_mount :=
  ((λ i, mk_mount 5 false (Some O) 1 (if decide (i = 5%nat) then 3 else Z.of_nat i) (Z.of_nat i + 1) 1) <$> seq 0 12)
  ++ replicate (Z.to_nat MD_FS_MOUNTS_MAX - 12) blank_mount.
Definition sample_index : placement :=
  mk_placement 0 false (replicate 1024 0) (replicate (S (Z.to_nat MD_FS_MOUNTS_MAX)) 0) (replicate (S (Z.to_nat MD_FS_MOUNTS_MAX)) 0).
Definition sample_address (m : option nat) : Z := match m with None => 0 | Some i => 4096 + 512 * Z.of_nat i end.
Definition sample_tree : md_fs_mounts := mk_tree 0 (replicate (Z.to_nat MD_FS_MOUNTS_MAX) blank_mount) sample_index.
Definition sample_empty : md_mount_namespace := mk_view blank_mount (Some O) (Some sample_tree).
Definition sample_view : md_mount_namespace :=
  md_view_mount_lookup_changed (mk_view blank_mount (Some O) (Some (mk_tree 12 sample_mounts sample_index))).
Lemma mount_lookup_exact_witness :
  ∃ view', md_view_mount_lookup sample_address sample_view (Some O) 1 3 = Some (view', Some 4%nat).
Proof.
  assert (served sample_address sample_view) as Hs.
  { apply (served_changed sample_address sample_empty sample_tree blank_mount (Some O) 12 sample_mounts); [|reflexivity|done|vm_compute; reflexivity].
    apply served_new; [by rewrite length_replicate| |done]. split; unfold sample_index; cbn [l_buckets l_next l_children]; apply length_replicate. }
  destruct (mount_lookup_exact sample_address sample_view (mk_tree 12 sample_mounts sample_index) (Some O) 1 3 Hs) as [(view' & H & _) _]; [reflexivity|].
  exists view'. rewrite H. reflexivity.
Defined.
