(* ===== verification/BinfmtRule.v ===== *)
(** * Registrations of binary formats (binfmt_rule.c).

    A registration line is seven fields behind a delimiter of the writer's choice:
    name, kind, offset, magic, mask, interpreter, flags.  [md_binfmt_rule_parse]
    decodes it once; [md_binfmt_rule_matches] compares the first bytes of a file, or
    its extension, with the decoded rule; [md_binfmt_rule_format] is the status text.

    Text is a list of bytes without the terminating NUL; an array inside a rule has
    all its bytes. *)
From S2P Require Import Prelude CLib.

Definition MD_BINFMT_REGISTER_MAX : Z := 1920.
Definition MD_BINFMT_HEADER : Z := 256.
Definition NAME_MAX : Z := 255.
Definition MD_BINFMT_PRESERVE : Z := 1.
Definition MD_BINFMT_OPEN : Z := 2.
Definition MD_BINFMT_CREDENTIALS : Z := 4.
Definition MD_BINFMT_FIXED : Z := 8.
(** Characters. *)
Definition NEWLINE : Z := 10.
Definition DOT : Z := 46.
Definition SLASH : Z := 47.
Definition BACKSLASH : Z := 92.
Definition LOWER_X : Z := 120.

Record md_binfmt_rule := mk_rule {
  r_name : list Z; r_interpreter : list Z; r_flags : Z; r_offset : Z; r_size : Z; r_extension : bool;
  r_magic : list Z; r_mask : list Z }.

Definition hex (c : Z) : Z :=
  if (48 <=? c) && (c <=? 57) then c - 48
  else if (97 <=? c) && (c <=? 102) then c - 97 + 10
  else if (65 <=? c) && (c <=? 70) then c - 65 + 10
  else -1.
(** [out]: the bytes written so far, latest first. *)
Fixpoint decode_loop (s : list Z) (out : list Z) (capacity : Z) : list Z + Z :=
  match s with
  | [] => inl (rev out)
  | c :: s =>
      let store c s := if Z.of_nat (length out) =? capacity then inr (- EINVAL) else decode_loop s (c :: out) capacity in
      match s with
      | x :: s' =>
          if (c =? BACKSLASH) && (x =? LOWER_X) then
            match s' with
            | a :: b :: s'' =>
                if (hex a <? 0) || (hex b <? 0) then inr (- EINVAL)
                else store (Z.lor (Z.shiftl (hex a) 4) (hex b)) s''
            | _ => inr (- EINVAL)
            end
          else store c s
      | [] => store c s
      end
  end.
Definition decode (s : list Z) (capacity : Z) : list Z + Z := decode_loop s [] capacity.

(** [strchr]: the text before the first [c] and the text after it. *)
Fixpoint strchr (c : Z) (s : list Z) : option (list Z * list Z) :=
  match s with
  | [] => None
  | x :: s => if x =? c then Some ([], s) else '(a, b) ← strchr c s; Some (x :: a, b)
  end.
(** [n] fields that end in the delimiter, and the rest. *)
Fixpoint split_fields (n : nat) (delimiter : Z) (cursor : list Z) : option (list (list Z)) :=
  match n with
  | O => Some [cursor]
  | S n =>
      '(field, cursor) ← strchr delimiter cursor;
      fields ← split_fields n delimiter cursor;
      Some (field :: fields)
  end.
Definition has_byte (c : Z) (s : list Z) : bool := existsb (Z.eqb c) s.
Fixpoint parse_offset (s : list Z) (offset : Z) : Z + Z :=
  match s with
  | [] => inl offset
  | c :: s =>
      if (c <? 48) || (57 <? c) || (MD_BINFMT_HEADER <=? offset) then inr (- EINVAL)
      else parse_offset s (wrap32 (offset * 10 + (c - 48)))
  end.
Definition flag_of (c : Z) : Z :=
  if c =? 80 then MD_BINFMT_PRESERVE else if c =? 79 then MD_BINFMT_OPEN
  else if c =? 67 then MD_BINFMT_CREDENTIALS else if c =? 70 then MD_BINFMT_FIXED else 0.
Fixpoint parse_flags (s : list Z) (flags : Z) : Z + Z :=
  match s with
  | [] => inl flags
  | c :: s =>
      let flag := flag_of c in
      if (flag =? 0) || has_bits flags flag then inr (- EINVAL) else parse_flags s (Z.lor flags flag)
  end.
(** An array of [n] bytes that starts with [l]. *)
Definition array (n : Z) (l : list Z) : list Z := resize (Z.to_nat n) 0 l.
(** What the rule matches: offset, size, magic and mask. *)
Definition parse_match (kind : Z) (offset magic mask : list Z) : (Z * Z * list Z * list Z) + Z :=
  let size l := Z.of_nat (length l) in
  if kind =? 69 then
    if (size magic =? 0) || (MD_BINFMT_HEADER <=? size magic) || has_byte SLASH magic then inr (- EINVAL)
    else inl (0, size magic, array MD_BINFMT_HEADER magic, array MD_BINFMT_HEADER [])
  else
    let! offset := parse_offset offset 0 in
    let! m := decode magic MD_BINFMT_HEADER in
    let n := size m in
    if (n =? 0) || (MD_BINFMT_HEADER <? wrap32 (offset + n)) then inr (- EINVAL)
    else if size mask =? 0 then inl (offset, n, array MD_BINFMT_HEADER m, array MD_BINFMT_HEADER (replicate (length m) 255))
    else
      let! k := decode mask MD_BINFMT_HEADER in
      if negb (size k =? n) then inr (- EINVAL) else inl (offset, n, array MD_BINFMT_HEADER m, array MD_BINFMT_HEADER k).
Definition parse_fields (fields : list (list Z)) : md_binfmt_rule + Z :=
  match fields with
  | [name; kind; offset; magic; mask; interpreter; flags] =>
      let size l := Z.of_nat (length l) in
      if (size name =? 0) || (NAME_MAX <? size name) || has_byte SLASH name || bool_decide (name = [DOT]) || bool_decide (name = [DOT; DOT])
         || (size interpreter =? 0) || negb (default 0 (head interpreter) =? SLASH) || (MD_BINFMT_REGISTER_MAX <=? size interpreter)
      then inr (- EINVAL)
      else
        match kind with
        | [k] =>
            if negb (k =? 77) && negb (k =? 69) then inr (- EINVAL)
            else
              let! m := parse_match k offset magic mask in
              let! f := parse_flags flags 0 in
              let f := if has_bits f MD_BINFMT_CREDENTIALS then Z.lor f MD_BINFMT_OPEN else f in
              let '(offset, n, magic, mask) := m in
              inl (mk_rule name interpreter f offset n (k =? 69) magic mask)
        | _ => inr (- EINVAL)
        end
  | _ => inr (- EINVAL)
  end.
Definition md_binfmt_rule_parse (data : option (list Z)) : md_binfmt_rule + Z :=
  match data with
  | None => inr (- EINVAL)
  | Some text =>
      let size := Z.of_nat (length text) in
      if (size =? 0) || (MD_BINFMT_REGISTER_MAX <? size) || has_byte 0 text then inr (- EINVAL)
      else
        let text := if default 0 (last text) =? NEWLINE then removelast text else text in
        match text with
        | [] => inr (- EINVAL)
        | delimiter :: cursor =>
            if (delimiter =? 0) || (delimiter =? NEWLINE) then inr (- EINVAL)
            else match split_fields 6 delimiter cursor with None => inr (- EINVAL) | Some fields => parse_fields fields end
        end
  end.

(** ** Matching *)

(** The text after the last [c], if there is one. *)
Fixpoint strrchr (c : Z) (s : list Z) : option (list Z) :=
  match s with
  | [] => None
  | x :: s => match strrchr c s with Some r => Some r | None => if x =? c then Some s else None end
  end.
(** [for (i=0;i<size;++i) if ((p[i]^magic[i])&mask[i]) return 0]; [None]: outside an array. *)
Fixpoint masked_same (n i : nat) (p magic mask : list Z) : option bool :=
  match n with
  | O => Some true
  | S n =>
      a ← p !! i;
      b ← magic !! i;
      m ← mask !! i;
      if has_bits (Z.lxor a b) m then Some false else masked_same n (S i) p magic mask
  end.
Definition md_binfmt_rule_matches (r : md_binfmt_rule) (path header : list Z) : option bool :=
  if r_extension r then
    let base := default path (strrchr SLASH path) in
    Some (match strrchr DOT base with Some extension => bool_decide (extension = c_string (r_magic r)) | None => false end)
  else if Z.of_nat (length header) <? wrap32 (r_offset r + r_size r) then Some false
  else masked_same (Z.to_nat (r_size r)) 0 (drop (Z.to_nat (r_offset r)) header) (r_magic r) (r_mask r).

(** ** The status text *)

Definition text (s : string) : list Z := (λ c, Z.of_N (Ascii.N_of_ascii c)) <$> String.list_ascii_of_string s.
(** [%u] *)
Fixpoint digits (fuel : nat) (n : Z) (out : list Z) : list Z :=
  match fuel with
  | O => out
  | S fuel => let out := 48 + n mod 10 :: out in if n / 10 =? 0 then out else digits fuel (n / 10) out
  end.
Definition decimal (n : Z) : list Z := digits 10 n [].
Definition hex_digit (n : Z) : Z := if n <? 10 then 48 + n else 97 + (n - 10).
Definition hex_text (l : list Z) : list Z := l ≫= λ b, [hex_digit (Z.shiftr b 4); hex_digit (Z.land b 15)].
Definition flags_text (flags : Z) : list Z :=
  (if has_bits flags MD_BINFMT_PRESERVE then [80] else []) ++ (if has_bits flags MD_BINFMT_OPEN then [79] else [])
  ++ (if has_bits flags MD_BINFMT_CREDENTIALS then [67] else []) ++ (if has_bits flags MD_BINFMT_FIXED then [70] else []).
Definition md_binfmt_rule_format (r : md_binfmt_rule) (enabled : bool) (capacity : Z) : list Z + Z :=
  let size := Z.to_nat (r_size r) in
  let first := (if enabled then text "enabled" else text "disabled") ++ [NEWLINE] ++ text "interpreter " ++ r_interpreter r ++ [NEWLINE]
                 ++ text "flags: " ++ flags_text (r_flags r) ++ [NEWLINE] in
  if capacity <=? Z.of_nat (length first) then inr (- ENOSPC)
  else
    let tail := if r_extension r then text "extension ." ++ c_string (r_magic r) ++ [NEWLINE]
                else text "offset " ++ decimal (r_offset r) ++ [NEWLINE] ++ text "magic " ++ hex_text (take size (r_magic r)) ++ [NEWLINE]
                       ++ text "mask " ++ hex_text (take size (r_mask r)) ++ [NEWLINE] in
    if capacity - Z.of_nat (length first) <=? Z.of_nat (length tail) then inr (- ENOSPC) else inl (first ++ tail).

(** ** Well-formed rules *)

Definition byte_ok (b : Z) : Prop := 0 ≤ b < 256.
Definition zero_padded (n : Z) (l : list Z) : Prop := Forall byte_ok l ∧ l = array MD_BINFMT_HEADER (take (Z.to_nat n) l).
Record rule_ok (r : md_binfmt_rule) : Prop := mk_rule_ok {
  ro_name : 1 ≤ Z.of_nat (length (r_name r)) ≤ NAME_MAX ∧ SLASH ∉ r_name r ∧ r_name r ≠ [DOT] ∧ r_name r ≠ [DOT; DOT];
  ro_interpreter : head (r_interpreter r) = Some SLASH ∧ Z.of_nat (length (r_interpreter r)) < MD_BINFMT_REGISTER_MAX;
  ro_flags : 0 ≤ r_flags r < 16 ∧ (has_bits (r_flags r) MD_BINFMT_CREDENTIALS = true → has_bits (r_flags r) MD_BINFMT_OPEN = true);
  ro_range : 0 ≤ r_offset r ∧ 1 ≤ r_size r ∧ r_offset r + r_size r ≤ MD_BINFMT_HEADER;
  ro_magic : zero_padded (r_size r) (r_magic r);
  ro_mask : zero_padded (r_size r) (r_mask r);
  ro_extension : r_extension r = true →
    r_offset r = 0 ∧ r_size r < MD_BINFMT_HEADER ∧ 0 ∉ take (Z.to_nat (r_size r)) (r_magic r) ∧ SLASH ∉ take (Z.to_nat (r_size r)) (r_magic r)
    ∧ r_mask r = array MD_BINFMT_HEADER [] }.

Lemma has_byte_spec c s : has_byte c s = false ↔ c ∉ s.
Proof.
  unfold has_byte. rewrite <- not_true_iff_false, existsb_exists. apply not_iff_compat. split.
  - intros (x & Hx & ->%Z.eqb_eq). by apply list_elem_of_In.
  - intros Hc. exists c. split; [by apply list_elem_of_In|apply Z.eqb_refl].
Qed.
Lemma hex_range c : -1 ≤ hex c < 16.
Proof. unfold hex. repeat case_if; breflect; lia. Qed.
Lemma decode_loop_ok s out capacity r :
  Forall byte_ok s → Forall byte_ok out → Z.of_nat (length out) ≤ capacity → decode_loop s out capacity = inl r →
  Forall byte_ok r ∧ Z.of_nat (length r) ≤ capacity.
Proof.
  remember (length s) as n eqn:Hn. revert s Hn out. induction n as [n IH] using lt_wf_ind. intros s -> out Hs Ho Hl.
  destruct s as [|c s]; cbn [decode_loop].
  { intros [= <-]. rewrite length_rev. split; [by apply Forall_rev|done]. }
  apply Forall_cons in Hs as [Hc Hs].
  assert (∀ c s', byte_ok c → Forall byte_ok s' → (length s' < S (length s))%nat →
    (if Z.of_nat (length out) =? capacity then inr (- EINVAL) else decode_loop s' (c :: out) capacity) = inl r →
    Forall byte_ok r ∧ Z.of_nat (length r) ≤ capacity) as Hstore.
  { intros c' s' Hc' Hs' Hlt. destruct (_ =? _) eqn:E; [done|]. breflect. eapply IH; [exact Hlt|done|done|by constructor|cbn; lia]. }
  destruct s as [|x s]; [by apply Hstore; [..|cbn; lia]|]. destruct ((c =? BACKSLASH) && (x =? LOWER_X)).
  2: { apply Hstore; [done|done|cbn; lia]. }
  destruct s as [|a [|b s]]; try done. destruct ((hex a <? 0) || (hex b <? 0)) eqn:E; [done|]. apply orb_false_iff in E as [E1 E2]. breflect.
  apply Hstore; [|by do 3 apply Forall_cons in Hs as [_ Hs]|cbn; lia]. unfold byte_ok. pose proof (hex_range a). pose proof (hex_range b).
  rewrite Z.lor_comm, lor_shiftl_add by lia. lia.
Qed.
Lemma parse_offset_ok s off r : Forall byte_ok s → 0 ≤ off ≤ 2559 → parse_offset s off = inl r → 0 ≤ r ≤ 2559.
Proof.
  revert off. induction s as [|c s IH]; intros off Hs Hoff; cbn; [by intros [= <-]|]. apply Forall_cons in Hs as [Hc Hs].
  destruct (_ || _) eqn:E; [done|]. unfold MD_BINFMT_HEADER in E. breflect. apply IH; [done|]. rewrite wrap32_small by (unfold UINT32_MAX; lia). lia.
Qed.
Lemma parse_flags_ok s f r : 0 ≤ f < 16 → parse_flags s f = inl r → 0 ≤ r < 16.
Proof.
  revert f. induction s as [|c s IH]; intros f Hf; cbn; [by intros [= <-]|]. destruct (_ || _); [done|]. apply IH.
  assert (0 ≤ flag_of c < 2 ^ 4) as Hfl by (unfold flag_of; repeat case_if; done). change 16 with (2 ^ 4) in *. split.
  - apply Z.lor_nonneg. lia.
  - destruct (Z.eq_dec (Z.lor f (flag_of c)) 0) as [->|]; [done|]. apply Z.log2_lt_pow2.
    + assert (0 ≤ Z.lor f (flag_of c)) by (apply Z.lor_nonneg; lia). lia.
    + rewrite Z.log2_lor by lia.
      destruct (Z.eq_dec f 0) as [->|]; destruct (Z.eq_dec (flag_of c) 0) as [->|]; cbn; try lia;
        repeat match goal with |- context [Z.log2 ?x] => pose proof (proj1 (Z.log2_lt_pow2 x 4 ltac:(lia)) ltac:(lia)); generalize dependent (Z.log2 x); intros end; lia.
Qed.
Lemma array_length n l : 0 ≤ n → Z.of_nat (length (array n l)) = n.
Proof. intros Hn. unfold array. rewrite length_resize. lia. Qed.
Lemma array_padded l n : Forall byte_ok l → Z.of_nat (length l) = n → n ≤ MD_BINFMT_HEADER → zero_padded n (array MD_BINFMT_HEADER l).
Proof.
  intros Hl Hn Hle. unfold MD_BINFMT_HEADER in *. split.
  - unfold array. apply Forall_resize; [done|]. done.
  - unfold array. rewrite take_resize_le by lia. by rewrite (resize_all_alt l (Z.to_nat n)) by lia.
Qed.
Lemma empty_padded n : 0 ≤ n → zero_padded n (array MD_BINFMT_HEADER []).
Proof.
  intros Hn. split; [unfold array; by apply Forall_resize|]. unfold array. rewrite resize_nil, take_replicate, resize_replicate. done.
Qed.
Lemma fields_bytes (Q : Z → Prop) n d s fields : Forall Q s → split_fields n d s = Some fields → Forall (Forall Q) fields.
Proof.
  assert (∀ l a b, Forall Q l → strchr d l = Some (a, b) → Forall Q a ∧ Forall Q b) as Hchr.
  { clear s fields. intros s. induction s as [|x s IH]; intros a b Hs; cbn; [done|]. apply Forall_cons in Hs as [Hx Hs]. destruct (x =? d); [by intros [= <- <-]|].
    intros ([a' b'] & E & [= <- <-])%bind_Some. apply IH in E as [? ?]; [|done]. split; [by constructor|done]. }
  revert s fields. induction n as [|n IH]; intros s fields Hs; cbn; [intros [= <-]; by repeat constructor|].
  intros ([a b] & Ea & (l & El & [= <-])%bind_Some)%bind_Some. apply Hchr in Ea as [? ?]; [|done]. constructor; [done|by eapply IH].
Qed.
Lemma parse_match_ok k offset magic mask off n m w :
  Forall byte_ok offset → Forall byte_ok magic → Forall byte_ok mask → 0 ∉ magic → parse_match k offset magic mask = inl (off, n, m, w) →
  0 ≤ off ∧ 1 ≤ n ∧ off + n ≤ MD_BINFMT_HEADER ∧ zero_padded n m ∧ zero_padded n w
  ∧ (k = 69 → off = 0 ∧ n < MD_BINFMT_HEADER ∧ 0 ∉ take (Z.to_nat n) m ∧ SLASH ∉ take (Z.to_nat n) m ∧ w = array MD_BINFMT_HEADER []).
Proof.
  intros Ho Hm Hw H0. assert (MD_BINFMT_HEADER = 256) as HH by done. unfold parse_match. cbv zeta. destruct (k =? 69) eqn:Ek.
  - destruct (_ || has_byte SLASH magic) eqn:E; [done|]. apply orb_false_iff in E as [E Hsl%has_byte_spec]. breflect. intros [= <- <- <- <-].
    assert (take (Z.to_nat (Z.of_nat (length magic))) (array MD_BINFMT_HEADER magic) = magic) as Et.
    { unfold array. rewrite take_resize_le by lia. apply resize_all_alt. lia. }
    rewrite Et. split_and!; try lia; [apply array_padded; [done|done|lia]|apply empty_padded; lia|].
    intros _. split_and!; try done; lia.
  - intros (off' & Hoff & H)%ebind_inl. apply parse_offset_ok in Hoff; [|done|lia]. apply ebind_inl in H as (m' & Hd & H).
    unfold decode in Hd. apply decode_loop_ok in Hd as [Hb Hl]; [|done|constructor|done]. cbv zeta in H.
    destruct (_ || _) eqn:E; [done|]. breflect. rewrite wrap32_small in * by (unfold UINT32_MAX; lia).
    assert (off' = off ∧ Z.of_nat (length m') = n ∧ array MD_BINFMT_HEADER m' = m ∧ zero_padded n w) as (-> & En & <- & Hzw).
    { destruct (Z.of_nat (length mask) =? 0).
      - injection H as <- <- <- <-. split_and!; try done. apply array_padded; [by apply Forall_replicate|by rewrite length_replicate|lia].
      - apply ebind_inl in H as (w' & Hd & H). unfold decode in Hd. apply decode_loop_ok in Hd as [Hbw Hlw]; [|done|constructor|done].
        destruct (negb _) eqn:En; [done|]. breflect. injection H as <- <- <- <-. split_and!; try done. apply array_padded; [done|done|lia]. }
    split_and!; try lia; try done. apply array_padded; [done|done|lia].
Qed.
Lemma small_cases (n : Z) (P : Z → bool) x : forallb P (seqZ 0 n) = true → 0 ≤ x < n → P x = true.
Proof. rewrite forallb_forall. intros H Hx. apply H, list_elem_of_In, elem_of_seqZ. lia. Qed.
Definition open_implied (f : Z) : Z := if has_bits f MD_BINFMT_CREDENTIALS then Z.lor f MD_BINFMT_OPEN else f.
Lemma open_implied_ok f :
  0 ≤ f < 16 → 0 ≤ open_implied f < 16 ∧ (has_bits (open_implied f) MD_BINFMT_CREDENTIALS = true → has_bits (open_implied f) MD_BINFMT_OPEN = true).
Proof.
  intros Hf. pose proof (small_cases 16 (λ f, (0 <=? open_implied f) && (open_implied f <? 16)
    && (negb (has_bits (open_implied f) MD_BINFMT_CREDENTIALS) || has_bits (open_implied f) MD_BINFMT_OPEN)) f eq_refl Hf) as H. cbn beta in H.
  apply andb_true_iff in H as [H1 H2]. breflect. split; [lia|]. intros Hc. rewrite Hc in H2. done.
Qed.
Lemma parse_fields_ok fields r : Forall (Forall (λ b, byte_ok b ∧ b ≠ 0)) fields → parse_fields fields = inl r → rule_ok r.
Proof.
  intros Ef. assert (∀ l, Forall (λ b, byte_ok b ∧ b ≠ 0) l → Forall byte_ok l) as Hby by (intros l Hl; eapply Forall_impl; [exact Hl|]; naive_solver).
  destruct fields as [|name [|kind [|offset [|magic [|mask [|interp [|flags [|]]]]]]]]; try done. cbn [parse_fields].
  rewrite !Forall_cons in Ef. destruct Ef as (Hn & Hk & Ho & Hm & Hw & Hi & Hfl & _). cbv zeta.
  destruct (_ || (MD_BINFMT_REGISTER_MAX <=? _)) eqn:E; [done|]. destruct kind as [|k [|]]; try done. destruct (negb (k =? 77) && _); [done|].
  intros ([[[off n] m] w] & Hpm & (f & Hpf & [= <-])%ebind_inl)%ebind_inl. apply parse_flags_ok in Hpf; [|lia].
  apply parse_match_ok in Hpm as (H1 & H2 & H3 & H4 & H5 & H6); [|by apply Hby..|].
  2: { intros Hin. rewrite Forall_forall in Hm. by apply (Hm 0 Hin). }
  fold (open_implied f). apply open_implied_ok in Hpf. breflect. apply has_byte_spec in H11. apply bool_decide_eq_false in H10, H9. split; cbn.
  - split_and!; try done; lia.
  - split; [|done]. destruct interp as [|x interp]; [done|]. cbn in *. by subst.
  - done.
  - done.
  - done.
  - done.
  - intros Hk69%Z.eqb_eq. by apply H6.
Qed.
Lemma parse_wellformed data r : (∀ text, data = Some text → Forall byte_ok text) → md_binfmt_rule_parse data = inl r → rule_ok r.
Proof.
  intros Hdata. destruct data as [txt|]; [|done]. specialize (Hdata txt eq_refl). unfold md_binfmt_rule_parse. cbv zeta.
  destruct (_ || has_byte 0 txt) eqn:E0; [done|]. apply orb_false_iff in E0 as [_ H0%has_byte_spec].
  set (line := if default 0 (last txt) =? NEWLINE then removelast txt else txt).
  assert (Forall (λ b, byte_ok b ∧ b ≠ 0) line) as Hline.
  { assert (Forall (λ b, byte_ok b ∧ b ≠ 0) txt) as Ht.
    { apply Forall_forall. intros b Hb. split; [by eapply Forall_forall in Hdata|]. intros ->. done. }
    unfold line. destruct (_ =? NEWLINE); [|done]. destruct txt as [|x txt _] using rev_ind; [done|]. rewrite removelast_last.
    by apply Forall_app in Ht as [? _]. }
  clearbody line. destruct line as [|d cursor]; [done|]. apply Forall_cons in Hline as [_ Hline]. destruct (_ || _); [done|].
  destruct (split_fields 6 d cursor) as [fields|] eqn:Ef; [|done]. apply (fields_bytes _ _ _ _ _ Hline) in Ef. by apply parse_fields_ok.
Qed.

(** ** What a rule matches *)

Lemma land_lxor_distr a b m : Z.land (Z.lxor a b) m = Z.lxor (Z.land a m) (Z.land b m).
Proof.
  apply Z.bits_inj'. intros n _. rewrite Z.land_spec, !Z.lxor_spec, !Z.land_spec. by destruct (Z.testbit a n), (Z.testbit b n), (Z.testbit m n).
Qed.
Lemma masked_same_ok n i p magic mask :
  (i + n ≤ length p)%nat → (i + n ≤ length magic)%nat → (i + n ≤ length mask)%nat →
  ∃ b, masked_same n i p magic mask = Some b
    ∧ (b = true ↔ ∀ j x y m, (i ≤ j < i + n)%nat → p !! j = Some x → magic !! j = Some y → mask !! j = Some m → Z.land x m = Z.land y m).
Proof.
  revert i. induction n as [|n IH]; intros i H1 H2 H3; [exists true; split; [done|]; split; [intros; lia|done]|]. cbn.
  destruct (lookup_lt_is_Some_2 p i ltac:(lia)) as [a Ha], (lookup_lt_is_Some_2 magic i ltac:(lia)) as [b Hb], (lookup_lt_is_Some_2 mask i ltac:(lia)) as [m Hm].
  rewrite Ha, Hb, Hm. cbn. assert (has_bits (Z.lxor a b) m = false ↔ Z.land a m = Z.land b m) as Hbit.
  { unfold has_bits. rewrite negb_false_iff, Z.eqb_eq. rewrite land_lxor_distr. apply Z.lxor_eq_0_iff. }
  destruct (has_bits (Z.lxor a b) m) eqn:E.
  - exists false. split; [done|]. split; [done|]. intros H. specialize (H i a b m ltac:(lia) Ha Hb Hm). apply Hbit in H. done.
  - destruct (IH (S i)) as (r & -> & Hr); [lia..|]. exists r. split; [done|]. rewrite Hr. split.
    + intros H j x y m' Hj Hx Hy Hm'. destruct (decide (j = i)) as [->|]; [simplify_eq; by apply Hbit|apply (H j); [lia|done..]].
    + intros H j x y m' Hj. apply H. lia.
Qed.
Lemma strrchr_none c s : strrchr c s = None ↔ c ∉ s.
Proof.
  induction s as [|x s IH]; cbn; [split; [by intros _ ?%elem_of_nil|done]|]. rewrite not_elem_of_cons. destruct (strrchr c s) as [r|].
  - split; [done|]. intros [_ H]. by apply IH in H.
  - destruct (x =? c) eqn:E; breflect; [split; [done|intros [? _]; congruence]|]. split; [|done]. intros _. split; [congruence|by apply IH].
Qed.
Lemma strrchr_spec c s r : strrchr c s = Some r ↔ c ∉ r ∧ ∃ l, s = l ++ c :: r.
Proof.
  assert (∀ l, c ∉ r → strrchr c (l ++ c :: r) = Some r) as Happ.
  { intros l Hr. induction l as [|x l IH]; cbn; [|by rewrite IH]. by rewrite (proj2 (strrchr_none c r) Hr), Z.eqb_refl. }
  split; [|intros (Hr & l & ->); by apply Happ]. clear Happ. induction s as [|x s IH]; cbn; [done|].
  destruct (strrchr c s) as [r'|] eqn:E.
  - intros [= ->]. destruct (IH eq_refl) as (Hr & l & ->). split; [done|]. by exists (x :: l).
  - destruct (x =? c) eqn:Ex; [|done]. breflect. intros [= <-]. split; [by apply strrchr_none|]. exists []. by subst.
Qed.
(** What a rule means: the masked bytes at its offset, or the extension of the last
    component of the path. *)
Definition rule_covers (r : md_binfmt_rule) (path header : list Z) : Prop :=
  if r_extension r
  then ∃ dir stem, path = dir ++ stem ++ DOT :: take (Z.to_nat (r_size r)) (r_magic r) ∧ (dir = [] ∨ last dir = Some SLASH)
         ∧ SLASH ∉ stem ∧ DOT ∉ take (Z.to_nat (r_size r)) (r_magic r)
  else r_offset r + r_size r ≤ Z.of_nat (length header)
       ∧ ∀ i x y m, (i < Z.to_nat (r_size r))%nat → header !! (Z.to_nat (r_offset r) + i)%nat = Some x → r_magic r !! i = Some y → r_mask r !! i = Some m →
           Z.land x m = Z.land y m.
Lemma c_string_array n l : 0 ∉ l → Z.of_nat (length l) < n → c_string (array n l) = l.
Proof.
  intros H0 Hn. unfold array. rewrite resize_ge by lia. assert (Z.to_nat n - length l ≠ 0)%nat as Hk by lia.
  revert Hk. generalize (Z.to_nat n - length l)%nat as k. clear Hn. intros [|k] Hk; [done|]. cbn [replicate].
  induction l as [|x l IH]; [done|]. apply not_elem_of_cons in H0 as [Hx H0]. cbn. rewrite (proj2 (Z.eqb_neq _ _)) by done. f_equal. by apply IH.
Qed.
Lemma padded_length n l : zero_padded n l → length l = 256%nat.
Proof. intros [_ ->]. unfold array. by rewrite length_resize. Qed.
Lemma extension_text r :
  rule_ok r → r_extension r = true → c_string (r_magic r) = take (Z.to_nat (r_size r)) (r_magic r).
Proof.
  intros Hr He. destruct (ro_extension _ Hr He) as (_ & Hlt & H0 & _). destruct (ro_range _ Hr) as (_ & Hge & _).
  pose proof (ro_magic _ Hr) as Hp. pose proof (padded_length _ _ Hp) as Hl. destruct Hp as [_ Hp].
  rewrite Hp at 1. apply c_string_array; [done|]. rewrite length_take. lia.
Qed.
Lemma matches_extension r path header :
  rule_ok r → r_extension r = true →
  ∃ b, md_binfmt_rule_matches r path header = Some b ∧ (b = true ↔ rule_covers r path header).
Proof.
  intros Hr He. unfold md_binfmt_rule_matches, rule_covers. rewrite He. eexists. split; [done|].
  destruct (ro_extension _ Hr He) as (_ & Hlt & H0 & Hsl & _). destruct (ro_range _ Hr) as (_ & Hge & _).
  set (ext := take (Z.to_nat (r_size r)) (r_magic r)) in *.
  pose proof (extension_text r Hr He) as Ec. fold ext in Ec.
  rewrite Ec. set (base := default path (strrchr SLASH path)).
  assert (∃ dir, path = dir ++ base ∧ (dir = [] ∨ last dir = Some SLASH) ∧ SLASH ∉ base) as (dir & Hpath & Hdir & Hbase).
  { unfold base. destruct (strrchr SLASH path) as [b|] eqn:E; cbn.
    - apply strrchr_spec in E as (Hb & l & ->). exists (l ++ [SLASH]). rewrite <- (assoc_L (++)). split_and!; [done| |done]. right. apply last_snoc.
    - exists []. split_and!; [done|by left|by apply strrchr_none]. }
  split.
  - destruct (strrchr DOT base) as [e|] eqn:E; [|done]. intros ->%bool_decide_eq_true. apply strrchr_spec in E as (Hd & stem & Eb).
    exists dir, stem. rewrite Eb in Hpath, Hbase. split_and!; try done. intros Hin. apply Hbase, elem_of_app. by left.
  - intros (dir' & stem & E & Hdir' & Hst & Hdot). assert (base = stem ++ DOT :: ext) as ->.
    { assert (SLASH ∉ stem ++ DOT :: ext) as Hn by (rewrite elem_of_app, elem_of_cons; intros [?|[?|?]]; done).
      unfold base. destruct Hdir' as [->|(l & ->)%last_Some].
      - rewrite E. cbn. by rewrite (proj2 (strrchr_none _ _) Hn).
      - rewrite E, <- (assoc_L (++)). by rewrite (proj2 (strrchr_spec SLASH _ (stem ++ DOT :: ext))) by (split; [done|by exists l]). }
    rewrite (proj2 (strrchr_spec DOT _ ext)) by (split; [done|by exists stem]). by apply bool_decide_true.
Qed.
Lemma matches_magic r path header :
  rule_ok r → r_extension r = false →
  ∃ b, md_binfmt_rule_matches r path header = Some b ∧ (b = true ↔ rule_covers r path header).
Proof.
  intros Hr He. unfold md_binfmt_rule_matches, rule_covers. rewrite He. destruct (ro_range _ Hr) as (H1 & H2 & H3). unfold MD_BINFMT_HEADER in H3.
  pose proof (padded_length _ _ (ro_magic _ Hr)) as Hm. pose proof (padded_length _ _ (ro_mask _ Hr)) as Hk.
  rewrite wrap32_small by (unfold UINT32_MAX; lia). destruct (Z.of_nat (length header) <? r_offset r + r_size r) eqn:E; breflect.
  { exists false. split; [done|]. split; [done|]. intros [? _]. lia. }
  destruct (masked_same_ok (Z.to_nat (r_size r)) 0 (drop (Z.to_nat (r_offset r)) header) (r_magic r) (r_mask r)) as (b & -> & Hb);
    [rewrite length_drop; lia|lia|lia|]. exists b. split; [done|]. rewrite Hb. split.
  - intros H. split; [done|]. intros i x y m Hi Hx. apply H; [lia|]. by rewrite lookup_drop.
  - intros [_ H] j x y m Hj Hx. rewrite lookup_drop in Hx. apply (H j x y m); [lia|done].
Qed.
(** The buffer in which the file of a rule writes its status (binfmt.c, read_file). *)
Definition STATUS_BYTES : Z := MD_BINFMT_REGISTER_MAX + MD_BINFMT_HEADER * 4 + 128.
Lemma hex_text_length l : length (hex_text l) = (2 * length l)%nat.
Proof. induction l as [|b l IH]; [done|]. change (hex_text (b :: l)) with (hex_digit (Z.shiftr b 4) :: hex_digit (Z.land b 15) :: hex_text l). cbn [length]. lia. Qed.
Lemma flags_text_length f : (length (flags_text f) ≤ 4)%nat.
Proof. unfold flags_text. repeat case_match; cbn; lia. Qed.
Lemma digits_length fuel n out : (length (digits fuel n out) ≤ fuel + length out)%nat.
Proof. revert n out. induction fuel as [|fuel IH]; intros n out; [done|]. cbn [digits]. case_if; [cbn; lia|]. etrans; [apply IH|cbn; lia]. Qed.
Lemma status_fits r enabled : rule_ok r → ∃ s, md_binfmt_rule_format r enabled STATUS_BYTES = inl s ∧ Z.of_nat (length s) < STATUS_BYTES.
Proof.
  intros Hr. destruct (ro_interpreter _ Hr) as [_ Hi]. destruct (ro_range _ Hr) as (Ho & Hs & Hle).
  pose proof (flags_text_length (r_flags r)) as Hf. pose proof (digits_length 10 (r_offset r) []) as Hd. fold (decimal (r_offset r)) in Hd. cbn [length] in Hd.
  unfold md_binfmt_rule_format. cbv zeta.
  set (first := (if enabled then _ else _) ++ _). set (tail := if r_extension r then _ else _).
  assert (Z.of_nat (length first) ≤ MD_BINFMT_REGISTER_MAX + 33) as H1.
  { subst first. rewrite !length_app. destruct enabled; cbn; lia. }
  assert (Z.of_nat (length tail) ≤ MD_BINFMT_HEADER * 4 + 31) as H2.
  { subst tail. destruct (r_extension r) eqn:E.
    - rewrite (extension_text r Hr E), !length_app, length_take. cbn. lia.
    - rewrite !length_app, !hex_text_length, !length_take. generalize dependent (decimal (r_offset r)). intros d Hd.
      change (length (text "offset ")) with 7%nat. change (length (text "magic ")) with 6%nat. change (length (text "mask ")) with 5%nat. cbn [length]. lia. }
  clearbody first tail. unfold STATUS_BYTES in *. rewrite !(proj2 (Z.leb_gt _ _)) by lia. eexists. split; [done|]. rewrite length_app. lia.
Qed.

(** ** Registrations of well-formed rules *)

Definition COLON : Z := 58.
Definition escape (l : list Z) : list Z := l ≫= λ b, [BACKSLASH; LOWER_X; hex_digit (Z.shiftr b 4); hex_digit (Z.land b 15)].
(** The line that registers a rule. *)
Definition registration (r : md_binfmt_rule) : list Z :=
  let magic := take (Z.to_nat (r_size r)) (r_magic r) in
  COLON :: r_name r ++ COLON :: [if r_extension r then 69 else 77]
  ++ COLON :: (if r_extension r then [] else decimal (r_offset r)) ++ COLON :: (if r_extension r then magic else escape magic)
  ++ COLON :: (if r_extension r then [] else escape (take (Z.to_nat (r_size r)) (r_mask r)))
  ++ COLON :: r_interpreter r ++ COLON :: flags_text (r_flags r).

Lemma strchr_app d a b : d ∉ a → strchr d (a ++ d :: b) = Some (a, b).
Proof.
  induction a as [|x a IH]; intros Hd; cbn; [by rewrite Z.eqb_refl|]. apply not_elem_of_cons in Hd as [Hx Hd].
  rewrite (proj2 (Z.eqb_neq _ _)) by done. by rewrite IH.
Qed.
Lemma escape_byte b : byte_ok b →
  hex (hex_digit (Z.shiftr b 4)) <? 0 = false ∧ hex (hex_digit (Z.land b 15)) <? 0 = false
  ∧ Z.lor (Z.shiftl (hex (hex_digit (Z.shiftr b 4))) 4) (hex (hex_digit (Z.land b 15))) = b
  ∧ hex_digit (Z.shiftr b 4) ≠ COLON ∧ hex_digit (Z.land b 15) ≠ COLON ∧ hex_digit (Z.shiftr b 4) ≠ 0 ∧ hex_digit (Z.land b 15) ≠ 0.
Proof.
  intros Hb. pose proof (small_cases 256 (λ b, negb (hex (hex_digit (Z.shiftr b 4)) <? 0) && negb (hex (hex_digit (Z.land b 15)) <? 0)
    && (Z.lor (Z.shiftl (hex (hex_digit (Z.shiftr b 4))) 4) (hex (hex_digit (Z.land b 15))) =? b)
    && negb (hex_digit (Z.shiftr b 4) =? COLON) && negb (hex_digit (Z.land b 15) =? COLON)
    && negb (hex_digit (Z.shiftr b 4) =? 0) && negb (hex_digit (Z.land b 15) =? 0)) b ltac:(vm_compute; reflexivity) Hb) as H. cbn beta in H.
  rewrite !andb_true_iff, !negb_true_iff, !Z.eqb_neq, Z.eqb_eq in H. by destruct H as [[[[[[? ?] ?] ?] ?] ?] ?].
Qed.
Lemma decode_escape l out capacity :
  Forall byte_ok l → Z.of_nat (length out + length l) ≤ capacity → decode_loop (escape l) out capacity = inl (rev out ++ l).
Proof.
  revert out. induction l as [|b l IH]; intros out Hl Hc; [cbn; by rewrite app_nil_r|]. apply Forall_cons in Hl as [Hb Hl].
  destruct (escape_byte b Hb) as (E1 & E2 & E3 & _). change (escape (b :: l)) with ([BACKSLASH; LOWER_X; hex_digit (Z.shiftr b 4); hex_digit (Z.land b 15)] ++ escape l).
  cbn [app decode_loop]. change ((BACKSLASH =? BACKSLASH) && (LOWER_X =? LOWER_X)) with true. cbv iota. rewrite E1, E2, E3. cbn [orb].
  rewrite (proj2 (Z.eqb_neq _ _)) by (cbn in Hc; lia). rewrite IH by (done || cbn in *; lia). cbn. by rewrite <- (assoc_L (++)).
Qed.
Lemma escape_plain l c : Forall byte_ok l → c = COLON ∨ c = 0 → c ∉ escape l.
Proof.
  intros Hl Hc. induction Hl as [|b l Hb Hl IH]; [by intros ?%elem_of_nil|].
  change (escape (b :: l)) with ([BACKSLASH; LOWER_X; hex_digit (Z.shiftr b 4); hex_digit (Z.land b 15)] ++ escape l).
  rewrite elem_of_app, !elem_of_cons, elem_of_nil. destruct (escape_byte b Hb) as (_ & _ & _ & ? & ? & ? & ?).
  intros [[?|[?|[?|[?|?]]]]|?]; destruct Hc as [->| ->]; try done; congruence.
Qed.
Lemma decimal_offset n : 0 ≤ n ≤ 256 → parse_offset (decimal n) 0 = inl n ∧ COLON ∉ decimal n ∧ 0 ∉ decimal n.
Proof.
  intros Hn. pose proof (small_cases 257 (λ n, match parse_offset (decimal n) 0 with inl m => m =? n | inr _ => false end
    && negb (has_byte COLON (decimal n)) && negb (has_byte 0 (decimal n))) n ltac:(vm_compute; reflexivity) ltac:(lia)) as H. cbn beta in H.
  rewrite !andb_true_iff, !negb_true_iff, !has_byte_spec in H. destruct H as [[H ?] ?]. destruct (parse_offset (decimal n) 0); [|done].
  apply Z.eqb_eq in H as ->. done.
Qed.
Lemma flags_parse f :
  0 ≤ f < 16 → parse_flags (flags_text f) 0 = inl f ∧ COLON ∉ flags_text f ∧ 0 ∉ flags_text f
    ∧ default 0 (last (COLON :: flags_text f)) ≠ NEWLINE
    ∧ ((has_bits f MD_BINFMT_CREDENTIALS = true → has_bits f MD_BINFMT_OPEN = true) → open_implied f = f).
Proof.
  intros Hf. pose proof (small_cases 16 (λ f, match parse_flags (flags_text f) 0 with inl m => m =? f | inr _ => false end
    && negb (has_byte COLON (flags_text f)) && negb (has_byte 0 (flags_text f)) && negb (default 0 (last (COLON :: flags_text f)) =? NEWLINE)
    && ((has_bits f MD_BINFMT_CREDENTIALS && negb (has_bits f MD_BINFMT_OPEN)) || (open_implied f =? f))) f ltac:(vm_compute; reflexivity) Hf) as H.
  cbn beta in H. rewrite !andb_true_iff, !negb_true_iff, !has_byte_spec, Z.eqb_neq in H. destruct H as [[[[H ?] ?] ?] H5].
  destruct (parse_flags (flags_text f) 0) as [m|]; [|done]. apply Z.eqb_eq in H as ->. split_and!; try done. intros Hco.
  apply orb_true_iff in H5 as [[Hc Ho%negb_true_iff]%andb_true_iff|H5%Z.eqb_eq]; [|done]. rewrite Hco in Ho by done. done.
Qed.
(** The texts of the rule can be written between colons. *)
Definition writable (r : md_binfmt_rule) : Prop :=
  (∀ c, c = COLON ∨ c = 0 → c ∉ r_name r ∧ c ∉ r_interpreter r ∧ (r_extension r = true → c ∉ take (Z.to_nat (r_size r)) (r_magic r)))
  ∧ Z.of_nat (length (registration r)) ≤ MD_BINFMT_REGISTER_MAX.
Lemma match_parts r :
  rule_ok r →
  let magic := take (Z.to_nat (r_size r)) (r_magic r) in
  parse_match (if r_extension r then 69 else 77) (if r_extension r then [] else decimal (r_offset r)) (if r_extension r then magic else escape magic)
    (if r_extension r then [] else escape (take (Z.to_nat (r_size r)) (r_mask r))) = inl (r_offset r, r_size r, r_magic r, r_mask r).
Proof.
  intros Hr magic. destruct (ro_range _ Hr) as (H1 & H2 & H3). pose proof (padded_length _ _ (ro_magic _ Hr)) as Hlm.
  pose proof (padded_length _ _ (ro_mask _ Hr)) as Hlk. destruct (ro_magic _ Hr) as [Hbm Em], (ro_mask _ Hr) as [Hbk Ek].
  assert (MD_BINFMT_HEADER = 256) as HH by done. assert (Z.of_nat (length magic) = r_size r) as Hsz by (unfold magic; rewrite length_take; lia).
  unfold parse_match. cbv zeta. destruct (r_extension r) eqn:Ee.
  - change (69 =? 69) with true. cbv iota. destruct (ro_extension _ Hr Ee) as (E0 & Hlt & _ & Hsl & Emask). fold magic in Hsl, Em. rewrite Hsz.
    rewrite (proj2 (Z.eqb_neq _ _)), (proj2 (Z.leb_gt _ _)), (proj2 (has_byte_spec _ _) Hsl) by lia. cbn [orb]. by rewrite <- Em, <- Emask, E0.
  - change (77 =? 69) with false. cbv iota. destruct (decimal_offset (r_offset r)) as (-> & _); [lia|]. cbn [ebind].
    unfold decode. rewrite decode_escape; [|by apply Forall_take|cbn; lia]. cbn [ebind rev app]. rewrite Hsz.
    rewrite (proj2 (Z.eqb_neq _ _)), wrap32_small, (proj2 (Z.ltb_ge _ _)) by (unfold UINT32_MAX; lia). cbn [orb].
    rewrite decode_escape; [|by apply Forall_take|cbn; rewrite length_take; lia]. cbn [ebind rev app].
    assert (Z.of_nat (length (escape (take (Z.to_nat (r_size r)) (r_mask r)))) ≠ 0) as Hne.
    { destruct (take (Z.to_nat (r_size r)) (r_mask r)) eqn:E; [|done]. apply (f_equal length) in E. rewrite length_take in E. cbn in E. lia. }
    rewrite (proj2 (Z.eqb_neq _ _) Hne). rewrite (proj2 (Z.eqb_eq _ _)) by (rewrite length_take; lia). cbn [negb]. fold magic in Em. by rewrite <- Em, <- Ek.
Qed.
Lemma split_registration r :
  rule_ok r → writable r →
  split_fields 6 COLON (tail (registration r))
  = Some [r_name r; [if r_extension r then 69 else 77]; if r_extension r then [] else decimal (r_offset r);
          if r_extension r then take (Z.to_nat (r_size r)) (r_magic r) else escape (take (Z.to_nat (r_size r)) (r_magic r));
          if r_extension r then [] else escape (take (Z.to_nat (r_size r)) (r_mask r)); r_interpreter r; flags_text (r_flags r)].
Proof.
  intros Hr [Hw _]. destruct (Hw COLON (or_introl eq_refl)) as (Hn & Hi & He). destruct (ro_range _ Hr) as (H1 & H2 & H3). unfold MD_BINFMT_HEADER in H3.
  destruct (decimal_offset (r_offset r)) as (_ & Hd & _); [lia|]. destruct (ro_magic _ Hr) as [Hbm _], (ro_mask _ Hr) as [Hbk _].
  unfold registration. cbv zeta. cbn [tail split_fields]. rewrite strchr_app by done. cbn [mbind option_bind].
  rewrite (strchr_app COLON [if r_extension r then 69 else 77]) by (rewrite list_elem_of_singleton; by destruct (r_extension r)). cbn [mbind option_bind].
  rewrite strchr_app by (destruct (r_extension r); [by intros ?%elem_of_nil|done]). cbn [mbind option_bind].
  rewrite strchr_app by (destruct (r_extension r); [by apply He|apply escape_plain; [by apply Forall_take|by left]]). cbn [mbind option_bind].
  rewrite strchr_app by (destruct (r_extension r); [by intros ?%elem_of_nil|apply escape_plain; [by apply Forall_take|by left]]). cbn [mbind option_bind].
  by rewrite strchr_app by done.
Qed.
Lemma registration_plain r : rule_ok r → writable r → 0 ∉ registration r.
Proof.
  intros Hr [Hw _]. destruct (Hw 0 (or_intror eq_refl)) as (Hn & Hi & He). destruct (ro_range _ Hr) as (H1 & H2 & H3). unfold MD_BINFMT_HEADER in H3.
  destruct (decimal_offset (r_offset r)) as (_ & _ & Hd); [lia|]. destruct (ro_magic _ Hr) as [Hbm _], (ro_mask _ Hr) as [Hbk _].
  destruct (flags_parse (r_flags r)) as (_ & _ & Hf & _); [by apply ro_flags|]. unfold registration. cbv zeta.
  pose proof (escape_plain _ 0 (Forall_take _ (Z.to_nat (r_size r)) _ Hbm) (or_intror eq_refl)) as Hem.
  pose proof (escape_plain _ 0 (Forall_take _ (Z.to_nat (r_size r)) _ Hbk) (or_intror eq_refl)) as Hek.
  repeat first [done | apply not_elem_of_cons; split | apply not_elem_of_app; split]; destruct (r_extension r); auto using not_elem_of_nil.
Qed.
(** Every well-formed rule whose texts contain no colon or NUL and whose line is
    not too long has a registration, and parsing it yields exactly the rule: name,
    interpreter, flags, offset, size, kind, and every byte of magic and mask. *)
Theorem binfmt_register_roundtrip r :
  rule_ok r → writable r → md_binfmt_rule_parse (Some (registration r)) = inl r.
Proof.
  intros Hr Hw. pose proof (split_registration r Hr Hw) as Hs. pose proof (registration_plain r Hr Hw) as H0. destruct Hw as [_ Hlen].
  destruct (flags_parse (r_flags r)) as (Hpf & _ & _ & Hlast & Hopen); [by apply ro_flags|]. specialize (Hopen (proj2 (ro_flags _ Hr))).
  unfold md_binfmt_rule_parse. cbv zeta. rewrite (proj2 (Z.ltb_ge _ _) Hlen), (proj2 (has_byte_spec _ _) H0), (proj2 (Z.eqb_neq _ _)) by (cbn; lia). cbn [orb].
  assert (default 0 (last (registration r)) ≠ NEWLINE) as Hnl.
  { assert ((COLON :: flags_text (r_flags r)) `suffix_of` registration r) as [pre ->].
    { unfold registration. cbv zeta. repeat first [reflexivity | apply suffix_app_r | apply suffix_cons_r]. }
    by rewrite last_app_cons. }
  rewrite (proj2 (Z.eqb_neq _ _) Hnl). unfold registration at 1. cbv zeta. change ((COLON =? 0) || (COLON =? NEWLINE)) with false. cbv iota.
  change (registration r) with (COLON :: tail (registration r)) in Hs. cbn [tail] in Hs. unfold registration in Hs. cbv zeta in Hs. cbn [tail] in Hs. rewrite Hs.
  cbn [parse_fields]. cbv zeta. destruct (ro_name _ Hr) as ([Hn1 Hn2] & Hn3 & Hn4 & Hn5), (ro_interpreter _ Hr) as [Hi1 Hi2].
  rewrite (proj2 (Z.eqb_neq (Z.of_nat (length (r_name r))) 0)), (proj2 (Z.ltb_ge _ _) Hn2), (proj2 (has_byte_spec _ _) Hn3) by lia.
  rewrite (bool_decide_false _ Hn4), (bool_decide_false _ Hn5), (proj2 (Z.leb_gt _ _) Hi2), Hi1.
  rewrite (proj2 (Z.eqb_neq (Z.of_nat (length (r_interpreter r))) 0)) by (destruct (r_interpreter r); [done|cbn; lia]).
  change (default 0 (Some SLASH) =? SLASH) with true. cbn [orb negb].
  replace (negb ((if r_extension r then 69 else 77) =? 77) && negb ((if r_extension r then 69 else 77) =? 69)) with false by (by destruct (r_extension r)).
  rewrite (match_parts r Hr). cbn [ebind]. rewrite Hpf. cbn [ebind]. fold (open_implied (r_flags r)). rewrite Hopen. f_equal.
  destruct r as [? ? ? ? ? e ? ?]. cbn. f_equal. by destruct e.
Qed.

(** ** Witnesses *)

Definition sample_line : list Z := text ":arm:M:18:\xb7\x00:\xff\xfe:/usr/bin/emulate:CF".
Definition sample_rule : md_binfmt_rule :=
  mk_rule (text "arm") (text "/usr/bin/emulate") 14 18 2 false (array MD_BINFMT_HEADER [183; 0]) (array MD_BINFMT_HEADER [255; 254]).
Lemma sample_bytes : Forall byte_ok sample_line.
Proof.
  assert (forallb (λ b, (0 <=? b) && (b <? 256)) sample_line = true) as H by (vm_compute; reflexivity). rewrite forallb_forall in H.
  apply Forall_forall. intros b Hb%list_elem_of_In%H. breflect. done.
Qed.
Lemma sample_ok : rule_ok sample_rule.
Proof.
  apply (parse_wellformed (Some sample_line)); [intros ? [= <-]; apply sample_bytes|vm_compute; reflexivity].
Qed.
Lemma binfmt_register_roundtrip_witness :
  registration sample_rule = text ":arm:M:18:\xb7\x00:\xff\xfe:/usr/bin/emulate:OCF"
  ∧ md_binfmt_rule_parse (Some (registration sample_rule)) = inl sample_rule.
Proof.
  split; [vm_compute; reflexivity|]. apply (binfmt_register_roundtrip sample_rule); [apply sample_ok|]. split; [|vm_compute; discriminate].
  intros c Hc. split_and!; [| |discriminate]; apply has_byte_spec; destruct Hc as [->| ->]; vm_compute; reflexivity.
Defined.
