(* ===== verification/BpfMap.v ===== *)
(** * Guest BPF maps (bpf_map.c, bpf_request.h)

    A registry holds the maps of a guest, newest first, with their number and the
    memory reserved for them.  A map is a table of 256 chains of entries; an entry
    is one byte array, the key followed by the value.  [md_bpf_map_element] serves
    the four element commands of bpf(2).

    Registries and maps are shared objects and live in a heap by address; a chain
    belongs to its map alone and is a list.  Every call runs under the lock of the
    registry.  [sizeof_map] is the size of struct md_bpf_map, which depends on the
    kernel headers; allocations succeed or fail by arguments.  The two functions
    that wrap a map into a control file are not modelled. *)
From S2P Require Import Prelude CLib.

Abbreviation loc := positive (only parsing).

Definition BUCKETS : Z := 256.
Definition MAP_LIMIT : Z := 4096.
Definition MEMORY_LIMIT : Z := 64 * 1024 * 1024.
Definition MD_BPF_MAP_KEY_MAX : Z := 512.
Definition MD_BPF_MAP_VALUE_MAX : Z := 4096.

(** bpf(2): commands, map type and flags of the ABI. *)
Definition BPF_MAP_LOOKUP_ELEM : Z := 1.
Definition BPF_MAP_UPDATE_ELEM : Z := 2.
Definition BPF_MAP_DELETE_ELEM : Z := 3.
Definition BPF_MAP_GET_NEXT_KEY : Z := 4.
Definition BPF_MAP_TYPE_HASH : Z := 1.
Definition BPF_F_NO_PREALLOC : Z := 1.
Definition BPF_NOEXIST : Z := 1.
Definition BPF_EXIST : Z := 2.

Record bpf_map_info := mk_info {
  i_type : Z; i_id : Z; i_key_size : Z; i_value_size : Z; i_max_entries : Z; i_map_flags : Z; i_name : list Z }.
Definition set_id (id : Z) (i : bpf_map_info) : bpf_map_info :=
  mk_info (i_type i) id (i_key_size i) (i_value_size i) (i_max_entries i) (i_map_flags i) (i_name i).

(** The bytes [data] of an entry. *)
Abbreviation entry := (list Z) (only parsing).
Record md_bpf_map := mk_map {
  m_owner : loc; m_info : bpf_map_info; m_refs : Z; m_count : Z; m_reserved : Z; m_buckets : list (list entry) }.
Record md_bpf_maps := mk_maps {
  r_refs : Z; r_first : list loc; r_next : Z; r_count : Z; r_reserved : Z }.
Record bpf_heap := mk_heap { h_owners : gmap loc md_bpf_maps; h_maps : gmap loc md_bpf_map }.

Definition set_map_refs (n : Z) (m : md_bpf_map) : md_bpf_map :=
  mk_map (m_owner m) (m_info m) n (m_count m) (m_reserved m) (m_buckets m).
Definition set_table (count : Z) (b : list (list entry)) (m : md_bpf_map) : md_bpf_map :=
  mk_map (m_owner m) (m_info m) (m_refs m) count (m_reserved m) b.
Definition set_owner_refs (n : Z) (o : md_bpf_maps) : md_bpf_maps :=
  mk_maps n (r_first o) (r_next o) (r_count o) (r_reserved o).
Definition set_owner (h : bpf_heap) (o : loc) (x : md_bpf_maps) : bpf_heap := mk_heap (<[o := x]> (h_owners h)) (h_maps h).
Definition set_map (h : bpf_heap) (m : loc) (x : md_bpf_map) : bpf_heap := mk_heap (h_owners h) (<[m := x]> (h_maps h)).

(** ** Elements *)

Definition bucket (key : list Z) (size : Z) : nat :=
  Z.to_nat (foldl (λ hash b, wrap32 (Z.lxor hash b * 16777619)) 2166136261 (take (Z.to_nat size) key) mod BUCKETS).

(** [memcmp] of an entry's key with [key]. *)
Definition same_key (size : Z) (key : list Z) (e : entry) : bool :=
  bool_decide (take (Z.to_nat size) e = take (Z.to_nat size) key).
(** The walk of [at] along a chain: what it passes and what [*at] then begins. *)
Fixpoint walk (size : Z) (key : list Z) (chain : list entry) : list entry * list entry :=
  match chain with
  | [] => ([], [])
  | e :: rest => if same_key size key e then ([], chain) else let '(before, at_) := walk size key rest in (e :: before, at_)
  end.
(** [while (!e && index<BUCKETS) e=m->buckets[index++]] *)
Fixpoint first_entry (b : list (list entry)) : option entry :=
  match b with [] => None | [] :: b => first_entry b | (e :: _) :: _ => Some e end.

Definition element_supported (command flags : Z) : bool :=
  ((command =? BPF_MAP_LOOKUP_ELEM) || (command =? BPF_MAP_UPDATE_ELEM)
   || (command =? BPF_MAP_DELETE_ELEM) || (command =? BPF_MAP_GET_NEXT_KEY))
  && ((flags =? 0) || (command =? BPF_MAP_UPDATE_ELEM) && (flags <=? BPF_EXIST)).

(** The new map and what is copied to [out], or the error.  [malloc] is whether an
    entry can be allocated. *)
Definition md_bpf_map_element (m : md_bpf_map) (command : Z) (key : option (list Z)) (value : list Z) (flags : Z)
    (malloc : bool) : md_bpf_map * (list Z + Z) :=
  let size := i_key_size (m_info m) in
  let ksize := Z.to_nat size in
  let vsize := Z.to_nat (i_value_size (m_info m)) in
  if negb (element_supported command flags) then (m, inr (- EINVAL))
  else
    let index := match key with Some k => bucket k size | None => O end in
    let chain := default [] (m_buckets m !! index) in
    let '(before, at_) := match key with Some k => walk size k chain | None => ([], chain) end in
    let e := match key with Some _ => head at_ | None => None end in
    let store count chain := set_table count (<[index := chain]> (m_buckets m)) m in
    if command =? BPF_MAP_GET_NEXT_KEY then
      let next := match e with
                  | None => first_entry (m_buckets m)
                  | Some _ => match tail at_ with n :: _ => Some n | [] => first_entry (drop (S index) (m_buckets m)) end
                  end in
      (m, match next with Some n => inl (take ksize n) | None => inr (- ENOENT) end)
    else match key with
    | None => (m, inr (- EFAULT))
    | Some k =>
        if command =? BPF_MAP_LOOKUP_ELEM then
          (m, match e with Some d => inl (take vsize (drop ksize d)) | None => inr (- ENOENT) end)
        else if command =? BPF_MAP_DELETE_ELEM then
          match e with
          | Some _ => (store (wrap32 (m_count m - 1)) (before ++ tail at_), inl [])
          | None => (m, inr (- ENOENT))
          end
        else match e with
        | Some d =>
            if flags =? BPF_NOEXIST then (m, inr (- EEXIST))
            else (store (m_count m) (before ++ (take ksize d ++ take vsize value) :: tail at_), inl [])
        | None =>
            if flags =? BPF_EXIST then (m, inr (- ENOENT))
            else if m_count m =? i_max_entries (m_info m) then (m, inr (- E2BIG))
            else if negb malloc then (m, inr (- ENOMEM))
            else (store (wrap32 (m_count m + 1)) (before ++ [take ksize k ++ take vsize value]), inl [])
        end
    end.

(** ** Registries and maps

    An operation is undefined, [None], when it follows a pointer to something freed. *)

(** [mutex] is the result of pthread_mutex_init; the error is errno. *)
Definition md_bpf_maps_new (h : bpf_heap) (calloc : bool) (mutex : Z) : bpf_heap * (loc + Z) :=
  if negb calloc then (h, inr ENOMEM)
  else if negb (mutex =? 0) then (h, inr mutex)
  else let o := fresh (dom (h_owners h)) in
       (mk_heap (<[o := mk_maps 1 [] 0 0 0]> (h_owners h)) (h_maps h), inl o).
Definition md_bpf_maps_retain (h : bpf_heap) (p : option loc) : option bpf_heap :=
  match p with
  | None => Some h
  | Some o => x ← h_owners h !! o; Some (set_owner h o (set_owner_refs (wrap32 (r_refs x + 1)) x))
  end.
Definition md_bpf_maps_release (h : bpf_heap) (p : option loc) : option bpf_heap :=
  match p with
  | None => Some h
  | Some o =>
      x ← h_owners h !! o;
      Some (if r_refs x =? 1 then mk_heap (delete o (h_owners h)) (h_maps h)
            else set_owner h o (set_owner_refs (wrap32 (r_refs x - 1)) x))
  end.

Definition name_byte (c : Z) : bool :=
  (97 <=? c) && (c <=? 122) || (65 <=? c) && (c <=? 90) || (48 <=? c) && (c <=? 57) || (c =? 95) || (c =? 46).
(** The checks of [md_bpf_map_new], as errno; 0 if the request is acceptable. *)
Definition info_error (i : bpf_map_info) : Z :=
  if i_type i =? 0 then EINVAL
  else if negb (i_type i =? BPF_MAP_TYPE_HASH) || negb (Z.ldiff (i_map_flags i) BPF_F_NO_PREALLOC =? 0) then EOPNOTSUPP
  else if (i_key_size i =? 0) || (i_value_size i =? 0) || (i_max_entries i =? 0) then EINVAL
  else if (MD_BPF_MAP_KEY_MAX <? i_key_size i) || (MD_BPF_MAP_VALUE_MAX <? i_value_size i) || (65536 <? i_max_entries i) then E2BIG
  else if Nat.eqb (length (c_string (i_name i))) (length (i_name i)) then EINVAL
  else if negb (forallb name_byte (c_string (i_name i))) then EINVAL
  else 0.

(** sizeof(struct entry) is the size of a pointer. *)
Definition reservation (sizeof_map : Z) (i : bpf_map_info) : Z :=
  wrap64 (sizeof_map + (8 + i_key_size i + i_value_size i) * i_max_entries i).

Definition md_bpf_map_new (sizeof_map : Z) (h : bpf_heap) (owner : loc) (info : bpf_map_info) (calloc : bool)
    : option (bpf_heap * (loc + Z)) :=
  if negb (info_error info =? 0) then Some (h, inr (info_error info))
  else if negb calloc then Some (h, inr ENOMEM)
  else
    let reserved := reservation sizeof_map info in
    o ← h_owners h !! owner;
    if (r_count o =? MAP_LIMIT) || (r_next o =? UINT32_MAX) then Some (h, inr ENOSPC)
    else if wrap64 (MEMORY_LIMIT - r_reserved o) <? reserved then Some (h, inr ENOMEM)
    else
      let m := fresh (dom (h_maps h)) in
      let id := wrap32 (r_next o + 1) in
      let o := mk_maps (r_refs o) (m :: r_first o) id (wrap32 (r_count o + 1)) (wrap64 (r_reserved o + reserved)) in
      let h := set_owner h owner o in
      let h := set_map h m (mk_map owner (set_id id info) 1 0 reserved (replicate (Z.to_nat BUCKETS) [])) in
      h ← md_bpf_maps_retain h (Some owner);
      Some (h, inl m).

Definition md_bpf_map_retain (h : bpf_heap) (p : option loc) : option bpf_heap :=
  match p with
  | None => Some h
  | Some m => x ← h_maps h !! m; Some (set_map h m (set_map_refs (wrap32 (m_refs x + 1)) x))
  end.
(** The last release unlinks the map, frees its entries and itself, and lets go of
    the registry. *)
Definition md_bpf_map_release (h : bpf_heap) (p : option loc) : option bpf_heap :=
  match p with
  | None => Some h
  | Some m =>
      x ← h_maps h !! m;
      o ← h_owners h !! m_owner x;
      let refs := wrap32 (m_refs x - 1) in
      if negb (refs =? 0) then Some (set_map h m (set_map_refs refs x))
      else
        first ← unlink m (r_first o);
        let o := mk_maps (r_refs o) first (r_next o) (wrap32 (r_count o - 1)) (wrap64 (r_reserved o - m_reserved x)) in
        let h := set_owner h (m_owner x) o in
        md_bpf_maps_release (mk_heap (h_owners h) (delete m (h_maps h))) (Some (m_owner x))
  end.
(** The walk along the maps of a registry. *)
Fixpoint find_id (h : bpf_heap) (id : Z) (l : list loc) : option (option loc) :=
  match l with
  | [] => Some None
  | m :: l => x ← h_maps h !! m; if i_id (m_info x) =? id then Some (Some m) else find_id h id l
  end.
Definition md_bpf_map_find (h : bpf_heap) (owner : option loc) (id : Z) : option (bpf_heap * option loc) :=
  match owner with
  | None => Some (h, None)
  | Some owner =>
      o ← h_owners h !! owner;
      m ← find_id h id (r_first o);
      h ← md_bpf_map_retain h m;
      Some (h, m)
  end.
Definition md_bpf_map_info (h : bpf_heap) (m : loc) : option bpf_map_info := m_info <$> h_maps h !! m.

(** ** Specification: a finite map with an order on its keys *)

(** The key after [k], if [k] is there. *)
Fixpoint after (k : list Z) (l : list (list Z)) : option (option (list Z)) :=
  match l with [] => None | x :: l => if bool_decide (x = k) then Some (head l) else after k l end.
Definition next_key (l : list (list Z)) (key : option (list Z)) : option (list Z) :=
  match key with None => head l | Some k => default (head l) (after k l) end.

(** The commands of bpf(2) on a map of at most [max] keys, enumerated as [order]. *)
Definition map_spec (max : Z) (A : gmap (list Z) (list Z)) (order : list (list Z)) (command : Z) (key : option (list Z))
    (value : list Z) (flags : Z) (malloc : bool) : gmap (list Z) (list Z) * (list Z + Z) :=
  if negb (element_supported command flags) then (A, inr (- EINVAL))
  else if command =? BPF_MAP_GET_NEXT_KEY then (A, match next_key order key with Some k => inl k | None => inr (- ENOENT) end)
  else match key with
  | None => (A, inr (- EFAULT))
  | Some k =>
      match A !! k with
      | Some v =>
          if command =? BPF_MAP_LOOKUP_ELEM then (A, inl v)
          else if command =? BPF_MAP_DELETE_ELEM then (delete k A, inl [])
          else if flags =? BPF_NOEXIST then (A, inr (- EEXIST)) else (<[k := value]> A, inl [])
      | None =>
          if (command =? BPF_MAP_LOOKUP_ELEM) || (command =? BPF_MAP_DELETE_ELEM) || (flags =? BPF_EXIST) then (A, inr (- ENOENT))
          else if Z.of_nat (size A) =? max then (A, inr (- E2BIG))
          else if negb malloc then (A, inr (- ENOMEM)) else (<[k := value]> A, inl [])
      end
  end.

(** ** Tables *)

Definition entries (m : md_bpf_map) : list entry := concat (m_buckets m).
Definition ksize (m : md_bpf_map) : nat := Z.to_nat (i_key_size (m_info m)).
Definition vsize (m : md_bpf_map) : nat := Z.to_nat (i_value_size (m_info m)).
Definition pair_of (ks : nat) (e : entry) : list Z * list Z := (take ks e, drop ks e).
Definition keys (m : md_bpf_map) : list (list Z) := take (ksize m) <$> entries m.
(** The finite map a table holds. *)
Definition contents (m : md_bpf_map) : gmap (list Z) (list Z) := list_to_map (pair_of (ksize m) <$> entries m).
Record table_ok (m : md_bpf_map) : Prop := mk_table_ok {
  t_length : length (m_buckets m) = Z.to_nat BUCKETS;
  t_sizes : Forall (λ e, length e = (ksize m + vsize m)%nat) (entries m);
  t_place : ∀ i c e, m_buckets m !! i = Some c → e ∈ c → bucket (take (ksize m) e) (i_key_size (m_info m)) = i;
  t_nodup : NoDup (keys m);
  t_count : m_count m = Z.of_nat (length (entries m));
  t_limit : m_count m ≤ i_max_entries (m_info m) ≤ 65536 }.

Lemma bucket_bound k n : (bucket k n < Z.to_nat BUCKETS)%nat.
Proof. unfold bucket, BUCKETS. apply Z2Nat.inj_lt; [apply Z.mod_pos_bound; lia|lia|apply Z.mod_pos_bound; lia]. Qed.
Lemma first_entry_head b : first_entry b = head (concat b).
Proof. induction b as [|[|e c] b IH]; [done|exact IH|done]. Qed.

Lemma walk_spec n k chain : match walk n k chain with
  | (before, at_) => chain = before ++ at_ ∧ Forall (λ e, take (Z.to_nat n) e ≠ take (Z.to_nat n) k) before
                     ∧ (∀ e, head at_ = Some e → take (Z.to_nat n) e = take (Z.to_nat n) k)
  end.
Proof.
  induction chain as [|e c IH]; cbn [walk]; [done|]. unfold same_key. case_bool_decide as E.
  - split_and!; [done|done|]. by intros ? [= <-].
  - destruct (walk n k c) as [b a]. destruct IH as (-> & Hb & Ha). split_and!; [done|by constructor|done].
Qed.

Lemma contents_middle ks l1 e l2 :
  NoDup (take ks <$> l1 ++ e :: l2) →
  (list_to_map (pair_of ks <$> l1 ++ e :: l2) : gmap _ _) = <[take ks e := drop ks e]> (list_to_map (pair_of ks <$> l1 ++ l2)).
Proof.
  intros Hn. change (<[take ks e := drop ks e]> (list_to_map (pair_of ks <$> l1 ++ l2)) : gmap _ _)
    with (list_to_map ((pair_of ks e) :: (pair_of ks <$> l1 ++ l2)) : gmap (list Z) (list Z)).
  apply list_to_map_proper.
  - rewrite <- list_fmap_compose. exact Hn.
  - rewrite !fmap_app, fmap_cons. symmetry. apply Permutation_middle.
Qed.
Lemma contents_absent ks l k : k ∉ take ks <$> l → (list_to_map (pair_of ks <$> l) : gmap _ (list Z)) !! k = None.
Proof. intros Hk. apply not_elem_of_list_to_map_1. rewrite <- list_fmap_compose. exact Hk. Qed.

(** Where a key is, or would be: chains before, the chain around [at], chains after. *)
Record located (m : md_bpf_map) (k : list Z) (l1 : list (list entry)) (before at_ : list entry) (l2 : list (list entry)) : Prop := mk_located {
  lo_buckets : m_buckets m = l1 ++ (before ++ at_) :: l2;
  lo_index : bucket k (i_key_size (m_info m)) = length l1;
  lo_walk : walk (i_key_size (m_info m)) k (before ++ at_) = (before, at_);
  lo_before : k ∉ take (ksize m) <$> concat l1 ++ before;
  lo_after : k ∉ take (ksize m) <$> concat l2;
  lo_at : ∀ e, head at_ = Some e → take (ksize m) e = k }.

Lemma locate m k : table_ok m → length k = ksize m → ∃ l1 before at_ l2, located m k l1 before at_ l2.
Proof.
  intros Ht Hk. pose proof (bucket_bound k (i_key_size (m_info m))) as Hi. remember (bucket k (i_key_size (m_info m))) as i eqn:Ei.
  rewrite <- (t_length _ Ht) in Hi. apply lookup_lt_is_Some in Hi as [c Hc]. pose proof (walk_spec (i_key_size (m_info m)) k c) as Hw.
  destruct (walk _ k c) as [before at_] eqn:Ew. destruct Hw as (-> & Hb & Ha). fold (ksize m) in *.
  pose proof (take_drop_middle _ _ _ Hc) as Hsplit. exists (take i (m_buckets m)), before, at_, (drop (S i) (m_buckets m)).
  assert (take (ksize m) k = k) as Htk by (by apply take_ge; lia). rewrite Htk in *.
  assert (length (take i (m_buckets m)) = i) as Hl by (rewrite length_take; apply lookup_lt_Some in Hc; lia).
  assert (∀ j c' e, m_buckets m !! j = Some c' → e ∈ c' → take (ksize m) e = k → j = i) as Hother.
  { intros j c' e Hj He Hek. rewrite Ei, <- Hek. symmetry. by apply (t_place _ Ht j c'). }
  split; try done; [by rewrite <- Ei| |].
  - rewrite fmap_app, elem_of_app. intros [Hin|Hin].
    + apply list_elem_of_fmap in Hin as (e & -> & (c' & He & Hc')%elem_of_concat).
      apply list_elem_of_lookup in Hc' as [j Hj]. pose proof (lookup_lt_Some _ _ _ Hj) as Hlt. rewrite lookup_take_lt in Hj by lia.
      specialize (Hother j c' e Hj He eq_refl). lia.
    + apply list_elem_of_fmap in Hin as (e & Hek & He). rewrite Forall_forall in Hb. by apply (Hb e He).
  - intros (e & -> & (c' & He & Hc')%elem_of_concat)%list_elem_of_fmap.
    apply list_elem_of_lookup in Hc' as [j Hj]. rewrite lookup_drop in Hj. specialize (Hother _ c' e Hj He eq_refl). lia.
Qed.

Lemma located_entries m k l1 before at_ l2 :
  located m k l1 before at_ l2 → entries m = (concat l1 ++ before) ++ at_ ++ concat l2.
Proof. intros Hl. unfold entries. rewrite (lo_buckets _ _ _ _ _ _ Hl), concat_app. cbn. by rewrite <- !app_assoc. Qed.
Lemma located_absent m k l1 before l2 : located m k l1 before [] l2 → contents m !! k = None.
Proof.
  intros Hl. unfold contents. apply contents_absent. rewrite (located_entries _ _ _ _ _ _ Hl), fmap_app, elem_of_app.
  intros [H|H]; [by apply (lo_before _ _ _ _ _ _ Hl)|by apply (lo_after _ _ _ _ _ _ Hl)].
Qed.
Lemma located_contents m k l1 before d tl l2 :
  table_ok m → located m k l1 before (d :: tl) l2 →
  contents m = <[k := drop (ksize m) d]> (list_to_map (pair_of (ksize m) <$> (concat l1 ++ before) ++ tl ++ concat l2))
  ∧ k ∉ take (ksize m) <$> (concat l1 ++ before) ++ tl ++ concat l2.
Proof.
  intros Ht Hl. pose proof (lo_at _ _ _ _ _ _ Hl d eq_refl) as Hd. pose proof (t_nodup _ Ht) as Hn. unfold keys in Hn.
  unfold contents. rewrite (located_entries _ _ _ _ _ _ Hl) in *. split; [rewrite <- Hd at 1; by apply contents_middle|].
  cbn [app] in Hn. rewrite fmap_app, fmap_cons, Hd, <- Permutation_middle in Hn. rewrite fmap_app. by apply NoDup_cons in Hn as [? _].
Qed.

(** Another chain tail in place of [at]. *)
Lemma replace_entries m k l1 before at_ l2 n new :
  located m k l1 before at_ l2 →
  entries (set_table n (<[bucket k (i_key_size (m_info m)) := before ++ new]> (m_buckets m)) m) = (concat l1 ++ before) ++ new ++ concat l2.
Proof.
  intros Hl. unfold entries. cbn. rewrite (lo_index _ _ _ _ _ _ Hl), (lo_buckets _ _ _ _ _ _ Hl), insert_middle, concat_app. cbn. by rewrite <- !app_assoc.
Qed.
Lemma replace_ok m k l1 before at_ l2 n new :
  table_ok m → located m k l1 before at_ l2 →
  Forall (λ e, e ∈ at_ ∨ take (ksize m) e = k ∧ length e = (ksize m + vsize m)%nat) new →
  NoDup (take (ksize m) <$> (concat l1 ++ before) ++ new ++ concat l2) →
  n = Z.of_nat (length ((concat l1 ++ before) ++ new ++ concat l2)) → n ≤ i_max_entries (m_info m) →
  table_ok (set_table n (<[bucket k (i_key_size (m_info m)) := before ++ new]> (m_buckets m)) m).
Proof.
  intros Ht Hl Hnew Hn Hlen Hmax. pose proof (replace_entries _ _ _ _ _ _ n new Hl) as He. rewrite Forall_forall in Hnew.
  pose proof (t_sizes _ Ht) as Hs. rewrite Forall_forall in Hs. rewrite (located_entries _ _ _ _ _ _ Hl) in Hs.
  split.
  - cbn. rewrite length_insert. apply (t_length _ Ht).
  - rewrite He. apply Forall_forall. intros e. change (ksize (set_table _ _ _)) with (ksize m). change (vsize (set_table _ _ _)) with (vsize m).
    rewrite !elem_of_app. intros [?|[[?|[? ?]]%Hnew|?]]; [apply Hs; set_solver|apply Hs; set_solver|done|apply Hs; set_solver].
  - intros i c e Hc Hin. cbn in Hc. change (ksize (set_table _ _ _)) with (ksize m). change (m_info (set_table _ _ _)) with (m_info m).
    destruct (decide (i = bucket k (i_key_size (m_info m)))) as [->|Hne]; [|rewrite list_lookup_insert_ne in Hc by done; by apply (t_place _ Ht i c)].
    assert (m_buckets m !! bucket k (i_key_size (m_info m)) = Some (before ++ at_)) as Hb.
    { rewrite (lo_index _ _ _ _ _ _ Hl), (lo_buckets _ _ _ _ _ _ Hl). by apply list_lookup_middle. }
    rewrite list_lookup_insert_eq in Hc by (by eapply lookup_lt_Some). simplify_eq.
    apply elem_of_app in Hin as [Hin|[Hin|[-> _]]%Hnew]; [| |done]; apply (t_place _ Ht _ _ _ Hb); set_solver.
  - unfold keys. rewrite He. exact Hn.
  - rewrite He. exact Hlen.
  - cbn. split; [done|]. apply (t_limit _ Ht).
Qed.

Lemma after_absent k l : k ∉ l → after k l = None.
Proof. induction l as [|x l IH]; [done|]. intros [? ?]%not_elem_of_cons. cbn. rewrite bool_decide_false by done. auto. Qed.
Lemma after_middle k l1 l2 : k ∉ l1 → after k (l1 ++ k :: l2) = Some (head l2).
Proof.
  induction l1 as [|x l IH]; cbn; [by rewrite bool_decide_true|]. intros [? ?]%not_elem_of_cons. rewrite bool_decide_false by done. auto.
Qed.
Lemma head_map {A B} (f : A → B) l : head (f <$> l) = f <$> head l.
Proof. by destruct l. Qed.

Lemma located_next m k l1 before at_ l2 :
  table_ok m → located m k l1 before at_ l2 →
  next_key (keys m) (Some k) =
  take (ksize m) <$> match head at_ with
                     | None => first_entry (m_buckets m)
                     | Some _ => match tail at_ with n :: _ => Some n | [] => first_entry (drop (S (length l1)) (m_buckets m)) end
                     end.
Proof.
  intros Ht Hl. rewrite !first_entry_head. unfold keys, next_key. rewrite head_map. fold (entries m).
  rewrite (lo_buckets _ _ _ _ _ _ Hl), (located_entries _ _ _ _ _ _ Hl). destruct at_ as [|d tl]; cbn [head tail].
  - rewrite after_absent; [done|]. rewrite fmap_app, elem_of_app. intros [H|H]; [by apply (lo_before _ _ _ _ _ _ Hl)|by apply (lo_after _ _ _ _ _ _ Hl)].
  - cbn [app]. rewrite fmap_app, fmap_cons, (lo_at _ _ _ _ _ _ Hl d eq_refl), after_middle by (apply (lo_before _ _ _ _ _ _ Hl)).
    cbn [from_option id]. rewrite head_map. f_equal. change (S (length l1)) with (1 + length l1)%nat. rewrite (Nat.add_comm 1), <- drop_drop, drop_app_length. by destruct tl.
Qed.

Lemma contents_size m : table_ok m → Z.of_nat (size (contents m)) = m_count m.
Proof.
  intros Ht. rewrite (t_count _ Ht). f_equal. unfold contents. rewrite <- (length_fmap (pair_of (ksize m)) (entries m)).
  pose proof (t_nodup _ Ht) as Hn. unfold keys in Hn. change (take (ksize m)) with (fst ∘ pair_of (ksize m)) in Hn. rewrite list_fmap_compose in Hn.
  by rewrite <- length_map_to_list, (map_to_list_to_map _ Hn).
Qed.

(** A new table after a change at [k]: its contents, and the order of the other keys. *)
Definition changed (m m' : md_bpf_map) (k : list Z) (A : gmap (list Z) (list Z)) : Prop :=
  table_ok m' ∧ contents m' = A ∧ filter (λ x, x ≠ k) (keys m') = filter (λ x, x ≠ k) (keys m).

Section change.
Context (m : md_bpf_map) (k : list Z) (l1 : list (list entry)) (before : list entry) (l2 : list (list entry)).
Context (Ht : table_ok m).
Abbreviation table n new := (set_table n (<[bucket k (i_key_size (m_info m)) := before ++ new]> (m_buckets m)) m).
Abbreviation around new := ((concat l1 ++ before) ++ new ++ concat l2).

Lemma delete_changed d tl :
  located m k l1 before (d :: tl) l2 → changed m (table (wrap32 (m_count m - 1)) tl) k (delete k (contents m)).
Proof using Ht.
  intros Hl. destruct (located_contents _ _ _ _ _ _ _ Ht Hl) as [Hc Hk]. pose proof (lo_at _ _ _ _ _ _ Hl d eq_refl) as Hd.
  pose proof (t_count _ Ht) as Hcount. pose proof (t_limit _ Ht) as Hlim. pose proof (t_nodup _ Ht) as Hn. unfold keys in Hn.
  pose proof (located_entries _ _ _ _ _ _ Hl) as He. rewrite He in Hcount, Hn. rewrite !length_app in Hcount. cbn [length] in Hcount.
  split_and!.
  - apply (replace_ok m k l1 before (d :: tl) l2); [done|done|apply Forall_forall; intros; left; by right| | |].
    + cbn [app] in Hn. rewrite fmap_app, fmap_cons, <- Permutation_middle, <- fmap_app in Hn. by apply NoDup_cons in Hn as [_ Hn].
    + rewrite wrap32_small by (unfold UINT32_MAX; lia). rewrite !length_app. lia.
    + rewrite wrap32_small by (unfold UINT32_MAX; lia). lia.
  - unfold contents at 1. rewrite (replace_entries _ _ _ _ _ _ _ _ Hl), Hc, delete_insert_id; [done|]. by apply contents_absent.
  - unfold keys. rewrite (replace_entries _ _ _ _ _ _ _ _ Hl), He. cbn [app]. change (ksize (set_table _ _ _)) with (ksize m).
    rewrite !fmap_app, fmap_cons, !filter_app, filter_cons_False by auto. by rewrite fmap_app, filter_app.
Qed.

Lemma overwrite_changed d tl v :
  located m k l1 before (d :: tl) l2 → length k = ksize m → length v = vsize m →
  changed m (table (m_count m) ((k ++ v) :: tl)) k (<[k := v]> (contents m)).
Proof using Ht.
  intros Hl Hlk Hlv. destruct (located_contents _ _ _ _ _ _ _ Ht Hl) as [Hc Hk]. pose proof (lo_at _ _ _ _ _ _ Hl d eq_refl) as Hd.
  pose proof (t_count _ Ht) as Hcount. pose proof (t_limit _ Ht) as Hlim. pose proof (t_nodup _ Ht) as Hn. unfold keys in Hn.
  pose proof (located_entries _ _ _ _ _ _ Hl) as He. rewrite He in Hcount, Hn. rewrite !length_app in Hcount. cbn [length] in Hcount.
  assert (take (ksize m) (k ++ v) = k) as Htk by (by rewrite <- Hlk, take_app_length). assert (drop (ksize m) (k ++ v) = v) as Hdk by (by rewrite <- Hlk, drop_app_length).
  assert (NoDup (take (ksize m) <$> around ((k ++ v) :: tl))) as Hn'.
  { cbn [app] in Hn |- *. rewrite fmap_app, fmap_cons in Hn |- *. by rewrite Htk, <- Hd. }
  split_and!.
  - apply (replace_ok m k l1 before (d :: tl) l2); [done|done| |done| |].
    + constructor; [right; split; [done|rewrite length_app; lia]|]. apply Forall_forall. intros. left. by right.
    + rewrite !length_app. cbn [length]. lia.
    + lia.
  - unfold contents at 1. rewrite (replace_entries _ _ _ _ _ _ _ _ Hl), Hc, insert_insert_eq. change (ksize (set_table _ _ _)) with (ksize m).
    cbn [app]. rewrite contents_middle, Htk, Hdk by done. done.
  - unfold keys. rewrite (replace_entries _ _ _ _ _ _ _ _ Hl), He. cbn [app]. change (ksize (set_table _ _ _)) with (ksize m).
    by rewrite !fmap_app, !fmap_cons, Htk, Hd.
Qed.

Lemma insert_changed v :
  located m k l1 before [] l2 → length k = ksize m → length v = vsize m → m_count m ≠ i_max_entries (m_info m) →
  changed m (table (wrap32 (m_count m + 1)) [k ++ v]) k (<[k := v]> (contents m)).
Proof using Ht.
  intros Hl Hlk Hlv Hne. pose proof (t_count _ Ht) as Hcount. pose proof (t_limit _ Ht) as Hlim. pose proof (t_nodup _ Ht) as Hn. unfold keys in Hn.
  pose proof (located_entries _ _ _ _ _ _ Hl) as He. rewrite He in Hcount, Hn. rewrite !length_app in Hcount. cbn [length app] in Hcount, Hn.
  assert (take (ksize m) (k ++ v) = k) as Htk by (by rewrite <- Hlk, take_app_length). assert (drop (ksize m) (k ++ v) = v) as Hdk by (by rewrite <- Hlk, drop_app_length).
  assert (NoDup (take (ksize m) <$> around [k ++ v])) as Hn'.
  { cbn [app]. rewrite fmap_app, fmap_cons, Htk, <- Permutation_middle, <- fmap_app. apply NoDup_cons. split; [|done].
    rewrite fmap_app, elem_of_app. intros [H|H]; [by apply (lo_before _ _ _ _ _ _ Hl)|by apply (lo_after _ _ _ _ _ _ Hl)]. }
  split_and!.
  - apply (replace_ok m k l1 before [] l2); [done|done| |done| |].
    + constructor; [right; split; [done|rewrite length_app; lia]|done].
    + rewrite wrap32_small by (unfold UINT32_MAX; lia). rewrite !length_app. cbn [length]. lia.
    + rewrite wrap32_small by (unfold UINT32_MAX; lia). lia.
  - unfold contents. rewrite (replace_entries _ _ _ _ _ _ _ _ Hl), He. change (ksize (set_table _ _ _)) with (ksize m).
    cbn [app]. rewrite contents_middle, Htk, Hdk by done. done.
  - unfold keys. rewrite (replace_entries _ _ _ _ _ _ _ _ Hl), He. cbn [app]. change (ksize (set_table _ _ _)) with (ksize m).
    by rewrite !fmap_app, fmap_cons, Htk, !filter_app, filter_cons_False by auto.
Qed.
End change.

Lemma same_changed m k : table_ok m → changed m m k (contents m).
Proof. done. Qed.

(** One command on a key of the right size. *)
Lemma element_key m command k value flags malloc :
  table_ok m → length k = ksize m → length value = vsize m →
  let '(m', r) := md_bpf_map_element m command (Some k) value flags malloc in
  let '(A, s) := map_spec (i_max_entries (m_info m)) (contents m) (keys m) command (Some k) value flags malloc in
  changed m m' k A ∧ r = s.
Proof.
  intros Ht Hk Hv. destruct (locate m k Ht Hk) as (l1 & before & at_ & l2 & Hl).
  unfold md_bpf_map_element, map_spec. destruct (element_supported command flags); cbn [negb]; [|done].
  assert (m_buckets m !! bucket k (i_key_size (m_info m)) = Some (before ++ at_)) as Hb.
  { rewrite (lo_index _ _ _ _ _ _ Hl), (lo_buckets _ _ _ _ _ _ Hl). by apply list_lookup_middle. }
  rewrite Hb. cbn [from_option id]. rewrite (lo_walk _ _ _ _ _ _ Hl). cbv zeta. fold (ksize m) (vsize m).
  destruct (command =? BPF_MAP_GET_NEXT_KEY).
  { rewrite (located_next _ _ _ _ _ _ Ht Hl), <- (lo_index _ _ _ _ _ _ Hl). split; [done|]. by destruct (match head at_ with None => _ | Some _ => _ end). }
  assert (take (ksize m) k = k) as Htk by (apply take_ge; lia). assert (take (vsize m) value = value) as Htv by (apply take_ge; lia).
  destruct at_ as [|d tl]; cbn [head tail].
  - rewrite (located_absent _ _ _ _ _ Hl), contents_size by done. destruct (command =? BPF_MAP_LOOKUP_ELEM); [done|].
    destruct (command =? BPF_MAP_DELETE_ELEM); [done|]. cbn [orb]. destruct (flags =? BPF_EXIST); [done|].
    destruct (Z.eqb_spec (m_count m) (i_max_entries (m_info m))) as [|Hne]; [done|]. destruct malloc; [|done]. cbn [negb]. rewrite Htk, Htv.
    split; [|done]. by apply (insert_changed m k l1 before l2).
  - destruct (located_contents _ _ _ _ _ _ _ Ht Hl) as [Hc _]. pose proof (lo_at _ _ _ _ _ _ Hl d eq_refl) as Hd.
    rewrite Hc, lookup_insert_eq, <- Hc. destruct (command =? BPF_MAP_LOOKUP_ELEM).
    { split; [done|]. f_equal. apply take_ge. rewrite length_drop. pose proof (t_sizes _ Ht) as Hs. rewrite Forall_forall in Hs.
      rewrite (Hs d); [lia|]. rewrite (located_entries _ _ _ _ _ _ Hl). set_solver. }
    destruct (command =? BPF_MAP_DELETE_ELEM); [split; [by apply (delete_changed m k l1 before l2 Ht d)|done]|].
    destruct (flags =? BPF_NOEXIST); [done|]. rewrite Hd, Htv. split; [by apply (overwrite_changed m k l1 before l2 Ht d)|done].
Qed.
Lemma element_null m command value flags malloc :
  let '(m', r) := md_bpf_map_element m command None value flags malloc in
  let '(A, s) := map_spec (i_max_entries (m_info m)) (contents m) (keys m) command None value flags malloc in
  m' = m ∧ A = contents m ∧ r = s.
Proof.
  unfold md_bpf_map_element, map_spec. destruct (element_supported command flags); cbn [negb]; [|done].
  destruct (command =? BPF_MAP_GET_NEXT_KEY); [|done]. split_and!; [done..|]. cbn [next_key]. unfold keys, entries.
  rewrite head_map, first_entry_head. unfold ksize. by destruct (head (concat (m_buckets m))).
Qed.
Lemma element_frame m command key value flags malloc :
  ∃ n b, (md_bpf_map_element m command key value flags malloc).1 = set_table n b m.
Proof.
  assert (∃ n b, m = set_table n b m) as Hid by (exists (m_count m), (m_buckets m); by destruct m).
  unfold md_bpf_map_element. case_if; [done|]. destruct (match key with Some k => walk _ _ _ | None => _ end) as [before at_].
  cbv zeta. case_if; [done|]. destruct key as [k|]; [|done]. repeat first [case_if | case_match]; cbn [fst]; solve [done | by eexists _, _].
Qed.

Lemma keys_contents m x : table_ok m → x ∈ keys m ↔ is_Some (contents m !! x).
Proof.
  intros Ht. unfold contents. rewrite <- elem_of_dom, dom_list_to_map_L, elem_of_list_to_set, <- list_fmap_compose. done.
Qed.

(** C24: An element command acts on the finite map that the table holds as bpf(2) says:
    it returns what the specification returns (value, next key, or error) and
    leaves the map the specification leaves, for every key, flag and outcome of
    the allocation.  The table stays well formed: chains in the right buckets, no
    key twice, the count exact and within the limit.  The keys are enumerated in an
    order in which a command moves no key but its own. *)
Theorem bpf_map_refines m command key value flags malloc m' r :
  table_ok m → (∀ k, key = Some k → length k = ksize m) → length value = vsize m →
  md_bpf_map_element m command key value flags malloc = (m', r) →
  table_ok m' ∧ map_spec (i_max_entries (m_info m)) (contents m) (keys m) command key value flags malloc = (contents m', r)
  ∧ NoDup (keys m') ∧ (∀ x, x ∈ keys m' ↔ is_Some (contents m' !! x))
  ∧ filter (λ x, Some x ≠ key) (keys m') = filter (λ x, Some x ≠ key) (keys m).
Proof.
  intros Ht Hk Hv He. assert (∃ A s, map_spec (i_max_entries (m_info m)) (contents m) (keys m) command key value flags malloc = (A, s)
    ∧ table_ok m' ∧ contents m' = A ∧ r = s ∧ filter (λ x, Some x ≠ key) (keys m') = filter (λ x, Some x ≠ key) (keys m)) as (A & s & -> & Ht' & <- & -> & Hf).
  { destruct key as [k|].
    - pose proof (element_key m command k value flags malloc Ht (Hk k eq_refl) Hv) as H. rewrite He in H. destruct (map_spec _ _ _ _ _ _ _ _) as [A s].
      destruct H as [(? & ? & Hf) ?]. exists A, s. split_and!; try done. transitivity (filter (λ x, x ≠ k) (keys m')); [|rewrite Hf]; apply list_filter_iff; naive_solver.
    - pose proof (element_null m command value flags malloc) as H. rewrite He in H. destruct (map_spec _ _ _ _ _ _ _ _) as [A s].
      destruct H as (-> & -> & ->). by exists (contents m), s. }
  split_and!; [done|done|apply (t_nodup _ Ht')|intros; by apply keys_contents|done].
Qed.

(** A walk over the map as bpf(2) clients make it: the first key, then the key after
    each one, until ENOENT.  [None]: another error, or the calls ran out. *)
Fixpoint enumerate (calls : nat) (m : md_bpf_map) (key : option (list Z)) : option (list (list Z)) :=
  match calls with
  | O => None
  | S calls =>
      match (md_bpf_map_element m BPF_MAP_GET_NEXT_KEY key [] 0 true).2 with
      | inl k => (k ::.) <$> enumerate calls m (Some k)
      | inr e => if e =? - ENOENT then Some [] else None
      end
  end.
Lemma next_key_element m key value :
  table_ok m → (∀ k, key = Some k → length k = ksize m) →
  (md_bpf_map_element m BPF_MAP_GET_NEXT_KEY key value 0 true).2 = match next_key (keys m) key with Some k => inl k | None => inr (- ENOENT) end.
Proof.
  intros Ht Hk. destruct key as [k|].
  - destruct (locate m k Ht (Hk k eq_refl)) as (l1 & before & at_ & l2 & Hl). unfold md_bpf_map_element. cbn -[walk bucket keys next_key first_entry drop tail ENOENT].
    assert (m_buckets m !! bucket k (i_key_size (m_info m)) = Some (before ++ at_)) as Hb.
    { rewrite (lo_index _ _ _ _ _ _ Hl), (lo_buckets _ _ _ _ _ _ Hl). by apply list_lookup_middle. }
    rewrite Hb. cbn [from_option id]. rewrite (lo_walk _ _ _ _ _ _ Hl), (located_next _ _ _ _ _ _ Ht Hl), <- (lo_index _ _ _ _ _ _ Hl).
    cbn [snd]. by destruct (match head at_ with None => _ | Some _ => _ end).
  - unfold md_bpf_map_element. cbn -[keys next_key first_entry ENOENT]. cbn [next_key]. unfold keys, entries.
    rewrite head_map, first_entry_head. unfold ksize. by destruct (head (concat (m_buckets m))).
Qed.
Lemma enumerate_from m l1 k l2 n :
  table_ok m → keys m = l1 ++ k :: l2 → (length l2 < n)%nat → enumerate n m (Some k) = Some l2.
Proof.
  intros Ht. revert l1 k l2. induction n as [|n IH]; intros l1 k l2 Hs Hn; [lia|]. cbn [enumerate].
  assert (Forall (λ x, length x = ksize m) (keys m)) as Hlen.
  { apply Forall_fmap. eapply Forall_impl; [exact (t_sizes _ Ht)|]. intros e He. cbn beta in He. unfold compose. rewrite length_take, He. lia. }
  rewrite Hs in Hlen. apply Forall_app in Hlen as [_ [Hk _]%Forall_cons].
  rewrite next_key_element by (done || by intros ? [= <-]). unfold next_key. pose proof (t_nodup _ Ht) as Hnd. rewrite Hs in Hnd |- *.
  apply NoDup_app in Hnd as (_ & Hnot & _). rewrite after_middle by (intros ?; by eapply Hnot; [done|left]). cbn [from_option id].
  destruct l2 as [|x l2]; [done|]. cbn [head]. rewrite (IH (l1 ++ [k]) x l2); [done| |cbn in Hn; lia]. by rewrite Hs, <- app_assoc.
Qed.
(** Enumerating a map by GET_NEXT_KEY ends after one call per key and one more, and
    lists every key of the map exactly once. *)
Theorem bpf_map_enumerates m :
  table_ok m →
  ∃ l, enumerate (S (size (contents m))) m None = Some l ∧ NoDup l ∧ ∀ x, x ∈ l ↔ is_Some (contents m !! x).
Proof.
  intros Ht. assert (size (contents m) = length (keys m)) as ->.
  { pose proof (contents_size m Ht) as H. rewrite (t_count _ Ht) in H. unfold keys. rewrite length_fmap. lia. }
  exists (keys m). split_and!; [|apply (t_nodup _ Ht)|intros; by apply keys_contents].
  cbn [enumerate]. rewrite next_key_element by done. cbn [next_key]. destruct (keys m) as [|k l] eqn:Ek; [done|]. cbn [head].
  rewrite (enumerate_from m [] k l) by (done || cbn; lia). done.
Qed.

(** ** The registry and the references of its clients

    [ho] and [hm] count the references that clients hold to a registry and to a map. *)

Record bpf_state := mk_state { s_heap : bpf_heap; s_ho : loc → Z; s_hm : loc → Z }.
Definition bump (f : loc → Z) (l : loc) (d : Z) : loc → Z := λ x, if decide (x = l) then f x + d else f x.

Inductive bpf_op :=
  | NewMaps (calloc : bool) (mutex : Z) | RetainMaps (o : loc) | ReleaseMaps (o : loc)
  | NewMap (o : loc) (info : bpf_map_info) (calloc : bool) | RetainMap (m : loc) | ReleaseMap (m : loc)
  | FindMap (o : loc) (id : Z) | Element (m : loc) (command : Z) (key : option (list Z)) (value : list Z) (flags : Z) (malloc : bool).

Section accounts.
Context (sizeof_map : Z).

Definition run (s : bpf_state) (op : bpf_op) : option bpf_state :=
  let h := s_heap s in
  match op with
  | NewMaps calloc mutex =>
      let '(h, r) := md_bpf_maps_new h calloc mutex in
      Some (mk_state h (match r with inl o => bump (s_ho s) o 1 | inr _ => s_ho s end) (s_hm s))
  | RetainMaps o => h ← md_bpf_maps_retain h (Some o); Some (mk_state h (bump (s_ho s) o 1) (s_hm s))
  | ReleaseMaps o => h ← md_bpf_maps_release h (Some o); Some (mk_state h (bump (s_ho s) o (-1)) (s_hm s))
  | NewMap o info calloc =>
      '(h, r) ← md_bpf_map_new sizeof_map h o info calloc;
      Some (mk_state h (s_ho s) (match r with inl m => bump (s_hm s) m 1 | inr _ => s_hm s end))
  | RetainMap m => h ← md_bpf_map_retain h (Some m); Some (mk_state h (s_ho s) (bump (s_hm s) m 1))
  | ReleaseMap m => h ← md_bpf_map_release h (Some m); Some (mk_state h (s_ho s) (bump (s_hm s) m (-1)))
  | FindMap o id =>
      '(h, r) ← md_bpf_map_find h (Some o) id;
      Some (mk_state h (s_ho s) (match r with Some m => bump (s_hm s) m 1 | None => s_hm s end))
  | Element m command key value flags malloc =>
      x ← h_maps h !! m;
      Some (mk_state (set_map h m (md_bpf_map_element x command key value flags malloc).1) (s_ho s) (s_hm s))
  end.
(** A client uses what it holds a reference to, and there are fewer than 2^32. *)
Definition allowed (s : bpf_state) (op : bpf_op) : Prop :=
  let room_o o := ∀ x, h_owners (s_heap s) !! o = Some x → r_refs x < UINT32_MAX in
  let room_m m := ∀ x, h_maps (s_heap s) !! m = Some x → m_refs x < UINT32_MAX in
  match op with
  | NewMaps _ _ => True
  | RetainMaps o => 0 < s_ho s o ∧ room_o o
  | ReleaseMaps o => 0 < s_ho s o
  | NewMap o i _ => 0 < s_ho s o ∧ room_o o ∧ 0 ≤ i_key_size i ∧ 0 ≤ i_value_size i ∧ 0 ≤ i_max_entries i
  | RetainMap m => 0 < s_hm s m ∧ room_m m
  | ReleaseMap m => 0 < s_hm s m
  | FindMap o _ => 0 < s_ho s o ∧ ∀ m, room_m m
  | Element m _ key value _ _ =>
      0 < s_hm s m ∧ ∀ x, h_maps (s_heap s) !! m = Some x → (∀ k, key = Some k → length k = ksize x) ∧ length value = vsize x
  end.

(** What a registry relies on of its maps. *)
Definition id_of (h : bpf_heap) (m : loc) : Z := match h_maps h !! m with Some x => i_id (m_info x) | None => 0 end.
Definition reserved_of (h : bpf_heap) (m : loc) : Z := match h_maps h !! m with Some x => m_reserved x | None => 0 end.
Record registry_ok (h : bpf_heap) (held : Z) (o : loc) (x : md_bpf_maps) : Prop := mk_registry_ok {
  g_refs : r_refs x = held + Z.of_nat (length (r_first x)); g_held : 0 ≤ held; g_live : 1 ≤ r_refs x ≤ UINT32_MAX;
  g_nodup : NoDup (r_first x);
  g_count : r_count x = Z.of_nat (length (r_first x)) ∧ r_count x ≤ MAP_LIMIT;
  g_reserved : r_reserved x = total (reserved_of h <$> r_first x) ∧ r_reserved x ≤ MEMORY_LIMIT;
  g_next : 0 ≤ r_next x ≤ UINT32_MAX;
  g_ids : NoDup (id_of h <$> r_first x) ∧ Forall (λ m, 1 ≤ id_of h m ≤ r_next x) (r_first x);
  g_maps : ∀ m, m ∈ r_first x ↔ ∃ y, h_maps h !! m = Some y ∧ m_owner y = o }.
Record map_ok (h : bpf_heap) (held : Z) (y : md_bpf_map) : Prop := mk_map_ok {
  p_refs : m_refs y = held; p_live : 1 ≤ held ≤ UINT32_MAX; p_table : table_ok y;
  p_reserved : m_reserved y = reservation sizeof_map (m_info y) ∧ 0 ≤ m_reserved y;
  p_owner : is_Some (h_owners h !! m_owner y) }.
Record state_ok (s : bpf_state) : Prop := mk_state_ok {
  k_owners : ∀ o x, h_owners (s_heap s) !! o = Some x → registry_ok (s_heap s) (s_ho s o) o x;
  k_maps : ∀ m y, h_maps (s_heap s) !! m = Some y → map_ok (s_heap s) (s_hm s m) y;
  k_dead_owner : ∀ o, h_owners (s_heap s) !! o = None → s_ho s o = 0;
  k_dead_map : ∀ m, h_maps (s_heap s) !! m = None → s_hm s m = 0 }.

Lemma bump_eq f l d : bump f l d l = f l + d.
Proof. unfold bump. by rewrite decide_True. Qed.
Lemma bump_ne f l d x : x ≠ l → bump f l d x = f x.
Proof. intros. unfold bump. by rewrite decide_False. Qed.

(** Changes that a registry does not notice. *)
Definition same_maps (h h' : bpf_heap) : Prop :=
  ∀ m, (λ y, (m_owner y, i_id (m_info y), m_reserved y)) <$> h_maps h' !! m = (λ y, (m_owner y, i_id (m_info y), m_reserved y)) <$> h_maps h !! m.
Lemma same_maps_of h h' m : same_maps h h' → id_of h' m = id_of h m ∧ reserved_of h' m = reserved_of h m.
Proof. intros H. specialize (H m). unfold id_of, reserved_of. destruct (h_maps h' !! m), (h_maps h !! m); naive_solver. Qed.
Lemma registry_same h h' held o x : same_maps h h' → registry_ok h held o x → registry_ok h' held o x.
Proof.
  intros Hs []. assert (∀ m, id_of h' m = id_of h m) as Hi by (intros; by apply same_maps_of).
  assert (∀ m, reserved_of h' m = reserved_of h m) as Hr by (intros; by apply same_maps_of).
  split; try done.
  - by rewrite (list_fmap_ext _ (reserved_of h)).
  - rewrite (list_fmap_ext _ (id_of h)) by done. split; [by destruct g_ids0|]. eapply Forall_impl; [apply g_ids0|]. intros m. by rewrite Hi.
  - intros m. rewrite g_maps0. specialize (Hs m). destruct (h_maps h' !! m), (h_maps h !! m); naive_solver.
Qed.

Lemma set_map_ok s m y y' hm :
  state_ok s → h_maps (s_heap s) !! m = Some y →
  m_owner y' = m_owner y → m_info y' = m_info y → m_reserved y' = m_reserved y → table_ok y' →
  m_refs y' = hm m → 1 ≤ hm m ≤ UINT32_MAX → (∀ x, x ≠ m → hm x = s_hm s x) →
  state_ok (mk_state (set_map (s_heap s) m y') (s_ho s) hm).
Proof.
  intros Hs Hm Ho Hi Hr Ht Hrefs Hhm Hne.
  assert (same_maps (s_heap s) (set_map (s_heap s) m y')) as Hsame.
  { intros x. cbn. destruct (decide (x = m)) as [->|]; [rewrite lookup_insert_eq, Hm; cbn; by rewrite Ho, Hi, Hr|by rewrite lookup_insert_ne]. }
  destruct (k_maps _ Hs m y Hm) as [_ _ _ Hres Hown].
  split; cbn [s_heap s_ho s_hm].
  - intros o x Hx. eapply registry_same; [done|]. by apply (k_owners _ Hs).
  - intros x z. cbn. rewrite lookup_insert_Some. intros [[<- <-]|[? Hx]]; [|rewrite Hne by done; by apply (k_maps _ Hs) in Hx as []].
    split; [done|done|done|by rewrite Hr, Hi|by rewrite Ho].
  - apply (k_dead_owner _ Hs).
  - intros x. cbn. rewrite lookup_insert_None. intros [Hx ?]. rewrite Hne by done. by apply (k_dead_map _ Hs).
Qed.
Lemma set_owner_ok s o x n ho :
  state_ok s → h_owners (s_heap s) !! o = Some x → n = ho o + Z.of_nat (length (r_first x)) → 0 ≤ ho o → 1 ≤ n ≤ UINT32_MAX →
  (∀ y, y ≠ o → ho y = s_ho s y) →
  state_ok (mk_state (set_owner (s_heap s) o (set_owner_refs n x)) ho (s_hm s)).
Proof.
  intros Hs Ho Hn Hge Hb Hne. pose proof (k_owners _ Hs o x Ho) as Hreg. split; cbn [s_heap s_ho s_hm].
  - intros p z. cbn. rewrite lookup_insert_Some. intros [[<- <-]|[? Hx]].
    + destruct Hreg. by split.
    + rewrite Hne by done. by apply (registry_same (s_heap s)), (k_owners _ Hs).
  - intros m y Hy. cbn in Hy. destruct (k_maps _ Hs m y Hy) as [? ? ? ? Hown]. split; try done. cbn.
    destruct (decide (m_owner y = o)) as [->|]; [by rewrite lookup_insert_eq|by rewrite lookup_insert_ne].
  - intros p. cbn. rewrite lookup_insert_None. intros [Hp ?]. rewrite Hne by done. by apply (k_dead_owner _ Hs).
  - apply (k_dead_map _ Hs).
Qed.

(** A reference to a registry that holds no maps and is held by nobody else. *)
Lemma drop_owner_ok s o x :
  state_ok s → h_owners (s_heap s) !! o = Some x → s_ho s o = 1 → r_first x = [] →
  state_ok (mk_state (mk_heap (delete o (h_owners (s_heap s))) (h_maps (s_heap s))) (bump (s_ho s) o (-1)) (s_hm s)).
Proof.
  intros Hs Ho Hone Hnil. pose proof (k_owners _ Hs o x Ho) as Hreg. split; cbn [s_heap s_ho s_hm].
  - intros p z. cbn. rewrite lookup_delete_Some. intros [? Hx]. rewrite bump_ne by done. by apply (registry_same (s_heap s)), (k_owners _ Hs).
  - intros m y Hy. cbn in Hy. destruct (k_maps _ Hs m y Hy) as [? ? ? ? Hown]. split; try done. cbn.
    rewrite lookup_delete_ne; [done|]. intros He. pose proof (proj2 (g_maps _ _ _ _ Hreg m) (ex_intro _ y (conj Hy (eq_sym He)))) as Hin.
    rewrite Hnil in Hin. by apply elem_of_nil in Hin.
  - intros p. cbn. rewrite lookup_delete_None. intros [<-|Hp]; [rewrite bump_eq; lia|].
    unfold bump. case_decide; [subst; congruence|]. by apply (k_dead_owner _ Hs).
  - apply (k_dead_map _ Hs).
Qed.
Lemma maps_release_ok s o x :
  state_ok s → h_owners (s_heap s) !! o = Some x → 0 < s_ho s o →
  ∃ h, md_bpf_maps_release (s_heap s) (Some o) = Some h ∧ state_ok (mk_state h (bump (s_ho s) o (-1)) (s_hm s)).
Proof.
  intros Hs Ho Hpos. pose proof (k_owners _ Hs o x Ho) as Hreg. pose proof (g_refs _ _ _ _ Hreg) as Hr. pose proof (g_live _ _ _ _ Hreg) as Hl.
  cbn [md_bpf_maps_release]. rewrite Ho. cbn [mbind option_bind]. eexists. split; [done|]. destruct (Z.eqb_spec (r_refs x) 1) as [H1|H1].
  - apply (drop_owner_ok s o x); [done|done|lia|]. destruct (r_first x); [done|cbn in Hr; lia].
  - apply set_owner_ok; [done|done| | | |intros; by rewrite bump_ne]; rewrite ?bump_eq, ?wrap32_small by lia; lia.
Qed.
Lemma maps_new_ok s calloc mutex : state_ok s → ∃ s', run s (NewMaps calloc mutex) = Some s' ∧ state_ok s'.
Proof.
  intros Hs. destruct s as [h ho hm]. cbn [run s_heap s_ho s_hm]. unfold md_bpf_maps_new. destruct calloc; cbn [negb]; [|by eexists].
  case_if; [by eexists|]. eexists. split; [done|]. set (o := fresh (dom (h_owners h))).
  assert (h_owners h !! o = None) as Hf by (apply not_elem_of_dom, is_fresh). pose proof (k_dead_owner _ Hs o Hf) as H0. cbn in H0.
  split; cbn [s_heap s_ho s_hm].
  - intros p z. cbn. rewrite lookup_insert_Some. intros [[<- <-]|[? Hx]].
    + split; cbn; unfold bump, UINT32_MAX, MAP_LIMIT, MEMORY_LIMIT; rewrite ?decide_True by done; rewrite ?H0; try done; try (split; constructor).
      * by apply NoDup_nil_2.
      * intros m. split; [by intros ?%elem_of_nil|]. intros (y & Hy & Hoy). destruct (k_maps _ Hs m y Hy) as [_ _ _ _ [z Hz]]. rewrite Hoy in Hz. cbn in Hz. congruence.
    + rewrite bump_ne by done. by apply (registry_same h), (k_owners _ Hs).
  - intros m y Hy. cbn in Hy. destruct (k_maps _ Hs m y Hy) as [? ? ? ? Hown]. split; try done. cbn.
    rewrite lookup_insert_ne; [done|]. intros He. rewrite <- He in Hown. cbn in Hown. rewrite Hf in Hown. by destruct Hown.
  - intros p. cbn. rewrite lookup_insert_None. intros [Hp ?]. rewrite bump_ne by done. by apply (k_dead_owner _ Hs).
  - apply (k_dead_map _ Hs).
Qed.

Lemma replicate_nil_entries n : concat (replicate n ([] : list entry)) = [].
Proof. by induction n. Qed.
Lemma empty_table_ok o i r reserved :
  info_error i = 0 → 0 ≤ i_max_entries i → table_ok (mk_map o i r 0 reserved (replicate (Z.to_nat BUCKETS) [])).
Proof.
  intros Hi Hmax. assert (entries (mk_map o i r 0 reserved (replicate (Z.to_nat BUCKETS) [])) = []) as He by apply replicate_nil_entries. split.
  - apply length_replicate.
  - by rewrite He.
  - intros j c e Hc Hin. apply lookup_replicate in Hc as [-> _]. by apply elem_of_nil in Hin.
  - unfold keys. rewrite He. by apply NoDup_nil_2.
  - by rewrite He.
  - revert Hi. unfold info_error, EINVAL, EOPNOTSUPP, E2BIG. cbn. case_ifs; try done. intros _. breflect. lia.
Qed.
Lemma reservation_nonneg i : 0 ≤ reservation sizeof_map i.
Proof. unfold reservation, wrap64. apply Z.mod_pos_bound. lia. Qed.
Lemma reserved_nonneg s o x : state_ok s → h_owners (s_heap s) !! o = Some x → 0 ≤ r_reserved x.
Proof.
  intros Hs Ho. rewrite (proj1 (g_reserved _ _ _ _ (k_owners _ Hs o x Ho))). apply total_nonneg, Forall_fmap, Forall_forall. intros m _. cbn.
  unfold reserved_of. destruct (h_maps (s_heap s) !! m) as [y|] eqn:Hy; [|done]. apply (p_reserved _ _ _ (k_maps _ Hs m y Hy)).
Qed.

Lemma fmap_frame {A} (f g : loc → A) (l : list loc) : (∀ z, z ∈ l → f z = g z) → f <$> l = g <$> l.
Proof. intros H. apply list_fmap_ext. intros i z Hz. by apply H, list_elem_of_lookup_2 with i. Qed.
Lemma registry_frame h h' held p x :
  (∀ z, z ∈ r_first x → h_maps h' !! z = h_maps h !! z) → (∀ z y, h_maps h' !! z = Some y → m_owner y = p → z ∈ r_first x) →
  registry_ok h held p x → registry_ok h' held p x.
Proof.
  intros Hsame Hback []. assert (∀ z, z ∈ r_first x → id_of h' z = id_of h z) as Hi by (intros z Hz; unfold id_of; by rewrite Hsame).
  assert (∀ z, z ∈ r_first x → reserved_of h' z = reserved_of h z) as Hr by (intros z Hz; unfold reserved_of; by rewrite Hsame).
  split; try done.
  - by rewrite (fmap_frame _ _ _ Hr).
  - rewrite (fmap_frame _ _ _ Hi). split; [by destruct g_ids0|]. destruct g_ids0 as [_ Hf]. rewrite Forall_forall in Hf |- *. intros z Hz. rewrite Hi by done. by apply Hf.
  - intros z. split; [|intros (y & Hy & Hoy); by eapply Hback]. intros Hz. rewrite Hsame by done. by apply g_maps0.
Qed.

(** A new map in front of a registry. *)
Lemma link_map_ok s o x m y :
  state_ok s → h_owners (s_heap s) !! o = Some x → h_maps (s_heap s) !! m = None →
  m_owner y = o → m_refs y = 1 → table_ok y → m_reserved y = reservation sizeof_map (m_info y) → i_id (m_info y) = r_next x + 1 →
  r_next x < UINT32_MAX → r_refs x < UINT32_MAX → r_count x < MAP_LIMIT → r_reserved x + m_reserved y ≤ MEMORY_LIMIT →
  state_ok (mk_state (set_map (set_owner (s_heap s) o (mk_maps (r_refs x + 1) (m :: r_first x) (r_next x + 1) (r_count x + 1) (r_reserved x + m_reserved y))) m y)
    (s_ho s) (bump (s_hm s) m 1)).
Proof.
  intros Hs Ho Hm Hown Hrefs Ht Hres Hid Hnext Hroom Hcount Hmem. pose proof (k_owners _ Hs o x Ho) as Hreg.
  assert (m ∉ r_first x) as Hnot by (intros (z & Hz & _)%(g_maps _ _ _ _ Hreg); congruence).
  set (h' := set_map _ _ _). assert (∀ z, z ≠ m → h_maps h' !! z = h_maps (s_heap s) !! z) as Hother by (intros; cbn; by rewrite lookup_insert_ne).
  assert (∀ z, z ∈ r_first x → id_of h' z = id_of (s_heap s) z ∧ reserved_of h' z = reserved_of (s_heap s) z) as Hold.
  { intros z Hz. unfold id_of, reserved_of. rewrite Hother by (intros ->; done). done. }
  assert (id_of h' m = r_next x + 1 ∧ reserved_of h' m = m_reserved y) as [Hidm Hresm] by (unfold id_of, reserved_of; cbn; by rewrite lookup_insert_eq).
  pose proof (k_dead_map _ Hs m Hm) as Hhm0. split; cbn [s_heap s_ho s_hm].
  - intros p z. cbn. rewrite lookup_insert_Some. intros [[<- <-]|[Hne Hx]].
    + destruct Hreg. split; cbn [r_refs r_first r_next r_count r_reserved length]; try lia.
      * by constructor.
      * cbn [fmap list_fmap total foldr]. rewrite Hresm, (fmap_frame _ (reserved_of (s_heap s))) by (intros; by apply Hold). fold (total (reserved_of (s_heap s) <$> r_first x)). lia.
      * rewrite fmap_cons, Hidm, (fmap_frame _ (id_of (s_heap s))) by (intros; by apply Hold). destruct g_ids0 as [Hnd Hf]. rewrite Forall_forall in Hf. split.
        -- constructor; [|done]. intros (z & Hz & Hin)%list_elem_of_fmap. specialize (Hf z Hin). lia.
        -- constructor; [lia|]. apply Forall_forall. intros z Hz. rewrite (proj1 (Hold z Hz)). specialize (Hf z Hz). lia.
      * intros z. rewrite elem_of_cons, g_maps0. destruct (decide (z = m)) as [->|Hz].
        -- split; [intros _; exists y; cbn; by rewrite lookup_insert_eq|by left].
        -- rewrite Hother by done. naive_solver.
    + apply (registry_frame (s_heap s)); [| |by apply (k_owners _ Hs)].
      * intros w Hw. apply Hother. intros ->. apply (g_maps _ _ _ _ (k_owners _ Hs p z Hx)) in Hw as (? & ? & _). congruence.
      * intros w v Hv Hp. apply (g_maps _ _ _ _ (k_owners _ Hs p z Hx)). exists v. split; [|done]. rewrite <- Hother; [done|]. intros ->. cbn in Hv. rewrite lookup_insert_eq in Hv. congruence.
  - assert (∀ q, is_Some (h_owners (s_heap s) !! q) → is_Some (h_owners h' !! q)) as Hmono.
    { intros q Hq. cbn. rewrite lookup_insert_is_Some. destruct (decide (o = q)); auto. }
    intros z w. cbn. rewrite lookup_insert_Some. intros [[<- <-]|[Hne Hw]].
    + split; [rewrite bump_eq; lia|rewrite bump_eq; unfold UINT32_MAX; lia|done|rewrite Hres; split; [done|apply reservation_nonneg]|rewrite Hown; apply Hmono; by eexists].
    + rewrite bump_ne by done. destruct (k_maps _ Hs z w Hw). split; auto.
  - intros p. cbn. rewrite lookup_insert_None. intros [Hp _]. by apply (k_dead_owner _ Hs).
  - intros z. cbn. rewrite lookup_insert_None. intros [Hz ?]. rewrite bump_ne by done. by apply (k_dead_map _ Hs).
Qed.

Lemma state_ext s ho : state_ok s → (∀ o, ho o = s_ho s o) → state_ok (mk_state (s_heap s) ho (s_hm s)).
Proof.
  intros [] He. split; cbn; [|done| |done].
  - intros o x Hx. rewrite He. auto.
  - intros o Ho. rewrite He. auto.
Qed.
(** Without the map [m], whose reference to the registry is left with the caller. *)
Lemma unlink_map_ok s m y x l' :
  state_ok s → h_maps (s_heap s) !! m = Some y → s_hm s m = 1 → h_owners (s_heap s) !! m_owner y = Some x → r_first x ≡ₚ m :: l' →
  state_ok (mk_state (mk_heap (<[m_owner y := mk_maps (r_refs x) l' (r_next x) (r_count x - 1) (r_reserved x - m_reserved y)]> (h_owners (s_heap s)))
                        (delete m (h_maps (s_heap s)))) (bump (s_ho s) (m_owner y) 1) (bump (s_hm s) m (-1))).
Proof.
  intros Hs Hm Hone Ho Hp. pose proof (k_owners _ Hs _ x Ho) as Hreg. set (h' := mk_heap _ _).
  assert (NoDup (m :: l')) as [Hnot Hnd]%NoDup_cons by (rewrite <- Hp; apply Hreg).
  assert (∀ z, z ≠ m → h_maps h' !! z = h_maps (s_heap s) !! z) as Hother by (intros; cbn; by rewrite lookup_delete_ne).
  assert (∀ z, z ∈ l' → id_of h' z = id_of (s_heap s) z ∧ reserved_of h' z = reserved_of (s_heap s) z) as Hold.
  { intros z Hz. unfold id_of, reserved_of. rewrite Hother by (intros ->; done). done. }
  assert (reserved_of (s_heap s) m = m_reserved y) as Hresm by (unfold reserved_of; by rewrite Hm).
  pose proof (Permutation_length Hp) as Hlen. cbn in Hlen. split; cbn [s_heap s_ho s_hm].
  - intros p z. cbn. rewrite lookup_insert_Some. intros [[<- <-]|[Hne Hx]].
    + destruct Hreg. split; cbn [r_refs r_first r_next r_count r_reserved]; rewrite ?bump_eq; try lia; try done.
      * rewrite (fmap_frame _ (reserved_of (s_heap s))) by (intros; by apply Hold). rewrite Hp in g_reserved0. cbn in g_reserved0. rewrite Hresm in g_reserved0.
        fold (total (reserved_of (s_heap s) <$> l')) in g_reserved0. destruct (k_maps _ Hs m y Hm) as [_ _ _ [_ ?] _]. lia.
      * rewrite (fmap_frame _ (id_of (s_heap s))) by (intros; by apply Hold). rewrite Hp in g_ids0. cbn in g_ids0. destruct g_ids0 as [[_ ?]%NoDup_cons [_ Hf]%Forall_cons].
        split; [done|]. rewrite Forall_forall in Hf |- *. intros w Hw. rewrite (proj1 (Hold w Hw)). auto.
      * intros w. specialize (g_maps0 w). rewrite Hp, elem_of_cons in g_maps0. destruct (decide (w = m)) as [->|Hw].
        -- split; [done|]. intros (v & Hv & _). cbn in Hv. by rewrite lookup_delete_eq in Hv.
        -- rewrite Hother by done. naive_solver.
    + rewrite bump_ne by done. apply (registry_frame (s_heap s)); [| |by apply (k_owners _ Hs)].
      * intros w Hw. apply Hother. intros ->. apply (g_maps _ _ _ _ (k_owners _ Hs p z Hx)) in Hw as (v & Hv & Hov). congruence.
      * intros w v Hv Hv2. apply (g_maps _ _ _ _ (k_owners _ Hs p z Hx)). exists v. split; [|done]. cbn in Hv. by apply lookup_delete_Some in Hv as [_ ?].
  - intros z w. cbn. rewrite lookup_delete_Some. intros [Hne Hw]. rewrite bump_ne by done. destruct (k_maps _ Hs z w Hw). split; auto.
    cbn. rewrite lookup_insert_is_Some. destruct (decide (m_owner y = m_owner w)); auto.
  - intros p. cbn. rewrite lookup_insert_None. intros [Hq ?]. rewrite bump_ne by done. by apply (k_dead_owner _ Hs).
  - intros z. cbn. rewrite lookup_delete_None. intros [<-|Hz]; [rewrite bump_eq; lia|]. rewrite bump_ne; [by apply (k_dead_map _ Hs)|]. intros ->. congruence.
Qed.

Lemma held_owner s o : state_ok s → 0 < s_ho s o → ∃ x, h_owners (s_heap s) !! o = Some x.
Proof. intros Hs Hp. destruct (h_owners (s_heap s) !! o) eqn:E; [by eexists|]. apply (k_dead_owner _ Hs) in E. lia. Qed.
Lemma held_map s m : state_ok s → 0 < s_hm s m → ∃ y, h_maps (s_heap s) !! m = Some y.
Proof. intros Hs Hp. destruct (h_maps (s_heap s) !! m) eqn:E; [by eexists|]. apply (k_dead_map _ Hs) in E. lia. Qed.

Lemma map_new_ok s o info calloc : state_ok s → allowed s (NewMap o info calloc) → ∃ s', run s (NewMap o info calloc) = Some s' ∧ state_ok s'.
Proof.
  intros Hs (Hpos & Hroom & Hk & Hv & Hmax). destruct (held_owner s o Hs Hpos) as [x Ho]. specialize (Hroom x Ho). destruct s as [h ho hm]. cbn in *.
  assert (state_ok (mk_state h ho hm)) as Hs' by done. pose proof (k_owners _ Hs o x Ho) as Hreg. pose proof (reserved_nonneg _ o x Hs Ho) as Hnn.
  unfold md_bpf_map_new. destruct (Z.eqb_spec (info_error info) 0) as [Hi|]; cbn [negb]; [|by eexists]. destruct calloc; cbn [negb]; [|by eexists].
  rewrite Ho. cbn [mbind option_bind]. destruct ((r_count x =? MAP_LIMIT) || (r_next x =? UINT32_MAX)) eqn:E; [by eexists|]. breflect.
  destruct Hreg as [? ? ? ? [? ?] [_ ?] ? ? _]. cbn [s_heap s_ho s_hm] in *. unfold MEMORY_LIMIT, MAP_LIMIT in *.
  pose proof (reservation_nonneg info) as Hrn. rewrite wrap64_small by (unfold UINT64_MAX; lia). case_if; [by eexists|]. breflect.
  cbv zeta. cbn [md_bpf_maps_retain set_map set_owner h_owners h_maps]. rewrite lookup_insert_eq. cbn [mbind option_bind]. eexists. split; [done|].
  set (m := fresh (dom (h_maps h))). assert (h_maps h !! m = None) as Hm by (apply not_elem_of_dom, is_fresh).
  unfold set_owner, set_map, set_owner_refs. cbn [r_refs r_first r_next r_count r_reserved h_owners h_maps]. rewrite insert_insert_eq, !wrap32_small, wrap64_small by (unfold UINT64_MAX, UINT32_MAX in *; lia).
  apply (link_map_ok (mk_state h ho hm) o x m (mk_map o (set_id (r_next x + 1) info) 1 0 (reservation sizeof_map info) (replicate (Z.to_nat BUCKETS) [])));
    try done; unfold MAP_LIMIT, MEMORY_LIMIT; cbn; try lia. by apply empty_table_ok.
Qed.
Lemma map_release_ok s m : state_ok s → allowed s (ReleaseMap m) → ∃ s', run s (ReleaseMap m) = Some s' ∧ state_ok s'.
Proof.
  intros Hs Hpos. cbn in Hpos. destruct (held_map s m Hs Hpos) as [y Hm]. pose proof (k_maps _ Hs m y Hm) as [Hr Hl Ht Hres [x Ho]].
  pose proof (k_owners _ Hs _ x Ho) as Hreg. cbn [run]. unfold md_bpf_map_release. rewrite Hm. cbn [mbind option_bind]. rewrite Ho. cbn [mbind option_bind].
  rewrite wrap32_small by lia. destruct (Z.eqb_spec (m_refs y - 1) 0) as [H1|H1]; cbn [negb].
  - assert (m ∈ r_first x) as Hin by (apply (g_maps _ _ _ _ Hreg); eauto). destruct (unlink_spec _ _ Hin) as (l' & -> & Hp). cbn [mbind option_bind].
    pose proof (unlink_map_ok s m y x l' Hs Hm ltac:(lia) Ho Hp) as Hs1. pose proof (reserved_nonneg _ _ x Hs Ho) as Hnn.
    destruct (g_count _ _ _ _ Hreg) as [? ?]. destruct (g_reserved _ _ _ _ Hreg) as [Htot ?]. pose proof (Permutation_length Hp) as Hlen. cbn in Hlen.
    pose proof (reserved_nonneg _ _ _ Hs1 (lookup_insert_eq _ _ _)) as Hnn1. cbn in Hnn1. unfold MAP_LIMIT, MEMORY_LIMIT in *.
    rewrite wrap32_small, wrap64_small by (unfold UINT32_MAX, UINT64_MAX; lia). unfold set_owner. cbn [h_owners h_maps].
    destruct (maps_release_ok _ (m_owner y) _ Hs1 (lookup_insert_eq _ _ _)) as (h2 & Hh2 & Hs2); [cbn; rewrite bump_eq; pose proof (g_held _ _ _ _ Hreg); lia|].
    cbn [s_heap] in Hh2. rewrite Hh2. eexists. split; [done|]. apply (state_ext _ (s_ho s)) in Hs2; [done|].
    intros o. cbn. unfold bump. case_decide; lia.
  - eexists. split; [done|]. apply (set_map_ok s m y); try done; rewrite ?bump_eq; cbn; [|lia|lia|intros; by apply bump_ne].
    split; apply Ht.
Qed.
Lemma find_id_spec s o x id l :
  state_ok s → h_owners (s_heap s) !! o = Some x → (∀ m, m ∈ l → m ∈ r_first x) →
  ∃ r, find_id (s_heap s) id l = Some r
    ∧ match r with Some m => m ∈ l ∧ id_of (s_heap s) m = id ∧ is_Some (h_maps (s_heap s) !! m) | None => ∀ m, m ∈ l → id_of (s_heap s) m ≠ id end.
Proof.
  intros Hs Ho. induction l as [|m l IH]; intros Hl; [exists None; split; [done|by intros ? ?%elem_of_nil]|]. cbn [find_id].
  destruct (proj1 (g_maps _ _ _ _ (k_owners _ Hs o x Ho) m)) as (y & Hy & _); [apply Hl; by left|]. rewrite Hy. cbn [mbind option_bind].
  assert (id_of (s_heap s) m = i_id (m_info y)) as Hid by (unfold id_of; by rewrite Hy). case_if; breflect.
  - exists (Some m). split; [done|]. split_and!; [by left|congruence|by eexists].
  - destruct IH as (r & -> & Hr); [intros; apply Hl; by right|]. exists r. split; [done|]. destruct r as [z|].
    + destruct Hr as (? & ? & ?). split_and!; [by right|done|done].
    + intros z [->|Hz]%elem_of_cons; [congruence|auto].
Qed.
Lemma run_ok s op : state_ok s → allowed s op → ∃ s', run s op = Some s' ∧ state_ok s'.
Proof.
  intros Hs Ha. destruct op as [calloc mutex|o|o|o info calloc|m|m|o id|m command key value flags malloc].
  - by apply maps_new_ok.
  - destruct Ha as [Hpos Hroom]. destruct (held_owner s o Hs Hpos) as [x Ho]. cbn. rewrite Ho. cbn. eexists. split; [done|].
    pose proof (k_owners _ Hs o x Ho) as []. specialize (Hroom x Ho). rewrite wrap32_small by lia.
    apply set_owner_ok; rewrite ?bump_eq; try done; try lia. intros. by apply bump_ne.
  - destruct (held_owner s o Hs Ha) as [x Ho]. destruct (maps_release_ok s o x Hs Ho Ha) as (h & Hh & Hok). cbn [run]. rewrite Hh. by eexists.
  - by apply map_new_ok.
  - destruct Ha as [Hpos Hroom]. destruct (held_map s m Hs Hpos) as [y Hm]. cbn. rewrite Hm. cbn. eexists. split; [done|].
    pose proof (k_maps _ Hs m y Hm) as [? ? Ht ? ?]. specialize (Hroom y Hm). rewrite wrap32_small by lia.
    apply (set_map_ok s m y); try done; rewrite ?bump_eq; cbn; [split; apply Ht|lia|lia|intros; by apply bump_ne].
  - by apply map_release_ok.
  - destruct Ha as [Hpos Hroom]. destruct (held_owner s o Hs Hpos) as [x Ho]. cbn. rewrite Ho. cbn.
    destruct (find_id_spec s o x id (r_first x) Hs Ho) as (r & -> & Hr); [done|]. cbn. destruct r as [m|]; [|eexists; split; [done|]; by destruct s].
    destruct Hr as (_ & _ & [y Hm]). cbn. rewrite Hm. cbn. eexists. split; [done|].
    pose proof (k_maps _ Hs m y Hm) as [? ? Ht ? ?]. specialize (Hroom m y Hm). rewrite wrap32_small by lia.
    apply (set_map_ok s m y); try done; rewrite ?bump_eq; cbn; [split; apply Ht|lia|lia|intros; by apply bump_ne].
  - destruct Ha as [Hpos Hlen]. destruct (held_map s m Hs Hpos) as [y Hm]. destruct (Hlen y Hm) as [Hk Hv]. cbn [run]. rewrite Hm. cbn [mbind option_bind].
    eexists. split; [done|]. pose proof (k_maps _ Hs m y Hm) as [? ? Ht ? ?]. destruct (md_bpf_map_element y command key value flags malloc) as [y' r] eqn:E.
    destruct (element_frame y command key value flags malloc) as (n & b & Hf). rewrite E in Hf. cbn in Hf. subst y'.
    apply (set_map_ok s m y); try done. destruct key as [k|].
    + pose proof (element_key y command k value flags malloc Ht (Hk k eq_refl) Hv) as H2. rewrite E in H2. destruct (map_spec _ _ _ _ _ _ _ _). by destruct H2 as [[? _] _].
    + pose proof (element_null y command value flags malloc) as H2. rewrite E in H2. destruct (map_spec _ _ _ _ _ _ _ _). by destruct H2 as [-> _].
Qed.

Inductive reachable : bpf_state → Prop :=
  | reach_init : reachable (mk_state (mk_heap ∅ ∅) (λ _, 0) (λ _, 0))
  | reach_run s op s' : reachable s → allowed s op → run s op = Some s' → reachable s'.
Lemma reachable_ok s : reachable s → state_ok s.
Proof.
  induction 1 as [|s op s' _ IH Ha Hr]; [by split|]. destruct (run_ok s op IH Ha) as (s2 & Hr2 & Hok). congruence.
Qed.
Lemma find_exact s o x id :
  state_ok s → h_owners (s_heap s) !! o = Some x →
  ∃ h r, md_bpf_map_find (s_heap s) (Some o) id = Some (h, r) ∧ ∀ m, r = Some m ↔ m ∈ r_first x ∧ id_of (s_heap s) m = id.
Proof.
  intros Hs Ho. unfold md_bpf_map_find. rewrite Ho. cbn [mbind option_bind].
  destruct (find_id_spec s o x id (r_first x) Hs Ho) as (r & -> & Hr); [done|]. cbn [mbind option_bind]. destruct r as [z|].
  - destruct Hr as (Hz & Hid & [y Hy]). cbn [md_bpf_map_retain]. rewrite Hy. cbn [mbind option_bind]. eexists _, _. split; [done|].
    intros m. split; [intros [= <-]; auto|]. intros [Hm Hidm]. f_equal. destruct (g_ids _ _ _ _ (k_owners _ Hs o x Ho)) as [Hnd _].
    apply list_elem_of_lookup in Hz as [i Hi], Hm as [j Hj]. assert (i = j) as <-; [|congruence].
    eapply NoDup_lookup; [exact Hnd| |]; rewrite list_lookup_fmap, ?Hi, ?Hj; cbn; [done|congruence].
  - eexists _, _. split; [done|]. intros m. split; [done|]. intros [Hm Hidm]. by apply Hr in Hm.
Qed.
Lemma drained s : state_ok s → (∀ o, s_ho s o = 0) → (∀ m, s_hm s m = 0) → s_heap s = mk_heap ∅ ∅.
Proof.
  intros Hs H1 H2. assert (h_maps (s_heap s) = ∅) as Hm.
  { apply map_empty. intros m. destruct (h_maps (s_heap s) !! m) as [y|] eqn:E; [|done]. destruct (k_maps _ Hs m y E) as [? ? _ _ _]. rewrite H2 in *. lia. }
  assert (h_owners (s_heap s) = ∅) as Ho.
  { apply map_empty. intros o. destruct (h_owners (s_heap s) !! o) as [x|] eqn:E; [|done]. destruct (k_owners _ Hs o x E) as [? ? ? _ _ _ _ _ Hmaps].
    destruct (r_first x) as [|m l]; [rewrite H1 in *; cbn in *; lia|]. destruct (proj1 (Hmaps m)) as (y & Hy & _); [by left|]. rewrite Hm in Hy. done. }
  destruct (s_heap s). cbn in *. by subst.
Qed.
(** While clients create, share, look up, change and release registries and maps,
    using only what they hold a reference to, no operation follows a pointer to
    something freed.  In every state a registry counts its maps exactly, at most
    4096; the memory it accounts for is the sum of what its maps reserved and
    within 64 MiB; numbers of maps are unique, and a lookup by number finds the map
    that has it.  Reference counts are the references held, so that once nothing is
    held nothing is left. *)
Theorem bpf_registry_exact s :
  reachable s →
  state_ok s ∧ (∀ op, allowed s op → is_Some (run s op))
  ∧ (∀ o x id, h_owners (s_heap s) !! o = Some x →
       ∃ h r, md_bpf_map_find (s_heap s) (Some o) id = Some (h, r) ∧ ∀ m, r = Some m ↔ m ∈ r_first x ∧ id_of (s_heap s) m = id)
  ∧ ((∀ o, s_ho s o = 0) → (∀ m, s_hm s m = 0) → s_heap s = mk_heap ∅ ∅).
Proof.
  intros Hs%reachable_ok. split_and!; [done| |intros; by apply find_exact|by apply drained].
  intros op Ha. destruct (run_ok s op Hs Ha) as (s' & -> & _). done.
Qed.
End accounts.

(** ** Witnesses *)

Definition demo_info : bpf_map_info := mk_info 1 0 2 1 2 0 [97; 0].
Definition demo_map : md_bpf_map :=
  mk_map 1 demo_info 1 0 2300 (replicate (Z.to_nat BUCKETS) []).
Lemma demo_table : table_ok demo_map.
Proof. apply (empty_table_ok 1 demo_info 1 2300); [done|cbn; lia]. Qed.
Lemma bpf_map_refines_witness :
  table_ok (md_bpf_map_element demo_map BPF_MAP_UPDATE_ELEM (Some [1; 2]) [7] 0 true).1
  ∧ contents (md_bpf_map_element demo_map BPF_MAP_UPDATE_ELEM (Some [1; 2]) [7] 0 true).1 = {[ [1; 2] := [7] ]}.
Proof.
  destruct (bpf_map_refines demo_map BPF_MAP_UPDATE_ELEM (Some [1; 2]) [7] 0 true _ _ demo_table ltac:(by intros k [= <-]) ltac:(reflexivity) (surjective_pairing _)) as (Ht & _).
  split; [exact Ht|vm_compute; reflexivity].
Defined.
Definition demo_filled : md_bpf_map := (md_bpf_map_element demo_map BPF_MAP_UPDATE_ELEM (Some [1; 2]) [7] 0 true).1.
Lemma filled_table : table_ok demo_filled.
Proof. exact (proj1 (proj1 (element_key demo_map BPF_MAP_UPDATE_ELEM [1; 2] [7] 0 true demo_table eq_refl eq_refl))). Qed.
Lemma bpf_map_enumerates_witness : ∃ l, enumerate 2 demo_filled None = Some l ∧ [1; 2] ∈ l.
Proof.
  destruct (bpf_map_enumerates demo_filled filled_table) as (l & Hl & _ & Hin). exists l. split; [exact Hl|].
  apply Hin. exists [7]. vm_compute. reflexivity.
Defined.
Definition demo_heap : bpf_state := mk_state (mk_heap {[ 1%positive := mk_maps 1 [] 0 0 0 ]} ∅) (bump (λ _, 0) 1 1) (λ _, 0).
Lemma bpf_registry_exact_witness : reachable 2200 demo_heap ∧ is_Some (run 2200 demo_heap (ReleaseMaps 1)).
Proof.
  assert (reachable 2200 demo_heap) as Hr.
  { apply (reach_run 2200 _ (NewMaps true 0) _ (reach_init 2200)); [exact I|reflexivity]. }
  destruct (bpf_registry_exact 2200 demo_heap Hr) as (_ & H & _). split; [exact Hr|]. apply H. vm_compute. reflexivity.
Defined.
