(* ===== verification/ElfImage.v ===== *)
(** * Loading ELF images (elf.c)

    [read_elf] admits a file, [layout] computes where its segments go, and
    [md_elf_load] reserves the range, maps every segment into it and clears what
    lies behind the file's bytes.  [page] is md_page_size, a power of two.

    What the kernel answers is an argument: the results of fstat and pread64, and
    for each memory call, given the calls so far, its result.  The calls that
    succeeded are a trace, oldest first; [cell_at] is what mmap(2), mprotect(2) and
    munmap(2) say the memory then holds. *)
From S2P Require Import Prelude CLib.

(** ** The file *)

(** Little-endian field of [n] bytes at [off]. *)
Definition le (l : list Z) : Z := foldr (λ b acc, b + 256 * acc) 0 l.
Definition field (l : list Z) (off n : nat) : Z := le (take n (drop off l)).

Record Elf64_Ehdr := mk_ehdr {
  e_ident : list Z; e_type : Z; e_machine : Z; e_version : Z; e_entry : Z; e_phoff : Z;
  e_ehsize : Z; e_phentsize : Z; e_phnum : Z }.
Record Elf64_Phdr := mk_phdr {
  p_type : Z; p_flags : Z; p_offset : Z; p_vaddr : Z; p_filesz : Z; p_memsz : Z; p_align : Z }.
Definition EHDR_SIZE : Z := 64.
Definition PHDR_SIZE : Z := 56.
Definition ehdr_of (b : list Z) : Elf64_Ehdr :=
  mk_ehdr (take 16 b) (field b 16 2) (field b 18 2) (field b 20 4) (field b 24 8) (field b 32 8) (field b 52 2) (field b 54 2) (field b 56 2).
Definition phdr_of (b : list Z) : Elf64_Phdr :=
  mk_phdr (field b 0 4) (field b 4 4) (field b 8 8) (field b 16 8) (field b 32 8) (field b 40 8) (field b 48 8).
Fixpoint phdrs_of (n : nat) (b : list Z) : list Elf64_Phdr :=
  match n with O => [] | S n => phdr_of (take (Z.to_nat PHDR_SIZE) b) :: phdrs_of n (drop (Z.to_nat PHDR_SIZE) b) end.

Definition PT_LOAD : Z := 1.
Definition PT_INTERP : Z := 3.
Definition PF_X : Z := 1.
Definition PF_W : Z := 2.
Definition PF_R : Z := 4.
Definition PATH_MAX : Z := 4096.

(** Results of fstat (mode and size, or a negative error) and of pread64 (size, offset). *)
Record file_env := mk_file_env { fe_stat : (Z * Z) + Z; fe_pread : Z → Z → list Z + Z }.
Record elf_data := mk_data { d_header : Elf64_Ehdr; d_ph : list Elf64_Phdr; d_interpreter : list Z }.

(** [pread64(...) != n] is an error of the caller. *)
Definition read_exactly (env : file_env) (n off : Z) : option (list Z) :=
  match fe_pread env n off with inl b => if Z.of_nat (length b) =? n then Some b else None | inr _ => None end.

Definition ident_ok (i : list Z) : bool := bool_decide (take 7 i = [127; 69; 76; 70; 2; 1; 1]).
Definition header_ok (h : Elf64_Ehdr) (loader : bool) : bool :=
  ident_ok (e_ident h) && (e_machine h =? 183) && (e_version h =? 1) && (e_ehsize h =? EHDR_SIZE) && (e_phentsize h =? PHDR_SIZE)
  && negb (e_phnum h =? 0) && (e_phnum h <=? 128) && ((e_type h =? 3) || negb loader && (e_type h =? 2)).

(** The loop over the program headers: the interpreter, once one was found. *)
Fixpoint read_segments (env : file_env) (loader : bool) (size : Z) (found : option (list Z)) (ph : list Elf64_Phdr) : list Z + Z :=
  match ph with
  | [] => inl (default [] found)
  | p :: ph =>
      if (size <? p_offset p) || (size - p_offset p <? p_filesz p) then inr (- ENOEXEC)
      else if p_type p =? PT_INTERP then
        if loader || bool_decide (is_Some found) || (p_filesz p <? 2) || (PATH_MAX <? p_filesz p) then inr (- ENOEXEC)
        else match read_exactly env (p_filesz p) (p_offset p) with
        | None => inr (- ENOEXEC)
        | Some b =>
            if negb (default 0 (last b) =? 0) || negb (Z.of_nat (length (c_string b)) =? p_filesz p - 1)
               || negb (default 0 (head b) =? 47) then inr (- ENOEXEC)
            else read_segments env loader size (Some (c_string b)) ph
        end
      else read_segments env loader size found ph
  end.

Definition read_elf (env : file_env) (loader : bool) : elf_data + Z :=
  match fe_stat env with
  | inr r => inr r
  | inl (mode, st_size) =>
      if negb (Z.land mode 61440 =? 32768) || has_bits mode 3072 then inr (- EACCES)
      else match read_exactly env EHDR_SIZE 0 with
      | None => inr (- ENOEXEC)
      | Some b =>
          let h := ehdr_of b in
          if negb (header_ok h loader) then inr (- ENOEXEC)
          else
            let size := e_phnum h * PHDR_SIZE in
            if (st_size <? 0) || (st_size <? e_phoff h) || (st_size - e_phoff h <? size) then inr (- ENOEXEC)
            else match read_exactly env size (e_phoff h) with
            | None => inr (- ENOEXEC)
            | Some b =>
                let ph := phdrs_of (Z.to_nat (e_phnum h)) b in
                let! interpreter := read_segments env loader st_size None ph in
                inl (mk_data h ph interpreter)
            end
      end
  end.

(** *** What [read_elf] has read *)

Definition word_ok (x : Z) : Prop := 0 ≤ x ≤ UINT64_MAX.
Record fields_ok (p : Elf64_Phdr) : Prop := mk_fields_ok {
  f_offset : word_ok (p_offset p); f_vaddr : word_ok (p_vaddr p); f_filesz : word_ok (p_filesz p); f_memsz : word_ok (p_memsz p);
  f_align : word_ok (p_align p) }.

Definition bytes (l : list Z) : Prop := Forall (λ b, 0 ≤ b < 256) l.
Lemma le_bound l : bytes l → 0 ≤ le l < 256 ^ Z.of_nat (length l).
Proof.
  induction 1 as [|b l Hb Hl IH]; [done|]. change (le (b :: l)) with (b + 256 * le l). cbn [length]. rewrite Nat2Z.inj_succ, Z.pow_succ_r by lia. lia.
Qed.
Lemma field_bound l off n : bytes l → (n ≤ 8)%nat → word_ok (field l off n).
Proof.
  intros Hl Hn. unfold field. pose proof (le_bound (take n (drop off l)) ltac:(by apply Forall_take, Forall_drop)) as H.
  assert (256 ^ Z.of_nat (length (take n (drop off l))) ≤ 256 ^ 8) by (apply Z.pow_le_mono_r; [lia|]; rewrite length_take; lia).
  unfold word_ok, UINT64_MAX. change (256 ^ 8) with 18446744073709551616 in *. lia.
Qed.
Lemma phdrs_fields n b : bytes b → Forall fields_ok (phdrs_of n b).
Proof.
  revert b. induction n as [|n IH]; intros b Hb; cbn [phdrs_of]; constructor; [|by apply IH, Forall_drop].
  assert (bytes (take (Z.to_nat PHDR_SIZE) b)) as Ht by (by apply Forall_take). split; cbn; apply field_bound; done || lia.
Qed.

Section file.
Context (env : file_env) (Hbytes : ∀ n off b, fe_pread env n off = inl b → bytes b).

Lemma read_exactly_bytes n off b : read_exactly env n off = Some b → bytes b.
Proof using Hbytes.
  unfold read_exactly. destruct (fe_pread env n off) as [l|] eqn:E; [|done]. case_if; [|done]. intros [= <-]. by eapply Hbytes.
Qed.
Lemma read_segments_in_file loader size found ph i :
  read_segments env loader size found ph = inl i → Forall (λ p, p_offset p + p_filesz p ≤ size) ph.
Proof using.
  revert found. induction ph as [|p ph IH]; intros found; cbn [read_segments]; [by constructor|]. case_if; [done|]. breflect.
  case_if; [|intros Hr; constructor; [lia|by eapply IH]]. case_if; [done|]. destruct (read_exactly _ _ _); [|done]. case_if; [done|].
  intros Hr. constructor; [lia|by eapply IH].
Qed.
Lemma read_elf_facts loader data :
  read_elf env loader = inl data →
  ∃ mode size, fe_stat env = inl (mode, size) ∧ 0 ≤ size ∧ Forall fields_ok (d_ph data) ∧ Forall (λ p, p_offset p + p_filesz p ≤ size) (d_ph data).
Proof using Hbytes.
  unfold read_elf. destruct (fe_stat env) as [[mode size]|]; [|done]. case_if; [done|]. destruct (read_exactly env EHDR_SIZE 0) as [b|]; [|done].
  cbv zeta. case_if; [done|]. case_if; [done|]. destruct (read_exactly env _ _) as [b2|] eqn:E2; [|done]. intros (i & Hi & [= <-])%ebind_inl. breflect.
  exists mode, size. split_and!; [done|lia| |]; cbn; [|by eapply read_segments_in_file]. eapply phdrs_fields, read_exactly_bytes, E2.
Qed.
End file.

(** ** The layout *)

Section page.
Context (page : Z).

Definition down (n : Z) : Z := Z.ldiff n (page - 1).
Definition up (n : Z) : Z := Z.ldiff (wrap64 (n + page - 1)) (page - 1).

Record elf_layout := mk_layout { l_low : Z; l_high : Z; l_phdr : Z; l_alignment : Z }.
Record layout_state := mk_ls { ls_layout : elf_layout; ls_previous : Z; ls_entry : bool }.

Definition mapped (p : Elf64_Phdr) : bool := (p_type p =? PT_LOAD) && negb (p_memsz p =? 0).
(** The checks on one segment. *)
Definition segment_ok (p : Elf64_Phdr) : bool :=
  negb ((p_memsz p <? p_filesz p) || (UINT64_MAX - (page - 1) <? p_memsz p)
        || (UINT64_MAX - (page - 1) - p_memsz p <? p_vaddr p) || negb (p_vaddr p mod page =? p_offset p mod page)
        || (Z.land (p_flags p) (Z.lor PF_W PF_X) =? Z.lor PF_W PF_X))
  && negb ((1 <? p_align p) && (has_bits (p_align p) (p_align p - 1) || negb (p_vaddr p mod p_align p =? p_offset p mod p_align p))).

Definition layout_step (h : Elf64_Ehdr) (s : layout_state) (p : Elf64_Phdr) : layout_state + Z :=
  if negb (mapped p) then inl s
  else if negb (segment_ok p) then inr (- ENOEXEC)
  else
    let l := ls_layout s in
    let alignment := if l_alignment l <? p_align p then p_align p else l_alignment l in
    let start := down (p_vaddr p) in
    let end_ := up (wrap64 (p_vaddr p + p_memsz p)) in
    if start <? ls_previous s then inr (- ENOEXEC)
    else
      let entry := ls_entry s || has_bits (p_flags p) PF_X && (p_vaddr p <=? e_entry h) && (e_entry h - p_vaddr p <? p_memsz p) in
      let phdr := if (p_offset p <=? e_phoff h) && (e_phoff h - p_offset p <=? p_filesz p)
                     && (e_phnum h * PHDR_SIZE <=? p_filesz p - (e_phoff h - p_offset p))
                  then wrap64 (p_vaddr p + e_phoff h - p_offset p) else l_phdr l in
      inl (mk_ls (mk_layout (if start <? l_low l then start else l_low l) (if l_high l <? end_ then end_ else l_high l) phdr alignment) end_ entry).
Fixpoint layout_loop (h : Elf64_Ehdr) (s : layout_state) (ph : list Elf64_Phdr) : layout_state + Z :=
  match ph with [] => inl s | p :: ph => let! s := layout_step h s p in layout_loop h s ph end.
Definition layout (data : elf_data) : elf_layout + Z :=
  let! s := layout_loop (d_header data) (mk_ls (mk_layout UINT64_MAX 0 0 page) 0 false) (d_ph data) in
  let l := ls_layout s in
  if negb (ls_entry s) || (l_high l <=? l_low l) then inr (- ENOEXEC)
  else if UINT64_MAX - (l_high l - l_low l) <? l_alignment l - page then inr (- ENOEXEC)
  else inl l.

Definition md_elf_validate (env : file_env) (loader : bool) : Z :=
  match read_elf env loader with inr r => r | inl data => match layout data with inr r => r | inl _ => 0 end end.
(** The interpreter, of fewer than PATH_MAX bytes, fits the buffer of the caller. *)
Definition md_elf_interpreter (env : file_env) : list Z + Z :=
  let! data := read_elf env false in
  let! _ := layout data in
  inl (d_interpreter data).

(** ** Loading *)

Definition PROT_NONE : Z := 0.
Definition PROT_READ : Z := 1.
Definition PROT_WRITE : Z := 2.
Definition PROT_EXEC : Z := 4.

(** Calls that change the address space, and the one write of the loader. *)
Inductive vm_event :=
  | Reserve (fixed : bool) (at_ size : Z)      (* mmap PROT_NONE, anonymous; [at_] is where it is *)
  | Unmap (at_ size : Z)
  | MapFile (at_ size prot offset : Z)         (* MAP_FIXED, from the image's file *)
  | MapZero (at_ size prot : Z)                (* MAP_FIXED, anonymous *)
  | Protect (at_ size prot : Z)
  | Clear (at_ size : Z).                      (* memset to 0 *)
(** The result of a call after those before it. *)
Definition kernel : Type := list vm_event → vm_event → Z.

Record md_image := mk_image { im_base : Z; im_entry : Z; im_phdr : Z; im_phnum : Z }.

Definition prot_of (flags : Z) : Z :=
  Z.lor (Z.lor (if has_bits flags PF_R then PROT_READ else 0) (if has_bits flags PF_W then PROT_WRITE else 0))
    (if has_bits flags PF_X then PROT_EXEC else 0).

(** A call that is only checked for an error. *)
Definition call (k : kernel) (t : list vm_event) (e : vm_event) : list vm_event * Z :=
  if k t e <? 0 then (t, k t e) else (t ++ [e], 0).

(** A call whose result nobody looks at. *)
Definition ignore (k : kernel) (t : list vm_event) (e : vm_event) : list vm_event := (call k t e).1.

(** The file's part of a segment, with its padding. *)
Definition load_file (k : kernel) (base : Z) (p : Elf64_Phdr) (t : list vm_event) : list vm_event * Z :=
  let start := down (p_vaddr p) in
  let file_end := if negb (p_filesz p =? 0) then up (wrap64 (p_vaddr p + p_filesz p)) else start in
  let prot := prot_of (p_flags p) in
  let padding := if negb (p_filesz p =? 0) && (p_filesz p <? p_memsz p) then wrap64 (file_end - p_vaddr p - p_filesz p) else 0 in
  let initial := if negb (padding =? 0) && negb (has_bits prot PROT_WRITE) then Z.lor PROT_READ PROT_WRITE else prot in
  if start <? file_end then
    let '(t, r) := call k t (MapFile (wrap64 (base + start)) (file_end - start) initial (down (p_offset p))) in
    if r <? 0 then (t, r)
    else
      let t := if negb (padding =? 0) then t ++ [Clear (wrap64 (base + p_vaddr p + p_filesz p)) padding] else t in
      if negb (initial =? prot) then call k t (Protect (wrap64 (base + start)) (file_end - start) prot) else (t, 0)
  else (t, 0).
Definition load_segment (k : kernel) (base : Z) (p : Elf64_Phdr) (t : list vm_event) : list vm_event * Z :=
  let start := down (p_vaddr p) in
  let end_ := up (wrap64 (p_vaddr p + p_memsz p)) in
  let file_end := if negb (p_filesz p =? 0) then up (wrap64 (p_vaddr p + p_filesz p)) else start in
  let '(t, r) := load_file k base p t in
  if r <? 0 then (t, r)
  else if file_end <? end_ then call k t (MapZero (wrap64 (base + file_end)) (end_ - file_end) (prot_of (p_flags p)))
  else (t, 0).
Fixpoint load_segments (k : kernel) (base : Z) (ph : list Elf64_Phdr) (t : list vm_event) : list vm_event * Z :=
  match ph with
  | [] => (t, 0)
  | p :: ph =>
      if negb (mapped p) then load_segments k base ph t
      else let '(t, r) := load_segment k base p t in
           if r <? 0 then (t, r) else load_segments k base ph t
  end.

(** Trimming of a reservation to the alignment of the image: what is left, and where. *)
Definition trim (k : kernel) (l : elf_layout) (allocation reserved : Z) (t : list vm_event) : list vm_event * Z :=
  let span := l_high l - l_low l in
  let prefix := Z.land (wrap64 (l_low l - allocation)) (l_alignment l - 1) in
  let suffix := reserved - prefix - span in
  let t := if negb (prefix =? 0) then ignore k t (Unmap allocation prefix) else t in
  let allocation := allocation + prefix in
  let t := if negb (suffix =? 0) then ignore k t (Unmap (allocation + span) suffix) else t in
  (t, allocation).

(** The calls made and the image, or the error. *)
Definition md_elf_load (env : file_env) (k : kernel) (loader : bool) : list vm_event * (md_image + Z) :=
  match read_elf env loader with
  | inr r => ([], inr r)
  | inl data =>
      match layout data with
      | inr r => ([], inr r)
      | inl l =>
          let h := d_header data in
          let fixed := e_type h =? 2 in
          let span := l_high l - l_low l in
          let reserved := span + (if fixed then 0 else l_alignment l - page) in
          let allocation := k [] (Reserve fixed (if fixed then l_low l else 0) reserved) in
          let t := [Reserve fixed allocation reserved] in
          if allocation <? 0 then ([], inr allocation)
          else if fixed && negb (allocation =? l_low l) then (ignore k t (Unmap allocation reserved), inr (- EEXIST))
          else
            let '(t, allocation) := if fixed then (t, allocation) else trim k l allocation reserved t in
            let base := wrap64 (allocation - l_low l) in
            let '(t, r) := load_segments k base (d_ph data) t in
            if r <? 0 then (ignore k t (Unmap allocation span), inr r)
            else (t, inl (mk_image base (wrap64 (base + e_entry h)) (wrap64 (base + l_phdr l)) (e_phnum h)))
      end
  end.

(** ** What the memory holds *)

Inductive cell := Unmapped | Fault | Cell (value prot : Z).
Definition inside (at_ size a : Z) : bool := (at_ <=? a) && (a <? at_ + size).
(** A mapped file: zeros up to the end of its last page, then SIGBUS. *)
Definition file_cell (content : list Z) (o prot : Z) : cell :=
  if o <? Z.of_nat (length content) then Cell (default 0 (content !! Z.to_nat o)) prot
  else if o <? up (Z.of_nat (length content)) then Cell 0 prot else Fault.
Definition apply (content : list Z) (a : Z) (c : cell) (e : vm_event) : cell :=
  match e with
  | Reserve _ x n => if inside x n a then Cell 0 PROT_NONE else c
  | Unmap x n => if inside x n a then Unmapped else c
  | MapFile x n prot o => if inside x n a then file_cell content (o + (a - x)) prot else c
  | MapZero x n prot => if inside x n a then Cell 0 prot else c
  | Protect x n prot => if inside x n a then match c with Cell v _ => Cell v prot | c => c end else c
  | Clear x n =>
      if inside x n a then match c with Cell _ q => if has_bits q PROT_WRITE then Cell 0 q else Fault | _ => Fault end else c
  end.
Definition cell_at (content : list Z) (t : list vm_event) (a : Z) : cell := foldl (apply content a) Unmapped t.

(** ** Arithmetic of pages *)

Context (k : Z) (Hk : 0 ≤ k < 64) (Hpage : page = 2 ^ k).

Lemma page_pos : 0 < page.
Proof using Hk Hpage. rewrite Hpage. apply Z.pow_pos_nonneg; lia. Qed.
Lemma ldiff_mod n : Z.ldiff n (page - 1) = n - n mod page.
Proof using Hk Hpage.
  replace (page - 1) with (Z.ones k) by (rewrite Z.ones_equiv, Hpage; lia). rewrite Z.ldiff_ones_r by lia.
  rewrite Z.shiftl_mul_pow2, Z.shiftr_div_pow2 by lia. rewrite <- Hpage. pose proof (Z.div_mod n page) as H. pose proof page_pos. lia.
Qed.
Lemma down_spec n : page * (n / page) = down n ∧ down n ≤ n < down n + page.
Proof using Hk Hpage. unfold down. rewrite ldiff_mod. pose proof page_pos. pose proof (Z.div_mod n page). pose proof (Z.mod_pos_bound n page). lia. Qed.
Lemma up_spec n : 0 ≤ n → n + page - 1 ≤ UINT64_MAX → page * ((n + page - 1) / page) = up n ∧ n ≤ up n < n + page ∧ up n ≤ UINT64_MAX.
Proof using Hk Hpage.
  intros Hn Hm. unfold up. pose proof page_pos. rewrite (wrap64_small (n + page - 1)) by lia. rewrite ldiff_mod.
  pose proof (Z.div_mod (n + page - 1) page). pose proof (Z.mod_pos_bound (n + page - 1) page). lia.
Qed.

Lemma pow2_of a : 1 < a → has_bits a (a - 1) = false → ∃ j, 0 ≤ j ∧ a = 2 ^ j.
Proof.
  intros Ha Hb. exists (Z.log2 a). pose proof (Z.log2_nonneg a). split; [done|]. pose proof (Z.log2_spec a ltac:(lia)) as [H1 H2].
  destruct (decide (a = 2 ^ Z.log2 a)) as [|Hne]; [done|]. exfalso. unfold has_bits in Hb. apply negb_false_iff, Z.eqb_eq in Hb.
  apply (f_equal (λ z, Z.testbit z (Z.log2 a))) in Hb. rewrite Z.land_spec, Z.bits_0, Z.bit_log2 in Hb by lia. cbn in Hb.
  replace (Z.log2 a) with (Z.log2 (a - 1)) in Hb; [rewrite Z.bit_log2 in Hb by lia; done|]. apply Z.log2_unique; lia.
Qed.
Lemma pow2_divide i j : 0 ≤ i → 2 ^ i ≤ 2 ^ j → (2 ^ i | 2 ^ j).
Proof.
  intros Hi H. assert (i ≤ j) as Hij. { destruct (decide (i ≤ j)) as [|Hn]; [done|]. exfalso. assert (2 ^ j < 2 ^ i); [|lia]. apply Z.pow_lt_mono_r; lia. }
  exists (2 ^ (j - i)). rewrite <- Z.pow_add_r by lia. f_equal. lia.
Qed.

(** ** Accepted layouts *)

Definition start_of (p : Elf64_Phdr) : Z := down (p_vaddr p).
Definition end_of (p : Elf64_Phdr) : Z := up (wrap64 (p_vaddr p + p_memsz p)).
Definition writes_and_runs (p : Elf64_Phdr) : bool := has_bits (p_flags p) PF_W && has_bits (p_flags p) PF_X.

Record segment_facts (p : Elf64_Phdr) : Prop := mk_segment_facts {
  s_sizes : 0 ≤ p_filesz p ≤ p_memsz p ∧ 0 < p_memsz p; s_vaddr : 0 ≤ p_vaddr p; s_offset : 0 ≤ p_offset p;
  s_top : p_vaddr p + p_memsz p + page - 1 ≤ UINT64_MAX;
  s_congruent : p_vaddr p mod page = p_offset p mod page;
  s_wx : writes_and_runs p = false;
  s_align : 1 < p_align p → ∃ j, 0 ≤ j ∧ p_align p = 2 ^ j;
  s_start : (page | start_of p) ∧ 0 ≤ start_of p ≤ p_vaddr p ∧ p_vaddr p < start_of p + page;
  s_end : (page | end_of p) ∧ p_vaddr p + p_memsz p ≤ end_of p ≤ UINT64_MAX ∧ end_of p < p_vaddr p + p_memsz p + page }.

Lemma flags_wx f : Z.land f (Z.lor PF_W PF_X) ≠ Z.lor PF_W PF_X → has_bits f PF_W && has_bits f PF_X = false.
Proof.
  intros H. destruct (has_bits f PF_W && has_bits f PF_X) eqn:E; [|done]. exfalso. apply H.
  apply andb_true_iff in E as [E1 E2]. change PF_W with (bit 1) in E1. change PF_X with (bit 0) in E2. rewrite has_bits_bit in E1, E2 by lia.
  apply Z.bits_inj'. intros i Hi. rewrite Z.land_spec. destruct (decide (i = 0)) as [->|]; [by rewrite E2|]. destruct (decide (i = 1)) as [->|]; [by rewrite E1|].
  assert (Z.testbit (Z.lor PF_W PF_X) i = false) as ->; [|apply andb_false_r]. change (Z.lor PF_W PF_X) with 3.
  apply Z.bits_above_log2; [lia|]. change (Z.log2 3) with 1. lia.
Qed.
Lemma segment_ok_facts p : fields_ok p → mapped p = true → segment_ok p = true → segment_facts p.
Proof using Hk Hpage.
  intros [? ? ? ? ?] Hm Hs. unfold word_ok, mapped, segment_ok in *. apply andb_true_iff in Hs as [Hs Ha]. apply negb_true_iff in Ha. breflect. pose proof page_pos.
  assert (wrap64 (p_vaddr p + p_memsz p) = p_vaddr p + p_memsz p) as Hw by (apply wrap64_small; unfold UINT64_MAX in *; lia).
  pose proof (down_spec (p_vaddr p)) as [Hd1 Hd2]. pose proof (up_spec (p_vaddr p + p_memsz p) ltac:(lia) ltac:(lia)) as (Hu1 & Hu2 & Hu3).
  split; unfold start_of, end_of; rewrite ?Hw; try done; try lia.
  - by apply flags_wx.
  - intros Hgt. apply pow2_of; [done|]. rewrite (proj2 (Z.ltb_lt _ _) Hgt) in Ha. by apply orb_false_iff in Ha as [? _].
  - split; [exists (p_vaddr p / page); lia|]. assert (0 ≤ p_vaddr p / page) by (apply Z.div_pos; lia). nia.
  - split; [eexists; rewrite <- Hu1; apply Z.mul_comm|lia].
Qed.

Definition segments (ph : list Elf64_Phdr) : list Elf64_Phdr := filter (λ p, mapped p = true) ph.
(** Segments in ascending order that share no page. *)
Fixpoint laid (previous : Z) (l : list Elf64_Phdr) : Prop :=
  match l with [] => True | p :: l => previous ≤ start_of p ∧ laid (end_of p) l end.
Definition power (a : Z) : Prop := ∃ j, 0 ≤ j ∧ a = 2 ^ j.
Definition holds_entry (h : Elf64_Ehdr) (p : Elf64_Phdr) : Prop :=
  has_bits (p_flags p) PF_X = true ∧ p_vaddr p ≤ e_entry h < p_vaddr p + p_memsz p.

(** What the loop over some segments has established. *)
Record extended (h : Elf64_Ehdr) (s : layout_state) (l : list Elf64_Phdr) (s' : layout_state) : Prop := mk_extended {
  x_facts : Forall segment_facts l;
  x_laid : laid (ls_previous s) l;
  x_range : Forall (λ p, l_low (ls_layout s') ≤ start_of p ∧ end_of p ≤ l_high (ls_layout s')) l;
  x_grow : l_low (ls_layout s') ≤ l_low (ls_layout s) ∧ l_high (ls_layout s) ≤ l_high (ls_layout s') ∧ l_alignment (ls_layout s) ≤ l_alignment (ls_layout s');
  x_low : l_low (ls_layout s') = l_low (ls_layout s) ∨ (page | l_low (ls_layout s')) ∧ 0 ≤ l_low (ls_layout s');
  x_high : l_high (ls_layout s') = l_high (ls_layout s) ∨ (page | l_high (ls_layout s')) ∧ l_high (ls_layout s') ≤ UINT64_MAX;
  x_align : Forall (λ p, p_align p ≤ l_alignment (ls_layout s')) l;
  x_power : 1 ≤ l_alignment (ls_layout s) → power (l_alignment (ls_layout s)) → power (l_alignment (ls_layout s'));
  x_entry : ls_entry s' = true → ls_entry s = true ∨ Exists (holds_entry h) l }.

Lemma layout_step_ok h s p s' :
  fields_ok p → mapped p = true → layout_step h s p = inl s' → extended h s [p] s' ∧ ls_previous s' = end_of p.
Proof using Hk Hpage.
  intros Hf Hm. unfold layout_step. rewrite Hm. cbn [negb]. destruct (segment_ok p) eqn:Hs; cbn [negb]; [|done].
  pose proof (segment_ok_facts p Hf Hm Hs) as Hp. destruct (s_start _ Hp) as (Hsd & Hs0 & _). destruct (s_end _ Hp) as (Hed & He0 & _).
  fold (start_of p) (end_of p). case_if; [done|]. intros [= <-]. breflect. split; [|done]. split; cbn [ls_layout ls_previous ls_entry l_low l_high l_alignment].
  - by constructor.
  - split; [lia|done].
  - constructor; [|done]. case_ifs; breflect; lia.
  - case_ifs; breflect; lia.
  - case_ifs; breflect; [right; split; [done|lia]|by left].
  - case_ifs; breflect; [right; split; [done|lia]|by left].
  - constructor; [|done]. case_ifs; breflect; lia.
  - intros H1 H2. case_ifs; [|done]. breflect. apply (s_align _ Hp). lia.
  - intros [?|He]%orb_true_iff; [by left|right]. breflect. constructor. split; [done|lia].
Qed.
Lemma layout_loop_ok h ph s s' :
  Forall fields_ok ph → layout_loop h s ph = inl s' → extended h s (segments ph) s'.
Proof using Hk Hpage.
  intros Hf. revert s. induction Hf as [|p ph Hp Hf IH]; intros s; cbn [layout_loop].
  - intros [= <-]. split; cbn; auto; try done.
  - intros (s1 & H1 & H2)%ebind_inl. unfold segments. rewrite filter_cons. destruct (mapped p) eqn:Hm.
    + rewrite decide_True by done. destruct (layout_step_ok h s p s1 Hp Hm H1) as [[F1 L1 R1 G1 W1 T1 A1 P1 E1] Hprev]. destruct (IH s1 H2) as [F2 L2 R2 G2 W2 T2 A2 P2 E2].
      rewrite Forall_singleton in F1, R1, A1. rewrite Hprev in L2. destruct L1 as [L1 _]. split.
      * by constructor.
      * by split.
      * constructor; [lia|done].
      * lia.
      * destruct W2 as [-> |?]; [|by right]. done.
      * destruct T2 as [-> |?]; [|by right]. done.
      * constructor; [lia|done].
      * intros. apply P2; [lia|auto].
      * intros [He|He]%E2; [|right; by right]. destruct (E1 He) as [?|Hx]; [by left|]. right. left. by apply Exists_cons in Hx as [?|?%Exists_nil].
    + rewrite decide_False by done. unfold layout_step in H1. rewrite Hm in H1. injection H1 as <-. by apply IH.
Qed.

Record layout_facts (data : elf_data) (l : elf_layout) : Prop := mk_layout_facts {
  lf_segments : Forall segment_facts (segments (d_ph data)); lf_laid : laid 0 (segments (d_ph data));
  lf_range : Forall (λ p, l_low l ≤ start_of p ∧ end_of p ≤ l_high l) (segments (d_ph data));
  lf_pages : (page | l_low l) ∧ (page | l_high l); lf_bounds : 0 ≤ l_low l < l_high l ∧ l_high l ≤ UINT64_MAX;
  lf_align : Forall (λ p, p_align p ≤ l_alignment l) (segments (d_ph data));
  lf_power : power (l_alignment l) ∧ page ≤ l_alignment l;
  lf_reserve : l_alignment l - page + (l_high l - l_low l) ≤ UINT64_MAX;
  lf_entry : Exists (holds_entry (d_header data)) (segments (d_ph data)) }.
Lemma layout_ok data l : Forall fields_ok (d_ph data) → layout data = inl l → layout_facts data l.
Proof using Hk Hpage.
  intros Hf (s & Hs & Hl)%ebind_inl. destruct (layout_loop_ok _ _ _ _ Hf Hs) as [F L R G W T A P E]. cbn in *. pose proof page_pos.
  revert Hl. case_if; [done|]. case_if; [done|]. intros [= <-]. breflect. split; try done.
  - destruct W as [W|[? ?]], T as [T|[? ?]]; try done; exfalso; unfold UINT64_MAX in *; lia.
  - destruct W as [W|[? ?]], T as [T|[? ?]]; unfold UINT64_MAX in *; lia.
  - split; [|lia]. apply P; [lia|]. exists k. split; [lia|done].
  - lia.
  - destruct (E ltac:(done)); [done|done].
Qed.

(** ** One segment in memory *)

Definition file_end (p : Elf64_Phdr) : Z := if negb (p_filesz p =? 0) then up (wrap64 (p_vaddr p + p_filesz p)) else start_of p.
Lemma file_end_spec p : segment_facts p →
  start_of p ≤ file_end p ≤ end_of p ∧ (0 < p_filesz p → p_vaddr p + p_filesz p ≤ file_end p < p_vaddr p + p_filesz p + page) ∧ (p_filesz p = 0 → file_end p = start_of p)
  ∧ (page | file_end p).
Proof using Hk Hpage.
  intros Hp. pose proof page_pos. destruct (s_start _ Hp) as (Hsd & Hs0 & _). destruct (s_end _ Hp) as (Hed & He0 & He1).
  pose proof (s_sizes _ Hp). pose proof (s_vaddr _ Hp). pose proof (s_top _ Hp). unfold file_end. destruct (Z.eqb_spec (p_filesz p) 0) as [Hz|Hz]; cbn [negb].
  - split_and!; [lia..|done].
  - rewrite wrap64_small by lia. pose proof (up_spec (p_vaddr p + p_filesz p) ltac:(lia) ltac:(lia)) as (Hu1 & Hu2 & Hu3).
    assert (up (p_vaddr p + p_filesz p) ≤ end_of p).
    { unfold end_of. rewrite wrap64_small by lia. pose proof (up_spec (p_vaddr p + p_memsz p) ltac:(lia) ltac:(lia)) as (Hv1 & _ & _).
      rewrite <- Hu1, <- Hv1. apply Z.mul_le_mono_nonneg_l; [lia|]. apply Z.div_le_mono; lia. }
    split_and!; [lia..|]. exists ((p_vaddr p + p_filesz p + page - 1) / page). rewrite <- Hu1. lia.
Qed.

Section memory.
Context (content : list Z) (low A : Z).
(** Where the address [x] of the image is. *)
Definition place (x : Z) : Z := A + (x - low).
Definition within (e : vm_event) (at_ size : Z) : Prop :=
  match e with
  | Reserve _ x n | Unmap x n | MapFile x n _ _ | MapZero x n _ | Protect x n _ | Clear x n => at_ ≤ x ∧ 0 ≤ n ∧ x + n ≤ at_ + size
  end.
(** What the page range of a segment holds at the image's address [x]. *)
Definition segment_cell (p : Elf64_Phdr) (x : Z) : cell :=
  if (x <? file_end p) && negb ((p_filesz p <? p_memsz p) && (p_vaddr p + p_filesz p <=? x))
  then file_cell content (down (p_offset p) + (x - start_of p)) (prot_of (p_flags p))
  else Cell 0 (prot_of (p_flags p)).
Context (Hlen : Z.of_nat (length content) + page ≤ UINT64_MAX).

Definition file_byte (o : Z) : Z := if o <? Z.of_nat (length content) then default 0 (content !! Z.to_nat o) else 0.
Lemma file_cell_byte o prot : o < up (Z.of_nat (length content)) → file_cell content o prot = Cell (file_byte o) prot.
Proof. intros Ho. unfold file_cell, file_byte. case_if; [done|]. by rewrite (proj2 (Z.ltb_lt _ _) Ho). Qed.
Lemma segment_shift p x : segment_facts p → down (p_offset p) + (x - start_of p) = p_offset p + (x - p_vaddr p).
Proof using Hk Hpage.
  clear Hlen. intros Hp. pose proof (s_congruent _ Hp). unfold start_of, down. rewrite !ldiff_mod. lia.
Qed.
Lemma segment_in_file p x :
  segment_facts p → p_offset p + p_filesz p ≤ Z.of_nat (length content) → x < file_end p → 0 < p_filesz p →
  p_offset p + (x - p_vaddr p) < up (Z.of_nat (length content)).
Proof using Hk Hpage Hlen.
  intros Hp Hin Hx Hpos. destruct (file_end_spec p Hp) as (_ & Hfe & _ & [q Hq]). specialize (Hfe Hpos).
  pose proof page_pos. pose proof (up_spec (Z.of_nat (length content)) ltac:(lia) ltac:(lia)) as (Hu & Hu2 & _).
  pose proof (s_congruent _ Hp) as Hc. set (u := (Z.of_nat (length content) + page - 1) / page) in *.
  pose proof (Z.div_mod (p_vaddr p) page ltac:(lia)). pose proof (Z.div_mod (p_offset p) page ltac:(lia)).
  assert (q + (p_offset p / page - p_vaddr p / page) ≤ u); [|nia]. nia.
Qed.

(** The calls [es] fill the [size] bytes at [at_] with [f] and touch nothing else. *)
Definition fills (es : list vm_event) (at_ size : Z) (f : Z → cell) : Prop :=
  ∀ c a, foldl (apply content a) c es = if inside at_ size a then f a else c.
Lemma fills_app es1 es2 at_ size1 size2 f :
  0 ≤ size1 → 0 ≤ size2 → fills es1 at_ size1 f → fills es2 (at_ + size1) size2 f → fills (es1 ++ es2) at_ (size1 + size2) f.
Proof.
  intros H1 H2 F1 F2 c a. rewrite foldl_app, F1, F2. unfold inside.
  destruct (Z.leb_spec at_ a), (Z.ltb_spec a (at_ + size1)), (Z.leb_spec (at_ + size1) a), (Z.ltb_spec a (at_ + size1 + size2)), (Z.ltb_spec a (at_ + (size1 + size2))); cbn; done || lia.
Qed.
Lemma call_spec kern t e t' r : call kern t e = (t', r) → (r <? 0) = true ∧ t' = t ∨ r = 0 ∧ t' = t ++ [e].
Proof. unfold call. case_if; intros [= <- <-]; auto. Qed.
Lemma within_mono e x n y m : within e x n → y ≤ x → x + n ≤ y + m → within e y m.
Proof. clear Hk Hpage Hlen. intros H ? ?. destruct e; cbn in *; lia. Qed.

Lemma prot_writable flags : has_bits (prot_of flags) PROT_WRITE = has_bits flags PF_W.
Proof. unfold prot_of. destruct (has_bits flags PF_R), (has_bits flags PF_W), (has_bits flags PF_X); reflexivity. Qed.

Section segment.
Context (kern : kernel) (base : Z) (p : Elf64_Phdr) (high : Z).
Context (Hp : segment_facts p) (Hrange : low ≤ start_of p ∧ end_of p ≤ high) (Hin : p_offset p + p_filesz p ≤ Z.of_nat (length content)).
Context (Hbase : ∀ x, low ≤ x ≤ high → wrap64 (base + x) = place x).
Abbreviation cells := (λ a, segment_cell p (a - A + low)).

Lemma cell_after_file initial padding a :
  0 < p_filesz p → padding = (if p_filesz p <? p_memsz p then file_end p - p_vaddr p - p_filesz p else 0) →
  initial = (if negb (padding =? 0) && negb (has_bits (prot_of (p_flags p)) PROT_WRITE) then Z.lor PROT_READ PROT_WRITE else prot_of (p_flags p)) →
  start_of p ≤ a - A + low < file_end p →
  let c := file_cell content (down (p_offset p) + (a - place (start_of p))) initial in
  let c := if negb (padding =? 0) then apply content a c (Clear (place (p_vaddr p + p_filesz p)) padding) else c in
  match c with Cell v _ => Cell v (prot_of (p_flags p)) | c => c end = cells a
  ∧ (initial = prot_of (p_flags p) → c = cells a).
Proof using Hk Hpage Hlen Hp Hin.
  intros Hpos Epad Einit Hx. cbv beta zeta. set (x := a - A + low) in *. replace (a - place (start_of p)) with (x - start_of p) by (unfold x, place; lia).
  pose proof (segment_in_file p x Hp Hin ltac:(lia) Hpos) as Hfile. rewrite <- (segment_shift p x Hp) in Hfile. unfold segment_cell. rewrite !file_cell_byte by done.
  rewrite (proj2 (Z.ltb_lt _ _) (proj2 Hx)). cbn [andb]. destruct (Z.eqb_spec padding 0) as [H0|H0]; cbn [negb].
  - destruct ((p_filesz p <? p_memsz p) && (p_vaddr p + p_filesz p <=? x)) eqn:E; cbn [negb].
    + exfalso. breflect. rewrite (proj2 (Z.ltb_lt _ _) H) in Epad. lia.
    + split; [done|]. by intros ->.
  - assert (p_filesz p < p_memsz p) as Hlt. { destruct (Z.ltb_spec (p_filesz p) (p_memsz p)); [done|lia]. }
    rewrite (proj2 (Z.ltb_lt _ _) Hlt) in *. cbn [andb]. cbn [apply].
    assert (has_bits initial PROT_WRITE = true) as Hw.
    { rewrite Einit. cbn [negb andb]. destruct (has_bits (prot_of (p_flags p)) PROT_WRITE) eqn:E; [done|reflexivity]. }
    assert (inside (place (p_vaddr p + p_filesz p)) padding a = (p_vaddr p + p_filesz p <=? x)) as ->.
    { unfold inside, place. destruct (Z.leb_spec (A + (p_vaddr p + p_filesz p - low)) a), (Z.ltb_spec a (A + (p_vaddr p + p_filesz p - low) + padding)), (Z.leb_spec (p_vaddr p + p_filesz p) x); done || (unfold x in *; lia). }
    rewrite Hw. destruct (p_vaddr p + p_filesz p <=? x); cbn [negb]; (split; [done|]; by intros ->).
Qed.

Lemma load_file_spec t t' r :
  load_file kern base p t = (t', r) →
  ∃ es, t' = t ++ es ∧ Forall (λ e, within e (place (start_of p)) (file_end p - start_of p)) es
    ∧ ((r <? 0) = false → fills es (place (start_of p)) (file_end p - start_of p) cells).
Proof using Hk Hpage Hlen Hp Hrange Hin Hbase.
  destruct (file_end_spec p Hp) as (Hfe1 & Hfe2 & Hfe3 & _). destruct (s_start _ Hp) as (_ & Hst & _). pose proof (s_sizes _ Hp) as [Hsz _].
  unfold load_file. fold (start_of p) (file_end p). set (padding := if _ && _ then _ else 0). set (initial := if negb (padding =? 0) && _ then _ else _).
  cbv zeta. destruct (Z.ltb_spec (start_of p) (file_end p)) as [Hlt|Hge].
  2:{ intros [= <- <-]. exists []. rewrite app_nil_r. split_and!; [done|done|]. intros _ c a. cbn. unfold inside. destruct (Z.leb_spec (place (start_of p)) a), (Z.ltb_spec a (place (start_of p) + (file_end p - start_of p))); cbn; done || lia. }
  assert (0 < p_filesz p) as Hpos by lia. specialize (Hfe2 Hpos).
  assert (padding = if p_filesz p <? p_memsz p then file_end p - p_vaddr p - p_filesz p else 0) as Epad.
  { unfold padding. destruct (Z.eqb_spec (p_filesz p) 0); [lia|]. cbn [negb andb]. case_if; [|done]. apply wrap64_small. destruct (s_end _ Hp) as (_ & ? & _). lia. }
  assert (0 ≤ padding ∧ (padding ≠ 0 → padding = file_end p - p_vaddr p - p_filesz p)) as [Hpad0 Hpad1] by (rewrite Epad; case_if; breflect; lia).
  pose proof (λ a, cell_after_file initial padding a Hpos Epad eq_refl) as Hcell. clearbody padding initial. clear Epad.
  rewrite <- Z.add_assoc, !Hbase by lia. destruct (call kern t _) as [t1 r1] eqn:E1. apply call_spec in E1 as [[Hr1 ->]|[-> ->]].
  { rewrite Hr1. intros [= <- <-]. exists []. rewrite app_nil_r. split_and!; [done|done|congruence]. }
  cbn [Z.ltb Z.compare]. set (e1 := MapFile _ _ _ _) in *. set (e2 := Clear _ _) in *.
  set (es2 := if negb (padding =? 0) then [e1; e2] else [e1]).
  replace (if negb (padding =? 0) then (t ++ [e1]) ++ [e2] else t ++ [e1]) with (t ++ es2) by (unfold es2; case_if; [by rewrite <- app_assoc|done]).
  assert (Forall (λ e, within e (place (start_of p)) (file_end p - start_of p)) es2) as Hes2.
  { assert (within e1 (place (start_of p)) (file_end p - start_of p)) by (cbn; lia). unfold es2. destruct (Z.eqb_spec padding 0) as [|Hne]; cbn [negb]; [by apply Forall_singleton|]. specialize (Hpad1 Hne).
    apply Forall_cons. split; [done|]. apply Forall_singleton. cbn. unfold place. lia. }
  assert (∀ c a, foldl (apply content a) c es2 = if inside (place (start_of p)) (file_end p - start_of p) a
    then (let c := file_cell content (down (p_offset p) + (a - place (start_of p))) initial in if negb (padding =? 0) then apply content a c e2 else c) else c) as Hfold.
  { intros c a. unfold es2. assert (∀ c, inside (place (start_of p)) (file_end p - start_of p) a = false → padding ≠ 0 → apply content a c e2 = c) as Hout.
    { intros c' Hout Hne. specialize (Hpad1 Hne). unfold e2. cbn [apply]. unfold inside, place in *. case_if; [|done]. exfalso. apply andb_false_iff in Hout. breflect. destruct Hout; breflect; lia. }
    destruct (Z.eqb_spec padding 0) as [|Hne]; cbn [negb foldl]; unfold e1 at 1; cbn [apply]; destruct (inside (place (start_of p)) (file_end p - start_of p) a) eqn:Ei; try done. by apply Hout. }
  clearbody es2. assert (∀ a, inside (place (start_of p)) (file_end p - start_of p) a = true → start_of p ≤ a - A + low < file_end p) as Hinx.
  { intros a Ha. unfold inside, place in Ha. breflect. lia. }
  destruct (Z.eqb_spec initial (prot_of (p_flags p))) as [Heq|Hne]; cbn [negb].
  { intros [= <- <-]. exists es2. split_and!; [done|done|]. intros _ c a. rewrite Hfold. destruct (inside _ _ a) eqn:Ei; [|done]. by apply Hcell; [apply Hinx|]. }
  destruct (call kern (t ++ es2) _) as [t3 r3] eqn:E3. intros [= <- <-]. apply call_spec in E3 as [[Hr3 ->]|[-> ->]].
  { exists es2. split_and!; [done|done|congruence]. }
  exists (es2 ++ [Protect (place (start_of p)) (file_end p - start_of p) (prot_of (p_flags p))]). rewrite app_assoc. split_and!; [done|apply Forall_app; split; [done|apply Forall_singleton; cbn; lia]|].
  intros _ c a. rewrite foldl_app, Hfold. cbn [foldl apply]. destruct (inside _ _ a) eqn:Ei; [|done]. apply Hcell, Hinx, Ei.
Qed.

Lemma fills_nil at_ size f : size ≤ 0 → fills [] at_ size f.
Proof. intros Hs c a. cbn. unfold inside. destruct (Z.leb_spec at_ a), (Z.ltb_spec a (at_ + size)); cbn; done || lia. Qed.
Lemma zero_fills : fills [MapZero (place (file_end p)) (end_of p - file_end p) (prot_of (p_flags p))] (place (file_end p)) (end_of p - file_end p) cells.
Proof.
  intros c a. cbn. destruct (inside _ _ a) eqn:Ei; [|done]. unfold inside, place in Ei. breflect. unfold segment_cell.
  rewrite (proj2 (Z.ltb_ge _ _)) by lia. done.
Qed.
Lemma load_segment_spec t t' r :
  load_segment kern base p t = (t', r) →
  ∃ es, t' = t ++ es ∧ Forall (λ e, within e (place (start_of p)) (end_of p - start_of p)) es
    ∧ ((r <? 0) = false → fills es (place (start_of p)) (end_of p - start_of p) cells).
Proof using Hk Hpage Hlen Hp Hrange Hin Hbase.
  destruct (file_end_spec p Hp) as (Hfe1 & _). unfold load_segment. fold (start_of p) (file_end p) (end_of p). cbv zeta.
  destruct (load_file kern base p t) as [t1 r1] eqn:E1. destruct (load_file_spec _ _ _ E1) as (es1 & -> & Hw1 & Hf1).
  assert (Forall (λ e, within e (place (start_of p)) (end_of p - start_of p)) es1) as Hw.
  { eapply Forall_impl; [exact Hw1|]. intros e He. eapply within_mono; [exact He|lia|lia]. }
  destruct (r1 <? 0) eqn:Hr1; [intros [= <- <-]; exists es1; split_and!; [done|done|congruence]|]. specialize (Hf1 eq_refl).
  replace (end_of p - start_of p) with ((file_end p - start_of p) + (end_of p - file_end p)) in * by lia.
  destruct (Z.ltb_spec (file_end p) (end_of p)) as [Hlt|Hge].
  2:{ intros [= <- <-]. exists es1. split_and!; [done|done|]. intros _. rewrite <- (app_nil_r es1). apply fills_app; [lia|lia|done|apply fills_nil; lia]. }
  rewrite Hbase by lia. destruct (call kern (t ++ es1) _) as [t2 r2] eqn:E2. intros [= <- <-]. apply call_spec in E2 as [[Hr2 ->]|[-> ->]].
  { exists es1. split_and!; [done|done|congruence]. }
  eexists (es1 ++ [_]). rewrite app_assoc. split_and!; [done|apply Forall_app; split; [done|apply Forall_singleton; unfold within, place; lia]|].
  intros _. apply fills_app; [lia|lia|done|]. replace (place (start_of p) + (file_end p - start_of p)) with (place (file_end p)) by (unfold place; lia). apply zero_fills.
Qed.
End segment.

(** ** All segments *)

Context (kern : kernel) (base high : Z) (Hbase : ∀ x, low ≤ x ≤ high → wrap64 (base + x) = place x).
Definition in_segment (p : Elf64_Phdr) (a : Z) : bool := inside (place (start_of p)) (end_of p - start_of p) a.
(** The cell at [a] once the segments are loaded over [c]. *)
Definition loaded_cell (l : list Elf64_Phdr) (c : cell) (a : Z) : cell :=
  match List.find (λ p, in_segment p a) l with Some p => segment_cell p (a - A + low) | None => c end.

Lemma laid_above previous l p : Forall segment_facts l → laid previous l → p ∈ l → previous ≤ start_of p.
Proof using Hk Hpage.
  clear Hlen. intros Hf. revert previous. induction Hf as [|q l Hq Hf IH]; intros previous; [by intros _ ?%elem_of_nil|]. intros [H1 H2] [->|Hin]%elem_of_cons; [done|].
  specialize (IH _ H2 Hin). destruct (s_start _ Hq) as (_ & ? & _). destruct (s_end _ Hq) as (_ & ? & _). pose proof (s_sizes _ Hq). lia.
Qed.
Lemma load_segments_spec ph previous t t' r :
  Forall segment_facts (segments ph) → laid previous (segments ph) →
  Forall (λ p, (low ≤ start_of p ∧ end_of p ≤ high) ∧ p_offset p + p_filesz p ≤ Z.of_nat (length content)) (segments ph) →
  load_segments kern base ph t = (t', r) →
  ∃ es, t' = t ++ es ∧ Forall (λ e, within e (place low) (high - low)) es
    ∧ ((r <? 0) = false → ∀ c a, foldl (apply content a) c es = loaded_cell (segments ph) c a).
Proof using Hk Hpage Hlen Hbase.
  revert previous t. induction ph as [|p ph IH]; intros previous t Hf Hl Hr; cbn [load_segments].
  { intros [= <- <-]. exists []. rewrite app_nil_r. by split_and!. }
  unfold segments in *. rewrite filter_cons in *. destruct (mapped p) eqn:Hm; cbn [negb]; [rewrite decide_True in * by done|rewrite decide_False in * by done; by eapply IH].
  apply Forall_cons in Hf as [Hp Hf], Hr as [[Hrange Hin] Hr]. destruct Hl as [_ Hl]. destruct (load_segment kern base p t) as [t1 r1] eqn:E1.
  destruct (load_segment_spec kern base p high Hp Hrange Hin Hbase _ _ _ E1) as (es1 & -> & Hw1 & Hf1).
  assert (Forall (λ e, within e (place low) (high - low)) es1) as Hw.
  { eapply Forall_impl; [exact Hw1|]. intros e He. eapply within_mono; [exact He|unfold place; lia|unfold place; lia]. }
  destruct (r1 <? 0) eqn:Hr1; [intros [= <- <-]; exists es1; split_and!; [done|done|congruence]|]. specialize (Hf1 eq_refl).
  intros (es2 & -> & Hw2 & Hf2)%(IH (end_of p)); [|done..]. exists (es1 ++ es2). rewrite app_assoc. split_and!; [done|by apply Forall_app|].
  intros Hok c a. rewrite foldl_app, Hf1, Hf2 by done. unfold loaded_cell. rewrite find_cons. fold (in_segment p a). destruct (in_segment p a) eqn:Ei; [|done].
  destruct (List.find _ _) as [q|] eqn:Eq; [|done]. apply List.find_some in Eq as [Hq Hqa]. apply list_elem_of_In in Hq. pose proof (laid_above _ _ q Hf Hl Hq).
  unfold in_segment, inside, place in *. breflect. lia.
Qed.
End memory.

(** ** The reservation *)

Lemma base_place low A high x :
  0 ≤ A → A + (high - low) ≤ 2 ^ 63 → low ≤ x ≤ high → wrap64 (wrap64 (A - low) + x) = place low A x.
Proof.
  intros ? ? ?. unfold wrap64, place. rewrite Zplus_mod_idemp_l. replace (A - low + x) with (A + (x - low)) by lia. apply Z.mod_small. lia.
Qed.
Definition image_at (l : elf_layout) (A : Z) : Prop := 0 ≤ A ∧ A + (l_high l - l_low l) ≤ 2 ^ 63 ∧ (l_alignment l | A - l_low l).
Lemma trim_prefix data l allocation :
  layout_facts data l → (page | allocation) →
  let prefix := Z.land (wrap64 (l_low l - allocation)) (l_alignment l - 1) in
  0 ≤ prefix ≤ l_alignment l - page ∧ (l_alignment l | allocation + prefix - l_low l).
Proof using Hk Hpage.
  intros Hl [q Hq]. destruct (lf_power _ _ Hl) as [(j & Hj & Ej) Hge]. destruct (lf_pages _ _ Hl) as [[u Hu] [v Hv]]. destruct (lf_bounds _ _ Hl) as [Hb1 Hb2].
  pose proof (lf_reserve _ _ Hl) as Hres. pose proof page_pos as Hpos. set (al := l_alignment l) in *.
  assert (u < v) as Huv by nia. assert (page ≤ l_high l - l_low l) as Hspan by nia. assert (al ≤ UINT64_MAX) as Hal by lia.
  assert (j < 64) as Hj64.
  { destruct (decide (j < 64)) as [|Hn]; [done|]. assert (2 ^ 64 ≤ 2 ^ j) by (apply Z.pow_le_mono_r; lia). unfold UINT64_MAX in *. change (2 ^ 64) with 18446744073709551616 in *. lia. }
  assert ((al | 18446744073709551616)) as Hdiv by (rewrite Ej; change 18446744073709551616 with (2 ^ 64); apply pow2_divide; [lia|]; apply Z.pow_le_mono_r; lia).
  assert (Z.land (wrap64 (l_low l - allocation)) (al - 1) = (l_low l - allocation) mod al) as ->.
  { replace (al - 1) with (Z.ones j) by (rewrite Z.ones_equiv; lia). rewrite Z.land_ones by lia. rewrite <- Ej. unfold wrap64.
    symmetry. apply Znumtheory.Zmod_div_mod; [lia|lia|done]. }
  assert ((page | al)) as [w Hw] by (rewrite Ej, Hpage; apply pow2_divide; lia).
  cbv zeta. pose proof (Z.div_mod (l_low l - allocation) al ltac:(lia)) as Hdm. pose proof (Z.mod_pos_bound (l_low l - allocation) al ltac:(lia)) as Hp1.
  set (prefix := (l_low l - allocation) mod al) in *. set (d := (l_low l - allocation) / al) in *.
  split; [|exists (- d); lia]. split; [lia|]. assert (prefix = page * (u - q - w * d)) as Hp3 by nia. assert (u - q - w * d < w) by nia. nia.
Qed.
Lemma ignore_spec kern t e : ∃ es, ignore kern t e = t ++ es ∧ (es = [] ∨ es = [e]) ∧ (0 ≤ kern t e → es = [e]).
Proof.
  unfold ignore, call. destruct (Z.ltb_spec (kern t e) 0); cbn; [exists []; rewrite app_nil_r; split_and!; auto; lia|]. exists [e]. auto.
Qed.
Lemma ignore_if kern t e (b : bool) : ∃ es, (if b then ignore kern t e else t) = t ++ es ∧ (es = [] ∨ es = [e]) ∧ (0 ≤ kern t e → b = true → es = [e]).
Proof.
  destruct b; [|exists []; rewrite app_nil_r; by split_and!; [|left|]]. destruct (ignore_spec kern t e) as (es & -> & H1 & H2). exists es. auto.
Qed.
Lemma trim_ok kern data l allocation t t' A :
  layout_facts data l → (page | allocation) → 0 ≤ allocation → allocation + (l_high l - l_low l + (l_alignment l - page)) ≤ 2 ^ 63 →
  trim kern l allocation (l_high l - l_low l + (l_alignment l - page)) t = (t', A) →
  image_at l A ∧ allocation ≤ A ≤ allocation + (l_alignment l - page)
  ∧ ∃ e1 e2, t' = (t ++ e1) ++ e2 ∧ (e1 = [] ∨ e1 = [Unmap allocation (A - allocation)])
      ∧ (e2 = [] ∨ e2 = [Unmap (A + (l_high l - l_low l)) (allocation + (l_alignment l - page) - A)])
      ∧ ((∀ t x n, 0 ≤ kern t (Unmap x n)) → (A = allocation ∨ e1 ≠ []) ∧ (allocation + (l_alignment l - page) = A ∨ e2 ≠ [])).
Proof using Hk Hpage.
  intros Hl Hdiv Ha Htop. destruct (trim_prefix data l allocation Hl Hdiv) as [Hp Hal]. unfold trim. set (prefix := Z.land _ _) in *. cbv zeta in *.
  destruct (ignore_if kern t (Unmap allocation prefix) (negb (prefix =? 0))) as (e1 & -> & He1 & Hk1).
  replace (l_high l - l_low l + (l_alignment l - page) - prefix - (l_high l - l_low l)) with (l_alignment l - page - prefix) by lia.
  set (suffix := l_alignment l - page - prefix) in *.
  destruct (ignore_if kern (t ++ e1) (Unmap (allocation + prefix + (l_high l - l_low l)) suffix) (negb (suffix =? 0))) as (e2 & -> & He2 & Hk2).
  intros [= <- <-]. split; [unfold image_at; split_and!; [lia|lia|done]|]. split; [lia|]. exists e1, e2.
  replace (allocation + prefix - allocation) with prefix by lia. replace (allocation + (l_alignment l - page) - (allocation + prefix)) with suffix by lia.
  split_and!; [done|done|done|]. intros Hkern. split.
  - destruct (Z.eqb_spec prefix 0) as [|Hne]; [left; lia|right]. by rewrite (Hk1 (Hkern _ _ _) eq_refl).
  - destruct (Z.eqb_spec suffix 0) as [|Hne]; [left; lia|right]. by rewrite (Hk2 (Hkern _ _ _) eq_refl).
Qed.

(** A reservation of [n] bytes at [at_] of which the [span] bytes at [A] are kept. *)
Record kept (content : list Z) (kern : kernel) (t : list vm_event) (at_ n A span : Z) : Prop := mk_kept {
  kp_first : ∃ fixed rest, t = Reserve fixed at_ n :: rest; kp_within : Forall (λ e, within e at_ n) t; kp_inside : at_ ≤ A ∧ A + span ≤ at_ + n;
  kp_none : ∀ a, inside A span a = true → cell_at content t a = Cell 0 PROT_NONE;
  kp_fault : ∀ a, cell_at content t a ≠ Fault;
  kp_outside : (∀ t x m, 0 ≤ kern t (Unmap x m)) → ∀ a, inside A span a = false → cell_at content t a = Unmapped }.

Lemma inside_spec x n a : reflect (x ≤ a < x + n) (inside x n a).
Proof using. clear Hk Hpage k. apply iff_reflect. unfold inside. rewrite andb_true_iff, Z.leb_le, Z.ltb_lt. lia. Qed.
Lemma kept_fixed content kern fixed A n : 0 ≤ n → kept content kern [Reserve fixed A n] A n A n.
Proof.
  intros Hn. split; [by eexists _, _|apply Forall_singleton; cbn; lia|lia| | |]; intros; unfold cell_at; cbn; try intros a; destruct (inside A n a) eqn:E; congruence.
Qed.
Lemma kept_trim content kern fixed at_ n A span e1 e2 :
  at_ ≤ A → A + span ≤ at_ + n → 0 ≤ span →
  (e1 = [] ∨ e1 = [Unmap at_ (A - at_)]) → (e2 = [] ∨ e2 = [Unmap (A + span) (at_ + n - (A + span))]) →
  ((∀ t x m, 0 ≤ kern t (Unmap x m)) → (A = at_ ∨ e1 ≠ []) ∧ (at_ + n = A + span ∨ e2 ≠ [])) →
  kept content kern (([Reserve fixed at_ n] ++ e1) ++ e2) at_ n A span.
Proof.
  intros H1 H2 H3 He1 He2 Hm.
  assert (∀ a, cell_at content (([Reserve fixed at_ n] ++ e1) ++ e2) a =
    if (inside at_ (A - at_) a && bool_decide (e1 ≠ [])) || (inside (A + span) (at_ + n - (A + span)) a && bool_decide (e2 ≠ [])) then Unmapped
    else if inside at_ n a then Cell 0 PROT_NONE else Unmapped) as Hcell.
  { intros a. unfold cell_at. rewrite !foldl_app. destruct He1 as [-> | ->], He2 as [-> | ->]; cbn;
    rewrite ?(bool_decide_false ([] ≠ [])), ?bool_decide_true, ?andb_true_r, ?andb_false_r by naive_solver; cbn;
    destruct (inside at_ (A - at_) a), (inside (A + span) (at_ + n - (A + span)) a); done. }
  split.
  - by eexists _, _.
  - rewrite !Forall_app. split_and!; [apply Forall_singleton; cbn; lia| |]; [destruct He1 as [-> | ->]|destruct He2 as [-> | ->]]; (apply Forall_nil_2 || (apply Forall_singleton; cbn; lia)).
  - lia.
  - intros a Ha. rewrite Hcell. destruct (inside_spec A span a); [|done]. destruct (inside_spec at_ (A - at_) a), (inside_spec (A + span) (at_ + n - (A + span)) a), (inside_spec at_ n a); done || lia.
  - intros a. rewrite Hcell. by case_ifs.
  - intros Hu a Ha. rewrite Hcell. destruct (Hm Hu) as [Hm1 Hm2]. destruct (inside_spec A span a); [done|].
    destruct (inside_spec at_ (A - at_) a), (inside_spec (A + span) (at_ + n - (A + span)) a), (inside_spec at_ n a); cbn; try (done || lia);
      destruct Hm1 as [->|?], Hm2 as [?|?]; rewrite ?bool_decide_true by done; cbn; rewrite ?orb_true_r; done || lia.
Qed.

Lemma apply_outside content e at_ n a c : within e at_ n → inside at_ n a = false → apply content a c e = c.
Proof.
  intros Hw Ha. destruct (inside_spec at_ n a) as [|Hout]; [done|].
  destruct e as [f x m|x m|x m prot o|x m prot|x m prot|x m]; cbn in *; (destruct (inside_spec x m a); [lia|done]).
Qed.
Lemma apply_all_outside content es at_ n a c : Forall (λ e, within e at_ n) es → inside at_ n a = false → foldl (apply content a) c es = c.
Proof. intros Hw Ha. revert c. induction Hw as [|e es He Hw IH]; intros c; [done|]. cbn [foldl]. by rewrite (apply_outside content e at_ n), IH. Qed.
Lemma segment_cell_sound content p x :
  Z.of_nat (length content) + page ≤ UINT64_MAX → segment_facts p → p_offset p + p_filesz p ≤ Z.of_nat (length content) → start_of p ≤ x →
  segment_cell content p x ≠ Fault.
Proof using Hk Hpage.
  intros Hlen Hp Hin Hx. unfold segment_cell. case_if; [|done]. breflect. destruct (file_end_spec p Hp) as (_ & _ & Hfe & _). pose proof (s_sizes _ Hp).
  destruct (decide (p_filesz p = 0)) as [Hz|Hz]; [specialize (Hfe Hz); lia|].
  rewrite file_cell_byte; [done|]. rewrite segment_shift by done. apply segment_in_file; done || lia.
Qed.

Lemma in_segment_place low A p x : in_segment low A p (place low A x) = true ↔ start_of p ≤ x < end_of p.
Proof using. clear Hk Hpage k. unfold in_segment, place. destruct (inside_spec (A + (start_of p - low)) (end_of p - start_of p) (A + (x - low))); split; try done; lia. Qed.
Lemma laid_unique previous l p q x :
  Forall segment_facts l → laid previous l → p ∈ l → q ∈ l → start_of p ≤ x < end_of p → start_of q ≤ x < end_of q → p = q.
Proof using Hk Hpage.
  intros Hf. revert previous. induction Hf as [|z l Hz Hf IH]; intros previous; [by intros _ ?%elem_of_nil|]. intros [_ H2] Hp Hq Hxp Hxq.
  apply elem_of_cons in Hp as [->|Hp], Hq as [->|Hq]; [done| | |by eapply IH].
  - pose proof (laid_above _ _ _ Hf H2 Hq). lia.
  - pose proof (laid_above _ _ _ Hf H2 Hp). lia.
Qed.

Section load.
Context (env : file_env) (kern : kernel) (content : list Z) (mode : Z).
Context (Hbytes : ∀ n off b, fe_pread env n off = inl b → bytes b) (Hstat : fe_stat env = inl (mode, Z.of_nat (length content))).
Context (Hlen : Z.of_nat (length content) + page ≤ UINT64_MAX).
Context (Hres : ∀ fixed x n, 0 ≤ kern [] (Reserve fixed x n) → (page | kern [] (Reserve fixed x n)) ∧ kern [] (Reserve fixed x n) + n ≤ 2 ^ 63).

(** What a load that succeeded has built. *)
Record image_built (loader : bool) (t : list vm_event) (im : md_image) (data : elf_data) (l : elf_layout) (A : Z) : Prop := mk_image_built {
  ib_read : read_elf env loader = inl data; ib_layout : layout data = inl l; ib_facts : layout_facts data l; ib_at : image_at l A;
  ib_fixed : e_type (d_header data) = 2 → A = l_low l;
  ib_image : im = mk_image (wrap64 (A - l_low l)) (wrap64 (wrap64 (A - l_low l) + e_entry (d_header data)))
                    (wrap64 (wrap64 (A - l_low l) + l_phdr l)) (e_phnum (d_header data));
  ib_in_file : Forall (λ p, p_offset p + p_filesz p ≤ Z.of_nat (length content)) (segments (d_ph data));
  ib_cells : ∀ a, inside A (l_high l - l_low l) a = true →
    cell_at content t a = loaded_cell content (l_low l) A (segments (d_ph data)) (Cell 0 PROT_NONE) a;
  ib_outside : ∀ a, inside A (l_high l - l_low l) a = false → cell_at content t a ≠ Fault }.
Definition confined (t : list vm_event) : Prop :=
  ∃ fixed at_ n rest, t = Reserve fixed at_ n :: rest ∧ Forall (λ e, within e at_ n) t.
Definition undone (t : list vm_event) : Prop := (∀ t x m, 0 ≤ kern t (Unmap x m)) → ∀ a, cell_at content t a = Unmapped.

Lemma load_kept loader data l t at_ n A t' r :
  read_elf env loader = inl data → layout data = inl l → layout_facts data l → image_at l A →
  Forall (λ p, p_offset p + p_filesz p ≤ Z.of_nat (length content)) (d_ph data) → (e_type (d_header data) = 2 → A = l_low l) →
  kept content kern t at_ n A (l_high l - l_low l) →
  load_segments kern (wrap64 (A - l_low l)) (d_ph data) t = (t', r) →
  let base := wrap64 (A - l_low l) in
  if r <? 0 then confined (ignore kern t' (Unmap A (l_high l - l_low l))) ∧ undone (ignore kern t' (Unmap A (l_high l - l_low l)))
  else confined t' ∧ image_built loader t' (mk_image base (wrap64 (base + e_entry (d_header data))) (wrap64 (base + l_phdr l)) (e_phnum (d_header data))) data l A.
Proof using Hk Hpage Hlen.
  intros Hr Hl Hf Hat Hin Hfix Hkept Hload. destruct Hat as (Ha0 & Ha1 & Ha2). destruct (lf_bounds _ _ Hf) as [Hb1 Hb2].
  assert (Forall (λ p, p_offset p + p_filesz p ≤ Z.of_nat (length content)) (segments (d_ph data))) as Hin'.
  { rewrite Forall_forall in Hin |- *. intros p [_ Hp]%list_elem_of_filter. by apply Hin. }
  destruct (load_segments_spec content (l_low l) A Hlen kern (wrap64 (A - l_low l)) (l_high l)
    ltac:(intros; by apply (base_place (l_low l) A (l_high l))) (d_ph data) 0 t t' r (lf_segments _ _ Hf) (lf_laid _ _ Hf)) as (es & -> & Hw & Hc); [|done|].
  { rewrite Forall_forall. intros p Hp. split; [|by rewrite Forall_forall in Hin'; apply Hin']. pose proof (lf_range _ _ Hf) as HR. rewrite Forall_forall in HR. by apply HR. }
  unfold place in Hw. replace (A + (l_low l - l_low l)) with A in Hw by lia.
  destruct Hkept as [(fixed & rest & Et) Hwt Hin2 Hnone Hfault Hout].
  assert (Forall (λ e, within e at_ n) (t ++ es)) as Hall.
  { apply Forall_app. split; [done|]. eapply Forall_impl; [exact Hw|]. intros e He. eapply within_mono; [exact He|lia|lia]. }
  cbv zeta. destruct (r <? 0) eqn:Er.
  - destruct (ignore_spec kern (t ++ es) (Unmap A (l_high l - l_low l))) as (e3 & -> & He3 & Hu3). split.
    + exists fixed, at_, n, (rest ++ es ++ e3). rewrite Et. cbn. rewrite <- app_assoc. split; [done|]. rewrite Et in Hall. cbn in Hall.
      change (Reserve fixed at_ n :: rest ++ es ++ e3) with ((Reserve fixed at_ n :: rest) ++ es ++ e3). rewrite app_assoc. apply Forall_app. split; [done|].
      destruct He3 as [-> | ->]; [apply Forall_nil_2|apply Forall_singleton; cbn; lia].
    + intros Hu a. rewrite (Hu3 (Hu _ _ _)). unfold cell_at. rewrite !foldl_app. fold (cell_at content t a). cbn [foldl apply].
      destruct (inside A (l_high l - l_low l) a) eqn:Ea; [done|]. rewrite (apply_all_outside content es A (l_high l - l_low l)) by done. by apply Hout.
  - split; [exists fixed, at_, n, (rest ++ es); rewrite Et in *; done|]. split; try done.
    + intros a Ha. unfold cell_at. rewrite foldl_app. fold (cell_at content t a). by rewrite Hc, Hnone.
    + intros a Ha. unfold cell_at. rewrite foldl_app. fold (cell_at content t a). rewrite (apply_all_outside content es A (l_high l - l_low l)) by done. apply Hfault.
Qed.

Lemma load_ok loader t res :
  md_elf_load env kern loader = (t, res) →
  match res with
  | inr _ => t = [] ∨ confined t ∧ undone t
  | inl im => confined t ∧ ∃ data l A, image_built loader t im data l A
  end.
Proof using Hk Hpage Hbytes Hstat Hlen Hres.
  unfold md_elf_load. destruct (read_elf env loader) as [data|] eqn:Er; [|intros [= <- <-]; by left].
  destruct (read_elf_facts env Hbytes loader data Er) as (mode' & size & Hs & _ & Hfields & Hin). rewrite Hstat in Hs. injection Hs as <- <-.
  destruct (layout data) as [l|] eqn:El; [|intros [= <- <-]; by left]. pose proof (layout_ok data l Hfields El) as Hf.
  destruct (lf_bounds _ _ Hf) as [Hb1 Hb2]. destruct (lf_power _ _ Hf) as [_ Hge]. cbv zeta. set (fixed := e_type (d_header data) =? 2). set (n := l_high l - l_low l + _).
  set (at_ := kern [] _). destruct (Z.ltb_spec at_ 0) as [|Hat]; [intros [= <- <-]; by left|]. destruct (Hres fixed _ n Hat) as [Hdiv Htop]. fold at_ in Hdiv, Htop.
  destruct (fixed && negb (at_ =? l_low l)) eqn:Ef.
  { intros [= <- <-]. right. apply andb_true_iff in Ef as [Ef _]. assert (n = l_high l - l_low l) as En by (unfold n; rewrite Ef; lia).
    destruct (ignore_spec kern [Reserve fixed at_ n] (Unmap at_ n)) as (e3 & -> & He3 & Hu3). split.
    - exists fixed, at_, n, e3. split; [done|]. apply Forall_cons. split; [cbn; lia|]. destruct He3 as [-> | ->]; [apply Forall_nil_2|apply Forall_singleton; cbn; lia].
    - intros Hu a. rewrite (Hu3 (Hu _ _ _)). unfold cell_at. cbn. by destruct (inside at_ n a). }
  assert (∃ t0 A, (if fixed then ([Reserve fixed at_ n], at_) else trim kern l at_ n [Reserve fixed at_ n]) = (t0, A)
    ∧ image_at l A ∧ (e_type (d_header data) = 2 → A = l_low l) ∧ kept content kern t0 at_ n A (l_high l - l_low l)) as (t0 & A & -> & Hia & Hfix & Hkept).
  { destruct fixed eqn:Efx.
    - exists [Reserve true at_ n], at_. assert (n = l_high l - l_low l) as En by (unfold n; lia). assert (at_ = l_low l) as Elow by (by apply andb_false_iff in Ef as [?|?]; breflect).
      split_and!; [done| |done|rewrite <- En; apply kept_fixed; lia]. split_and!; [lia|lia|]. rewrite Elow, Z.sub_diag. apply Z.divide_0_r.
    - destruct (trim kern l at_ n _) as [t0 A] eqn:Et. destruct (trim_ok kern data l at_ _ t0 A Hf Hdiv Hat Htop Et) as (Hia & HA & e1 & e2 & -> & He1 & He2 & Hu).
      eexists _, A. split; [done|]. split_and!; [done|intros H2; unfold fixed in Efx; by rewrite H2 in Efx|].
      replace (at_ + (l_alignment l - page) - A) with (at_ + n - (A + (l_high l - l_low l))) in He2 by (unfold n; lia).
      apply kept_trim; [lia|unfold n; lia|lia|done|done|]. intros Hk'. destruct (Hu Hk') as [? [?|?]]; split; auto. left. unfold n. lia. }
  destruct (load_segments kern (wrap64 (A - l_low l)) (d_ph data) t0) as [t' r] eqn:Eload.
  pose proof (load_kept loader data l t0 at_ n A t' r Er El Hf Hia Hin Hfix Hkept Eload) as H. cbv zeta in H. destruct (r <? 0); intros [= <- <-]; [by right|].
  destruct H as [? ?]. split; [done|]. by eexists _, _, _.
Qed.

Lemma built_at loader t im data l A x :
  image_built loader t im data l A → l_low l ≤ x < l_high l →
  cell_at content t (wrap64 (im_base im + x)) = loaded_cell content (l_low l) A (segments (d_ph data)) (Cell 0 PROT_NONE) (place (l_low l) A x).
Proof using Hk Hpage Hlen.
  intros Hb Hx. rewrite (ib_image _ _ _ _ _ _ Hb). cbn [im_base]. destruct (ib_at _ _ _ _ _ _ Hb) as (Ha0 & Ha1 & _).
  rewrite (base_place (l_low l) A (l_high l)) by lia. apply (ib_cells _ _ _ _ _ _ Hb). unfold inside, place. apply andb_true_iff. split; [apply Z.leb_le|apply Z.ltb_lt]; lia.
Qed.
Lemma built_segment loader t im data l A p x :
  image_built loader t im data l A → p ∈ segments (d_ph data) → start_of p ≤ x < end_of p →
  cell_at content t (wrap64 (im_base im + x)) = segment_cell content p x.
Proof using Hk Hpage Hlen.
  intros Hb Hp Hx. pose proof (ib_facts _ _ _ _ _ _ Hb) as Hf. pose proof (lf_range _ _ Hf) as HR. rewrite Forall_forall in HR. specialize (HR p Hp).
  rewrite (built_at _ _ _ _ _ _ x Hb) by lia. unfold loaded_cell. destruct (List.find _ _) as [q|] eqn:E.
  - apply List.find_some in E as [Hq%list_elem_of_In Hqx]. apply in_segment_place in Hqx.
    rewrite (laid_unique 0 _ p q x (lf_segments _ _ Hf) (lf_laid _ _ Hf) Hp Hq Hx Hqx). f_equal. unfold place. lia.
  - exfalso. pose proof (List.find_none _ _ E p (proj1 (list_elem_of_In _ _) Hp)) as Hn. cbn in Hn. by rewrite (proj2 (in_segment_place (l_low l) A p x)) in Hn.
Qed.
Lemma segment_byte p x :
  segment_facts p → p_offset p + p_filesz p ≤ Z.of_nat (length content) → p_vaddr p ≤ x < p_vaddr p + p_memsz p →
  segment_cell content p x = Cell (if x <? p_vaddr p + p_filesz p then default 0 (content !! Z.to_nat (p_offset p + (x - p_vaddr p))) else 0) (prot_of (p_flags p)).
Proof using Hk Hpage Hlen.
  intros Hp Hin Hx. unfold segment_cell. destruct (file_end_spec p Hp) as (_ & Hfe & Hz & _). pose proof (s_sizes _ Hp) as [Hsz _]. destruct (s_start _ Hp) as (_ & Hst & _).
  destruct (Z.ltb_spec x (p_vaddr p + p_filesz p)) as [Hlt|Hge].
  - specialize (Hfe ltac:(lia)). rewrite (proj2 (Z.ltb_lt x (file_end p))), (proj2 (Z.leb_gt (p_vaddr p + p_filesz p) x)), andb_false_r by lia. cbn [negb andb].
    rewrite segment_shift by done. unfold file_cell. by rewrite (proj2 (Z.ltb_lt _ _)) by lia.
  - rewrite (proj2 (Z.leb_le (p_vaddr p + p_filesz p) x)) by lia. destruct (Z.ltb_spec (p_filesz p) (p_memsz p)); [by rewrite andb_false_r|lia].
Qed.
Lemma built_aligned loader t im data l A p :
  image_built loader t im data l A → p ∈ segments (d_ph data) → 1 < p_align p ≤ UINT64_MAX → (p_align p | im_base im).
Proof using Hk Hpage Hlen.
  intros Hb Hp Ha. pose proof (ib_facts _ _ _ _ _ _ Hb) as Hf. rewrite (ib_image _ _ _ _ _ _ Hb). cbn [im_base].
  pose proof (lf_segments _ _ Hf) as Hs. rewrite Forall_forall in Hs. destruct (s_align _ (Hs p Hp) ltac:(lia)) as (i & Hi & Ei).
  pose proof (lf_align _ _ Hf) as Hal. rewrite Forall_forall in Hal. specialize (Hal p Hp). cbn in Hal. destruct (lf_power _ _ Hf) as [(j & Hj & Ej) _].
  assert ((p_align p | l_alignment l)) as Hd by (rewrite Ei, Ej; apply pow2_divide; [done|]; by rewrite <- Ei, <- Ej).
  assert ((p_align p | 18446744073709551616)) as Hm.
  { rewrite Ei. change 18446744073709551616 with (2 ^ 64). apply pow2_divide; [done|]. rewrite <- Ei. unfold UINT64_MAX in Ha. change (2 ^ 64) with 18446744073709551616. lia. }
  destruct (ib_at _ _ _ _ _ _ Hb) as (_ & _ & Hdiv). unfold wrap64. rewrite Z.mod_eq by lia.
  apply Z.divide_sub_r; [exact (Z.divide_trans _ _ _ Hd Hdiv)|]. by apply Z.divide_mul_l.
Qed.
End load.
End page.

(** What the loader relies on: pages are a power of two, a read yields bytes, the
    size of the file is the one reported, and an address that the kernel picks for
    a reservation is that of a page in the user's half of the address space. *)
Record loader_env (page : Z) (env : file_env) (kern : kernel) (content : list Z) : Prop := mk_loader_env {
  le_page : ∃ k, 0 ≤ k < 64 ∧ page = 2 ^ k;
  le_bytes : ∀ n off b, fe_pread env n off = inl b → bytes b;
  le_stat : ∃ mode, fe_stat env = inl (mode, Z.of_nat (length content));
  le_size : Z.of_nat (length content) + page ≤ UINT64_MAX;
  le_reserve : ∀ fixed x n, 0 ≤ kern [] (Reserve fixed x n) → (page | kern [] (Reserve fixed x n)) ∧ kern [] (Reserve fixed x n) + n ≤ 2 ^ 63 }.


(** Whatever the file and the kernel's answers, every call of [md_elf_load] after its
    reservation, each MAP_FIXED mapping included, stays inside the range that it
    reserved itself, and no arithmetic wraps on the way there.  A load that fails
    leaves nothing mapped, given that munmap works. *)
Theorem elf_load_confined page env kern content loader t res :
  loader_env page env kern content → md_elf_load page env kern loader = (t, res) →
  (t = [] ∨ ∃ fixed at_ n rest, t = Reserve fixed at_ n :: rest ∧ Forall (λ e, within e at_ n) t)
  ∧ (∀ r, res = inr r → (∀ t x n, 0 ≤ kern t (Unmap x n)) → ∀ a, cell_at page content t a = Unmapped).
Proof.
  intros [(k & Hk & Hpage) Hbytes [mode Hstat] Hlen Hres] Hload.
  pose proof (load_ok page k Hk Hpage env kern content mode Hbytes Hstat Hlen Hres loader t _ Hload) as H. destruct res as [im|e].
  - destruct H as [H _]. split; [by right|done].
  - destruct H as [->|[H1 H2]]; [by split; [left|]|]. split; [by right|]. intros r _. exact H2.
Qed.

(** ** Witnesses *)

Definition le_bytes_of (n : nat) (v : Z) : list Z := (λ i, Z.shiftr v (8 * Z.of_nat i) mod 256) <$> seq 0 n.
(** A position-independent file of one segment, half of it beyond the file's bytes. *)
Definition demo_file : list Z :=
  [127; 69; 76; 70; 2; 1; 1] ++ replicate 9 0 ++ le_bytes_of 2 3 ++ le_bytes_of 2 183 ++ le_bytes_of 4 1 ++ le_bytes_of 8 8196 ++ le_bytes_of 8 64
  ++ replicate 12 0 ++ le_bytes_of 2 64 ++ le_bytes_of 2 56 ++ le_bytes_of 2 1 ++ replicate 6 0
  ++ le_bytes_of 4 1 ++ le_bytes_of 4 5 ++ le_bytes_of 8 0 ++ le_bytes_of 8 8192 ++ le_bytes_of 8 8192 ++ le_bytes_of 8 120 ++ le_bytes_of 8 240 ++ le_bytes_of 8 8192.
Definition demo_env : file_env :=
  mk_file_env (inl (32768, Z.of_nat (length demo_file))) (λ n off, inl (take (Z.to_nat n) (drop (Z.to_nat off) demo_file))).
Definition demo_kernel : kernel := λ _ e, match e with Reserve _ _ n => if n <=? 1048576 then 65536 else - ENOMEM | _ => 0 end.
Lemma demo_loader_env : loader_env 4096 demo_env demo_kernel demo_file.
Proof.
  split.
  - exists 12. split; [lia|done].
  - intros n off b [= <-]. apply Forall_take, Forall_drop. apply (bool_decide_unpack (Forall _ _)). vm_compute. exact I.
  - by eexists.
  - vm_compute. discriminate.
  - intros fixed x n. cbn. destruct (Z.leb_spec n 1048576); [|done]. intros _. split; [by exists 16|]. change (2 ^ 63) with 9223372036854775808. lia.
Qed.
Lemma elf_load_confined_witness :
  cell_at 4096 demo_file (md_elf_load 4096 demo_env (λ t e, match e with MapFile _ _ _ _ => - ENOMEM | _ => demo_kernel t e end) false).1 8192 = Unmapped.
Proof.
  set (kern := λ t e, match e with MapFile _ _ _ _ => - ENOMEM | _ => demo_kernel t e end).
  assert (loader_env 4096 demo_env kern demo_file) as Henv by (destruct demo_loader_env; split; assumption).
  destruct (md_elf_load 4096 demo_env kern false) as [t [im|e]] eqn:E; [exfalso; vm_compute in E; discriminate|].
  destruct (elf_load_confined 4096 demo_env kern demo_file false t (inr e) Henv E) as [_ H]. apply (H e); [reflexivity|]. intros. cbn. lia.
Defined.
