(* ===== verification/OfdOrder.v ===== *)
(** * Turns on open file descriptions (ofd_order.c)

    Operations on the same open file description take turns.  A registry keeps an
    entry per description that has operations: a duplicate of the descriptor, by
    which kcmp(2) recognises the description, and a queue of ResourceOrder.  The
    entry appears with the first operation and goes with the last.

    An entry embeds its queue and an operation its record, so both share the
    address: the queue of the entry [e] is the queue [e] of the heap of
    ResourceOrder, the record of the operation [p] is its record [p].  [of_files] is
    the descriptor table, from descriptors to open descriptions.  Each call runs on
    the worker that owns the descriptors, under the lock of the registry.

    The specification is a transition system on queues by registry and description,
    [ofd_step]; [ofd_refines] is the simulation, which uses that of ResourceOrder. *)
From S2P Require Import Prelude CLib ResourceOrder.

Record md_ofd_orders := mk_orders { w_refs : Z; w_first : list loc }.
Record md_ofd_entry := mk_node { n_refs : Z; n_fd : Z }.
(** [order] is the record of the same address. *)
Record md_ofd_order := mk_op { op_owner : option loc; op_entry : option loc }.
Record ofd_heap := mk_ofd {
  of_ro : ro_heap; of_owners : gmap loc md_ofd_orders; of_entries : gmap loc md_ofd_entry; of_ops : gmap loc md_ofd_order; of_files : gmap Z Z }.

Definition no_op : md_ofd_order := mk_op None None.
Definition op_at (h : ofd_heap) (p : loc) : md_ofd_order := default no_op (of_ops h !! p).
Definition with_ro (h : ofd_heap) x := mk_ofd x (of_owners h) (of_entries h) (of_ops h) (of_files h).
Definition with_owners (h : ofd_heap) x := mk_ofd (of_ro h) x (of_entries h) (of_ops h) (of_files h).
Definition with_entries (h : ofd_heap) x := mk_ofd (of_ro h) (of_owners h) x (of_ops h) (of_files h).
Definition with_ops (h : ofd_heap) x := mk_ofd (of_ro h) (of_owners h) (of_entries h) x (of_files h).
Definition with_files (h : ofd_heap) x := mk_ofd (of_ro h) (of_owners h) (of_entries h) (of_ops h) x.

(** [out]: a null pointer, or what it points to. *)
Definition md_ofd_orders_new (h : ofd_heap) (out : option (option loc)) (calloc : bool) (mutex : Z) : ofd_heap * (loc + Z) :=
  match out with
  | Some None =>
      if negb calloc then (h, inr (- ENOMEM))
      else if negb (mutex =? 0) then (h, inr (- mutex))
      else let o := fresh (dom (of_owners h)) in (with_owners h (<[o := mk_orders 1 []]> (of_owners h)), inl o)
  | _ => (h, inr (- EINVAL))
  end.
(** Undefined when the registry is gone. *)
Definition md_ofd_orders_release (h : ofd_heap) (q : option loc) : option ofd_heap :=
  match q with
  | None => Some h
  | Some o =>
      x ← of_owners h !! o;
      Some (with_owners h (if w_refs x =? 1 then delete o (of_owners h) else <[o := mk_orders (wrap32 (w_refs x - 1)) (w_first x)]> (of_owners h)))
  end.
Definition drop_op (h : ofd_heap) (p : loc) : option ofd_heap :=
  o ← op_owner (op_at h p);
  e ← op_entry (op_at h p);
  q ← of_owners h !! o;
  x ← of_entries h !! e;
  let refs := wrap32 (n_refs x - 1) in
  h ← (if refs =? 0 then
         first ← unlink e (w_first q);
         let h := with_owners h (<[o := mk_orders (w_refs q) first]> (of_owners h)) in
         let h := with_files h (delete (n_fd x) (of_files h)) in
         let h := with_ro h (md_resource_queue_destroy (of_ro h) e) in
         Some (with_entries h (delete e (of_entries h)))
       else Some (with_entries h (<[e := mk_node refs (n_fd x)]> (of_entries h))));
  let h := with_ops h (<[p := no_op]> (of_ops h)) in
  let h := with_ro h (with_orders (of_ro h) (<[p := idle_order]> (ro_orders (of_ro h)))) in
  md_ofd_orders_release h (Some o).

(** kcmp(2) with KCMP_FILE; [errno] is 0 where the call is available. *)
Definition kcmp (h : ofd_heap) (errno fd1 fd2 : Z) : Z + Z :=
  if negb (errno =? 0) then inr errno
  else match of_files h !! fd1, of_files h !! fd2 with
  | Some a, Some b => inl (if a =? b then 0 else 1)
  | _, _ => inr EBADF
  end.
(** The entry of the description of [fd], if there is one. *)
Fixpoint find_entry (h : ofd_heap) (errno fd : Z) (l : list loc) : option (option loc + Z) :=
  match l with
  | [] => Some (inl None)
  | e :: l =>
      x ← of_entries h !! e;
      match kcmp h errno fd (n_fd x) with
      | inr r => Some (inr (- r))
      | inl same => if same =? 0 then Some (inl (Some e)) else find_entry h errno fd l
      end
  end.
(** Outcomes of kcmp, calloc, fcntl(F_DUPFD_CLOEXEC) and pthread_mutex_init. *)
Record begin_env := mk_begin_env { be_kcmp : Z; be_calloc : bool; be_dup : Z + Z; be_mutex : Z }.
(** A new entry for [fd] in front of the registry. *)
Definition new_entry (h : ofd_heap) (o : loc) (q : md_ofd_orders) (fd : Z) (env : begin_env) : ofd_heap * (loc + Z) :=
  if negb (be_calloc env) then (h, inr (- ENOMEM))
  else match be_dup env with
  | inr r => (h, inr (- r))
  | inl dup =>
      let e := fresh (dom (of_entries h)) in
      let files := match of_files h !! fd with Some d => <[dup := d]> (of_files h) | None => of_files h end in
      let '(ro, r) := md_resource_queue_init (of_ro h) e (be_mutex env) in
      if negb (r =? 0) then (h, inr r)
      else (mk_ofd ro (<[o := mk_orders (w_refs q) (e :: w_first q)]> (of_owners h)) (<[e := mk_node 0 dup]> (of_entries h)) (of_ops h) files, inl e)
  end.
(** The turn of the operation [p] on the entry [e]. *)
Definition take_turn (h : ofd_heap) (o e p : loc) (wake : option loc) : option (ofd_heap * Z) :=
  q ← of_owners h !! o;
  x ← of_entries h !! e;
  let h := with_owners h (<[o := mk_orders (wrap32 (w_refs q + 1)) (w_first q)]> (of_owners h)) in
  let h := with_entries h (<[e := mk_node (wrap32 (n_refs x + 1)) (n_fd x)]> (of_entries h)) in
  let h := with_ops h (<[p := mk_op (Some o) (Some e)]> (of_ops h)) in
  let '(ro, ready) := md_resource_order_begin (of_ro h) (Some e) (Some p) wake in
  let h := with_ro h ro in
  if ready <? 0 then h ← drop_op h p; Some (h, ready) else Some (h, ready).

Definition md_ofd_order_begin (h : ofd_heap) (q : option loc) (fd reserve : Z) (op wake : option loc) (env : begin_env)
    : option (ofd_heap * Z) :=
  match q, op with
  | Some o, Some p =>
      if (fd <? 0) || negb ((reserve =? 0) || (reserve =? 1)) then Some (h, - EINVAL)
      else if bool_decide (is_Some (op_owner (op_at h p))) || bool_decide (is_Some (op_entry (op_at h p)))
              || bool_decide (is_Some (o_queue (order_at (of_ro h) p))) then Some (h, - EBUSY)
      else
        x ← of_owners h !! o;
        found ← find_entry h (be_kcmp env) fd (w_first x);
        match found with
        | inr error => Some (h, error)
        | inl (Some e) => take_turn h o e p wake
        | inl None =>
            if reserve =? 0 then Some (h, 1)
            else match new_entry h o x fd env with
            | (h, inr error) => Some (h, error)
            | (h, inl e) => take_turn h o e p wake
            end
        end
  | _, _ => Some (h, - EINVAL)
  end.
Definition md_ofd_order_state (h : ofd_heap) (op : option loc) : md_resource_order_state := state_of (of_ro h) op.
Definition md_ofd_order_start (h : ofd_heap) (op : option loc) : ofd_heap * Z :=
  match op with
  | Some p =>
      if bool_decide (is_Some (op_owner (op_at h p)))
      then let '(ro, r) := md_resource_order_start (of_ro h) (Some p) in (with_ro h ro, r)
      else (h, - EINVAL)
  | None => (h, - EINVAL)
  end.
(** Completing or cancelling retires the entry's reference with the record. *)
Definition finish (run : ro_heap → option loc → (Z → Z + Z) → ro_heap * Z) (h : ofd_heap) (op : option loc) (write : Z → Z + Z)
    : option (ofd_heap * Z) :=
  match op with
  | Some p =>
      if bool_decide (is_Some (op_owner (op_at h p))) then
        let '(ro, r) := run (of_ro h) (Some p) write in
        let h := with_ro h ro in
        if bool_decide (o_queue (order_at ro p) = None) then h ← drop_op h p; Some (h, r) else Some (h, r)
      else Some (h, - EINVAL)
  | None => Some (h, - EINVAL)
  end.
Definition md_ofd_order_cancel : ofd_heap → option loc → (Z → Z + Z) → option (ofd_heap * Z) := finish md_resource_order_cancel.
Definition md_ofd_order_complete : ofd_heap → option loc → (Z → Z + Z) → option (ofd_heap * Z) := finish md_resource_order_complete.

(** ** Specification: queues by registry and description *)

(** What ResourceOrder's specification does on one queue alone. *)
Definition queue_step (l : list entry) (op : ro_op) (r : Z) (w : option loc) (l' : list entry) : Prop :=
  fifo_step {[1%positive := l]} op r w {[1%positive := l']}.

Inductive ofd_op :=
  | OBegin (o : loc) (fd reserve : Z) (p : loc) (wake : option loc) (env : begin_env)
  | OStart (p : loc) | OCancel (p : loc) | OComplete (p : loc).
Definition queue_op (op : ofd_op) : option (loc * ro_op) :=
  match op with OBegin _ _ _ _ _ _ => None | OStart p => Some (p, Start p) | OCancel p => Some (p, Cancel p) | OComplete p => Some (p, Complete p) end.
Definition busy (F : gmap (loc * Z) (list entry)) (p : loc) : Prop := ∃ k l, F !! k = Some l ∧ p ∈ ops l.
(** A queue that is empty is not there. *)
Definition put (k : loc * Z) (l : list entry) (F : gmap (loc * Z) (list entry)) : gmap (loc * Z) (list entry) :=
  match l with [] => delete k F | _ => <[k := l]> F end.

(** [ofd_step files F op r w F']: with this descriptor table, the call returns [r] and
    signals the token [w]. *)
Inductive ofd_step (files : gmap Z Z) (F : gmap (loc * Z) (list entry)) : ofd_op → Z → option loc → gmap (loc * Z) (list entry) → Prop :=
  | ofd_begin o fd d reserve p wake env l :
      files !! fd = Some d → ¬ busy F p → l = default [] (F !! (o, d)) → (l ≠ [] ∨ reserve = 1) →
      ofd_step files F (OBegin o fd reserve p wake env) (match l with [] => 1 | _ => 0 end) None (put (o, d) (l ++ [mk_entry p (begin_state l) wake]) F)
  | ofd_begin_free o fd d p wake env :
      files !! fd = Some d → ¬ busy F p → F !! (o, d) = None →
      ofd_step files F (OBegin o fd 0 p wake env) 1 None F
  | ofd_begin_busy o fd reserve p wake env : busy F p → ofd_step files F (OBegin o fd reserve p wake env) (- EBUSY) None F
  | ofd_begin_invalid o fd reserve p wake env :
      fd < 0 ∨ reserve ≠ 0 ∧ reserve ≠ 1 → ofd_step files F (OBegin o fd reserve p wake env) (- EINVAL) None F
  | ofd_begin_failed o fd reserve p wake env r :
      r < 0 → be_kcmp env ≠ 0 ∨ be_calloc env = false ∨ (∃ e, be_dup env = inr e) ∨ be_mutex env ≠ 0 →
      ofd_step files F (OBegin o fd reserve p wake env) r None F
  | ofd_idle op p rop : queue_op op = Some (p, rop) → ¬ busy F p → ofd_step files F op (- EINVAL) None F
  | ofd_queue op p rop k l r w l' :
      queue_op op = Some (p, rop) → F !! k = Some l → p ∈ ops l → queue_step l rop r w l' →
      ofd_step files F op r w (put k l' F).

Definition ofd_run (h : ofd_heap) (op : ofd_op) (write : Z → Z + Z) : option (ofd_heap * Z) :=
  match op with
  | OBegin o fd reserve p wake env => md_ofd_order_begin h (Some o) fd reserve (Some p) wake env
  | OStart p => Some (md_ofd_order_start h (Some p))
  | OCancel p => md_ofd_order_cancel h (Some p) write
  | OComplete p => md_ofd_order_complete h (Some p) write
  end.

(** ** Representation *)

Definition turns (A : gmap loc (list entry)) (e : loc) : Z := Z.of_nat (length (default [] (A !! e))).
(** [A]: the queues by entry; [held]: the references of clients to registries. *)
Record ofd_ok (h : ofd_heap) (A : gmap loc (list entry)) (held : loc → Z) : Prop := mk_ofd_ok {
  ok_rep : ro_rep (of_ro h) A;
  ok_entry : ∀ e, match of_entries h !! e, A !! e with
                  | Some x, Some l => n_refs x = Z.of_nat (length l) ∧ is_Some (of_files h !! n_fd x) | None, None => True | _, _ => False end;
  ok_fd : ∀ e1 e2 x1 x2, of_entries h !! e1 = Some x1 → of_entries h !! e2 = Some x2 → n_fd x1 = n_fd x2 → e1 = e2;
  ok_owner : ∀ o q, of_owners h !! o = Some q →
    NoDup (w_first q) ∧ w_refs q = held o + total (turns A <$> w_first q) ∧ 0 ≤ held o ∧ 1 ≤ w_refs q ≤ UINT32_MAX;
  ok_listed : ∀ e, is_Some (A !! e) ↔ ∃ o q, of_owners h !! o = Some q ∧ e ∈ w_first q;
  ok_unique : ∀ o1 o2 q1 q2 e, of_owners h !! o1 = Some q1 → of_owners h !! o2 = Some q2 → e ∈ w_first q1 → e ∈ w_first q2 → o1 = o2;
  ok_desc : ∀ o q e1 e2 x1 x2, of_owners h !! o = Some q → e1 ∈ w_first q → e2 ∈ w_first q →
    of_entries h !! e1 = Some x1 → of_entries h !! e2 = Some x2 → of_files h !! n_fd x1 = of_files h !! n_fd x2 → e1 = e2;
  ok_op : ∀ p, (op_at h p = no_op ∧ ¬ queued A p)
               ∨ ∃ o e q l, op_at h p = mk_op (Some o) (Some e) ∧ of_owners h !! o = Some q ∧ e ∈ w_first q ∧ A !! e = Some l ∧ p ∈ ops l }.
Definition settled (A : gmap loc (list entry)) : Prop := ∀ e l, A !! e = Some l → l ≠ [].
(** The queue of a registry for a description. *)
Definition queue_for (h : ofd_heap) (A : gmap loc (list entry)) (o : loc) (d : Z) (l : list entry) : Prop :=
  ∃ q e x, of_owners h !! o = Some q ∧ e ∈ w_first q ∧ of_entries h !! e = Some x ∧ of_files h !! n_fd x = Some d ∧ A !! e = Some l.
Definition ofd_rep (h : ofd_heap) (F : gmap (loc * Z) (list entry)) (held : loc → Z) : Prop :=
  ∃ A, ofd_ok h A held ∧ settled A ∧ ∀ o d l, F !! (o, d) = Some l ↔ queue_for h A o d l.

Lemma total_frame (f g : loc → Z) (l : list loc) : (∀ y, y ∈ l → f y = g y) → total (f <$> l) = total (g <$> l).
Proof. intros H. f_equal. apply list_fmap_ext. intros i y Hy. by apply H, list_elem_of_lookup_2 with i. Qed.
Lemma total_change (f g : loc → Z) (l : list loc) e :
  NoDup l → e ∈ l → (∀ y, y ∈ l → y ≠ e → f y = g y) → total (f <$> l) = total (g <$> l) + (f e - g e).
Proof.
  intros Hn He Hf. apply elem_of_Permutation in He as [l' Hp]. rewrite Hp in *. apply NoDup_cons in Hn as [Hnot _]. rewrite !fmap_cons. cbn.
  pose proof (total_frame f g l') as H. unfold total in H. rewrite H; [lia|]. intros y Hy. apply Hf; [rewrite Hp; by right|]. intros ->. done.
Qed.
Lemma turns_insert A e l y : turns (<[e := l]> A) y = if decide (y = e) then Z.of_nat (length l) else turns A y.
Proof. unfold turns. case_decide; [subst; by rewrite lookup_insert_eq|by rewrite lookup_insert_ne]. Qed.
Lemma turns_nonneg A l : 0 ≤ total (turns A <$> l).
Proof. apply total_nonneg, Forall_fmap, Forall_forall. intros y _. unfold compose, turns. lia. Qed.
Lemma turns_le A l e : e ∈ l → turns A e ≤ total (turns A <$> l).
Proof. intros He. apply elem_of_Permutation in He as [l' ->]. rewrite fmap_cons. pose proof (turns_nonneg A l') as H. unfold total in *. cbn. lia. Qed.

Lemma ofd_update_op h A held o q e l l' p newop ro entries files refs p2 :
  ofd_ok h A held → of_owners h !! o = Some q → e ∈ w_first q → A !! e = Some l →
  (∀ p', p' ≠ p → p' ∈ ops l' ↔ p' ∈ ops l) → (∀ e2 l2, e2 ≠ e → A !! e2 = Some l2 → p ∉ ops l2) →
  (newop = no_op ∧ p ∉ ops l' ∨ newop = mk_op (Some o) (Some e) ∧ p ∈ ops l') →
  let owners := <[o := mk_orders refs (w_first q)]> (of_owners h) in
  let h' := mk_ofd ro owners entries (<[p := newop]> (of_ops h)) files in
  (op_at h' p2 = no_op ∧ ¬ queued (<[e := l']> A) p2)
  ∨ ∃ o2 e2 q2 l2, op_at h' p2 = mk_op (Some o2) (Some e2) ∧ owners !! o2 = Some q2 ∧ e2 ∈ w_first q2 ∧ <[e := l']> A !! e2 = Some l2 ∧ p2 ∈ ops l2.
Proof.
  intros Hok Ho He Hl Hother Hp Hnew owners h'. unfold op_at, h', owners. cbn [of_ops]. destruct (decide (p2 = p)) as [->|Hp2].
  - rewrite lookup_insert_eq. cbn [from_option id]. destruct Hnew as [[-> Hn]|[-> Hn]].
    + left. split; [done|]. intros (e2 & l2 & [[<- <-]|[? ?]]%lookup_insert_Some & Hin); [done|]. by eapply Hp.
    + right. exists o, e, (mk_orders refs (w_first q)), l'. by rewrite !lookup_insert_eq.
  - rewrite lookup_insert_ne by done. fold (op_at h p2). destruct (ok_op _ _ _ Hok p2) as [[H1 H2]|(o2 & e2 & q2 & l2 & H1 & H2 & H3 & H4 & H5)].
    + left. split; [done|]. intros (e2 & l2 & [[<- <-]|[? ?]]%lookup_insert_Some & Hin); apply H2; [exists e, l; by rewrite <- Hother|by exists e2, l2].
    + right. exists o2, e2, (if decide (o2 = o) then mk_orders refs (w_first q) else q2), (if decide (e2 = e) then l' else l2).
      split_and!; [done| | | |]; case_decide; try done; subst; try by rewrite ?lookup_insert_eq, ?lookup_insert_ne.
      * cbn. congruence.
      * apply Hother; [done|congruence].
Qed.

(** The queue of the entry [e] becomes [l'], which differs in the operation [p] only. *)
Lemma ofd_update h A held o q e x l l' p newop ro refs held' :
  ofd_ok h A held → of_owners h !! o = Some q → e ∈ w_first q → of_entries h !! e = Some x → A !! e = Some l →
  ro_rep ro (<[e := l']> A) → (∀ p', p' ≠ p → p' ∈ ops l' ↔ p' ∈ ops l) → (∀ e2 l2, e2 ≠ e → A !! e2 = Some l2 → p ∉ ops l2) →
  (newop = no_op ∧ p ∉ ops l' ∨ newop = mk_op (Some o) (Some e) ∧ p ∈ ops l') →
  refs = held' o + total (turns A <$> w_first q) + (Z.of_nat (length l') - Z.of_nat (length l)) → 0 ≤ held' o → 1 ≤ refs ≤ UINT32_MAX →
  (∀ y, y ≠ o → held' y = held y) →
  ofd_ok (mk_ofd ro (<[o := mk_orders refs (w_first q)]> (of_owners h)) (<[e := mk_node (Z.of_nat (length l')) (n_fd x)]> (of_entries h))
            (<[p := newop]> (of_ops h)) (of_files h)) (<[e := l']> A) held'.
Proof.
  intros Hok Ho He Hx Hl Hro Hother Hp Hnew Hrefs Hh Hb Hheld. destruct (ok_owner _ _ _ Hok o q Ho) as (Hnd & _).
  assert (∀ o2 q2, (<[o := mk_orders refs (w_first q)]> (of_owners h)) !! o2 = Some q2 → ∃ q3, of_owners h !! o2 = Some q3 ∧ w_first q3 = w_first q2) as Hown.
  { intros o2 q2. rewrite lookup_insert_Some. intros [[<- <-]|[? ?]]; eauto. }
  assert (∀ e2 x2, (<[e := mk_node (Z.of_nat (length l')) (n_fd x)]> (of_entries h)) !! e2 = Some x2 → ∃ x3, of_entries h !! e2 = Some x3 ∧ n_fd x3 = n_fd x2) as Hent.
  { intros e2 x2. rewrite lookup_insert_Some. intros [[<- <-]|[? ?]]; eauto. }
  split; cbn [of_ro of_owners of_entries of_ops of_files].
  - done.
  - intros e2. pose proof (ok_entry _ _ _ Hok e2) as H. destruct (decide (e2 = e)) as [->|]; [|by rewrite !lookup_insert_ne].
    rewrite !lookup_insert_eq. rewrite Hx, Hl in H. by destruct H.
  - intros e1 e2 x1 x2 (y1 & ? & <-)%Hent (y2 & ? & <-)%Hent. by apply (ok_fd _ _ _ Hok).
  - intros o2 q2. rewrite lookup_insert_Some. intros [[<- <-]|[Hne H2]]; cbn [w_first w_refs].
    + split_and!; [done| |done|lia|lia]. rewrite (total_change _ (turns A) _ e Hnd He) by (intros; by rewrite turns_insert, decide_False).
      rewrite turns_insert, decide_True by done. unfold turns at 2. rewrite Hl. cbn. lia.
    + rewrite Hheld by done. destruct (ok_owner _ _ _ Hok o2 q2 H2) as (? & -> & ? & ?). split_and!; try lia; [done|]. f_equal. apply total_frame.
      intros y Hy. rewrite turns_insert, decide_False; [done|]. intros ->. by apply Hne, (ok_unique _ _ _ Hok o o2 q q2 e).
  - intros e2. rewrite lookup_insert_is_Some, (ok_listed _ _ _ Hok e2). split.
    + intros [<-|[Hne (o2 & q2 & H2 & Hin)]]; [exists o, (mk_orders refs (w_first q)); by rewrite lookup_insert_eq|].
      destruct (decide (o2 = o)) as [->|]; [exists o, (mk_orders refs (w_first q)); rewrite lookup_insert_eq; split; [done|]; cbn; congruence|exists o2, q2; by rewrite lookup_insert_ne].
    + intros (o2 & q2 & (q3 & H3 & Hf)%Hown & Hin). destruct (decide (e = e2)); [by left|right; split; [done|]]. exists o2, q3. by rewrite Hf.
  - intros o1 o2 q1 q2 e2 (y1 & ? & <-)%Hown (y2 & ? & <-)%Hown. by apply (ok_unique _ _ _ Hok).
  - intros o2 q2 e1 e2 x1 x2 (y & ? & <-)%Hown ? ? (y1 & ? & <-)%Hent (y2 & ? & <-)%Hent. by apply (ok_desc _ _ _ Hok o2 y).
  - intros p2. by apply (ofd_update_op h A held o q e l).
Qed.

Definition tracks (h : ofd_heap) (A : gmap loc (list entry)) (F : gmap (loc * Z) (list entry)) : Prop :=
  ∀ o d l, F !! (o, d) = Some l ↔ queue_for h A o d l.
Lemma rep_unique ro A p e1 e2 l1 l2 : ro_rep ro A → A !! e1 = Some l1 → A !! e2 = Some l2 → p ∈ ops l1 → p ∈ ops l2 → e1 = e2.
Proof.
  intros Hr H1 H2 Hp1 Hp2. destruct (seg_lookup _ _ _ _ _ _ (qr_seg _ _ _ (rep_queue _ _ Hr _ _ H1)) Hp1) as (x1 & Hx1 & Hq1).
  destruct (seg_lookup _ _ _ _ _ _ (qr_seg _ _ _ (rep_queue _ _ Hr _ _ H2)) Hp2) as (x2 & Hx2 & Hq2). congruence.
Qed.
(** The entry of a registry for a description is unique. *)
Lemma queue_for_unique h A held o q e x d l l2 :
  ofd_ok h A held → of_owners h !! o = Some q → e ∈ w_first q → of_entries h !! e = Some x → of_files h !! n_fd x = Some d → A !! e = Some l →
  queue_for h A o d l2 → l2 = l.
Proof.
  intros Hok Ho He Hx Hd Hl (q2 & e2 & x2 & Ho2 & He2 & Hx2 & Hd2 & Hl2). assert (q2 = q) as -> by congruence.
  assert (e2 = e) as -> by (by eapply (ok_desc _ _ _ Hok o q e2 e x2 x); [..|congruence]). congruence.
Qed.

Lemma tracks_update h A held F o q e x d l l' ro refs node p newop :
  ofd_ok h A held → tracks h A F → of_owners h !! o = Some q → e ∈ w_first q → of_entries h !! e = Some x → of_files h !! n_fd x = Some d → A !! e = Some l →
  tracks (mk_ofd ro (<[o := mk_orders refs (w_first q)]> (of_owners h)) (<[e := mk_node node (n_fd x)]> (of_entries h)) (<[p := newop]> (of_ops h)) (of_files h))
    (<[e := l']> A) (<[(o, d) := l']> F).
Proof.
  intros Hok Ht Ho He Hx Hd Hl o2 d2 l2. rewrite lookup_insert_Some. unfold queue_for. cbn. split.
  - intros [[[= <- <-] <-]|[Hne (q2 & e2 & x2 & Ho2 & He2 & Hx2 & Hd2 & Hl2)%Ht]].
    + exists (mk_orders refs (w_first q)), e, (mk_node node (n_fd x)). rewrite !lookup_insert_eq. done.
    + assert (e2 ≠ e) as Hne2.
      { intros ->. apply Hne. rewrite (ok_unique _ _ _ Hok o o2 q q2 e) by done. f_equal. congruence. }
      exists (if decide (o2 = o) then mk_orders refs (w_first q) else q2), e2, x2. rewrite !(lookup_insert_ne _ e e2) by done.
      split_and!; [| |done..]; case_decide; try done; subst; [by rewrite lookup_insert_eq|by rewrite lookup_insert_ne|]. cbn. congruence.
  - intros (q2 & e2 & x2 & Ho2 & He2 & Hx2 & Hd2 & Hl2). assert (∃ q3, of_owners h !! o2 = Some q3 ∧ w_first q3 = w_first q2) as (q3 & Ho3 & Hf3).
    { apply lookup_insert_Some in Ho2 as [[<- <-]|[? ?]]; eauto. }
    rewrite <- Hf3 in He2. destruct (decide (e2 = e)) as [->|Hne].
    + rewrite lookup_insert_eq in Hx2. rewrite lookup_insert_eq in Hl2. simplify_eq. cbn in Hd2. left. split; [|done].
      rewrite (ok_unique _ _ _ Hok o o2 q q3 e) by done. f_equal. congruence.
    + rewrite lookup_insert_ne in Hx2 by done. rewrite lookup_insert_ne in Hl2 by done. right. split; [|apply Ht; by exists q3, e2, x2].
      intros [= <- <-]. apply Hne. assert (q3 = q) as -> by congruence. by eapply (ok_desc _ _ _ Hok o q e2 e x2 x); [..|congruence].
Qed.

Lemma take_turn_ok h A held F o q e x d l p wake :
  ofd_ok h A held → tracks h A F → of_owners h !! o = Some q → e ∈ w_first q → of_entries h !! e = Some x → of_files h !! n_fd x = Some d → A !! e = Some l →
  ¬ queued A p → w_refs q < UINT32_MAX →
  ∃ h', take_turn h o e p wake = Some (h', match l with [] => 1 | _ => 0 end)
    ∧ ofd_ok h' (<[e := l ++ [mk_entry p (begin_state l) wake]]> A) held
    ∧ tracks h' (<[e := l ++ [mk_entry p (begin_state l) wake]]> A) (<[(o, d) := l ++ [mk_entry p (begin_state l) wake]]> F)
    ∧ ro_signals (of_ro h') = ro_signals (of_ro h) ∧ of_files h' = of_files h.
Proof.
  intros Hok Ht Ho He Hx Hd Hl Hp Hroom. unfold take_turn. rewrite Ho. cbn [mbind option_bind]. rewrite Hx. cbn [mbind option_bind].
  cbn [of_ro with_owners with_entries with_ops of_entries of_owners of_ops of_files].
  pose proof (ok_entry _ _ _ Hok e) as Hent. rewrite Hx, Hl in Hent. destruct Hent as [Hn _]. destruct (ok_owner _ _ _ Hok o q Ho) as (_ & Hrefs & Hheld & Hb).
  pose proof (turns_le A (w_first q) e He) as Hle. unfold turns at 1 in Hle. rewrite Hl in Hle. cbn in Hle.
  assert (o_queue (order_at (of_ro h) p) = None) as Hq.
  { destruct (o_queue (order_at (of_ro h) p)) as [e2|] eqn:E; [|done]. destruct (rep_entry _ _ _ _ (ok_rep _ _ _ Hok) E) as (l1 & s & w & l2 & HA & _).
    exfalso. apply Hp. exists e2, (l1 ++ mk_entry p s w :: l2). split; [done|]. apply ops_mid. auto. }
  pose proof (begin_sim (of_ro h) A e l p wake (ok_rep _ _ _ Hok) Hl Hq) as Hs. destruct (md_resource_order_begin (of_ro h) (Some e) (Some p) wake) as [ro r].
  destruct Hs as (-> & Hsig & Hrep). assert (((match l with [] => 1 | _ => 0 end) <? 0) = false) as -> by (by destruct l).
  eexists. split; [done|]. set (l' := l ++ _) in *. assert (Z.of_nat (length l') = Z.of_nat (length l) + 1) as Hlen by (unfold l'; rewrite length_app; cbn; lia).
  rewrite !wrap32_small by lia. replace (n_refs x + 1) with (Z.of_nat (length l')) by lia. split_and!; [| |done|done].
  - apply (ofd_update h A held o q e x l l' p); try done; try lia.
    + intros p' Hne. unfold l'. rewrite ops_app, elem_of_app. split; [|by left]. intros [?|?]; [done|]. by apply list_elem_of_singleton in H.
    + intros e2 l2 _ H2 Hin. apply Hp. by exists e2, l2.
    + right. split; [done|]. unfold l'. rewrite ops_app. apply elem_of_app. right. by left.
  - by apply (tracks_update h A held F o q e x d l).
Qed.

(** The entry [e] joins the registry [o] with a descriptor of the description [d]. *)
Section enter.
Context (h : ofd_heap) (A : gmap loc (list entry)) (held : loc → Z) (F : gmap (loc * Z) (list entry)) (o : loc) (q : md_ofd_orders) (e : loc) (d dup : Z).
Context (Hok : ofd_ok h A held) (Ht : tracks h A F) (Ho : of_owners h !! o = Some q) (He : of_entries h !! e = None) (HA : A !! e = None).
Context (Hdup : of_files h !! dup = None) (Hnone : F !! (o, d) = None).
Local Notation owners := (<[o := mk_orders (w_refs q) (e :: w_first q)]> (of_owners h)).
Local Notation h1 := (mk_ofd (with_queues (of_ro h) (<[e := mk_queue None None]> (ro_queues (of_ro h)))) owners (<[e := mk_node 0 dup]> (of_entries h)) (of_ops h) (<[dup := d]> (of_files h))).

Lemma entry_files e2 x2 : of_entries h !! e2 = Some x2 → n_fd x2 ≠ dup ∧ (<[dup := d]> (of_files h)) !! n_fd x2 = of_files h !! n_fd x2.
Proof using Hok Ht Ho He HA Hdup Hnone.
  intros H2. pose proof (ok_entry _ _ _ Hok e2) as H. rewrite H2 in H. destruct (A !! e2); [|done]. destruct H as [_ [y Hy]].
  assert (n_fd x2 ≠ dup) by congruence. by rewrite lookup_insert_ne.
Qed.
Lemma entry_new o2 q2 : of_owners h !! o2 = Some q2 → e ∉ w_first q2.
Proof using Hok Ht Ho He HA Hdup Hnone.
  intros H2 Hin. pose proof (proj2 (ok_listed _ _ _ Hok e) (ex_intro _ o2 (ex_intro _ q2 (conj H2 Hin)))) as [? ?]. congruence.
Qed.
(** Membership in the registries before and after. *)
Lemma member_iff o2 e2 : (∃ q2, owners !! o2 = Some q2 ∧ e2 ∈ w_first q2) ↔ (o2 = o ∧ e2 = e) ∨ ∃ q2, of_owners h !! o2 = Some q2 ∧ e2 ∈ w_first q2.
Proof using Hok Ht Ho He HA Hdup Hnone.
  destruct (decide (o2 = o)) as [->|Hne].
  - rewrite lookup_insert_eq. split.
    + intros (q2 & [= <-] & [->|Hin]%elem_of_cons); [by left|right; by exists q].
    + intros [[_ ->]|(q2 & H2 & Hin)]; eexists; (split; [done|]); [by left|]. right. congruence.
  - rewrite lookup_insert_ne by done. naive_solver.
Qed.
Lemma other_desc q2 e2 x2 : of_owners h !! o = Some q2 → e2 ∈ w_first q2 → of_entries h !! e2 = Some x2 → of_files h !! n_fd x2 ≠ Some d.
Proof using Hok Ht Ho He HA Hdup Hnone.
  intros H2 Hin Hx Hd. destruct (proj2 (ok_listed _ _ _ Hok e2)) as [l Hl]; [eauto|].
  assert (F !! (o, d) = Some l) by (apply Ht; by exists q2, e2, x2). congruence.
Qed.
Lemma new_entry_inv : ofd_ok h1 (<[e := []]> A) held.
Proof using Hok Ht Ho He HA Hdup Hnone.
  split; cbn.
  - by apply (rep_new_queue (of_ro h) A e 0), HA; apply Hok.
  - intros e2. destruct (decide (e2 = e)) as [->|Hne]; [by rewrite !lookup_insert_eq|]. rewrite !lookup_insert_ne by done.
    pose proof (ok_entry _ _ _ Hok e2) as H. destruct (of_entries h !! e2) as [x2|] eqn:H2; [|done]. by rewrite (proj2 (entry_files e2 x2 H2)).
  - intros e1 e2 x1 x2. rewrite !lookup_insert_Some. intros [[<- <-]|[_ H1]] [[<- <-]|[_ H2]]; cbn; [done| | |by apply (ok_fd _ _ _ Hok)]; intros E.
    + by destruct (entry_files e2 x2 H2).
    + by destruct (entry_files e1 x1 H1).
  - intros o2 q2 H2. assert (∀ q3, of_owners h !! o2 = Some q3 → turns (<[e := []]> A) <$> w_first q3 = turns A <$> w_first q3) as Hturn.
    { intros q3 H3. apply list_fmap_ext. intros i y Hy%list_elem_of_lookup_2. rewrite turns_insert, decide_False; [done|]. intros ->. by apply (entry_new o2 q3). }
    apply lookup_insert_Some in H2 as [[<- <-]|[Hne H2]]; [|rewrite (Hturn q2) by done; by apply (ok_owner _ _ _ Hok)]. destruct (ok_owner _ _ _ Hok o q Ho) as (Hnd & Hrefs & Hb).
    split_and!; [apply NoDup_cons; split; [by apply (entry_new o)|done]| |apply Hb..]. cbn [w_first]. rewrite fmap_cons, (Hturn q) by done. rewrite turns_insert, decide_True by done. exact Hrefs.
  - intros e2. rewrite lookup_insert_is_Some, (ok_listed _ _ _ Hok e2). pose proof member_iff as Hm. split.
    + intros [<-|[_ (o2 & Hin)]]; [exists o|exists o2]; apply Hm; eauto.
    + intros (o2 & [[_ ->]|Hin]%Hm); [by left|]. destruct (decide (e = e2)); eauto.
  - intros o1 o2 q1 q2 e2 H1 H2 Hi1 Hi2. pose proof (proj1 (member_iff o1 e2) (ex_intro _ q1 (conj H1 Hi1))) as [[-> ->]|(q3 & H3 & Hi3)];
      pose proof (proj1 (member_iff o2 _) (ex_intro _ q2 (conj H2 Hi2))) as [[-> E]|(q4 & H4 & Hi4)]; [done|by destruct (entry_new _ _ H4)| |by apply (ok_unique _ _ _ Hok o1 o2 q3 q4 e2)].
    subst e2. by destruct (entry_new _ _ H3).
  - intros o2 q2 e1 e2 x1 x2 H2 Hi1 Hi2. pose proof (proj1 (member_iff o2 e1) (ex_intro _ q2 (conj H2 Hi1))) as [[-> ->]|(q3 & H3 & Hi3)];
      pose proof (proj1 (member_iff _ e2) (ex_intro _ q2 (conj H2 Hi2))) as [[E ->]|(q4 & H4 & Hi4)]; [done|..].
    + rewrite lookup_insert_eq, lookup_insert_ne by (intros <-; by destruct (entry_new _ _ H4)). intros [= <-] Hx2. cbn. rewrite lookup_insert_eq, (proj2 (entry_files e2 x2 Hx2)).
      intros E. by destruct (other_desc q4 e2 x2).
    + subst o2. rewrite lookup_insert_eq, lookup_insert_ne by (intros <-; by destruct (entry_new _ _ H3)). intros Hx1 [= <-]. cbn. rewrite lookup_insert_eq, (proj2 (entry_files e1 x1 Hx1)).
      intros E. by destruct (other_desc q3 e1 x1).
    + assert (q4 = q3) as -> by congruence. rewrite !lookup_insert_ne by (intros <-; by apply (entry_new o2 q3)). intros Hx1 Hx2. rewrite (proj2 (entry_files e1 x1 Hx1)), (proj2 (entry_files e2 x2 Hx2)).
      by apply (ok_desc _ _ _ Hok o2 q3).
  - intros p. destruct (ok_op _ _ _ Hok p) as [[H1 H2]|(o2 & e2 & q2 & l2 & H1 & H2 & H3 & H4 & H5)].
    + left. split; [done|]. intros (e2 & l2 & [[_ <-]|[_ H3]]%lookup_insert_Some & Hin); [by apply elem_of_nil in Hin|]. apply H2. by exists e2, l2.
    + right. destruct (proj2 (member_iff o2 e2)) as (q3 & H6 & H7); [eauto|]. exists o2, e2, q3, l2. rewrite (lookup_insert_ne _ e e2) by congruence. done.
Qed.
Lemma new_entry_tracks : tracks h1 (<[e := []]> A) (<[(o, d) := []]> F).
Proof using Hok Ht Ho He HA Hdup Hnone.
  intros o2 d2 l. rewrite lookup_insert_Some. unfold queue_for. cbn. split.
  - intros [[[= <- <-] <-]|[Hne (q2 & e2 & x2 & H2 & Hin & Hx & Hd & Hl)%Ht]].
    + exists (mk_orders (w_refs q) (e :: w_first q)), e, (mk_node 0 dup). rewrite !lookup_insert_eq. split_and!; [done|by left|done..].
    + destruct (proj2 (member_iff o2 e2)) as (q3 & H3 & Hi3); [eauto|]. exists q3, e2, x2. rewrite !(lookup_insert_ne _ e e2) by congruence.
      by rewrite (proj2 (entry_files e2 x2 Hx)).
  - intros (q2 & e2 & x2 & H2 & Hin & Hx & Hd & Hl). pose proof (proj1 (member_iff o2 e2) (ex_intro _ q2 (conj H2 Hin))) as [[-> ->]|(q3 & H3 & Hi3)].
    + rewrite lookup_insert_eq in Hx. rewrite lookup_insert_eq in Hl. simplify_eq. cbn in Hd. rewrite lookup_insert_eq in Hd. simplify_eq. by left.
    + assert (e2 ≠ e) by (intros ->; by apply (entry_new o2 q3)). rewrite lookup_insert_ne in Hx by done. rewrite lookup_insert_ne in Hl by done.
      rewrite (proj2 (entry_files e2 x2 Hx)) in Hd. right. split; [|apply Ht; by exists q3, e2, x2]. intros [= <- <-]. by destruct (other_desc q3 e2 x2).
Qed.
End enter.

(** A registry gets an entry without operations for the description [d] of [fd]. *)
Lemma new_entry_ok h A held F o q fd d dup env :
  ofd_ok h A held → tracks h A F → of_owners h !! o = Some q → of_files h !! fd = Some d → F !! (o, d) = None →
  be_calloc env = true → be_dup env = inl dup → of_files h !! dup = None → be_mutex env = 0 →
  ∃ h1 e, new_entry h o q fd env = (h1, inl e) ∧ ofd_ok h1 (<[e := []]> A) held ∧ tracks h1 (<[e := []]> A) (<[(o, d) := []]> F) ∧ A !! e = None
    ∧ of_owners h1 !! o = Some (mk_orders (w_refs q) (e :: w_first q)) ∧ of_entries h1 !! e = Some (mk_node 0 dup)
    ∧ of_files h1 = <[dup := d]> (of_files h) ∧ ro_signals (of_ro h1) = ro_signals (of_ro h).
Proof.
  intros Hok Ht Ho Hfd Hnone Hc Hdup Hfresh Hmutex. unfold new_entry. rewrite Hc, Hdup, Hfd, Hmutex. cbn [negb]. unfold md_resource_queue_init. cbn [Z.opp Z.eqb negb].
  set (e := fresh (dom (of_entries h))). assert (of_entries h !! e = None) as He by (apply not_elem_of_dom, is_fresh).
  pose proof (ok_entry _ _ _ Hok e) as HA. rewrite He in HA. assert (A !! e = None) as HAe by (by destruct (A !! e)).
  exists (mk_ofd (with_queues (of_ro h) (<[e := mk_queue None None]> (ro_queues (of_ro h)))) (<[o := mk_orders (w_refs q) (e :: w_first q)]> (of_owners h))
            (<[e := mk_node 0 dup]> (of_entries h)) (of_ops h) (<[dup := d]> (of_files h))), e.
  split_and!; [done|by apply (new_entry_inv h A held F o q)|by apply (new_entry_tracks h A held F o q)|done|apply lookup_insert_eq|apply lookup_insert_eq|done|done].
Qed.

(** The count of a registry changes, its entries do not. *)
Lemma owner_same h o q refs o2 q2 :
  of_owners h !! o = Some q → (<[o := mk_orders refs (w_first q)]> (of_owners h)) !! o2 = Some q2 → ∃ q3, of_owners h !! o2 = Some q3 ∧ w_first q3 = w_first q2.
Proof. intros Ho. rewrite lookup_insert_Some. intros [[<- <-]|[? ?]]; eauto. Qed.
Lemma owner_back h o q refs o2 q3 :
  of_owners h !! o = Some q → of_owners h !! o2 = Some q3 → ∃ q2, (<[o := mk_orders refs (w_first q)]> (of_owners h)) !! o2 = Some q2 ∧ w_first q2 = w_first q3.
Proof.
  intros Ho H3. destruct (decide (o2 = o)) as [->|]; [|exists q3; by rewrite lookup_insert_ne].
  exists (mk_orders refs (w_first q)). rewrite lookup_insert_eq. split; [done|]. cbn. congruence.
Qed.
Lemma owner_refs_ok h A held held' o q refs :
  ofd_ok h A held → of_owners h !! o = Some q → refs = held' o + total (turns A <$> w_first q) → 0 ≤ held' o → 1 ≤ refs ≤ UINT32_MAX →
  (∀ y, y ≠ o → held' y = held y) → ofd_ok (with_owners h (<[o := mk_orders refs (w_first q)]> (of_owners h))) A held'.
Proof.
  intros Hok Ho Hrefs Hh Hb Hne. destruct (ok_owner _ _ _ Hok o q Ho) as (Hnd & _). split; cbn; try apply Hok.
  - intros o2 q2. rewrite lookup_insert_Some. intros [[<- <-]|[H2 H3]]; [done|]. rewrite Hne by done. by apply (ok_owner _ _ _ Hok).
  - intros e. rewrite (ok_listed _ _ _ Hok e). split.
    + intros (o2 & q2 & H2 & Hin). destruct (owner_back h o q refs o2 q2 Ho H2) as (q3 & ? & Hf). exists o2, q3. by rewrite Hf.
    + intros (o2 & q2 & H2 & Hin). destruct (owner_same h o q refs o2 q2 Ho H2) as (q3 & ? & Hf). exists o2, q3. by rewrite Hf.
  - intros o1 o2 q1 q2 e H1 H2. destruct (owner_same h o q refs o1 q1 Ho H1) as (q3 & ? & <-), (owner_same h o q refs o2 q2 Ho H2) as (q4 & ? & <-). by apply (ok_unique _ _ _ Hok).
  - intros o2 q2 e1 e2 x1 x2 H2. destruct (owner_same h o q refs o2 q2 Ho H2) as (q3 & ? & <-). by apply (ok_desc _ _ _ Hok o2).
  - intros p. destruct (ok_op _ _ _ Hok p) as [?|(o2 & e2 & q2 & l2 & ? & H2 & ? & ?)]; [by left|]. right.
    destruct (owner_back h o q refs o2 q2 Ho H2) as (q3 & ? & Hf). exists o2, e2, q3, l2. by rewrite Hf.
Qed.
Lemma tracks_owner h A F o q refs :
  of_owners h !! o = Some q → tracks h A F → tracks (with_owners h (<[o := mk_orders refs (w_first q)]> (of_owners h))) A F.
Proof.
  intros Ho Ht o2 d l. rewrite (Ht o2 d l). unfold queue_for. cbn. split.
  - intros (q2 & e2 & x2 & H2 & Hin & Hr). destruct (owner_back h o q refs o2 q2 Ho H2) as (q3 & ? & Hf). exists q3, e2, x2. by rewrite Hf.
  - intros (q2 & e2 & x2 & H2 & Hin & Hr). destruct (owner_same h o q refs o2 q2 Ho H2) as (q3 & ? & Hf). exists q3, e2, x2. by rewrite Hf.
Qed.

Lemma orders_release_ok h A held F o q :
  ofd_ok h A held → settled A → tracks h A F → of_owners h !! o = Some q → 0 < held o →
  ∃ h', md_ofd_orders_release h (Some o) = Some h' ∧ ofd_ok h' A (λ y, if decide (y = o) then held y - 1 else held y) ∧ tracks h' A F
    ∧ of_ro h' = of_ro h ∧ of_files h' = of_files h.
Proof.
  intros Hok Hset Ht Ho Hpos. destruct (ok_owner _ _ _ Hok o q Ho) as (Hnd & Hrefs & _ & Hb). cbn [md_ofd_orders_release]. rewrite Ho. cbn [mbind option_bind].
  eexists. split; [done|]. set (held' := λ y, if decide (y = o) then held y - 1 else held y).
  assert (held' o = held o - 1) as Hho by (unfold held'; by rewrite decide_True). assert (∀ y, y ≠ o → held' y = held y) as Hhne by (intros; unfold held'; by rewrite decide_False).
  destruct (Z.eqb_spec (w_refs q) 1) as [H1|H1].
  - assert (w_first q = []) as Hnil.
    { destruct (w_first q) as [|e l] eqn:Ef; [done|]. exfalso. pose proof (turns_le A (e :: l) e ltac:(by left)) as Hle.
      destruct (proj2 (ok_listed _ _ _ Hok e)) as [le Hle2]; [exists o, q; rewrite Ef; split; [done|by left]|]. unfold turns at 1 in Hle. rewrite Hle2 in Hle. cbn [from_option id] in Hle.
      destruct le; [by apply (Hset e [])|]. cbn [length] in Hle. lia. }
    assert (∀ o2 q2 e2, of_owners h !! o2 = Some q2 → e2 ∈ w_first q2 → o2 ≠ o) as Hlive.
    { intros o2 q2 e2 H2 Hin ->. assert (q2 = q) as -> by congruence. rewrite Hnil in Hin. by apply elem_of_nil in Hin. }
    split_and!; [|intros o2 d l; rewrite (Ht o2 d l); unfold queue_for; cbn|done|done].
    + split; cbn; try apply Hok.
      * intros o2 q2 [Hne H2]%lookup_delete_Some. rewrite Hhne by done. by apply (ok_owner _ _ _ Hok).
      * intros e. rewrite (ok_listed _ _ _ Hok e). split; intros (o2 & q2 & H2 & Hin); exists o2, q2; (split; [|done]); [rewrite lookup_delete_ne; [done|]; symmetry; by eapply Hlive|by apply lookup_delete_Some in H2 as [_ ?]].
      * intros o1 o2 q1 q2 e [_ ?]%lookup_delete_Some [_ ?]%lookup_delete_Some. by eapply (ok_unique _ _ _ Hok o1 o2 q1 q2 e).
      * intros o2 q2 e1 e2 x1 x2 [_ ?]%lookup_delete_Some. by apply (ok_desc _ _ _ Hok o2 q2).
      * intros p. destruct (ok_op _ _ _ Hok p) as [?|(o2 & e2 & q2 & l2 & ? & ? & ? & ?)]; [by left|]. right. exists o2, e2, q2, l2.
        split_and!; try done; [|naive_solver..]. rewrite lookup_delete_ne; [done|]. symmetry. by eapply Hlive.
    + split; intros (q2 & e2 & x2 & H2 & Hin & Hr); exists q2, e2, x2; (split; [|done]); [rewrite lookup_delete_ne; [done|]; symmetry; by eapply Hlive|by apply lookup_delete_Some in H2 as [_ ?]].
  - rewrite wrap32_small by lia. split_and!; [|by apply (tracks_owner _ _ _ o q)|done|done]. by apply (owner_refs_ok h A held); try lia.
Qed.

(** The entry [e], which has no operations left, leaves the registry [o]. *)
Section leave.
Context (h : ofd_heap) (A : gmap loc (list entry)) (held : loc → Z) (F : gmap (loc * Z) (list entry)) (o : loc) (q : md_ofd_orders) (e : loc) (x : md_ofd_entry) (d : Z) (first : list loc).
Context (Hok : ofd_ok h A held) (Ht : tracks h A F) (Ho : of_owners h !! o = Some q) (He : of_entries h !! e = Some x) (HA : A !! e = Some []).
Context (Hd : of_files h !! n_fd x = Some d) (Hfirst : w_first q ≡ₚ e :: first).
Local Notation owners := (<[o := mk_orders (w_refs q) first]> (of_owners h)).
Local Notation h1 := (mk_ofd (md_resource_queue_destroy (of_ro h) e) owners (delete e (of_entries h)) (of_ops h) (delete (n_fd x) (of_files h))).

Lemma member_here : e ∈ w_first q.
Proof using Hfirst. rewrite Hfirst. by left. Qed.
Lemma member_left o2 e2 : (∃ q2, owners !! o2 = Some q2 ∧ e2 ∈ w_first q2) ↔ e2 ≠ e ∧ ∃ q2, of_owners h !! o2 = Some q2 ∧ e2 ∈ w_first q2.
Proof using Hok Ho Hfirst.
  clear Ht Hd. destruct (ok_owner _ _ _ Hok o q Ho) as (Hnd & _). rewrite Hfirst in Hnd. apply NoDup_cons in Hnd as [Hnot _]. destruct (decide (o2 = o)) as [->|Hne].
  - rewrite lookup_insert_eq. split.
    + intros (q2 & [= <-] & Hin). cbn in Hin. split; [by intros ->|]. exists q. split; [done|]. rewrite Hfirst. by right.
    + intros (Hne & q2 & H2 & Hin). eexists. split; [done|]. cbn. assert (q2 = q) as -> by congruence. rewrite Hfirst in Hin. by apply elem_of_cons in Hin as [?|?].
  - rewrite lookup_insert_ne by done. split; [|naive_solver]. intros (q2 & H2 & Hin). split; [|by exists q2]. intros ->. by apply Hne, (ok_unique _ _ _ Hok o2 o q2 q e), member_here.
Qed.
Lemma left_files e2 x2 : e2 ≠ e → of_entries h !! e2 = Some x2 → delete (n_fd x) (of_files h) !! n_fd x2 = of_files h !! n_fd x2.
Proof using Hok He. intros Hne H2. rewrite lookup_delete_ne; [done|]. intros E. by apply Hne, (ok_fd _ _ _ Hok e2 e x2 x). Qed.
Lemma old_member o2 q2 e2 : owners !! o2 = Some q2 → e2 ∈ w_first q2 → e2 ≠ e ∧ ∃ q3, of_owners h !! o2 = Some q3 ∧ e2 ∈ w_first q3.
Proof using Hok Ho Hfirst. clear Ht Hd. intros H1 H2. apply member_left. by exists q2. Qed.
Lemma leave_inv : ofd_ok h1 (delete e A) held.
Proof using Hok Ho He HA Hfirst.
  clear Ht Hd. split; cbn.
  - by apply rep_drop_queue; [apply Hok|].
  - intros e2. destruct (decide (e2 = e)) as [->|Hne]; [by rewrite !lookup_delete_eq|]. rewrite !(lookup_delete_ne _ e e2) by done.
    pose proof (ok_entry _ _ _ Hok e2) as H. destruct (of_entries h !! e2) as [x2|] eqn:H2; [|done]. by rewrite left_files with e2 x2.
  - intros e1 e2 x1 x2 [_ H1]%lookup_delete_Some [_ H2]%lookup_delete_Some. by apply (ok_fd _ _ _ Hok).
  - intros o2 q2 H2. assert (∀ l : list loc, e ∉ l → turns (delete e A) <$> l = turns A <$> l) as Hturn.
    { intros l Hnot. apply list_fmap_ext. intros i y Hy%list_elem_of_lookup_2. unfold turns. rewrite lookup_delete_ne; [done|]. by intros ->. }
    rewrite Hturn by (intros Hin; by destruct (old_member o2 q2 e)). apply lookup_insert_Some in H2 as [[<- <-]|[Hne H2]]; [|by apply (ok_owner _ _ _ Hok)].
    destruct (ok_owner _ _ _ Hok o q Ho) as (Hnd & Hrefs & Hb). rewrite Hfirst in Hnd. rewrite Hfirst in Hrefs. apply NoDup_cons in Hnd as [_ Hnd].
    split_and!; [done| |apply Hb..]. rewrite fmap_cons in Hrefs. cbn in Hrefs. unfold turns at 1 in Hrefs. rewrite HA in Hrefs. exact Hrefs.
  - intros e2. rewrite lookup_delete_is_Some, (ok_listed _ _ _ Hok e2). setoid_rewrite member_left. naive_solver.
  - intros o1 o2 q1 q2 e2 H1 H2 Hi1 Hi2. destruct (old_member o1 q1 e2 H1 Hi1) as (_ & q3 & ? & ?), (old_member o2 q2 e2 H2 Hi2) as (_ & q4 & ? & ?). by apply (ok_unique _ _ _ Hok o1 o2 q3 q4 e2).
  - intros o2 q2 e1 e2 x1 x2 H2 Hi1 Hi2 [_ Hx1]%lookup_delete_Some [_ Hx2]%lookup_delete_Some. destruct (old_member o2 q2 e1 H2 Hi1) as (? & q3 & ? & ?), (old_member o2 q2 e2 H2 Hi2) as (? & q4 & ? & ?).
    rewrite (left_files e1 x1), (left_files e2 x2) by done. assert (q4 = q3) as -> by congruence. by apply (ok_desc _ _ _ Hok o2 q3).
  - intros p. destruct (ok_op _ _ _ Hok p) as [[H1 H2]|(o2 & e2 & q2 & l2 & H1 & H2 & H3 & H4 & H5)].
    + left. split; [done|]. intros (e2 & l2 & [_ H3]%lookup_delete_Some & Hin). apply H2. by exists e2, l2.
    + right. assert (e2 ≠ e) by (intros ->; assert (l2 = []) as -> by congruence; by apply elem_of_nil in H5).
      destruct (proj2 (member_left o2 e2)) as (q3 & H6 & H7); [eauto|]. exists o2, e2, q3, l2. by rewrite (lookup_delete_ne _ e e2).
Qed.
Lemma leave_tracks : tracks h1 (delete e A) (delete (o, d) F).
Proof using Hok Ht Ho He HA Hd Hfirst.
  intros o2 d2 l. rewrite lookup_delete_Some. unfold queue_for. cbn. split.
  - intros [Hne (q2 & e2 & x2 & H2 & Hin & Hx & Hd2 & Hl)%Ht]. assert (e2 ≠ e) as Hne2.
    { intros ->. apply Hne. rewrite (ok_unique _ _ _ Hok o o2 q q2 e) by (done || apply member_here). f_equal. congruence. }
    destruct (proj2 (member_left o2 e2)) as (q3 & H3 & Hi3); [eauto|]. exists q3, e2, x2. by rewrite !(lookup_delete_ne _ e e2), (left_files e2 x2).
  - intros (q2 & e2 & x2 & H2 & Hin & [_ Hx]%lookup_delete_Some & Hd2 & [_ Hl]%lookup_delete_Some). destruct (old_member o2 q2 e2 H2 Hin) as (Hne & q3 & H3 & Hi3).
    rewrite (left_files e2 x2) in Hd2 by done. split; [|apply Ht; by exists q3, e2, x2]. intros [= <- <-]. apply Hne. assert (q3 = q) as -> by congruence.
    apply (ok_desc _ _ _ Hok o q e2 e x2 x); [done..|apply member_here|done|done|congruence].
Qed.
End leave.

Lemma ofd_ok_held h A held held' : (∀ o, held o = held' o) → ofd_ok h A held → ofd_ok h A held'.
Proof. intros E Hok. split; try apply Hok. intros o q Hq. rewrite <- E. by apply (ok_owner _ _ _ Hok). Qed.

(** The reference of an operation counts as a client's while it is given back. *)
Definition one_more (held : loc → Z) (o y : loc) : Z := if decide (y = o) then held y + 1 else held y.
Lemma release_turn h A held F o q :
  ofd_ok h A (one_more held o) → settled A → tracks h A F → of_owners h !! o = Some q → 0 ≤ held o →
  ∃ h', md_ofd_orders_release h (Some o) = Some h' ∧ ofd_ok h' A held ∧ tracks h' A F ∧ of_ro h' = of_ro h.
Proof.
  intros Hok Hset Ht Ho Hpos. destruct (orders_release_ok h A (one_more held o) F o q) as (h' & Hrun & Hok' & Ht' & Hro' & _); [done..| |].
  { unfold one_more. rewrite decide_True by done. lia. }
  exists h'. split_and!; [done| |done..]. eapply ofd_ok_held; [|exact Hok']. intros y. unfold one_more. cbn. case_decide; lia.
Qed.

(** Dropping an operation that left its queue: the entry goes with its last operation. *)
Lemma drop_op_ok h A held F o q e x d l l' p ro :
  ofd_ok h A held → settled A → tracks h A F → of_owners h !! o = Some q → e ∈ w_first q → of_entries h !! e = Some x → of_files h !! n_fd x = Some d →
  A !! e = Some l → op_at h p = mk_op (Some o) (Some e) → ro_rep ro (<[e := l']> A) → o_queue (order_at ro p) = None →
  (∀ p', p' ≠ p → p' ∈ ops l' ↔ p' ∈ ops l) → p ∉ ops l' → length l = S (length l') →
  ∃ h' A', drop_op (with_ro h ro) p = Some h' ∧ ofd_ok h' A' held ∧ settled A' ∧ tracks h' A' (put (o, d) l' F) ∧ ro_signals (of_ro h') = ro_signals ro.
Proof.
  intros Hok Hset Ht Ho He Hx Hd Hl Hop Hro Hq Hother Hnot Hlen. destruct (ok_owner _ _ _ Hok o q Ho) as (Hnd & Hrefs & Hheld & Hb).
  pose proof (ok_entry _ _ _ Hok e) as Hent. rewrite Hx, Hl in Hent. destruct Hent as [Hn _]. pose proof (turns_le A (w_first q) e He) as Hle. unfold turns at 1 in Hle. rewrite Hl in Hle.
  assert (∀ e2 l2, e2 ≠ e → A !! e2 = Some l2 → p ∉ ops l2) as Hp.
  { intros e2 l2 Hne H2 Hin. destruct (ok_op _ _ _ Hok p) as [[E _]|(o3 & e3 & q3 & l3 & E & _ & _ & H3 & Hin3)]; rewrite Hop in E; [done|]. injection E as <- <-.
    by apply Hne, (rep_unique (of_ro h) A p e2 e l2 l3); [apply Hok|..]. }
  set (held1 := one_more held o). set (ro1 := with_orders ro (<[p := idle_order]> (ro_orders ro))).
  set (h1 := mk_ofd ro1 (<[o := mk_orders (w_refs q) (w_first q)]> (of_owners h)) (<[e := mk_node (Z.of_nat (length l')) (n_fd x)]> (of_entries h)) (<[p := no_op]> (of_ops h)) (of_files h)).
  cbn [from_option id length] in Hle. rewrite Hlen in Hle. assert (held1 o = held o + 1) as Hh1 by (unfold held1, one_more; by rewrite decide_True).
  assert (ofd_ok h1 (<[e := l']> A) held1) as Hok1.
  { apply (ofd_update h A held o q e x l l' p); try done; try lia; [by apply rep_clear|by left|]. intros y Hy. unfold held1, one_more. by rewrite decide_False. }
  assert (tracks h1 (<[e := l']> A) (<[(o, d) := l']> F)) as Ht1 by (by apply (tracks_update h A held F o q e x d l)).
  unfold drop_op. change (op_at (with_ro h ro) p) with (op_at h p). rewrite Hop. cbn [op_owner op_entry mbind option_bind of_owners of_entries with_ro]. rewrite Ho.
  cbn [mbind option_bind]. rewrite Hx. cbn [mbind option_bind]. rewrite Hn, Hlen, wrap32_small by lia. replace (Z.of_nat (S (length l')) - 1) with (Z.of_nat (length l')) by lia.
  destruct l' as [|y l'].
  - cbn [length Z.of_nat Z.eqb]. destruct (unlink_spec e (w_first q) He) as (first & -> & Hperm). cbn [mbind option_bind].
    assert (A !! e ≠ None) by congruence. pose proof (leave_inv h1 (<[e := []]> A) held1 o (mk_orders (w_refs q) (w_first q)) e (mk_node 0 (n_fd x)) first) as Hok2.
    pose proof (leave_tracks h1 (<[e := []]> A) held1 (<[(o, d) := []]> F) o (mk_orders (w_refs q) (w_first q)) e (mk_node 0 (n_fd x)) d first) as Ht2.
    unfold h1 in Hok2, Ht2. cbn [of_ro of_owners of_entries of_ops of_files w_refs w_first n_fd] in Hok2, Ht2. rewrite !insert_insert_eq, !delete_insert_eq in Hok2. rewrite !insert_insert_eq, !delete_insert_eq in Ht2.
    edestruct release_turn as (h' & Hrun & Hok' & Ht' & Hro').
    + apply Hok2; try apply lookup_insert_eq; try done.
    + intros e2 l2 [_ H2]%lookup_delete_Some. by apply (Hset e2).
    + apply Ht2; try apply lookup_insert_eq; done.
    + apply lookup_insert_eq.
    + done.
    + exists h', (delete e A). split_and!; [exact Hrun|done| |done|by rewrite Hro']. intros e2 l2 [_ H2]%lookup_delete_Some. by apply (Hset e2).
  - assert ((Z.of_nat (length (y :: l')) =? 0) = false) as -> by done. cbn [mbind option_bind]. assert (settled (<[e := y :: l']> A)) as Hset1.
    { intros e2 l2 [[_ <-]|[_ H2]]%lookup_insert_Some; [done|by apply (Hset e2)]. }
    destruct (release_turn h1 (<[e := y :: l']> A) held (<[(o, d) := y :: l']> F) o (mk_orders (w_refs q) (w_first q))) as (h' & Hrun & Hok' & Ht' & Hro'); [done..|apply lookup_insert_eq|done|].
    exists h', (<[e := y :: l']> A). split_and!; [|done..|by rewrite Hro']. rewrite <- Hrun. unfold h1. rewrite (insert_id (of_owners h) o); [done|]. rewrite Ho. by destruct q.
Qed.

(** A step of an operation in a queue is a step of that queue, and the operation
    stays in it or leaves it. *)
Definition leaves (op : ro_op) (p : loc) (l l' : list entry) : Prop := op ≠ Start p ∧ ops l ≡ₚ p :: ops l'.
Lemma leaves_mid op p l1 s v l2 : op ≠ Start p → leaves op p (l1 ++ mk_entry p s v :: l2) (handover l1 l2).
Proof. intros H. split; [done|]. rewrite handover_ops, ops_app. cbn. by rewrite Permutation_middle. Qed.
Lemma fifo_local A op p r w A' e l :
  op ∈ [Start p; Cancel p; Complete p] → fifo_step A op r w A' → A !! e = Some l → p ∈ ops l →
  (∀ e2 l2, A !! e2 = Some l2 → p ∈ ops l2 → e2 = e) →
  ∃ l', A' = <[e := l']> A ∧ queue_step l op r w l' ∧ (ops l' = ops l ∨ leaves op p l l').
Proof.
  intros Hop Hs Hl Hp Hu. assert (∀ l2 s v, mk_entry p s v ∈ l2 → p ∈ ops l2) as Hin by (intros l2 s v H; apply list_elem_of_fmap; by exists (mk_entry p s v)).
  assert (∀ e2 l1 s v l2, A !! e2 = Some (l1 ++ mk_entry p s v :: l2) → e2 = e ∧ l = l1 ++ mk_entry p s v :: l2) as Hwhere.
  { intros e2 l1 s v l2 H2. assert (e2 = e) as -> by (apply (Hu _ _ H2), ops_mid; auto). split; [done|congruence]. }
  assert (∀ e2 l2 s v, A !! e2 = Some l2 → mk_entry p s v ∈ l2 → l2 = l) as Hthere.
  { intros e2 l2 s v H2 H3. assert (e2 = e) as -> by (by eapply Hu, Hin). congruence. }
  assert (∀ l', fifo_step {[1%positive := l]} op r w (<[1%positive := l']> {[1%positive := l]}) → queue_step l op r w l') as Hone.
  { intros l'. by rewrite insert_singleton. }
  destruct Hs as [| |q p' v l2 H|q l2 p' s v H1 H2 H3|op' p' H Hq| | | |q p' s v l2 H1 H2|q l1 p' s v l2 r H1 H2|q p' s v l2 r H1 H2|q l2 p' s v H1 H2 H3].
  5: { exfalso. apply Hq. exists e, l. split; [done|]. rewrite !elem_of_cons, elem_of_nil in H, Hop. naive_solver. }
  all: rewrite !elem_of_cons, elem_of_nil in Hop; destruct Hop as [E|[E|[E|[]]]]; simplify_eq.
  - apply (Hwhere q []) in H as [-> ->]. eexists. split; [done|]. split; [|by left]. apply Hone. eapply fifo_start, lookup_singleton_eq.
  - apply (Hthere q) in H2 as E; [subst l2|done]. exists l. rewrite insert_id by done. split_and!; [done| |by left]. eapply fifo_start_early; [apply lookup_singleton_eq|done..].
  - apply (Hwhere q []) in H1 as [-> ->]. eexists. split; [done|]. split; [|by left]. apply Hone. eapply fifo_cancel_running, H2. apply lookup_singleton_eq.
  - apply Hwhere in H1 as [-> ->]. eexists. split; [done|]. split; [|right; by apply leaves_mid]. apply Hone. eapply fifo_cancel, H2. apply lookup_singleton_eq.
  - apply (Hwhere q []) in H1 as [-> ->]. eexists. split; [done|]. split; [|right; by apply (leaves_mid _ _ [])]. apply Hone. eapply fifo_complete, H2. apply lookup_singleton_eq.
  - apply (Hthere q) in H2 as E; [subst l2|done]. exists l. rewrite insert_id by done. split_and!; [done| |by left]. eapply fifo_complete_early; [apply lookup_singleton_eq|done..].
Qed.

Lemma busy_where h A held p :
  ofd_ok h A held → queued A p →
  ∃ o e q x d l, op_at h p = mk_op (Some o) (Some e) ∧ of_owners h !! o = Some q ∧ e ∈ w_first q ∧ of_entries h !! e = Some x
    ∧ of_files h !! n_fd x = Some d ∧ A !! e = Some l ∧ p ∈ ops l.
Proof.
  intros Hok Hq. destruct (ok_op _ _ _ Hok p) as [[_ ?]|(o & e & q & l & Hop & Ho & He & Hl & Hp)]; [done|].
  pose proof (ok_entry _ _ _ Hok e) as Hent. rewrite Hl in Hent. destruct (of_entries h !! e) as [x|] eqn:Hx; [|done]. destruct Hent as [_ [d Hd]]. by exists o, e, q, x, d, l.
Qed.
Lemma busy_queued h A held F p : ofd_ok h A held → tracks h A F → busy F p ↔ queued A p.
Proof.
  intros Hok Ht. split.
  - intros ([o d] & l & (q & e & x & _ & _ & _ & _ & Hl)%Ht & Hp). by exists e, l.
  - intros (o & e & q & x & d & l & Hop & Ho & He & Hx & Hd & Hl & Hp)%(busy_where h A held); [|done]. exists (o, d), l. split; [|done]. apply Ht. by exists q, e, x.
Qed.
(** An operation stays in its queue: nothing but the queues changes. *)
Lemma stay_ok h A held F o q e x d l l' p ro :
  ofd_ok h A held → tracks h A F → of_owners h !! o = Some q → e ∈ w_first q → of_entries h !! e = Some x → of_files h !! n_fd x = Some d →
  A !! e = Some l → op_at h p = mk_op (Some o) (Some e) → p ∈ ops l → ro_rep ro (<[e := l']> A) → ops l' = ops l →
  ofd_ok (with_ro h ro) (<[e := l']> A) held ∧ tracks (with_ro h ro) (<[e := l']> A) (<[(o, d) := l']> F).
Proof.
  intros Hok Ht Ho He Hx Hd Hl Hop Hp Hro Hops. destruct (ok_owner _ _ _ Hok o q Ho) as (_ & Hrefs & Hheld & Hb).
  pose proof (ok_entry _ _ _ Hok e) as Hent. rewrite Hx, Hl in Hent. destruct Hent as [Hn _].
  assert (length l' = length l) as Hlen by (apply (f_equal length) in Hops; unfold ops in Hops; by rewrite !length_fmap in Hops).
  assert (with_ro h ro = mk_ofd ro (<[o := mk_orders (w_refs q) (w_first q)]> (of_owners h)) (<[e := mk_node (Z.of_nat (length l')) (n_fd x)]> (of_entries h))
            (<[p := mk_op (Some o) (Some e)]> (of_ops h)) (of_files h)) as ->.
  { unfold with_ro. f_equal; symmetry; apply insert_id.
    - rewrite Ho. by destruct q.
    - rewrite Hlen, <- Hn, Hx. by destruct x.
    - unfold op_at in Hop. destruct (of_ops h !! p) as [v|]; cbn in Hop; [by rewrite Hop|done]. }
  split; [|by apply (tracks_update h A held F o q e x d l)]. apply (ofd_update h A held o q e x l l' p); try done; try lia.
  - intros p' _. by rewrite Hops.
  - intros e2 l2 Hne H2 Hin. by apply Hne, (rep_unique (of_ro h) A p e2 e l2 l); [apply Hok|..].
  - right. by rewrite Hops.
Qed.
Lemma queue_op_ok h A held F p rop write ro r :
  rop ∈ [Start p; Cancel p; Complete p] → ofd_ok h A held → settled A → tracks h A F → queued A p → ro_run (of_ro h) rop write = (ro, r) →
  ∃ k l w l' h' A', F !! k = Some l ∧ p ∈ ops l ∧ queue_step l rop r w l' ∧ (rop = Start p → o_queue (order_at ro p) ≠ None)
    ∧ (if bool_decide (o_queue (order_at ro p) = None) then drop_op (with_ro h ro) p else Some (with_ro h ro)) = Some h'
    ∧ ofd_ok h' A' held ∧ settled A' ∧ tracks h' A' (put k l' F) ∧ ro_signals (of_ro h') = ro_signals (of_ro h) ++ option_list w.
Proof.
  intros Hop Hok Hset Ht Hq Hrun. destruct (busy_where h A held p Hok Hq) as (o & e & q & x & d & l & Hp & Ho & He & Hx & Hd & Hl & Hin).
  destruct (ro_step (of_ro h) A rop write ro r) as (A' & w & Hs & Hro & Hsig); [apply Hok| |done|].
  { rewrite !elem_of_cons, elem_of_nil in Hop. by destruct Hop as [->|[->|[->|[]]]]. }
  pose proof (qr_nodup _ _ _ (rep_queue _ _ (ok_rep _ _ _ Hok) e l Hl)) as Hnd.
  destruct (fifo_local A rop p r w A' e l Hop Hs Hl Hin) as (l' & -> & Hstep & Hcase).
  { intros e2 l2 H2 H3. by apply (rep_unique (of_ro h) A p e2 e l2 l); [apply Hok|..]. }
  exists (o, d), l, w, l'. assert (F !! (o, d) = Some l) as HF by (apply Ht; by exists q, e, x). destruct Hcase as [Hsame|[Hns Hperm]].
  - assert (o_queue (order_at ro p) ≠ None) as Hnn.
    { intros E. destruct (rep_order_idle _ _ _ Hro E) as [_ Hnq]. apply Hnq. exists e, l'. rewrite lookup_insert_eq. split; [done|]. by rewrite Hsame. }
    destruct (stay_ok h A held F o q e x d l l' p ro) as [Hok' Ht']; [done..|]. exists (with_ro h ro), (<[e := l']> A). rewrite bool_decide_eq_false_2 by done.
    split_and!; [done..| | |done].
    + intros e2 l2 [[_ <-]|[_ H2]]%lookup_insert_Some; [|by apply (Hset e2)]. intros ->. destruct l; [|done]. by apply elem_of_nil in Hin.
    + unfold put. destruct l'; [|done]. destruct l; [by apply elem_of_nil in Hin|done].
  - rewrite Hperm in Hnd. apply NoDup_cons in Hnd as [Hnot _]. assert (o_queue (order_at ro p) = None) as Hnone.
    { destruct (o_queue (order_at ro p)) as [e2|] eqn:E; [|done]. destruct (rep_entry _ _ _ _ Hro E) as (l1 & s & v & l2 & H2 & _).
      apply lookup_insert_Some in H2 as [[<- ->]|[Hne H2]]; [by destruct Hnot; apply ops_mid; auto|].
      destruct Hne. symmetry. apply (rep_unique (of_ro h) A p e2 e (l1 ++ mk_entry p s v :: l2) l); [apply Hok|done|done|apply ops_mid; auto|done]. }
    destruct (drop_op_ok h A held F o q e x d l l' p ro) as (h' & A' & Hdrop & Hok' & Hset' & Ht' & Hsig'); try done.
    + intros p' Hne. rewrite Hperm, elem_of_cons. naive_solver.
    + apply Permutation_length in Hperm. unfold ops in Hperm. cbn in Hperm. by rewrite !length_fmap in Hperm.
    + exists h', A'. rewrite bool_decide_eq_true_2 by done. split_and!; try done. by rewrite Hsig'.
Qed.

(** The search compares open descriptions. *)
Lemma find_entry_list h errno fd d l :
  of_files h !! fd = Some d → (∀ e, e ∈ l → ∃ x c, of_entries h !! e = Some x ∧ of_files h !! n_fd x = Some c) →
  (errno ≠ 0 ∧ find_entry h errno fd l = Some (inr (- errno)))
  ∨ (∃ e x, find_entry h errno fd l = Some (inl (Some e)) ∧ e ∈ l ∧ of_entries h !! e = Some x ∧ of_files h !! n_fd x = Some d)
  ∨ (find_entry h errno fd l = Some (inl None) ∧ ∀ e x, e ∈ l → of_entries h !! e = Some x → of_files h !! n_fd x ≠ Some d).
Proof.
  intros Hd. induction l as [|e l IH]; intros Hl; [right; right; split; [done|]; by intros e x ?%elem_of_nil|].
  destruct (Hl e) as (x & c & Hx & Hc); [by left|]. cbn [find_entry]. rewrite Hx. cbn [mbind option_bind]. unfold kcmp. rewrite Hd, Hc.
  destruct (Z.eqb_spec errno 0) as [->|Hne]; cbn [negb]; [|by left]. destruct (Z.eqb_spec d c) as [->|Hdc]; cbn [Z.eqb].
  - right. left. exists e, x. split_and!; [done|by left|done..].
  - destruct IH as [[? ?]|[(e2 & x2 & ? & ? & ?)|[? Hno]]]; [intros; apply Hl; by right|done| |].
    + right. left. exists e2, x2. split_and!; [done|by right|naive_solver..].
    + right. right. split; [done|]. intros e2 x2 [->|Hin]%elem_of_cons H2; [congruence|by apply (Hno e2)].
Qed.
Lemma find_entry_ok h A held F o q errno fd d :
  ofd_ok h A held → tracks h A F → of_owners h !! o = Some q → of_files h !! fd = Some d →
  (errno ≠ 0 ∧ find_entry h errno fd (w_first q) = Some (inr (- errno)))
  ∨ (∃ e x l, find_entry h errno fd (w_first q) = Some (inl (Some e)) ∧ e ∈ w_first q ∧ of_entries h !! e = Some x ∧ of_files h !! n_fd x = Some d ∧ A !! e = Some l ∧ F !! (o, d) = Some l)
  ∨ (find_entry h errno fd (w_first q) = Some (inl None) ∧ F !! (o, d) = None).
Proof.
  intros Hok Ht Ho Hd. assert (∀ e, e ∈ w_first q → ∃ x c l, of_entries h !! e = Some x ∧ of_files h !! n_fd x = Some c ∧ A !! e = Some l) as Hall.
  { intros e He. destruct (proj2 (ok_listed _ _ _ Hok e)) as [l Hl]; [eauto|]. pose proof (ok_entry _ _ _ Hok e) as H. rewrite Hl in H.
    destruct (of_entries h !! e) as [x|]; [|done]. destruct H as [_ [c Hc]]. by exists x, c, l. }
  destruct (find_entry_list h errno fd d (w_first q) Hd) as [?|[(e & x & Hf & He & Hx & Hc)|[Hf Hno]]]; [naive_solver|by left| |].
  - right. left. destruct (Hall e He) as (x2 & c & l & ? & ? & Hl). exists e, x, l. split_and!; try done. apply Ht. by exists q, e, x.
  - right. right. split; [done|]. destruct (F !! (o, d)) as [l|] eqn:E; [|done]. apply Ht in E as (q2 & e & x & H2 & He & Hx & Hc & _). assert (q2 = q) as -> by congruence. by destruct (Hno e x).
Qed.

(** The registry lives and can take a reference, the descriptor is open, a new
    descriptor is unused, errors are positive. *)
Definition ofd_allowed (h : ofd_heap) (op : ofd_op) : Prop :=
  match op with
  | OBegin o fd reserve p wake env =>
      (∃ q, of_owners h !! o = Some q ∧ w_refs q < UINT32_MAX) ∧ (0 ≤ fd → is_Some (of_files h !! fd)) ∧ 0 ≤ be_kcmp env ∧ 0 ≤ be_mutex env
      ∧ match be_dup env with inl dup => of_files h !! dup = None | inr e => 0 < e end
  | _ => True
  end.
Lemma settled_records A e l : settled A → l ≠ [] → settled (<[e := l]> A).
Proof. intros Hset Hl e2 l2 [[_ <-]|[_ H2]]%lookup_insert_Some; [done|by apply (Hset e2)]. Qed.
Lemma put_snoc k l v F : put k (l ++ [v]) F = <[k := l ++ [v]]> F.
Proof. by destruct l. Qed.

Lemma begin_new_ok h A held F o q fd d p wake env :
  ofd_ok h A held → settled A → tracks h A F → of_owners h !! o = Some q → w_refs q < UINT32_MAX → of_files h !! fd = Some d → F !! (o, d) = None → ¬ busy F p → ¬ queued A p →
  0 ≤ be_mutex env → match be_dup env with inl dup => of_files h !! dup = None | inr e => 0 < e end →
  ∃ h' r F' A', (match new_entry h o q fd env with (h, inr error) => Some (h, error) | (h, inl e) => take_turn h o e p wake end) = Some (h', r)
    ∧ ofd_step (of_files h) F (OBegin o fd 1 p wake env) r None F' ∧ ofd_ok h' A' held ∧ settled A' ∧ tracks h' A' F' ∧ ro_signals (of_ro h') = ro_signals (of_ro h).
Proof.
  intros Hok Hset Ht Ho Hroom Hd HF Hnb Hnq Hmutex Hdup.
  assert ((∃ dup, be_calloc env = true ∧ be_dup env = inl dup ∧ be_mutex env = 0) ∨ ∃ r, new_entry h o q fd env = (h, inr r) ∧ r < 0
    ∧ (be_kcmp env ≠ 0 ∨ be_calloc env = false ∨ (∃ e, be_dup env = inr e) ∨ be_mutex env ≠ 0)) as [(dup & Hc & Hi & Hm)|(r & Hnew & Hr & Hwhy)].
  { unfold new_entry. destruct (be_calloc env); cbn [negb]; [|right; exists (- ENOMEM); split_and!; [done|done|auto]]. destruct (be_dup env) as [dup|e] eqn:Edup; [|right; exists (- e); split_and!; [done|lia|eauto]].
    destruct (Z.eqb_spec (be_mutex env) 0) as [E|E]; [left; by exists dup|]. right. unfold md_resource_queue_init. exists (- be_mutex env).
    assert ((- be_mutex env =? 0) = false) as -> by lia. cbn [negb]. split_and!; [done|lia|auto]. }
  - rewrite Hi in Hdup. destruct (new_entry_ok h A held F o q fd d dup env) as (h1 & e & -> & Hok1 & Ht1 & HA & Ho1 & He1 & Hf1 & Hs1); [done..|].
    destruct (take_turn_ok h1 (<[e := []]> A) held (<[(o, d) := []]> F) o (mk_orders (w_refs q) (e :: w_first q)) e (mk_node 0 dup) d [] p wake) as (h' & -> & Hok' & Ht' & Hsig & _); try done.
    + by left.
    + cbn. by rewrite Hf1, lookup_insert_eq.
    + apply lookup_insert_eq.
    + intros (e2 & l2 & [[_ <-]|[_ H2]]%lookup_insert_Some & Hin); [by apply elem_of_nil in Hin|]. apply Hnq. by exists e2, l2.
    + rewrite insert_insert_eq in Hok', Ht'. rewrite insert_insert_eq in Ht'. eexists h', _, _, _. split_and!; [done| |exact Hok'|by apply settled_records|exact Ht'|by rewrite Hsig].
      apply (ofd_begin _ _ o fd d 1 p wake env []); [done..|by rewrite HF|by right].
  - rewrite Hnew. exists h, r, F, A. split_and!; try done. by apply ofd_begin_failed.
Qed.
Lemma ofd_begin_ok h A held F o fd reserve p wake env write :
  ofd_ok h A held → settled A → tracks h A F → ofd_allowed h (OBegin o fd reserve p wake env) →
  ∃ h' r F' A', ofd_run h (OBegin o fd reserve p wake env) write = Some (h', r) ∧ ofd_step (of_files h) F (OBegin o fd reserve p wake env) r None F'
    ∧ ofd_ok h' A' held ∧ settled A' ∧ tracks h' A' F' ∧ ro_signals (of_ro h') = ro_signals (of_ro h).
Proof.
  intros Hok Hset Ht ((q & Ho & Hroom) & Hfd & Hkcmp & Hmutex & Hdup). cbn [ofd_run]. unfold md_ofd_order_begin.
  destruct (Z.ltb_spec fd 0) as [Hneg|Hpos]; cbn [orb]; [exists h, (- EINVAL), F, A; split_and!; try done; apply ofd_begin_invalid; by left|].
  destruct ((reserve =? 0) || (reserve =? 1)) eqn:Hres; cbn [negb].
  2: { apply orb_false_iff in Hres as [H0 H1]. exists h, (- EINVAL), F, A. split_and!; try done. apply ofd_begin_invalid. right. lia. }
  destruct (Hfd Hpos) as [d Hd]. destruct (ok_op _ _ _ Hok p) as [[Hop Hnq]|(o2 & e2 & q2 & l2 & Hop & H2 & H3 & H4 & H5)].
  2: { rewrite Hop. cbn. exists h, (- EBUSY), F, A. split_and!; try done. apply ofd_begin_busy, (busy_queued h A held); [done..|]. by exists e2, l2. }
  assert (¬ busy F p) as Hnb by (by rewrite (busy_queued h A held)). rewrite Hop. assert (o_queue (order_at (of_ro h) p) = None) as Hoq.
  { destruct (o_queue (order_at (of_ro h) p)) as [e2|] eqn:E; [|done]. destruct (rep_entry _ _ _ _ (ok_rep _ _ _ Hok) E) as (l1 & s & v & l2 & HA & _).
    destruct Hnq. eexists _, _. split; [exact HA|]. apply ops_mid. auto. }
  rewrite Hoq. cbn [op_owner op_entry no_op]. rewrite !bool_decide_eq_false_2 by (by intros [? ?]). cbn [orb]. rewrite Ho. cbn [mbind option_bind].
  destruct (find_entry_ok h A held F o q (be_kcmp env) fd d) as [[Hne ->]|[(e & x & l & -> & He & Hx & Hc & Hl & HF)|[-> HF]]]; [done..| | |]; cbn [mbind option_bind].
  - exists h, (- be_kcmp env), F, A. split_and!; try done. apply ofd_begin_failed; [lia|by left].
  - destruct (take_turn_ok h A held F o q e x d l p wake) as (h' & -> & Hok' & Ht' & Hsig & _); [done..|]. eexists h', _, _, _. split_and!; [done| |exact Hok'| |exact Ht'|done].
    + rewrite <- put_snoc. apply (ofd_begin _ _ _ _ d); [done..|by rewrite HF|]. left. by apply (Hset e).
    + apply settled_records; [done|]. by destruct l.
  - destruct (Z.eqb_spec reserve 0) as [->|Hr0]; [exists h, 1, F, A; split_and!; try done; by apply (ofd_begin_free _ _ _ _ d)|]. assert (reserve = 1) as -> by lia.
    by apply (begin_new_ok h A held F o q fd d).
Qed.


(** A registry of one client, without entries. *)
Definition ofd_initial (o : loc) (files : gmap Z Z) : ofd_heap := mk_ofd (ro_initial ∅ ∅) {[o := mk_orders 1 []]} ∅ ∅ files.
Lemma ofd_initial_rep o files : ofd_rep (ofd_initial o files) ∅ (λ _, 1).
Proof.
  exists ∅. split_and!; [|by intros e l H|].
  - split; cbn; try done.
    + intros o2 q [_ <-]%lookup_singleton_Some. cbn. split_and!; [constructor|done..].
    + intros e. split; [by intros [? ?]|]. intros (o2 & q & [_ <-]%lookup_singleton_Some & Hin). by apply elem_of_nil in Hin.
    + intros o1 o2 q1 q2 e [_ <-]%lookup_singleton_Some _ Hin. by apply elem_of_nil in Hin.
    + intros p. left. split; [done|]. by intros (q & l & H & _).
  - intros o2 d l. split; [done|]. by intros (q & e & x & _ & _ & ? & _).
Qed.

(** Descriptors 3 and 4 name the description 7: the second operation waits for the first. *)
Definition demo_env (dup : Z) : begin_env := mk_begin_env 0 true (inl dup) 0.
Definition demo_ops : list ofd_op :=
  [OBegin 1 3 1 5 None (demo_env 9); OBegin 1 4 0 6 None (demo_env 9); OStart 5; OComplete 5; OStart 6; OComplete 6].
Fixpoint ofd_results (h : ofd_heap) (l : list ofd_op) : list (Z * list Z) :=
  match l with
  | [] => []
  | op :: l => match ofd_run h op (λ _, inl 8) with Some (h, r) => (r, (map_to_list (of_files h)).*1) :: ofd_results h l | None => [] end
  end.
