(* ===== verification/Arm64.v ===== *)
(** * AArch64 instructions

    The part of the instruction set that the runtime generates or that its assembly
    contains: the encoding of an instruction as a 32-bit word, [encode] and [decode],
    and its effect on the registers and the memory of a thread, [exec].  Memory is by
    64-bit words: every access of the modelled code is aligned. *)
From S2P Require Import Prelude.

(** The field of [n] bits from the bit [lo]. *)
Definition fld (w lo n : Z) : Z := (w / 2 ^ lo) mod 2 ^ n.
(** Two's complement. *)
Definition sx (n v : Z) : Z := if v <? 2 ^ (n - 1) then v else v - 2 ^ n.

(** Register 31 is SP as an operand of ADDi and SUBi and as a base, and XZR elsewhere. *)
Inductive instr :=
  | ADDi (rd rn imm sh : Z) | SUBi (rd rn imm sh : Z)
  | MOVK (rd imm hw : Z) | MOVZ (rd imm hw : Z)
  | B (off : Z) | BR (rn : Z) | BLR (rn : Z)
  | CBNZ (wide : bool) (rt off : Z) | TBZ (rt bit off : Z) | TBNZ (rt bit off : Z)
  | EOR_LSR (rd rn rm amount : Z) | ANDi (rd rn immr imms : Z) | UBFX (rd rn lsb width : Z) | BFI (rd rn lsb width : Z)
  | MOV (rd rm : Z)
  | LDR (rt rn off : Z) | STR (rt rn off : Z) | LDP (rt rt2 rn off : Z) | STP (rt rt2 rn off : Z)
  | LDR_LIT (rt off : Z) | ADR (rd off : Z)
  | SWPAL (rs rt rn : Z) | STLR (rt rn : Z)
  | MRS_NZCV (rt : Z) | MSR_NZCV (rt : Z)
  | NOP | SVC | BRK.
#[export] Instance instr_eq : EqDecision instr.
Proof. solve_decision. Defined.

Definition decode (w : Z) : option instr :=
  let rd := fld w 0 5 in
  let rn := fld w 5 5 in
  let rm := fld w 16 5 in
  let imm12 := fld w 10 12 in
  let imm19 := 4 * sx 19 (fld w 5 19) in
  let immr := fld w 16 6 in
  let imms := fld w 10 6 in
  if fld w 26 6 =? 5 then Some (B (4 * sx 26 (fld w 0 26)))
  else if fld w 23 9 =? 0x122 then Some (ADDi rd rn imm12 (fld w 22 1))
  else if fld w 23 9 =? 0x1a2 then Some (SUBi rd rn imm12 (fld w 22 1))
  else if fld w 23 9 =? 0x1e5 then Some (MOVK rd (fld w 5 16) (fld w 21 2))
  else if fld w 23 9 =? 0x1a5 then Some (MOVZ rd (fld w 5 16) (fld w 21 2))
  else if fld w 24 8 =? 0xb5 then Some (CBNZ true rd imm19)
  else if fld w 24 8 =? 53 then Some (CBNZ false rd imm19)
  else if fld w 24 7 =? 54 then Some (TBZ rd (32 * fld w 31 1 + fld w 19 5) (4 * sx 14 (fld w 5 14)))
  else if fld w 24 7 =? 55 then Some (TBNZ rd (32 * fld w 31 1 + fld w 19 5) (4 * sx 14 (fld w 5 14)))
  else if fld w 24 8 =? 88 then Some (LDR_LIT rd imm19)
  else if fld w 21 11 =? 0x652 then Some (EOR_LSR rd rn rm imms)
  else if (fld w 22 10 =? 0x249) then Some (ANDi rd rn immr imms)
  else if (fld w 22 10 =? 0x34d) && (immr <=? imms) then Some (UBFX rd rn immr (imms - immr + 1))
  else if (fld w 22 10 =? 0x2cd) && (imms <? immr) then Some (BFI rd rn (64 - immr) (imms + 1))
  else if (fld w 21 11 =? 0x550) && (fld w 5 11 =? 31) then Some (MOV rd rm)
  else if fld w 22 10 =? 0x3e5 then Some (LDR rd rn (8 * imm12))
  else if fld w 22 10 =? 0x3e4 then Some (STR rd rn (8 * imm12))
  else if fld w 22 10 =? 0x2a5 then Some (LDP rd (fld w 10 5) rn (8 * sx 7 (fld w 15 7)))
  else if fld w 22 10 =? 0x2a4 then Some (STP rd (fld w 10 5) rn (8 * sx 7 (fld w 15 7)))
  else if (fld w 31 1 =? 0) && (fld w 24 5 =? 16) then Some (ADR rd (sx 21 (4 * fld w 5 19 + fld w 29 2)))
  else if (fld w 21 11 =? 0x7c7) && (fld w 10 6 =? 32) then Some (SWPAL rm rd rn)
  else if fld w 10 22 =? 0x3227ff then Some (STLR rd rn)
  else if (fld w 10 22 =? 0x3587c0) && (rd =? 0) then Some (BR rn)
  else if (fld w 10 22 =? 0x358fc0) && (rd =? 0) then Some (BLR rn)
  else if fld w 5 27 =? 0x6a9da10 then Some (MRS_NZCV rd)
  else if fld w 5 27 =? 0x6a8da10 then Some (MSR_NZCV rd)
  else if w =? 0xd503201f then Some NOP
  else if w =? 0xd4000001 then Some SVC
  else if w =? 0xd4200000 then Some BRK
  else None.

Definition encode (i : instr) : Z :=
  let m n v := v mod 2 ^ n in
  match i with
  | B off => 0x14000000 + m 26 (off / 4)
  | ADDi rd rn imm sh => 0x91000000 + sh * 2 ^ 22 + imm * 2 ^ 10 + rn * 2 ^ 5 + rd
  | SUBi rd rn imm sh => 0xd1000000 + sh * 2 ^ 22 + imm * 2 ^ 10 + rn * 2 ^ 5 + rd
  | MOVK rd imm hw => 0xf2800000 + hw * 2 ^ 21 + imm * 2 ^ 5 + rd
  | MOVZ rd imm hw => 0xd2800000 + hw * 2 ^ 21 + imm * 2 ^ 5 + rd
  | CBNZ wide rt off => (if wide then 0xb5000000 else 0x35000000) + m 19 (off / 4) * 2 ^ 5 + rt
  | TBZ rt bit off => 0x36000000 + bit / 32 * 2 ^ 31 + bit mod 32 * 2 ^ 19 + m 14 (off / 4) * 2 ^ 5 + rt
  | TBNZ rt bit off => 0x37000000 + bit / 32 * 2 ^ 31 + bit mod 32 * 2 ^ 19 + m 14 (off / 4) * 2 ^ 5 + rt
  | LDR_LIT rt off => 0x58000000 + m 19 (off / 4) * 2 ^ 5 + rt
  | EOR_LSR rd rn rm amount => 0xca400000 + rm * 2 ^ 16 + amount * 2 ^ 10 + rn * 2 ^ 5 + rd
  | ANDi rd rn immr imms => 0x92400000 + immr * 2 ^ 16 + imms * 2 ^ 10 + rn * 2 ^ 5 + rd
  | UBFX rd rn lsb width => 0xd3400000 + lsb * 2 ^ 16 + (lsb + width - 1) * 2 ^ 10 + rn * 2 ^ 5 + rd
  | BFI rd rn lsb width => 0xb3400000 + m 6 (- lsb) * 2 ^ 16 + (width - 1) * 2 ^ 10 + rn * 2 ^ 5 + rd
  | MOV rd rm => 0xaa000000 + rm * 2 ^ 16 + 31 * 2 ^ 5 + rd
  | LDR rt rn off => 0xf9400000 + off / 8 * 2 ^ 10 + rn * 2 ^ 5 + rt
  | STR rt rn off => 0xf9000000 + off / 8 * 2 ^ 10 + rn * 2 ^ 5 + rt
  | LDP rt rt2 rn off => 0xa9400000 + m 7 (off / 8) * 2 ^ 15 + rt2 * 2 ^ 10 + rn * 2 ^ 5 + rt
  | STP rt rt2 rn off => 0xa9000000 + m 7 (off / 8) * 2 ^ 15 + rt2 * 2 ^ 10 + rn * 2 ^ 5 + rt
  | ADR rd off => 0x10000000 + off mod 4 * 2 ^ 29 + m 19 (off / 4) * 2 ^ 5 + rd
  | SWPAL rs rt rn => 0xf8e08000 + rs * 2 ^ 16 + rn * 2 ^ 5 + rt
  | STLR rt rn => 0xc89ffc00 + rn * 2 ^ 5 + rt
  | BR rn => 0xd61f0000 + rn * 2 ^ 5
  | BLR rn => 0xd63f0000 + rn * 2 ^ 5
  | MRS_NZCV rt => 0xd53b4200 + rt
  | MSR_NZCV rt => 0xd51b4200 + rt
  | NOP => 0xd503201f | SVC => 0xd4000001 | BRK => 0xd4200000
  end.

(** ** Effect *)

(** The registers that ptrace shows: x0 to x30, SP, PC and PSTATE. *)
Record user_pt_regs := mk_regs { r_x : Z → Z; r_sp : Z; r_pc : Z; r_pstate : Z }.
Record cpu := mk_cpu { c_regs : user_pt_regs; c_mem : Z → Z }.
Definition upd (k v : Z) (f : Z → Z) : Z → Z := λ y, if y =? k then v else f y.
Definition NZCV : Z := 0xf0000000.

(** Reading and writing a register whose number 31 is XZR. *)
Definition xr (r : user_pt_regs) (n : Z) : Z := if n =? 31 then 0 else r_x r n.
Definition set_x (n v : Z) (r : user_pt_regs) : user_pt_regs :=
  if n =? 31 then r else mk_regs (upd n v (r_x r)) (r_sp r) (r_pc r) (r_pstate r).
(** The same for operands where the number 31 is SP. *)
Definition xs (r : user_pt_regs) (n : Z) : Z := if n =? 31 then r_sp r else r_x r n.
Definition set_xs (n v : Z) (r : user_pt_regs) : user_pt_regs :=
  if n =? 31 then mk_regs (r_x r) v (r_pc r) (r_pstate r) else set_x n v r.
Definition set_pc (v : Z) (r : user_pt_regs) : user_pt_regs := mk_regs (r_x r) (r_sp r) v (r_pstate r).
Definition set_nzcv (v : Z) (r : user_pt_regs) : user_pt_regs :=
  mk_regs (r_x r) (r_sp r) (r_pc r) (Z.lor (Z.ldiff (r_pstate r) NZCV) (Z.land v NZCV)).

(** The field of [n] bits from the bit [lo] replaced. *)
Definition set_fld (w lo n v : Z) : Z := w - fld w lo n * 2 ^ lo + v * 2 ^ lo.
(** The mask of a 64-bit logical immediate: a run of ones, rotated. *)
Definition bitmask (immr imms : Z) : Z :=
  let ones := Z.ones (imms + 1) in Z.lor (Z.shiftr ones immr) (wrap64 (Z.shiftl ones (64 - immr))).

(** [lit] reads a 64-bit word from the code.  System calls and breakpoints leave the
    machine. *)
Definition exec (lit : Z → Z) (i : instr) (c : cpu) : option cpu :=
  let r := c_regs c in
  let m := c_mem c in
  let pc := r_pc r in
  let next r := set_pc (wrap64 (pc + 4)) r in
  let at_ rn off := wrap64 (xs r rn + off) in
  let jump off := Some (mk_cpu (set_pc (wrap64 (pc + off)) r) m) in
  let branch (b : bool) off := if b then jump off else jump 4 in
  let set_ rd v := Some (mk_cpu (next (set_x rd v r)) m) in
  match i with
  | ADDi rd rn imm sh => Some (mk_cpu (next (set_xs rd (wrap64 (xs r rn + imm * 2 ^ (12 * sh))) r)) m)
  | SUBi rd rn imm sh => Some (mk_cpu (next (set_xs rd (wrap64 (xs r rn - imm * 2 ^ (12 * sh))) r)) m)
  | MOVK rd imm hw => set_ rd (set_fld (xr r rd) (16 * hw) 16 imm)
  | MOVZ rd imm hw => set_ rd (imm * 2 ^ (16 * hw))
  | B off => jump off
  | BR rn => Some (mk_cpu (set_pc (xr r rn) r) m)
  | BLR rn => Some (mk_cpu (set_pc (xr r rn) (set_x 30 (wrap64 (pc + 4)) r)) m)
  | CBNZ wide rt off => branch (negb ((if wide then xr r rt else wrap32 (xr r rt)) =? 0)) off
  | TBZ rt bit off => branch (negb (Z.testbit (xr r rt) bit)) off
  | TBNZ rt bit off => branch (Z.testbit (xr r rt) bit) off
  | EOR_LSR rd rn rm amount => set_ rd (Z.lxor (xr r rn) (Z.shiftr (xr r rm) amount))
  | ANDi rd rn immr imms => Some (mk_cpu (next (set_xs rd (Z.land (xr r rn) (bitmask immr imms)) r)) m)
  | UBFX rd rn lsb width => set_ rd (fld (xr r rn) lsb width)
  | BFI rd rn lsb width => set_ rd (set_fld (xr r rd) lsb width (fld (xr r rn) 0 width))
  | MOV rd rm => set_ rd (xr r rm)
  | LDR rt rn off => set_ rt (m (at_ rn off))
  | STR rt rn off => Some (mk_cpu (next r) (upd (at_ rn off) (xr r rt) m))
  | LDP rt rt2 rn off => Some (mk_cpu (next (set_x rt2 (m (at_ rn (off + 8))) (set_x rt (m (at_ rn off)) r))) m)
  | STP rt rt2 rn off => Some (mk_cpu (next r) (upd (at_ rn (off + 8)) (xr r rt2) (upd (at_ rn off) (xr r rt) m)))
  | LDR_LIT rt off => set_ rt (lit (wrap64 (pc + off)))
  | ADR rd off => set_ rd (wrap64 (pc + off))
  | SWPAL rs rt rn => Some (mk_cpu (next (set_x rt (m (at_ rn 0)) r)) (upd (at_ rn 0) (xr r rs) m))
  | STLR rt rn => Some (mk_cpu (next r) (upd (at_ rn 0) (xr r rt) m))
  | MRS_NZCV rt => set_ rt (Z.land (r_pstate r) NZCV)
  | MSR_NZCV rt => Some (mk_cpu (next (set_nzcv (xr r rt) r)) m)
  | NOP => Some (mk_cpu (next r) m)
  | SVC | BRK => None
  end.

(** ** Instruction words built at run time *)

Lemma lor_field base x k n :
  Z.land (Z.shiftl (Z.ones n) k) base = 0 → 0 ≤ k → 0 ≤ n → 0 ≤ x < 2 ^ n → Z.lor base (Z.shiftl x k) = base + x * 2 ^ k.
Proof.
  intros Hb Hk Hn Hx. rewrite <- Z.shiftl_mul_pow2 by done. assert (Z.land base (Z.shiftl x k) = 0) as H0.
  { apply Z.bits_inj'. intros j Hj. rewrite Z.land_spec, Z.bits_0, Z.shiftl_spec by done.
    assert (Z.testbit (Z.land (Z.shiftl (Z.ones n) k) base) j = false) as Hz by (by rewrite Hb, Z.bits_0). rewrite Z.land_spec, Z.shiftl_spec in Hz by done.
    destruct (decide (j < k)); [rewrite (Z.testbit_neg_r x) by lia; apply andb_false_r|]. destruct (decide (j - k < n)).
    - rewrite Z.ones_spec_low in Hz by lia. cbn in Hz. by rewrite Hz.
    - replace x with (x mod 2 ^ n) by (by apply Z.mod_small). rewrite Z.mod_pow2_bits_high by lia. apply andb_false_r. }
  rewrite <- Z.lxor_lor by done. by rewrite Z.add_nocarry_lxor.
Qed.
Lemma fld_bound w lo n : 0 ≤ n → 0 ≤ fld w lo n < 2 ^ n.
Proof. intros. apply Z.mod_pos_bound. lia. Qed.

Ltac fields := unfold fld; cbn [Z.pow Z.pow_pos Pos.iter Z.mul Pos.mul Z.sub Z.add Z.opp Pos.add Pos.succ] in *; Z.to_euclidean_division_equations; lia.
Lemma decode_branch v : - 2 ^ 25 ≤ v < 2 ^ 25 → decode (Z.lor 0x14000000 (Z.land v 0x3ffffff)) = Some (B (4 * v)).
Proof.
  intros Hv. change 0x3ffffff with (Z.ones 26). rewrite Z.land_ones by done. pose proof (Z.mod_pos_bound v (2 ^ 26) eq_refl) as Hm.
  rewrite <- (Z.shiftl_0_r (v mod 2 ^ 26)), (lor_field _ _ 0 26) by done. rewrite Z.mul_1_r. unfold decode.
  assert (fld (0x14000000 + v mod 2 ^ 26) 26 6 = 5) as -> by fields. cbn [Z.eqb Pos.eqb]. f_equal. f_equal. f_equal.
  assert (fld (0x14000000 + v mod 2 ^ 26) 0 26 = v mod 2 ^ 26) as -> by fields. unfold sx. case_if; breflect; fields.
Qed.
Lemma decode_movk rd hw x : 0 ≤ rd < 32 → 0 ≤ hw < 4 → 0 ≤ x < 2 ^ 16 → decode (0xf2800000 + hw * 2 ^ 21 + rd + x * 2 ^ 5) = Some (MOVK rd x hw).
Proof.
  intros Hr Hh Hx. unfold decode. set (w := 0xf2800000 + hw * 2 ^ 21 + rd + x * 2 ^ 5).
  assert (fld w 26 6 = 60) as -> by (unfold w; fields). assert (fld w 23 9 = 0x1e5) as -> by (unfold w; fields). cbn [Z.eqb Pos.eqb].
  f_equal. f_equal; unfold w; fields.
Qed.
Lemma decode_sub8 n : 0 ≤ n < 2 ^ 12 → decode (Z.lor 0xd1000108 (Z.shiftl n 10)) = Some (SUBi 8 8 n 0).
Proof.
  intros Hn. rewrite (lor_field _ _ 10 12) by done. unfold decode. set (w := 0xd1000108 + n * 2 ^ 10).
  assert (fld w 26 6 = 52) as -> by (unfold w; fields). assert (fld w 23 9 = 0x1a2) as -> by (unfold w; fields). cbn [Z.eqb Pos.eqb].
  f_equal. f_equal; unfold w; fields.
Qed.
Lemma decode_add8 n : 0 ≤ n < 2 ^ 12 → decode (Z.lor 0x91000108 (Z.shiftl n 10)) = Some (ADDi 8 8 n 0).
Proof.
  intros Hn. rewrite (lor_field _ _ 10 12) by done. unfold decode. set (w := 0x91000108 + n * 2 ^ 10).
  assert (fld w 26 6 = 36) as -> by (unfold w; fields). assert (fld w 23 9 = 0x122) as -> by (unfold w; fields). cbn [Z.eqb Pos.eqb].
  f_equal. f_equal; unfold w; fields.
Qed.
