(* ===== verification/SvcGate.v ===== *)
(** * The system call gate (svc_direct.c, svc_patch.c, svc_frame.c, svc_single.S)

    A supervisor replaces an SVC instruction of a guest program by a branch to a gate
    that it generates for the call number seen there.  The gate compares x8 with the
    number, claims a frame by the stack pointer, saves the registers in it, calls the
    dispatcher on the stack of the frame, and continues after the SVC with the result or,
    when the dispatcher declines, at an exit that executes the call natively.  A signal
    may interrupt a thread at any instruction of the gate; [md_svc_direct_recover] then
    reconstructs the registers of the guest.

    This file holds the assembly of the gate, the functions that generate its code, and
    the decoding of the result. *)
From stdpp Require Import strings.
From S2P Require Import Prelude Syscalls Arm64.

Definition MD_SVC_SLOT_SIZE : Z := 65536.
Definition MD_SVC_POOL_SIZE : Z := 64 * MD_SVC_SLOT_SIZE.
Definition MD_SVC_FRAME_OFFSET : Z := 64.
Definition MD_SVC_OWNER_OFFSET : Z := 384.
Definition MD_SVC_SAVED_SP : Z := 864.
Definition MD_SVC_DIRECT_PENDING : Z := 392.
Definition MD_SVC_POOL_HIGH : Z := 0x21.
Definition GUARD_BYTES : Z := 64 * 4.
Definition MAP_GUARD : Z := 32.
Definition MAP_GUARD_END : Z := 40.

(** ** The assembly of the gate *)

(** A line: a label, an instruction, one that refers to a label, a literal, padding. *)
Inductive line := Mark (l : string) | Op (i : instr) | To (l : string) (f : Z → instr) | Quad (l : string) | Align8.
Definition line_bytes (pos : Z) (x : line) : Z :=
  match x with Mark _ => 0 | Op _ | To _ _ => 4 | Quad _ => 8 | Align8 => pos mod 8 end.
Fixpoint offset_of (l : string) (pos : Z) (ls : list line) : option Z :=
  match ls with
  | [] => None
  | x :: ls =>
      match x with
      | Mark k | Quad k => if bool_decide (k = l) then Some pos else offset_of l (pos + line_bytes pos x) ls
      | _ => offset_of l (pos + line_bytes pos x) ls
      end
  end.
Fixpoint assemble (offset : string → Z) (pos : Z) (ls : list line) : list Z :=
  match ls with
  | [] => []
  | x :: ls =>
      match x with
      | Mark _ => []
      | Op i => [encode i]
      | To l f => [encode (f (offset l - pos))]
      | Quad _ => [0; 0]
      | Align8 => if pos mod 8 =? 0 then [] else [encode NOP]
      end ++ assemble offset (pos + line_bytes pos x) ls
  end.

(** The address of the frame of a thread, by its stack pointer. *)
Definition md_svc_slot (reg : Z) : list line :=
  Op <$> [ADDi reg 31 0 0; EOR_LSR reg reg reg 16; UBFX reg reg 8 6; MOVK reg 0 1; MOVK reg MD_SVC_POOL_HIGH 2; MOVK reg 0 3;
          BFI reg reg 16 6; ANDi reg reg 58 57].
Definition gpr_pairs : list Z := [0; 2; 4; 6; 8; 10; 12; 14; 16; 18; 20; 22; 24; 26; 28].
Definition md_svc_save_gprs (base : Z) : list line := (λ lo, Op (STP lo (lo + 1) base (8 * lo))) <$> gpr_pairs.
Definition md_svc_restore_gprs (base omit : Z) : list line :=
  (λ lo, Op (if lo =? omit then LDR (lo + 1) base (8 * (lo + 1)) else if lo + 1 =? omit then LDR lo base (8 * lo) else LDP lo (lo + 1) base (8 * lo)))
    <$> gpr_pairs.
Definition md_svc_single : list line :=
  md_svc_slot 8 ++
  [Mark "claim"; Op (SWPAL 8 8 8);
   Mark "claimed"; To "busy_replay" (CBNZ true 8);
   Mark "owned"] ++ md_svc_slot 8 ++
  [Op (STR 30 8 (MD_SVC_FRAME_OFFSET + 240));
   Mark "prefix"; Op NOP;
   Mark "borrow_lr"] ++ md_svc_slot 30 ++
  [Op (ADDi 30 30 MD_SVC_FRAME_OFFSET 0)] ++ md_svc_save_gprs 30 ++
  [Mark "saved_gprs"; To "owner" (LDR_LIT 1); Op (STR 1 30 (MD_SVC_OWNER_OFFSET - MD_SVC_FRAME_OFFSET));
   Op (MRS_NZCV 8); Op (STR 8 30 248); Op (ADDi 8 31 0 0); Op (STR 8 30 (MD_SVC_SAVED_SP - MD_SVC_FRAME_OFFSET));
   Mark "saved_sp"; Op (MOV 0 30); Op (SUBi 30 30 MD_SVC_FRAME_OFFSET 0); Op (ADDi 31 30 16 1);
   To "dispatch" (LDR_LIT 16); To "state" (LDR_LIT 1);
   Mark "invoke"; Op (BLR 16);
   Mark "returned"; Op (SUBi 8 31 16 1); Op (ADDi 8 8 MD_SVC_FRAME_OFFSET 0);
   To "done" (ADR 30); To "1" (CBNZ false 0); To "kernel" (ADR 30);
   Mark "1"; Op (STR 30 8 272);
   Mark "outcome"; Op (LDR 30 8 (MD_SVC_SAVED_SP - MD_SVC_FRAME_OFFSET)); Op (ADDi 31 30 0 0); Op (LDR 30 8 248); Op (MSR_NZCV 30)] ++
  md_svc_restore_gprs 8 8 ++
  [Op (LDR 30 8 272); Op (BR 30);
   Mark "done"; Op (LDR 30 8 240); Op (SUBi 8 8 MD_SVC_FRAME_OFFSET 0); Op (STLR 31 8);
   Mark "done_replay"; Op NOP;
   Mark "done_branch"; Op (B 0);
   Mark "kernel"; Op (LDR 30 8 240); Op (SUBi 8 8 MD_SVC_FRAME_OFFSET 0); Op (STLR 31 8);
   Mark "kernel_replay"; Op NOP;
   Mark "kernel_branch"; Op (B 0);
   Mark "busy_replay"; Op NOP;
   Mark "busy_branch"; Op (B 0);
   Align8; Quad "dispatch"; Quad "state"; Quad "owner"; Mark "end"].

Definition at_ (l : string) : Z := default 0 (offset_of l 0 md_svc_single).
Definition md_svc_single_size : Z := at_ "end".
Definition single_words : list Z := assemble at_ 0 md_svc_single.

(** ** Generating the code *)

Definition md_svc_branch (from to : Z) : Z + Z :=
  if negb (Z.land (Z.lor from to) 3 =? 0) then inr (- EINVAL)
  else
    let distance := if to <? from then from - to else to - from in
    if Z.shiftl 1 27 - (if from <=? to then 4 else 0) <? distance then inr (- ERANGE)
    else
      let words := if from <=? to then distance / 4 else - (distance / 4) in
      inl (Z.lor 0x14000000 (Z.land words 0x3ffffff)).

(** The MOVK instructions of the frame address, by the half-word they set. *)
Definition movk_word (w half frames : Z) : Z :=
  Z.lor (Z.ldiff w 0x1fffe0) (Z.shiftl (Z.land (Z.shiftr frames (half * 16)) 65535) 5).
Fixpoint relocate_loop (frames : Z) (p1 p2 p3 : Z) (l : list Z) : option (list Z * (Z * Z * Z)) :=
  match l with
  | [] => Some ([], (p1, p2, p3))
  | w :: l =>
      if negb (Z.land w 0xff800000 =? 0xf2800000)
      then '(l, p) ← relocate_loop frames p1 p2 p3 l; Some (w :: l, p)
      else
        let half := Z.land (Z.shiftr w 21) 3 in
        if half =? 0 then None
        else
          '(l, p) ← relocate_loop frames (p1 + Z.b2z (half =? 1)) (p2 + Z.b2z (half =? 2)) (p3 + Z.b2z (half =? 3)) l;
          Some (movk_word w half frames :: l, p)
  end.
Definition md_svc_frame_relocate (code : list Z) (frames : Z) : list Z + Z :=
  if (frames =? 0) || negb (Z.land frames (MD_SVC_POOL_SIZE - 1) =? 0) || (UINT64_MAX - MD_SVC_POOL_SIZE - 65536 <? frames) then inr (- EINVAL)
  else match relocate_loop frames 0 0 0 code with
  | Some (code, (p1, p2, p3)) => if negb (p1 =? 0) && (p1 =? p2) && (p2 =? p3) then inl code else inr (- EINVAL)
  | None => inr (- EINVAL)
  end.

Definition md_svc_direct_size : Z := GUARD_BYTES + md_svc_single_size + 16.
Definition md_svc_direct_signal_size : Z := md_svc_direct_size + 32.
Record md_svc_direct_fallback := mk_exits { mismatch : Z; declined : Z; busy : Z }.
Record md_svc_direct_context := mk_context { c_svc : Z; c_gate : Z; c_frames : Z; c_number : Z }.

(** The native system call and the branch back behind the original one. *)
Definition md_svc_direct_kernel (svc destination : Z) : (Z * Z) + Z :=
  if negb (Z.land (Z.lor svc destination) 3 =? 0) || (UINT64_MAX - 4 <? svc) || (UINT64_MAX - 4 <? destination) then inr (- EINVAL)
  else let! b := md_svc_branch (destination + 4) (svc + 4) in inl (0xd4000001, b).

(** Code as words: [memcpy] of one word and of a 64-bit value at a byte offset. *)
Definition put4 (off w : Z) (code : list Z) : list Z := <[Z.to_nat (off / 4) := w]> code.
Definition lo32 (v : Z) : Z := v mod 2 ^ 32.
Definition hi32 (v : Z) : Z := v / 2 ^ 32.
Definition put8 (off v : Z) (code : list Z) : list Z := put4 (off + 4) (hi32 v) (put4 off (lo32 v) code).
Definition put_all (l : list (Z * Z)) (code : list Z) : list Z := foldl (λ code '(off, w), put4 off w code) code l.

Definition nop : Z := 0xd503201f.
Definition sub_word (number : Z) : Z := Z.lor 0xd1000108 (Z.shiftl number 10).
Definition add_word (number : Z) : Z := Z.lor 0x91000108 (Z.shiftl number 10).
(** The guard of a number that fits an immediate. *)
Definition map_test (i : Z) : Z := Z.lor (Z.lor 0x36000003 (Z.shiftl (4 + i) 19)) (Z.shiftl (Z.land ((12 - (MAP_GUARD + 4 * i)) / 4) 0x3fff) 5).
Definition small_guard (number destination exit_mismatch : Z) : list Z + Z :=
  let body_pc := destination + GUARD_BYTES in
  let! enter := md_svc_branch (destination + 8) (if number =? SYS_mmap then destination + MAP_GUARD else body_pc) in
  let! miss := md_svc_branch (destination + 16) exit_mismatch in
  let code := put_all [(0, sub_word number); (4, 0xb5000048); (8, enter); (12, add_word number); (16, miss)] (replicate 64 nop) in
  if number =? SYS_mmap then
    let! b := md_svc_branch (destination + MAP_GUARD_END) body_pc in
    inl (put_all [(MAP_GUARD, map_test 0); (MAP_GUARD + 4, map_test 1); (MAP_GUARD_END, b)] code)
  else inl code.
(** The guard of any other number: one test per bit. *)
Definition bit_word (number bit offset : Z) : Z :=
  Z.lor (Z.lor (Z.lor (Z.lor 0x36000008 (Z.shiftl (Z.shiftr bit 5) 31)) (Z.shiftl (Z.land bit 31) 19))
    (if Z.land (Z.shiftr number bit) 1 =? 0 then Z.shiftl 1 24 else 0)) (Z.shiftl (offset / 4) 5).
Fixpoint bit_guard (number : Z) (bits : list Z) : list Z + Z :=
  match bits with
  | [] => inl []
  | bit :: bits =>
      let offset := GUARD_BYTES + md_svc_single_size + 8 - bit * 4 in
      if 32768 <=? offset then inr (- ERANGE)
      else let! l := bit_guard number bits in inl (bit_word number bit offset :: l)
  end.
Definition replay_word (l : string) : Z := Z.lor 0x58000008 (Z.shiftl ((md_svc_single_size - at_ l) / 4) 5).

(** The code of the gate and the branch to it that replaces the system call. *)
Definition md_svc_direct_plan (svc number destination dispatch frames : Z) (exits : md_svc_direct_fallback) (capacity : Z) : (list Z * Z) + Z :=
  let size := md_svc_direct_size in
  let body_size := md_svc_single_size in
  if (dispatch =? 0) || negb (Z.land (Z.lor (Z.lor (Z.lor (Z.lor (Z.lor svc destination) dispatch) (mismatch exits)) (declined exits)) (busy exits)) 3 =? 0)
     || (UINT64_MAX - 4 <? svc) || (UINT64_MAX - size <? destination) then inr (- EINVAL)
  else if capacity <? size then inr (- ENOSPC)
  else
    let! jump := md_svc_branch svc destination in
    let body_pc := destination + GUARD_BYTES in
    let! body := md_svc_frame_relocate single_words frames in
    let body := put8 (at_ "owner") destination (put8 (at_ "state") (frames + MD_SVC_POOL_SIZE) (put8 (at_ "dispatch") dispatch body)) in
    let! miss := md_svc_branch (body_pc + body_size + 8) (mismatch exits) in
    let! guard := (if number <=? 4095 then small_guard number destination (mismatch exits) else bit_guard number (seqZ 0 64)) in
    let body := put_all ((λ l, (at_ l, replay_word l)) <$> ["prefix"; "done_replay"; "kernel_replay"; "busy_replay"]) body in
    let! b_done := md_svc_branch (body_pc + at_ "done_branch") (svc + 4) in
    let! b_kernel := md_svc_branch (body_pc + at_ "kernel_branch") (declined exits) in
    let! b_busy := md_svc_branch (body_pc + at_ "busy_branch") (busy exits) in
    let body := put_all [(at_ "done_branch", b_done); (at_ "kernel_branch", b_kernel); (at_ "busy_branch", b_busy)] body in
    inl (guard ++ body ++ [lo32 number; hi32 number; miss; nop], jump).
Definition md_svc_direct_checkpoint (c : md_svc_direct_context) : Z := c_gate c + md_svc_direct_size + 20.
(** With a rendezvous for signals behind the call of the dispatcher. *)
Definition pending_load : Z := Z.lor (Z.lor (Z.lor 0xf9400000 (Z.shiftl (MD_SVC_DIRECT_PENDING / 8) 10)) (Z.shiftl 8 5)) 30.
Definition pending_test : Z := Z.lor (Z.lor 0xb5000000 (Z.shiftl 2 5)) 30.
Definition getuid_number : Z := Z.lor 0xd2800008 (Z.shiftl SYS_getuid 5).
Definition md_svc_direct_signal_plan (c : md_svc_direct_context) (dispatch : Z) (exits : md_svc_direct_fallback) (capacity : Z) : (list Z * Z) + Z :=
  if capacity <? md_svc_direct_signal_size then inr (- EINVAL)
  else
    let! plan := md_svc_direct_plan (c_svc c) (c_number c) (c_gate c) dispatch (c_frames c) exits capacity in
    let returned := GUARD_BYTES + at_ "returned" in
    let size := md_svc_direct_size in
    let first := default 0 (plan.1 !! Z.to_nat (returned / 4)) in
    let! back := md_svc_branch (c_gate c + size + 12) (c_gate c + returned + 4) in
    let tail := [first; pending_load; pending_test; back; getuid_number; 0xd4000001; 0xd4200000; 0x14000000] in
    let! jump := md_svc_branch (c_gate c + returned) (c_gate c + size) in
    inl (put4 returned jump plan.1 ++ tail, plan.2).

(** ** The generated code, disassembled *)

Lemma branch_decodes from to w :
  md_svc_branch from to = inl w → decode w = Some (B (to - from)) ∧ from mod 4 = 0 ∧ to mod 4 = 0 ∧ - 2 ^ 27 ≤ to - from < 2 ^ 27.
Proof.
  unfold md_svc_branch. destruct (negb _) eqn:H0; [done|]. apply negb_false_iff, Z.eqb_eq in H0. change 3 with (Z.ones 2) in H0. rewrite Z.land_lor_distr_l in H0.
  apply Z.lor_eq_0_iff in H0 as [Hf Ht]. rewrite !Z.land_ones in Hf, Ht by done. cbv zeta. set (limit := _ - _). set (distance := if to <? from then _ else _). destruct (limit <? distance) eqn:Hd; [done|]. intros [= <-]. breflect. unfold limit in Hd. change (Z.shiftl 1 27) with (2 ^ 27) in Hd.
  set (v := if from <=? to then _ else _). assert (4 * v = to - from ∧ - 2 ^ 25 ≤ v < 2 ^ 25) as [Hv Hb].
  { unfold v, distance in *. destruct (Z.leb_spec from to), (Z.ltb_spec to from); try lia; divlia. }
  rewrite decode_branch by done. change (2 ^ 25) with 33554432 in Hb. change (2 ^ 27) with 134217728. split_and!; [by rewrite Hv|done|done|lia|lia].
Qed.

Definition piece (frames half : Z) : Z := Z.land (Z.shiftr frames (half * 16)) 65535.
Definition slot_code (frames reg : Z) : list instr :=
  [ADDi reg 31 0 0; EOR_LSR reg reg reg 16; UBFX reg reg 8 6; MOVK reg (piece frames 1) 1; MOVK reg (piece frames 2) 2;
   MOVK reg (piece frames 3) 3; BFI reg reg 16 6; ANDi reg reg 58 57].
(** The instructions from the address [body], up to the literals. *)
Definition body_code (frames body svc : Z) (exits : md_svc_direct_fallback) : list instr :=
  slot_code frames 8 ++ [SWPAL 8 8 8; CBNZ true 8 336] ++ slot_code frames 8 ++ [STR 30 8 304; LDR_LIT 8 332] ++ slot_code frames 30 ++
  [ADDi 30 30 64 0; STP 0 1 30 0; STP 2 3 30 16; STP 4 5 30 32; STP 6 7 30 48; STP 8 9 30 64; STP 10 11 30 80; STP 12 13 30 96;
   STP 14 15 30 112; STP 16 17 30 128; STP 18 19 30 144; STP 20 21 30 160; STP 22 23 30 176; STP 24 25 30 192; STP 26 27 30 208; STP 28 29 30 224;
   LDR_LIT 1 224; STR 1 30 320; MRS_NZCV 8; STR 8 30 248; ADDi 8 31 0 0; STR 8 30 800;
   MOV 0 30; SUBi 30 30 64 0; ADDi 31 30 16 1; LDR_LIT 16 172; LDR_LIT 1 176; BLR 16;
   B 200; ADDi 8 8 64 0; ADR 30 100; CBNZ false 0 8; ADR 30 112; STR 30 8 272;
   LDR 30 8 800; ADDi 31 30 0 0; LDR 30 8 248; MSR_NZCV 30;
   LDP 0 1 8 0; LDP 2 3 8 16; LDP 4 5 8 32; LDP 6 7 8 48; LDR 9 8 72; LDP 10 11 8 80; LDP 12 13 8 96; LDP 14 15 8 112; LDP 16 17 8 128;
   LDP 18 19 8 144; LDP 20 21 8 160; LDP 22 23 8 176; LDP 24 25 8 192; LDP 26 27 8 208; LDP 28 29 8 224; LDR 30 8 272; BR 30;
   LDR 30 8 240; SUBi 8 8 64 0; STLR 31 8; LDR_LIT 8 64; B (svc + 4 - (body + 348));
   LDR 30 8 240; SUBi 8 8 64 0; STLR 31 8; LDR_LIT 8 44; B (declined exits - (body + 368));
   LDR_LIT 8 36; B (busy exits - (body + 376)); NOP].
(** Behind the literals: the exit of a failed comparison, and the rendezvous. *)
Definition tail_code (body : Z) (exits : md_svc_direct_fallback) : list instr :=
  [B (mismatch exits - (body + 416)); NOP; SUBi 8 31 16 1; LDR 30 8 392; CBNZ true 30 8; B (-208); MOVZ 8 174 0; SVC; BRK; B 0].

Definition reloc_words (frames : Z) : list Z :=
  Eval cbv -[movk_word] in match relocate_loop frames 0 0 0 single_words with Some (l, _) => l | None => [] end.
Lemma relocate_template frames : relocate_loop frames 0 0 0 single_words = Some (reloc_words frames, (3, 3, 3)).
Proof. cbv -[movk_word]. reflexivity. Qed.
Lemma movk_decodes rd half old frames :
  0 ≤ rd < 32 → 0 ≤ half < 4 → Z.ldiff old 0x1fffe0 = 0xf2800000 + half * 2 ^ 21 + rd → decode (movk_word old half frames) = Some (MOVK rd (piece frames half) half).
Proof.
  intros Hr Hh Ho. unfold movk_word. fold (piece frames half). assert (0 ≤ piece frames half < 2 ^ 16) as Hp.
  { unfold piece. change 65535 with (Z.ones 16). rewrite Z.land_ones by done. by apply Z.mod_pos_bound. }
  rewrite (lor_field _ _ 5 16); [|rewrite Z.ldiff_land, (Z.land_comm old), Z.land_assoc; by rewrite Z.land_0_l|done..]. rewrite Ho. by apply decode_movk.
Qed.

(** The instruction at an address of the gate, and the literals. *)
Definition fetch (c : md_svc_direct_context) (code : list Z) (pc : Z) : option instr :=
  if negb ((pc - c_gate c) mod 4 =? 0) || (pc <? c_gate c) then None else w ← code !! Z.to_nat ((pc - c_gate c) / 4); decode w.
Definition literal (c : md_svc_direct_context) (code : list Z) (pc : Z) : Z :=
  let k := Z.to_nat ((pc - c_gate c) / 4) in default 0 (code !! k) + 2 ^ 32 * default 0 (code !! S k).

Definition small_code (number gate exit_mismatch : Z) : list instr :=
  [SUBi 8 8 number 0; CBNZ true 8 8; B (if number =? SYS_mmap then 24 else 248); ADDi 8 8 number 0; B (exit_mismatch - (gate + 16)); NOP; NOP; NOP]
  ++ if number =? SYS_mmap then [TBZ 3 4 (-20); TBZ 3 5 (-24); B 216] else [NOP; NOP; NOP].
Definition bit_code (number : Z) : list instr :=
  (λ bit, if Z.testbit number bit then TBZ 8 bit (672 - 4 * bit) else TBNZ 8 bit (672 - 4 * bit)) <$> seqZ 0 64.
Definition guard_code (number gate exit_mismatch : Z) : list instr :=
  if number <=? 4095 then small_code number gate exit_mismatch else bit_code number.

Lemma small_guard_decodes number gate exit_ guard :
  0 ≤ number ≤ 4095 → small_guard number gate exit_ = inl guard →
  ∃ l, guard = l ++ replicate 53 nop ∧ Forall2 (λ w i, decode w = Some i) l (small_code number gate exit_).
Proof.
  intros Hn. unfold small_guard. intros (enter & He & (miss & Hm & H)%ebind_inl)%ebind_inl. apply branch_decodes in He as [He _]. apply branch_decodes in Hm as [Hm _].
  assert (decode (sub_word number) = Some (SUBi 8 8 number 0)) as Hsub by (apply decode_sub8; lia).
  assert (decode (add_word number) = Some (ADDi 8 8 number 0)) as Hadd by (apply decode_add8; lia).
  unfold small_code. destruct (number =? SYS_mmap).
  - apply ebind_inl in H as (b & Hb & [= <-]). apply branch_decodes in Hb as [Hb _].
    exists [sub_word number; 0xb5000048; enter; add_word number; miss; nop; nop; nop; map_test 0; map_test 1; b].
    split; [cbv -[sub_word add_word map_test]; reflexivity|]. unfold MAP_GUARD, MAP_GUARD_END, GUARD_BYTES in *.
    repeat apply Forall2_cons_2; try done; [rewrite He; f_equal; f_equal; lia|rewrite Hb; f_equal; f_equal; lia].
  - injection H as <-. exists [sub_word number; 0xb5000048; enter; add_word number; miss; nop; nop; nop; nop; nop; nop].
    split; [cbv -[sub_word add_word]; reflexivity|]. unfold GUARD_BYTES in *. repeat apply Forall2_cons_2; try done. rewrite He. f_equal. f_equal. lia.
Qed.
Lemma bit_word_decodes number bit :
  bit ∈ seqZ 0 64 → decode (bit_word number bit (672 - bit * 4)) = Some (if Z.testbit number bit then TBZ 8 bit (672 - 4 * bit) else TBNZ 8 bit (672 - 4 * bit)).
Proof.
  intros Hb. unfold bit_word. assert (Z.land (Z.shiftr number bit) 1 = Z.b2z (Z.testbit number bit)) as ->.
  { apply elem_of_seqZ in Hb. change 1 with (Z.ones 1) at 1. rewrite Z.land_ones by done. change (2 ^ 1) with 2. rewrite <- Z.bit0_mod, Z.shiftr_spec by lia. done. }
  assert (forallb (λ bit, forallb (λ b : bool, bool_decide (decode (Z.lor (Z.lor (Z.lor (Z.lor 0x36000008 (Z.shiftl (Z.shiftr bit 5) 31)) (Z.shiftl (Z.land bit 31) 19))
    (if Z.b2z b =? 0 then Z.shiftl 1 24 else 0)) (Z.shiftl ((672 - bit * 4) / 4) 5)) = Some (if b then TBZ 8 bit (672 - 4 * bit) else TBNZ 8 bit (672 - 4 * bit)))) [true; false]) (seqZ 0 64) = true) as Hall
    by (vm_compute; reflexivity).
  rewrite forallb_forall in Hall. apply list_elem_of_In in Hb. specialize (Hall _ Hb). rewrite forallb_forall in Hall.
  apply (bool_decide_eq_true_1 _), (Hall (Z.testbit number bit)). destruct (Z.testbit number bit); cbn; auto.
Qed.
Lemma bit_guard_decodes number bits guard :
  (∀ b, b ∈ bits → b ∈ seqZ 0 64) → bit_guard number bits = inl guard →
  Forall2 (λ w i, decode w = Some i) guard ((λ bit, if Z.testbit number bit then TBZ 8 bit (672 - 4 * bit) else TBNZ 8 bit (672 - 4 * bit)) <$> bits).
Proof.
  revert guard. induction bits as [|b bits IH]; intros guard Hb; cbn [bit_guard]; [intros [= <-]; constructor|]. cbv zeta.
  change (GUARD_BYTES + md_svc_single_size + 8) with 672. case_if; [done|]. intros (l & Hl & [= <-])%ebind_inl. rewrite fmap_cons. constructor.
  - apply bit_word_decodes, Hb. by left.
  - apply IH; [|done]. intros x Hx. apply Hb. by right.
Qed.

(** What the machine finds at the addresses of a generated gate. *)
Record gate_facts (c : md_svc_direct_context) (dispatch : Z) (exits : md_svc_direct_fallback) (code : list Z) : Prop := mk_gate_facts {
  gf_guard : ∀ k i, guard_code (c_number c) (c_gate c) (mismatch exits) !! k = Some i → fetch c code (c_gate c + 4 * Z.of_nat k) = Some i;
  gf_body : ∀ k i, body_code (c_frames c) (c_gate c + 256) (c_svc c) exits !! k = Some i → fetch c code (c_gate c + 256 + 4 * Z.of_nat k) = Some i;
  gf_tail : ∀ k i, tail_code (c_gate c + 256) exits !! k = Some i → fetch c code (c_gate c + 672 + 4 * Z.of_nat k) = Some i;
  gf_literals : literal c code (c_gate c + 640) = dispatch ∧ literal c code (c_gate c + 648) = c_frames c + MD_SVC_POOL_SIZE
    ∧ literal c code (c_gate c + 656) = c_gate c ∧ literal c code (c_gate c + 664) = c_number c;
  gf_length : length code = 178%nat;
  gf_frames : 0 < c_frames c ∧ c_frames c mod MD_SVC_POOL_SIZE = 0 ∧ c_frames c ≤ UINT64_MAX - MD_SVC_POOL_SIZE - 65536 }.

Lemma fetch_app c (l1 l2 l3 : list Z) (ins : list instr) k i base :
  Forall2 (λ w i, decode w = Some i) l2 ins → ins !! k = Some i → base = c_gate c + 4 * Z.of_nat (length l1) →
  fetch c (l1 ++ l2 ++ l3) (base + 4 * Z.of_nat k) = Some i.
Proof.
  intros H Hk ->. unfold fetch. replace (c_gate c + 4 * Z.of_nat (length l1) + 4 * Z.of_nat k - c_gate c) with ((Z.of_nat (length l1 + k)) * 4) by lia.
  rewrite Z.mod_mul, Z.div_mul, Nat2Z.id by done. assert ((c_gate c + 4 * Z.of_nat (length l1) + 4 * Z.of_nat k <? c_gate c) = false) as -> by (apply Z.ltb_ge; lia).
  cbn [Z.eqb negb orb]. destruct (Forall2_lookup_r _ _ _ _ _ H Hk) as (w & Hw & Hd).
  rewrite lookup_app_r by lia. replace (length l1 + k - length l1)%nat with k by lia. rewrite lookup_app_l by (by eapply lookup_lt_Some). by rewrite Hw.
Qed.
Lemma literal_app c (l1 l2 : list Z) v pc : pc = c_gate c + 4 * Z.of_nat (length l1) → literal c (l1 ++ lo32 v :: hi32 v :: l2) pc = v.
Proof.
  intros ->. unfold literal. replace (c_gate c + 4 * Z.of_nat (length l1) - c_gate c) with (Z.of_nat (length l1) * 4) by lia. rewrite Z.div_mul, Nat2Z.id by done.
  rewrite !lookup_app_r by lia. rewrite Nat.sub_diag. replace (S (length l1) - length l1)%nat with 1%nat by lia. cbn [lookup list_lookup default from_option id].
  unfold lo32, hi32. pose proof (Z.div_mod v (2 ^ 32)). lia.
Qed.
Ltac decode_word :=
  lazymatch goal with
  | |- decode (Zpos _) = _ => vm_compute; reflexivity
  | |- decode (movk_word _ _ _) = _ => apply movk_decodes; vm_compute; (reflexivity || (split; congruence))
  | |- _ => assumption
  end.
(** The words of the body with the branches that leave the gate. *)
Lemma body_decodes frames body svc exits b_done b_kernel b_busy jump :
  md_svc_branch (body + 348) (svc + 4) = inl b_done → md_svc_branch (body + 368) (declined exits) = inl b_kernel →
  md_svc_branch (body + 376) (busy exits) = inl b_busy → decode jump = Some (B 200) →
  ∀ words, words = take 56 (reloc_words frames) ++ jump :: take 39 (drop 57 (reloc_words frames)) →
  Forall2 (λ w i, decode w = Some i)
    (put_all [(348, b_done); (368, b_kernel); (376, b_busy)] (put_all ((λ l, (at_ l, replay_word l)) <$> ["prefix"; "done_replay"; "kernel_replay"; "busy_replay"]) words))
    (body_code frames body svc exits).
Proof.
  intros [H1 _]%branch_decodes [H2 _]%branch_decodes [H3 _]%branch_decodes H4 words ->. unfold body_code.
  set (o1 := svc + 4 - (body + 348)) in *. set (o2 := declined exits - (body + 368)) in *. set (o3 := busy exits - (body + 376)) in *. clearbody o1 o2 o3.
  cbv -[movk_word decode piece].
  repeat (apply Forall2_cons_2; [decode_word|]). apply Forall2_nil_2.
Qed.

Lemma guard_decodes number gate exit_ guard :
  0 ≤ number → (if number <=? 4095 then small_guard number gate exit_ else bit_guard number (seqZ 0 64)) = inl guard →
  length guard = 64%nat ∧ ∃ l l2, guard = l ++ l2 ∧ Forall2 (λ w i, decode w = Some i) l (guard_code number gate exit_).
Proof.
  intros Hn. unfold guard_code. destruct (Z.leb_spec number 4095); intros Hg.
  - destruct (small_guard_decodes number gate exit_ guard) as (l & -> & Hl); [lia|done|]. split; [|eauto]. rewrite length_app, (Forall2_length _ _ _ Hl), length_replicate.
    unfold small_code. by destruct (number =? SYS_mmap).
  - apply bit_guard_decodes in Hg; [|done]. split; [by rewrite (Forall2_length _ _ _ Hg)|]. exists guard, []. by rewrite app_nil_r.
Qed.
Lemma put4_app off w (l1 l2 : list Z) : (length l1 ≤ Z.to_nat (off / 4))%nat → put4 off w (l1 ++ l2) = l1 ++ <[(Z.to_nat (off / 4) - length l1)%nat := w]> l2.
Proof. intros H. unfold put4. replace (Z.to_nat (off / 4)) with (length l1 + (Z.to_nat (off / 4) - length l1))%nat at 1 by lia. by rewrite insert_app_r. Qed.

Lemma relocate_ok frames body :
  md_svc_frame_relocate single_words frames = inl body →
  body = reloc_words frames ∧ frames ≠ 0 ∧ Z.land frames (MD_SVC_POOL_SIZE - 1) = 0 ∧ frames ≤ UINT64_MAX - MD_SVC_POOL_SIZE - 65536.
Proof.
  unfold md_svc_frame_relocate. destruct (_ || _ || _) eqn:E; [done|]. rewrite relocate_template. intros [= <-]. apply orb_false_iff in E as [[E1 E2%negb_false_iff]%orb_false_iff E3].
  apply Z.eqb_neq in E1. apply Z.eqb_eq in E2. apply Z.ltb_ge in E3. done.
Qed.

(** The layout of the code: the guard, the body, the literals, the end. *)
Lemma code_shape (guard : list Z) frames gate dispatch state number miss b1 b2 b3 jump1 :
  length guard = 64%nat →
  let plan := guard ++ put_all [(at_ "done_branch", b1); (at_ "kernel_branch", b2); (at_ "busy_branch", b3)]
      (put_all ((λ l : string, (at_ l, replay_word l)) <$> ["prefix"; "done_replay"; "kernel_replay"; "busy_replay"])
         (put8 (at_ "owner") gate (put8 (at_ "state") state (put8 (at_ "dispatch") dispatch (reloc_words frames))))) ++
    [lo32 number; hi32 number; miss; nop] in
  put4 (GUARD_BYTES + at_ "returned") jump1 plan
  = guard ++ put_all [(348, b1); (368, b2); (376, b3)]
      (put_all ((λ l, (at_ l, replay_word l)) <$> ["prefix"; "done_replay"; "kernel_replay"; "busy_replay"])
         (take 56 (reloc_words frames) ++ jump1 :: take 39 (drop 57 (reloc_words frames)))) ++
    [lo32 dispatch; hi32 dispatch; lo32 state; hi32 state; lo32 gate; hi32 gate; lo32 number; hi32 number; miss; nop]
  ∧ default 0 (plan !! Z.to_nat ((GUARD_BYTES + at_ "returned") / 4)) = encode (SUBi 8 31 16 1).
Proof.
  intros Hlen plan. change (GUARD_BYTES + at_ "returned") with 480. unfold plan. split.
  - rewrite put4_app by (rewrite Hlen; vm_compute; lia). f_equal. rewrite Hlen. cbv -[movk_word lo32 hi32 nop]. reflexivity.
  - change (Z.to_nat (480 / 4)) with 120%nat. rewrite lookup_app_r, Hlen by (rewrite Hlen; lia). cbv -[movk_word lo32 hi32 nop]. reflexivity.
Qed.
Lemma code_facts c dispatch exits (guard mid : list Z) miss back code :
  0 ≤ c_frames c → c_frames c ≠ 0 ∧ Z.land (c_frames c) (MD_SVC_POOL_SIZE - 1) = 0 ∧ c_frames c ≤ UINT64_MAX - MD_SVC_POOL_SIZE - 65536 →
  length guard = 64%nat → length mid = 96%nat →
  (∃ l l2, guard = l ++ l2 ∧ Forall2 (λ w i, decode w = Some i) l (guard_code (c_number c) (c_gate c) (mismatch exits))) →
  Forall2 (λ w i, decode w = Some i) mid (body_code (c_frames c) (c_gate c + 256) (c_svc c) exits) →
  decode miss = Some (B (mismatch exits - (c_gate c + 256 + 416))) → decode back = Some (B (-208)) →
  (guard ++ mid ++ [lo32 dispatch; hi32 dispatch; lo32 (c_frames c + MD_SVC_POOL_SIZE); hi32 (c_frames c + MD_SVC_POOL_SIZE); lo32 (c_gate c); hi32 (c_gate c);
     lo32 (c_number c); hi32 (c_number c); miss; nop])
    ++ [encode (SUBi 8 31 16 1); pending_load; pending_test; back; getuid_number; 0xd4000001; 0xd4200000; 0x14000000] = code →
  gate_facts c dispatch exits code.
Proof.
  intros Hfr (Hz & Hal & Hle) Hlen Hml (l & l2 & -> & Hguard) Hmid Hmiss Hback <-.
  assert (Forall2 (λ w i, decode w = Some i) [miss; nop; encode (SUBi 8 31 16 1); pending_load; pending_test; back; getuid_number; 0xd4000001; 0xd4200000; 0x14000000]
    (tail_code (c_gate c + 256) exits)) as Htail by (repeat (apply Forall2_cons_2; [first [exact Hmiss|exact Hback|vm_compute; reflexivity]|]); apply Forall2_nil_2).
  set (lits := [lo32 dispatch; hi32 dispatch; lo32 (c_frames c + MD_SVC_POOL_SIZE); hi32 (c_frames c + MD_SVC_POOL_SIZE); lo32 (c_gate c); hi32 (c_gate c); lo32 (c_number c); hi32 (c_number c)]).
  set (tail := [miss; nop; encode (SUBi 8 31 16 1); pending_load; pending_test; back; getuid_number; 0xd4000001; 0xd4200000; 0x14000000]) in *.
  match goal with |- gate_facts _ _ _ ?x => assert (x = l ++ l2 ++ mid ++ lits ++ tail) as -> by (unfold lits, tail; by rewrite <- !app_assoc) end.
  assert (length tail = 10%nat) as Htl by (by rewrite (Forall2_length _ _ _ Htail)). clearbody tail.
  assert (∀ v pc a b, lits = a ++ lo32 v :: hi32 v :: b → pc = c_gate c + 640 + 4 * Z.of_nat (length a) → literal c (l ++ l2 ++ mid ++ lits ++ tail) pc = v) as Hlit.
  { intros v pc a b E Hpc. rewrite E. replace (l ++ l2 ++ mid ++ (a ++ lo32 v :: hi32 v :: b) ++ tail) with (((l ++ l2) ++ mid ++ a) ++ lo32 v :: hi32 v :: (b ++ tail)) by (by rewrite <- !app_assoc).
    apply literal_app. rewrite !length_app in *. lia. }
  split.
  - intros k i Hk. apply (fetch_app c [] l (l2 ++ mid ++ lits ++ tail) _ k i (c_gate c) Hguard Hk). cbn. lia.
  - intros k i Hk. rewrite app_assoc. apply (fetch_app c (l ++ l2) mid (lits ++ tail) _ k i _ Hmid Hk). rewrite Hlen. lia.
  - intros k i Hk. rewrite <- (app_nil_r tail), !app_assoc, <- (app_assoc _ tail). apply (fetch_app c _ tail [] _ k i _ Htail Hk).
    rewrite !length_app in *. unfold lits. cbn [length]. lia.
  - split_and!; [by apply (Hlit _ _ [] (drop 2 lits)); [|cbn; lia]|apply (Hlit _ _ (take 2 lits) (drop 4 lits)); [done|cbn; lia]|
      apply (Hlit _ _ (take 4 lits) (drop 6 lits)); [done|cbn; lia]|apply (Hlit _ _ (take 6 lits) (drop 8 lits)); [done|cbn; lia]].
  - rewrite !length_app in *. unfold lits. cbn [length]. lia.
  - split_and!; [lia| |done]. change (MD_SVC_POOL_SIZE - 1) with (Z.ones 22) in Hal. rewrite Z.land_ones in Hal by done. exact Hal.
Qed.
Lemma inl_pair {A B C} (a a' : A) (b b' : B) : (inl (a, b) : (A * B) + C) = inl (a', b') → a = a' ∧ b = b'.
Proof. by intros [= -> ->]. Qed.
Lemma plan_facts c dispatch exits capacity code jump :
  0 ≤ c_number c → 0 ≤ c_frames c → md_svc_direct_signal_plan c dispatch exits capacity = inl (code, jump) →
  gate_facts c dispatch exits code ∧ md_svc_branch (c_svc c) (c_gate c) = inl jump.
Proof.
  intros Hnum Hfr. unfold md_svc_direct_signal_plan. case_if; [done|]. intros ([plan j] & Hplan & H)%ebind_inl. cbn [fst snd] in H.
  unfold md_svc_direct_plan in Hplan. cbv zeta in Hplan. destruct (_ || _ || _ || _) in Hplan; [done|]. destruct (capacity <? _) in Hplan; [done|].
  apply ebind_inl in Hplan as (jump0 & Hjump & (body & [-> Hframes]%relocate_ok & (miss & [Hmiss _]%branch_decodes & (guard & [Hlen Hguard]%guard_decodes & Hrest)%ebind_inl)%ebind_inl)%ebind_inl); [|done].
  apply ebind_inl in Hrest as (b_done & Hdone & (b_kernel & Hkernel & (b_busy & Hbusy & [Eplan Ej]%inl_pair)%ebind_inl)%ebind_inl).
  apply ebind_inl in H as (back & [Hback _]%branch_decodes & (jump1 & [Hjump1 _]%branch_decodes & [Ecode <-]%inl_pair)%ebind_inl). subst j. split; [|done].
  destruct (code_shape guard (c_frames c) (c_gate c) dispatch (c_frames c + MD_SVC_POOL_SIZE) (c_number c) miss b_done b_kernel b_busy jump1 Hlen) as [E1 E2].
  rewrite Eplan in E1, E2. rewrite E1, E2 in Ecode. clear E1 E2 Eplan plan. set (mid := put_all _ (put_all _ _)) in Ecode.
  assert (Forall2 (λ w i, decode w = Some i) mid (body_code (c_frames c) (c_gate c + 256) (c_svc c) exits)) as Hmid.
  { apply (body_decodes (c_frames c) (c_gate c + 256) (c_svc c) exits b_done b_kernel b_busy jump1); [exact Hdone|exact Hkernel|exact Hbusy| |done].
    rewrite Hjump1. f_equal. f_equal. change (GUARD_BYTES + at_ "returned") with 480. change md_svc_direct_size with 680. lia. }
  assert (length mid = 96%nat) as Hml by (by rewrite (Forall2_length _ _ _ Hmid)). clearbody mid.
  apply (code_facts c dispatch exits guard mid miss back code); try done.
  - rewrite Hmiss. f_equal. f_equal. change GUARD_BYTES with 256. change md_svc_single_size with 408. lia.
  - rewrite Hback. f_equal. f_equal. change (GUARD_BYTES + at_ "returned") with 480. change md_svc_direct_size with 680. lia.
Qed.
