(* ===== verification/SvcRecover.v ===== *)
(** * Running and interrupting the system call gate (svc_direct.c)

    [md_svc_direct_recover] and its correctness.  The machine runs the code that
    [md_svc_direct_signal_plan] generates, one instruction at a time, while other threads
    and the supervisor change memory: [gate_step].  The frame of a thread is its own from
    the instruction that claims it to the one that releases it.  The dispatcher, a
    function of the runtime, is a state of its own with the contract that
    svc_payload.c keeps: it runs on the stack of the frame, changes only the first of the
    saved registers, and that only when it completes the call.

    [gate_inv] describes the machine at every instruction.  From it follow what a run
    through the gate does, [gate_transparent], that it ends, [gate_progress], and that an
    interruption at any instruction is recovered exactly, [recover_exact]. *)
From stdpp Require Import strings.
From S2P Require Import Prelude Syscalls Arm64 SvcGate.

Lemma bits_above x n j : 0 ≤ x < 2 ^ n → 0 ≤ n ≤ j → Z.testbit x j = false.
Proof. intros Hx Hn. rewrite <- (Z.mod_small x (2 ^ n)) by done. by apply Z.mod_pow2_bits_high. Qed.
Lemma land_high x : 0 ≤ x < 2 ^ 64 → Z.land x (bitmask 58 57) = x / 64 * 64.
Proof.
  intros Hx. assert (bitmask 58 57 = Z.shiftl (Z.ones 58) 6) as -> by done. change 64 with (2 ^ 6) at 1 2. rewrite <- Z.shiftr_div_pow2, <- Z.shiftl_mul_pow2 by done.
  apply Z.bits_inj'. intros j Hj. rewrite Z.land_spec, !Z.shiftl_spec by done. destruct (decide (j < 6)); [rewrite !(Z.testbit_neg_r _ (j - 6)) by lia; apply andb_false_r|].
  rewrite Z.shiftr_spec by lia. replace (j - 6 + 6) with j by lia. destruct (decide (j < 64)); [rewrite Z.ones_spec_low by lia; apply andb_true_r|].
  rewrite (bits_above x 64) by lia. done.
Qed.

(** ** Recovery *)

Definition frame_for_sp (c : md_svc_direct_context) (sp : Z) : Z :=
  c_frames c + Z.land (Z.shiftr (Z.lxor sp (Z.shiftr sp 16)) 8) 63 * MD_SVC_SLOT_SIZE.
(** The start of the slot that holds a private stack pointer. *)
Definition slot_of (sp : Z) : Z := Z.ldiff (sp - 1) (MD_SVC_SLOT_SIZE - 1).
(** [memory(..,r->regs,31*8,0)]. *)
Definition load_gprs (m : Z → Z) (frame : Z) (r : user_pt_regs) : user_pt_regs :=
  mk_regs (λ n, if (0 <=? n) && (n <=? 30) then m (frame + MD_SVC_FRAME_OFFSET + 8 * n) else r_x r n) (r_sp r) (r_pc r) (r_pstate r).
Definition set_sp (v : Z) (r : user_pt_regs) : user_pt_regs := mk_regs (r_x r) v (r_pc r) (r_pstate r).

(** [err a]: the error of an access at [a], 0 when it succeeds.  The result: 1 with the
    registers of the guest, 2 to wait, 0 outside, or an error. *)
Section recover.
Context (err : Z → Z) (c : md_svc_direct_context).
Definition recovered : Type := user_pt_regs * (Z → Z) * Z.
(** An access, and what follows it. *)
Definition access (a : Z) (r : user_pt_regs) (m : Z → Z) (k : recovered) : recovered := if err a =? 0 then k else (r, m, err a).
Definition recover_finish (frame : Z) (done : bool) (r : user_pt_regs) (m : Z → Z) : recovered :=
  let r := set_pc (c_svc c + (if done then 4 else 0)) (set_x 8 (c_number c) r) in
  if frame =? 0 then (r, m, 1)
  else
    access (frame + MD_SVC_DIRECT_PENDING) r m
      (let m := upd (frame + MD_SVC_DIRECT_PENDING) 0 m in
       access frame r m (r, upd frame 0 m, 1)).
(** Behind the dispatcher: the registers come from the frame. *)
Definition recover_reload (frame : Z) (done : bool) (r : user_pt_regs) (m : Z → Z) : recovered :=
  access (frame + MD_SVC_FRAME_OFFSET) r m
    (let r := load_gprs m frame r in
     access (frame + MD_SVC_SAVED_SP) r m
       (let r := set_sp (m (frame + MD_SVC_SAVED_SP)) r in
        access (frame + MD_SVC_FRAME_OFFSET + 248) r m
          (recover_finish frame done (set_nzcv (m (frame + MD_SVC_FRAME_OFFSET + 248)) r) m))).
Definition recover_returned (body : Z) (tail private_sp : bool) (r : user_pt_regs) (m : Z → Z) : recovered :=
  let pc := r_pc r in
  let a l := body + at_ l in
  if (a "done_replay" <=? pc) && (pc <=? a "done_branch") then recover_finish 0 true r m
  else if (a "kernel_replay" <=? pc) && (pc <=? a "kernel_branch") then recover_finish 0 false r m
  else
    let early := tail || (pc <? a "returned" + 8) in
    if early && negb private_sp then (r, m, - EINVAL)
    else
      let frame := if early then slot_of (r_sp r)
                   else if (pc =? a "done" + 8) || (pc =? a "kernel" + 8) then r_x r 8
                   else wrap64 (r_x r 8 - MD_SVC_FRAME_OFFSET) in
      if (frame <? c_frames c) || (c_frames c + MD_SVC_POOL_SIZE <=? frame) || negb (frame mod MD_SVC_SLOT_SIZE =? 0) then (r, m, - EINVAL)
      else if tail || (pc <? a "outcome") then recover_reload frame (negb (r_x r 0 =? 0)) r m
      else
        access (frame + MD_SVC_FRAME_OFFSET + 272) r m
          (let target := m (frame + MD_SVC_FRAME_OFFSET + 272) in
           if negb (target =? a "done") && negb (target =? a "kernel") then (r, m, - EINVAL)
           else recover_reload frame (target =? a "done") r m).
Definition recover_entering (body : Z) (private_sp : bool) (r : user_pt_regs) (m : Z → Z) : recovered :=
  let pc := r_pc r in
  let a l := body + at_ l in
  let frame := if (a "saved_sp" <=? pc) && private_sp then slot_of (r_sp r) else frame_for_sp c (r_sp r) in
  let claimed r := if (pc <? a "claimed") || ((pc =? a "claimed") && negb (r_x r 8 =? 0)) then 0 else frame in
  let gprs r :=
    if a "saved_gprs" <=? pc then access (frame + MD_SVC_FRAME_OFFSET) r m (let r := load_gprs m frame r in recover_finish (claimed r) false r m)
    else if a "borrow_lr" <=? pc
    then access (frame + MD_SVC_FRAME_OFFSET + 240) r m (let r := set_x 30 (m (frame + MD_SVC_FRAME_OFFSET + 240)) r in recover_finish (claimed r) false r m)
    else recover_finish (claimed r) false r m in
  if a "saved_sp" <=? pc then access (frame + MD_SVC_SAVED_SP) r m (gprs (set_sp (m (frame + MD_SVC_SAVED_SP)) r)) else gprs r.
Definition recover_payload (r : user_pt_regs) (m : Z → Z) : recovered :=
  let frame := slot_of (r_sp r) in
  access (frame + MD_SVC_OWNER_OFFSET) r m
    (access frame r m
       (if (m frame =? 0) || negb (m (frame + MD_SVC_OWNER_OFFSET) =? c_gate c) then (r, m, 0)
        else access (frame + MD_SVC_DIRECT_PENDING) r m (r, upd (frame + MD_SVC_DIRECT_PENDING) 1 m, 2))).
Definition md_svc_direct_recover (r : user_pt_regs) (m : Z → Z) : recovered :=
  let body := c_gate c + GUARD_BYTES in
  let pc := r_pc r in
  let size := md_svc_direct_size in
  let a l := body + at_ l in
  if (c_gate c <=? pc) && (pc <? body) || (pc =? body + md_svc_single_size + 8) then
    let scratch := (c_number c <=? 4095) && ((pc =? c_gate c + 4) || (pc =? c_gate c + 8) || (pc =? c_gate c + 12)
                     || (c_number c =? SYS_mmap) && (c_gate c + MAP_GUARD <=? pc) && (pc <=? c_gate c + MAP_GUARD_END)) in
    (set_pc (c_svc c) (if scratch then set_x 8 (wrap64 (r_x r 8 + c_number c)) r else r), m, 1)
  else
    let private_sp := (c_frames c <? r_sp r) && (r_sp r <=? c_frames c + MD_SVC_POOL_SIZE) in
    let tail := (c_gate c + size <=? pc) && (pc <=? c_gate c + size + 24) in
    let post := (a "returned" <=? pc) && (pc <? a "busy_replay") in
    if tail || post then recover_returned body tail private_sp r m
    else if (body <=? pc) && (pc <=? a "invoke") then recover_entering body private_sp r m
    else if (pc =? a "busy_replay") || (pc =? a "busy_branch") then recover_finish 0 false r m
    else if private_sp then recover_payload r m
    else (r, m, 0).
End recover.

(** ** The machine *)

Inductive mode := Gate | Payload.
(** [g_own]: the thread owns the frame; [g_result]: the result with which the dispatcher has
    completed the call. *)
Record gate_state := mk_gate { g_cpu : cpu; g_own : bool; g_mode : mode; g_result : option Z }.
Definition own_after (i : instr) (s : cpu) (own : bool) : bool :=
  match i with SWPAL _ _ rn => c_mem s (xs (c_regs s) rn) =? 0 | STLR _ _ => false | _ => own end.
Definition mode_after (i : instr) : mode := match i with BLR _ => Payload | _ => Gate end.
(** Memory that others may change: everything but a frame that is owned, where only the
    pending word changes. *)
Definition others (f : Z) (own : bool) (m m' : Z → Z) : Prop :=
  own = true → ∀ a, f ≤ a < f + MD_SVC_SLOT_SIZE → a ≠ f + MD_SVC_DIRECT_PENDING → m' a = m a.
(** What the dispatcher leaves: all saved registers but the first, the flags, the owner,
    the stack pointer and the claim. *)
Definition keeps (f : Z) (m m' : Z → Z) : Prop :=
  (∀ n, 1 ≤ n ≤ 30 → m' (f + 64 + 8 * n) = m (f + 64 + 8 * n)) ∧ m' f = m f ∧ m' (f + 312) = m (f + 312) ∧ m' (f + 384) = m (f + 384) ∧ m' (f + 864) = m (f + 864).

(** PSTATE but the flags. *)
Definition same_state (r r' : user_pt_regs) : Prop := Z.ldiff (r_pstate r') NZCV = Z.ldiff (r_pstate r) NZCV.

Section gate.
Context (c : md_svc_direct_context) (dispatch : Z) (exits : md_svc_direct_fallback) (code : list Z).
Definition in_gate (pc : Z) : Prop := c_gate c ≤ pc < c_gate c + md_svc_direct_signal_size.

(** The registers [o] are those with which the guest entered the gate. *)
Inductive gate_step (o : user_pt_regs) : gate_state → gate_state → Prop :=
  | step_exec s own i s' res :
      fetch c code (r_pc (c_regs s)) = Some i → exec (literal c code) i s = Some s' →
      gate_step o (mk_gate s own Gate res) (mk_gate s' (own_after i s own) (mode_after i) res)
  | step_others r m m' own md res : others (frame_for_sp c (r_sp o)) own m m' → gate_step o (mk_gate (mk_cpu r m) own md res) (mk_gate (mk_cpu r m') own md res)
  | step_payload r m r' m' own res :
      let f := frame_for_sp c (r_sp o) in
      keeps f m m' → same_state r r' → f + 32768 < r_sp r' ≤ f + MD_SVC_SLOT_SIZE → ¬ in_gate (r_pc r') →
      gate_step o (mk_gate (mk_cpu r m) own Payload res) (mk_gate (mk_cpu r' m') own Payload res)
  | step_return r m r' m' own res :
      let f := frame_for_sp c (r_sp o) in
      keeps f m m' → same_state r r' → r_sp r' = f + MD_SVC_SLOT_SIZE → r_pc r' = c_gate c + GUARD_BYTES + at_ "returned" →
      0 ≤ r_x r' 0 < 2 ^ 32 → (r_x r' 0 = 0 → m' (f + 64) = r_x o 0) →
      gate_step o (mk_gate (mk_cpu r m) own Payload res) (mk_gate (mk_cpu r' m') own Gate (if r_x r' 0 =? 0 then None else Some (m' (f + 64)))).

(** Registers as ptrace sets them, and an entry: the guest is not on a private stack. *)
Definition wf_regs (r : user_pt_regs) : Prop :=
  (∀ n, 0 ≤ n ≤ 30 → 0 ≤ r_x r n ≤ UINT64_MAX) ∧ 0 ≤ r_sp r ≤ UINT64_MAX ∧ 0 ≤ r_pstate r ≤ UINT64_MAX.
Definition outside_pool (sp : Z) : Prop := sp ≤ c_frames c ∨ c_frames c + MD_SVC_POOL_SIZE < sp.
Definition entry (r : user_pt_regs) : Prop := wf_regs r ∧ outside_pool (r_sp r) ∧ r_pc r = c_gate c.
Inductive gate_reach (o : user_pt_regs) : gate_state → Prop :=
  | reach_entry m : gate_reach o (mk_gate (mk_cpu o m) false Gate None)
  | reach_step s s' : gate_reach o s → gate_step o s s' → gate_reach o s'.

(** ** The machine at every instruction *)

Context (o : user_pt_regs).
Local Notation body := (c_gate c + 256).
Local Notation f := (frame_for_sp c (r_sp o)).
(** The values of the register in which the address of the frame is computed. *)
Definition slot2 : Z := Z.lxor (r_sp o) (Z.shiftr (r_sp o) 16).
Definition slot3 : Z := fld slot2 8 6.
Definition slot4 : Z := set_fld slot3 16 16 (piece (c_frames c) 1).
Definition slot5 : Z := set_fld slot4 32 16 (piece (c_frames c) 2).
Definition slot6 : Z := set_fld slot5 48 16 (piece (c_frames c) 3).
Definition slot7 : Z := set_fld slot6 16 6 (fld slot6 0 6).
Definition slot_val (j : Z) : Z :=
  if j =? 1 then r_sp o else if j =? 2 then slot2 else if j =? 3 then slot3 else if j =? 4 then slot4 else if j =? 5 then slot5
  else if j =? 6 then slot6 else if j =? 7 then slot7 else f.

(** The registers but those of a list are those of the entry. *)
Definition same (l : list Z) (r : user_pt_regs) : Prop := ∀ n, 0 ≤ n ≤ 30 → n ∉ l → r_x r n = r_x o n.
Definition stack_flags (r : user_pt_regs) : Prop := r_sp r = r_sp o ∧ r_pstate r = r_pstate o.
Definition claimed (m : Z → Z) : Prop := m f = f.
Definition saved (m : Z → Z) (v : Z) (k : Z) : Prop := ∀ n, 0 ≤ n < k → m (f + 64 + 8 * n) = if n =? 0 then v else r_x o n.
(** The registers, the flags, the owner and the stack pointer are in the frame. *)
Definition context_saved (m : Z → Z) (v : Z) : Prop :=
  claimed m ∧ saved m v 31 ∧ m (f + 312) = Z.land (r_pstate o) NZCV ∧ m (f + 384) = c_gate c ∧ m (f + 864) = r_sp o.
(** The call has ended with the result [v], or the dispatcher has declined it. *)
Definition outcome (res : option Z) (done : bool) (v : Z) : Prop := res = (if done then Some v else None) ∧ (done = false → v = r_x o 0).
Definition target (done : bool) : Z := body + (if done then 332 else 352).
Definition resumed (v : Z) (n : Z) : Z := if n =? 0 then v else r_x o n.

Definition at_body (k : Z) (r : user_pt_regs) : Prop := r_pc r = body + 4 * k.
Definition at_end (j : Z) (r : user_pt_regs) : Prop := r_pc r = c_gate c + 680 + 4 * j.
(** The calls for which the gate was made: its number, and of [mmap] those that replace
    with anonymous memory. *)
Definition admits : Prop := r_x o 8 = c_number c ∧ (c_number c = SYS_mmap → Z.testbit (r_x o 3) 4 = true ∧ Z.testbit (r_x o 3) 5 = true).
Definition guard_ok (k : Z) (r : user_pt_regs) : Prop :=
  let n := c_number c in
  if n <=? 4095 then
    (k = 0 ∨ k = 4 ∧ ¬ admits) ∧ r_x r 8 = r_x o 8 ∨ (k = 1 ∨ k = 3 ∧ ¬ admits) ∧ r_x r 8 = wrap64 (r_x o 8 - n)
    ∨ (k = 2 ∨ n = SYS_mmap ∧ 8 ≤ k ≤ 10 ∧ (9 ≤ k → Z.testbit (r_x o 3) 4 = true) ∧ (k = 10 → Z.testbit (r_x o 3) 5 = true)) ∧ r_x o 8 = n ∧ r_x r 8 = 0
  else 0 ≤ k < 64 ∧ r_x r 8 = r_x o 8 ∧ ∀ b, 0 ≤ b < k → Z.testbit (r_x o 8) b = Z.testbit n b.
(** Behind the dispatcher, up to the choice of the exit. *)
Definition returning (r : user_pt_regs) : Prop :=
  at_body 56 r ∨ at_end 0 r ∨ (∃ j, 1 ≤ j ≤ 3 ∧ at_end j r ∧ r_x r 8 = f) ∨ (∃ j, 4 ≤ j ≤ 5 ∧ at_end j r) ∨ at_body 57 r ∧ r_x r 8 = f
  ∨ r_x r 8 = f + 64 ∧ (at_body 58 r ∨ at_body 59 r ∧ r_x r 30 = target true ∨ at_body 60 r ∧ r_x r 0 = 0 ∨ at_body 61 r ∧ r_x r 30 = target (negb (r_x r 0 =? 0))).

Inductive gate_inv : gate_state → Prop :=
  | inv_guard r m k : r_pc r = c_gate c + 4 * k → same [8] r → stack_flags r → guard_ok k r → gate_inv (mk_gate (mk_cpu r m) false Gate None)
  | inv_miss r m : r_pc r = c_gate c + 672 → same [] r → stack_flags r → ¬ admits → gate_inv (mk_gate (mk_cpu r m) false Gate None)
  | inv_exit r m : r_pc r = mismatch exits ∧ ¬ admits ∨ r_pc r ∈ [declined exits; busy exits] ∧ admits → same [] r → stack_flags r → gate_inv (mk_gate (mk_cpu r m) false Gate None)
  | inv_done r m v : r_pc r = c_svc c + 4 → (∀ n, 0 ≤ n ≤ 30 → r_x r n = resumed v n) → stack_flags r → admits → gate_inv (mk_gate (mk_cpu r m) false Gate (Some v))
  | inv_slot r m k :
      0 ≤ k ≤ 8 → at_body k r → same [8] r → stack_flags r → admits → (1 ≤ k → r_x r 8 = slot_val k) →
      gate_inv (mk_gate (mk_cpu r m) false Gate None)
  | inv_claim r m own :
      at_body 9 r → same [8] r → stack_flags r → admits → own = (r_x r 8 =? 0) → (own = true → claimed m) →
      gate_inv (mk_gate (mk_cpu r m) own Gate None)
  | inv_owned r m k :
      10 ≤ k ≤ 19 → at_body k r → same [8] r → stack_flags r → admits → claimed m →
      (11 ≤ k ≤ 18 → r_x r 8 = slot_val (k - 10)) → (k = 19 → m (f + 304) = r_x o 30) → gate_inv (mk_gate (mk_cpu r m) true Gate None)
  | inv_lr r m k :
      20 ≤ k ≤ 43 → at_body k r → same [30] r → stack_flags r → admits → claimed m → m (f + 304) = r_x o 30 →
      (21 ≤ k ≤ 28 → r_x r 30 = slot_val (k - 20)) → (29 ≤ k → r_x r 30 = f + 64 ∧ saved m (r_x o 0) (2 * (k - 29))) → gate_inv (mk_gate (mk_cpu r m) true Gate None)
  | inv_saved r m k :
      44 ≤ k ≤ 49 → at_body k r → stack_flags r → admits → r_x r 30 = f + 64 → claimed m → saved m (r_x o 0) 31 →
      (k = 45 → r_x r 1 = c_gate c) → (46 ≤ k → m (f + 384) = c_gate c) → (k = 47 → r_x r 8 = Z.land (r_pstate o) NZCV) →
      (48 ≤ k → m (f + 312) = Z.land (r_pstate o) NZCV) → (k = 49 → r_x r 8 = r_sp o) → gate_inv (mk_gate (mk_cpu r m) true Gate None)
  | inv_switch r m k :
      50 ≤ k ≤ 55 → at_body k r → r_pstate r = r_pstate o → admits → context_saved m (r_x o 0) →
      r_sp r = (if k <=? 52 then r_sp o else f + 65536) → (k ≤ 51 → r_x r 30 = f + 64) → (k = 52 → r_x r 30 = f) → (54 ≤ k → r_x r 16 = dispatch) →
      gate_inv (mk_gate (mk_cpu r m) true Gate None)
  | inv_payload r m v :
      same_state o r → admits → context_saved m v → f + 32768 < r_sp r ≤ f + 65536 → ¬ in_gate (r_pc r) →
      gate_inv (mk_gate (mk_cpu r m) true Payload None)
  | inv_back r m v res :
      same_state o r → admits → context_saved m v → r_sp r = f + 65536 → 0 ≤ r_x r 0 < 2 ^ 32 → outcome res (negb (r_x r 0 =? 0)) v → returning r →
      gate_inv (mk_gate (mk_cpu r m) true Gate res)
  | inv_restore r m k done v res :
      62 ≤ k ≤ 82 → at_body k r → same_state o r → admits → context_saved m v → m (f + 336) = target done → outcome res done v → r_x r 8 = f + 64 →
      (k = 63 → r_x r 30 = r_sp o) → (64 ≤ k → r_sp r = r_sp o) → (k = 65 → r_x r 30 = Z.land (r_pstate o) NZCV) → (66 ≤ k → r_pstate r = r_pstate o) →
      (66 ≤ k → ∀ n, 0 ≤ n < 30 → n < 2 * (k - 66) → n ≠ 8 → r_x r n = resumed v n) → (k = 82 → r_x r 30 = target done) → gate_inv (mk_gate (mk_cpu r m) true Gate res)
  | inv_final r m k done v res :
      0 ≤ k ≤ 2 → r_pc r = target done + 4 * k → stack_flags r → admits → context_saved m v → m (f + 336) = target done → outcome res done v →
      (∀ n, 0 ≤ n < 30 → n ≠ 8 → r_x r n = resumed v n) → r_x r 8 = (if k =? 2 then f else f + 64) → (1 ≤ k → r_x r 30 = resumed v 30) →
      gate_inv (mk_gate (mk_cpu r m) true Gate res)
  | inv_replay r m k done v res :
      3 ≤ k ≤ 4 → r_pc r = target done + 4 * k → stack_flags r → admits → outcome res done v →
      (∀ n, 0 ≤ n ≤ 30 → n ≠ 8 → r_x r n = resumed v n) → (k = 4 → r_x r 8 = c_number c) → gate_inv (mk_gate (mk_cpu r m) false Gate res)
  | inv_busy r m k :
      93 ≤ k ≤ 94 → at_body k r → same [8] r → stack_flags r → admits → (k = 94 → r_x r 8 = c_number c) → gate_inv (mk_gate (mk_cpu r m) false Gate None).

(** ** The invariant holds *)

Context (Hfacts : gate_facts c dispatch exits code) (Hwf : wf_regs o).
Context (Hgate : 0 ≤ c_gate c ∧ c_gate c + md_svc_direct_signal_size ≤ UINT64_MAX) (Hnum : 0 ≤ c_number c ≤ UINT64_MAX).
Context (Hexits : ∀ pc, pc ∈ [mismatch exits; declined exits; busy exits; c_svc c + 4; dispatch] → 0 ≤ pc ≤ UINT64_MAX ∧ ¬ in_gate pc).

Lemma frames_bound : 0 < c_frames c ∧ c_frames c mod 4194304 = 0 ∧ c_frames c + 4194304 + 65536 ≤ UINT64_MAX.
Proof using Hfacts. destruct (gf_frames _ _ _ _ Hfacts) as (? & ? & ?). unfold MD_SVC_POOL_SIZE, MD_SVC_SLOT_SIZE in *. split_and!; [done|done|lia]. Qed.
Lemma frame_index : ∃ i, 0 ≤ i < 64 ∧ i = fld (Z.lxor (r_sp o) (Z.shiftr (r_sp o) 16)) 8 6 ∧ f = c_frames c + 65536 * i.
Proof using.
  exists (fld (Z.lxor (r_sp o) (Z.shiftr (r_sp o) 16)) 8 6). split; [by apply (fld_bound _ 8 6)|]. split; [done|]. unfold frame_for_sp. change 63 with (Z.ones 6).
  rewrite Z.land_ones, Z.shiftr_div_pow2 by done. unfold fld, MD_SVC_SLOT_SIZE. lia.
Qed.
Lemma piece_fld half : 0 ≤ half → piece (c_frames c) half = fld (c_frames c) (16 * half) 16.
Proof using. intros H. unfold piece, fld. change 65535 with (Z.ones 16). rewrite Z.land_ones, Z.shiftr_div_pow2 by lia. by rewrite Z.mul_comm. Qed.
Lemma slot_last : Z.land (slot_val 7) (bitmask 58 57) = f.
Proof using Hfacts.
  destruct frame_index as (i & Hi & Ei & Ef). destruct frames_bound as (H0 & Hm & Hb). unfold UINT64_MAX in Hb. change (slot_val 7) with slot7. fold slot2 in Ei. fold slot3 in Ei. unfold slot7, slot6, slot5, slot4. rewrite <- Ei, !piece_fld by done.
  change (16 * 1) with 16. change (16 * 2) with 32. change (16 * 3) with 48. set (F := c_frames c) in *. clearbody F.
  assert (F = 65536 * fld F 16 16 + 4294967296 * fld F 32 16 + 281474976710656 * fld F 48 16) as EF by fields.
  pose proof (fld_bound F 16 16 ltac:(done)) as B1. pose proof (fld_bound F 32 16 ltac:(done)) as B2. pose proof (fld_bound F 48 16 ltac:(done)) as B3.
  assert (set_fld (set_fld (set_fld i 16 16 (fld F 16 16)) 32 16 (fld F 32 16)) 48 16 (fld F 48 16) = F + i) as ->.
  { set (a := fld F 16 16) in *. set (b := fld F 32 16) in *. set (d := fld F 48 16) in *. clearbody a b d. clear Hm Ei.
    assert (set_fld i 16 16 a = i + 65536 * a) as -> by (unfold set_fld; assert (fld i 16 16 = 0) as -> by fields; lia).
    assert (set_fld (i + 65536 * a) 32 16 b = i + 65536 * a + 4294967296 * b) as -> by (unfold set_fld; assert (fld (i + 65536 * a) 32 16 = 0) as -> by fields; lia).
    unfold set_fld. assert (fld (i + 65536 * a + 4294967296 * b) 48 16 = 0) as -> by fields. lia. }
  clear EF B1 B2 B3. assert (fld (F + i) 0 6 = i) as -> by fields. unfold set_fld. assert (fld (F + i) 16 6 = 0) as -> by fields.
  replace (F + i - 0 * 2 ^ 16 + i * 2 ^ 16) with (i + 64 * (F / 64 + 1024 * i)) by fields.
  rewrite Ef, land_high by fields. fields.
Qed.

Lemma f_bound : 0 < f ∧ f mod 65536 = 0 ∧ c_frames c ≤ f ≤ c_frames c + 4194304 - 65536 ∧ f + 131072 ≤ UINT64_MAX.
Proof using Hfacts.
  destruct frame_index as (i & Hi & _ & ->). destruct frames_bound as (H0 & Hm & Hb). split_and!; [lia| |lia..].
  rewrite (Z.mul_comm 65536), Z.mod_add by lia. divlia.
Qed.
Lemma body_fetch k n i pc : pc = body + 4 * k → k = Z.of_nat n → body_code (c_frames c) body (c_svc c) exits !! n = Some i → fetch c code pc = Some i.
Proof using Hfacts. intros -> -> Hi. by apply (gf_body _ _ _ _ Hfacts). Qed.
Lemma end_fetch j n i pc : pc = c_gate c + 680 + 4 * j → j + 2 = Z.of_nat n → tail_code body exits !! n = Some i → fetch c code pc = Some i.
Proof using Hfacts. intros -> Hj Hi. replace (c_gate c + 680 + 4 * j) with (c_gate c + 672 + 4 * Z.of_nat n) by lia. by apply (gf_tail _ _ _ _ Hfacts). Qed.
Lemma pc_in pc d pc' : pc' = pc + d → c_gate c ≤ pc' < c_gate c + 712 → wrap64 (pc + d) = pc'.
Proof using Hgate. intros -> Hk. destruct Hgate as [? Hg]. change md_svc_direct_signal_size with 712 in Hg. apply wrap64_small. lia. Qed.
Lemma same_upd l n v x sp pc ps sp' pc' ps' : same l (mk_regs x sp pc ps) → n ∈ l → same l (mk_regs (upd n v x) sp' pc' ps').
Proof using. intros Hs Hn y Hy Hl. cbn. unfold upd. destruct (Z.eqb_spec y n) as [->|]; [done|]. by apply Hs. Qed.

Ltac each k lo n :=
  let Hk := fresh "Hk" in assert (k ∈ seqZ lo n) as Hk by (apply elem_of_seqZ; lia); vm_compute in Hk;
  repeat (apply elem_of_cons in Hk as [->|Hk]); [..|by apply elem_of_nil in Hk].
Ltac sim H := cbv beta iota zeta delta [exec c_regs c_mem set_x set_xs set_pc set_nzcv xr xs r_x r_sp r_pc r_pstate Z.eqb Pos.eqb] in H.
Ltac sim_goal := cbv beta iota zeta delta [own_after mode_after c_regs c_mem set_x set_xs set_pc xr xs r_x r_sp r_pc r_pstate Z.eqb Pos.eqb].
Ltac run Hfetch Hf Hx :=
  rewrite Hfetch in Hf; injection Hf as <-; sim Hx; injection Hx as <-; sim_goal; try change (2 ^ (12 * 0)) with 1; try change (2 ^ (12 * 1)) with 4096.
Ltac run_body Hf Hx Hpc n := run (body_fetch _ n _ _ Hpc eq_refl eq_refl) Hf Hx.
Lemma xr_x r n : n ≠ 31 → xr r n = r_x r n.
Proof using. intros Hn. unfold xr. by rewrite (proj2 (Z.eqb_neq n 31)). Qed.
Ltac sim_branch H := cbn [exec c_regs c_mem r_pc] in H; rewrite ?xr_x in H by done; unfold set_pc in H; cbn [r_x r_sp r_pc r_pstate] in H.
Ltac open_state :=
  match goal with r : user_pt_regs |- context [mk_cpu ?r _] => destruct r as [x sp pc ps] end;
  unfold at_body, at_end, stack_flags in *; cbn [r_x r_sp r_pc r_pstate] in *.
(** A store in the frame, seen at another offset. *)
Lemma upd_other a b v (m : Z → Z) : b ≠ a → upd a v m b = m b.
Proof using. intros H. unfold upd. by rewrite (proj2 (Z.eqb_neq b a)). Qed.
Lemma upd_here a v (m : Z → Z) : upd a v m a = v.
Proof using. unfold upd. by rewrite Z.eqb_refl. Qed.
Ltac see := unfold at_body, at_end; cbn [r_x r_sp r_pc r_pstate]; rewrite ?upd_here; repeat rewrite upd_other by done.

Ltac fin := see; try done; try lia; try (apply pc_in; lia); auto with lia.

(** One instruction of the computation of the frame address, in the register [reg]. *)
Lemma slot_instr k0 reg k i x sp pc ps m own s' :
  (k0, reg) ∈ [(0, 8); (10, 8); (20, 30)] → 0 ≤ k ≤ 7 → pc = body + 4 * (k0 + k) → sp = r_sp o → (1 ≤ k → x reg = slot_val k) →
  fetch c code pc = Some i → exec (literal c code) i (mk_cpu (mk_regs x sp pc ps) m) = Some s' →
  s' = mk_cpu (mk_regs (upd reg (slot_val (k + 1)) x) sp (body + 4 * (k0 + k + 1)) ps) m ∧ own_after i (mk_cpu (mk_regs x sp pc ps) m) own = own ∧ mode_after i = Gate.
Proof using Hfacts Hgate Hwf.
  intros Hk0 Hk Hpc Hsp Hv Hf Hx. assert (0 ≤ sp ≤ UINT64_MAX) as Hwsp by (rewrite Hsp; apply Hwf).
  assert (wrap64 (pc + 4) = body + 4 * (k0 + k + 1)) as <-.
  { apply pc_in; [lia|]. rewrite !elem_of_cons, elem_of_nil in Hk0. destruct Hk0 as [[= -> ->]|[[= -> ->]|[[= -> ->]|[]]]]; lia. }
  assert (slot_code (c_frames c) reg !! Z.to_nat k = Some i) as Hi.
  { rewrite (body_fetch (k0 + k) (Z.to_nat (k0 + k)) (default NOP (slot_code (c_frames c) reg !! Z.to_nat k)) pc) in Hf; [|done|..].
    - injection Hf as <-. each k 0 8; done.
    - rewrite !elem_of_cons, elem_of_nil in Hk0. destruct Hk0 as [[= -> ->]|[[= -> ->]|[[= -> ->]|[]]]]; lia.
    - rewrite !elem_of_cons, elem_of_nil in Hk0. destruct Hk0 as [[= -> ->]|[[= -> ->]|[[= -> ->]|[]]]]; each k 0 8; done. }
  assert (reg = 8 ∨ reg = 30) as Hreg by (rewrite !elem_of_cons, elem_of_nil in Hk0; destruct Hk0 as [[= -> ->]|[[= -> ->]|[[= -> ->]|[]]]]; auto).
  clear Hf Hk0 Hpc. each k 0 8; injection Hi as <-; (split; [|split; reflexivity]); destruct Hreg as [-> | ->]; sim Hx; injection Hx as <-.
  1,2: replace (sp + 0 * 2 ^ (12 * 0)) with sp by lia; rewrite wrap64_small by done; by subst sp.
  1-12: rewrite Hv by lia; unfold slot_val; cbn [Z.add Pos.add Z.eqb Pos.eqb Pos.succ]; reflexivity.
  all: rewrite Hv, slot_last by lia; unfold slot_val; cbn [Z.add Pos.add Z.eqb Pos.eqb Pos.succ]; reflexivity.
Qed.
Lemma slot_exec r m k i s' :
  0 ≤ k ≤ 8 → at_body k r → same [8] r → stack_flags r → admits → (1 ≤ k → r_x r 8 = slot_val k) →
  fetch c code (r_pc r) = Some i → exec (literal c code) i (mk_cpu r m) = Some s' → gate_inv (mk_gate s' (own_after i (mk_cpu r m) false) (mode_after i) None).
Proof using Hfacts Hgate Hwf.
  open_state. intros Hk Hpc Hs [Hsp Hps] Hn Hv Hf Hx. destruct (decide (k = 8)) as [->|].
  - specialize (Hv ltac:(lia)). run_body Hf Hx Hpc 8%nat. destruct f_bound as (Hf0 & Hf1 & Hf2 & Hf3). change (slot_val 8) with f in Hv. rewrite Hv.
    rewrite (wrap64_small (f + 0)), Z.add_0_r by lia. change (match m f with 0 => true | _ => false end) with (m f =? 0).
    apply inv_claim; see; [apply pc_in; lia|eapply same_upd; [exact Hs|by left]|done|done|done|]. intros _. unfold claimed. by rewrite upd_here.
  - destruct (slot_instr 0 8 k i x sp pc ps m false s') as (-> & -> & ->); [by left|lia|lia|done|done|done|done|].
    apply (inv_slot _ _ (k + 1)); see; [lia|lia|eapply same_upd; [exact Hs|by left]|done|done|done].
Qed.
Lemma claim_exec r m own i s' :
  at_body 9 r → same [8] r → stack_flags r → admits → own = (r_x r 8 =? 0) → (own = true → claimed m) →
  fetch c code (r_pc r) = Some i → exec (literal c code) i (mk_cpu r m) = Some s' → gate_inv (mk_gate s' (own_after i (mk_cpu r m) own) (mode_after i) None).
Proof using Hfacts Hgate Hwf.
  open_state. intros Hpc Hs [Hsp Hps] Hn Hown Hm Hf Hx. rewrite (body_fetch _ 9%nat _ _ Hpc eq_refl eq_refl) in Hf. injection Hf as <-. sim_branch Hx.
  destruct (Z.eqb_spec (x 8) 0) as [E|E]; subst own; cbn [negb] in Hx; injection Hx as <-; cbn [own_after mode_after].
  - apply (inv_owned _ _ 10); see; [lia|apply pc_in; lia|done|done|done|by apply Hm|lia|lia].
  - apply (inv_busy _ _ 93); see; [lia|apply pc_in; lia|done|done|done|lia].
Qed.
Lemma owned_exec r m k i s' :
  10 ≤ k ≤ 19 → at_body k r → same [8] r → stack_flags r → admits → claimed m →
  (11 ≤ k ≤ 18 → r_x r 8 = slot_val (k - 10)) → (k = 19 → m (f + 304) = r_x o 30) →
  fetch c code (r_pc r) = Some i → exec (literal c code) i (mk_cpu r m) = Some s' → gate_inv (mk_gate s' (own_after i (mk_cpu r m) true) (mode_after i) None).
Proof using Hfacts Hgate Hwf.
  open_state. intros Hk Hpc Hs [Hsp Hps] Hn Hm Hv Hsaved Hf Hx. destruct f_bound as (Hf0 & Hf1 & Hf2 & Hf3). destruct (decide (k ≤ 17)); [|destruct (decide (k = 18)) as [->|]].
  - destruct (slot_instr 10 8 (k - 10) i x sp pc ps m true s') as (-> & -> & ->); [by right; left|lia|lia|done|intros; apply Hv; lia|done|done|].
    apply (inv_owned _ _ (k + 1)); see; [lia|lia|eapply same_upd; [exact Hs|by left]|done|done|done|intros _; f_equal; lia|lia].
  - specialize (Hv ltac:(lia)). change (slot_val (18 - 10)) with f in Hv. run_body Hf Hx Hpc 18%nat. rewrite Hv. rewrite (wrap64_small (f + 304)) by lia.
    apply (inv_owned _ _ 19); see; [lia|apply pc_in; lia|done|done|done| |lia|].
    + unfold claimed in *. by rewrite upd_other by lia.
    + intros _. apply Hs; [lia|]. by intros [?|?%elem_of_nil]%elem_of_cons.
  - assert (k = 19) as -> by lia. run_body Hf Hx Hpc 19%nat. apply (inv_lr _ _ 20); see; [lia|apply pc_in; lia| |done|done|done|auto|lia|lia].
    intros y Hy Hl. cbn. unfold upd. destruct (Z.eqb_spec y 8) as [->|]; [|apply Hs; [done|]; intros [?|?%elem_of_nil]%elem_of_cons; lia].
    rewrite (proj1 Hn), (pc_in pc 332 (c_gate c + 664)) by lia. apply (gf_literals _ _ _ _ Hfacts).
Qed.

Lemma save_lookup k : 29 ≤ k ≤ 43 → body_code (c_frames c) body (c_svc c) exits !! Z.to_nat k = Some (STP (2 * (k - 29)) (2 * (k - 29) + 1) 30 (16 * (k - 29))).
Proof using. intros Hk. each k 29 15; reflexivity. Qed.
Lemma lr_exec r m k i s' :
  20 ≤ k ≤ 43 → at_body k r → same [30] r → stack_flags r → admits → claimed m → m (f + 304) = r_x o 30 →
  (21 ≤ k ≤ 28 → r_x r 30 = slot_val (k - 20)) → (29 ≤ k → r_x r 30 = f + 64 ∧ saved m (r_x o 0) (2 * (k - 29))) →
  fetch c code (r_pc r) = Some i → exec (literal c code) i (mk_cpu r m) = Some s' → gate_inv (mk_gate s' (own_after i (mk_cpu r m) true) (mode_after i) None).
Proof using Hfacts Hgate Hwf.
  open_state. intros Hk Hpc Hs [Hsp Hps] Hn Hm H30 Hv Hsaved Hf Hx. destruct f_bound as (Hf0 & Hf1 & Hf2 & Hf3). destruct (decide (k ≤ 27)); [|destruct (decide (k = 28)) as [->|]].
  - destruct (slot_instr 20 30 (k - 20) i x sp pc ps m true s') as (-> & -> & ->); [by do 2 right; left|lia|lia|done|intros; apply Hv; lia|done|done|].
    apply (inv_lr _ _ (k + 1)); see; [lia|lia|eapply same_upd; [exact Hs|by left]|done|done|done|done|intros _; f_equal; lia|lia].
  - specialize (Hv ltac:(lia)). change (slot_val (28 - 20)) with f in Hv. run_body Hf Hx Hpc 28%nat. rewrite Hv.
    apply (inv_lr _ _ 29); see; [lia|apply pc_in; lia|eapply same_upd; [exact Hs|by left]|done|done|done|done|lia|].
    intros _. split; [rewrite wrap64_small by lia; lia|]. intros y Hy. lia.
  - destruct (Hsaved ltac:(lia)) as [Hx30 Hprev]. rewrite (body_fetch k (Z.to_nat k) _ pc Hpc ltac:(lia) (save_lookup k ltac:(lia))) in Hf. injection Hf as <-.
    cbn [exec c_regs c_mem r_pc] in Hx. rewrite !xr_x in Hx by lia. cbn [r_x] in Hx. unfold xs, set_pc in Hx. cbn [Z.eqb Pos.eqb r_x r_sp r_pc r_pstate] in Hx. rewrite Hx30 in Hx.
    injection Hx as <-. cbn [own_after mode_after]. rewrite (pc_in pc 4 (body + 4 * (k + 1))), !wrap64_small by lia.
    set (j := 2 * (k - 29)) in *. replace (f + 64 + 16 * (k - 29)) with (f + 64 + 8 * j) by lia. replace (f + 64 + (16 * (k - 29) + 8)) with (f + 64 + 8 * (j + 1)) by lia.
    set (m' := upd _ _ (upd _ _ m)). assert (∀ y, 0 ≤ y ≤ 29 → x y = if y =? 0 then r_x o 0 else r_x o y) as Hxy.
    { intros y Hy. rewrite <- (Hs y); [|lia|intros [?|?%elem_of_nil]%elem_of_cons; lia]. cbn. destruct (Z.eqb_spec y 0) as [->|]; [|done]. apply Hs; [lia|]. by intros [?|?%elem_of_nil]%elem_of_cons. }
    assert (saved m' (r_x o 0) (2 * (k + 1 - 29))) as Hsaved'.
    { intros y Hy. unfold m'. destruct (decide (y = j + 1)) as [->|]; [rewrite upd_here; apply Hxy; lia|]. rewrite upd_other by lia.
      destruct (decide (y = j)) as [->|]; [rewrite upd_here; apply Hxy; lia|]. rewrite upd_other by lia. apply Hprev. lia. }
    assert (m' f = f ∧ m' (f + 304) = r_x o 30) as [Hm' H30'] by (unfold m', claimed in *; rewrite !upd_other by lia; done).
    destruct (decide (k = 43)) as [->|]; [|apply (inv_lr _ _ (k + 1)); see; try done; try lia].
    apply (inv_saved _ _ 44); see; try done; try lia. intros y Hy. destruct (decide (y = 30)) as [->|]; [by replace (f + 64 + 8 * 30) with (f + 304) by lia|apply Hsaved'; lia].
Qed.

Lemma saved_other m v n a w : saved m v n → (∀ y, 0 ≤ y < n → f + 64 + 8 * y ≠ a) → saved (upd a w m) v n.
Proof using. intros Hm Ha y Hy. rewrite upd_other by (by apply Ha). by apply Hm. Qed.
Lemma saved_exec r m k i s' :
  44 ≤ k ≤ 49 → at_body k r → stack_flags r → admits → r_x r 30 = f + 64 → claimed m → saved m (r_x o 0) 31 →
  (k = 45 → r_x r 1 = c_gate c) → (46 ≤ k → m (f + 384) = c_gate c) → (k = 47 → r_x r 8 = Z.land (r_pstate o) NZCV) →
  (48 ≤ k → m (f + 312) = Z.land (r_pstate o) NZCV) → (k = 49 → r_x r 8 = r_sp o) →
  fetch c code (r_pc r) = Some i → exec (literal c code) i (mk_cpu r m) = Some s' → gate_inv (mk_gate s' (own_after i (mk_cpu r m) true) (mode_after i) None).
Proof using Hfacts Hgate Hwf.
  open_state. intros Hk Hpc [Hsp Hps] Hn H30 Hm Hs H1 H384 H8 H312 H49 Hf Hx. destruct f_bound as (Hf0 & Hf1 & Hf2 & Hf3).
  assert (0 ≤ sp ≤ UINT64_MAX) as Hwsp by (rewrite Hsp; apply Hwf). unfold claimed in *.
  assert (∀ a w, f + 312 ≤ a → upd a w m f = f ∧ saved (upd a w m) (r_x o 0) 31) as Hkeep.
  { intros a w Ha. split; [by rewrite upd_other by lia|]. apply saved_other; [done|lia]. }
  each k 44 6; try specialize (H1 ltac:(lia)); try specialize (H384 ltac:(lia)); try specialize (H8 ltac:(lia)); try specialize (H312 ltac:(lia)); try specialize (H49 ltac:(lia)).
  - run_body Hf Hx Hpc 44%nat. apply (inv_saved _ _ 45); fin.
    intros _. rewrite (pc_in pc 224 (c_gate c + 656)) by lia. apply (gf_literals _ _ _ _ Hfacts).
  - run_body Hf Hx Hpc 45%nat. rewrite H30, (wrap64_small (f + 64 + 320)) by lia. replace (f + 64 + 320) with (f + 384) by lia. destruct (Hkeep (f + 384) (x 1)) as [? ?]; [lia|].
    apply (inv_saved _ _ 46); fin.
  - run_body Hf Hx Hpc 46%nat. apply (inv_saved _ _ 47); fin. intros _. by rewrite Hps.
  - run_body Hf Hx Hpc 47%nat. rewrite H30, (wrap64_small (f + 64 + 248)) by lia. replace (f + 64 + 248) with (f + 312) by lia. destruct (Hkeep (f + 312) (x 8)) as [? ?]; [lia|].
    apply (inv_saved _ _ 48); fin. intros _; rewrite upd_other by lia; auto.
  - run_body Hf Hx Hpc 48%nat. apply (inv_saved _ _ 49); fin. intros _. rewrite wrap64_small by lia. lia.
  - run_body Hf Hx Hpc 49%nat. rewrite H30, (wrap64_small (f + 64 + 800)) by lia. replace (f + 64 + 800) with (f + 864) by lia. destruct (Hkeep (f + 864) (x 8)) as [? ?]; [lia|].
    apply (inv_switch _ _ 50); fin. unfold context_saved, claimed. rewrite upd_here, !(upd_other (f + 864)) by lia. split_and!; auto with lia.
Qed.
Lemma switch_exec r m k i s' :
  50 ≤ k ≤ 55 → at_body k r → r_pstate r = r_pstate o → admits → context_saved m (r_x o 0) →
  r_sp r = (if k <=? 52 then r_sp o else f + 65536) → (k ≤ 51 → r_x r 30 = f + 64) → (k = 52 → r_x r 30 = f) → (54 ≤ k → r_x r 16 = dispatch) →
  fetch c code (r_pc r) = Some i → exec (literal c code) i (mk_cpu r m) = Some s' → gate_inv (mk_gate s' (own_after i (mk_cpu r m) true) (mode_after i) None).
Proof using Hfacts Hgate Hexits.
  open_state. intros Hk Hpc Hps Hn Hm Hsp H30 H52 H16 Hf Hx. destruct f_bound as (Hf0 & Hf1 & Hf2 & Hf3). each k 50 6; cbn in Hsp; try specialize (H30 ltac:(lia)); try specialize (H52 ltac:(lia)); try specialize (H16 ltac:(lia)).
  - run_body Hf Hx Hpc 50%nat. apply (inv_switch _ _ 51); fin.
  - run_body Hf Hx Hpc 51%nat. apply (inv_switch _ _ 52); fin. intros _. rewrite H30, wrap64_small by lia. lia.
  - run_body Hf Hx Hpc 52%nat. apply (inv_switch _ _ 53); fin. change (53 <=? 52) with false. cbv iota. rewrite H52, wrap64_small by lia. lia.
  - run_body Hf Hx Hpc 53%nat. apply (inv_switch _ _ 54); fin. intros _. rewrite (pc_in pc 172 (c_gate c + 640)) by lia. apply (gf_literals _ _ _ _ Hfacts).
  - run_body Hf Hx Hpc 54%nat. apply (inv_switch _ _ 55); fin.
  - run_body Hf Hx Hpc 55%nat. apply (inv_payload _ _ (r_x o 0)); see; try done; [unfold same_state; by rewrite Hps|lia|]. rewrite H16. apply Hexits. do 4 right. by left.
Qed.

Lemma context_other m v a w : context_saved m v → f + 313 ≤ a < f + 384 → context_saved (upd a w m) v.
Proof using.
  intros (Hm & Hs & H1 & H2 & H3) Ha. unfold context_saved, claimed. rewrite !upd_other by lia. split_and!; try done. apply saved_other; [done|lia].
Qed.
Ltac run_end Hf Hx Hpc n := run (end_fetch _ n _ _ Hpc eq_refl eq_refl) Hf Hx.
Lemma back_exec r m v res i s' :
  same_state o r → admits → context_saved m v → r_sp r = f + 65536 → 0 ≤ r_x r 0 < 2 ^ 32 → outcome res (negb (r_x r 0 =? 0)) v → returning r →
  fetch c code (r_pc r) = Some i → exec (literal c code) i (mk_cpu r m) = Some s' → gate_inv (mk_gate s' (own_after i (mk_cpu r m) true) (mode_after i) res).
Proof using Hfacts Hgate.
  open_state. intros Hst Hn Hm Hsp Hw Hout Hret Hf Hx. destruct f_bound as (Hf0 & Hf1 & Hf2 & Hf3).
  assert (∀ x' pc', x' 0 = x 0 → returning (mk_regs x' sp pc' ps) → gate_inv (mk_gate (mk_cpu (mk_regs x' sp pc' ps) m) true Gate res)) as Hnext.
  { intros x' pc' H0 Hr. apply (inv_back _ _ v); cbn [r_x r_sp]; rewrite ?H0; done. }
  unfold returning, at_body, at_end in Hret. cbn [r_x r_pc] in Hret.
  destruct Hret as [Hpc|[Hpc|[(j & Hj & Hpc & H8)|[(j & Hj & Hpc)|[[Hpc H8]|[H8 [Hpc|[[Hpc H30]|[[Hpc H0]|[Hpc H30]]]]]]]]]].
  - run_body Hf Hx Hpc 56%nat. apply Hnext; [done|]. right. left. fin.
  - run_end Hf Hx Hpc 2%nat. apply Hnext; [done|]. do 2 right. left. exists 1. split_and!; fin. rewrite wrap64_small by lia. lia.
  - each j 1 3.
    + run_end Hf Hx Hpc 3%nat. apply Hnext; [done|]. do 2 right. left. exists 2. split_and!; fin.
    + rewrite (end_fetch _ 4 _ _ Hpc eq_refl eq_refl) in Hf. injection Hf as <-. sim_branch Hx. destruct (negb (x 30 =? 0)); injection Hx as <-; (apply Hnext; [done|]).
      * do 3 right. left. exists 4. split_and!; fin.
      * do 2 right. left. exists 3. split_and!; fin.
    + run_end Hf Hx Hpc 5%nat. apply Hnext; [done|]. do 4 right. left. split; fin.
  - each j 4 2; [|rewrite (end_fetch _ 7 _ _ Hpc eq_refl eq_refl) in Hf; by injection Hf as <-].
    run_end Hf Hx Hpc 6%nat. apply Hnext; [done|]. do 3 right. left. exists 5. split_and!; fin.
  - run_body Hf Hx Hpc 57%nat. apply Hnext; [done|]. do 5 right. split; [|left; fin]. see. rewrite wrap64_small by lia. lia.
  - run_body Hf Hx Hpc 58%nat. apply Hnext; [done|]. do 5 right. split; [fin|]. right. left. unfold target. split; see; [apply pc_in; lia|]. apply pc_in; lia.
  - rewrite (body_fetch _ 59%nat _ _ Hpc eq_refl eq_refl) in Hf. injection Hf as <-. sim_branch Hx. unfold wrap32 in Hx. rewrite Z.mod_small in Hx by (change 4294967296 with (2 ^ 32); done).
    destruct (Z.eqb_spec (x 0) 0) as [E|E]; cbn [negb] in Hx; injection Hx as <-; (apply Hnext; [done|]); do 5 right; (split; [fin|]); do 2 right.
    + left. split; fin.
    + right. split; [fin|]. see. by rewrite (proj2 (Z.eqb_neq (x 0) 0)).
  - run_body Hf Hx Hpc 60%nat. apply Hnext; [done|]. do 5 right. split; [fin|]. do 3 right. split; [fin|]. see. rewrite H0. unfold target. cbn. apply pc_in; lia.
  - run_body Hf Hx Hpc 61%nat. rewrite H8, H30, (wrap64_small (f + 64 + 272)) by lia. replace (f + 64 + 272) with (f + 336) by lia.
    apply (inv_restore _ _ 62 (negb (x 0 =? 0)) v); fin; [apply context_other; [done|lia]].
Qed.

Lemma nzcv_restored ps : Z.ldiff ps NZCV = Z.ldiff (r_pstate o) NZCV → Z.lor (Z.ldiff ps NZCV) (Z.land (Z.land (r_pstate o) NZCV) NZCV) = r_pstate o.
Proof using.
  intros ->. apply Z.bits_inj'. intros j Hj. rewrite Z.lor_spec, Z.ldiff_spec, !Z.land_spec. by destruct (Z.testbit (r_pstate o) j), (Z.testbit NZCV j).
Qed.
Lemma restore_lookup k :
  66 ≤ k ≤ 80 → k ≠ 70 → body_code (c_frames c) body (c_svc c) exits !! Z.to_nat k = Some (LDP (2 * (k - 66)) (2 * (k - 66) + 1) 8 (16 * (k - 66))).
Proof using. intros Hk Hne. each k 66 15; first [reflexivity|by destruct Hne]. Qed.
Lemma saved_resumed m v n : context_saved m v → 0 ≤ n ≤ 30 → m (f + 64 + 8 * n) = resumed v n.
Proof using. intros (_ & Hs & _) Hn. apply Hs. lia. Qed.
Lemma restore_exec r m k done v res i s' :
  62 ≤ k ≤ 82 → at_body k r → same_state o r → admits → context_saved m v → m (f + 336) = target done → outcome res done v → r_x r 8 = f + 64 →
  (k = 63 → r_x r 30 = r_sp o) → (64 ≤ k → r_sp r = r_sp o) → (k = 65 → r_x r 30 = Z.land (r_pstate o) NZCV) → (66 ≤ k → r_pstate r = r_pstate o) →
  (66 ≤ k → ∀ n, 0 ≤ n < 30 → n < 2 * (k - 66) → n ≠ 8 → r_x r n = resumed v n) → (k = 82 → r_x r 30 = target done) →
  fetch c code (r_pc r) = Some i → exec (literal c code) i (mk_cpu r m) = Some s' → gate_inv (mk_gate s' (own_after i (mk_cpu r m) true) (mode_after i) res).
Proof using Hfacts Hgate Hwf.
  open_state. intros Hk Hpc Hst Hn Hm H336 Hout H8 H63 Hsp H65 Hps Hres H82 Hf Hx. destruct f_bound as (Hf0 & Hf1 & Hf2 & Hf3).
  assert (0 ≤ r_sp o ≤ UINT64_MAX) as Hwsp by apply Hwf. pose proof Hm as (Hcl & Hsv & H312 & H384 & H864).
  destruct (decide (k ≤ 65)); [each k 62 4; try specialize (H63 ltac:(lia)); try specialize (Hsp ltac:(lia)); try specialize (H65 ltac:(lia))|].
  - run_body Hf Hx Hpc 62%nat. rewrite H8, (wrap64_small (f + 64 + 800)) by lia. replace (f + 64 + 800) with (f + 864) by lia. apply (inv_restore _ _ 63 done v); fin.
  - run_body Hf Hx Hpc 63%nat. rewrite H63. replace (r_sp o + 0 * 1) with (r_sp o) by lia. rewrite (wrap64_small (r_sp o)) by lia. apply (inv_restore _ _ 64 done v); fin.
  - run_body Hf Hx Hpc 64%nat. rewrite H8, (wrap64_small (f + 64 + 248)) by lia. replace (f + 64 + 248) with (f + 312) by lia. apply (inv_restore _ _ 65 done v); fin.
  - run_body Hf Hx Hpc 65%nat. rewrite H65, nzcv_restored by exact Hst. apply (inv_restore _ _ 66 done v); fin.
  - specialize (Hsp ltac:(lia)). specialize (Hps ltac:(lia)). specialize (Hres ltac:(lia)).
    destruct (decide (k = 70)) as [->|]; [|destruct (decide (k ≤ 80)); [|assert (k = 81 ∨ k = 82) as [-> | ->] by lia]].
    + run_body Hf Hx Hpc 70%nat. rewrite H8, (wrap64_small (f + 64 + 72)) by lia. change (f + 64 + 72) with (f + 64 + 8 * 9). rewrite (saved_resumed m v 9 Hm) by lia.
      apply (inv_restore _ _ 71 done v); fin. intros _ y Hn0 Hn1 Hn2. unfold upd. destruct (Z.eqb_spec y 9) as [->|]; [done|apply Hres; lia].
    + rewrite (body_fetch k (Z.to_nat k) _ pc Hpc ltac:(lia) (restore_lookup k ltac:(lia) ltac:(done))) in Hf. injection Hf as <-.
      set (j := 2 * (k - 66)) in *. cbn [exec c_regs c_mem r_pc] in Hx. unfold xs, set_x, set_pc in Hx.
      rewrite !(proj2 (Z.eqb_neq _ 31)) in Hx by lia. cbn [r_x r_sp r_pc r_pstate] in Hx. rewrite H8 in Hx. injection Hx as <-. cbn [own_after mode_after].
      rewrite (pc_in pc 4 (body + 4 * (k + 1))), !wrap64_small by lia.
      replace (f + 64 + 16 * (k - 66)) with (f + 64 + 8 * j) by lia. replace (f + 64 + (16 * (k - 66) + 8)) with (f + 64 + 8 * (j + 1)) by lia.
      rewrite !(saved_resumed m v _ Hm) by lia. apply (inv_restore _ _ (k + 1) done v); see; try done; try lia; [by rewrite !upd_other by lia|].
      intros _ y Hn0 Hn1 Hn2. unfold upd. destruct (Z.eqb_spec y (j + 1)) as [->|]; [done|]. destruct (Z.eqb_spec y j) as [->|]; [done|]. apply Hres; lia.
    + run_body Hf Hx Hpc 81%nat. rewrite H8, (wrap64_small (f + 64 + 272)) by lia. replace (f + 64 + 272) with (f + 336) by lia. rewrite H336.
      apply (inv_restore _ _ 82 done v); fin. intros _ y Hn0 Hn1 Hn2. rewrite upd_other by lia. apply Hres; lia.
    + specialize (H82 ltac:(lia)). run_body Hf Hx Hpc 82%nat. apply (inv_final _ _ 0 done v); fin.
Qed.

Lemma final_lookup (done : bool) k :
  0 ≤ k ≤ 2 → body_code (c_frames c) body (c_svc c) exits !! Z.to_nat ((if done then 83 else 88) + k) = [LDR 30 8 240; SUBi 8 8 64 0; STLR 31 8] !! Z.to_nat k.
Proof using. intros Hk. destruct done; each k 0 3; reflexivity. Qed.
Lemma replay_lookup (done : bool) k :
  3 ≤ k ≤ 4 → body_code (c_frames c) body (c_svc c) exits !! Z.to_nat ((if done then 83 else 88) + k)
  = Some (if k =? 3 then LDR_LIT 8 (if done then 64 else 44) else B ((if done then c_svc c + 4 else declined exits) - (body + (if done then 348 else 368)))).
Proof using. intros Hk. destruct done; each k 3 2; reflexivity. Qed.
Lemma final_exec r m k done v res i s' :
  0 ≤ k ≤ 2 → r_pc r = target done + 4 * k → stack_flags r → admits → context_saved m v → m (f + 336) = target done → outcome res done v →
  (∀ n, 0 ≤ n < 30 → n ≠ 8 → r_x r n = resumed v n) → r_x r 8 = (if k =? 2 then f else f + 64) → (1 ≤ k → r_x r 30 = resumed v 30) →
  fetch c code (r_pc r) = Some i → exec (literal c code) i (mk_cpu r m) = Some s' → gate_inv (mk_gate s' (own_after i (mk_cpu r m) true) (mode_after i) res).
Proof using Hfacts Hgate.
  open_state. intros Hk Hpc [Hsp Hps] Hn Hm H336 Hout Hres H8 H30 Hf Hx. destruct f_bound as (Hf0 & Hf1 & Hf2 & Hf3).
  assert (∀ j, 0 ≤ j ≤ 2 → k = j → fetch c code pc = [LDR 30 8 240; SUBi 8 8 64 0; STLR 31 8] !! Z.to_nat j) as Hi.
  { intros j Hj ->. assert (∃ i', [LDR 30 8 240; SUBi 8 8 64 0; STLR 31 8] !! Z.to_nat j = Some i') as [i' Hi'] by (apply lookup_lt_is_Some; cbn; lia). rewrite Hi'.
    apply (body_fetch ((if done then 83 else 88) + j) (Z.to_nat ((if done then 83 else 88) + j))); [rewrite Hpc; unfold target; destruct done; lia|destruct done; lia|by rewrite final_lookup]. }
  assert (wrap64 (pc + 4) = target done + 4 * (k + 1)) as Hnext by (apply pc_in; [lia|unfold target; destruct done; lia]).
  each k 0 3; try specialize (H30 ltac:(lia)); cbn in H8.
  - run (Hi 0 ltac:(lia) eq_refl) Hf Hx. rewrite Hnext, H8, (wrap64_small (f + 64 + 240)) by lia. change (f + 64 + 240) with (f + 64 + 8 * 30). rewrite (saved_resumed m v 30 Hm) by lia.
    apply (inv_final _ _ 1 done v); fin. intros n Hn0 Hn1. rewrite upd_other by lia. auto.
  - run (Hi 1 ltac:(lia) eq_refl) Hf Hx. rewrite Hnext, H8. apply (inv_final _ _ 2 done v); fin; [|rewrite wrap64_small by lia; cbn; lia]. intros n Hn0 Hn1. rewrite upd_other by lia. auto.
  - run (Hi 2 ltac:(lia) eq_refl) Hf Hx. rewrite Hnext. apply (inv_replay _ _ 3 done v); fin. intros n Hn0 Hn1. destruct (decide (n = 30)) as [->|]; [done|]. apply Hres; lia.
Qed.
Lemma same_resumed r res v : outcome res false v → (∀ n, 0 ≤ n ≤ 30 → n ≠ 8 → r_x r n = resumed v n) → r_x o 8 = c_number c → r_x r 8 = c_number c → same [] r.
Proof using.
  intros [_ Hv] Hr Ho H8 n Hn _. destruct (decide (n = 8)) as [->|]; [congruence|]. rewrite Hr by done. unfold resumed. destruct (Z.eqb_spec n 0) as [->|]; [|done]. by apply Hv.
Qed.
Lemma exit_wrap pc to d : to ∈ [mismatch exits; declined exits; busy exits; c_svc c + 4; dispatch] → d = to - pc → wrap64 (pc + d) = to.
Proof using Hexits. intros Hto ->. replace (pc + (to - pc)) with to by lia. apply wrap64_small. by apply Hexits. Qed.
Lemma number_literal pc d : pc + d = c_gate c + 664 → literal c code (wrap64 (pc + d)) = c_number c.
Proof using Hfacts Hgate. intros E. rewrite (pc_in pc d (c_gate c + 664)) by lia. apply (gf_literals _ _ _ _ Hfacts). Qed.
Lemma replay_exec r m k done v res i s' :
  3 ≤ k ≤ 4 → r_pc r = target done + 4 * k → stack_flags r → admits → outcome res done v →
  (∀ n, 0 ≤ n ≤ 30 → n ≠ 8 → r_x r n = resumed v n) → (k = 4 → r_x r 8 = c_number c) →
  fetch c code (r_pc r) = Some i → exec (literal c code) i (mk_cpu r m) = Some s' → gate_inv (mk_gate s' (own_after i (mk_cpu r m) false) (mode_after i) res).
Proof using Hfacts Hgate Hexits.
  open_state. intros Hk Hpc [Hsp Hps] Hn Hout Hres H8 Hf Hx.
  assert (pc = body + 4 * ((if done then 83 else 88) + k)) as Hpc' by (rewrite Hpc; unfold target; destruct done; lia).
  rewrite (body_fetch _ (Z.to_nat ((if done then 83 else 88) + k)) _ pc Hpc' ltac:(destruct done; lia) (replay_lookup done k Hk)) in Hf.
  injection Hf as <-. assert (k = 3 ∨ k = 4) as [-> | ->] by lia.
  - cbn [Z.eqb Pos.eqb] in *. sim Hx. injection Hx as <-. cbn [own_after mode_after]. rewrite number_literal by (rewrite Hpc; unfold target; destruct done; lia).
    apply (inv_replay _ _ 4 done v); fin; [apply pc_in; [lia|unfold target; destruct done; lia]|]. intros n Hn0 Hn1. rewrite upd_other by done. auto.
  - specialize (H8 ltac:(lia)). cbn [Z.eqb Pos.eqb] in *. sim Hx. injection Hx as <-. cbn [own_after mode_after]. destruct done.
    + destruct Hout as [-> _]. rewrite (exit_wrap pc (c_svc c + 4)); [|by do 3 right; left|rewrite Hpc; unfold target; lia]. apply (inv_done _ _ v); see; [done| |done|done]. intros n Hn0. destruct (decide (n = 8)) as [->|]; [|auto].
      unfold resumed. cbn. rewrite (proj1 Hn). done.
    + rewrite (exit_wrap pc (declined exits)); [|by right; left|rewrite Hpc; unfold target; lia]. pose proof Hout as [-> _].
      apply inv_exit; see; [right; split; [by left|done]| |done]. by apply (same_resumed _ _ v Hout); [|apply Hn|].
Qed.
Lemma same_number r : same [8] r → r_x r 8 = r_x o 8 → same [] r.
Proof using. intros Hs H8 n Hn _. destruct (decide (n = 8)) as [->|]; [done|]. apply Hs; [done|]. by intros [?|?%elem_of_nil]%elem_of_cons. Qed.
Lemma busy_exec r m k i s' :
  93 ≤ k ≤ 94 → at_body k r → same [8] r → stack_flags r → admits → (k = 94 → r_x r 8 = c_number c) →
  fetch c code (r_pc r) = Some i → exec (literal c code) i (mk_cpu r m) = Some s' → gate_inv (mk_gate s' (own_after i (mk_cpu r m) false) (mode_after i) None).
Proof using Hfacts Hgate Hexits.
  open_state. intros Hk Hpc Hs [Hsp Hps] Hn H8 Hf Hx. assert (k = 93 ∨ k = 94) as [-> | ->] by lia.
  - run_body Hf Hx Hpc 93%nat. rewrite number_literal by lia. apply (inv_busy _ _ 94); fin. eapply same_upd; [exact Hs|by left].
  - specialize (H8 ltac:(lia)). run_body Hf Hx Hpc 94%nat. rewrite (exit_wrap pc (busy exits)); [|by do 2 right; left|lia].
    apply inv_exit; see; [right; split; [by right; left|done]| |done]. apply same_number; [done|]. cbn. rewrite (proj1 Hn). done.
Qed.
Lemma miss_exec r m i s' :
  r_pc r = c_gate c + 672 → same [] r → stack_flags r → ¬ admits →
  fetch c code (r_pc r) = Some i → exec (literal c code) i (mk_cpu r m) = Some s' → gate_inv (mk_gate s' (own_after i (mk_cpu r m) false) (mode_after i) None).
Proof using Hfacts Hexits.
  open_state. intros Hpc Hs [Hsp Hps] Hno Hf Hx. run (end_fetch (-2) 0 _ pc ltac:(lia) eq_refl eq_refl) Hf Hx. rewrite (exit_wrap pc (mismatch exits)); [|by left|lia].
  apply inv_exit; see; [by left; split|done|done].
Qed.

Lemma guard_fetch k n i pc : pc = c_gate c + 4 * k → k = Z.of_nat n → guard_code (c_number c) (c_gate c) (mismatch exits) !! n = Some i → fetch c code pc = Some i.
Proof using Hfacts. intros -> -> Hi. by apply (gf_guard _ _ _ _ Hfacts). Qed.
Lemma same_bits a b : 0 ≤ a ≤ UINT64_MAX → 0 ≤ b ≤ UINT64_MAX → (∀ j, 0 ≤ j < 64 → Z.testbit a j = Z.testbit b j) → a = b.
Proof using.
  unfold UINT64_MAX. intros Ha Hb H. apply Z.bits_inj'. intros j Hj. destruct (decide (j < 64)); [by apply H|]. by rewrite !(bits_above _ 64) by lia.
Qed.
Lemma sub_back a n : 0 ≤ a ≤ UINT64_MAX → wrap64 (wrap64 (a - n) + n) = a.
Proof using. unfold UINT64_MAX. intros Ha. unfold wrap64. rewrite Zplus_mod_idemp_l. replace (a - n + n) with a by lia. apply Z.mod_small. lia. Qed.
Lemma sub_zero a n : 0 ≤ a ≤ UINT64_MAX → 0 ≤ n ≤ UINT64_MAX → wrap64 (a - n) = 0 → a = n.
Proof using. unfold UINT64_MAX. intros Ha Hn E. rewrite <- (sub_back a n) by done. rewrite E. apply wrap64_small. unfold UINT64_MAX. lia. Qed.
Lemma bit_exec r m k i s' :
  ¬ c_number c ≤ 4095 → 0 ≤ k < 64 → r_pc r = c_gate c + 4 * k → same [8] r → stack_flags r → r_x r 8 = r_x o 8 → (∀ b, 0 ≤ b < k → Z.testbit (r_x o 8) b = Z.testbit (c_number c) b) →
  fetch c code (r_pc r) = Some i → exec (literal c code) i (mk_cpu r m) = Some s' → gate_inv (mk_gate s' (own_after i (mk_cpu r m) false) (mode_after i) None).
Proof using Hfacts Hgate Hwf Hnum.
  open_state. intros Hbig Hk Hpc Hs [Hsp Hps] H8 Hbits Hf Hx. assert (0 ≤ r_x o 8 ≤ UINT64_MAX) as Hw8 by (apply Hwf; lia).
  rewrite (guard_fetch k (Z.to_nat k) (if Z.testbit (c_number c) k then TBZ 8 k (672 - 4 * k) else TBNZ 8 k (672 - 4 * k)) pc) in Hf; [|done|lia|].
  2:{ unfold guard_code. rewrite (proj2 (Z.leb_gt _ _)) by lia. unfold bit_code. rewrite list_lookup_fmap, lookup_seqZ_lt, Z2Nat.id by lia. done. }
  injection Hf as <-. assert (s' = mk_cpu (mk_regs x sp (wrap64 (pc + if eqb (Z.testbit (r_x o 8) k) (Z.testbit (c_number c) k) then 4 else 672 - 4 * k)) ps) m) as ->.
  { destruct (Z.testbit (c_number c) k); sim_branch Hx; rewrite H8 in Hx; destruct (Z.testbit (r_x o 8) k); by injection Hx as <-. }
  assert (own_after (if Z.testbit (c_number c) k then TBZ 8 k (672 - 4 * k) else TBNZ 8 k (672 - 4 * k)) (mk_cpu (mk_regs x sp pc ps) m) false = false
    ∧ mode_after (if Z.testbit (c_number c) k then TBZ 8 k (672 - 4 * k) else TBNZ 8 k (672 - 4 * k)) = Gate) as [-> ->] by (by destruct (Z.testbit (c_number c) k)).
  destruct (Z.testbit (r_x o 8) k) eqn:E1, (Z.testbit (c_number c) k) eqn:E2; cbn [eqb].
  2,3: apply inv_miss; see; [apply pc_in; lia|by apply same_number|done|intros [E _]; congruence].
  all: assert (∀ b, 0 ≤ b < k + 1 → Z.testbit (r_x o 8) b = Z.testbit (c_number c) b) as Hbits'
    by (intros b Hb; destruct (decide (b = k)) as [->|]; [congruence|apply Hbits; lia]).
  all: destruct (decide (k = 63)) as [->|];
    [apply (inv_slot _ _ 0); see; [lia|apply pc_in; lia|done|done|split; [by apply same_bits|intros E; change SYS_mmap with 222 in E; lia]|lia]|].
  all: apply (inv_guard _ _ (k + 1)); see; [apply pc_in; lia|done|done|]; unfold guard_ok; rewrite (proj2 (Z.leb_gt _ _)) by lia; split; [lia|by split].
Qed.

Lemma small_fetch k n i pc : c_number c ≤ 4095 → pc = c_gate c + 4 * k → k = Z.of_nat n → small_code (c_number c) (c_gate c) (mismatch exits) !! n = Some i → fetch c code pc = Some i.
Proof using Hfacts. intros Hs Hpc Hk Hi. apply (guard_fetch k n i pc Hpc Hk). unfold guard_code. by rewrite (proj2 (Z.leb_le _ _)). Qed.
Lemma small_map n i : c_number c = SYS_mmap → [TBZ 3 4 (-20); TBZ 3 5 (-24); B 216] !! n = Some i → small_code (c_number c) (c_gate c) (mismatch exits) !! (8 + n)%nat = Some i.
Proof using. intros Hmm Hi. unfold small_code. rewrite Hmm. by cbn [app lookup list_lookup Nat.add Z.eqb Pos.eqb SYS_mmap]. Qed.
Lemma small_exec r m k i s' :
  c_number c ≤ 4095 → r_pc r = c_gate c + 4 * k → same [8] r → stack_flags r → guard_ok k r →
  fetch c code (r_pc r) = Some i → exec (literal c code) i (mk_cpu r m) = Some s' → gate_inv (mk_gate s' (own_after i (mk_cpu r m) false) (mode_after i) None).
Proof using Hfacts Hgate Hwf Hnum Hexits.
  open_state. intros Hsmall Hpc Hs [Hsp Hps] Hg Hf Hx. assert (0 ≤ r_x o 8 ≤ UINT64_MAX) as Hw8 by (apply Hwf; lia).
  assert (∀ v pc' k', pc' = c_gate c + 4 * k' → guard_ok k' (mk_regs (upd 8 v x) sp pc' ps) → gate_inv (mk_gate (mk_cpu (mk_regs (upd 8 v x) sp pc' ps) m) false Gate None)) as Hset.
  { intros v pc' k' Hpc' Hg'. apply (inv_guard _ _ k'); see; [done|eapply same_upd; [exact Hs|by left]|done|done]. }
  assert (∀ pc' k', pc' = c_gate c + 4 * k' → guard_ok k' (mk_regs x sp pc' ps) → gate_inv (mk_gate (mk_cpu (mk_regs x sp pc' ps) m) false Gate None)) as Hgo
    by (intros pc' k' ? ?; by apply (inv_guard _ _ k')).
  assert (∀ pc', pc' = body → admits → gate_inv (mk_gate (mk_cpu (mk_regs x sp pc' ps) m) false Gate None)) as Hbody
    by (intros pc' -> Ho; apply (inv_slot _ _ 0); see; try done; lia).
  unfold guard_ok in *. rewrite (proj2 (Z.leb_le (c_number c) 4095) Hsmall) in Hset, Hgo, Hg. cbn [r_x] in Hset, Hgo, Hg.
  destruct Hg as [[[-> |[-> Hno]] H8]|[[[-> |[-> Hno]] H8]|[[-> |(Hmm & Hk & Hb4 & Hb5)] [Ho H8]]]].
  - run (small_fetch 0 0 _ pc Hsmall Hpc eq_refl eq_refl) Hf Hx. apply (Hset _ _ 1); [apply pc_in; lia|]. right. left. split; [by left|]. rewrite upd_here, H8. f_equal. lia.
  - run (small_fetch 4 4 _ pc Hsmall Hpc eq_refl eq_refl) Hf Hx. rewrite (exit_wrap pc (mismatch exits)); [|by left|lia].
    apply inv_exit; see; [by left; split|by apply same_number|done].
  - rewrite (small_fetch 1 1 _ pc Hsmall Hpc eq_refl eq_refl) in Hf. injection Hf as <-. sim_branch Hx.
    destruct (Z.eqb_spec (x 8) 0) as [E|E]; cbn [negb] in Hx; injection Hx as <-; cbn [own_after mode_after].
    + apply (Hgo _ 2); [apply pc_in; lia|]. right. right. split_and!; [by left|apply sub_zero; [done|done|congruence]|done].
    + apply (Hgo _ 3); [apply pc_in; lia|]. right. left. split; [right; split; [done|]|done]. intros [Ho _]. apply E. by rewrite H8, Ho, Z.sub_diag.
  - run (small_fetch 3 3 _ pc Hsmall Hpc eq_refl eq_refl) Hf Hx. apply (Hset _ _ 4); [apply pc_in; lia|]. left. split; [by right; split|]. rewrite upd_here, H8.
    rewrite Z.mul_1_r. by apply sub_back.
  - rewrite (small_fetch 2 2 _ pc Hsmall Hpc eq_refl eq_refl) in Hf. injection Hf as <-. sim_branch Hx. injection Hx as <-. cbn [own_after mode_after]. destruct (Z.eqb_spec (c_number c) SYS_mmap) as [E|E].
    + apply (Hgo _ 8); [apply pc_in; lia|]. right. right. split_and!; [right; split_and!; [done|lia|lia|lia|lia]|done|done].
    + apply Hbody; [apply pc_in; lia|by split].
  - pose proof (λ n i', small_map n i' Hmm) as Hmap.
    assert (x 3 = r_x o 3) as H3 by (apply (Hs 3); [lia|]; by intros [?|?%elem_of_nil]%elem_of_cons).
    assert (∀ pc', pc' = c_gate c + 4 * 3 → ¬ admits → gate_inv (mk_gate (mk_cpu (mk_regs x sp pc' ps) m) false Gate None)) as Hno.
    { intros pc' Hpc' Hna. apply (Hgo _ 3); [done|]. right. left. split; [by right|]. by rewrite Ho, H8, Z.sub_diag. }
    clear Hset. each k 8 3; try specialize (Hb4 ltac:(lia)); try specialize (Hb5 ltac:(lia)).
    + rewrite (small_fetch 8 8 _ pc Hsmall Hpc eq_refl (Hmap 0%nat _ eq_refl)) in Hf. injection Hf as <-. sim_branch Hx. rewrite H3 in Hx.
      destruct (Z.testbit (r_x o 3) 4) eqn:E; injection Hx as <-; [|apply Hno; [apply pc_in; lia|]; intros [_ Ha]; by destruct (Ha Hmm); congruence].
      apply (Hgo _ 9); [apply pc_in; lia|]. right. right. split_and!; [right; split_and!; [done|lia..|done|lia]|done|done].
    + rewrite (small_fetch 9 9 _ pc Hsmall Hpc eq_refl (Hmap 1%nat _ eq_refl)) in Hf. injection Hf as <-. sim_branch Hx. rewrite H3 in Hx.
      destruct (Z.testbit (r_x o 3) 5) eqn:E; injection Hx as <-; [|apply Hno; [apply pc_in; lia|]; intros [_ Ha]; by destruct (Ha Hmm); congruence].
      apply (Hgo _ 10); [apply pc_in; lia|]. right. right. split_and!; [right; split_and!; [done|lia..|done|done]|done|done].
    + run (small_fetch 10 10 _ pc Hsmall Hpc eq_refl (Hmap 2%nat _ eq_refl)) Hf Hx. apply Hbody; [apply pc_in; lia|]. split; auto.
Qed.

Lemma outside_fetch pc : ¬ in_gate pc → fetch c code pc = None.
Proof using Hfacts.
  intros Hpc. unfold fetch. destruct (negb _ || _) eqn:E; [done|]. apply orb_false_iff in E as [_ E%Z.ltb_ge]. rewrite lookup_ge_None_2; [done|].
  rewrite (gf_length _ _ _ _ Hfacts). unfold in_gate in Hpc. change md_svc_direct_signal_size with 712 in Hpc. enough (178 ≤ (pc - c_gate c) / 4) by lia. apply Z.div_le_lower_bound; lia.
Qed.
Lemma exit_outside pc : pc ∈ [mismatch exits; declined exits; busy exits] → ¬ in_gate pc.
Proof using Hexits. intros H. apply Hexits. apply (elem_of_app [_; _; _] [_; _]). by left. Qed.
Lemma exec_inv s own res i s' :
  gate_inv (mk_gate s own Gate res) → fetch c code (r_pc (c_regs s)) = Some i → exec (literal c code) i s = Some s' → gate_inv (mk_gate s' (own_after i s own) (mode_after i) res).
Proof using All.
  intros Hinv. inversion Hinv; subst; cbn [c_regs]; intros Hf Hx.
  - match goal with H : guard_ok _ _ |- _ => rename H into Hg end. destruct (decide (c_number c ≤ 4095)); [by eapply small_exec|].
    unfold guard_ok in Hg. rewrite (proj2 (Z.leb_gt _ _)) in Hg by lia. destruct Hg as (? & ? & ?). by eapply bit_exec.
  - by eapply miss_exec.
  - rewrite outside_fetch in Hf; [done|]. apply exit_outside. match goal with H : _ ∨ _ |- _ => destruct H as [[-> _]|[H _]] end; [by left|by right].
  - rewrite outside_fetch in Hf; [done|]. replace (r_pc r) with (c_svc c + 4) by done. apply Hexits. do 3 right. by left.
  - by eapply slot_exec.
  - by eapply claim_exec.
  - by eapply owned_exec.
  - by eapply lr_exec.
  - by eapply saved_exec.
  - by eapply switch_exec.
  - by eapply back_exec.
  - by eapply restore_exec.
  - by eapply final_exec.
  - by eapply replay_exec.
  - by eapply busy_exec.
Qed.
Lemma others_at m m' d : others f true m m' → 0 ≤ d < 65536 → d ≠ 392 → m' (f + d) = m (f + d).
Proof using. intros H Hd Hne. apply H; [done|unfold MD_SVC_SLOT_SIZE; lia|]. change MD_SVC_DIRECT_PENDING with 392. lia. Qed.
Lemma others_claimed m m' : others f true m m' → claimed m → claimed m'.
Proof using. intros H Hm. unfold claimed in *. pose proof (others_at _ _ 0 H) as E. rewrite Z.add_0_r in E. rewrite E by done. done. Qed.
Lemma others_saved m m' v k : others f true m m' → k ≤ 31 → saved m v k → saved m' v k.
Proof using. intros H Hk Hm n Hn. rewrite <- Z.add_assoc, (others_at _ _ _ H), Z.add_assoc by lia. by apply Hm. Qed.
Lemma others_context m m' v : others f true m m' → context_saved m v → context_saved m' v.
Proof using.
  intros H (H1 & H2 & H3 & H4 & H5). split; [by eapply others_claimed|]. split; [by eapply others_saved|]. rewrite !(others_at m m') by done. done.
Qed.
Lemma others_inv r m m' own md res : gate_inv (mk_gate (mk_cpu r m) own md res) → others f own m m' → gate_inv (mk_gate (mk_cpu r m') own md res).
Proof using All.
  intros Hinv Ho. inversion Hinv; subst; try pose proof (λ d, others_at _ _ d Ho) as Hat; try pose proof (others_claimed _ _ Ho) as Hc; try pose proof (others_context _ _ v Ho) as Hctx.
  - by eapply inv_guard.
  - by eapply inv_miss.
  - by eapply inv_exit.
  - by eapply inv_done.
  - by eapply inv_slot.
  - eapply inv_claim; eauto. intros E. rewrite E in Ho. by eapply others_claimed; [|auto].
  - eapply inv_owned; eauto. intros E. rewrite (Hat 304) by done. auto.
  - eapply inv_lr; eauto; [rewrite (Hat 304) by done; auto|]. intros Hk. split; [naive_solver|]. eapply others_saved; [done|lia|naive_solver].
  - eapply inv_saved; eauto; [by eapply others_saved|intros; rewrite (Hat 384) by done; auto|intros; rewrite (Hat 312) by done; auto].
  - eapply inv_switch; eauto using others_context.
  - eapply inv_payload; eauto.
  - eapply inv_back; eauto.
  - eapply inv_restore; eauto. by rewrite (Hat 336).
  - eapply inv_final; eauto. by rewrite (Hat 336).
  - by eapply inv_replay.
  - by eapply inv_busy.
Qed.

Lemma keeps_context m m' v : keeps f m m' → context_saved m v → context_saved m' (m' (f + 64)).
Proof using.
  intros (K1 & K2 & K3 & K4 & K5) (H1 & H2 & H3 & H4 & H5). unfold context_saved, claimed in *. split_and!; try congruence.
  intros n Hn. destruct (Z.eqb_spec n 0) as [->|]; [f_equal; lia|]. rewrite K1, H2 by lia. by rewrite (proj2 (Z.eqb_neq n 0)).
Qed.
Lemma step_inv s s' : gate_inv s → gate_step o s s' → gate_inv s'.
Proof using All.
  intros Hinv Hstep. destruct Hstep as [s own i s' res Hf Hx|r m m' own md res Ho|r m r' m' own res f' Hk Hst Hsp Hpc|r m r' m' own res f' Hk Hst Hsp Hpc Hw Hout].
  - by eapply exec_inv.
  - by eapply others_inv.
  - inversion Hinv; subst. apply (inv_payload _ _ (m' (f + 64))); [unfold same_state in *; congruence|done|by eapply keeps_context|done|done].
  - inversion Hinv; subst. apply (inv_back _ _ (m' (f + 64))); [unfold same_state in *; congruence|done|by eapply keeps_context|done|done| |by left].
    split; destruct (Z.eqb_spec (r_x r' 0) 0); try done. intros _. auto.
Qed.
Lemma reach_inv s : r_pc o = c_gate c → gate_reach o s → gate_inv s.
Proof using All.
  intros Hpc. induction 1 as [m|s s' _ IH Hs]; [|by eapply step_inv]. apply (inv_guard _ _ 0); [lia|done|done|].
  unfold guard_ok. destruct (Z.leb_spec (c_number c) 4095); [left; auto|]. split_and!; [lia|lia|done|lia].
Qed.

Lemma guard_index k r : guard_ok k r → 0 ≤ k < 64.
Proof using. unfold guard_ok. case_if; [|by intros [? _]]. intros [[[?|[? _]] _]|[[[?|[? _]] _]|[[?|(_ & ? & _)] _]]]; lia. Qed.

Lemma in_body k r : 0 ≤ k ≤ 94 → at_body k r → in_gate (r_pc r).
Proof using. unfold at_body, in_gate. intros Hk ->. change md_svc_direct_signal_size with 712. lia. Qed.
Lemma returning_inside r : returning r → in_gate (r_pc r).
Proof using.
  unfold returning, at_body, at_end, in_gate. change md_svc_direct_signal_size with 712.
  intros [?|[?|[(j & ? & ? & _)|[(j & ? & ?)|[[? _]|[_ [?|[[? _]|[[? _]|[? _]]]]]]]]]]; lia.
Qed.
(** The states in which the thread has left the gate. *)
Definition left_gate (s : gate_state) : Prop :=
  let r := c_regs (g_cpu s) in
  g_own s = false ∧ stack_flags r ∧
  (r_pc r = mismatch exits ∧ ¬ admits ∧ same [] r ∧ g_result s = None
   ∨ r_pc r ∈ [declined exits; busy exits] ∧ admits ∧ same [] r ∧ g_result s = None
   ∨ r_pc r = c_svc c + 4 ∧ admits ∧ ∃ v, g_result s = Some v ∧ ∀ n, 0 ≤ n ≤ 30 → r_x r n = resumed v n).
Lemma inv_leaves s : gate_inv s → g_mode s = Gate → in_gate (r_pc (c_regs (g_cpu s))) ∨ left_gate s.
Proof using Hgate.
  intros Hinv. assert (∀ k pc, 0 ≤ k < 178 → pc = c_gate c + 4 * k → in_gate pc) as Hin by (intros k pc Hk ->; unfold in_gate; change md_svc_direct_signal_size with 712; lia).
  inversion Hinv; subst; cbn [g_mode g_cpu c_regs]; intros Hmd; try done.
  - left. match goal with H : guard_ok _ _ |- _ => pose proof (guard_index _ _ H) end. apply (Hin k); [lia|done].
  - left. by apply (Hin 168).
  - right. match goal with H : _ ∨ _ |- _ => destruct H as [[? ?]|[? ?]] end; (split; [done|]); (split; [done|]); [by left|by right; left].
  - right. do 2 (split; [done|]). right. right. eauto.
  - left. eapply in_body; [|done]; lia.
  - left. eapply in_body; [|done]; lia.
  - left. eapply in_body; [|done]; lia.
  - left. eapply in_body; [|done]; lia.
  - left. eapply in_body; [|done]; lia.
  - left. eapply in_body; [|done]; lia.
  - left. by apply returning_inside.
  - left. eapply in_body; [|done]; lia.
  - left. apply (Hin (64 + (if done then 83 else 88) + k)); unfold target in *; destruct done; lia.
  - left. apply (Hin (64 + (if done then 83 else 88) + k)); unfold target in *; destruct done; lia.
  - left. eapply in_body; [|done]; lia.
Qed.

(** ** The gate ends *)

(** Instructions that only go on to the next. *)
Definition straight (i : instr) : bool :=
  match i with B _ | BR _ | BLR _ | CBNZ _ _ _ | TBZ _ _ _ | TBNZ _ _ _ | SVC | BRK => false | _ => true end.
(** It decreases with every instruction of the gate. *)
Definition rank (pc : Z) : Z :=
  let d := pc - c_gate c in
  if d <? 256 then (let k := d / 4 in if (c_number c <=? 4095) && (3 <=? k) && (k <=? 4) then 5 - k else 1000 - k)
  else if d <? 672 then 9 * (95 - (d - 256) / 4) else if d =? 672 then 0 else 350 - (d - 680) / 4.
Lemma gate_rank_bound pc : in_gate pc → rank pc ≤ 1000.
Proof using.
  unfold in_gate. change md_svc_direct_signal_size with 712. intros Hpc. unfold rank. cbv zeta. set (d := pc - c_gate c). assert (0 ≤ d < 712) by lia. clearbody d.
  destruct (Z.ltb_spec d 256); [case_if; divlia|]. destruct (Z.ltb_spec d 672); [divlia|]. case_if; divlia.
Qed.
Definition advances (r : user_pt_regs) (m : Z → Z) : Prop :=
  ∃ i s', fetch c code (r_pc r) = Some i ∧ exec (literal c code) i (mk_cpu r m) = Some s'
    ∧ (mode_after i = Payload ∨ ¬ in_gate (r_pc (c_regs s')) ∨ in_gate (r_pc (c_regs s')) ∧ 0 ≤ rank (r_pc (c_regs s')) < rank (r_pc r)).

Lemma exec_straight lit i r m : straight i = true → ∃ s', exec lit i (mk_cpu r m) = Some s' ∧ r_pc (c_regs s') = wrap64 (r_pc r + 4).
Proof using. intros Hi. destruct i; try done; by eexists. Qed.
Lemma exec_jump lit i r m off : i = B off ∨ (∃ w n, i = CBNZ w n off) ∨ (∃ n b, i = TBZ n b off ∨ i = TBNZ n b off) →
  ∃ s', exec lit i (mk_cpu r m) = Some s' ∧ (r_pc (c_regs s') = wrap64 (r_pc r + off) ∨ straight i = false ∧ (∀ o', i ≠ B o') ∧ r_pc (c_regs s') = wrap64 (r_pc r + 4)).
Proof using.
  intros [-> |[(w & n & ->)|(n & b & [-> | ->])]]; cbn; try case_if; eexists; (split; [reflexivity|]); cbn; auto.
Qed.
Lemma rank_guard k : 0 ≤ k < 64 → rank (c_gate c + 4 * k) = if (c_number c <=? 4095) && (3 <=? k) && (k <=? 4) then 5 - k else 1000 - k.
Proof using. intros Hk. unfold rank. replace (c_gate c + 4 * k - c_gate c) with (k * 4) by lia. cbv zeta. rewrite (proj2 (Z.ltb_lt _ _)), Z.div_mul by lia. done. Qed.
Lemma rank_body k : 0 ≤ k ≤ 94 → rank (body + 4 * k) = 9 * (95 - k).
Proof using.
  intros Hk. unfold rank. replace (c_gate c + 256 + 4 * k - c_gate c) with (256 + k * 4) by lia. cbv zeta. rewrite (proj2 (Z.ltb_ge _ _)), (proj2 (Z.ltb_lt _ _)) by lia.
  replace (256 + k * 4 - 256) with (k * 4) by lia. by rewrite Z.div_mul.
Qed.
Lemma rank_end j : 0 ≤ j ≤ 5 → rank (c_gate c + 680 + 4 * j) = 350 - j.
Proof using.
  intros Hk. unfold rank. replace (c_gate c + 680 + 4 * j - c_gate c) with (680 + j * 4) by lia. cbv zeta. rewrite !(proj2 (Z.ltb_ge _ _)), (proj2 (Z.eqb_neq _ _)) by lia.
  replace (680 + j * 4 - 680) with (j * 4) by lia. by rewrite Z.div_mul.
Qed.

Definition lower (pc pc' : Z) : Prop := c_gate c ≤ pc' < c_gate c + 712 ∧ 0 ≤ rank pc' < rank pc.
Lemma lower_goes pc d pc' : pc' = pc + d → lower pc pc' → in_gate (wrap64 (pc + d)) ∧ 0 ≤ rank (wrap64 (pc + d)) < rank pc.
Proof using Hgate. intros E [Hin Hr]. rewrite (pc_in pc d pc' E Hin). done. Qed.
Lemma adv_straight r m i pc' : fetch c code (r_pc r) = Some i → straight i = true → pc' = r_pc r + 4 → lower (r_pc r) pc' → advances r m.
Proof using Hgate.
  intros Hf Hi Hpc Hl. destruct (exec_straight (literal c code) i r m Hi) as (s' & Hx & E). exists i, s'. split_and!; [done..|]. do 2 right. rewrite E. by apply lower_goes with pc'.
Qed.
Lemma adv_branch r m i off pc1 pc2 :
  fetch c code (r_pc r) = Some i → (∃ w n, i = CBNZ w n off) ∨ (∃ n b, i = TBZ n b off ∨ i = TBNZ n b off) → pc1 = r_pc r + 4 → pc2 = r_pc r + off →
  lower (r_pc r) pc1 → lower (r_pc r) pc2 → advances r m.
Proof using Hgate.
  intros Hf Hi E1 E2 H1 H2. destruct (exec_jump (literal c code) i r m off) as (s' & Hx & E); [by right|]. exists i, s'. split_and!; [done..|]. do 2 right.
  destruct E as [-> |(_ & _ & ->)]; [by apply lower_goes with pc2|by apply lower_goes with pc1].
Qed.
Lemma adv_jump r m off pc' : fetch c code (r_pc r) = Some (B off) → pc' = r_pc r + off → lower (r_pc r) pc' → advances r m.
Proof using Hgate. intros Hf E Hl. exists (B off). eexists. split_and!; [done|reflexivity|]. do 2 right. cbn. by apply lower_goes with pc'. Qed.
Lemma adv_exit r m off to :
  fetch c code (r_pc r) = Some (B off) → to ∈ [mismatch exits; declined exits; busy exits; c_svc c + 4; dispatch] → off = to - r_pc r → advances r m.
Proof using Hexits. intros Hf Hto E. exists (B off). eexists. split_and!; [done|reflexivity|]. right. left. cbn. rewrite (exit_wrap _ to) by done. by apply Hexits. Qed.
Lemma lower_body k pc k' : pc = body + 4 * k → 0 ≤ k < k' → k' ≤ 94 → lower pc (body + 4 * k').
Proof using. intros -> Hk Hk'. split; [lia|]. rewrite !rank_body by lia. lia. Qed.
Definition branches : list Z := [9; 55; 56; 59; 82; 87; 92; 94].
Lemma body_straight k : 0 ≤ k ≤ 94 → k ∉ branches → ∃ i, body_code (c_frames c) body (c_svc c) exits !! Z.to_nat k = Some i ∧ straight i = true.
Proof using.
  intros Hk Hb. assert (forallb (λ k, bool_decide (k ∈ branches) || match body_code (c_frames c) body (c_svc c) exits !! Z.to_nat k with Some i => straight i | None => false end) (seqZ 0 95) = true) as Hall
    by reflexivity.
  rewrite forallb_forall in Hall. specialize (Hall k). rewrite <- list_elem_of_In, elem_of_seqZ in Hall. specialize (Hall ltac:(lia)). rewrite bool_decide_eq_false_2 in Hall by done. cbn [orb] in Hall.
  destruct (body_code _ _ _ _ !! _); [by eexists|done].
Qed.
Lemma body_advances r m k : 0 ≤ k ≤ 94 → at_body k r → (k = 82 → ∃ done, r_x r 30 = target done) → advances r m.
Proof using Hfacts Hgate Hexits.
  intros Hk Hpc H82. unfold at_body in Hpc. destruct (decide (k ∈ branches)) as [Hb|Hb].
  - unfold branches in Hb. rewrite !elem_of_cons, elem_of_nil in Hb. destruct Hb as [-> |[-> |[-> |[-> |[-> |[-> |[-> |[-> |[]]]]]]]]].
    + eapply adv_branch; [exact (body_fetch _ 9 _ _ Hpc eq_refl eq_refl)|left; by eexists _, _| | |apply (lower_body 9 _ 10 Hpc); lia|apply (lower_body 9 _ 93 Hpc); lia]; lia.
    + eexists _, _. split_and!; [exact (body_fetch _ 55 _ _ Hpc eq_refl eq_refl)|reflexivity|]. by left.
    + eapply (adv_jump _ _ _ (c_gate c + 680 + 4 * 0)); [exact (body_fetch _ 56 _ _ Hpc eq_refl eq_refl)| |split; [|rewrite Hpc, rank_body, (rank_end 0) by lia; lia]]; lia.
    + eapply adv_branch; [exact (body_fetch _ 59 _ _ Hpc eq_refl eq_refl)|left; by eexists _, _| | |apply (lower_body 59 _ 60 Hpc); lia|apply (lower_body 59 _ 61 Hpc); lia]; lia.
    + destruct (H82 eq_refl) as [done E]. eexists _, _. split_and!; [exact (body_fetch _ 82 _ _ Hpc eq_refl eq_refl)|reflexivity|]. do 2 right. cbn. unfold xr. cbn. rewrite E.
      assert (target done = body + 4 * (if done then 83 else 88)) as -> by (unfold target; destruct done; lia). rewrite Hpc, !rank_body by (destruct done; lia).
      unfold in_gate. change md_svc_direct_signal_size with 712. destruct done; lia.
    + eapply (adv_exit _ _ _ (c_svc c + 4)); [exact (body_fetch _ 87 _ _ Hpc eq_refl eq_refl)|by do 3 right; left|lia].
    + eapply (adv_exit _ _ _ (declined exits)); [exact (body_fetch _ 92 _ _ Hpc eq_refl eq_refl)|by right; left|lia].
    + eapply (adv_exit _ _ _ (busy exits)); [exact (body_fetch _ 94 _ _ Hpc eq_refl eq_refl)|by do 2 right; left|lia].
  - destruct (body_straight k Hk Hb) as (i & Hi & Hst). eapply adv_straight; [exact (body_fetch k (Z.to_nat k) i _ Hpc ltac:(lia) Hi)|done| |apply (lower_body k _ (k + 1) Hpc); [lia|]]; [lia|].
    destruct (decide (k = 94)) as [->|]; [|lia]. destruct Hb. unfold branches. do 7 right. by left.
Qed.

Lemma lower_end j pc j' : pc = c_gate c + 680 + 4 * j → 0 ≤ j < j' → j' ≤ 5 → lower pc (c_gate c + 680 + 4 * j').
Proof using. intros -> Hk Hk'. split; [lia|]. rewrite !rank_end by lia. lia. Qed.
Lemma end_advances r m j : 0 ≤ j ≤ 4 → at_end j r → advances r m.
Proof using Hfacts Hgate.
  intros Hj Hpc. unfold at_end in Hpc. each j 0 5.
  - eapply adv_straight; [exact (end_fetch _ 2 _ _ Hpc eq_refl eq_refl)|done| |apply (lower_end 0 _ 1 Hpc); lia]; lia.
  - eapply adv_straight; [exact (end_fetch _ 3 _ _ Hpc eq_refl eq_refl)|done| |apply (lower_end 1 _ 2 Hpc); lia]; lia.
  - eapply adv_branch; [exact (end_fetch _ 4 _ _ Hpc eq_refl eq_refl)|left; by eexists _, _| | |apply (lower_end 2 _ 3 Hpc); lia|apply (lower_end 2 _ 4 Hpc); lia]; lia.
  - eapply (adv_jump _ _ _ (body + 4 * 57)); [exact (end_fetch _ 5 _ _ Hpc eq_refl eq_refl)| |split; [|rewrite Hpc, rank_body, rank_end by lia; lia]]; lia.
  - eapply adv_straight; [exact (end_fetch _ 6 _ _ Hpc eq_refl eq_refl)|done| |apply (lower_end 4 _ 5 Hpc); lia]; lia.
Qed.
Lemma lower_guard_body k pc : pc = c_gate c + 4 * k → 0 ≤ k < 64 → (c_number c ≤ 4095 → k ∉ [3; 4]) → lower pc body.
Proof using.
  intros -> Hk Hne. split; [lia|]. rewrite rank_guard by done. pose proof (rank_body 0 ltac:(lia)) as E. replace (body + 4 * 0) with body in E by lia. rewrite E.
  destruct (Z.leb_spec (c_number c) 4095) as [Hs|]; cbn [andb]; [|lia]. destruct (Z.leb_spec 3 k), (Z.leb_spec k 4); cbn [andb]; try lia.
  destruct (Hne Hs). assert (k = 3 ∨ k = 4) as [-> | ->] by lia; [by left|by right; left].
Qed.
Lemma bit_advances r m k : ¬ c_number c ≤ 4095 → 0 ≤ k < 64 → r_pc r = c_gate c + 4 * k → advances r m.
Proof using Hfacts Hgate.
  intros Hbig Hk Hpc.
  assert (fetch c code (r_pc r) = Some (if Z.testbit (c_number c) k then TBZ 8 k (672 - 4 * k) else TBNZ 8 k (672 - 4 * k))) as Hf.
  { apply (guard_fetch k (Z.to_nat k)); [done|lia|]. unfold guard_code. rewrite (proj2 (Z.leb_gt _ _)) by lia. unfold bit_code. rewrite list_lookup_fmap, lookup_seqZ_lt, Z2Nat.id by lia. done. }
  assert (rank (r_pc r) = 1000 - k) as Er by (rewrite Hpc, rank_guard, (proj2 (Z.leb_gt _ _)) by lia; done).
  eapply (adv_branch r m _ (672 - 4 * k) (c_gate c + 4 * (k + 1)) (c_gate c + 672)); [exact Hf|right; exists 8, k; destruct (Z.testbit (c_number c) k); auto|lia|lia| |].
  - destruct (decide (k = 63)) as [->|]; [replace (c_gate c + 4 * (63 + 1)) with body by lia; apply (lower_guard_body 63); [done|lia|lia]|].
    split; [lia|]. rewrite Er, rank_guard, (proj2 (Z.leb_gt _ _)) by lia. cbn [andb]. lia.
  - split; [lia|]. rewrite Er. unfold rank. replace (c_gate c + 672 - c_gate c) with 672 by lia. cbn. lia.
Qed.
Lemma small_advances r m k : c_number c ≤ 4095 → r_pc r = c_gate c + 4 * k → guard_ok k r → advances r m.
Proof using Hfacts Hgate Hexits.
  intros Hs Hpc Hg. unfold guard_ok in Hg. rewrite (proj2 (Z.leb_le _ _) Hs) in Hg.
  assert (∀ j, 0 ≤ j < 64 → rank (c_gate c + 4 * j) = if (3 <=? j) && (j <=? 4) then 5 - j else 1000 - j) as Hrank by (intros j Hj; rewrite rank_guard, (proj2 (Z.leb_le _ _) Hs) by done; done).
  assert (∀ j, 0 ≤ j < 64 → (if (3 <=? j) && (j <=? 4) then 5 - j else 1000 - j) < (if (3 <=? k) && (k <=? 4) then 5 - k else 1000 - k) → 0 ≤ k < 64 → lower (r_pc r) (c_gate c + 4 * j)) as Hl.
  { intros j Hj Hlt Hk. split; [lia|]. rewrite Hpc, !Hrank by done. split; [|done]. destruct (_ && _) eqn:E; [|lia]. apply andb_true_iff in E as [_ E%Z.leb_le]. lia. }
  destruct Hg as [[[-> |[-> _]] _]|[[[-> |[-> _]] _]|[[-> |(Hmm & Hk & _)] _]]].
  - eapply adv_straight; [exact (small_fetch 0 0 _ _ Hs Hpc eq_refl eq_refl)|done| |apply (Hl 1); [lia|cbn; lia|lia]]; lia.
  - eapply (adv_exit _ _ _ (mismatch exits)); [exact (small_fetch 4 4 _ _ Hs Hpc eq_refl eq_refl)|by left|lia].
  - eapply adv_branch; [exact (small_fetch 1 1 _ _ Hs Hpc eq_refl eq_refl)|left; by eexists _, _| | |apply (Hl 2); [lia|cbn; lia|lia]|apply (Hl 3); [lia|cbn; lia|lia]]; lia.
  - eapply adv_straight; [exact (small_fetch 3 3 _ _ Hs Hpc eq_refl eq_refl)|done| |apply (Hl 4); [lia|cbn; lia|lia]]; lia.
  - eapply (adv_jump _ _ _ (if c_number c =? SYS_mmap then c_gate c + 4 * 8 else body)); [exact (small_fetch 2 2 _ _ Hs Hpc eq_refl eq_refl)| |]; destruct (c_number c =? SYS_mmap); try lia.
    + apply Hl; [lia|cbn; lia|lia].
    + apply (lower_guard_body 2); [done|lia|]. intros _. by intros [?|[?|?%elem_of_nil]%elem_of_cons]%elem_of_cons.
  - pose proof (λ n i', small_map n i' Hmm) as Hmap. each k 8 3.
    + eapply adv_branch; [exact (small_fetch 8 8 _ _ Hs Hpc eq_refl (Hmap 0%nat _ eq_refl))|right; eexists _, _; by left| | |apply (Hl 9); [lia|cbn; lia|lia]|apply (Hl 3); [lia|cbn; lia|lia]]; lia.
    + eapply adv_branch; [exact (small_fetch 9 9 _ _ Hs Hpc eq_refl (Hmap 1%nat _ eq_refl))|right; eexists _, _; by left| | |apply (Hl 10); [lia|cbn; lia|lia]|apply (Hl 3); [lia|cbn; lia|lia]]; lia.
    + eapply (adv_jump _ _ _ body); [exact (small_fetch 10 10 _ _ Hs Hpc eq_refl (Hmap 2%nat _ eq_refl))|lia|]. apply (lower_guard_body 10); [done|lia|]. intros _. by intros [?|[?|?%elem_of_nil]%elem_of_cons]%elem_of_cons.
Qed.
Lemma inv_progress s : gate_inv s → g_mode s = Gate → in_gate (r_pc (c_regs (g_cpu s))) → r_pc (c_regs (g_cpu s)) ≠ md_svc_direct_checkpoint c → advances (c_regs (g_cpu s)) (c_mem (g_cpu s)).
Proof using All.
  intros Hinv. change (md_svc_direct_checkpoint c) with (c_gate c + 680 + 20). inversion Hinv; subst; cbn [g_mode g_cpu c_regs c_mem]; intros Hmd Hin Hne; try done.
  - match goal with H : guard_ok _ _ |- _ => pose proof (guard_index _ _ H); rename H into Hg end. destruct (decide (c_number c ≤ 4095)); [by eapply small_advances|by eapply bit_advances].
  - eapply (adv_exit _ _ _ (mismatch exits)); [eapply (end_fetch (-2) 0); [|reflexivity..]; lia|by left|lia].
  - destruct (exit_outside (r_pc r)); [|done]. match goal with H : _ ∨ _ |- _ => destruct H as [[-> _]|[H _]] end; [by left|by right].
  - destruct (proj2 (Hexits (c_svc c + 4) ltac:(do 3 right; by left))). by replace (c_svc c + 4) with (r_pc r).
  - eapply body_advances; [|done|]; lia.
  - eapply body_advances; [|done|]; lia.
  - eapply body_advances; [|done|]; lia.
  - eapply body_advances; [|done|]; lia.
  - eapply body_advances; [|done|]; lia.
  - eapply body_advances; [|done|]; lia.
  - match goal with H : returning _ |- _ => destruct H as [Hpc|[Hpc|[(j & Hj & Hpc & _)|[(j & Hj & Hpc)|[[Hpc _]|[_ [Hpc|[[Hpc _]|[[Hpc _]|[Hpc _]]]]]]]]]] end.
    2: by eapply (end_advances r m 0).
    2: eapply (end_advances r m j); [lia|done].
    2: eapply (end_advances r m j); [|done]; unfold at_end in Hpc; lia.
    all: eapply body_advances; [|done|]; lia.
  - eapply (body_advances r m k); [lia|done|]. intros E. exists done. auto.
  - eapply (body_advances r m ((if done then 83 else 88) + k)); [destruct done; lia|unfold at_body, target in *; destruct done; lia|destruct done; lia].
  - eapply (body_advances r m ((if done then 83 else 88) + k)); [destruct done; lia|unfold at_body, target in *; destruct done; lia|destruct done; lia].
  - eapply body_advances; [|done|]; lia.
Qed.

(** ** The memory that the gate changes *)

Definition stores (i : instr) : bool := match i with STR _ _ _ | STP _ _ _ _ | SWPAL _ _ _ | STLR _ _ => true | _ => false end.
Lemma exec_keeps lit i r m s' : stores i = false → exec lit i (mk_cpu r m) = Some s' → c_mem s' = m.
Proof using. intros Hi Hx. destruct i; try done; cbn in Hx; try (by injection Hx as <-); case_if; by injection Hx as <-. Qed.
Lemma own_keeps i s own : stores i = false → own_after i s own = own.
Proof using. by destruct i. Qed.
(** One instruction: nothing outside the frame; without the frame only its claim, which is
    made when it is free. *)
Definition modest (own : bool) (m : Z → Z) (own' : bool) (m' : Z → Z) : Prop :=
  (∀ a, ¬ f ≤ a < f + 65536 → m' a = m a) ∧ (own = false → ∀ a, a ≠ f → m' a = m a)
  ∧ (own = false → own' = (m f =? 0) ∧ m' f = f ∨ own' = false ∧ m' f = m f) ∧ (own = true → own' = true ∧ m' f = f ∨ own' = false ∧ m' f = 0).
Lemma modest_same own m m' : m' = m → (own = true → claimed m) → modest own m own m'.
Proof using. intros -> Hm. unfold modest. split_and!; try done; [by right|]. intros ->. left. split; [done|]. by apply Hm. Qed.
Lemma modest_store m a v : claimed m → f < a < f + 65536 → modest true m true (upd a v m).
Proof using.
  intros Hm Ha. unfold modest. split_and!; try done; [intros b Hb; rewrite upd_other by lia; done|]. intros _. left. split; [done|]. by rewrite upd_other by lia.
Qed.
Lemma modest_trans m m1 m2 : modest true m true m1 → modest true m1 true m2 → modest true m true m2.
Proof using.
  intros (H1 & _ & _ & _) (G1 & _ & _ & G4). split_and!; [intros a Ha; by rewrite G1, H1|done|done|done].
Qed.
Lemma exec_keeps_modest k r m own i s' n :
  k = Z.of_nat n → at_body k r → (∃ i', body_code (c_frames c) body (c_svc c) exits !! n = Some i' ∧ stores i' = false) → (own = true → claimed m) →
  fetch c code (r_pc r) = Some i → exec (literal c code) i (mk_cpu r m) = Some s' → modest own m (own_after i (mk_cpu r m) own) (c_mem s').
Proof using Hfacts.
  intros Hn Hpc (i' & Hi & Hst) Hm Hf Hx. rewrite (body_fetch k n i' _ Hpc Hn Hi) in Hf. injection Hf as <-. rewrite own_keeps by done. apply modest_same; [|done]. by eapply exec_keeps.
Qed.
Definition stores_at : list Z := [8; 18; 29; 30; 31; 32; 33; 34; 35; 36; 37; 38; 39; 40; 41; 42; 43; 45; 47; 49; 61; 85; 90].
Lemma body_keeps k : 0 ≤ k ≤ 94 → k ∉ stores_at → ∃ i, body_code (c_frames c) body (c_svc c) exits !! Z.to_nat k = Some i ∧ stores i = false.
Proof using.
  intros Hk Hb. assert (forallb (λ k, bool_decide (k ∈ stores_at) || match body_code (c_frames c) body (c_svc c) exits !! Z.to_nat k with Some i => negb (stores i) | None => false end) (seqZ 0 95) = true) as Hall
    by reflexivity.
  rewrite forallb_forall in Hall. specialize (Hall k). rewrite <- list_elem_of_In, elem_of_seqZ in Hall. specialize (Hall ltac:(lia)). rewrite bool_decide_eq_false_2 in Hall by done. cbn [orb] in Hall.
  destruct (body_code _ _ _ _ !! _) as [i|]; [exists i; by destruct (stores i)|done].
Qed.
Lemma body_modest k r m own i s' :
  0 ≤ k ≤ 94 → at_body k r → k ∉ stores_at → (own = true → claimed m) →
  fetch c code (r_pc r) = Some i → exec (literal c code) i (mk_cpu r m) = Some s' → modest own m (own_after i (mk_cpu r m) own) (c_mem s').
Proof using Hfacts. intros Hk Hpc Hb. apply (exec_keeps_modest k r m own i s' (Z.to_nat k)); [lia|done|by apply body_keeps]. Qed.
(** A store at an offset of the frame. *)
Lemma str_modest k n rt rn off r m i s' :
  at_body k r → k = Z.of_nat n → body_code (c_frames c) body (c_svc c) exits !! n = Some (STR rt rn off) → rn ≠ 31 → claimed m → 0 < r_x r rn - f + off < 65536 → 0 ≤ off →
  fetch c code (r_pc r) = Some i → exec (literal c code) i (mk_cpu r m) = Some s' → modest true m (own_after i (mk_cpu r m) true) (c_mem s').
Proof using Hfacts.
  intros Hpc Hn Hi Hrn Hm Ha Ho Hf Hx. destruct f_bound as (Hf0 & _ & _ & Hf3). rewrite (body_fetch k n _ _ Hpc Hn Hi) in Hf. injection Hf as <-. cbn [exec c_regs c_mem] in Hx. injection Hx as <-. cbn [own_after c_mem].
  unfold xs. rewrite (proj2 (Z.eqb_neq rn 31)) by done. rewrite wrap64_small by lia. apply modest_store; [done|lia].
Qed.

Lemma inv_claimed s : gate_inv s → g_own s = true → claimed (c_mem (g_cpu s)).
Proof using. intros Hinv Ho. inversion Hinv; subst; cbn in *; try done; auto; match goal with H : context_saved _ _ |- _ => apply H end. Qed.
Lemma guard_keeps n i : guard_code (c_number c) (c_gate c) (mismatch exits) !! n = Some i → stores i = false.
Proof using.
  unfold guard_code. case_if.
  - unfold small_code. destruct (c_number c =? SYS_mmap); intros Hi; do 11 (destruct n as [|n]; [cbn in Hi; by injection Hi as <-|]); done.
  - unfold bit_code. rewrite list_lookup_fmap. intros (b & _ & ->)%fmap_Some. by destruct (Z.testbit _ _).
Qed.
Lemma guard_fetched k r i : guard_ok k r → r_pc r = c_gate c + 4 * k → fetch c code (r_pc r) = Some i → stores i = false.
Proof using Hfacts.
  intros Hg Hpc Hf. pose proof (guard_index _ _ Hg) as Hk.
  assert (∃ i', guard_code (c_number c) (c_gate c) (mismatch exits) !! Z.to_nat k = Some i') as [i' Hi'].
  { apply lookup_lt_is_Some. unfold guard_code, guard_ok in *. case_if; [|unfold bit_code; rewrite length_fmap, length_seqZ; lia].
    assert (k < 11) by (destruct Hg as [[[?|[? _]] _]|[[[?|[? _]] _]|[[?|(_ & ? & _)] _]]]; lia). unfold small_code. destruct (c_number c =? SYS_mmap); cbn; lia. }
  rewrite (guard_fetch k (Z.to_nat k) i' _ Hpc ltac:(lia) Hi') in Hf. injection Hf as <-. by eapply guard_keeps.
Qed.
Lemma tail_modest j n r m own i s' :
  at_end j r → j + 2 = Z.of_nat n → -2 ≤ j ≤ 7 → (own = true → claimed m) →
  fetch c code (r_pc r) = Some i → exec (literal c code) i (mk_cpu r m) = Some s' → modest own m (own_after i (mk_cpu r m) own) (c_mem s').
Proof using Hfacts.
  intros Hpc Hn Hj Hm Hf Hx. assert (∃ i', tail_code body exits !! n = Some i') as [i' Hi'] by (apply lookup_lt_is_Some; cbn; lia).
  rewrite (end_fetch j n i' _ Hpc Hn Hi') in Hf. injection Hf as <-. assert (stores i' = false) as Hs by (do 10 (destruct n as [|n]; [by injection Hi' as <-|]); done).
  rewrite own_keeps by done. apply modest_same; [by eapply exec_keeps|done].
Qed.
Ltac not_store := unfold stores_at; rewrite !elem_of_cons, elem_of_nil; lia.
Lemma claim_modest r m i s' :
  at_body 8 r → r_x r 8 = f → fetch c code (r_pc r) = Some i → exec (literal c code) i (mk_cpu r m) = Some s' → modest false m (own_after i (mk_cpu r m) false) (c_mem s').
Proof using Hfacts.
  intros Hpc H8 Hf Hx. destruct f_bound as (Hf0 & _ & _ & Hf3). rewrite (body_fetch 8 8 _ _ Hpc eq_refl eq_refl) in Hf. injection Hf as <-. cbn [exec c_regs c_mem] in Hx. injection Hx as <-.
  cbn [own_after c_mem c_regs]. unfold xs, xr. cbn [Z.eqb Pos.eqb]. rewrite H8, wrap64_small, Z.add_0_r by lia. split_and!; try done.
  - intros a Ha. rewrite upd_other by lia. done.
  - intros _ a Ha. by rewrite upd_other.
  - intros _. left. by rewrite upd_here.
Qed.
Lemma save_modest r m k i s' :
  29 ≤ k ≤ 43 → at_body k r → r_x r 30 = f + 64 → claimed m → fetch c code (r_pc r) = Some i → exec (literal c code) i (mk_cpu r m) = Some s' →
  modest true m (own_after i (mk_cpu r m) true) (c_mem s').
Proof using Hfacts.
  intros Hk Hpc H30 Hm Hf Hx. destruct f_bound as (Hf0 & _ & _ & Hf3). rewrite (body_fetch k (Z.to_nat k) _ _ Hpc ltac:(lia) (save_lookup k Hk)) in Hf. injection Hf as <-.
  cbn [exec c_regs c_mem] in Hx. injection Hx as <-. cbn [own_after c_mem]. unfold xs. cbn [Z.eqb Pos.eqb]. rewrite H30, !wrap64_small by lia.
  eapply modest_trans; [|apply modest_store; [|lia]]; [apply modest_store; [done|lia]|]. unfold claimed in *. by rewrite upd_other by lia.
Qed.
Lemma release_modest r m k done i s' :
  0 ≤ k ≤ 2 → r_pc r = target done + 4 * k → claimed m → r_x r 8 = (if k =? 2 then f else f + 64) →
  fetch c code (r_pc r) = Some i → exec (literal c code) i (mk_cpu r m) = Some s' → modest true m (own_after i (mk_cpu r m) true) (c_mem s').
Proof using Hfacts.
  intros Hk Hpc Hm H8 Hf Hx. destruct f_bound as (Hf0 & _ & _ & Hf3). assert (at_body ((if done then 83 else 88) + k) r) as Hb by (unfold at_body, target in *; destruct done; lia).
  destruct (decide (k = 2)) as [->|]; [|apply (body_modest ((if done then 83 else 88) + k) r m true i s'); [destruct done; lia|done|destruct done; not_store|done|done|done]].
  cbn in H8. rewrite (body_fetch _ (Z.to_nat ((if done then 83 else 88) + 2)) (STLR 31 8) _ Hb) in Hf; [|by destruct done|by destruct done]. injection Hf as <-. cbn [exec c_regs c_mem] in Hx. injection Hx as <-.
  cbn [own_after c_mem]. unfold xs, xr. cbn [Z.eqb Pos.eqb]. rewrite H8, wrap64_small, Z.add_0_r by lia. split_and!; try done.
  - intros a Ha. by rewrite upd_other by lia.
  - intros _. right. by rewrite upd_here.
Qed.

Ltac str_at n := eapply (str_modest (Z.of_nat n) n); [eassumption|reflexivity|reflexivity|done|by auto|lia|lia|eassumption|eassumption].
Lemma inv_modest r m own res i s' :
  gate_inv (mk_gate (mk_cpu r m) own Gate res) → fetch c code (r_pc r) = Some i → exec (literal c code) i (mk_cpu r m) = Some s' → modest own m (own_after i (mk_cpu r m) own) (c_mem s').
Proof using Hfacts Hexits Hgate.
  intros Hinv Hf Hx. pose proof (inv_claimed _ Hinv) as Hc. cbn in Hc. inversion Hinv; subst.
  - assert (stores i = false) as Hs by (by eapply guard_fetched). rewrite own_keeps by done. apply modest_same; [by eapply exec_keeps|done].
  - apply (tail_modest (-2) 0 r m false i s'); [unfold at_end; lia|done|lia|done|done|done].
  - rewrite outside_fetch in Hf; [done|]. apply exit_outside. match goal with H : _ ∨ _ |- _ => destruct H as [[-> _]|[H _]] end; [by left|by right].
  - rewrite outside_fetch in Hf; [done|]. replace (r_pc r) with (c_svc c + 4) by done. apply Hexits. do 3 right. by left.
  - destruct (decide (k = 8)) as [->|]; [apply (claim_modest r m i s'); auto with lia|]. apply (body_modest k); auto; [lia|not_store].
  - apply (body_modest 9); auto; [lia|not_store].
  - destruct (decide (k = 18)) as [->|]; [|apply (body_modest k); auto; [lia|not_store]].
    match goal with H : 11 ≤ 18 ≤ 18 → _ |- _ => specialize (H ltac:(lia)); change (slot_val (18 - 10)) with f in H end. str_at 18%nat.
  - destruct (decide (29 ≤ k)) as [Hk|]; [|apply (body_modest k); auto; [lia|not_store]].
    match goal with H : 29 ≤ k → _ |- _ => destruct (H Hk) end. apply (save_modest r m k); auto. lia.
  - destruct (decide (k ∈ stores_at)) as [Hk|]; [|apply (body_modest k); auto; lia]. assert (k = 45 ∨ k = 47 ∨ k = 49) as [-> |[-> | ->]] by (revert Hk; not_store).
    + str_at 45%nat.
    + str_at 47%nat.
    + str_at 49%nat.
  - apply (body_modest k); auto; [lia|not_store].
  - match goal with H : returning _ |- _ => destruct H as [Hpc|[Hpc|[(j & Hj & Hpc & _)|[(j & Hj & Hpc)|[[Hpc _]|[H8' [Hpc|[[Hpc _]|[[Hpc _]|[Hpc _]]]]]]]]]] end.
    9: str_at 61%nat.
    2: by apply (tail_modest 0 2 r m true i s').
    2,3: apply (tail_modest j (Z.to_nat (j + 2)) r m true i s'); [done|lia|lia|done|done|done].
    + apply (body_modest 56); auto; [lia|not_store].
    + apply (body_modest 57); auto; [lia|not_store].
    + apply (body_modest 58); auto; [lia|not_store].
    + apply (body_modest 59); auto; [lia|not_store].
    + apply (body_modest 60); auto; [lia|not_store].
  - apply (body_modest k); auto; [lia|not_store].
  - apply (release_modest r m k done); auto.
  - apply (body_modest ((if done then 83 else 88) + k)); auto; [destruct done; lia|unfold at_body, target in *; destruct done; lia|destruct done; not_store].
  - apply (body_modest k); auto; [lia|not_store].
Qed.

(** ** Recovery is exact *)

Context (err : Z → Z) (Herr : ∀ a, err a = 0) (Hout : outside_pool (r_sp o)).
Lemma slot_of_frame sp : f < sp ≤ f + 65536 → slot_of sp = f.
Proof using Hfacts.
  intros Hsp. destruct f_bound as (_ & Hm & _). unfold slot_of. change (MD_SVC_SLOT_SIZE - 1) with (Z.ones 16). rewrite Z.ldiff_ones_r, Z.shiftl_mul_pow2, Z.shiftr_div_pow2 by done.
  change (2 ^ 16) with 65536. divlia.
Qed.
Lemma access_ok a r m k : access err a r m k = k.
Proof using Herr. unfold access. by rewrite Herr. Qed.
Definition private (sp : Z) : bool := (c_frames c <? sp) && (sp <=? c_frames c + MD_SVC_POOL_SIZE).
Lemma private_guest : private (r_sp o) = false.
Proof using Hout. unfold private. destruct Hout as [H|H]; [by rewrite (proj2 (Z.ltb_ge _ _))|]. rewrite (proj2 (Z.leb_gt _ _)) by done. apply andb_false_r. Qed.
Lemma private_frame sp : f < sp ≤ f + 65536 → private sp = true.
Proof using Hfacts.
  intros Hsp. destruct f_bound as (_ & _ & Hb & _). unfold private. change MD_SVC_POOL_SIZE with 4194304. rewrite (proj2 (Z.ltb_lt _ _)), (proj2 (Z.leb_le _ _)) by lia. done.
Qed.
Ltac labels :=
  change GUARD_BYTES with 256; change md_svc_single_size with 408; change md_svc_direct_size with 680; change (at_ "claimed") with 36; change (at_ "borrow_lr") with 80;
  change (at_ "saved_gprs") with 176; change (at_ "saved_sp") with 200; change (at_ "invoke") with 220; change (at_ "returned") with 224; change (at_ "outcome") with 248;
  change (at_ "done") with 332; change (at_ "done_replay") with 344; change (at_ "done_branch") with 348; change (at_ "kernel") with 352; change (at_ "kernel_replay") with 364;
  change (at_ "kernel_branch") with 368; change (at_ "busy_replay") with 372; change (at_ "busy_branch") with 376;
  change MD_SVC_FRAME_OFFSET with 64; change MD_SVC_SAVED_SP with 864; change MD_SVC_DIRECT_PENDING with 392; change MD_SVC_OWNER_OFFSET with 384.
(** Decides the comparisons of the goal. *)
Ltac pick :=
  repeat match goal with
  | |- context [?a <=? ?b] => first [rewrite (proj2 (Z.leb_le a b)) by lia|rewrite (proj2 (Z.leb_gt a b)) by lia]
  | |- context [?a <? ?b] => first [rewrite (proj2 (Z.ltb_lt a b)) by lia|rewrite (proj2 (Z.ltb_ge a b)) by lia]
  | |- context [?a =? ?b] => first [rewrite (proj2 (Z.eqb_eq a b)) by lia|rewrite (proj2 (Z.eqb_neq a b)) by lia]
  end; cbn [andb orb negb].
Lemma recover_enter r m k : 0 ≤ k ≤ 55 → at_body k r → md_svc_direct_recover err c r m = recover_entering err c body (private (r_sp r)) r m.
Proof using. intros Hk Hpc. unfold at_body in Hpc. unfold md_svc_direct_recover. cbv zeta. fold (private (r_sp r)). labels. rewrite Hpc. pick. done. Qed.
Lemma recover_return r m k : 56 ≤ k ≤ 92 → at_body k r → md_svc_direct_recover err c r m = recover_returned err c body false (private (r_sp r)) r m.
Proof using. intros Hk Hpc. unfold at_body in Hpc. unfold md_svc_direct_recover. cbv zeta. fold (private (r_sp r)). labels. rewrite Hpc. pick. done. Qed.
Lemma recover_tail r m j : 0 ≤ j ≤ 6 → at_end j r → md_svc_direct_recover err c r m = recover_returned err c body true (private (r_sp r)) r m.
Proof using. intros Hk Hpc. unfold at_end in Hpc. unfold md_svc_direct_recover. cbv zeta. fold (private (r_sp r)). labels. rewrite Hpc. pick. done. Qed.
Lemma recover_busy r m k : 93 ≤ k ≤ 94 → at_body k r → md_svc_direct_recover err c r m = recover_finish err c 0 false r m.
Proof using.
  intros Hk Hpc. unfold at_body in Hpc. unfold md_svc_direct_recover. cbv zeta. fold (private (r_sp r)). labels. rewrite Hpc. assert (k = 93 ∨ k = 94) as [-> | ->] by lia; pick; done.
Qed.
Lemma recover_outside r m : ¬ in_gate (r_pc r) → md_svc_direct_recover err c r m = if private (r_sp r) then recover_payload err c r m else (r, m, 0).
Proof using.
  unfold in_gate. change md_svc_direct_signal_size with 712. intros Hpc. unfold md_svc_direct_recover. cbv zeta. fold (private (r_sp r)). labels.
  destruct (Z.leb_spec (c_gate c) (r_pc r)); pick; done.
Qed.

(** The guest before its call, or behind it with its result, and the frame free. *)
Definition resumes (res : option Z) (r : user_pt_regs) : Prop :=
  stack_flags r ∧ r_pc r = c_svc c + (if res then 4 else 0) ∧ ∀ n, 0 ≤ n ≤ 30 → r_x r n = resumed (default (r_x o 0) res) n.
Definition release (m : Z → Z) : Z → Z := upd f 0 (upd (f + 392) 0 m).
Definition recovers (own : bool) (res : option Z) (r : user_pt_regs) (m : Z → Z) (x : recovered) : Prop :=
  ∃ r', x = (r', if own then release m else m, 1) ∧ resumes res r'.

Lemma finish_recovers (own done : bool) v res r m frame :
  frame = (if own then f else 0) → outcome res done v → stack_flags r → admits → (∀ n, 0 ≤ n ≤ 30 → n ≠ 8 → r_x r n = resumed v n) → recovers own res r m (recover_finish err c frame done r m).
Proof using Hfacts Herr.
  intros -> [-> Hv] [Hsp Hps] Hn Hr. destruct f_bound as (Hf0 & _). unfold recover_finish. cbv zeta. rewrite !access_ok.
  eexists. split; [destruct own; [by rewrite (proj2 (Z.eqb_neq f 0)) by lia|done]|]. unfold resumes, stack_flags, set_pc, set_x. cbn [r_x r_sp r_pc r_pstate Z.eqb Pos.eqb].
  split; [done|]. split; [by destruct done|]. intros n Hn0. unfold upd. destruct (Z.eqb_spec n 8) as [->|]; [by rewrite <- (proj1 Hn)|]. rewrite Hr by done. destruct done; cbn; [done|]. by rewrite Hv.
Qed.
Lemma loaded_gprs m v r n : context_saved m v → 0 ≤ n ≤ 30 → r_x (load_gprs m f r) n = resumed v n.
Proof using.
  intros Hm Hn. unfold load_gprs. cbn [r_x]. rewrite (proj2 (Z.leb_le 0 n)), (proj2 (Z.leb_le n 30)) by lia. cbn [andb]. change MD_SVC_FRAME_OFFSET with 64. by apply saved_resumed.
Qed.
Lemma reload_recovers done v res r m : outcome res done v → same_state o r → admits → context_saved m v → recovers true res r m (recover_reload err c f done r m).
Proof using Hfacts Herr.
  intros Hres Hst Hn Hm. unfold recover_reload. rewrite !access_ok. cbv zeta. labels. pose proof Hm as (_ & _ & H312 & _ & H864).
  assert (f + 64 + 248 = f + 312) as -> by lia. rewrite H312, H864.
  destruct (finish_recovers true done v res (set_nzcv (Z.land (r_pstate o) NZCV) (set_sp (r_sp o) (load_gprs m f r))) m f eq_refl Hres) as (r' & E & Hr'); [..|by exists r'].
  - split; [done|]. cbn. by apply nzcv_restored.
  - done.
  - intros n Hn0 _. exact (loaded_gprs m v r n Hm Hn0).
Qed.
Lemma frame_accepted : (f <? c_frames c) || (c_frames c + MD_SVC_POOL_SIZE <=? f) || negb (f mod MD_SVC_SLOT_SIZE =? 0) = false.
Proof using Hfacts. destruct f_bound as (_ & Hm & Hb & _). change MD_SVC_SLOT_SIZE with 65536. change MD_SVC_POOL_SIZE with 4194304. pick. done. Qed.
Lemma back_recovers r m v res :
  same_state o r → admits → context_saved m v → r_sp r = f + 65536 → 0 ≤ r_x r 0 < 2 ^ 32 → outcome res (negb (r_x r 0 =? 0)) v → returning r →
  recovers true res r m (md_svc_direct_recover err c r m).
Proof using Hfacts Herr.
  intros Hst Hn Hm Hsp Hw Hout' Hret. destruct f_bound as (Hf0 & _ & _ & Hf3). assert (private (r_sp r) = true) as Hp by (apply private_frame; lia). assert (slot_of (r_sp r) = f) as Hs by (apply slot_of_frame; lia).
  assert (∀ j, 0 ≤ j ≤ 5 → at_end j r → recovers true res r m (md_svc_direct_recover err c r m)) as Htail.
  { intros j Hj Hpc. rewrite (recover_tail r m j) by (done || lia). unfold at_end in Hpc. unfold recover_returned. cbv zeta. rewrite Hp, Hs. labels. rewrite Hpc. pick.
    rewrite frame_accepted. by apply reload_recovers with v. }
  assert (∀ k, 56 ≤ k ≤ 61 → at_body k r → (58 ≤ k → r_x r 8 = f + 64) → recovers true res r m (md_svc_direct_recover err c r m)) as Hbody.
  { intros k Hk Hpc H8. rewrite (recover_return r m k) by (done || lia). unfold at_body in Hpc. unfold recover_returned. cbv zeta. rewrite Hp, Hs. labels. rewrite Hpc.
    destruct (decide (58 ≤ k)); [rewrite H8 by done|]; pick.
    - replace (f + 64 - 64) with f by lia. rewrite (wrap64_small f) by lia. rewrite frame_accepted. by apply reload_recovers with v.
    - rewrite frame_accepted. by apply reload_recovers with v. }
  destruct Hret as [Hpc|[Hpc|[(j & Hj & Hpc & H8)|[(j & Hj & Hpc)|[[Hpc H8]|[H8 [Hpc|[[Hpc H30]|[[Hpc H0]|[Hpc H30]]]]]]]]]].
  - apply (Hbody 56); [lia|done|lia].
  - apply (Htail 0); [lia|done].
  - apply (Htail j); [lia|done].
  - apply (Htail j); [lia|done].
  - apply (Hbody 57); [lia|done|lia].
  - by apply (Hbody 58).
  - by apply (Hbody 59).
  - by apply (Hbody 60).
  - by apply (Hbody 61).
Qed.

Lemma restore_recovers r m pc' done v res :
  same_state o r → admits → context_saved m v → m (f + 336) = target done → outcome res done v → r_pc r = body + pc' → 248 ≤ pc' < 372 → pc' mod 4 = 0 →
  ¬ 344 ≤ pc' ≤ 348 → ¬ 364 ≤ pc' ≤ 368 → r_x r 8 = (if (pc' =? 340) || (pc' =? 360) then f else f + 64) →
  recovers true res r m (md_svc_direct_recover err c r m).
Proof using Hfacts Herr.
  intros Hst Hn Hm H336 Hres Hpc Hr H4 H1 H2 H8. destruct f_bound as (Hf0 & _ & _ & Hf3). pose proof (Z.div_mod pc' 4 ltac:(done)) as E4.
  rewrite (recover_return r m (pc' / 4)); [|divlia|unfold at_body; lia]. unfold recover_returned. cbv zeta. labels. rewrite Hpc. change (-EINVAL) with (-22).
  replace ((body + 344 <=? body + pc') && (body + pc' <=? body + 348)) with false by (symmetry; apply andb_false_iff; rewrite !Z.leb_gt; lia).
  replace ((body + 364 <=? body + pc') && (body + pc' <=? body + 368)) with false by (symmetry; apply andb_false_iff; rewrite !Z.leb_gt; lia).
  rewrite (proj2 (Z.ltb_ge (body + pc') (body + 224 + 8))), (proj2 (Z.ltb_ge (body + pc') (body + 248))) by lia. cbn [orb andb].
  assert ((if (body + pc' =? body + 332 + 8) || (body + pc' =? body + 352 + 8) then r_x r 8 else wrap64 (r_x r 8 - 64)) = f) as ->.
  { rewrite H8. destruct (Z.eqb_spec pc' 340), (Z.eqb_spec pc' 360); cbn [orb]; pick; try done; rewrite wrap64_small by lia; lia. }
  rewrite frame_accepted, access_ok. assert (f + 64 + 272 = f + 336) as -> by lia. rewrite H336. unfold target.
  destruct done; pick; by apply reload_recovers with v.
Qed.
Lemma final_recovers r m k done v res :
  0 ≤ k ≤ 2 → r_pc r = target done + 4 * k → stack_flags r → admits → context_saved m v → m (f + 336) = target done → outcome res done v →
  r_x r 8 = (if k =? 2 then f else f + 64) → recovers true res r m (md_svc_direct_recover err c r m).
Proof using Hfacts Herr.
  intros Hk Hpc [_ Hps] Hn Hm H336 Hres H8. unfold target in Hpc.
  apply (restore_recovers r m ((if done then 332 else 352) + 4 * k) done v); try done; [unfold same_state; by rewrite Hps|destruct done; lia..| | | | ].
  all: each k 0 3; destruct done; try done; lia.
Qed.
Lemma replay_recovers r m k done v res :
  3 ≤ k ≤ 4 → r_pc r = target done + 4 * k → stack_flags r → admits → outcome res done v → (∀ n, 0 ≤ n ≤ 30 → n ≠ 8 → r_x r n = resumed v n) →
  recovers false res r m (md_svc_direct_recover err c r m).
Proof using Hfacts Herr.
  intros Hk Hpc Hsf Hn Hres Hr. unfold target in Hpc. rewrite (recover_return r m ((if done then 83 else 88) + k)); [|destruct done; lia|unfold at_body; destruct done; lia].
  unfold recover_returned. cbv zeta. labels. rewrite Hpc. destruct done; pick; by apply finish_recovers with v.
Qed.

Lemma entry_outcome : outcome None false (r_x o 0).
Proof using. done. Qed.
Lemma same_resumes l r : same l r → (∀ n, n ∈ l → n = 8) → ∀ n, 0 ≤ n ≤ 30 → n ≠ 8 → r_x r n = resumed (r_x o 0) n.
Proof using. intros Hs Hl n Hn H8. rewrite (Hs n); [|done|by intros E%Hl]. unfold resumed. by destruct (Z.eqb_spec n 0) as [->|]. Qed.
Lemma slot_recovers r m k own :
  0 ≤ k ≤ 19 → at_body k r → same [8] r → stack_flags r → admits → own = (10 <=? k) || (k =? 9) && (r_x r 8 =? 0) → recovers own None r m (md_svc_direct_recover err c r m).
Proof using Hfacts Herr.
  intros Hk Hpc Hs Hsf Hn ->. rewrite (recover_enter r m k) by (done || lia). pose proof Hsf as [Hsp _]. unfold at_body in Hpc. unfold recover_entering. cbv zeta. labels. rewrite Hpc, Hsp.
  rewrite (proj2 (Z.leb_gt (body + 200) _)), (proj2 (Z.leb_gt (body + 176) _)), (proj2 (Z.leb_gt (body + 80) _)) by lia. cbn [andb].
  apply finish_recovers with (r_x o 0); try done; [|apply (same_resumes [8]); [done|by intros n [?|?%elem_of_nil]%elem_of_cons]].
  destruct (decide (k = 9)) as [->|]; [|destruct (decide (k < 9)); pick; done]. pick. by destruct (r_x r 8 =? 0).
Qed.
Lemma lr_recovers r m k :
  20 ≤ k ≤ 43 → at_body k r → same [30] r → stack_flags r → admits → m (f + 304) = r_x o 30 → recovers true None r m (md_svc_direct_recover err c r m).
Proof using Hfacts Herr.
  intros Hk Hpc Hs Hsf Hn H30. rewrite (recover_enter r m k) by (done || lia). pose proof Hsf as [Hsp _]. unfold at_body in Hpc. unfold recover_entering. cbv zeta. labels. rewrite Hpc, Hsp.
  pick. rewrite access_ok. assert (f + 64 + 240 = f + 304) as -> by lia. rewrite H30.
  destruct (finish_recovers true false (r_x o 0) None (set_x 30 (r_x o 30) r) m f eq_refl entry_outcome) as (r' & E & Hr'); [done|done| |by exists r'].
  intros n Hn0 Hn8. unfold set_x. cbn [Z.eqb Pos.eqb r_x]. unfold upd, resumed. destruct (Z.eqb_spec n 30) as [->|]; [done|].
  rewrite (Hs n); [by destruct (Z.eqb_spec n 0) as [->|]|done|by intros [?|?%elem_of_nil]%elem_of_cons].
Qed.
Lemma loaded_saved m r n : saved m (r_x o 0) 31 → 0 ≤ n ≤ 30 → r_x (load_gprs m f r) n = resumed (r_x o 0) n.
Proof using.
  intros Hm Hn. unfold load_gprs. cbn [r_x]. rewrite (proj2 (Z.leb_le 0 n)), (proj2 (Z.leb_le n 30)) by lia. cbn [andb]. change MD_SVC_FRAME_OFFSET with 64. apply Hm. lia.
Qed.
Lemma saved_recovers r m k :
  44 ≤ k ≤ 49 → at_body k r → stack_flags r → admits → saved m (r_x o 0) 31 → recovers true None r m (md_svc_direct_recover err c r m).
Proof using Hfacts Herr.
  intros Hk Hpc Hsf Hn Hm. rewrite (recover_enter r m k) by (done || lia). pose proof Hsf as [Hsp Hps]. unfold at_body in Hpc. unfold recover_entering. cbv zeta. labels. rewrite Hpc, Hsp.
  pick. rewrite access_ok.
  destruct (finish_recovers true false (r_x o 0) None (load_gprs m f r) m f eq_refl entry_outcome) as (r' & E & Hr'); [done|done| |by exists r'].
  intros n Hn0 _. by apply loaded_saved.
Qed.
Lemma switch_recovers r m k :
  50 ≤ k ≤ 55 → at_body k r → r_pstate r = r_pstate o → admits → context_saved m (r_x o 0) → r_sp r = (if k <=? 52 then r_sp o else f + 65536) →
  recovers true None r m (md_svc_direct_recover err c r m).
Proof using Hfacts Herr Hout.
  intros Hk Hpc Hps Hn Hm Hsp. rewrite (recover_enter r m k) by (done || lia). unfold at_body in Hpc. unfold recover_entering. cbv zeta. labels. rewrite Hpc. destruct Hm as (_ & Hm & _ & _ & H864).
  rewrite (proj2 (Z.leb_le (body + 200) _)), (proj2 (Z.leb_le (body + 176) _)) by lia. cbn [andb].
  assert ((if private (r_sp r) then slot_of (r_sp r) else frame_for_sp c (r_sp r)) = f) as ->.
  { rewrite Hsp. destruct (k <=? 52); [by rewrite private_guest|]. destruct f_bound. rewrite private_frame, slot_of_frame by lia. done. }
  pick. rewrite !access_ok, H864.
  destruct (finish_recovers true false (r_x o 0) None (load_gprs m f (set_sp (r_sp o) r)) m f eq_refl entry_outcome) as (r' & E & Hr'); [done|done| |by exists r'].
  intros n Hn0 _. by apply loaded_saved.
Qed.

Lemma guard_recovers r m k :
  0 ≤ k < 64 ∨ k = 168 → r_pc r = c_gate c + 4 * k → same [8] r → stack_flags r → (k = 168 → r_x r 8 = r_x o 8) → (k ≠ 168 → guard_ok k r) →
  recovers false None r m (md_svc_direct_recover err c r m).
Proof using Hwf.
  intros Hk Hpc Hs Hsf H8 Hg. assert (0 ≤ r_x o 8 ≤ UINT64_MAX) as Hw8 by (apply Hwf; lia).
  assert (∀ v, v = r_x o 8 → resumes None (set_pc (c_svc c) (set_x 8 v r)) ∧ (r_x r 8 = v → resumes None (set_pc (c_svc c) r))) as Hset.
  { intros v ->. split; [|intros E]; (split; [done|]); cbn; (split; [lia|]); intros n Hn; cbn; unfold upd, resumed; destruct (Z.eqb_spec n 8) as [->|]; try done.
    all: rewrite (Hs n); [by destruct (Z.eqb_spec n 0) as [->|]|done|by intros [?|?%elem_of_nil]%elem_of_cons]. }
  unfold md_svc_direct_recover. cbv zeta. labels. rewrite Hpc.
  replace ((c_gate c <=? c_gate c + 4 * k) && (c_gate c + 4 * k <? c_gate c + 256) || (c_gate c + 4 * k =? c_gate c + 256 + 408 + 8)) with true by (destruct Hk as [? | ->]; symmetry; pick; done).
  eexists. split; [reflexivity|]. change MAP_GUARD with 32. change MAP_GUARD_END with 40. destruct (decide (k = 168)) as [->|Hne].
  { pick. rewrite !andb_false_r. by apply (Hset (r_x r 8)); auto. }
  specialize (Hg Hne). unfold guard_ok in Hg. destruct (Z.leb_spec (c_number c) 4095) as [Hsm|Hbig]; [cbn [andb]|cbn [andb]; destruct Hg as (_ & E & _); by apply (Hset (r_x r 8))].
  destruct Hg as [[Hk0 E]|[[Hk0 E]|[Hk0 [Eo E]]]].
  - destruct Hk0 as [-> |[-> _]]; pick; rewrite andb_false_r; by apply (Hset (r_x r 8)).
  - destruct Hk0 as [-> |[-> _]]; pick; apply (Hset (wrap64 (r_x r 8 + c_number c))); rewrite E; by apply sub_back.
  - replace (_ || _) with true; [apply (Hset (wrap64 (r_x r 8 + c_number c))); rewrite E, <- Eo; by apply wrap64_small|].
    destruct Hk0 as [-> |(-> & Hk1 & _)]; symmetry; pick; done.
Qed.
Lemma payload_recovers r m v :
  context_saved m v → f + 32768 < r_sp r ≤ f + 65536 → ¬ in_gate (r_pc r) → md_svc_direct_recover err c r m = (r, upd (f + MD_SVC_DIRECT_PENDING) 1 m, 2).
Proof using Hfacts Herr.
  intros (Hm & _ & _ & H384 & _) Hsp Hpc. destruct f_bound as (Hf0 & _). rewrite recover_outside by done. rewrite private_frame by lia. unfold recover_payload. cbv zeta. rewrite slot_of_frame by lia. labels.
  rewrite !access_ok, Hm, H384. pick. done.
Qed.
Lemma exit_recovers r m : ¬ in_gate (r_pc r) → stack_flags r → md_svc_direct_recover err c r m = (r, m, 0).
Proof using Hout. intros Hpc [Hsp _]. rewrite recover_outside by done. by rewrite Hsp, private_guest. Qed.

(** The recovery of every state, as the invariant describes them. *)
Definition recovery_exact (s : gate_state) : Prop :=
  let r := c_regs (g_cpu s) in
  let m := c_mem (g_cpu s) in
  let x := md_svc_direct_recover err c r m in
  match g_mode s with
  | Gate => (in_gate (r_pc r) → recovers (g_own s) (g_result s) r m x) ∧ (¬ in_gate (r_pc r) → x = (r, m, 0))
  | Payload => x = (r, upd (f + MD_SVC_DIRECT_PENDING) 1 m, 2)
  end.
Lemma exact_inside s : g_mode s = Gate → in_gate (r_pc (c_regs (g_cpu s))) →
  recovers (g_own s) (g_result s) (c_regs (g_cpu s)) (c_mem (g_cpu s)) (md_svc_direct_recover err c (c_regs (g_cpu s)) (c_mem (g_cpu s))) → recovery_exact s.
Proof using. intros Hm Hin Hr. unfold recovery_exact. by rewrite Hm. Qed.
Lemma exact_outside r m own res : ¬ in_gate (r_pc r) → stack_flags r → recovery_exact (mk_gate (mk_cpu r m) own Gate res).
Proof using Hout. intros Hin Hr. split; [done|]. intros _. by apply exit_recovers. Qed.
Lemma inv_exact s : gate_inv s → recovery_exact s.
Proof using All.
  intros Hinv. inversion Hinv; subst.
  - match goal with H : guard_ok _ _ |- _ => rename H into Hg end. pose proof (guard_index _ _ Hg).
    apply exact_inside; cbn; [done|unfold in_gate; change md_svc_direct_signal_size with 712; lia|]. apply (guard_recovers r m k); try done; [by left|lia].
  - match goal with H : same [] _ |- _ => rename H into Hs end. apply exact_inside; cbn; [done|unfold in_gate; change md_svc_direct_signal_size with 712; lia|].
    apply (guard_recovers r m 168); try done; [by right|intros n Hn _; apply Hs; [done|by intros ?%elem_of_nil]|]. intros _. apply Hs; [lia|]. by intros ?%elem_of_nil.
  - apply exact_outside; [|done]. apply exit_outside. match goal with H : _ ∨ _ |- _ => destruct H as [[-> _]|[H _]] end; [by left|by right].
  - apply exact_outside; [|done]. replace (r_pc r) with (c_svc c + 4) by done. apply Hexits. do 3 right. by left.
  - apply exact_inside; cbn; [done|eapply in_body; [|done]; lia|]. apply (slot_recovers r m k); try done; [lia|]. by pick.
  - apply exact_inside; cbn; [done|by eapply in_body; [|done]|]. apply (slot_recovers r m 9); try done.
  - apply exact_inside; cbn; [done|eapply in_body; [|done]; lia|]. apply (slot_recovers r m k); try done; [lia|]. by pick.
  - apply exact_inside; cbn; [done|eapply in_body; [|done]; lia|]. by eapply lr_recovers.
  - apply exact_inside; cbn; [done|eapply in_body; [|done]; lia|]. by eapply saved_recovers.
  - apply exact_inside; cbn; [done|eapply in_body; [|done]; lia|]. by eapply switch_recovers.
  - by eapply payload_recovers.
  - apply exact_inside; cbn; [done|by apply returning_inside|]. by eapply back_recovers.
  - apply exact_inside; cbn; [done|eapply in_body; [|done]; lia|]. unfold at_body in *. apply restore_recovers with (4 * k) done v; try done; try lia; [rewrite Z.mul_comm; apply Z.mod_mul; lia|].
    by pick.
  - apply exact_inside; cbn; [done|unfold in_gate, target in *; change md_svc_direct_signal_size with 712; destruct done; lia|]. by eapply final_recovers.
  - apply exact_inside; cbn; [done|unfold in_gate, target in *; change md_svc_direct_signal_size with 712; destruct done; lia|]. by eapply replay_recovers.
  - apply exact_inside; cbn; [done|eapply in_body; [|done]; lia|]. rewrite (recover_busy r m k) by done. apply finish_recovers with (r_x o 0); try done.
    apply (same_resumes [8]); [done|]. by intros n [?|?%elem_of_nil]%elem_of_cons.
Qed.
End gate.

(** ** A gate that was generated and installed *)

(** What the caller of [md_svc_direct_signal_plan] provides: addresses of 64 bits, and a gate
    apart from its exits and the dispatcher. *)
Record installed (c : md_svc_direct_context) (dispatch : Z) (exits : md_svc_direct_fallback) (code : list Z) (jump : Z) : Prop := mk_installed {
  i_plan : md_svc_direct_signal_plan c dispatch exits md_svc_direct_signal_size = inl (code, jump);
  i_gate : 0 ≤ c_gate c ∧ c_gate c + md_svc_direct_signal_size ≤ UINT64_MAX;
  i_number : 0 ≤ c_number c ≤ UINT64_MAX;
  i_frames : 0 ≤ c_frames c;
  i_exits : ∀ pc, pc ∈ [mismatch exits; declined exits; busy exits; c_svc c + 4; dispatch] → 0 ≤ pc ≤ UINT64_MAX ∧ ¬ in_gate c pc }.
Lemma installed_inv c dispatch exits code jump o s :
  installed c dispatch exits code jump → entry c o → gate_reach c code o s → gate_inv c dispatch exits o s.
Proof.
  intros [Hp Hg Hn Hf He] (Hwf & _ & Hpc) Hs. destruct (plan_facts _ _ _ _ _ _ (proj1 Hn) Hf Hp) as [Hfacts _]. by apply (reach_inv c dispatch exits code o Hfacts Hwf Hg Hn He).
Qed.

(** A run without interference, to evaluate. *)
Fixpoint gate_run (c : md_svc_direct_context) (code : list Z) (n : nat) (s : gate_state) : option gate_state :=
  match n, g_mode s with
  | O, _ => Some s
  | S n, Gate =>
      i ← fetch c code (r_pc (c_regs (g_cpu s))); s' ← exec (literal c code) i (g_cpu s);
      gate_run c code n (mk_gate s' (own_after i (g_cpu s) (g_own s)) (mode_after i) (g_result s))
  | S _, Payload => None
  end.
Lemma gate_run_reach c code o n s s' : gate_reach c code o s → gate_run c code n s = Some s' → gate_reach c code o s'.
Proof.
  revert s. induction n as [|n IH]; intros s Hs; cbn [gate_run]; [by intros [= <-]|]. destruct (g_mode s) eqn:Hm; [|done].
  intros (i & Hf & (u & Hx & Hr)%bind_Some)%bind_Some. eapply IH; [|exact Hr]. eapply reach_step; [exact Hs|].
  destruct s as [cs own md res]. cbn in *. subst md. by constructor.
Qed.

(** C18: a run through a generated gate, with any interference of other threads, is invisible but for
    its result.  The instruction written over the system call branches to the gate.  When the thread
    leaves the gate, it does not own the frame, its stack pointer and its flags are those of its entry,
    and it is at one of the four exits: at the mismatch exit if and only if the call is not one for
    which the gate was made, with all registers as they were; at the declined or busy exit with all
    registers as they were; or behind the system call, with the result of the dispatcher in x0 and all
    other registers as they were.  The dispatcher runs only for calls that the gate admits, on a frame
    that the thread owns and that holds its registers, flags and stack pointer. *)
Theorem gate_transparent c dispatch exits code jump o s :
  installed c dispatch exits code jump → entry c o → gate_reach c code o s →
  decode jump = Some (B (c_gate c - c_svc c)) ∧
  match g_mode s with
  | Gate => in_gate c (r_pc (c_regs (g_cpu s))) ∨ left_gate c exits o s
  | Payload => admits c o ∧ g_own s = true ∧ ∃ v, context_saved c o (c_mem (g_cpu s)) v
  end.
Proof.
  intros Hi Ho Hs. pose proof (installed_inv _ _ _ _ _ _ _ Hi Ho Hs) as Hinv. split.
  { apply branch_decodes. by apply (plan_facts _ _ _ _ _ _ (proj1 (i_number _ _ _ _ _ Hi)) (i_frames _ _ _ _ _ Hi) (i_plan _ _ _ _ _ Hi)). }
  destruct (g_mode s) eqn:Hm; [|by inversion Hinv; subst; eauto].
  by apply (inv_leaves _ _ _ _ (i_gate _ _ _ _ _ Hi) _ Hinv).
Qed.

(** A run through a generated gate always ends.  A thread in the gate can execute its next
    instruction unless it waits at the checkpoint, where the signal that stopped the dispatcher is
    delivered; the instruction enters the dispatcher, leaves the gate, or lowers [rank], which is never
    negative.  So a thread executes at most 1,001 instructions of the gate before the dispatcher and as
    many behind it. *)
Theorem gate_progress c dispatch exits code jump o s :
  installed c dispatch exits code jump → entry c o → gate_reach c code o s → g_mode s = Gate →
  let r := c_regs (g_cpu s) in
  in_gate c (r_pc r) → rank c (r_pc r) ≤ 1000 ∧ (r_pc r = md_svc_direct_checkpoint c ∧ fetch c code (r_pc r) = Some SVC ∨ advances c code r (c_mem (g_cpu s))).
Proof.
  intros Hi Ho Hs Hm. cbv zeta. intros Hin. pose proof (installed_inv _ _ _ _ _ _ _ Hi Ho Hs) as Hinv. destruct Hi as [Hp Hg Hn Hf He].
  destruct (plan_facts _ _ _ _ _ _ (proj1 Hn) Hf Hp) as [Hfacts _]. split; [by apply gate_rank_bound|].
  destruct (decide (r_pc (c_regs (g_cpu s)) = md_svc_direct_checkpoint c)) as [E|E]; [left|right; destruct Ho as (Hwf & _); by apply (inv_progress c dispatch exits code o)].
  split; [done|]. rewrite E. apply (end_fetch c dispatch exits code Hfacts 5 7); [|done..]. change (md_svc_direct_checkpoint c) with (c_gate c + 680 + 20). lia.
Qed.

(** C11: an interruption at any instruction of a generated gate is recovered exactly.  In the gate,
    [md_svc_direct_recover] gives the guest as it was before its system call, or, when the dispatcher
    has completed the call, behind it with the result: all registers, the stack pointer and the flags;
    and it frees the frame if and only if the thread owns it.  In the dispatcher it asks to wait, and
    sets the word of the frame that makes the gate stop at the checkpoint.  Outside it changes
    nothing. *)
Theorem recover_exact err c dispatch exits code jump o s :
  installed c dispatch exits code jump → entry c o → gate_reach c code o s → (∀ a, err a = 0) → recovery_exact c o err s.
Proof.
  intros Hi Ho Hs Herr. pose proof (installed_inv _ _ _ _ _ _ _ Hi Ho Hs) as Hinv. destruct Hi as [Hp Hg Hn Hf He], Ho as (Hwf & Hout & _).
  destruct (plan_facts _ _ _ _ _ _ (proj1 Hn) Hf Hp) as [Hfacts _]. by apply (inv_exact c dispatch exits code o).
Qed.

(** A gate for the call number 64, and threads that run through it. *)
Definition sample_context : md_svc_direct_context := mk_context 0x10000 0x200000 0x2100000000 64.
Definition sample_exits : md_svc_direct_fallback := mk_exits 0x210000 0x210008 0x210010.
Definition sample_gate : list Z * Z :=
  Eval vm_compute in match md_svc_direct_signal_plan sample_context 0x300000 sample_exits md_svc_direct_signal_size with inl x => x | inr _ => ([], 0) end.
Definition sample_entry (number : Z) : user_pt_regs := mk_regs (λ n, if n =? 8 then number else 1000 + n) 0x7ff0 0x200000 0x60000000.
Definition sample_start (number : Z) : gate_state := mk_gate (mk_cpu (sample_entry number) (λ _, 0)) false Gate None.
Definition sample_at (number : Z) (n : nat) : gate_state := default (sample_start number) (gate_run sample_context (fst sample_gate) n (sample_start number)).
Lemma sample_installed : installed sample_context 0x300000 sample_exits (fst sample_gate) (snd sample_gate).
Proof.
  assert (0 ≤ 0x200000 ∧ 0x200000 + md_svc_direct_signal_size ≤ UINT64_MAX) as Hg by (vm_compute; split; discriminate).
  apply mk_installed; [vm_compute; reflexivity|exact Hg|vm_compute; split; discriminate|vm_compute; discriminate|].
  intros pc Hpc. change md_svc_direct_signal_size with 712 in Hg. cbn [mismatch declined busy c_svc sample_exits sample_context] in Hpc.
  rewrite !elem_of_cons, elem_of_nil in Hpc. unfold in_gate. change md_svc_direct_signal_size with 712. unfold UINT64_MAX. cbn [c_gate sample_context]. lia.
Qed.
Lemma sample_enters number : 0 ≤ number ≤ UINT64_MAX → entry sample_context (sample_entry number).
Proof.
  intros Hn. split_and!; [|by left|done]. unfold wf_regs. cbn. split_and!; try done. intros n Hr. unfold UINT64_MAX in *. case_if; lia.
Qed.
Lemma sample_reach number n : gate_reach sample_context (fst sample_gate) (sample_entry number) (sample_at number n).
Proof.
  unfold sample_at. destruct (gate_run _ _ _ _) as [s|] eqn:E; cbn [default]; [|apply reach_entry]. eapply gate_run_reach; [|exact E]. apply reach_entry.
Qed.

Lemma gate_transparent_witness :
  gate_run sample_context (fst sample_gate) 59 (sample_start 64) ≠ None ∧ g_mode (sample_at 64 59) = Payload ∧ g_own (sample_at 64 59) = true
  ∧ r_pc (c_regs (g_cpu (sample_at 65 4))) = mismatch sample_exits ∧ ¬ admits sample_context (sample_entry 65).
Proof.
  assert (0 ≤ 64 ≤ UINT64_MAX ∧ 0 ≤ 65 ≤ UINT64_MAX) as [H64 H65] by done. assert (g_mode (sample_at 64 59) = Payload) as Hm by (vm_compute; reflexivity).
  assert (g_mode (sample_at 65 4) = Gate) as Hm' by (vm_compute; reflexivity). assert (r_pc (c_regs (g_cpu (sample_at 65 4))) = mismatch sample_exits) as Hpc by (vm_compute; reflexivity).
  split; [vm_compute; discriminate|]. split; [exact Hm|]. split; [|split; [exact Hpc|]].
  - destruct (gate_transparent _ _ _ _ _ _ _ sample_installed (sample_enters 64 H64) (sample_reach 64 59)) as [_ H]. rewrite Hm in H. destruct H as (_ & H & _). exact H.
  - destruct (gate_transparent _ _ _ _ _ _ _ sample_installed (sample_enters 65 H65) (sample_reach 65 4)) as [_ H]. rewrite Hm' in H.
    destruct H as [[_ H]|(_ & _ & [(_ & H & _)|[(H & _)|(H & _)]])]; rewrite ?Hpc in H; [by vm_compute in H|exact H| |].
    + cbn in H. rewrite !elem_of_cons, elem_of_nil in H. lia.
    + cbn in H. lia.
Defined.
Lemma gate_progress_witness : advances sample_context (fst sample_gate) (c_regs (g_cpu (sample_at 64 40))) (c_mem (g_cpu (sample_at 64 40))).
Proof.
  destruct (gate_progress sample_context 0x300000 sample_exits (fst sample_gate) (snd sample_gate) (sample_entry 64) (sample_at 64 40)) as [_ [[H _]|H]].
  - exact sample_installed.
  - by apply sample_enters.
  - apply sample_reach.
  - vm_compute. reflexivity.
  - unfold in_gate. vm_compute. by split.
  - exfalso. vm_compute in H. done.
  - exact H.
Defined.
Lemma recover_exact_witness : recovery_exact sample_context (sample_entry 64) (λ _, 0) (sample_at 64 40) ∧ g_own (sample_at 64 40) = true.
Proof.
  split; [|vm_compute; reflexivity].
  by apply (recover_exact (λ _, 0) sample_context 0x300000 sample_exits (fst sample_gate) (snd sample_gate)); [exact sample_installed|apply sample_enters|apply sample_reach|].
Defined.
