(* ===== verification/SvcThreads.v ===== *)
(** * Threads that share the frames of the system call gates (svc_single.S, svc_direct.c)

    The frames of a process are one pool.  A thread enters a gate at any time, claims the
    frame that its stack pointer selects, and frees it; a tracer interrupts it and recovers
    it; the kernel and threads outside the gates change memory.  The world interleaves
    all of them, instruction by instruction.  [frames_exclusive] shows that the interference
    that SvcRecover assumes is all there is: a frame has one owner, and a frame without one is free. *)
From S2P Require Import Prelude Syscalls Arm64 SvcGate SvcRecover.

(** A gate, and a run of a thread through it. *)
Record gate := mk_gate_info { q_context : md_svc_direct_context; q_dispatch : Z; q_exits : md_svc_direct_fallback; q_code : list Z; q_jump : Z }.
Record run := mk_run { u_gate : gate; u_entry : user_pt_regs; u_regs : user_pt_regs; u_own : bool; u_mode : mode; u_result : option Z }.
Definition u_frame (u : run) : Z := frame_for_sp (q_context (u_gate u)) (r_sp (u_entry u)).
Definition view (m : Z → Z) (u : run) : gate_state := mk_gate (mk_cpu (u_regs u) m) (u_own u) (u_mode u) (u_result u).
Definition set_run (u : run) (s : gate_state) : run := mk_run (u_gate u) (u_entry u) (c_regs (g_cpu s)) (g_own s) (g_mode s) (g_result s).
(** [None]: a thread outside the gates. *)
Record world := mk_world { w_mem : Z → Z; w_threads : nat → option run }.
Definition set_thread (i : nat) (x : option run) (t : nat → option run) : nat → option run := λ j, if decide (j = i) then x else t j.

Section world.
Context (frames : Z).
(** The gates of the process share the pool. *)
Definition usable (q : gate) : Prop := installed (q_context q) (q_dispatch q) (q_exits q) (q_code q) (q_jump q) ∧ c_frames (q_context q) = frames.
Definition in_pool (a : Z) : Prop := frames ≤ a < frames + MD_SVC_POOL_SIZE.
(** The pending words, which the tracer sets. *)
Definition pending_word (a : Z) : Prop := (a - frames) mod MD_SVC_SLOT_SIZE = MD_SVC_DIRECT_PENDING.
Definition in_frame (f a : Z) : Prop := f ≤ a < f + MD_SVC_SLOT_SIZE.

Inductive world_step (w : world) : world → Prop :=
  | world_enter i q o : w_threads w i = None → usable q → entry (q_context q) o →
      world_step w (mk_world (w_mem w) (set_thread i (Some (mk_run q o o false Gate None)) (w_threads w)))
  | world_exec i u k s' :
      w_threads w i = Some u → u_mode u = Gate → let c := q_context (u_gate u) in let code := q_code (u_gate u) in
      fetch c code (r_pc (u_regs u)) = Some k → exec (literal c code) k (g_cpu (view (w_mem w) u)) = Some s' →
      world_step w (mk_world (c_mem s') (set_thread i (Some (set_run u (mk_gate s' (own_after k (g_cpu (view (w_mem w) u)) (u_own u)) (mode_after k) (u_result u)))) (w_threads w)))
  | world_payload i u s' :
      w_threads w i = Some u → u_mode u = Payload → gate_step (q_context (u_gate u)) (q_code (u_gate u)) (u_entry u) (view (w_mem w) u) s' →
      (∀ a, in_pool a → ¬ in_frame (u_frame u) a → c_mem (g_cpu s') a = w_mem w a) →
      world_step w (mk_world (c_mem (g_cpu s')) (set_thread i (Some (set_run u s')) (w_threads w)))
  | world_leave i u : w_threads w i = Some u → u_mode u = Gate → ¬ in_gate (q_context (u_gate u)) (r_pc (u_regs u)) →
      world_step w (mk_world (w_mem w) (set_thread i None (w_threads w)))
  | world_recover i u r m : w_threads w i = Some u → md_svc_direct_recover (λ _, 0) (q_context (u_gate u)) (u_regs u) (w_mem w) = (r, m, 1) →
      world_step w (mk_world m (set_thread i None (w_threads w)))
  | world_others m : (∀ a, in_pool a → ¬ pending_word a → m a = w_mem w a) → world_step w (mk_world m (w_threads w)).
(** In the beginning no thread is in a gate, and the pool is empty. *)
Inductive world_reach : world → Prop :=
  | world_begin m : (∀ a, in_pool a → m a = 0) → world_reach (mk_world m (λ _, None))
  | world_next w w' : world_reach w → world_step w w' → world_reach w'.

(** ** The invariant *)

Definition run_sound (m : Z → Z) (u : run) : Prop :=
  usable (u_gate u) ∧ entry (q_context (u_gate u)) (u_entry u) ∧ gate_reach (q_context (u_gate u)) (q_code (u_gate u)) (u_entry u) (view m u).
Definition owns (w : world) (i : nat) (f : Z) : Prop := ∃ u, w_threads w i = Some u ∧ u_own u = true ∧ u_frame u = f.
Definition exclusive (w : world) : Prop := ∀ i j f, owns w i f → owns w j f → i = j.
(** A frame is free or has an owner. *)
Definition accounted (w : world) : Prop := ∀ k, 0 ≤ k < 64 → let f := frames + k * MD_SVC_SLOT_SIZE in w_mem w f = 0 ∨ ∃ i, owns w i f.
Definition world_ok (w : world) : Prop := (∀ i u, w_threads w i = Some u → run_sound (w_mem w) u) ∧ exclusive w ∧ accounted w.

Definition is_frame (f : Z) : Prop := ∃ k, 0 ≤ k < 64 ∧ f = frames + k * MD_SVC_SLOT_SIZE.
Definition own_of (x : option run) : bool := match x with Some u => u_own u | None => false end.
(** What a thread with the frame [f] does to the pool. *)
Definition confined (f : Z) (own : bool) (m : Z → Z) (own' : bool) (m' : Z → Z) : Prop :=
  (∀ a, in_pool a → ¬ in_frame f a → m' a = m a) ∧ (own = false → ∀ a, in_pool a → a ≠ f → m' a = m a)
  ∧ (own = false → own' = (m f =? 0) ∧ m' f = f ∨ own' = false ∧ m' f = m f) ∧ (own = true → own' = true ∧ m' f = f ∨ own' = false ∧ m' f = 0).

Lemma frame_pool f a : is_frame f → in_frame f a → in_pool a.
Proof using. intros (k & Hk & ->). unfold in_frame, in_pool, MD_SVC_POOL_SIZE, MD_SVC_SLOT_SIZE. lia. Qed.
Lemma frame_first f : in_frame f f.
Proof using. unfold in_frame, MD_SVC_SLOT_SIZE. lia. Qed.
Lemma frames_apart f g a : is_frame f → is_frame g → in_frame f a → in_frame g a → f = g.
Proof using. intros (k & Hk & ->) (j & Hj & ->). unfold in_frame, MD_SVC_SLOT_SIZE. lia. Qed.
Lemma run_frame m u : run_sound m u → is_frame (u_frame u).
Proof using.
  intros ((_ & Hf) & _). unfold u_frame. destruct (frame_index (q_context (u_gate u)) (u_entry u)) as (k & Hk & _ & ->). exists k. rewrite Hf. unfold MD_SVC_SLOT_SIZE. split; lia.
Qed.
Lemma run_inv m u : run_sound m u → gate_inv (q_context (u_gate u)) (q_dispatch (u_gate u)) (q_exits (u_gate u)) (u_entry u) (view m u).
Proof using. intros ((Hi & _) & Ho & Hs). by eapply installed_inv. Qed.
Lemma run_claimed m u : run_sound m u → u_own u = true → m (u_frame u) = u_frame u ∧ u_frame u ≠ 0.
Proof using.
  intros Hr Ho. pose proof (inv_claimed _ _ _ _ _ (run_inv _ _ Hr) Ho) as Hc. split; [exact Hc|]. destruct Hr as (([Hp _ Hn Hf _] & _) & _). destruct (plan_facts _ _ _ _ _ _ (proj1 Hn) Hf Hp) as [Hfacts _].
  destruct (f_bound _ _ _ _ (u_entry u) Hfacts) as (H0 & _). unfold u_frame. lia.
Qed.
Lemma run_others m m' u : run_sound m u → others (u_frame u) (u_own u) m m' → run_sound m' u.
Proof using. intros (Hu & He & Hr) Ho. split_and!; [done|done|]. eapply reach_step; [exact Hr|]. by apply step_others. Qed.

Lemma set_thread_at i x t : set_thread i x t i = x.
Proof using. unfold set_thread. by rewrite decide_True. Qed.
Lemma set_thread_other i j x t : j ≠ i → set_thread i x t j = t j.
Proof using. intros H. unfold set_thread. by rewrite decide_False. Qed.
Lemma owns_other i j x m w f : j ≠ i → owns (mk_world m (set_thread i x (w_threads w))) j f ↔ owns w j f.
Proof using. intros H. unfold owns. cbn. by rewrite set_thread_other. Qed.
Lemma owns_own w i f u : w_threads w i = Some u → u_frame u = f → owns w i f ↔ u_own u = true.
Proof using. intros Hu <-. unfold owns. rewrite Hu. split; [intros (v & [= <-] & H & _); done|eauto]. Qed.

(** A change of one thread. *)
Section change.
Context (w : world) (i : nat) (x' : option run) (f : Z) (m' : Z → Z).
Context (Hok : world_ok w) (Hf : is_frame f).
Context (Hold : ∀ u, w_threads w i = Some u → u_frame u = f) (Hnew : ∀ u, x' = Some u → u_frame u = f ∧ run_sound m' u).
Context (Hc : confined f (own_of (w_threads w i)) (w_mem w) (own_of x') m').
Lemma owner_free j : j ≠ i → owns w j f → own_of (w_threads w i) = false.
Proof using Hok Hold Hc.
  intros Hj Hw. destruct (own_of (w_threads w i)) eqn:E; [|done]. destruct Hok as (_ & He & _). destruct Hj. apply (He j i f Hw).
  destruct (w_threads w i) as [u|] eqn:Hu; [|done]. exists u. auto.
Qed.
Lemma owner_claimed j : owns w j f → w_mem w f = f ∧ f ≠ 0.
Proof using Hok. intros (u & Hu & Ho & E). rewrite <- E. by apply run_claimed; [apply (proj1 Hok j)|]. Qed.
Lemma change_others j u : j ≠ i → w_threads w j = Some u → others (u_frame u) (u_own u) (w_mem w) m'.
Proof using Hok Hf Hold Hc.
  intros Hj Hu Ho a Ha _. pose proof (proj1 Hok j u Hu) as Hr. pose proof (run_frame _ _ Hr) as Hfr. assert (in_pool a) as Hp by (by eapply frame_pool).
  destruct Hc as (C1 & C2 & C3 & _). destruct (decide (u_frame u = f)) as [E|E]; [|apply C1; [done|]; intros Hin; apply E; by eapply frames_apart].
  assert (owns w j f) as Hw by (exists u; auto). pose proof (owner_free j Hj Hw) as Hfree. destruct (owner_claimed j Hw) as [Hm _].
  destruct (decide (a = f)) as [->|]; [|by apply C2]. destruct (C3 Hfree) as [[_ ->]|[_ ->]]; congruence.
Qed.
Lemma change_exclusive : exclusive (mk_world m' (set_thread i x' (w_threads w))).
Proof using Hok Hf Hold Hnew Hc.
  assert (∀ j g, j ≠ i → owns w j g → owns (mk_world m' (set_thread i x' (w_threads w))) i g → False) as Hno.
  { intros j g Hj Hw (u & Hu & Ho & Hg). cbn in Hu. rewrite set_thread_at in Hu. destruct (Hnew u Hu) as [Hg' _]. assert (g = f) as -> by congruence.
    destruct Hc as (_ & _ & C3 & _). destruct (owner_claimed j Hw) as [Hm H0]. rewrite Hu in C3. cbn in C3. rewrite Ho in C3.
    destruct (C3 (owner_free j Hj Hw)) as [[E _]|[? _]]; [|done]. rewrite Hm in E. by rewrite (proj2 (Z.eqb_neq f 0)) in E. }
  intros j k g Hj Hk. destruct (decide (j = i)) as [->|], (decide (k = i)) as [->|]; [done|..].
  - destruct (Hno k g); [done|by eapply owns_other|done].
  - destruct (Hno j g); [done|by eapply owns_other|done].
  - eapply (proj1 (proj2 Hok)); by eapply owns_other.
Qed.
Lemma change_accounted : accounted (mk_world m' (set_thread i x' (w_threads w))).
Proof using Hok Hf Hold Hnew Hc.
  intros k Hk. pose proof (proj2 (proj2 Hok) k Hk) as Hw. cbv zeta in *. cbn [w_mem]. assert (is_frame (frames + k * MD_SVC_SLOT_SIZE)) as Hg by (by exists k).
  set (g := frames + k * MD_SVC_SLOT_SIZE) in *. clearbody g. destruct Hw as [H0|[j Hj]]; destruct Hc as (C1 & C2 & C3 & C4).
  - destruct (decide (g = f)) as [->|E].
    + destruct (own_of (w_threads w i)) eqn:Eo.
      * destruct (C4 eq_refl) as [[En _]|[_ ?]]; [right|by left]. exists i. destruct x' as [u|]; [|done]. destruct (Hnew u eq_refl) as [? _]. exists u. cbn. rewrite set_thread_at. auto.
      * destruct (C3 eq_refl) as [[En _]|[_ ?]]; [right|left; congruence]. rewrite H0 in En. exists i. destruct x' as [u|]; [|done]. destruct (Hnew u eq_refl) as [? _]. exists u. cbn. rewrite set_thread_at. auto.
    + left. rewrite C1; [done|by apply (frame_pool g), frame_first|]. intros Hin. apply E. eapply frames_apart; [done|done|apply frame_first|done].
  - destruct (decide (j = i)) as [->|Hji]; [|right; exists j; by apply owns_other].
    destruct Hj as (u & Hu & Ho & Hgu). assert (g = f) as -> by (rewrite <- Hgu; auto). rewrite Hu in C4. destruct (C4 Ho) as [[En _]|[_ ?]]; [right|by left].
    exists i. destruct x' as [u'|]; [|done]. destruct (Hnew u' eq_refl) as [? _]. exists u'. cbn. rewrite set_thread_at. auto.
Qed.
Lemma change_ok : world_ok (mk_world m' (set_thread i x' (w_threads w))).
Proof using Hok Hf Hold Hnew Hc.
  split_and!; [|exact change_exclusive|exact change_accounted]. intros j u. cbn. destruct (decide (j = i)) as [->|Hj]; [rewrite set_thread_at; intros Hu; by apply Hnew|].
  rewrite set_thread_other by done. intros Hu. eapply run_others; [by apply (proj1 Hok j)|by apply (change_others j)].
Qed.
End change.

Lemma modest_confined c o own m own' m' : modest c o own m own' m' → confined (frame_for_sp c (r_sp o)) own m own' m'.
Proof using.
  intros (H1 & H2 & H3 & H4). split_and!; [|by intros E a _ Ha; apply H2|done|done]. intros a _ Ha. by apply H1.
Qed.
Lemma exec_confined m u k s' :
  run_sound m u → u_mode u = Gate → fetch (q_context (u_gate u)) (q_code (u_gate u)) (r_pc (u_regs u)) = Some k →
  exec (literal (q_context (u_gate u)) (q_code (u_gate u))) k (g_cpu (view m u)) = Some s' → confined (u_frame u) (u_own u) m (own_after k (g_cpu (view m u)) (u_own u)) (c_mem s').
Proof using.
  intros Hr Hm Hf Hx. pose proof (run_inv _ _ Hr) as Hinv. unfold view in Hinv. rewrite Hm in Hinv. destruct Hr as (([Hp Hg Hn Hfr He] & _) & _).
  destruct (plan_facts _ _ _ _ _ _ (proj1 Hn) Hfr Hp) as [Hfacts _]. apply modest_confined. by eapply (inv_modest _ _ _ _ _ Hfacts Hg He).
Qed.
Lemma leave_free m u : run_sound m u → u_mode u = Gate → ¬ in_gate (q_context (u_gate u)) (r_pc (u_regs u)) → u_own u = false.
Proof using.
  intros Hr Hm Hout. pose proof (run_inv _ _ Hr) as Hinv. destruct Hr as ((Hi & _) & _). destruct (inv_leaves _ _ _ _ (i_gate _ _ _ _ _ Hi) _ Hinv Hm) as [Hin|(Ho & _)]; [done|exact Ho].
Qed.
Lemma recover_confined m u r m' : run_sound m u → md_svc_direct_recover (λ _, 0) (q_context (u_gate u)) (u_regs u) m = (r, m', 1) → confined (u_frame u) (u_own u) m false m'.
Proof using.
  intros Hr Hx. assert (∃ r' : user_pt_regs, m' = if u_own u then release (q_context (u_gate u)) (u_entry u) m else m) as [_ ->].
  { pose proof (run_inv _ _ Hr) as Hinv. destruct Hr as (([Hp Hg Hn Hf He] & _) & (Hwf & Hout & _) & _). destruct (plan_facts _ _ _ _ _ _ (proj1 Hn) Hf Hp) as [Hfacts _].
    pose proof (inv_exact _ _ _ _ _ Hfacts Hwf Hg Hn He (λ _, 0) (λ _, eq_refl) Hout _ Hinv) as Hex. unfold recovery_exact in Hex. cbn [view g_cpu g_mode g_own g_result c_regs c_mem] in Hex.
    rewrite Hx in Hex. destruct (u_mode u); [|done]. destruct Hex as [Hin Hno]. destruct (decide (c_gate (q_context (u_gate u)) ≤ r_pc (u_regs u) ∧ r_pc (u_regs u) < c_gate (q_context (u_gate u)) + md_svc_direct_signal_size)) as [E|E].
    - destruct (Hin E) as (r' & [= -> ->] & _). by exists r'.
    - specialize (Hno E). done. }
  unfold confined, release. fold (u_frame u). destruct (u_own u); [|split_and!; try done; by right].
  assert (∀ a, a ≠ u_frame u → a ≠ u_frame u + 392 → upd (u_frame u) 0 (upd (u_frame u + 392) 0 m) a = m a) as Hu by (intros a H1 H2; by rewrite !upd_other).
  split_and!; try done; [|intros _; right; split; [done|apply upd_here]]. intros a _ Ha. apply Hu; unfold in_frame, MD_SVC_SLOT_SIZE in Ha; lia.
Qed.
Lemma pending_at f a : is_frame f → in_frame f a → pending_word a → a = f + MD_SVC_DIRECT_PENDING.
Proof using.
  intros (k & Hk & ->). unfold in_frame, pending_word, MD_SVC_SLOT_SIZE, MD_SVC_DIRECT_PENDING. intros Ha Hp. replace (a - frames) with ((a - frames - k * 65536) + k * 65536) in Hp by lia.
  rewrite Z.mod_add, Z.mod_small in Hp by lia. lia.
Qed.
Lemma world_step_ok w w' : world_ok w → world_step w w' → world_ok w'.
Proof using.
  intros Hok Hs. pose proof (proj1 Hok) as Hruns.
  destruct Hs as [i q o Hi Hq Ho|i u k s' Hu Hm c code Hf Hx|i u s' Hu Hm Hst Hconf|i u Hu Hm Hout|i u r m Hu Hx|m Hm].
  - assert (run_sound (w_mem w) (mk_run q o o false Gate None)) as Hr by (split_and!; [done|done|apply reach_entry]).
    apply (change_ok w i _ (u_frame (mk_run q o o false Gate None))); [done|by eapply run_frame|intros u; by rewrite Hi|by intros u [= <-]|]. rewrite Hi. split_and!; try done. by right.
  - pose proof (Hruns i u Hu) as Hr. apply (change_ok w i _ (u_frame u)); [done|by eapply run_frame|intros v; rewrite Hu; by intros [= <-]| |rewrite Hu; by apply exec_confined].
    intros v [= <-]. split; [done|]. destruct Hr as (H1 & H2 & H3). split_and!; [done|done|]. eapply reach_step; [exact H3|]. unfold view in *. rewrite Hm. destruct s' as [r' m']. by apply step_exec.
  - pose proof (Hruns i u Hu) as Hr. assert (run_sound (c_mem (g_cpu s')) (set_run u s')) as Hr'.
    { destruct Hr as (H1 & H2 & H3). split_and!; [done|done|]. eapply reach_step; [exact H3|]. unfold view, set_run. cbn. by destruct s' as [[r' m'] own' md' res']. }
    assert (u_own u = true ∧ g_own s' = true) as [Eo Eo'].
    { pose proof (run_inv _ _ Hr) as Hinv. unfold view in *. rewrite Hm in *. assert (u_own u = true) as E by (by inversion Hinv). split; [done|]. inversion Hst; subst; cbn; congruence. }
    destruct (run_claimed _ _ Hr' Eo') as [Hc _]. apply (change_ok w i _ (u_frame u)); [done|by eapply run_frame|intros v; rewrite Hu; by intros [= <-]|by intros v [= <-]|].
    rewrite Hu. cbn. rewrite Eo, Eo'. split_and!; try done. by left.
  - pose proof (Hruns i u Hu) as Hr. apply (change_ok w i _ (u_frame u)); [done|by eapply run_frame|intros v; rewrite Hu; by intros [= <-]|done|].
    rewrite Hu. cbn. rewrite (leave_free _ _ Hr Hm Hout). split_and!; try done. by right.
  - pose proof (Hruns i u Hu) as Hr. apply (change_ok w i _ (u_frame u)); [done|by eapply run_frame|intros v; rewrite Hu; by intros [= <-]|done|]. rewrite Hu. by eapply recover_confined.
  - destruct Hok as (H1 & H2 & H3). split_and!; [|exact H2|].
    + intros i u Hu. pose proof (H1 i u Hu) as Hr. eapply run_others; [exact Hr|]. intros _ a Ha Hp. pose proof (run_frame _ _ Hr) as Hfr. apply Hm; [by eapply frame_pool|]. intros Hw. apply Hp. by apply pending_at.
    + intros k Hk. cbv zeta. cbn [w_mem]. assert (is_frame (frames + k * MD_SVC_SLOT_SIZE)) as Hfr by (by exists k). rewrite Hm; [by apply H3|by eapply frame_pool, frame_first|].
      intros Hw. pose proof (pending_at _ _ Hfr (frame_first _) Hw) as E. unfold MD_SVC_DIRECT_PENDING in E. lia.
Qed.
Lemma world_reach_ok w : world_reach w → world_ok w.
Proof using.
  induction 1 as [m Hm|w w' _ IH Hs]; [|by eapply world_step_ok]. split_and!; [done| |].
  - by intros i j f (u & Hu & _).
  - intros k Hk. left. apply Hm. eapply frame_pool; [by exists k|apply frame_first].
Qed.

(** C17: threads that share a pool of frames never share a frame.  In every interleaving of the
    instructions of any number of threads in any gates of a process, of entries, exits and recoveries, and
    of other changes of memory, no two threads own the same frame; a frame that no thread owns is free, so
    no frame is lost; and for every thread the other threads are the interference that the correctness
    of the gate allows, so that each of its states is one of those for which the gate and its recovery
    are correct. *)
Theorem frames_exclusive w :
  world_reach w →
  exclusive w ∧ accounted w
  ∧ ∀ i u, w_threads w i = Some u → gate_reach (q_context (u_gate u)) (q_code (u_gate u)) (u_entry u) (view (w_mem w) u)
      ∧ (u_own u = true → w_mem w (u_frame u) = u_frame u).
Proof using.
  intros H. destruct (world_reach_ok w H) as (H1 & H2 & H3). split_and!; [done|done|]. intros i u Hu. pose proof (H1 i u Hu) as Hr. split; [apply Hr|]. intros Ho. by apply run_claimed.
Qed.
End world.

(** A schedule of instructions, to evaluate. *)
Fixpoint schedule (l : list nat) (w : world) : option world :=
  match l with
  | [] => Some w
  | i :: l =>
      u ← w_threads w i;
      match u_mode u with
      | Payload => None
      | Gate =>
        let c := q_context (u_gate u) in
        let code := q_code (u_gate u) in
        k ← fetch c code (r_pc (u_regs u)); s' ← exec (literal c code) k (g_cpu (view (w_mem w) u));
        schedule l (mk_world (c_mem s') (set_thread i (Some (set_run u (mk_gate s' (own_after k (g_cpu (view (w_mem w) u)) (u_own u)) (mode_after k) (u_result u)))) (w_threads w)))
      end
  end.
Lemma schedule_reach frames l w w' : world_reach frames w → schedule l w = Some w' → world_reach frames w'.
Proof.
  revert w. induction l as [|i l IH]; intros w Hw; cbn [schedule]; [by intros [= <-]|]. intros (u & Hu & H)%bind_Some. destruct (u_mode u) eqn:Hm; [|done].
  cbv zeta in H. apply bind_Some in H as (k & Hk & (s' & Hx & H)%bind_Some). eapply IH; [|exact H]. eapply world_next; [exact Hw|]. by apply (world_exec frames w i u k s').
Qed.
Definition sample_info : gate := mk_gate_info sample_context 0x300000 sample_exits (fst sample_gate) (snd sample_gate).
Definition sample_threads : world :=
  let enter i w := mk_world (w_mem w) (set_thread i (Some (mk_run sample_info (sample_entry 64) (sample_entry 64) false Gate None)) (w_threads w)) in
  enter 1%nat (enter 0%nat (mk_world (λ _, 0) (λ _, None))).
Lemma sample_threads_reach : world_reach 0x2100000000 sample_threads.
Proof.
  assert (usable 0x2100000000 sample_info) as Hu by (split; [exact sample_installed|done]). assert (entry sample_context (sample_entry 64)) as He by (by apply sample_enters).
  eapply world_next; [eapply world_next; [apply (world_begin _ (λ _, 0)); done|]|]; by apply world_enter.
Qed.
(** Two threads that select the same frame: the second finds it claimed. *)
Lemma frames_exclusive_witness :
  ∃ w, schedule (replicate 13 0%nat ++ replicate 13 1%nat) sample_threads = Some w ∧ owns w 0 (frame_for_sp sample_context 0x7ff0) ∧ ¬ owns w 1 (frame_for_sp sample_context 0x7ff0).
Proof.
  assert (match schedule (replicate 13 0%nat ++ replicate 13 1%nat) sample_threads with Some _ => true | None => false end = true) as Hrun by (vm_compute; reflexivity).
  destruct (schedule (replicate 13 0%nat ++ replicate 13 1%nat) sample_threads) as [w|] eqn:E; [|done]. clear Hrun. exists w. split; [exact eq_refl|].
  assert (match w_threads w 0%nat with Some u => u_own u | None => false end = true) as Ho.
  { assert (match schedule (replicate 13 0%nat ++ replicate 13 1%nat) sample_threads with Some w => match w_threads w 0%nat with Some u => u_own u | None => false end | None => false end = true) as H by (vm_compute; reflexivity).
    by rewrite E in H. }
  pose proof (schedule_reach _ _ _ _ sample_threads_reach E) as Hr. destruct (frames_exclusive _ w Hr) as (Hx & _ & Hs).
  assert (owns w 0 (frame_for_sp sample_context 0x7ff0)) as H0.
  { destruct (w_threads w 0%nat) as [u|] eqn:Hu; [|done]. exists u. split_and!; [done|done|].
    assert (match schedule (replicate 13 0%nat ++ replicate 13 1%nat) sample_threads with Some w => match w_threads w 0%nat with Some u => u_frame u | None => 0 end | None => 0 end = frame_for_sp sample_context 0x7ff0) as H
      by (vm_compute; reflexivity).
    by rewrite E, Hu in H. }
  split; [exact H0|]. intros H1. by specialize (Hx 0%nat 1%nat _ H0 H1).
Defined.
