(* ===== verification/SysvIpc.v ===== *)
(** * System V objects and their database (sysv_ipc_db.c, ipc_permissions.c, ipc_pid.h)

    The tables of the database are finite maps with the keys and the cascades that its
    schema declares, and a function that runs a statement changes them as the statement
    says.  Every statement may fail: a session holds the answers of the database to
    come, and a statement with an answer other than 0 fails with it and changes nothing.
    Transactions are those of SQLite: ROLLBACK brings the tables of the
    beginning back.  The code translates each error to an errno, so that answers
    are negative.

    Semaphores and messages have their own files, SysvSem and SysvMsg; the calls that block and retry
    are in SysvCall. *)
From stdpp Require Import sorting.
From S2P Require Import Prelude UserNamespace GuestIdentity PidNamespace Syscalls.

Definition EFBIG : Z := 27.
Definition EIDRM : Z := 43.
Definition ENOTSUP : Z := EOPNOTSUPP.
Definition INT64_MAX : Z := 9223372036854775807.
Definition CAP_IPC_OWNER : Z := 15.
Definition IPC_CREAT : Z := 0x200.
Definition IPC_EXCL : Z := 0x400.
Definition IPC_NOWAIT : Z := 0x800.
Definition IPC_RMID : Z := 0.
Definition IPC_SET : Z := 1.
Definition IPC_STAT : Z := 2.
Definition IPC_64 : Z := 0x100.
Definition MD_IPC_SEM : Z := 1.
Definition MD_IPC_MSG : Z := 2.
Definition MD_IPC_WAIT : Z := - 0x4000000000000000 + 3.
(** The conversion of a register to an [int]. *)
Definition to_int (a : Z) : Z := let v := wrap32 a in if v <? 2147483648 then v else v - 4294967296.

(** ** Data *)

Record ipc64_perm := mk_perm { pm_key : Z; pm_uid : Z; pm_gid : Z; pm_cuid : Z; pm_cgid : Z; pm_mode : Z }.
Record semid64_ds := mk_semid { sem_perm : ipc64_perm; sem_otime : Z; sem_ctime : Z; sem_nsems : Z }.
Record msqid64_ds := mk_msqid {
  msg_perm : ipc64_perm; msg_stime : Z; msg_rtime : Z; msg_ctime : Z; msg_cbytes : Z; msg_qnum : Z; msg_qbytes : Z;
  msg_lspid : Z; msg_lrpid : Z }.
(** The blob of an object; a blob of another kind has another size. *)
Inductive info := SemInfo (st : semid64_ds) | MsgInfo (st : msqid64_ds).
Definition pids : Type := list md_pid_number_value.
Record object := mk_object { ob_kind : Z; ob_key : Z; ob_info : info; ob_namespace : Z; ob_send : pids; ob_receive : pids }.
Record sem_row := mk_sem { sm_value : Z; sm_pid : Z; sm_pids : pids }.
Record message := mk_message { mg_object : Z; mg_type : Z; mg_data : list Z }.
Record undo_row := mk_undo { un_delta : Z; un_pid : Z; un_pids : pids }.
Record waiter := mk_waiter { wt_object : Z; wt_n : Z; wt_zero : bool }.
(** An owner, a space, an object and a semaphore. *)
Definition undo_key : Type := Z * Z * Z * Z.
Record database := mk_database {
  d_objects : gmap Z object; d_last : Z;
  d_sems : gmap (Z * Z) sem_row;
  d_messages : gmap Z message; d_sequence : Z;
  d_owners : gmap Z Z;
  d_undo : gmap undo_key undo_row;
  d_waiters : gmap (Z * Z) waiter }.
Definition with_objects (o : gmap Z object) (d : database) := mk_database o (d_last d) (d_sems d) (d_messages d) (d_sequence d) (d_owners d) (d_undo d) (d_waiters d).
Definition with_sems (x : gmap (Z * Z) sem_row) (d : database) := mk_database (d_objects d) (d_last d) x (d_messages d) (d_sequence d) (d_owners d) (d_undo d) (d_waiters d).
Definition with_messages (x : gmap Z message) (n : Z) (d : database) := mk_database (d_objects d) (d_last d) (d_sems d) x n (d_owners d) (d_undo d) (d_waiters d).
Definition with_undo (x : gmap undo_key undo_row) (d : database) := mk_database (d_objects d) (d_last d) (d_sems d) (d_messages d) (d_sequence d) (d_owners d) x (d_waiters d).
Definition with_waiters (x : gmap (Z * Z) waiter) (d : database) := mk_database (d_objects d) (d_last d) (d_sems d) (d_messages d) (d_sequence d) (d_owners d) (d_undo d) x.
Definition u_object (k : undo_key) : Z := let '(_, _, o, _) := k in o.
Definition u_owner (k : undo_key) : Z := let '(w, _, _, _) := k in w.
Definition u_space (k : undo_key) : Z := let '(_, s, _, _) := k in s.
Definition u_number (k : undo_key) : Z := let '(_, _, _, n) := k in n.
(** Objects with everything that refers to them: ON DELETE CASCADE. *)
Definition delete_objects (gone : Z → bool) (d : database) : database :=
  mk_database (filter (λ x, gone x.1 = false) (d_objects d)) (d_last d) (filter (λ x, gone x.1.1 = false) (d_sems d))
    (filter (λ x, gone (mg_object x.2) = false) (d_messages d)) (d_sequence d) (d_owners d)
    (filter (λ x, gone (u_object x.1) = false) (d_undo d)) (filter (λ x, gone (wt_object x.2) = false) (d_waiters d)).
Definition delete_owner (owner : Z) (d : database) : database :=
  mk_database (d_objects d) (d_last d) (d_sems d) (d_messages d) (d_sequence d) (delete owner (d_owners d))
    (filter (λ x, u_owner x.1 ≠ owner) (d_undo d)) (filter (λ x, x.1.1 ≠ owner) (d_waiters d)).

(** ** Sessions *)

(** What a call leaves in the packet of its caller. *)
Inductive output := OutSem (st : semid64_ds) | OutMsg (st : msqid64_ds) | OutArray (l : list Z) | OutType (type : Z) | OutData (l : list Z).
(** [t_block]: the fields [number] and [zero] of the call. *)
Record core := mk_core { t_db : database; t_changed : bool; t_output : list output; t_block : Z * bool }.
(** [t_answers]: the answers of the database to come. *)
Record session := mk_session { t_core : core; t_answers : list Z }.
Definition ipc (A : Type) : Type := session → session * (A + Z).
Definition ret {A} (x : A) : ipc A := λ t, (t, inl x).
Definition fail {A} (e : Z) : ipc A := λ t, (t, inr e).
Definition ipc_bind {A B} (m : ipc A) (k : A → ipc B) : ipc B := λ t, let '(t, r) := m t in match r with inl x => k x t | inr e => (t, inr e) end.
Declare Scope ipc_scope.
Delimit Scope ipc_scope with ipc.
Notation "x <- m ;; k" := (ipc_bind m (λ x, k)) (at level 100, m at next level, k at level 200, right associativity) : ipc_scope.
Notation "' p <- m ;; k" := (ipc_bind m (λ x, match x with p => k end)) (at level 100, p pattern, m at next level, k at level 200, right associativity) : ipc_scope.
Notation "m ;; k" := (ipc_bind m (λ _, k)) (at level 100, k at level 200, right associativity) : ipc_scope.
#[global] Open Scope ipc_scope.
(** A result code. *)
Definition try (e : Z) : ipc unit := if e =? 0 then ret tt else fail e.
Definition when (b : bool) (e : Z) : ipc unit := if b then fail e else ret tt.
(** A statement, with the next answer of the database. *)
Definition sql : ipc unit := λ t,
  match t_answers t with
  | [] => (t, inl tt)
  | a :: l => (mk_session (t_core t) l, if a =? 0 then inl tt else inr a)
  end.
Definition get_db : ipc database := λ t, (t, inl (t_db (t_core t))).
Definition change (f : core → core) : ipc unit := λ t, (mk_session (f (t_core t)) (t_answers t), inl tt).
Definition put_db (d : database) : ipc unit := change (λ c, mk_core d (t_changed c) (t_output c) (t_block c)).
Definition modify (f : database → database) : ipc unit := change (λ c, mk_core (f (t_db c)) (t_changed c) (t_output c) (t_block c)).
Definition set_changed : ipc unit := change (λ c, mk_core (t_db c) true (t_output c) (t_block c)).
Definition emit (o : output) : ipc unit := change (λ c, mk_core (t_db c) (t_changed c) (t_output c ++ [o]) (t_block c)).
Definition block (number : Z) (zero : bool) : ipc unit := change (λ c, mk_core (t_db c) (t_changed c) (t_output c) (number, zero)).

(** ** A handle, and a call *)

Record md_ipc := mk_ipc { s_owner : Z; s_namespace : Z; s_user_namespace : option loc }.
Record sembuf := mk_sembuf { sem_num : Z; sem_op : Z; sem_flg : Z }.
(** The packet of a call: its capacity, and what is in it where the call reads. *)
Record packet := mk_packet {
  k_capacity : Z; k_ops : nat → sembuf; k_time : Z * Z; k_type : Z; k_text : nat → Z; k_array : nat → Z; k_sem : semid64_ds; k_msg : msqid64_ds }.
Record md_ipc_pending := mk_pending {
  p_nr : Z; p_args : nat → Z; p_identity : md_identity; p_packet : packet; p_tid : Z; p_pid : Z; p_process : option loc; p_undo : Z;
  p_watcher : bool; p_registered : bool; p_number : Z; p_zero : bool; p_blocked : bool; p_deadline : Z;
  p_ops : list sembuf; p_type : Z; p_text : list Z; p_size : Z }.
(** The credentials, the process numbers and the clock of the moment. *)
Record context := mk_moment { x_cred : cred_heap; x_pids : pid_state; x_now : Z }.

Definition PACKET_DATA : Z := 32.
Definition md_ipc_memory (p : md_ipc_pending) (address size : Z) : Z :=
  if size =? 0 then 0
  else
    let capacity := k_capacity (p_packet p) in
    if (address <? PACKET_DATA) || (capacity <? address - PACKET_DATA) || (capacity - (address - PACKET_DATA) <? size) then - EFAULT else 0.
Definition SEMID_SIZE : Z := 88.
Definition MSQID_SIZE : Z := 120.

(** ** Permissions *)

Definition md_ipc_perm_access (x : context) (owner : option loc) (id : md_identity) (p : ipc64_perm) (mode : Z) : Z :=
  if md_identity_capable_in (x_cred x) id owner CAP_IPC_OWNER then 0
  else
    let uid := id_effective (i_uid id) in
    let shift := if (uid =? pm_uid p) || (uid =? pm_cuid p) then 6
                 else if md_identity_in_group (x_cred x) id (pm_gid p) || md_identity_in_group (x_cred x) id (pm_cgid p) then 3 else 0 in
    if Z.land (Z.shiftr (pm_mode p) shift) mode =? mode then 0 else - EACCES.
Definition md_ipc_perm_owner (x : context) (owner : option loc) (id : md_identity) (p : ipc64_perm) : Z :=
  let uid := id_effective (i_uid id) in
  if (uid =? pm_uid p) || (uid =? pm_cuid p) || md_identity_capable_in (x_cred x) id owner CAP_SYS_ADMIN then 0 else - EPERM.
Definition md_ipc_perm_visible (x : context) (id : md_identity) (p : ipc64_perm) : ipc64_perm :=
  let v := md_identity_visible_id (h_world (x_cred x)) id in
  mk_perm (pm_key p) (v false (pm_uid p)) (v true (pm_gid p)) (v false (pm_cuid p)) (v true (pm_cgid p)) (pm_mode p).
Definition md_ipc_perm_set (x : context) (id : md_identity) (p : ipc64_perm) (uid gid mode : Z) : ipc64_perm + Z :=
  let uid := md_user_namespace_into (h_world (x_cred x)) (i_user_namespace id) false uid in
  let gid := md_user_namespace_into (h_world (x_cred x)) (i_user_namespace id) true gid in
  if (uid =? UINT32_MAX) || (gid =? UINT32_MAX) then inr (- EINVAL)
  else inl (mk_perm (pm_key p) uid gid (pm_cuid p) (pm_cgid p) (Z.lor (Z.ldiff (pm_mode p) 0x1ff) (Z.land mode 0x1ff))).
Definition of_sum {A} (r : A + Z) : ipc A := match r with inl x => ret x | inr e => fail e end.

(** ** Process numbers *)

Definition md_ipc_pid_bind (x : context) (process : option loc) : pids := md_pid_identity_export (x_pids x) process.
Definition md_ipc_pid_visible (x : context) (data : pids) (observer : option loc) (native : Z) : Z :=
  md_pid_numbers_visible (x_pids x) data true (md_pid_identity_namespace (x_pids x) observer) native.

(** ** Objects *)

Section objects.
Context (s : md_ipc).
Definition find_key (kind key : Z) (d : database) : option Z :=
  fst <$> head (filter (λ x, ob_kind x.2 = kind ∧ ob_key x.2 = key ∧ key ≠ 0 ∧ ob_namespace x.2 = s_namespace s) (map_to_list (d_objects d))).
(** 0 when there is none. *)
Definition md_ipc_get (kind key flags : Z) : ipc Z :=
  sql;; d <- get_db;;
  let id := default 0 (find_key kind key d) in
  when (negb (id =? 0) && (Z.land flags (Z.lor IPC_CREAT IPC_EXCL) =? Z.lor IPC_CREAT IPC_EXCL)) (- EEXIST);;
  when ((id =? 0) && negb (key =? 0) && (Z.land flags IPC_CREAT =? 0)) (- ENOENT);;
  ret id.
Definition md_ipc_load (kind id : Z) : ipc info :=
  sql;; d <- get_db;;
  match d_objects d !! id with
  | Some o =>
      if (ob_kind o =? kind) && (ob_namespace o =? s_namespace s)
      then match ob_info o with
           | SemInfo _ => if kind =? MD_IPC_SEM then ret (ob_info o) else fail (- EIO)
           | MsgInfo _ => if kind =? MD_IPC_MSG then ret (ob_info o) else fail (- EIO)
           end
      else fail (- EINVAL)
  | None => fail (- EINVAL)
  end.
Definition load_sem (id : Z) : ipc semid64_ds := i <- md_ipc_load MD_IPC_SEM id;; match i with SemInfo st => ret st | MsgInfo _ => fail (- EIO) end.
Definition load_msg (id : Z) : ipc msqid64_ds := i <- md_ipc_load MD_IPC_MSG id;; match i with MsgInfo st => ret st | SemInfo _ => fail (- EIO) end.
Definition set_info (i : info) (o : object) : object := mk_object (ob_kind o) (ob_key o) i (ob_namespace o) (ob_send o) (ob_receive o).
Definition md_ipc_save (id : Z) (i : info) : ipc unit :=
  sql;; modify (λ d, with_objects (alter (set_info i) id (d_objects d)) d);; set_changed.
(** The unique index refuses a second object with a key. *)
Definition md_ipc_create (kind key : Z) (i : info) : ipc Z :=
  sql;; d <- get_db;;
  when (bool_decide (is_Some (find_key kind key d))) (- EEXIST);;
  let id := d_last d + 1 in
  put_db (mk_database (<[id := mk_object kind key i (s_namespace s) [] []]> (d_objects d)) id (d_sems d) (d_messages d) (d_sequence d) (d_owners d) (d_undo d) (d_waiters d));;
  set_changed;;
  when ((id <=? 0) || (INT_MAX <? id)) (- ENOSPC);; ret id.
Definition md_ipc_remove (id : Z) : ipc Z :=
  sql;; modify (delete_objects (λ o, o =? id));; set_changed;; ret 0.
End objects.

(** ** Reasoning about sessions *)

(** From the state [c], with answers of the database that satisfy [A], [m] ends in a state of [Q] or
    with an error of [E]. *)
Definition wp {B} (A : Z → Prop) (m : ipc B) (c : core) (Q : B → core → Prop) (E : Z → core → Prop) : Prop :=
  ∀ l, Forall A l → let '(t, r) := m (mk_session c l) in Forall A (t_answers t) ∧ match r with inl x => Q x (t_core t) | inr e => E e (t_core t) end.
Section wp.
Context (A : Z → Prop).
Lemma wp_run {B} (m : ipc B) t t' r Q E : wp A m (t_core t) Q E → Forall A (t_answers t) → m t = (t', r) → Forall A (t_answers t') ∧ match r with inl x => Q x (t_core t') | inr e => E e (t_core t') end.
Proof. intros Hw Hl Hm. destruct t as [c l]. specialize (Hw l Hl). cbn in *. by rewrite Hm in Hw. Qed.
Lemma wp_ret {B} (x : B) c (Q : B → core → Prop) E : Q x c → wp A (ret x) c Q E.
Proof. by intros H l Hl. Qed.
Lemma wp_fail {B} e c (Q : B → core → Prop) (E : Z → core → Prop) : E e c → wp A (fail e) c Q E.
Proof. by intros H l Hl. Qed.
Lemma wp_bind {B C} (m : ipc B) (k : B → ipc C) c Q E : wp A m c (λ x c', wp A (k x) c' Q E) E → wp A (ipc_bind m k) c Q E.
Proof.
  intros H l Hl. specialize (H l Hl). unfold ipc_bind. destruct (m (mk_session c l)) as [[c' l'] [x|e]]; destruct H as [Hl' H]; [by apply H|done].
Qed.
Lemma wp_assoc {B C D} (m : ipc B) (k : B → ipc C) (k' : C → ipc D) c Q E : wp A (ipc_bind (ipc_bind m k) k') c Q E → wp A (ipc_bind m (λ x, ipc_bind (k x) k')) c Q E.
Proof. intros H l Hl. specialize (H l Hl). unfold ipc_bind in *. by destruct (m _) as [t [v|v]]. Qed.
Lemma wp_mono {B} (m : ipc B) c Q Q' (E E' : Z → core → Prop) : wp A m c Q E → (∀ x c', Q x c' → Q' x c') → (∀ e c', E e c' → E' e c') → wp A m c Q' E'.
Proof. intros H HQ HE l Hl. specialize (H l Hl). destruct (m (mk_session c l)) as [t [x|e]]; destruct H as [Hl' H]; auto. Qed.
Lemma wp_sql c (Q : unit → core → Prop) (E : Z → core → Prop) : Q tt c → (∀ a, A a → a ≠ 0 → E a c) → wp A sql c Q E.
Proof.
  intros HQ HE l Hl. unfold sql. destruct l as [|a l]; cbn; [done|]. apply Forall_cons in Hl as [Ha Hl]. split; [done|]. destruct (Z.eqb_spec a 0); auto.
Qed.
Lemma wp_get_db c (Q : database → core → Prop) E : Q (t_db c) c → wp A get_db c Q E.
Proof. by intros H l Hl. Qed.
Lemma wp_change f c (Q : unit → core → Prop) E : Q tt (f c) → wp A (change f) c Q E.
Proof. by intros H l Hl. Qed.
Lemma wp_when b e c (Q : unit → core → Prop) (E : Z → core → Prop) : (b = false → Q tt c) → (b = true → E e c) → wp A (when b e) c Q E.
Proof. intros HQ HE. destruct b; [apply wp_fail|apply wp_ret]; auto. Qed.
Lemma wp_try e c (Q : unit → core → Prop) (E : Z → core → Prop) : (e = 0 → Q tt c) → (e ≠ 0 → E e c) → wp A (try e) c Q E.
Proof. intros HQ HE. unfold try. destruct (Z.eqb_spec e 0); [apply wp_ret|apply wp_fail]; auto. Qed.
Lemma wp_of_sum {B} (r : B + Z) c (Q : B → core → Prop) (E : Z → core → Prop) : (∀ x, r = inl x → Q x c) → (∀ e, r = inr e → E e c) → wp A (of_sum r) c Q E.
Proof. intros HQ HE. destruct r; [apply wp_ret|apply wp_fail]; auto. Qed.
End wp.
(** The general case: any answers, and an error is negative. *)
Definition errno (a : Z) : Prop := a ≤ 0.
Definition negative (e : Z) (_ : core) : Prop := e < 0.
Notation safe m c Q := (wp errno m c Q negative).
(** One rule of the calculus, by the form of the program. *)
Ltac wp_step :=
  lazymatch goal with
  | |- wp _ (ipc_bind _ _) _ _ _ => apply wp_bind
  | |- wp _ (ret _) _ _ _ => apply wp_ret
  | |- wp _ (fail _) _ _ _ => apply wp_fail
  | |- wp _ sql _ _ _ => apply wp_sql
  | |- wp _ get_db _ _ _ => apply wp_get_db
  | |- wp _ (put_db _) _ _ _ => apply wp_change
  | |- wp _ (modify _) _ _ _ => apply wp_change
  | |- wp _ set_changed _ _ _ => apply wp_change
  | |- wp _ (emit _) _ _ _ => apply wp_change
  | |- wp _ (block _ _) _ _ _ => apply wp_change
  | |- wp _ (when _ _) _ _ _ => apply wp_when; intros ?
  | |- wp _ (try _) _ _ _ => apply wp_try; intros ?
  | |- wp _ (of_sum _) _ _ _ => apply wp_of_sum; intros ? ?
  end.
Create HintDb ipc.
Lemma perm_access_negative x owner id p mode c : md_ipc_perm_access x owner id p mode ≠ 0 → negative (md_ipc_perm_access x owner id p mode) c.
Proof. unfold md_ipc_perm_access, negative. repeat case_match; done. Qed.
Lemma perm_owner_negative x owner id p c : md_ipc_perm_owner x owner id p ≠ 0 → negative (md_ipc_perm_owner x owner id p) c.
Proof. unfold md_ipc_perm_owner, negative. repeat case_match; done. Qed.
Lemma memory_negative p a n c : md_ipc_memory p a n ≠ 0 → negative (md_ipc_memory p a n) c.
Proof. unfold md_ipc_memory, negative. repeat case_match; done. Qed.
Lemma perm_set_negative x id p uid gid mode e c : md_ipc_perm_set x id p uid gid mode = inr e → negative e c.
Proof. unfold md_ipc_perm_set, negative. case_match; [by intros [= <-]|done]. Qed.
Lemma errno_negative a c : errno a → a ≠ 0 → negative a c.
Proof. unfold errno, negative. lia. Qed.
#[export] Hint Resolve perm_access_negative perm_owner_negative memory_negative perm_set_negative errno_negative : ipc.
Ltac wp_neg := solve [done|unfold negative; lia|eauto with ipc].
(** The rules as far as they go, and the errors. *)
Ltac wp_steps := repeat (wp_step; cbv beta; try wp_neg); cbn [t_db t_changed t_output t_block].

(** ** Rules of the objects *)

Definition find_sem (s : md_ipc) (id : Z) (d : database) : option semid64_ds :=
  match d_objects d !! id with
  | Some o => match ob_info o with SemInfo st => if (ob_kind o =? MD_IPC_SEM) && (ob_namespace o =? s_namespace s) then Some st else None | MsgInfo _ => None end
  | None => None
  end.
Definition find_msg (s : md_ipc) (id : Z) (d : database) : option msqid64_ds :=
  match d_objects d !! id with
  | Some o => match ob_info o with MsgInfo st => if (ob_kind o =? MD_IPC_MSG) && (ob_namespace o =? s_namespace s) then Some st else None | SemInfo _ => None end
  | None => None
  end.
(** The kind of an object is that of its blob. *)
Definition kind_ok (d : database) : Prop := ∀ id o, d_objects d !! id = Some o → ob_kind o = match ob_info o with SemInfo _ => MD_IPC_SEM | MsgInfo _ => MD_IPC_MSG end.
Section rules.
Context (A : Z → Prop) (s : md_ipc).
Lemma wp_load_sem id c (Q : semid64_ds → core → Prop) (E : Z → core → Prop) :
  kind_ok (t_db c) → (∀ a, A a → a ≠ 0 → E a c) → match find_sem s id (t_db c) with Some st => Q st c | None => E (- EINVAL) c end → wp A (load_sem s id) c Q E.
Proof.
  intros Hk He HQ. unfold load_sem, md_ipc_load. do 2 apply wp_bind. apply wp_sql; [|done]. apply wp_bind, wp_get_db. unfold find_sem in HQ. destruct (d_objects (t_db c) !! id) as [o|] eqn:Ho; [|by apply wp_fail].
  pose proof (Hk id o Ho) as Hkind. destruct (ob_info o); rewrite Hkind in *; cbn in *; [destruct (ob_namespace o =? s_namespace s); [by do 2 apply wp_ret|by apply wp_fail]|by apply wp_fail].
Qed.
Lemma wp_load_msg id c (Q : msqid64_ds → core → Prop) (E : Z → core → Prop) :
  kind_ok (t_db c) → (∀ a, A a → a ≠ 0 → E a c) → match find_msg s id (t_db c) with Some st => Q st c | None => E (- EINVAL) c end → wp A (load_msg s id) c Q E.
Proof.
  intros Hk He HQ. unfold load_msg, md_ipc_load. do 2 apply wp_bind. apply wp_sql; [|done]. apply wp_bind, wp_get_db. unfold find_msg in HQ. destruct (d_objects (t_db c) !! id) as [o|] eqn:Ho; [|by apply wp_fail].
  pose proof (Hk id o Ho) as Hkind. destruct (ob_info o); rewrite Hkind in *; cbn in *; [by apply wp_fail|destruct (ob_namespace o =? s_namespace s); [by do 2 apply wp_ret|by apply wp_fail]].
Qed.
(** A call that was blocked reports a removal. *)
Lemma wp_blocked {B} (m : ipc B) (b : bool) c Q (E : Z → core → Prop) :
  wp A m c Q (λ e c', E (if (e =? - EINVAL) && b then - EIDRM else e) c') →
  wp A (λ t, match m t with (t, inr e) => (t, inr (if (e =? - EINVAL) && b then - EIDRM else e)) | r => r end) c Q E.
Proof. intros H l Hl. specialize (H l Hl). destruct (m (mk_session c l)) as [t [v|e]]; done. Qed.
End rules.
Lemma find_key_none s kind key d id o : find_key s kind key d = None → d_objects d !! id = Some o → key ≠ 0 → ob_namespace o = s_namespace s → ob_kind o = kind → ob_key o ≠ key.
Proof.
  unfold find_key. intros Hf Ho Hk Hn Hkind E. destruct (filter _ _) as [|y l] eqn:Ef; [|done]. assert ((id, o) ∈ ([] : list (Z * object))) as Hin; [|by apply elem_of_nil in Hin].
  rewrite <- Ef. apply list_elem_of_filter. split; [done|]. by apply elem_of_map_to_list.
Qed.
