(* ===== verification/SysvOk.v ===== *)
(** * The tables of System V objects are consistent

    [ipc_ok]: ids and keys are unique, every semaphore of a set has one row with a value in
    range, adjustments are in range and belong to live owners, a message belongs to a queue, and the
    counts of a queue are those of its messages.  The changes that the statements make
    preserve it. *)
From stdpp Require Import sorting.
From S2P Require Import Prelude UserNamespace GuestIdentity PidNamespace CLib Syscalls SysvIpc.

Definition SEMMSL : Z := 32000.
Definition SEMVMX : Z := 32767.
Definition SEMAEM : Z := SEMVMX.

Definition info_ok (o : object) : Prop :=
  match ob_info o with SemInfo st => ob_kind o = MD_IPC_SEM ∧ 0 < sem_nsems st ≤ SEMMSL | MsgInfo _ => ob_kind o = MD_IPC_MSG end.
(** A semaphore of a set. *)
Definition has_sem (d : database) (k : Z * Z) : Prop := ∃ o st, d_objects d !! k.1 = Some o ∧ ob_info o = SemInfo st ∧ 0 ≤ k.2 < sem_nsems st.
Definition seq_le (a b : Z * message) : Prop := a.1 ≤ b.1.
#[global] Instance seq_le_dec : RelDecision seq_le := λ a b, decide (a.1 ≤ b.1).
(** The messages of a queue, with their sequence numbers, in order. *)
Definition queue (id : Z) (d : database) : list (Z * message) := merge_sort seq_le (filter (λ m, mg_object m.2 = id) (map_to_list (d_messages d))).
Definition bytes (l : list (Z * message)) : Z := total ((λ m, Z.of_nat (length (mg_data m.2))) <$> l).
Record ipc_ok (d : database) : Prop := {
  ok_objects : ∀ id o, d_objects d !! id = Some o → 0 < id ≤ d_last d ∧ info_ok o;
  ok_keys : ∀ i j o o', d_objects d !! i = Some o → d_objects d !! j = Some o' → ob_key o ≠ 0 →
    ob_namespace o = ob_namespace o' → ob_kind o = ob_kind o' → ob_key o = ob_key o' → i = j;
  ok_last : 0 ≤ d_last d;
  ok_sems : ∀ k, is_Some (d_sems d !! k) ↔ has_sem d k;
  ok_values : ∀ k v, d_sems d !! k = Some v → 0 ≤ sm_value v ≤ SEMVMX;
  ok_undo : ∀ k u, d_undo d !! k = Some u → is_Some (d_owners d !! u_owner k) ∧ has_sem d (u_object k, u_number k) ∧ - SEMAEM ≤ un_delta u ≤ SEMAEM;
  ok_messages : ∀ q m, d_messages d !! q = Some m → q ≤ d_sequence d ∧ ∃ o st, d_objects d !! mg_object m = Some o ∧ ob_info o = MsgInfo st;
  ok_counts : ∀ id o st, d_objects d !! id = Some o → ob_info o = MsgInfo st → msg_qnum st = Z.of_nat (length (queue id d)) ∧ msg_cbytes st = bytes (queue id d);
  ok_waiters : ∀ k w, d_waiters d !! k = Some w → is_Some (d_owners d !! k.1) ∧ is_Some (d_objects d !! wt_object w) }.

(** ** Changes of one table *)

Lemma has_sem_with_sems x d k : has_sem (with_sems x d) k ↔ has_sem d k.
Proof. done. Qed.
Lemma value_change d k v : ipc_ok d → 0 ≤ sm_value v ≤ SEMVMX → ipc_ok (with_sems (alter (λ _, v) k (d_sems d)) d).
Proof.
  intros [K1 K2 K3 K4 K5 K6 K7 K8 K9] Hv. split; try done; cbn.
  - intros j. rewrite has_sem_with_sems, <- K4. destruct (decide (j = k)) as [->|]; [rewrite lookup_alter_eq|by rewrite lookup_alter_ne]. by rewrite fmap_is_Some.
  - intros j w Hw. destruct (decide (j = k)) as [->|]; [|rewrite lookup_alter_ne in Hw by done; eauto].
    rewrite lookup_alter_eq in Hw. apply fmap_Some in Hw as (? & _ & ->). done.
Qed.
Lemma undo_insert d k u : ipc_ok d → is_Some (d_owners d !! u_owner k) → has_sem d (u_object k, u_number k) → - SEMAEM ≤ un_delta u ≤ SEMAEM → ipc_ok (with_undo (<[k := u]> (d_undo d)) d).
Proof.
  intros [K1 K2 K3 K4 K5 K6 K7 K8 K9] H1 H2 H3. split; try done; cbn. intros j w. destruct (decide (j = k)) as [->|]; [rewrite lookup_insert_eq; by intros [= <-]|rewrite lookup_insert_ne by done; apply K6].
Qed.
Lemma undo_filter d (P : undo_key * undo_row → Prop) `{∀ x, Decision (P x)} : ipc_ok d → ipc_ok (with_undo (filter P (d_undo d)) d).
Proof. intros [K1 K2 K3 K4 K5 K6 K7 K8 K9]. split; try done; cbn. intros j w [Hj _]%map_lookup_filter_Some. by apply K6. Qed.
Lemma waiters_insert d k w : ipc_ok d → is_Some (d_owners d !! k.1) → is_Some (d_objects d !! wt_object w) → ipc_ok (with_waiters (<[k := w]> (d_waiters d)) d).
Proof.
  intros [K1 K2 K3 K4 K5 K6 K7 K8 K9] H1 H2. split; try done; cbn. intros j v. destruct (decide (j = k)) as [->|]; [rewrite lookup_insert_eq; by intros [= <-]|rewrite lookup_insert_ne by done; apply K9].
Qed.
Lemma waiters_delete d k : ipc_ok d → ipc_ok (with_waiters (delete k (d_waiters d)) d).
Proof. intros [K1 K2 K3 K4 K5 K6 K7 K8 K9]. split; try done; cbn. intros j w [_ Hj]%lookup_delete_Some. by apply K9. Qed.

(** ** Queues *)

#[global] Instance seq_le_trans : Transitive seq_le.
Proof. unfold seq_le. intros a b c ? ?. lia. Qed.
#[global] Instance seq_le_total : Total seq_le.
Proof. unfold seq_le. intros a b. lia. Qed.
Lemma elem_of_queue id d q m : (q, m) ∈ queue id d ↔ d_messages d !! q = Some m ∧ mg_object m = id.
Proof. unfold queue. rewrite merge_sort_Permutation, list_elem_of_filter, elem_of_map_to_list. cbn. tauto. Qed.
Lemma queue_sorted id d : StronglySorted seq_le (queue id d).
Proof. apply (StronglySorted_merge_sort seq_le). Qed.
Lemma queue_NoDup id d : NoDup (queue id d).
Proof. unfold queue. rewrite merge_sort_Permutation. apply NoDup_filter, NoDup_map_to_list. Qed.
(** A sorted list with the messages of a queue is the queue. *)
Lemma queue_unique id d l : StronglySorted seq_le l → NoDup l → (∀ q m, (q, m) ∈ l ↔ d_messages d !! q = Some m ∧ mg_object m = id) → queue id d = l.
Proof.
  intros Hs Hn Hl. apply (StronglySorted_unique_strong seq_le); [|apply queue_sorted|done|].
  - intros [q m] [q' m'] [H1 _]%elem_of_queue [H2 _]%Hl Ha Hb. unfold seq_le in *. cbn in *. assert (q = q') as -> by lia. congruence.
  - apply NoDup_Permutation; [apply queue_NoDup|done|]. intros [q m]. by rewrite elem_of_queue, Hl.
Qed.
Lemma queue_same id d d' : (∀ q m, mg_object m = id → d_messages d' !! q = Some m ↔ d_messages d !! q = Some m) → queue id d' = queue id d.
Proof. intros H. apply queue_unique; [apply queue_sorted|apply queue_NoDup|]. intros q m. rewrite elem_of_queue. naive_solver. Qed.
Lemma StronglySorted_snoc {A} (R : relation A) l x : StronglySorted R l → Forall (λ y, R y x) l → StronglySorted R (l ++ [x]).
Proof.
  induction 1 as [|y l Hl IH Hf]; intros Hx; cbn; [repeat constructor|]. apply Forall_cons in Hx as [? ?]. constructor; [by apply IH|]. apply Forall_app. split; [done|]. by repeat constructor.
Qed.
Lemma StronglySorted_filtered {A} (R : relation A) (P : A → Prop) `{!∀ x, Decision (P x)} (l : list A) : StronglySorted R l → StronglySorted R (filter P l).
Proof.
  induction 1 as [|y l Hl IH Hf]; [constructor|]. rewrite filter_cons. case_decide; [|done]. constructor; [done|]. rewrite Forall_forall in *. intros z [_ ?]%list_elem_of_filter. auto.
Qed.
Lemma filter_kept {A} (P : A → Prop) `{!∀ x, Decision (P x)} (l : list A) : (∀ x, x ∈ l → P x) → filter P l = l.
Proof. induction l as [|y l IH]; intros Hl; [done|]. rewrite filter_cons, decide_True by (apply Hl; by left). f_equal. apply IH. intros x ?. apply Hl. by right. Qed.
Lemma total_append l l' : total (l ++ l') = total l + total l'.
Proof. unfold total. induction l; cbn in *; lia. Qed.
Lemma queue_append d n m :
  (∀ q m', d_messages d !! q = Some m' → q < n) → ∀ id,
  queue id (with_messages (<[n := m]> (d_messages d)) n d) = if decide (mg_object m = id) then queue id d ++ [(n, m)] else queue id d.
Proof.
  intros Hn id. case_decide as E.
  - apply queue_unique.
    + apply StronglySorted_snoc; [apply queue_sorted|]. apply Forall_forall. intros [q m'] [Hq _]%elem_of_queue. unfold seq_le. cbn. apply Hn in Hq. lia.
    + apply NoDup_app. split_and!; [apply queue_NoDup| |apply NoDup_singleton]. intros [q m'] [Hq _]%elem_of_queue [= -> ->]%list_elem_of_singleton. apply Hn in Hq. lia.
    + intros q m'. rewrite elem_of_app, list_elem_of_singleton, elem_of_queue. cbn. rewrite lookup_insert_Some. split.
      * intros [[Hq ?]|[= -> ->]]; [|auto]. split; [|done]. right. split; [|done]. apply Hn in Hq. lia.
      * intros [[[-> ->]|[? ?]] ?]; [by right|by left].
  - apply queue_same. intros q m' Hm'. cbn. rewrite lookup_insert_Some. split; [|intros Hq; right; split; [|done]; apply Hn in Hq; lia]. intros [[-> ->]|[? ?]]; done.
Qed.
Lemma queue_remove d n id : queue id (with_messages (delete n (d_messages d)) (d_sequence d) d) = filter (λ x, x.1 ≠ n) (queue id d).
Proof.
  apply queue_unique.
  - apply StronglySorted_filtered, queue_sorted.
  - apply NoDup_filter, queue_NoDup.
  - intros q m. rewrite list_elem_of_filter, elem_of_queue. cbn. rewrite lookup_delete_Some. naive_solver.
Qed.
Lemma bytes_app l l' : bytes (l ++ l') = bytes l + bytes l'.
Proof. unfold bytes. by rewrite fmap_app, total_append. Qed.
Lemma bytes_cons q m l : bytes ((q, m) :: l) = Z.of_nat (length (mg_data m)) + bytes l.
Proof. done. Qed.
Lemma filter_out d id q m :
  (q, m) ∈ queue id d → Z.of_nat (length (filter (λ x, x.1 ≠ q) (queue id d))) = Z.of_nat (length (queue id d)) - 1
  ∧ bytes (filter (λ x, x.1 ≠ q) (queue id d)) = bytes (queue id d) - Z.of_nat (length (mg_data m)).
Proof.
  intros Hin. assert (∀ m', (q, m') ∈ queue id d → m' = m) as Hu by (intros m' [? _]%elem_of_queue; apply elem_of_queue in Hin as [? _]; congruence).
  pose proof (queue_NoDup id d) as Hn. induction (queue id d) as [|[q' m'] l IH]; [by apply elem_of_nil in Hin|]. apply NoDup_cons in Hn as [Hni Hn]. rewrite filter_cons. cbn [fst]. case_decide as E.
  - apply elem_of_cons in Hin as [[= -> ->]|Hin]; [done|]. destruct IH as [IH1 IH2]; [done|intros ? ?; apply Hu; by right|done|]. rewrite !bytes_cons, !length_cons. split; lia.
  - assert (q' = q) as -> by (destruct (decide (q' = q)); [done|by destruct E]). assert (m' = m) as -> by (apply Hu; by left).
    assert (filter (λ x : Z * message, x.1 ≠ q) l = l) as ->.
    { apply filter_kept. intros [q1 m1] Hq1 Eq. cbn in Eq. subst q1. assert (m1 = m) as -> by (apply Hu; by right). done. }
    rewrite bytes_cons, length_cons. split; lia.
Qed.

(** ** Changes of objects *)

(** Another row for the object [id], and another table of messages that keeps the other queues. *)
Lemma object_change d id o o' ms n :
  ipc_ok d → d_objects d !! id = Some o → ob_kind o' = ob_kind o → ob_key o' = ob_key o → ob_namespace o' = ob_namespace o →
  match ob_info o, ob_info o' with
  | SemInfo st, SemInfo st' => sem_nsems st' = sem_nsems st
  | MsgInfo _, MsgInfo st => msg_qnum st = Z.of_nat (length (queue id (with_messages ms n d))) ∧ msg_cbytes st = bytes (queue id (with_messages ms n d))
  | _, _ => False
  end →
  (∀ q m, ms !! q = Some m → q ≤ n ∧ (is_Some (d_messages d !! q) ∧ d_messages d !! q = Some m ∨ mg_object m = id ∧ ∃ st, ob_info o = MsgInfo st)) →
  (∀ j, j ≠ id → queue j (with_messages ms n d) = queue j d) →
  ipc_ok (with_objects (<[id := o']> (d_objects d)) (with_messages ms n d)).
Proof.
  intros Hok Ho Hk Hkey Hns Hi Hms Hq. set (d' := with_objects _ _). assert (∀ k, has_sem d' k ↔ has_sem d k) as Hsem.
  { intros k. unfold has_sem. cbn. destruct (decide (k.1 = id)) as [->|]; [|by rewrite lookup_insert_ne]. rewrite lookup_insert_eq, Ho. split.
    - intros (? & st & [= <-] & E & Hn). rewrite E in Hi. destruct (ob_info o) as [st0|] eqn:E0; [|done]. exists o, st0. split_and!; [done|done|lia|lia].
    - intros (? & st & [= <-] & E & Hn). rewrite E in Hi. destruct (ob_info o') as [st'|] eqn:E0; [|done]. exists o', st'. split_and!; [done|done|lia|lia]. }
  assert (∀ j x, <[id := o']> (d_objects d) !! j = Some x → ∃ y, d_objects d !! j = Some y ∧ ob_kind x = ob_kind y ∧ ob_key x = ob_key y ∧ ob_namespace x = ob_namespace y) as Hback.
  { intros j x Hx. destruct (decide (j = id)) as [->|]; [rewrite lookup_insert_eq in Hx; injection Hx as <-; eauto 10|rewrite lookup_insert_ne in Hx by done; eauto 10]. }
  assert (∀ j, is_Some (d_objects d !! j) → is_Some (<[id := o']> (d_objects d) !! j)) as Hfw.
  { intros j Hj. destruct (decide (j = id)) as [->|]; [by rewrite lookup_insert_eq|by rewrite lookup_insert_ne]. }
  destruct Hok as [K1 K2 K3 K4 K5 K6 K7 K8 K9]. split; cbn [d' d_objects d_last d_sems d_messages d_sequence d_owners d_undo d_waiters with_objects with_messages].
  - intros j x Hx. destruct (decide (j = id)) as [->|]; [|rewrite lookup_insert_ne in Hx by done; auto]. rewrite lookup_insert_eq in Hx. injection Hx as <-.
    destruct (K1 id o Ho) as [? Hinfo]. split; [done|]. unfold info_ok in *. rewrite Hk. destruct (ob_info o), (ob_info o'); try done. destruct Hinfo. split; [done|lia].
  - intros j k x y Hx Hy Hne E1 E2 E3. destruct (Hback j x Hx) as (x0 & Hx0 & ? & ? & ?), (Hback k y Hy) as (y0 & Hy0 & ? & ? & ?). apply (K2 j k x0 y0); congruence.
  - done.
  - intros k. by rewrite K4, Hsem.
  - done.
  - intros k u Hu. rewrite Hsem. eauto.
  - intros q m Hm. destruct (Hms q m Hm) as [Hle H]. split; [done|]. assert (∃ y st, d_objects d !! mg_object m = Some y ∧ ob_info y = MsgInfo st) as (y & st & Hy & Hst).
    { destruct H as [[_ H]|[-> [st ?]]]; [by destruct (K7 q m H)|eauto]. }
    destruct (decide (mg_object m = id)) as [E|]; [|rewrite lookup_insert_ne by done; eauto]. rewrite E, lookup_insert_eq. rewrite E, Ho in Hy. injection Hy as <-. rewrite Hst in Hi. destruct (ob_info o') as [|st'] eqn:E'; [done|]. eauto.
  - intros j x st Hx Hst. change (queue j d') with (queue j (with_messages ms n d)). destruct (decide (j = id)) as [->|]; [|rewrite lookup_insert_ne in Hx by done; rewrite Hq by done; eauto].
    rewrite lookup_insert_eq in Hx. injection Hx as <-. rewrite Hst in Hi. by destruct (ob_info o).
  - intros k w Hw. destruct (K9 k w Hw). auto.
Qed.
Lemma with_messages_id d : with_messages (d_messages d) (d_sequence d) d = d.
Proof. by destruct d. Qed.
Lemma alter_found {A} (f : A → A) id (m : gmap Z A) o : m !! id = Some o → alter f id m = <[id := f o]> m.
Proof. intros Ho. apply map_eq. intros j. destruct (decide (j = id)) as [->|]; [by rewrite lookup_alter_eq, lookup_insert_eq, Ho|by rewrite lookup_alter_ne, lookup_insert_ne]. Qed.
(** What [md_ipc_save] writes. *)
Lemma info_change d id o i :
  ipc_ok d → d_objects d !! id = Some o →
  match ob_info o, i with
  | SemInfo st, SemInfo st' => sem_nsems st' = sem_nsems st
  | MsgInfo st, MsgInfo st' => msg_qnum st' = msg_qnum st ∧ msg_cbytes st' = msg_cbytes st
  | _, _ => False
  end → ipc_ok (with_objects (alter (set_info i) id (d_objects d)) d).
Proof.
  intros Hok Ho Hi. pose proof (object_change d id o (set_info i o) (d_messages d) (d_sequence d) Hok Ho) as H. rewrite with_messages_id in H.
  rewrite (alter_found _ _ _ o) by done. apply H; try done.
  - cbn. destruct (ob_info o) as [|st] eqn:E, i; try done. destruct Hi as [-> ->]. by apply (ok_counts d Hok id o).
  - intros q m Hm. destruct (ok_messages d Hok q m Hm) as [? _]. eauto.
Qed.
Lemma message_sent d id o st m o' st' :
  ipc_ok d → d_objects d !! id = Some o → ob_info o = MsgInfo st → mg_object m = id →
  ob_kind o' = ob_kind o → ob_key o' = ob_key o → ob_namespace o' = ob_namespace o → ob_info o' = MsgInfo st' →
  msg_qnum st' = msg_qnum st + 1 → msg_cbytes st' = msg_cbytes st + Z.of_nat (length (mg_data m)) →
  ipc_ok (with_objects (<[id := o']> (d_objects d)) (with_messages (<[d_sequence d + 1 := m]> (d_messages d)) (d_sequence d + 1) d)).
Proof.
  intros Hok Ho Hi Hm Hk Hkey Hns Hi' Hn Hb. assert (∀ q m', d_messages d !! q = Some m' → q < d_sequence d + 1) as Hlt by (intros q m' Hq; destruct (ok_messages d Hok q m' Hq); lia).
  apply (object_change d id o); try done.
  - rewrite Hi, Hi', queue_append, decide_True, length_app, bytes_app, bytes_cons by done. destruct (ok_counts d Hok id o st Ho Hi) as [E1 E2]. rewrite Hn, Hb, E1, E2. cbn [length]. unfold bytes, total at 3. cbn. lia.
  - intros q m'. rewrite lookup_insert_Some. intros [[<- <-]|[_ Hq]]; [split; [lia|]; right; eauto|]. split; [apply Hlt in Hq; lia|]. left. eauto.
  - intros j Hj. rewrite queue_append by done. by rewrite decide_False by congruence.
Qed.
Lemma message_received d id o st q m o' st' :
  ipc_ok d → d_objects d !! id = Some o → ob_info o = MsgInfo st → d_messages d !! q = Some m → mg_object m = id →
  ob_kind o' = ob_kind o → ob_key o' = ob_key o → ob_namespace o' = ob_namespace o → ob_info o' = MsgInfo st' →
  msg_qnum st' = msg_qnum st - 1 → msg_cbytes st' = msg_cbytes st - Z.of_nat (length (mg_data m)) →
  ipc_ok (with_objects (<[id := o']> (d_objects d)) (with_messages (delete q (d_messages d)) (d_sequence d) d)).
Proof.
  intros Hok Ho Hi Hq Hm Hk Hkey Hns Hi' Hn Hb. apply (object_change d id o); try done.
  - rewrite Hi, Hi', queue_remove. destruct (ok_counts d Hok id o st Ho Hi) as [E1 E2]. destruct (filter_out d id q m) as [-> ->]; [by apply elem_of_queue|]. lia.
  - intros q' m' [_ Hq']%lookup_delete_Some. destruct (ok_messages d Hok q' m' Hq') as [? _]. eauto.
  - intros j Hj. rewrite queue_remove. apply filter_kept. intros [q' m'] [Hq' Hm']%elem_of_queue E. cbn in E. subst q'. congruence.
Qed.

(** ** New objects *)

(** The semaphores of an object. *)
Definition width (o : object) : Z := match ob_info o with SemInfo st => sem_nsems st | MsgInfo _ => 0 end.
Definition created (d : database) (o : object) (sems : gmap (Z * Z) sem_row) : database :=
  mk_database (<[d_last d + 1 := o]> (d_objects d)) (d_last d + 1) sems (d_messages d) (d_sequence d) (d_owners d) (d_undo d) (d_waiters d).
Lemma object_created d o sems :
  ipc_ok d → info_ok o →
  (∀ j o', d_objects d !! j = Some o' → ob_key o ≠ 0 → ob_namespace o' = ob_namespace o → ob_kind o' = ob_kind o → ob_key o' ≠ ob_key o) →
  match ob_info o with MsgInfo st => msg_qnum st = 0 ∧ msg_cbytes st = 0 | SemInfo _ => True end →
  (∀ k, sems !! k = if decide (k.1 = d_last d + 1 ∧ 0 ≤ k.2 < width o) then Some (mk_sem 0 0 []) else d_sems d !! k) →
  ipc_ok (created d o sems).
Proof.
  intros Hok Ho Hkeys Hempty Hs. pose proof Hok as [K1 K2 K3 K4 K5 K6 K7 K8 K9]. set (id := d_last d + 1).
  assert (d_objects d !! id = None) as Hnew by (destruct (d_objects d !! id) eqn:E; [|done]; apply K1 in E; lia).
  assert (∀ j y, d_objects d !! j = Some y → <[id := o]> (d_objects d) !! j = Some y) as Hold by (intros j y Hy; rewrite lookup_insert_ne; [done|congruence]).
  assert (∀ k, has_sem (created d o sems) k ↔ has_sem d k ∨ k.1 = id ∧ 0 ≤ k.2 < width o) as Hsem.
  { intros k. unfold has_sem. cbn. split.
    - intros (y & st & Hy & E & Hn). apply lookup_insert_Some in Hy as [[<- <-]|[_ Hy]]; [right|left; eauto]. unfold width. by rewrite E.
    - intros [(y & st & Hy & E & Hn)|[-> H]]; [exists y, st; auto|]. rewrite lookup_insert_eq. unfold width in H. destruct (ob_info o) as [st|] eqn:E; [eauto|lia]. }
  assert (∀ q m, d_messages d !! q = Some m → mg_object m ≠ id) as Hmsg by (intros q m Hm E; destruct (K7 q m Hm) as (_ & y & st & Hy & _); congruence).
  split; cbn [created d_objects d_last d_sems d_messages d_sequence d_owners d_undo d_waiters]; fold id.
  - intros j y [[<- <-]|[_ Hy]]%lookup_insert_Some; [split; [lia|done]|]. destruct (K1 j y Hy). split; [lia|done].
  - intros i j y z [[<- <-]|[Hi Hy]]%lookup_insert_Some [[<- <-]|[Hj Hz]]%lookup_insert_Some Hne E1 E2 E3; [done| | |by apply (K2 i j y z)].
    + by destruct (Hkeys j z Hz Hne).
    + destruct (Hkeys i y Hy); congruence.
  - lia.
  - intros k. rewrite Hs, Hsem, <- K4. case_decide as E; [naive_solver|]. split; [tauto|]. intros [?|?]; [done|by destruct E].
  - intros k v. rewrite Hs. case_decide; [intros [= <-]; cbn; unfold SEMVMX; lia|apply K5].
  - intros k u Hu. rewrite Hsem. destruct (K6 k u Hu) as (? & ? & ?). auto.
  - intros q m Hm. destruct (K7 q m Hm) as (? & y & st & Hy & ?). split; [done|]. exists y, st. auto.
  - intros j y st [[<- <-]|[Hj Hy]]%lookup_insert_Some E; [|by apply (K8 j y)]. rewrite E in Hempty.
    assert (queue id (created d o sems) = []) as ->; [|done]. apply queue_unique; [constructor|constructor|]. intros q m. cbn. split; [by intros ?%elem_of_nil|]. intros [Hm E']. by apply Hmsg in Hm.
  - intros k w Hw. destruct (K9 k w Hw) as [? [y Hy]]. eauto.
Qed.

(** ** Deletions *)

Lemma objects_deleted gone d : ipc_ok d → ipc_ok (delete_objects gone d).
Proof.
  intros [K1 K2 K3 K4 K5 K6 K7 K8 K9]. assert (∀ j o, d_objects (delete_objects gone d) !! j = Some o ↔ d_objects d !! j = Some o ∧ gone j = false) as Ho by (intros j o; apply map_lookup_filter_Some).
  assert (∀ k, has_sem (delete_objects gone d) k ↔ has_sem d k ∧ gone k.1 = false) as Hsem by (intros k; unfold has_sem; setoid_rewrite Ho; naive_solver).
  split.
  - intros j o [Hj _]%Ho. by apply K1.
  - intros i j y z [Hy _]%Ho [Hz _]%Ho. by apply K2.
  - done.
  - intros k. rewrite Hsem, <- K4. cbn. unfold is_Some. setoid_rewrite map_lookup_filter_Some. naive_solver.
  - intros k v [Hv _]%map_lookup_filter_Some. by apply K5 in Hv.
  - intros k u [Hu Hg]%map_lookup_filter_Some. rewrite Hsem. destruct (K6 k u Hu) as (? & ? & ?). auto.
  - intros q m [Hm Hg]%map_lookup_filter_Some. destruct (K7 q m Hm) as (? & o & st & ? & ?). split; [done|]. exists o, st. by rewrite Ho.
  - intros j o st [Hj Hg]%Ho Hst. destruct (K8 j o st Hj Hst) as [-> ->]. assert (queue j (delete_objects gone d) = queue j d) as ->; [|done].
    apply queue_same. intros q m <-. cbn. rewrite map_lookup_filter_Some. naive_solver.
  - intros k w [Hw Hg]%map_lookup_filter_Some. destruct (K9 k w Hw) as [? [o Hw']]. split; [done|]. exists o. by apply Ho.
Qed.
Lemma owner_row_deleted owner d : ipc_ok d → ipc_ok (delete_owner owner d).
Proof.
  intros [K1 K2 K3 K4 K5 K6 K7 K8 K9]. split; try done.
  - intros k u [Hu Hne]%map_lookup_filter_Some. destruct (K6 k u Hu) as (? & ? & ?). split; [|done]. cbn. by rewrite lookup_delete_ne.
  - intros k w [Hw Hne]%map_lookup_filter_Some. destruct (K9 k w Hw). split; [|done]. cbn. by rewrite lookup_delete_ne.
Qed.

(** ** Sessions that keep the tables consistent *)

Lemma ipc_ok_kind d : ipc_ok d → kind_ok d.
Proof. intros Hok id o Ho. destruct (ok_objects d Hok id o Ho) as [_ Hi]. unfold info_ok in Hi. destruct (ob_info o); [by destruct Hi|done]. Qed.
Definition kept {B} (_ : B) (c : core) : Prop := ipc_ok (t_db c).
(** The objects stay as well. *)
Definition framed {B} (c0 : core) (_ : B) (c : core) : Prop := ipc_ok (t_db c) ∧ d_objects (t_db c) = d_objects (t_db c0).
#[export] Hint Resolve ipc_ok_kind : ipc.
Lemma find_sem_object s id d st : find_sem s id d = Some st → ∃ o, d_objects d !! id = Some o ∧ ob_info o = SemInfo st.
Proof. unfold find_sem. intros H. destruct (d_objects d !! id) as [o|]; [|done]. destruct (ob_info o) eqn:E; [|done]. case_match; [|done]. injection H as ->. eauto. Qed.
Lemma find_msg_object s id d st : find_msg s id d = Some st → ∃ o, d_objects d !! id = Some o ∧ ob_info o = MsgInfo st.
Proof. unfold find_msg. intros H. destruct (d_objects d !! id) as [o|]; [|done]. destruct (ob_info o) eqn:E; [done|]. case_match; [|done]. injection H as ->. eauto. Qed.
Lemma safe_save_sem id o st st' c :
  ipc_ok (t_db c) → d_objects (t_db c) !! id = Some o → ob_info o = SemInfo st → sem_nsems st' = sem_nsems st → safe (md_ipc_save id (SemInfo st')) c kept.
Proof. intros Hok Ho Hi Hn. unfold md_ipc_save. wp_steps. apply (info_change _ id o); [done|done|]. by rewrite Hi. Qed.
Lemma safe_create s kind key i c Q :
  (∀ c', find_key s kind key (t_db c) = None → t_db c' = created (t_db c) (mk_object kind key i (s_namespace s) [] []) (d_sems (t_db c)) → Q (d_last (t_db c) + 1) c') →
  safe (md_ipc_create s kind key i) c Q.
Proof.
  intros HQ. unfold md_ipc_create. wp_steps. apply HQ; [|done]. apply bool_decide_eq_false in H. by apply eq_None_not_Some.
Qed.
Lemma created_msg s d key st :
  ipc_ok d → find_key s MD_IPC_MSG key d = None → msg_qnum st = 0 → msg_cbytes st = 0 →
  ipc_ok (created d (mk_object MD_IPC_MSG key (MsgInfo st) (s_namespace s) [] []) (d_sems d)).
Proof.
  intros Hok Hf Hn Hb. apply object_created; [done|done| |done|].
  - intros j o' Ho Hk Hns Hkind. cbn in *. by apply (find_key_none s _ key d j o' Hf).
  - intros k. rewrite decide_False; [done|]. cbn. lia.
Qed.
Lemma created_sem s d key st sems :
  ipc_ok d → find_key s MD_IPC_SEM key d = None → 0 < sem_nsems st ≤ SEMMSL →
  (∀ k, sems !! k = if decide (k.1 = d_last d + 1 ∧ 0 ≤ k.2 < 0 + sem_nsems st) then Some (mk_sem 0 0 []) else d_sems d !! k) →
  ipc_ok (created d (mk_object MD_IPC_SEM key (SemInfo st) (s_namespace s) [] []) sems).
Proof.
  intros Hok Hf Hn Hs. apply object_created; [done|done| |done|done].
  intros j o' Ho Hk Hns Hkind. cbn in *. by apply (find_key_none s _ key d j o' Hf).
Qed.
