(* ===== verification/SysvSem.v ===== *)
(** * Semaphores (sysv_sem.c) *)
From stdpp Require Import sorting.
From S2P Require Import Prelude UserNamespace GuestIdentity PidNamespace Syscalls SysvIpc SysvOk.

Definition SEMOPM : Z := 500.
Definition SEM_UNDO : Z := 0x1000.
Definition GETPID : Z := 11.
Definition GETVAL : Z := 12.
Definition GETALL : Z := 13.
Definition GETNCNT : Z := 14.
Definition GETZCNT : Z := 15.
Definition SETVAL : Z := 16.
Definition SETALL : Z := 17.

Section sem.
Context (s : md_ipc) (x : context).

(** The row of a semaphore. *)
Definition value (object number : Z) : ipc sem_row :=
  sql;; d <- get_db;; match d_sems d !! (object, number) with Some v => ret v | None => fail (- EINVAL) end.
Definition set (object number val pid : Z) (numbers : pids) : ipc unit :=
  sql;; modify (λ d, with_sems (alter (λ _, mk_sem val pid numbers) (object, number) (d_sems d)) d);; set_changed.
Definition set_process (object number val pid : Z) (process : option loc) : ipc unit :=
  set object number val pid (md_pid_identity_export (x_pids x) process).
(** The adjustment that the exit of the process makes; the table refers to owners and objects. *)
Definition undo (p : md_ipc_pending) (number delta : Z) : ipc unit :=
  sql;; d <- get_db;;
  let key : undo_key := (s_owner s, p_undo p, to_int (p_args p 0), number) in
  let delta := match d_undo d !! key with Some u => delta + un_delta u | None => delta end in
  when ((delta <? - SEMAEM) || (SEMAEM <? delta)) (- ERANGE);;
  sql;; d <- get_db;;
  when (bool_decide (d_owners d !! s_owner s = None) || bool_decide (d_objects d !! to_int (p_args p 0) = None)) (- EIO);;
  put_db (with_undo (<[key := mk_undo delta (p_pid p) (md_ipc_pid_bind x (p_process p))]> (d_undo d)) d).
Definition clear_undo (object number : Z) : ipc unit :=
  sql;; modify (λ d, with_undo (filter (λ u, ¬ (u_object u.1 = object ∧ (number < 0 ∨ u_number u.1 = number))) (d_undo d)) d).

(** ** Adjustments at exit *)

Definition undo_leb (a b : undo_key) : bool :=
  let '(_, s1, o1, n1) := a in
  let '(_, s2, o2, n2) := b in
  (s1 <? s2) || (s1 =? s2) && ((o1 <? o2) || (o1 =? o2) && (n1 <=? n2)).
Definition undo_le (a b : undo_key * undo_row) : Prop := Is_true (undo_leb a.1 b.1).
#[global] Instance undo_le_dec : RelDecision undo_le := λ a b, _.
Definition undo_rows (owner space : Z) (d : database) : list (undo_key * undo_row) :=
  merge_sort undo_le (filter (λ u, u_owner u.1 = owner ∧ (space = 0 ∨ u_space u.1 = space) ∧ is_Some (d_objects d !! u_object u.1)) (map_to_list (d_undo d))).
Fixpoint undo_loop (rows : list (undo_key * undo_row)) : ipc unit :=
  match rows with
  | [] => ret tt
  | (k, u) :: rows =>
      sql;; d <- get_db;;
      match d_objects d !! u_object k with
      | Some o =>
          match ob_info o with
          | SemInfo st =>
              when (negb (ob_kind o =? MD_IPC_SEM)) (- EIO);;
              v <- value (u_object k) (u_number k);;
              let next := sm_value v + un_delta u in
              set (u_object k) (u_number k) (if next <? 0 then 0 else if SEMVMX <? next then SEMVMX else next) (un_pid u) (un_pids u);;
              md_ipc_save (u_object k) (SemInfo (mk_semid (sem_perm st) (x_now x) (sem_ctime st) (sem_nsems st)));;
              undo_loop rows
          | MsgInfo _ => fail (- EIO)
          end
      | None => undo_loop rows
      end
  end.
Definition md_ipc_undo_apply (owner space : Z) : ipc unit :=
  sql;; d <- get_db;; undo_loop (undo_rows owner space d);;
  sql;; modify (λ d, with_undo (filter (λ u, ¬ (u_owner u.1 = owner ∧ (space = 0 ∨ u_space u.1 = space))) (d_undo d)) d).

(** ** semget *)

Definition flags_mode (flags : Z) : Z := Z.land (Z.lor (Z.lor (Z.shiftr flags 6) (Z.shiftr flags 3)) flags) 7.
Definition new_perm (p : md_ipc_pending) (key flags : Z) : ipc64_perm :=
  let uid := id_effective (i_uid (p_identity p)) in
  let gid := id_effective (i_gid (p_identity p)) in
  mk_perm key uid gid uid gid (Z.land flags 0x1ff).
Fixpoint insert_sems (object : Z) (i : Z) (n : nat) : ipc unit :=
  match n with
  | O => ret tt
  | S n => sql;; modify (λ d, with_sems (<[(object, i) := mk_sem 0 0 []]> (d_sems d)) d);; insert_sems object (i + 1) n
  end.
Definition sem_get (p : md_ipc_pending) : ipc Z :=
  let key := to_int (p_args p 0) in
  let count := to_int (p_args p 1) in
  let flags := to_int (p_args p 2) in
  when ((count <? 0) || (SEMMSL <? count)) (- EINVAL);;
  object <- md_ipc_get s MD_IPC_SEM key flags;;
  if negb (object =? 0) then
    st <- load_sem s object;;
    when (sem_nsems st <? count) (- EINVAL);;
    try (md_ipc_perm_access x (s_user_namespace s) (p_identity p) (sem_perm st) (flags_mode flags));;
    ret object
  else
    when (count =? 0) (- EINVAL);;
    object <- md_ipc_create s MD_IPC_SEM key (SemInfo (mk_semid (new_perm p key flags) 0 (x_now x) count));;
    sql;; insert_sems object 0 (Z.to_nat count);; ret object.

(** ** semop *)

Fixpoint ops_mode (nsems mode : Z) (ops : list sembuf) : Z + Z :=
  match ops with
  | [] => inl mode
  | o :: ops => if nsems <=? sem_num o then inr (- EFBIG) else ops_mode nsems (Z.lor mode (if sem_op o =? 0 then 4 else 2)) ops
  end.
Fixpoint operate_loop (p : md_ipc_pending) (object : Z) (ops : list sembuf) : ipc unit :=
  match ops with
  | [] => ret tt
  | o :: ops =>
      v <- value object (sem_num o);;
      let val := sm_value v in
      if (sem_op o =? 0) && negb (val =? 0) || (sem_op o <? 0) && (val <? - sem_op o) then
        (if negb (Z.land (sem_flg o) IPC_NOWAIT =? 0) then fail (- EAGAIN) else block (sem_num o) (sem_op o =? 0);; fail MD_IPC_WAIT)
      else
        when (SEMVMX <? val + sem_op o) (- ERANGE);;
        (if negb (Z.land (sem_flg o) SEM_UNDO =? 0) then undo p (sem_num o) (- sem_op o) else ret tt);;
        set_process object (sem_num o) (val + sem_op o) (p_pid p) (p_process p);;
        operate_loop p object ops
  end.
Definition operate (p : md_ipc_pending) (st : semid64_ds) : ipc Z :=
  let object := to_int (p_args p 0) in
  mode <- of_sum (ops_mode (sem_nsems st) 0 (p_ops p));;
  try (md_ipc_perm_access x (s_user_namespace s) (p_identity p) (sem_perm st) mode);;
  operate_loop p object (p_ops p);;
  md_ipc_save object (SemInfo (mk_semid (sem_perm st) (x_now x) (sem_ctime st) (sem_nsems st)));; ret 0.

(** ** semctl *)

Definition touch (st : semid64_ds) : info := SemInfo (mk_semid (sem_perm st) (sem_otime st) (x_now x) (sem_nsems st)).
Fixpoint read_values (object i : Z) (n : nat) : ipc (list Z) :=
  match n with
  | O => ret []
  | S n => v <- value object i;; l <- read_values object (i + 1) n;; ret (Z.land (sm_value v) 65535 :: l)
  end.
Fixpoint write_values (p : md_ipc_pending) (object i : Z) (l : list Z) : ipc unit :=
  match l with
  | [] => ret tt
  | v :: l => set_process object i v (p_pid p) (p_process p);; write_values p object (i + 1) l
  end.
(** [memory]: the allocation succeeds. *)
Definition sem_all (memory : bool) (p : md_ipc_pending) (object command : Z) (st : semid64_ds) : ipc Z :=
  let bytes := sem_nsems st * 2 in
  let array := k_array (p_packet p) <$> seq 0 (Z.to_nat (sem_nsems st)) in
  when (negb memory) (- ENOMEM);;
  if command =? SETALL then
    try (md_ipc_memory p (p_args p 3) bytes);;
    when (existsb (λ v, SEMVMX <? v) array) (- ERANGE);;
    write_values p object 0 array;;
    clear_undo object (-1);; md_ipc_save object (touch st);; ret 0
  else
    l <- read_values object 0 (Z.to_nat (sem_nsems st));;
    try (md_ipc_memory p (p_args p 3) bytes);; emit (OutArray l);; ret 0.
Definition count_waiters (object number : Z) (zero : bool) (d : database) : Z :=
  Z.of_nat (size (filter (λ w, wt_object w.2 = object ∧ wt_n w.2 = number ∧ wt_zero w.2 = zero) (d_waiters d))).
Definition md_ipc_sem (memory : bool) (p : md_ipc_pending) : ipc Z :=
  if p_nr p =? SYS_semget then sem_get p
  else
    let a := p_args p in
    let object := to_int (a 0%nat) in
    let number := to_int (a 1%nat) in
    let command := Z.ldiff (wrap32 (a 2%nat)) IPC_64 in
    st <- (λ t, match load_sem s object t with (t, inr e) => (t, inr (if (e =? - EINVAL) && p_blocked p then - EIDRM else e)) | r => r end);;
    if (p_nr p =? SYS_semop) || (p_nr p =? SYS_semtimedop) then operate p st
    else if (command =? IPC_RMID) || (command =? IPC_SET) then
      try (md_ipc_perm_owner x (s_user_namespace s) (p_identity p) (sem_perm st));;
      if command =? IPC_RMID then md_ipc_remove object
      else
        try (md_ipc_memory p (a 3%nat) SEMID_SIZE);;
        let from := sem_perm (k_sem (p_packet p)) in
        perm <- of_sum (md_ipc_perm_set x (p_identity p) (sem_perm st) (pm_uid from) (pm_gid from) (pm_mode from));;
        md_ipc_save object (SemInfo (mk_semid perm (sem_otime st) (x_now x) (sem_nsems st)));; ret 0
    else
      try (md_ipc_perm_access x (s_user_namespace s) (p_identity p) (sem_perm st) (if (command =? SETVAL) || (command =? SETALL) then 2 else 4));;
      if command =? IPC_STAT then
        try (md_ipc_memory p (a 3%nat) SEMID_SIZE);;
        emit (OutSem (mk_semid (md_ipc_perm_visible x (p_identity p) (sem_perm st)) (sem_otime st) (sem_ctime st) (sem_nsems st)));; ret 0
      else if (command =? GETALL) || (command =? SETALL) then sem_all memory p object command st
      else
        when ((number <? 0) || (sem_nsems st <=? number)) (- EINVAL);;
        if command =? GETVAL then v <- value object number;; ret (sm_value v)
        else if command =? GETPID then
          v <- value object number;;
          let pid := md_ipc_pid_visible x (sm_pids v) (p_process p) (sm_pid v) in
          when (pid <? 0) pid;; ret pid
        else if command =? SETVAL then
          let val := to_int (a 3%nat) in
          when ((val <? 0) || (SEMVMX <? val)) (- ERANGE);;
          set_process object number val (p_pid p) (p_process p);; clear_undo object number;;
          md_ipc_save object (touch st);; ret 0
        else if (command =? GETNCNT) || (command =? GETZCNT) then
          sql;; d <- get_db;; ret (count_waiters object number (command =? GETZCNT) d)
        else fail (- ENOTSUP).
End sem.

(** ** Consistency *)

Lemma wp_value A object number c (Q : sem_row → core → Prop) (E : Z → core → Prop) :
  (∀ a, A a → a ≠ 0 → E a c) → match d_sems (t_db c) !! (object, number) with Some v => Q v c | None => E (- EINVAL) c end → wp A (value object number) c Q E.
Proof. intros He HQ. unfold value. repeat first [apply wp_bind|apply wp_sql; [|done]|apply wp_get_db]. case_match; [by apply wp_ret|by apply wp_fail]. Qed.
Lemma safe_set object number val pid numbers c c0 :
  framed c0 tt c → 0 ≤ val ≤ SEMVMX → safe (set object number val pid numbers) c (framed c0).
Proof. intros [Hok Ho] Hv. unfold set. wp_steps. split; [by apply value_change|done]. Qed.

Section consistent.
Context (s : md_ipc) (x : context).
Lemma safe_undo p number delta c c0 :
  framed c0 tt c → is_Some (d_sems (t_db c) !! (to_int (p_args p 0), number)) → safe (undo s x p number delta) c (λ _ c', framed c0 tt c' ∧ d_sems (t_db c') = d_sems (t_db c)).
Proof.
  intros [Hok Ho] Hv. unfold undo. wp_steps. split; [|done]. split; [|done]. apply orb_false_iff in H as [H1 H2]. apply orb_false_iff in H0 as [H3 H4].
  apply bool_decide_eq_false in H3. apply undo_insert; [done|by apply not_eq_None_Some|by apply (ok_sems _ Hok)|]. cbn. lia.
Qed.
Lemma safe_clear_undo object number c c0 : framed c0 tt c → safe (clear_undo object number) c (framed c0).
Proof. intros [Hok Ho]. unfold clear_undo. wp_steps. split; [by apply undo_filter|done]. Qed.
Lemma safe_operate_loop p ops c c0 : framed c0 tt c → safe (operate_loop s x p (to_int (p_args p 0)) ops) c (framed c0).
Proof.
  revert c. induction ops as [|o ops IH]; intros c Hc; cbn [operate_loop]; [by apply wp_ret|]. apply wp_bind, wp_value; [wp_neg|].
  destruct (d_sems (t_db c) !! _) as [v|] eqn:Ev; [|wp_neg]. pose proof (ok_values _ (proj1 Hc) _ _ Ev) as Hv.
  case_match eqn:Eb; [case_match; wp_steps|]. apply wp_bind, wp_when; [intros Hmax|wp_neg]. apply wp_bind.
  apply (wp_mono _ _ _ (λ _ c', framed c0 tt c')) with (E := negative); [| |done].
  - case_match; [|by apply wp_ret]. eapply wp_mono; [by apply safe_undo|naive_solver|done].
  - intros [] c1 Hc1. apply wp_bind. eapply wp_mono; [apply safe_set; [done|breflect; lia]| |done]. intros [] c' Hc'. by apply IH.
Qed.
Lemma safe_operate p st c : ipc_ok (t_db c) → find_sem s (to_int (p_args p 0)) (t_db c) = Some st → safe (operate s x p st) c kept.
Proof.
  intros Hok Hf. unfold operate. apply wp_bind, wp_of_sum; [intros mode _|intros e Hm].
  - apply wp_bind, wp_try; [intros _|wp_neg]. apply wp_bind. eapply wp_mono; [by apply (safe_operate_loop p _ c c)| |done]. intros [] c' [Hok' Ho].
    apply wp_bind. destruct (find_sem_object _ _ _ _ Hf) as (o & Hob & Hi). eapply wp_mono; [by apply (safe_save_sem _ o st); rewrite ?Ho|by intros; apply wp_ret|done].
  - revert Hm. generalize 0. induction (p_ops p) as [|o ops IH]; intros m; cbn; [done|]. case_match; [by intros [= <-]|apply IH].
Qed.
Lemma safe_undo_loop rows c : ipc_ok (t_db c) → safe (undo_loop x rows) c kept.
Proof.
  revert c. induction rows as [|[k u] rows IH]; intros c Hok; cbn [undo_loop]; [by apply wp_ret|]. apply wp_bind, wp_sql; [|wp_neg]. apply wp_bind, wp_get_db.
  destruct (d_objects (t_db c) !! u_object k) as [o|] eqn:Ho; [|by apply IH]. destruct (ob_info o) as [st|] eqn:Ei; [|by apply wp_fail]. apply wp_bind, wp_when; [intros _|wp_neg].
  apply wp_bind, wp_value; [wp_neg|]. destruct (d_sems _ !! _) as [v|] eqn:Ev; [|wp_neg]. apply wp_bind. eapply wp_mono; [apply (safe_set _ _ _ _ _ c c); [done|]| |done].
  - repeat case_match; unfold SEMVMX in *; breflect; lia.
  - intros [] c' [Hok' Ho']. apply wp_bind. eapply wp_mono; [by apply (safe_save_sem _ o st); rewrite ?Ho'| |done]. intros [] c'' Hc. by apply IH.
Qed.
Lemma safe_undo_apply owner space c : ipc_ok (t_db c) → safe (md_ipc_undo_apply x owner space) c kept.
Proof.
  intros Hok. unfold md_ipc_undo_apply. apply wp_bind, wp_sql; [|wp_neg]. apply wp_bind, wp_get_db, wp_bind. eapply wp_mono; [by apply safe_undo_loop| |done]. intros [] c' Hc. wp_steps. by apply undo_filter.
Qed.
Lemma wp_insert_sems object i n c :
  safe (insert_sems object i n) c (λ _ c', ∃ sems, t_db c' = with_sems sems (t_db c) ∧
    ∀ k, sems !! k = if decide (k.1 = object ∧ i ≤ k.2 < i + Z.of_nat n) then Some (mk_sem 0 0 []) else d_sems (t_db c) !! k).
Proof.
  revert i c. induction n as [|n IH]; intros i c; cbn [insert_sems].
  - apply wp_ret. exists (d_sems (t_db c)). split; [by destruct (t_db c)|]. intros k. rewrite decide_False by lia. done.
  - wp_steps. eapply wp_mono; [apply IH| |done]. intros [] c' (sems & E & Hs). exists sems. split; [done|]. intros [ob j]. rewrite Hs. cbn.
    destruct (decide ((ob, j) = (object, i))) as [[= -> ->]|Hne].
    + rewrite lookup_insert_eq. rewrite (decide_True (P := object = object ∧ i ≤ i < i + Z.of_nat (S n))) by (split; [done|lia]). by case_decide.
    + rewrite lookup_insert_ne by congruence. repeat case_decide; try done; exfalso; destruct (decide (ob = object)) as [->|]; destruct (decide (j = i)) as [->|]; try lia; congruence.
Qed.
Lemma safe_sem_get p c : ipc_ok (t_db c) → safe (sem_get s x p) c kept.
Proof.
  intros Hok. unfold sem_get. wp_steps. unfold md_ipc_get. wp_steps. destruct (negb _).
  - apply wp_bind, wp_load_sem; [by apply ipc_ok_kind|wp_neg|]. destruct (find_sem _ _ _); [|wp_neg]. wp_steps.
  - wp_steps. apply safe_create. intros c' Hf Hc'. wp_steps. eapply wp_mono; [apply wp_insert_sems| |done]. intros [] c'' (sems & E & Hs). apply wp_ret. unfold kept. rewrite E, Hc' in *.
    apply orb_false_iff in H as [? ?]. apply (created_sem s (t_db c)); [done|done|cbn; breflect; lia|]. cbn in *. intros k. rewrite Hs, Z2Nat.id by (breflect; lia). done.
Qed.
Lemma safe_write_values p object i l c c0 : Forall (λ v, 0 ≤ v ≤ SEMVMX) l → framed c0 tt c → safe (write_values x p object i l) c (framed c0).
Proof.
  intros Hl. revert i c. induction Hl as [|v l Hv _ IH]; intros i c Hc; cbn [write_values]; [by apply wp_ret|]. apply wp_bind. eapply wp_mono; [by apply safe_set| |done]. intros [] c' Hc'. by apply IH.
Qed.
Lemma safe_read_values object i n c : safe (read_values object i n) c (λ _ c', c' = c).
Proof.
  revert i. induction n as [|n IH]; intros i; cbn [read_values]; [by apply wp_ret|]. apply wp_bind, wp_value; [wp_neg|]. case_match; [|wp_neg]. apply wp_bind. eapply wp_mono; [apply IH| |done]. intros l c' ->. by apply wp_ret.
Qed.
Lemma safe_save_again id o st st' c c0 :
  framed c0 tt c → d_objects (t_db c0) !! id = Some o → ob_info o = SemInfo st → sem_nsems st' = sem_nsems st → safe (md_ipc_save id (SemInfo st');; ret 0) c kept.
Proof. intros [Hok E] Ho Hi Hn. apply wp_bind. eapply wp_mono; [apply (safe_save_sem id o st); [done|by rewrite E|done|done]|by intros; apply wp_ret|done]. Qed.
Lemma safe_sem_all memory p object command st c :
  (∀ i, 0 ≤ k_array (p_packet p) i) → ipc_ok (t_db c) → find_sem s object (t_db c) = Some st → safe (sem_all x memory p object command st) c kept.
Proof.
  intros Ha Hok Hf. destruct (find_sem_object _ _ _ _ Hf) as (o & Ho & Hi). unfold sem_all. wp_steps. destruct (command =? SETALL).
  - wp_steps. eapply wp_mono; [apply (safe_write_values _ _ _ _ c c); [|done]| |done].
    + apply Forall_forall. intros v Hv. split; [by apply list_elem_of_fmap in Hv as (i & -> & _)|]. destruct (Z.ltb_spec SEMVMX v) as [Hlt|]; [|done]. exfalso.
      assert (existsb (λ v, SEMVMX <? v) (k_array (p_packet p) <$> seq 0 (Z.to_nat (sem_nsems st))) = true) as E; [|congruence]. apply existsb_exists. exists v. split; [by apply list_elem_of_In|by apply Z.ltb_lt].
    + intros [] c' Hc'. apply wp_bind. eapply wp_mono; [by apply safe_clear_undo| |done]. intros [] c2 Hc2. by apply (safe_save_again _ o st _ _ c).
  - apply wp_bind. eapply wp_mono; [apply safe_read_values| |done]. intros l c' ->. wp_steps.
Qed.
(** Every call on semaphores leaves the tables consistent, or fails. *)
Lemma safe_sem memory p c : (∀ i, 0 ≤ k_array (p_packet p) i) → ipc_ok (t_db c) → safe (md_ipc_sem s x memory p) c kept.
Proof.
  intros Ha Hok. unfold md_ipc_sem. destruct (p_nr p =? SYS_semget); [by apply safe_sem_get|]. apply wp_bind, wp_blocked, wp_load_sem; [by apply ipc_ok_kind|intros a ? ?; unfold negative, errno in *; case_match; [done|lia]|].
  destruct (find_sem _ _ _) as [st|] eqn:Hf; [|unfold negative; case_match; done]. destruct (find_sem_object _ _ _ _ Hf) as (o & Ho & Hi).
  destruct (_ || _); [by apply safe_operate|]. set (command := Z.ldiff _ _). destruct ((command =? IPC_RMID) || _).
  { wp_steps. destruct (command =? IPC_RMID).
    - unfold md_ipc_remove. wp_steps. by apply objects_deleted.
    - wp_steps. unfold md_ipc_save. wp_steps. apply (info_change _ _ o); [done|done|]. by rewrite Hi. }
  wp_steps. destruct (command =? IPC_STAT); [by wp_steps|]. destruct ((command =? GETALL) || _); [by apply safe_sem_all|]. wp_steps.
  destruct (command =? GETVAL); [apply wp_bind, wp_value; [wp_neg|]; destruct (d_sems _ !! _); [by apply wp_ret|wp_neg]|].
  destruct (command =? GETPID); [apply wp_bind, wp_value; [wp_neg|]; destruct (d_sems _ !! _); [|wp_neg]; wp_steps; unfold negative; breflect; lia|].
  destruct (command =? SETVAL); [|destruct ((command =? GETNCNT) || _); by wp_steps]. wp_steps. eapply wp_mono; [apply (safe_set _ _ _ _ _ c c); [done|breflect; lia]| |done].
  intros [] c' Hc'. apply wp_bind. eapply wp_mono; [by apply safe_clear_undo| |done]. intros [] c2 Hc2. by apply (safe_save_again _ o st _ _ c).
Qed.
End consistent.
