(* ===== verification/SysvMsg.v ===== *)
(** * Message queues (sysv_msg.c) *)
From stdpp Require Import sorting.
From S2P Require Import Prelude UserNamespace GuestIdentity PidNamespace ProcessLimits Syscalls SysvIpc SysvOk SysvSem.

Definition MSG_NOERROR : Z := 0x1000.
Definition MSG_EXCEPT : Z := 0x2000.
Definition MSG_COPY : Z := 0x4000.
Definition MD_MSGMAX : Z := 8192.
Definition MD_MSGMNB : Z := 16384.
(** The conversion of a register to a [long]. *)
Definition to_long (a : Z) : Z := let v := wrap64 a in if v <=? INT64_MAX then v else v - 18446744073709551616.

Section msg.
Context (s : md_ipc) (x : context).

Definition set_process_info (sending : bool) (i : info) (numbers : pids) (o : object) : object :=
  mk_object (ob_kind o) (ob_key o) i (ob_namespace o) (if sending then numbers else ob_send o) (if sending then ob_receive o else numbers).
Definition save_process (p : md_ipc_pending) (st : msqid64_ds) (sending : bool) : ipc unit :=
  sql;; modify (λ d, with_objects (alter (set_process_info sending (MsgInfo st) (md_ipc_pid_bind x (p_process p))) (to_int (p_args p 0)) (d_objects d)) d);; set_changed.
Definition visible_processes (p : md_ipc_pending) (st : msqid64_ds) : ipc msqid64_ds :=
  sql;; d <- get_db;;
  match d_objects d !! to_int (p_args p 0) with
  | None => fail (- EIO)
  | Some o =>
      let sent := md_ipc_pid_visible x (ob_send o) (p_process p) (msg_lspid st) in
      let received := md_ipc_pid_visible x (ob_receive o) (p_process p) (msg_lrpid st) in
      when ((sent <? 0) || (received <? 0)) (if sent <? 0 then sent else received);;
      ret (mk_msqid (msg_perm st) (msg_stime st) (msg_rtime st) (msg_ctime st) (msg_cbytes st) (msg_qnum st) (msg_qbytes st) sent received)
  end.

Definition msg_get (p : md_ipc_pending) : ipc Z :=
  let key := to_int (p_args p 0) in
  let flags := to_int (p_args p 1) in
  object <- md_ipc_get s MD_IPC_MSG key flags;;
  if negb (object =? 0) then
    st <- load_msg s object;;
    try (md_ipc_perm_access x (s_user_namespace s) (p_identity p) (msg_perm st) (flags_mode flags));;
    ret object
  else md_ipc_create s MD_IPC_MSG key (MsgInfo (mk_msqid (new_perm p key flags) 0 0 (x_now x) 0 0 MD_MSGMNB 0 0)).

Definition full (p : md_ipc_pending) (st : msqid64_ds) : bool :=
  (msg_qbytes st <? p_size p) || (msg_qbytes st - p_size p <? msg_cbytes st) || (msg_qbytes st <=? msg_qnum st).
(** The table of messages refers to objects. *)
Definition insert_message (m : message) : ipc unit :=
  sql;; d <- get_db;;
  when (bool_decide (d_objects d !! mg_object m = None)) (- EIO);;
  put_db (with_messages (<[d_sequence d + 1 := m]> (d_messages d)) (d_sequence d + 1) d).
Definition send (p : md_ipc_pending) (st : msqid64_ds) : ipc Z :=
  try (md_ipc_perm_access x (s_user_namespace s) (p_identity p) (msg_perm st) 2);;
  when (full p st) (if negb (Z.land (p_args p 3) IPC_NOWAIT =? 0) then - EAGAIN else MD_IPC_WAIT);;
  insert_message (mk_message (to_int (p_args p 0)) (p_type p) (p_text p));;
  save_process p (mk_msqid (msg_perm st) (x_now x) (msg_rtime st) (msg_ctime st) (msg_cbytes st + p_size p) (msg_qnum st + 1) (msg_qbytes st) (p_pid p) (msg_lrpid st)) true;;
  ret 0.

(** The order of a query: by type and then by sequence, or by sequence alone. *)
Definition message_leb (by_type : bool) (a b : Z * message) : bool :=
  if by_type then (mg_type a.2 <? mg_type b.2) || (mg_type a.2 =? mg_type b.2) && (a.1 <=? b.1) else a.1 <=? b.1.
Definition message_le (by_type : bool) (a b : Z * message) : Prop := Is_true (message_leb by_type a b).
#[global] Instance message_le_dec by_type : RelDecision (message_le by_type) := λ a b, _.
Definition wanted (type flags bound : Z) (m : message) : bool :=
  if type =? 0 then true
  else if type <? 0 then mg_type m <=? bound
  else if negb (Z.land flags MSG_EXCEPT =? 0) then negb (mg_type m =? bound)
  else mg_type m =? bound.
Definition message_bound (type : Z) : Z := if type =? - INT64_MAX - 1 then INT64_MAX else if type <? 0 then - type else type.
Definition next_message (object type flags : Z) (d : database) : option (Z * message) :=
  head (merge_sort (message_le (type <? 0)) (filter (λ m, mg_object m.2 = object ∧ wanted type flags (message_bound type) m.2 = true) (map_to_list (d_messages d)))).
Definition receive (p : md_ipc_pending) (st : msqid64_ds) : ipc Z :=
  let a := p_args p in
  let flag f := negb (Z.land (a 4%nat) f =? 0) in
  try (md_ipc_perm_access x (s_user_namespace s) (p_identity p) (msg_perm st) 4);;
  when (flag MSG_COPY) (- ENOTSUP);;
  sql;; d <- get_db;;
  match next_message (to_int (a 0%nat)) (to_long (a 3%nat)) (a 4%nat) d with
  | None => fail (if flag IPC_NOWAIT then - ENOMSG else MD_IPC_WAIT)
  | Some (sequence, m) =>
      let size := Z.of_nat (length (mg_data m)) in
      let copied := if a 2%nat <? size then a 2%nat else size in
      when ((a 2%nat <? size) && negb (flag MSG_NOERROR)) (- E2BIG);;
      try (md_ipc_memory p (a 1%nat) 8);; emit (OutType (mg_type m));;
      when (UINT64_MAX - 8 <? a 1%nat) (- EFAULT);;
      try (md_ipc_memory p (a 1%nat + 8) copied);; emit (OutData (take (Z.to_nat copied) (mg_data m)));;
      sql;; modify (λ d, with_messages (delete sequence (d_messages d)) (d_sequence d) d);;
      save_process p (mk_msqid (msg_perm st) (msg_stime st) (x_now x) (msg_ctime st) (msg_cbytes st - size) (msg_qnum st - 1) (msg_qbytes st) (msg_lspid st) (p_pid p)) false;;
      ret copied
  end.

Definition md_ipc_msg (p : md_ipc_pending) : ipc Z :=
  if p_nr p =? SYS_msgget then msg_get p
  else
    let a := p_args p in
    let object := to_int (a 0%nat) in
    st <- (λ t, match load_msg s object t with (t, inr e) => (t, inr (if (e =? - EINVAL) && p_blocked p then - EIDRM else e)) | r => r end);;
    if p_nr p =? SYS_msgsnd then send p st
    else if p_nr p =? SYS_msgrcv then receive p st
    else
      let command := Z.ldiff (wrap32 (a 1%nat)) IPC_64 in
      if command =? IPC_STAT then
        try (md_ipc_perm_access x (s_user_namespace s) (p_identity p) (msg_perm st) 4);;
        st <- visible_processes p st;;
        try (md_ipc_memory p (a 2%nat) MSQID_SIZE);;
        emit (OutMsg (mk_msqid (md_ipc_perm_visible x (p_identity p) (msg_perm st)) (msg_stime st) (msg_rtime st) (msg_ctime st) (msg_cbytes st) (msg_qnum st) (msg_qbytes st) (msg_lspid st) (msg_lrpid st)));;
        ret 0
      else
        when (negb (command =? IPC_SET) && negb (command =? IPC_RMID)) (- ENOTSUP);;
        try (md_ipc_perm_owner x (s_user_namespace s) (p_identity p) (msg_perm st));;
        if command =? IPC_RMID then md_ipc_remove object
        else
          try (md_ipc_memory p (a 2%nat) MSQID_SIZE);;
          let from := k_msg (p_packet p) in
          when ((MD_MSGMNB <? msg_qbytes from) && negb (md_identity_capable_in (x_cred x) (p_identity p) (s_user_namespace s) CAP_SYS_RESOURCE)) (- EPERM);;
          when (1048576 <? msg_qbytes from) (- ERANGE);;
          perm <- of_sum (md_ipc_perm_set x (p_identity p) (msg_perm st) (pm_uid (msg_perm from)) (pm_gid (msg_perm from)) (pm_mode (msg_perm from)));;
          md_ipc_save object (MsgInfo (mk_msqid perm (msg_stime st) (msg_rtime st) (x_now x) (msg_cbytes st) (msg_qnum st) (msg_qbytes from) (msg_lspid st) (msg_lrpid st)));;
          ret 0.
End msg.

(** ** Consistency *)

Lemma next_message_in object type flags d q m :
  next_message object type flags d = Some (q, m) → d_messages d !! q = Some m ∧ mg_object m = object ∧ wanted type flags (message_bound type) m = true.
Proof.
  unfold next_message. intros H%head_Some_elem_of. rewrite merge_sort_Permutation in H. apply list_elem_of_filter in H as [[? ?] Hm]. by apply elem_of_map_to_list in Hm.
Qed.
Section consistent.
Context (s : md_ipc) (x : context).
Lemma safe_msg_get p c : ipc_ok (t_db c) → safe (msg_get s x p) c kept.
Proof.
  intros Hok. unfold msg_get, md_ipc_get. wp_steps. destruct (negb _).
  - apply wp_bind, wp_load_msg; [by apply ipc_ok_kind|wp_neg|]. destruct (find_msg _ _ _); [|wp_neg]. wp_steps.
  - apply safe_create. intros c' Hf Hc'. unfold kept. rewrite Hc'. by apply created_msg.
Qed.
Lemma safe_send p st c : Z.of_nat (length (p_text p)) = p_size p → ipc_ok (t_db c) → find_msg s (to_int (p_args p 0)) (t_db c) = Some st → safe (send s x p st) c kept.
Proof.
  intros Hl Hok Hf. destruct (find_msg_object _ _ _ _ Hf) as (o & Ho & Hi). unfold send, insert_message, save_process. wp_steps; [|case_match; wp_neg].
  unfold kept. cbn [t_db d_objects with_messages with_objects]. rewrite (alter_found _ _ _ o) by done. eapply (message_sent _ _ o st); try done. cbn. lia.
Qed.
Lemma safe_receive p st c : ipc_ok (t_db c) → find_msg s (to_int (p_args p 0)) (t_db c) = Some st → safe (receive s x p st) c kept.
Proof.
  intros Hok Hf. destruct (find_msg_object _ _ _ _ Hf) as (o & Ho & Hi). unfold receive, save_process. wp_steps. destruct (next_message _ _ _ _) as [[q m]|] eqn:En; [|wp_steps; case_match; wp_neg].
  apply next_message_in in En as (Hq & Hm & _). wp_steps. unfold kept. cbn [t_db d_objects with_messages with_objects]. rewrite (alter_found _ _ _ o) by done. by eapply (message_received _ _ o st q m).
Qed.
(** Every call on queues leaves the tables consistent, or fails. *)
Lemma safe_msg p c : (p_nr p = SYS_msgsnd → Z.of_nat (length (p_text p)) = p_size p) → ipc_ok (t_db c) → safe (md_ipc_msg s x p) c kept.
Proof.
  intros Hl Hok. unfold md_ipc_msg. destruct (p_nr p =? SYS_msgget); [by apply safe_msg_get|]. apply wp_bind, wp_blocked, wp_load_msg; [by apply ipc_ok_kind|intros a ? ?; unfold negative, errno in *; case_match; [done|lia]|].
  destruct (find_msg _ _ _) as [st|] eqn:Hf; [|unfold negative; case_match; done]. destruct (find_msg_object _ _ _ _ Hf) as (o & Ho & Hi).
  destruct (Z.eqb_spec (p_nr p) SYS_msgsnd); [apply safe_send; auto|]. destruct (p_nr p =? SYS_msgrcv); [by apply safe_receive|]. set (command := Z.ldiff _ _). destruct (command =? IPC_STAT).
  { unfold visible_processes. wp_steps. rewrite Ho. wp_steps. unfold negative. breflect. case_match; breflect; lia. }
  wp_steps. destruct (command =? IPC_RMID); [unfold md_ipc_remove; wp_steps; by apply objects_deleted|].
  wp_steps. unfold md_ipc_save. wp_steps. apply (info_change _ _ o); [done|done|]. by rewrite Hi.
Qed.
End consistent.
