(* ===== verification/SysvCall.v ===== *)
(** * System V calls, their transactions and their waits (sysv_ipc.c, ipc_database.c)

    A call is a loop of attempts.  An attempt is one transaction under the lock of the database; between
    attempts other processes change it. *)
From stdpp Require Import sorting.
From S2P Require Import Prelude UserNamespace GuestIdentity PidNamespace CLib Syscalls SysvIpc SysvOk SysvSem SysvMsg.

(** What the system answers in one transaction: the lock, the statements, the leases of the other
    owners (1 for a dead one, 0 for a live one, an error), the allocation of semctl, the clock at the
    deadline, the wake-up of the waiters. *)
Record answers := mk_answers {
  e_context : context; e_lock : Z; e_sql : list Z; e_lease : Z → Z; e_memory : bool; e_clock : Z; e_signal : bool }.

Section call.
Context (s : md_ipc).

(** ** Owners *)

Definition orphaned (d : database) (o : object) : bool := negb (ob_namespace o =? 0) && negb (bool_decide (ob_namespace o ∈ (map_to_list (d_owners d)).*2)).
Definition delete_orphans (d : database) : database :=
  delete_objects (λ id, match d_objects d !! id with Some o => orphaned d o | None => false end) d.
Definition remove_owner (x : context) (owner : Z) : ipc unit :=
  md_ipc_undo_apply x owner 0;; sql;; modify (delete_owner owner);; sql;; modify delete_orphans.
Fixpoint reap_loop (x : context) (lease : Z → Z) (owners : list Z) : ipc unit :=
  match owners with
  | [] => ret tt
  | owner :: owners =>
      sql;;
      (if owner =? s_owner s then ret tt
       else when (lease owner <? 0) (lease owner);; if lease owner =? 0 then ret tt else remove_owner x owner);;
      reap_loop x lease owners
  end.
Definition reap (x : context) (lease : Z → Z) : ipc unit :=
  sql;; d <- get_db;; reap_loop x lease (qsort_Z (map_to_list (d_owners d)).*1).

(** ** Transactions *)

Definition session_start (e : answers) (p : Z * bool) (d : database) : session := mk_session (mk_core d false [] p) (e_sql e).
(** BEGIN, and the recovery of dead owners. *)
Definition md_ipc_begin (e : answers) : ipc unit := try (e_lock e);; sql;; reap (e_context e) (e_lease e).
(** COMMIT or ROLLBACK to [d0], and the wake-up.  The error, and the tables. *)
Definition md_ipc_finish (e : answers) (d0 : database) (t : session) (error : Z) : database * Z :=
  let '(t, error) := if error =? 0 then (match sql t with (t, inl _) => (t, 0) | (t, inr e) => (t, e) end) else (t, error) in
  if error =? 0 then (t_db (t_core t), if t_changed (t_core t) && negb (e_signal e) then - EIO else 0) else (d0, error).

Definition unregister (p : md_ipc_pending) : ipc unit :=
  if negb (p_registered p) then ret tt else sql;; modify (λ d, with_waiters (delete (s_owner s, p_tid p) (d_waiters d)) d).
Definition register_wait (p : md_ipc_pending) (number : Z) (zero : bool) : ipc unit :=
  if number <? 0 then ret tt
  else
    sql;; d <- get_db;;
    let key := (s_owner s, p_tid p) in
    match d_waiters d !! key with
    | Some w => put_db (with_waiters (<[key := mk_waiter (wt_object w) number zero]> (d_waiters d)) d)
    | None =>
        when (bool_decide (d_owners d !! s_owner s = None) || bool_decide (d_objects d !! to_int (p_args p 0) = None)) (- EIO);;
        put_db (with_waiters (<[key := mk_waiter (to_int (p_args p 0)) number zero]> (d_waiters d)) d)
    end.

(** ** One attempt *)

Definition is_sem (nr : Z) : bool := (nr =? SYS_semget) || (nr =? SYS_semctl) || (nr =? SYS_semop) || (nr =? SYS_semtimedop).
Definition operation (e : answers) (p : md_ipc_pending) : ipc Z :=
  if is_sem (p_nr p) then md_ipc_sem s (e_context e) (e_memory e) p else md_ipc_msg s (e_context e) p.
Definition code {A} (r : A + Z) : Z := match r with inl _ => 0 | inr e => e end.
Definition result_code (r : Z + Z) : Z := match r with inl v => v | inr e => e end.
(** ROLLBACK TO: the tables, and the mark of a change. *)
Definition rolled_back (before after : core) : core := mk_core (t_db before) (t_changed before) (t_output after) (t_block after).
(** The operation, where SAVEPOINT succeeded. *)
Definition run_operation (e : answers) (p : md_ipc_pending) (r : unit + Z) (t : session) : session * Z :=
  match r with inl _ => let '(t, x) := operation e p t in (t, result_code x) | inr e => (t, e) end.
(** ROLLBACK TO after a negative result; without a savepoint it fails. *)
Definition roll_back (before : core) (r : Z) (t : session) (result : Z) : session * Z :=
  if result <? 0 then
    match sql t with
    | (t, inl _) => if r =? 0 then (mk_session (rolled_back before (t_core t)) (t_answers t), 0) else (t, - EIO)
    | (t, inr e) => (t, e)
    end
  else (t, r).
(** SAVEPOINT, the operation, RELEASE: the session, the error of the statements, the result. *)
Definition savepoint (e : answers) (p : md_ipc_pending) (t : session) : session * Z * Z :=
  let '(t1, r) := sql t in
  let '(t2, result) := run_operation e p r t1 in
  let '(t3, r) := roll_back (t_core t1) (code r) t2 result in
  if r =? 0 then let '(t4, r) := sql t3 in (t4, code r, result) else (t3, r, result).
Definition after_deadline (e : answers) (p : md_ipc_pending) (result : Z) : Z :=
  if (result =? MD_IPC_WAIT) && negb (p_deadline p =? INT64_MAX)
  then (if e_clock e <? 0 then e_clock e else if p_deadline p <=? e_clock e then - EAGAIN else result) else result.
Record attempted := mk_attempted { at_db : database; at_pending : md_ipc_pending; at_result : Z; at_error : Z; at_output : list output }.
Definition set_wait (registered : bool) (b : Z * bool) (p : md_ipc_pending) : md_ipc_pending :=
  mk_pending (p_nr p) (p_args p) (p_identity p) (p_packet p) (p_tid p) (p_pid p) (p_process p) (p_undo p)
    (p_watcher p) registered b.1 b.2 (p_blocked p) (p_deadline p) (p_ops p) (p_type p) (p_text p) (p_size p).
Definition attempt (e : answers) (p : md_ipc_pending) (d : database) : attempted :=
  match md_ipc_begin e (session_start e (p_number p, p_zero p) d) with
  | (_, inr error) => mk_attempted d p error error []
  | (t, inl _) =>
      let '(t, r, result) := savepoint e p t in
      let result := after_deadline e p result in
      let wait := result =? MD_IPC_WAIT in
      let '(t, r2) := if r =? 0 then (let '(t, x) := if wait then register_wait p (t_block (t_core t)).1 (t_block (t_core t)).2 t else unregister p t in (t, code x)) else (t, r) in
      let registered := if r2 =? 0 then (if wait then negb ((t_block (t_core t)).1 <? 0) || p_registered p else false) else p_registered p in
      let '(d', error) := md_ipc_finish e d t r2 in
      mk_attempted d' (set_wait registered (t_block (t_core t)) p) (if error =? 0 then result else error) error (t_output (t_core t))
  end.

(** ** The call *)

Definition md_ipc_cancel (e : answers) (p : md_ipc_pending) (d : database) : database * Z :=
  if p_registered p then
    match md_ipc_begin e (session_start e (p_number p, p_zero p) d) with
    | (_, inr error) => (d, error)
    | (t, inl _) => let '(t, r) := unregister p t in md_ipc_finish e d t (code r)
    end
  else (d, 0).
(** The answers of a call: two attempts at most, what other processes do between them and before the end,
    the inotify watcher and its queue. *)
Record call_answers := mk_call {
  ce_first : answers; ce_second : answers; ce_cancel : answers; ce_between : database → database; ce_before_cancel : database → database;
  ce_watch : Z; ce_drain : Z }.
Definition set_watch (p : md_ipc_pending) : md_ipc_pending :=
  mk_pending (p_nr p) (p_args p) (p_identity p) (p_packet p) (p_tid p) (p_pid p) (p_process p) (p_undo p)
    true (p_registered p) (p_number p) (p_zero p) true (p_deadline p) (p_ops p) (p_type p) (p_text p) (p_size p).
Definition set_blocked (p : md_ipc_pending) : md_ipc_pending :=
  mk_pending (p_nr p) (p_args p) (p_identity p) (p_packet p) (p_tid p) (p_pid p) (p_process p) (p_undo p)
    (p_watcher p) (p_registered p) (p_number p) (p_zero p) true (p_deadline p) (p_ops p) (p_type p) (p_text p) (p_size p).
(** The end of a call that does not wait. *)
Definition finish_call (c : call_answers) (p : md_ipc_pending) (d : database) (result : Z) : database * option md_ipc_pending * Z :=
  let '(d, cleanup) := md_ipc_cancel (ce_cancel c) p (ce_before_cancel c d) in (d, None, if cleanup =? 0 then result else cleanup).
Definition call_loop (c : call_answers) (p : md_ipc_pending) (d : database) : database * option md_ipc_pending * Z :=
  if p_watcher p && negb (ce_drain c =? 0) then finish_call c p d (ce_drain c)
  else
    let a := attempt (ce_first c) p d in
    if negb (at_error a =? 0) || negb (at_result a =? MD_IPC_WAIT) then finish_call c (at_pending a) (at_db a) (at_result a)
    else if p_watcher p then (at_db a, Some (set_blocked (at_pending a)), MD_IPC_WAIT)
    else if negb (ce_watch c =? 0) then finish_call c (set_blocked (at_pending a)) (at_db a) (ce_watch c)
    else
      (* The watcher is in place: the second attempt. *)
      let p := set_watch (at_pending a) in
      let d := ce_between c (at_db a) in
      if negb (ce_drain c =? 0) then finish_call c p d (ce_drain c)
      else
        let a := attempt (ce_second c) p d in
        if negb (at_error a =? 0) || negb (at_result a =? MD_IPC_WAIT) then finish_call c (at_pending a) (at_db a) (at_result a)
        else (at_db a, Some (set_blocked (at_pending a)), MD_IPC_WAIT).

(** ** Reading the arguments *)

Definition SSIZE_MAX : Z := INT64_MAX.
Definition prepare (memory : bool) (clock : Z) (p : md_ipc_pending) : md_ipc_pending + Z :=
  let a := p_args p in
  let k := p_packet p in
  let base deadline ops type text size :=
    mk_pending (p_nr p) (p_args p) (p_identity p) (p_packet p) (p_tid p) (p_pid p) (p_process p) (p_undo p)
      (p_watcher p) (p_registered p) (-1) (p_zero p) (p_blocked p) deadline ops type text size in
  if (p_nr p =? SYS_semop) || (p_nr p =? SYS_semtimedop) then
    if a 2%nat =? 0 then inr (- EINVAL)
    else if SEMOPM <? a 2%nat then inr (- E2BIG)
    else if negb memory then inr (- ENOMEM)
    else if negb (md_ipc_memory p (a 1%nat) (a 2%nat * 6) =? 0) then inr (- EFAULT)
    else
      let ops := k_ops k <$> seq 0 (Z.to_nat (a 2%nat)) in
      let size := a 2%nat * 6 in
      if (p_nr p =? SYS_semtimedop) && negb (a 3%nat =? 0) then
        if negb (md_ipc_memory p (a 3%nat) 16 =? 0) then inr (- EFAULT)
        else
          let '(sec, nsec) := k_time k in
          if (sec <? 0) || (nsec <? 0) || (1000000000 <=? nsec) then inr (- EINVAL)
          else if clock <? 0 then inr clock
          else inl (base (if sec <=? (INT64_MAX - clock - nsec) / 1000000000 then clock + sec * 1000000000 + nsec else INT64_MAX) ops 0 [] size)
      else inl (base INT64_MAX ops 0 [] size)
  else if p_nr p =? SYS_msgsnd then
    if MD_MSGMAX <? a 2%nat then inr (- EINVAL)
    else if negb memory then inr (- ENOMEM)
    else if negb (md_ipc_memory p (a 1%nat) (a 2%nat + 8) =? 0) then inr (- EFAULT)
    else if k_type k <=? 0 then inr (- EINVAL)
    else inl (base INT64_MAX [] (k_type k) (k_text k <$> seq 0 (Z.to_nat (a 2%nat))) (a 2%nat))
  else if (p_nr p =? SYS_msgrcv) && (SSIZE_MAX <? a 2%nat) then inr (- EINVAL)
  else inl (base INT64_MAX [] 0 [] 0).
(** A first call: [p] holds the request and the caller.  Preparation fails without a transaction. *)
Definition md_ipc_call_new (memory : bool) (clock : Z) (c : call_answers) (p : md_ipc_pending) (d : database) : database * option md_ipc_pending * Z :=
  match prepare memory clock p with
  | inr e => (d, None, e)
  | inl p => call_loop c p d
  end.
Definition md_ipc_call_again (c : call_answers) (p : md_ipc_pending) (k : packet) (d : database) : database * option md_ipc_pending * Z :=
  call_loop c (mk_pending (p_nr p) (p_args p) (p_identity p) k (p_tid p) (p_pid p) (p_process p) (p_undo p)
    (p_watcher p) (p_registered p) (p_number p) (p_zero p) (p_blocked p) (p_deadline p) (p_ops p) (p_type p) (p_text p) (p_size p)) d.

(** ** Exit of a process, and of a supervisor *)

Definition md_ipc_undo_release (e : answers) (references : Z) (used : bool) (space : Z) (d : database) : database * Z :=
  if negb (references - 1 =? 0) || negb used then (d, 0)
  else match md_ipc_begin e (session_start e (-1, false) d) with
  | (_, inr error) => (d, error)
  | (t, inl _) => let '(t, r) := md_ipc_undo_apply (e_context e) (s_owner s) space t in md_ipc_finish e d t (code r)
  end.
Definition md_ipc_close (e : answers) (d : database) : database :=
  match md_ipc_begin e (session_start e (-1, false) d) with
  | (_, inr _) => d
  | (t, inl _) => let '(t, r) := remove_owner (e_context e) (s_owner s) t in fst (md_ipc_finish e d t (code r))
  end.
(** [boot]: the tables are from an earlier boot. *)
Definition md_ipc_open (e : answers) (boot : bool) (d : database) : database * Z :=
  let m :=
    try (e_lock e);; sql;;
    (if boot then sql;; modify (λ d, delete_objects (λ _, true) (mk_database (d_objects d) (d_last d) (d_sems d) (d_messages d) (d_sequence d) ∅ ∅ ∅)) else ret tt);;
    reap (e_context e) (e_lease e);;
    sql;; d <- get_db;;
    when (bool_decide (is_Some (d_owners d !! s_owner s))) (- EEXIST);;
    put_db (mk_database (d_objects d) (d_last d) (d_sems d) (d_messages d) (d_sequence d) (<[s_owner s := s_namespace s]> (d_owners d)) (d_undo d) (d_waiters d));;
    sql in
  match m (session_start e (-1, false) d) with
  | (t, inl _) => (t_db (t_core t), 0)
  | (_, inr e) => (d, e)
  end.
End call.

(** ** Consistency *)

Section consistent.
Context (s : md_ipc).
(** An errno is what the system answers with; the request is one that [prepare] accepts. *)
Definition answers_ok (e : answers) : Prop := Forall errno (e_sql e) ∧ e_lock e ≤ 0.
Definition pending_ok (p : md_ipc_pending) : Prop := (∀ i, 0 ≤ k_array (p_packet p) i) ∧ (p_nr p = SYS_msgsnd → Z.of_nat (length (p_text p)) = p_size p).

Lemma safe_remove_owner x owner c : ipc_ok (t_db c) → safe (remove_owner x owner) c kept.
Proof. intros Hok. unfold remove_owner. apply wp_bind. eapply wp_mono; [by apply safe_undo_apply| |done]. intros [] c' Hc. wp_steps. by apply objects_deleted, owner_row_deleted. Qed.
Lemma safe_reap_loop x lease owners c : ipc_ok (t_db c) → safe (reap_loop s x lease owners) c kept.
Proof.
  revert c. induction owners as [|owner owners IH]; intros c Hc; cbn [reap_loop]; [by apply wp_ret|]. apply wp_bind, wp_sql; [|wp_neg]. apply wp_bind. apply (wp_mono _ _ _ kept) with (E := negative); [|by intros [] c' Hc'; apply IH|done].
  case_match; [by apply wp_ret|]. wp_steps. case_match; [by apply wp_ret|by apply safe_remove_owner].
Qed.
Lemma safe_begin e c : answers_ok e → ipc_ok (t_db c) → safe (md_ipc_begin s e) c kept.
Proof. intros [_ He] Hok. unfold md_ipc_begin, reap. wp_steps. by apply safe_reap_loop. Qed.
(** Only the table of waiters changes. *)
Definition waited {B} (c : core) (_ : B) (c' : core) : Prop := ipc_ok (t_db c') ∧ ∃ w, t_db c' = with_waiters w (t_db c).
Lemma with_waiters_id d : with_waiters (d_waiters d) d = d.
Proof. by destruct d. Qed.
Lemma waited_same {B} c (v : B) : ipc_ok (t_db c) → waited c v c.
Proof. intros Hok. split; [done|]. exists (d_waiters (t_db c)). by rewrite with_waiters_id. Qed.
Lemma safe_unregister p c : ipc_ok (t_db c) → safe (unregister s p) c (waited c).
Proof. intros Hok. unfold unregister. case_match; [by apply wp_ret, waited_same|]. wp_steps. split; [by apply waiters_delete|by eexists]. Qed.
Lemma safe_register_wait p number zero c : ipc_ok (t_db c) → safe (register_wait s p number zero) c (waited c).
Proof.
  intros Hok. unfold register_wait. case_match; [by apply wp_ret, waited_same|]. wp_steps. destruct (d_waiters _ !! _) as [w|] eqn:Ew.
  - wp_steps. destruct (ok_waiters _ Hok _ _ Ew). split; [by apply waiters_insert|by eexists].
  - wp_steps. apply orb_false_iff in H0 as [H1%bool_decide_eq_false H2%bool_decide_eq_false]. split; [|by eexists]. apply waiters_insert; [done|by apply not_eq_None_Some|by apply not_eq_None_Some].
Qed.
Lemma safe_operation e p c : pending_ok p → ipc_ok (t_db c) → safe (operation s e p) c kept.
Proof. intros [Ha Hl] Hok. unfold operation. case_match; [by apply safe_sem|by apply safe_msg]. Qed.

Lemma sql_run t t' r : sql t = (t', r) → Forall errno (t_answers t) → t_core t' = t_core t ∧ Forall errno (t_answers t') ∧ (code r < 0 ∨ r = inl tt).
Proof.
  unfold sql. destruct (t_answers t) as [|a l] eqn:E; intros [= <- <-] Hl; [split_and!; [done|by rewrite E|by right]|]. apply Forall_cons in Hl as [Ha Hl]. split_and!; [done|done|]. unfold errno in Ha. destruct (Z.eqb_spec a 0); [by right|left; cbn; lia].
Qed.
Lemma operation_run e p r t t' result :
  run_operation s e p r t = (t', result) → pending_ok p → ipc_ok (t_db (t_core t)) → Forall errno (t_answers t) → (code r < 0 ∨ r = inl tt) →
  Forall errno (t_answers t') ∧ (0 ≤ result → r = inl tt ∧ ipc_ok (t_db (t_core t'))).
Proof.
  unfold run_operation. intros H Hp Hok Hl Hr. destruct r as [[]|e1]; [|injection H as <- <-; destruct Hr as [Hr|]; [cbn in Hr; split; [done|lia]|done]]. destruct (operation s e p t) as [t2 x] eqn:Eo. injection H as <- <-.
  destruct (wp_run errno (operation s e p) t t2 x kept negative) as [? Hx]; [by apply safe_operation|done|done|]. split; [done|]. intros Hr'. split; [done|]. destruct x; [done|]. cbn in *. unfold negative in Hx. lia.
Qed.
Lemma roll_back_run before r t result t' r' :
  roll_back before r t result = (t', r') → Forall errno (t_answers t) → r ≤ 0 →
  Forall errno (t_answers t') ∧ r' ≤ 0 ∧ (result < 0 → r' = 0 → t_db (t_core t') = t_db before ∧ t_changed (t_core t') = t_changed before) ∧ (0 ≤ result → r' = r ∧ t' = t).
Proof.
  unfold roll_back. intros H Hl Hr. destruct (Z.ltb_spec result 0); [|injection H as <- <-; split_and!; [done|done|lia|done]].
  destruct (sql t) as [t3 r3] eqn:Es. destruct (sql_run _ _ _ Es Hl) as (C3 & L3 & N3). destruct r3 as [[]|e3]; [|injection H as <- <-; destruct N3 as [N3|]; [cbn in N3|done]; split_and!; [done|lia|lia|lia]].
  destruct (r =? 0); injection H as <- <-; split_and!; try done; lia.
Qed.
(** A negative result leaves the tables as they were. *)
Lemma savepoint_run e p t t' r result :
  savepoint s e p t = (t', r, result) → pending_ok p → ipc_ok (t_db (t_core t)) → Forall errno (t_answers t) →
  Forall errno (t_answers t') ∧ r ≤ 0 ∧ (r = 0 → ipc_ok (t_db (t_core t')) ∧ (result < 0 → t_db (t_core t') = t_db (t_core t) ∧ t_changed (t_core t') = t_changed (t_core t))).
Proof.
  unfold savepoint. intros H Hp Hok Hl. destruct (sql t) as [t1 r1] eqn:E1. destruct (sql_run _ _ _ E1 Hl) as (C1 & L1 & N1). rewrite <- C1 in *.
  destruct (run_operation s e p r1 t1) as [t2 res] eqn:E2. destruct (operation_run _ _ _ _ _ _ E2 Hp Hok L1 N1) as [L2 K2].
  destruct (roll_back _ _ _ _) as [t3 r3] eqn:E3. destruct (roll_back_run _ _ _ _ _ _ E3 L2) as (L3 & N3 & K3 & K4); [destruct N1 as [| ->]; cbn in *; lia|].
  assert (r3 = 0 → ipc_ok (t_db (t_core t3)) ∧ (res < 0 → t_db (t_core t3) = t_db (t_core t1) ∧ t_changed (t_core t3) = t_changed (t_core t1))) as K5.
  { intros E0. destruct (Z.lt_ge_cases res 0) as [Hr|Hr]; [destruct (K3 Hr E0) as [-> ->]; auto|]. destruct (K4 Hr) as [_ ->]. split; [by apply K2|lia]. }
  destruct (Z.eqb_spec r3 0) as [->|]; [|by injection H as <- <- <-]. destruct (sql t3) as [t4 r4] eqn:E4. injection H as <- <- <-. destruct (sql_run _ _ _ E4 L3) as (C4 & L4 & N4). rewrite C4. split_and!; [done|destruct N4 as [| ->]; cbn in *; lia|]. auto.
Qed.
Lemma finish_run e d0 t error d' error' :
  md_ipc_finish e d0 t error = (d', error') → Forall errno (t_answers t) →
  (d' = d0 ∧ (error ≤ 0 → error' < 0)) ∨ (d' = t_db (t_core t) ∧ error = 0 ∧ (e_signal e = true → error' = 0)).
Proof.
  unfold md_ipc_finish. intros H Hl. destruct (Z.eqb_spec error 0) as [->|Hne].
  - destruct (sql t) as [t1 r] eqn:Es. destruct (sql_run _ _ _ Es Hl) as (C & _ & N). destruct r as [[]|a]; cbn in *.
    + right. rewrite C in H. injection H as <- <-. split_and!; [done|done|]. intros ->. by rewrite andb_false_r.
    + left. destruct N as [N|]; [|done]. destruct (Z.eqb_spec a 0); [lia|]. by injection H as <- <-.
  - left. destruct (Z.eqb_spec error 0); [done|]. injection H as <- <-. split; [done|lia].
Qed.
(** The session after BEGIN. *)
Definition begun (e : answers) (p : Z * bool) (d : database) : option session :=
  match md_ipc_begin s e (session_start e p d) with (t, inl _) => Some t | (_, inr _) => None end.
Lemma begun_ok e p d t : begun e p d = Some t → answers_ok e → ipc_ok d → ipc_ok (t_db (t_core t)) ∧ Forall errno (t_answers t).
Proof.
  unfold begun. intros H He Hok. destruct (md_ipc_begin s e (session_start e p d)) as [t' r] eqn:E. destruct r as [[]|]; [|done]. injection H as ->.
  destruct (wp_run errno (md_ipc_begin s e) (session_start e p d) t (inl tt) kept negative) as [? ?]; [by apply safe_begin|apply He|done|done].
Qed.
(** A transaction of one program: nothing, or its tables. *)
Lemma transaction {B} e p d t (m : ipc B) t' r Q :
  begun e p d = Some t → answers_ok e → ipc_ok d → m t = (t', r) → safe m (t_core t) Q → (∀ v c, Q v c → ipc_ok (t_db c)) → ipc_ok (fst (md_ipc_finish e d t' (code r))).
Proof.
  intros Hb He Hok Hm Hs HQ. destruct (begun_ok _ _ _ _ Hb He Hok) as [Hok1 L1]. destruct (wp_run errno m t t' r Q negative Hs L1 Hm) as [L2 Hr]. destruct (md_ipc_finish _ _ _ _) as [d' e'] eqn:Ef.
  destruct (finish_run _ _ _ _ _ _ Ef L2) as [[-> _]|(-> & E & _)]; [done|]. destruct r as [v|a]; [by apply (HQ v)|]. unfold negative in Hr. cbn in E. lia.
Qed.
(** An attempt: consistent tables, and the tables of its beginning when it fails. *)
Lemma attempt_run e p d :
  answers_ok e → pending_ok p → ipc_ok d → let a := attempt s e p d in
  ipc_ok (at_db a) ∧ (e_signal e = true → at_result a < 0 → at_db a = d ∨ ∃ t w, begun e (p_number p, p_zero p) d = Some t ∧ at_db a = with_waiters w (t_db (t_core t))).
Proof.
  intros He Hp Hok. unfold attempt. destruct (md_ipc_begin s e (session_start e (p_number p, p_zero p) d)) as [t [[]|x]] eqn:Eb; [|by split; [|auto]].
  assert (begun e (p_number p, p_zero p) d = Some t) as Hb by (unfold begun; by rewrite Eb). destruct (begun_ok _ _ _ _ Hb He Hok) as [Hok1 L1].
  destruct (savepoint s e p t) as [[t1 r] result] eqn:Es. destruct (savepoint_run _ _ _ _ _ _ Es Hp Hok1 L1) as (L2 & N2 & K2). set (result' := after_deadline e p result).
  assert (result' < 0 → result < 0) as Hres by (unfold result', after_deadline; destruct (Z.eqb_spec result MD_IPC_WAIT) as [->|]; [done|done]).
  destruct (if r =? 0 then _ else _) as [t2 r2] eqn:E2.
  assert (Forall errno (t_answers t2) ∧ (r2 = 0 → r = 0 ∧ waited (t_core t1) tt (t_core t2))) as [L3 K3].
  { destruct (Z.eqb_spec r 0) as [->|]; [|by injection E2 as <- <-]. destruct (K2 eq_refl) as [Hok2 _]. destruct (if result' =? MD_IPC_WAIT then _ else _) as [t2' x] eqn:Em. injection E2 as <- <-.
    destruct (wp_run errno (λ t, if result' =? MD_IPC_WAIT then register_wait s p (t_block (t_core t1)).1 (t_block (t_core t1)).2 t else unregister s p t) t1 t2' x (waited (t_core t1)) negative) as [? Hx]; [|done|done|].
    - destruct (result' =? MD_IPC_WAIT); [by apply safe_register_wait|by apply safe_unregister].
    - split; [done|]. intros E. split; [done|]. destruct x as [[]|]; [done|]. unfold negative in Hx. cbn in E. lia. }
  destruct (md_ipc_finish e d t2 r2) as [d' error] eqn:Ef. cbn. destruct (finish_run _ _ _ _ _ _ Ef L3) as [[-> Hd]|(-> & -> & Hsig)]; [by split; [|auto]|]. destruct (K3 eq_refl) as [-> [Hok3 [w Hw]]]. split; [done|].
  intros Hs. rewrite Hsig by done. cbn. intros Hr%Hres. right. exists t, w. split; [done|]. rewrite Hw. by destruct (K2 eq_refl) as [_ [-> _]].
Qed.
Lemma cancel_consistent e p d : answers_ok e → ipc_ok d → ipc_ok (fst (md_ipc_cancel s e p d)).
Proof.
  intros He Hok. unfold md_ipc_cancel. case_match; [|done]. destruct (md_ipc_begin s e _) as [t [[]|x]] eqn:Eb; [|done]. destruct (unregister s p t) as [t' r] eqn:Eu.
  destruct (begun_ok e (p_number p, p_zero p) d t) as [Hok1 _]; [unfold begun; by rewrite Eb|done|done|]. eapply transaction; [unfold begun; by rewrite Eb|done|done|done|by apply safe_unregister|by intros ? ? [? _]].
Qed.
Lemma undo_release_consistent e references used space d : answers_ok e → ipc_ok d → ipc_ok (fst (md_ipc_undo_release s e references used space d)).
Proof.
  intros He Hok. unfold md_ipc_undo_release. case_match; [done|]. destruct (md_ipc_begin s e _) as [t [[]|x]] eqn:Eb; [|done]. destruct (md_ipc_undo_apply _ _ _ _) as [t' r] eqn:Eu.
  destruct (begun_ok e (-1, false) d t) as [Hok1 _]; [unfold begun; by rewrite Eb|done|done|]. eapply transaction; [unfold begun; by rewrite Eb|done|done|done|by apply safe_undo_apply|done].
Qed.
Lemma close_consistent e d : answers_ok e → ipc_ok d → ipc_ok (md_ipc_close s e d).
Proof.
  intros He Hok. unfold md_ipc_close. destruct (md_ipc_begin s e _) as [t [[]|x]] eqn:Eb; [|done]. destruct (remove_owner _ _ _) as [t' r] eqn:Eu.
  destruct (begun_ok e (-1, false) d t) as [Hok1 _]; [unfold begun; by rewrite Eb|done|done|]. eapply transaction; [unfold begun; by rewrite Eb|done|done|done|by apply safe_remove_owner|done].
Qed.
Lemma reset_consistent d : ipc_ok d → ipc_ok (delete_objects (λ _, true) (mk_database (d_objects d) (d_last d) (d_sems d) (d_messages d) (d_sequence d) ∅ ∅ ∅)).
Proof. intros [K1 K2 K3 K4 K5 K6 K7 K8 K9]. apply objects_deleted. split; try done. Qed.
Lemma owner_inserted d owner ns : ipc_ok d → ipc_ok (mk_database (d_objects d) (d_last d) (d_sems d) (d_messages d) (d_sequence d) (<[owner := ns]> (d_owners d)) (d_undo d) (d_waiters d)).
Proof.
  intros [K1 K2 K3 K4 K5 K6 K7 K8 K9]. assert (∀ o, is_Some (d_owners d !! o) → is_Some (<[owner := ns]> (d_owners d) !! o)) as Ho by (intros o Ho; destruct (decide (o = owner)) as [->|]; [by rewrite lookup_insert_eq|by rewrite lookup_insert_ne]).
  split; try done; cbn.
  - intros k u Hu. destruct (K6 k u Hu) as (? & ? & ?). auto.
  - intros k w Hw. destruct (K9 k w Hw). auto.
Qed.
Lemma open_consistent e boot d : answers_ok e → ipc_ok d → ipc_ok (fst (md_ipc_open s e boot d)).
Proof.
  intros [Hl Hlock] Hok. unfold md_ipc_open. match goal with |- ipc_ok (match ?m ?t with _ => _ end).1 => destruct (m t) as [t' r] eqn:E; set (prog := m) in * end. destruct r as [[]|]; [|done].
  destruct (wp_run errno prog (session_start e (-1, false) d) t' (inl tt) kept negative) as [_ H]; [|done|done|done]. unfold prog. apply wp_bind, wp_try; [intros _|unfold negative; lia]. apply wp_bind, wp_sql; [|wp_neg]. apply wp_bind.
  apply (wp_mono _ _ _ kept) with (E := negative); [|intros [] c' Hc'|done].
  - destruct boot; [|by apply wp_ret]. wp_steps. by apply reset_consistent.
  - apply wp_bind. unfold reap. wp_steps. eapply wp_mono; [by apply safe_reap_loop| |done]. intros [] c2 Hc2. wp_steps. by apply owner_inserted.
Qed.
End consistent.

(** ** Histories *)

(** The transactions of all supervisors, under any answers of the system. *)
Inductive ipc_step : database → database → Prop :=
| step_open s e boot d : answers_ok e → ipc_step d (fst (md_ipc_open s e boot d))
| step_attempt s e p d : answers_ok e → pending_ok p → ipc_step d (at_db (attempt s e p d))
| step_cancel s e p d : answers_ok e → ipc_step d (fst (md_ipc_cancel s e p d))
| step_release s e references used space d : answers_ok e → ipc_step d (fst (md_ipc_undo_release s e references used space d))
| step_close s e d : answers_ok e → ipc_step d (md_ipc_close s e d).
Definition empty_database : database := mk_database ∅ 0 ∅ ∅ 0 ∅ ∅ ∅.
Lemma empty_consistent : ipc_ok empty_database.
Proof. split; cbn; try done. intros k. split; [by intros [? ?]|]. by intros (? & ? & ? & _). Qed.
Lemma step_consistent d d' : ipc_step d d' → ipc_ok d → ipc_ok d'.
Proof.
  destruct 1; intros Hok; [by apply open_consistent|by apply attempt_run|by apply cancel_consistent|by apply undo_release_consistent|by apply close_consistent].
Qed.
Lemma set_wait_ok b w p : pending_ok p → pending_ok (set_wait b w p).
Proof. done. Qed.
Lemma attempt_pending s e p d : pending_ok p → pending_ok (at_pending (attempt s e p d)).
Proof. intros Hp. unfold attempt. repeat case_match; done. Qed.
Definition call_ok (c : call_answers) : Prop :=
  answers_ok (ce_first c) ∧ answers_ok (ce_second c) ∧ answers_ok (ce_cancel c) ∧ (∀ d, rtc ipc_step d (ce_between c d)) ∧ (∀ d, rtc ipc_step d (ce_before_cancel c d)).
Lemma finish_call_steps s c p d result : call_ok c → rtc ipc_step d (fst (fst (finish_call s c p d result))).
Proof.
  intros (_ & _ & H & _ & Hb). unfold finish_call. etrans; [apply Hb|]. apply rtc_once. destruct (md_ipc_cancel s _ _ _) as [d' r] eqn:E. cbn. replace d' with (fst (md_ipc_cancel s (ce_cancel c) p (ce_before_cancel c d))) by (by rewrite E). by constructor.
Qed.
Lemma call_loop_steps s c p d : call_ok c → pending_ok p → let '(d', p', _) := call_loop s c p d in rtc ipc_step d d' ∧ match p' with Some p' => pending_ok p' | None => True end.
Proof.
  intros Hc Hp. assert (∀ p d r, let '(d', p', _) := finish_call s c p d r in rtc ipc_step d d' ∧ match p' with Some p' => pending_ok p' | None => True end) as Hf.
  { intros p1 d1 r. pose proof (finish_call_steps s c p1 d1 r Hc) as H. unfold finish_call in *. destruct (md_ipc_cancel s _ _ _). done. }
  assert (∀ e p d, answers_ok e → pending_ok p → rtc ipc_step d (at_db (attempt s e p d))) as Ha by (intros; by apply rtc_once, step_attempt).
  pose proof Hc as (H1 & H2 & _ & Hb & _). assert (∀ d0 d1 p r, rtc ipc_step d0 d1 → let '(d', p', _) := finish_call s c p d1 r in rtc ipc_step d0 d' ∧ match p' with Some p' => pending_ok p' | None => True end) as Hf'.
  { intros d0 d1 p1 r Hd. specialize (Hf p1 d1 r). destruct (finish_call s c p1 d1 r) as [[d2 p2] r2]. destruct Hf. split; [by etrans|done]. }
  unfold call_loop. destruct (p_watcher p && _); [apply Hf|]. pose proof (attempt_pending s (ce_first c) p d Hp) as Hp1. destruct (_ || _); [apply Hf'; auto|]. destruct (p_watcher p); [by split; [auto|]|]. destruct (negb (ce_watch c =? 0)); [apply Hf'; auto|].
  assert (rtc ipc_step d (ce_between c (at_db (attempt s (ce_first c) p d)))) as Hd by (etrans; [by apply (Ha (ce_first c) p)|apply Hb]).
  destruct (negb (ce_drain c =? 0)); [by apply Hf'|]. assert (pending_ok (set_watch (at_pending (attempt s (ce_first c) p d)))) as Hp2 by done. pose proof (attempt_pending s (ce_second c) _ (ce_between c (at_db (attempt s (ce_first c) p d))) Hp2) as Hp3.
  destruct (_ || _); [apply Hf'; etrans; [done|by apply Ha]|]. split; [etrans; [done|by apply Ha]|done].
Qed.
Lemma prepare_ok memory clock p p' : (∀ i, 0 ≤ k_array (p_packet p) i) → 0 ≤ p_args p 2 → prepare memory clock p = inl p' → pending_ok p'.
Proof.
  intros Ha H0. unfold prepare. intros H. repeat (case_match; try done); simplify_eq; (split; [done|]); cbn; intros E; rewrite E in *; try done; by rewrite length_fmap, length_seq, Z2Nat.id.
Qed.
