(* ===== verification/SysvSpec.v ===== *)
(** * What semop, msgsnd and msgrcv do (sysv_ipc.c, sysv_sem.c, sysv_msg.c)

    When the database answers, the lock is free and no owner is dead, an attempt at a call does what its
    sequential description says: [first_stuck] for semop, the queue as a list for messages. *)
From stdpp Require Import sorting.
From S2P Require Import Prelude UserNamespace GuestIdentity PidNamespace CLib ProcessLimits Syscalls SysvIpc SysvOk SysvSem SysvMsg SysvCall.

Definition zero (a : Z) : Prop := a = 0.
Record healthy (e : answers) : Prop := { he_lock : e_lock e = 0; he_sql : Forall zero (e_sql e); he_lease : ∀ o, e_lease e o = 0; he_signal : e_signal e = true }.

Section healthy.
Context (s : md_ipc) (e : answers) (He : healthy e).
Lemma sql_zero t : Forall zero (t_answers t) → ∃ t', sql t = (t', inl tt) ∧ t_core t' = t_core t ∧ Forall zero (t_answers t').
Proof using.
  unfold sql. destruct (t_answers t) as [|a l] eqn:E; intros Hl; [exists t; by rewrite E|]. apply Forall_cons in Hl as [-> Hl]. eexists. done.
Qed.
Lemma begin_healthy p d : ∃ t, md_ipc_begin s e (session_start e p d) = (t, inl tt) ∧ t_core t = mk_core d false [] p ∧ Forall zero (t_answers t).
Proof using He.
  destruct He as [H1 H2 H3 H4]. assert (wp zero (md_ipc_begin s e) (mk_core d false [] p) (λ _ c, c = mk_core d false [] p) (λ _ _, False)) as Hw.
  { unfold md_ipc_begin, reap. rewrite H1. apply wp_bind, wp_ret. do 2 (apply wp_bind, wp_sql; [|by intros a ?]). apply wp_bind, wp_get_db. cbn [t_db]. generalize (qsort_Z (map_to_list (d_owners d)).*1). intros l.
    induction l as [|o l IH]; cbn [reap_loop]; [by apply wp_ret|]. apply wp_bind, wp_sql; [|by intros a ?]. apply wp_bind. case_match; [by apply wp_ret|]. rewrite H3. by apply wp_bind, wp_ret, wp_ret. }
  destruct (md_ipc_begin s e (session_start e p d)) as [t r] eqn:E. destruct (wp_run zero _ (session_start e p d) _ _ _ _ Hw H2 E) as [L Hr]. destruct r as [[]|]; [|done]. by exists t.
Qed.
(** The tables after the registration of a wait, and after the end of one. *)
Definition after_wait (p : md_ipc_pending) (b : Z * bool) (d : database) : database :=
  if b.1 <? 0 then d
  else with_waiters (<[(s_owner s, p_tid p) := mk_waiter (match d_waiters d !! (s_owner s, p_tid p) with Some w => wt_object w | None => to_int (p_args p 0) end) b.1 b.2]> (d_waiters d)) d.
Definition after_done (p : md_ipc_pending) (d : database) : database :=
  if p_registered p then with_waiters (delete (s_owner s, p_tid p) (d_waiters d)) d else d.
Lemma wait_healthy p b c :
  is_Some (d_owners (t_db c) !! s_owner s) → is_Some (d_objects (t_db c) !! to_int (p_args p 0)) →
  wp zero (register_wait s p b.1 b.2) c (λ _ c', c' = mk_core (after_wait p b (t_db c)) (t_changed c) (t_output c) (t_block c)) (λ _ _, False).
Proof using.
  intros Ho Hob. unfold register_wait, after_wait. case_match; [apply wp_ret; by destruct c|]. apply wp_bind, wp_sql; [|by intros a ?]. apply wp_bind, wp_get_db. case_match; [by apply wp_change|].
  apply wp_bind, wp_when; [intros _; by apply wp_change|]. destruct Ho as [? ->], Hob as [? ->]. done.
Qed.
Lemma done_healthy p c : wp zero (unregister s p) c (λ _ c', c' = mk_core (after_done p (t_db c)) (t_changed c) (t_output c) (t_block c)) (λ _ _, False).
Proof using. unfold unregister, after_done. destruct (p_registered p); cbn; [|apply wp_ret; by destruct c]. apply wp_bind, wp_sql; [|by intros a ?]. by apply wp_change. Qed.
Lemma finish_healthy d0 t : Forall zero (t_answers t) → md_ipc_finish e d0 t 0 = (t_db (t_core t), 0).
Proof using He. intros Hl. unfold md_ipc_finish. cbn. destruct (sql_zero t Hl) as (t' & -> & -> & _). cbn. by rewrite (he_signal e He), andb_false_r. Qed.
(** The operation decides the attempt: its tables when it succeeds, those of the beginning when it fails. *)
Lemma attempt_healthy p d Q E :
  p_deadline p = INT64_MAX → is_Some (d_owners d !! s_owner s) → is_Some (d_objects d !! to_int (p_args p 0)) →
  wp zero (operation s e p) (mk_core d false [] (p_number p, p_zero p)) (λ v c, 0 ≤ v ∧ Q v c) (λ v c, v < 0 ∧ E v c) →
  let a := attempt s e p d in at_error a = 0 ∧ ∃ c,
  (Q (at_result a) c ∧ at_db a = after_done p (t_db c) ∧ at_output a = t_output c) ∨
  (at_result a < 0 ∧ E (at_result a) c ∧ at_db a = if at_result a =? MD_IPC_WAIT then after_wait p (t_block c) d else after_done p d).
Proof using He.
  intros Hd Ho Hob Hw. unfold attempt. destruct (begin_healthy (p_number p, p_zero p) d) as (t & -> & Hc & Hl). unfold savepoint. destruct (sql_zero t Hl) as (t1 & -> & Hc1 & Hl1). cbn [run_operation].
  destruct (operation s e p t1) as [t2 r] eqn:Eo. rewrite <- Hc, <- Hc1 in Hw. destruct (wp_run zero _ _ _ _ _ _ Hw Hl1 Eo) as [Hl2 Hr]. cbn [code].
  assert (∃ t4, (let '(t3, r0) := roll_back (t_core t1) 0 t2 (result_code r) in if r0 =? 0 then let '(t4, r1) := sql t3 in (t4, code r1, result_code r) else (t3, r0, result_code r)) = (t4, 0, result_code r)
    ∧ Forall zero (t_answers t4) ∧ t_core t4 = if result_code r <? 0 then rolled_back (t_core t1) (t_core t2) else t_core t2) as (t4 & -> & Hl4 & Hc4).
  { unfold roll_back. destruct (Z.ltb_spec (result_code r) 0).
    - destruct (sql_zero t2 Hl2) as (t3 & -> & Hc3 & Hl3). cbn. destruct (sql_zero (mk_session (rolled_back (t_core t1) (t_core t3)) (t_answers t3)) Hl3) as (t4 & -> & Hc4 & Hl4). exists t4. rewrite Hc4. cbn. by rewrite Hc3.
    - cbn. destruct (sql_zero t2 Hl2) as (t4 & -> & Hc4 & Hl4). by exists t4. }
  unfold after_deadline. rewrite Hd, Z.eqb_refl, andb_false_r. cbn [Z.eqb].
  destruct (if result_code r =? MD_IPC_WAIT then _ else _) as [t5 x] eqn:E5.
  assert (Forall zero (t_answers t5) ∧ x = inl tt ∧ t_core t5 = mk_core (if result_code r =? MD_IPC_WAIT then after_wait p (t_block (t_core t4)) (t_db (t_core t4)) else after_done p (t_db (t_core t4))) (t_changed (t_core t4)) (t_output (t_core t4)) (t_block (t_core t4))) as (Hl5 & -> & Hc5).
  { destruct (Z.eqb_spec (result_code r) MD_IPC_WAIT) as [Ew|].
    - assert (t_db (t_core t4) = d) as Hdb by (rewrite Hc4, Ew; cbn; by rewrite Hc1, Hc). destruct (wp_run zero (register_wait s p (t_block (t_core t4)).1 (t_block (t_core t4)).2) t4 t5 x _ _ ltac:(by apply wait_healthy; rewrite Hdb) Hl4 E5) as [? Hx]. by destruct x as [[]|].
    - destruct (wp_run zero (unregister s p) t4 t5 x _ _ (done_healthy p (t_core t4)) Hl4 E5) as [? Hx]. by destruct x as [[]|]. }
  cbn [code Z.eqb]. rewrite (finish_healthy d t5 Hl5). cbn. split; [done|]. exists (t_core t2). rewrite Hc5. cbn. rewrite Hc4. destruct r as [v|v]; cbn in *; destruct Hr as [Hv Hr].
  - left. destruct (Z.ltb_spec v 0); [lia|]. destruct (Z.eqb_spec v MD_IPC_WAIT) as [->|]; [done|]. done.
  - right. destruct (Z.ltb_spec v 0); [|lia]. cbn. rewrite Hc1, Hc. done.
Qed.
End healthy.

(** ** semop *)

Definition level (d : database) (k : Z * Z) : Z := match d_sems d !! k with Some v => sm_value v | None => 0 end.
Definition adjustment (d : database) (k : undo_key) : Z := match d_undo d !! k with Some u => un_delta u | None => 0 end.
(** What operations add to a semaphore, and to its adjustment. *)
Definition moved (ops : list sembuf) (n : Z) : Z := total (sem_op <$> filter (λ o, sem_num o = n) ops).
Definition undoes (o : sembuf) : bool := negb (Z.land (sem_flg o) SEM_UNDO =? 0).
Definition adjusted (ops : list sembuf) (n : Z) : Z := total (sem_op <$> filter (λ o, sem_num o = n ∧ undoes o = true) ops).
(** Whether an operation can proceed after [pre], from the values [v] and the adjustments [u]. *)
Definition ready (v u : Z → Z) (pre : list sembuf) (o : sembuf) : Z :=
  let x := v (sem_num o) + moved pre (sem_num o) in
  let y := u (sem_num o) - adjusted pre (sem_num o) in
  if (sem_op o =? 0) && negb (x =? 0) || (sem_op o <? 0) && (x <? - sem_op o) then (if negb (Z.land (sem_flg o) IPC_NOWAIT =? 0) then - EAGAIN else MD_IPC_WAIT)
  else if SEMVMX <? x + sem_op o then - ERANGE
  else if undoes o && ((y - sem_op o <? - SEMAEM) || (SEMAEM <? y - sem_op o)) then - ERANGE
  else 0.
Fixpoint first_stuck (v u : Z → Z) (pre ops : list sembuf) : option (list sembuf * sembuf) :=
  match ops with
  | [] => None
  | o :: ops => if ready v u pre o =? 0 then first_stuck v u (pre ++ [o]) ops else Some (pre, o)
  end.

Lemma moved_snoc pre o n : moved (pre ++ [o]) n = moved pre n + if sem_num o =? n then sem_op o else 0.
Proof.
  unfold moved. rewrite filter_app, fmap_app, total_append, filter_cons, filter_nil. destruct (Z.eqb_spec (sem_num o) n); case_decide; try done; unfold total; cbn; lia.
Qed.
Lemma adjusted_snoc pre o n : adjusted (pre ++ [o]) n = adjusted pre n + if (sem_num o =? n) && undoes o then sem_op o else 0.
Proof.
  unfold adjusted. rewrite filter_app, fmap_app, total_append, filter_cons, filter_nil. destruct (Z.eqb_spec (sem_num o) n), (undoes o); case_decide; try (exfalso; naive_solver); unfold total; cbn; lia.
Qed.
Lemma ops_mode_bound nsems mode ops mode' : ops_mode nsems mode ops = inl mode' → Forall (λ o, sem_num o < nsems) ops.
Proof. revert mode. induction ops as [|o ops IH]; intros mode; cbn; [done|]. case_match eqn:E; [done|]. intros H. apply Z.leb_gt in E. constructor; [done|by apply (IH _ H)]. Qed.

Section semop.
Context (s : md_ipc) (x : context) (p : md_ipc_pending) (d : database) (object := to_int (p_args p 0)).
Definition undo_of (n : Z) : undo_key := (s_owner s, p_undo p, to_int (p_args p 0), n).
(** The tables after the operations [pre]. *)
Record after (pre : list sembuf) (c : core) : Prop := {
  af_ok : ipc_ok (t_db c);
  af_objects : d_objects (t_db c) = d_objects d;
  af_owners : d_owners (t_db c) = d_owners d;
  af_level : ∀ k, level (t_db c) k = level d k + if k.1 =? object then moved pre k.2 else 0;
  af_adjustment : ∀ k, adjustment (t_db c) k = adjustment d k - if bool_decide (k = undo_of (u_number k)) then adjusted pre (u_number k) else 0;
  af_messages : d_messages (t_db c) = d_messages d;
  af_sequence : d_sequence (t_db c) = d_sequence d;
  af_waiters : d_waiters (t_db c) = d_waiters d }.

(** One operation that is ready: its adjustment, then its value. *)
Lemma undo_after pre c o :
  after pre c → is_Some (d_owners d !! s_owner s) → is_Some (d_sems (t_db c) !! (object, sem_num o)) → 
  - SEMAEM ≤ adjustment d (undo_of (sem_num o)) - adjusted pre (sem_num o) - sem_op o ≤ SEMAEM →
  wp zero (undo s x p (sem_num o) (- sem_op o)) c (λ _ c', ipc_ok (t_db c') ∧ (∃ u, t_db c' = with_undo u (t_db c)) ∧
    ∀ k, adjustment (t_db c') k = adjustment (t_db c) k - if bool_decide (k = undo_of (sem_num o)) then sem_op o else 0) (λ _ _, False).
Proof using Type.
  intros Ha Ho Hs Hr. pose proof (af_adjustment _ _ Ha (undo_of (sem_num o))) as Hadj. cbn in Hadj. rewrite bool_decide_eq_true_2 in Hadj by done.
  unfold undo. apply wp_bind, wp_sql; [|by intros a ?]. apply wp_bind, wp_get_db. cbv zeta. fold (undo_of (sem_num o)). unfold adjustment in Hadj at 1.
  assert (match d_undo (t_db c) !! undo_of (sem_num o) with Some u => - sem_op o + un_delta u | None => - sem_op o end = adjustment (t_db c) (undo_of (sem_num o)) - sem_op o) as -> by (unfold adjustment; case_match; lia).
  fold (adjustment (t_db c) (undo_of (sem_num o))) in Hadj. rewrite Hadj. apply wp_bind, wp_when; [intros _|intros E; exfalso; apply orb_true_iff in E as [?%Z.ltb_lt|?%Z.ltb_lt]; lia].
  apply wp_bind, wp_sql; [|by intros a ?]. apply wp_bind, wp_get_db, wp_bind, wp_when.
  - intros _. apply wp_change. cbn. split_and!; [|by eexists|].
    + apply undo_insert; [apply Ha|cbn; by rewrite (af_owners _ _ Ha)|by apply (ok_sems _ (af_ok _ _ Ha))|cbn; lia].
    + intros k. unfold adjustment at 1. cbn. destruct (decide (k = undo_of (sem_num o))) as [->|Hne]; [rewrite lookup_insert_eq, bool_decide_eq_true_2 by done; cbn; lia|]. rewrite lookup_insert_ne, bool_decide_eq_false_2 by done. fold (adjustment (t_db c) k). lia.
  - intros E. exfalso. destruct (ok_sems _ (af_ok _ _ Ha) (object, sem_num o)) as [(ob & st & Hob & _) _]; [done|]. cbn in Hob. fold object in E. rewrite Hob in E. rewrite (af_owners _ _ Ha) in E. destruct Ho as [? Ho]. by rewrite Ho in E.
Qed.
Lemma set_after pre c c' o pid numbers :
  after pre c → is_Some (d_sems (t_db c) !! (object, sem_num o)) → 0 ≤ level (t_db c) (object, sem_num o) + sem_op o ≤ SEMVMX →
  ipc_ok (t_db c') → (∃ u, t_db c' = with_undo u (t_db c)) →
  (∀ k, adjustment (t_db c') k = adjustment (t_db c) k - if bool_decide (k = undo_of (sem_num o)) && undoes o then sem_op o else 0) →
  wp zero (set object (sem_num o) (level (t_db c) (object, sem_num o) + sem_op o) pid numbers) c' (λ _, after (pre ++ [o])) (λ _ _, False).
Proof using Type.
  intros Ha [w Hw] Hr Hok (u & Hu) Hadj. unfold set. apply wp_bind, wp_sql; [|by intros a ?]. apply wp_bind, wp_change, wp_change. destruct Ha as [A1 A2 A3 A4 A5 A6 A7 A8]. split; cbn.
  - by apply value_change.
  - rewrite Hu. cbn. done.
  - rewrite Hu. cbn. done.
  - intros k. rewrite moved_snoc. unfold level at 1. cbn. rewrite Hu. cbn. destruct (decide (k = (object, sem_num o))) as [->|Hne].
    + rewrite lookup_alter_eq, Hw. cbn. rewrite (A4 (object, sem_num o)). cbn. rewrite !Z.eqb_refl. lia.
    + rewrite lookup_alter_ne by done. fold (level (t_db c) k). rewrite A4. destruct k as [ob n]. cbn. destruct (Z.eqb_spec ob object) as [->|]; [|lia]. destruct (Z.eqb_spec (sem_num o) n); [congruence|lia].
  - intros k. unfold adjustment at 1. cbn. fold (adjustment (t_db c') k). rewrite Hadj, A5, adjusted_snoc. destruct (decide (k = undo_of (u_number k))) as [E|E].
    + rewrite (bool_decide_eq_true_2 (k = undo_of (u_number k))) by done. destruct (Z.eqb_spec (sem_num o) (u_number k)) as [En|En].
      * rewrite bool_decide_eq_true_2 by (by rewrite En). cbn. case_match; lia.
      * rewrite bool_decide_eq_false_2; [cbn; lia|]. intros E2. apply En. by rewrite E2.
    + rewrite !bool_decide_eq_false_2; [cbn; lia|intros E2; apply E; by rewrite E2|done].
  - rewrite Hu. done.
  - rewrite Hu. done.
  - rewrite Hu. done.
Qed.
Definition values (n : Z) : Z := level d (object, n).
Definition undos (n : Z) : Z := adjustment d (undo_of n).
Context (st : semid64_ds).
Lemma level_row pre c n : after pre c → find_sem s object d = Some st → 0 ≤ n < sem_nsems st →
  ∃ w, d_sems (t_db c) !! (object, n) = Some w ∧ sm_value w = values n + moved pre n ∧ level (t_db c) (object, n) = sm_value w.
Proof using Type.
  intros Ha Hf Hn. destruct (find_sem_object _ _ _ _ Hf) as (o & Ho & Hi). assert (is_Some (d_sems (t_db c) !! (object, n))) as [w Hw].
  { apply (ok_sems _ (af_ok _ _ Ha)). exists o, st. rewrite (af_objects _ _ Ha). done. }
  exists w. pose proof (af_level _ _ Ha (object, n)) as Hl. unfold level in *. rewrite Hw in *. cbn in Hl. rewrite Z.eqb_refl in Hl. done.
Qed.
(** The two statements of an operation that has its value. *)
Lemma step_after pre c o w :
  after pre c → is_Some (d_owners d !! s_owner s) → d_sems (t_db c) !! (object, sem_num o) = Some w → 0 ≤ sm_value w + sem_op o ≤ SEMVMX →
  (undoes o = true → - SEMAEM ≤ undos (sem_num o) - adjusted pre (sem_num o) - sem_op o ≤ SEMAEM) →
  wp zero ((if negb (Z.land (sem_flg o) SEM_UNDO =? 0) then undo s x p (sem_num o) (- sem_op o) else ret tt);; set_process x object (sem_num o) (sm_value w + sem_op o) (p_pid p) (p_process p)) c (λ _, after (pre ++ [o])) (λ _ _, False).
Proof using Type.
  intros Ha Ho Hw Hr Hu. assert (sm_value w = level (t_db c) (object, sem_num o)) as Hl by (unfold level; by rewrite Hw). rewrite Hl in *. apply wp_bind. fold (undoes o). destruct (undoes o) eqn:Eu.
  - eapply wp_mono; [apply (undo_after pre c o Ha Ho); [by rewrite Hw|by apply Hu]| |done]. cbn. intros [] c' (Hok & Hd & Hadj). apply (set_after pre c c' o); [done|by rewrite Hw|done|done|done|]. intros k. by rewrite Eu, andb_true_r.
  - apply wp_ret. apply (set_after pre c c o); [done|by rewrite Hw|done|apply Ha|exists (d_undo (t_db c)); by destruct (t_db c)|]. intros k. rewrite Eu, andb_false_r. lia.
Qed.
(** A statement that cannot proceed. *)
Lemma undo_stuck pre c o :
  after pre c → ¬ (- SEMAEM ≤ undos (sem_num o) - adjusted pre (sem_num o) - sem_op o ≤ SEMAEM) →
  wp zero (undo s x p (sem_num o) (- sem_op o)) c (λ _ _, False) (λ e _, e = - ERANGE).
Proof using Type.
  intros Ha Hr. pose proof (af_adjustment _ _ Ha (undo_of (sem_num o))) as Hadj. cbn in Hadj. rewrite bool_decide_eq_true_2 in Hadj by done. unfold undo. apply wp_bind, wp_sql; [|by intros a ?]. apply wp_bind, wp_get_db. cbv zeta. fold (undo_of (sem_num o)).
  assert (match d_undo (t_db c) !! undo_of (sem_num o) with Some u => - sem_op o + un_delta u | None => - sem_op o end = undos (sem_num o) - adjusted pre (sem_num o) - sem_op o) as -> by (unfold undos; rewrite <- Hadj; unfold adjustment; case_match; lia).
  apply wp_bind, wp_when; [|done]. intros E. apply orb_false_iff in E as [?%Z.ltb_ge ?%Z.ltb_ge]. exfalso. apply Hr. lia.
Qed.
Lemma loop_stuck pre c o w ops :
  after pre c → d_sems (t_db c) !! (object, sem_num o) = Some w → sm_value w = values (sem_num o) + moved pre (sem_num o) → ready values undos pre o ≠ 0 →
  wp zero (operate_loop s x p object (o :: ops)) c (λ _ _, False) (λ e c', e = ready values undos pre o ∧ (e = MD_IPC_WAIT → t_block c' = (sem_num o, sem_op o =? 0))).
Proof using Type.
  intros Ha Hw Hv. unfold ready. rewrite <- Hv. intros Hne. cbn [operate_loop]. apply wp_bind, wp_value; [by intros a ?|]. rewrite Hw. destruct ((_ && _) || _).
  { destruct (negb (Z.land (sem_flg o) IPC_NOWAIT =? 0)); [by apply wp_fail|by apply wp_bind, wp_change, wp_fail]. }
  apply wp_bind, wp_when; [intros Emax|by intros ->]. rewrite Emax in *. apply wp_bind. fold (undoes o). destruct (undoes o); [|done]. cbn [andb] in *. destruct (_ || _) eqn:Eu; [|done].
  eapply wp_mono; [by apply (undo_stuck pre c o); [|apply orb_true_iff in Eu as [?%Z.ltb_lt|?%Z.ltb_lt]; lia]|done|]. cbn. by intros e c' ->.
Qed.
Lemma loop_after ops pre c :
  is_Some (d_owners d !! s_owner s) → find_sem s object d = Some st → Forall (λ o, 0 ≤ sem_num o < sem_nsems st) ops → after pre c →
  wp zero (operate_loop s x p object ops) c (λ _ c', first_stuck values undos pre ops = None ∧ after (pre ++ ops) c')
    (λ e c', ∃ pre' o, first_stuck values undos pre ops = Some (pre', o) ∧ e = ready values undos pre' o ∧ (e = MD_IPC_WAIT → t_block c' = (sem_num o, sem_op o =? 0))).
Proof using Type.
  intros Ho Hf Hops. revert pre c. induction Hops as [|o ops Hn _ IH]; intros pre c Ha; cbn [operate_loop first_stuck]; [apply wp_ret; by rewrite app_nil_r|].
  destruct (level_row pre c (sem_num o) Ha Hf Hn) as (w & Hw & Hv & Hlw). pose proof (ok_values _ (af_ok _ _ Ha) _ _ Hw) as Hrange.
  destruct (Z.eqb_spec (ready values undos pre o) 0) as [Er|Er].
  - apply wp_bind, wp_value; [by intros a ?|]. rewrite Hw. unfold ready in Er. rewrite <- Hv in Er. destruct (_ || _) eqn:Eb; [exfalso; revert Er; clear; by case_match|]. destruct (SEMVMX <? _) eqn:Emax; [done|]. destruct (undoes o && _) eqn:Eu; [done|]. apply wp_bind, wp_ret. 
    apply wp_assoc, wp_bind. apply orb_false_iff in Eb as [Eb1 Eb2]. eapply wp_mono; [apply (step_after pre c o w); try done| |done].
    + destruct (Z.ltb_spec (sem_op o) 0), (Z.ltb_spec (sm_value w) (- sem_op o)); try done; lia.
    + intros Hund. rewrite Hund in Eu. cbn in Eu. lia.
    + intros [] c' Ha'. rewrite (cons_middle o pre ops), app_assoc. by apply IH.
  - eapply wp_mono; [by apply (loop_stuck pre c o w ops)|done|]. cbn. intros e c' [-> Hb]. eauto.
Qed.
(** The tables after a semop that succeeds. *)
Definition operated (d' : database) : Prop :=
  (∀ k, level d' k = level d k + if k.1 =? object then moved (p_ops p) k.2 else 0) ∧
  (∀ k, adjustment d' k = adjustment d k - if bool_decide (k = undo_of (u_number k)) then adjusted (p_ops p) (u_number k) else 0) ∧
  d_messages d' = d_messages d.
Lemma after_nil c : ipc_ok d → t_db c = d → after [] c.
Proof using Type. intros Hok Hc. split; rewrite Hc; try done; intros k; [destruct (k.1 =? object)|destruct (bool_decide (k = undo_of (u_number k)))]; unfold moved, adjusted; cbn; lia. Qed.
Lemma operate_healthy mode c :
  ipc_ok d → t_db c = d → is_Some (d_owners d !! s_owner s) → find_sem s object d = Some st → ops_mode (sem_nsems st) 0 (p_ops p) = inl mode → Forall (λ o, 0 ≤ sem_num o) (p_ops p) →
  md_ipc_perm_access x (s_user_namespace s) (p_identity p) (sem_perm st) mode = 0 →
  wp zero (operate s x p st) c (λ v c', 0 ≤ v ∧ v = 0 ∧ first_stuck values undos [] (p_ops p) = None ∧ operated (t_db c'))
    (λ e c', e < 0 ∧ ∃ pre o, first_stuck values undos [] (p_ops p) = Some (pre, o) ∧ e = ready values undos pre o ∧ (e = MD_IPC_WAIT → t_block c' = (sem_num o, sem_op o =? 0))).
Proof using Type.
  intros Hok Hc Ho Hf Hm Hnn Hacc. unfold operate. rewrite Hm. apply wp_bind, wp_ret. rewrite Hacc. apply wp_bind, wp_ret, wp_bind. apply ops_mode_bound in Hm.
  eapply wp_mono; [apply (loop_after (p_ops p) [] c); [done|done| |by apply after_nil]| |].
  - apply Forall_forall. intros o Hin. rewrite Forall_forall in Hnn, Hm. auto.
  - cbn. intros [] c' [Hn Ha]. apply wp_bind. unfold md_ipc_save. apply wp_bind, wp_sql; [|by intros a ?]. apply wp_bind, wp_change, wp_change, wp_ret. split_and!; [done|done|done|]. split_and!; [exact (af_level _ _ Ha)|exact (af_adjustment _ _ Ha)|exact (af_messages _ _ Ha)].
  - cbn. intros e c' (pre & o & Hs & -> & Hb). split; [|by exists pre, o]. assert (∀ pre0 ops, first_stuck values undos pre0 ops = Some (pre, o) → ready values undos pre o ≠ 0) as Hne.
    { intros pre0 ops. revert pre0. induction ops as [|o' ops IH]; intros pre0; cbn; [done|]. destruct (Z.eqb_spec (ready values undos pre0 o') 0); [apply IH|]. by intros [= <- <-]. }
    apply Hne in Hs. revert Hs. unfold ready. repeat case_match; done.
Qed.
End semop.
(** C16: When the database answers, an attempt at semop does what a sequential reading of its
    operations says.  Each operation looks at the value its predecessors left: if all can
    proceed, the call returns 0, every semaphore of the set has moved by the sum of the operations on it, the
    adjustments of the process by the opposite of those with SEM_UNDO, and no other semaphore or message changed.
    Otherwise the first operation that cannot proceed decides: the call fails with its error or waits, no value has changed, and
    a waiter for that semaphore, and for its kind of wait, is registered. *)
Theorem semop_exact s e p d st mode :
  healthy e → p_deadline p = INT64_MAX → p_nr p = SYS_semop → ipc_ok d → is_Some (d_owners d !! s_owner s) → find_sem s (to_int (p_args p 0)) d = Some st →
  ops_mode (sem_nsems st) 0 (p_ops p) = inl mode → Forall (λ o, 0 ≤ sem_num o) (p_ops p) →
  md_ipc_perm_access (e_context e) (s_user_namespace s) (p_identity p) (sem_perm st) mode = 0 →
  let a := attempt s e p d in
  at_error a = 0 ∧
  match first_stuck (values p d) (undos s p d) [] (p_ops p) with
  | None => at_result a = 0 ∧ operated s p d (at_db a)
  | Some (pre, o) =>
      at_result a = ready (values p d) (undos s p d) pre o ∧
      at_db a = if at_result a =? MD_IPC_WAIT then after_wait s p (sem_num o, sem_op o =? 0) d else after_done s p d
  end.
Proof.
  intros He Hd Hnr Hok Ho Hf Hm Hnn Hacc. destruct (find_sem_object _ _ _ _ Hf) as (ob & Hob & _).
  destruct (attempt_healthy s e He p d (λ v c', v = 0 ∧ first_stuck (values p d) (undos s p d) [] (p_ops p) = None ∧ operated s p d (t_db c'))
    (λ v c', ∃ pre o, first_stuck (values p d) (undos s p d) [] (p_ops p) = Some (pre, o) ∧ v = ready (values p d) (undos s p d) pre o ∧ (v = MD_IPC_WAIT → t_block c' = (sem_num o, sem_op o =? 0)))) as (E & c & H); [done|done|by eexists| |].
  - unfold operation. rewrite Hnr. cbn [is_sem]. unfold md_ipc_sem. rewrite Hnr. cbn -[operate md_ipc_perm_access]. apply wp_bind, wp_blocked, wp_load_sem; [by apply ipc_ok_kind|by intros a ?|]. cbn [t_db]. rewrite Hf. by apply (operate_healthy s (e_context e) p d st mode).
  - split; [done|]. destruct H as [((Hr & Hs & Ha) & Hdb & _)|(Hneg & (pre & o & Hs & Hr & Hb) & Hdb)]; rewrite Hs.
    + split; [done|]. rewrite Hdb. unfold after_done. by case_match.
    + split; [done|]. rewrite Hdb. destruct (Z.eqb_spec (at_result (attempt s e p d)) MD_IPC_WAIT) as [Ew|]; [|done]. by rewrite (Hb Ew).
Qed.

(** ** Messages *)

(** The message that a type asks for, in a queue: the first that is wanted, or for a negative type the first of the least type. *)
Definition choose (type flags : Z) (l : list (Z * message)) : option (Z * message) :=
  let l := filter (λ m, wanted type flags (message_bound type) m.2 = true) l in
  if type <? 0 then head (filter (λ m, Forall (λ m', mg_type m.2 ≤ mg_type m'.2) l) l) else head l.

#[global] Instance message_le_trans by_type : Transitive (message_le by_type).
Proof.
  intros a b c. unfold message_le, message_leb. destruct by_type; rewrite !Is_true_true, ?orb_true_iff, ?andb_true_iff, ?Z.ltb_lt, ?Z.eqb_eq, ?Z.leb_le; lia.
Qed.
#[global] Instance message_le_total by_type : Total (message_le by_type).
Proof.
  intros a b. unfold message_le, message_leb. destruct by_type; rewrite !Is_true_true, ?orb_true_iff, ?andb_true_iff, ?Z.ltb_lt, ?Z.eqb_eq, ?Z.leb_le; lia.
Qed.
Lemma head_sorted {A} (R : relation A) l x : StronglySorted R l → head l = Some x → ∀ y, y ∈ l → y = x ∨ R x y.
Proof. destruct 1 as [|z l _ Hf]; cbn; [done|]. intros [= ->] y [->|Hy]%elem_of_cons; [by left|right]. rewrite Forall_forall in Hf. auto. Qed.
(** The order of the query finds the message of the specification. *)
Lemma next_message_choose object type flags d : next_message object type flags d = choose type flags (queue object d).
Proof.
  set (W := λ m : Z * message, wanted type flags (message_bound type) m.2 = true). unfold next_message, choose. fold W. set (l := merge_sort _ _). set (q := filter W (queue object d)).
  assert (∀ y, y ∈ l ↔ y ∈ q) as Hlq.
  { intros [n m]. unfold l, q. rewrite merge_sort_Permutation, !list_elem_of_filter, elem_of_map_to_list, elem_of_queue. unfold W. cbn. tauto. }
  assert (StronglySorted (message_le (type <? 0)) l) as Hsl by (apply (StronglySorted_merge_sort (message_le (type <? 0)))).
  assert (StronglySorted seq_le q) as Hsq by apply StronglySorted_filtered, queue_sorted.
  assert (∀ a b : Z * message, a ∈ q → b ∈ q → a.1 = b.1 → a = b) as Huniq.
  { intros [n m] [n' m'] [_ [H1 _]%elem_of_queue]%list_elem_of_filter [_ [H2 _]%elem_of_queue]%list_elem_of_filter. cbn. intros ->. congruence. }
  destruct (head l) as [x|] eqn:El.
  - assert (x ∈ q) as Hxq by (by apply Hlq, head_Some_elem_of). assert (∀ y, y ∈ q → y = x ∨ message_le (type <? 0) x y) as Hmin by (intros y Hy; apply (head_sorted _ l); [done|done|by apply Hlq]). symmetry. destruct (type <? 0); [|clear Hsl].
    + assert (x ∈ filter (λ m : Z * message, Forall (λ m' : Z * message, mg_type m.2 ≤ mg_type m'.2) q) q) as Hx.
      { apply list_elem_of_filter. split; [|done]. apply Forall_forall. intros y Hy. destruct (Hmin y Hy) as [->|H]; [done|]. unfold message_le, message_leb in H. apply Is_true_true in H. lia. }
      assert (StronglySorted seq_le (filter (λ m : Z * message, Forall (λ m' : Z * message, mg_type m.2 ≤ mg_type m'.2) q) q)) as Hsf by (by apply StronglySorted_filtered).
      destruct (head (filter _ q)) as [y|] eqn:Ey; [|by destruct (filter _ q); [apply elem_of_nil in Hx|]]. pose proof (head_Some_elem_of _ _ Ey) as [Hyt Hyq]%list_elem_of_filter. f_equal.
      destruct (head_sorted _ _ _ Hsf Ey x Hx) as [->|Hs]; [done|]. apply Huniq; [done|done|]. destruct (Hmin y Hyq) as [->|H]; [done|]. rewrite Forall_forall in Hyt. specialize (Hyt x Hxq). unfold message_le, message_leb in H. apply Is_true_true in H. unfold seq_le in Hs. lia.
    + destruct (head q) as [y|] eqn:Ey; [|by destruct q; [apply elem_of_nil in Hxq|]]. pose proof (head_Some_elem_of _ _ Ey) as Hyq. f_equal. apply Huniq; [done|done|]. destruct (Hmin y Hyq) as [->|H]; [done|]. destruct (head_sorted _ _ _ Hsq Ey x Hxq) as [->|Hs]; [done|]. unfold message_le, message_leb in H. apply Is_true_true in H. unfold seq_le in Hs. lia.
  - destruct l as [|x l']; [|done]. assert (q = []) as -> by (destruct q as [|y q']; [done|]; destruct (Hlq y) as [_ H]; by specialize (H ltac:(by left)) as ?%elem_of_nil). by destruct (type <? 0).
Qed.

Lemma memory_result p a n : md_ipc_memory p a n = 0 ∨ md_ipc_memory p a n = - EFAULT.
Proof. unfold md_ipc_memory. repeat case_match; auto. Qed.
Lemma queue_done s p j d : queue j (after_done s p d) = queue j d.
Proof. unfold after_done. by case_match. Qed.
Lemma queue_objects j o d : queue j (with_objects o d) = queue j d.
Proof. done. Qed.
Section messages.
Context (s : md_ipc) (e : answers) (p : md_ipc_pending) (d : database) (st : msqid64_ds).
Context (He : healthy e) (Hd : p_deadline p = INT64_MAX) (Hnumber : p_number p = -1) (Hok : ipc_ok d) (Ho : is_Some (d_owners d !! s_owner s)) (Hf : find_msg s (to_int (p_args p 0)) d = Some st).
Definition message_core : core := mk_core d false [] (p_number p, p_zero p).
(** The operation of a message call, from its part after the load. *)
Lemma message_attempt (m : ipc Z) (Q : Z → core → Prop) (E : Z → core → Prop) :
  (p_nr p = SYS_msgsnd ∧ m = send s (e_context e) p st ∨ p_nr p = SYS_msgrcv ∧ m = receive s (e_context e) p st) →
  wp zero m message_core (λ v c, 0 ≤ v ∧ Q v c) (λ v c, v < 0 ∧ t_block c = t_block message_core ∧ E v c) →
  let a := attempt s e p d in at_error a = 0 ∧ ∃ c,
  (Q (at_result a) c ∧ at_db a = after_done s p (t_db c) ∧ at_output a = t_output c) ∨ (at_result a < 0 ∧ E (at_result a) c ∧ at_db a = if at_result a =? MD_IPC_WAIT then d else after_done s p d).
Proof using He Hd Hnumber Hok Ho Hf.
  intros Hm Hw. destruct (find_msg_object _ _ _ _ Hf) as (ob & Hob & _). destruct (attempt_healthy s e He p d Q (λ v c, t_block c = t_block message_core ∧ E v c)) as (E0 & c & H); [done|done|by eexists| |].
  - unfold operation. assert (is_sem (p_nr p) = false) as -> by (by destruct Hm as [[-> _]|[-> _]]). unfold md_ipc_msg. assert (p_nr p =? SYS_msgget = false) as -> by (by destruct Hm as [[-> _]|[-> _]]).
    apply wp_bind, wp_blocked, wp_load_msg; [by apply ipc_ok_kind|by intros a ?|]. cbn [t_db]. rewrite Hf. by destruct Hm as [[-> ->]|[-> ->]].
  - split; [done|]. exists c. destruct H as [?|(Hneg & (Hb & HE) & Hdb)]; [by left|]. right. split_and!; [done|done|]. rewrite Hdb, Hb. unfold after_wait. cbn. rewrite Hnumber. done.
Qed.
End messages.
(** What msgrcv copies, and where it does not fit. *)
Definition copied (p : md_ipc_pending) (m : message) : Z := if p_args p 2 <? Z.of_nat (length (mg_data m)) then p_args p 2 else Z.of_nat (length (mg_data m)).
Definition too_big (p : md_ipc_pending) (m : message) : bool := (p_args p 2 <? Z.of_nat (length (mg_data m))) && negb (negb (Z.land (p_args p 4) MSG_NOERROR =? 0)).
Definition unwritable (p : md_ipc_pending) (m : message) : bool :=
  negb (md_ipc_memory p (p_args p 1) 8 =? 0) || (UINT64_MAX - 8 <? p_args p 1) || negb (md_ipc_memory p (p_args p 1 + 8) (copied p m) =? 0).
Lemma receive_healthy s x p d st q m :
  0 ≤ p_args p 2 → md_ipc_perm_access x (s_user_namespace s) (p_identity p) (msg_perm st) 4 = 0 → Z.land (p_args p 4) MSG_COPY = 0 →
  next_message (to_int (p_args p 0)) (to_long (p_args p 3)) (p_args p 4) d = Some (q, m) →
  wp zero (receive s x p st) (message_core p d)
    (λ v c, 0 ≤ v ∧ v = copied p m ∧ too_big p m = false ∧ unwritable p m = false ∧ t_output c = [OutType (mg_type m); OutData (take (Z.to_nat (copied p m)) (mg_data m))] ∧ d_messages (t_db c) = delete q (d_messages d))
    (λ v c, v < 0 ∧ t_block c = t_block (message_core p d) ∧ too_big p m || unwritable p m = true ∧ v = if too_big p m then - E2BIG else - EFAULT).
Proof.
  intros H2 Hacc Hcopy Hn. unfold receive. rewrite Hacc. apply wp_bind, wp_ret. rewrite Hcopy. apply wp_bind, wp_ret, wp_bind, wp_sql; [|by intros a ?]. apply wp_bind, wp_get_db. cbn [message_core t_db]. rewrite Hn. fold (copied p m) (too_big p m).
  apply wp_bind, wp_when; [intros Hbig|by intros ->]. rewrite Hbig. destruct (memory_result p (p_args p 1) 8) as [M1|M1]; rewrite M1; [apply wp_bind, wp_ret|apply wp_bind, wp_fail; unfold unwritable; by rewrite M1]. apply wp_bind, wp_change, wp_bind, wp_when; [intros Hmax|intros Hmax; unfold unwritable; by rewrite M1, Hmax].
  destruct (memory_result p (p_args p 1 + 8) (copied p m)) as [M2|M2]; rewrite M2; [apply wp_bind, wp_ret|apply wp_bind, wp_fail; unfold unwritable; by rewrite M1, M2, Hmax]. apply wp_bind, wp_change, wp_bind, wp_sql; [|by intros a ?]. apply wp_bind, wp_change, wp_bind. unfold save_process. apply wp_bind, wp_sql; [|by intros a ?]. apply wp_bind, wp_change, wp_change, wp_ret.
  split_and!; try done; [unfold copied; case_match; lia|]. unfold unwritable. by rewrite M1, M2, Hmax.
Qed.

(** ** Adjustments at exit *)

Definition clamp (v : Z) : Z := if v <? 0 then 0 else if SEMVMX <? v then SEMVMX else v.
Definition row_sem (r : undo_key * undo_row) : Z * Z := (u_object r.1, u_number r.1).
Lemma undo_step d k u o st v pid numbers now :
  ipc_ok d → d_undo d !! k = Some u → d_objects d !! u_object k = Some o → ob_info o = SemInfo st → 
  let d1 := with_sems (alter (λ _, mk_sem (clamp v) pid numbers) (u_object k, u_number k) (d_sems d)) d in
  let d2 := with_objects (alter (set_info (SemInfo (mk_semid (sem_perm st) now (sem_ctime st) (sem_nsems st)))) (u_object k) (d_objects d1)) d1 in
  ipc_ok d2 ∧ level d2 (u_object k, u_number k) = clamp v ∧ ∀ j, j ≠ (u_object k, u_number k) → level d2 j = level d j.
Proof.
  intros Hok Hu Ho Hi d1 d2. destruct (ok_undo d Hok k u Hu) as (_ & Hs & _). apply (ok_sems d Hok) in Hs as [w Hw]. split_and!.
  - apply (info_change d1 _ o); [|done|by rewrite Hi]. apply value_change; [done|]. cbn. unfold clamp, SEMVMX. repeat case_match; breflect; lia.
  - unfold level. cbn. by rewrite lookup_alter_eq, Hw.
  - intros j Hj. unfold level. cbn. by rewrite lookup_alter_ne.
Qed.
Lemma undo_loop_healthy x rows c :
  ipc_ok (t_db c) → NoDup (row_sem <$> rows) → (∀ k u, (k, u) ∈ rows → d_undo (t_db c) !! k = Some u) →
  wp zero (undo_loop x rows) c (λ _ c', d_undo (t_db c') = d_undo (t_db c) ∧
    (∀ r, r ∈ rows → level (t_db c') (row_sem r) = clamp (level (t_db c) (row_sem r) + un_delta r.2)) ∧
    ∀ j, j ∉ row_sem <$> rows → level (t_db c') j = level (t_db c) j) (λ _ _, False).
Proof.
  revert c. induction rows as [|[k u] rows IH]; intros c Hok Hn Hrows; cbn [undo_loop].
  { apply wp_ret. split_and!; [done|by intros r ?%elem_of_nil|done]. }
  cbn [fmap list_fmap] in Hn. apply NoDup_cons in Hn as [Hni Hn]. assert (d_undo (t_db c) !! k = Some u) as Hu by (apply Hrows; by left). destruct (ok_undo _ Hok k u Hu) as (_ & Hs & _). pose proof Hs as (o & st & Ho & Hi & _). cbn in Ho.
  apply wp_bind, wp_sql; [|by intros a ?]. apply wp_bind, wp_get_db. rewrite Ho, Hi. apply wp_bind. destruct (ok_objects _ Hok _ _ Ho) as [_ Hinfo]. unfold info_ok in Hinfo. rewrite Hi in Hinfo. destruct Hinfo as [-> _]. apply wp_ret, wp_bind, wp_value; [by intros a ?|].
  apply (ok_sems _ Hok) in Hs as [w Hw]. rewrite Hw. apply wp_bind. unfold set, md_ipc_save. apply wp_bind, wp_sql; [|by intros a ?]. apply wp_bind, wp_change, wp_change, wp_bind, wp_bind, wp_sql; [|by intros a ?]. apply wp_bind, wp_change, wp_change.
  fold (clamp (sm_value w + un_delta u)). destruct (undo_step (t_db c) k u o st (sm_value w + un_delta u) (un_pid u) (un_pids u) (x_now x) Hok Hu Ho Hi) as (Hok2 & L1 & L2).
  eapply wp_mono; [apply IH; [exact Hok2|done|intros; apply Hrows; by right]| |done]. cbn [t_db]. intros [] c' (E1 & E2 & E3). split_and!.
  - rewrite E1. done.
  - intros r [->|Hr]%elem_of_cons; [rewrite E3 by done; cbn [snd]; etrans; [exact L1|]; unfold level, row_sem; cbn; by rewrite Hw|]. rewrite E2 by done. do 2 f_equal. apply L2. intros E. apply Hni. assert (row_sem (k, u) = row_sem r) as -> by done. by apply list_elem_of_fmap_2.
  - intros j [Hj1 Hj2]%not_elem_of_cons. rewrite E3 by done. by apply L2.
Qed.
(** C36: When the last process of an adjustment space exits and the database answers, each semaphore with an adjustment of that
    space has been moved by it, within 0 and SEMVMX; the other semaphores stay, and exactly these
    adjustments are gone. *)
Theorem undo_release_exact s e space d :
  healthy e → ipc_ok d → space ≠ 0 →
  let '(d', r) := md_ipc_undo_release s e 1 true space d in
  r = 0 ∧
  (∀ object n, level d' (object, n) = match d_undo d !! (s_owner s, space, object, n) with Some u => clamp (level d (object, n) + un_delta u) | None => level d (object, n) end) ∧
  ∀ k, d_undo d' !! k = if decide (u_owner k = s_owner s ∧ u_space k = space) then None else d_undo d !! k.
Proof.
  intros He Hok Hspace. unfold md_ipc_undo_release. cbn [negb orb Z.eqb Z.sub Z.opp Z.add Z.pos_sub]. destruct (begin_healthy s e He (-1, false) d) as (t & -> & Hc & Hl).
  set (rows := undo_rows (s_owner s) space d). assert (∀ k u, (k, u) ∈ rows ↔ d_undo d !! k = Some u ∧ u_owner k = s_owner s ∧ u_space k = space) as Hrows.
  { intros k u. unfold rows, undo_rows. rewrite merge_sort_Permutation, list_elem_of_filter, elem_of_map_to_list. cbn. split; [naive_solver|]. intros (Hu & ? & ?). split_and!; try done; [by right|]. destruct (ok_undo d Hok k u Hu) as (_ & (o & ? & Ho & _) & _). by exists o. }
  assert (NoDup (row_sem <$> rows)) as Hnd.
  { apply NoDup_fmap_2_strong; [|unfold rows, undo_rows; rewrite merge_sort_Permutation; apply NoDup_filter, NoDup_map_to_list]. intros [[[[w1 s1] o1] n1] u1] [[[[w2 s2] o2] n2] u2] (H1 & ? & ?)%Hrows (H2 & ? & ?)%Hrows [= -> ->]. cbn in *. subst. congruence. }
  destruct (md_ipc_undo_apply (e_context e) (s_owner s) space t) as [t' r] eqn:E. assert (wp zero (md_ipc_undo_apply (e_context e) (s_owner s) space) (t_core t) (λ _ c', d_undo (t_db c') = filter (λ u, ¬ (u_owner u.1 = s_owner s ∧ (space = 0 ∨ u_space u.1 = space))) (d_undo d) ∧
    (∀ r, r ∈ rows → level (t_db c') (row_sem r) = clamp (level d (row_sem r) + un_delta r.2)) ∧ ∀ j, j ∉ row_sem <$> rows → level (t_db c') j = level d j) (λ _ _, False)) as Hw.
  { unfold md_ipc_undo_apply. apply wp_bind, wp_sql; [|by intros a ?]. apply wp_bind, wp_get_db, wp_bind. rewrite Hc. cbn [t_db]. fold rows. eapply wp_mono; [apply undo_loop_healthy; [done|done|by intros k u [? _]%Hrows]| |done]. cbn. intros [] c' (E1 & E2 & E3). apply wp_bind, wp_sql; [|by intros a ?]. apply wp_change. split_and!; [cbn; by rewrite E1|exact E2|exact E3]. }
  destruct (wp_run zero _ _ _ _ _ _ Hw Hl E) as [Hl' Hr]. destruct r as [[]|]; [|done]. destruct Hr as (R1 & R2 & R3). cbn [code]. rewrite (finish_healthy e He d t' Hl'). split_and!; [done| |].
  - intros object n. destruct (d_undo d !! _) as [u|] eqn:Hu; [exact (R2 ((s_owner s, space, object, n), u) ltac:(by apply Hrows))|]. apply R3. intros [[[[[w1 s1] o1] n1] u1] [[= -> ->] (H1 & H2 & H3)%Hrows]]%list_elem_of_fmap. cbn in *. subst. by pose proof (eq_trans (eq_sym H1) Hu).
  - intros k. rewrite R1. destruct (decide (u_owner k = s_owner s ∧ u_space k = space)) as [Ek|Ek]; [apply map_lookup_filter_None; right; cbn; tauto|]. destruct (d_undo d !! k) as [u|] eqn:Hu; [apply map_lookup_filter_Some; cbn; tauto|apply map_lookup_filter_None; by left].
Qed.

(** ** Histories, calls and failures *)

Lemma reached_ok d : rtc ipc_step empty_database d → ipc_ok d.
Proof. intros H. assert (∀ d0, rtc ipc_step d0 d → ipc_ok d0 → ipc_ok d) as Hr by (induction 1; eauto using step_consistent). by apply (Hr _ H), empty_consistent. Qed.
(** C12: Whatever the supervisors that share the database do, opening it, calling, cancelling, letting processes
    and themselves exit, and whatever the database answers, the committed tables stay consistent: ids and keys are unique, each semaphore of a
    set has one row with a value in range, adjustments are in range and have a live owner, messages belong to queues
    whose counts are right, waiters wait for an object that exists. *)
Theorem tables_consistent d : rtc ipc_step empty_database d → ipc_ok d.
Proof. apply reached_ok. Qed.
(** A new call, with whatever other supervisors do between its two attempts and before its end, is a
    sequence of transactions, and a call that stays pending is a request that a later attempt accepts. *)
Theorem call_transactions s memory clock c p d :
  call_ok c → (∀ i, 0 ≤ k_array (p_packet p) i) → 0 ≤ p_args p 2 →
  let '(d', p', _) := md_ipc_call_new s memory clock c p d in rtc ipc_step d d' ∧ match p' with Some p' => pending_ok p' | None => True end.
Proof. intros Hc Ha Hn. unfold md_ipc_call_new. destruct (prepare memory clock p) as [p'|] eqn:E; [|done]. apply call_loop_steps; [done|by apply (prepare_ok memory clock p)]. Qed.

(** ** Witnesses *)

Definition demo_ipc : md_ipc := mk_ipc 7 0 None.
Definition demo_moment : context := mk_moment demo_heap (mk_pids ∅ ∅ [] (h_world demo_heap)) 100.
Definition demo_answers : answers := mk_answers demo_moment 0 [] (λ _, 0) true 0 true.
Definition demo_packet : packet := mk_packet 64 (λ _, mk_sembuf 0 0 0) (0, 0) 1 (λ _, 0) (λ _, 0) (mk_semid (mk_perm 0 0 0 0 0 0) 0 0 0) (mk_msqid (mk_perm 0 0 0 0 0 0) 0 0 0 0 0 0 0 0).
Definition demo_call (nr : Z) (args : list Z) (ops : list sembuf) (type : Z) (text : list Z) : md_ipc_pending :=
  mk_pending nr (λ i, default 0 (args !! i)) demo_root demo_packet 40 40 None 1 false false (-1) false false INT64_MAX ops type text (Z.of_nat (length text)).
Definition demo_run (p : md_ipc_pending) (d : database) : database := at_db (attempt demo_ipc demo_answers p d).
Definition demo_semget : md_ipc_pending := demo_call SYS_semget [5; 2; 0x380] [] 0 [].
Definition demo_add : md_ipc_pending := demo_call SYS_semop [1; 0; 1] [mk_sembuf 0 3 SEM_UNDO; mk_sembuf 1 0 0] 0 [].
Definition demo_take : md_ipc_pending := demo_call SYS_semop [1; 0; 1] [mk_sembuf 0 (-2) 0; mk_sembuf 1 (-1) 0] 0 [].
Definition demo_msgget : md_ipc_pending := demo_call SYS_msgget [6; 0x380] [] 0 [].
Definition demo_send (type : Z) (text : list Z) : md_ipc_pending := demo_call SYS_msgsnd [2; 32; 2; 0] [] type text.
Definition demo_receive : md_ipc_pending := demo_call SYS_msgrcv [2; 32; 8; -9; 0] [] 0 [].
Definition demo_open_db : database := fst (md_ipc_open demo_ipc demo_answers false empty_database).
Definition demo_sems : database := demo_run demo_semget demo_open_db.
Definition demo_added : database := demo_run demo_add demo_sems.
Definition demo_queues : database := demo_run (demo_send 4 [20; 21]) (demo_run (demo_send 9 [10; 11]) (demo_run demo_msgget demo_added)).

Lemma demo_answers_ok : answers_ok demo_answers.
Proof. by split. Qed.
Lemma demo_healthy : healthy demo_answers.
Proof. by split. Qed.
Lemma demo_call_ok nr args ops type text : pending_ok (demo_call nr args ops type text).
Proof. by split. Qed.
Lemma demo_open_steps : rtc ipc_step empty_database demo_open_db.
Proof. apply rtc_once. by constructor. Qed.
Lemma demo_run_step nr args ops type text d : rtc ipc_step empty_database d → rtc ipc_step empty_database (demo_run (demo_call nr args ops type text) d).
Proof. intros H. eapply rtc_r; [done|]. by constructor. Qed.
Lemma demo_added_steps : rtc ipc_step empty_database demo_added.
Proof. do 2 apply demo_run_step. apply demo_open_steps. Qed.
Lemma demo_queues_steps : rtc ipc_step empty_database demo_queues.
Proof. do 3 apply demo_run_step. apply demo_added_steps. Qed.

Lemma tables_consistent_witness : ipc_ok demo_queues ∧ level demo_queues (1, 0) = 3 ∧ length (queue 2 demo_queues) = 2%nat.
Proof. split; [apply (tables_consistent demo_queues), demo_queues_steps|]. vm_compute. done. Defined.
Definition demo_calls : call_answers := mk_call demo_answers demo_answers demo_answers (λ d, d) (λ d, d) 0 0.
Lemma call_transactions_witness :
  let '(d', p', r) := md_ipc_call_new demo_ipc true 50 demo_calls demo_semget demo_open_db in
  rtc ipc_step demo_open_db d' ∧ match p' with Some p' => pending_ok p' | None => True end ∧ r = 1 ∧ level d' (1, 1) = 0.
Proof.
  assert (match md_ipc_call_new demo_ipc true 50 demo_calls demo_semget demo_open_db with (d', _, r) => (r =? 1) && (level d' (1, 1) =? 0) end = true) as E by (vm_compute; reflexivity).
  pose proof (call_transactions demo_ipc true 50 demo_calls demo_semget demo_open_db ltac:(by split_and!) ltac:(done) ltac:(done)) as H.
  destruct (md_ipc_call_new _ _ _ _ _ _) as [[d' p'] r]. apply andb_true_iff in E as [E1%Z.eqb_eq E2%Z.eqb_eq]. by destruct H.
Defined.
Definition demo_failing : answers := mk_answers demo_moment 0 [0; 0; 0; 0; 0; 0; 0; -5] (λ _, 0) true 0 true.
Lemma semop_exact_witness :
  let a := attempt demo_ipc demo_answers demo_take demo_added in
  at_error a = 0 ∧ at_result a = MD_IPC_WAIT ∧ at_db a = after_wait demo_ipc demo_take (1, false) demo_added.
Proof.
  destruct (find_sem demo_ipc 1 demo_added) as [st|] eqn:E; [|by vm_compute in E].
  pose proof (semop_exact demo_ipc demo_answers demo_take demo_added st 2 demo_healthy eq_refl eq_refl (reached_ok _ demo_added_steps)) as H.
  assert (first_stuck (values demo_take demo_added) (undos demo_ipc demo_take demo_added) [] (p_ops demo_take) = Some ([mk_sembuf 0 (-2) 0], mk_sembuf 1 (-1) 0)) as Es by (vm_compute; reflexivity).
  assert (ready (values demo_take demo_added) (undos demo_ipc demo_take demo_added) [mk_sembuf 0 (-2) 0] (mk_sembuf 1 (-1) 0) = MD_IPC_WAIT) as Er by (vm_compute; reflexivity).
  assert (sem_nsems <$> find_sem demo_ipc 1 demo_added = Some 2) as En by (vm_compute; reflexivity). rewrite E in En. cbn in En. injection En as En.
  destruct H as (H1 & H2); [|exact E|by cbn; rewrite En|by repeat constructor|vm_compute; reflexivity|].
  - assert (bool_decide (is_Some (d_owners demo_added !! s_owner demo_ipc)) = true) as Eo by (vm_compute; reflexivity). by apply bool_decide_eq_true in Eo.
  - rewrite Es in H2. destruct H2 as [H2 H3]. rewrite Er in H2. split_and!; [exact H1|exact H2|]. rewrite H2 in H3. exact H3.
Defined.
Lemma demo_queue_found : ∃ st, find_msg demo_ipc 2 demo_queues = Some st ∧ is_Some (d_owners demo_queues !! s_owner demo_ipc).
Proof.
  assert (bool_decide (is_Some (find_msg demo_ipc 2 demo_queues)) && bool_decide (is_Some (d_owners demo_queues !! s_owner demo_ipc)) = true) as E by (vm_compute; reflexivity).
  apply andb_true_iff in E as [[st E1]%bool_decide_eq_true E2%bool_decide_eq_true]. eauto.
Qed.
Lemma undo_release_exact_witness : level demo_added (1, 0) = 3 ∧ let '(d', r) := md_ipc_undo_release demo_ipc demo_answers 1 true 1 demo_added in r = 0 ∧ level d' (1, 0) = 0.
Proof.
  split; [vm_compute; reflexivity|]. pose proof (undo_release_exact demo_ipc demo_answers 1 demo_added demo_healthy (reached_ok _ demo_added_steps) ltac:(done)) as H.
  assert (match d_undo demo_added !! (s_owner demo_ipc, 1, 1, 0) with Some u => clamp (level demo_added (1, 0) + un_delta u) | None => level demo_added (1, 0) end = 0) as E by (vm_compute; reflexivity).
  destruct (md_ipc_undo_release _ _ _ _ _ _) as [d' r]. destruct H as (H1 & H2 & _). split; [exact H1|]. rewrite H2. exact E.
Defined.
