(* ===== verification/NetModel.v ===== *)
(** * Logical links, addresses and routes (network_model.c, network_internal.h)

    The control plane of a network namespace: its links with their addresses, its
    routes, next hops and policy rules, as arrays in the order of the code.  The
    namespaces of a fabric are a list, the newest first.  Traffic control, multicast
    membership, sockets and packets are not part of it; fields that only
    autoconfiguration reads are left out. *)
From Stdlib Require Import Ascii.
From S2P Require Import Prelude UserNamespace NetworkIp.

Definition ENODEV : Z := 19.
Definition EXDEV : Z := 18.
Definition EADDRNOTAVAIL : Z := 99.
Definition IFF_UP : Z := 1.
Definition IFF_BROADCAST : Z := 2.
Definition IFF_LOOPBACK : Z := 8.
Definition IFF_MULTICAST : Z := 0x1000.
Definition IFA_F_TEMPORARY : Z := 1.
Definition IFA_F_NODAD : Z := 2.
Definition IFA_F_DADFAILED : Z := 8.
Definition IFA_F_DEPRECATED : Z := 0x20.
Definition IFA_F_TENTATIVE : Z := 0x40.
Definition IFA_F_PERMANENT : Z := 0x80.
Definition IFA_F_MANAGETEMPADDR : Z := 0x100.
Definition IFA_F_NOPREFIXROUTE : Z := 0x200.
Definition RT_TABLE_DEFAULT : Z := 253.
Definition RT_TABLE_MAIN : Z := 254.
Definition RT_TABLE_LOCAL : Z := 255.
Definition RT_SCOPE_UNIVERSE : Z := 0.
Definition RT_SCOPE_LINK : Z := 253.
Definition RT_SCOPE_HOST : Z := 254.
Definition RTPROT_KERNEL : Z := 2.
Definition RTPROT_BOOT : Z := 3.
Definition RTN_UNICAST : Z := 1.
Definition RTN_LOCAL : Z := 2.
Definition RTN_BROADCAST : Z := 3.
Definition RTN_MULTICAST : Z := 5.
Definition FR_ACT_TO_TBL : Z := 1.
Definition FR_ACT_BLACKHOLE : Z := 6.
Definition FR_ACT_UNREACHABLE : Z := 7.
Definition FR_ACT_PROHIBIT : Z := 8.
Definition FIB_RULE_INVERT : Z := 2.
Definition MD_NETWORK_MAX_ADDRESSES : Z := 16.
Definition MD_NETWORK_MAX_ROUTES : Z := 256.
Definition MD_NETWORK_MAX_RULES : Z := 128.
Definition MD_NETWORK_MAX_LINKS : Z := 256.
Definition MD_NET_SCOPE_DEFAULT : Z := UINT64_MAX - 1.

(** ** Data *)

Inductive md_network_link_kind := MD_LINK_LOOPBACK | MD_LINK_UPLINK | MD_LINK_BRIDGE | MD_LINK_VETH | MD_LINK_TUN | MD_LINK_TAP | MD_LINK_VXLAN.
#[global] Instance link_kind_eq_dec : EqDecision md_network_link_kind.
Proof. solve_decision. Defined.
Record md_network_ipv4_policy := mk_policy4 { route_localnet : Z; rp_filter : Z; src_valid_mark : Z; arp_notify : Z }.
Record md_network_ipv6_policy := mk_policy6 {
  p6_forwarding : Z; p6_disabled : Z; p6_accept_dad : Z; p6_accept_ra : Z; p6_autoconf : Z; p6_mtu : Z; p6_hop_limit : Z; p6_addr_gen_mode : Z; p6_use_tempaddr : Z }.
Record md_network_ip_assignment := mk_assignment {
  as_address : md_ip_address; as_peer : md_ip_address; as_prefix : Z; as_scope : Z; as_flags : Z; as_metric : Z; as_preferred : Z; as_valid : Z }.
Record md_network_route_entry := mk_route {
  rt_destination : md_ip_address; rt_gateway : md_ip_address; rt_source : md_ip_address;
  rt_prefix : Z; rt_interface : Z; rt_metric : Z; rt_protocol : Z; rt_scope : Z; rt_nexthop : Z; rt_table : Z; rt_flags : Z;
  rt_valid : Z; rt_preference : Z; rt_metrics : Z * Z * Z }.
Record md_network_nexthop := mk_nexthop { nh_id : Z; nh_interface : Z; nh_flags : Z; nh_protocol : Z; nh_gateway : md_ip_address }.
Record md_network_rule := mk_rule {
  ru_source : md_ip_address; ru_destination : md_ip_address; ru_priority : Z; ru_table : Z; ru_mark : Z; ru_mask : Z; ru_flags : Z;
  ru_source_prefix : Z; ru_destination_prefix : Z; ru_action : Z; ru_protocol : Z }.
Record md_network_vxlan_config := mk_vxlan { vx_id : Z; vx_link : Z; vx_local : md_ip_address; vx_remote : md_ip_address; vx_port : Z }.
Record md_network_interface := mk_link {
  l_kind : md_network_link_kind; l_index : Z; l_flags : Z; l_mtu : Z; l_queue : Z; l_name : string; l_mac : list Z;
  l_vxlan : md_network_vxlan_config; l_master : Z; l_peer : Z; l_hairpin : Z; l_isolated : Z; l_forward_delay : Z;
  l_addresses : list md_network_ip_assignment; l_policy_id : Z; l_policy : md_network_ipv4_policy; l_ipv6 : md_network_ipv6_policy }.
Record md_network_namespace := mk_space {
  n_links : list md_network_interface; n_routes : list md_network_route_entry; n_rules : list md_network_rule; n_nexthops : list md_network_nexthop;
  n_next_policy : Z; n_all : md_network_ipv4_policy; n_defaults : md_network_ipv4_policy; n_all6 : md_network_ipv6_policy; n_defaults6 : md_network_ipv6_policy;
  n_ipv4_forward : Z }.
Record md_network_fabric := mk_fabric { f_next_index : Z; f_spaces : list (loc * md_network_namespace) }.
Definition set_links (x : list md_network_interface) (n : md_network_namespace) := mk_space x (n_routes n) (n_rules n) (n_nexthops n) (n_next_policy n) (n_all n) (n_defaults n) (n_all6 n) (n_defaults6 n) (n_ipv4_forward n).
Definition set_routes (x : list md_network_route_entry) (n : md_network_namespace) := mk_space (n_links n) x (n_rules n) (n_nexthops n) (n_next_policy n) (n_all n) (n_defaults n) (n_all6 n) (n_defaults6 n) (n_ipv4_forward n).
Definition set_rules (x : list md_network_rule) (n : md_network_namespace) := mk_space (n_links n) (n_routes n) x (n_nexthops n) (n_next_policy n) (n_all n) (n_defaults n) (n_all6 n) (n_defaults6 n) (n_ipv4_forward n).
Definition set_nexthops (x : list md_network_nexthop) (n : md_network_namespace) := mk_space (n_links n) (n_routes n) (n_rules n) x (n_next_policy n) (n_all n) (n_defaults n) (n_all6 n) (n_defaults6 n) (n_ipv4_forward n).
Definition set_next_policy (x : Z) (n : md_network_namespace) := mk_space (n_links n) (n_routes n) (n_rules n) (n_nexthops n) x (n_all n) (n_defaults n) (n_all6 n) (n_defaults6 n) (n_ipv4_forward n).
Definition set_addresses (x : list md_network_ip_assignment) (l : md_network_interface) := mk_link (l_kind l) (l_index l) (l_flags l) (l_mtu l) (l_queue l) (l_name l) (l_mac l)
  (l_vxlan l) (l_master l) (l_peer l) (l_hairpin l) (l_isolated l) (l_forward_delay l) x (l_policy_id l) (l_policy l) (l_ipv6 l).
Definition set_bridge (master hairpin isolated : Z) (l : md_network_interface) := mk_link (l_kind l) (l_index l) (l_flags l) (l_mtu l) (l_queue l) (l_name l) (l_mac l)
  (l_vxlan l) master (l_peer l) hairpin isolated (l_forward_delay l) (l_addresses l) (l_policy_id l) (l_policy l) (l_ipv6 l).
Definition set_name (name : string) (l : md_network_interface) := mk_link (l_kind l) (l_index l) (l_flags l) (l_mtu l) (l_queue l) name (l_mac l)
  (l_vxlan l) (l_master l) (l_peer l) (l_hairpin l) (l_isolated l) (l_forward_delay l) (l_addresses l) (l_policy_id l) (l_policy l) (l_ipv6 l).
Definition no_ip : md_ip_address := md_ip_any 0.
Definition up (l : md_network_interface) : bool := negb (Z.land (l_flags l) IFF_UP =? 0).
Definition flag (flags f : Z) : bool := negb (Z.land flags f =? 0).

(** ** Links and their addresses *)

Definition find_test (index : Z) (name : option string) (l : md_network_interface) : bool :=
  if index =? 0 then match name with Some s => bool_decide (l_name l = s) | None => false end else l_index l =? index.
Definition md_network_interface_find (n : md_network_namespace) (index : Z) (name : option string) : option (nat * md_network_interface) :=
  list_find (λ l, find_test index name l = true) (n_links n).
Definition md_network_interface_owner (f : md_network_fabric) (index : Z) : option (loc * md_network_namespace) :=
  if index =? 1 then None else snd <$> list_find (λ s, is_Some (md_network_interface_find (snd s) index None)) (f_spaces f).
Definition md_network_address_destination (a : md_network_ip_assignment) : md_ip_address := if md_ip_unspecified (as_peer a) then as_address a else as_peer a.
Definition usable (a : md_network_ip_assignment) : bool := Z.land (as_flags a) (Z.lor IFA_F_TENTATIVE IFA_F_DADFAILED) =? 0.
Definition source_target (target : md_ip_address) : md_ip_address :=
  if (ip_family target =? AF_INET6) && md_ip_multicast target && (Z.land (byte (ip_bytes target) 1) 15 <=? 2)
  then mk_ip AF_INET6 (copy_at (zeros 16) 0 [0xfe; 0x80]) else target.
Definition source_score (link : md_network_interface) (target : md_ip_address) (a : md_network_ip_assignment) : Z :=
  1 + (if flag (as_flags a) IFA_F_DEPRECATED then 0 else 8)
  + (if md_ip_prefix (md_network_address_destination a) target (as_prefix a) then 1 else 0) + (if md_ip_equal (as_address a) target then 16 else 0)
  + (if (ip_family (as_address a) =? AF_INET6) && Bool.eqb (flag (as_flags a) IFA_F_TEMPORARY) (1 <? p6_use_tempaddr (l_ipv6 link)) then 2 else 0).
Definition source_step (link : md_network_interface) (target : md_ip_address) (s : md_ip_address * Z) (a : md_network_ip_assignment) : md_ip_address * Z :=
  let '(best, score) := s in
  if negb (ip_family (as_address a) =? ip_family target) || negb (usable a) then s
  else if negb (Bool.eqb (md_ip_linklocal (as_address a)) (md_ip_linklocal target)) && negb (md_ip_multicast target) then s
  else let candidate := source_score link target a in if score <? candidate then (as_address a, candidate) else s.
Definition md_network_interface_source (link : option md_network_interface) (target : md_ip_address) : md_ip_address :=
  let target := source_target target in
  let best := md_ip_any (ip_family target) in
  match link with None => best | Some link => fst (foldl (source_step link target) (best, 0) (l_addresses link)) end.
Definition is_loopback (l : md_network_interface) : bool := bool_decide (l_kind l = MD_LINK_LOOPBACK).
Definition md_network_interface_has (link : md_network_interface) (address : md_ip_address) : bool :=
  if md_ip_unspecified address then false
  else existsb (λ a, usable a && (md_ip_equal (as_address a) address
         || is_loopback link && (ip_family address =? AF_INET) && (ip_family (as_address a) =? AF_INET) && md_ip_is_loopback address)) (l_addresses link).
(** The IPv4 word in host order. *)
Definition v4_word (a : md_ip_address) : Z := byte (ip_bytes a) 0 * 16777216 + byte (ip_bytes a) 1 * 65536 + byte (ip_bytes a) 2 * 256 + byte (ip_bytes a) 3.
Definition md_network_interface_broadcast (link : md_network_interface) (address : md_ip_address) : bool :=
  if negb (ip_family address =? AF_INET) then false
  else if v4_word address =? UINT32_MAX then true
  else if negb (flag (l_flags link) IFF_BROADCAST) then false
  else existsb (λ a, (ip_family (as_address a) =? AF_INET) && (as_prefix a <? 31)
         && let mask := if as_prefix a =? 0 then 0 else wrap32 (Z.shiftl UINT32_MAX (32 - as_prefix a)) in
            v4_word address =? Z.lor (v4_word (as_address a)) (Z.lxor mask UINT32_MAX)) (l_addresses link).
Fixpoint address_type_loop (links : list md_network_interface) (address : md_ip_address) : Z :=
  match links with
  | [] => RTN_UNICAST
  | l :: links => if md_network_interface_has l address then RTN_LOCAL else if md_network_interface_broadcast l address then RTN_BROADCAST else address_type_loop links address
  end.
Definition md_network_address_type (n : md_network_namespace) (address : md_ip_address) : Z :=
  if md_ip_multicast address then RTN_MULTICAST
  else if (ip_family address =? AF_INET) && (v4_word address =? UINT32_MAX) then RTN_BROADCAST
  else address_type_loop (n_links n) address.
Definition md_network_route_source (n : md_network_namespace) (link : option md_network_interface) (route : option md_network_route_entry) (target : md_ip_address) : md_ip_address :=
  match route with
  | Some r => if negb (md_ip_unspecified (rt_source r)) && existsb (λ l, md_network_interface_has l (rt_source r)) (n_links n) then rt_source r else md_network_interface_source link target
  | None => md_network_interface_source link target
  end.
(** A new address, another value for one, or its removal: the link and the error. *)
Definition md_network_interface_address (link : md_network_interface) (address : md_network_ip_assignment) (remove exclusive : bool) : md_network_interface + Z :=
  if md_ip_unspecified (as_address address) || (Z.of_nat (md_ip_size (as_address address)) * 8 <? as_prefix address) then inr (- EINVAL)
  else match list_find (λ a, md_ip_equal (as_address a) (as_address address) = true) (l_addresses link) with
  | Some (i, a) =>
      if remove then
        if negb (as_prefix a =? as_prefix address) || negb (md_ip_unspecified (as_peer address)) && negb (md_ip_equal (as_peer a) (as_peer address)) then inr (- EADDRNOTAVAIL)
        else inl (set_addresses (delete i (l_addresses link)) link)
      else if exclusive then inr (- EEXIST)
      else inl (set_addresses (<[i := address]> (l_addresses link)) link)
  | None =>
      if remove then inr (- EADDRNOTAVAIL)
      else if Z.of_nat (length (l_addresses link)) =? MD_NETWORK_MAX_ADDRESSES then inr (- ENOSPC)
      else inl (set_addresses (l_addresses link ++ [address]) link)
  end.
Definition permanent (a : md_ip_address) (prefix scope : Z) : md_network_ip_assignment := mk_assignment a no_ip prefix scope IFA_F_PERMANENT 0 0 0.
(** The result of a call that is ignored. *)
Definition add_address (link : md_network_interface) (a : md_network_ip_assignment) : md_network_interface :=
  match md_network_interface_address link a false false with inl l => l | inr _ => link end.
Definition link_local (mac : list Z) : md_ip_address :=
  mk_ip AF_INET6 ([0xfe; 0x80; 0; 0; 0; 0; 0; 0; Z.lxor (byte mac 0) 2; byte mac 1; byte mac 2; 0xff; 0xfe] ++ take 3 (drop 3 mac)).
Definition md_network_interface_up (link : md_network_interface) : md_network_interface :=
  if negb (up link) then link
  else if is_loopback link then
    let a := md_ip_loopback AF_INET in
    let link := if md_network_interface_has link a then link else add_address link (permanent a 8 RT_SCOPE_HOST) in
    if negb (p6_disabled (l_ipv6 link) =? 0) then link
    else let a := md_ip_loopback AF_INET6 in if md_network_interface_has link a then link else add_address link (permanent a 128 RT_SCOPE_HOST)
  else if (p6_disabled (l_ipv6 link) =? 0) && (p6_addr_gen_mode (l_ipv6 link) =? 0) && (1280 <=? l_mtu link) then
    if existsb (λ a, md_ip_linklocal (as_address a)) (l_addresses link) then link
    else add_address link (permanent (link_local (l_mac link)) 64 RT_SCOPE_LINK)
  else link.
Definition family6 (a : md_ip_address) : bool := ip_family a =? AF_INET6.
Definition flush_link (index : Z) (l : md_network_interface) : md_network_interface :=
  if l_index l =? index then set_addresses (filter (λ a, family6 (as_address a) = false) (l_addresses l)) l else l.
Definition md_network_interface_ipv6_flush (n : md_network_namespace) (index : Z) : md_network_namespace :=
  set_nexthops (filter (λ h, ((nh_interface h =? index) && family6 (nh_gateway h)) = false) (n_nexthops n))
    (set_routes (filter (λ r, ((rt_interface r =? index) && family6 (rt_destination r)) = false) (n_routes n))
      (set_links (flush_link index <$> n_links n) n)).

(** ** Route lookup *)

Definition md_network_connected_route (link : md_network_interface) (a : md_network_ip_assignment) : md_network_route_entry :=
  mk_route (md_ip_network (md_network_address_destination a) (as_prefix a)) (md_ip_any (ip_family (as_address a)))
    (if md_ip_unspecified (as_peer a) then md_ip_any (ip_family (as_address a)) else as_address a)
    (as_prefix a) (l_index link) (if as_metric a =? 0 then (if ip_family (as_address a) =? AF_INET6 then 256 else 0) else as_metric a)
    RTPROT_KERNEL RT_SCOPE_LINK 0 0 0 0 0 (0, 0, 0).
(** The best route so far, with its prefix and its metric. *)
Record selection := mk_selection { se_link : option md_network_interface; se_route : md_network_route_entry; se_prefix : Z; se_metric : Z }.
(** A link that can carry traffic to [ip]. *)
Definition link_fits (ip : md_ip_address) (output : Z) (l : md_network_interface) : bool :=
  up l && ((output =? 0) || (output =? l_index l)) && (negb (md_ip_is_loopback ip) || is_loopback l).
Definition is_local (ip : md_ip_address) (l : md_network_interface) (a : md_network_ip_assignment) : bool :=
  md_ip_equal (as_address a) ip || is_loopback l && (ip_family ip =? AF_INET) && md_ip_is_loopback ip.
(** The route of an address, in the local or in the main table. *)
Definition connected (ip : md_ip_address) (table : Z) (l : md_network_interface) (a : md_network_ip_assignment) : option md_network_route_entry :=
  if negb (ip_family (as_address a) =? ip_family ip) || negb (usable a) then None
  else
    let local := is_local ip l a in
    if (table =? RT_TABLE_LOCAL) && negb local then None
    else
      let local := if table =? RT_TABLE_MAIN then false else local in
      let bits := if local then Z.of_nat (md_ip_size ip) * 8 else as_prefix a in
      if (local || negb (flag (as_flags a) IFA_F_NOPREFIXROUTE)) && (local || md_ip_prefix (md_network_address_destination a) ip bits) then
        let r := md_network_connected_route l a in
        Some (if local then mk_route ip (rt_gateway r) (rt_source r) bits (rt_interface r) (rt_metric r) (rt_protocol r) (rt_scope r) (rt_nexthop r) RT_TABLE_LOCAL (rt_flags r) (rt_valid r) (rt_preference r) (rt_metrics r) else r)
      else None.
Definition connected_step (ip : md_ip_address) (table : Z) (l : md_network_interface) (s : selection) (a : md_network_ip_assignment) : selection :=
  match connected ip table l a with
  | Some r => if bool_decide (se_link s = None) || (se_prefix s <? rt_prefix r) then mk_selection (Some l) r (rt_prefix r) (rt_metric r) else s
  | None => s
  end.
Definition link_step (ip : md_ip_address) (output table : Z) (s : selection) (l : md_network_interface) : selection :=
  if link_fits ip output l then foldl (connected_step ip table l) s (l_addresses l) else s.
Definition preference (p : Z) : Z := if p =? 1 then 2 else if p =? 3 then 0 else 1.
Definition table_of (r : md_network_route_entry) : Z := if rt_table r =? 0 then RT_TABLE_MAIN else rt_table r.
(** The link of a route that can be used. *)
Definition static_link (n : md_network_namespace) (ip : md_ip_address) (output : Z) (r : md_network_route_entry) : option md_network_interface :=
  match snd <$> md_network_interface_find n (rt_interface r) None with
  | Some l =>
      if link_fits ip output l && negb ((ip_family ip =? AF_INET6) && negb (p6_disabled (l_ipv6 l) =? 0)) && negb (md_ip_unspecified (md_network_route_source n (Some l) (Some r) ip))
      then Some l else None
  | None => None
  end.
Definition worse (s : selection) (r : md_network_route_entry) : bool :=
  negb (bool_decide (se_link s = None)) && ((rt_prefix r <? se_prefix s)
    || (rt_prefix r =? se_prefix s) && ((se_metric s <? rt_metric r) || (rt_metric r =? se_metric s) && (preference (rt_preference r) <=? preference (rt_preference (se_route s))))).
Definition static_step (n : md_network_namespace) (ip : md_ip_address) (output table : Z) (s : selection) (r : md_network_route_entry) : selection :=
  if negb (table_of r =? table) then s
  else if negb (md_ip_prefix ip (rt_destination r) (rt_prefix r)) || worse s r then s
  else match static_link n ip output r with
  | Some l => mk_selection (Some l) r (rt_prefix r) (rt_metric r)
  | None => s
  end.
(** A multicast destination without a route. *)
Definition multicast_link (n : md_network_namespace) (ip : md_ip_address) (output : Z) (l : md_network_interface) : bool :=
  up l && (if output =? 0 then negb (is_loopback l) else output =? l_index l)
  && negb ((ip_family ip =? AF_INET6) && negb (p6_disabled (l_ipv6 l) =? 0)) && negb (md_ip_unspecified (md_network_interface_source (Some l) ip)).
Definition multicast_route (n : md_network_namespace) (ip : md_ip_address) (output : Z) (s : selection) : selection :=
  match list_find (λ l, multicast_link n ip output l = true) (n_links n) with
  | Some (_, l) =>
      let bits := if ip_family ip =? AF_INET6 then 8 else 4 in
      mk_selection (Some l) (mk_route (md_ip_network ip bits) (md_ip_any (ip_family ip)) no_ip bits (l_index l) 256 RTPROT_KERNEL RT_SCOPE_LINK 0 0 0 0 0 (0, 0, 0)) (se_prefix s) (se_metric s)
  | None => s
  end.
Definition selection_start (ip : md_ip_address) : selection :=
  mk_selection None (mk_route (md_ip_any (ip_family ip)) (md_ip_any (ip_family ip)) no_ip 0 0 0 0 0 0 0 0 0 0 (0, 0, 0)) 0 UINT32_MAX.
Definition select (n : md_network_namespace) (ip : md_ip_address) (output table : Z) : selection :=
  let s := if (table =? RT_TABLE_LOCAL) || (table =? RT_TABLE_MAIN) then foldl (link_step ip output table) (selection_start ip) (n_links n) else selection_start ip in
  foldl (static_step n ip output table) s (n_routes n).
Definition md_network_route_table (n : md_network_namespace) (ip : md_ip_address) (output table : Z) : option md_network_interface * md_network_route_entry :=
  let s := select n ip output table in
  let s := if (table =? RT_TABLE_MAIN) && bool_decide (se_link s = None) && md_ip_multicast ip && (negb (output =? 0) || (ip_family ip =? AF_INET6)) then multicast_route n ip output s else s in
  let r := se_route s in
  (se_link s,
   if md_ip_unspecified (rt_source r) then r
   else mk_route (rt_destination r) (rt_gateway r) (md_network_route_source n (se_link s) (Some r) ip) (rt_prefix r) (rt_interface r) (rt_metric r) (rt_protocol r) (rt_scope r)
          (rt_nexthop r) (rt_table r) (rt_flags r) (rt_valid r) (rt_preference r) (rt_metrics r)).

(** ** Policy rules *)

Definition rule_matches (source destination : md_ip_address) (mark : Z) (r : md_network_rule) : bool :=
  let matches := ((ru_source_prefix r =? 0) || md_ip_prefix source (ru_source r) (ru_source_prefix r))
    && md_ip_prefix destination (ru_destination r) (ru_destination_prefix r) && (Z.land (Z.lxor mark (ru_mark r)) (ru_mask r) =? 0) in
  (ip_family (ru_destination r) =? ip_family destination) && negb (Bool.eqb matches (flag (ru_flags r) FIB_RULE_INVERT)).
Definition rule_error (action : Z) : Z := if action =? FR_ACT_PROHIBIT then - EACCES else if action =? FR_ACT_BLACKHOLE then - EINVAL else - ENETUNREACH.
Fixpoint policy_loop (n : md_network_namespace) (rules : list md_network_rule) (source destination : md_ip_address) (mark output : Z) : (md_network_interface * md_network_route_entry) + Z :=
  match rules with
  | [] => inr (- ENETUNREACH)
  | r :: rules =>
      if negb (rule_matches source destination mark r) then policy_loop n rules source destination mark output
      else if negb (ru_action r =? FR_ACT_TO_TBL) then inr (rule_error (ru_action r))
      else match md_network_route_table n destination output (ru_table r) with
      | (Some l, route) => inl (l, route)
      | (None, _) => policy_loop n rules source destination mark output
      end
  end.
Definition md_network_policy_route (n : md_network_namespace) (source destination : md_ip_address) (mark output : Z) : (md_network_interface * md_network_route_entry) + Z :=
  policy_loop n (n_rules n) source destination mark output.
Definition md_network_route_lookup (n : md_network_namespace) (ip : md_ip_address) (output : Z) : option (md_network_interface * md_network_route_entry) :=
  match md_network_policy_route n (md_ip_any (ip_family ip)) ip 0 output with inl x => Some x | inr _ => None end.
Definition md_network_ingress (n : md_network_namespace) (link : option md_network_interface) (source destination : md_ip_address) (mark : Z) : Z :=
  match link with
  | None => - ENETUNREACH
  | Some l =>
      if ip_family source =? AF_INET6 then (if negb (is_loopback l) && (md_ip_is_loopback source || md_ip_is_loopback destination) then - ENETUNREACH else 0)
      else if negb (is_loopback l) && (route_localnet (n_all n) =? 0) && (route_localnet (l_policy l) =? 0) && (md_ip_is_loopback source || md_ip_is_loopback destination) then - ENETUNREACH
      else
        let filter := Z.max (rp_filter (n_all n)) (rp_filter (l_policy l)) in
        if filter =? 0 then 0
        else match md_network_policy_route n destination source (if negb (src_valid_mark (n_all n) =? 0) || negb (src_valid_mark (l_policy l) =? 0) then mark else 0) 0 with
        | inl (r, _) => if (filter =? 1) && negb (l_index r =? l_index l) then - ENETUNREACH else 0
        | inr _ => - ENETUNREACH
        end
  end.

(** ** Creating, moving and removing links *)

Definition get_space (f : md_network_fabric) (at_ : loc) : option md_network_namespace := snd <$> (snd <$> list_find (λ s, fst s = at_) (f_spaces f)).
Definition put_space (f : md_network_fabric) (at_ : loc) (n : md_network_namespace) : md_network_fabric :=
  mk_fabric (f_next_index f) ((λ s, if bool_decide (fst s = at_) then (fst s, n) else s) <$> f_spaces f).
(** [memory]: a reallocation succeeds. *)
Definition md_network_interface_reserve (memory : bool) (n : md_network_namespace) (extra : Z) : Z :=
  if MD_NETWORK_MAX_LINKS - Z.of_nat (length (n_links n)) <? extra then - ENOSPC else if memory then 0 else - ENOMEM.
Fixpoint name_chars (s : string) : bool :=
  match s with
  | EmptyString => true
  | String c s => negb (bool_decide (c = "/"%char) || bool_decide (c = ":"%char) || bool_decide (c = " "%char) || bool_decide (c = "009"%char) || bool_decide (c = "010"%char)) && name_chars s
  end.
Definition valid_name (name : string) : bool :=
  negb (bool_decide (name = ""%string)) && (Z.of_nat (String.length name) <? 16) && negb (bool_decide (name = "."%string)) && negb (bool_decide (name = ".."%string)) && name_chars name.
Definition md_network_bridge_forward (ingress : option md_network_interface) (egress : md_network_interface) : bool :=
  if l_master egress =? 0 then false
  else match ingress with
  | None => true
  | Some i => (l_master i =? l_master egress) && (negb (l_index i =? l_index egress) || negb (l_hairpin egress =? 0)) && negb (negb (l_isolated i =? 0) && negb (l_isolated egress =? 0))
  end.
Definition loopback_kind (kind : md_network_link_kind) : bool := bool_decide (kind = MD_LINK_LOOPBACK).
Definition no_vxlan : md_network_vxlan_config := mk_vxlan 0 0 no_ip no_ip 0.
Definition set_mtu6 (p : md_network_ipv6_policy) (mtu : Z) : md_network_ipv6_policy :=
  mk_policy6 (p6_forwarding p) (p6_disabled p) (p6_accept_dad p) (p6_accept_ra p) (p6_autoconf p) mtu (p6_hop_limit p) (p6_addr_gen_mode p) (p6_use_tempaddr p).
Definition new_link (n : md_network_namespace) (kind : md_network_link_kind) (name : string) (id : Z) : md_network_interface :=
  let mtu := if loopback_kind kind then 65536 else 1500 in
  mk_link kind id (if loopback_kind kind then IFF_LOOPBACK else Z.lor IFF_BROADCAST IFF_MULTICAST) mtu 1000 name
    (if loopback_kind kind then zeros 6 else [2; 0; 0; Z.land (Z.shiftr id 16) 255; Z.land (Z.shiftr id 8) 255; Z.land id 255])
    no_vxlan 0 0 0 0 (if bool_decide (kind = MD_LINK_BRIDGE) then 1500 else 0) [] (n_next_policy n + 1) (n_defaults n) (set_mtu6 (n_defaults6 n) mtu).
(** [next]: the next index of the fabric.  The next index, the namespace and the index of the link. *)
Definition md_network_interface_add (memory : bool) (next : Z) (n : md_network_namespace) (kind : md_network_link_kind) (name : string) : (Z * md_network_namespace * Z) + Z :=
  if negb (valid_name name) then inr (- EINVAL)
  else if bool_decide (is_Some (md_network_interface_find n 0 (Some name))) then inr (- EEXIST)
  else if (next =? INT_MAX) || (n_next_policy n =? MD_NET_SCOPE_DEFAULT - 1) then inr (- ENOSPC)
  else
    let error := md_network_interface_reserve memory n 1 in
    if negb (error =? 0) then inr error
    else
      let id := if loopback_kind kind then 1 else next in
      inl (if loopback_kind kind then next else next + 1, set_next_policy (n_next_policy n + 1) (set_links (n_links n ++ [new_link n kind name id]) n), id).
(** The links that a removal leaves, with no member of the removed bridge. *)
Definition unlinked (index : Z) (n : md_network_namespace) : md_network_namespace :=
  set_nexthops (filter (λ h, (nh_interface h =? index) = false) (n_nexthops n))
    (set_routes (filter (λ r, (rt_interface r =? index) = false) (n_routes n))
      (set_links ((λ l, if l_master l =? index then set_bridge 0 0 0 l else l) <$> filter (λ l, (l_index l =? index) = false) (n_links n)) n)).
(** Tunnels over a link go first.  An underlay is no tunnel, so that one level of recursion is enough. *)
Definition is_tunnel (index : Z) (l : md_network_interface) : bool := bool_decide (l_kind l = MD_LINK_VXLAN) && (vx_link (l_vxlan l) =? index).
Fixpoint tunnels_loop (remove : md_network_namespace → Z → option md_network_namespace) (index : Z) (k i : nat) (n : md_network_namespace) : option md_network_namespace :=
  match k, n_links n !! i with
  | _, None => Some n
  | O, Some _ => None
  | S k, Some l => if is_tunnel index l then n ← remove n (l_index l); tunnels_loop remove index k i n else tunnels_loop remove index k (S i) n
  end.
Fixpoint remove_loop (fuel : nat) (n : md_network_namespace) (index : Z) : option md_network_namespace :=
  match fuel with
  | O => None
  | S fuel => n ← tunnels_loop (remove_loop fuel) index (length (n_links n)) 0 n; Some (unlinked index n)
  end.
Definition remove_one (n : md_network_namespace) (index : Z) : option md_network_namespace := remove_loop (S (length (n_links n))) n index.
Definition removable (kind : md_network_link_kind) : bool := negb (loopback_kind kind) && negb (bool_decide (kind = MD_LINK_UPLINK)).
(** The fabric and the error; [None] when the recursion does not end. *)
Definition md_network_interface_remove (f : md_network_fabric) (at_ : loc) (n : md_network_namespace) (index : Z) : option (md_network_fabric * Z) :=
  match snd <$> md_network_interface_find n index None with
  | None => Some (f, - ENODEV)
  | Some link =>
      if negb (removable (l_kind link)) then Some (f, - EOPNOTSUPP)
      else
        let other := fst <$> md_network_interface_owner f (l_peer link) in
        n ← remove_one n index;
        let f := put_space f at_ n in
        match other with
        | None => Some (f, 0)
        | Some o => match get_space f o with
                    | None => Some (f, 0)
                    | Some m => m ← remove_one m (l_peer link); Some (put_space f o m, 0)
                    end
        end
  end.
(** To another namespace of the fabric, or to another name. *)
Definition moved_link (to : md_network_namespace) (name : string) (l : md_network_interface) : md_network_interface :=
  mk_link (l_kind l) (l_index l) (l_flags l) (l_mtu l) (l_queue l) name (l_mac l) (l_vxlan l) 0 (l_peer l) 0 0 (l_forward_delay l) (l_addresses l) (n_next_policy to + 1) (n_defaults to) (n_defaults6 to).
Definition md_network_interface_move (memory : bool) (f : md_network_fabric) (from to : loc) (index : Z) (name : option string) : option (md_network_fabric * Z) :=
  match get_space f from, get_space f to with
  | Some n, Some m =>
      match md_network_interface_find n index None with
      | None => Some (f, - ENODEV)
      | Some (i, link) =>
          if negb (bool_decide (from = to)) && negb (bool_decide (l_kind link = MD_LINK_VETH)) then Some (f, - EOPNOTSUPP)
          else
            let name := default (l_name link) name in
            if negb (valid_name name) then Some (f, - EINVAL)
            else if match md_network_interface_find m 0 (Some name) with Some (_, c) => negb (bool_decide (from = to) && (l_index c =? l_index link)) | None => false end then Some (f, - EEXIST)
            else if bool_decide (from = to) then Some (put_space f from (set_links (<[i := set_name name link]> (n_links n)) n), 0)
            else if n_next_policy m =? MD_NET_SCOPE_DEFAULT - 1 then Some (f, - ENOSPC)
            else
              let error := md_network_interface_reserve memory m 1 in
              if negb (error =? 0) then Some (f, error)
              else
                n ← remove_one n index;
                let m := set_next_policy (n_next_policy m + 1) (set_links (n_links m ++ [moved_link m name link]) m) in
                Some (put_space (put_space f from n) to m, 0)
      end
  | _, _ => Some (f, - EXDEV)
  end.

(** ** The initial namespace *)

Definition policy_rule (family priority table : Z) : md_network_rule := mk_rule (md_ip_any family) (md_ip_any family) priority table 0 0 0 0 0 FR_ACT_TO_TBL RTPROT_KERNEL.
Definition md_network_policy_init : list md_network_rule :=
  [policy_rule AF_INET 0 RT_TABLE_LOCAL; policy_rule AF_INET6 0 RT_TABLE_LOCAL; policy_rule AF_INET 32766 RT_TABLE_MAIN; policy_rule AF_INET6 32766 RT_TABLE_MAIN;
   policy_rule AF_INET 32767 RT_TABLE_DEFAULT].
Definition md_network_forwarding (n : md_network_namespace) (family input : Z) : bool :=
  if negb (family =? AF_INET6) then negb (n_ipv4_forward n =? 0)
  else match list_find (λ l, l_index l = input) (n_links n) with
  | Some (_, l) => negb (p6_forwarding (l_ipv6 l) =? 0) && (p6_disabled (l_ipv6 l) =? 0)
  | None => negb (p6_forwarding (n_all6 n) =? 0)
  end.
