(* ===== verification/NetRoute.v ===== *)
(** * Route lookup and policy routing are what they promise (network_model.c, network_policy.c)

    [md_network_route_table] keeps the best entry so far in two loops.  Here a lookup
    is compared with the set of its candidates, and a policy lookup with the list of
    the rules. *)
From S2P Require Import Prelude UserNamespace NetworkIp NetModel.

(** ** Candidates *)

(** The routes of the addresses, and the entries of the table, that reach [ip]. *)
Definition connected_candidate (n : md_network_namespace) (ip : md_ip_address) (output table : Z) (l : md_network_interface) (r : md_network_route_entry) : Prop :=
  (table = RT_TABLE_LOCAL ∨ table = RT_TABLE_MAIN) ∧ l ∈ n_links n ∧ link_fits ip output l = true ∧ ∃ a, a ∈ l_addresses l ∧ connected ip table l a = Some r.
Definition static_candidate (n : md_network_namespace) (ip : md_ip_address) (output table : Z) (l : md_network_interface) (r : md_network_route_entry) : Prop :=
  r ∈ n_routes n ∧ table_of r = table ∧ md_ip_prefix ip (rt_destination r) (rt_prefix r) = true ∧ static_link n ip output r = Some l.
Definition candidate (n : md_network_namespace) (ip : md_ip_address) (output table : Z) (l : md_network_interface) (r : md_network_route_entry) : Prop :=
  connected_candidate n ip output table l r ∨ static_candidate n ip output table l r.
(** A longer prefix, then a smaller metric, then a higher preference. *)
Definition no_better (r best : md_network_route_entry) : Prop :=
  rt_prefix r < rt_prefix best ∨ rt_prefix r = rt_prefix best ∧
    (rt_metric best < rt_metric r ∨ rt_metric r = rt_metric best ∧ preference (rt_preference r) ≤ preference (rt_preference best)).
Lemma no_better_refl r : no_better r r.
Proof. unfold no_better. lia. Qed.
Lemma no_better_trans a b c : no_better a b → no_better b c → no_better a c.
Proof. unfold no_better. lia. Qed.
Lemma no_better_prefix a b : no_better a b → rt_prefix a ≤ rt_prefix b.
Proof. unfold no_better. lia. Qed.

(** ** The first loop *)

(** What a selection knows of the candidates [C] met so far. *)
Definition longest (C : md_network_interface → md_network_route_entry → Prop) (s : selection) : Prop :=
  match se_link s with
  | None => ∀ l r, ¬ C l r
  | Some l => C l (se_route s) ∧ se_prefix s = rt_prefix (se_route s) ∧ se_metric s = rt_metric (se_route s) ∧ ∀ l' r', C l' r' → rt_prefix r' ≤ se_prefix s
  end.
Definition grown (C : md_network_interface → md_network_route_entry → Prop) (l : md_network_interface) (o : option md_network_route_entry) : md_network_interface → md_network_route_entry → Prop :=
  λ l' r', C l' r' ∨ l' = l ∧ o = Some r'.
Lemma longest_ext C D s : (∀ l r, C l r ↔ D l r) → longest C s → longest D s.
Proof. unfold longest. intros H. destruct (se_link s); naive_solver. Qed.
Lemma connected_step_longest ip table l a C s :
  longest C s → longest (grown C l (connected ip table l a)) (connected_step ip table l s a).
Proof.
  unfold connected_step, grown. intros H. destruct (connected ip table l a) as [r|] eqn:E.
  - unfold longest in H. destruct (se_link s) as [b|] eqn:El.
    + rewrite bool_decide_eq_false_2 by done. cbn. destruct H as (Hc & Hp & Hm & Hmax).
      destruct (Z.ltb_spec (se_prefix s) (rt_prefix r)).
      * unfold longest; cbn. split_and!; [by right| done | done |]. intros l' r' [Hc'|[-> [= <-]]]; [specialize (Hmax _ _ Hc')|]; lia.
      * unfold longest; rewrite El. split_and!; [by left| done | done |]. intros l' r' [Hc'|[-> [= <-]]]; [by eapply Hmax|lia].
    + rewrite bool_decide_eq_true_2 by done. cbn. unfold longest; cbn. split_and!; [by right| done | done |].
      intros l' r' [Hc'|[-> [= <-]]]; [by destruct (H _ _ Hc')|lia].
  - eapply longest_ext, H. naive_solver.
Qed.
Lemma addresses_longest ip table l as_ C s :
  longest C s →
  longest (λ l' r', C l' r' ∨ l' = l ∧ ∃ a, a ∈ as_ ∧ connected ip table l a = Some r') (foldl (connected_step ip table l) s as_).
Proof.
  revert C s. induction as_ as [|a as_ IH]; intros C s H; cbn.
  - eapply longest_ext, H. intros l' r'. setoid_rewrite elem_of_nil. naive_solver.
  - eapply longest_ext, IH, connected_step_longest, H. unfold grown. intros l' r'. setoid_rewrite elem_of_cons. naive_solver.
Qed.
Lemma links_longest ip output table links C s :
  longest C s →
  longest (λ l r, C l r ∨ l ∈ links ∧ link_fits ip output l = true ∧ ∃ a, a ∈ l_addresses l ∧ connected ip table l a = Some r) (foldl (link_step ip output table) s links).
Proof.
  revert C s. induction links as [|l links IH]; intros C s H; cbn.
  - eapply longest_ext, H. intros l' r'. setoid_rewrite elem_of_nil. naive_solver.
  - unfold link_step at 2. destruct (link_fits ip output l) eqn:E.
    + eapply longest_ext, IH, addresses_longest, H. intros l' r'. rewrite elem_of_cons. naive_solver.
    + eapply longest_ext, IH, H. intros l' r'. rewrite elem_of_cons. naive_solver congruence.
Qed.

(** ** The second loop *)

Definition optimal (C S : md_network_interface → md_network_route_entry → Prop) (s : selection) : Prop :=
  match se_link s with
  | None => ∀ l r, ¬ C l r ∧ ¬ S l r
  | Some l =>
      (C l (se_route s) ∨ S l (se_route s)) ∧ se_prefix s = rt_prefix (se_route s) ∧ se_metric s = rt_metric (se_route s)
      ∧ (∀ l' r', C l' r' → rt_prefix r' ≤ rt_prefix (se_route s)) ∧ ∀ l' r', S l' r' → no_better r' (se_route s)
  end.
Lemma optimal_ext C S T s : (∀ l r, S l r ↔ T l r) → optimal C S s → optimal C T s.
Proof. unfold optimal. intros H. destruct (se_link s); intros Ho; [|intros l r; rewrite <-H; apply Ho]. rewrite <-H. setoid_rewrite <-H. exact Ho. Qed.
Lemma longest_optimal C s : longest C s → optimal C (λ _ _, False) s.
Proof. unfold longest, optimal. destruct (se_link s); [intros (?&<-&?&?)|]; naive_solver. Qed.
Lemma worse_spec s r :
  worse s r = true ↔ se_link s ≠ None ∧ (rt_prefix r < se_prefix s ∨ rt_prefix r = se_prefix s ∧
    (se_metric s < rt_metric r ∨ rt_metric r = se_metric s ∧ preference (rt_preference r) ≤ preference (rt_preference (se_route s)))).
Proof.
  unfold worse. rewrite !andb_true_iff, !orb_true_iff, !andb_true_iff, orb_true_iff, andb_true_iff, negb_true_iff, bool_decide_eq_false.
  rewrite !Z.ltb_lt, !Z.eqb_eq, Z.leb_le. tauto.
Qed.
(** The entries that the second loop can choose. *)
Definition entry (n : md_network_namespace) (ip : md_ip_address) (output table : Z) (l : md_network_interface) (r : md_network_route_entry) : Prop :=
  table_of r = table ∧ md_ip_prefix ip (rt_destination r) (rt_prefix r) = true ∧ static_link n ip output r = Some l.
Lemma optimal_skip C S s l r :
  worse s r = true → optimal C S s → optimal C (λ l' r', S l' r' ∨ l' = l ∧ r' = r) s.
Proof.
  rewrite worse_spec. unfold optimal, no_better. intros [Hn Hw] H. destruct (se_link s) as [b|]; [|done].
  destruct H as (Hin & Hp & Hm & Hc & Hs). split_and!; [tauto | done | done | done |].
  intros l' r' [Hr|[-> ->]]; [by eapply Hs|]. rewrite <-Hp, <-Hm. exact Hw.
Qed.
Lemma optimal_take C S s l r :
  worse s r = false → optimal C S s → optimal C (λ l' r', S l' r' ∨ l' = l ∧ r' = r) (mk_selection (Some l) r (rt_prefix r) (rt_metric r)).
Proof.
  intros Hw H. unfold optimal in *. cbn. split_and!; [by right; right| done | done | |].
  - intros l' r' Hr. destruct (se_link s) as [b|] eqn:E; [|by destruct (H l' r')].
    destruct H as (_ & Hp & Hm & Hc & _). apply Hc in Hr. apply not_true_iff_false in Hw. rewrite worse_spec, E in Hw.
    assert (¬ rt_prefix r < se_prefix s) by (intros ?; apply Hw; split; [done|lia]). lia.
  - intros l' r' [Hr|[-> ->]]; [|apply no_better_refl]. destruct (se_link s) as [b|] eqn:E; [|by destruct (H l' r')].
    destruct H as (_ & Hp & Hm & _ & Hs). apply Hs in Hr. eapply no_better_trans; [exact Hr|].
    apply not_true_iff_false in Hw. rewrite worse_spec, E, Hp, Hm in Hw. unfold no_better.
    match type of Hw with ¬ (_ ∧ ?P) => assert (¬ P) as HP by (intros ?; apply Hw; done) end. lia.
Qed.
Lemma static_step_optimal n ip output table C S s r :
  optimal C S s → optimal C (λ l' r', S l' r' ∨ entry n ip output table l' r' ∧ r' = r) (static_step n ip output table s r).
Proof.
  intros H. unfold static_step, entry.
  destruct (Z.eqb_spec (table_of r) table); cbn [negb]; [|eapply optimal_ext, H; naive_solver].
  destruct (md_ip_prefix ip (rt_destination r) (rt_prefix r)) eqn:Ep; cbn [negb orb]; [|eapply optimal_ext, H; naive_solver congruence].
  destruct (static_link n ip output r) as [l|] eqn:El.
  - destruct (worse s r) eqn:Ew; (eapply optimal_ext; [|first [eapply (optimal_skip _ _ _ l r Ew H)|eapply (optimal_take _ _ _ l r Ew H)]]); naive_solver.
  - replace (if worse s r then s else s) with s by (by destruct (worse s r)). eapply optimal_ext, H. naive_solver congruence.
Qed.
Lemma routes_optimal n ip output table routes C S s :
  optimal C S s → optimal C (λ l r, S l r ∨ r ∈ routes ∧ entry n ip output table l r) (foldl (static_step n ip output table) s routes).
Proof.
  revert S s. induction routes as [|r routes IH]; intros S s H; cbn.
  - eapply optimal_ext, H. intros l' r'. rewrite elem_of_nil. naive_solver.
  - eapply optimal_ext, IH, static_step_optimal, H. intros l' r'. rewrite elem_of_cons. naive_solver.
Qed.
Lemma select_optimal n ip output table :
  optimal (connected_candidate n ip output table) (static_candidate n ip output table) (select n ip output table).
Proof.
  unfold select, static_candidate.
  eapply optimal_ext; [|apply routes_optimal, longest_optimal].
  { intros l r. unfold entry. cbn. naive_solver. }
  assert (longest (λ _ _, False) (selection_start ip)) as H0 by (intros ??; tauto).
  unfold connected_candidate. destruct ((table =? RT_TABLE_LOCAL) || (table =? RT_TABLE_MAIN)) eqn:E.
  - eapply longest_ext, links_longest, H0. intros l r. cbn. apply orb_true_iff in E. rewrite !Z.eqb_eq in E. tauto.
  - eapply longest_ext, H0. intros l r. apply orb_false_iff in E. rewrite !Z.eqb_neq in E. tauto.
Qed.

(** ** Lookup *)

(** The chosen route, with the source that it will use. *)
Definition sourced (n : md_network_namespace) (ip : md_ip_address) (l : md_network_interface) (r : md_network_route_entry) : md_network_route_entry :=
  if md_ip_unspecified (rt_source r) then r
  else mk_route (rt_destination r) (rt_gateway r) (md_network_route_source n (Some l) (Some r) ip) (rt_prefix r) (rt_interface r) (rt_metric r) (rt_protocol r) (rt_scope r)
         (rt_nexthop r) (rt_table r) (rt_flags r) (rt_valid r) (rt_preference r) (rt_metrics r).
(** Multicast without a route: the first link that can carry it. *)
Definition by_multicast (n : md_network_namespace) (ip : md_ip_address) (output table : Z) : option md_network_interface :=
  if (table =? RT_TABLE_MAIN) && md_ip_multicast ip && (negb (output =? 0) || (ip_family ip =? AF_INET6))
  then snd <$> list_find (λ l, multicast_link n ip output l = true) (n_links n) else None.


(** ** Policy routing *)

(** A rule that passes the packet on to the next one. *)
Definition declines (n : md_network_namespace) (source destination : md_ip_address) (mark output : Z) (r : md_network_rule) : Prop :=
  rule_matches source destination mark r = false ∨ ru_action r = FR_ACT_TO_TBL ∧ fst (md_network_route_table n destination output (ru_table r)) = None.
(** What a rule answers. *)
Definition answers (n : md_network_namespace) (source destination : md_ip_address) (mark output : Z) (r : md_network_rule) (x : (md_network_interface * md_network_route_entry) + Z) : Prop :=
  rule_matches source destination mark r = true ∧
  (ru_action r ≠ FR_ACT_TO_TBL ∧ x = inr (rule_error (ru_action r))
   ∨ ru_action r = FR_ACT_TO_TBL ∧ ∃ l route, md_network_route_table n destination output (ru_table r) = (Some l, route) ∧ x = inl (l, route)).
Lemma declines_or_answers n source destination mark output r :
  declines n source destination mark output r ∨ ∃ x, answers n source destination mark output r x.
Proof.
  unfold declines, answers. destruct (rule_matches source destination mark r); [|by left; left].
  destruct (decide (ru_action r = FR_ACT_TO_TBL)); [|naive_solver].
  destruct (md_network_route_table n destination output (ru_table r)) as [[l|] route]; naive_solver.
Qed.
Lemma policy_declined n source destination mark output r rules :
  declines n source destination mark output r → policy_loop n (r :: rules) source destination mark output = policy_loop n rules source destination mark output.
Proof.
  cbn [policy_loop]. intros [->|[Ha Hn]]; [done|]. destruct (rule_matches source destination mark r); [|done]. rewrite Ha, Z.eqb_refl. cbn [negb].
  destruct (md_network_route_table n destination output (ru_table r)) as [[l|] route]; [discriminate Hn|done].
Qed.
Lemma policy_answered n source destination mark output r rules x :
  answers n source destination mark output r x → policy_loop n (r :: rules) source destination mark output = x.
Proof.
  cbn [policy_loop]. intros [-> [[Ha ->]|[-> (l & route & -> & ->)]]]; cbn; [|done]. by apply Z.eqb_neq in Ha as ->.
Qed.
(** The walk over the rules, as a split of their list. *)
Lemma policy_split n source destination mark output rules :
  Forall (declines n source destination mark output) rules ∧ policy_loop n rules source destination mark output = inr (- ENETUNREACH)
  ∨ ∃ before r after, rules = before ++ r :: after ∧ Forall (declines n source destination mark output) before
      ∧ answers n source destination mark output r (policy_loop n rules source destination mark output).
Proof.
  induction rules as [|r rules IH]; [by left|].
  destruct (declines_or_answers n source destination mark output r) as [Hd|[x Ha]].
  - rewrite (policy_declined _ _ _ _ _ _ _ Hd). destruct IH as [[Hf He]|(before & q & after & -> & Hf & Ha)]; [left; auto|].
    right. exists (r :: before), q, after. auto.
  - right. exists [], r, rules. rewrite (policy_answered _ _ _ _ _ _ _ _ Ha). split_and!; [done | by constructor | done].
Qed.
