(* ===== verification/NetControl.v ===== *)
(** * Requests that change routes (network_policy.c, network_route_ip.c, network_nexthop.c, netlink_attributes.h)

    A request is its header and the bytes of its attributes; one that is shorter than its
    header is refused before.  A refused request is an error without a namespace: the
    journal of the caller (NetLink) undoes what it had changed.  Queries, which only
    encode replies, are not modelled. *)
From S2P Require Import Prelude UserNamespace NetworkIp NetModel.

Definition NLM_F_REPLACE : Z := 0x100.
Definition NLM_F_EXCL : Z := 0x200.
Definition NLM_F_CREATE : Z := 0x400.
Definition RTNH_F_ONLINK : Z := 4.
Definition ENETDOWN : Z := 100.

(** ** Attributes *)

Record md_netlink_attribute := mk_attribute { at_type : Z; at_data : list Z }.
(** The attributes in front, and the error that ends them. *)
Fixpoint attributes_loop (fuel : nat) (data : list Z) : list md_netlink_attribute * Z :=
  match fuel with
  | O => ([], 0)
  | S fuel =>
      if bool_decide (data = []) then ([], 0)
      else if Z.of_nat (length data) <? 4 then ([], - EINVAL)
      else
        let len := u16_of data in
        let span := Z.land (len + 3) (Z.lnot 3) in
        if (len <? 4) || (Z.of_nat (length data) <? span) then ([], - EINVAL)
        else
          let a := mk_attribute (Z.land (u16_of (drop 2 data)) 0x3fff) (take (Z.to_nat len - 4) (drop 4 data)) in
          let '(l, e) := attributes_loop fuel (drop (Z.to_nat span) data) in (a :: l, e)
  end.
Definition attributes (data : list Z) : list md_netlink_attribute * Z := attributes_loop (length data) data.
(** Each attribute once: [step] on each, until one fails. *)
Definition seen_bit (type : Z) : Z := Z.shiftl 1 type.
Fixpoint parse {A} (limit : Z) (step : A → md_netlink_attribute → A + Z) (l : list md_netlink_attribute) (seen : Z) (v : A) : (A * Z) + Z :=
  match l with
  | [] => inl (v, seen)
  | a :: l =>
      if (at_type a =? 0) || (limit <=? at_type a) then inr (- EOPNOTSUPP)
      else if flag seen (seen_bit (at_type a)) then inr (- EINVAL)
      else match step v a with inl v => parse limit step l (Z.lor seen (seen_bit (at_type a))) v | inr e => inr e end
  end.
Definition parse_request {A} (limit : Z) (step : A → md_netlink_attribute → A + Z) (data : list Z) (v : A) : (A * Z) + Z :=
  let '(l, e) := attributes data in
  match parse limit step l 0 v with inl x => if e =? 0 then inl x else inr e | inr e => inr e end.
Definition has (seen type : Z) : bool := flag seen (seen_bit type).
Definition size_of (a : md_netlink_attribute) : Z := Z.of_nat (length (at_data a)).
Definition read_number (a : md_netlink_attribute) : Z + Z := if size_of a =? 4 then inl (u32_of (at_data a)) else inr (- EINVAL).
Definition read_ip (family : Z) (a : md_netlink_attribute) : md_ip_address + Z :=
  if size_of a =? (if family =? AF_INET6 then 16 else 4) then inl (md_ip_load family (at_data a)) else inr (- EINVAL).
Definition sum_map {A B} (f : A → B) (x : A + Z) : B + Z := match x with inl a => inl (f a) | inr e => inr e end.

(** ** Policy rules *)

Definition FRA_DST : Z := 1.
Definition FRA_SRC : Z := 2.
Definition FRA_PRIORITY : Z := 6.
Definition FRA_FWMARK : Z := 10.
Definition FRA_FLOW : Z := 11.
Definition FRA_SUPPRESS_PREFIXLEN : Z := 14.
Definition FRA_TABLE : Z := 15.
Definition FRA_FWMASK : Z := 16.
Definition FRA_PROTOCOL : Z := 21.
#[global] Instance ip_address_eq_dec : EqDecision md_ip_address.
Proof. solve_decision. Defined.
#[global] Instance rule_eq_dec : EqDecision md_network_rule.
Proof. solve_decision. Defined.
Record rule_request := mk_rule_request { rq_new : bool; rq_flags : Z; rq_family : Z; rq_tos : Z; rq_rule_flags : Z; rq_src_len : Z; rq_dst_len : Z; rq_table : Z; rq_action : Z; rq_data : list Z }.
Definition rule_with (source destination : md_ip_address) (priority table mark mask protocol : Z) (r : md_network_rule) : md_network_rule :=
  mk_rule source destination priority table mark mask (ru_flags r) (ru_source_prefix r) (ru_destination_prefix r) (ru_action r) protocol.
Definition rule_attribute (r : md_network_rule) (a : md_netlink_attribute) : md_network_rule + Z :=
  let t := at_type a in
  if (t =? FRA_SRC) || (t =? FRA_DST) then
    let address := if t =? FRA_SRC then ru_source r else ru_destination r in
    if negb (size_of a =? Z.of_nat (md_ip_size address)) then inr (- EINVAL)
    else
      let address := mk_ip (ip_family address) (copy_at (ip_bytes address) 0 (at_data a)) in
      inl (if t =? FRA_SRC then rule_with address (ru_destination r) (ru_priority r) (ru_table r) (ru_mark r) (ru_mask r) (ru_protocol r) r
           else rule_with (ru_source r) address (ru_priority r) (ru_table r) (ru_mark r) (ru_mask r) (ru_protocol r) r)
  else if t =? FRA_PROTOCOL then
    if negb (size_of a =? 1) then inr (- EINVAL) else inl (rule_with (ru_source r) (ru_destination r) (ru_priority r) (ru_table r) (ru_mark r) (ru_mask r) (byte (at_data a) 0) r)
  else if negb (size_of a =? 4) then inr (- EINVAL)
  else
    let number := u32_of (at_data a) in
    if t =? FRA_TABLE then inl (rule_with (ru_source r) (ru_destination r) (ru_priority r) number (ru_mark r) (ru_mask r) (ru_protocol r) r)
    else if t =? FRA_PRIORITY then inl (rule_with (ru_source r) (ru_destination r) number (ru_table r) (ru_mark r) (ru_mask r) (ru_protocol r) r)
    else if t =? FRA_FWMARK then inl (rule_with (ru_source r) (ru_destination r) (ru_priority r) (ru_table r) number (ru_mask r) (ru_protocol r) r)
    else if t =? FRA_FWMASK then inl (rule_with (ru_source r) (ru_destination r) (ru_priority r) (ru_table r) (ru_mark r) number (ru_protocol r) r)
    else if t =? FRA_FLOW then (if number =? 0 then inl r else inr (- EOPNOTSUPP))
    else if t =? FRA_SUPPRESS_PREFIXLEN then (if number =? UINT32_MAX then inl r else inr (- EOPNOTSUPP))
    else inr (- EOPNOTSUPP).
Definition lower_priority (family : Z) (p : Z) (r : md_network_rule) : Z :=
  if (ip_family (ru_destination r) =? family) && negb (ru_priority r =? 0) && (ru_priority r <=? p) then ru_priority r - 1 else p.
Definition automatic_priority (family : Z) (rules : list md_network_rule) : Z := foldl (lower_priority family) 32765 rules.
(** Whether a deletion means this rule. *)
Definition rule_selected (family seen : Z) (value r : md_network_rule) : bool :=
  (ip_family (ru_destination r) =? family)
  && negb (has seen FRA_PRIORITY && negb (ru_priority value =? ru_priority r))
  && negb (negb (ru_table value =? 0) && negb (ru_table value =? ru_table r)) && negb (negb (ru_action value =? 0) && negb (ru_action value =? ru_action r))
  && (ru_flags value =? ru_flags r)
  && negb (has seen FRA_PROTOCOL && negb (ru_protocol value =? ru_protocol r))
  && negb (has seen FRA_FWMARK && (negb (ru_mark value =? ru_mark r) || negb (ru_mask value =? ru_mask r)))
  && (ru_source_prefix value =? ru_source_prefix r) && (ru_destination_prefix value =? ru_destination_prefix r)
  && md_ip_equal (ru_source value) (ru_source r) && md_ip_equal (ru_destination value) (ru_destination r).
(** Behind the rules of the same priority. *)
Fixpoint insert_rule (value : md_network_rule) (rules : list md_network_rule) : list md_network_rule :=
  match rules with
  | [] => [value]
  | r :: rules => if ru_priority r <=? ru_priority value then r :: insert_rule value rules else value :: r :: rules
  end.
Definition with_priority (p : Z) (r : md_network_rule) : md_network_rule := rule_with (ru_source r) (ru_destination r) p (ru_table r) (ru_mark r) (ru_mask r) (ru_protocol r) r.
Definition with_mask (m : Z) (r : md_network_rule) : md_network_rule := rule_with (ru_source r) (ru_destination r) (ru_priority r) (ru_table r) (ru_mark r) m (ru_protocol r) r.
Definition md_network_rules (n : md_network_namespace) (q : rule_request) : md_network_namespace + Z :=
  let family := rq_family q in
  if negb (family =? AF_INET) && negb (family =? AF_INET6) then inr (- EAFNOSUPPORT)
  else if negb (rq_tos q =? 0) || negb (Z.ldiff (rq_rule_flags q) FIB_RULE_INVERT =? 0) then inr (- EOPNOTSUPP)
  else
    let bits := if family =? AF_INET then 32 else 128 in
    if (bits <? rq_src_len q) || (bits <? rq_dst_len q) then inr (- EINVAL)
    else
      let value := mk_rule (md_ip_any family) (md_ip_any family) 0 (rq_table q) 0 0 (rq_rule_flags q) (rq_src_len q) (rq_dst_len q) (rq_action q) RTPROT_BOOT in
      match parse_request 64 rule_attribute (rq_data q) value with
      | inr e => inr e
      | inl (value, seen) =>
          let value := if has seen FRA_FWMARK && negb (has seen FRA_FWMASK) then with_mask UINT32_MAX value else value in
          if negb (md_ip_equal (md_ip_network (ru_source value) (ru_source_prefix value)) (ru_source value))
             || negb (md_ip_equal (md_ip_network (ru_destination value) (ru_destination_prefix value)) (ru_destination value)) then inr (- EINVAL)
          else if negb (ru_action value =? FR_ACT_TO_TBL) && negb (ru_action value =? FR_ACT_UNREACHABLE) && negb (ru_action value =? FR_ACT_PROHIBIT) && negb (ru_action value =? FR_ACT_BLACKHOLE)
             && negb (negb (rq_new q) && (ru_action value =? 0)) then inr (- EOPNOTSUPP)
          else if rq_new q && (ru_action value =? FR_ACT_TO_TBL) && (ru_table value =? 0) then inr (- EINVAL)
          else if negb (rq_new q) then
            match list_find (λ r, rule_selected family seen value r = true) (n_rules n) with
            | Some (i, _) => inl (set_rules (delete i (n_rules n)) n)
            | None => inr (- ENOENT)
            end
          else
            let value := if has seen FRA_PRIORITY then value else with_priority (automatic_priority family (n_rules n)) value in
            if existsb (λ r, (ip_family (ru_destination r) =? family) && bool_decide (r = value)) (n_rules n) && flag (rq_flags q) NLM_F_EXCL then inr (- EEXIST)
            else if flag (rq_flags q) NLM_F_REPLACE then inr (- EOPNOTSUPP)
            else if Z.of_nat (length (n_rules n)) =? MD_NETWORK_MAX_RULES then inr (- ENOSPC)
            else inl (set_rules (insert_rule value (n_rules n)) n)
      end.

(** ** Next hops *)

Definition route_destination (v : md_ip_address) (r : md_network_route_entry) : md_network_route_entry := mk_route v (rt_gateway r) (rt_source r) (rt_prefix r) (rt_interface r) (rt_metric r) (rt_protocol r) (rt_scope r) (rt_nexthop r) (rt_table r) (rt_flags r) (rt_valid r) (rt_preference r) (rt_metrics r).
Definition route_gateway (v : md_ip_address) (r : md_network_route_entry) : md_network_route_entry := mk_route (rt_destination r) v (rt_source r) (rt_prefix r) (rt_interface r) (rt_metric r) (rt_protocol r) (rt_scope r) (rt_nexthop r) (rt_table r) (rt_flags r) (rt_valid r) (rt_preference r) (rt_metrics r).
Definition route_source (v : md_ip_address) (r : md_network_route_entry) : md_network_route_entry := mk_route (rt_destination r) (rt_gateway r) v (rt_prefix r) (rt_interface r) (rt_metric r) (rt_protocol r) (rt_scope r) (rt_nexthop r) (rt_table r) (rt_flags r) (rt_valid r) (rt_preference r) (rt_metrics r).
Definition route_interface (v : Z) (r : md_network_route_entry) : md_network_route_entry := mk_route (rt_destination r) (rt_gateway r) (rt_source r) (rt_prefix r) v (rt_metric r) (rt_protocol r) (rt_scope r) (rt_nexthop r) (rt_table r) (rt_flags r) (rt_valid r) (rt_preference r) (rt_metrics r).
Definition route_metric (v : Z) (r : md_network_route_entry) : md_network_route_entry := mk_route (rt_destination r) (rt_gateway r) (rt_source r) (rt_prefix r) (rt_interface r) v (rt_protocol r) (rt_scope r) (rt_nexthop r) (rt_table r) (rt_flags r) (rt_valid r) (rt_preference r) (rt_metrics r).
Definition route_nexthop (v : Z) (r : md_network_route_entry) : md_network_route_entry := mk_route (rt_destination r) (rt_gateway r) (rt_source r) (rt_prefix r) (rt_interface r) (rt_metric r) (rt_protocol r) (rt_scope r) v (rt_table r) (rt_flags r) (rt_valid r) (rt_preference r) (rt_metrics r).
Definition route_table (v : Z) (r : md_network_route_entry) : md_network_route_entry := mk_route (rt_destination r) (rt_gateway r) (rt_source r) (rt_prefix r) (rt_interface r) (rt_metric r) (rt_protocol r) (rt_scope r) (rt_nexthop r) v (rt_flags r) (rt_valid r) (rt_preference r) (rt_metrics r).
Definition route_flags (v : Z) (r : md_network_route_entry) : md_network_route_entry := mk_route (rt_destination r) (rt_gateway r) (rt_source r) (rt_prefix r) (rt_interface r) (rt_metric r) (rt_protocol r) (rt_scope r) (rt_nexthop r) (rt_table r) v (rt_valid r) (rt_preference r) (rt_metrics r).
Definition route_valid (v : Z) (r : md_network_route_entry) : md_network_route_entry := mk_route (rt_destination r) (rt_gateway r) (rt_source r) (rt_prefix r) (rt_interface r) (rt_metric r) (rt_protocol r) (rt_scope r) (rt_nexthop r) (rt_table r) (rt_flags r) v (rt_preference r) (rt_metrics r).
Definition route_preference (v : Z) (r : md_network_route_entry) : md_network_route_entry := mk_route (rt_destination r) (rt_gateway r) (rt_source r) (rt_prefix r) (rt_interface r) (rt_metric r) (rt_protocol r) (rt_scope r) (rt_nexthop r) (rt_table r) (rt_flags r) (rt_valid r) v (rt_metrics r).
Definition route_metrics (v : Z * Z * Z) (r : md_network_route_entry) : md_network_route_entry := mk_route (rt_destination r) (rt_gateway r) (rt_source r) (rt_prefix r) (rt_interface r) (rt_metric r) (rt_protocol r) (rt_scope r) (rt_nexthop r) (rt_table r) (rt_flags r) (rt_valid r) (rt_preference r) v.
Definition NHA_ID : Z := 1.
Definition NHA_OIF : Z := 5.
Definition NHA_GATEWAY : Z := 6.
Definition md_network_nexthop_find (n : md_network_namespace) (id : Z) : option (nat * md_network_nexthop) := list_find (λ h, nh_id h = id) (n_nexthops n).
Record nexthop_request := mk_nexthop_request { hq_new : bool; hq_flags : Z; hq_family : Z; hq_reserved : Z; hq_scope : Z; hq_nh_flags : Z; hq_protocol : Z; hq_data : list Z }.
Definition nexthop_attribute (h : md_network_nexthop) (a : md_netlink_attribute) : md_network_nexthop + Z :=
  let t := at_type a in
  if t =? NHA_GATEWAY then
    if negb (size_of a =? Z.of_nat (md_ip_size (nh_gateway h))) then inr (- EINVAL)
    else inl (mk_nexthop (nh_id h) (nh_interface h) (nh_flags h) (nh_protocol h) (mk_ip (ip_family (nh_gateway h)) (copy_at (ip_bytes (nh_gateway h)) 0 (at_data a))))
  else if (t =? NHA_ID) || (t =? NHA_OIF) then
    if negb (size_of a =? 4) then inr (- EINVAL)
    else
      let v := u32_of (at_data a) in
      inl (if t =? NHA_ID then mk_nexthop v (nh_interface h) (nh_flags h) (nh_protocol h) (nh_gateway h) else mk_nexthop (nh_id h) v (nh_flags h) (nh_protocol h) (nh_gateway h))
  else inr (- EOPNOTSUPP).
(** The routes of a next hop follow it. *)
Definition follow_nexthop (h : md_network_nexthop) (r : md_network_route_entry) : md_network_route_entry :=
  if rt_nexthop r =? nh_id h then route_flags (nh_flags h) (route_gateway (nh_gateway h) (route_interface (nh_interface h) r)) else r.
Definition nexthop_decode (q : nexthop_request) : (md_network_nexthop * Z) + Z :=
  if negb (hq_family q =? 0) && negb (hq_family q =? AF_INET) && negb (hq_family q =? AF_INET6) then inr (- EAFNOSUPPORT)
  else if negb (hq_reserved q =? 0) || negb (hq_scope q =? 0) || negb (Z.ldiff (hq_nh_flags q) RTNH_F_ONLINK =? 0) then inr (- EOPNOTSUPP)
  else parse_request 64 nexthop_attribute (hq_data q) (mk_nexthop 0 0 (hq_nh_flags q) (hq_protocol q) (md_ip_any (hq_family q))).
Definition md_network_nexthops (n : md_network_namespace) (q : nexthop_request) : md_network_namespace + Z :=
  match nexthop_decode q with
  | inr e => inr e
  | inl (value, _) =>
      if nh_id value =? 0 then inr (- EINVAL)
      else
        let at_ := md_network_nexthop_find n (nh_id value) in
        if negb (hq_new q) then
          match at_ with
          | None => inr (- ENOENT)
          | Some (i, _) => inl (set_routes (filter (λ r, (rt_nexthop r =? nh_id value) = false) (n_routes n)) (set_nexthops (delete i (n_nexthops n)) n))
          end
        else if negb (hq_family q =? AF_INET) && negb (hq_family q =? AF_INET6) then inr (- EINVAL)
        else match snd <$> md_network_interface_find n (nh_interface value) None with
        | None => inr (- ENODEV)
        | Some link =>
            if negb (up link) then inr (- ENETDOWN)
            else if (hq_family q =? AF_INET6) && negb (p6_disabled (l_ipv6 link) =? 0) then inr (- EACCES)
            else if md_ip_multicast (nh_gateway value) then inr (- EINVAL)
            else if negb (md_ip_unspecified (nh_gateway value)) && negb (flag (nh_flags value) RTNH_F_ONLINK)
                 && match md_network_route_lookup n (nh_gateway value) (nh_interface value) with Some (_, r) => negb (md_ip_unspecified (rt_gateway r)) | None => true end then inr (- EINVAL)
            else
              let follow (n : md_network_namespace) : md_network_namespace + Z :=
                if existsb (λ r, (rt_nexthop r =? nh_id value) && negb (ip_family (rt_destination r) =? ip_family (nh_gateway value))) (n_routes n) then inr (- EINVAL)
                else inl (set_routes (follow_nexthop value <$> n_routes n) n) in
              match at_ with
              | Some (i, _) => if flag (hq_flags q) NLM_F_EXCL || negb (flag (hq_flags q) NLM_F_REPLACE) then inr (- EEXIST) else follow (set_nexthops (<[i := value]> (n_nexthops n)) n)
              | None =>
                  if negb (flag (hq_flags q) NLM_F_CREATE) then inr (- ENOENT)
                  else if Z.of_nat (length (n_nexthops n)) =? MD_NETWORK_MAX_ROUTES then inr (- ENOSPC)
                  else follow (set_nexthops (n_nexthops n ++ [value]) n)
              end
        end
  end.

(** ** Routes *)

Definition RTA_DST : Z := 1.
Definition RTA_OIF : Z := 4.
Definition RTA_GATEWAY : Z := 5.
Definition RTA_PRIORITY : Z := 6.
Definition RTA_PREFSRC : Z := 7.
Definition RTA_METRICS : Z := 8.
Definition RTA_TABLE : Z := 15.
Definition RTA_PREF : Z := 20.
Definition RTA_EXPIRES : Z := 23.
Definition RTA_NH_ID : Z := 30.
Definition RTA_MAX : Z := 30.
Definition RTAX_MTU : Z := 2.
Definition RTAX_HOPLIMIT : Z := 10.
Definition RTAX_QUICKACK : Z := 15.
Definition metrics_step (family : Z) (m : (Z * Z * Z) + Z) (a : md_netlink_attribute) : (Z * Z * Z) + Z :=
  match m with
  | inr e => inr e
  | inl (mtu, hops, present) =>
      let t := at_type a in
      if negb (t =? RTAX_MTU) && negb (t =? RTAX_HOPLIMIT) && negb (t =? RTAX_QUICKACK) then inr (- EOPNOTSUPP)
      else if flag present (seen_bit t) then inr (- EINVAL)
      else match read_number a with
      | inr e => inr e
      | inl v =>
          if t =? RTAX_MTU then
            if negb (family =? AF_INET6) && negb (v =? 0) then inr (- EOPNOTSUPP)
            else if negb (v =? 0) && ((v <? 1280) || (65535 <? v)) then inr (- EINVAL)
            else inl (v, hops, Z.lor present (seen_bit t))
          else if t =? RTAX_HOPLIMIT then
            if negb (family =? AF_INET6) && negb (v =? 0) then inr (- EOPNOTSUPP)
            else if 255 <? v then inr (- EINVAL)
            else inl (mtu, v, Z.lor present (seen_bit t))
          else if negb (v =? 0) then inr (- EOPNOTSUPP) else inl (mtu, hops, Z.lor present (seen_bit t))
      end
  end.
Definition metrics_read (family : Z) (a : md_netlink_attribute) (m : Z * Z * Z) : (Z * Z * Z) + Z :=
  let '(l, e) := attributes (at_data a) in
  match foldl (metrics_step family) (inl m) l with inl m => if e =? 0 then inl m else inr e | inr e => inr e end.
Definition lifetime_deadline (seconds now : Z) : Z := if seconds =? UINT32_MAX then 0 else now + seconds * 1000.
Record route_request := mk_route_request {
  tq_new : bool; tq_flags : Z; tq_family : Z; tq_dst_len : Z; tq_src_len : Z; tq_tos : Z; tq_table : Z; tq_protocol : Z; tq_scope : Z; tq_type : Z; tq_rtm_flags : Z; tq_data : list Z }.
(** [now]: the monotonic clock. *)
Definition route_attribute (family now : Z) (r : md_network_route_entry) (a : md_netlink_attribute) : md_network_route_entry + Z :=
  let t := at_type a in
  if t =? RTA_DST then sum_map (λ v, route_destination v r) (read_ip family a)
  else if t =? RTA_GATEWAY then sum_map (λ v, route_gateway v r) (read_ip family a)
  else if t =? RTA_PREFSRC then sum_map (λ v, route_source v r) (read_ip family a)
  else if t =? RTA_OIF then sum_map (λ v, route_interface v r) (read_number a)
  else if t =? RTA_PRIORITY then sum_map (λ v, route_metric v r) (read_number a)
  else if t =? RTA_TABLE then sum_map (λ v, route_table v r) (read_number a)
  else if t =? RTA_NH_ID then sum_map (λ v, route_nexthop v r) (read_number a)
  else if t =? RTA_METRICS then sum_map (λ v, route_metrics v r) (metrics_read family a (rt_metrics r))
  else if t =? RTA_PREF then
    if negb (family =? AF_INET6) || negb (size_of a =? 1) then inr (- EINVAL)
    else let p := byte (at_data a) 0 in if (p =? 0) || (p =? 1) || (p =? 3) then inl (route_preference p r) else inr (- EINVAL)
  else if t =? RTA_EXPIRES then sum_map (λ v, route_valid (lifetime_deadline v now) r) (read_number a)
  else inr (- EOPNOTSUPP).
Definition route_deleted (seen : Z) (value r : md_network_route_entry) : bool :=
  (rt_table value =? table_of r) && md_ip_equal (rt_destination value) (rt_destination r) && (rt_prefix value =? rt_prefix r)
  && negb (negb (rt_interface value =? 0) && negb (rt_interface value =? rt_interface r))
  && negb (negb (md_ip_unspecified (rt_gateway value)) && negb (md_ip_equal (rt_gateway value) (rt_gateway r)))
  && negb (negb (md_ip_unspecified (rt_source value)) && negb (md_ip_equal (rt_source value) (rt_source r)))
  && negb (has seen RTA_PRIORITY && negb (rt_metric value =? rt_metric r)).
(** An entry that a new one would replace. *)
Definition route_collides (flags : Z) (value r : md_network_route_entry) : bool :=
  (rt_table value =? table_of r) && md_ip_equal (rt_destination value) (rt_destination r) && (rt_prefix value =? rt_prefix r) && (rt_metric value =? rt_metric r)
  && negb ((ip_family (rt_destination value) =? AF_INET6) && negb (flag flags NLM_F_REPLACE)
           && (negb (rt_interface value =? rt_interface r) || negb (rt_nexthop value =? rt_nexthop r) || negb (md_ip_equal (rt_gateway value) (rt_gateway r)))).
(** The link and the gateway of a next hop. *)
Definition resolve_nexthop (n : md_network_namespace) (value : md_network_route_entry) : md_network_route_entry + Z :=
  if rt_nexthop value =? 0 then inl value
  else if negb (rt_interface value =? 0) || negb (md_ip_unspecified (rt_gateway value)) || negb (rt_flags value =? 0) then inr (- EINVAL)
  else match md_network_nexthop_find n (rt_nexthop value) with
  | None => inr (- ENOENT)
  | Some (_, h) =>
      if negb (ip_family (nh_gateway h) =? ip_family (rt_destination value)) then inr (- EINVAL)
      else inl (route_flags (nh_flags h) (route_gateway (nh_gateway h) (route_interface (nh_interface h) value)))
  end.
Definition resolve_gateway (n : md_network_namespace) (value : md_network_route_entry) : md_network_route_entry :=
  if (rt_interface value =? 0) && negb (md_ip_unspecified (rt_gateway value)) then
    match md_network_route_lookup n (rt_gateway value) 0 with
    | Some (l, r) => if md_ip_unspecified (rt_gateway r) then route_interface (l_index l) value else value
    | None => value
    end
  else value.
(** [timer]: the expiry timer can be armed. *)
Definition route_insert (timer flags : Z) (n : md_network_namespace) (value : md_network_route_entry) : md_network_namespace + Z :=
  match snd <$> md_network_interface_find n (rt_interface value) None with
  | None => inr (- ENETUNREACH)
  | Some link =>
      if flag (rt_flags value) RTNH_F_ONLINK && negb (up link) then inr (- ENETDOWN)
      else if md_ip_multicast (rt_gateway value) then inr (- EINVAL)
      else if negb (md_ip_unspecified (rt_source value)) && negb (existsb (λ l, md_network_interface_has l (rt_source value)) (n_links n)) then inr (- EINVAL)
      else if negb (md_ip_unspecified (rt_gateway value)) && md_ip_unspecified (md_network_interface_source (Some link) (rt_gateway value)) then inr (- ENETUNREACH)
      else if negb (rt_valid value =? 0) && negb (timer =? 0) then inr timer
      else match list_find (λ r, route_collides flags value r = true) (n_routes n) with
      | Some (i, _) => if flag flags NLM_F_EXCL || negb (flag flags NLM_F_REPLACE) then inr (- EEXIST) else inl (set_routes (<[i := value]> (n_routes n)) n)
      | None =>
          if negb (flag flags NLM_F_CREATE) then inr (- ENOENT)
          else if Z.of_nat (length (n_routes n)) =? MD_NETWORK_MAX_ROUTES then inr (- ENOSPC)
          else inl (set_routes (n_routes n ++ [value]) n)
      end
  end.
(** The route of a request, with the attributes that it has. *)
Definition route_decode (now : Z) (q : route_request) : (md_network_route_entry * Z) + Z :=
  let family := tq_family q in
  if negb (family =? 0) && negb (family =? AF_INET) && negb (family =? AF_INET6) then inr (- EAFNOSUPPORT)
  else if family =? 0 then inr (- EINVAL)
  else if negb (tq_src_len q =? 0) || negb (tq_tos q =? 0) || negb (Z.ldiff (tq_rtm_flags q) RTNH_F_ONLINK =? 0) then inr (- EOPNOTSUPP)
  else if (if family =? AF_INET6 then 128 else 32) <? tq_dst_len q then inr (- EINVAL)
  else if negb (tq_type q =? RTN_UNICAST) && negb (negb (tq_new q) && (tq_type q =? 0)) then inr (- EOPNOTSUPP)
  else
    let value := mk_route (md_ip_any family) (md_ip_any family) no_ip (tq_dst_len q) 0 (if family =? AF_INET6 then 1024 else 0) (tq_protocol q) (tq_scope q) 0 (tq_table q) (tq_rtm_flags q) 0 0 (0, 0, 0) in
    match parse_request (RTA_MAX + 1) (route_attribute family now) (tq_data q) value with
    | inr e => inr e
    | inl (value, seen) =>
        let value := route_table (table_of value) value in
        if rt_table value =? RT_TABLE_LOCAL then inr (- EOPNOTSUPP)
        else inl (value, seen)
    end.
Definition md_network_routes (timer now : Z) (n : md_network_namespace) (q : route_request) : md_network_namespace + Z :=
  match route_decode now q with
  | inr e => inr e
  | inl (value, seen) =>
      if negb (md_ip_equal (md_ip_network (rt_destination value) (rt_prefix value)) (rt_destination value)) then inr (- EINVAL)
      else if flag (rt_flags value) RTNH_F_ONLINK && ((rt_interface value =? 0) || md_ip_unspecified (rt_gateway value)) then inr (- EINVAL)
      else match resolve_nexthop n value with
      | inr e => inr e
      | inl value =>
          let value := resolve_gateway n value in
          if negb (tq_new q) then
            match list_find (λ r, route_deleted seen value r = true) (n_routes n) with
            | Some (i, _) => inl (set_routes (delete i (n_routes n)) n)
            | None => inr (- ESRCH)
            end
          else route_insert timer (tq_flags q) n value
      end
  end.
