(* ===== verification/NetLink.v ===== *)
(** * Requests that change links, and the life of a namespace (network_route.c, network_vxlan.c, network_model.c)

    A link request is the record that its parser fills.  The journal of a request
    keeps the namespaces that it can change, and an uncommitted request puts them
    back.  Notifications, neighbours and sockets enter as the outcomes of their calls. *)
From stdpp Require Import pretty.
From S2P Require Import Prelude UserNamespace NetworkIp NetModel NetControl.

Definition ENFILE : Z := 23.
Definition UINT16_MAX : Z := 65535.
Definition IFF_NOARP : Z := 0x80.
Definition IFF_PROMISC : Z := 0x100.
Definition IFF_ALLMULTI : Z := 0x200.

(** ** Tunnel configuration *)

Definition IFLA_VXLAN_ID : Z := 1.
Definition IFLA_VXLAN_GROUP : Z := 2.
Definition IFLA_VXLAN_LINK : Z := 3.
Definition IFLA_VXLAN_LOCAL : Z := 4.
Definition IFLA_VXLAN_TTL : Z := 5.
Definition IFLA_VXLAN_TOS : Z := 6.
Definition IFLA_VXLAN_LEARNING : Z := 7.
Definition IFLA_VXLAN_AGEING : Z := 8.
Definition IFLA_VXLAN_LIMIT : Z := 9.
Definition IFLA_VXLAN_PROXY : Z := 11.
Definition IFLA_VXLAN_RSC : Z := 12.
Definition IFLA_VXLAN_L2MISS : Z := 13.
Definition IFLA_VXLAN_L3MISS : Z := 14.
Definition IFLA_VXLAN_PORT : Z := 15.
Definition IFLA_VXLAN_GROUP6 : Z := 16.
Definition IFLA_VXLAN_LOCAL6 : Z := 17.
Definition IFLA_VXLAN_UDP_CSUM : Z := 18.
Definition IFLA_VXLAN_UDP_ZERO_CSUM6_TX : Z := 19.
Definition IFLA_VXLAN_UDP_ZERO_CSUM6_RX : Z := 20.
(** The configuration with the variables of its parser. *)
Record vxlan_parser := mk_parser { vp_config : md_network_vxlan_config; vp_id : bool; vp_learning : Z; vp_local : Z; vp_remote : Z; vp_ttl : Z; vp_tos : Z }.
(** Up to four bytes, as a number. *)
Definition small_value (a : md_netlink_attribute) : Z := if size_of a <=? 4 then u32_of (copy_at (zeros 4) 0 (at_data a)) else 0.
Definition one_of (t : Z) (l : list Z) : bool := existsb (Z.eqb t) l.
Definition vxlan_attribute (p : vxlan_parser) (a : md_netlink_attribute) : vxlan_parser + Z :=
  let t := at_type a in
  let value := small_value a in
  let c := vp_config p in
  if one_of t [IFLA_VXLAN_ID; IFLA_VXLAN_LINK] then
    if negb (size_of a =? 4) then inr (- EINVAL)
    else if t =? IFLA_VXLAN_ID then inl (mk_parser (mk_vxlan value (vx_link c) (vx_local c) (vx_remote c) (vx_port c)) true (vp_learning p) (vp_local p) (vp_remote p) (vp_ttl p) (vp_tos p))
    else inl (mk_parser (mk_vxlan (vx_id c) value (vx_local c) (vx_remote c) (vx_port c)) (vp_id p) (vp_learning p) (vp_local p) (vp_remote p) (vp_ttl p) (vp_tos p))
  else if one_of t [IFLA_VXLAN_LOCAL; IFLA_VXLAN_GROUP; IFLA_VXLAN_LOCAL6; IFLA_VXLAN_GROUP6] then
    let local := one_of t [IFLA_VXLAN_LOCAL; IFLA_VXLAN_LOCAL6] in
    let family := if one_of t [IFLA_VXLAN_LOCAL6; IFLA_VXLAN_GROUP6] then AF_INET6 else AF_INET in
    if negb ((if local then vp_local p else vp_remote p) =? 0) then inr (- EINVAL)
    else if negb (size_of a =? Z.of_nat (md_ip_size (md_ip_any family))) then inr (- EINVAL)
    else
      let ip := md_ip_load family (at_data a) in
      inl (if local then mk_parser (mk_vxlan (vx_id c) (vx_link c) ip (vx_remote c) (vx_port c)) (vp_id p) (vp_learning p) family (vp_remote p) (vp_ttl p) (vp_tos p)
           else mk_parser (mk_vxlan (vx_id c) (vx_link c) (vx_local c) ip (vx_port c)) (vp_id p) (vp_learning p) (vp_local p) family (vp_ttl p) (vp_tos p))
  else if t =? IFLA_VXLAN_PORT then
    if negb (size_of a =? 2) || (value =? 0) then inr (- EINVAL)
    else inl (mk_parser (mk_vxlan (vx_id c) (vx_link c) (vx_local c) (vx_remote c) value) (vp_id p) (vp_learning p) (vp_local p) (vp_remote p) (vp_ttl p) (vp_tos p))
  else if one_of t [IFLA_VXLAN_TTL; IFLA_VXLAN_TOS; IFLA_VXLAN_LEARNING] then
    if negb (size_of a =? 1) then inr (- EINVAL)
    else if t =? IFLA_VXLAN_TTL then inl (mk_parser c (vp_id p) (vp_learning p) (vp_local p) (vp_remote p) value (vp_tos p))
    else if t =? IFLA_VXLAN_TOS then inl (mk_parser c (vp_id p) (vp_learning p) (vp_local p) (vp_remote p) (vp_ttl p) value)
    else if 1 <? value then inr (- EINVAL)
    else inl (mk_parser c (vp_id p) value (vp_local p) (vp_remote p) (vp_ttl p) (vp_tos p))
  else if one_of t [IFLA_VXLAN_AGEING; IFLA_VXLAN_LIMIT] then
    if negb (size_of a =? 4) then inr (- EINVAL) else if negb (value =? 0) then inr (- EOPNOTSUPP) else inl p
  else if one_of t [IFLA_VXLAN_PROXY; IFLA_VXLAN_RSC; IFLA_VXLAN_L2MISS; IFLA_VXLAN_L3MISS; IFLA_VXLAN_UDP_ZERO_CSUM6_TX; IFLA_VXLAN_UDP_ZERO_CSUM6_RX] then
    if negb (size_of a =? 1) then inr (- EINVAL) else if negb (value =? 0) then inr (- EOPNOTSUPP) else inl p
  else if t =? IFLA_VXLAN_UDP_CSUM then
    if negb (size_of a =? 1) || (1 <? value) then inr (- EINVAL) else inl p
  else inr (- EOPNOTSUPP).
(** The port is in network order: htons(8472). *)
Definition vxlan_start : vxlan_parser := mk_parser (mk_vxlan 0 0 (md_ip_any AF_INET) (md_ip_any AF_INET) 0x1821) false 1 0 0 0 0.
Definition md_network_vxlan_parse (data : list Z) : md_network_vxlan_config + Z :=
  match parse_request 64 vxlan_attribute data vxlan_start with
  | inr e => inr e
  | inl (p, _) =>
      let c := vp_config p in
      if negb (vp_id p) || (0xffffff <? vx_id c) then inr (- EINVAL)
      else if negb (vp_learning p =? 0) || negb (vp_tos p =? 0) || negb (vp_ttl p =? 0) then inr (- EOPNOTSUPP)
      else if negb (vp_local p =? 0) && negb (vp_remote p =? 0) && negb (vp_local p =? vp_remote p) then inr (- EINVAL)
      else if md_ip_multicast (vx_local c) || md_ip_multicast (vx_remote c) then inr (- EOPNOTSUPP)
      else if negb (md_ip_unspecified (vx_remote c)) then
        let local := if md_ip_unspecified (vx_local c) then md_ip_any (ip_family (vx_remote c)) else vx_local c in
        if negb (ip_family local =? ip_family (vx_remote c)) then inr (- EINVAL) else inl (mk_vxlan (vx_id c) (vx_link c) local (vx_remote c) (vx_port c))
      else inl (mk_vxlan (vx_id c) (vx_link c) (vx_local c) (md_ip_any (ip_family (vx_local c))) (vx_port c))
  end.
(** [open]: the service socket of a configuration.  Zero when its port is open already. *)
Definition same_tunnel (c d : md_network_vxlan_config) : bool :=
  (vx_id c =? vx_id d) && (vx_port c =? vx_port d) && (vx_link c =? vx_link d) && md_ip_equal (vx_local c) (vx_local d).
Definition is_vxlan (l : md_network_interface) : bool := bool_decide (l_kind l = MD_LINK_VXLAN).
Definition underlay_error (n : md_network_namespace) (c : md_network_vxlan_config) : bool :=
  negb (vx_link c =? 0) && match snd <$> md_network_interface_find n (vx_link c) None with Some u => is_vxlan u | None => true end.
Fixpoint prepare_loop (open : md_network_vxlan_config → Z) (n : md_network_namespace) (before links : list md_network_interface) : Z :=
  match links with
  | [] => 0
  | l :: links =>
      if negb (is_vxlan l) then prepare_loop open n (before ++ [l]) links
      else if underlay_error n (l_vxlan l) then - ENODEV
      else if existsb (λ o, is_vxlan o && same_tunnel (l_vxlan l) (l_vxlan o)) before then - EEXIST
      else if negb (open (l_vxlan l) =? 0) then open (l_vxlan l)
      else prepare_loop open n (before ++ [l]) links
  end.
(** [ports]: tunnel ports are open.  [memory]: the allocation of the update.  [stack]: preparing the packet stack. *)
Definition md_network_vxlan_prepare (ports memory : bool) (open : md_network_vxlan_config → Z) (stack : Z) (n : md_network_namespace) : Z :=
  if negb (ports || existsb is_vxlan (n_links n)) then 0
  else if negb memory then - ENOMEM
  else let error := prepare_loop open n [] (n_links n) in if negb (error =? 0) then error else stack.

(** ** Changing links *)

Inductive link_request := RTM_NEWLINK | RTM_SETLINK | RTM_DELLINK.
#[global] Instance link_request_eq_dec : EqDecision link_request.
Proof. solve_decision. Defined.
(** A field with a [has_] flag is an option.  A kind that is not given is the loopback, the first of its enumeration. *)
Record link_change := mk_change {
  c_vxlan : md_network_vxlan_config; c_name : option string; c_peer_name : option string; c_kind : md_network_link_kind;
  c_index : Z; c_master : option Z; c_mtu : option Z; c_change : Z; c_flags : Z; c_queue : option Z; c_address : option (list Z);
  c_peer_queue : option Z; c_peer_mtu : option Z; c_peer_address : option (list Z);
  c_hairpin : option Z; c_isolated : option Z; c_addrgen : option Z; c_forward_delay : option Z }.
#[global] Instance vxlan_config_eq_dec : EqDecision md_network_vxlan_config.
Proof. solve_decision. Defined.
Definition update_link (index : Z) (g : md_network_interface → md_network_interface) (n : md_network_namespace) : md_network_namespace :=
  set_links ((λ l, if l_index l =? index then g l else l) <$> n_links n) n.
Definition numbered (kind : string) (i : Z) : string := (kind +:+ pretty i)%string.
Fixpoint automatic_loop (fuel : nat) (n : md_network_namespace) (kind : string) (avoid : option string) (i : Z) : option string :=
  match fuel with
  | O => None
  | S fuel =>
      let name := numbered kind i in
      if negb (bool_decide (avoid = Some name)) && negb (bool_decide (is_Some (md_network_interface_find n 0 (Some name)))) then Some name
      else automatic_loop fuel n kind avoid (i + 1)
  end.
Definition automatic_name (n : md_network_namespace) (kind : string) (avoid : option string) : string + Z :=
  match automatic_loop (Z.to_nat UINT16_MAX) n kind avoid 0 with Some name => inl name | None => inr (- ENFILE) end.
Definition bad_address (a : option (list Z)) : bool :=
  match a with Some a => negb (Z.land (byte a 0) 1 =? 0) || bool_decide (take 6 a = zeros 6) | None => false end.
Definition out_of_range (mtu : option Z) : bool := match mtu with Some m => (m <? 68) || (65535 <? m) | None => false end.
Definition mutable_flags (link : option md_network_interface) : Z :=
  Z.lor (Z.lor (Z.lor (Z.lor IFF_UP IFF_MULTICAST) IFF_PROMISC) IFF_ALLMULTI)
    match link with Some l => if bool_decide (l_kind l = MD_LINK_TUN) then IFF_NOARP else 0 | None => 0 end.
Definition master_of (c : link_change) (l : md_network_interface) : Z := match c_master c with Some m => m | None => l_master l end.
(** The checks in front of any change: zero, or the error. *)
Definition change_check (n : md_network_namespace) (type : link_request) (flags : Z) (c : link_change) (link : option md_network_interface) : Z :=
  let fixed := Z.ldiff (c_change c) (mutable_flags link) in
  if negb (fixed =? 0) && match link with Some l => negb (Z.land (Z.lxor (l_flags l) (c_flags c)) fixed =? 0) | None => true end then - EOPNOTSUPP
  else if out_of_range (c_mtu c) then - EOPNOTSUPP
  else if out_of_range (c_peer_mtu c) then - EINVAL
  else if bad_address (c_address c) || bad_address (c_peer_address c) then - EADDRNOTAVAIL
  else if bool_decide (is_Some (c_address c)) && match link with Some l => is_loopback l | None => false end then - EOPNOTSUPP
  else if match c_master c with
          | Some m => negb (m =? 0) && match snd <$> md_network_interface_find n m None with Some b => negb (bool_decide (l_kind b = MD_LINK_BRIDGE)) | None => true end
          | None => false end then - EINVAL
  else if bool_decide (is_Some (c_hairpin c) ∨ is_Some (c_isolated c))
          && match link with Some l => negb (bool_decide (l_kind l = MD_LINK_VETH)) || (master_of c l =? 0) | None => true end then - EINVAL
  else if bool_decide (is_Some link) && bool_decide (type = RTM_NEWLINK) && flag flags NLM_F_CREATE && flag flags NLM_F_EXCL then - EEXIST
  else 0.
Definition set_peer (peer : Z) (l : md_network_interface) : md_network_interface :=
  mk_link (l_kind l) (l_index l) (l_flags l) (l_mtu l) (l_queue l) (l_name l) (l_mac l) (l_vxlan l) (l_master l) peer (l_hairpin l) (l_isolated l) (l_forward_delay l) (l_addresses l) (l_policy_id l) (l_policy l) (l_ipv6 l).
(** The peer of a new link, with what the request says of it. *)
Definition peer_link (c : link_change) (index : Z) (l : md_network_interface) : md_network_interface :=
  mk_link (l_kind l) (l_index l) (l_flags l) (default (l_mtu l) (c_peer_mtu c)) (default (l_queue l) (c_peer_queue c)) (l_name l) (default (l_mac l) (take 6 <$> c_peer_address c)) (l_vxlan l)
    (l_master l) index (l_hairpin l) (l_isolated l) (l_forward_delay l) (l_addresses l) (l_policy_id l) (l_policy l) (l_ipv6 l).
Definition set_tunnel (v : md_network_vxlan_config) (mtu : Z) (l : md_network_interface) : md_network_interface :=
  mk_link (l_kind l) (l_index l) (l_flags l) mtu (l_queue l) (l_name l) (l_mac l) v (l_master l) (l_peer l) (l_hairpin l) (l_isolated l) (l_forward_delay l) (l_addresses l) (l_policy_id l) (l_policy l) (l_ipv6 l).
Definition with_next (next : Z) (f : md_network_fabric) : md_network_fabric := mk_fabric next (f_spaces f).
(** The names of a new link and of its peer. *)
Definition new_names (n peer_space : md_network_namespace) (same : bool) (c : link_change) : (string * option string) + Z :=
  let veth := bool_decide (c_kind c = MD_LINK_VETH) in
  match match c_name c with
        | Some name => inl name
        | None => automatic_name n (if veth then "veth" else if bool_decide (c_kind c = MD_LINK_VXLAN) then "vxlan" else "br")%string (if same then c_peer_name c else None)
        end with
  | inr e => inr e
  | inl name =>
      match match c_peer_name c with
            | Some p => inl (Some p)
            | None => if veth then sum_map Some (automatic_name peer_space "veth"%string (if same then Some name else None)) else inl None
            end with
      | inr e => inr e
      | inl peer => inl (name, peer)
      end
  end.
(** The tunnel of a new link: its configuration, and a packet size that leaves room for the outer headers. *)
Definition new_tunnel (c : link_change) (index : Z) (n : md_network_namespace) : md_network_namespace * Z :=
  let mtu := match (if vx_link (c_vxlan c) =? 0 then None else snd <$> md_network_interface_find n (vx_link (c_vxlan c)) None) with Some u => l_mtu u | None => 1500 end in
  let overhead := if ip_family (vx_local (c_vxlan c)) =? AF_INET6 then 70 else 50 in
  if mtu <? overhead + 68 then (update_link index (λ l, set_tunnel (c_vxlan c) (l_mtu l) l) n, - EINVAL)
  else (update_link index (set_tunnel (c_vxlan c) (mtu - overhead)) n, 0).
(** [memory], [memory']: growing the two arrays of links.  Both are large enough when the links are added. *)
Definition create_link (memory memory' : bool) (f : md_network_fabric) (at_ peer_at : loc) (c : link_change) : option (md_network_fabric * (Z + Z)) :=
  match get_space f at_, get_space f peer_at with
  | Some n, Some peer_space =>
      let same := bool_decide (peer_at = at_) in
      let veth := bool_decide (c_kind c = MD_LINK_VETH) in
      match new_names n peer_space same c with
      | inr e => Some (f, inr e)
      | inl (name, peer_name) =>
          if same && bool_decide (peer_name = Some name) then Some (f, inr (- EINVAL))
          else if match peer_name with Some p => bool_decide (is_Some (md_network_interface_find peer_space 0 (Some p))) | None => false end then Some (f, inr (- EEXIST))
          else
            let error := md_network_interface_reserve memory n (if veth && same then 2 else 1) in
            let error := if (error =? 0) && negb same then md_network_interface_reserve memory' peer_space 1 else error in
            if negb (error =? 0) then Some (f, inr error)
            else match md_network_interface_add true (f_next_index f) n (c_kind c) name with
            | inr e => Some (f, inr e)
            | inl (next, n, index) =>
                let f := put_space (with_next next f) at_ n in
                if veth then
                  match get_space f peer_at with
                  | None => Some (f, inr (- EXDEV))
                  | Some p =>
                      match md_network_interface_add true next p MD_LINK_VETH (default ""%string peer_name) with
                      | inr e => '(f, _) ← md_network_interface_remove f at_ n index; Some (f, inr e)
                      | inl (next, p, peer) =>
                          let f := put_space (with_next next f) peer_at (update_link peer (peer_link c index) p) in
                          match get_space f at_ with
                          | None => Some (f, inr (- EXDEV))
                          | Some n => Some (put_space f at_ (update_link index (set_peer peer) n), inl index)
                          end
                      end
                  end
                else if bool_decide (c_kind c = MD_LINK_VXLAN) then
                  let '(n, error) := new_tunnel c index n in
                  Some (put_space f at_ n, if error =? 0 then inl index else inr error)
                else Some (f, inl index)
            end
      end
  | _, _ => Some (f, inr (- EXDEV))
  end.
(** What a request says of a link. *)
Definition apply_change (c : link_change) (l : md_network_interface) : md_network_interface :=
  let moved := negb (master_of c l =? l_master l) in
  let mtu6 := match c_mtu c with Some m => if (p6_mtu (l_ipv6 l) =? l_mtu l) || (m <? p6_mtu (l_ipv6 l)) then m else p6_mtu (l_ipv6 l) | None => p6_mtu (l_ipv6 l) end in
  let p := l_ipv6 l in
  mk_link (l_kind l) (l_index l) (Z.lor (Z.ldiff (l_flags l) (c_change c)) (Z.land (c_flags c) (c_change c))) (default (l_mtu l) (c_mtu c)) (default (l_queue l) (c_queue c)) (l_name l)
    (default (l_mac l) (take 6 <$> c_address c)) (l_vxlan l) (master_of c l) (l_peer l)
    (default (if moved then 0 else l_hairpin l) (c_hairpin c)) (default (if moved then 0 else l_isolated l) (c_isolated c)) (default (l_forward_delay l) (c_forward_delay c))
    (l_addresses l) (l_policy_id l) (l_policy l)
    (mk_policy6 (p6_forwarding p) (p6_disabled p) (p6_accept_dad p) (p6_accept_ra p) (p6_autoconf p) mtu6 (p6_hop_limit p) (default (p6_addr_gen_mode p) (c_addrgen c)) (p6_use_tempaddr p)).
Definition apply_link (c : link_change) (index : Z) (l : md_network_interface) (n : md_network_namespace) : md_network_namespace :=
  let l' := apply_change c l in
  let n := update_link index (apply_change c) n in
  let n := if up l && negb (up l') || (1280 <=? l_mtu l) && (l_mtu l' <? 1280) then md_network_interface_ipv6_flush n index else n in
  if negb (up l) || (l_mtu l <? 1280) && (1280 <=? l_mtu l') then update_link index md_network_interface_up n else n.
(** Another namespace or another name, and the rest of the request. *)
Definition adjust_link (memory : bool) (f : md_network_fabric) (at_ : loc) (index : Z) (c : link_change) (target : option loc) : option (md_network_fabric * Z) :=
  match get_space f at_ with
  | None => Some (f, - EXDEV)
  | Some n =>
      match snd <$> md_network_interface_find n index None with
      | None => Some (f, - ENODEV)
      | Some link =>
          let owner := default at_ target in
          let away := negb (bool_decide (owner = at_)) || match c_name c with Some name => negb (bool_decide (name = l_name link)) | None => false end in
          '(f, error) ← (if away then md_network_interface_move memory f at_ owner index (c_name c) else Some (f, 0));
          if negb (error =? 0) then Some (f, error)
          else if bool_decide (is_Some target) && bool_decide (is_Some (c_master c)) then Some (f, - EOPNOTSUPP)
          else match get_space f owner with
          | None => Some (f, - EXDEV)
          | Some n =>
              match snd <$> md_network_interface_find n index None with
              | None => Some (f, - ENODEV)
              | Some link => Some (put_space f owner (apply_link c index link n), 0)
              end
          end
      end
  end.
Record memory_outcome := mk_memory { mo_links : bool; mo_peer : bool; mo_move : bool }.
Definition change_link (o : memory_outcome) (f : md_network_fabric) (at_ : loc) (type : link_request) (flags : Z) (c : link_change) (target peer_target : option loc) : option (md_network_fabric * Z) :=
  match get_space f at_ with
  | None => Some (f, - EXDEV)
  | Some n =>
      let link := snd <$> md_network_interface_find n (c_index c) (c_name c) in
      if bool_decide (type = RTM_DELLINK) then match link with Some l => md_network_interface_remove f at_ n (l_index l) | None => Some (f, - ENODEV) end
      else
        let error := change_check n type flags c link in
        if negb (error =? 0) then Some (f, error)
        else match link with
        | None =>
            if negb (bool_decide (type = RTM_NEWLINK) && flag flags NLM_F_CREATE) then Some (f, - ENODEV)
            else if loopback_kind (c_kind c) || negb (c_index c =? 0) || bool_decide (is_Some target) then Some (f, - EOPNOTSUPP)
            else
              '(f, r) ← create_link (mo_links o) (mo_peer o) f at_ (default at_ peer_target) c;
              match r with inr e => Some (f, e) | inl index => adjust_link (mo_move o) f at_ index c None end
        | Some l =>
            if bool_decide (is_Some peer_target) || negb (loopback_kind (c_kind c)) && negb (bool_decide (c_kind c = l_kind l)) then Some (f, - EOPNOTSUPP)
            else if bool_decide (c_kind c = MD_LINK_VXLAN) && negb (bool_decide (c_vxlan c = l_vxlan l)) then Some (f, - EOPNOTSUPP)
            else adjust_link (mo_move o) f at_ (l_index l) c target
        end
  end.

(** ** Requests and their journal *)

(** A namespace that a request names: its resolution, and whether the caller administers it. *)
Definition target_reference : Type := option ((loc * bool) + Z).
Inductive request :=
| LinkRequest (type : link_request) (flags : Z) (c : link_change) (namespace peer_namespace : target_reference)
| RouteRequest (q : route_request)
| NexthopRequest (q : nexthop_request)
| RuleRequest (q : rule_request).
(** What the calls of a request return that are not modelled: the capability of the caller; the memory of the journal and of the links;
    the timer and the clock; the updates of bridge policy, of transports and of neighbours; the tunnel ports; the encoding of the answer, whether
    a notification was seen, and the delivery of the answer. *)
Record request_outcome := mk_outcome {
  ro_capable : bool; ro_journal : bool; ro_memory : memory_outcome; ro_timer : Z; ro_now : Z; ro_policy : Z; ro_transport : Z; ro_neighbors : Z;
  ro_ports : bool; ro_update : bool; ro_open : md_network_vxlan_config → Z; ro_stack : Z; ro_encoded : Z; ro_published : bool; ro_delivered : Z }.
Definition resolve (f : md_network_fabric) (r : target_reference) (refused : bool) : option loc + Z :=
  match r with
  | None => inl None
  | Some (inr e) => inr e
  | Some (inl (at_, capable)) =>
      if negb capable then inr (- EPERM)
      else if negb (bool_decide (is_Some (get_space f at_))) then inr (- EXDEV)
      else if refused then inr (- EOPNOTSUPP) else inl (Some at_)
  end.
Definition set_tables (saved n : md_network_namespace) : md_network_namespace :=
  set_rules (n_rules saved) (set_nexthops (n_nexthops saved) (set_routes (n_routes saved) (set_links (n_links saved) n))).
Definition checkpoint_restore (saved : md_network_fabric) (at_ : loc) (f : md_network_fabric) : md_network_fabric :=
  match get_space saved at_, get_space f at_ with Some s, Some n => put_space f at_ (set_tables s n) | _, _ => f end.
(** The namespaces of the journal. *)
Definition journal_other (f : md_network_fabric) (at_ : loc) (q : request) (target peer_target : option loc) : option loc :=
  match q with
  | LinkRequest _ _ c _ _ =>
      match peer_target, target with
      | Some o, _ => Some o
      | None, Some o => Some o
      | None, None =>
          n ← get_space f at_;
          l ← snd <$> md_network_interface_find n (c_index c) (c_name c);
          fst <$> md_network_interface_owner f (l_peer l)
      end
  | _ => None
  end.
Definition in_space (f : md_network_fabric) (at_ : loc) (r : md_network_namespace → md_network_namespace + Z) : option (md_network_fabric * Z) :=
  match get_space f at_ with
  | None => Some (f, - EXDEV)
  | Some n => Some (match r n with inl n => (put_space f at_ n, 0) | inr e => (f, e) end)
  end.
Definition dispatch (o : request_outcome) (f : md_network_fabric) (at_ : loc) (q : request) (target peer_target : option loc) : option (md_network_fabric * Z) :=
  match q with
  | LinkRequest type flags c _ _ => change_link (ro_memory o) f at_ type flags c target peer_target
  | RouteRequest q => in_space f at_ (λ n, md_network_routes (ro_timer o) (ro_now o) n q)
  | NexthopRequest q => in_space f at_ (λ n, md_network_nexthops n q)
  | RuleRequest q => in_space f at_ (λ n, md_network_rules n q)
  end.
Definition and_then (error next : Z) : Z := if error =? 0 then next else error.
(** What follows a change before it is committed. *)
Definition settle (o : request_outcome) (f : md_network_fabric) (at_ : loc) (q : request) : Z :=
  match q with
  | LinkRequest _ _ c _ _ =>
      let error := if bool_decide (is_Some (c_hairpin c) ∨ is_Some (c_isolated c)) then ro_policy o else 0 in
      let error := and_then error (if bool_decide (is_Some (c_mtu c)) then ro_transport o else 0) in
      let error := and_then error (ro_neighbors o) in
      and_then error match get_space f at_ with Some n => md_network_vxlan_prepare (ro_ports o) (ro_update o) (ro_open o) (ro_stack o) n | None => - EXDEV end
  | _ => ro_transport o
  end.
Definition request_targets (f : md_network_fabric) (q : request) : (option loc * option loc) + Z :=
  match q with
  | LinkRequest _ _ c namespace peer_namespace =>
      match resolve f namespace (bool_decide (is_Some (c_master c))) with
      | inr e => inr e
      | inl target => sum_map (λ p, (target, p)) (resolve f peer_namespace (bool_decide (is_Some target)))
      end
  | _ => inl (None, None)
  end.
(** The fabric, the error, and whether the request was committed. *)
Definition md_network_route (o : request_outcome) (f : md_network_fabric) (at_ : loc) (q : request) : option (md_network_fabric * Z * bool) :=
  if negb (ro_capable o) then Some (f, - EPERM, false)
  else match request_targets f q with
  | inr e => Some (f, e, false)
  | inl (target, peer_target) =>
      if negb (ro_journal o) then Some (f, - ENOMEM, false)
      else
        let other := journal_other f at_ q target peer_target in
        '(f', error) ← dispatch o f at_ q target peer_target;
        let error := and_then error (settle o f' at_ q) in
        let published := (ro_encoded o =? 0) && ro_published o in
        let encoded := and_then (ro_encoded o) (ro_delivered o) in
        let commit := (error =? 0) && ((encoded =? 0) || published) in
        if commit then Some (f', error, true)
        else
          let f' := checkpoint_restore f at_ f' in
          let f' := match other with Some o => if bool_decide (o = at_) then f' else checkpoint_restore f o f' | None => f' end in
          Some (with_next (f_next_index f) f', error, false)
  end.
(** A system control: IPv6 on the links of a scope. *)
Definition MD_NET_SCOPE_ALL : Z := UINT64_MAX.
Definition set_disabled (v : Z) (l : md_network_interface) : md_network_interface :=
  let p := l_ipv6 l in
  mk_link (l_kind l) (l_index l) (l_flags l) (l_mtu l) (l_queue l) (l_name l) (l_mac l) (l_vxlan l) (l_master l) (l_peer l) (l_hairpin l) (l_isolated l) (l_forward_delay l) (l_addresses l) (l_policy_id l) (l_policy l)
    (mk_policy6 (p6_forwarding p) v (p6_accept_dad p) (p6_accept_ra p) (p6_autoconf p) (p6_mtu p) (p6_hop_limit p) (p6_addr_gen_mode p) (p6_use_tempaddr p)).
Definition disable_step (scope disabled : Z) (n : md_network_namespace) (i : nat) : md_network_namespace :=
  match n_links n !! i with
  | None => n
  | Some l =>
      if negb (scope =? MD_NET_SCOPE_ALL) && negb (l_policy_id l =? scope) || (p6_disabled (l_ipv6 l) =? disabled) then n
      else
        let l := set_disabled disabled l in
        if disabled =? 0 then set_links (<[i := md_network_interface_up l]> (n_links n)) n
        else md_network_interface_ipv6_flush (set_links (<[i := l]> (n_links n)) n) (l_index l)
  end.
Definition set_all6 (p : md_network_ipv6_policy) (n : md_network_namespace) := mk_space (n_links n) (n_routes n) (n_rules n) (n_nexthops n) (n_next_policy n) (n_all n) (n_defaults n) p (n_defaults6 n) (n_ipv4_forward n).
Definition policy_disabled (v : Z) (p : md_network_ipv6_policy) : md_network_ipv6_policy :=
  mk_policy6 (p6_forwarding p) v (p6_accept_dad p) (p6_accept_ra p) (p6_autoconf p) (p6_mtu p) (p6_hop_limit p) (p6_addr_gen_mode p) (p6_use_tempaddr p).
(** [journal]: the memory of the checkpoint, for the notifications. *)
Definition md_network_route_disable_ipv6 (journal : bool) (n : md_network_namespace) (scope disabled : Z) : md_network_namespace + Z :=
  if negb journal then inr (- ENOMEM)
  else
    let n := foldl (disable_step scope disabled) n (seq 0 (length (n_links n))) in
    inl (if scope =? MD_NET_SCOPE_ALL then set_all6 (policy_disabled disabled (n_all6 n)) n else n).

(** ** The life of a namespace *)

Inductive md_network_mode := MD_NETWORK_NATIVE | MD_NETWORK_PRIVATE | MD_NETWORK_ROUTED.
#[global] Instance network_mode_eq_dec : EqDecision md_network_mode.
Proof. solve_decision. Defined.
Definition set_up (l : md_network_interface) : md_network_interface :=
  mk_link (l_kind l) (l_index l) (Z.lor (l_flags l) IFF_UP) (l_mtu l) (l_queue l) (l_name l) (l_mac l) (l_vxlan l) (l_master l) (l_peer l) (l_hairpin l) (l_isolated l) (l_forward_delay l) (l_addresses l) (l_policy_id l) (l_policy l) (l_ipv6 l).
Definition bring_up (l : md_network_interface) : md_network_interface := md_network_interface_up (set_up l).
Definition no_policy4 : md_network_ipv4_policy := mk_policy4 0 0 0 0.
Definition default_policy6 (routed : bool) : md_network_ipv6_policy := mk_policy6 (if routed then 1 else 0) 0 1 0 0 1500 64 0 0.
Definition empty_space (routed : bool) : md_network_namespace :=
  mk_space [] [] md_network_policy_init [] 0 no_policy4 no_policy4 (default_policy6 routed) (default_policy6 routed) (if routed then 1 else 0).
(** The uplink of the root: 10.0.2.100/24 and fd6d:6473::64/64, with default routes. *)
Definition uplink6 (last : Z) : md_ip_address := mk_ip AF_INET6 (copy_at (copy_at (zeros 16) 0 [0xfd; 0x6d; 0x64; 0x73]) 15 [last]).
Definition uplink_addresses (l : md_network_interface) : md_network_interface :=
  add_address (add_address (bring_up l) (permanent (md_ip_v4 [10; 0; 2; 100]) 24 RT_SCOPE_UNIVERSE)) (permanent (uplink6 0x64) 64 RT_SCOPE_UNIVERSE).
Definition default_route (destination gateway : md_ip_address) (interface metric : Z) : md_network_route_entry :=
  mk_route destination gateway no_ip 0 interface metric RTPROT_BOOT 0 0 0 0 0 0 (0, 0, 0).
Definition uplink_routes (interface : Z) : list md_network_route_entry :=
  [default_route (md_ip_any AF_INET) (md_ip_v4 [10; 0; 2; 2]) interface 0; default_route (md_ip_any AF_INET6) (uplink6 2) interface 1024].
Definition put_front (next : Z) (at_ : loc) (n : md_network_namespace) (f : md_network_fabric) : md_network_fabric := mk_fabric next ((at_, n) :: f_spaces f).
(** [memory], [memory']: the arrays of links.  [at_]: the allocated namespace.  A namespace that cannot be completed is released again. *)
Definition create (memory memory' : bool) (f : md_network_fabric) (at_ : loc) (mode : md_network_mode) : option md_network_fabric :=
  let routed := bool_decide (mode = MD_NETWORK_ROUTED) in
  match md_network_interface_add memory (f_next_index f) (empty_space routed) MD_LINK_LOOPBACK "lo" with
  | inr _ => None
  | inl (next, n, _) =>
      if negb routed then Some (put_front next at_ n f)
      else
        let n := set_links (alter bring_up 0%nat (n_links n)) n in
        match md_network_interface_add memory' next n MD_LINK_UPLINK "eth0" with
        | inr _ => None
        | inl (next, n, uplink) => Some (put_front next at_ (set_routes (n_routes n ++ uplink_routes uplink) (update_link uplink uplink_addresses n)) f)
        end
  end.
Definition md_network_namespace_new (memory memory' : bool) (at_ : loc) (mode : md_network_mode) : option md_network_fabric := create memory memory' (mk_fabric 2 []) at_ mode.
Definition md_network_namespace_copy (memory : bool) (f : md_network_fabric) (at_ : loc) : option md_network_fabric := create memory true f at_ MD_NETWORK_PRIVATE.
(** The last reference goes: the other ends of its links go with it. *)
Definition release_step (at_ : loc) (f : option md_network_fabric) (l : md_network_interface) : option md_network_fabric :=
  f ← f;
  match md_network_interface_owner f (l_peer l) with
  | Some (o, m) => if bool_decide (o = at_) then Some f else m ← remove_one m (l_peer l); Some (put_space f o m)
  | None => Some f
  end.
Definition drop_space (at_ : loc) (f : md_network_fabric) : md_network_fabric := mk_fabric (f_next_index f) (filter (λ s, fst s ≠ at_) (f_spaces f)).
Definition md_network_namespace_release (f : md_network_fabric) (at_ : loc) : option md_network_fabric :=
  n ← get_space f at_;
  f ← foldl (release_step at_) (Some f) (n_links n);
  Some (drop_space at_ f).
