(* ===== verification/NetOk.v ===== *)
(** * The invariant of a network namespace (network_model.c, network_route_ip.c, network_nexthop.c, network_policy.c)

    Links are distinct, routes and next hops go over links that exist, routes agree
    with their next hops, rules are in the order of their priorities, and tunnels
    have an underlay that is no tunnel.  Each operation on a namespace keeps it. *)
From stdpp Require Import sorting.
From S2P Require Import Prelude UserNamespace NetworkIp NetModel NetControl NetLink.

(** ** Statements *)

Definition indexes (ls : list md_network_interface) : list Z := l_index <$> ls.
Definition ip_key (a : md_ip_address) : Z * list Z := (ip_family a, if ip_family a =? AF_INET then take 4 (ip_bytes a) else ip_bytes a).
Definition address_keys (l : list md_network_ip_assignment) : list (Z * list Z) := (λ a, ip_key (as_address a)) <$> l.
Record link_ok (l : md_network_interface) : Prop := mk_link_ok {
  lk_name : valid_name (l_name l) = true;
  lk_index : 0 < l_index l;
  lk_loopback : l_index l = 1 ↔ l_kind l = MD_LINK_LOOPBACK;
  lk_peer : l_peer l ≠ 0 → l_kind l = MD_LINK_VETH;
  lk_count : Z.of_nat (length (l_addresses l)) ≤ MD_NETWORK_MAX_ADDRESSES;
  lk_distinct : NoDup (address_keys (l_addresses l)) }.
Definition bridge_in (ls : list md_network_interface) (i : Z) : Prop := ∃ b, b ∈ ls ∧ l_index b = i ∧ l_kind b = MD_LINK_BRIDGE.
Definition masters_ok (ls : list md_network_interface) : Prop := ∀ l, l ∈ ls → l_master l ≠ 0 → bridge_in ls (l_master l).
Definition tunnels_ok (ls : list md_network_interface) : Prop :=
  ∀ l, l ∈ ls → is_vxlan l = true → vx_link (l_vxlan l) ≠ 0 → ∃ u, u ∈ ls ∧ l_index u = vx_link (l_vxlan l) ∧ is_vxlan u = false.
Record links_ok (ls : list md_network_interface) : Prop := mk_links_ok {
  ls_index : NoDup (indexes ls);
  ls_name : NoDup (l_name <$> ls);
  ls_count : Z.of_nat (length ls) ≤ MD_NETWORK_MAX_LINKS;
  ls_each : Forall link_ok ls;
  ls_master : masters_ok ls }.
Definition canonical (r : md_network_route_entry) : Prop := md_ip_equal (md_ip_network (rt_destination r) (rt_prefix r)) (rt_destination r) = true.
(** A route over a next hop is a copy of it. *)
Definition follows (r : md_network_route_entry) (h : md_network_nexthop) : Prop :=
  nh_id h = rt_nexthop r ∧ rt_interface r = nh_interface h ∧ rt_gateway r = nh_gateway h ∧ rt_flags r = nh_flags h ∧ ip_family (rt_destination r) = ip_family (nh_gateway h).
Definition route_ok (idx : list Z) (hops : list md_network_nexthop) (r : md_network_route_entry) : Prop :=
  rt_interface r ∈ idx ∧ canonical r ∧ (rt_nexthop r ≠ 0 → ∃ h, h ∈ hops ∧ follows r h).
Definition hop_ok (idx : list Z) (h : md_network_nexthop) : Prop := nh_id h ≠ 0 ∧ nh_interface h ∈ idx.
Definition earlier (a b : md_network_rule) : Prop := ru_priority a ≤ ru_priority b.
Record tables_ok (idx : list Z) (n : md_network_namespace) : Prop := mk_tables_ok {
  tk_routes : Forall (route_ok idx (n_nexthops n)) (n_routes n);
  tk_route_count : Z.of_nat (length (n_routes n)) ≤ MD_NETWORK_MAX_ROUTES;
  tk_hops : Forall (hop_ok idx) (n_nexthops n);
  tk_ids : NoDup (nh_id <$> n_nexthops n);
  tk_hop_count : Z.of_nat (length (n_nexthops n)) ≤ MD_NETWORK_MAX_ROUTES;
  tk_rules : StronglySorted earlier (n_rules n);
  tk_rule_count : Z.of_nat (length (n_rules n)) ≤ MD_NETWORK_MAX_RULES }.
(** Without the underlays of tunnels, which a request checks at its end. *)
Definition base_ok (n : md_network_namespace) : Prop := links_ok (n_links n) ∧ tables_ok (indexes (n_links n)) n.
Definition space_ok (n : md_network_namespace) : Prop := base_ok n ∧ tunnels_ok (n_links n).

(** ** Finding links *)

Lemma ip_equal_key a b : md_ip_equal a b = true ↔ ip_key a = ip_key b.
Proof.
  unfold md_ip_equal, ip_key. rewrite andb_true_iff, Z.eqb_eq. split.
  - intros [He Hb]. rewrite He in *. destruct (ip_family b =? AF_INET); apply bool_decide_eq_true in Hb; by rewrite Hb.
  - intros [= He Hb]. split; [done|]. rewrite He in *. by destruct (ip_family b =? AF_INET); apply bool_decide_eq_true.
Qed.
Lemma find_index n i k l : md_network_interface_find n i None = Some (k, l) → n_links n !! k = Some l ∧ l_index l = i ∧ i ≠ 0.
Proof.
  unfold md_network_interface_find. intros (H & Ht & _)%list_find_Some. split; [done|]. unfold find_test in Ht.
  destruct (Z.eqb_spec i 0); [done|]. apply Z.eqb_eq in Ht. done.
Qed.
Lemma find_in n i k l : md_network_interface_find n i None = Some (k, l) → l ∈ n_links n ∧ l_index l = i.
Proof. intros (H & Hi & _)%find_index. split; [by eapply list_elem_of_lookup_2|done]. Qed.
Lemma index_unique ls l l' : NoDup (indexes ls) → l ∈ ls → l' ∈ ls → l_index l = l_index l' → l = l'.
Proof.
  intros Hn [i Hi]%list_elem_of_lookup [j Hj]%list_elem_of_lookup He.
  assert (i = j) as ->; [|congruence]. eapply (NoDup_lookup (indexes ls)); [done| |]; unfold indexes; rewrite list_lookup_fmap; [by rewrite Hi|rewrite Hj; cbn; by rewrite He].
Qed.
Lemma find_name n name k l : md_network_interface_find n 0 (Some name) = Some (k, l) → n_links n !! k = Some l ∧ l_name l = name.
Proof. unfold md_network_interface_find. intros (H & Ht & _)%list_find_Some. split; [done|]. cbn in Ht. by apply bool_decide_eq_true in Ht. Qed.
Lemma find_any n i name k l : md_network_interface_find n i name = Some (k, l) → l ∈ n_links n.
Proof. unfold md_network_interface_find. intros (H & _)%list_find_Some. by eapply list_elem_of_lookup_2. Qed.
Lemma no_name n name : ¬ is_Some (md_network_interface_find n 0 (Some name)) → name ∉ l_name <$> n_links n.
Proof.
  intros H (l & -> & Hl)%list_elem_of_fmap. apply H. unfold md_network_interface_find.
  destruct (list_find _ (n_links n)) eqn:E; [by eexists|]. apply list_find_None in E. rewrite Forall_forall in E.
  destruct (E l Hl). cbn. by apply bool_decide_eq_true.
Qed.
Lemma found_index n i l : NoDup (indexes (n_links n)) → l ∈ n_links n → l_index l = i → i ≠ 0 → snd <$> md_network_interface_find n i None = Some l.
Proof.
  intros Hn Hl Hi H0. destruct (md_network_interface_find n i None) as [[k x]|] eqn:E.
  - apply find_in in E as [Hx Hxi]. cbn. f_equal. eapply index_unique; [done..|congruence].
  - unfold md_network_interface_find in E. apply list_find_None in E. rewrite Forall_forall in E. destruct (E l Hl).
    unfold find_test. rewrite (proj2 (Z.eqb_neq i 0) H0). by apply Z.eqb_eq.
Qed.

(** ** Changes that keep the identity of every link *)

Definition shape (l : md_network_interface) : Z * string * md_network_link_kind * md_network_vxlan_config := (l_index l, l_name l, l_kind l, l_vxlan l).
Lemma shape_indexes (ls ls' : list md_network_interface) : shape <$> ls' = shape <$> ls → indexes ls' = indexes ls.
Proof. intros H. apply (f_equal (fmap (λ s : Z * string * md_network_link_kind * md_network_vxlan_config, s.1.1.1))) in H. by rewrite <-!list_fmap_compose in H. Qed.
Lemma shape_names (ls ls' : list md_network_interface) : shape <$> ls' = shape <$> ls → l_name <$> ls' = l_name <$> ls.
Proof. intros H. apply (f_equal (fmap (λ s : Z * string * md_network_link_kind * md_network_vxlan_config, s.1.1.2))) in H. by rewrite <-!list_fmap_compose in H. Qed.
Lemma shape_in (ls ls' : list md_network_interface) l : shape <$> ls' = shape <$> ls → l ∈ ls → ∃ l', l' ∈ ls' ∧ shape l' = shape l.
Proof. intros H Hl. apply (list_elem_of_fmap_2 shape) in Hl. rewrite <-H in Hl. apply list_elem_of_fmap in Hl as (l' & He & Hl). by exists l'. Qed.
Lemma shape_bridge ls ls' i : shape <$> ls' = shape <$> ls → bridge_in ls i → bridge_in ls' i.
Proof. intros H (b & Hb & Hi & Hk). destruct (shape_in _ _ _ H Hb) as (b' & Hb' & [= Hbi _ Hbk _]). exists b'. split_and!; congruence. Qed.
Lemma shape_tunnels ls ls' : shape <$> ls' = shape <$> ls → tunnels_ok ls → tunnels_ok ls'.
Proof.
  intros H Ht l Hl Hv H0. destruct (shape_in _ _ _ (eq_sym H) Hl) as (k & Hk & [= _ _ Hkk Hkv]). unfold is_vxlan in *.
  destruct (Ht k Hk) as (u & Hu & Hui & Huv); [by unfold is_vxlan; rewrite Hkk|by rewrite Hkv|].
  destruct (shape_in _ _ _ H Hu) as (u' & Hu' & [= Hi _ Huk _]). exists u'. unfold is_vxlan in *. rewrite Huk. split_and!; [done|congruence|done].
Qed.
Lemma shape_links ls ls' :
  shape <$> ls' = shape <$> ls → links_ok ls → Forall link_ok ls' → (∀ l, l ∈ ls' → l_master l ≠ 0 → bridge_in ls (l_master l)) → links_ok ls'.
Proof.
  intros H [Hi Hn Hc _ _] He Hm. split; [by rewrite (shape_indexes _ _ H)|by rewrite (shape_names _ _ H)| |done|].
  - apply (f_equal length) in H. rewrite !length_fmap in H. lia.
  - intros l Hl H0. eapply shape_bridge, Hm; done.
Qed.
(** [g] changes a link and keeps its identity; its master is a bridge. *)
Record mild (ls : list md_network_interface) (l l' : md_network_interface) : Prop := mk_mild {
  md_shape : shape l' = shape l;
  md_ok : link_ok l → link_ok l';
  md_master : l_master l' ≠ 0 → l_master l' = l_master l ∨ bridge_in ls (l_master l');
  md_peer : l_peer l' = l_peer l }.
Lemma mild_refl ls l : mild ls l l.
Proof. split; auto. Qed.
Lemma mild_shape ls a b : Forall2 (mild ls) a b → shape <$> b = shape <$> a.
Proof. induction 1 as [|x y a b [Hs _ _ _] _ IH]; [done|]. cbn. by rewrite Hs, IH. Qed.
(** The index of each link with the index of its other end. *)
Definition ends (ls : list md_network_interface) : list (Z * Z) := (λ l, (l_index l, l_peer l)) <$> ls.
Lemma mild_ends ls a b : Forall2 (mild ls) a b → ends b = ends a.
Proof. induction 1 as [|x y a b [[= Hi _ _ _] _ _ Hp] _ IH]; [done|]. unfold ends in *. cbn. by rewrite Hi, Hp, IH. Qed.
Lemma mild_links ls ls' : Forall2 (mild ls) ls ls' → links_ok ls → links_ok ls'.
Proof.
  intros H Hok. eapply shape_links; [by eapply mild_shape|exact Hok| |].
  - apply Forall_forall. intros l' (i & Hi)%list_elem_of_lookup. destruct (Forall2_lookup_r _ _ _ _ _ H Hi) as (l & Hl & [_ Hk _ _]).
    apply Hk. eapply Forall_lookup_1; [by apply ls_each|done].
  - intros l' (i & Hi)%list_elem_of_lookup H0. destruct (Forall2_lookup_r _ _ _ _ _ H Hi) as (l & Hl & [_ _ Hm _]).
    destruct (Hm H0) as [He|Hb]; [|done]. rewrite He in *. eapply ls_master; [done|by eapply list_elem_of_lookup_2|done].
Qed.
(** A change of the links that keeps their identity keeps the tables. *)
Lemma tables_links idx n ls : tables_ok idx n → tables_ok idx (set_links ls n).
Proof. intros []. by split. Qed.
Lemma mild_base n ls : Forall2 (mild (n_links n)) (n_links n) ls → base_ok n → base_ok (set_links ls n).
Proof. intros H [Hl Ht]. split; [by eapply mild_links|]. change (tables_ok (indexes ls) (set_links ls n)). rewrite (shape_indexes _ _ (mild_shape _ _ _ H)). by apply tables_links. Qed.
Lemma mild_space n ls : Forall2 (mild (n_links n)) (n_links n) ls → space_ok n → space_ok (set_links ls n).
Proof. intros H [Hb Ht]. split; [by apply mild_base|]. eapply shape_tunnels, Ht. by eapply mild_shape. Qed.
Lemma mild_map ls (g : md_network_interface → md_network_interface) : (∀ l, l ∈ ls → mild ls l (g l)) → Forall2 (mild ls) ls (g <$> ls).
Proof. intros H. apply Forall2_fmap_r, Forall_Forall2_diag, Forall_forall. exact H. Qed.
Lemma mild_insert ls i l l' : ls !! i = Some l → mild ls l l' → Forall2 (mild ls) ls (<[i := l']> ls).
Proof.
  intros Hi Hm. apply Forall2_same_length_lookup. split; [by rewrite length_insert|]. intros j x y Hx Hy.
  destruct (decide (i = j)) as [<-|]; [|rewrite list_lookup_insert_ne in Hy by done; simplify_eq; apply mild_refl].
  rewrite list_lookup_insert_eq in Hy by (by eapply lookup_lt_Some). by simplify_eq.
Qed.
Lemma mild_update n index g : (∀ l, l ∈ n_links n → l_index l = index → mild (n_links n) l (g l)) →
  Forall2 (mild (n_links n)) (n_links n) (n_links (update_link index g n)).
Proof. intros H. apply mild_map. intros l Hl. destruct (Z.eqb_spec (l_index l) index); [by apply H|apply mild_refl]. Qed.

(** ** Addresses *)

Lemma addresses_mild ls l as_ :
  (link_ok l → Z.of_nat (length as_) ≤ MD_NETWORK_MAX_ADDRESSES ∧ NoDup (address_keys as_)) → mild ls l (set_addresses as_ l).
Proof. intros H. split; [done| |by left|done]. intros Hk. destruct (H Hk). destruct Hk. by split. Qed.
Lemma keys_delete as_ i : NoDup (address_keys as_) → NoDup (address_keys (delete i as_)).
Proof. intros H. eapply sublist_NoDup; [exact H|]. unfold address_keys. rewrite list_fmap_delete. apply sublist_delete. Qed.
Lemma interface_address_ok link a remove exclusive l' :
  md_network_interface_address link a remove exclusive = inl l' → ∀ ls, mild ls link l'.
Proof.
  unfold md_network_interface_address. intros H ls. case_if; [done|].
  destruct (list_find _ _) as [[i b]|] eqn:Ef.
  - apply list_find_Some in Ef as (Hi & Hb & _). destruct remove.
    + case_if; [done|]. injection H as <-. apply addresses_mild. intros Hk. split; [|by apply keys_delete, lk_distinct].
      pose proof (lk_count _ Hk). rewrite length_delete by eauto. lia.
    + case_if; [done|]. injection H as <-. apply addresses_mild. intros Hk. split; [rewrite length_insert; by apply lk_count|].
      unfold address_keys. rewrite list_fmap_insert. apply ip_equal_key in Hb.
      rewrite list_insert_id; [by apply lk_distinct|]. rewrite list_lookup_fmap, Hi. cbn. by rewrite Hb.
  - apply list_find_None in Ef. rewrite Forall_forall in Ef. destruct remove; [done|]. case_if; [done|]. injection H as <-.
    apply addresses_mild. intros Hk. pose proof (lk_count _ Hk). split; [rewrite length_app; cbn; breflect; lia|].
    unfold address_keys. rewrite fmap_app. apply NoDup_app. split_and!; [by apply lk_distinct| |apply NoDup_singleton].
    intros x (b & -> & Hb)%list_elem_of_fmap Hx. apply list_elem_of_singleton in Hx. apply (Ef b Hb). by apply ip_equal_key.
Qed.
Lemma mild_trans ls a b c : mild ls a b → mild ls b c → mild ls a c.
Proof. intros [H1 H2 H3 P1] [H4 H5 H6 P2]. split; [congruence|auto| |congruence]. intros H0. destruct (H6 H0) as [He|]; [|by right]. rewrite He in *. auto. Qed.
Lemma add_address_mild ls link a : mild ls link (add_address link a).
Proof. unfold add_address. destruct (md_network_interface_address link a false false) eqn:E; [by eapply interface_address_ok|apply mild_refl]. Qed.
Create HintDb net.
#[export] Hint Resolve mild_refl add_address_mild : net.
Lemma up_mild ls link : mild ls link (md_network_interface_up link).
Proof.
  unfold md_network_interface_up. cbn zeta. repeat case_if; eauto with net; eapply mild_trans; eauto with net.
Qed.
#[export] Hint Resolve up_mild : net.
Lemma flush_mild ls index link : mild ls link (flush_link index link).
Proof.
  unfold flush_link. case_if; [|apply mild_refl]. apply addresses_mild. intros [_ _ _ _ Hc Hd]. split.
  - pose proof (length_filter (λ a, family6 (as_address a) = false) (l_addresses link)). lia.
  - eapply sublist_NoDup; [exact Hd|]. apply fmap_sublist, sublist_filter.
Qed.
#[export] Hint Resolve flush_mild : net.

(** ** Tables *)

Section Shrink.
Context (P : md_network_route_entry → Prop) `{∀ r, Decision (P r)} (Q : md_network_nexthop → Prop) `{∀ h, Decision (Q h)}.
(** Entries go away, a next hop only with its routes. *)
Lemma tables_filter idx idx' n ls :
  (∀ r h, follows r h → P r → Q h) → (∀ r, P r → rt_interface r ∈ idx → rt_interface r ∈ idx') → (∀ h, Q h → nh_interface h ∈ idx → nh_interface h ∈ idx') →
  tables_ok idx n → tables_ok idx' (set_nexthops (filter Q (n_nexthops n)) (set_routes (filter P (n_routes n)) (set_links ls n))).
Proof.
  intros Hf Hr Hh [H1 H2 H3 H4 H5 H6 H7]. split; cbn [n_routes n_nexthops n_rules set_nexthops set_routes set_links]; [| | | | |done|done].
  - apply Forall_forall. intros r [HP Hin]%list_elem_of_filter. rewrite Forall_forall in H1. destruct (H1 r Hin) as (Hi & Hc & Hn).
    split_and!; [by apply Hr|done|]. intros Hz. destruct (Hn Hz) as (h & Hin' & Hfo). exists h. split; [|done]. apply list_elem_of_filter. eauto.
  - pose proof (length_filter P (n_routes n)). lia.
  - apply Forall_forall. intros h [HQ Hin]%list_elem_of_filter. rewrite Forall_forall in H3. destruct (H3 h Hin). split; auto.
  - eapply sublist_NoDup; [exact H4|]. apply fmap_sublist, sublist_filter.
  - pose proof (length_filter Q (n_nexthops n)). lia.
Qed.
End Shrink.
Lemma flush_base n index : base_ok n → base_ok (md_network_interface_ipv6_flush n index).
Proof.
  intros [Hl Ht]. unfold md_network_interface_ipv6_flush.
  assert (Forall2 (mild (n_links n)) (n_links n) (flush_link index <$> n_links n)) as Hm by (apply mild_map; eauto with net).
  split; [by eapply mild_links|]. cbn [n_links set_nexthops set_routes set_links]. rewrite (shape_indexes _ _ (mild_shape _ _ _ Hm)).
  apply tables_filter with (idx := indexes (n_links n)); [|auto..|done]. intros r h (_ & Hi & _ & _ & Hf). unfold family6. by rewrite Hi, Hf.
Qed.
Lemma flush_space n index : space_ok n → space_ok (md_network_interface_ipv6_flush n index).
Proof.
  intros [Hb Ht]. split; [by apply flush_base|]. eapply shape_tunnels, Ht. eapply (mild_shape (n_links n)), mild_map. eauto with net.
Qed.

(** ** Removing links *)

Definition unmaster (index : Z) (l : md_network_interface) : md_network_interface := if l_master l =? index then set_bridge 0 0 0 l else l.
Definition remaining (index : Z) (ls : list md_network_interface) : list md_network_interface := unmaster index <$> filter (λ l, (l_index l =? index) = false) ls.
Lemma unmaster_shape index l : shape (unmaster index l) = shape l ∧ l_peer (unmaster index l) = l_peer l ∧ l_addresses (unmaster index l) = l_addresses l.
Proof. unfold unmaster. by case_if. Qed.
Lemma unlinked_links index n : n_links (unlinked index n) = remaining index (n_links n).
Proof. done. Qed.
Lemma in_remaining index ls l' : l' ∈ remaining index ls ↔ ∃ l, l ∈ ls ∧ l_index l ≠ index ∧ l' = unmaster index l.
Proof.
  unfold remaining. rewrite list_elem_of_fmap. setoid_rewrite list_elem_of_filter. setoid_rewrite Z.eqb_neq. naive_solver.
Qed.
Lemma remaining_shapes index ls : shape <$> remaining index ls = shape <$> filter (λ l, (l_index l =? index) = false) ls.
Proof. unfold remaining. rewrite <-list_fmap_compose. apply list_fmap_ext. intros ???. cbn. apply unmaster_shape. Qed.
Lemma in_remaining_index index ls i : i ∈ indexes (remaining index ls) ↔ i ∈ indexes ls ∧ i ≠ index.
Proof.
  unfold indexes. rewrite !list_elem_of_fmap. setoid_rewrite in_remaining. split.
  - intros (l' & -> & l & Hl & Hi & ->). destruct (unmaster_shape index l) as ([= -> _ _ _] & _). eauto.
  - intros [(l & -> & Hl) Hi]. exists (unmaster index l). destruct (unmaster_shape index l) as ([= He _ _ _] & _). rewrite He. eauto.
Qed.
Lemma remaining_ok index ls : links_ok ls → links_ok (remaining index ls).
Proof.
  intros [Hi Hn Hc He Hm].
  assert (filter (λ l, (l_index l =? index) = false) ls `sublist_of` ls) as Hs by apply sublist_filter.
  split.
  - rewrite (shape_indexes _ _ (remaining_shapes index ls)). eapply sublist_NoDup; [exact Hi|]. by apply fmap_sublist.
  - rewrite (shape_names _ _ (remaining_shapes index ls)). eapply sublist_NoDup; [exact Hn|]. by apply fmap_sublist.
  - unfold remaining. rewrite length_fmap. apply sublist_length in Hs. lia.
  - apply Forall_forall. intros l' (l & Hl & _ & ->)%in_remaining. rewrite Forall_forall in He. destruct (He l Hl) as [].
    unfold unmaster. by case_if.
  - intros l' (l & Hl & Hne & ->)%in_remaining H0. unfold unmaster in *. destruct (Z.eqb_spec (l_master l) index); [done|].
    destruct (Hm l Hl H0) as (b & Hb & Hbi & Hk). exists (unmaster index b). destruct (unmaster_shape index b) as ([= -> _ -> _] & _).
    split_and!; [|done..]. apply in_remaining. exists b. split_and!; [done|congruence|done].
Qed.
Lemma unlinked_base index n : base_ok n → base_ok (unlinked index n).
Proof.
  intros [Hl Ht]. split; [by apply remaining_ok|]. unfold unlinked.
  apply tables_filter with (idx := indexes (n_links n)); [| | |done].
  - intros r h (_ & -> & _). done.
  - intros r He%Z.eqb_neq Hi. apply in_remaining_index. auto.
  - intros r He%Z.eqb_neq Hi. apply in_remaining_index. auto.
Qed.
Lemma remaining_tunnels index ls : Forall (λ l, is_tunnel index l = false) ls → tunnels_ok ls → tunnels_ok (remaining index ls).
Proof.
  intros Hf Ht l' (l & Hl & Hi & ->)%in_remaining Hv H0. destruct (unmaster_shape index l) as ([= _ _ Hk Hx] & _).
  unfold is_vxlan in *. rewrite Hk in Hv. rewrite Hx in *. destruct (Ht l Hl Hv H0) as (u & Hu & Hui & Huv).
  exists (unmaster index u). destruct (unmaster_shape index u) as ([= -> _ Hku _] & _). unfold is_vxlan in *. rewrite Hku. split_and!; [|done..].
  apply in_remaining. exists u. split_and!; [done| |done]. intros He. rewrite Forall_forall in Hf. specialize (Hf l Hl).
  unfold is_tunnel in Hf. rewrite Hv in Hf. cbn in Hf. apply Z.eqb_neq in Hf. congruence.
Qed.
Lemma unlinked_space index n : Forall (λ l, is_tunnel index l = false) (n_links n) → space_ok n → space_ok (unlinked index n).
Proof. intros Hf [Hb Ht]. split; [by apply unlinked_base|by apply remaining_tunnels]. Qed.

(** Everything of a namespace but its tables and its policy counter. *)
Definition config (n : md_network_namespace) := (n_all n, n_defaults n, n_all6 n, n_defaults6 n, n_ipv4_forward n).
(** Links of [n] are gone, none of those that [keep] describes. *)
Record pruned (keep : md_network_interface → Prop) (n n' : md_network_namespace) : Prop := mk_pruned {
  pr_from : ∀ l', l' ∈ n_links n' → ∃ l, l ∈ n_links n ∧ shape l' = shape l ∧ l_peer l' = l_peer l;
  pr_kept : ∀ l, l ∈ n_links n → keep l → ∃ l', l' ∈ n_links n' ∧ shape l' = shape l ∧ l_peer l' = l_peer l;
  pr_config : config n' = config n ∧ n_next_policy n' = n_next_policy n ∧ n_rules n' = n_rules n }.
Lemma pruned_refl keep n : pruned keep n n.
Proof. split; eauto. Qed.
Lemma pruned_trans (keep : md_network_interface → Prop) a b c :
  (∀ l l', shape l' = shape l → l_peer l' = l_peer l → keep l → keep l') → pruned keep a b → pruned keep b c → pruned keep a c.
Proof.
  intros Hk [F1 K1 (C1 & P1 & R1)] [F2 K2 (C2 & P2 & R2)]. split; [| |split_and!; congruence].
  - intros l'' H. destruct (F2 _ H) as (l' & H' & ? & ?). destruct (F1 _ H') as (l & ? & ? & ?). exists l. split_and!; congruence.
  - intros l H Hl. destruct (K1 _ H Hl) as (l' & H' & Hs & Hp). destruct (K2 _ H' (Hk _ _ Hs Hp Hl)) as (l'' & ? & ? & ?). exists l''. split_and!; congruence.
Qed.
Lemma unlinked_pruned index n : pruned (λ l, l_index l ≠ index) n (unlinked index n).
Proof.
  split; [| |done].
  - intros l' (l & Hl & _ & ->)%in_remaining. destruct (unmaster_shape index l) as (? & ? & _). eauto.
  - intros l Hl Hi. exists (unmaster index l). destruct (unmaster_shape index l) as (? & ? & _). split_and!; [|done..]. apply in_remaining. eauto.
Qed.
Lemma pruned_weaken (P Q : md_network_interface → Prop) n n' : (∀ l, l ∈ n_links n → Q l → P l) → pruned P n n' → pruned Q n n'.
Proof. intros H [? K ?]. split; [done| |done]. intros l Hl HQ. eauto. Qed.

Lemma no_tunnels remove index k i n :
  Forall (λ l, is_tunnel index l = false) (drop i (n_links n)) → (length (n_links n) ≤ i + k)%nat → tunnels_loop remove index k i n = Some n.
Proof.
  revert i. induction k as [|k IH]; intros i Hf Hk; cbn.
  - rewrite lookup_ge_None_2 by lia. done.
  - destruct (n_links n !! i) as [l|] eqn:E; [|done]. rewrite (drop_S _ _ _ E) in Hf. apply Forall_cons in Hf as [-> Hf]. apply IH; [done|lia].
Qed.
Lemma remove_leaf fuel n index : Forall (λ l, is_tunnel index l = false) (n_links n) → remove_loop (S fuel) n index = Some (unlinked index n).
Proof. intros H. cbn. rewrite no_tunnels; [done|done|lia]. Qed.
(** Nothing is over a tunnel. *)
Lemma tunnel_leaf n l : space_ok n → l ∈ n_links n → is_vxlan l = true → Forall (λ x, is_tunnel (l_index l) x = false) (n_links n).
Proof.
  intros [[Hl _] Ht] Hin Hv. apply Forall_forall. intros x Hx. apply not_true_iff_false. unfold is_tunnel. intros [Hk Hi%Z.eqb_eq]%andb_true_iff.
  pose proof (ls_each _ Hl) as He. rewrite Forall_forall in He. pose proof (lk_index _ (He l Hin)).
  destruct (Ht x Hx Hk ltac:(lia)) as (u & Hu & Hui & Huv).
  assert (u = l) as -> by (eapply index_unique; [apply Hl|done..|congruence]). congruence.
Qed.
Lemma remaining_split index pre l post :
  NoDup (indexes (pre ++ l :: post)) → l_index l = index → remaining index (pre ++ l :: post) = (unmaster index <$> pre) ++ (unmaster index <$> post).
Proof.
  intros Hn Hi. unfold remaining, indexes in *. rewrite fmap_app in Hn. apply NoDup_app in Hn as (_ & Hd & Hn). cbn in Hn. apply NoDup_cons in Hn as [Hn _].
  rewrite filter_app, filter_cons_False by (by rewrite Hi, Z.eqb_refl).
  rewrite !filter_all, fmap_app; [done| |].
  - intros x Hx. apply Z.eqb_neq. intros <-. apply Hn. rewrite Hi. by apply list_elem_of_fmap_2.
  - intros x Hx. apply Z.eqb_neq. intros <-. apply (Hd (l_index x)); [by apply list_elem_of_fmap_2|]. cbn. rewrite Hi. left.
Qed.
Lemma tunnels_loop_ok fuel index k i n :
  space_ok n → Forall (λ l, is_tunnel index l = false) (take i (n_links n)) → (i ≤ length (n_links n))%nat → (length (n_links n) ≤ i + k)%nat →
  ∃ n', tunnels_loop (remove_loop (S fuel)) index k i n = Some n' ∧ space_ok n' ∧ pruned (λ l, is_vxlan l = false) n n' ∧ Forall (λ l, is_tunnel index l = false) (n_links n').
Proof.
  revert i n. induction k as [|k IH]; intros i n Hok Hf Hi Hk; cbn [tunnels_loop].
  - rewrite lookup_ge_None_2 by lia. rewrite take_ge in Hf by lia. eauto using pruned_refl.
  - destruct (n_links n !! i) as [l|] eqn:E; [|apply lookup_ge_None in E; rewrite take_ge in Hf by lia; eauto using pruned_refl].
    destruct (is_tunnel index l) eqn:Et.
    + assert (is_vxlan l = true) as Hv by (by apply andb_true_iff in Et as [Hv _]).
      assert (l ∈ n_links n) as Hin by (by eapply list_elem_of_lookup_2).
      pose proof (tunnel_leaf _ _ Hok Hin Hv) as Hleaf. rewrite (remove_leaf fuel n (l_index l) Hleaf). cbn [mbind option_bind].
      pose proof (take_drop_middle _ _ _ E) as Hsp. pose proof (ls_index _ (proj1 (proj1 Hok))) as Hnd.
      assert (n_links (unlinked (l_index l) n) = (unmaster (l_index l) <$> take i (n_links n)) ++ (unmaster (l_index l) <$> drop (S i) (n_links n))) as Hrem.
      { rewrite unlinked_links. rewrite <-Hsp at 1. apply remaining_split; [by rewrite Hsp|done]. }
      destruct (IH i (unlinked (l_index l) n)) as (n' & Hl & Hok' & Hp & Hn).
      * by apply unlinked_space.
      * rewrite Hrem, take_app_le by (rewrite length_fmap, length_take; lia). rewrite take_ge by (rewrite length_fmap, length_take; lia).
        apply Forall_fmap. eapply Forall_impl; [exact Hf|]. intros x Hx. cbn. unfold is_tunnel in *. by destruct (unmaster_shape (l_index l) x) as ([= _ _ -> ->] & _).
      * rewrite Hrem, length_app, length_fmap, length_take. lia.
      * rewrite Hrem, length_app, !length_fmap, length_take, length_drop. lia.
      * exists n'. split_and!; [done..| |done]. eapply pruned_trans, Hp; [intros x y [= _ _ Hxk _] _; unfold is_vxlan; by rewrite Hxk|].
        eapply pruned_weaken, unlinked_pruned. intros x Hx Hxv He. assert (x = l) as -> by (by eapply index_unique). congruence.
    + apply IH; [done| |by eapply lookup_lt_Some|lia]. rewrite (take_S_r _ _ _ E). apply Forall_app. auto.
Qed.
Lemma remove_one_ok n index :
  space_ok n → ∃ n', remove_one n index = Some n' ∧ space_ok n' ∧ pruned (λ l, l_index l ≠ index ∧ is_vxlan l = false) n n' ∧ index ∉ indexes (n_links n').
Proof.
  intros Hok. unfold remove_one. destruct (n_links n) as [|l0 ls] eqn:El.
  - cbn [length]. rewrite (remove_leaf 0 n index) by (rewrite El; constructor). eexists. split_and!; [done| | |].
    + apply unlinked_space; [rewrite El; constructor|done].
    + eapply pruned_weaken, unlinked_pruned. naive_solver.
    + rewrite unlinked_links, in_remaining_index. naive_solver.
  - cbn [length remove_loop]. destruct (tunnels_loop_ok (length ls) index (length (n_links n)) 0 n Hok) as (n' & Hl & Hok' & Hp & Hn); [by rewrite take_0; constructor|lia..|].
    cbn [remove_loop] in Hl. rewrite El in Hl. cbn [length] in Hl. rewrite El. cbn [length]. rewrite Hl. cbn [mbind option_bind].
    exists (unlinked index n'). split_and!; [done|by apply unlinked_space| |rewrite unlinked_links, in_remaining_index; naive_solver].
    eapply (pruned_trans _ _ n'); [intros x y [= Hxi _ Hxk _] _; unfold is_vxlan; by rewrite Hxk, Hxi|..].
    + eapply pruned_weaken, Hp. naive_solver.
    + eapply pruned_weaken, unlinked_pruned. naive_solver.
Qed.

(** ** Adding a link *)

(** A link that joins the others. *)
Lemma links_snoc ls l :
  links_ok ls → link_ok l → l_index l ∉ indexes ls → l_name l ∉ l_name <$> ls → l_master l = 0 → Z.of_nat (length ls) < MD_NETWORK_MAX_LINKS → links_ok (ls ++ [l]).
Proof.
  intros [Hi Hn Hc He Hm] Hok Hi' Hn' H0 Hlt. split.
  - unfold indexes in *. rewrite fmap_app. apply NoDup_app. split_and!; [done| |apply NoDup_singleton]. intros x Hx ->%list_elem_of_singleton. done.
  - rewrite fmap_app. apply NoDup_app. split_and!; [done| |apply NoDup_singleton]. intros x Hx ->%list_elem_of_singleton. done.
  - rewrite length_app. cbn. lia.
  - apply Forall_app. auto.
  - intros x [Hx| ->%list_elem_of_singleton]%elem_of_app Hz; [|done]. destruct (Hm x Hx Hz) as (b & Hb & ? & ?). exists b. split_and!; [|done..]. apply elem_of_app. auto.
Qed.
Lemma tables_mono idx idx' n : idx ⊆ idx' → tables_ok idx n → tables_ok idx' n.
Proof.
  intros Hs [H1 H2 H3 H4 H5 H6 H7]. split; [|done| |done..].
  - eapply Forall_impl; [exact H1|]. intros r (Hi & Hr). split; auto.
  - eapply Forall_impl; [exact H3|]. intros h [Hi Hh]. split; auto.
Qed.
Lemma tables_policy idx n p : tables_ok idx n → tables_ok idx (set_next_policy p n).
Proof. intros []. by split. Qed.
Lemma base_snoc n l p :
  base_ok n → link_ok l → l_index l ∉ indexes (n_links n) → l_name l ∉ l_name <$> n_links n → l_master l = 0 → Z.of_nat (length (n_links n)) < MD_NETWORK_MAX_LINKS →
  base_ok (set_next_policy p (set_links (n_links n ++ [l]) n)).
Proof.
  intros [Hl Ht] Hok Hi Hn H0 Hlt. split; [by apply links_snoc|].
  apply tables_policy, tables_links. eapply tables_mono, Ht. intros x Hx. unfold indexes. cbn. rewrite fmap_app. apply elem_of_app. auto.
Qed.
Lemma tunnels_snoc ls l : tunnels_ok ls → (is_vxlan l = true → vx_link (l_vxlan l) = 0) → tunnels_ok (ls ++ [l]).
Proof.
  intros Ht Hl x [Hx| ->%list_elem_of_singleton]%elem_of_app Hv H0; [|by apply Hl in Hv].
  destruct (Ht x Hx Hv H0) as (u & Hu & ? & ?). exists u. split_and!; [|done..]. apply elem_of_app. auto.
Qed.
Lemma reserve_room memory n extra : md_network_interface_reserve memory n extra = 0 → Z.of_nat (length (n_links n)) + extra ≤ MD_NETWORK_MAX_LINKS.
Proof. unfold md_network_interface_reserve. case_if; [done|]. breflect. lia. Qed.
(** A new link: its index is the next one of the fabric. *)
Lemma interface_add_ok memory next n kind name next' n' id :
  md_network_interface_add memory next n kind name = inl (next', n', id) → space_ok n →
  2 ≤ next ≤ INT_MAX → (∀ l, l ∈ n_links n → l_index l < next) → (kind = MD_LINK_LOOPBACK → 1 ∉ indexes (n_links n)) →
  space_ok n' ∧ n_links n' = n_links n ++ [new_link n kind name id] ∧ id = (if loopback_kind kind then 1 else next)
  ∧ next' = (if loopback_kind kind then next else next + 1) ∧ next' ≤ INT_MAX ∧ config n' = config n ∧ n_routes n' = n_routes n.
Proof.
  unfold md_network_interface_add. intros H [Hb Ht] Hnext Hlow Hone.
  destruct (valid_name name) eqn:Hname; cbn [negb] in H; [|done].
  destruct (bool_decide_reflect (is_Some (md_network_interface_find n 0 (Some name)))) as [|Hfree]; [done|].
  destruct ((next =? INT_MAX) || _) eqn:Hmax; [done|].
  destruct (Z.eqb_spec (md_network_interface_reserve memory n 1) 0) as [Hres|]; cbn [negb] in H; [|done]. injection H as <- <- <-.
  apply reserve_room in Hres. apply orb_false_iff in Hmax as [Hmax%Z.eqb_neq _]. apply no_name in Hfree.
  set (id := if loopback_kind kind then 1 else next).
  assert (id ∉ indexes (n_links n)) as Hid.
  { unfold id, loopback_kind. destruct (bool_decide_reflect (kind = MD_LINK_LOOPBACK)) as [->|]; [by apply Hone|].
    intros (l & He & Hl)%list_elem_of_fmap. specialize (Hlow l Hl). lia. }
  assert (link_ok (new_link n kind name id)) as Hok.
  { split; cbn; [done| | |done|done|constructor]; unfold id, loopback_kind; destruct (bool_decide_reflect (kind = MD_LINK_LOOPBACK)); try lia; split; intros; by lia || done. }
  split_and!; [|done..| |done|done].
  - split; [apply base_snoc; try done; lia|]. by apply tunnels_snoc.
  - unfold loopback_kind. case_if; lia.
Qed.

(** ** Rules, routes and next hops *)

(** Operations on the tables leave the links alone. *)
Lemma base_tables n n' : n_links n' = n_links n → base_ok n → (tables_ok (indexes (n_links n)) n → tables_ok (indexes (n_links n)) n') → base_ok n'.
Proof. intros He [Hl Ht] H. unfold base_ok. rewrite He. auto. Qed.
Lemma sorted_delete i (rs : list md_network_rule) : StronglySorted earlier rs → StronglySorted earlier (delete i rs).
Proof.
  destruct (rs !! i) as [r|] eqn:E; [|apply lookup_ge_None in E; by rewrite delete_take_drop, take_ge, drop_ge, app_nil_r by lia].
  rewrite <-(take_drop_middle _ _ _ E) at 1. rewrite delete_take_drop, !StronglySorted_app, StronglySorted_cons. intros (Hx & H1 & _ & H2).
  split_and!; [|done..]. intros x y Hx1 Hy. apply Hx; [done|by right].
Qed.
Lemma in_insert_rule value rs x : x ∈ insert_rule value rs ↔ x = value ∨ x ∈ rs.
Proof. induction rs as [|r rs IH]; cbn; [set_solver|]. case_if; rewrite !elem_of_cons, ?IH; tauto. Qed.
Lemma sorted_insert_rule value rs : StronglySorted earlier rs → StronglySorted earlier (insert_rule value rs).
Proof.
  induction rs as [|r rs IH]; cbn; intros Hs; [by repeat constructor|]. apply StronglySorted_cons in Hs as [Hr Hs]. rewrite Forall_forall in Hr.
  destruct (Z.leb_spec (ru_priority r) (ru_priority value)) as [Hle|Hlt]; apply StronglySorted_cons.
  - split; [|by apply IH]. apply Forall_forall. intros x [->|Hx]%in_insert_rule; [exact Hle|by apply Hr].
  - split; [|apply StronglySorted_cons; rewrite Forall_forall; done]. apply Forall_forall. unfold earlier in *.
    intros x [->|Hx]%elem_of_cons; [lia|]. specialize (Hr x Hx). lia.
Qed.
Lemma length_insert_rule value rs : length (insert_rule value rs) = S (length rs).
Proof. induction rs as [|r rs IH]; cbn; [done|]. case_if; cbn; by rewrite ?IH. Qed.
Lemma tables_rules idx n rs : StronglySorted earlier rs → Z.of_nat (length rs) ≤ MD_NETWORK_MAX_RULES → tables_ok idx n → tables_ok idx (set_rules rs n).
Proof. intros Hs Hc []. by split. Qed.
(** What a request on the tables keeps. *)
Record table_change (n n' : md_network_namespace) : Prop := mk_table_change { tc_links : n_links n' = n_links n; tc_config : config n' = config n ∧ n_next_policy n' = n_next_policy n }.
(** The checks that a successful request has passed. *)
Ltac accept H :=
  cbn zeta in H;
  repeat match type of H with (if ?b then inr _ else _) = inl _ => let E := fresh "E" in destruct b eqn:E; [discriminate H|] end.
Lemma set_rules_ok n rs : StronglySorted earlier rs → Z.of_nat (length rs) ≤ MD_NETWORK_MAX_RULES → base_ok n → base_ok (set_rules rs n).
Proof. intros Hs Hc Hb. eapply base_tables; [|exact Hb|]; [done|]. by apply tables_rules. Qed.
Lemma rules_ok n q n' : md_network_rules n q = inl n' → table_change n n' ∧ (base_ok n → base_ok n').
Proof.
  unfold md_network_rules. intros H. accept H. destruct (parse_request _ _ _ _) as [[value seen]|]; [|done].
  generalize dependent (if has seen FRA_FWMARK && negb (has seen FRA_FWMASK) then with_mask UINT32_MAX value else value). intros v H.
  accept H. destruct (negb (rq_new q)).
  - destruct (list_find _ _) as [[i r]|] eqn:Ef; [|done]. injection H as <-. split; [by split|]. intros Hb. pose proof (proj2 Hb) as Ht.
    apply set_rules_ok; [by apply sorted_delete, (tk_rules _ _ Ht)| |done].
    apply list_find_Some in Ef as (Hi & _). rewrite length_delete by eauto. pose proof (tk_rule_count _ _ Ht). lia.
  - generalize dependent (if has seen FRA_PRIORITY then v else with_priority (automatic_priority (rq_family q) (n_rules n)) v). intros w H.
    accept H. injection H as <-. split; [by split|]. intros Hb. pose proof (proj2 Hb) as Ht.
    apply set_rules_ok; [by apply sorted_insert_rule, (tk_rules _ _ Ht)| |done].
    rewrite length_insert_rule. pose proof (tk_rule_count _ _ Ht). breflect. lia.
Qed.
Lemma index_in n i l : snd <$> md_network_interface_find n i None = Some l → i ∈ indexes (n_links n) ∧ l ∈ n_links n ∧ l_index l = i.
Proof.
  destruct (md_network_interface_find n i None) as [[k x]|] eqn:E; [|done]. cbn. intros [= ->]. apply find_in in E as [Hl Hi].
  split_and!; [|done..]. rewrite <-Hi. by apply list_elem_of_fmap_2.
Qed.
Lemma index_positive ls i : links_ok ls → i ∈ indexes ls → 0 < i.
Proof. intros Hl (l & -> & Hin)%list_elem_of_fmap. pose proof (ls_each _ Hl) as He. rewrite Forall_forall in He. by apply lk_index, He. Qed.
Lemma nexthop_found n id i h : md_network_nexthop_find n id = Some (i, h) → n_nexthops n !! i = Some h ∧ nh_id h = id.
Proof. by intros (Hi & He & _)%list_find_Some. Qed.
(** What resolution makes of a route. *)
Definition resolved (n : md_network_namespace) (r : md_network_route_entry) : Prop := canonical r ∧ (rt_nexthop r ≠ 0 → ∃ h, h ∈ n_nexthops n ∧ follows r h).
Lemma resolve_nexthop_ok n r v : canonical r → resolve_nexthop n r = inl v → resolved n v.
Proof.
  unfold resolve_nexthop, resolved. intros Hc. destruct (Z.eqb_spec (rt_nexthop r) 0) as [H0|]; [intros [= <-]; done|]. case_if; [done|].
  destruct (md_network_nexthop_find n (rt_nexthop r)) as [[i h]|] eqn:E'; [|done]. apply nexthop_found in E' as [Hi Hid].
  destruct (Z.eqb_spec (ip_family (nh_gateway h)) (ip_family (rt_destination r))) as [Hf|]; [|done]. cbn. intros [= <-]. split; [done|]. intros _.
  exists h. split; [by eapply list_elem_of_lookup_2|]. done.
Qed.
Lemma resolve_gateway_ok n v : base_ok n → resolved n v → resolved n (resolve_gateway n v).
Proof.
  intros [Hl Ht] [Hc Hn]. unfold resolve_gateway. destruct (_ && _) eqn:E; [|done]. apply andb_true_iff in E as [H0%Z.eqb_eq _].
  destruct (md_network_route_lookup n (rt_gateway v) 0) as [[l r]|]; [|done]. case_if; [|done]. split; [done|]. intros Hh. exfalso.
  destruct (Hn Hh) as (h & Hin & _ & Hi & _). pose proof (tk_hops _ _ Ht) as Hk. rewrite Forall_forall in Hk. destruct (Hk h Hin) as [_ Hidx].
  apply (index_positive _ _ Hl) in Hidx. lia.
Qed.
Lemma set_routes_ok n rs : Forall (route_ok (indexes (n_links n)) (n_nexthops n)) rs → Z.of_nat (length rs) ≤ MD_NETWORK_MAX_ROUTES → base_ok n → base_ok (set_routes rs n).
Proof. intros Hr Hc Hb. eapply base_tables; [|exact Hb|]; [done|]. intros []. by split. Qed.
Lemma route_insert_ok timer flags n v n' : resolved n v → route_insert timer flags n v = inl n' → table_change n n' ∧ (base_ok n → base_ok n').
Proof.
  unfold route_insert. intros [Hc Hn] H. destruct (snd <$> md_network_interface_find n (rt_interface v) None) as [link|] eqn:El; [|done].
  apply index_in in El as (Hidx & _). accept H. assert (route_ok (indexes (n_links n)) (n_nexthops n) v) as Hv by done.
  destruct (list_find _ _) as [[i r]|] eqn:Ef.
  - accept H. injection H as <-. split; [by split|]. intros Hb. pose proof (proj2 Hb) as Ht. apply set_routes_ok; [| |done].
    + apply Forall_insert; [apply (tk_routes _ _ Ht)|done].
    + rewrite length_insert. apply (tk_route_count _ _ Ht).
  - accept H. injection H as <-. split; [by split|]. intros Hb. pose proof (proj2 Hb) as Ht. apply set_routes_ok; [| |done].
    + apply Forall_app. split; [apply (tk_routes _ _ Ht)|by constructor].
    + rewrite length_app. cbn. pose proof (tk_route_count _ _ Ht). breflect. lia.
Qed.
Lemma routes_ok timer now n q n' : base_ok n → md_network_routes timer now n q = inl n' → table_change n n' ∧ base_ok n'.
Proof.
  unfold md_network_routes. intros Hb H. destruct (route_decode now q) as [[v seen]|]; [|done]. accept H.
  destruct (resolve_nexthop n _) as [w|] eqn:Er; [|done]. cbn zeta in H.
  apply resolve_nexthop_ok in Er; [|unfold canonical; by apply negb_false_iff]. apply (resolve_gateway_ok _ _ Hb) in Er.
  destruct (negb (tq_new q)); [|apply route_insert_ok in H as []; auto].
  destruct (list_find _ _) as [[i r]|] eqn:Ef; [|done]. injection H as <-. split; [by split|]. pose proof (proj2 Hb) as Ht.
  apply list_find_Some in Ef as (Hi & _). apply set_routes_ok; [| |done].
  - apply Forall_delete, (tk_routes _ _ Ht).
  - rewrite length_delete by eauto. pose proof (tk_route_count _ _ Ht). lia.
Qed.
Lemma in_delete {A} (l : list A) i x y : l !! i = Some x → y ∈ l → y ≠ x → y ∈ delete i l.
Proof.
  intros Hi [j Hj]%list_elem_of_lookup Hne. rewrite delete_take_drop. apply elem_of_app.
  destruct (decide (j < i)%nat); [left; apply list_elem_of_lookup; exists j; by rewrite lookup_take_lt|].
  right. apply list_elem_of_lookup. exists (j - S i)%nat. rewrite lookup_drop. replace (S i + (j - S i))%nat with j; [done|]. assert (i ≠ j) by congruence. lia.
Qed.
Lemma nexthop_delete_ok n id i h :
  md_network_nexthop_find n id = Some (i, h) → base_ok n →
  base_ok (set_routes (filter (λ r, (rt_nexthop r =? id) = false) (n_routes n)) (set_nexthops (delete i (n_nexthops n)) n)).
Proof.
  intros [Hi Hid]%nexthop_found Hb. eapply base_tables; [|exact Hb|]; [done|]. intros [H1 H2 H3 H4 H5 H6 H7]. split; cbn; [| | | | |done|done].
  - apply Forall_forall. intros r [Hne%Z.eqb_neq Hr]%list_elem_of_filter. rewrite Forall_forall in H1. destruct (H1 r Hr) as (Hx & Hc & Hn). split_and!; [done..|].
    intros Hz. destruct (Hn Hz) as (k & Hk & Hf). exists k. split; [|done]. eapply in_delete; [done..|]. intros ->. destruct Hf as (He & _). congruence.
  - pose proof (length_filter (λ r, (rt_nexthop r =? id) = false) (n_routes n)). lia.
  - by apply Forall_delete.
  - rewrite list_fmap_delete. eapply sublist_NoDup; [exact H4|]. apply sublist_delete.
  - rewrite length_delete by eauto. lia.
Qed.
(** A next hop takes its place, and its routes follow it. *)
Lemma follow_routes n hops v :
  base_ok n → nh_id v ≠ 0 → nh_interface v ∈ indexes (n_links n) → v ∈ hops → (∀ h, h ∈ n_nexthops n → nh_id h ≠ nh_id v → h ∈ hops) →
  existsb (λ r, (rt_nexthop r =? nh_id v) && negb (ip_family (rt_destination r) =? ip_family (nh_gateway v))) (n_routes n) = false →
  Forall (route_ok (indexes (n_links n)) hops) (follow_nexthop v <$> n_routes n).
Proof.
  intros [_ Ht] Hid Hi Hv Hkeep Hx. apply Forall_fmap, Forall_forall. intros r Hr. pose proof (tk_routes _ _ Ht) as H1. rewrite Forall_forall in H1.
  destruct (H1 r Hr) as (Hidx & Hc & Hn). cbn. unfold follow_nexthop. destruct (Z.eqb_spec (rt_nexthop r) (nh_id v)) as [He|Hne].
  - split_and!; [done..|]. intros _. exists v. split; [done|]. split_and!; try done. cbn.
    apply not_true_iff_false in Hx. apply Z.eqb_eq, not_false_iff_true. intros Hf. apply Hx, existsb_exists. exists r. split; [by apply list_elem_of_In|].
    by rewrite He, Z.eqb_refl, Hf.
  - split_and!; [done..|]. intros Hz. destruct (Hn Hz) as (h & Hh & Hf). exists h. split; [|done]. apply Hkeep; [done|]. destruct Hf as (? & _). congruence.
Qed.
Lemma nexthop_put_ok n hops v :
  base_ok n → nh_id v ≠ 0 → nh_interface v ∈ indexes (n_links n) → v ∈ hops → (∀ h, h ∈ n_nexthops n → nh_id h ≠ nh_id v → h ∈ hops) →
  Forall (hop_ok (indexes (n_links n))) hops → NoDup (nh_id <$> hops) → Z.of_nat (length hops) ≤ MD_NETWORK_MAX_ROUTES →
  existsb (λ r, (rt_nexthop r =? nh_id v) && negb (ip_family (rt_destination r) =? ip_family (nh_gateway v))) (n_routes n) = false →
  base_ok (set_routes (follow_nexthop v <$> n_routes n) (set_nexthops hops n)).
Proof.
  intros Hb Hid Hi Hv Hkeep Hf Hnd Hlen Hx. eapply base_tables; [|exact Hb|]; [done|]. intros Ht. split; cbn; [by apply follow_routes| |done..| |].
  - rewrite length_fmap. apply (tk_route_count _ _ Ht).
  - apply (tk_rules _ _ Ht).
  - apply (tk_rule_count _ _ Ht).
Qed.
Lemma nexthop_replace_ok n i h v :
  base_ok n → n_nexthops n !! i = Some h → nh_id h = nh_id v → nh_id v ≠ 0 → nh_interface v ∈ indexes (n_links n) →
  existsb (λ r, (rt_nexthop r =? nh_id v) && negb (ip_family (rt_destination r) =? ip_family (nh_gateway v))) (n_routes n) = false →
  base_ok (set_routes (follow_nexthop v <$> n_routes n) (set_nexthops (<[i := v]> (n_nexthops n)) n)).
Proof.
  intros Hb Hi He Hid Hidx Hx. pose proof (proj2 Hb) as Ht. assert (i < length (n_nexthops n))%nat as Hlt by (by eapply lookup_lt_Some).
  apply nexthop_put_ok; [done..| | | | | |done].
  - eapply list_elem_of_lookup_2. by rewrite list_lookup_insert_eq.
  - intros k [j Hj]%list_elem_of_lookup Hne. apply list_elem_of_lookup. exists j. rewrite list_lookup_insert_ne; [done|]. intros ->. congruence.
  - apply Forall_insert; [apply (tk_hops _ _ Ht)|done].
  - rewrite list_fmap_insert, list_insert_id; [apply (tk_ids _ _ Ht)|]. rewrite list_lookup_fmap, Hi. cbn. by rewrite He.
  - rewrite length_insert. apply (tk_hop_count _ _ Ht).
Qed.
Lemma nexthop_append_ok n v :
  base_ok n → md_network_nexthop_find n (nh_id v) = None → nh_id v ≠ 0 → nh_interface v ∈ indexes (n_links n) → Z.of_nat (length (n_nexthops n)) ≠ MD_NETWORK_MAX_ROUTES →
  existsb (λ r, (rt_nexthop r =? nh_id v) && negb (ip_family (rt_destination r) =? ip_family (nh_gateway v))) (n_routes n) = false →
  base_ok (set_routes (follow_nexthop v <$> n_routes n) (set_nexthops (n_nexthops n ++ [v]) n)).
Proof.
  intros Hb Hno Hid Hidx Hlen Hx. pose proof (proj2 Hb) as Ht. pose proof (tk_hop_count _ _ Ht). apply list_find_None in Hno. rewrite Forall_forall in Hno.
  apply nexthop_put_ok; [done..| | | | | |done].
  - apply elem_of_app. right. by apply list_elem_of_singleton.
  - intros h Hh _. apply elem_of_app. by left.
  - apply Forall_app. split; [apply (tk_hops _ _ Ht)|by repeat constructor].
  - rewrite fmap_app. apply NoDup_app. split_and!; [apply (tk_ids _ _ Ht)| |apply NoDup_singleton].
    intros x (h & -> & Hh)%list_elem_of_fmap Hin%list_elem_of_singleton. by apply (Hno h Hh).
  - rewrite length_app. cbn. lia.
Qed.
Lemma nexthops_ok n q n' : base_ok n → md_network_nexthops n q = inl n' → table_change n n' ∧ base_ok n'.
Proof.
  unfold md_network_nexthops. intros Hb H. destruct (nexthop_decode q) as [[v seen]|]; [|done].
  destruct (Z.eqb_spec (nh_id v) 0) as [|Hid]; [done|]. cbn zeta in H.
  destruct (negb (hq_new q)).
  - destruct (md_network_nexthop_find n (nh_id v)) as [[i h]|] eqn:Ef; [|done]. injection H as <-. split; [by split|]. by eapply nexthop_delete_ok.
  - accept H. destruct (snd <$> md_network_interface_find n (nh_interface v) None) as [link|] eqn:El; [|done]. apply index_in in El as (Hidx & _).
    accept H. destruct (md_network_nexthop_find n (nh_id v)) as [[i h]|] eqn:Ef.
    + accept H. injection H as <-. split; [by split|]. apply nexthop_found in Ef as [Hi He]. by eapply nexthop_replace_ok.
    + accept H. injection H as <-. split; [by split|]. apply nexthop_append_ok; try done. by apply Z.eqb_neq.
Qed.

(** ** The rest of a link request, and IPv6 *)

Lemma apply_change_mild ls c l : (∀ m, c_master c = Some m → m ≠ 0 → bridge_in ls m) → mild ls l (apply_change c l).
Proof.
  intros Hm. split; [done|by intros []| |done]. cbn. unfold master_of. destruct (c_master c) as [m|]; [|by left]. intros H0. right. by apply Hm.
Qed.
(** A namespace whose links are mildly changed; its tables can shrink. *)
Record mild_change (n n' : md_network_namespace) : Prop := mk_mild_change {
  mc_base : base_ok n → base_ok n';
  mc_shape : shape <$> n_links n' = shape <$> n_links n;
  mc_ends : ends (n_links n') = ends (n_links n);
  mc_config : config n' = config n ∧ n_next_policy n' = n_next_policy n }.
Lemma mild_change_refl n : mild_change n n.
Proof. by split. Qed.
Lemma mild_change_trans a b c : mild_change a b → mild_change b c → mild_change a c.
Proof. intros [? ? ? [? ?]] [? ? ? [? ?]]. split; [auto|congruence..|]. split; congruence. Qed.
Lemma mild_links_change n ls : Forall2 (mild (n_links n)) (n_links n) ls → mild_change n (set_links ls n).
Proof. intros H. split; [by apply mild_base|by eapply mild_shape|by eapply mild_ends|done]. Qed.
Lemma update_change n index g : (∀ l, l ∈ n_links n → l_index l = index → mild (n_links n) l (g l)) → mild_change n (update_link index g n).
Proof. intros H. by apply mild_links_change, mild_update. Qed.
Lemma flush_change n index : mild_change n (md_network_interface_ipv6_flush n index).
Proof.
  assert (Forall2 (mild (n_links n)) (n_links n) (flush_link index <$> n_links n)) as H by (apply mild_map; eauto with net).
  split; [apply flush_base|by eapply mild_shape|by eapply mild_ends|done].
Qed.
Lemma mild_change_space n n' : mild_change n n' → space_ok n → space_ok n'.
Proof. intros [Hb Hs _ _] [H Ht]. split; [auto|by eapply shape_tunnels]. Qed.
Lemma apply_link_change c index l n : (∀ m, c_master c = Some m → m ≠ 0 → bridge_in (n_links n) m) → mild_change n (apply_link c index l n).
Proof.
  intros Hm. unfold apply_link. cbn zeta. set (n1 := update_link index (apply_change c) n).
  assert (mild_change n n1) as H1 by (apply update_change; intros; by apply apply_change_mild).
  match goal with |- context [if ?b then md_network_interface_ipv6_flush n1 index else n1] => set (n2 := if b then md_network_interface_ipv6_flush n1 index else n1) end.
  assert (mild_change n1 n2) as H2 by (unfold n2; case_if; [apply flush_change|apply mild_change_refl]).
  eapply mild_change_trans; [exact H1|]. eapply mild_change_trans; [exact H2|]. case_if; [|apply mild_change_refl]. apply update_change. eauto with net.
Qed.
Lemma disable_step_change scope disabled n i : mild_change n (disable_step scope disabled n i).
Proof.
  unfold disable_step. destruct (n_links n !! i) as [l|] eqn:E; [|apply mild_change_refl]. case_if; [apply mild_change_refl|]. cbn zeta.
  assert (mild (n_links n) l (set_disabled disabled l)) as Hm by (split; [done|by intros []|by left|done]).
  case_if.
  - apply mild_links_change, (mild_insert _ _ _ _ E). eapply mild_trans; eauto with net.
  - eapply mild_change_trans, flush_change. by apply mild_links_change, (mild_insert _ _ _ _ E).
Qed.
Lemma disable_ok journal n scope disabled n' :
  md_network_route_disable_ipv6 journal n scope disabled = inl n' → (space_ok n → space_ok n') ∧ ends (n_links n') = ends (n_links n).
Proof.
  unfold md_network_route_disable_ipv6. intros H. accept H. injection H as <-.
  assert (∀ l m, mild_change m (foldl (disable_step scope disabled) m l)) as Hf.
  { induction l as [|i l IH]; intros m; cbn; [apply mild_change_refl|]. eapply mild_change_trans, IH. apply disable_step_change. }
  specialize (Hf (seq 0 (length (n_links n))) n). set (m := foldl _ _ _) in *. pose proof (mild_change_space _ _ Hf). destruct Hf as [_ _ He _].
  case_if; [|done]. split; [|done]. intros Hok. destruct (H Hok) as [[Hl []] Ht]. split; [split; [done|by split]|done].
Qed.
