(* ===== verification/NetFabric.v ===== *)
(** * The invariant of a fabric (network_model.c, network_route.c)

    Indexes are unique across the namespaces of a fabric, except that of the
    loopback, and the two ends of a virtual cable name each other.  Creating, changing,
    moving and removing links, requests and the release of a namespace keep this. *)
From S2P Require Import Prelude UserNamespace NetworkIp NetModel NetControl NetLink NetOk.

(** ** Namespaces of a fabric *)

Definition keys (f : md_network_fabric) : list positive := fst <$> f_spaces f.
Lemma get_cons next k n l at_ : get_space (mk_fabric next ((k, n) :: l)) at_ = if decide (k = at_) then Some n else get_space (mk_fabric next l) at_.
Proof.
  unfold get_space. cbn. destruct (decide (k = at_)); [done|]. by destruct (list_find _ l) as [[i [x y]]|].
Qed.
Lemma put_cons next k n l at_ m : put_space (mk_fabric next ((k, n) :: l)) at_ m = mk_fabric next ((k, if decide (k = at_) then m else n) :: f_spaces (put_space (mk_fabric next l) at_ m)).
Proof. unfold put_space. cbn. by destruct (decide (k = at_)) as [->|]; [rewrite bool_decide_eq_true_2|rewrite bool_decide_eq_false_2]. Qed.
Lemma get_next f next at_ : get_space (with_next next f) at_ = get_space f at_.
Proof. done. Qed.
Lemma get_put f at_ n at' : is_Some (get_space f at_) → get_space (put_space f at_ n) at' = if decide (at' = at_) then Some n else get_space f at'.
Proof.
  destruct f as [next l]. induction l as [|[k x] l IH]; [by intros [? ?]|]. rewrite put_cons, !get_cons.
  change (get_space (mk_fabric next (f_spaces ?g)) at') with (get_space g at').
  destruct (decide (k = at_)) as [->|Hne].
  - intros _. destruct (decide (at_ = at')) as [->|]; [by rewrite decide_True|]. rewrite decide_False by done.
    clear IH. induction l as [|[k y] l IH]; [done|]. rewrite put_cons, !get_cons.
    change (get_space (mk_fabric next (f_spaces ?g)) at') with (get_space g at'). destruct (decide (k = at')) as [->|]; [by rewrite decide_False|]. done.
  - intros Hs. destruct (decide (k = at')) as [->|]; [by rewrite decide_False|]. by apply IH.
Qed.
Lemma keys_put f at_ n : keys (put_space f at_ n) = keys f.
Proof. unfold keys, put_space. cbn. rewrite <-list_fmap_compose. apply list_fmap_ext. intros ? [k x] _. cbn. by case_bool_decide. Qed.
Lemma keys_cons next k n l : keys (mk_fabric next ((k, n) :: l)) = k :: keys (mk_fabric next l).
Proof. done. Qed.
Lemma get_key f at_ : is_Some (get_space f at_) ↔ at_ ∈ keys f.
Proof.
  destruct f as [next l]. induction l as [|[k x] l IH].
  - split; [by intros [? ?]|by intros ?%elem_of_nil].
  - rewrite get_cons, keys_cons, elem_of_cons. destruct (decide (k = at_)) as [->|]; [naive_solver|]. rewrite IH. naive_solver.
Qed.
Lemma get_in f at_ n : NoDup (keys f) → (at_, n) ∈ f_spaces f ↔ get_space f at_ = Some n.
Proof.
  destruct f as [next l]. cbn [f_spaces]. induction l as [|[k x] l IH]; intros Hn; [by rewrite elem_of_nil|].
  rewrite keys_cons in Hn. apply NoDup_cons in Hn as [Hk Hn]. rewrite get_cons, elem_of_cons. destruct (decide (k = at_)) as [->|Hne].
  - split; [intros [[= ->]|H]; [done|]|naive_solver]. destruct Hk. by apply (list_elem_of_fmap_2 fst) in H.
  - rewrite <-(IH Hn). naive_solver.
Qed.
(** A link of a namespace, by its index and the index of its other end. *)
Definition at_end (f : md_network_fabric) (at_ : positive) (i p : Z) : Prop := ∃ n, get_space f at_ = Some n ∧ (i, p) ∈ ends (n_links n).
Lemma at_end_put f at_ n at' i p :
  is_Some (get_space f at_) → at_end (put_space f at_ n) at' i p ↔ at' = at_ ∧ (i, p) ∈ ends (n_links n) ∨ at' ≠ at_ ∧ at_end f at' i p.
Proof. intros H. unfold at_end. rewrite get_put by done. destruct (decide (at' = at_)); naive_solver. Qed.
Lemma in_ends ls i p : (i, p) ∈ ends ls ↔ ∃ l, l ∈ ls ∧ l_index l = i ∧ l_peer l = p.
Proof. unfold ends. rewrite list_elem_of_fmap. naive_solver. Qed.
Lemma in_index ls i : i ∈ indexes ls ↔ ∃ p, (i, p) ∈ ends ls.
Proof. setoid_rewrite in_ends. unfold indexes. rewrite list_elem_of_fmap. naive_solver. Qed.
Lemma ends_unique ls i p q : NoDup (indexes ls) → (i, p) ∈ ends ls → (i, q) ∈ ends ls → p = q.
Proof. rewrite !in_ends. intros Hn (l & Hl & ? & ?) (l' & Hl' & ? & ?). assert (l = l') as -> by (eapply index_unique; [done..|congruence]). congruence. Qed.

(** ** The invariant *)

Record fabric_ok (f : md_network_fabric) : Prop := mk_fabric_ok {
  fk_keys : NoDup (keys f);
  fk_next : 2 ≤ f_next_index f ≤ INT_MAX;
  fk_space : ∀ at_ n, get_space f at_ = Some n → space_ok n;
  fk_below : ∀ at_ i p, at_end f at_ i p → i < f_next_index f;
  fk_unique : ∀ at_ at' i p q, at_end f at_ i p → at_end f at' i q → i ≠ 1 → at_ = at';
  fk_peer : ∀ at_ i p, at_end f at_ i p → p ≠ 0 → ∃ at', at_end f at' p i }.
Section Facts.
Context (f : md_network_fabric) (Hf : fabric_ok f).
Lemma end_ok at_ i p : at_end f at_ i p → 0 < i ∧ (p ≠ 0 → i ≠ 1).
Proof.
  intros (n & Hn & (l & Hl & <- & <-)%in_ends). destruct (fk_space _ Hf _ _ Hn) as [[Hls _] _].
  pose proof (ls_each _ Hls) as He. rewrite Forall_forall in He. destruct (He l Hl) as [_ ? Hlo Hp _ _]. split; [done|].
  intros Hz Hone%Hlo. apply Hp in Hz. congruence.
Qed.
Lemma end_unique at_ at' i p q : at_end f at_ i p → at_end f at' i q → i ≠ 1 → at_ = at' ∧ p = q.
Proof.
  intros H1 H2 Hi. pose proof (fk_unique _ Hf _ _ _ _ _ H1 H2 Hi) as ->. split; [done|].
  destruct H1 as (n & Hn & Hp), H2 as (n' & Hn' & Hq). assert (n' = n) as -> by congruence.
  eapply ends_unique; [|done..]. apply (ls_index _ (proj1 (proj1 (fk_space _ Hf _ _ Hn)))).
Qed.
Lemma peer_unique at_ i p at' q : at_end f at_ i p → p ≠ 0 → at_end f at' p q → q = i.
Proof.
  intros H1 Hp H2. destruct (fk_peer _ Hf _ _ _ H1 Hp) as (at2 & H3). destruct (end_ok _ _ _ H1) as [Hi _]. destruct (end_ok _ _ _ H3) as [_ Hone].
  eapply end_unique; [exact H2|exact H3|]. apply Hone. lia.
Qed.
End Facts.

(** Only the namespaces [S] differ, and in their tables and policy counters alone. *)
Record framed (S : list positive) (f f' : md_network_fabric) : Prop := mk_framed {
  fr_keys : keys f' = keys f;
  fr_other : ∀ a, a ∉ S → get_space f' a = get_space f a;
  fr_config : ∀ a n n', get_space f a = Some n → get_space f' a = Some n' → config n' = config n }.
Lemma framed_refl S f : framed S f f.
Proof. split; [done..|]. intros; congruence. Qed.
Lemma framed_trans S a b c : framed S a b → framed S b c → framed S a c.
Proof.
  intros [K1 O1 C1] [K2 O2 C2]. split; [congruence| |].
  - intros x Hx. rewrite O2, O1 by done. done.
  - intros x n n' Hn Hn'. assert (is_Some (get_space b x)) as [m Hm] by (apply get_key; rewrite K1; apply get_key; eauto). rewrite (C2 _ _ _ Hm Hn'). eauto.
Qed.
Lemma framed_put S f at_ n n' : at_ ∈ S → get_space f at_ = Some n → config n' = config n → framed S f (put_space f at_ n').
Proof.
  intros HS Hn Hc. split; [apply keys_put| |].
  - intros a Ha. rewrite get_put by eauto. rewrite decide_False; [done|]. intros ->. done.
  - intros a m m' Hm. rewrite get_put by eauto. destruct (decide (a = at_)) as [->|]; congruence.
Qed.
Lemma framed_next S next f : framed S f (with_next next f).
Proof. split; [done..|]. intros a n n' Hn Hn'. rewrite get_next in Hn'. congruence. Qed.
Lemma framed_weaken S T f f' : S ⊆ T → framed S f f' → framed T f f'.
Proof. intros H [? Ho ?]. split; [done| |done]. intros a Ha. apply Ho. set_solver. Qed.

(** ** Owners *)

Lemma find_some n i p : (i, p) ∈ ends (n_links n) → i ≠ 0 → is_Some (md_network_interface_find n i None).
Proof.
  rewrite in_ends. intros (l & Hl & Hi & _) H0. unfold md_network_interface_find. destruct (list_find _ _) eqn:E; [by eexists|].
  apply list_find_None in E. rewrite Forall_forall in E. destruct (E l Hl). unfold find_test. rewrite (proj2 (Z.eqb_neq i 0) H0). by apply Z.eqb_eq.
Qed.
Lemma owner_some f i o m : NoDup (keys f) → md_network_interface_owner f i = Some (o, m) → get_space f o = Some m ∧ i ≠ 1 ∧ ∃ p, (i, p) ∈ ends (n_links m).
Proof.
  intros Hf. unfold md_network_interface_owner. destruct (Z.eqb_spec i 1); [done|]. destruct (list_find _ _) as [[k s]|] eqn:E; [|done].
  cbn. intros [= ->]. apply list_find_Some in E as (Hk & [[j l] Hl] & _). cbn in Hl. apply find_in in Hl as [Hin Hi]. split_and!; [|done|].
  - apply get_in; [done|]. by eapply list_elem_of_lookup_2.
  - exists (l_peer l). apply in_ends. eauto.
Qed.
Lemma owner_none f i at_ p : NoDup (keys f) → md_network_interface_owner f i = None → i ≠ 1 → i ≠ 0 → ¬ at_end f at_ i p.
Proof.
  intros Hf H Hi H0 He. unfold md_network_interface_owner in H. rewrite (proj2 (Z.eqb_neq i 1) Hi) in H. destruct (list_find _ _) eqn:E; [done|].
  apply list_find_None in E. rewrite Forall_forall in E. destruct He as (n & Hn & Hp).
  apply (E (at_, n)); [by apply get_in|]. by eapply find_some.
Qed.

(** ** Changes of a fabric *)

(** The ends stay. *)
Lemma fabric_put f at_ n n' : fabric_ok f → get_space f at_ = Some n → space_ok n' → ends (n_links n') = ends (n_links n) → fabric_ok (put_space f at_ n').
Proof.
  intros Hf Hn Hok He.
  assert (∀ a i p, at_end (put_space f at_ n') a i p ↔ at_end f a i p) as Hend.
  { intros a i p. rewrite at_end_put, He by eauto. unfold at_end. destruct (decide (a = at_)) as [->|]; naive_solver. }
  destruct Hf as [Hk Hx Hs Hb Hu Hp]. split; [by rewrite keys_put|done| |setoid_rewrite Hend; done|setoid_rewrite Hend; done|setoid_rewrite Hend; done].
  intros a m. rewrite get_put by eauto. destruct (decide (a = at_)); [congruence|apply Hs].
Qed.
(** The links [R] go, both ends of a cable or none. *)
Lemma fabric_prune f f' (R : Z → Prop) :
  fabric_ok f → NoDup (keys f') → f_next_index f' = f_next_index f → (∀ a n, get_space f' a = Some n → space_ok n) →
  (∀ a i p, at_end f' a i p → at_end f a i p ∧ ¬ R i) → (∀ a i p, at_end f a i p → p ≠ 0 → ¬ R i → at_end f' a i p) →
  (∀ a i p, at_end f a i p → p ≠ 0 → R p → R i) → fabric_ok f'.
Proof.
  intros Hf Hk Hx Hs Hsub Hkeep HR. split; [done|rewrite Hx; apply Hf|done| | |].
  - intros a i p H. rewrite Hx. apply Hsub in H as [H _]. by eapply fk_below.
  - intros a a' i p q H1 H2. apply Hsub in H1 as [H1 _], H2 as [H2 _]. by eapply fk_unique.
  - intros a i p H Hp. apply Hsub in H as [H Hi]. destruct (fk_peer _ Hf _ _ _ H Hp) as (a' & H'). exists a'.
    apply Hkeep; [done| |]; [pose proof (proj1 (end_ok _ Hf _ _ _ H)); lia|]. intros Hr. by eapply Hi, HR.
Qed.
(** What a removal of links leaves of the ends. *)
Lemma pruned_ends n n' index : space_ok n → pruned (λ l, l_index l ≠ index ∧ is_vxlan l = false) n n' → index ∉ indexes (n_links n') →
  ∀ i p, ((i, p) ∈ ends (n_links n') → (i, p) ∈ ends (n_links n) ∧ i ≠ index) ∧ ((i, p) ∈ ends (n_links n) → p ≠ 0 → i ≠ index → (i, p) ∈ ends (n_links n')).
Proof.
  intros [[Hl _] _] [Hfrom Hkept _] Hno i p. split.
  - intros Hin. split; [|intros ->; apply Hno, in_index; eauto]. apply in_ends in Hin as (l' & Hl' & <- & <-). destruct (Hfrom _ Hl') as (l & Hll & [= -> _ _ _] & ->). apply in_ends. eauto.
  - intros (l & Hll & <- & <-)%in_ends Hp Hi. destruct (Hkept l Hll) as (l' & Hl' & [= He _ _ _] & Hpe); [|apply in_ends; eauto].
    split; [done|]. pose proof (ls_each _ Hl) as Hk. rewrite Forall_forall in Hk. unfold is_vxlan. apply bool_decide_eq_false. rewrite (lk_peer _ (Hk l Hll) Hp). done.
Qed.
(** A removal in one namespace. *)
Lemma remove_step f at_ n index :
  get_space f at_ = Some n → space_ok n →
  ∃ n', remove_one n index = Some n' ∧ space_ok n' ∧ framed [at_] f (put_space f at_ n') ∧
    (∀ a i p, at_end (put_space f at_ n') a i p → at_end f a i p ∧ (a = at_ → i ≠ index)) ∧
    (∀ a i p, at_end f a i p → p ≠ 0 → a ≠ at_ ∨ i ≠ index → at_end (put_space f at_ n') a i p).
Proof.
  intros Hn Hok. destruct (remove_one_ok n index Hok) as (n1 & Hr & Hok1 & Hpr & Hno). pose proof (pruned_ends _ _ _ Hok Hpr Hno) as He.
  exists n1. split_and!; [done|done|eapply framed_put; [by left|done|apply Hpr]| |]; intros a i p.
  - rewrite at_end_put by eauto. intros [[-> H]|[Hne H]]; [|done]. apply He in H as [H Hi]. split; [by exists n|done].
  - intros (m & Hm & H) Hp Hor. rewrite at_end_put by eauto. destruct (decide (a = at_)) as [->|]; [left|right; split; [done|by exists m]].
    assert (m = n) as -> by congruence. split; [done|]. apply He; [done..|]. tauto.
Qed.
Lemma space_put f at_ n' : is_Some (get_space f at_) → space_ok n' → (∀ a n, get_space f a = Some n → space_ok n) → ∀ a n, get_space (put_space f at_ n') a = Some n → space_ok n.
Proof. intros Hs Hok H a n. rewrite get_put by done. destruct (decide (a = at_)); [congruence|apply H]. Qed.
(** What [md_network_interface_remove] does when it has found the link. *)
Definition remove_ends (f : md_network_fabric) (at_ : positive) (n : md_network_namespace) (index peer : Z) : option (md_network_fabric * Z) :=
  n ← remove_one n index;
  let f' := put_space f at_ n in
  match fst <$> md_network_interface_owner f peer with
  | None => Some (f', 0)
  | Some o => match get_space f' o with None => Some (f', 0) | Some m => m ← remove_one m peer; Some (put_space f' o m, 0) end
  end.
Definition owner_list (f : md_network_fabric) (peer : Z) : list positive := from_option (λ o, [o]) [] (fst <$> md_network_interface_owner f peer).
Lemma remove_single f at_ n index :
  fabric_ok f → get_space f at_ = Some n → at_end f at_ index 0 → index ≠ 1 →
  ∃ f', remove_ends f at_ n index 0 = Some (f', 0) ∧ fabric_ok f' ∧ framed [at_] f f'.
Proof.
  intros Hf Hn Hlink Hone. destruct (remove_step f at_ n index Hn (fk_space _ Hf _ _ Hn)) as (n1 & Hr & Hok1 & Hfr & Hsub & Hkeep).
  unfold remove_ends. rewrite Hr. cbn [mbind option_bind].
  destruct (md_network_interface_owner f 0) as [[o m]|] eqn:Eo.
  { apply owner_some in Eo as (Ho & _ & p & Hp); [|apply Hf]. pose proof (proj1 (end_ok _ Hf o 0 p (ex_intro _ m (conj Ho Hp)))). lia. }
  eexists. split_and!; [done| |done]. apply (fabric_prune f _ (λ i, i = index)); [done|rewrite keys_put; apply Hf|done| | | |].
  - apply space_put; [eauto|done|apply Hf].
  - intros a i p H. apply Hsub in H as [H Hi]. split; [done|]. intros ->. apply (Hi (fk_unique _ Hf _ _ _ _ _ H Hlink Hone)). done.
  - intros a i p H Hp Hi. apply Hkeep; auto.
  - intros a i p H Hp ->. destruct (fk_peer _ Hf _ _ _ H Hp) as (a' & H'). pose proof (proj1 (end_ok _ Hf _ _ _ H)).
    destruct (end_unique _ Hf _ _ _ _ _ H' Hlink Hone) as [_ ->]. lia.
Qed.
Lemma remove_pair f at_ n index peer :
  fabric_ok f → get_space f at_ = Some n → at_end f at_ index peer → index ≠ 1 → peer ≠ 0 →
  ∃ f', remove_ends f at_ n index peer = Some (f', 0) ∧ fabric_ok f' ∧ framed (at_ :: owner_list f peer) f f'.
Proof.
  intros Hf Hn Hlink Hone Hp0. destruct (remove_step f at_ n index Hn (fk_space _ Hf _ _ Hn)) as (n1 & Hr & Hok1 & Hfr & Hsub & Hkeep).
  destruct (fk_peer _ Hf _ _ _ Hlink Hp0) as (o & Ho). pose proof (proj1 (end_ok _ Hf _ _ _ Hlink)) as Hpos.
  assert (peer ≠ 1) as Hp1 by (apply (end_ok _ Hf _ _ _ Ho); lia).
  unfold remove_ends, owner_list. rewrite Hr. cbn [mbind option_bind].
  destruct (md_network_interface_owner f peer) as [[o' m]|] eqn:Eo; [|by destruct (owner_none _ _ _ _ (fk_keys _ Hf) Eo Hp1 Hp0 Ho)].
  apply owner_some in Eo as (Hm & _ & q & Hq); [|apply Hf].
  assert (o' = o) as -> by (by eapply (fk_unique _ Hf _ _ peer); [by exists m|exact Ho|]). cbn [fmap option_fmap option_map fst from_option].
  assert (∀ a x, get_space (put_space f at_ n1) a = Some x → space_ok x) as Hsp by (apply space_put; [eauto|done|apply Hf]).
  assert (is_Some (get_space (put_space f at_ n1) o)) as [m1 Hm1] by (rewrite get_put by eauto; case_decide; eauto).
  destruct (remove_step _ o m1 peer Hm1 (Hsp _ _ Hm1)) as (m2 & Hr2 & Hok2 & Hfr2 & Hsub2 & Hkeep2). rewrite Hm1, Hr2. cbn [mbind option_bind].
  eexists. split_and!; [done| |eapply framed_trans; eapply framed_weaken; [| exact Hfr| |exact Hfr2]; set_solver].
  apply (fabric_prune f _ (λ i, i = index ∨ i = peer)); [done|rewrite !keys_put; apply Hf|done| | | |].
  - apply space_put; [eauto|done..].
  - intros a i p H. apply Hsub2 in H as [H Hi2]. apply Hsub in H as [H Hi1]. split; [done|]. intros [->| ->].
    + by apply (Hi1 (fk_unique _ Hf _ _ _ _ _ H Hlink Hone)).
    + by apply (Hi2 (fk_unique _ Hf _ _ _ _ _ H Ho Hp1)).
  - intros a i p H Hp Hi. apply Hkeep2; [apply Hkeep|..]; auto.
  - intros a i p H Hp [->| ->]; [right|left]; destruct (fk_peer _ Hf _ _ _ H Hp) as (a' & H').
    + by destruct (end_unique _ Hf _ _ _ _ _ H' Hlink Hone).
    + by destruct (end_unique _ Hf _ _ _ _ _ H' Ho Hp1).
Qed.
Lemma interface_remove_ok f at_ n index :
  fabric_ok f → get_space f at_ = Some n →
  ∃ f' e, md_network_interface_remove f at_ n index = Some (f', e) ∧ fabric_ok f' ∧
    framed (at_ :: from_option (λ l, owner_list f (l_peer l)) [] (snd <$> md_network_interface_find n index None)) f f'.
Proof.
  intros Hf Hn. unfold md_network_interface_remove. destruct (snd <$> md_network_interface_find n index None) as [link|] eqn:El; [|eauto using framed_refl].
  destruct (removable (l_kind link)) eqn:Ek; cbn [negb]; [|eauto 6 using framed_refl]. apply index_in in El as (_ & Hin & Hidx).
  assert (at_end f at_ index (l_peer link)) as Hlink by (exists n; split; [done|]; apply in_ends; eauto).
  assert (index ≠ 1) as Hone.
  { intros H1. destruct (fk_space _ Hf _ _ Hn) as [[Hls _] _]. pose proof (ls_each _ Hls) as He. rewrite Forall_forall in He.
    unfold removable, loopback_kind in Ek. rewrite (proj1 (lk_loopback _ (He _ Hin))) in Ek by congruence. done. }
  destruct (decide (l_peer link = 0)) as [H0|H0].
  - rewrite H0 in *. destruct (remove_single _ _ _ _ Hf Hn Hlink Hone) as (f' & Hr & Hok & Hfr). exists f', 0. split_and!; [exact Hr|done|].
    eapply framed_weaken, Hfr. set_solver.
  - destruct (remove_pair _ _ _ _ _ Hf Hn Hlink Hone H0) as (f' & Hr & Hok & Hfr). exists f', 0. split_and!; [exact Hr|done|exact Hfr].
Qed.

(** ** Moving and renaming *)

Lemma nodup_insert {A} (l : list A) i x : NoDup l → x ∉ l → NoDup (<[i := x]> l).
Proof.
  intros Hn Hx. apply NoDup_alt. intros j k y Hj Hk. rewrite NoDup_alt in Hn.
  destruct (decide (i < length l)%nat) as [Hi|]; [|rewrite list_insert_ge in Hj, Hk by lia; eauto].
  destruct (decide (i = j)) as [<-|], (decide (i = k)) as [<-|]; [done| | |].
  - rewrite list_lookup_insert_eq in Hj by done. rewrite list_lookup_insert_ne in Hk by done. simplify_eq. destruct Hx. by eapply list_elem_of_lookup_2.
  - rewrite list_lookup_insert_eq in Hk by done. rewrite list_lookup_insert_ne in Hj by done. simplify_eq. destruct Hx. by eapply list_elem_of_lookup_2.
  - rewrite list_lookup_insert_ne in Hj, Hk by done. eauto.
Qed.
Section Rename.
Context (n : md_network_namespace) (i : nat) (link : md_network_interface) (name : string).
Context (Hi : n_links n !! i = Some link) (Hvalid : valid_name name = true) (Hfree : NoDup (<[i := name]> (l_name <$> n_links n))).
Let ls := n_links n.
Let ls' := <[i := set_name name link]> ls.
Lemma rename_fmap {A} (g : md_network_interface → A) : (∀ l, g (set_name name l) = g l) → g <$> ls' = g <$> ls.
Proof using Hi. intros Hg. unfold ls', ls. rewrite list_fmap_insert, Hg. apply list_insert_id. by rewrite list_lookup_fmap, Hi. Qed.
Lemma rename_from l' : l' ∈ ls' → ∃ l, l ∈ ls ∧ (l' = l ∨ l' = set_name name l).
Proof using Hi.
  unfold ls', ls. intros (j & Hj)%list_elem_of_lookup. destruct (decide (i = j)) as [<-|].
  - rewrite list_lookup_insert_eq in Hj by (by eapply lookup_lt_Some). simplify_eq. exists link. split; [by eapply list_elem_of_lookup_2|by right].
  - rewrite list_lookup_insert_ne in Hj by done. exists l'. split; [by eapply list_elem_of_lookup_2|by left].
Qed.
Lemma rename_in {A} (g : md_network_interface → A) l : (∀ l, g (set_name name l) = g l) → l ∈ ls → ∃ l', l' ∈ ls' ∧ g l' = g l.
Proof using Hi. intros Hg Hl. apply (list_elem_of_fmap_2 g) in Hl. rewrite <-(rename_fmap g Hg) in Hl. apply list_elem_of_fmap in Hl as (l' & He & Hl). by exists l'. Qed.
Lemma rename_bridge m : bridge_in ls m → bridge_in ls' m.
Proof using Hi. intros (b & Hb & He & Hk). destruct (rename_in (λ l, (l_index l, l_kind l)) b) as (b' & Hb' & [= ? ?]); [done..|]. exists b'. split_and!; congruence. Qed.
Lemma rename_ok : space_ok n → space_ok (set_links ls' n).
Proof using Hi Hvalid Hfree.
  intros [[[H1 H2 H3 H4 H5] Ht] Hv]. split; [split; [split|]|]; cbn.
  - unfold indexes. rewrite rename_fmap by done. done.
  - unfold ls'. rewrite list_fmap_insert. done.
  - unfold ls'. by rewrite length_insert.
  - apply Forall_forall. intros l' (l & Hl & [->| ->])%rename_from; rewrite Forall_forall in H4; destruct (H4 l Hl); by split.
  - intros l' (l & Hl & [->| ->])%rename_from H0; apply rename_bridge, (H5 l Hl); exact H0.
  - unfold indexes. rewrite rename_fmap by done. by apply tables_links.
  - intros l' (l & Hl & Hor)%rename_from Hx H0. assert (is_vxlan l = true ∧ vx_link (l_vxlan l) ≠ 0 ∧ vx_link (l_vxlan l) = vx_link (l_vxlan l')) as (Hx' & H0' & He) by (by destruct Hor as [->| ->]).
    destruct (Hv l Hl Hx' H0') as (u & Hu & Hui & Huv). destruct (rename_in (λ l, (l_index l, is_vxlan l)) u) as (u' & Hu' & [= ? ?]); [done..|].
    exists u'. split_and!; congruence.
Qed.
End Rename.
Lemma name_free n i link name :
  n_links n !! i = Some link → NoDup (indexes (n_links n)) → NoDup (l_name <$> n_links n) →
  match md_network_interface_find n 0 (Some name) with Some (_, c) => negb (l_index c =? l_index link) | None => false end = false →
  NoDup (<[i := name]> (l_name <$> n_links n)).
Proof.
  intros Hi Hx Hn H. destruct (md_network_interface_find n 0 (Some name)) as [[k c]|] eqn:E.
  - apply find_name in E as [Hk <-]. apply negb_false_iff, Z.eqb_eq in H.
    assert (c = link) as -> by (eapply index_unique; [exact Hx|by eapply list_elem_of_lookup_2..|done]).
    rewrite list_insert_id; [done|]. by rewrite list_lookup_fmap, Hi.
  - apply nodup_insert; [done|]. apply no_name. rewrite E. by intros [? ?].
Qed.
(** A cable end comes to another namespace. *)
Lemma transfer_ok f from to n m link name p :
  fabric_ok f → get_space f from = Some n → get_space f to = Some m → from ≠ to → link ∈ n_links n → l_kind link = MD_LINK_VETH →
  valid_name name = true → name ∉ l_name <$> n_links m → Z.of_nat (length (n_links m)) < MD_NETWORK_MAX_LINKS →
  ∃ n', remove_one n (l_index link) = Some n' ∧
    let f' := put_space (put_space f from n') to (set_next_policy p (set_links (n_links m ++ [moved_link m name link]) m)) in fabric_ok f' ∧ framed [from; to] f f'.
Proof.
  intros Hf Hn Hm Hne Hin Hk Hname Hfree Hroom. set (index := l_index link). set (peer := l_peer link).
  assert (at_end f from index peer) as Hlink by (exists n; split; [done|]; apply in_ends; eauto).
  pose proof (fk_space _ Hf _ _ Hn) as [[Hls _] _]. pose proof (ls_each _ Hls) as He. rewrite Forall_forall in He. pose proof (He _ Hin) as Hl.
  assert (index ≠ 1) as Hone by (intros H1%(lk_loopback _ Hl); congruence).
  assert (index ∉ indexes (n_links m)) as Hnew.
  { intros (q & Hq)%in_index. apply Hne. eapply (fk_unique _ Hf); [exact Hlink|by exists m|done]. }
  destruct (remove_step f from n index Hn (fk_space _ Hf _ _ Hn)) as (n1 & Hr & Hok1 & Hfr & Hsub & Hkeep).
  exists n1. split; [done|]. set (f1 := put_space f from n1) in *. set (m' := set_next_policy _ _). cbn zeta.
  assert (get_space f1 to = Some m) as Hm1 by (unfold f1; rewrite get_put by eauto; by rewrite decide_False).
  assert (space_ok m') as Hokm.
  { pose proof (fk_space _ Hf _ _ Hm) as [Hbm Htm]. split; [apply base_snoc; try done|apply tunnels_snoc; [done|]].
    - destruct Hl. split; cbn; try done. 
    - unfold is_vxlan. cbn. by rewrite Hk. }
  assert (∀ i q, (i, q) ∈ ends (n_links m') ↔ (i, q) ∈ ends (n_links m) ∨ i = index ∧ q = peer) as Hends.
  { intros i q. unfold ends, m'. cbn. rewrite fmap_app, elem_of_app. cbn. rewrite list_elem_of_singleton. naive_solver. }
  split; [|eapply framed_trans; [eapply framed_weaken, Hfr; set_solver|eapply framed_put; [right; by left|exact Hm1|done]]].
  assert (∀ a i q, at_end (put_space f1 to m') a i q → i = index ∧ q = peer ∧ a = to ∨ i ≠ index ∧ at_end f a i q) as E1.
  { intros a i q. rewrite at_end_put by eauto. rewrite Hends. intros [[-> [H|[-> ->]]]|[Hat H]]; [right|by left|].
    - split; [intros ->; apply Hnew, in_index; eauto|by exists m].
    - apply Hsub in H as [H Hi]. right. split; [|done]. intros ->. by apply Hi; [eapply (fk_unique _ Hf); [exact H|exact Hlink|done]|]. }
  assert (∀ a i q, at_end f a i q → q ≠ 0 → ∃ a', at_end (put_space f1 to m') a' i q) as E2.
  { intros a i q H Hq. destruct (decide (i = index)) as [->|Hi].
    - exists to. rewrite at_end_put by eauto. left. split; [done|]. apply Hends. right. split; [done|]. by destruct (end_unique _ Hf _ _ _ _ _ H Hlink Hone).
    - exists a. rewrite at_end_put by eauto. destruct (decide (a = to)) as [->|]; [left|right; split; [done|by apply Hkeep; auto]].
      split; [done|]. apply Hends. left. destruct H as (m0 & Hm0 & H). congruence. }
  split; [unfold f1; rewrite !keys_put; apply Hf|apply Hf| | | |].
  - apply space_put; [eauto|done|]. apply space_put; [eauto|done|apply Hf].
  - intros a i q [(-> & -> & ->)|[_ H]]%E1; [by eapply (fk_below _ Hf)|by eapply (fk_below _ Hf) in H].
  - intros a b i q r [(-> & -> & ->)|[Hi H]]%E1 [(? & -> & ->)|[Hj H']]%E1 H1; try done. by eapply (fk_unique _ Hf).
  - intros a i q H Hq. assert (∃ a0, at_end f a0 i q) as (a0 & H0) by (apply E1 in H as [(-> & -> & ->)|[_ H]]; eauto).
    destruct (fk_peer _ Hf _ _ _ H0 Hq) as (b & Hb). pose proof (proj1 (end_ok _ Hf _ _ _ H0)). eapply E2; [done|lia].
Qed.
Lemma interface_move_ok memory f from to index name n m :
  fabric_ok f → get_space f from = Some n → get_space f to = Some m →
  ∃ f' e, md_network_interface_move memory f from to index name = Some (f', e) ∧ fabric_ok f' ∧ framed [from; to] f f' ∧
    (from = to → ∀ n', get_space f' from = Some n' → ∀ b, bridge_in (n_links n) b → bridge_in (n_links n') b).
Proof.
  intros Hf Hn Hm. unfold md_network_interface_move. rewrite Hn, Hm.
  assert (∀ e : Z, ∃ f' e', Some (f, e) = Some (f', e') ∧ fabric_ok f' ∧ framed [from; to] f f' ∧
    (from = to → ∀ n', get_space f' from = Some n' → ∀ b, bridge_in (n_links n) b → bridge_in (n_links n') b)) as Hsame.
  { intros e. exists f, e. split_and!; [done|done|apply framed_refl|]. intros _ n' Hn' b. by assert (n' = n) as -> by congruence. }
  destruct (md_network_interface_find n index None) as [[i link]|] eqn:El; [|apply Hsame]. apply find_index in El as (Hi & Hidx & _).
  case_if; [apply Hsame|]. cbn zeta. set (nm := default (l_name link) name). destruct (valid_name nm) eqn:Hv; cbn [negb]; [|apply Hsame].
  match goal with |- context [if ?b then Some (f, - EEXIST) else _] => destruct b eqn:Ec; [apply Hsame|] end.
  destruct (bool_decide_reflect (from = to)) as [<-|Hne]; cbn [negb andb] in *.
  - assert (m = n) as -> by congruence. pose proof (fk_space _ Hf _ _ Hn) as Hok. pose proof Hok as [[Hls _] _].
    eexists _, _. split_and!; [done| | |].
    + eapply fabric_put; [done..| |].
      * apply rename_ok; [done..| |done]. eapply name_free; [done|apply Hls..|]. by destruct (md_network_interface_find n 0 (Some nm)) as [[? ?]|].
      * unfold ends. cbn. by apply (rename_fmap n i link nm Hi).
    + eapply framed_put; [by left|done|done].
    + intros _ n'. rewrite get_put, decide_True by eauto. intros [= <-] b. by apply rename_bridge.
  - case_if; [apply Hsame|]. case_if; [apply Hsame|]. breflect.
    assert (l_kind link = MD_LINK_VETH) as Hk by (by destruct (bool_decide_reflect (l_kind link = MD_LINK_VETH))).
    destruct (transfer_ok f from to n m link nm (n_next_policy m + 1)) as (n1 & Hr & Hok & Hfr); try done.
    + by eapply list_elem_of_lookup_2.
    + apply no_name. destruct (md_network_interface_find m 0 (Some nm)) as [[? ?]|]; [done|by intros [? ?]].
    + match goal with H : md_network_interface_reserve _ _ _ = 0 |- _ => apply reserve_room in H; lia end.
    + rewrite Hidx in Hr. rewrite Hr. cbn [mbind option_bind]. eexists _, _. split_and!; [done..|]. intros ->. done.
Qed.

(** ** Creating links *)

(** The bridges of a namespace stay. *)
Definition bridges_stay (at_ : positive) (f f' : md_network_fabric) : Prop :=
  ∀ n n', get_space f at_ = Some n → get_space f' at_ = Some n' → ∀ b, bridge_in (n_links n) b → bridge_in (n_links n') b.
Lemma bridges_refl at_ f : bridges_stay at_ f f.
Proof. intros n n' Hn Hn'. by assert (n' = n) as -> by congruence. Qed.
Lemma bridges_trans at_ a b c : is_Some (get_space b at_) → bridges_stay at_ a b → bridges_stay at_ b c → bridges_stay at_ a c.
Proof. intros [m Hm] H1 H2 n n' Hn Hn' i Hb. eauto. Qed.
Lemma bridges_put at_ a f n n' : get_space f a = Some n → (∀ b, bridge_in (n_links n) b → bridge_in (n_links n') b) → bridges_stay at_ f (put_space f a n').
Proof.
  intros Ha Hb m m' Hm. rewrite get_put by eauto. destruct (decide (at_ = a)) as [->|]; [|intros Hm'; by assert (m' = m) as -> by congruence].
  intros [= <-]. by assert (m = n) as -> by congruence.
Qed.
Lemma bridge_snoc ls l b : bridge_in ls b → bridge_in (ls ++ [l]) b.
Proof. intros (x & Hx & H). exists x. split; [apply elem_of_app; by left|done]. Qed.
(** The fabric with a new link. *)
Lemma fabric_add f at_ n kind name next n' id :
  fabric_ok f → get_space f at_ = Some n → kind ≠ MD_LINK_LOOPBACK → md_network_interface_add true (f_next_index f) n kind name = inl (next, n', id) →
  let f' := put_space (with_next next f) at_ n' in
  fabric_ok f' ∧ framed [at_] f f' ∧ bridges_stay at_ f f' ∧ (∀ a i p, at_end f' a i p ↔ at_end f a i p ∨ a = at_ ∧ i = id ∧ p = 0)
  ∧ n_links n' = n_links n ++ [new_link n kind name id] ∧ id = f_next_index f ∧ space_ok n' ∧ config n' = config n.
Proof.
  intros Hf Hn Hkind Hadd.
  destruct (interface_add_ok _ _ _ _ _ _ _ _ Hadd) as (Hok & Hls & Hid & Hnext & Hmax & Hc & _); [by apply (fk_space _ Hf _ _ Hn)|apply Hf| |done|].
  { intros l Hl. apply (fk_below _ Hf at_ (l_index l) (l_peer l)). exists n. split; [done|]. apply in_ends. eauto. }
  unfold loopback_kind in *. rewrite bool_decide_eq_false_2 in Hid, Hnext by done. subst id next. cbn zeta.
  assert (∀ a i p, at_end (put_space (with_next (f_next_index f + 1) f) at_ n') a i p ↔ at_end f a i p ∨ a = at_ ∧ i = f_next_index f ∧ p = 0) as Hend.
  { intros a i p. rewrite at_end_put by (rewrite get_next; eauto). unfold at_end. setoid_rewrite get_next. rewrite Hls. unfold ends. rewrite fmap_app, elem_of_app. cbn.
    rewrite list_elem_of_singleton. destruct (decide (a = at_)) as [->|]; naive_solver. }
  pose proof (fk_next _ Hf). split_and!; [|eapply framed_trans; [apply framed_next|eapply framed_put; [by left|exact Hn|done]]| |done..].
  - split; [rewrite keys_put; apply Hf|cbn; lia| | | |].
    + apply space_put; [rewrite get_next; eauto|done|]. intros a x. rewrite get_next. apply Hf.
    + cbn. intros a i p [H'|(-> & -> & ->)]%Hend; [apply (fk_below _ Hf) in H'|]; lia.
    + intros a b i p q [H1|(-> & -> & ->)]%Hend [H2|(-> & ? & ->)]%Hend Hi; [by eapply (fk_unique _ Hf)| | |done].
      * subst. apply (fk_below _ Hf) in H1. lia.
      * apply (fk_below _ Hf) in H2. lia.
    + intros a i p [H1|(-> & -> & ->)]%Hend Hp; [|done]. destruct (fk_peer _ Hf _ _ _ H1 Hp) as (b & Hb). exists b. apply Hend. by left.
  - intros m m' Hm. rewrite get_put, decide_True by (rewrite ?get_next; eauto). intros [= <-] b. assert (m = n) as -> by congruence. rewrite Hls. apply bridge_snoc.
Qed.
Lemma put_put f a x y : put_space (put_space f a x) a y = put_space f a y.
Proof.
  unfold put_space. cbn. f_equal. rewrite <-list_fmap_compose. apply list_fmap_ext. intros ? [k z] _. cbn. destruct (bool_decide (k = a)) eqn:E; cbn; by rewrite E.
Qed.
(** The other end of one link. *)
Record set_end (peer : Z) (l l' : md_network_interface) : Prop := mk_set_end {
  se_shape : shape l' = shape l; se_peer : l_peer l' = peer; se_rest : l_master l' = l_master l ∧ l_addresses l' = l_addresses l; se_kind : l_kind l = MD_LINK_VETH }.
Lemma set_end_ok n i g peer :
  space_ok n → (∀ l, l ∈ n_links n → l_index l = i → set_end peer l (g l)) →
  space_ok (update_link i g n) ∧ shape <$> n_links (update_link i g n) = shape <$> n_links n ∧
  ∀ j q, (j, q) ∈ ends (n_links (update_link i g n)) ↔ j ≠ i ∧ (j, q) ∈ ends (n_links n) ∨ j = i ∧ q = peer ∧ i ∈ indexes (n_links n).
Proof.
  intros [[Hl Ht] Hv] Hg.
  assert (shape <$> n_links (update_link i g n) = shape <$> n_links n) as Hs.
  { cbn. rewrite <-list_fmap_compose. apply list_fmap_ext. intros k l Hk. cbn. destruct (Z.eqb_spec (l_index l) i); [|done]. apply Hg; [by eapply list_elem_of_lookup_2|done]. }
  split_and!; [split; [split|]|done|].
  - eapply shape_links; [exact Hs|done| |].
    + apply Forall_fmap, Forall_forall. intros l Hin. pose proof (ls_each _ Hl) as He. rewrite Forall_forall in He. pose proof (He l Hin) as []. cbn.
      destruct (Z.eqb_spec (l_index l) i) as [Hi|]; [|by split]. destruct (Hg l Hin Hi) as [[= Es1 Es2 Es3 Es4] ? [_ Ea] Ek]. split; rewrite ?Es1, ?Es2, ?Es3, ?Ea; done.
    + cbn. intros l' (l & -> & Hin)%list_elem_of_fmap. destruct (Z.eqb_spec (l_index l) i) as [Hi|]; [|by apply ls_master].
      destruct (Hg l Hin Hi) as [_ _ [-> _] _]. by apply ls_master.
  - rewrite (shape_indexes _ _ Hs). by apply tables_links.
  - by eapply shape_tunnels.
  - intros j q. unfold ends at 1. cbn. rewrite <-list_fmap_compose, list_elem_of_fmap. unfold indexes. rewrite list_elem_of_fmap. cbn. rewrite in_ends. split.
    + intros (l & [= -> ->] & Hin). destruct (Z.eqb_spec (l_index l) i) as [Hi|Hi]; [|left; eauto 6].
      destruct (Hg l Hin Hi) as [[= -> _ _ _] -> _ _]. right. eauto 6.
    + intros [(Hj & l & Hin & <- & <-)|(-> & -> & l & -> & Hin)]; exists l; split; try done.
      * by rewrite (proj2 (Z.eqb_neq _ _) Hj).
      * rewrite Z.eqb_refl. destruct (Hg l Hin eq_refl) as [[= -> _ _ _] -> _ _]. done.
Qed.
Lemma one_end f a n i g peer :
  (∀ x m, get_space f x = Some m → space_ok m) → (∀ x q, at_end f x i q → x = a) → at_end f a i 0 → get_space f a = Some n →
  (∀ l, l ∈ n_links n → l_index l = i → set_end peer l (g l)) →
  let f' := put_space f a (update_link i g n) in
  (∀ x m, get_space f' x = Some m → space_ok m) ∧ (∀ x j q, at_end f' x j q ↔ x = a ∧ j = i ∧ q = peer ∨ j ≠ i ∧ at_end f x j q)
  ∧ framed [a] f f' ∧ ∀ b, bridges_stay b f f'.
Proof.
  intros Hs Hu Ha Hn Hg f'. destruct (set_end_ok n i g peer (Hs _ _ Hn) Hg) as (Hok & Hsh & He).
  assert (i ∈ indexes (n_links n)) as Hi by (apply in_index; destruct Ha as (m & Hm & Ha); exists 0; congruence).
  split_and!; [apply space_put; [eauto|done..]| |eapply framed_put; [by left|exact Hn|done]|intros b; eapply bridges_put; [exact Hn|intros x; by apply shape_bridge]].
  intros x j q. unfold f'. rewrite at_end_put, He by eauto. split.
  - intros [(-> & [[? H]|(-> & -> & _)])|[Hx H]]; [right; split; [done|by exists n]|by left|right; split; [|done]]. intros ->. by apply Hx, (Hu _ q).
  - intros [(-> & -> & ->)|[Hj H]]; [left; auto|]. destruct (decide (x = a)) as [->|]; [left|by right]. split; [done|]. left. split; [done|].
    destruct H as (m & Hm & H). congruence.
Qed.
(** Two new ends become a cable. *)
Lemma cable_ok f a b n p index peer g h :
  fabric_ok f → at_end f a index 0 → at_end f b peer 0 → index ≠ peer → index ≠ 1 → peer ≠ 1 → get_space f b = Some p →
  (∀ l, l ∈ n_links p → l_index l = peer → set_end index l (g l)) →
  let f1 := put_space f b (update_link peer g p) in
  get_space f1 a = Some n → (∀ l, l ∈ n_links n → l_index l = index → set_end peer l (h l)) →
  let f2 := put_space f1 a (update_link index h n) in
  fabric_ok f2 ∧ framed [a; b] f f2 ∧ bridges_stay a f f2.
Proof.
  intros Hf Ha Hb Hne Hi1 Hp1 Hp Hg f1 Hn Hh f2.
  destruct (one_end f b p peer g index) as (Hs1 & E1 & F1 & B1); [apply Hf|intros x q H; by eapply (fk_unique _ Hf)|done..|]. fold f1 in Hs1, E1, F1, B1.
  destruct (one_end f1 a n index h peer) as (Hs2 & E2 & F2 & B2); [done| |apply E1; by right|done..|]; [|fold f2 in Hs2, E2, F2, B2].
  { intros x q [(-> & ? & ->)|[_ H]]%E1; [done|]. by eapply (fk_unique _ Hf). }
  split_and!.
  - split; [unfold f2, f1; rewrite !keys_put; apply Hf|apply Hf|done| | |].
    + intros x j q [(-> & -> & ->)|[_ [(-> & -> & ->)|[_ H]]%E1]]%E2; by eapply (fk_below _ Hf).
    + intros x y j q r [(-> & -> & ->)|[Hj [(-> & -> & ->)|[Hj' H]]%E1]]%E2 [(-> & ? & ->)|[Hk [(-> & ? & ->)|[Hk' H']]%E1]]%E2 H1; try done. by eapply (fk_unique _ Hf).
    + intros x j q [(-> & -> & ->)|[Hj [(-> & -> & ->)|[Hj' H]]%E1]]%E2 Hq.
      * exists b. apply E2. right. split; [done|]. apply E1. by left.
      * exists a. apply E2. by left.
      * destruct (fk_peer _ Hf _ _ _ H Hq) as (y & Hy). exists y. pose proof (proj1 (end_ok _ Hf _ _ _ H)).
        assert (q ≠ index) by (intros ->; destruct (end_unique _ Hf _ _ _ _ _ Hy Ha Hi1); lia).
        assert (q ≠ peer) by (intros ->; destruct (end_unique _ Hf _ _ _ _ _ Hy Hb Hp1); lia). apply E2. right. split; [done|]. apply E1. by right.
  - apply (framed_trans _ _ f1); (eapply framed_weaken; [|done]); set_solver.
  - apply (bridges_trans _ _ f1); eauto.
Qed.
Lemma owner_zero f : md_network_interface_owner f 0 = None.
Proof.
  unfold md_network_interface_owner. cbn. assert (list_find (λ s : positive * md_network_namespace, is_Some (md_network_interface_find s.2 0 None)) (f_spaces f) = None) as ->; [|done].
  apply list_find_None, Forall_forall. intros [k n] _ [[i l] (_ & _ & H0)%find_index]. done.
Qed.

(** A fabric whose namespace [at_] has tunnels that are not checked yet. *)
Definition pending (at_ : positive) (f : md_network_fabric) : Prop :=
  ∃ f0 n0 n, fabric_ok f0 ∧ get_space f0 at_ = Some n0 ∧ f = put_space f0 at_ n ∧ base_ok n ∧ ends (n_links n) = ends (n_links n0).
Lemma pending_get at_ f : pending at_ f → ∃ n, get_space f at_ = Some n ∧ base_ok n.
Proof. intros (f0 & n0 & n & _ & Hn0 & -> & Hb & _). exists n. rewrite get_put, decide_True by eauto. done. Qed.
Lemma pending_done at_ f n : pending at_ f → get_space f at_ = Some n → tunnels_ok (n_links n) → fabric_ok f.
Proof.
  intros (f0 & n0 & n' & Hf & Hn0 & -> & Hb & He). rewrite get_put, decide_True by eauto. intros [= ->] Ht. by eapply fabric_put.
Qed.
Lemma pending_put at_ f n n' : pending at_ f → get_space f at_ = Some n → mild_change n n' → pending at_ (put_space f at_ n').
Proof.
  intros (f0 & n0 & m & Hf & Hn0 & -> & Hb & He). rewrite get_put, decide_True by eauto. intros [= ->] Hm. exists f0, n0, n'.
  rewrite put_put. destruct Hm as [Hbm _ Hem _]. split_and!; [done..|auto|congruence].
Qed.
Lemma new_tunnel_base c index n n' e :
  new_tunnel c index n = (n', e) → base_ok n → base_ok n' ∧ ends (n_links n') = ends (n_links n) ∧ config n' = config n ∧
    (∀ b, bridge_in (n_links n) b → bridge_in (n_links n') b) ∧ (λ l, (l_index l, l_name l)) <$> n_links n' = (λ l, (l_index l, l_name l)) <$> n_links n.
Proof.
  intros H Hb. unfold new_tunnel in H. set (mtu := match _ with Some u => _ | None => _ end) in H. cbn zeta in H.
  assert (∃ g, n' = update_link index g n ∧ ∀ l, ∃ m, g l = set_tunnel (c_vxlan c) m l) as (g & -> & Hg) by (case_if; injection H as <- _; eauto).
  clear H. set (k := λ l, if l_index l =? index then g l else l). assert (n_links (update_link index g n) = k <$> n_links n) as Hk by done.
  assert (∀ {A} (q : md_network_interface → A), (∀ m l, q (set_tunnel (c_vxlan c) m l) = q l) → ∀ l, q (k l) = q l) as Hq.
  { intros A q Hq l. unfold k. case_if; [|done]. by destruct (Hg l) as (m & ->). }
  assert (∀ {A} (q : md_network_interface → A), (∀ m l, q (set_tunnel (c_vxlan c) m l) = q l) → q <$> (k <$> n_links n) = q <$> n_links n) as Hm.
  { intros A q Hqq. rewrite <-list_fmap_compose. apply list_fmap_ext. intros ???. by apply (Hq _ q Hqq). }
  assert (∀ b, bridge_in (n_links n) b → bridge_in (k <$> n_links n) b) as Hbr.
  { intros b (x & Hx & Hi & Hkd). exists (k x). split; [by apply list_elem_of_fmap_2|]. by rewrite (Hq _ l_index), (Hq _ l_kind). }
  destruct Hb as [[H1 H2 H3 H4 H5] Ht]. rewrite Hk. split_and!; [split; [split|]|by apply Hm|done|done|by apply Hm]; rewrite ?Hk.
  - unfold indexes. by rewrite Hm.
  - by rewrite Hm.
  - by rewrite length_fmap.
  - apply Forall_fmap. eapply Forall_impl; [exact H4|]. intros l []. cbn. split; rewrite ?(Hq _ l_name), ?(Hq _ l_index), ?(Hq _ l_kind), ?(Hq _ l_peer), ?(Hq _ l_addresses); done.
  - intros l' (l & -> & Hl)%list_elem_of_fmap. rewrite (Hq _ l_master) by done. intros H0. by apply Hbr, H5.
  - unfold indexes. rewrite Hm by done. by apply tables_links.
Qed.
Definition named (ls : list md_network_interface) : list (Z * string) := (λ l, (l_index l, l_name l)) <$> ls.
Lemma new_names_name n p same c name peer x : new_names n p same c = inl (name, peer) → c_name c = Some x → name = x.
Proof.
  unfold new_names. intros H Hc. rewrite Hc in H. destruct (c_peer_name c); [by injection H|]. destruct (bool_decide _); [|by injection H].
  by destruct (automatic_name _ _ _); [injection H|].
Qed.
Lemma last_unique (ls : list md_network_interface) x l : NoDup (indexes (ls ++ [x])) → l ∈ ls ++ [x] → l_index l = l_index x → l = x.
Proof. intros Hn Hl Hi. eapply index_unique; [done..| |done]. apply elem_of_app. right. by apply list_elem_of_singleton. Qed.
(** Both ends of a new cable. *)
Lemma create_cable f a b n p c index next2 p2 peer name2 pre namex :
  fabric_ok f → get_space f a = Some n → n_links n = pre ++ [new_link namex MD_LINK_VETH name2 index] → at_end f a index 0 → index ≠ 1 → get_space f b = Some p →
  ∀ nm, md_network_interface_add true (f_next_index f) p MD_LINK_VETH nm = inl (next2, p2, peer) →
  ∃ f' n3, let f1 := put_space (with_next next2 f) b (update_link peer (peer_link c index) p2) in
    get_space f1 a = Some n3 ∧ f' = put_space f1 a (update_link index (set_peer peer) n3) ∧ fabric_ok f' ∧ framed [a; b] f f' ∧ bridges_stay a f f'.
Proof.
  intros Hf Hn Hls Ha Hone Hp nm Hadd. destruct (fabric_add f b p MD_LINK_VETH nm next2 p2 peer Hf Hp ltac:(done) Hadd) as (Hf2 & Hfr2 & Hbr2 & Hend & Hls2 & Hid & Hok2 & _).
  set (f2 := put_space (with_next next2 f) b p2) in *. pose proof (fk_next _ Hf). pose proof (fk_below _ Hf _ _ _ Ha).
  assert (get_space f2 b = Some p2) as Hb2 by (unfold f2; rewrite get_put, decide_True by (rewrite ?get_next; eauto); done).
  assert (∀ m, get_space f2 a = Some m → ∀ l, l ∈ n_links m → l_index l = index → l_kind l = MD_LINK_VETH) as Hkind.
  { intros m Hm l Hl Hi. pose proof (ls_index _ (proj1 (proj1 (fk_space _ Hf2 _ _ Hm)))) as Hnd.
    set (x := new_link namex MD_LINK_VETH name2 index) in *. assert (x ∈ n_links m) as Hx; [|by rewrite (index_unique _ l x Hnd Hl Hx Hi)].
    assert (x ∈ n_links n) as Hxn by (rewrite Hls; apply elem_of_app; right; by apply list_elem_of_singleton).
    unfold f2 in Hm. rewrite get_put in Hm by (rewrite get_next; eauto). destruct (decide (a = b)) as [->|]; [|rewrite get_next in Hm; congruence].
    injection Hm as <-. rewrite Hls2. apply elem_of_app. left. congruence. }
  set (g := peer_link c index). assert (is_Some (get_space (put_space f2 b (update_link peer g p2)) a)) as [n3 Hn3].
  { apply get_key. rewrite keys_put. unfold f2. rewrite keys_put. apply (get_key f). eauto. }
  destruct (cable_ok f2 a b n3 p2 index peer g (set_peer peer)) as (Hok' & Hfr' & Hbr'); try done; [apply Hend; by left|apply Hend; by right|lia|lia| | |].
  - intros l Hl Hi. split; try done. rewrite Hls2 in Hl. pose proof (ls_index _ (proj1 (proj1 Hok2))) as Hnd. rewrite Hls2 in Hnd. by rewrite (last_unique _ _ _ Hnd Hl Hi).
  - intros l Hl Hi. split; try done. rewrite get_put in Hn3 by eauto. destruct (decide (a = b)) as [->|]; [|by eapply Hkind].
    injection Hn3 as <-. destruct (shape_in (n_links (update_link peer g p2)) (n_links p2) l) as (l0 & Hl0 & [= Hi0 _ <- _]); [|done|eapply Hkind; [exact Hb2|done|congruence]].
    symmetry. cbn. rewrite <-list_fmap_compose. apply list_fmap_ext. intros ???. cbn. by case_if.
  - eexists _, n3. cbn zeta. unfold f2 in Hn3, Hok', Hfr', Hbr'. rewrite put_put in Hn3, Hok', Hfr', Hbr'. split_and!; [exact Hn3|done|exact Hok'| |].
    + eapply framed_trans; [eapply framed_weaken, Hfr2; set_solver|]. unfold f2. exact Hfr'.
    + eapply (bridges_trans _ _ f2); [apply get_key; unfold f2; rewrite keys_put; apply (get_key f); eauto| |exact Hbr'].
      destruct (decide (a = b)) as [->|]; [done|]. intros m m' Hm. unfold f2. rewrite get_put, decide_False by (rewrite ?get_next; eauto). rewrite get_next. intros Hm'. by assert (m' = m) as -> by congruence.
Qed.
Record created (a b : positive) (c : link_change) (f f' : md_network_fabric) (r : Z + Z) : Prop := mk_created {
  cr_frame : framed [a; b] f f';
  cr_bridges : ∀ index, r = inl index → bridges_stay a f f';
  cr_ok : fabric_ok f' ∨ pending a f' ∧ ∀ index x, r = inl index → c_name c = Some x → ∃ n, get_space f' a = Some n ∧ (index, x) ∈ named (n_links n) }.
Lemma created_same a b c f r : fabric_ok f → created a b c f f r.
Proof. intros Hf. split; [apply framed_refl|intros; apply bridges_refl|by left]. Qed.
Lemma create_link_ok m m' f a b c n p :
  fabric_ok f → get_space f a = Some n → get_space f b = Some p → c_kind c ≠ MD_LINK_LOOPBACK →
  ∃ f' r, create_link m m' f a b c = Some (f', r) ∧ created a b c f f' r.
Proof.
  intros Hf Hn Hp Hk. unfold create_link. rewrite Hn, Hp. cbn zeta.
  destruct (new_names n p (bool_decide (b = a)) c) as [[name peer_name]|e] eqn:En; [|eauto using created_same].
  case_if; [eauto using created_same|].
  match goal with |- context [if ?x then Some (f, inr (- EEXIST)) else _] => destruct x; [eauto using created_same|] end.
  match goal with |- context [if negb (?x =? 0) then _ else _] => destruct (negb (x =? 0)); [eauto using created_same|] end.
  destruct (md_network_interface_add true (f_next_index f) n (c_kind c) name) as [[[next n1] index]|e] eqn:Ea; [|eauto using created_same].
  destruct (fabric_add _ _ _ _ _ _ _ _ Hf Hn Hk Ea) as (Hf1 & Hfr1 & Hbr1 & Hend & Hls & Hid & Hok1 & Hc1).
  set (f1 := put_space (with_next next f) a n1) in *. pose proof (fk_next _ Hf).
  assert (get_space f1 a = Some n1) as Hn1 by (unfold f1; rewrite get_put, decide_True by (rewrite ?get_next; eauto); done).
  assert (framed [a; b] f f1) as Hfr by (eapply framed_weaken, Hfr1; set_solver).
  destruct (bool_decide_reflect (c_kind c = MD_LINK_VETH)) as [Hveth|Hveth].
  - assert (is_Some (get_space f1 b)) as [p1 Hp1] by (apply get_key; unfold f1; rewrite keys_put; apply (get_key f); eauto). rewrite Hp1.
    rewrite Hveth in Hls. destruct (md_network_interface_add true next p1 MD_LINK_VETH (default ""%string peer_name)) as [[[next2 p2] peer]|e] eqn:Eb.
    + destruct (create_cable f1 a b n1 p1 c index next2 p2 peer name (n_links n) n) with (nm := default ""%string peer_name) as (f' & n3 & Hn3 & -> & Hok' & Hfr' & Hbr'); try done; [apply Hend; by right|lia|].
      cbn zeta in Hn3. rewrite Hn3. eexists _, _. split; [done|]. split; [by eapply framed_trans|intros; apply (bridges_trans _ _ f1); eauto|by left].
    + destruct (interface_remove_ok f1 a n1 index Hf1 Hn1) as (f' & e' & Hr & Hok' & Hfr'). rewrite Hr. cbn [mbind option_bind].
      eexists _, _. split; [done|]. split; [eapply framed_trans; [exact Hfr|eapply framed_weaken, Hfr']|done|by left].
      destruct (snd <$> md_network_interface_find n1 index None) as [l|] eqn:El; cbn; [|set_solver]. apply index_in in El as (_ & Hl & Hi).
      assert (l_peer l = 0) as ->; [|unfold owner_list; rewrite owner_zero; cbn; set_solver].
      eapply (end_unique _ Hf1 a a index); [exists n1; split; [done|]; apply in_ends; eauto|apply Hend; by right|lia].
  - destruct (bool_decide_reflect (c_kind c = MD_LINK_VXLAN)) as [Hvx|]; [|eexists _, _; split; [done|]; split; [done|by intros|by left]].
    destruct (new_tunnel c index n1) as [n2 e] eqn:Et. destruct (new_tunnel_base _ _ _ _ _ Et (proj1 Hok1)) as (Hb2 & He2 & Hc2 & Hbr2 & Hnm2).
    eexists _, _. split; [done|]. split.
    + eapply framed_trans; [exact Hfr|]. eapply framed_put; [by left|exact Hn1|done].
    + intros _ _. apply (bridges_trans _ _ f1); [eauto|done|]. by eapply bridges_put.
    + right. split; [by exists f1, n1, n2|]. intros i x Hi Hx. exists n2. rewrite get_put, decide_True by eauto. split; [done|]. unfold named. rewrite Hnm2, Hls, fmap_app. apply elem_of_app. right. apply list_elem_of_singleton.
      destruct (e =? 0); [|done]. injection Hi as <-. cbn. by rewrite (new_names_name _ _ _ _ _ _ _ En Hx).
Qed.

(** ** Link requests *)

Definition masters_checked (c : link_change) (n : md_network_namespace) : Prop := ∀ m, c_master c = Some m → m ≠ 0 → bridge_in (n_links n) m.
Lemma change_check_master n type flags c link : change_check n type flags c link = 0 → masters_checked c n.
Proof.
  unfold change_check. cbn zeta. intros H m Hm H0. rewrite Hm in H.
  repeat match type of H with (if ?b then _ else _) = 0 => destruct b eqn:?; [discriminate H|] end.
  match goal with H : negb (m =? 0) && _ = false |- _ => rename H into Hc end. rewrite (proj2 (Z.eqb_neq m 0) H0) in Hc. cbn in Hc.
  destruct (snd <$> md_network_interface_find n m None) as [b|] eqn:Eb; [|done]. apply index_in in Eb as (_ & Hb & Hi). exists b. split_and!; [done..|].
  by apply negb_false_iff, bool_decide_eq_true in Hc.
Qed.
Lemma adjust_link_ok memory f a index c target n :
  fabric_ok f → get_space f a = Some n → (∀ o, target = Some o → is_Some (get_space f o)) → (target = None → masters_checked c n) →
  ∃ f' e, adjust_link memory f a index c target = Some (f', e) ∧ fabric_ok f' ∧ framed [a; default a target] f f'.
Proof.
  intros Hf Hn Ht Hm. unfold adjust_link. rewrite Hn. destruct (snd <$> md_network_interface_find n index None) as [link|]; [|eauto using framed_refl]. cbn zeta.
  set (o := default a target). assert (is_Some (get_space f o)) as [m Ho] by (unfold o; destruct target; cbn; eauto).
  match goal with |- context [if ?b then md_network_interface_move _ _ _ _ _ _ else _] => set (away := b) end.
  assert (∃ f1 e, (if away then md_network_interface_move memory f a o index (c_name c) else Some (f, 0)) = Some (f1, e) ∧ fabric_ok f1 ∧ framed [a; o] f f1 ∧
    (a = o → ∀ n', get_space f1 a = Some n' → ∀ b, bridge_in (n_links n) b → bridge_in (n_links n') b)) as (f1 & e & -> & Hf1 & Hfr & Hbr).
  { destruct away; [by eapply interface_move_ok|]. exists f, 0. split_and!; [done..|apply framed_refl|]. intros _ n' Hn'. by assert (n' = n) as -> by congruence. }
  cbn [mbind option_bind]. case_if; [eauto|]. case_if; [eauto|].
  destruct (get_space f1 o) as [n1|] eqn:Hn1; [|eauto]. destruct (snd <$> md_network_interface_find n1 index None) as [l|]; [|eauto].
  assert (mild_change n1 (apply_link c index l n1)) as Hch.
  { apply apply_link_change. intros b Hb H0. destruct target as [t|] eqn:Et; [rewrite Hb in *; by cbn in *|]. apply (Hbr eq_refl n1 Hn1). by apply Hm. }
  eexists _, _. split_and!; [done| |].
  - eapply fabric_put; [done|exact Hn1|eapply mild_change_space; [done|by eapply fk_space]|apply Hch].
  - eapply framed_trans; [exact Hfr|]. eapply framed_put; [right; by left|exact Hn1|apply Hch].
Qed.
Lemma adjust_pending memory f a index c n :
  pending a f → get_space f a = Some n → masters_checked c n → (∀ x, c_name c = Some x → (index, x) ∈ named (n_links n)) →
  ∃ f' e, adjust_link memory f a index c None = Some (f', e) ∧ pending a f' ∧ framed [a] f f'.
Proof.
  intros Hp Hn Hm Hname. unfold adjust_link. rewrite Hn. destruct (snd <$> md_network_interface_find n index None) as [link|] eqn:El; [|eauto using framed_refl].
  cbn zeta. cbn [default from_option]. rewrite (bool_decide_eq_true_2 (a = a)) by done. cbn [negb orb].
  assert (match c_name c with Some x => negb (bool_decide (x = l_name link)) | None => false end = false) as ->.
  { destruct (c_name c) as [x|]; [|done]. specialize (Hname x eq_refl). apply list_elem_of_fmap in Hname as (l & [= Hi ->] & Hl).
    apply index_in in El as (_ & Hl' & Hi'). apply negb_false_iff, bool_decide_eq_true. f_equal.
    destruct (pending_get _ _ Hp) as (n' & Hn' & [Hls _]). assert (n' = n) as -> by congruence. eapply index_unique; [apply Hls|done..|congruence]. }
  cbn [id mbind option_bind negb Z.eqb]. rewrite bool_decide_eq_false_2 by (by intros [? ?]). cbn [andb]. rewrite Hn, El.
  assert (mild_change n (apply_link c index link n)) as Hch by (by apply apply_link_change).
  eexists _, _. split_and!; [done|by eapply pending_put|]. eapply framed_put; [by left|exact Hn|apply Hch].
Qed.
(** The namespaces that a link request changes. *)
Definition touched (f : md_network_fabric) (a : positive) (n : md_network_namespace) (type : link_request) (c : link_change) (target peer_target : option positive) : list positive :=
  a :: (if bool_decide (type = RTM_DELLINK) then from_option (λ l, owner_list f (l_peer l)) [] (snd <$> md_network_interface_find n (c_index c) (c_name c))
        else option_list target ++ option_list peer_target).
Lemma change_link_ok o f a type flags c target peer_target n :
  fabric_ok f → get_space f a = Some n → (∀ x, target = Some x ∨ peer_target = Some x → is_Some (get_space f x)) →
  ∃ f' e, change_link o f a type flags c target peer_target = Some (f', e) ∧ (fabric_ok f' ∨ pending a f') ∧ framed (touched f a n type c target peer_target) f f'.
Proof.
  intros Hf Hn Ht.
  assert (∀ (e : Z) T, ∃ f' e', Some (f, e) = Some (f', e') ∧ (fabric_ok f' ∨ pending a f') ∧ framed T f f') as Hsame by (intros e T; exists f, e; split_and!; [done|by left|apply framed_refl]).
  unfold change_link, touched. rewrite Hn. cbn zeta. set (link := snd <$> md_network_interface_find n (c_index c) (c_name c)).
  destruct (bool_decide_reflect (type = RTM_DELLINK)) as [->|Hd].
  { destruct link as [l|] eqn:El; [|apply Hsame]. destruct (interface_remove_ok f a n (l_index l) Hf Hn) as (f' & e & Hr & Hok & Hfr).
    exists f', e. split_and!; [done|by left|]. pose proof (fk_space _ Hf _ _ Hn) as [[Hls _] _].
    assert (l ∈ n_links n) as Hl by (unfold link in El; destruct (md_network_interface_find n (c_index c) (c_name c)) as [[k x]|] eqn:Ek; [|done]; injection El as ->; by eapply find_any).
    pose proof (ls_each _ Hls) as He. rewrite Forall_forall in He. pose proof (lk_index _ (He l Hl)).
    rewrite (found_index n (l_index l) l) in Hfr; [exact Hfr|apply Hls|done|done|lia]. }
  destruct (Z.eqb_spec (change_check n type flags c link) 0) as [Hcheck|]; cbn [negb]; [|apply Hsame]. apply change_check_master in Hcheck.
  destruct link as [l|].
  - case_if; [apply Hsame|]. case_if; [apply Hsame|].
    destruct (adjust_link_ok (mo_move o) f a (l_index l) c target n) as (f' & e & Hr & Hok & Hfr); [done|done|auto|done|]. exists f', e. split_and!; [done|by left|].
    eapply framed_weaken, Hfr. destruct target; set_solver.
  - case_if; [apply Hsame|]. case_if; [apply Hsame|].
    apply orb_false_iff in E0 as [[Hk _]%orb_false_iff Htn%bool_decide_eq_false].
    assert (target = None) as -> by (destruct target; [destruct Htn; eauto|done]). apply bool_decide_eq_false in Hk.
    assert (is_Some (get_space f (default a peer_target))) as [p Hp] by (destruct peer_target; cbn; eauto).
    destruct (create_link_ok (mo_links o) (mo_peer o) f a (default a peer_target) c n p Hf Hn Hp Hk) as (f1 & r & -> & [Hfr Hbr Hok]). cbn [mbind option_bind].
    assert (framed (a :: option_list None ++ option_list peer_target) f f1) as Hfr1 by (eapply framed_weaken, Hfr; destruct peer_target; set_solver).
    destruct r as [index|e]; [|exists f1, e; split_and!; [done|tauto|done]].
    assert (is_Some (get_space f1 a)) as [n1 Hn1] by (apply get_key; rewrite (fr_keys _ _ _ Hfr); apply get_key; eauto).
    assert (masters_checked c n1) as Hm1 by (intros m Hm H0; eapply (Hbr index eq_refl); eauto).
    destruct Hok as [Hf1|[Hp1 Hname]].
    + destruct (adjust_link_ok (mo_move o) f1 a index c None n1) as (f' & e & Hr & Hok' & Hfr'); [done..|]. exists f', e. split_and!; [done|by left|].
      eapply framed_trans; [exact Hfr1|]. eapply framed_weaken, Hfr'. set_solver.
    + destruct (adjust_pending (mo_move o) f1 a index c n1) as (f' & e & Hr & Hok' & Hfr'); [done..| |].
      * intros x Hx. destruct (Hname index x eq_refl Hx) as (n2 & Hn2 & Hin). congruence.
      * exists f', e. split_and!; [done|by right|]. eapply framed_trans; [exact Hfr1|]. eapply framed_weaken, Hfr'. set_solver.
Qed.
