(* ===== verification/NetRequest.v ===== *)
(** * Requests are atomic, and namespaces come and go (network_route.c, network_vxlan.c, network_model.c)

    A committed request keeps the invariant of the fabric, with every tunnel over a link
    that exists.  A request that is not committed leaves the fabric as it was, but
    for the counters of policy identities, as long as its journal holds the
    namespaces that it changes. *)
From S2P Require Import Prelude UserNamespace NetworkIp NetModel NetControl NetLink NetOk NetFabric.

(** ** The tunnels of a committed request *)

Lemma prepare_loop_checked open n before links :
  prepare_loop open n before links = 0 → Forall (λ l, is_vxlan l = true → underlay_error n (l_vxlan l) = false) links.
Proof.
  revert before. induction links as [|l links IH]; intros before; cbn; [by constructor|].
  destruct (is_vxlan l) eqn:Ev; cbn [negb]; [|intros H; constructor; [congruence|by eapply IH]].
  destruct (underlay_error n (l_vxlan l)) eqn:Eu; [done|]. case_if; [done|]. destruct (Z.eqb_spec (open (l_vxlan l)) 0); cbn [negb]; [|done].
  intros H. constructor; [done|by eapply IH].
Qed.
Lemma prepare_tunnels ports memory open stack n : md_network_vxlan_prepare ports memory open stack n = 0 → tunnels_ok (n_links n).
Proof.
  unfold md_network_vxlan_prepare. intros H l Hl Hv H0.
  assert (existsb is_vxlan (n_links n) = true) as Hex by (apply existsb_exists; exists l; split; [by apply list_elem_of_In|done]).
  rewrite Hex, orb_true_r in H. cbn [negb] in H. destruct memory; cbn [negb] in H; [|done].
  destruct (Z.eqb_spec (prepare_loop open n [] (n_links n)) 0) as [Hz|Hz]; cbn [negb] in H; [|done].
  apply prepare_loop_checked in Hz. rewrite Forall_forall in Hz. specialize (Hz l Hl Hv). unfold underlay_error in Hz.
  rewrite (proj2 (Z.eqb_neq _ 0) H0) in Hz. cbn [negb andb] in Hz. destruct (snd <$> md_network_interface_find n (vx_link (l_vxlan l)) None) as [u|] eqn:Eu; [|done].
  apply index_in in Eu as (_ & Hu & Hi). eauto.
Qed.

(** ** The journal *)

(** The same fabric, but for the counters of policy identities. *)
Record restored (f f' : md_network_fabric) : Prop := mk_restored {
  rs_next : f_next_index f' = f_next_index f;
  rs_keys : keys f' = keys f;
  rs_space : ∀ a n, get_space f a = Some n → ∃ p, get_space f' a = Some (set_next_policy p n) }.
Lemma same_policy n : set_next_policy (n_next_policy n) n = n.
Proof. by destruct n. Qed.
Lemma restored_refl f : restored f f.
Proof. split; [done..|]. intros a n Hn. exists (n_next_policy n). by rewrite same_policy. Qed.
Lemma restored_end f f' a i p : restored f f' → at_end f' a i p ↔ at_end f a i p.
Proof.
  intros [_ Hk Hs]. unfold at_end. split.
  - intros (n' & Hn' & H). assert (is_Some (get_space f a)) as [n Hn] by (apply get_key; rewrite <-Hk; apply get_key; eauto).
    destruct (Hs _ _ Hn) as (q & Hq). assert (n' = set_next_policy q n) as -> by congruence. by exists n.
  - intros (n & Hn & H). destruct (Hs _ _ Hn) as (q & Hq). eauto.
Qed.
Lemma space_policy n p : space_ok n → space_ok (set_next_policy p n).
Proof. intros [[Hl Ht] Hv]. split; [split; [done|by apply tables_policy]|done]. Qed.
Lemma restored_ok f f' : restored f f' → fabric_ok f → fabric_ok f'.
Proof.
  intros Hr [Hk Hn Hs Hb Hu Hp]. pose proof (λ a i p, restored_end f f' a i p Hr) as He. destruct Hr as [Rn Rk Rs].
  split; [by rewrite Rk|by rewrite Rn| |setoid_rewrite He; by rewrite Rn|setoid_rewrite He; done|setoid_rewrite He; done].
  intros a n' Hn'. assert (is_Some (get_space f a)) as [n Hn0] by (apply get_key; rewrite <-Rk; apply get_key; eauto).
  destruct (Rs _ _ Hn0) as (q & Hq). assert (n' = set_next_policy q n) as -> by congruence. by eapply space_policy, Hs.
Qed.
Lemma set_tables_policy n n' : config n' = config n → set_tables n n' = set_next_policy (n_next_policy n') n.
Proof. destruct n, n'. unfold config, set_tables, set_next_policy. cbn. by intros [= -> -> -> -> ->]. Qed.
(** All but the namespaces [D] are as they were. *)
Record half (D : list positive) (f f' : md_network_fabric) : Prop := mk_half {
  hf_keys : keys f' = keys f;
  hf_space : ∀ x n, get_space f x = Some n → ∃ n', get_space f' x = Some n' ∧ config n' = config n ∧ (x ∈ D ∨ ∃ p, n' = set_next_policy p n) }.
Lemma framed_half S f f' : framed S f f' → half S f f'.
Proof.
  intros [Hk Ho Hc]. split; [done|]. intros x n Hn. assert (is_Some (get_space f' x)) as [n' Hn'] by (apply get_key; rewrite Hk; apply get_key; eauto).
  exists n'. split_and!; [done|by eapply Hc|]. destruct (decide (x ∈ S)) as [|Hx]; [by left|right].
  rewrite (Ho _ Hx) in Hn'. exists (n_next_policy n). rewrite same_policy. congruence.
Qed.
Lemma half_restore D E f f' a : half D f f' → D ⊆ a :: E → half E f (checkpoint_restore f a f').
Proof.
  intros [Hk Hs] HD. unfold checkpoint_restore. destruct (get_space f a) as [s|] eqn:Ea.
  - destruct (Hs _ _ Ea) as (s' & Hs' & Hcs & _). rewrite Hs'. split; [by rewrite keys_put|]. intros x n Hn. rewrite get_put by eauto.
    destruct (decide (x = a)) as [->|Hne].
    + assert (s = n) as -> by congruence. exists (set_tables n s'). rewrite (set_tables_policy _ _ Hcs). split_and!; [done|done|]. eauto.
    + destruct (Hs _ _ Hn) as (n' & Hn' & Hc & Hor). exists n'. split_and!; [done..|]. destruct Hor as [Hx|]; [left|by right]. set_solver.
  - split; [done|]. intros x n Hn. destruct (Hs _ _ Hn) as (n' & Hn' & Hc & Hor). exists n'. split_and!; [done..|]. destruct Hor as [Hx|]; [left|by right].
    assert (x ≠ a) by congruence. set_solver.
Qed.
Lemma half_restored f f' next : half [] f f' → next = f_next_index f → restored f (with_next next f').
Proof.
  intros [Hk Hs] ->. split; [done..|]. intros x n Hn. destruct (Hs _ _ Hn) as (n' & Hn' & _ & [Hx|[p ->]]); [by apply elem_of_nil in Hx|]. exists p. done.
Qed.
(** The journal puts the namespaces back that it holds. *)
Lemma journal_restored f f' a other S :
  framed S f f' → S ⊆ a :: option_list other →
  restored f (with_next (f_next_index f) (match other with
    | Some o => if bool_decide (o = a) then checkpoint_restore f a f' else checkpoint_restore f o (checkpoint_restore f a f')
    | None => checkpoint_restore f a f' end)).
Proof.
  intros Hfr HS. apply half_restored; [|done]. apply framed_half in Hfr. destruct other as [o|]; [case_bool_decide as Ho|]; cbn in HS.
  - eapply half_restore; [exact Hfr|]. subst. set_solver.
  - eapply half_restore; [eapply half_restore; [exact Hfr|exact HS]|done].
  - by eapply half_restore.
Qed.

(** ** Requests *)

(** The journal of a request holds what it changes: a removal names no namespace. *)
Definition journaled (q : request) : Prop :=
  match q with LinkRequest RTM_DELLINK _ _ namespace peer_namespace => namespace = None ∧ peer_namespace = None | _ => True end.
Lemma resolve_get f r refused x : resolve f r refused = inl (Some x) → is_Some (get_space f x).
Proof.
  unfold resolve. destruct r as [[[a k]|e]|]; [|done..]. destruct k; cbn [negb]; [|done]. case_bool_decide as Hs; cbn [negb]; [|done]. destruct refused; [done|]. congruence.
Qed.
(** A request names one namespace at most. *)
Lemma request_targets_one f q t p : request_targets f q ≠ inl (Some t, Some p).
Proof.
  unfold request_targets. destruct q; [|done..]. destruct (resolve f namespace _) as [x|]; [|done]. destruct (resolve f peer_namespace _) as [y|] eqn:E; [|done].
  cbn. intros [= -> ->]. rewrite bool_decide_eq_true_2 in E by eauto. unfold resolve in E. destruct peer_namespace as [[[b k]|e]|]; [|done..].
  destruct k; cbn [negb] in E; [|done]. by case_bool_decide.
Qed.
Lemma request_targets_get f q target peer_target x : request_targets f q = inl (target, peer_target) → target = Some x ∨ peer_target = Some x → is_Some (get_space f x).
Proof.
  unfold request_targets. destruct q; try (intros [= <- <-] [?|?]; done).
  destruct (resolve f namespace _) as [t|] eqn:E1; [|done]. destruct (resolve f peer_namespace _) as [p|] eqn:E2; [|done]. cbn.
  intros [= -> ->] [->| ->]; by eapply resolve_get.
Qed.
(** The requests on tables. *)
Lemma in_space_ok f a n r :
  fabric_ok f → get_space f a = Some n → (∀ n', r n = inl n' → table_change n n' ∧ (base_ok n → base_ok n')) →
  ∃ f' e, in_space f a r = Some (f', e) ∧ fabric_ok f' ∧ framed [a] f f'.
Proof.
  intros Hf Hn Hr. unfold in_space. rewrite Hn. destruct (r n) as [n'|e]; [|eauto using framed_refl]. destruct (Hr n' eq_refl) as [[Hl Hc] Hb].
  pose proof (fk_space _ Hf _ _ Hn) as [Hbn Htn]. eexists _, _. split_and!; [done| |eapply framed_put; [by left|exact Hn|apply Hc]].
  eapply fabric_put; [done..|split; [auto|by rewrite Hl]|by rewrite Hl].
Qed.
Definition request_touched (f : md_network_fabric) (a : positive) (n : md_network_namespace) (q : request) (target peer_target : option positive) : list positive :=
  match q with LinkRequest type _ c _ _ => touched f a n type c target peer_target | _ => [a] end.
Lemma dispatch_ok o f a q n target peer_target :
  fabric_ok f → get_space f a = Some n → request_targets f q = inl (target, peer_target) →
  ∃ f' e, dispatch o f a q target peer_target = Some (f', e) ∧ framed (request_touched f a n q target peer_target) f f' ∧
    (fabric_ok f' ∨ pending a f' ∧ ∃ type flags c x y, q = LinkRequest type flags c x y).
Proof.
  intros Hf Hn Ht. pose proof (fk_space _ Hf _ _ Hn) as [Hb _]. destruct q as [type flags c x y|q|q|q]; cbn [dispatch request_touched].
  - destruct (change_link_ok (ro_memory o) f a type flags c target peer_target n) as (f' & e & Hr & Hok & Hfr); [done..|intros z Hz; by eapply request_targets_get|].
    exists f', e. split_and!; [done..|]. naive_solver.
  - destruct (in_space_ok f a n (λ n, md_network_routes (ro_timer o) (ro_now o) n q)) as (f' & e & Hr & Hok & Hfr); [done..|intros n' H; apply routes_ok in H as []; auto|]. eauto 6.
  - destruct (in_space_ok f a n (λ n, md_network_nexthops n q)) as (f' & e & Hr & Hok & Hfr); [done..|intros n' H; apply nexthops_ok in H as []; auto|]. eauto 6.
  - destruct (in_space_ok f a n (λ n, md_network_rules n q)) as (f' & e & Hr & Hok & Hfr); [done..|intros n' H; by apply rules_ok in H|]. eauto 6.
Qed.
Lemma journal_holds f a n q target peer_target :
  get_space f a = Some n → journaled q → request_targets f q = inl (target, peer_target) →
  request_touched f a n q target peer_target ⊆ a :: option_list (journal_other f a q target peer_target).
Proof.
  intros Hn Hj Ht. destruct q as [type flags c x y|q|q|q]; cbn [request_touched journal_other]; [|set_solver..]. unfold touched.
  case_bool_decide as Hd.
  - subst. destruct Hj as [-> ->]. cbn in Ht. injection Ht as <- <-. rewrite Hn. cbn [mbind option_bind].
    destruct (snd <$> md_network_interface_find n (c_index c) (c_name c)) as [l|]; cbn [mbind option_bind from_option]; [|set_solver].
    unfold owner_list. by destruct (md_network_interface_owner f (l_peer l)) as [[? ?]|]; cbn.
  - destruct peer_target as [p|], target as [t|]; try set_solver. by apply request_targets_one in Ht.
Qed.
(** A request returns; it keeps the invariant, and undoes itself when it is not committed. *)
Lemma request_ok o f a q n :
  fabric_ok f → get_space f a = Some n → journaled q →
  ∃ f' e commit, md_network_route o f a q = Some (f', e, commit) ∧ fabric_ok f' ∧ (commit = false → restored f f').
Proof.
  intros Hf Hn Hj. unfold md_network_route.
  assert (∀ e : Z, ∃ f' e' commit, Some (f, e, false) = Some (f', e', commit) ∧ fabric_ok f' ∧ (commit = false → restored f f')) as Hsame by (intros e; exists f, e, false; eauto using restored_refl).
  case_if; [apply Hsame|]. destruct (request_targets f q) as [[target peer_target]|e] eqn:Et; [|apply Hsame]. case_if; [apply Hsame|]. cbn zeta.
  destruct (dispatch_ok o f a q n target peer_target Hf Hn Et) as (f1 & e & -> & Hfr & Hok). cbn [mbind option_bind].
  set (error := and_then e (settle o f1 a q)).
  match goal with |- context [if ?b then Some (f1, error, true) else _] => destruct b eqn:Ecommit end.
  - exists f1, error, true. split_and!; [done| |done]. destruct Hok as [|[Hp (type & flags & c & x & y & ->)]]; [done|].
    apply andb_true_iff in Ecommit as [He%Z.eqb_eq _]. destruct (pending_get _ _ Hp) as (n1 & Hn1 & _). eapply pending_done; [done|exact Hn1|].
    unfold error, settle, and_then in He. rewrite Hn1 in He.
    repeat match type of He with (if ?b then _ else ?z) = 0 => destruct (Z.eqb_spec z 0) as [|]; [|congruence] end. eapply prepare_tunnels, He.
  - eexists _, _, _. split; [done|]. assert (∀ g, restored f g → fabric_ok g ∧ (false = false → restored f g)) as Hfin by (intros g Hg; split; [by eapply restored_ok|done]).
    apply Hfin. eapply journal_restored; [exact Hfr|by apply journal_holds].
Qed.

(** ** New namespaces *)

Lemma empty_space_ok routed : space_ok (empty_space routed).
Proof.
  split; [split|]; [split; cbn; try constructor; try done; by intros ? ?%elem_of_nil| |by intros ? ?%elem_of_nil].
  split; cbn; try constructor; try done. all: repeat constructor; unfold earlier; cbn; lia.
Qed.
Lemma get_front next a n f x : a ∉ keys f → get_space (put_front next a n f) x = if decide (x = a) then Some n else get_space f x.
Proof.
  intros Ha. unfold put_front. rewrite get_cons. destruct (decide (x = a)) as [->|]; [by rewrite decide_True|]. rewrite decide_False by done. by destruct f.
Qed.
(** A namespace without cables joins the fabric. *)
Lemma front_ok f a n next :
  fabric_ok f → a ∉ keys f → space_ok n → f_next_index f ≤ next ≤ INT_MAX →
  (∀ i p, (i, p) ∈ ends (n_links n) → p = 0 ∧ (i = 1 ∨ f_next_index f ≤ i < next)) → fabric_ok (put_front next a n f).
Proof.
  intros Hf Ha Hok Hnext Hends. pose proof (fk_next _ Hf).
  assert (∀ x i p, at_end (put_front next a n f) x i p ↔ x = a ∧ (i, p) ∈ ends (n_links n) ∨ x ≠ a ∧ at_end f x i p) as He.
  { intros x i p. unfold at_end. rewrite get_front by done. destruct (decide (x = a)); naive_solver. }
  split; [|cbn; lia| | | |].
  - unfold put_front. rewrite keys_cons. apply NoDup_cons. split; [exact Ha|exact (fk_keys _ Hf)].
  - intros x m. rewrite get_front by done. destruct (decide (x = a)); [congruence|apply Hf].
  - cbn. intros x i p [[_ Hi]|[_ Hi]]%He; [apply Hends in Hi; lia|apply (fk_below _ Hf) in Hi; lia].
  - intros x y i p q [[-> Hp]|[Hx Hp]]%He [[-> Hq]|[Hy Hq]]%He H1; [done| | |by eapply (fk_unique _ Hf)].
    + apply Hends in Hp. apply (fk_below _ Hf) in Hq. lia.
    + apply Hends in Hq. apply (fk_below _ Hf) in Hp. lia.
  - intros x i p [[-> Hp]|[Hx Hp]]%He H0; [by apply Hends in Hp as [-> _]|]. destruct (fk_peer _ Hf _ _ _ Hp H0) as (y & Hy). exists y. apply He. right. split; [|done].
    intros ->. destruct Hy as (m & Hm & _). apply Ha, get_key. eauto.
Qed.
Lemma bring_up_mild ls l : mild ls l (bring_up l).
Proof. eapply mild_trans, up_mild. split; [done|by intros []|by left|done]. Qed.
Lemma uplink_mild ls l : mild ls l (uplink_addresses l).
Proof. unfold uplink_addresses. eapply mild_trans; [eapply mild_trans; [apply bring_up_mild|]|]; apply add_address_mild. Qed.
Lemma uplink_routes_ok n i : space_ok n → n_routes n = [] → i ∈ indexes (n_links n) → space_ok (set_routes (n_routes n ++ uplink_routes i) n).
Proof.
  intros [Hb Ht] Hr Hi. split; [|done]. apply set_routes_ok; [|rewrite Hr; done|done]. rewrite Hr. repeat constructor; try done.
Qed.
Lemma create_ok memory memory' f a mode f' : fabric_ok f → a ∉ keys f → create memory memory' f a mode = Some f' → fabric_ok f'.
Proof.
  intros Hf Ha. unfold create. cbn zeta. set (routed := bool_decide (mode = MD_NETWORK_ROUTED)). pose proof (fk_next _ Hf).
  destruct (md_network_interface_add memory (f_next_index f) (empty_space routed) MD_LINK_LOOPBACK "lo") as [[[next n] id]|] eqn:E1; [|done].
  apply interface_add_ok in E1 as (Hok & Hls & Hid & Hnext & Hmax & _ & Hr); [|apply empty_space_ok|done|by intros ? ?%elem_of_nil|intros _; apply not_elem_of_nil].
  change (loopback_kind MD_LINK_LOOPBACK) with true in *. cbn match in *. cbn in Hls. subst id next. destruct routed; cbn [negb].
  - set (n1 := set_links (alter bring_up 0%nat (n_links n)) n).
    assert (mild_change n n1) as Hm1.
    { apply mild_links_change. rewrite Hls. constructor; [apply bring_up_mild|constructor]. }
    assert (ends (n_links n1) = [(1, 0)]) as He1 by (rewrite (mc_ends _ _ Hm1), Hls; done).
    destruct (md_network_interface_add memory' (f_next_index f) n1 MD_LINK_UPLINK "eth0") as [[[next n2] up2]|] eqn:E2; [|done]. intros [= <-].
    apply interface_add_ok in E2 as (Hok2 & Hls2 & Hid2 & Hnext2 & Hmax2 & _ & Hr2); [|by eapply mild_change_space|done| |done].
    2:{ intros l Hl. assert ((l_index l, l_peer l) ∈ ends (n_links n1)) as Hin by (apply in_ends; eauto). rewrite He1 in Hin. apply list_elem_of_singleton in Hin. injection Hin as -> _. lia. }
    change (loopback_kind MD_LINK_UPLINK) with false in *. cbn match in *. subst up2 next. set (u := f_next_index f) in *.
    assert (mild_change n2 (update_link u uplink_addresses n2)) as Hm3 by (apply update_change; intros; apply uplink_mild).
    assert (ends (n_links (update_link u uplink_addresses n2)) = [(1, 0); (u, 0)]) as He3.
    { rewrite (mc_ends _ _ Hm3), Hls2. unfold ends in *. rewrite fmap_app, He1. done. }
    apply front_ok; [done..| |lia|].
    + change (n_routes n2) with (n_routes (update_link u uplink_addresses n2)). apply uplink_routes_ok; [by eapply mild_change_space|cbn; rewrite Hr2; cbn; done|].
      apply in_index. exists 0. rewrite He3. right. left.
    + cbn [n_links set_routes]. rewrite He3. intros i p. rewrite !elem_of_cons, elem_of_nil. intros [[= -> ->]|[[= -> ->]|[]]]; split; [done|by left|done|right; lia].
  - intros [= <-]. apply front_ok; [done..|lia|]. rewrite Hls. intros i p Hin%list_elem_of_singleton. injection Hin as -> ->. split; [done|by left].
Qed.

(** ** The end of a namespace *)

(** The other ends of the links [D] of namespace [a] are gone. *)
Record releasing (f : md_network_fabric) (a : positive) (D : list md_network_interface) (g : md_network_fabric) : Prop := mk_releasing {
  rl_keys : keys g = keys f;
  rl_next : f_next_index g = f_next_index f;
  rl_self : get_space g a = get_space f a;
  rl_space : ∀ x n, get_space g x = Some n → space_ok n;
  rl_sub : ∀ x i p, at_end g x i p → at_end f x i p;
  rl_keep : ∀ x i p, at_end f x i p → p ≠ 0 → x = a ∨ (∀ l, l ∈ D → i ≠ l_peer l) → at_end g x i p;
  rl_gone : ∀ l, l ∈ D → l_peer l ≠ 0 → ∀ x p, x ≠ a → ¬ at_end g x (l_peer l) p }.
Lemma release_step_ok f a n D l g :
  fabric_ok f → get_space f a = Some n → l ∈ n_links n → releasing f a D g → ∃ g', release_step a (Some g) l = Some g' ∧ releasing f a (D ++ [l]) g'.
Proof.
  intros Hf Hn Hl [Hk Hx Ha Hs Hsub Hkeep Hgone]. unfold release_step. cbn [mbind option_bind].
  assert (NoDup (keys g)) as Hnd by (rewrite Hk; apply Hf).
  assert (∀ x i p, at_end f x i p → p ≠ 0 → x = a ∨ (∀ y, y ∈ D ++ [l] → i ≠ l_peer y) → at_end g x i p) as Hkeep'.
  { intros x i p H H0 Hor. apply Hkeep; [done..|]. destruct Hor as [|Hy]; [by left|right]. intros y Hin. apply Hy, elem_of_app. by left. }
  assert ((l_peer l ≠ 0 → ∀ x p, x ≠ a → ¬ at_end g x (l_peer l) p) → releasing f a (D ++ [l]) g) as Hstay.
  { intros Hl0. split; try done. intros y [Hy| ->%list_elem_of_singleton]%elem_of_app; [by apply Hgone|done]. }
  destruct (md_network_interface_owner g (l_peer l)) as [[o m]|] eqn:Eo.
  - apply owner_some in Eo as (Hm & Hp1 & q & Hq); [|done]. assert (at_end g o (l_peer l) q) as Hoq by (by exists m).
    case_bool_decide as Ho; [subst o; exists g; split; [done|]; apply Hstay; intros _ x p Hxa H; apply Hxa; by eapply (fk_unique _ Hf); [apply Hsub, H|apply Hsub, Hoq|]|].
    destruct (remove_step g o m (l_peer l) Hm (Hs _ _ Hm)) as (m' & Hr & Hok & Hfr & Hsub' & Hkeep2). rewrite Hr. cbn [mbind option_bind]. eexists. split; [done|]. split.
    + by rewrite keys_put.
    + done.
    + rewrite get_put by eauto. by rewrite decide_False by done.
    + apply space_put; [eauto|done..].
    + intros x i p H. by apply Hsub, Hsub'.
    + intros x i p H H0 Hor. apply Hkeep2; [by apply Hkeep'|done|]. destruct Hor as [->|Hy]; [left; congruence|right]. apply Hy, elem_of_app. right. by apply list_elem_of_singleton.
    + intros y [Hy| ->%list_elem_of_singleton]%elem_of_app H0 x p Hxa H; apply Hsub' in H as [H Hne]; [by eapply Hgone|].
      apply Hne; [|done]. by eapply (fk_unique _ Hf); [apply Hsub, H|apply Hsub, Hoq|].
  - exists g. split; [done|]. apply Hstay. intros H0 x p Hxa. apply owner_none; [done..| |done].
    assert (at_end f a (l_index l) (l_peer l)) as Hend by (exists n; split; [done|]; apply in_ends; eauto).
    destruct (fk_peer _ Hf _ _ _ Hend H0) as (y & Hy). apply (end_ok _ Hf _ _ _ Hy). pose proof (proj1 (end_ok _ Hf _ _ _ Hend)). lia.
Qed.
Lemma release_loop_ok f a n ls D g :
  fabric_ok f → get_space f a = Some n → (∀ l, l ∈ ls → l ∈ n_links n) → releasing f a D g → ∃ g', foldl (release_step a) (Some g) ls = Some g' ∧ releasing f a (D ++ ls) g'.
Proof.
  intros Hf Hn. revert D g. induction ls as [|l ls IH]; intros D g Hls Hr; cbn [foldl]; [rewrite app_nil_r; eauto|].
  destruct (release_step_ok f a n D l g Hf Hn) as (g1 & -> & Hr1); [apply Hls; by left|done|]. rewrite cons_middle, app_assoc. apply IH; [|done]. intros x Hx. apply Hls. by right.
Qed.
Lemma get_drop f a x : NoDup (keys f) → get_space (drop_space a f) x = if decide (x = a) then None else get_space f x.
Proof.
  destruct f as [next l]. intros _. unfold drop_space. cbn [f_next_index f_spaces]. induction l as [|[k n] l IH]; [by destruct (decide (x = a))|].
  rewrite get_cons, filter_cons. cbn [fst]. destruct (decide (k ≠ a)) as [Hka|Hka].
  - rewrite get_cons. destruct (decide (k = x)) as [->|]; [by rewrite decide_False|exact IH].
  - apply dec_stable in Hka as ->. rewrite IH. destruct (decide (x = a)) as [->|]; [done|]. by rewrite decide_False.
Qed.
Lemma keys_drop f a : NoDup (keys f) → NoDup (keys (drop_space a f)).
Proof. intros H. eapply sublist_NoDup; [exact H|]. apply fmap_sublist, sublist_filter. Qed.
Lemma namespace_release_ok f a n : fabric_ok f → get_space f a = Some n → ∃ f', md_network_namespace_release f a = Some f' ∧ fabric_ok f' ∧ get_space f' a = None.
Proof.
  intros Hf Hn. unfold md_network_namespace_release. rewrite Hn. cbn [mbind option_bind].
  destruct (release_loop_ok f a n (n_links n) [] f Hf Hn) as (g & Hg & Hr); [done|split; try done; [apply Hf|by intros ? ?%elem_of_nil]|]. rewrite Hg. cbn [mbind option_bind].
  destruct Hr as [Hk Hx Ha Hs Hsub Hkeep Hgone]. cbn [app] in Hkeep, Hgone. assert (NoDup (keys g)) as Hnd by (rewrite Hk; apply Hf).
  eexists. split_and!; [done| |by rewrite get_drop, decide_True].
  assert (∀ x i p, at_end (drop_space a g) x i p ↔ x ≠ a ∧ at_end g x i p) as He by (intros x i p; unfold at_end; rewrite get_drop by done; destruct (decide (x = a)); naive_solver).
  apply (fabric_prune f _ (λ i, i ≠ 1 ∧ (∃ p, at_end f a i p) ∨ i ≠ 0 ∧ ∃ j, at_end f a j i)); [done|by apply keys_drop|done| | | |].
  - intros x m. rewrite get_drop by done. destruct (decide (x = a)); [done|apply Hs].
  - intros x i p [Hxa H]%He. split; [by apply Hsub|]. intros [[H1 [q Hq]]|[H0 (j & m & Hm & (l & Hl & _ & <-)%in_ends)]].
    + apply Hxa. by eapply (fk_unique _ Hf); [apply Hsub, H|exact Hq|].
    + assert (m = n) as -> by congruence. by eapply Hgone.
  - intros x i p H H0 HR. assert (x ≠ a) as Hxa by (intros ->; apply HR; left; split; [by apply (end_ok _ Hf _ _ _ H)|eauto]). apply He. split; [done|].
    apply Hkeep; [done..|]. right. intros l Hl ->. apply HR. right. split; [pose proof (proj1 (end_ok _ Hf _ _ _ H)); lia|]. exists (l_index l), n. split; [done|]. apply in_ends. eauto.
  - intros x i p H H0 HR. destruct (fk_peer _ Hf _ _ _ H H0) as (y & Hy). pose proof (proj1 (end_ok _ Hf _ _ _ H)) as Hpos. destruct HR as [[H1 [q Hq]]|[_ [j Hj]]].
    + right. split; [lia|]. exists p. by destruct (end_unique _ Hf _ _ _ _ _ Hy Hq H1) as [_ ->].
    + left. destruct (end_ok _ Hf _ _ _ H) as [_ Hi1]. split; [auto|]. exists p. by rewrite (peer_unique _ Hf _ _ _ _ _ Hj H0 Hy).
Qed.
