(* ===== verification/NetSpec.v ===== *)
(** * What the network control plane guarantees (network_model.c, network_route.c, network_policy.c)

    Fabrics that are reachable by requests, by changes of addresses and of IPv6, and by new
    and released namespaces; the properties of all of them. *)
From stdpp Require Import sorting.
From S2P Require Import Prelude UserNamespace NetworkIp NetModel NetRoute NetControl NetLink NetOk NetFabric NetRequest.

Inductive network_step : md_network_fabric → md_network_fabric → Prop :=
| step_request o f a n q f' e commit :
    get_space f a = Some n → journaled q → md_network_route o f a q = Some (f', e, commit) → network_step f f'
| step_address f a n i l address remove exclusive l' :
    get_space f a = Some n → n_links n !! i = Some l → md_network_interface_address l address remove exclusive = inl l' →
    network_step f (put_space f a (set_links (<[i := l']> (n_links n)) n))
| step_disable f a n journal scope disabled n' :
    get_space f a = Some n → md_network_route_disable_ipv6 journal n scope disabled = inl n' → network_step f (put_space f a n')
| step_copy memory f a f' : a ∉ keys f → md_network_namespace_copy memory f a = Some f' → network_step f f'
| step_release f a f' : is_Some (get_space f a) → md_network_namespace_release f a = Some f' → network_step f f'.
Inductive reachable : md_network_fabric → Prop :=
| reach_new memory memory' a mode f : md_network_namespace_new memory memory' a mode = Some f → reachable f
| reach_step f f' : reachable f → network_step f f' → reachable f'.

Lemma no_spaces_ok : fabric_ok (mk_fabric 2 []).
Proof. split; [constructor|done|done|by intros ??? (?&?&?)|by intros ????? (?&?&?)|by intros ??? (?&?&?)]. Qed.
Lemma step_ok f f' : network_step f f' → fabric_ok f → fabric_ok f'.
Proof.
  intros Hs Hf. destruct Hs as [o f a n q f' e commit Hn Hj Hr|f a n i l address remove exclusive l' Hn Hi Hr|f a n journal scope disabled n' Hn Hr|memory f a f' Ha Hr|f a f' [n Hn] Hr].
  - destruct (request_ok o f a q n Hf Hn Hj) as (g & e' & c' & Hg & Hok & _). congruence.
  - assert (mild_change n (set_links (<[i := l']> (n_links n)) n)) as Hm by (eapply mild_links_change, mild_insert; [done|by eapply interface_address_ok]).
    eapply fabric_put; [done..|eapply mild_change_space; [exact Hm|by eapply fk_space]|apply Hm].
  - apply disable_ok in Hr as [Hs He]. eapply fabric_put; [done..|by eapply Hs, fk_space|done].
  - by eapply create_ok.
  - destruct (namespace_release_ok f a n Hf Hn) as (g & Hg & Hok & _). congruence.
Qed.
Lemma fabric_reachable f : reachable f → fabric_ok f.
Proof. induction 1 as [m m' a mode f Hr|f f' _ IH Hs]; [|by eapply step_ok]. eapply create_ok; [apply no_spaces_ok|apply not_elem_of_nil|exact Hr]. Qed.


(** C14: Every request whose journal holds what it changes returns.  When it is committed
    the fabric keeps its invariant; when it is not, every namespace has the links,
    routes, next hops, rules and policies that it had, and the next index is the same. *)
Theorem request_atomic o f a q n :
  reachable f → get_space f a = Some n → journaled q →
  ∃ f' e commit, md_network_route o f a q = Some (f', e, commit) ∧ fabric_ok f' ∧ (commit = false → restored f f').
Proof. intros Hf%fabric_reachable Hn Hj. by eapply request_ok. Qed.

(** C34: Releasing a namespace ends, whatever its links and their other ends are; the
    namespace is gone, no other namespace keeps a link whose other end was in it, and the
    fabric keeps its invariant. *)
Theorem release_complete f a n :
  reachable f → get_space f a = Some n →
  ∃ f', md_network_namespace_release f a = Some f' ∧ get_space f' a = None ∧ fabric_ok f' ∧
    ∀ x i p, at_end f' x i p → p ≠ 0 → ∃ y, y ≠ a ∧ at_end f' y p i.
Proof.
  intros Hf%fabric_reachable Hn. destruct (namespace_release_ok f a n Hf Hn) as (f' & Hr & Hok & Hgone). exists f'. split_and!; [done..|].
  intros x i p H H0. destruct (fk_peer _ Hok _ _ _ H H0) as (y & Hy). exists y. split; [|done]. intros ->. destruct Hy as (m & Hm & _). congruence.
Qed.

(** C33: A policy lookup in a reachable namespace follows the priorities: either every
    rule passes the packet on and the network is unreachable, or the answer is that
    of a rule, with the route of its table or the error of its action, and every
    rule of a smaller priority passes the packet on. *)
Theorem policy_route_order f a n source destination mark output :
  reachable f → get_space f a = Some n →
  Forall (declines n source destination mark output) (n_rules n) ∧ md_network_policy_route n source destination mark output = inr (- ENETUNREACH)
  ∨ ∃ r, r ∈ n_rules n ∧ answers n source destination mark output r (md_network_policy_route n source destination mark output)
      ∧ ∀ q, q ∈ n_rules n → ru_priority q < ru_priority r → declines n source destination mark output q.
Proof.
  intros Hf%fabric_reachable Hn. destruct (fk_space _ Hf _ _ Hn) as [[_ Ht] _]. unfold md_network_policy_route.
  destruct (policy_split n source destination mark output (n_rules n)) as [H|(before & r & after & Hsp & Hd & Ha)]; [by left|right].
  exists r. split_and!; [rewrite Hsp; apply elem_of_app; right; left|done|]. intros q Hq Hlt. rewrite Forall_forall in Hd.
  pose proof (tk_rules _ _ Ht) as Hs. rewrite Hsp in Hq, Hs. apply elem_of_app in Hq as [Hq|[->|Hq]%elem_of_cons]; [by apply Hd|lia|].
  apply StronglySorted_app in Hs as (_ & _ & Hs). apply StronglySorted_cons in Hs as [Hs _]. rewrite Forall_forall in Hs. specialize (Hs q Hq). unfold earlier in Hs. lia.
Qed.

(** ** An example *)

(** The routed root with its uplink, two private namespaces, and a cable from the root to the first of them. *)
Definition sample_outcome (delivered : Z) : request_outcome :=
  mk_outcome true true (mk_memory true true true) 0 0 0 0 0 false true (λ _, 0) 0 0 false delivered.
Definition sample_change (index : Z) (kind : md_network_link_kind) (name peer : option string) : link_change :=
  mk_change no_vxlan name peer kind index None None 0 0 None None None None None None None None None.
Definition sample_cable : request := LinkRequest RTM_NEWLINK NLM_F_CREATE (sample_change 0 MD_LINK_VETH (Some "v0"%string) (Some "v1"%string)) None (Some (inl (2%positive, true))).
(** Removing the end in the root; [namespace]: what the request names beside it. *)
Definition sample_removal (namespace : target_reference) : request := LinkRequest RTM_DELLINK 0 (sample_change 0 MD_LINK_LOOPBACK (Some "v0"%string) None) namespace None.
Definition or_empty (f : option md_network_fabric) : md_network_fabric := default (mk_fabric 2 []) f.
Definition sample_root : md_network_fabric := Eval vm_compute in or_empty (md_network_namespace_new true true 1 MD_NETWORK_ROUTED).
Definition sample_two : md_network_fabric := Eval vm_compute in or_empty (md_network_namespace_copy true sample_root 2).
Definition sample_three : md_network_fabric := Eval vm_compute in or_empty (md_network_namespace_copy true sample_two 3).
Definition sample_fabric : md_network_fabric := Eval vm_compute in or_empty (fst <$> (fst <$> md_network_route (sample_outcome 0) sample_three 1 sample_cable)).
Lemma sample_reachable : reachable sample_fabric.
Proof.
  eapply reach_step; [eapply reach_step; [eapply reach_step; [eapply (reach_new true true 1 MD_NETWORK_ROUTED)|eapply (step_copy true sample_root 2)]|eapply (step_copy true sample_two 3)]|].
  - vm_compute. reflexivity.
  - apply (bool_decide_unpack _). vm_compute. exact I.
  - vm_compute. reflexivity.
  - apply (bool_decide_unpack _). vm_compute. exact I.
  - vm_compute. reflexivity.
  - eapply (step_request (sample_outcome 0) sample_three 1 _ sample_cable); [vm_compute; reflexivity|exact I|vm_compute; reflexivity].
Qed.
(** A link of a concrete fabric. *)
Ltac compute_end := eexists; split; [vm_compute; reflexivity|]; apply (bool_decide_unpack _); vm_compute; exact I.
(** Removing the cable, with an answer that cannot be delivered. *)
Lemma request_atomic_witness :
  ∃ f' e commit, md_network_route (sample_outcome (- EAGAIN)) sample_fabric 1 (sample_removal None) = Some (f', e, commit) ∧ fabric_ok f' ∧ (commit = false → restored sample_fabric f').
Proof. eapply (request_atomic (sample_outcome (- EAGAIN)) sample_fabric 1 (sample_removal None)); [exact sample_reachable|vm_compute; reflexivity|split; reflexivity]. Defined.
Lemma release_complete_witness :
  ∃ f', md_network_namespace_release sample_fabric 2 = Some f' ∧ get_space f' 2 = None ∧ fabric_ok f' ∧ ∀ x i p, at_end f' x i p → p ≠ 0 → ∃ y, y ≠ 2%positive ∧ at_end f' y p i.
Proof. eapply (release_complete sample_fabric 2); [exact sample_reachable|vm_compute; reflexivity]. Defined.
Definition sample_space : md_network_namespace := Eval vm_compute in default (empty_space true) (get_space sample_fabric 1).
Lemma policy_route_order_witness :
  let route := md_network_policy_route sample_space (md_ip_any AF_INET) (md_ip_v4 [10; 0; 2; 2]) 0 0 in
  Forall (declines sample_space (md_ip_any AF_INET) (md_ip_v4 [10; 0; 2; 2]) 0 0) (n_rules sample_space) ∧ route = inr (- ENETUNREACH)
  ∨ ∃ r, r ∈ n_rules sample_space ∧ answers sample_space (md_ip_any AF_INET) (md_ip_v4 [10; 0; 2; 2]) 0 0 r route
      ∧ ∀ q, q ∈ n_rules sample_space → ru_priority q < ru_priority r → declines sample_space (md_ip_any AF_INET) (md_ip_v4 [10; 0; 2; 2]) 0 0 q.
Proof. apply (policy_route_order sample_fabric 1 sample_space); [exact sample_reachable|vm_compute; reflexivity]. Defined.

Definition sample_gap : md_network_fabric :=
  Eval vm_compute in or_empty (fst <$> (fst <$> md_network_route (sample_outcome (- EAGAIN)) sample_fabric 1 (sample_removal (Some (inl (3%positive, true)))))).

(** C35: A removal that names a namespace is not covered by its journal: there is a
    reachable fabric with a cable, and a removal of one end whose answer cannot be delivered,
    so that it is not committed, after which that end is back and no namespace has
    the other one. *)
Theorem removal_journal_gap :
  ∃ o f a q f' e i p, reachable f ∧ md_network_route o f a q = Some (f', e, false) ∧ at_end f a i p ∧ (∃ b, at_end f b p i)
    ∧ at_end f' a i p ∧ ∀ b r, ¬ at_end f' b p r.
Proof.
  exists (sample_outcome (- EAGAIN)), sample_fabric, 1%positive, (sample_removal (Some (inl (3%positive, true)))), sample_gap, 0, 3, 4.
  split_and!; [exact sample_reachable|vm_compute; reflexivity|compute_end|exists 2%positive; compute_end|compute_end|].
  intros b r. apply owner_none; [|vm_compute; reflexivity|done..]. apply (bool_decide_unpack _). vm_compute. exact I.
Qed.
